(* ===== verification/_CoqProject ===== *)
-Q . S2P
Prelude.v
GoStd.v
GoJson.v
JsonRoundtrip.v
GoStruct.v
GoText.v
WorkerPool.v
Tx.v
Block.v
BlockCodec.v
PbftTypes.v
PbftState.v
PbftCert.v
PbftInv.v
PbftSteps.v
PbftView.v
PbftReach.v
PbftLive.v
PbftCheckpoint.v
PbftTheorems.v
StateRoot.v
MvMemory.v
Heap.v
Scheduler.v
Mempool.v
Serial.v
SerialProps.v
Footprint.v
Ledger.v
StateDB.v
Durability.v
BlockStore.v
BlockStoreProps.v
BlockStoreTheorems.v
BlockStoreRange.v
BlockStoreExamples.v
MvLatest.v
BlockStm.v
BlockStmInv.v
BlockStmSteps.v
BlockStmResults.v
BlockStmSerial.v
BlockStmLive.v
BlockStmTheorems.v
Reorder.v
Aria.v
AriaProps.v
AriaTheorems.v
AriaSelection.v
Groundhog.v
GroundhogProps.v
GroundhogOrder.v
GroundhogAccept.v
GroundhogTheorems.v
GroundhogLedger.v
GroundhogReplay.v
GroundhogProposal.v
GroundhogExamples.v
BatchSI.v
BatchSIWire.v
BatchSIExec.v
BatchSIParts.v
Kahn.v
BatchSIOrder.v
BatchSIBuild.v
BatchSIPool.v
BatchSISerial.v
BatchSIBinding.v
BatchSITheorems.v
BatchSICodec.v
BatchSIProposal.v
BatchSIExamples.v
TxSign.v
PbftAuth.v
PbftIdentity.v
PbftAgreement.v
ConsensusBlock.v
CrossShard.v
AuthExamples.v
