(* ===== verification/Prelude.v ===== *)
(** * A verification library for the MBE blockchain executor

    MBE runs permissioned, sharded blockchains for experiments: a supervisor
    starts node processes, the nodes of a shard order blocks with PBFT, execute
    them against a key/value state with an authenticated root, and persist the
    result. This library models the node's own logic, the packages under
    [src/executor/realism], and proves what they promise to the runtime
    ([src/executor/v5]) that drives them.

    ** Parts of the program and how they interact

    Transactions ([tx]) enter a mempool ([mempool], with the nonces of
    [account]); the proposer ([block/proposer.go]) reserves the oldest ones and
    builds a block; the replicas of the shard agree on it ([consensus/pbft]);
    an executor ([execution]) runs it over a snapshot of the state database
    ([state]) and returns receipts, write sets and roots; the commit writes the
    delta to a log, the block to a store, and from time to time a snapshot
    ([state/db.go], [storage]).

    ** Files

    - [Prelude]: notation, record update, the generic lemmas and the hint
      database of the library.
    - [GoStd]: what the program uses of Go: wrapping integers, [strings],
      [strconv], [sort.Strings], SHA-256 (computed, not assumed), hex, the JSON
      encoder. [GoJson]: the JSON decoder, from bytes to
      the fields of a struct. [JsonRoundtrip]: decoding what the encoder
      writes. [GoStruct]: [json.Marshal] and [json.Unmarshal] of structs from a
      table of their fields, with the round trip as a law, and marshalled values
      inside others. [GoText]: [fmt.Sscanf], [base64.StdEncoding],
      [strings.TrimSpace]. [WorkerPool]: goroutines that take jobs from a
      channel, under every schedule, with cancellation.
    - [Tx], [Block]: [tx/{model,routing,id,identity}.go], [block/*.go].
    - [PbftTypes], [PbftState]: [consensus/pbft/{quorum,message,state,certificate}.go].
      [State] is the Go struct; every method is a function from the state to the
      new state and the returned values, [None] being a run-time panic.
      [PbftCert] (quorum intersection and certificates), [PbftInv] (the
      invariant), [PbftSteps], [PbftView] (every operation keeps it),
      [PbftReach] (runs of operations; the invariant is about runs in which the
      V4.1 entry point [OnNewView] gets no message without view changes, and
      [PbftTheorems] has a run with one, which breaks it), [PbftLive] (view changes),
      [PbftCheckpoint] (checkpoints) and [PbftTheorems] (the theorems and a
      four-validator cluster that meets their hypotheses).
    - [StateRoot]: [state/root.go], the Merkle treap behind the state root.
    - [MvMemory], [Heap], [Scheduler]: [execution/blockstm/*.go], the
      multi-version memory, [container/heap] and the two schedulers.
    - [Mempool]: [mempool/*.go], [account/nonce.go], the proposer's [Build].
    - [Serial]: [execution/serial.go]. A transaction is an [action], a program
      over the overlay interface's [get] and [set]; the Go interface
      [txExecutionOverlay] is the class [Overlay], its implementations are
      instances. [SerialProps] states the laws of an overlay ([LawfulOverlay])
      and proves the executor against them; [Footprint] is about the keys a
      transaction touches, [Ledger] about balances and nonces.
    - [StateDB], [Durability]: [state/db.go]. The data directory is a record of
      decoded files; [Durability] has the recovery theorem and the crashes that
      recovery does not survive.
    - [BlockCodec]: the field tables of a block and of everything in it.
      [BlockStore]: [storage/*.go] over a directory of byte strings: durable
      commit, markers, checkpoint and rollback, the two readers and the range
      index. [BlockStoreProps] has the lines of a file; [BlockStoreTheorems]
      read-back, interruption and rollback; [BlockStoreRange] the range index;
      [BlockStoreExamples] concrete directories.
    - [BlockStm]: [execution/blockstm_executor.go], the parallel executor, as a
      transition system: workers advance one memory operation at a time, the
      coordinator one turn or one memory operation at a time, and a list of
      choices is an interleaving. [MvLatest] is the memory as readers see it;
      [BlockStmInv] the invariant that ties memory, workers and the coordinator's
      books together, with the workers' moves; [BlockStmSteps] and
      [BlockStmResults] the coordinator's moves; [BlockStmSerial] what a run
      returns; [BlockStmLive] why it does not run dry; [BlockStmTheorems] the
      theorems.
    - [Aria]: [execution/aria_executor.go]: epochs of speculative execution on a
      worker pool, reservations, Rule 1 and Rule 2, the commit of an epoch,
      candidate selection and its materialization. [Reorder] is what executing
      side by side on one snapshot has to do with executing in a sequence;
      [AriaProps] the conflicts of an epoch; [AriaTheorems] blocks;
      [AriaSelection] proposals.
    - [Groundhog]: [execution/groundhog_executor.go]: blocks without an order,
      whose transactions become typed modifications that are reserved in a table.
      The order the locks grant and the order in which Go visits a map are
      arguments. [GroundhogProps] has integers, rollback and one key in two
      orders; [GroundhogOrder] attempts and tables in two orders;
      [GroundhogAccept] which modifications are accepted; [GroundhogTheorems]
      blocks; [GroundhogLedger] balances; [GroundhogReplay] the
      sets that keep a transfer from executing twice; [GroundhogProposal] the proposer;
      [GroundhogExamples] concrete blocks.
    - [BatchSI], [BatchSIWire], [BatchSIExec]: [execution/batch_si_executor.go]
      and the scheduler of [executor/v5/batch_si_plugins.go]: a plan puts the
      candidates into batches (WRBP or sequential) and orders each batch (OFAS or a
      dependency graph); it is digested, printed, parsed and verified by
      recomputation; the transactions of a batch run on a pool of workers against
      the state the batch starts with. [BatchSIParts] is about the partitions,
      [Kahn] about topological sorting with any queue, [BatchSIOrder] about the
      orders, [BatchSIBuild] about whole plans, [BatchSIPool] about the workers,
      [BatchSISerial] about batches against single transactions, [BatchSIBinding]
      about what the digest establishes, [BatchSITheorems] about verified plans and
      blocks, [BatchSICodec] and [BatchSIProposal] about
      the wire and honest proposals, [BatchSIExamples] has concrete blocks.
    - [TxSign]: [crypto/ed25519] as a class of operations and one of documented
      laws; [tx/{signature,address,generator}.go] over it; the canonical bytes of a
      transaction. [PbftAuth]: the JSON of the PBFT messages and
      [consensus/pbft/auth.go], signing and verifying, with what a signature
      binds. [PbftIdentity]: [executor/v5/pbft_safety.go], identities, keys, the
      checks the runtime makes before a message reaches the replica, the
      structural check of a block, and the way from generated identities to
      accepted messages. [PbftAgreement] is where a replica's COMMIT votes come
      from and agreement among replicas that check signatures, [ConsensusBlock]
      what a block's hash determines; [AuthExamples] has concrete schemes and runs.
    - [CrossShard]: [xshard/*.go] and [state/proof.go].

    ** What the theorems show

    Consensus: agreement among replicas with at most [FaultTolerance n] faulty
    validators, down to the signatures they check and the transactions a block
    hash stands for; that generated identities and generated transactions are
    accepted where they are checked; an invariant of every reachable replica state, that what a
    replica reports as committed is certified, that a new view keeps the highest
    prepared block, that the primary's NEW-VIEW is accepted, checkpoints, leader
    rotation. State: the root depends on the contents alone and binds them,
    incremental update equals rebuild.
    Where a theorem takes equal SHA-256 digests for equal texts (what a state root,
    a block hash and a plan digest bind), its hypothesis [coll_free] names the byte
    strings that the two computations compared hash, and says of these alone that
    none of one side collides with a different one of the other.
    Execution: the serial executor's roots, deltas and receipts; that a
    transaction is a function of what it read; conservation of balances and
    consecutive nonces; that the Block-STM executor returns the serial result
    under every interleaving, never stalls and never blocks; that both of its
    schedulers are equivalent; that what Aria returns, and what an Aria proposer
    selects, is a serial execution in some order, with one outcome whatever the
    workers do (for blocks whose keys do not name one cell in two ways); that Groundhog's result does not depend on any order, that what
    its proposer selects validators accept, and that its balances are exact and
    never overdrawn; that a Batch-SI plan is a sound schedule, that both of its
    optimised routines compute what the algorithms they replace compute, that an
    honest proposal is accepted, and that executing a verified plan is executing
    the block one transaction at a time. Mempool: consistency, exact
    admission, nonce order, fairness. Persistence: recovery restores the last
    committed state after a crash during logging; the block store reads back
    what was committed through the bytes of its files, a commit interrupted at the
    points the code names is there entirely or not at all, a rollback leaves the
    files as they were, and range reads agree with full reads. Each theorem's
    comment states the conditions it needs.

    Some theorems state what the code does where that is not what it means to
    do; they are listed as findings beside the development.

    ** Conventions, bounds and fuel

    [uint64] values are [N] and [int]/[int64] values are [Z], with wrap-around
    written out where the program computes with them. A mutex-protected method is
    one atomic step; concurrent callers are arbitrary sequences of steps. Map
    iteration that the code does not sort is a parameter or is shown not to
    matter. Loops are structural recursions over the data they scan; where the
    Go loop is not structural (the heap's sift loops, a scheduler's [Next], base
    conversion), the fuel is a bound on the work (the length of the slice, the
    number of queued tasks, the number of digits) and lemmas show it suffices.
    The Block-STM executor is a step function without fuel; its theorems are
    about runs of fewer than 2^32 steps, within which no 32-bit incarnation and
    no generation wraps. Aria's epoch loop has the number of transactions as fuel:
    every epoch commits one or ends the loop, and the termination theorem shows
    that the fuel and the code's own bound are not met. Groundhog's streaming loop
    takes a candidate at least per turn; the JSON decoder a byte. Kahn's loop takes
    one id per turn, a round of Batch-SI's orders removes one transaction, and the
    steps of a batch's workers are bounded by a measure of the pool. The block
    store's theorems are about lines below the readers' 64 MiB limit and files
    below 2^63 bytes, the range of the offsets.
    Wall-clock time is an argument; measured durations are left out of results.

    ** Not modelled

    Ed25519 and gzip (parameters; what Ed25519 promises is a class of laws, its
    unforgeability a hypothesis of the agreement theorem), JSON decoding of the state database's
    directory (there a file is what it decodes to), system calls that fail,
    the difference between a nil and an empty slice where only JSON shows it, CSV and metrics output, HTTP transport,
    process supervision, and the experiment drivers ([executor/cmd],
    [executor/v3runtime], the plugin registry and scheduling experiments of
    [executor/v5]): they orchestrate the packages modelled here or measure them.

    Within the core, what is left is the older engine ([execution/engine.go]),
    the recovery report ([recovery/recovery.go]), the lists behind the log files
    ([consensus/pbft/log.go]) and the MetaTrack frontier check that follows the
    structural check of a block. *)
From stdpp Require Export gmap strings list sorting fin_maps pretty.
From Stdlib Require Export Ascii ZArith NArith.

(** ** Notations shared by every component *)

(** Go's [error]: [nil] is [None], [fmt.Errorf(text)] is [Some text]. *)
Abbreviation error := (option string).

Declare Scope mbe_scope.
Delimit Scope mbe_scope with mbe.

(** Go's [==] on comparable values, as a boolean. *)
Notation "x ≟ y" := (bool_decide (x = y)) (at level 70, no associativity) : mbe_scope.
Notation "x ≠? y" := (negb (bool_decide (x = y))) (at level 70, no associativity) : mbe_scope.

(** [if c { return fmt.Errorf(e) }] in front of the rest of a validation that
    ends in an error or [nil]. *)
Notation "'reject' c 'as' e ;; k" := (if c then Some e%string else k)
  (at level 10, c at level 99, e at level 9, k at level 200,
   format "'[v' 'reject'  c  'as'  e ;; '/' k ']'") : mbe_scope.

#[global] Open Scope mbe_scope.

(** [v, err := f(); if err != nil { return err }] where an error is a value of a
    type of its own. *)
#[global] Instance sum_mbind {E} : MBind (sum E) := λ A B f m,
  match m with inl e => inl e | inr a => f a end.

(** ** Record update

    [Eta R] rebuilds a record from its projections; [set_field] produces the
    same term with one projection replaced, for the setters of a record. *)
Class Eta (R : Type) := eta : R → R.

Ltac set_field proj v r :=
  let R := type of r in
  let i := constr:(_ : Eta R) in
  let h := eval hnf in i in
  let t := eval cbv beta in (h r) in
  lazymatch t with
  | context C [proj r] => let t' := context C [v] in exact t'
  end.

(** ** Go maps

    [map_keep f m] is the map left by
    [for k, v := range m { if !f(k, v) { delete(m, k) } }]; the result does not
    depend on the order of the iteration. *)
Definition map_keep `{Countable K} {V} (f : K → V → bool) (m : gmap K V) : gmap K V :=
  filter (λ kv, f kv.1 kv.2 = true) m.

Lemma lookup_map_keep `{Countable K} {V} (f : K → V → bool) (m : gmap K V) k :
  map_keep f m !! k = (m !! k ≫= λ v, if f k v then Some v else None).
Proof.
  unfold map_keep. destruct (m !! k) as [v|] eqn:Hk; simpl.
  - destruct (f k v) eqn:Hf.
    + by apply map_lookup_filter_Some.
    + apply map_lookup_filter_None. right. intros v' Hv'. simpl. congruence.
  - apply map_lookup_filter_None. by left.
Qed.

Lemma lookup_map_keep_Some `{Countable K} {V} (f : K → V → bool) (m : gmap K V) k v :
  map_keep f m !! k = Some v ↔ m !! k = Some v ∧ f k v = true.
Proof.
  rewrite lookup_map_keep. destruct (m !! k) as [w|]; simpl.
  - destruct (f k w) eqn:Hf; split.
    + intros [= ->]. auto.
    + intros [Hw _]. exact Hw.
    + intros [=].
    + intros [[= ->] Hf']. congruence.
  - split; [intros [=]|intros [[=] ?]].
Qed.

(** The inner map of a map of maps, created on first use:
    [if m[k] == nil { m[k] = map[...]...{} }]. *)
Definition inner `{Countable K} {V} (m : gmap K (gmap string V)) (k : K) : gmap string V :=
  default ∅ (m !! k).

(** The first components of two equal results, without looking inside them. *)
Lemma some_pair_fst {A B} (a a' : A) (b b' : B) : Some (a, b) = Some (a', b') → a = a'.
Proof. congruence. Qed.

(** An association list without repeated keys is a function. *)
Lemma NoDup_fst_eq {A B} (l : list (A * B)) k x y :
  NoDup l.*1 → (k, x) ∈ l → (k, y) ∈ l → x = y.
Proof.
  induction l as [|[k' z] l IH]; simpl; [by intros _ ?%elem_of_nil|].
  intros [Hnin Hnd]%NoDup_cons [Hx|Hx]%elem_of_cons [Hy|Hy]%elem_of_cons; simplify_eq; auto.
  - destruct Hnin. by apply (list_elem_of_fmap_2 fst l (k', y)).
  - destruct Hnin. by apply (list_elem_of_fmap_2 fst l (k', x)).
Qed.

(** Evaluating only part of a result: enough to name the whole of it. *)
Definition defined {A} (o : option A) : bool := match o with Some _ => true | None => false end.

Lemma defined_default {A} (d : A) (o : option A) : defined o = true → o = Some (default d o).
Proof. by destruct o. Qed.

Lemma pair_eta_snd {A B} (p : A * B) (y : B) : p.2 = y → p = (p.1, y).
Proof. destruct p; simpl; congruence. Qed.

Lemma result_eta {S R} (d : S * (R * error)) (o : option (S * (R * error))) :
  defined o = true → (default d o).2.2 = None →
  o = Some ((default d o).1, ((default d o).2.1, None)).
Proof. destruct o as [[s [r e]]|]; simpl; congruence. Qed.

Lemma filter_ext_in {A} (P Q : A → Prop) `{∀ x, Decision (P x)} `{∀ x, Decision (Q x)}
    (l : list A) :
  (∀ x, x ∈ l → P x ↔ Q x) → filter P l = filter Q l.
Proof.
  induction l as [|x l IH]; intros H'; [done|]. rewrite !filter_cons.
  rewrite IH by (intros y Hy; apply H'; by right).
  destruct (H' x) as [PQ QP]; [left|]. repeat case_decide; naive_solver.
Qed.

Lemma filter_all {A} (P : A → Prop) `{∀ x, Decision (P x)} (l : list A) :
  (∀ x, x ∈ l → P x) → filter P l = l.
Proof.
  induction l as [|x l IH]; intros HP; [done|]. rewrite filter_cons_True by (apply HP; left).
  f_equal. apply IH. intros y Hy. apply HP. by right.
Qed.

Lemma forallb_elem {A} (f : A → bool) (l : list A) x : forallb f l = true → x ∈ l → f x = true.
Proof. rewrite List.forallb_forall. intros H Hx. by apply H, list_elem_of_In. Qed.

(** ** Automation

    [mbe] collects the facts that close the common side goals: lookups in
    filtered maps, results that are known to be defined, elements of lists a
    boolean test has passed. *)
Create HintDb mbe.
#[export] Hint Resolve forallb_elem filter_all pair_eta_snd defined_default : mbe.
Create Rewrite HintDb mbe.
#[export] Hint Rewrite @lookup_map_keep @lookup_empty @lookup_insert_eq : mbe.

(** Case analysis on every boolean test of the goal, keeping the equations. *)
Ltac case_tests :=
  repeat match goal with |- context [if ?b then _ else _] => destruct b eqn:? end.
