(* ===== verification/GoStd.v ===== *)
(** * The parts of Go and its standard library the program uses

    Wrapping machine integers, [strings], [strconv], [sort.Strings], SHA-256,
    [encoding/hex] and the [encoding/json] encoder, with the facts about them
    the components rely on. *)
From S2P Require Import Prelude.
Local Open Scope N_scope.

(** ** Machine integers *)

Definition two64 : N := 2 ^ 64.
Definition max_uint64 : N := 2 ^ 64 - 1.
Definition max_int64 : Z := (2 ^ 63 - 1)%Z.
Definition min_int64 : Z := (- 2 ^ 63)%Z.

(** [uint64] addition and multiplication wrap modulo [2^64]. *)
Definition u64_add (a b : N) : N := (a + b) mod two64.
Definition u64_mul (a b : N) : N := (a * b) mod two64.
Definition u64_sub (a b : N) : N := (a + (two64 - b mod two64)) mod two64.

(** [int64] (and [int], 64-bit on the platforms the runtime targets) values
    are integers in [[-2^63, 2^63)]; arithmetic wraps around. *)
Definition i64_wrap (z : Z) : Z := ((z + 2 ^ 63) mod 2 ^ 64 - 2 ^ 63)%Z.
Definition i64_add (a b : Z) : Z := i64_wrap (a + b)%Z.
Definition i64_sub (a b : Z) : Z := i64_wrap (a - b)%Z.

Lemma i64_wrap_small z : (min_int64 <= z <= max_int64)%Z → i64_wrap z = z.
Proof.
  unfold i64_wrap, min_int64, max_int64. intros Hz. rewrite Z.mod_small by lia. lia.
Qed.

Lemma i64_wrap_high z : (max_int64 < z < 2 ^ 64)%Z → i64_wrap z = (z - 2 ^ 64)%Z.
Proof.
  unfold i64_wrap, max_int64. intros Hz.
  replace (z + 2 ^ 63)%Z with (z - 2 ^ 63 + 1 * 2 ^ 64)%Z by lia.
  rewrite Z.mod_add, Z.mod_small by lia. lia.
Qed.

(** The conversion [int(x)] of a [uint64]. *)
Definition int_of_u64 (n : N) : Z := i64_wrap (Z.of_N n).

Definition is_u64 (n : N) : bool := n <? two64.
Definition is_i64 (z : Z) : bool := ((min_int64 <=? z) && (z <=? max_int64))%Z.

(** ** [time]: instants and durations in nanoseconds *)

(** [time.Time.Sub] saturates at the ends of [time.Duration]. *)
Definition time_sub (a b : Z) : Z := Z.max min_int64 (Z.min max_int64 (a - b)).
Definition unix_milli (t : Z) : Z := Z.div t 1000000.
Definition milliseconds (d : Z) : Z := Z.quot d 1000000.

(** ** Bytes *)

Definition byte_of (n : N) : ascii := Ascii.ascii_of_N n.
Definition bytes_of_string (s : string) : list N :=
  N_of_ascii <$> String.list_ascii_of_string s.
Definition string_of_bytes (l : list N) : string :=
  String.string_of_list_ascii (byte_of <$> l).

(** A line feed. *)
Definition nl : string := String (byte_of 10) EmptyString.

(** ** [strings] *)

(** [strings.HasPrefix] and [strings.TrimPrefix]. *)
Fixpoint strip_prefix (p s : string) : option string :=
  match p, s with
  | EmptyString, _ => Some s
  | String a p', String b s' => if decide (a = b) then strip_prefix p' s' else None
  | String _ _, EmptyString => None
  end.
Definition has_prefix (s p : string) : bool :=
  match strip_prefix p s with Some _ => true | None => false end.
Definition trim_prefix (s p : string) : string :=
  default s (strip_prefix p s).

(** [strings.Contains]. *)
Fixpoint str_contains (s sub : string) : bool :=
  has_prefix s sub ||
  match s with EmptyString => false | String _ s' => str_contains s' sub end.

(** The part of [s] before the first occurrence of the byte [c], when there is
    one: [s[:strings.Index(s, c)]]. *)
Fixpoint before_byte (c : ascii) (s : string) : option string :=
  match s with
  | EmptyString => None
  | String a s' => if decide (a = c) then Some EmptyString
                   else String a <$> before_byte c s'
  end.

Fixpoint str_rev_app (s acc : string) : string :=
  match s with EmptyString => acc | String a s' => str_rev_app s' (String a acc) end.
Definition str_rev (s : string) : string := str_rev_app s EmptyString.

(** The UTF-8 encodings of the runes for which [unicode.IsSpace] holds. *)
Definition space_encodings : list (list N) :=
  [[9]; [10]; [11]; [12]; [13]; [32]; [194; 133]; [194; 160]; [225; 154; 128];
   [226; 128; 128]; [226; 128; 129]; [226; 128; 130]; [226; 128; 131];
   [226; 128; 132]; [226; 128; 133]; [226; 128; 134]; [226; 128; 135];
   [226; 128; 136]; [226; 128; 137]; [226; 128; 138]; [226; 128; 168];
   [226; 128; 169]; [226; 128; 175]; [226; 129; 159]; [227; 128; 128]].

Fixpoint first_some {A B} (f : A → option B) (l : list A) : option B :=
  match l with
  | [] => None
  | x :: l' => match f x with Some y => Some y | None => first_some f l' end
  end.

(** Drop leading occurrences of any of the strings of [seps]; one byte at least
    goes per turn, so the length of the string is enough fuel. *)
Fixpoint drop_any (seps : list string) (fuel : nat) (s : string) : string :=
  match fuel with
  | O => s
  | S fuel' => match first_some (λ p, strip_prefix p s) seps with
               | Some s' => drop_any seps fuel' s'
               | None => s
               end
  end.

Definition spaces_fwd : list string := string_of_bytes <$> space_encodings.
Definition spaces_bwd : list string :=
  (λ e, string_of_bytes (reverse e)) <$> space_encodings.

(** [strings.TrimSpace]: white space goes from both ends. *)
Definition trim_space (s : string) : string :=
  let l := drop_any spaces_fwd (String.length s) s in
  str_rev (drop_any spaces_bwd (String.length l) (str_rev l)).
Definition blank (s : string) : bool := bool_decide (trim_space s = EmptyString).

(** ** [strconv] *)

(** [strconv.FormatUint(n, 10)] and [strconv.FormatInt(z, 10)]; [%d] prints the
    same text. *)
Definition format_uint (n : N) : string := pretty n.
Definition format_int (z : Z) : string := pretty z.

(** [fmt.Sprintf("%020d", n)]. *)
Fixpoint zeros (k : nat) : string :=
  match k with O => EmptyString | S k' => String "0"%char (zeros k') end.
Definition pad20 (n : N) : string :=
  let d := format_uint n in (zeros (20 - String.length d) +:+ d)%string.

Inductive num_error := NumOk | ErrSyntax | ErrRange.

Definition digit_of (c : ascii) : option N :=
  let n := N_of_ascii c in
  if (48 <=? n) && (n <=? 57) then Some (n - 48) else None.

(** The digit loop of [strconv.ParseUint(s, 10, 64)]: a bad byte is a syntax
    error with value 0, an overflow ends the loop at once with the maximum. *)
Fixpoint parse_digits (acc : N) (s : string) : N * num_error :=
  match s with
  | EmptyString => (acc, NumOk)
  | String c s' =>
      match digit_of c with
      | None => (0, ErrSyntax)
      | Some d => let acc' := acc * 10 + d in
                  if max_uint64 <? acc' then (max_uint64, ErrRange)
                  else parse_digits acc' s'
      end
  end.
Definition parse_uint (s : string) : N * num_error :=
  match s with EmptyString => (0, ErrSyntax) | _ => parse_digits 0 s end.

(** [strconv.ParseInt(s, 10, 64)]. *)
Definition parse_int (s : string) : Z * num_error :=
  let '(neg, body) := match s with
                      | String "-" s' => (true, s')
                      | String "+" s' => (false, s')
                      | _ => (false, s)
                      end in
  match parse_uint body with
  | (_, ErrSyntax) => (0%Z, ErrSyntax)
  | (un, e) =>
      if negb neg && (2 ^ 63 <=? un) then (max_int64, ErrRange)
      else if neg && (2 ^ 63 <? un) then (min_int64, ErrRange)
      else ((if neg then - Z.of_N un else Z.of_N un)%Z, e)
  end.

(** [value, _ := strconv.ParseInt(s, 10, 64)] and the same for [ParseUint]. *)
Definition atoi64 (s : string) : Z := fst (parse_int s).
Definition atou64 (s : string) : N := fst (parse_uint s).

(** ** [sort.Strings] *)

Definition sort_strings (l : list string) : list string := merge_sort String.le l.

(** ** [crypto/sha256] (FIPS 180-4) and [encoding/hex] *)

Module Sha256.

Definition mask32 : N := 2 ^ 32 - 1.
Definition add32 (a b : N) : N := N.land (a + b) mask32.
Definition rotr (n x : N) : N :=
  N.lor (N.shiftr x n) (N.land (N.shiftl x (32 - n)) mask32).
Definition xor3 (a b c : N) : N := N.lxor a (N.lxor b c).
Definition big_sigma0 (x : N) : N := xor3 (rotr 2 x) (rotr 13 x) (rotr 22 x).
Definition big_sigma1 (x : N) : N := xor3 (rotr 6 x) (rotr 11 x) (rotr 25 x).
Definition small_sigma0 (x : N) : N := xor3 (rotr 7 x) (rotr 18 x) (N.shiftr x 3).
Definition small_sigma1 (x : N) : N := xor3 (rotr 17 x) (rotr 19 x) (N.shiftr x 10).
Definition choose (x y z : N) : N :=
  N.lxor (N.land x y) (N.land (N.lxor x mask32) z).
Definition majority (x y z : N) : N :=
  xor3 (N.land x y) (N.land x z) (N.land y z).

Definition round_constants : list N :=
  [1116352408; 1899447441; 3049323471; 3921009573; 961987163; 1508970993;
   2453635748; 2870763221; 3624381080; 310598401; 607225278; 1426881987;
   1925078388; 2162078206; 2614888103; 3248222580; 3835390401; 4022224774;
   264347078; 604807628; 770255983; 1249150122; 1555081692; 1996064986;
   2554220882; 2821834349; 2952996808; 3210313671; 3336571891; 3584528711;
   113926993; 338241895; 666307205; 773529912; 1294757372; 1396182291;
   1695183700; 1986661051; 2177026350; 2456956037; 2730485921; 2820302411;
   3259730800; 3345764771; 3516065817; 3600352804; 4094571909; 275423344;
   430227734; 506948616; 659060556; 883997877; 958139571; 1322822218;
   1537002063; 1747873779; 1955562222; 2024104815; 2227730452; 2361852424;
   2428436474; 2756734187; 3204031479; 3329325298].

Record regs := Regs { ra : N; rb : N; rc : N; rd : N; re : N; rf : N; rg : N; rh : N }.

Definition initial_regs : regs :=
  Regs 1779033703 3144134277 1013904242 2773480762
       1359893119 2600822924 528734635 1541459225.

(** Sixteen message words, most recent first, grow to sixty-four. *)
Fixpoint expand (k : nat) (recent : list N) : list N :=
  match k with
  | O => recent
  | S k' =>
      let w := add32 (add32 (small_sigma1 (nth 1 recent 0)) (nth 6 recent 0))
                     (add32 (small_sigma0 (nth 14 recent 0)) (nth 15 recent 0)) in
      expand k' (w :: recent)
  end.

Definition round (r : regs) (kw : N * N) : regs :=
  let t1 := add32 (add32 (add32 (rh r) (big_sigma1 (re r)))
                         (choose (re r) (rf r) (rg r))) (add32 kw.1 kw.2) in
  let t2 := add32 (big_sigma0 (ra r)) (majority (ra r) (rb r) (rc r)) in
  Regs (add32 t1 t2) (ra r) (rb r) (rc r) (add32 (rd r) t1) (re r) (rf r) (rg r).

Definition add_regs (x y : regs) : regs :=
  Regs (add32 (ra x) (ra y)) (add32 (rb x) (rb y)) (add32 (rc x) (rc y))
       (add32 (rd x) (rd y)) (add32 (re x) (re y)) (add32 (rf x) (rf y))
       (add32 (rg x) (rg y)) (add32 (rh x) (rh y)).

Definition compress (r : regs) (block : list N) : regs :=
  let schedule := reverse (expand 48 (reverse block)) in
  add_regs r (foldl round r (zip round_constants schedule)).

(** [k] big-endian bytes of a number, and back. *)
Fixpoint be_bytes (k : nat) (n : N) : list N :=
  match k with
  | O => []
  | S k' => N.land (N.shiftr n (8 * N.of_nat k')) 255 :: be_bytes k' n
  end.

Fixpoint be_words (l : list N) : list N :=
  match l with
  | a :: b :: c :: d :: l' =>
      (a * 16777216 + b * 65536 + c * 256 + d) :: be_words l'
  | _ => []
  end.

Definition pad (msg : list N) : list N :=
  let len := length msg in
  let fill := ((119 - len mod 64) mod 64)%nat in
  msg ++ 128 :: replicate fill 0 ++ be_bytes 8 (8 * N.of_nat len).

Fixpoint blocks (k : nat) (r : regs) (words : list N) : regs :=
  match k with
  | O => r
  | S k' => blocks k' (compress r (take 16 words)) (drop 16 words)
  end.

(** [sha256.Sum256]: thirty-two bytes. *)
Definition sum256 (msg : list N) : list N :=
  let words := be_words (pad msg) in
  let r := blocks (length words / 16) initial_regs words in
  be_bytes 4 (ra r) ++ be_bytes 4 (rb r) ++ be_bytes 4 (rc r) ++ be_bytes 4 (rd r) ++
  be_bytes 4 (re r) ++ be_bytes 4 (rf r) ++ be_bytes 4 (rg r) ++ be_bytes 4 (rh r).

End Sha256.

Definition hex_digit (n : N) : ascii :=
  byte_of (if n <? 10 then 48 + n else 87 + n).

(** [hex.EncodeToString]. *)
Fixpoint hex_encode (l : list N) : string :=
  match l with
  | [] => EmptyString
  | b :: l' => String (hex_digit (b / 16)) (String (hex_digit (b mod 16)) (hex_encode l'))
  end.

(** [sum := sha256.Sum256([]byte(s)); hex.EncodeToString(sum[:])]. *)
Definition sha256_hex (s : string) : string :=
  hex_encode (Sha256.sum256 (bytes_of_string s)).

(** ** [encoding/json]: the text [json.Marshal] produces *)

Module Json.

(** The values the program marshals. A nil slice or map prints [null]; struct
    fields come in declaration order, [omitempty] ones only when not empty. *)
Inductive json :=
  | JNull
  | JBool (b : bool)
  | JInt (z : Z)
  | JUint (n : N)
  | JStr (s : string)
  | JArr (l : list json)
  | JObj (l : list (string * json))
  | JRaw (text : string).  (** a [json.RawMessage], already compact *)

Definition in_range (lo hi b : N) : bool := (lo <=? b) && (b <=? hi).
Definition cont_byte (b : N) : bool := in_range 128 191 b.

(** The range allowed for the second byte of a three- or four-byte rune. *)
Definition second3 (b0 b1 : N) : bool :=
  if b0 =? 224 then in_range 160 191 b1
  else if b0 =? 237 then in_range 128 159 b1
  else in_range 225 239 b0 && cont_byte b1.
Definition second4 (b0 b1 : N) : bool :=
  if b0 =? 240 then in_range 144 191 b1
  else if b0 =? 244 then in_range 128 143 b1
  else in_range 241 243 b0 && cont_byte b1.

(** Escape of one ASCII byte, HTML characters included. *)
Definition escape_ascii (b : N) : string :=
  let c := String (byte_of b) EmptyString in
  if (b =? 92) || (b =? 34) then String "\" c
  else if b =? 8 then "\b"
  else if b =? 12 then "\f"
  else if b =? 10 then "\n"
  else if b =? 13 then "\r"
  else if b =? 9 then "\t"
  else if (b <? 32) || (b =? 60) || (b =? 62) || (b =? 38)
       then ("\u00" +:+ String (hex_digit (b / 16)) (String (hex_digit (b mod 16)) EmptyString))%string
  else c.

(** The bytes of a Go string between the quotes: an invalid byte prints
    [\ufffd], U+2028 and U+2029 print as escapes, any other rune as it is. *)
Fixpoint quote_body (l : list N) : string :=
  match l with
  | [] => EmptyString
  | b0 :: l1 =>
      if b0 <? 128 then (escape_ascii b0 +:+ quote_body l1)%string
      else match l1 with
      | [] => ("\ufffd" +:+ quote_body l1)%string
      | b1 :: l2 =>
          if in_range 194 223 b0 && cont_byte b1
          then (string_of_bytes [b0; b1] +:+ quote_body l2)%string
          else match l2 with
          | [] => ("\ufffd" +:+ quote_body l1)%string
          | b2 :: l3 =>
              if second3 b0 b1 && cont_byte b2
              then if (b0 =? 226) && (b1 =? 128) && ((b2 =? 168) || (b2 =? 169))
                   then ("\u202" +:+ String (hex_digit (b2 - 160)) (quote_body l3))%string
                   else (string_of_bytes [b0; b1; b2] +:+ quote_body l3)%string
              else match l3 with
              | [] => ("\ufffd" +:+ quote_body l1)%string
              | b3 :: l4 =>
                  if second4 b0 b1 && cont_byte b2 && cont_byte b3
                  then (string_of_bytes [b0; b1; b2; b3] +:+ quote_body l4)%string
                  else ("\ufffd" +:+ quote_body l1)%string
              end
          end
      end
  end.

Definition dquote : string := String (byte_of 34) EmptyString.
Definition quote (s : string) : string :=
  (dquote +:+ quote_body (bytes_of_string s) +:+ dquote)%string.

Fixpoint join (sep : string) (l : list string) : string :=
  match l with
  | [] => EmptyString
  | [x] => x
  | x :: l' => (x +:+ sep +:+ join sep l')%string
  end.

Fixpoint marshal (j : json) : string :=
  match j with
  | JNull => "null"
  | JBool true => "true"
  | JBool false => "false"
  | JInt z => format_int z
  | JUint n => format_uint n
  | JStr s => quote s
  | JArr l => ("[" +:+ join "," (map marshal l) +:+ "]")%string
  | JObj l =>
      let field '(k, v) := (quote k +:+ ":" +:+ marshal v)%string in
      ("{" +:+ join "," (map field l) +:+ "}")%string
  | JRaw text => text
  end.

(** A field, and a field with [omitempty]. *)
Definition fld (k : string) (v : json) : list (string * json) := [(k, v)].
Definition opt_str (k s : string) : list (string * json) :=
  if decide (s = EmptyString) then [] else [(k, JStr s)].
Definition opt_uint (k : string) (n : N) : list (string * json) :=
  if n =? 0 then [] else [(k, JUint n)].
Definition opt_int (k : string) (z : Z) : list (string * json) :=
  if (z =? 0)%Z then [] else [(k, JInt z)].
Definition opt_bool (k : string) (b : bool) : list (string * json) :=
  if b then [(k, JBool true)] else [].
Definition opt_arr (k : string) (l : list json) : list (string * json) :=
  match l with [] => [] | _ => [(k, JArr l)] end.
Definition opt_obj (k : string) (o : option json) : list (string * json) :=
  match o with None => [] | Some v => [(k, v)] end.

(** A slice field: [None] is a nil slice. *)
Definition arr (l : option (list json)) : json :=
  match l with None => JNull | Some l => JArr l end.
(** [append([]T(nil), l...)]: nil when there is nothing to append. *)
Definition arr_copy (l : list json) : json :=
  match l with [] => JNull | _ => JArr l end.

End Json.

(** [k] consecutive [uint64] values. *)
Fixpoint count_from (n : N) (k : nat) : list N :=
  match k with O => [] | S k' => n :: count_from (u64_add n 1) k' end.

Lemma length_count_from k : ∀ n, length (count_from n k) = k.
Proof. induction k as [|k IH]; intros n; simpl; [done|]. by rewrite IH. Qed.

(** ** Decimal text: the value read back is the value printed *)

Fixpoint dec_val (acc : N) (s : string) : N :=
  match s with
  | EmptyString => acc
  | String c s' => dec_val (acc * 10 + default 0 (digit_of c)) s'
  end.

Fixpoint all_digits (s : string) : bool :=
  match s with
  | EmptyString => true
  | String c s' => bool_decide (is_Some (digit_of c)) && all_digits s'
  end.

Lemma digit_of_pretty x : x < 10 → digit_of (pretty_N_char x) = Some x.
Proof.
  intros. assert (x = 0 ∨ x = 1 ∨ x = 2 ∨ x = 3 ∨ x = 4 ∨ x = 5 ∨ x = 6 ∨ x = 7 ∨ x = 8 ∨ x = 9)
    as Hx by lia.
  repeat (destruct Hx as [->|Hx]; [reflexivity|]). by subst.
Qed.

Lemma pretty_go_digits x s :
  dec_val 0 (pretty_N_go x s) = dec_val x s ∧ all_digits (pretty_N_go x s) = all_digits s.
Proof.
  revert s. induction (N.lt_wf_0 x) as [x _ IH]; intros s.
  destruct (N.eq_0_gt_0_cases x) as [->|Hx]; [done|].
  rewrite pretty_N_go_step by done.
  destruct (IH (x `div` 10)) with (s := String (pretty_N_char (x `mod` 10)) s) as [-> ->].
  { by apply N.div_lt. }
  assert (x `mod` 10 < 10) by (by apply N.mod_lt).
  simpl. rewrite digit_of_pretty by done. simpl. split; [|done].
  f_equal. rewrite N.mul_comm. symmetry. by apply N.div_mod.
Qed.

Lemma format_uint_digits n : all_digits (format_uint n) = true.
Proof.
  unfold format_uint, pretty, pretty_N. case_decide; [done|]. by apply pretty_go_digits.
Qed.

Lemma format_uint_val n : dec_val 0 (format_uint n) = n.
Proof.
  unfold format_uint, pretty, pretty_N. case_decide; [by subst|].
  by destruct (pretty_go_digits n "") as [-> _].
Qed.

Lemma dec_val_ge acc s : acc <= dec_val acc s.
Proof.
  revert acc. induction s as [|c s IH]; intros acc; simpl; [lia|].
  etransitivity; [|apply IH]. lia.
Qed.

Lemma parse_digits_val acc s :
  all_digits s = true → dec_val acc s <= max_uint64 →
  parse_digits acc s = (dec_val acc s, NumOk).
Proof.
  revert acc. induction s as [|c s IH]; intros acc Hd Hv; simpl in *; [done|].
  apply andb_prop in Hd as [[d Hd]%bool_decide_eq_true Hs]. rewrite Hd in *. simpl in *.
  pose proof (dec_val_ge (acc * 10 + d) s).
  destruct (N.ltb_spec max_uint64 (acc * 10 + d)); [lia|]. by apply IH.
Qed.

Lemma format_uint_cons n : ∃ c s, format_uint n = String c s ∧ is_Some (digit_of c).
Proof.
  pose proof (format_uint_digits n) as Hd.
  destruct (format_uint n) as [|c s] eqn:E.
  - pose proof (format_uint_val n) as Hv. rewrite E in Hv. simpl in Hv. by subst.
  - simpl in Hd. apply andb_prop in Hd as [Hd%bool_decide_eq_true _]. eauto.
Qed.

Lemma parse_uint_format n : n <= max_uint64 → parse_uint (format_uint n) = (n, NumOk).
Proof.
  intros Hn. destruct (format_uint_cons n) as (c & s & E & _).
  unfold parse_uint. rewrite E, <- E.
  rewrite parse_digits_val; rewrite ?format_uint_val; auto using format_uint_digits.
Qed.

Lemma format_int_neg p : format_int (Zneg p) = String "-" (format_uint (Npos p)).
Proof. reflexivity. Qed.

Lemma format_int_nonneg z : (0 <= z)%Z → format_int z = format_uint (Z.to_N z).
Proof. destruct z; simpl; [done..|lia]. Qed.

Lemma parse_int_unsigned c s d :
  digit_of c = Some d → parse_int (String c s) =
  match parse_uint (String c s) with
  | (_, ErrSyntax) => (0%Z, ErrSyntax)
  | (un, e) => if 2 ^ 63 <=? un then (max_int64, ErrRange) else (Z.of_N un, e)
  end.
Proof.
  intros Hd. unfold parse_int.
  assert (c ≠ "-"%char ∧ c ≠ "+"%char) as [H1 H2] by (split; intros ->; discriminate).
  destruct c as [[] [] [] [] [] [] [] []]; try done; destruct (parse_uint _) as [un []]; reflexivity.
Qed.

Lemma parse_int_format z :
  (min_int64 <= z <= max_int64)%Z → parse_int (format_int z) = (z, NumOk).
Proof.
  unfold min_int64, max_int64. intros Hz. destruct (Z.le_gt_cases 0 z).
  - rewrite format_int_nonneg by done.
    destruct (format_uint_cons (Z.to_N z)) as (c & s & E & [d Hd]).
    rewrite E, (parse_int_unsigned _ _ d) by done. rewrite <- E.
    rewrite parse_uint_format by (unfold max_uint64; lia).
    destruct (N.leb_spec (2 ^ 63) (Z.to_N z)); [lia|]. f_equal. lia.
  - destruct z as [|p|p]; try lia. rewrite format_int_neg. unfold parse_int.
    rewrite parse_uint_format by (unfold max_uint64; lia). simpl negb.
    rewrite andb_false_l, andb_true_l.
    destruct (N.ltb_spec (2 ^ 63) (Npos p)); [lia|]. done.
Qed.

Lemma atoi64_format_int z :
  (min_int64 <= z <= max_int64)%Z → atoi64 (format_int z) = z.
Proof. intros. unfold atoi64. by rewrite parse_int_format. Qed.

Lemma atou64_format_uint n : n <= max_uint64 → atou64 (format_uint n) = n.
Proof. intros. unfold atou64. by rewrite parse_uint_format. Qed.

Lemma format_int_nonempty z : format_int z ≠ EmptyString.
Proof.
  destruct (Z.le_gt_cases 0 z).
  - rewrite format_int_nonneg by done.
    by destruct (format_uint_cons (Z.to_N z)) as (c & s & -> & _).
  - destruct z; try lia. by rewrite format_int_neg.
Qed.

Lemma format_uint_nonempty n : format_uint n ≠ EmptyString.
Proof. by destruct (format_uint_cons n) as (c & s & -> & _). Qed.

(** ** Fixed-width keys *)

Lemma append_cons a s t : (String a s +:+ t) = String a (s +:+ t).
Proof. reflexivity. Qed.
Lemma append_nil t : ("" +:+ t) = t.
Proof. reflexivity. Qed.

Lemma all_digits_app s t : all_digits (s +:+ t) = all_digits s && all_digits t.
Proof.
  induction s as [|c s IH]; [done|]. rewrite append_cons. simpl. rewrite IH.
  by rewrite andb_assoc.
Qed.

Lemma pad20_digits n : all_digits (pad20 n) = true.
Proof.
  unfold pad20. rewrite all_digits_app, format_uint_digits, andb_true_r.
  by induction (20 - String.length (format_uint n))%nat.
Qed.

Lemma pad20_val n : dec_val 0 (pad20 n) = n.
Proof.
  unfold pad20. rewrite <- (format_uint_val n) at 3.
  induction (20 - String.length (format_uint n))%nat as [|k IH]; [done|].
  simpl zeros. by rewrite append_cons.
Qed.

#[global] Instance pad20_inj : Inj (=) (=) pad20.
Proof. intros a b E. by rewrite <- (pad20_val a), <- (pad20_val b), E. Qed.

(** Two keys with a run of digits in front of a separator agree part by part. *)
Lemma digits_sep_inj s1 s2 c t1 t2 :
  all_digits s1 = true → all_digits s2 = true → digit_of c = None →
  (s1 +:+ String c t1) = (s2 +:+ String c t2) → s1 = s2 ∧ t1 = t2.
Proof.
  intros Hd1 Hd2 Hc. revert s2 Hd1 Hd2.
  induction s1 as [|a s1 IH]; intros [|b s2] Hd1 Hd2 E;
    rewrite ?append_cons, ?append_nil in E; simplify_eq; [done|..];
    simpl in Hd1, Hd2; rewrite ?Hc in *; try done.
  apply andb_prop in Hd1 as [_ Hd1], Hd2 as [_ Hd2].
  destruct (IH s2) as [-> ->]; done.
Qed.

(** ** Sorted keys *)

Lemma sort_strings_perm l : sort_strings l ≡ₚ l.
Proof. apply merge_sort_Permutation. Qed.

Lemma length_sort_strings l : length (sort_strings l) = length l.
Proof. by rewrite sort_strings_perm. Qed.
Lemma sort_strings_sorted l : StronglySorted String.le (sort_strings l).
Proof. apply StronglySorted_merge_sort; apply _. Qed.

Lemma sort_strings_unique l1 l2 : l1 ≡ₚ l2 → sort_strings l1 = sort_strings l2.
Proof.
  intros Hp. eapply (StronglySorted_unique String.le); try apply sort_strings_sorted.
  by rewrite !sort_strings_perm.
Qed.

(** The keys of a map in ascending order, as
    [for k := range m { ks = append(ks, k) }; sort.Strings(ks)] leaves them. *)
Definition sorted_keys {V} (m : gmap string V) : list string :=
  sort_strings (map_to_list m).*1.

Lemma elem_of_sorted_keys {V} (m : gmap string V) k :
  k ∈ sorted_keys m ↔ is_Some (m !! k).
Proof.
  unfold sorted_keys. rewrite sort_strings_perm, list_elem_of_fmap. split.
  - intros ([k' v] & -> & Hv%elem_of_map_to_list). eauto.
  - intros [v Hv]. exists (k, v). by rewrite elem_of_map_to_list.
Qed.

Lemma NoDup_sorted_keys {V} (m : gmap string V) : NoDup (sorted_keys m).
Proof. unfold sorted_keys. rewrite sort_strings_perm. apply NoDup_fst_map_to_list. Qed.

Lemma length_sorted_keys {V} (m : gmap string V) : length (sorted_keys m) = size m.
Proof.
  unfold sorted_keys. rewrite sort_strings_perm, length_fmap. apply length_map_to_list.
Qed.

(** ** Digests and their hex form *)

Lemma length_be_bytes k n : length (Sha256.be_bytes k n) = k.
Proof. induction k as [|k IH]; simpl; [done|]. by rewrite IH. Qed.

Lemma be_bytes_range k n : Forall (λ b, b < 256) (Sha256.be_bytes k n).
Proof.
  induction k as [|k IH]; simpl; constructor; [|done].
  change 255 with (N.ones 8). rewrite N.land_ones. by apply N.mod_lt.
Qed.

Lemma length_sum256 msg : length (Sha256.sum256 msg) = 32%nat.
Proof. unfold Sha256.sum256. by rewrite !length_app, !length_be_bytes. Qed.

Lemma sum256_range msg : Forall (λ b, b < 256) (Sha256.sum256 msg).
Proof. unfold Sha256.sum256. rewrite !Forall_app. auto 10 using be_bytes_range. Qed.

(** Big-endian bytes determine the number they are taken from, up to their
    width. *)
Lemma be_bytes_inj k a b :
  a < 2 ^ (8 * N.of_nat k) → b < 2 ^ (8 * N.of_nat k) →
  Sha256.be_bytes k a = Sha256.be_bytes k b → a = b.
Proof.
  intros Ha Hb E. apply N.bits_inj. intros i.
  assert (∀ k', Sha256.be_bytes k' a = Sha256.be_bytes k' b → i < 8 * N.of_nat k' →
    N.testbit a i = N.testbit b i) as low.
  { clear. induction k' as [|k IH]; [lia|]. simpl. intros E Hi. injection E as E1 E2.
    destruct (N.lt_ge_cases i (8 * N.of_nat k)) as [Hlt|Hge]; [by apply IH|].
    apply (f_equal (λ x, N.testbit x (i - 8 * N.of_nat k))) in E1. revert E1.
    change 255 with (N.ones 8). rewrite !N.land_spec, !N.shiftr_spec', N.ones_spec_low by lia.
    rewrite !andb_true_r. by replace (i - 8 * N.of_nat k + 8 * N.of_nat k) with i by lia. }
  destruct (N.lt_ge_cases i (8 * N.of_nat k)) as [Hlt|Hge]; [by apply (low k)|].
  rewrite <- (N.mod_small a _ Ha), <- (N.mod_small b _ Hb).
  by rewrite !N.mod_pow2_bits_high by done.
Qed.

Lemma hex_digit_inj a b : a < 16 → b < 16 → hex_digit a = hex_digit b → a = b.
Proof.
  intros Ha Hb E. apply (f_equal N_of_ascii) in E. unfold hex_digit, byte_of in E.
  rewrite N_ascii_embedding in E by (destruct (a <? 10); lia).
  rewrite N_ascii_embedding in E by (destruct (b <? 10); lia).
  destruct (N.ltb_spec a 10), (N.ltb_spec b 10); lia.
Qed.

Lemma hex_encode_inj l1 : ∀ l2, Forall (λ b, b < 256) l1 → Forall (λ b, b < 256) l2 →
  hex_encode l1 = hex_encode l2 → l1 = l2.
Proof.
  induction l1 as [|a l1 IH]; intros [|b l2] H1 H2 E; try done.
  apply Forall_cons in H1 as [Ha H1], H2 as [Hb H2]. injection E as E1 E2 E3.
  apply hex_digit_inj in E1; [|apply N.Div0.div_lt_upper_bound; lia..].
  apply hex_digit_inj in E2; [|by apply N.mod_lt..].
  f_equal; [|by apply IH].
  rewrite (N.div_mod a 16), (N.div_mod b 16) by done. congruence.
Qed.

Lemma length_bytes_of_string s : length (bytes_of_string s) = String.length s.
Proof.
  unfold bytes_of_string. rewrite length_fmap. induction s as [|a s IH]; simpl; auto.
Qed.

#[global] Instance bytes_of_string_inj : Inj (=) (=) bytes_of_string.
Proof.
  intros s1 s2 E. unfold bytes_of_string in E.
  assert (Inj (=) (=) N_of_ascii) as Hinj
    by (intros a b Hab; by rewrite <- (ascii_N_embedding a), <- (ascii_N_embedding b), Hab).
  apply (inj (fmap N_of_ascii)) in E.
  rewrite <- (String.string_of_list_ascii_of_string s1),
    <- (String.string_of_list_ascii_of_string s2). by rewrite E.
Qed.
