(* ===== verification/GoJson.v ===== *)
(** * [encoding/json]: what [json.Unmarshal] reads

    The text is parsed as a whole first; then the value is stored into a Go
    variable by the rules for its type ([DecodeInt], [DecodeUint], [DecodeString],
    fields of a struct). A value of the wrong type is skipped and leaves the
    variable as it is. Numbers stay the token they are written as, and the members
    of an object come with their text, for fields of type [json.RawMessage]. *)
From S2P Require Import Prelude GoStd.
Local Open Scope N_scope.

Inductive jvalue :=
  | VNull
  | VBool (b : bool)
  | VNum (token : string)
  | VStr (s : string)
  | VArr (l : list jvalue)
  | VObj (l : list (string * (jvalue * list N))).

Abbreviation bytes := (list N).

Definition is_ws (b : N) : bool := (b =? 32) || (b =? 9) || (b =? 10) || (b =? 13).
Fixpoint skip_ws (l : bytes) : bytes :=
  match l with b :: rest => if is_ws b then skip_ws rest else l | [] => [] end.

(** ** Strings *)

Definition hex_val (b : N) : option N :=
  if Json.in_range 48 57 b then Some (b - 48)
  else if Json.in_range 97 102 b then Some (b - 87)
  else if Json.in_range 65 70 b then Some (b - 55)
  else None.

Definition hex4 (l : bytes) : option (N * bytes) :=
  match l with
  | a :: b :: c :: d :: rest =>
      match hex_val a, hex_val b, hex_val c, hex_val d with
      | Some a, Some b, Some c, Some d => Some (4096 * a + 256 * b + 16 * c + d, rest)
      | _, _, _, _ => None
      end
  | _ => None
  end.

(** [utf8.AppendRune]; surrogates and values beyond U+10FFFF give U+FFFD. *)
Definition encode_rune (r : N) : bytes :=
  if r <? 128 then [r]
  else if r <? 2048 then [192 + r / 64; 128 + r mod 64]
  else if Json.in_range 55296 57343 r || (1114111 <? r) then [239; 191; 189]
  else if r <? 65536 then [224 + r / 4096; 128 + (r / 64) mod 64; 128 + r mod 64]
  else [240 + r / 262144; 128 + (r / 4096) mod 64; 128 + (r / 64) mod 64; 128 + r mod 64].

Definition simple_escape (b : N) : option N :=
  if (b =? 34) || (b =? 92) || (b =? 47) then Some b
  else if b =? 98 then Some 8
  else if b =? 102 then Some 12
  else if b =? 110 then Some 10
  else if b =? 114 then Some 13
  else if b =? 116 then Some 9
  else None.

(** The rune at the head of the bytes and what follows it, when they are UTF-8. *)
Definition utf8_head (l : bytes) : option (bytes * bytes) :=
  match l with
  | b0 :: b1 :: l2 =>
      if Json.in_range 194 223 b0 && Json.cont_byte b1 then Some ([b0; b1], l2)
      else match l2 with
      | b2 :: l3 =>
          if Json.second3 b0 b1 && Json.cont_byte b2 then Some ([b0; b1; b2], l3)
          else match l3 with
          | b3 :: l4 =>
              if Json.second4 b0 b1 && Json.cont_byte b2 && Json.cont_byte b3
              then Some ([b0; b1; b2; b3], l4) else None
          | [] => None
          end
      | [] => None
      end
  | _ => None
  end.

(** The rest of a string after its opening quote: the decoded bytes and the text
    after the closing quote. Every turn takes a byte at least. *)
Fixpoint string_body (fuel : nat) (l : bytes) : option (bytes * bytes) :=
  match fuel, l with
  | S fuel, b :: rest =>
      let more out rest := '(s, t) ← string_body fuel rest; Some (out ++ s, t) in
      if b =? 34 then Some ([], rest)
      else if b <? 32 then None
      else if b =? 92 then
        match rest with
        | 117 :: rest' =>
            match hex4 rest' with
            | None => None
            | Some (r, rest') =>
                if Json.in_range 55296 56319 r then
                  match rest' with
                  | 92 :: 117 :: low =>
                      match hex4 low with
                      | Some (r2, low') =>
                          if Json.in_range 56320 57343 r2
                          then more (encode_rune (65536 + (r - 55296) * 1024 + (r2 - 56320))) low'
                          else more (encode_rune 65533) rest'
                      | None => None
                      end
                  | _ => more (encode_rune 65533) rest'
                  end
                else more (encode_rune r) rest'
            end
        | c :: rest' => match simple_escape c with Some b => more [b] rest' | None => None end
        | [] => None
        end
      else if b <? 128 then more [b] rest
      else match utf8_head l with
           | Some (rune, rest) => more rune rest
           | None => more [239; 191; 189] rest
           end
  | _, _ => None
  end.

(** ** Numbers *)

Fixpoint digits (l : bytes) : bytes * bytes :=
  match l with
  | b :: rest => if Json.in_range 48 57 b then let '(d, t) := digits rest in (b :: d, t) else ([], l)
  | [] => ([], [])
  end.

Definition integer_part (l : bytes) : option (bytes * bytes) :=
  match l with
  | 48 :: rest => Some ([48], rest)
  | _ => let '(d, t) := digits l in match d with [] => None | _ => Some (d, t) end
  end.

Definition fraction (l : bytes) : option (bytes * bytes) :=
  match l with
  | 46 :: rest => let '(d, t) := digits rest in match d with [] => None | _ => Some (46 :: d, t) end
  | _ => Some ([], l)
  end.

Definition exponent (l : bytes) : option (bytes * bytes) :=
  match l with
  | b :: rest =>
      if (b =? 101) || (b =? 69) then
        let '(sign, rest) := match rest with
                             | s :: rest' => if (s =? 43) || (s =? 45) then ([s], rest') else ([], rest)
                             | [] => ([], [])
                             end in
        let '(d, t) := digits rest in match d with [] => None | _ => Some (b :: sign ++ d, t) end
      else Some ([], l)
  | [] => Some ([], [])
  end.

Definition minus_sign (l : bytes) : bytes * bytes := match l with 45 :: rest => ([45], rest) | _ => ([], l) end.

Definition number (l : bytes) : option (string * bytes) :=
  let '(sign, l) := minus_sign l in
  '(i, l) ← integer_part l;
  '(f, l) ← fraction l;
  '(x, l) ← exponent l;
  Some (string_of_bytes (sign ++ i ++ f ++ x), l).

(** ** Values *)

Fixpoint strip_bytes (p l : bytes) : option bytes :=
  match p, l with
  | [], _ => Some l
  | a :: p, b :: l => if a =? b then strip_bytes p l else None
  | _ :: _, [] => None
  end.

(** What was read when [t] is left of [l]. *)
Definition text_between (l t : bytes) : bytes := take (length l - length t) l.

(** Each call takes a byte at least, so the length of the text is enough fuel. *)
Fixpoint value (fuel : nat) (l : bytes) : option (jvalue * bytes) :=
  match fuel with
  | O => None
  | S fuel =>
      match skip_ws l with
      | [] => None
      | b :: rest =>
          if b =? 123 then
            match skip_ws rest with
            | 125 :: t => Some (VObj [], t)
            | _ => '(fs, t) ← members fuel rest; Some (VObj fs, t)
            end
          else if b =? 91 then
            match skip_ws rest with
            | 93 :: t => Some (VArr [], t)
            | _ => '(xs, t) ← elements fuel rest; Some (VArr xs, t)
            end
          else if b =? 34 then '(s, t) ← string_body (length rest) rest; Some (VStr (string_of_bytes s), t)
          else match strip_bytes (bytes_of_string "null") (b :: rest) with
          | Some t => Some (VNull, t)
          | None =>
              match strip_bytes (bytes_of_string "true") (b :: rest) with
              | Some t => Some (VBool true, t)
              | None =>
                  match strip_bytes (bytes_of_string "false") (b :: rest) with
                  | Some t => Some (VBool false, t)
                  | None => '(n, t) ← number (b :: rest); Some (VNum n, t)
                  end
              end
          end
      end
  end
with elements (fuel : nat) (l : bytes) : option (list jvalue * bytes) :=
  match fuel with
  | O => None
  | S fuel =>
      '(v, t) ← value fuel l;
      match skip_ws t with
      | 44 :: t => '(vs, t) ← elements fuel t; Some (v :: vs, t)
      | 93 :: t => Some ([v], t)
      | _ => None
      end
  end
with members (fuel : nat) (l : bytes) : option (list (string * (jvalue * bytes)) * bytes) :=
  match fuel with
  | O => None
  | S fuel =>
      match skip_ws l with
      | 34 :: rest =>
          '(k, t) ← string_body (length rest) rest;
          match skip_ws t with
          | 58 :: l =>
              '(v, t) ← value fuel l;
              let field := (string_of_bytes k, (v, text_between (skip_ws l) t)) in
              match skip_ws t with
              | 44 :: t => '(fs, t) ← members fuel t; Some (field :: fs, t)
              | 125 :: t => Some ([field], t)
              | _ => None
              end
          | _ => None
          end
      | _ => None
      end
  end.

(** The whole text is one value. *)
Definition parse_json (s : string) : option jvalue :=
  let l := bytes_of_string s in
  '(v, t) ← value (2 * length l + 2) l;
  match skip_ws t with [] => Some v | _ => None end.

(** ** Storing a value *)

Definition decode_int (v : jvalue) (old : Z) : Z :=
  match v with VNum tok => match parse_int tok with (z, NumOk) => z | _ => old end | _ => old end.
Definition decode_uint (v : jvalue) (old : N) : N :=
  match v with VNum tok => match parse_uint tok with (n, NumOk) => n | _ => old end | _ => old end.
Definition decode_string (v : jvalue) (old : string) : string :=
  match v with VStr s => s | _ => old end.

(** Field names match exactly or up to case; the runes U+017F and U+212A fold to
    [S] and [K]. *)
Fixpoint fold_bytes (l : bytes) : bytes :=
  match l with
  | 197 :: 191 :: rest => 83 :: fold_bytes rest
  | 226 :: 132 :: 170 :: rest => 75 :: fold_bytes rest
  | b :: rest => (if Json.in_range 97 122 b then b - 32 else b) :: fold_bytes rest
  | [] => []
  end.
Definition same_field (name key : string) : bool :=
  bool_decide (fold_bytes (bytes_of_string name) = fold_bytes (bytes_of_string key)).
