(* ===== verification/JsonRoundtrip.v ===== *)
(** * [encoding/json]: what is marshalled is read back

    For values whose strings are UTF-8, [json.Unmarshal] reads the value that
    [json.Marshal] printed: every escape is undone, numbers keep their token, and
    the fuel of the parser is enough. *)
From S2P Require Import Prelude GoStd GoJson.
Import Json.
Local Open Scope N_scope.

(** ** Bytes *)

Lemma bytes_app s1 s2 : bytes_of_string (s1 +:+ s2) = bytes_of_string s1 ++ bytes_of_string s2.
Proof.
  unfold bytes_of_string. induction s1 as [|c s1 IH]; [done|]. simpl. f_equal. exact IH.
Qed.

Lemma bytes_cons c s : bytes_of_string (String c s) = N_of_ascii c :: bytes_of_string s.
Proof. done. Qed.

Lemma bytes_of_bytes l : Forall (λ b, b < 256) l → bytes_of_string (string_of_bytes l) = l.
Proof.
  unfold bytes_of_string, string_of_bytes, byte_of. induction 1 as [|b l Hb _ IH]; [done|]. simpl.
  rewrite N_ascii_embedding by done. f_equal. exact IH.
Qed.

Lemma string_of_bytes_of s : string_of_bytes (bytes_of_string s) = s.
Proof.
  unfold bytes_of_string, string_of_bytes, byte_of. induction s as [|c s IH]; [done|]. simpl.
  rewrite ascii_N_embedding. f_equal. exact IH.
Qed.

Lemma bytes_small s : Forall (λ b, b < 256) (bytes_of_string s).
Proof.
  induction s as [|c s IH]; [constructor|]. rewrite bytes_cons. constructor; [|done].
  apply N_ascii_bounded.
Qed.

(** ** Strings *)

(** The runes of a UTF-8 text. *)
Inductive utf8 : list N → Prop :=
  | utf8_nil : utf8 []
  | utf8_one b l : b < 128 → utf8 l → utf8 (b :: l)
  | utf8_two b0 b1 l : in_range 194 223 b0 = true → cont_byte b1 = true → utf8 l → utf8 (b0 :: b1 :: l)
  | utf8_three b0 b1 b2 l : second3 b0 b1 = true → cont_byte b2 = true → utf8 l → utf8 (b0 :: b1 :: b2 :: l)
  | utf8_four b0 b1 b2 b3 l : second4 b0 b1 = true → cont_byte b2 = true → cont_byte b3 = true → utf8 l →
      utf8 (b0 :: b1 :: b2 :: b3 :: l).

Lemma ascii_utf8 l : Forall (λ b, b < 128) l → utf8 l.
Proof. induction 1; by constructor. Qed.

Lemma in_range_spec lo hi b : in_range lo hi b = true ↔ lo <= b ∧ b <= hi.
Proof. unfold in_range. rewrite andb_true_iff, !N.leb_le. done. Qed.

Lemma second3_first b0 b1 : second3 b0 b1 = true → 224 <= b0 ∧ b0 <= 239 ∧ cont_byte b1 = true.
Proof.
  unfold second3, cont_byte. destruct (N.eqb_spec b0 224); [|destruct (N.eqb_spec b0 237)];
    rewrite ?andb_true_iff, !in_range_spec; lia.
Qed.
Lemma second4_first b0 b1 : second4 b0 b1 = true → 240 <= b0 ∧ b0 <= 244 ∧ cont_byte b1 = true.
Proof.
  unfold second4, cont_byte. destruct (N.eqb_spec b0 240); [|destruct (N.eqb_spec b0 244)];
    rewrite ?andb_true_iff, !in_range_spec; lia.
Qed.

Definition more (out : bytes) (r : option (bytes * bytes)) : option (bytes * bytes) :=
  '(s, t) ← r; Some (out ++ s, t).

Lemma below_128 (P : N → Prop) : (∀ n : nat, (n < 128)%nat → P (N.of_nat n)) → ∀ b, b < 128 → P b.
Proof. intros H b Hb. rewrite <- (N2Nat.id b). apply H. lia. Qed.

(** One escaped ASCII byte. *)
Lemma string_body_ascii b : b < 128 → ∀ fuel rest,
  string_body (S fuel) (bytes_of_string (escape_ascii b) ++ rest) = more [b] (string_body fuel rest).
Proof.
  revert b. refine (below_128 (λ b, ∀ fuel rest, string_body (S fuel) (bytes_of_string (escape_ascii b) ++ rest) =
    more [b] (string_body fuel rest)) _). intros n Hn fuel rest.
  do 128 (destruct n as [|n]; [reflexivity|]). exfalso. lia.
Qed.

Lemma string_body_high b l fuel : 128 <= b →
  string_body (S fuel) (b :: l) =
  match utf8_head (b :: l) with
  | Some (rune, rest) => more rune (string_body fuel rest)
  | None => more [239; 191; 189] (string_body fuel l)
  end.
Proof.
  intros Hb. cbn [string_body]. rewrite (proj2 (N.eqb_neq b 34)), (proj2 (N.ltb_ge b 32)), (proj2 (N.eqb_neq b 92)),
    (proj2 (N.ltb_ge b 128)) by lia. done.
Qed.

Lemma string_body_two b0 b1 fuel rest : in_range 194 223 b0 = true → cont_byte b1 = true →
  string_body (S fuel) (b0 :: b1 :: rest) = more [b0; b1] (string_body fuel rest).
Proof.
  intros H0 H1. rewrite string_body_high by (apply in_range_spec in H0; lia). simpl. by rewrite H0, H1.
Qed.

Lemma string_body_three b0 b1 b2 fuel rest : second3 b0 b1 = true → cont_byte b2 = true →
  string_body (S fuel) (b0 :: b1 :: b2 :: rest) = more [b0; b1; b2] (string_body fuel rest).
Proof.
  intros H0 H1. destruct (second3_first _ _ H0) as (Hlo & Hhi & _). rewrite string_body_high by lia. simpl.
  destruct (in_range 194 223 b0) eqn:E; [apply in_range_spec in E; lia|]. simpl. by rewrite H0, H1.
Qed.

Lemma string_body_four b0 b1 b2 b3 fuel rest :
  second4 b0 b1 = true → cont_byte b2 = true → cont_byte b3 = true →
  string_body (S fuel) (b0 :: b1 :: b2 :: b3 :: rest) = more [b0; b1; b2; b3] (string_body fuel rest).
Proof.
  intros H0 H1 H2. destruct (second4_first _ _ H0) as (Hlo & Hhi & _). rewrite string_body_high by lia. simpl.
  destruct (in_range 194 223 b0) eqn:E; [apply in_range_spec in E; lia|]. simpl.
  destruct (second3 b0 b1) eqn:E3; [apply second3_first in E3; lia|]. simpl. by rewrite H0, H1, H2.
Qed.


Lemma quote_body_cons_high b0 b1 l : in_range 194 223 b0 = true → cont_byte b1 = true →
  quote_body (b0 :: b1 :: l) = string_of_bytes [b0; b1] +:+ quote_body l.
Proof.
  intros H0 H1. pose proof (proj1 (in_range_spec _ _ _) H0). cbn [quote_body].
  rewrite (proj2 (N.ltb_ge b0 128)) by lia. by rewrite H0, H1.
Qed.

Lemma quote_body_three b0 b1 b2 l : second3 b0 b1 = true → cont_byte b2 = true →
  quote_body (b0 :: b1 :: b2 :: l) =
  if (b0 =? 226) && (b1 =? 128) && ((b2 =? 168) || (b2 =? 169))
  then "\u202" +:+ String (hex_digit (b2 - 160)) (quote_body l)
  else string_of_bytes [b0; b1; b2] +:+ quote_body l.
Proof.
  intros H0 H1. destruct (second3_first _ _ H0) as (Hlo & Hhi & _). cbn [quote_body].
  rewrite (proj2 (N.ltb_ge b0 128)) by lia.
  destruct (in_range 194 223 b0) eqn:E; [apply in_range_spec in E; lia|]. simpl. by rewrite H0, H1.
Qed.

Lemma quote_body_four b0 b1 b2 b3 l : second4 b0 b1 = true → cont_byte b2 = true → cont_byte b3 = true →
  quote_body (b0 :: b1 :: b2 :: b3 :: l) = string_of_bytes [b0; b1; b2; b3] +:+ quote_body l.
Proof.
  intros H0 H1 H2. destruct (second4_first _ _ H0) as (Hlo & Hhi & _). cbn [quote_body].
  rewrite (proj2 (N.ltb_ge b0 128)) by lia.
  destruct (in_range 194 223 b0) eqn:E; [apply in_range_spec in E; lia|].
  destruct (second3 b0 b1) eqn:E3; [apply second3_first in E3; lia|]. simpl. by rewrite H0, H1, H2.
Qed.

Lemma cont_byte_small b : cont_byte b = true → b < 256.
Proof. unfold cont_byte. rewrite in_range_spec. lia. Qed.

Lemma string_body_quote l : utf8 l → ∀ fuel rest, (length (bytes_of_string (quote_body l)) < fuel)%nat →
  string_body fuel (bytes_of_string (quote_body l) ++ 34 :: rest) = Some (l, rest).
Proof.
  assert (∀ rune text l fuel rest, (0 < length text)%nat →
    (∀ fuel rest, string_body (S fuel) (text ++ rest) = more rune (string_body fuel rest)) →
    (∀ fuel rest, (length (bytes_of_string (quote_body l)) < fuel)%nat →
       string_body fuel (bytes_of_string (quote_body l) ++ 34 :: rest) = Some (l, rest)) →
    (length (text ++ bytes_of_string (quote_body l)) < fuel)%nat →
    string_body fuel ((text ++ bytes_of_string (quote_body l)) ++ 34 :: rest) = Some (rune ++ l, rest)) as Hgo.
  { intros rune text l' fuel rest Ht Hs IH Hf. rewrite length_app in Hf. destruct fuel as [|fuel]; [lia|].
    rewrite <- app_assoc, Hs, IH by lia. done. }
  induction 1 as [|b l Hb _ IH|b0 b1 l H0 H1 _ IH|b0 b1 b2 l H0 H1 _ IH|b0 b1 b2 b3 l H0 H1 H2 _ IH]; intros fuel rest Hf.
  - destruct fuel; [simpl in Hf; lia|]. done.
  - cbn [quote_body] in *. rewrite (proj2 (N.ltb_lt b 128)) in * by done. rewrite bytes_app in *.
    apply (Hgo [b]); [|intros; by apply string_body_ascii|done|done].
    unfold escape_ascii. repeat case_match; simpl; lia.
  - rewrite quote_body_cons_high in * by done. rewrite bytes_app in *.
    pose proof (proj1 (in_range_spec _ _ _) H0). pose proof (cont_byte_small _ H1).
    rewrite (bytes_of_bytes [b0; b1]) in * by (repeat constructor; lia).
    apply (Hgo [b0; b1]); [simpl; lia|intros; by apply string_body_two|done|done].
  - rewrite quote_body_three in * by done. destruct (second3_first _ _ H0) as (Hlo & Hhi & Hc).
    destruct (_ && _ && _) eqn:E.
    + apply andb_true_iff in E as [[E0%N.eqb_eq E1%N.eqb_eq]%andb_true_iff E2]. subst b0 b1.
      assert (∀ c, bytes_of_string ("\u202" +:+ String c (quote_body l)) =
        [92; 117; 50; 48; 50; N_of_ascii c] ++ bytes_of_string (quote_body l)) as Eq by done.
      rewrite Eq in *. apply (Hgo [226; 128; b2]); [simpl; lia| |done|done].
      intros. apply orb_true_iff in E2 as [->%N.eqb_eq| ->%N.eqb_eq]; reflexivity.
    + rewrite bytes_app in *. pose proof (cont_byte_small _ H1). pose proof (cont_byte_small _ Hc).
      rewrite (bytes_of_bytes [b0; b1; b2]) in * by (repeat constructor; lia).
      apply (Hgo [b0; b1; b2]); [simpl; lia|intros; by apply string_body_three|done|done].
  - rewrite quote_body_four in * by done. rewrite bytes_app in *. destruct (second4_first _ _ H0) as (Hlo & Hhi & Hc).
    pose proof (cont_byte_small _ H1). pose proof (cont_byte_small _ Hc). pose proof (cont_byte_small _ H2).
    rewrite (bytes_of_bytes [b0; b1; b2; b3]) in * by (repeat constructor; lia).
    apply (Hgo [b0; b1; b2; b3]); [simpl; lia|intros; by apply string_body_four|done|done].
Qed.

(** ** Numbers *)

(** What may follow a value. *)
Definition stop (rest : bytes) : Prop := match rest with [] => True | b :: _ => b = 44 ∨ b = 93 ∨ b = 125 end.

Lemma digits_app s rest : all_digits s = true → stop rest →
  digits (bytes_of_string s ++ rest) = (bytes_of_string s, rest).
Proof.
  intros Hs Hr. induction s as [|c s IH].
  - destruct rest as [|b rest]; [done|]. simpl in *. by destruct Hr as [-> |[-> | ->]].
  - cbn [all_digits] in Hs. apply andb_true_iff in Hs as [[d Hd]%bool_decide_eq_true Hs].
    rewrite bytes_cons. cbn [app digits]. unfold digit_of in Hd. fold (in_range 48 57 (N_of_ascii c)) in Hd.
    destruct (in_range 48 57 (N_of_ascii c)); [|done]. by rewrite IH.
Qed.

Lemma pretty_go_head x : ∀ s, 0 < x → ∃ c s', pretty_N_go x s = String c s' ∧ N_of_ascii c ≠ 48.
Proof.
  induction (N.lt_wf_0 x) as [x _ IH]; intros s Hx. rewrite pretty_N_go_step by done.
  destruct (N.eq_0_gt_0_cases (x `div` 10)) as [E|E].
  - rewrite E. cbn. exists (pretty_N_char (x `mod` 10)), s. split; [done|].
    assert (x < 10) as Hs by (apply N.div_small_iff in E; lia). rewrite N.mod_small by done.
    assert (x = 1 ∨ x = 2 ∨ x = 3 ∨ x = 4 ∨ x = 5 ∨ x = 6 ∨ x = 7 ∨ x = 8 ∨ x = 9) as Hc by lia.
    repeat (destruct Hc as [->|Hc]; [done|]). by subst.
  - apply IH; [by apply N.div_lt|done].
Qed.

Lemma integer_part_format n rest : stop rest →
  integer_part (bytes_of_string (format_uint n) ++ rest) = Some (bytes_of_string (format_uint n), rest).
Proof.
  intros Hr. destruct (N.eq_0_gt_0_cases n) as [->|Hn]; [done|].
  pose proof (digits_app _ _ (format_uint_digits n) Hr) as Hd.
  assert (∃ c s', format_uint n = String c s' ∧ N_of_ascii c ≠ 48) as (c & s' & E & Hc).
  { unfold format_uint, pretty, pretty_N. rewrite decide_False by lia. by apply pretty_go_head. }
  rewrite E in *. rewrite bytes_cons in *. cbn [app] in *. unfold integer_part.
  rewrite Hd. clear -Hc. destruct (N_of_ascii c) as [|p]; [done|].
  do 6 (destruct p as [p|p|]; try done).
Qed.

Lemma stop_tail rest : stop rest → fraction rest = Some ([], rest) ∧ exponent rest = Some ([], rest).
Proof. destruct rest as [|b rest]; [done|]. intros [-> |[-> | ->]]; done. Qed.

Lemma number_uint n rest : stop rest →
  number (bytes_of_string (format_uint n) ++ rest) = Some (format_uint n, rest).
Proof.
  intros Hr. destruct (stop_tail _ Hr) as [Hf He]. pose proof (integer_part_format n rest Hr) as Hi.
  destruct (format_uint_cons n) as (c & s & E & [d Hd]). rewrite E in *. rewrite bytes_cons in *. cbn [app] in *.
  assert (N_of_ascii c ≠ 45) as Hc.
  { unfold digit_of in Hd. destruct (N.leb_spec 48 (N_of_ascii c)); [lia|done]. }
  assert (∀ l, minus_sign (N_of_ascii c :: l) = ([], N_of_ascii c :: l)) as Hm.
  { intros l. clear -Hc. destruct (N_of_ascii c) as [|p]; [done|]. do 6 (destruct p as [p|p|]; try done). }
  unfold number. rewrite Hm, Hi. cbn. rewrite Hf. cbn. rewrite He. cbn. rewrite !app_nil_r. f_equal. f_equal.
  exact (string_of_bytes_of (String c s)).
Qed.

Lemma number_int z rest : stop rest →
  number (bytes_of_string (format_int z) ++ rest) = Some (format_int z, rest).
Proof.
  intros Hr. destruct (Z.le_gt_cases 0 z) as [Hz|Hz].
  - rewrite format_int_nonneg by done. by apply number_uint.
  - destruct z as [|p|p]; try lia. rewrite format_int_neg. destruct (stop_tail _ Hr) as [Hf He].
    rewrite bytes_cons. unfold number. cbn [app]. change (N_of_ascii "-") with 45. cbn [minus_sign].
    rewrite integer_part_format by done. cbn. rewrite Hf. cbn. rewrite He. cbn. rewrite !app_nil_r. f_equal. f_equal.
    exact (string_of_bytes_of (String "-" (format_uint (N.pos p)))).
Qed.

(** ** Values *)

Fixpoint value_of (j : json) : jvalue :=
  match j with
  | JNull => VNull
  | JBool b => VBool b
  | JInt z => VNum (format_int z)
  | JUint n => VNum (format_uint n)
  | JStr s => VStr s
  | JArr l => VArr (map value_of l)
  | JObj l => VObj (map (λ '(k, v), (k, (value_of v, bytes_of_string (marshal v)))) l)
  | JRaw text => default VNull (parse_json text)
  end.

Definition utf8_string (s : string) : Prop := utf8 (bytes_of_string s).

Lemma name_utf8 s : forallb (λ b, b <? 128) (bytes_of_string s) = true → utf8_string s.
Proof.
  intros H. apply ascii_utf8, Forall_forall. intros b Hb. rewrite forallb_forall in H.
  apply N.ltb_lt, H. by apply list_elem_of_In.
Qed.

(** The first byte of a value is no white space and closes nothing. *)
Definition starts (l : bytes) : Prop := ∃ b t, l = b :: t ∧ is_ws b = false ∧ b ≠ 93 ∧ b ≠ 125.

(** The parser reads [text] as [v], whatever follows it inside another value. *)
Definition reads (text : string) (v : jvalue) : Prop := ∀ fuel rest,
  (2 * length (bytes_of_string text) <= S fuel)%nat → stop rest →
  value fuel (bytes_of_string text ++ rest) = Some (v, rest).

Fixpoint json_ok (j : json) : Prop :=
  match j with
  | JStr s => utf8_string s
  | JArr l => fold_right (λ v P, json_ok v ∧ P) True l
  | JObj l => fold_right (λ '(k, v) P, (utf8_string k ∧ json_ok v) ∧ P) True l
  | JRaw text => starts (bytes_of_string text) ∧ Forall (λ b, 32 <= b) (bytes_of_string text) ∧ ∃ v, reads text v
  | _ => True
  end.

(** Calls of the parser for a value. *)
Fixpoint calls (j : json) : nat :=
  match j with
  | JArr l => S (fold_right (λ v n, S (calls v + n)) O l)
  | JObj l => S (fold_right (λ '(k, v) n, S (calls v + n)) O l)
  | JRaw text => pred (2 * length (bytes_of_string text))
  | _ => 1
  end.

Fixpoint json_ind' (P : json → Prop)
    (H0 : P JNull) (H1 : ∀ b, P (JBool b)) (H2 : ∀ z, P (JInt z)) (H3 : ∀ n, P (JUint n)) (H4 : ∀ s, P (JStr s))
    (H5 : ∀ l, Forall P l → P (JArr l)) (H6 : ∀ l, Forall (λ kv, P kv.2) l → P (JObj l))
    (H7 : ∀ text, P (JRaw text)) (j : json) : P j :=
  match j with
  | JNull => H0
  | JBool b => H1 b
  | JInt z => H2 z
  | JUint n => H3 n
  | JStr s => H4 s
  | JArr l => H5 l ((fix go l : Forall P l :=
      match l with
      | [] => List.Forall_nil _
      | v :: l => List.Forall_cons _ _ _ (json_ind' P H0 H1 H2 H3 H4 H5 H6 H7 v) (go l)
      end) l)
  | JObj l => H6 l ((fix go l : Forall (λ kv, P kv.2) l :=
      match l with
      | [] => List.Forall_nil _
      | kv :: l => List.Forall_cons _ _ _ (json_ind' P H0 H1 H2 H3 H4 H5 H6 H7 kv.2) (go l)
      end) l)
  | JRaw text => H7 text
  end.

Lemma digit_starts c s : is_Some (digit_of c) → starts (bytes_of_string (String c s)).
Proof.
  intros [d Hd]. exists (N_of_ascii c), (bytes_of_string s). split; [done|]. unfold digit_of in Hd.
  destruct (N.leb_spec 48 (N_of_ascii c)); [|done]. destruct (N.leb_spec (N_of_ascii c) 57); [|done].
  unfold is_ws. rewrite !(proj2 (N.eqb_neq _ _)) by lia. split; [done|]. lia.
Qed.

Lemma marshal_starts j : json_ok j → starts (bytes_of_string (marshal j)).
Proof.
  intros Hj. destruct j as [|[]|z|n|s|l|l|text]; try (by eexists _, _); [| |exact (proj1 Hj)].
  - destruct (Z.le_gt_cases 0 z) as [Hz|Hz].
    + cbn [marshal]. rewrite format_int_nonneg by done. destruct (format_uint_cons (Z.to_N z)) as (c & s & -> & Hc).
      by apply digit_starts.
    + destruct z as [|p|p]; try lia. cbn [marshal]. rewrite format_int_neg. by eexists _, _.
  - cbn [marshal]. destruct (format_uint_cons n) as (c & s & -> & Hc). by apply digit_starts.
Qed.

Lemma skip_starts l rest : starts l → skip_ws (l ++ rest) = l ++ rest.
Proof. intros (b & t & -> & Hb & _). simpl. by rewrite Hb. Qed.

Lemma skip_stop rest : stop rest → skip_ws rest = rest.
Proof. destruct rest as [|b rest]; [done|]. intros [-> |[-> | ->]]; done. Qed.

Lemma text_between_app l rest : text_between (l ++ rest) rest = l.
Proof. unfold text_between. rewrite length_app, Nat.add_sub. by rewrite take_app_length. Qed.

Definition read_back (j : json) : Prop := json_ok j → ∀ fuel rest, (calls j <= fuel)%nat → stop rest →
  value fuel (bytes_of_string (marshal j) ++ rest) = Some (value_of j, rest).

Lemma elements_read l : Forall read_back l → l ≠ [] → fold_right (λ v P, json_ok v ∧ P) True l →
  ∀ fuel rest, (fold_right (λ v n, S (calls v + n)) O l <= fuel)%nat →
  elements fuel (bytes_of_string (join "," (map marshal l)) ++ 93 :: rest) = Some (map value_of l, rest).
Proof.
  induction 1 as [|v l Hv Hl IH]; intros Hne Hok fuel rest Hf; [done|]. simpl in Hf, Hok. destruct Hok as [Hov Hol].
  destruct fuel as [|fuel]; [lia|]. cbn [elements]. destruct l as [|v' l].
  - simpl. rewrite (Hv Hov) by (simpl; tauto || lia). done.
  - change (join "," (map marshal (v :: v' :: l))) with (marshal v +:+ "," +:+ join "," (map marshal (v' :: l))).
    rewrite bytes_app, <- app_assoc, (Hv Hov) by (simpl; tauto || lia). cbn [mbind option_bind].
    rewrite bytes_app. change (bytes_of_string ",") with [44]. cbn [app skip_ws is_ws N.eqb Pos.eqb orb].
    rewrite IH by (done || lia). done.
Qed.

Lemma quote_bytes s : bytes_of_string (quote s) = 34 :: bytes_of_string (quote_body (bytes_of_string s)) ++ [34].
Proof. unfold quote. rewrite !bytes_app. done. Qed.

Lemma string_read s rest : utf8_string s →
  string_body (length (bytes_of_string (quote_body (bytes_of_string s)) ++ 34 :: rest))
    (bytes_of_string (quote_body (bytes_of_string s)) ++ 34 :: rest) = Some (bytes_of_string s, rest).
Proof. intros Hs. apply string_body_quote; [done|]. rewrite length_app. simpl. lia. Qed.

Definition field_text (kv : string * json) : string := quote kv.1 +:+ ":" +:+ marshal kv.2.

Lemma members_read l : Forall (λ kv, read_back kv.2) l → l ≠ [] →
  fold_right (λ '(k, v) P, (utf8_string k ∧ json_ok v) ∧ P) True l →
  ∀ fuel rest, (fold_right (λ '(k, v) n, S (calls v + n)) O l <= fuel)%nat →
  members fuel (bytes_of_string (join "," (map field_text l)) ++ 125 :: rest) =
    Some (map (λ '(k, v), (k, (value_of v, bytes_of_string (marshal v)))) l, rest).
Proof.
  induction 1 as [|[k v] l Hv Hl IH]; intros Hne Hok fuel rest Hf; [done|]. simpl in Hf, Hok. destruct Hok as [[Hk Hov] Hol].
  destruct fuel as [|fuel]; [lia|].
  assert (∀ tail, stop tail →
    members (S fuel) (bytes_of_string (field_text (k, v)) ++ tail) =
    match tail with
    | 44 :: t => '(fs, t) ← members fuel t; Some ((k, (value_of v, bytes_of_string (marshal v))) :: fs, t)
    | 125 :: t => Some ([(k, (value_of v, bytes_of_string (marshal v)))], t)
    | _ => None
    end) as Hone.
  { intros tail Ht. unfold field_text. cbn [fst snd]. rewrite !bytes_app, quote_bytes, <- !app_assoc. cbn [app].
    rewrite <- app_assoc. cbn [app]. change (bytes_of_string ":") with [58]. cbn [members skip_ws is_ws N.eqb Pos.eqb orb app].
    rewrite string_read by done. cbn [mbind option_bind skip_ws is_ws N.eqb Pos.eqb orb].
    rewrite (Hv Hov) by (done || simpl in *; lia). cbn [mbind option_bind]. rewrite (skip_stop tail) by done.
    by rewrite skip_starts, text_between_app, string_of_bytes_of by (by apply marshal_starts). }
  destruct l as [|kv' l].
  - cbn [map join]. rewrite Hone by (simpl; tauto). done.
  - change (join "," (map field_text ((k, v) :: kv' :: l))) with
      (field_text (k, v) +:+ "," +:+ join "," (map field_text (kv' :: l))).
    rewrite bytes_app, <- app_assoc, bytes_app. change (bytes_of_string ",") with [44]. cbn [app].
    rewrite Hone by (simpl; tauto). rewrite IH by (done || lia). done.
Qed.

Lemma value_number fuel b l : 45 <= b → b <= 57 →
  value (S fuel) (b :: l) = '(n, t) ← number (b :: l); Some (VNum n, t).
Proof.
  intros Hlo Hhi. cbn [value skip_ws]. unfold is_ws. rewrite !(proj2 (N.eqb_neq b _)) by lia. cbn [orb].
  cbn [bytes_of_string fmap list_fmap String.list_ascii_of_string strip_bytes N_of_ascii N_of_digits].
  rewrite !(proj2 (N.eqb_neq _ b)) by (cbn; lia).
  rewrite (proj2 (N.eqb_neq b 123)), (proj2 (N.eqb_neq b 91)), (proj2 (N.eqb_neq b 34)) by lia. done.
Qed.

Lemma format_int_head z : ∃ b t, bytes_of_string (format_int z) = b :: t ∧ 45 <= b ∧ b <= 57.
Proof.
  destruct (Z.le_gt_cases 0 z) as [Hz|Hz].
  - rewrite format_int_nonneg by done. destruct (format_uint_cons (Z.to_N z)) as (c & s & -> & [d Hd]).
    eexists _, _. rewrite bytes_cons. split; [done|]. unfold digit_of in Hd.
    destruct (N.leb_spec 48 (N_of_ascii c)); [|done]. destruct (N.leb_spec (N_of_ascii c) 57); [|done]. lia.
  - destruct z as [|p|p]; try lia. rewrite format_int_neg. eexists _, _. rewrite bytes_cons. split; [done|]. cbn. lia.
Qed.

Lemma value_int z fuel rest : stop rest →
  value (S fuel) (bytes_of_string (format_int z) ++ rest) = Some (VNum (format_int z), rest).
Proof.
  intros Hr. pose proof (number_int z rest Hr) as Hn. destruct (format_int_head z) as (b & t & E & Hlo & Hhi).
  rewrite E in *. cbn [app] in *. rewrite value_number, Hn by done. done.
Qed.

(** An object is read whatever follows it. *)
Lemma object_read l fuel rest : Forall (λ kv, read_back kv.2) l → json_ok (JObj l) → (calls (JObj l) <= S fuel)%nat →
  value (S fuel) (bytes_of_string (marshal (JObj l)) ++ rest) = Some (value_of (JObj l), rest).
Proof.
  intros IH Hok Hf. cbn [marshal value_of].
  assert (map (λ '(k, v), quote k +:+ ":" +:+ marshal v) l = map field_text l) as ->.
  { apply map_ext. by intros [k v]. }
  rewrite !bytes_app, <- !app_assoc. change (bytes_of_string "{") with [123]. change (bytes_of_string "}") with [125].
  cbn [app value skip_ws is_ws N.eqb Pos.eqb orb]. destruct l as [|[k v] l]; [done|].
  assert (∃ t', bytes_of_string (join "," (map field_text ((k, v) :: l))) = 34 :: t') as [t' Et].
  { destruct l; simpl; unfold field_text; rewrite ?bytes_app, quote_bytes; by eexists. }
  pose proof (members_read ((k, v) :: l) IH ltac:(done) Hok fuel rest ltac:(simpl in Hf |- *; lia)) as He.
  rewrite Et in *. cbn [app] in *. cbn [skip_ws is_ws N.eqb Pos.eqb orb]. rewrite He. done.
Qed.

Lemma reads_parse text v : reads text v → parse_json text = Some v.
Proof.
  intros H. unfold parse_json. specialize (H (2 * length (bytes_of_string text) + 2)%nat []).
  rewrite app_nil_r in H. by rewrite H by (simpl; lia || done).
Qed.

(** What [json.Marshal] prints, the parser reads. *)
Lemma value_read j : read_back j.
Proof.
  induction j as [|b|z|n|s|l IH|l IH|text] using json_ind'; intros Hok fuel rest Hf Hr;
    try (destruct fuel as [|fuel]; [simpl in Hf; lia|]).
  - done.
  - by destruct b.
  - by apply value_int.
  - pose proof (value_int (Z.of_N n) fuel rest Hr) as H. rewrite format_int_nonneg, N2Z.id in H by lia. exact H.
  - cbn [marshal value_of]. rewrite quote_bytes. cbn [app value skip_ws is_ws N.eqb Pos.eqb orb].
    rewrite <- app_assoc. cbn [app]. rewrite string_read by done. cbn [mbind option_bind]. by rewrite string_of_bytes_of.
  - cbn [marshal value_of]. rewrite !bytes_app, <- !app_assoc.
    change (bytes_of_string "[") with [91]. change (bytes_of_string "]") with [93].
    cbn [app value skip_ws is_ws N.eqb Pos.eqb orb]. destruct l as [|v l]; [done|].
    destruct (marshal_starts v (proj1 Hok)) as (b & t & E & Hws & Hb & _).
    assert (∃ t', bytes_of_string (join "," (map marshal (v :: l))) = b :: t') as [t' Et].
    { destruct l; simpl; rewrite ?bytes_app, E; by eexists. }
    pose proof (elements_read (v :: l) IH ltac:(done) Hok fuel rest ltac:(simpl in Hf |- *; lia)) as He.
    rewrite Et in *. cbn [app] in *. cbn [skip_ws]. rewrite Hws. cbv iota.
    destruct b as [|p]; [by rewrite He|]. do 7 (destruct p as [p|p|]; try (by rewrite He)). done.
  - apply object_read; [done..|lia].
  - destruct Hok as (_ & _ & v & Hv). cbn [marshal value_of]. rewrite (reads_parse _ _ Hv). apply Hv; [|done]. simpl in Hf. lia.
Qed.

(** ** Enough fuel *)

Definition size_of (s : string) : nat := length (bytes_of_string s).

Lemma size_app s1 s2 : size_of (s1 +:+ s2) = (size_of s1 + size_of s2)%nat.
Proof. unfold size_of. by rewrite bytes_app, length_app. Qed.

Lemma join_size {A} (text : A → string) (cost : A → nat) l :
  Forall (λ x, cost x < 2 * size_of (text x))%nat l →
  (fold_right (λ x n, S (cost x + n)) O l <= 2 * size_of (join "," (map text l)))%nat.
Proof.
  induction 1 as [|x l Hx Hl IH]; [simpl; lia|]. destruct l as [|y l].
  - simpl in *. lia.
  - change (join "," (map text (x :: y :: l))) with (text x +:+ "," +:+ join "," (map text (y :: l))).
    rewrite !size_app. change (size_of ",") with 1%nat. cbn [fold_right] in *. lia.
Qed.

Lemma size_pos j : json_ok j → (1 <= size_of (marshal j))%nat.
Proof. intros Hj. destruct (marshal_starts j Hj) as (b & t & E & _). unfold size_of. rewrite E. simpl. lia. Qed.

Lemma forall_fold {A} (P Q : A → Prop) l :
  Forall (λ v, P v → Q v) l → fold_right (λ v R, P v ∧ R) True l → Forall Q l.
Proof. induction 1; simpl; intros Hl; [constructor|]. destruct Hl. constructor; auto. Qed.

Lemma calls_bound j : json_ok j → (calls j < 2 * size_of (marshal j))%nat.
Proof.
  induction j as [|b|z|n|s|l IH|l IH|text] using json_ind'; intros Hok; pose proof (size_pos _ Hok) as Hpos;
    try (cbn [calls]; lia).
  - apply (forall_fold json_ok) in IH; [|exact Hok].
    cbn [calls marshal]. rewrite !size_app. change (size_of "[") with 1%nat. change (size_of "]") with 1%nat.
    pose proof (join_size marshal calls l IH). lia.
  - assert (Forall (λ kv, calls kv.2 < 2 * size_of (marshal kv.2))%nat l) as Hl.
    { apply (forall_fold (λ kv, json_ok kv.2)); [exact IH|]. cbn [json_ok] in Hok. clear -Hok.
      induction l as [|[k v] l IHl]; [done|]. destruct Hok as [[_ ?] ?]. simpl. auto. }
    cbn [calls marshal]. rewrite !size_app. change (size_of "{") with 1%nat. change (size_of "}") with 1%nat.
    assert (map (λ '(k, v), quote k +:+ ":" +:+ marshal v) l = map field_text l) as -> by (apply map_ext; by intros [k v]).
    pose proof (join_size field_text (λ kv, calls kv.2) l) as H. specialize (H ltac:(
      eapply Forall_impl; [exact Hl|]; intros [k v] Hv; unfold field_text; rewrite !size_app; simpl in *; lia)).
    assert (fold_right (λ '(k, v) n, S (calls v + n)) O l = fold_right (λ kv n, S (calls kv.2 + n)) O l) as ->; [|lia].
    clear. induction l as [|[k v] l IH]; simpl; congruence.
  - unfold size_of in *. cbn [marshal calls] in *. lia.
Qed.

(** A marshalled value can be the text of a [json.RawMessage]. *)
Lemma marshal_reads j : json_ok j → reads (marshal j) (value_of j).
Proof. intros Hj fuel rest Hf Hr. apply value_read; [done| |done]. pose proof (calls_bound j Hj). unfold size_of in *. lia. Qed.

(** [json.Unmarshal] into an interface value gives back what [json.Marshal]
    printed. *)
Lemma parse_json_marshal j : json_ok j → parse_json (marshal j) = Some (value_of j).
Proof. intros Hj. by apply reads_parse, marshal_reads. Qed.

(** A line with an object. *)
Lemma parse_json_line l : json_ok (JObj l) → parse_json (marshal (JObj l) +:+ nl) = Some (value_of (JObj l)).
Proof.
  intros Hok. unfold parse_json. rewrite bytes_app. change (bytes_of_string nl) with [10].
  set (fuel := (2 * length _ + 2)%nat).
  assert (∃ fuel', fuel = S fuel' ∧ (calls (JObj l) <= S fuel')%nat) as (fuel' & -> & Hf).
  { pose proof (calls_bound _ Hok) as Hc. unfold size_of in Hc. exists (pred fuel). unfold fuel. rewrite length_app.
    change (length [10]) with 1%nat. set (n := length _) in *. set (m := calls _) in *. clearbody n m. lia. }
  rewrite object_read; [done| |done|done]. apply Forall_forall. intros kv _. apply value_read.
Qed.

(** ** Marshalled text has no control characters *)

Definition printable (t : list N) : Prop := Forall (λ b, 32 <= b) t.

Lemma printable_digits s : all_digits s = true → printable (bytes_of_string s).
Proof.
  unfold printable. induction s as [|c s IH]; intros Hs; [constructor|]. cbn [all_digits] in Hs. apply andb_true_iff in Hs as [Hc Hs].
  rewrite bytes_cons. constructor; [|by apply IH]. revert Hc. unfold digit_of.
  destruct (N.leb_spec 48 (N_of_ascii c)); [lia|done].
Qed.

Lemma printable_int z : printable (bytes_of_string (format_int z)).
Proof.
  destruct (Z.le_gt_cases 0 z) as [Hz|Hz].
  - rewrite format_int_nonneg by done. apply printable_digits, format_uint_digits.
  - destruct z as [|p|p]; try lia. rewrite format_int_neg, bytes_cons. constructor; [done|].
    apply printable_digits, format_uint_digits.
Qed.

Lemma printable_escape b : b < 128 → printable (bytes_of_string (escape_ascii b)).
Proof.
  revert b. refine (below_128 (λ b, printable (bytes_of_string (escape_ascii b))) _). intros n Hn.
  do 128 (destruct n as [|n]; [by repeat constructor|]). exfalso. lia.
Qed.

Lemma printable_body l : utf8 l → printable (bytes_of_string (quote_body l)).
Proof.
  unfold printable.
  induction 1 as [|b l Hb _ IH|b0 b1 l H0 H1 _ IH|b0 b1 b2 l H0 H1 _ IH|b0 b1 b2 b3 l H0 H1 H2 _ IH].
  - constructor.
  - cbn [quote_body]. rewrite (proj2 (N.ltb_lt _ _)) by done. rewrite bytes_app. apply Forall_app.
    split; [by apply printable_escape|done].
  - rewrite quote_body_cons_high, bytes_app by done. pose proof (proj1 (in_range_spec _ _ _) H0).
    pose proof (proj1 (in_range_spec _ _ _) H1). rewrite (bytes_of_bytes [b0; b1]) by (repeat constructor; lia).
    repeat constructor; try lia. done.
  - rewrite quote_body_three by done. destruct (second3_first _ _ H0) as (Hlo & Hhi & Hc).
    pose proof (proj1 (in_range_spec _ _ _) Hc). pose proof (proj1 (in_range_spec _ _ _) H1). destruct (_ && _ && _) eqn:E.
    + apply andb_true_iff in E as [_ [->%N.eqb_eq| ->%N.eqb_eq]%orb_true_iff]; repeat (constructor; [done|]); done.
    + rewrite bytes_app, (bytes_of_bytes [b0; b1; b2]) by (repeat constructor; lia). repeat constructor; try lia. done.
  - rewrite quote_body_four, bytes_app by done. destruct (second4_first _ _ H0) as (Hlo & Hhi & Hc).
    pose proof (proj1 (in_range_spec _ _ _) Hc). pose proof (proj1 (in_range_spec _ _ _) H1).
    pose proof (proj1 (in_range_spec _ _ _) H2).
    rewrite (bytes_of_bytes [b0; b1; b2; b3]) by (repeat constructor; lia). repeat constructor; try lia. done.
Qed.

Lemma printable_quote s : utf8_string s → printable (bytes_of_string (quote s)).
Proof.
  intros Hs. rewrite quote_bytes. constructor; [lia|]. apply Forall_app. split; [by apply printable_body|by repeat constructor].
Qed.

Lemma printable_join {A} (text : A → string) l : Forall (λ x, printable (bytes_of_string (text x))) l →
  printable (bytes_of_string (join "," (map text l))).
Proof.
  induction 1 as [|x l Hx Hl IH]; [constructor|]. destruct l as [|y l]; [done|].
  change (join "," (map text (x :: y :: l))) with (text x +:+ "," +:+ join "," (map text (y :: l))).
  rewrite !bytes_app. apply Forall_app. split; [done|]. constructor; [done|exact IH].
Qed.

Lemma marshal_printable j : json_ok j → printable (bytes_of_string (marshal j)).
Proof.
  induction j as [|b|z|n|s|l IH|l IH|text] using json_ind'; intros Hok; [by repeat constructor|destruct b; by repeat constructor|
    apply printable_int|cbn [marshal]; apply printable_digits, format_uint_digits|by apply printable_quote| | |apply Hok].
  - cbn [marshal]. rewrite !bytes_app. constructor; [done|]. apply Forall_app. split; [|by repeat constructor].
    apply printable_join. exact (forall_fold json_ok _ _ IH Hok).
  - cbn [marshal]. rewrite !bytes_app. constructor; [done|]. apply Forall_app. split; [|by repeat constructor].
    assert (map (λ '(k, v), quote k +:+ ":" +:+ marshal v) l = map field_text l) as -> by (apply map_ext; by intros [k v]).
    apply printable_join. cbn [json_ok] in Hok. clear -IH Hok. induction IH as [|[k v] l Hv _ IHl]; [constructor|].
    destruct Hok as [[? ?] ?]. constructor; [|auto]. unfold field_text. cbn [fst snd]. rewrite !bytes_app.
    apply Forall_app. split; [by apply printable_quote|]. constructor; [done|by apply Hv].
Qed.
