(* ===== verification/GoStruct.v ===== *)
(** * [encoding/json] for Go structs

    A type comes with the way [json.Marshal] prints its values and
    [json.Unmarshal] stores into its variables; a struct is the table of its
    fields: name, [omitempty], type, and how the field is read and set. The law of a
    type says that a value is read back into a zero variable as it was, and a
    struct has it when its fields have. *)
From S2P Require Import Prelude GoStd GoJson JsonRoundtrip.
Import Json.
Local Open Scope N_scope.

Record codec (T : Type) := MkCodec {
  c_zero : T;
  c_enc : T → json;
  c_opt : string → T → list (string * json);          (** the field with [omitempty] *)
  c_dec : jvalue → list N → T → option T;             (** value, its text, old value; [None] is an error *)
  c_ok : T → Prop;
  c_test : T → bool;                                  (** a test that is enough for [c_ok] *)
}.
Arguments MkCodec {T}.
Arguments c_zero {T}.
Arguments c_enc {T}.
Arguments c_opt {T}.
Arguments c_dec {T}.
Arguments c_ok {T}.
Arguments c_test {T}.

(** The value prints as JSON and is read back. *)
Definition sound {T} (c : codec T) (t : T) : Prop :=
  json_ok (c_enc c t) ∧
  c_dec c (value_of (c_enc c t)) (bytes_of_string (marshal (c_enc c t))) (c_zero c) = Some t.

Definition lawful {T} (c : codec T) : Prop := ∀ t, c_ok c t → sound c t.

(** As a field with [omitempty]: only the zero value is left out. *)
Definition omit_lawful {T} (c : codec T) : Prop := ∀ k t, c_ok c t →
  (c_opt c k t = [] ∧ t = c_zero c) ∨ (c_opt c k t = [(k, c_enc c t)] ∧ sound c t).

(** Types whose values are stored without a look at their text. *)
Definition textless {T} (c : codec T) : Prop := ∀ v raw old, c_dec c v raw old = c_dec c v [] old.

(** ** Basic types *)

Definition c_string : codec string :=
  MkCodec "" JStr opt_str (λ v _ old, match v with VStr s => Some s | VNull => Some old | _ => None end) utf8_string
    (λ s, forallb (λ b, b <? 128) (bytes_of_string s)).

Definition c_bool : codec bool :=
  MkCodec false JBool opt_bool (λ v _ old, match v with VBool b => Some b | VNull => Some old | _ => None end)
    (λ _, True) (λ _, true).

(** [int] and [int64]. *)
Definition c_int : codec Z :=
  MkCodec 0%Z JInt opt_int
    (λ v _ old, match v with
                | VNum tok => match parse_int tok with (z, NumOk) => Some z | _ => None end
                | VNull => Some old
                | _ => None
                end) (λ z, min_int64 <= z <= max_int64)%Z (λ z, (min_int64 <=? z) && (z <=? max_int64))%Z.

Definition c_uint : codec N :=
  MkCodec 0 JUint opt_uint
    (λ v _ old, match v with
                | VNum tok => match parse_uint tok with (n, NumOk) => Some n | _ => None end
                | VNull => Some old
                | _ => None
                end) (λ n, n <= max_uint64) (λ n, n <=? max_uint64).

(** A slice whose nil and empty values need not be told apart. *)
Definition c_slice {T} (c : codec T) : codec (list T) :=
  MkCodec [] (λ l, arr_copy (c_enc c <$> l)) (λ k l, opt_arr k (c_enc c <$> l))
    (λ v _ old, match v with
                | VArr l => mapM (λ v, c_dec c v [] (c_zero c)) l
                | VNull => Some []
                | _ => None
                end) (Forall (c_ok c)) (forallb (c_test c)).

(** A slice that may be nil or empty. *)
Definition c_nilable {T} (c : codec T) : codec (option (list T)) :=
  MkCodec None (λ l, arr (map (c_enc c) <$> l))
    (λ k l, match l with Some (_ :: _) => fld k (arr (map (c_enc c) <$> l)) | _ => [] end)
    (λ v _ old, match v with
                | VArr l => Some <$> mapM (λ v, c_dec c v [] (c_zero c)) l
                | VNull => Some None
                | _ => None
                end) (λ l, match l with Some l => Forall (c_ok c) l | None => True end)
    (λ l, match l with Some l => forallb (c_test c) l | None => true end).

Definition c_pointer {T} (c : codec T) : codec (option T) :=
  MkCodec None (λ o, match o with Some t => c_enc c t | None => JNull end) (λ k o, opt_obj k (c_enc c <$> o))
    (λ v raw old, match v with VNull => Some None | _ => Some <$> c_dec c v raw (default (c_zero c) old) end)
    (λ o, match o with Some t => c_ok c t | None => True end)
    (λ o, match o with Some t => c_test c t | None => true end).

(** ** Structs *)

Record field (A : Type) := MkField {
  f_name : string;
  f_omit : bool;
  f_type : Type;
  f_codec : codec f_type;
  f_get : A → f_type;
  f_set : f_type → A → A;
}.
Arguments MkField {A} f_name f_omit {f_type}.
Arguments f_name {A}.
Arguments f_omit {A}.
Arguments f_type {A}.
Arguments f_codec {A}.
Arguments f_get {A}.
Arguments f_set {A}.

Section Struct.
Context {A : Type}.
Implicit Types (f : field A) (fs : list (field A)).

Definition emit (a : A) f : list (string * json) :=
  if f_omit f then c_opt (f_codec f) (f_name f) (f_get f a) else fld (f_name f) (c_enc (f_codec f) (f_get f a)).

Definition load_member fs (acc : option A) (m : string * (jvalue * list N)) : option A :=
  acc ← acc;
  match find (λ f, same_field (f_name f) m.1) fs with
  | None => Some acc
  | Some f => t ← c_dec (f_codec f) m.2.1 m.2.2 (f_get f acc); Some (f_set f t acc)
  end.

Definition c_struct (zero : A) fs : codec A :=
  MkCodec zero (λ a, JObj (mjoin (emit a <$> fs))) (λ k a, fld k (JObj (mjoin (emit a <$> fs))))
    (λ v _ old, match v with
                | VObj ms => foldl (load_member fs) (Some old) ms
                | VNull => Some old
                | _ => None
                end) (λ a, Forall (λ f, c_ok (f_codec f) (f_get f a)) fs)
    (λ a, forallb (λ f, c_test (f_codec f) (f_get f a)) fs).

(** Field by field the value is copied over the zero value: each field is still
    zero when its turn comes, and in the end the copy is complete. *)
Fixpoint copies (acc : A) fs (a : A) : Prop :=
  match fs with
  | [] => acc = a
  | f :: fs => f_get f acc = c_zero (f_codec f) ∧ f_set f (f_get f acc) acc = acc ∧ copies (f_set f (f_get f a) acc) fs a
  end.

Definition field_names fs : list (list N) := (λ f, fold_bytes (bytes_of_string (f_name f))) <$> fs.

Definition field_ok f : Prop :=
  utf8_string (f_name f) ∧ if f_omit f then omit_lawful (f_codec f) else lawful (f_codec f).

Definition fields_ok fs : Prop := NoDup (field_names fs) ∧ Forall field_ok fs.

Lemma find_own pre f post : NoDup (field_names (pre ++ f :: post)) →
  find (λ g, same_field (f_name g) (f_name f)) (pre ++ f :: post) = Some f.
Proof.
  intros Hnd. induction pre as [|g pre IH]; simpl in *.
  - unfold same_field. by rewrite bool_decide_eq_true_2.
  - apply NoDup_cons in Hnd as [Hg Hnd]. rewrite IH by done. unfold same_field.
    rewrite bool_decide_eq_false_2; [done|]. intros E. apply Hg. unfold field_names. rewrite fmap_app, fmap_cons, E.
    apply elem_of_app. right. left.
Qed.

Lemma emit_ok a f : field_ok f → c_ok (f_codec f) (f_get f a) →
  (emit a f = [] ∧ f_get f a = c_zero (f_codec f)) ∨
  (emit a f = [(f_name f, c_enc (f_codec f) (f_get f a))] ∧ sound (f_codec f) (f_get f a)).
Proof. intros [_ Hl] Hv. unfold emit. destruct (f_omit f); [by apply Hl|]. right. split; [done|by apply Hl]. Qed.

Lemma load_fields a all fs : ∀ pre acc, all = pre ++ fs → fields_ok all →
  Forall (λ f, c_ok (f_codec f) (f_get f a)) fs → copies acc fs a →
  foldl (load_member all) (Some acc)
    (map (λ '(k, v), (k, (value_of v, bytes_of_string (marshal v)))) (mjoin (emit a <$> fs))) = Some a.
Proof.
  induction fs as [|f fs IH]; intros pre acc Hall Hok Hvals Hc; [by rewrite Hc|].
  apply Forall_cons in Hvals as [Hv Hvals]. destruct Hc as (Hz & Hset & Hc).
  change (mjoin (emit a <$> (f :: fs))) with (emit a f ++ mjoin (emit a <$> fs)). rewrite map_app, foldl_app.
  assert (foldl (load_member all) (Some acc)
    (map (λ '(k, v), (k, (value_of v, bytes_of_string (marshal v)))) (emit a f)) = Some (f_set f (f_get f a) acc)) as ->.
  2:{ apply (IH (pre ++ [f])); [by rewrite <- app_assoc|done..]. }
  assert (field_ok f) as Hf.
  { destruct Hok as [_ Hok]. rewrite Hall, Forall_app, Forall_cons in Hok. tauto. }
  destruct (emit_ok a f Hf Hv) as [[-> E]|[-> [_ Hr]]]; cbn [map foldl].
  - by rewrite E, <- Hz, Hset.
  - unfold load_member. cbn [fst snd mbind option_bind].
    rewrite Hall, find_own by (rewrite <- Hall; apply Hok). by rewrite Hz, Hr.
Qed.

Lemma json_fields_ok a fs : Forall field_ok fs → Forall (λ f, c_ok (f_codec f) (f_get f a)) fs →
  fold_right (λ '(k, v) P, (utf8_string k ∧ json_ok v) ∧ P) True (mjoin (emit a <$> fs)).
Proof.
  induction 1 as [|f fs Hf _ IH]; intros Hv; [done|]. apply Forall_cons in Hv as [Hv Hvs].
  change (mjoin (emit a <$> (f :: fs))) with (emit a f ++ mjoin (emit a <$> fs)).
  destruct (emit_ok a f Hf Hv) as [[-> _]|[-> [Hj _]]]; [by apply IH|]. simpl. split; [|by apply IH].
  split; [apply Hf|done].
Qed.

Lemma struct_lawful zero fs : fields_ok fs → (∀ a, copies zero fs a) → lawful (c_struct zero fs).
Proof.
  intros Hok Hc a Ha. split.
  - simpl in *. apply json_fields_ok; [apply Hok|done].
  - cbn [c_struct c_dec c_enc value_of c_zero]. by apply (load_fields a fs fs []).
Qed.

Lemma struct_textless zero fs : textless (c_struct zero fs).
Proof. by intros [] raw old. Qed.

End Struct.

(** ** The laws of the other types *)

Lemma lawful_omit {T} (c : codec T) : lawful c →
  (∀ k t, (c_opt c k t = [] ∧ t = c_zero c) ∨ c_opt c k t = [(k, c_enc c t)]) → omit_lawful c.
Proof. intros Hl Ho k t Hok. destruct (Ho k t) as [?|?]; [by left|right]. split; [done|by apply Hl]. Qed.

Lemma string_lawful : lawful c_string.
Proof. done. Qed.
Lemma string_omit : omit_lawful c_string.
Proof. apply lawful_omit; [done|]. intros k t. simpl. unfold opt_str. case_decide; [by left|by right]. Qed.

Lemma bool_lawful : lawful c_bool.
Proof. done. Qed.
Lemma bool_omit : omit_lawful c_bool.
Proof. apply lawful_omit; [done|]. intros k []; [by right|by left]. Qed.

Lemma int_lawful : lawful c_int.
Proof. intros z Hz. split; [done|]. simpl in *. by rewrite parse_int_format. Qed.
Lemma int_omit : omit_lawful c_int.
Proof.
  apply lawful_omit; [apply int_lawful|]. intros k z. simpl. unfold opt_int. destruct (Z.eqb_spec z 0); [by left|by right].
Qed.

Lemma uint_lawful : lawful c_uint.
Proof. intros n Hn. split; [done|]. simpl in *. by rewrite parse_uint_format. Qed.
Lemma uint_omit : omit_lawful c_uint.
Proof.
  apply lawful_omit; [apply uint_lawful|]. intros k n. simpl. unfold opt_uint. destruct (N.eqb_spec n 0); [by left|by right].
Qed.

Lemma elements_lawful {T} (c : codec T) l : lawful c → textless c → Forall (c_ok c) l →
  fold_right (λ v P, json_ok v ∧ P) True (c_enc c <$> l) ∧
  mapM (λ v, c_dec c v [] (c_zero c)) (map value_of (c_enc c <$> l)) = Some l.
Proof.
  intros Hl Ht. induction 1 as [|t l Hok _ [IH1 IH2]]; [done|]. rewrite fmap_cons. destruct (Hl t Hok) as [Hj Hr]. split.
  - by split.
  - cbn [map mapM]. by rewrite IH2, <- (Ht _ (bytes_of_string (marshal (c_enc c t)))), Hr.
Qed.

Lemma slice_lawful {T} (c : codec T) : lawful c → textless c → lawful (c_slice c).
Proof. intros Hl Ht l Hok. destruct (elements_lawful c l Hl Ht Hok) as [Hj Hr]. split; simpl; by destruct l. Qed.
Lemma slice_omit {T} (c : codec T) : lawful c → textless c → omit_lawful (c_slice c).
Proof. intros Hl Ht. apply lawful_omit; [by apply slice_lawful|]. intros k l. simpl. destruct l; [by left|by right]. Qed.

Lemma nilable_lawful {T} (c : codec T) : lawful c → textless c → lawful (c_nilable c).
Proof.
  intros Hl Ht [l|] Hok; [|done]. destruct (elements_lawful c l Hl Ht Hok) as [Hj Hr]. split; [done|].
  change (Some <$> mapM (λ v, c_dec c v [] (c_zero c)) (map value_of (c_enc c <$> l)) = Some (Some l)). by rewrite Hr.
Qed.

Lemma pointer_omit {T} (c : codec T) :
  lawful c → (∀ t, value_of (c_enc c t) ≠ VNull) → omit_lawful (c_pointer c).
Proof.
  intros Hl Hn. apply lawful_omit; [|by intros k [t|]; [right|left]].
  intros [t|] Hok; [|done]. specialize (Hn t). destruct (Hl t Hok) as [Hj Hr]. split; [done|].
  cbn [c_pointer c_dec c_enc c_zero default from_option]. destruct (value_of (c_enc c t)); try done; by rewrite Hr.
Qed.

(** ** [json.RawMessage] *)

(** [json.compact] as [json.Marshal] calls it: no white space outside strings, and
    inside them the escapes of a marshalled string. *)
Fixpoint compact (in_string : bool) (l : list N) : list N :=
  match l with
  | [] => []
  | b :: rest =>
      if in_string then
        if b =? 92 then b :: match rest with c :: rest' => c :: compact true rest' | [] => [] end
        else if b =? 34 then b :: compact false rest
        else if (b =? 60) || (b =? 62) || (b =? 38) then bytes_of_string (escape_ascii b) ++ compact true rest
        else match rest with
             | b1 :: b2 :: rest2 =>
                 if (b =? 226) && (b1 =? 128) && ((b2 =? 168) || (b2 =? 169))
                 then bytes_of_string ("\u202" +:+ String (hex_digit (b2 - 160)) EmptyString) ++ compact true rest2
                 else b :: compact true rest
             | _ => b :: compact true rest
             end
      else if is_ws b then compact false rest
      else b :: compact (b =? 34) rest
  end.

(** Values without raw parts. *)
Fixpoint plain (j : json) : Prop :=
  match j with
  | JArr l => fold_right (λ v P, plain v ∧ P) True l
  | JObj l => fold_right (λ '(k, v) P, plain v ∧ P) True l
  | JRaw _ => False
  | _ => True
  end.

(** The text of a marshalled value. *)
Definition marshalled (p : list N) : Prop := ∃ j, plain j ∧ json_ok j ∧ p = bytes_of_string (marshal j).

Definition c_raw : codec (list N) :=
  MkCodec [] (λ p, match p with [] => JNull | _ => JRaw (string_of_bytes (compact false p)) end)
    (λ k p, match p with [] => [] | _ => [(k, JRaw (string_of_bytes (compact false p)))] end)
    (λ _ raw _, Some raw) (λ p, p = [] ∨ marshalled p) (λ p, match p with [] => true | _ => false end).

Lemma compact_high b rest : 128 <= b → b ≠ 226 → compact true (b :: rest) = b :: compact true rest.
Proof.
  intros Hb Hn. cbn [compact]. rewrite !(proj2 (N.eqb_neq b _)) by (done || lia). cbn [orb andb].
  by destruct rest as [|? [|? ?]].
Qed.

Lemma compact_ascii b : b < 128 → ∀ rest,
  compact true (bytes_of_string (escape_ascii b) ++ rest) = bytes_of_string (escape_ascii b) ++ compact true rest.
Proof.
  revert b. refine (below_128 (λ b, ∀ rest, compact true (bytes_of_string (escape_ascii b) ++ rest) =
    bytes_of_string (escape_ascii b) ++ compact true rest) _). intros n Hn rest.
  do 128 (destruct n as [|n]; [by destruct rest as [|? [|? ?]]|]). exfalso. lia.
Qed.

Lemma compact_cont b1 rest : cont_byte b1 = true → compact true (b1 :: rest) = b1 :: compact true rest.
Proof. intros [? ?]%in_range_spec. apply compact_high; lia. Qed.

Lemma compact_body l : utf8 l → ∀ rest,
  compact true (bytes_of_string (quote_body l) ++ rest) = bytes_of_string (quote_body l) ++ compact true rest.
Proof.
  induction 1 as [|b l Hb _ IH|b0 b1 l H0 H1 _ IH|b0 b1 b2 l H0 H1 _ IH|b0 b1 b2 b3 l H0 H1 H2 _ IH]; intros rest.
  - done.
  - cbn [quote_body]. rewrite (proj2 (N.ltb_lt _ _)) by done. by rewrite bytes_app, <- !app_assoc, compact_ascii, IH.
  - rewrite quote_body_cons_high, bytes_app, <- !app_assoc by done. pose proof (proj1 (in_range_spec _ _ _) H0).
    pose proof (cont_byte_small _ H1). rewrite (bytes_of_bytes [b0; b1]) by (repeat constructor; lia). cbn [app].
    by rewrite compact_high, compact_cont, IH by (done || lia).
  - rewrite quote_body_three by done. destruct (second3_first _ _ H0) as (Hlo & Hhi & Hc).
    destruct (_ && _ && _) eqn:E.
    + assert (∀ c, bytes_of_string ("\u202" +:+ String c (quote_body l)) =
        [92; 117; 50; 48; 50; N_of_ascii c] ++ bytes_of_string (quote_body l)) as Eq by done.
      rewrite Eq, <- !app_assoc. apply andb_true_iff in E as [_ [->%N.eqb_eq| ->%N.eqb_eq]%orb_true_iff];
        cbn [app]; rewrite <- IH; by destruct (bytes_of_string (quote_body l) ++ rest) as [|? [|? ?]].
    + pose proof (cont_byte_small _ H1). pose proof (cont_byte_small _ Hc).
      rewrite bytes_app, <- !app_assoc, (bytes_of_bytes [b0; b1; b2]) by (repeat constructor; lia). cbn [app compact].
      rewrite !(proj2 (N.eqb_neq b0 _)) by lia. cbn [orb]. rewrite E.
      change (b0 :: compact true (b1 :: b2 :: bytes_of_string (quote_body l) ++ rest) =
        b0 :: b1 :: b2 :: bytes_of_string (quote_body l) ++ compact true rest).
      by rewrite !compact_cont, IH by done.
  - rewrite quote_body_four by done. destruct (second4_first _ _ H0) as (Hlo & Hhi & Hc).
    pose proof (cont_byte_small _ H1). pose proof (cont_byte_small _ Hc). pose proof (cont_byte_small _ H2).
    rewrite bytes_app, <- !app_assoc, (bytes_of_bytes [b0; b1; b2; b3]) by (repeat constructor; lia). cbn [app].
    by rewrite compact_high, !compact_cont, IH by (done || lia).
Qed.

(** Text that is copied outside strings. *)
Definition copied (t : list N) : Prop := ∀ rest, compact false (t ++ rest) = t ++ compact false rest.

Lemma copied_app t1 t2 : copied t1 → copied t2 → copied (t1 ++ t2).
Proof. intros H1 H2 rest. by rewrite <- !app_assoc, H1, H2. Qed.

Lemma copied_quote s : utf8_string s → copied (bytes_of_string (quote s)).
Proof.
  intros Hs rest. rewrite quote_bytes. cbn [app compact is_ws N.eqb Pos.eqb orb]. rewrite <- !app_assoc. cbn [app].
  by rewrite compact_body.
Qed.

Lemma copied_digits s : all_digits s = true → copied (bytes_of_string s).
Proof.
  induction s as [|c s IH]; intros Hs; [done|]. cbn [all_digits] in Hs. apply andb_true_iff in Hs as [Hc Hs].
  intros rest. rewrite bytes_cons. cbn [app compact].
  assert (48 <= N_of_ascii c <= 57) as Hd.
  { revert Hc. unfold digit_of. destruct (N.leb_spec 48 (N_of_ascii c)); [|done].
    destruct (N.leb_spec (N_of_ascii c) 57); [|done]. done. }
  unfold is_ws. rewrite !(proj2 (N.eqb_neq _ _)) by lia. cbn [orb]. by rewrite IH.
Qed.

Lemma copied_int z : copied (bytes_of_string (format_int z)).
Proof.
  destruct (Z.le_gt_cases 0 z) as [Hz|Hz].
  - rewrite format_int_nonneg by done. apply copied_digits, format_uint_digits.
  - destruct z as [|p|p]; try lia. rewrite format_int_neg, bytes_cons.
    intros rest. change (N_of_ascii "-") with 45. cbn [app compact is_ws N.eqb Pos.eqb orb]. f_equal.
    apply copied_digits, format_uint_digits.
Qed.

Lemma copied_join {A} (text : A → string) l : Forall (λ x, copied (bytes_of_string (text x))) l →
  copied (bytes_of_string (join "," (map text l))).
Proof.
  induction 1 as [|x l Hx Hl IH]; [done|]. destruct l as [|y l]; [done|].
  change (join "," (map text (x :: y :: l))) with (text x +:+ "," +:+ join "," (map text (y :: l))).
  rewrite !bytes_app. apply copied_app; [done|]. by apply copied_app.
Qed.

Lemma copied_marshal j : plain j → json_ok j → copied (bytes_of_string (marshal j)).
Proof.
  induction j as [|b|z|n|s|l IH|l IH|text] using json_ind'; intros Hp Hok; [done|by destruct b|apply copied_int| |
    by apply copied_quote| | |done].
  - cbn [marshal]. apply copied_digits, format_uint_digits.
  - cbn [marshal]. rewrite !bytes_app. apply copied_app; [done|]. apply copied_app; [|done]. apply copied_join.
    cbn [plain json_ok] in Hp, Hok. clear -IH Hp Hok. induction IH; [constructor|]. destruct Hp, Hok. constructor; auto.
  - cbn [marshal]. rewrite !bytes_app. apply copied_app; [done|]. apply copied_app; [|done].
    assert (map (λ '(k, v), quote k +:+ ":" +:+ marshal v) l = map field_text l) as -> by (apply map_ext; by intros [k v]).
    apply copied_join. cbn [plain json_ok] in Hp, Hok. clear -IH Hp Hok.
    induction IH as [|[k v] l Hv _ IHl]; [constructor|]. destruct Hp, Hok as [[? ?] ?]. constructor; [|auto].
    unfold field_text. cbn [fst snd]. rewrite !bytes_app. apply copied_app; [by apply copied_quote|].
    apply copied_app; [done|by apply Hv].
Qed.

Lemma compact_marshalled p : marshalled p → compact false p = p.
Proof.
  intros (j & Hp & Hj & ->). pose proof (copied_marshal j Hp Hj []) as H. by rewrite !app_nil_r in H.
Qed.

Lemma marshalled_nonempty p : marshalled p → p ≠ [].
Proof. intros (j & _ & Hj & ->). by destruct (marshal_starts j Hj) as (b & t & -> & _). Qed.

Lemma c_raw_enc p : marshalled p → c_enc c_raw p = JRaw (string_of_bytes p).
Proof.
  intros Hp. pose proof (marshalled_nonempty p Hp). cbn [c_raw c_enc]. rewrite compact_marshalled by done. by destruct p.
Qed.

Lemma raw_omit : omit_lawful c_raw.
Proof.
  intros k p [-> |Hp]; [by left|right]. pose proof (c_raw_enc p Hp) as E. pose proof (marshalled_nonempty p Hp) as Hne.
  split; [by destruct p|]. destruct Hp as (j & Hpl & Hj & ->). rewrite string_of_bytes_of in E.
  split; rewrite E.
  - split; [by apply marshal_starts|]. split; [by apply marshal_printable|]. eexists. by apply marshal_reads.
  - done.
Qed.

(** ** Tests *)

Definition tested {T} (c : codec T) : Prop := ∀ t, c_test c t = true → c_ok c t.

Lemma string_tested : tested c_string.
Proof. exact name_utf8. Qed.
Lemma bool_tested : tested c_bool.
Proof. done. Qed.
Lemma int_tested : tested c_int.
Proof. intros z [H1%Z.leb_le H2%Z.leb_le]%andb_true_iff. by split. Qed.
Lemma uint_tested : tested c_uint.
Proof. intros n Hn. by apply N.leb_le. Qed.
Lemma raw_tested : tested c_raw.
Proof. intros [|b p] Hp; [by left|done]. Qed.

Lemma forallb_tested {A} (P : A → Prop) (f : A → bool) l : (∀ x, f x = true → P x) → forallb f l = true → Forall P l.
Proof. intros Hf Hl. apply Forall_forall. intros x Hx. by eapply Hf, forallb_elem. Qed.

Lemma slice_tested {T} (c : codec T) : tested c → tested (c_slice c).
Proof. intros Hc l. by apply forallb_tested. Qed.
Lemma nilable_tested {T} (c : codec T) : tested c → tested (c_nilable c).
Proof. intros Hc [l|] Hl; [|done]. by apply (forallb_tested _ (c_test c)). Qed.
Lemma pointer_tested {T} (c : codec T) : tested c → tested (c_pointer c).
Proof. intros Hc [t|] Ht; [|done]. by apply Hc. Qed.

Lemma struct_tested {A} zero (fs : list (field A)) : Forall (λ f, tested (f_codec f)) fs → tested (c_struct zero fs).
Proof.
  intros Hf a Ha. cbn [c_struct c_ok c_test] in *. rewrite Forall_forall in Hf |- *. intros f Hin. apply Hf; [done|].
  by apply (forallb_elem (λ f, c_test (f_codec f) (f_get f a)) fs).
Qed.

(** ** Whole texts *)

(** [json.Marshal] and [json.Unmarshal] into a zero variable. *)
Definition Marshal {T} (c : codec T) (t : T) : string := marshal (c_enc c t).
Definition Unmarshal {T} (c : codec T) (text : string) : option T :=
  v ← parse_json text; c_dec c v (bytes_of_string text) (c_zero c).

Lemma unmarshal_marshal {T} (c : codec T) t : lawful c → c_ok c t → Unmarshal c (Marshal c t) = Some t.
Proof.
  intros Hl Hok. destruct (Hl t Hok) as [Hj Hr]. unfold Unmarshal, Marshal. by rewrite parse_json_marshal by done.
Qed.

(** ** Marshalled values inside other messages

    A [json.RawMessage] is compacted when it is printed. The text of a value whose
    own raw parts are compact is compact, so a value can be marshalled, wrapped as a
    raw message and marshalled again without a change. *)

(** The raw parts of a value are compact. *)
Fixpoint tidy (j : json) : Prop :=
  match j with
  | JArr l => fold_right (λ v P, tidy v ∧ P) True l
  | JObj l => fold_right (λ '(k, v) P, tidy v ∧ P) True l
  | JRaw text => copied (bytes_of_string text)
  | _ => True
  end.

Lemma tidy_obj l : tidy (JObj l) ↔ Forall (λ kv, tidy kv.2) l.
Proof. cbn [tidy]. induction l as [|[k v] l IH]; [by split|]. cbn [fold_right]. by rewrite Forall_cons, IH. Qed.
Lemma tidy_arr l : tidy (JArr l) ↔ Forall tidy l.
Proof. cbn [tidy]. induction l as [|v l IH]; [by split|]. cbn [fold_right]. by rewrite Forall_cons, IH. Qed.

Lemma copied_tidy j : tidy j → json_ok j → copied (bytes_of_string (marshal j)).
Proof.
  induction j as [|b|z|n|s|l IH|l IH|text] using json_ind'; intros Hp Hok; [done|by destruct b|apply copied_int| |
    by apply copied_quote| | |done].
  - cbn [marshal]. apply copied_digits, format_uint_digits.
  - cbn [marshal]. rewrite !bytes_app. apply copied_app; [done|]. apply copied_app; [|done]. apply copied_join.
    cbn [tidy json_ok] in Hp, Hok. clear -IH Hp Hok. induction IH; [constructor|]. destruct Hp, Hok. constructor; auto.
  - cbn [marshal]. rewrite !bytes_app. apply copied_app; [done|]. apply copied_app; [|done].
    assert (map (λ '(k, v), quote k +:+ ":" +:+ marshal v) l = map field_text l) as -> by (apply map_ext; by intros [k v]).
    apply copied_join. cbn [tidy json_ok] in Hp, Hok. clear -IH Hp Hok.
    induction IH as [|[k v] l Hv _ IHl]; [constructor|]. destruct Hp, Hok as [[? ?] ?]. constructor; [|auto].
    unfold field_text. cbn [fst snd]. rewrite !bytes_app. apply copied_app; [by apply copied_quote|].
    apply copied_app; [done|by apply Hv].
Qed.

Lemma compact_tidy j : tidy j → json_ok j → compact false (bytes_of_string (marshal j)) = bytes_of_string (marshal j).
Proof. intros Hp Hj. pose proof (copied_tidy j Hp Hj []) as H. by rewrite !app_nil_r in H. Qed.

(** The types that are printed tidily. *)

Definition neat {T} (c : codec T) : Prop := ∀ t, c_ok c t → tidy (c_enc c t) ∧ ∀ k kv, kv ∈ c_opt c k t → kv.2 = c_enc c t.

Lemma string_neat : neat c_string.
Proof. intros s _. split; [done|]. intros k kv. simpl. unfold opt_str. case_decide; set_solver. Qed.
Lemma bool_neat : neat c_bool.
Proof. intros b _. split; [done|]. intros k kv. destruct b; set_solver. Qed.
Lemma int_neat : neat c_int.
Proof. intros z _. split; [done|]. intros k kv. simpl. unfold opt_int. destruct (_ =? _)%Z; set_solver. Qed.
Lemma uint_neat : neat c_uint.
Proof. intros n _. split; [done|]. intros k kv. simpl. unfold opt_uint. destruct (_ =? _); set_solver. Qed.

Lemma elements_tidy {T} (c : codec T) l : neat c → Forall (c_ok c) l → Forall tidy (c_enc c <$> l).
Proof. intros Hn Hl. apply Forall_fmap. eapply Forall_impl; [exact Hl|]. intros t Ht. by apply Hn. Qed.

Lemma slice_neat {T} (c : codec T) : neat c → neat (c_slice c).
Proof.
  intros Hn l Hl. pose proof (elements_tidy c l Hn Hl) as Ht. split; [destruct l; [done|by apply tidy_arr]|].
  intros k kv. destruct l; set_solver.
Qed.
Lemma nilable_neat {T} (c : codec T) : neat c → neat (c_nilable c).
Proof.
  intros Hn [l|] Hl; [|split; [done|set_solver]]. split; [apply tidy_arr; by apply elements_tidy|]. intros k kv. destruct l; set_solver.
Qed.
Lemma pointer_neat {T} (c : codec T) : neat c → neat (c_pointer c).
Proof. intros Hn [t|] Ht; [|split; [done|set_solver]]. split; [by apply Hn|]. intros k kv. set_solver. Qed.

Lemma marshalled_copied p : marshalled p → copied p.
Proof. intros (j & Hp & Hj & ->). by apply copied_marshal. Qed.

Lemma raw_neat : neat c_raw.
Proof.
  intros p [-> |Hp]; [split; [done|set_solver]|]. pose proof (c_raw_enc p Hp) as E. pose proof (marshalled_nonempty p Hp) as Hne. split.
  - rewrite E. cbn [tidy]. destruct Hp as (j & Hpl & Hj & ->). rewrite string_of_bytes_of. by apply copied_marshal.
  - intros k kv. cbn [c_raw c_opt c_enc]. destruct p; [done|]. set_solver.
Qed.

Lemma struct_neat {A} zero (fs : list (field A)) : Forall (λ f, neat (f_codec f)) fs → neat (c_struct zero fs).
Proof.
  intros Hf a Ha. cbn [c_struct c_ok c_enc c_opt] in *. split; [|intros k kv ->%list_elem_of_singleton; done].
  apply tidy_obj. apply Forall_forall. intros kv Hkv. apply list_elem_of_join in Hkv as (l & Hin & Hl).
  apply list_elem_of_fmap in Hl as (f & -> & Hfs). rewrite Forall_forall in Hf. rewrite Forall_forall in Ha.
  destruct (Hf f Hfs _ (Ha f Hfs)) as [Ht Ho]. unfold emit in Hin. destruct (f_omit f).
  - by rewrite (Ho _ _ Hin).
  - by apply list_elem_of_singleton in Hin as ->.
Qed.

Lemma marshal_printed {T} (c : codec T) t : lawful c → neat c → c_ok c t →
  c_enc c_raw (bytes_of_string (Marshal c t)) = JRaw (Marshal c t) ∧ json_ok (JRaw (Marshal c t)).
Proof.
  intros Hl Hn Hok. destruct (Hl t Hok) as [Hj _]. destruct (Hn t Hok) as [Ht _]. unfold Marshal. split.
  - cbn [c_raw c_enc]. rewrite (compact_tidy _ Ht Hj), string_of_bytes_of.
    by destruct (marshal_starts _ Hj) as (b & l & -> & _).
  - cbn [json_ok]. split; [by apply marshal_starts|]. split; [by apply marshal_printable|]. eexists. by apply marshal_reads.
Qed.
