(* ===== verification/GoText.v ===== *)
(** * Text in Go

    [fmt.Sscanf], [base64.StdEncoding] and [strings.TrimSpace]. *)
From S2P Require Import Prelude GoStd GoJson JsonRoundtrip.
Local Open Scope N_scope.

(** ** [fmt.Sscanf]

    What the program uses of the scanner: literal text and [%d] into a [uint64].
    Input after the end of the format is ignored. *)

(** [SkipSpace]: a line feed is an error, other white space goes. *)
Definition scan_spaces : list string := filter (λ s, s ≠ nl) spaces_fwd.
Definition skip_space (s : string) : option string :=
  let s' := drop_any scan_spaces (String.length s) s in
  if has_prefix s' nl then None else Some s'.

Fixpoint span_digits (s : string) : string * string :=
  match s with
  | EmptyString => (EmptyString, EmptyString)
  | String c s' =>
      match digit_of c with
      | None => (EmptyString, s)
      | Some _ => let '(d, rest) := span_digits s' in (String c d, rest)
      end
  end.

(** [%d] into a [uint64]. *)
Definition scan_uint (s : string) : option (N * string) :=
  s' ← skip_space s;
  let '(token, rest) := span_digits s' in
  match parse_uint token with
  | (n, NumOk) => Some (n, rest)
  | _ => None
  end.

Lemma drop_any_digit c s n :
  is_Some (digit_of c) → drop_any scan_spaces n (String c s) = String c s.
Proof.
  destruct n as [|n]; [done|]. intros [d Hd]. unfold digit_of in Hd.
  destruct ((48 <=? N_of_ascii c) && (N_of_ascii c <=? 57)) eqn:E; [|done].
  apply andb_true_iff in E as [E1%N.leb_le E2%N.leb_le].
  assert (∀ b l, (b < 48 ∨ 57 < b) → b < 256 → strip_prefix (String (byte_of b) l) (String c s) = None) as Hp.
  { intros b l Hb Hr. simpl. rewrite decide_False; [done|]. intros <-.
    unfold byte_of in *. rewrite N_ascii_embedding in E1, E2 by done. lia. }
  assert (∀ l, Forall (λ e, ∃ b e', e = b :: e' ∧ (b < 48 ∨ 57 < b) ∧ b < 256) l →
    first_some (λ p, strip_prefix p (String c s)) (filter (λ s, s ≠ nl) (string_of_bytes <$> l)) = None) as Hf.
  { induction 1 as [|e l (b & e' & -> & Hb & Hr) _ IH]; [done|]. rewrite fmap_cons, filter_cons.
    case_decide; [|done]. cbn [first_some]. change (string_of_bytes (b :: e')) with
      (String (byte_of b) (string_of_bytes e')). by rewrite Hp. }
  cbn [drop_any]. unfold scan_spaces, spaces_fwd. rewrite Hf; [done|].
  unfold space_encodings. repeat (constructor; [by eexists _, _; split_and!; [done|lia|lia]|]). constructor.
Qed.

Lemma skip_space_digit c s : is_Some (digit_of c) → skip_space (String c s) = Some (String c s).
Proof.
  intros H. unfold skip_space. rewrite drop_any_digit by done.
  destruct (has_prefix (String c s) nl) eqn:E; [|done]. exfalso.
  unfold has_prefix, nl in E. cbn [strip_prefix] in E. destruct H as [d Hd]. destruct (decide (byte_of 10 = c)) as [Ec|]; [|done].
  subst c. by vm_compute in Hd.
Qed.

Lemma span_digits_app s t :
  all_digits s = true → (match t with String c _ => digit_of c = None | _ => True end) →
  span_digits (s +:+ t) = (s, t).
Proof.
  intros Hs Ht. induction s as [|c s IH]; simpl in *.
  - destruct t as [|c t]; [done|]. simpl. by rewrite Ht.
  - destruct (digit_of c); [|done]. by rewrite IH.
Qed.

(** A printed number is read back, up to what follows it. *)
Lemma scan_uint_format n t :
  n <= max_uint64 → (match t with String c _ => digit_of c = None | _ => True end) →
  scan_uint (format_uint n +:+ t) = Some (n, t).
Proof.
  intros Hn Ht. unfold scan_uint. destruct (format_uint_cons n) as (c & s & E & Hc).
  rewrite E at 1. rewrite append_cons, skip_space_digit by done. unfold mbind, option_bind.
  rewrite <- append_cons, <- E, span_digits_app; [|apply format_uint_digits|done].
  by rewrite parse_uint_format.
Qed.

Lemma strip_prefix_app p s : strip_prefix p (p +:+ s) = Some s.
Proof. induction p as [|c p IH]; [done|]. rewrite append_cons. simpl. by rewrite decide_True. Qed.

Lemma append_empty s : (s +:+ "") = s.
Proof. induction s as [|c s IH]; [done|]. by rewrite append_cons, IH. Qed.

(** ** [encoding/base64]: [StdEncoding] *)

Definition b64_char (n : N) : N :=
  if n <? 26 then 65 + n
  else if n <? 52 then 71 + n
  else if n <? 62 then n - 4
  else if n =? 62 then 43
  else 47.

Definition b64_value (b : N) : option N :=
  if Json.in_range 65 90 b then Some (b - 65)
  else if Json.in_range 97 122 b then Some (b - 71)
  else if Json.in_range 48 57 b then Some (b + 4)
  else if b =? 43 then Some 62
  else if b =? 47 then Some 63
  else None.

(** [EncodeToString]: four characters for three bytes, the last group padded. *)
Fixpoint b64_encode (l : list N) : list N :=
  match l with
  | a :: b :: c :: rest =>
      b64_char (a / 4) :: b64_char (a mod 4 * 16 + b / 16) :: b64_char (b mod 16 * 4 + c / 64) ::
      b64_char (c mod 64) :: b64_encode rest
  | [a; b] => [b64_char (a / 4); b64_char (a mod 4 * 16 + b / 16); b64_char (b mod 16 * 4); 61]
  | [a] => [b64_char (a / 4); b64_char (a mod 4 * 16); 61; 61]
  | [] => []
  end.

Fixpoint b64_quads (l : list N) : option (list N) :=
  match l with
  | [] => Some []
  | a :: b :: c :: d :: rest =>
      x ← b64_value a;
      y ← b64_value b;
      let one := x * 4 + y / 16 in
      if (c =? 61) && (d =? 61) && (length rest =? 0)%nat then Some [one]
      else
      z ← b64_value c;
      let two := y mod 16 * 16 + z / 4 in
      if (d =? 61) && (length rest =? 0)%nat then Some [one; two]
      else
      w ← b64_value d;
      out ← b64_quads rest;
      Some (one :: two :: z mod 4 * 64 + w :: out)
  | _ => None
  end.

(** [DecodeString] skips line breaks. *)
Definition b64_decode (l : list N) : option (list N) :=
  b64_quads (filter (λ b, b ≠ 10 ∧ b ≠ 13) l).

(** *** Round trip *)

Lemma below_64 (P : N → Prop) : (∀ n : nat, (n < 64)%nat → P (N.of_nat n)) → ∀ b, b < 64 → P b.
Proof. intros H b Hb. rewrite <- (N2Nat.id b). apply H. lia. Qed.

Lemma b64_value_char n : n < 64 → b64_value (b64_char n) = Some n ∧ 43 <= b64_char n <= 122 ∧ b64_char n ≠ 61.
Proof.
  revert n. refine (below_64 (λ n, _) _). intros n Hn.
  do 64 (destruct n as [|n]; [by vm_compute|]). exfalso. lia.
Qed.

Lemma list_ind3 {A} (P : list A → Prop) :
  P [] → (∀ a, P [a]) → (∀ a b, P [a; b]) → (∀ a b c l, P l → P (a :: b :: c :: l)) → ∀ l, P l.
Proof.
  intros H0 H1 H2 H3. fix IH 1. intros [|a [|b [|c l]]]; [exact H0|apply H1|apply H2|]. apply H3, IH.
Qed.

Lemma div_bound a n k : a < n * k → a / n < k.
Proof. intros H. destruct (N.eq_dec n 0) as [->|Hn]; [lia|]. apply N.Div0.div_lt_upper_bound. lia. Qed.

Lemma mod_bound a n : n ≠ 0 → a mod n < n.
Proof. apply N.mod_lt. Qed.
#[local] Hint Resolve div_bound mod_bound : core.

Lemma b64_no_breaks l : Forall (λ b, b < 256) l → Forall (λ b, 43 <= b <= 122) (b64_encode l).
Proof.
  assert (∀ n, n < 64 → 43 <= b64_char n <= 122) as Hc by (intros n Hn; apply b64_value_char, Hn).
  induction l as [|a|a b|a b c l IH] using list_ind3; intros Hl; [constructor|..];
    repeat match goal with H : Forall _ (_ :: _) |- _ => apply Forall_cons in H as [? ?] end;
    pose proof (mod_bound a 4 ltac:(done)); pose proof (div_bound a 4 64 ltac:(lia));
    try (pose proof (div_bound b 16 16 ltac:(lia)); pose proof (mod_bound b 16 ltac:(done)));
    try (pose proof (div_bound c 64 4 ltac:(lia)); pose proof (mod_bound c 64 ltac:(done)));
    cbn [b64_encode]; repeat (apply Forall_cons; split; [first [apply Hc; lia|lia]|]); [constructor|constructor|by apply IH].
Qed.

Lemma join_div q n r : r < n → (q * n + r) / n = q.
Proof. intros Hr. rewrite N.add_comm, N.div_add by lia. by rewrite N.div_small. Qed.
Lemma join_mod q n r : r < n → (q * n + r) mod n = r.
Proof. intros Hr. rewrite N.add_comm, N.Div0.mod_add. by apply N.mod_small. Qed.
Lemma split_div a n : n ≠ 0 → a / n * n + a mod n = a.
Proof. intros Hn. pose proof (N.div_mod a n Hn). lia. Qed.

(** A group of four characters. *)
Lemma b64_group x y c d rest : x < 64 → y < 64 →
  b64_quads (b64_char x :: b64_char y :: c :: d :: rest) =
  let one := x * 4 + y / 16 in
  if (c =? 61) && (d =? 61) && (length rest =? 0)%nat then Some [one]
  else
  z ← b64_value c;
  let two := y mod 16 * 16 + z / 4 in
  if (d =? 61) && (length rest =? 0)%nat then Some [one; two]
  else w ← b64_value d; out ← b64_quads rest; Some (one :: two :: z mod 4 * 64 + w :: out).
Proof.
  intros Hx Hy. cbn [b64_quads]. destruct (b64_value_char x Hx) as [-> _], (b64_value_char y Hy) as [-> _]. done.
Qed.

Lemma b64_quads_encode l : Forall (λ b, b < 256) l → b64_quads (b64_encode l) = Some l.
Proof.
  induction l as [|a|a b|a b c l IH] using list_ind3; intros Hl; [done|..];
    repeat match goal with H : Forall _ (_ :: _) |- _ => apply Forall_cons in H as [? ?] end;
    pose proof (mod_bound a 4 ltac:(done)); pose proof (div_bound a 4 64 ltac:(lia)); cbn [b64_encode].
  - rewrite b64_group by lia. cbn -[N.div N.mul N.modulo]. rewrite N.div_mul by done.
    by rewrite split_div.
  - pose proof (div_bound b 16 16 ltac:(lia)). pose proof (mod_bound b 16 ltac:(done)). rewrite b64_group by lia.
    destruct (b64_value_char (b mod 16 * 4) ltac:(lia)) as (-> & _ & Hne). cbv zeta.
    rewrite (proj2 (N.eqb_neq _ _) Hne). cbn [andb N.eqb Pos.eqb length Nat.eqb mbind option_bind].
    by rewrite join_div, join_mod, N.div_mul, !split_div by (done || lia).
  - pose proof (div_bound b 16 16 ltac:(lia)). pose proof (mod_bound b 16 ltac:(done)).
    pose proof (div_bound c 64 4 ltac:(lia)). pose proof (mod_bound c 64 ltac:(done)). rewrite b64_group by lia.
    destruct (b64_value_char (b mod 16 * 4 + c / 64) ltac:(lia)) as (-> & _ & Hne).
    destruct (b64_value_char (c mod 64) ltac:(lia)) as (-> & _ & Hne'). cbv zeta.
    rewrite (proj2 (N.eqb_neq _ _) Hne), (proj2 (N.eqb_neq _ _) Hne'). cbn [andb mbind option_bind].
    rewrite IH by done. cbn [mbind option_bind]. by rewrite !join_div, !join_mod, !split_div by (done || lia).
Qed.

Lemma b64_decode_encode l : Forall (λ b, b < 256) l → b64_decode (b64_encode l) = Some l.
Proof.
  intros Hl. unfold b64_decode. pose proof (b64_no_breaks l Hl) as Hb.
  assert (filter (λ b, b ≠ 10 ∧ b ≠ 13) (b64_encode l) = b64_encode l) as ->; [|by apply b64_quads_encode].
  induction Hb as [|b t Hb _ IH]; [done|]. rewrite filter_cons, decide_True, IH by lia. done.
Qed.

(** ** [strings.TrimSpace] on text without white space *)

(** An ASCII character that is printed. *)
Definition solid (c : ascii) : bool := (32 <? N_of_ascii c) && (N_of_ascii c <? 128).
Fixpoint all_solid (s : string) : bool :=
  match s with EmptyString => true | String c s' => solid c && all_solid s' end.

Lemma solid_stays c s : solid c = true →
  first_some (λ p, strip_prefix p (String c s)) spaces_fwd = None ∧
  first_some (λ p, strip_prefix p (String c s)) spaces_bwd = None.
Proof. destruct c as [[] [] [] [] [] [] [] []]; intros H; first [discriminate H|by split]. Qed.

Lemma drop_fwd_solid c s n : solid c = true → drop_any spaces_fwd n (String c s) = String c s.
Proof. intros Hc. destruct n; [done|]. cbn [drop_any]. by rewrite (proj1 (solid_stays c s Hc)). Qed.
Lemma drop_bwd_solid c s n : solid c = true → drop_any spaces_bwd n (String c s) = String c s.
Proof. intros Hc. destruct n; [done|]. cbn [drop_any]. by rewrite (proj2 (solid_stays c s Hc)). Qed.

Lemma str_app_assoc s t u : (s +:+ t) +:+ u = s +:+ (t +:+ u).
Proof. induction s as [|a s IH]; [done|]. exact (f_equal (String a) IH). Qed.

Lemma str_app_nil s : s +:+ "" = s.
Proof. induction s as [|a s IH]; [done|]. exact (f_equal (String a) IH). Qed.

Lemma str_rev_app_rev s : ∀ acc, str_rev_app s acc = str_rev s +:+ acc.
Proof.
  unfold str_rev. induction s as [|a s IH]; intros acc; [done|]. cbn [str_rev_app].
  rewrite (IH (String a acc)), (IH (String a "")). by rewrite str_app_assoc.
Qed.
Lemma str_rev_cons a s : str_rev (String a s) = str_rev s +:+ String a "".
Proof. exact (str_rev_app_rev s (String a "")). Qed.
Lemma str_rev_snoc' s a : str_rev (s +:+ String a "") = String a (str_rev s).
Proof.
  induction s as [|b s IH]; [done|]. rewrite str_rev_cons. change (String b s +:+ ?t) with (String b (s +:+ t)).
  rewrite str_rev_cons, IH. done.
Qed.
Lemma str_rev_rev s : str_rev (str_rev s) = s.
Proof. induction s as [|a s IH]; [done|]. by rewrite str_rev_cons, str_rev_snoc', IH. Qed.

Lemma all_solid_app s t : all_solid (s +:+ t) = all_solid s && all_solid t.
Proof. induction s as [|a s IH]; [done|]. change (String a s +:+ t) with (String a (s +:+ t)). cbn [all_solid]. by rewrite IH, andb_assoc. Qed.
Lemma all_solid_rev s : all_solid (str_rev s) = all_solid s.
Proof.
  induction s as [|a s IH]; [done|]. rewrite str_rev_cons, all_solid_app, IH. cbn [all_solid]. rewrite andb_true_r.
  apply andb_comm.
Qed.

Lemma drop_fwd_all s n : all_solid s = true → drop_any spaces_fwd n s = s.
Proof. destruct s as [|c s]; [by destruct n|]. intros [Hc _]%andb_true_iff. by apply drop_fwd_solid. Qed.
Lemma drop_bwd_all s n : all_solid s = true → drop_any spaces_bwd n s = s.
Proof. destruct s as [|c s]; [by destruct n|]. intros [Hc _]%andb_true_iff. by apply drop_bwd_solid. Qed.

Lemma trim_solid s : all_solid s = true → trim_space s = s.
Proof.
  intros Hs. unfold trim_space. rewrite drop_fwd_all by done. rewrite drop_bwd_all by by rewrite all_solid_rev.
  apply str_rev_rev.
Qed.

(** Text that starts with such a character is not blank. *)
Lemma strip_prefix_split p : ∀ s r, strip_prefix p s = Some r → s = p +:+ r.
Proof.
  induction p as [|a p IH]; intros s r H; [by injection H as ->|]. destruct s as [|b s]; [done|]. cbn [strip_prefix] in H.
  case_decide; [|done]. subst. rewrite (IH _ _ H) at 1. done.
Qed.

Lemma first_some_in {A B} (f : A → option B) l y : first_some f l = Some y → ∃ x, x ∈ l ∧ f x = Some y.
Proof.
  induction l as [|x l IH]; [done|]. cbn [first_some]. destruct (f x) eqn:E.
  - intros [= <-]. exists x. by split; [left|].
  - intros (z & Hz & ?)%IH. exists z. by split; [right|].
Qed.

Lemma snoc_split p : ∀ r s c, p +:+ r = s +:+ String c "" → r = "" ∨ ∃ s', r = s' +:+ String c "".
Proof.
  induction p as [|a p IH]; intros r s c E; [right; by exists s|]. destruct s as [|b s].
  - cbn in E. injection E as -> E. destruct p, r; try done. by left.
  - cbn in E. injection E as -> E. by eapply IH.
Qed.

Fixpoint last_solid (s : string) : bool :=
  match s with EmptyString => false | String c EmptyString => solid c | String _ s' => last_solid s' end.
Lemma last_solid_snoc s c : last_solid (s +:+ String c "") = solid c.
Proof. induction s as [|a s IH]; [done|]. change (String a s +:+ ?t) with (String a (s +:+ t)). cbn [last_solid]. by destruct (s +:+ String c "") eqn:E; [by destruct s|]. Qed.

Lemma drop_bwd_snoc c n : solid c = true → ∀ s, ∃ s', drop_any spaces_bwd n (s +:+ String c "") = s' +:+ String c "".
Proof.
  intros Hc. induction n as [|n IH]; intros s; [by exists s|]. cbn [drop_any].
  destruct (first_some _ spaces_bwd) as [r|] eqn:E; [|by exists s].
  apply first_some_in in E as (p & Hp & E%strip_prefix_split).
  destruct (snoc_split p r s c (eq_sym E)) as [-> |[s' ->]]; [|apply IH]. exfalso.
  assert (s +:+ String c "" = p) as E' by by rewrite E, str_app_nil.
  assert (last_solid p = true) as Hl by by rewrite <- E', last_solid_snoc. clear -Hp Hl.
  assert (Forall (λ p, last_solid p = false) spaces_bwd) as Hall by (repeat constructor).
  rewrite Forall_forall in Hall. rewrite (Hall p Hp) in Hl. done.
Qed.

Lemma solid_not_blank c s : solid c = true → blank (String c s) = false.
Proof.
  intros Hc. unfold blank, trim_space. rewrite drop_fwd_solid by done. rewrite str_rev_cons.
  destruct (drop_bwd_snoc c (String.length (String c s)) Hc (str_rev s)) as [s' ->]. rewrite str_rev_snoc'.
  by apply bool_decide_eq_false_2.
Qed.
