(* ===== verification/WorkerPool.v ===== *)
(** * The worker pool of the parallel executors

    [AriaExecutor.executeEpoch] and [GroundhogExecutor.executeAttempts] run the
    same pool: a sender offers the positions of a slice on an unbuffered channel,
    workers take a position, look at the context, run the job and store its result
    in the slot of that position; the sender closes the channel when it has offered
    every position or has seen the context end, and waits for the workers. A job
    reads only data nobody writes while the pool runs.

    [pool_step] lets a [pool_choice] decide who moves; [None] is a move that is not
    possible. An execution is a list of choices. *)
From S2P Require Import Prelude.

(** [Received]: the worker has a position and has not looked at the context yet. *)
Inductive worker := Idle | Received (position : nat) | Working (position : nat).

Record pool (A : Type) := MkPool {
  pl_next : nat;
  pl_workers : list worker;
  pl_slots : list (option A);
  pl_cancelled : bool;
  pl_stopped : bool;
}.
Arguments MkPool {A}.
Arguments pl_next {A}.
Arguments pl_workers {A}.
Arguments pl_slots {A}.
Arguments pl_cancelled {A}.
Arguments pl_stopped {A}.

Inductive pool_choice :=
  | PlSend (w : nat)      (* [jobs <- position] meets the idle worker [w] *)
  | PlCheck (w : nat)     (* [if ctx.Err() != nil { continue }] *)
  | PlFinish (w : nat)    (* the result goes to its slot *)
  | PlStop                (* the sender's [select] takes [<-ctx.Done()] *)
  | PlCancel.             (* the caller's context ends *)

Definition new_pool {A} (size workerCount : nat) (cancelled : bool) : pool A :=
  MkPool 0 (replicate workerCount Idle) (replicate size None) cancelled false.

Definition pool_step {A} (job : nat → A) (c : pool_choice) (p : pool A) : option (pool A) :=
  let 'MkPool next ws slots cancelled stopped := p in
  match c with
  | PlSend w =>
      if negb stopped && (next <? length slots)%nat then
        match ws !! w with
        | Some Idle => Some (MkPool (S next) (<[w := Received next]> ws) slots cancelled stopped)
        | _ => None
        end
      else None
  | PlCheck w =>
      match ws !! w with
      | Some (Received i) =>
          Some (MkPool next (<[w := if cancelled : bool then Idle else Working i]> ws) slots cancelled stopped)
      | _ => None
      end
  | PlFinish w =>
      match ws !! w with
      | Some (Working i) =>
          Some (MkPool next (<[w := Idle]> ws) (<[i := Some (job i)]> slots) cancelled stopped)
      | _ => None
      end
  | PlStop =>
      if cancelled && negb stopped && (next <? length slots)%nat
      then Some (MkPool next ws slots cancelled true) else None
  | PlCancel => Some (MkPool next ws slots true stopped)
  end.

Fixpoint pool_run {A} (job : nat → A) (cs : list pool_choice) (p : pool A) : option (pool A) :=
  match cs with
  | [] => Some p
  | c :: cs => p' ← pool_step job c p; pool_run job cs p'
  end.

Definition is_idle (w : worker) : bool := match w with Idle => true | _ => false end.

(** [close(jobs); wg.Wait()] returns. *)
Definition pool_finished {A} (p : pool A) : bool :=
  (pl_stopped p || (length (pl_slots p) <=? pl_next p)%nat) && forallb is_idle (pl_workers p).

(** What the function that runs the pool returns then: the context, and the
    results unless the context has ended; [None] while it is still running. *)
Definition pool_outcome {A} (p : pool A) : option (bool * option (list (option A))) :=
  if pool_finished p
  then Some (pl_cancelled p, if pl_stopped p || pl_cancelled p then None else Some (pl_slots p))
  else None.

(** The whole call: the context it leaves, and the results unless the context has
    ended; [None] when the schedule stops before the call returns. *)
Definition run_pool {A} (job : nat → A) (size workerCount : nat) (cs : list pool_choice)
    (cancelled : bool) : option (bool * option (list A)) :=
  match pool_run job cs (new_pool size workerCount cancelled) with
  | None => None
  | Some p =>
      match pool_outcome p with
      | None => None
      | Some (cancelled, slots) => Some (cancelled, omap (M := list) id <$> slots)
      end
  end.

(** ** The slots *)

Section pool.
Context {A : Type} (job : nat → A).

Definition holds (w : worker) (i : nat) : Prop := w = Received i ∨ w = Working i.

(** A slot is empty or has the result of its position; a position that was offered
    has its result or is on its way, unless the context has ended. *)
Record pool_ok (size : nat) (p : pool A) : Prop := {
  po_size : length (pl_slots p) = size;
  po_next : (pl_next p <= size)%nat;
  po_slot i : (i < size)%nat → pl_slots p !! i = Some None ∨ pl_slots p !! i = Some (Some (job i));
  po_held w i : w ∈ pl_workers p → holds w i → (i < pl_next p)%nat;
  po_offered i : (i < pl_next p)%nat → pl_cancelled p = false →
    pl_slots p !! i = Some (Some (job i)) ∨ ∃ w, w ∈ pl_workers p ∧ holds w i;
  po_stopped : pl_stopped p = true → pl_cancelled p = true;
}.

Lemma new_pool_ok size workers cancelled : pool_ok size (new_pool size workers cancelled).
Proof.
  split; simpl; try lia; try done.
  - apply length_replicate.
  - intros i Hi. left. by apply lookup_replicate_2.
  - intros w i [-> _]%elem_of_replicate [|]; discriminate.
Qed.

(** A worker that changes keeps the others. *)
Lemma other_holder (ws : list worker) w x y i :
  ws !! w = Some x → ¬ holds x i → (∃ v, v ∈ ws ∧ holds v i) → ∃ v, v ∈ <[w := y]> ws ∧ holds v i.
Proof.
  intros Hw Hx (v & [k Hk]%list_elem_of_lookup_1 & Hv). exists v. split; [|done].
  apply list_elem_of_lookup_2 with k. rewrite list_lookup_insert_ne; [done|].
  intros ->. congruence.
Qed.

Lemma elem_insert (ws : list worker) w x y : x ∈ <[w := y]> ws → x = y ∨ x ∈ ws.
Proof.
  intros [k Hk]%list_elem_of_lookup_1. rewrite list_lookup_insert_Some in Hk.
  destruct Hk as [(_ & -> & _)|[_ Hk]]; [by left|right]. by eapply list_elem_of_lookup_2.
Qed.

Lemma inserted (ws : list worker) w x y : ws !! w = Some x → y ∈ <[w := y]> ws.
Proof.
  intros H. apply list_elem_of_lookup_2 with w. apply list_lookup_insert_eq.
  by apply lookup_lt_Some in H.
Qed.

Lemma pool_step_ok size c p p' : pool_ok size p → pool_step job c p = Some p' → pool_ok size p'.
Proof.
  destruct p as [next ws slots cancelled stopped]. intros [Hz Hn Hs Hh Ho Hst] E. simpl in *.
  destruct c as [w|w|w| |].
  - destruct (negb stopped && _) eqn:Hb; [|done].
    destruct (ws !! w) as [[]|] eqn:Ew; simplify_eq. apply andb_true_iff in Hb as [_ Hlt].
    apply Nat.ltb_lt in Hlt. split; simpl; auto.
    + intros v i [->|Hv]%elem_insert Hi; [|specialize (Hh _ _ Hv Hi); lia].
      destruct Hi; simplify_eq; lia.
    + intros i Hi Hc. destruct (decide (i = next)) as [->|Hne].
      * right. exists (Received next). split; [by eapply inserted|by left].
      * destruct (Ho i) as [?|H]; [lia|done|by left|right].
        eapply other_holder; [done| |done]. by intros [|].
  - destruct (ws !! w) as [[|j|]|] eqn:Ew; simplify_eq.
    assert (j < next)%nat as Hj by (apply (Hh (Received j) j); [by eapply list_elem_of_lookup_2|by left]).
    split; simpl; auto.
    + intros v i [->|Hv]%elem_insert Hi; [|by eapply Hh].
      destruct cancelled, Hi; simplify_eq; done.
    + intros i Hi ->. destruct (Ho i) as [?|H]; [done..|by left|right].
      destruct (decide (i = j)) as [->|Hne].
      * exists (Working j). split; [by eapply inserted|by right].
      * eapply other_holder; [done| |done]. intros [|]; congruence.
  - destruct (ws !! w) as [[| |j]|] eqn:Ew; simplify_eq.
    assert (j < next)%nat as Hj by (apply (Hh (Working j) j); [by eapply list_elem_of_lookup_2|by right]).
    split; simpl; auto.
    + by rewrite length_insert.
    + intros i Hi. destruct (decide (j = i)) as [->|Hne].
      * right. apply list_lookup_insert_eq. lia.
      * rewrite list_lookup_insert_ne by done. by apply Hs.
    + intros v i [->|Hv]%elem_insert Hi; [by destruct Hi|by eapply Hh].
    + intros i Hi Hc. destruct (decide (j = i)) as [->|Hne].
      * left. apply list_lookup_insert_eq. lia.
      * rewrite list_lookup_insert_ne by done. destruct (Ho i) as [?|H]; [done..|by left|right].
        eapply other_holder; [done| |done]. intros [|]; congruence.
  - destruct (cancelled && _ && _) eqn:Hb; simplify_eq.
    apply andb_true_iff in Hb as [[-> _]%andb_true_iff _]. split; simpl; auto.
  - simplify_eq. by split; simpl; auto.
Qed.

Lemma pool_run_ok size cs : ∀ p p', pool_ok size p → pool_run job cs p = Some p' → pool_ok size p'.
Proof.
  induction cs as [|c cs IH]; intros p p' Hp E; simplify_option_eq; [done|].
  eapply IH; [|done]. by eapply pool_step_ok.
Qed.

(** Whoever worked on what: when the pool has run to its end under a live context,
    the results are those of running the jobs one after the other. *)
Lemma pool_schedule_independent size workers cancelled cs p cancelled' slots :
  pool_run job cs (new_pool size workers cancelled) = Some p →
  pool_outcome p = Some (cancelled', Some slots) →
  cancelled' = false ∧ slots = (λ i, Some (job i)) <$> seq 0 size.
Proof.
  intros E O. pose proof (pool_run_ok size _ _ _ (new_pool_ok size workers cancelled) E) as [Hz Hn Hs Hh Ho _].
  unfold pool_outcome in O. destruct (pool_finished p) eqn:F; [|done].
  apply andb_true_iff in F as [F Hi]. destruct (pl_stopped p); [simplify_eq|]. simpl in F, O.
  destruct (pl_cancelled p); simplify_eq. split; [done|]. apply Nat.leb_le in F.
  apply list_eq. intros i. rewrite list_lookup_fmap.
  destruct (decide (i < length (pl_slots p))%nat) as [Hl|Hl].
  - rewrite lookup_seq_lt by done. simpl. destruct (Ho i) as [H|(w & Hw & H)]; [lia|done|done|].
    pose proof (forallb_elem _ _ _ Hi Hw) as Hx. destruct H as [->| ->]; discriminate.
  - rewrite lookup_seq_ge by lia. apply lookup_ge_None_2. lia.
Qed.

Lemma run_pool_results size workers cs cancelled cancelled' results :
  run_pool job size workers cs cancelled = Some (cancelled', Some results) →
  cancelled' = false ∧ results = job <$> seq 0 size.
Proof.
  unfold run_pool. destruct (pool_run _ _ _) as [p|] eqn:E; [|done].
  destruct (pool_outcome p) as [[c slots]|] eqn:O; [|done]. intros Hr.
  destruct slots as [slots|]; simplify_eq/=.
  destruct (pool_schedule_independent _ _ _ _ _ _ _ E O) as [-> ->]. split; [done|].
  generalize (seq 0 size) as l. induction l as [|i l IH]; [done|]. rewrite !fmap_cons. simpl. by f_equal.
Qed.

(** ** The pool ends *)

Definition worker_weight (w : worker) : nat :=
  match w with Idle => 0 | Received _ => 2 | Working _ => 1 end.

Definition pool_work (p : pool A) : nat :=
  3 * (length (pl_slots p) - pl_next p) + sum_list_with worker_weight (pl_workers p) +
  (if pl_stopped p then 0 else 1).

Lemma weight_insert ws : ∀ w x y, ws !! w = Some x →
  (sum_list_with worker_weight (<[w := y]> ws) + worker_weight x =
   sum_list_with worker_weight ws + worker_weight y)%nat.
Proof.
  induction ws as [|v ws IH]; intros [|w] x y H; simplify_eq/=; [lia|].
  specialize (IH _ _ y H). lia.
Qed.

(** Every move but the end of the context takes work away, and there is a move
    while the pool is running. *)
Lemma pool_step_work c p p' :
  c ≠ PlCancel → pool_step job c p = Some p' → (pool_work p' < pool_work p)%nat.
Proof.
  destruct p as [next ws slots cancelled stopped]. intros Hc E. unfold pool_work. simpl in *.
  destruct c as [w|w|w| |]; [| | | |done].
  - destruct (negb stopped && _) eqn:Hb; [|done].
    destruct (ws !! w) as [[]|] eqn:Ew; simplify_eq. simpl.
    apply andb_true_iff in Hb as [_ Hlt%Nat.ltb_lt].
    pose proof (weight_insert _ _ _ (Received next) Ew). simpl in *. lia.
  - destruct (ws !! w) as [[|j|]|] eqn:Ew; simplify_eq. simpl.
    pose proof (weight_insert _ _ _ (if cancelled then Idle else Working j) Ew).
    destruct cancelled; simpl in *; lia.
  - destruct (ws !! w) as [[| |j]|] eqn:Ew; simplify_eq. simpl. rewrite length_insert.
    pose proof (weight_insert _ _ _ Idle Ew). simpl in *. lia.
  - destruct (cancelled && _ && _) eqn:Hb; simplify_eq.
    apply andb_true_iff in Hb as [[_ Hs%negb_true_iff]%andb_true_iff _]. subst. simpl. lia.
Qed.

Lemma pool_no_deadlock p :
  pl_workers p ≠ [] → pool_finished p = false →
  ∃ c, c ≠ PlCancel ∧ is_Some (pool_step job c p).
Proof.
  destruct p as [next ws slots cancelled stopped]. unfold pool_finished. simpl. intros Hw F.
  destruct (forallb is_idle ws) eqn:Hi.
  - rewrite andb_true_r in F. apply orb_false_iff in F as [-> F%Nat.leb_gt].
    destruct ws as [|x ws]; [done|]. simpl in Hi. destruct x; [|discriminate..].
    exists (PlSend 0). split; [done|]. simpl. rewrite (proj2 (Nat.ltb_lt _ _) F). by eexists.
  - clear F. assert (∃ w x, ws !! w = Some x ∧ is_idle x = false) as (w & x & Hx & Hb).
    { clear -Hi. induction ws as [|x ws IH]; [done|]. simpl in Hi. destruct (is_idle x) eqn:E.
      - destruct IH as (w & y & ? & ?); [done|]. by exists (S w), y.
      - by exists 0%nat, x. }
    destruct x as [|i|i]; [done|exists (PlCheck w)|exists (PlFinish w)]; (split; [done|]); simpl;
      rewrite Hx; by eexists.
Qed.

Lemma pool_workers_length c p p' :
  pool_step job c p = Some p' → length (pl_workers p') = length (pl_workers p).
Proof.
  destruct p as [next ws slots cancelled stopped]. intros E. simpl in *.
  destruct c as [w|w|w| |]; repeat case_match; simplify_eq/=; by rewrite ?length_insert.
Qed.

Lemma pool_cancelled_kept c p p' :
  c ≠ PlCancel → pool_step job c p = Some p' → pl_cancelled p' = pl_cancelled p.
Proof.
  destruct p as [next ws slots cancelled stopped]. intros Hc E. simpl in *.
  destruct c as [w|w|w| |]; repeat case_match; by simplify_eq/=.
Qed.

(** From every state some moves, at most [pool_work p] of them, end the pool. *)
Lemma pool_drains p :
  pl_workers p ≠ [] → ∃ cs p', pool_run job cs p = Some p' ∧ pool_finished p' = true ∧
    (length cs <= pool_work p)%nat ∧ Forall (.≠ PlCancel) cs ∧ pl_cancelled p' = pl_cancelled p.
Proof.
  remember (pool_work p) as n eqn:Hn. revert p Hn.
  induction (lt_wf n) as [n _ IH]. intros p -> Hw.
  destruct (pool_finished p) eqn:F; [exists [], p; simpl; split_and!; auto using Forall_nil; lia|].
  destruct (pool_no_deadlock p Hw F) as (c & Hc & p1 & E1).
  pose proof (pool_step_work _ _ _ Hc E1) as Hlt.
  destruct (IH _ Hlt p1 eq_refl) as (cs & p' & Er & Ef & Hl & Hq & Ec).
  { intros E. apply Hw, nil_length_inv. by rewrite <- (pool_workers_length _ _ _ E1), E. }
  exists (c :: cs), p'. simpl. rewrite E1. split_and!; [done|done|lia|by constructor|].
  by rewrite Ec, (pool_cancelled_kept _ _ _ Hc E1).
Qed.

(** No run is longer: between two cancellations at most [pool_work p] moves. *)
Lemma pool_run_bounded cs : ∀ p p',
  pool_run job cs p = Some p' → Forall (.≠ PlCancel) cs →
  (length cs + pool_work p' <= pool_work p)%nat.
Proof.
  induction cs as [|c cs IH]; intros p p' E F; simplify_eq/=; [lia|].
  apply bind_Some in E as (q & Eq & E). apply Forall_cons in F as [Hc F].
  specialize (IH _ _ E F). pose proof (pool_step_work _ _ _ Hc Eq). lia.
Qed.

Lemma run_pool_cancelled size workers cs cancelled cancelled' :
  run_pool job size workers cs cancelled = Some (cancelled', None) → cancelled' = true.
Proof.
  unfold run_pool. destruct (pool_run _ _ _) as [p|] eqn:E; [|done].
  pose proof (pool_run_ok size _ _ _ (new_pool_ok size workers cancelled) E) as Hok.
  unfold pool_outcome. destruct (pool_finished p); [|done]. intros Hr.
  destruct (pl_stopped p) eqn:Es; simplify_eq/=.
  - by rewrite (po_stopped _ _ Hok).
  - by destruct (pl_cancelled p).
Qed.

(** With a worker and a live context some schedule of at most [3 * size + 1] moves
    returns all results. *)
Lemma run_pool_completes size workers :
  workers ≠ O → ∃ cs, (length cs <= 3 * size + 1)%nat ∧ Forall (.≠ PlCancel) cs ∧
    run_pool job size workers cs false = Some (false, Some (job <$> seq 0 size)).
Proof.
  intros Hw. destruct (pool_drains (new_pool size workers false)) as (cs & p & E & F & Hl & Hq & Ec).
  { simpl. by destruct workers. }
  assert (pool_work (new_pool (A := A) size workers false) = 3 * size + 1)%nat as Hwk.
  { unfold pool_work. simpl. rewrite length_replicate.
    assert (sum_list_with worker_weight (replicate workers Idle) = 0)%nat as ->; [|lia].
    clear. by induction workers. }
  exists cs. split; [lia|]. split; [done|]. simpl in Ec.
  pose proof (po_stopped _ _ (pool_run_ok size _ _ _ (new_pool_ok size workers false) E)) as Hs.
  assert (pl_stopped p = false) as Es by (destruct (pl_stopped p); [rewrite Hs in Ec by done; done|done]).
  assert (pool_outcome p = Some (false, Some (pl_slots p))) as O
    by (unfold pool_outcome; by rewrite F, Es, Ec).
  assert (run_pool job size workers cs false = Some (false, Some (omap (M := list) id (pl_slots p)))) as R
    by (unfold run_pool; by rewrite E, O).
  rewrite R. by destruct (run_pool_results _ _ _ _ _ _ R) as [_ ->].
Qed.

(** While nobody cancels, the context stays alive and the call returns results. *)
Lemma pool_run_quiet cs : ∀ p p', Forall (.≠ PlCancel) cs → pool_run job cs p = Some p' →
  pl_cancelled p' = pl_cancelled p.
Proof.
  induction cs as [|c cs IH]; intros p p' F E; simplify_eq/=; [done|].
  apply bind_Some in E as (q & Eq & E). apply Forall_cons in F as [Hc F].
  by rewrite (IH _ _ F E), (pool_cancelled_kept _ _ _ Hc Eq).
Qed.

Lemma run_pool_quiet size workers cs cancelled' r :
  Forall (.≠ PlCancel) cs → run_pool job size workers cs false = Some (cancelled', r) →
  cancelled' = false ∧ r ≠ None.
Proof.
  intros F E. assert (cancelled' = false) as ->.
  { unfold run_pool in E. destruct (pool_run _ _ _) as [p|] eqn:Er; [|done].
    apply pool_run_quiet in Er; [|done]. unfold pool_outcome in E.
    destruct (pool_finished p); [|done]. simpl in *. congruence. }
  split; [done|]. intros ->. by apply run_pool_cancelled in E.
Qed.
End pool.

(** A schedule with one worker that takes every job. *)
Definition one_worker (jobs : nat) : list pool_choice :=
  mjoin ((λ _, [PlSend 0; PlCheck 0; PlFinish 0]) <$> seq 0 jobs).
