(* ===== verification/Tx.v ===== *)
(** * Signed transactions ([executor/realism/tx])

    The transaction record, its canonical bytes and identifier, the basic and
    the routing validation every mempool runs, and the workload identity. *)
From S2P Require Import Prelude GoStd.
Import Json.
Local Open Scope N_scope.

(** [type AccessMode string] and its constants. *)
Abbreviation AccessMode := string (only parsing).
Definition AccessRead : AccessMode := "read".
Definition AccessWrite : AccessMode := "write".
Definition AccessReadWrite : AccessMode := "read_write".
Definition AccessCommutativeDelta : AccessMode := "commutative_delta".
Definition AccessUnknown : AccessMode := "unknown".

Record AccessItem := MkAccess {
  ai_Key : string;
  ai_Mode : AccessMode;
  ai_UpdateSemantics : string;
  ai_Delta : Z;
}.

Record StateVersionDependency := MkVersionDep {
  sv_Key : string;
  sv_RequiredVersion : N;
  sv_RequiredExecutionRound : Z;
  sv_ProducedVersion : N;
  sv_LivenessClass : string;
  sv_LivenessDigest : string;
  sv_RequiredLivenessClass : string;
  sv_RequiredLivenessDigest : string;
  sv_BatchFinal : bool;
  sv_ValueSuccessorCount : Z;
  sv_LocalValueSuccessorCount : Z;
  sv_RemoteValueSuccessorCount : Z;
  sv_LocalOrderingSuccessorCount : Z;
  sv_RemoteOrderingSuccessorCount : Z;
}.

Record ExecutionRoutingMetadata := MkRouting {
  er_SenderID : string;
  er_ReceiverID : string;
  er_RoutingEpoch : N;
  er_RoutingOrdinal : N;
  er_ExecutionShard : string;
  er_RoutingReason : string;
  er_RoutePlanDigest : string;
  er_RouteBatchSequence : N;
  er_RouteBatchTransactionCount : Z;
  er_RouteBatchShardTransactionCount : Z;
  er_ConsensusExecutionPredecessorOrdinals : list N;
  er_ConsensusOrderingPredecessorOrdinals : list N;
  er_ConsensusExecutionDepth : Z;
  er_ConsensusExecutionRound : Z;
  er_ConsensusWindowSequence : N;
  er_ConsensusWindowStartBatchSequence : N;
  er_ConsensusWindowEndBatchSequence : N;
  er_ConsensusWindowRouteBatchCount : Z;
  er_ConsensusWindowTransactionCount : Z;
  er_ConsensusWindowShardTransactionCount : Z;
  er_ConsensusWindowCriticalPath : Z;
  er_RouteEntryDigest : string;
  er_PredictedRemoteReads : Z;
  er_PredictedRemoteWrites : Z;
  er_StateVersions : list StateVersionDependency;
  er_ControlPolicy : string;
  er_LogicalDomains : list string;
  er_Local : bool;
  er_Bridge : bool;
  er_FrontierDigest : string;
}.

Record SignedTransaction := MkTx {
  TxID : string;
  LogicalTxID : string;
  Sender : string;
  Receiver : string;
  Nonce : N;
  Value : Z;
  StateKeys : list string;
  AccessList : list AccessItem;
  AccessListDigest : string;
  AccessListSchema : string;
  AccessListSource : string;
  SchedulingAccessList : list AccessItem;
  SchedulingAccessDigest : string;
  SchedulingAccessSchema : string;
  SchedulingAccessSource : string;
  Payload : string;
  Timestamp : Z;
  Signature : string;
  PublicKey : string;
  SourceKind : string;
  TraceSourceID : string;
  ExecutionRouting : option ExecutionRoutingMetadata;
}.

(** ** JSON images *)

Definition json_access (a : AccessItem) : json :=
  JObj (fld "key" (JStr (ai_Key a)) ++ fld "mode" (JStr (ai_Mode a)) ++
        fld "update_semantics" (JStr (ai_UpdateSemantics a)) ++
        opt_int "delta" (ai_Delta a)).

Definition json_version (d : StateVersionDependency) : json :=
  JObj (fld "key" (JStr (sv_Key d)) ++
        fld "required_version" (JUint (sv_RequiredVersion d)) ++
        opt_int "required_execution_round" (sv_RequiredExecutionRound d) ++
        opt_uint "produced_version" (sv_ProducedVersion d) ++
        opt_str "liveness_class" (sv_LivenessClass d) ++
        opt_str "liveness_digest" (sv_LivenessDigest d) ++
        opt_str "required_liveness_class" (sv_RequiredLivenessClass d) ++
        opt_str "required_liveness_digest" (sv_RequiredLivenessDigest d) ++
        opt_bool "batch_final" (sv_BatchFinal d) ++
        opt_int "value_successor_count" (sv_ValueSuccessorCount d) ++
        opt_int "local_value_successor_count" (sv_LocalValueSuccessorCount d) ++
        opt_int "remote_value_successor_count" (sv_RemoteValueSuccessorCount d) ++
        opt_int "local_ordering_successor_count" (sv_LocalOrderingSuccessorCount d) ++
        opt_int "remote_ordering_successor_count" (sv_RemoteOrderingSuccessorCount d)).

(** The fields from [routing_epoch] on that the routing metadata and the digest
    payload print alike. *)
Definition json_routing_window (r : ExecutionRoutingMetadata) : list (string * json) :=
  opt_uint "route_batch_sequence" (er_RouteBatchSequence r) ++
  opt_int "route_batch_transaction_count" (er_RouteBatchTransactionCount r) ++
  opt_int "route_batch_shard_transaction_count" (er_RouteBatchShardTransactionCount r) ++
  opt_arr "consensus_execution_predecessor_ordinals"
    (JUint <$> er_ConsensusExecutionPredecessorOrdinals r) ++
  opt_arr "consensus_ordering_predecessor_ordinals"
    (JUint <$> er_ConsensusOrderingPredecessorOrdinals r) ++
  opt_int "consensus_execution_depth" (er_ConsensusExecutionDepth r) ++
  opt_int "consensus_execution_round" (er_ConsensusExecutionRound r) ++
  opt_uint "consensus_window_sequence" (er_ConsensusWindowSequence r) ++
  opt_uint "consensus_window_start_batch_sequence" (er_ConsensusWindowStartBatchSequence r) ++
  opt_uint "consensus_window_end_batch_sequence" (er_ConsensusWindowEndBatchSequence r) ++
  opt_int "consensus_window_route_batch_count" (er_ConsensusWindowRouteBatchCount r) ++
  opt_int "consensus_window_transaction_count" (er_ConsensusWindowTransactionCount r) ++
  opt_int "consensus_window_shard_transaction_count" (er_ConsensusWindowShardTransactionCount r) ++
  opt_int "consensus_window_critical_path" (er_ConsensusWindowCriticalPath r).

Definition json_routing_head (r : ExecutionRoutingMetadata) : list (string * json) :=
  fld "routing_epoch" (JUint (er_RoutingEpoch r)) ++
  fld "routing_ordinal" (JUint (er_RoutingOrdinal r)) ++
  fld "execution_shard" (JStr (er_ExecutionShard r)) ++
  fld "routing_reason" (JStr (er_RoutingReason r)) ++
  fld "route_plan_digest" (JStr (er_RoutePlanDigest r)).

Definition json_routing_tail (r : ExecutionRoutingMetadata) : list (string * json) :=
  fld "predicted_remote_reads" (JInt (er_PredictedRemoteReads r)) ++
  fld "predicted_remote_writes" (JInt (er_PredictedRemoteWrites r)) ++
  opt_arr "state_versions" (json_version <$> er_StateVersions r) ++
  opt_str "control_policy" (er_ControlPolicy r) ++
  opt_arr "logical_domains" (JStr <$> er_LogicalDomains r) ++
  opt_bool "local" (er_Local r) ++
  opt_bool "bridge" (er_Bridge r) ++
  opt_str "frontier_digest" (er_FrontierDigest r).

Definition json_routing (r : ExecutionRoutingMetadata) : json :=
  JObj (fld "sender_id" (JStr (er_SenderID r)) ++ fld "receiver_id" (JStr (er_ReceiverID r)) ++
        json_routing_head r ++ json_routing_window r ++
        fld "route_entry_digest" (JStr (er_RouteEntryDigest r)) ++ json_routing_tail r).

(** ** Canonical bytes and identifier *)

(** [SignedTransaction.core] marshalled: neither the identifier nor the
    signature is part of it. *)
Definition json_core (t : SignedTransaction) : json :=
  JObj (opt_str "logical_tx_id" (LogicalTxID t) ++
        fld "sender" (JStr (Sender t)) ++
        fld "receiver" (JStr (Receiver t)) ++
        fld "nonce" (JUint (Nonce t)) ++
        fld "value" (JInt (Value t)) ++
        fld "state_keys" (arr_copy (JStr <$> StateKeys t)) ++
        opt_arr "access_list" (json_access <$> AccessList t) ++
        opt_str "access_list_digest" (AccessListDigest t) ++
        opt_str "access_list_schema" (AccessListSchema t) ++
        opt_str "access_list_source" (AccessListSource t) ++
        opt_arr "scheduling_access_list" (json_access <$> SchedulingAccessList t) ++
        opt_str "scheduling_access_digest" (SchedulingAccessDigest t) ++
        opt_str "scheduling_access_schema" (SchedulingAccessSchema t) ++
        opt_str "scheduling_access_source" (SchedulingAccessSource t) ++
        fld "payload" (JStr (Payload t)) ++
        fld "timestamp" (JInt (Timestamp t)) ++
        fld "public_key" (JStr (PublicKey t)) ++
        opt_str "source_kind" (SourceKind t) ++
        opt_str "trace_source_id" (TraceSourceID t) ++
        opt_obj "execution_routing" (json_routing <$> ExecutionRouting t)).

Definition CanonicalBytes (t : SignedTransaction) : string := marshal (json_core t).
Definition ComputeID (t : SignedTransaction) : string := sha256_hex (CanonicalBytes t).

(** [SemanticID]. *)
Definition SemanticID (t : SignedTransaction) : string :=
  let l := trim_space (LogicalTxID t) in
  let s := trim_space (TraceSourceID t) in
  if l ≠? "" then l else if s ≠? "" then s else TxID t.

(** ** Routing metadata *)

Definition json_routing_digest (t : SignedTransaction) (r : ExecutionRoutingMetadata) : json :=
  JObj (fld "sender_id" (JStr (Sender t)) ++ fld "receiver_id" (JStr (Receiver t)) ++
        fld "nonce" (JUint (Nonce t)) ++
        fld "state_keys" (arr_copy (JStr <$> StateKeys t)) ++
        fld "access_list_digest" (JStr (AccessListDigest t)) ++
        fld "payload" (JStr (Payload t)) ++
        json_routing_head r ++ json_routing_window r ++ json_routing_tail r ++
        opt_arr "access_list" (json_access <$> AccessList t)).

Definition ComputeExecutionRoutingDigest
    (t : SignedTransaction) (r : ExecutionRoutingMetadata) : string :=
  sha256_hex (marshal (json_routing_digest t r)).

(** Lexicographic order of the bytes: Go's [<] on strings. *)
Definition str_ltb (a b : string) : bool := String.ltb a b.

(** One list of predecessor ordinals; [seen] is shared by the two lists.
    [None] when an ordinal is refused. *)
Fixpoint check_predecessors (ordinal last : N) (seen : gset N) (l : list N)
    : option (gset N) :=
  match l with
  | [] => Some seen
  | p :: l' =>
      if (p ≟ 0) || (ordinal <=? p) || ((last ≠? 0) && (p <=? last)) ||
         bool_decide (p ∈ seen)
      then None
      else check_predecessors ordinal p ({[p]} ∪ seen) l'
  end.

(** The loop over the state versions. *)
Fixpoint check_versions (r : ExecutionRoutingMetadata) (seen : gset string)
    (lastKey : string) (l : list StateVersionDependency) : error :=
  match l with
  | [] => None
  | d :: l' =>
      reject blank (sv_Key d) || bool_decide (sv_Key d ∈ seen)
        as "invalid execution routing state version dependency" ;;
      reject (lastKey ≠? "") && str_ltb (sv_Key d) lastKey
        as "execution routing state versions must be sorted by key" ;;
      reject (sv_ProducedVersion d ≠? 0) && (sv_ProducedVersion d ≠? er_RoutingOrdinal r)
        as "invalid execution routing produced state version" ;;
      reject (sv_ProducedVersion d ≠? 0) && (sv_ProducedVersion d <=? sv_RequiredVersion d)
        as "invalid execution routing state version ordering" ;;
      reject (sv_RequiredExecutionRound d <? 0)%Z ||
             ((sv_RequiredVersion d ≟ 0) && (sv_RequiredExecutionRound d ≠? 0%Z))
        as "invalid execution routing required execution round" ;;
      reject (0 <? sv_RequiredExecutionRound d)%Z && (0 <? er_ConsensusExecutionRound r)%Z &&
             (er_ConsensusExecutionRound r <=? sv_RequiredExecutionRound d)%Z
        as "invalid execution routing execution round ordering" ;;
      check_versions r ({[sv_Key d]} ∪ seen) (sv_Key d) l'
  end.

Fixpoint check_domains (lastDomain : string) (l : list string) : bool :=
  match l with
  | [] => true
  | d :: l' =>
      if blank d || ((lastDomain ≠? "") && negb (str_ltb lastDomain d)) then false
      else check_domains d l'
  end.

(** The [switch] on the control policy. *)
Definition check_policy (r : ExecutionRoutingMetadata) : error :=
  if er_ControlPolicy r ≟ "" then None
  else if er_ControlPolicy r ≟ "logical_domain_frontier_v1" then
    let n := length (er_LogicalDomains r) in
    reject (n ≟ O) || blank (er_FrontierDigest r)
      as "invalid execution routing logical-domain frontier" ;;
    reject negb (check_domains "" (er_LogicalDomains r))
      as "execution routing logical domains must be sorted unique non-empty" ;;
    reject Bool.eqb (er_Local r) (er_Bridge r)
      as "execution routing must be exactly one of local or bridge" ;;
    reject negb (Bool.eqb (er_Local r) (n ≟ 1%nat)) ||
           negb (Bool.eqb (er_Bridge r) (1 <? n)%nat)
      as "execution routing local/bridge classification mismatch" ;;
    None
  else if er_ControlPolicy r ≟ "declared_access_frontier_v2" then
    reject blank (er_FrontierDigest r)
      as "invalid execution routing declared-access frontier" ;;
    reject (length (er_LogicalDomains r) ≠? O) || er_Local r || er_Bridge r
      as "declared-access frontier must not carry logical-domain admission state" ;;
    None
  else Some "invalid execution routing control_policy".

Definition window_present (r : ExecutionRoutingMetadata) : bool :=
  (er_ConsensusWindowSequence r ≠? 0) || (er_ConsensusWindowStartBatchSequence r ≠? 0) ||
  (er_ConsensusWindowEndBatchSequence r ≠? 0) || (er_ConsensusWindowRouteBatchCount r ≠? 0%Z) ||
  (er_ConsensusWindowTransactionCount r ≠? 0%Z) ||
  (er_ConsensusWindowShardTransactionCount r ≠? 0%Z) ||
  (er_ConsensusWindowCriticalPath r ≠? 0%Z).

Definition window_bad (r : ExecutionRoutingMetadata) : bool :=
  let lo := er_ConsensusWindowStartBatchSequence r in
  let hi := er_ConsensusWindowEndBatchSequence r in
  (er_ConsensusWindowSequence r ≟ 0) || (lo ≟ 0) || (hi <? lo) ||
  (er_ConsensusWindowRouteBatchCount r ≠? int_of_u64 (u64_add (u64_sub hi lo) 1)) ||
  (er_ConsensusWindowTransactionCount r <=? 0)%Z ||
  (er_ConsensusWindowShardTransactionCount r <=? 0)%Z ||
  (er_ConsensusWindowTransactionCount r <? er_ConsensusWindowShardTransactionCount r)%Z ||
  (er_ConsensusWindowCriticalPath r <=? 0)%Z ||
  (er_RouteBatchSequence r <? lo) || (hi <? er_RouteBatchSequence r).

Definition batch_present (r : ExecutionRoutingMetadata) : bool :=
  (er_RouteBatchSequence r ≠? 0) || (er_RouteBatchTransactionCount r ≠? 0%Z) ||
  (er_RouteBatchShardTransactionCount r ≠? 0%Z).

Definition batch_bad (r : ExecutionRoutingMetadata) : bool :=
  (er_RouteBatchSequence r ≟ 0) || (er_RouteBatchTransactionCount r <=? 0)%Z ||
  (er_RouteBatchShardTransactionCount r <=? 0)%Z ||
  (er_RouteBatchTransactionCount r <? er_RouteBatchShardTransactionCount r)%Z.

(** The checks after the identity fields. *)
Definition check_routing_body (t : SignedTransaction) (r : ExecutionRoutingMetadata) : error :=
  reject batch_present r && batch_bad r
    as "invalid execution routing route batch metadata" ;;
  reject (er_ConsensusExecutionDepth r <? 0)%Z
    as "invalid execution routing consensus execution depth" ;;
  reject (er_ConsensusExecutionRound r <? 0)%Z
    as "invalid execution routing consensus execution round" ;;
  reject window_present r && window_bad r
    as "invalid execution routing consensus window metadata" ;;
  match seen ← check_predecessors (er_RoutingOrdinal r) 0 ∅
                 (er_ConsensusExecutionPredecessorOrdinals r);
        check_predecessors (er_RoutingOrdinal r) 0 seen
          (er_ConsensusOrderingPredecessorOrdinals r) with
  | None => Some "invalid execution routing consensus predecessor ordinals"
  | Some seen =>
      reject (0 <? size seen)%nat && (er_ConsensusExecutionDepth r <=? 0)%Z
        as "invalid execution routing consensus execution depth" ;;
      reject (er_PredictedRemoteReads r <? 0)%Z || (er_PredictedRemoteWrites r <? 0)%Z
        as "invalid execution routing remote-access prediction" ;;
      match check_versions r ∅ "" (er_StateVersions r) with
      | Some e => Some e
      | None =>
          match check_policy r with
          | Some e => Some e
          | None =>
              reject (er_RouteEntryDigest r ≟ "") ||
                     (er_RouteEntryDigest r ≠? ComputeExecutionRoutingDigest t r)
                as "invalid execution routing route_entry_digest" ;;
              None
          end
      end
  end.

Definition ValidateExecutionRouting (t : SignedTransaction) : error :=
  match ExecutionRouting t with
  | None => None
  | Some r =>
      reject blank (er_SenderID r) || (er_SenderID r ≠? Sender t)
        as "invalid execution routing sender_id" ;;
      reject blank (er_ReceiverID r) || (er_ReceiverID r ≠? Receiver t)
        as "invalid execution routing receiver_id" ;;
      reject er_RoutingOrdinal r ≟ 0 as "invalid execution routing routing_ordinal" ;;
      reject blank (er_ExecutionShard r) as "invalid execution routing execution_shard" ;;
      reject blank (er_RoutingReason r) as "invalid execution routing routing_reason" ;;
      reject blank (er_RoutePlanDigest r) as "invalid execution routing route_plan_digest" ;;
      check_routing_body t r
  end.

(** ** [ValidateBasic] *)

Definition access_known (m : AccessMode) : bool :=
  (m ≟ AccessRead) || (m ≟ AccessWrite) || (m ≟ AccessReadWrite) ||
  (m ≟ AccessCommutativeDelta).

Definition ValidateBasic (t : SignedTransaction) : error :=
  reject blank (Sender t) as "empty_sender" ;;
  reject blank (Receiver t) as "empty_receiver" ;;
  reject (Value t <=? 0)%Z as "invalid_value" ;;
  reject length (StateKeys t) ≟ O as "malformed_tx" ;;
  reject existsb blank (StateKeys t) as "malformed_tx" ;;
  reject existsb (λ a, blank (ai_Key a) || negb (access_known (ai_Mode a))) (AccessList t)
    as "malformed_tx" ;;
  reject existsb (λ a, blank (ai_Key a) || blank (ai_UpdateSemantics a) ||
                       negb (access_known (ai_Mode a) || (ai_Mode a ≟ AccessUnknown)))
                 (SchedulingAccessList t) as "malformed_tx" ;;
  match ValidateExecutionRouting t with
  | Some e => Some e
  | None =>
      reject blank (PublicKey t) || blank (Signature t) as "invalid_signature" ;;
      reject TxID t ≠? ComputeID t as "invalid_tx_id" ;;
      None
  end.
