(* ===== verification/Block.v ===== *)
(** * Blocks ([executor/realism/block])

    The block record, the transaction root and the block hash that consensus
    votes on, the proposer's cursor over the chain. *)
From S2P Require Import Prelude GoStd Tx.
Import Json.
Local Open Scope N_scope.

Record SystemStateDelta := MkSysDelta {
  sd_DeltaID : string;
  sd_Key : string;
  sd_Value : string;
  sd_TxID : string;
  sd_TxIDs : list string;
  sd_UpdateSemantics : string;
  sd_Delta : Z;
  sd_BaseValue : string;
  sd_BaseValueDigest : string;
  sd_ApplyOrigin : string;
  sd_DeltaKind : string;
  sd_HasInitialValue : bool;
  sd_InitialValue : Z;
  sd_HomeShard : string;
  sd_ExecutionShard : string;
  sd_SourceKey : string;
  sd_SourceHeight : N;
  sd_RoutingOrdinal : N;
  sd_PreviousVersion : N;
  sd_ProducedVersion : N;
  sd_OrderingNoop : bool;
  sd_SourceBlockHash : string;
}.

(** The two envelopes carry their digests and an opaque JSON payload. *)
Record ProposalEvidenceEnvelope := MkEvidence {
  pe_AlgorithmID : string;
  pe_PayloadDigest : string;
  pe_Payload : list N;
}.
Record ExecutionPlanEnvelope := MkPlanEnvelope {
  ep_AlgorithmID : string;
  ep_PayloadDigest : string;
  ep_PlanDigest : string;
  ep_Payload : list N;
}.

(** [TxIDs] is [None] for a nil slice, which prints as [null]. *)
Record Block := MkBlock {
  BlockHash : string;
  ShardID : string;
  Height : N;
  PreviousHash : string;
  ProposerID : string;
  BlockTimestamp : Z;
  TxIDs : option (list string);
  TxList : list SignedTransaction;
  TxRootField : string;
  StateRootBefore : string;
  StateRootAfter : string;
  ReceiptRootField : string;
  ProposerDigest : string;
  StateCommit : bool;
  CrossShardProtocol : bool;
  SystemStateDeltas : list SystemStateDelta;
  ExecutionPlan : option ExecutionPlanEnvelope;
  ProposalEvidence : option ProposalEvidenceEnvelope;
}.

(** [block.Block{}]. *)
Definition zero_block : Block :=
  MkBlock "" "" 0 "" "" 0 None [] "" "" "" "" "" false false [] None None.

(** ** Hashes *)

Definition TxRoot (ids : option (list string)) : string :=
  sha256_hex (marshal (arr (map JStr <$> ids))).

Definition json_delta (d : SystemStateDelta) : json :=
  JObj (fld "delta_id" (JStr (sd_DeltaID d)) ++ fld "key" (JStr (sd_Key d)) ++
        fld "value" (JStr (sd_Value d)) ++ opt_str "tx_id" (sd_TxID d) ++
        opt_arr "tx_ids" (JStr <$> sd_TxIDs d) ++
        opt_str "update_semantics" (sd_UpdateSemantics d) ++
        opt_int "delta" (sd_Delta d) ++ opt_str "base_value" (sd_BaseValue d) ++
        opt_str "base_value_digest" (sd_BaseValueDigest d) ++
        opt_str "apply_origin" (sd_ApplyOrigin d) ++
        opt_str "delta_kind" (sd_DeltaKind d) ++
        opt_bool "has_initial_value" (sd_HasInitialValue d) ++
        fld "initial_value" (JInt (sd_InitialValue d)) ++
        fld "home_shard" (JStr (sd_HomeShard d)) ++
        fld "execution_shard" (JStr (sd_ExecutionShard d)) ++
        fld "source_key" (JStr (sd_SourceKey d)) ++
        fld "source_height" (JUint (sd_SourceHeight d)) ++
        opt_uint "routing_ordinal" (sd_RoutingOrdinal d) ++
        opt_uint "previous_version" (sd_PreviousVersion d) ++
        opt_uint "produced_version" (sd_ProducedVersion d) ++
        opt_bool "ordering_noop" (sd_OrderingNoop d) ++
        fld "source_block_hash" (JStr (sd_SourceBlockHash d))).

Definition json_plan (p : ExecutionPlanEnvelope) : json :=
  JObj (fld "algorithm_id" (JStr (ep_AlgorithmID p)) ++
        fld "payload_digest" (JStr (ep_PayloadDigest p)) ++
        fld "plan_digest" (JStr (ep_PlanDigest p))).

Definition json_evidence (p : ProposalEvidenceEnvelope) : json :=
  JObj (fld "algorithm_id" (JStr (pe_AlgorithmID p)) ++
        fld "payload_digest" (JStr (pe_PayloadDigest p))).

Definition json_block (b : Block) : json :=
  JObj (fld "shard_id" (JStr (ShardID b)) ++ fld "height" (JUint (Height b)) ++
        fld "previous_hash" (JStr (PreviousHash b)) ++
        fld "proposer_id" (JStr (ProposerID b)) ++
        fld "timestamp" (JInt (BlockTimestamp b)) ++
        fld "tx_ids" (arr (map JStr <$> TxIDs b)) ++
        fld "tx_root" (JStr (TxRootField b)) ++
        fld "state_root_before" (JStr (StateRootBefore b)) ++
        fld "state_root_after" (JStr (StateRootAfter b)) ++
        fld "receipt_root" (JStr (ReceiptRootField b)) ++
        opt_arr "system_state_deltas" (json_delta <$> SystemStateDeltas b) ++
        opt_obj "execution_plan" (json_plan <$> ExecutionPlan b) ++
        opt_obj "proposal_evidence" (json_evidence <$> ProposalEvidence b)).

Definition Hash (b : Block) : string := sha256_hex (marshal (json_block b)).

Definition AssignHash (b : Block) : Block :=
  let root := TxRoot (TxIDs b) in
  let b' := MkBlock (BlockHash b) (ShardID b) (Height b) (PreviousHash b) (ProposerID b)
              (BlockTimestamp b) (TxIDs b) (TxList b) root (StateRootBefore b)
              (StateRootAfter b) (ReceiptRootField b) root (StateCommit b)
              (CrossShardProtocol b) (SystemStateDeltas b) (ExecutionPlan b)
              (ProposalEvidence b) in
  MkBlock (Hash b') (ShardID b) (Height b) (PreviousHash b) (ProposerID b)
    (BlockTimestamp b) (TxIDs b) (TxList b) root (StateRootBefore b)
    (StateRootAfter b) (ReceiptRootField b) root (StateCommit b)
    (CrossShardProtocol b) (SystemStateDeltas b) (ExecutionPlan b) (ProposalEvidence b).

(** ** The proposer *)

Record Proposer := MkProposer {
  pr_NodeID : string;
  pr_ShardID : string;
  pr_PreviousHash : string;
  pr_NextHeight : N;
}.

Definition NewProposer (nodeID shardID : string) : Proposer :=
  MkProposer nodeID shardID "genesis" 1.

(** The block both [Build] and [BuildFromReserved] assemble; [nowMS] is
    [now.UnixMilli()]. *)
Definition candidate (p : Proposer) (items : list SignedTransaction) (nowMS : Z) : Block :=
  AssignHash (MkBlock "" (pr_ShardID p) (pr_NextHeight p) (pr_PreviousHash p) (pr_NodeID p)
    nowMS (Some (TxID <$> items)) items "" "empty" "pending_not_executed"
    "pending_not_executed" "" false false [] None None).

Definition BuildFromReserved (p : Proposer) (items : list SignedTransaction) (nowMS : Z)
    : Block * error :=
  if length items ≟ O then (zero_block, Some "empty_mempool")
  else (candidate p items nowMS, None).

Definition Confirm (p : Proposer) (b : Block) : Proposer :=
  MkProposer (pr_NodeID p) (pr_ShardID p) (BlockHash b) (u64_add (Height b) 1).

(** ** Facts *)

(** The hash reads neither the stored hash, nor the transaction bodies, nor the
    commit flags, nor the envelopes' payload bytes. *)
Lemma Hash_AssignHash b : Hash (AssignHash b) = BlockHash (AssignHash b).
Proof. reflexivity. Qed.

Lemma Hash_candidate p items nowMS :
  Hash (candidate p items nowMS) = BlockHash (candidate p items nowMS).
Proof. reflexivity. Qed.
