(* ===== verification/BlockCodec.v ===== *)
(** * The JSON of blocks and transactions

    The struct tags of [tx/model.go], [tx/routing.go] and [block/block.go] as field
    tables: a block is read back from the line it is stored as. *)
From S2P Require Import Prelude GoStd GoJson JsonRoundtrip GoStruct Tx Block.
Import Json.
Local Open Scope N_scope.

Notation "name '::=' c 'at' proj" := (MkField name false c proj (λ v r, ltac:(set_field proj v r)))
  (at level 60, c at level 9, proj at level 9, only parsing).
Notation "name '?:=' c 'at' proj" := (MkField name true c proj (λ v r, ltac:(set_field proj v r)))
  (at level 60, c at level 9, proj at level 9, only parsing).

Create HintDb codec.
#[export] Hint Resolve string_lawful string_omit bool_lawful bool_omit int_lawful int_omit uint_lawful uint_omit
  slice_lawful slice_omit nilable_lawful pointer_omit raw_omit struct_textless
  string_tested bool_tested int_tested uint_tested raw_tested slice_tested nilable_tested pointer_tested
  string_neat bool_neat int_neat uint_neat slice_neat nilable_neat pointer_neat raw_neat : codec.

Lemma basic_textless : textless c_string ∧ textless c_uint.
Proof. split; by intros [] raw old. Qed.
#[export] Hint Extern 1 (textless c_string) => exact (proj1 basic_textless) : codec.
#[export] Hint Extern 1 (textless c_uint) => exact (proj2 basic_textless) : codec.
#[export] Hint Extern 1 (textless _) => apply struct_textless : codec.
#[export] Hint Extern 1 (value_of _ ≠ VNull) => discriminate : codec.

(** The law of a struct from those of its fields. *)
Ltac solve_struct :=
  apply struct_lawful;
  [split; [apply (bool_decide_unpack _); vm_compute; exact I
          |repeat (apply List.Forall_cons; [split; [apply name_utf8; vm_compute; reflexivity|cbv [f_omit f_codec f_type]; solve [auto with codec]]|]);
           apply List.Forall_nil]
  |intros []; vm_compute; repeat (split; [reflexivity|]); reflexivity].

(** A test of a struct from those of its fields. *)
Ltac solve_tested :=
  apply struct_tested;
  repeat (apply List.Forall_cons; [cbv [f_codec f_type]; solve [auto with codec]|]); apply List.Forall_nil.

(** Tidiness of a struct from that of its fields. *)
Ltac solve_neat :=
  apply struct_neat;
  repeat (apply List.Forall_cons; [cbv [f_codec f_type]; solve [auto with codec]|]); apply List.Forall_nil.

(** ** Transactions *)

#[global] Instance access_eta : Eta AccessItem := λ r,
  MkAccess (ai_Key r) (ai_Mode r) (ai_UpdateSemantics r) (ai_Delta r).

Definition c_access : codec AccessItem := c_struct (MkAccess "" "" "" 0)
  ["key" ::= c_string at ai_Key; "mode" ::= c_string at ai_Mode;
   "update_semantics" ::= c_string at ai_UpdateSemantics; "delta" ?:= c_int at ai_Delta].

Lemma access_lawful : lawful c_access.
Proof. solve_struct. Qed.
Lemma access_tested : tested c_access.
Proof. solve_tested. Qed.
#[export] Hint Resolve access_lawful access_tested : codec.

#[global] Instance version_eta : Eta StateVersionDependency := λ r,
    MkVersionDep (sv_Key r) (sv_RequiredVersion r) (sv_RequiredExecutionRound r) (sv_ProducedVersion r)
    (sv_LivenessClass r) (sv_LivenessDigest r) (sv_RequiredLivenessClass r) (sv_RequiredLivenessDigest r)
    (sv_BatchFinal r) (sv_ValueSuccessorCount r) (sv_LocalValueSuccessorCount r) (sv_RemoteValueSuccessorCount r)
    (sv_LocalOrderingSuccessorCount r) (sv_RemoteOrderingSuccessorCount r).

Definition c_version : codec StateVersionDependency := c_struct (MkVersionDep "" 0 0 0 "" "" "" "" false 0 0 0 0 0)
  ["key" ::= c_string at sv_Key; "required_version" ::= c_uint at sv_RequiredVersion;
   "required_execution_round" ?:= c_int at sv_RequiredExecutionRound;
   "produced_version" ?:= c_uint at sv_ProducedVersion; "liveness_class" ?:= c_string at sv_LivenessClass;
   "liveness_digest" ?:= c_string at sv_LivenessDigest;
   "required_liveness_class" ?:= c_string at sv_RequiredLivenessClass;
   "required_liveness_digest" ?:= c_string at sv_RequiredLivenessDigest;
   "batch_final" ?:= c_bool at sv_BatchFinal; "value_successor_count" ?:= c_int at sv_ValueSuccessorCount;
   "local_value_successor_count" ?:= c_int at sv_LocalValueSuccessorCount;
   "remote_value_successor_count" ?:= c_int at sv_RemoteValueSuccessorCount;
   "local_ordering_successor_count" ?:= c_int at sv_LocalOrderingSuccessorCount;
   "remote_ordering_successor_count" ?:= c_int at sv_RemoteOrderingSuccessorCount].

Lemma version_lawful : lawful c_version.
Proof. solve_struct. Qed.
Lemma version_tested : tested c_version.
Proof. solve_tested. Qed.
#[export] Hint Resolve version_lawful version_tested : codec.

#[global] Instance routing_eta : Eta ExecutionRoutingMetadata := λ r,
    MkRouting (er_SenderID r) (er_ReceiverID r) (er_RoutingEpoch r) (er_RoutingOrdinal r) (er_ExecutionShard r)
    (er_RoutingReason r) (er_RoutePlanDigest r) (er_RouteBatchSequence r) (er_RouteBatchTransactionCount r)
    (er_RouteBatchShardTransactionCount r) (er_ConsensusExecutionPredecessorOrdinals r)
    (er_ConsensusOrderingPredecessorOrdinals r) (er_ConsensusExecutionDepth r) (er_ConsensusExecutionRound r)
    (er_ConsensusWindowSequence r) (er_ConsensusWindowStartBatchSequence r) (er_ConsensusWindowEndBatchSequence r)
    (er_ConsensusWindowRouteBatchCount r) (er_ConsensusWindowTransactionCount r)
    (er_ConsensusWindowShardTransactionCount r) (er_ConsensusWindowCriticalPath r) (er_RouteEntryDigest r)
    (er_PredictedRemoteReads r) (er_PredictedRemoteWrites r) (er_StateVersions r) (er_ControlPolicy r)
    (er_LogicalDomains r) (er_Local r) (er_Bridge r) (er_FrontierDigest r).

Definition c_routing : codec ExecutionRoutingMetadata := c_struct (MkRouting "" "" 0 0 "" "" "" 0 0 0 [] [] 0 0 0
    0 0 0 0 0 0 "" 0 0 [] "" [] false false "")
  ["sender_id" ::= c_string at er_SenderID; "receiver_id" ::= c_string at er_ReceiverID;
   "routing_epoch" ::= c_uint at er_RoutingEpoch; "routing_ordinal" ::= c_uint at er_RoutingOrdinal;
   "execution_shard" ::= c_string at er_ExecutionShard; "routing_reason" ::= c_string at er_RoutingReason;
   "route_plan_digest" ::= c_string at er_RoutePlanDigest;
   "route_batch_sequence" ?:= c_uint at er_RouteBatchSequence;
   "route_batch_transaction_count" ?:= c_int at er_RouteBatchTransactionCount;
   "route_batch_shard_transaction_count" ?:= c_int at er_RouteBatchShardTransactionCount;
   "consensus_execution_predecessor_ordinals" ?:= (c_slice c_uint) at er_ConsensusExecutionPredecessorOrdinals;
   "consensus_ordering_predecessor_ordinals" ?:= (c_slice c_uint) at er_ConsensusOrderingPredecessorOrdinals;
   "consensus_execution_depth" ?:= c_int at er_ConsensusExecutionDepth;
   "consensus_execution_round" ?:= c_int at er_ConsensusExecutionRound;
   "consensus_window_sequence" ?:= c_uint at er_ConsensusWindowSequence;
   "consensus_window_start_batch_sequence" ?:= c_uint at er_ConsensusWindowStartBatchSequence;
   "consensus_window_end_batch_sequence" ?:= c_uint at er_ConsensusWindowEndBatchSequence;
   "consensus_window_route_batch_count" ?:= c_int at er_ConsensusWindowRouteBatchCount;
   "consensus_window_transaction_count" ?:= c_int at er_ConsensusWindowTransactionCount;
   "consensus_window_shard_transaction_count" ?:= c_int at er_ConsensusWindowShardTransactionCount;
   "consensus_window_critical_path" ?:= c_int at er_ConsensusWindowCriticalPath;
   "route_entry_digest" ::= c_string at er_RouteEntryDigest;
   "predicted_remote_reads" ::= c_int at er_PredictedRemoteReads;
   "predicted_remote_writes" ::= c_int at er_PredictedRemoteWrites;
   "state_versions" ?:= (c_slice c_version) at er_StateVersions;
   "control_policy" ?:= c_string at er_ControlPolicy;
   "logical_domains" ?:= (c_slice c_string) at er_LogicalDomains; "local" ?:= c_bool at er_Local;
   "bridge" ?:= c_bool at er_Bridge; "frontier_digest" ?:= c_string at er_FrontierDigest].

Lemma routing_lawful : lawful c_routing.
Proof. solve_struct. Qed.
Lemma routing_tested : tested c_routing.
Proof. solve_tested. Qed.
#[export] Hint Resolve routing_lawful routing_tested : codec.

#[global] Instance transaction_eta : Eta SignedTransaction := λ r,
    MkTx (TxID r) (LogicalTxID r) (Sender r) (Receiver r) (Nonce r) (Value r) (StateKeys r) (AccessList r)
    (AccessListDigest r) (AccessListSchema r) (AccessListSource r) (SchedulingAccessList r)
    (SchedulingAccessDigest r) (SchedulingAccessSchema r) (SchedulingAccessSource r) (Payload r) (Timestamp r)
    (Signature r) (PublicKey r) (SourceKind r) (TraceSourceID r) (ExecutionRouting r).

Definition c_transaction : codec SignedTransaction := c_struct (MkTx "" "" "" "" 0 0 [] [] "" "" "" [] "" "" "" ""
    0 "" "" "" "" None)
  ["tx_id" ::= c_string at TxID; "logical_tx_id" ?:= c_string at LogicalTxID; "sender" ::= c_string at Sender;
   "receiver" ::= c_string at Receiver; "nonce" ::= c_uint at Nonce; "value" ::= c_int at Value;
   "state_keys" ::= (c_slice c_string) at StateKeys; "access_list" ?:= (c_slice c_access) at AccessList;
   "access_list_digest" ?:= c_string at AccessListDigest; "access_list_schema" ?:= c_string at AccessListSchema;
   "access_list_source" ?:= c_string at AccessListSource;
   "scheduling_access_list" ?:= (c_slice c_access) at SchedulingAccessList;
   "scheduling_access_digest" ?:= c_string at SchedulingAccessDigest;
   "scheduling_access_schema" ?:= c_string at SchedulingAccessSchema;
   "scheduling_access_source" ?:= c_string at SchedulingAccessSource; "payload" ::= c_string at Payload;
   "timestamp" ::= c_int at Timestamp; "signature" ::= c_string at Signature;
   "public_key" ::= c_string at PublicKey; "source_kind" ?:= c_string at SourceKind;
   "trace_source_id" ?:= c_string at TraceSourceID;
   "execution_routing" ?:= (c_pointer c_routing) at ExecutionRouting].

Lemma transaction_lawful : lawful c_transaction.
Proof. solve_struct. Qed.
Lemma transaction_tested : tested c_transaction.
Proof. solve_tested. Qed.
#[export] Hint Resolve transaction_lawful transaction_tested : codec.

(** ** Blocks *)

#[global] Instance delta_eta : Eta SystemStateDelta := λ r,
    MkSysDelta (sd_DeltaID r) (sd_Key r) (sd_Value r) (sd_TxID r) (sd_TxIDs r) (sd_UpdateSemantics r) (sd_Delta r)
    (sd_BaseValue r) (sd_BaseValueDigest r) (sd_ApplyOrigin r) (sd_DeltaKind r) (sd_HasInitialValue r)
    (sd_InitialValue r) (sd_HomeShard r) (sd_ExecutionShard r) (sd_SourceKey r) (sd_SourceHeight r)
    (sd_RoutingOrdinal r) (sd_PreviousVersion r) (sd_ProducedVersion r) (sd_OrderingNoop r) (sd_SourceBlockHash
    r).

Definition c_delta : codec SystemStateDelta := c_struct (MkSysDelta "" "" "" "" [] "" 0 "" "" "" "" false 0 "" ""
    "" 0 0 0 0 false "")
  ["delta_id" ::= c_string at sd_DeltaID; "key" ::= c_string at sd_Key; "value" ::= c_string at sd_Value;
   "tx_id" ?:= c_string at sd_TxID; "tx_ids" ?:= (c_slice c_string) at sd_TxIDs;
   "update_semantics" ?:= c_string at sd_UpdateSemantics; "delta" ?:= c_int at sd_Delta;
   "base_value" ?:= c_string at sd_BaseValue; "base_value_digest" ?:= c_string at sd_BaseValueDigest;
   "apply_origin" ?:= c_string at sd_ApplyOrigin; "delta_kind" ?:= c_string at sd_DeltaKind;
   "has_initial_value" ?:= c_bool at sd_HasInitialValue; "initial_value" ::= c_int at sd_InitialValue;
   "home_shard" ::= c_string at sd_HomeShard; "execution_shard" ::= c_string at sd_ExecutionShard;
   "source_key" ::= c_string at sd_SourceKey; "source_height" ::= c_uint at sd_SourceHeight;
   "routing_ordinal" ?:= c_uint at sd_RoutingOrdinal; "previous_version" ?:= c_uint at sd_PreviousVersion;
   "produced_version" ?:= c_uint at sd_ProducedVersion; "ordering_noop" ?:= c_bool at sd_OrderingNoop;
   "source_block_hash" ::= c_string at sd_SourceBlockHash].

Lemma delta_lawful : lawful c_delta.
Proof. solve_struct. Qed.
Lemma delta_tested : tested c_delta.
Proof. solve_tested. Qed.
#[export] Hint Resolve delta_lawful delta_tested : codec.

#[global] Instance plan_eta : Eta ExecutionPlanEnvelope := λ r,
  MkPlanEnvelope (ep_AlgorithmID r) (ep_PayloadDigest r) (ep_PlanDigest r) (ep_Payload r).

Definition c_plan : codec ExecutionPlanEnvelope := c_struct (MkPlanEnvelope "" "" "" [])
  ["algorithm_id" ::= c_string at ep_AlgorithmID; "payload_digest" ::= c_string at ep_PayloadDigest;
   "plan_digest" ::= c_string at ep_PlanDigest; "payload" ?:= c_raw at ep_Payload].

Lemma plan_lawful : lawful c_plan.
Proof. solve_struct. Qed.
Lemma plan_tested : tested c_plan.
Proof. solve_tested. Qed.
#[export] Hint Resolve plan_lawful plan_tested : codec.

#[global] Instance evidence_eta : Eta ProposalEvidenceEnvelope := λ r,
  MkEvidence (pe_AlgorithmID r) (pe_PayloadDigest r) (pe_Payload r).

Definition c_evidence : codec ProposalEvidenceEnvelope := c_struct (MkEvidence "" "" [])
  ["algorithm_id" ::= c_string at pe_AlgorithmID; "payload_digest" ::= c_string at pe_PayloadDigest;
   "payload" ?:= c_raw at pe_Payload].

Lemma evidence_lawful : lawful c_evidence.
Proof. solve_struct. Qed.
Lemma evidence_tested : tested c_evidence.
Proof. solve_tested. Qed.
#[export] Hint Resolve evidence_lawful evidence_tested : codec.

#[global] Instance block_eta : Eta Block := λ r,
    MkBlock (BlockHash r) (ShardID r) (Height r) (PreviousHash r) (ProposerID r) (BlockTimestamp r) (TxIDs r)
    (TxList r) (TxRootField r) (StateRootBefore r) (StateRootAfter r) (ReceiptRootField r) (ProposerDigest r)
    (StateCommit r) (CrossShardProtocol r) (SystemStateDeltas r) (ExecutionPlan r) (ProposalEvidence r).

Definition c_block : codec Block := c_struct (MkBlock "" "" 0 "" "" 0 None [] "" "" "" "" "" false false [] None
    None)
  ["block_hash" ::= c_string at BlockHash; "shard_id" ::= c_string at ShardID; "height" ::= c_uint at Height;
   "previous_hash" ::= c_string at PreviousHash; "proposer_id" ::= c_string at ProposerID;
   "timestamp" ::= c_int at BlockTimestamp; "tx_ids" ::= (c_nilable c_string) at TxIDs;
   "tx_list" ::= (c_slice c_transaction) at TxList; "tx_root" ::= c_string at TxRootField;
   "state_root_before" ::= c_string at StateRootBefore; "state_root_after" ::= c_string at StateRootAfter;
   "receipt_root" ::= c_string at ReceiptRootField; "proposer_digest" ::= c_string at ProposerDigest;
   "state_commit" ::= c_bool at StateCommit; "cross_shard_protocol" ::= c_bool at CrossShardProtocol;
   "system_state_deltas" ?:= (c_slice c_delta) at SystemStateDeltas;
   "execution_plan" ?:= (c_pointer c_plan) at ExecutionPlan;
   "proposal_evidence" ?:= (c_pointer c_evidence) at ProposalEvidence].

Lemma block_lawful : lawful c_block.
Proof. solve_struct. Qed.
Lemma block_tested : tested c_block.
Proof. solve_tested. Qed.
#[export] Hint Resolve block_lawful block_tested : codec.

(** The tables print what the digests are computed from. *)
Lemma version_table d : c_enc c_version d = json_version d.
Proof. unfold json_version. cbn [c_enc c_version c_struct]. f_equal. cbn. by rewrite !app_nil_r. Qed.

Lemma routing_table r : c_enc c_routing r = json_routing r.
Proof.
  unfold json_routing, json_routing_head, json_routing_window, json_routing_tail.
  assert (json_version <$> er_StateVersions r = c_enc c_version <$> er_StateVersions r) as ->.
  { apply list_fmap_ext. intros i d _. symmetry. apply version_table. }
  cbn [c_enc c_routing c_struct]. rewrite <- !app_assoc. f_equal. cbn.
  by rewrite !app_nil_r.
Qed.

Lemma delta_table d : c_enc c_delta d = json_delta d.
Proof. unfold json_delta. cbn [c_enc c_delta c_struct]. by f_equal. Qed.
