(* ===== verification/PbftTypes.v ===== *)
(** * PBFT messages and quorums
    ([executor/realism/consensus/pbft/{quorum,message}.go]) *)
From S2P Require Import Prelude GoStd Tx Block.

(** ** Quorum arithmetic on Go's [int] *)
Section quorum.
Local Open Scope Z_scope.

Definition FaultTolerance (n : Z) : Z :=
  if n <=? 0 then 0 else Z.quot (i64_sub n 1) 3.

Definition Quorum (n : Z) : Z :=
  if n <=? 0 then 0 else i64_add (Z.quot (i64_wrap (2 * n)) 3) 1.

End quorum.

(** ** Messages *)

Record PrePrepare := MkPrePrepare {
  pp_View : N;
  pp_Sequence : N;
  pp_Height : N;
  pp_LeaderID : string;
  pp_BlockHash : string;
  pp_Block : Block;
  pp_Signature : string;
}.

Record Prepare := MkPrepare {
  p_View : N;
  p_Sequence : N;
  p_Height : N;
  p_NodeID : string;
  p_BlockHash : string;
  p_Signature : string;
}.

Record Commit := MkCommit {
  c_View : N;
  c_Sequence : N;
  c_Height : N;
  c_NodeID : string;
  c_BlockHash : string;
  c_Signature : string;
}.

Record CommitCertificate := MkCommitCert {
  cc_View : N;
  cc_Sequence : N;
  cc_Height : N;
  cc_BlockHash : string;
  cc_Commits : list Commit;
}.

Record PreparedCertificate := MkPreparedCert {
  pc_View : N;
  pc_Sequence : N;
  pc_Height : N;
  pc_BlockHash : string;
  pc_Prepares : list Prepare;
}.

Record Checkpoint := MkCheckpoint {
  cp_Height : N;
  cp_NodeID : string;
  cp_BlockHash : string;
  cp_StateRoot : string;
  cp_Signature : string;
}.

Record CheckpointCertificate := MkCheckpointCert {
  cpc_Height : N;
  cpc_BlockHash : string;
  cpc_StateRoot : string;
  cpc_Checkpoints : list Checkpoint;
}.

(** A pointer field is an [option]. *)
Record ViewChange := MkViewChange {
  vc_View : N;
  vc_NewView : N;
  vc_NodeID : string;
  vc_Height : N;
  vc_LeaderID : string;
  vc_StableCheckpoint : option CheckpointCertificate;
  vc_Prepared : option PreparedCertificate;
  vc_PreparedBlock : option Block;
  vc_Signature : string;
}.

Record NewView := MkNewView {
  nv_View : N;
  nv_LeaderID : string;
  nv_Height : N;
  nv_ViewChanges : list ViewChange;
  nv_SelectedPrepared : option PreparedCertificate;
  nv_SelectedBlock : option Block;
  nv_Signature : string;
}.

(** The zero values Go returns beside an error. *)
Definition zero_prepare : Prepare := MkPrepare 0 0 0 "" "" "".
Definition zero_prepared_cert : PreparedCertificate := MkPreparedCert 0 0 0 "" [].
Definition zero_commit_cert : CommitCertificate := MkCommitCert 0 0 0 "" [].
Definition zero_checkpoint_cert : CheckpointCertificate := MkCheckpointCert 0 "" "" [].
Definition zero_view_change : ViewChange :=
  MkViewChange 0 0 "" 0 "" None None None "".
Definition zero_new_view : NewView := MkNewView 0 "" 0 [] None None "".
