(* ===== verification/PbftState.v ===== *)
(** * The PBFT replica state ([executor/realism/consensus/pbft/state.go])

    One replica's protocol state and the operations the runtime calls on it.
    Every operation runs under the state's mutex, so an operation is a function
    from the state (and its argument) to the new state and the values Go
    returns; [None] is a runtime panic. The wall clock is an argument [now] in
    nanoseconds. The deep copies the code makes are the identity on values. *)
From S2P Require Import Prelude GoStd Tx Block PbftTypes.
Local Open Scope N_scope.

Inductive Stage :=
  | StageIdle | StagePrePrepared | StagePrepared | StageCommitted | StageViewChange.

#[global] Instance Stage_eq_dec : EqDecision Stage.
Proof. solve_decision. Defined.

(** A [map[K]bool] whose entries are only ever [true] is a set; a missing time
    in [CommitBroadcasts] is the zero [time.Time]. *)
Record State := MkState {
  st_NodeID : string;
  st_ShardID : string;
  st_ViewID : N;
  st_SequenceID : N;
  st_Height : N;
  st_LeaderID : string;
  st_InitialLeaderID : string;
  st_ValidatorSet : list string;
  st_F : Z;
  st_PrepareVotes : gmap string (gmap string Prepare);
  st_CommitVotes : gmap string (gmap string Commit);
  st_EarlyPrepareVotes : gmap string (gmap string Prepare);
  st_EarlyCommitVotes : gmap string (gmap string Commit);
  st_ViewChangeVotes : gmap N (gmap string ViewChange);
  st_CheckpointVotes : gmap string (gmap string Checkpoint);
  st_LockedBlocks : gmap string Block;
  st_PrePrepareBySlot : gmap string string;
  st_PrepareBySlotNode : gmap string (gmap string string);
  st_CommitBySlotNode : gmap string (gmap string string);
  st_PreparedByHeight : gmap N PreparedCertificate;
  st_PreparedBlocks : gmap N Block;
  st_CommittedBlocks : gmap N Block;
  st_CommitCertificates : gmap N CommitCertificate;
  st_CommitBroadcasts : gmap string Z;
  st_ViewChangeBroadcasts : gset N;
  st_AcceptedNewViews : gmap N NewView;
  st_StableCheckpoint : CheckpointCertificate;
  st_LowWatermark : N;
  st_HighWatermark : N;
  st_CheckpointInterval : N;
  st_WatermarkWindow : N;
  st_LastProgressTime : Z;
  st_Stage : Stage;
}.

#[global] Instance State_eta : Eta State := λ s,
  MkState (st_NodeID s) (st_ShardID s) (st_ViewID s) (st_SequenceID s) (st_Height s)
    (st_LeaderID s) (st_InitialLeaderID s) (st_ValidatorSet s) (st_F s)
    (st_PrepareVotes s) (st_CommitVotes s) (st_EarlyPrepareVotes s)
    (st_EarlyCommitVotes s) (st_ViewChangeVotes s) (st_CheckpointVotes s)
    (st_LockedBlocks s) (st_PrePrepareBySlot s) (st_PrepareBySlotNode s)
    (st_CommitBySlotNode s) (st_PreparedByHeight s) (st_PreparedBlocks s)
    (st_CommittedBlocks s) (st_CommitCertificates s) (st_CommitBroadcasts s)
    (st_ViewChangeBroadcasts s) (st_AcceptedNewViews s) (st_StableCheckpoint s)
    (st_LowWatermark s) (st_HighWatermark s) (st_CheckpointInterval s)
    (st_WatermarkWindow s) (st_LastProgressTime s) (st_Stage s).

Definition set_ViewID (v : N) (s : State) : State :=
  ltac:(set_field st_ViewID v s).
Definition set_SequenceID (v : N) (s : State) : State :=
  ltac:(set_field st_SequenceID v s).
Definition set_Height (v : N) (s : State) : State :=
  ltac:(set_field st_Height v s).
Definition set_LeaderID (v : string) (s : State) : State :=
  ltac:(set_field st_LeaderID v s).
Definition set_PrepareVotes (v : gmap string (gmap string Prepare)) (s : State) : State :=
  ltac:(set_field st_PrepareVotes v s).
Definition set_CommitVotes (v : gmap string (gmap string Commit)) (s : State) : State :=
  ltac:(set_field st_CommitVotes v s).
Definition set_EarlyPrepareVotes (v : gmap string (gmap string Prepare)) (s : State) : State :=
  ltac:(set_field st_EarlyPrepareVotes v s).
Definition set_EarlyCommitVotes (v : gmap string (gmap string Commit)) (s : State) : State :=
  ltac:(set_field st_EarlyCommitVotes v s).
Definition set_ViewChangeVotes (v : gmap N (gmap string ViewChange)) (s : State) : State :=
  ltac:(set_field st_ViewChangeVotes v s).
Definition set_CheckpointVotes (v : gmap string (gmap string Checkpoint)) (s : State) : State :=
  ltac:(set_field st_CheckpointVotes v s).
Definition set_LockedBlocks (v : gmap string Block) (s : State) : State :=
  ltac:(set_field st_LockedBlocks v s).
Definition set_PrePrepareBySlot (v : gmap string string) (s : State) : State :=
  ltac:(set_field st_PrePrepareBySlot v s).
Definition set_PrepareBySlotNode (v : gmap string (gmap string string)) (s : State) : State :=
  ltac:(set_field st_PrepareBySlotNode v s).
Definition set_CommitBySlotNode (v : gmap string (gmap string string)) (s : State) : State :=
  ltac:(set_field st_CommitBySlotNode v s).
Definition set_PreparedByHeight (v : gmap N PreparedCertificate) (s : State) : State :=
  ltac:(set_field st_PreparedByHeight v s).
Definition set_PreparedBlocks (v : gmap N Block) (s : State) : State :=
  ltac:(set_field st_PreparedBlocks v s).
Definition set_CommittedBlocks (v : gmap N Block) (s : State) : State :=
  ltac:(set_field st_CommittedBlocks v s).
Definition set_CommitCertificates (v : gmap N CommitCertificate) (s : State) : State :=
  ltac:(set_field st_CommitCertificates v s).
Definition set_CommitBroadcasts (v : gmap string Z) (s : State) : State :=
  ltac:(set_field st_CommitBroadcasts v s).
Definition set_ViewChangeBroadcasts (v : gset N) (s : State) : State :=
  ltac:(set_field st_ViewChangeBroadcasts v s).
Definition set_AcceptedNewViews (v : gmap N NewView) (s : State) : State :=
  ltac:(set_field st_AcceptedNewViews v s).
Definition set_StableCheckpoint (v : CheckpointCertificate) (s : State) : State :=
  ltac:(set_field st_StableCheckpoint v s).
Definition set_LowWatermark (v : N) (s : State) : State :=
  ltac:(set_field st_LowWatermark v s).
Definition set_HighWatermark (v : N) (s : State) : State :=
  ltac:(set_field st_HighWatermark v s).
Definition set_CheckpointInterval (v : N) (s : State) : State :=
  ltac:(set_field st_CheckpointInterval v s).
Definition set_WatermarkWindow (v : N) (s : State) : State :=
  ltac:(set_field st_WatermarkWindow v s).
Definition set_LastProgressTime (v : Z) (s : State) : State :=
  ltac:(set_field st_LastProgressTime v s).
Definition set_Stage (v : Stage) (s : State) : State :=
  ltac:(set_field st_Stage v s).

(** ** Construction and configuration *)

Definition defaultCheckpointInterval : N := 20.
Definition defaultWatermarkWindow : N := 200.

Definition NewState (nodeID shardID leaderID : string) (validators : list string) (now : Z)
    : State :=
  let sorted := sort_strings validators in
  let vs := if (length sorted ≟ O) && (nodeID ≠? "") then [nodeID] else sorted in
  let leader := if (leaderID ≟ "") && negb (length vs ≟ O) then default "" (head vs) else leaderID in
  MkState nodeID shardID 0 0 0 leader leader vs (FaultTolerance (Z.of_nat (length vs)))
    ∅ ∅ ∅ ∅ ∅ ∅ ∅ ∅ ∅ ∅ ∅ ∅ ∅ ∅ ∅ ∅ ∅
    zero_checkpoint_cert 0 defaultWatermarkWindow defaultCheckpointInterval
    defaultWatermarkWindow now StageIdle.

Definition ConfigureCheckpoint (interval window : N) (s : State) : State :=
  let s := if 0 <? interval then set_CheckpointInterval interval s else s in
  let s := if 0 <? window then set_WatermarkWindow window s else s in
  let s := if st_WatermarkWindow s <? u64_mul (st_CheckpointInterval s) 2
           then set_WatermarkWindow (u64_mul (st_CheckpointInterval s) 2) s else s in
  set_HighWatermark (u64_add (st_LowWatermark s) (st_WatermarkWindow s)) s.

Definition prepareQuorumLocked (s : State) : Z := Quorum (Z.of_nat (length (st_ValidatorSet s))).
Definition commitQuorumLocked (s : State) : Z := Quorum (Z.of_nat (length (st_ValidatorSet s))).

Definition isValidatorLocked (s : State) (nodeID : string) : bool :=
  if nodeID ≟ "" then false else existsb (λ v, v ≟ nodeID) (st_ValidatorSet s).

(** The position of the initial leader, 0 when it is not a validator. *)
Fixpoint leader_base (initial : string) (i : Z) (vs : list string) : Z :=
  match vs with
  | [] => 0%Z
  | v :: vs' => if v ≟ initial then i else leader_base initial (i + 1)%Z vs'
  end.

(** [s.ValidatorSet[(base+int(view))%len(s.ValidatorSet)]]: Go's [%] has the
    sign of the dividend, and a negative index panics. *)
Definition leaderForViewLocked (s : State) (view : N) : option string :=
  match st_ValidatorSet s with
  | [] => Some (st_InitialLeaderID s)
  | vs =>
      let base := leader_base (st_InitialLeaderID s) 0 vs in
      let i := Z.rem (i64_add base (int_of_u64 view)) (Z.of_nat (length vs)) in
      if (i <? 0)%Z then None else vs !! Z.to_nat i
  end.

Definition inWatermarksLocked (s : State) (height : N) : bool :=
  if height <=? st_LowWatermark s then false
  else if st_HighWatermark s ≟ 0 then true
  else height <=? st_HighWatermark s.

Definition slotKey (view sequence : N) : string :=
  (pad20 view +:+ ":" +:+ pad20 sequence)%string.
Definition checkpointKey (height : N) (blockHash stateRoot : string) : string :=
  (pad20 height +:+ ":" +:+ blockHash +:+ ":" +:+ stateRoot)%string.

(** ** PRE-PREPARE *)

Definition locked_block (s : State) (hash : string) : Block :=
  default zero_block (st_LockedBlocks s !! hash).

(** The outer [option] is a panic of the leader lookup. *)
Definition validatePrePrepareLocked (s : State) (msg : PrePrepare) : option error :=
  if pp_View msg ≠? st_ViewID s then Some (Some "wrong_view")
  else
  expectedLeader ← leaderForViewLocked s (pp_View msg);
  Some (
    reject pp_LeaderID msg ≠? expectedLeader as "wrong_leader" ;;
    reject (pp_Sequence msg ≟ 0) || (pp_Height msg ≟ 0) || (pp_Sequence msg ≠? pp_Height msg)
      as "wrong_sequence" ;;
    reject negb (inWatermarksLocked s (pp_Height msg)) as "outside_watermarks" ;;
    reject (pp_BlockHash msg ≟ "") || (pp_BlockHash msg ≠? BlockHash (pp_Block msg)) ||
           (Hash (pp_Block msg) ≠? pp_BlockHash msg) as "wrong_digest" ;;
    reject pp_Height msg ≠? Height (pp_Block msg) as "wrong_height" ;;
    let locked := default "" (st_PrePrepareBySlot s !! slotKey (pp_View msg) (pp_Sequence msg)) in
    reject (locked ≠? "") && (locked ≠? pp_BlockHash msg) as "conflicting_preprepare" ;;
    reject match st_PreparedByHeight s !! pp_Height msg with
           | Some prepared => (pc_BlockHash prepared ≠? "") &&
                              (pc_BlockHash prepared ≠? pp_BlockHash msg)
           | None => false
           end as "prepared_digest_conflict" ;;
    None).

(** The votes buffered for a slot that name the block move to the vote maps;
    the whole buffer of the slot goes. *)
Definition replay_prepares (slot blockHash : string) (s : State) : State :=
  match st_EarlyPrepareVotes s !! slot with
  | Some votes =>
      if size votes ≟ O then s else
      let chosen := map_keep (λ _ v, p_BlockHash v ≟ blockHash) votes in
      let s := set_PrepareVotes
        (<[blockHash := chosen ∪ inner (st_PrepareVotes s) blockHash]> (st_PrepareVotes s)) s in
      let s := set_PrepareBySlotNode
        (<[slot := ((λ _, blockHash) <$> chosen) ∪ inner (st_PrepareBySlotNode s) slot]>
           (st_PrepareBySlotNode s)) s in
      set_EarlyPrepareVotes (delete slot (st_EarlyPrepareVotes s)) s
  | None => s
  end.

Definition replay_commits (slot blockHash : string) (s : State) : State :=
  match st_EarlyCommitVotes s !! slot with
  | Some votes =>
      if size votes ≟ O then s else
      let chosen := map_keep (λ _ v, c_BlockHash v ≟ blockHash) votes in
      let s := set_CommitVotes
        (<[blockHash := chosen ∪ inner (st_CommitVotes s) blockHash]> (st_CommitVotes s)) s in
      let s := set_CommitBySlotNode
        (<[slot := ((λ _, blockHash) <$> chosen) ∪ inner (st_CommitBySlotNode s) slot]>
           (st_CommitBySlotNode s)) s in
      set_EarlyCommitVotes (delete slot (st_EarlyCommitVotes s)) s
  | None => s
  end.

Definition replayEarlyVotesLocked (slot blockHash : string) (s : State) : State :=
  replay_commits slot blockHash (replay_prepares slot blockHash s).

Definition OnPrePrepare (now : Z) (msg : PrePrepare) (s : State)
    : option (State * (Prepare * error)) :=
  err ← validatePrePrepareLocked s msg;
  match err with
  | Some e => Some (s, (zero_prepare, Some e))
  | None =>
      let slot := slotKey (pp_View msg) (pp_Sequence msg) in
      let s := set_PrePrepareBySlot (<[slot := pp_BlockHash msg]> (st_PrePrepareBySlot s)) s in
      let s := set_Height (pp_Height msg) s in
      let s := set_SequenceID (pp_Sequence msg) s in
      let s := set_LockedBlocks (<[pp_BlockHash msg := pp_Block msg]> (st_LockedBlocks s)) s in
      let s := replayEarlyVotesLocked slot (pp_BlockHash msg) s in
      let s := if (st_Stage s ≠? StagePrepared) && (st_Stage s ≠? StageCommitted)
               then set_Stage StagePrePrepared s else s in
      let s := set_LastProgressTime now s in
      Some (s, (MkPrepare (pp_View msg) (pp_Sequence msg) (pp_Height msg) (st_NodeID s)
                  (pp_BlockHash msg) "", None))
  end.

Definition IsDuplicatePrePrepare (s : State) (view sequence : N) (blockHash : string) : bool :=
  (blockHash ≠? "") &&
  (default "" (st_PrePrepareBySlot s !! slotKey view sequence) ≟ blockHash).

(** ** PREPARE and COMMIT votes *)

Definition bufferEarlyPrepareLocked (slot : string) (msg : Prepare) (s : State) : State * error :=
  let votes := inner (st_EarlyPrepareVotes s) slot in
  match votes !! p_NodeID msg with
  | Some existing =>
      if p_BlockHash existing ≠? p_BlockHash msg
      then (s, Some "prepare_equivocation")
      else (set_EarlyPrepareVotes
              (<[slot := <[p_NodeID msg := msg]> votes]> (st_EarlyPrepareVotes s)) s, None)
  | None => (set_EarlyPrepareVotes
               (<[slot := <[p_NodeID msg := msg]> votes]> (st_EarlyPrepareVotes s)) s, None)
  end.

Definition bufferEarlyCommitLocked (slot : string) (msg : Commit) (s : State) : State * error :=
  let votes := inner (st_EarlyCommitVotes s) slot in
  match votes !! c_NodeID msg with
  | Some existing =>
      if c_BlockHash existing ≠? c_BlockHash msg
      then (s, Some "commit_equivocation")
      else (set_EarlyCommitVotes
              (<[slot := <[c_NodeID msg := msg]> votes]> (st_EarlyCommitVotes s)) s, None)
  | None => (set_EarlyCommitVotes
               (<[slot := <[c_NodeID msg := msg]> votes]> (st_EarlyCommitVotes s)) s, None)
  end.

(** The votes of a map in the order of their node ids: [sortedPrepares] and its
    two siblings. *)
Definition sorted_votes {V} (votes : gmap string V) : list V :=
  omap (λ id, votes !! id) (sorted_keys votes).

Definition store_prepared_cert (cert : PreparedCertificate) (s : State) : State :=
  let newer := match st_PreparedByHeight s !! pc_Height cert with
               | None => true
               | Some existing => pc_View existing <=? pc_View cert
               end in
  if newer then
    let s := set_PreparedByHeight (<[pc_Height cert := cert]> (st_PreparedByHeight s)) s in
    let b := locked_block s (pc_BlockHash cert) in
    if BlockHash b ≠? "" then set_PreparedBlocks (<[pc_Height cert := b]> (st_PreparedBlocks s)) s
    else s
  else s.

Definition AcceptPrepare (now : Z) (msg : Prepare) (s : State) : State * (bool * Z * error) :=
  let fail e := (s, (false, 0%Z, Some e)) in
  if negb (isValidatorLocked s (p_NodeID msg)) then fail "prepare_unknown_validator"
  else if p_View msg ≠? st_ViewID s then fail "prepare_wrong_view"
  else if (p_Sequence msg ≟ 0) || (p_Height msg ≟ 0) || (p_Sequence msg ≠? p_Height msg)
  then fail "prepare_wrong_sequence"
  else if negb (inWatermarksLocked s (p_Height msg)) then fail "prepare_outside_watermarks"
  else
  let slot := slotKey (p_View msg) (p_Sequence msg) in
  let locked := default "" (st_PrePrepareBySlot s !! slot) in
  if locked ≟ "" then
    let '(s', err) := bufferEarlyPrepareLocked slot msg s in (s', (false, 0%Z, err))
  else if locked ≠? p_BlockHash msg then fail "prepare_without_matching_preprepare"
  else
  let bySlot := inner (st_PrepareBySlotNode s) slot in
  let previous := default "" (bySlot !! p_NodeID msg) in
  if (previous ≠? "") && (previous ≠? p_BlockHash msg) then
    (set_PrepareBySlotNode (<[slot := bySlot]> (st_PrepareBySlotNode s)) s,
     (false, 0%Z, Some "prepare_equivocation"))
  else
  let s := set_PrepareBySlotNode
    (<[slot := <[p_NodeID msg := p_BlockHash msg]> bySlot]> (st_PrepareBySlotNode s)) s in
  let votes := <[p_NodeID msg := msg]> (inner (st_PrepareVotes s) (p_BlockHash msg)) in
  let s := set_PrepareVotes (<[p_BlockHash msg := votes]> (st_PrepareVotes s)) s in
  let count := Z.of_nat (size votes) in
  if (prepareQuorumLocked s <=? count)%Z then
    let cert := MkPreparedCert (p_View msg) (p_Sequence msg) (p_Height msg) (p_BlockHash msg)
                  (sorted_votes votes) in
    let s := store_prepared_cert cert s in
    (set_LastProgressTime now (set_Stage StagePrepared s), (true, count, None))
  else (s, (false, count, None)).

Definition AcceptCommit (now : Z) (msg : Commit) (s : State)
    : State * (bool * Z * Block * error) :=
  let fail e := (s, (false, 0%Z, zero_block, Some e)) in
  if negb (isValidatorLocked s (c_NodeID msg)) then fail "commit_unknown_validator"
  else if c_View msg ≠? st_ViewID s then fail "commit_wrong_view"
  else if (c_Sequence msg ≟ 0) || (c_Height msg ≟ 0) || (c_Sequence msg ≠? c_Height msg)
  then fail "commit_wrong_sequence"
  else if negb (inWatermarksLocked s (c_Height msg)) then fail "commit_outside_watermarks"
  else
  let slot := slotKey (c_View msg) (c_Sequence msg) in
  let locked := default "" (st_PrePrepareBySlot s !! slot) in
  if locked ≟ "" then
    let '(s', err) := bufferEarlyCommitLocked slot msg s in (s', (false, 0%Z, zero_block, err))
  else if locked ≠? c_BlockHash msg then fail "commit_without_matching_preprepare"
  else
  let bySlot := inner (st_CommitBySlotNode s) slot in
  let previous := default "" (bySlot !! c_NodeID msg) in
  if (previous ≠? "") && (previous ≠? c_BlockHash msg) then
    (set_CommitBySlotNode (<[slot := bySlot]> (st_CommitBySlotNode s)) s,
     (false, 0%Z, zero_block, Some "commit_equivocation"))
  else
  let s := set_CommitBySlotNode
    (<[slot := <[c_NodeID msg := c_BlockHash msg]> bySlot]> (st_CommitBySlotNode s)) s in
  let votes := <[c_NodeID msg := msg]> (inner (st_CommitVotes s) (c_BlockHash msg)) in
  let s := set_CommitVotes (<[c_BlockHash msg := votes]> (st_CommitVotes s)) s in
  let count := Z.of_nat (size votes) in
  let b := locked_block s (c_BlockHash msg) in
  let prepared_ok := match st_PreparedByHeight s !! c_Height msg with
                     | Some prepared => pc_BlockHash prepared ≟ c_BlockHash msg
                     | None => false
                     end in
  if (commitQuorumLocked s <=? count)%Z && prepared_ok && (BlockHash b ≠? "") then
    let cert := MkCommitCert (c_View msg) (c_Sequence msg) (c_Height msg) (c_BlockHash msg)
                  (sorted_votes votes) in
    let s := set_CommitCertificates (<[c_Height msg := cert]> (st_CommitCertificates s)) s in
    let s := set_Stage StageCommitted s in
    let s := set_CommittedBlocks (<[Height b := b]> (st_CommittedBlocks s)) s in
    (set_LastProgressTime now s, (true, count, b, None))
  else (s, (false, count, zero_block, None)).

(** ** Commit broadcasts *)

Definition broadcastKey (slot blockHash : string) : string :=
  (slot +:+ "|" +:+ blockHash)%string.

Definition ShouldBroadcastCommit (now : Z) (view sequence : N) (blockHash : string)
    (retryInterval : Z) (s : State) : State * bool :=
  let key := broadcastKey (slotKey view sequence) blockHash in
  let skip := match st_CommitBroadcasts s !! key with
              | Some last => (0 <? retryInterval)%Z && (time_sub now last <? retryInterval)%Z
              | None => false
              end in
  if skip then (s, false)
  else (set_CommitBroadcasts (<[key := now]> (st_CommitBroadcasts s)) s, true).

Definition MarkCommitBroadcast (now : Z) (view sequence : N) (blockHash : string) (s : State)
    : State * bool :=
  ShouldBroadcastCommit now view sequence blockHash max_int64 s.

(** ** Certificates ([certificate.go]) *)

(** The loop the three certificate validations share: every vote is cast by a
    known validator that has not voted before, and it matches the certificate. *)
Fixpoint check_votes {V} (valid : string → bool) (node : V → string) (matches : V → bool)
    (unknown duplicate mismatch : string) (seen : gset string) (votes : list V) : error :=
  match votes with
  | [] => None
  | v :: votes' =>
      if negb (valid (node v)) then Some unknown
      else if bool_decide (node v ∈ seen) then Some duplicate
      else if negb (matches v) then Some mismatch
      else check_votes valid node matches unknown duplicate mismatch ({[node v]} ∪ seen) votes'
  end.

Definition prepare_matches (cert : PreparedCertificate) (v : Prepare) : bool :=
  (p_View v ≟ pc_View cert) && (p_Sequence v ≟ pc_Sequence cert) &&
  (p_Height v ≟ pc_Height cert) && (p_BlockHash v ≟ pc_BlockHash cert).

Definition validatePreparedCertificateLocked (s : State) (cert : PreparedCertificate) : error :=
  reject (pc_BlockHash cert ≟ "") || (pc_Height cert ≟ 0) || (pc_Sequence cert ≟ 0)
    as "invalid_prepared_certificate_identity" ;;
  reject (Z.of_nat (length (pc_Prepares cert)) <? prepareQuorumLocked s)%Z
    as "prepared_certificate_insufficient_votes" ;;
  check_votes (isValidatorLocked s) p_NodeID (prepare_matches cert) "prepared_certificate_unknown_validator"
    "prepared_certificate_duplicate_validator" "prepared_certificate_vote_mismatch" ∅
    (pc_Prepares cert).

Definition commit_matches (cert : CommitCertificate) (v : Commit) : bool :=
  (c_View v ≟ cc_View cert) && (c_Sequence v ≟ cc_Sequence cert) &&
  (c_Height v ≟ cc_Height cert) && (c_BlockHash v ≟ cc_BlockHash cert).

Definition validateCommitCertificateLocked (s : State) (cert : CommitCertificate) : error :=
  reject (cc_BlockHash cert ≟ "") || (cc_Height cert ≟ 0) || (cc_Sequence cert ≟ 0) ||
         (cc_Sequence cert ≠? cc_Height cert)
    as "invalid_commit_certificate_identity" ;;
  reject (Z.of_nat (length (cc_Commits cert)) <? commitQuorumLocked s)%Z
    as "commit_certificate_insufficient_votes" ;;
  check_votes (isValidatorLocked s) c_NodeID (commit_matches cert) "commit_certificate_unknown_validator"
    "commit_certificate_duplicate_validator" "commit_certificate_vote_mismatch" ∅
    (cc_Commits cert).

Definition checkpoint_matches (cert : CheckpointCertificate) (v : Checkpoint) : bool :=
  (cp_Height v ≟ cpc_Height cert) && (cp_BlockHash v ≟ cpc_BlockHash cert) &&
  (cp_StateRoot v ≟ cpc_StateRoot cert).

Definition validateCheckpointCertificateLocked (s : State) (cert : CheckpointCertificate) : error :=
  reject (cpc_Height cert ≟ 0) || (cpc_BlockHash cert ≟ "") || (cpc_StateRoot cert ≟ "")
    as "invalid_checkpoint_certificate_identity" ;;
  reject (Z.of_nat (length (cpc_Checkpoints cert)) <? commitQuorumLocked s)%Z
    as "checkpoint_certificate_insufficient_votes" ;;
  check_votes (isValidatorLocked s) cp_NodeID (checkpoint_matches cert) "checkpoint_certificate_unknown_validator"
    "checkpoint_certificate_duplicate_validator" "checkpoint_certificate_vote_mismatch" ∅
    (cpc_Checkpoints cert).

Definition AcceptCommitCertificate (now : Z) (cert : CommitCertificate) (b : Block) (s : State)
    : State * error :=
  match validateCommitCertificateLocked s cert with
  | Some e => (s, Some e)
  | None =>
      if (BlockHash b ≟ "") || (Height b ≠? cc_Height cert) ||
         (BlockHash b ≠? cc_BlockHash cert) || (Hash b ≠? cc_BlockHash cert)
      then (s, Some "commit_certificate_block_mismatch")
      else if match st_CommitCertificates s !! cc_Height cert with
              | Some existing => cc_BlockHash existing ≠? cc_BlockHash cert
              | None => false
              end
      then (s, Some "commit_certificate_height_conflict")
      else
      let s := set_CommitCertificates (<[cc_Height cert := cert]> (st_CommitCertificates s)) s in
      let s := set_CommittedBlocks (<[cc_Height cert := b]> (st_CommittedBlocks s)) s in
      (set_LastProgressTime now s, None)
  end.

(** ** VIEW-CHANGE *)

(** One turn of the loop that looks for the highest prepared certificate; the
    pair is [chosen, chosenBlock]. *)
Definition higher_prepared (cert chosen : PreparedCertificate) : bool :=
  (pc_BlockHash chosen ≟ "") || (pc_View chosen <? pc_View cert) ||
  ((pc_View cert ≟ pc_View chosen) && (pc_Height chosen <? pc_Height cert)).

Definition choose_prepared_step (s : State) (height : N)
    (acc : PreparedCertificate * Block) (entry : N * PreparedCertificate)
    : PreparedCertificate * Block :=
  let '(preparedHeight, cert) := entry in
  if height <? preparedHeight then acc
  else if higher_prepared cert acc.1
  then (cert, default zero_block (st_PreparedBlocks s !! preparedHeight))
  else acc.

(** [order] is the sequence in which [range s.PreparedByHeight] yields the
    entries: Go leaves it open, so it is a permutation of them. *)
Definition choose_prepared (s : State) (order : list (N * PreparedCertificate)) (height : N)
    : PreparedCertificate * Block :=
  foldl (choose_prepared_step s height) (zero_prepared_cert, zero_block) order.

Definition BuildViewChange (order : list (N * PreparedCertificate)) (newView height : N)
    (s : State) : option (State * (ViewChange * error)) :=
  if newView <=? st_ViewID s
  then Some (s, (zero_view_change, Some "view_change_not_forward"))
  else
  leader ← leaderForViewLocked s newView;
  let stable := if 0 <? cpc_Height (st_StableCheckpoint s)
                then Some (st_StableCheckpoint s) else None in
  let '(chosen, chosenBlock) := choose_prepared s order height in
  let '(prepared, preparedBlock) :=
    if pc_BlockHash chosen ≠? ""
    then (Some chosen, if BlockHash chosenBlock ≠? "" then Some chosenBlock else None)
    else (None, None) in
  Some (set_Stage StageViewChange s,
        (MkViewChange (st_ViewID s) newView (st_NodeID s) height leader stable prepared
           preparedBlock "", None)).

Definition same_opt {A} (same : A → A → bool) (a b : option A) : bool :=
  match a, b with
  | None, None => true
  | Some x, Some y => same x y
  | _, _ => false
  end.

Definition sameViewChange (a b : ViewChange) : bool :=
  (vc_View a ≟ vc_View b) && (vc_NewView a ≟ vc_NewView b) && (vc_NodeID a ≟ vc_NodeID b) &&
  (vc_Height a ≟ vc_Height b) && (vc_LeaderID a ≟ vc_LeaderID b) &&
  same_opt (λ x y, (pc_View x ≟ pc_View y) && (pc_Sequence x ≟ pc_Sequence y) &&
                   (pc_Height x ≟ pc_Height y) && (pc_BlockHash x ≟ pc_BlockHash y))
           (vc_Prepared a) (vc_Prepared b) &&
  same_opt (λ x y, BlockHash x ≟ BlockHash y) (vc_PreparedBlock a) (vc_PreparedBlock b) &&
  same_opt (λ x y, (cpc_Height x ≟ cpc_Height y) && (cpc_BlockHash x ≟ cpc_BlockHash y) &&
                   (cpc_StateRoot x ≟ cpc_StateRoot y))
           (vc_StableCheckpoint a) (vc_StableCheckpoint b).

(** The block that comes with a prepared certificate is missing or is not the
    certified one. *)
Definition prepared_block_bad (cert : PreparedCertificate) (ob : option Block) : bool :=
  match ob with
  | None => true
  | Some b => (BlockHash b ≠? pc_BlockHash cert) || (Height b ≠? pc_Height cert) ||
              (Hash b ≠? pc_BlockHash cert)
  end.

(** The evidence of a view change: its stable checkpoint and its prepared
    certificate with the block. *)
Definition check_evidence (s : State) (vc : ViewChange) (mismatch : string) : error :=
  match (match vc_StableCheckpoint vc with
         | Some cp => validateCheckpointCertificateLocked s cp
         | None => None
         end) with
  | Some e => Some e
  | None =>
      match vc_Prepared vc with
      | None => None
      | Some cert =>
          match validatePreparedCertificateLocked s cert with
          | Some e => Some e
          | None => if prepared_block_bad cert (vc_PreparedBlock vc) then Some mismatch else None
          end
      end
  end.

Definition acceptViewChangeLocked (msg : ViewChange) (s : State)
    : option (State * (bool * Z * error)) :=
  if negb (isValidatorLocked s (vc_NodeID msg))
  then Some (s, (false, 0%Z, Some "view_change_unknown_validator"))
  else if (vc_NewView msg <=? vc_View msg) || (vc_NewView msg <=? st_ViewID s)
  then Some (s, (false, 0%Z, Some "view_change_not_forward"))
  else
  leader ← leaderForViewLocked s (vc_NewView msg);
  if vc_LeaderID msg ≠? leader
  then Some (s, (false, 0%Z, Some "view_change_wrong_leader"))
  else
  match check_evidence s msg "view_change_prepared_block_mismatch" with
  | Some e => Some (s, (false, 0%Z, Some e))
  | None =>
      let votes := inner (st_ViewChangeVotes s) (vc_NewView msg) in
      let size_of m := Z.of_nat (size m) in
      match votes !! vc_NodeID msg with
      | Some existing =>
          if negb (sameViewChange existing msg)
          then Some (s, (false, size_of votes, Some "view_change_equivocation"))
          else Some (s, ((commitQuorumLocked s <=? size_of votes)%Z, size_of votes, None))
      | None =>
          let votes := <[vc_NodeID msg := msg]> votes in
          let s := set_ViewChangeVotes (<[vc_NewView msg := votes]> (st_ViewChangeVotes s)) s in
          let s := set_Stage StageViewChange s in
          Some (s, ((commitQuorumLocked s <=? size_of votes)%Z, size_of votes, None))
      end
  end.

Definition MarkViewChangeBroadcast (newView : N) (s : State) : State * bool :=
  if bool_decide (newView ∈ st_ViewChangeBroadcasts s) then (s, false)
  else (set_ViewChangeBroadcasts ({[newView]} ∪ st_ViewChangeBroadcasts s) s, true).

Definition HasViewChangeFrom (s : State) (newView : N) (nodeID : string) : bool :=
  bool_decide (is_Some (inner (st_ViewChangeVotes s) newView !! nodeID)).

(** ** NEW-VIEW *)

(** The selection loop of [BuildNewView] over the votes in node-id order:
    [selected, selectedBlock], or [None] on two different highest certificates. *)
Fixpoint select_prepared (vcs : list ViewChange) (acc : PreparedCertificate * Block)
    : option (PreparedCertificate * Block) :=
  match vcs with
  | [] => Some acc
  | vc :: vcs' =>
      match vc_Prepared vc with
      | None => select_prepared vcs' acc
      | Some cert =>
          if higher_prepared cert acc.1
          then select_prepared vcs'
                 (cert, match vc_PreparedBlock vc with Some b => b | None => acc.2 end)
          else if (pc_View cert ≟ pc_View acc.1) && (pc_Height cert ≟ pc_Height acc.1) &&
                  (pc_BlockHash cert ≠? pc_BlockHash acc.1)
          then None
          else select_prepared vcs' acc
      end
  end.

Definition BuildNewView (newView height : N) (s : State) : option (NewView * error) :=
  leader ← leaderForViewLocked s newView;
  if st_NodeID s ≠? leader then Some (zero_new_view, Some "new_view_not_primary")
  else
  let votes := inner (st_ViewChangeVotes s) newView in
  if (Z.of_nat (size votes) <? commitQuorumLocked s)%Z
  then Some (zero_new_view, Some "new_view_insufficient_view_changes")
  else
  let viewChanges := sorted_votes votes in
  match select_prepared viewChanges (zero_prepared_cert, zero_block) with
  | None => Some (zero_new_view, Some "new_view_conflicting_highest_prepared")
  | Some (selected, selectedBlock) =>
      if pc_BlockHash selected ≠? ""
      then Some (MkNewView newView leader height viewChanges (Some selected)
                   (Some selectedBlock) "", None)
      else Some (MkNewView newView leader height viewChanges None None "", None)
  end.

(** The loop of [validateNewViewLocked]; the accumulator is
    [highest, highestBlock]. *)
Fixpoint check_view_changes (s : State) (msg : NewView) (seen : gset string)
    (acc : PreparedCertificate * Block) (vcs : list ViewChange)
    : string + (PreparedCertificate * Block) :=
  match vcs with
  | [] => inr acc
  | vc :: vcs' =>
      if bool_decide (vc_NodeID vc ∈ seen) then inl "new_view_duplicate_view_change"
      else if (vc_NewView vc ≠? nv_View msg) || (vc_LeaderID vc ≠? nv_LeaderID msg)
      then inl "new_view_view_change_mismatch"
      else if negb (isValidatorLocked s (vc_NodeID vc)) then inl "new_view_unknown_validator"
      else
      match check_evidence s vc "new_view_prepared_block_mismatch" with
      | Some e => inl e
      | None =>
          let seen := {[vc_NodeID vc]} ∪ seen in
          match vc_Prepared vc with
          | None => check_view_changes s msg seen acc vcs'
          | Some cert =>
              if higher_prepared cert acc.1
              then check_view_changes s msg seen
                     (cert, default zero_block (vc_PreparedBlock vc)) vcs'
              else if (pc_View cert ≟ pc_View acc.1) && (pc_Height cert ≟ pc_Height acc.1) &&
                      (pc_BlockHash cert ≠? pc_BlockHash acc.1)
              then inl "new_view_conflicting_highest_prepared"
              else check_view_changes s msg seen acc vcs'
          end
      end
  end.

Definition validateNewViewLocked (s : State) (msg : NewView) : option error :=
  if nv_View msg <? st_ViewID s then Some (Some "new_view_not_forward")
  else
  leader ← leaderForViewLocked s (nv_View msg);
  Some (
    reject nv_LeaderID msg ≠? leader as "new_view_wrong_leader" ;;
    reject (Z.of_nat (length (nv_ViewChanges msg)) <? commitQuorumLocked s)%Z
      as "new_view_insufficient_view_changes" ;;
    match check_view_changes s msg ∅ (zero_prepared_cert, zero_block) (nv_ViewChanges msg) with
    | inl e => Some e
    | inr (highest, highestBlock) =>
        if pc_BlockHash highest ≟ "" then
          reject bool_decide (is_Some (nv_SelectedPrepared msg)) ||
                 bool_decide (is_Some (nv_SelectedBlock msg))
            as "new_view_unexpected_selected_prepared" ;;
          None
        else
        match nv_SelectedPrepared msg, nv_SelectedBlock msg with
        | Some sel, Some b =>
            reject (pc_View sel ≠? pc_View highest) || (pc_Sequence sel ≠? pc_Sequence highest) ||
                   (pc_Height sel ≠? pc_Height highest) ||
                   (pc_BlockHash sel ≠? pc_BlockHash highest) ||
                   (BlockHash b ≠? BlockHash highestBlock) || (Hash b ≠? BlockHash highestBlock)
              as "new_view_wrong_selected_prepared" ;;
            None
        | _, _ => Some "new_view_missing_selected_prepared"
        end
    end).

(** Votes, broadcasts and proofs for views before the given one go. *)
Definition drop_views (view : N) (s : State) : State :=
  let dead v := (v <? view) && bool_decide (is_Some (st_ViewChangeVotes s !! v)) in
  let s := set_ViewChangeBroadcasts
             (filter (λ v, dead v = false) (st_ViewChangeBroadcasts s)) s in
  let s := set_ViewChangeVotes (map_keep (λ v _, negb (v <? view)) (st_ViewChangeVotes s)) s in
  set_AcceptedNewViews (map_keep (λ v _, negb (v <? view)) (st_AcceptedNewViews s)) s.

(** Entering a later view: votes, buffers, locks and prepared evidence are
    dropped, older view-change votes and proofs too. *)
Definition reset_for_view (view : N) (s : State) : State :=
  let s := set_PrepareVotes ∅ (set_CommitVotes ∅ s) in
  let s := set_EarlyPrepareVotes ∅ (set_EarlyCommitVotes ∅ s) in
  let s := set_LockedBlocks ∅ (set_PrePrepareBySlot ∅ s) in
  let s := set_PrepareBySlotNode ∅ (set_CommitBySlotNode ∅ s) in
  let s := set_CommitBroadcasts ∅ s in
  let s := set_PreparedByHeight ∅ (set_PreparedBlocks ∅ s) in
  drop_views view s.

Definition enter_view (now : Z) (msg : NewView) (s : State) : State :=
  let s := reset_for_view (nv_View msg) s in
  let s := set_ViewID (nv_View msg) s in
  let s := set_LeaderID (nv_LeaderID msg) s in
  let s := set_Height (nv_Height msg) s in
  let s := set_SequenceID (nv_Height msg) s in
  set_LastProgressTime now (set_Stage StageIdle s).

(** The selected certificate is adopted: its block is prepared and locked for
    its slot of the new view. *)
Definition adopt (cert : PreparedCertificate) (b : Block) (view : N) (s : State) : State :=
  set_PrePrepareBySlot (<[slotKey view (pc_Sequence cert) := BlockHash b]> (st_PrePrepareBySlot s))
    (set_LockedBlocks (<[BlockHash b := b]> (st_LockedBlocks s))
      (set_PreparedBlocks (<[pc_Height cert := b]> (st_PreparedBlocks s))
        (set_PreparedByHeight (<[pc_Height cert := cert]> (st_PreparedByHeight s)) s))).

Definition AcceptNewView (now : Z) (msg : NewView) (s : State)
    : option (State * (Block * bool * error)) :=
  err ← validateNewViewLocked s msg;
  match err with
  | Some e => Some (s, (zero_block, false, Some e))
  | None =>
      let s0 := set_AcceptedNewViews (<[nv_View msg := msg]> (st_AcceptedNewViews s)) s in
      if nv_View msg ≟ st_ViewID s then
        match nv_SelectedBlock msg with
        | Some b => Some (s0, (b, true, None))
        | None => Some (s0, (zero_block, false, None))
        end
      else
      match nv_SelectedPrepared msg, nv_SelectedBlock msg with
      | Some cert, Some b =>
          Some (adopt cert b (nv_View msg) (enter_view now msg s0), (b, true, None))
      | _, _ => Some (enter_view now msg s0, (zero_block, false, None))
      end
  end.

(** The compatibility entry point: a proposal without view changes is trusted. *)
Definition OnNewView (now : Z) (msg : NewView) (s : State) : option State :=
  if length (nv_ViewChanges msg) ≟ O then
    if st_ViewID s <? nv_View msg then
      leader ← leaderForViewLocked s (nv_View msg);
      if nv_LeaderID msg ≟ leader then
        Some (set_LastProgressTime now
                (set_Stage StageIdle (set_LeaderID (nv_LeaderID msg) (set_ViewID (nv_View msg) s))))
      else Some s
    else Some s
  else fst <$> AcceptNewView now msg s.

(** ** Durable commit *)

(** A slot whose locked block is at or below the height (a missing block reads
    as the zero block, at height 0). *)
Definition slot_done (s : State) (height : N) (slot : string) : bool :=
  match st_PrePrepareBySlot s !! slot with
  | Some hash => Height (locked_block s hash) <=? height
  | None => false
  end.

Definition hash_done (s : State) (height : N) (hash : string) : bool :=
  match st_LockedBlocks s !! hash with
  | Some b => Height b <=? height
  | None => false
  end.

Definition done_broadcasts (s : State) (height : N) : list string :=
  omap (λ '(slot, hash), if Height (locked_block s hash) <=? height
                         then Some (broadcastKey slot hash) else None)
       (map_to_list (st_PrePrepareBySlot s)).

(** Blocks at or below the height leave the locks, with their votes. *)
Definition unlock_upto (height : N) (s : State) : State :=
  let done := hash_done s height in
  let s := set_PrepareVotes (map_keep (λ h _, negb (done h)) (st_PrepareVotes s)) s in
  let s := set_CommitVotes (map_keep (λ h _, negb (done h)) (st_CommitVotes s)) s in
  set_LockedBlocks (map_keep (λ h _, negb (done h)) (st_LockedBlocks s)) s.

Definition MarkDurableCommit (now : Z) (b : Block) (s : State) : State :=
  if (BlockHash b ≟ "") || (Height b ≟ 0) then s
  else
  let h := Height b in
  let s := set_CommittedBlocks (<[h := b]> (st_CommittedBlocks s)) s in
  let s := set_PreparedByHeight (delete h (st_PreparedByHeight s)) s in
  let s := set_PreparedBlocks (delete h (st_PreparedBlocks s)) s in
  let done := slot_done s h in
  let s := set_CommitBroadcasts
             (foldr delete (st_CommitBroadcasts s) (done_broadcasts s h)) s in
  let s := set_PrepareBySlotNode (map_keep (λ k _, negb (done k)) (st_PrepareBySlotNode s)) s in
  let s := set_CommitBySlotNode (map_keep (λ k _, negb (done k)) (st_CommitBySlotNode s)) s in
  let s := set_PrePrepareBySlot (map_keep (λ k _, negb (done k)) (st_PrePrepareBySlot s)) s in
  let s := unlock_upto h s in
  let s := set_Height h s in
  let s := set_SequenceID h s in
  set_LastProgressTime now (set_Stage StageIdle s).

(** ** Checkpoints *)

Definition CheckpointDue (s : State) (height : N) : bool :=
  (0 <? st_CheckpointInterval s) && (0 <? height) &&
  (height mod st_CheckpointInterval s ≟ 0).

Definition BuildCheckpoint (s : State) (height : N) (blockHash stateRoot : string) : Checkpoint :=
  MkCheckpoint height (st_NodeID s) blockHash stateRoot "".

(** The first vote [range votes] yields decides ([for ... { ...; break }]); an
    empty vote map decides nothing. All votes of one key have one height, so the
    choice does not matter. *)
Definition first_vote {V} (votes : gmap string V) : option V :=
  snd <$> head (map_to_list votes).

Definition slot_stale (s : State) (height : N) (slot : string) : bool :=
  match st_PrePrepareBySlot s !! slot with
  | Some hash => let b := locked_block s hash in
                 (BlockHash b ≟ "") || (Height b <=? height)
  | None => false
  end.

Definition keep_first {V} (drop : V → bool) (votes : gmap string V) : bool :=
  match first_vote votes with Some v => negb (drop v) | None => true end.

(** The loops of [pruneStableLocked], in order. *)
Definition prune_prepared (height : N) (s : State) : State :=
  let gone h := (h <=? height) && bool_decide (is_Some (st_PreparedByHeight s !! h)) in
  let s := set_PreparedBlocks (map_keep (λ h _, negb (gone h)) (st_PreparedBlocks s)) s in
  let s := set_PreparedByHeight (map_keep (λ h _, negb (h <=? height)) (st_PreparedByHeight s)) s in
  set_CommittedBlocks (map_keep (λ h _, negb (h <? height)) (st_CommittedBlocks s)) s.

Definition prune_slots (height : N) (s : State) : State :=
  let stale := slot_stale s height in
  let s := set_PrepareBySlotNode (map_keep (λ k _, negb (stale k)) (st_PrepareBySlotNode s)) s in
  let s := set_CommitBySlotNode (map_keep (λ k _, negb (stale k)) (st_CommitBySlotNode s)) s in
  let s := set_EarlyPrepareVotes (map_keep (λ k _, negb (stale k)) (st_EarlyPrepareVotes s)) s in
  let s := set_EarlyCommitVotes (map_keep (λ k _, negb (stale k)) (st_EarlyCommitVotes s)) s in
  set_PrePrepareBySlot (map_keep (λ k _, negb (stale k)) (st_PrePrepareBySlot s)) s.

Definition prune_votes (height : N) (s : State) : State :=
  let s := set_EarlyPrepareVotes
    (map_keep (λ _, keep_first (λ v, p_Height v <=? height)) (st_EarlyPrepareVotes s)) s in
  let s := set_EarlyCommitVotes
    (map_keep (λ _, keep_first (λ v, c_Height v <=? height)) (st_EarlyCommitVotes s)) s in
  set_CheckpointVotes
    (map_keep (λ _, keep_first (λ v, cp_Height v <? height)) (st_CheckpointVotes s)) s.

Definition pruneStableLocked (height : N) (s : State) : State :=
  let s := unlock_upto height s in
  let s := prune_prepared height s in
  let s := prune_slots height s in
  let s := prune_votes height s in
  drop_views (st_ViewID s) s.

(** The local replica has committed the checkpoint's block and has voted for
    the same block and state digest. *)
Definition checkpoint_installed (s : State) (msg : Checkpoint) : bool :=
  let key := checkpointKey (cp_Height msg) (cp_BlockHash msg) (cp_StateRoot msg) in
  match st_CommittedBlocks s !! cp_Height msg,
        inner (st_CheckpointVotes s) key !! st_NodeID s with
  | Some b, Some v =>
      (BlockHash b ≟ cp_BlockHash msg) && (cp_Height v ≟ cp_Height msg) &&
      (cp_BlockHash v ≟ cp_BlockHash msg) && (cp_StateRoot v ≟ cp_StateRoot msg)
  | _, _ => false
  end.

Definition AcceptCheckpoint (now : Z) (msg : Checkpoint) (s : State)
    : State * (bool * Z * CheckpointCertificate * error) :=
  let fail e := (s, (false, 0%Z, zero_checkpoint_cert, Some e)) in
  if negb (isValidatorLocked s (cp_NodeID msg)) then fail "checkpoint_unknown_validator"
  else if (cp_Height msg ≟ 0) || (cp_BlockHash msg ≟ "") || (cp_StateRoot msg ≟ "")
  then fail "checkpoint_invalid_identity"
  else if match st_CommittedBlocks s !! cp_Height msg with
          | Some b => (BlockHash b ≠? "") && (BlockHash b ≠? cp_BlockHash msg)
          | None => false
          end
  then fail "checkpoint_block_mismatch"
  else
  let key := checkpointKey (cp_Height msg) (cp_BlockHash msg) (cp_StateRoot msg) in
  let votes := <[cp_NodeID msg := msg]> (inner (st_CheckpointVotes s) key) in
  let s := set_CheckpointVotes (<[key := votes]> (st_CheckpointVotes s)) s in
  let count := Z.of_nat (size votes) in
  if (count <? commitQuorumLocked s)%Z then (s, (false, count, zero_checkpoint_cert, None))
  else
  let cert := MkCheckpointCert (cp_Height msg) (cp_BlockHash msg) (cp_StateRoot msg)
                (sorted_votes votes) in
  if negb (checkpoint_installed s msg) then (s, (false, count, cert, None))
  else
  let newlyStable := cpc_Height (st_StableCheckpoint s) <? cp_Height msg in
  let s := if newlyStable then
             let s := set_StableCheckpoint cert s in
             let s := set_LowWatermark (cp_Height msg) s in
             let s := set_HighWatermark (u64_add (st_LowWatermark s) (st_WatermarkWindow s)) s in
             pruneStableLocked (cp_Height msg) s
           else s in
  (set_LastProgressTime now s, (newlyStable, count, cert, None)).

(** ** Queries *)

Definition PreparedCertificate_at (s : State) (height : N) : PreparedCertificate * Block * bool :=
  match st_PreparedByHeight s !! height with
  | None => (zero_prepared_cert, zero_block, false)
  | Some cert => (cert, default zero_block (st_PreparedBlocks s !! height), true)
  end.

Definition CommitCertificate_at (s : State) (height : N) : CommitCertificate * bool :=
  match st_CommitCertificates s !! height with
  | None => (zero_commit_cert, false)
  | Some cert => (cert, true)
  end.

Definition StableCheckpointCertificate (s : State) : CheckpointCertificate * bool :=
  if cpc_Height (st_StableCheckpoint s) ≟ 0 then (zero_checkpoint_cert, false)
  else (st_StableCheckpoint s, true).

Definition NewViewProof (s : State) (view : N) : NewView * bool :=
  match st_AcceptedNewViews s !! view with
  | None => (zero_new_view, false)
  | Some nv => (nv, true)
  end.

Definition CommittedBlockAt (s : State) (height : N) : Block * bool :=
  match st_CommittedBlocks s !! height with
  | None => (zero_block, false)
  | Some b => (b, true)
  end.

(** [for _, b := range s.CommittedBlocks]: [order] is the iteration order. *)
Definition CommittedBlockByHash (order : list Block) (hash : string) : Block * bool :=
  match first_some (λ b, if BlockHash b ≟ hash then Some b else None) order with
  | None => (zero_block, false)
  | Some b => (b, true)
  end.

Definition PrepareVoteCount (s : State) (blockHash : string) : Z :=
  Z.of_nat (size (inner (st_PrepareVotes s) blockHash)).
Definition CommitVoteCount (s : State) (blockHash : string) : Z :=
  Z.of_nat (size (inner (st_CommitVotes s) blockHash)).
Definition ViewChangeVoteCount (s : State) (newView : N) : Z :=
  Z.of_nat (size (inner (st_ViewChangeVotes s) newView)).

Definition TouchProgress (now : Z) (s : State) : State := set_LastProgressTime now s.

(** The older entry points, which drop the error. *)
Definition OnPrepare (now : Z) (msg : Prepare) (s : State) : State * (bool * Z) :=
  let '(s', (reached, count, _)) := AcceptPrepare now msg s in (s', (reached, count)).
Definition OnCommit (now : Z) (msg : Commit) (s : State) : State * (bool * Z * Block) :=
  let '(s', (reached, count, b, _)) := AcceptCommit now msg s in (s', (reached, count, b)).
Definition OnViewChange (msg : ViewChange) (s : State) : option (State * (bool * Z)) :=
  r ← acceptViewChangeLocked msg s;
  let '(s', (reached, count, _)) := r in Some (s', (reached, count)).

Record StateSnapshot := MkStateSnapshot {
  ss_NodeID : string;
  ss_ShardID : string;
  ss_View : N;
  ss_LeaderID : string;
  ss_Height : N;
  ss_Sequence : N;
  ss_Stage : Stage;
  ss_PrepareQuorum : Z;
  ss_CommitQuorum : Z;
  ss_LowWatermark : N;
  ss_HighWatermark : N;
  ss_StableCheckpointHeight : N;
  ss_Prepared : option PreparedCertificate;
  ss_CommitCertificateCount : Z;
  ss_LastProgressAtMS : Z;
}.

Definition Snapshot (s : State) : StateSnapshot :=
  MkStateSnapshot (st_NodeID s) (st_ShardID s) (st_ViewID s) (st_LeaderID s) (st_Height s)
    (st_SequenceID s) (st_Stage s) (prepareQuorumLocked s) (commitQuorumLocked s)
    (st_LowWatermark s) (st_HighWatermark s) (cpc_Height (st_StableCheckpoint s))
    (st_PreparedByHeight s !! st_Height s) (Z.of_nat (size (st_CommitCertificates s)))
    (unix_milli (st_LastProgressTime s)).
