(* ===== verification/PbftCert.v ===== *)
(** * Quorums and certificates

    Any two quorums of a validator set share more members than the protocol
    tolerates faults; what a certificate that passes validation says; two
    conflicting certificates of one slot expose more than [f] double voters. *)
From S2P Require Import Prelude GoStd Tx Block PbftTypes PbftState.

(** ** Quorum arithmetic *)

(** A validator count Go can double without overflow. *)
Definition sane_count (n : Z) : Prop := (n < 2 ^ 62)%Z.

Lemma i64_small z : (- 2 ^ 63 <= z < 2 ^ 63)%Z → i64_wrap z = z.
Proof. intros. unfold i64_wrap. rewrite Z.mod_small; lia. Qed.

Lemma Quorum_eq n : (0 < n)%Z → sane_count n → Quorum n = (2 * n / 3 + 1)%Z.
Proof.
  unfold sane_count, Quorum. intros. destruct (Z.leb_spec n 0); [lia|].
  rewrite (i64_small (2 * n)) by lia. rewrite Z.quot_div_nonneg by lia.
  unfold i64_add. apply i64_small.
  Z.to_euclidean_division_equations; lia.
Qed.

Lemma FaultTolerance_eq n : (0 < n)%Z → sane_count n → FaultTolerance n = ((n - 1) / 3)%Z.
Proof.
  unfold sane_count, FaultTolerance. intros. destruct (Z.leb_spec n 0); [lia|].
  unfold i64_sub. rewrite i64_small by lia. by rewrite Z.quot_div_nonneg by lia.
Qed.

Lemma quorum_overlap n :
  (0 < n)%Z → sane_count n → (FaultTolerance n < 2 * Quorum n - n)%Z.
Proof.
  intros. rewrite Quorum_eq, FaultTolerance_eq by done.
  pose proof (Z.mod_pos_bound (2 * n) 3). pose proof (Z.div_mod (2 * n) 3).
  pose proof (Z.mod_pos_bound (n - 1) 3). pose proof (Z.div_mod (n - 1) 3). lia.
Qed.

Lemma size_list_to_set_le (l : list string) :
  (size (list_to_set l : gset string) ≤ length l)%nat.
Proof.
  induction l as [|x l IH]; simpl; [done|].
  rewrite size_union_alt, size_singleton.
  assert (size ((list_to_set l : gset string) ∖ {[x]}) ≤ size (list_to_set l : gset string))%nat
    by (apply subseteq_size; set_solver). lia.
Qed.

Lemma larger_set_has_more (A B : gset string) :
  (size B < size A)%nat → ∃ x, x ∈ A ∧ x ∉ B.
Proof.
  intros Hlt. destruct (set_choose_L (A ∖ B)) as [x [? ?]%elem_of_difference]; [|eauto].
  intros Hd. assert (A ⊆ B) as Hsub%subseteq_size; [|lia].
  intros y Hy. destruct (decide (y ∈ B)) as [|Hn]; [done|].
  assert (y ∈ A ∖ B) as Hyd by (by apply elem_of_difference).
  rewrite Hd in Hyd. by apply elem_of_empty in Hyd.
Qed.

Lemma quorum_sets_overlap (vs : list string) (A B : gset string) :
  (0 < length vs)%nat → sane_count (Z.of_nat (length vs)) →
  A ⊆ list_to_set vs → B ⊆ list_to_set vs →
  (Quorum (Z.of_nat (length vs)) <= Z.of_nat (size A))%Z →
  (Quorum (Z.of_nat (length vs)) <= Z.of_nat (size B))%Z →
  (FaultTolerance (Z.of_nat (length vs)) < Z.of_nat (size (A ∩ B)))%Z.
Proof.
  intros Hn Hs HA HB HqA HqB.
  pose proof (quorum_overlap (Z.of_nat (length vs)) ltac:(lia) Hs) as Ho.
  assert (size (A ∪ B) ≤ length vs)%nat as Hu.
  { etransitivity; [|apply size_list_to_set_le]. apply subseteq_size. set_solver. }
  assert (size (A ∪ B) + size (A ∩ B) = size A + size B)%nat as Hc.
  { rewrite size_union_alt.
    assert (size B = size (A ∩ B) + size (B ∖ A))%nat as ->; [|lia].
    rewrite <- size_union by set_solver. f_equal. apply set_eq. intros x.
    destruct (decide (x ∈ A)); set_solver. }
  lia.
Qed.

(** ** What the vote loop establishes *)

Section check_votes.
Context {V : Type} (valid : string → bool) (node : V → string) (matches : V → bool).
Context (unknown duplicate mismatch : string).

Lemma check_votes_None seen votes :
  check_votes valid node matches unknown duplicate mismatch seen votes = None ↔
  Forall (λ v, valid (node v) = true ∧ matches v = true) votes ∧
  NoDup (node <$> votes) ∧ ∀ v, v ∈ votes → node v ∉ seen.
Proof.
  revert seen. induction votes as [|v votes IH]; intros seen; simpl.
  { split; [intros _|done]. split_and!; [constructor|constructor|set_solver]. }
  destruct (valid (node v)) eqn:Hv; simpl;
    [|split; [done|intros ([[? ?] _]%Forall_cons & _); congruence]].
  case_bool_decide as Hin;
    [split; [done|intros (_ & _ & Hs); destruct (Hs v); set_solver]|].
  destruct (matches v) eqn:Hm; simpl;
    [|split; [done|intros ([[? ?] _]%Forall_cons & _); congruence]].
  rewrite IH, Forall_cons, NoDup_cons. split.
  - intros (? & ? & Hs). split_and!; auto.
    + intros (w & Hw & Hw2)%list_elem_of_fmap. apply (Hs w Hw2). set_solver.
    + intros w [->|Hw]%elem_of_cons; [done|]. specialize (Hs w Hw). set_solver.
  - intros ([_ ?] & [Hn ?] & Hs). split_and!; auto.
    intros w Hw. assert (node w ≠ node v) by (intros E; apply Hn; rewrite <- E; set_solver).
    specialize (Hs w). set_solver.
Qed.

End check_votes.

Lemma isValidator_elem s x : isValidatorLocked s x = true → x ∈ st_ValidatorSet s.
Proof.
  unfold isValidatorLocked. case_bool_decide; [done|].
  intros (y & Hy & E)%existsb_exists. apply bool_decide_eq_true in E as ->.
  by apply list_elem_of_In.
Qed.

(** The voters of a list of votes. *)
Definition voters {V} (node : V → string) (votes : list V) : gset string :=
  list_to_set (node <$> votes).

Lemma size_voters {V} (node : V → string) (votes : list V) :
  NoDup (node <$> votes) → size (voters node votes) = length votes.
Proof. intros. unfold voters. rewrite size_list_to_set by done. apply length_fmap. Qed.

(** A certificate that validates carries the votes of a quorum of validators,
    every one of them for the certificate's slot and block. *)
Record cert_facts {V} (s : State) (node : V → string) (matches : V → bool) (votes : list V) :
    Prop := {
  cf_nodup : NoDup (node <$> votes);
  cf_valid : ∀ v, v ∈ votes → node v ∈ st_ValidatorSet s ∧ matches v = true;
  cf_quorum : (Quorum (Z.of_nat (length (st_ValidatorSet s))) <= Z.of_nat (length votes))%Z;
}.

Lemma cert_facts_intro {V} s (node : V → string) matches e1 e2 e3 votes :
  check_votes (isValidatorLocked s) node matches e1 e2 e3 ∅ votes = None →
  (Z.of_nat (length votes) <? commitQuorumLocked s)%Z = false →
  cert_facts s node matches votes.
Proof.
  intros (Hf & Hn & _)%check_votes_None Hq%Z.ltb_ge. split; auto.
  intros v Hv. rewrite Forall_forall in Hf. destruct (Hf v Hv). split; auto.
  by apply isValidator_elem.
Qed.

Lemma cert_facts_voters {V} s (node : V → string) matches votes :
  cert_facts s node matches votes →
  voters node votes ⊆ list_to_set (st_ValidatorSet s) ∧
  (Quorum (Z.of_nat (length (st_ValidatorSet s))) <= Z.of_nat (size (voters node votes)))%Z.
Proof.
  intros [Hn Hv Hq]. rewrite size_voters by done. split; [|done].
  intros x. unfold voters. rewrite !elem_of_list_to_set, list_elem_of_fmap.
  intros (v & -> & Hin). by apply Hv.
Qed.

Lemma commit_cert_facts s cert :
  validateCommitCertificateLocked s cert = None →
  cert_facts s c_NodeID (commit_matches cert) (cc_Commits cert).
Proof.
  unfold validateCommitCertificateLocked. intros H. repeat case_match; try done.
  by eapply cert_facts_intro.
Qed.

Lemma commit_cert_slot s cert :
  validateCommitCertificateLocked s cert = None → cc_Sequence cert = cc_Height cert.
Proof.
  unfold validateCommitCertificateLocked. intros H.
  destruct (_ || _ || _ || (_ ≠? _)) eqn:E; [done|].
  apply orb_false_elim in E as [_ E]. by apply negb_false_iff, bool_decide_eq_true in E.
Qed.

Lemma prepared_cert_facts s cert :
  validatePreparedCertificateLocked s cert = None →
  cert_facts s p_NodeID (prepare_matches cert) (pc_Prepares cert).
Proof.
  unfold validatePreparedCertificateLocked. intros H. repeat case_match; try done.
  by eapply cert_facts_intro.
Qed.

Lemma cert_facts_overlap {V W} s (n1 : V → string) (n2 : W → string) m1 m2 vs1 vs2 :
  (0 < length (st_ValidatorSet s))%nat → sane_count (Z.of_nat (length (st_ValidatorSet s))) →
  cert_facts s n1 m1 vs1 → cert_facts s n2 m2 vs2 →
  ∃ E : gset string,
    (FaultTolerance (Z.of_nat (length (st_ValidatorSet s))) < Z.of_nat (size E))%Z ∧
    E ⊆ list_to_set (st_ValidatorSet s) ∧
    ∀ x, x ∈ E → ∃ v w, v ∈ vs1 ∧ w ∈ vs2 ∧ n1 v = x ∧ n2 w = x ∧ m1 v = true ∧ m2 w = true.
Proof.
  intros Hn Hs F1 F2.
  destruct (cert_facts_voters _ _ _ _ F1) as [HA QA], (cert_facts_voters _ _ _ _ F2) as [HB QB].
  exists (voters n1 vs1 ∩ voters n2 vs2). split_and!.
  - by apply quorum_sets_overlap.
  - set_solver.
  - intros x [Hx1 Hx2]%elem_of_intersection. unfold voters in *.
    apply elem_of_list_to_set, list_elem_of_fmap in Hx1 as (v & -> & Hv).
    apply elem_of_list_to_set, list_elem_of_fmap in Hx2 as (w & E & Hw). exists v, w.
    split_and!; auto; [by apply F1|by apply F2].
Qed.

Lemma commit_matches_spec cert v :
  commit_matches cert v = true ↔
  c_View v = cc_View cert ∧ c_Sequence v = cc_Sequence cert ∧ c_Height v = cc_Height cert ∧
  c_BlockHash v = cc_BlockHash cert.
Proof. unfold commit_matches. rewrite !andb_true_iff, !bool_decide_eq_true. tauto. Qed.

Lemma prepare_matches_spec cert v :
  prepare_matches cert v = true ↔
  p_View v = pc_View cert ∧ p_Sequence v = pc_Sequence cert ∧ p_Height v = pc_Height cert ∧
  p_BlockHash v = pc_BlockHash cert.
Proof. unfold prepare_matches. rewrite !andb_true_iff, !bool_decide_eq_true. tauto. Qed.

(** ** Agreement within a view *)

(** Two commit certificates of one view and sequence that both pass
    validation against the same validator set name the same block, as long as at
    most [FaultTolerance n] validators are faulty and a correct validator signs
    at most one COMMIT per view and sequence. *)
Lemma commit_certs_agree (s : State) (c1 c2 : CommitCertificate)
    (faulty : gset string) (signed : Commit → Prop) :
  st_ValidatorSet s ≠ [] → sane_count (Z.of_nat (length (st_ValidatorSet s))) →
  validateCommitCertificateLocked s c1 = None →
  validateCommitCertificateLocked s c2 = None →
  cc_View c1 = cc_View c2 → cc_Sequence c1 = cc_Sequence c2 →
  (∀ v, v ∈ cc_Commits c1 ++ cc_Commits c2 → signed v) →
  (Z.of_nat (size faulty) <= FaultTolerance (Z.of_nat (length (st_ValidatorSet s))))%Z →
  (∀ v w, signed v → signed w → c_NodeID v = c_NodeID w → c_NodeID v ∉ faulty →
          c_View v = c_View w → c_Sequence v = c_Sequence w → c_BlockHash v = c_BlockHash w) →
  cc_BlockHash c1 = cc_BlockHash c2.
Proof.
  intros Hne Hs V1 V2 Ev Es Hsig Hf Honest.
  destruct (cert_facts_overlap s _ _ _ _ _ _ ltac:(by destruct (st_ValidatorSet s); simpl; [|lia])
    Hs (commit_cert_facts _ _ V1) (commit_cert_facts _ _ V2)) as (E & HE & _ & Hx).
  destruct (larger_set_has_more E faulty) as (x & HxE & HxF); [lia|].
  destruct (Hx x HxE) as (v & w & Hv & Hw & Nv & Nw & Mv & Mw).
  apply commit_matches_spec in Mv as (? & ? & ? & <-), Mw as (? & ? & ? & <-).
  apply Honest; [apply Hsig, elem_of_app; auto..|congruence|congruence|congruence|congruence].
Qed.
