(* ===== verification/PbftInv.v ===== *)
(** * The replica invariant

    What holds of a replica's state after any sequence of operations: locks
    point at the blocks they name, votes are counted only for the current view
    and one slot per block, and every stored commit certificate validates. *)
From S2P Require Import Prelude GoStd Tx Block PbftTypes PbftState PbftCert.
Local Open Scope N_scope.

(** ** Votes, uniformly *)

Class Vote (V : Type) := {
  vt_View : V → N;
  vt_Sequence : V → N;
  vt_Height : V → N;
  vt_NodeID : V → string;
  vt_BlockHash : V → string;
}.
#[global] Instance Prepare_Vote : Vote Prepare :=
  { vt_View := p_View; vt_Sequence := p_Sequence; vt_Height := p_Height;
    vt_NodeID := p_NodeID; vt_BlockHash := p_BlockHash }.
#[global] Instance Commit_Vote : Vote Commit :=
  { vt_View := c_View; vt_Sequence := c_Sequence; vt_Height := c_Height;
    vt_NodeID := c_NodeID; vt_BlockHash := c_BlockHash }.

Lemma slotKey_inj v1 q1 v2 q2 : slotKey v1 q1 = slotKey v2 q2 → v1 = v2 ∧ q1 = q2.
Proof.
  unfold slotKey. intros E.
  destruct (digits_sep_inj (pad20 v1) (pad20 v2) ":"%char (pad20 q1) (pad20 q2)) as [E1 E2];
    auto using pad20_digits.
  by apply (inj pad20) in E1, E2.
Qed.

(** ** The parts of the invariant *)

Section parts.
(** [univ] are the blocks that occur in the messages a replica handles; no two
    of them at different heights have the same hash. *)
Context (univ : Block → Prop).

Definition locked_ok (L : gmap string Block) : Prop :=
  ∀ h b, L !! h = Some b → BlockHash b = h ∧ Hash b = h ∧ h ≠ "" ∧ univ b.

(** A slot of the current view is locked on a block of its height. *)
Definition slots_ok (view : N) (L : gmap string Block) (P : gmap string string) : Prop :=
  ∀ slot h, P !! slot = Some h →
    ∃ b, L !! h = Some b ∧ slot = slotKey view (Height b) ∧ Height b ≠ 0.

(** A counted vote: cast by the validator it is filed under, in this view, for
    this block, at the block's height. *)
Definition votes_ok {V} `{Vote V} (valid : string → bool) (view : N)
    (L : gmap string Block) (M : gmap string (gmap string V)) : Prop :=
  ∀ h m n v, M !! h = Some m → m !! n = Some v →
    valid n = true ∧ vt_NodeID v = n ∧ vt_View v = view ∧ vt_BlockHash v = h ∧
    vt_Sequence v = vt_Height v ∧
    ∃ b, L !! h = Some b ∧ vt_Height v = Height b.

(** A buffered vote is filed under its own slot of the current view. *)
Definition early_ok {V} `{Vote V} (valid : string → bool) (view : N)
    (M : gmap string (gmap string V)) : Prop :=
  ∀ slot m n v, M !! slot = Some m → m !! n = Some v →
    valid n = true ∧ vt_NodeID v = n ∧ vt_View v = view ∧
    vt_Sequence v = vt_Height v ∧ slot = slotKey view (vt_Height v).

Definition certs_ok (s : State) (C : gmap N CommitCertificate) : Prop :=
  ∀ q c, C !! q = Some c → cc_Height c = q ∧ validateCommitCertificateLocked s c = None.

Definition committed_ok (C : gmap N Block) : Prop :=
  ∀ q b, C !! q = Some b → Height b = q ∧ BlockHash b ≠ "".

(** ** How the map updates of the handlers act on the parts *)

Context (univ_hash : ∀ b1 b2, univ b1 → univ b2 → Hash b1 = Hash b2 → Height b1 = Height b2).

(** Locking a block again, or a further block, keeps the height every hash is
    locked at. *)
Lemma locked_insert L b :
  locked_ok L → univ b → BlockHash b ≠ "" → Hash b = BlockHash b →
  locked_ok (<[BlockHash b := b]> L).
Proof.
  intros HL Hu Hne Hh h b' [[<- <-]|[? Hb']]%lookup_insert_Some; [done|]. by apply HL.
Qed.

Lemma locked_insert_height L b h b0 :
  locked_ok L → univ b → Hash b = BlockHash b → L !! h = Some b0 →
  ∃ b1, <[BlockHash b := b]> L !! h = Some b1 ∧ Height b1 = Height b0.
Proof.
  intros HL Hu Hh Hb0. destruct (decide (h = BlockHash b)) as [->|Hne].
  - exists b. rewrite lookup_insert_eq. split; [done|].
    destruct (HL _ _ Hb0) as (? & ? & ? & ?). apply univ_hash; congruence.
  - exists b0. by rewrite lookup_insert_ne by done.
Qed.

Lemma slots_insert view L P b :
  locked_ok L → slots_ok view L P → univ b → Hash b = BlockHash b → Height b ≠ 0 →
  slots_ok view (<[BlockHash b := b]> L)
    (<[slotKey view (Height b) := BlockHash b]> P).
Proof.
  intros HL HP Hu Hh Hz slot h [[<- <-]|[Hne Hs]]%lookup_insert_Some.
  - exists b. by rewrite lookup_insert_eq.
  - destruct (HP _ _ Hs) as (b0 & Hb0 & -> & Hz0).
    destruct (locked_insert_height L b h b0) as (b1 & Hb1 & E); auto.
    exists b1. rewrite E. auto.
Qed.

Section votes.
Context {V : Type} `{Vote V}.

Lemma votes_lock valid view L b (M : gmap string (gmap string V)) :
  locked_ok L → univ b → Hash b = BlockHash b →
  votes_ok valid view L M → votes_ok valid view (<[BlockHash b := b]> L) M.
Proof.
  intros HL Hu Hh HM h m n v Hm Hv.
  destruct (HM _ _ _ _ Hm Hv) as (? & ? & ? & ? & ? & b0 & Hb0 & ?). split_and!; auto.
  destruct (locked_insert_height L b h b0) as (b1 & Hb1 & E); auto.
  exists b1. rewrite E. auto.
Qed.

(** A fresh vote, or a batch of them, for a locked block. *)
Lemma votes_add valid view L h b new (M : gmap string (gmap string V)) :
  votes_ok valid view L M → L !! h = Some b →
  (∀ n v, new !! n = Some v →
     valid n = true ∧ vt_NodeID v = n ∧ vt_View v = view ∧ vt_BlockHash v = h ∧
     vt_Sequence v = vt_Height v ∧ vt_Height v = Height b) →
  votes_ok valid view L (<[h := new ∪ inner M h]> M).
Proof.
  intros HM Hb Hnew h' m n v [[<- <-]|[Hne Hm]]%lookup_insert_Some Hv; [|by eapply HM].
  apply lookup_union_Some_raw in Hv as [Hv|[_ Hv]].
  - destruct (Hnew _ _ Hv) as (? & ? & ? & ? & ? & ?). eauto 10.
  - unfold inner in Hv. destruct (M !! h) as [m0|] eqn:E; simpl in Hv; [|done].
    by eapply HM.
Qed.

Lemma votes_keep valid view L (f : string → bool) (M : gmap string (gmap string V)) :
  votes_ok valid view L M →
  votes_ok valid view (map_keep (λ h _, f h) L) (map_keep (λ h _, f h) M).
Proof.
  intros HM h m n v [Hm Hf]%lookup_map_keep_Some Hv.
  destruct (HM _ _ _ _ Hm Hv) as (? & ? & ? & ? & ? & b & ? & ?). split_and!; auto.
  exists b. rewrite lookup_map_keep_Some. auto.
Qed.

Lemma early_insert valid view slot msg (M : gmap string (gmap string V)) :
  early_ok valid view M → valid (vt_NodeID msg) = true → vt_View msg = view →
  vt_Sequence msg = vt_Height msg → slot = slotKey view (vt_Height msg) →
  early_ok valid view (<[slot := <[vt_NodeID msg := msg]> (inner M slot)]> M).
Proof.
  intros HM Hv1 Hv2 Hv3 -> slot' m n v [[<- <-]|[Hne Hm]]%lookup_insert_Some Hv; [|by eapply HM].
  apply lookup_insert_Some in Hv as [[<- <-]|[Hne Hv]]; [by auto|].
  unfold inner in Hv. destruct (M !! _) as [m0|] eqn:E; simpl in Hv; [|done]. by eapply HM.
Qed.

Lemma early_sub valid view (M M' : gmap string (gmap string V)) :
  early_ok valid view M → M' ⊆ M → early_ok valid view M'.
Proof. intros HM Hsub slot m n v Hm Hv. eapply HM; [|done]. by eapply lookup_weaken. Qed.

Lemma votes_empty valid view L : votes_ok valid view L (∅ : gmap string (gmap string V)).
Proof. intros h m n v. by rewrite lookup_empty. Qed.

Lemma early_empty valid view : early_ok valid view (∅ : gmap string (gmap string V)).
Proof. intros h m n v. by rewrite lookup_empty. Qed.

End votes.

Lemma map_keep_sub `{Countable K} {A} (f : K → A → bool) (m : gmap K A) : map_keep f m ⊆ m.
Proof. apply map_subseteq_spec. intros k v [? _]%lookup_map_keep_Some. done. Qed.

End parts.

(** ** Certificates assembled from a vote map *)

Lemma elem_of_sorted_votes {V} (votes : gmap string V) v :
  v ∈ sorted_votes votes ↔ ∃ n, votes !! n = Some v.
Proof.
  unfold sorted_votes. rewrite list_elem_of_omap. split; [naive_solver|].
  intros [n Hn]. exists n. split; [|done]. apply elem_of_sorted_keys. eauto.
Qed.

Lemma sorted_votes_nodes {V} (node : V → string) (votes : gmap string V) :
  (∀ n v, votes !! n = Some v → node v = n) →
  node <$> sorted_votes votes = sorted_keys votes.
Proof.
  intros Hn. unfold sorted_votes.
  assert (∀ k, k ∈ sorted_keys votes → is_Some (votes !! k)) as Hk
    by (intros k; apply elem_of_sorted_keys).
  induction (sorted_keys votes) as [|k ks IH]; [done|]. simpl.
  destruct (Hk k) as [v Hv]; [left|]. rewrite Hv. simpl. f_equal; [by apply Hn|].
  apply IH. intros k' Hk'. apply Hk. by right.
Qed.

Lemma length_sorted_votes {V} (votes : gmap string V) :
  length (sorted_votes votes) = size votes.
Proof.
  rewrite <- length_sorted_keys. unfold sorted_votes.
  assert (∀ k, k ∈ sorted_keys votes → is_Some (votes !! k)) as Hk
    by (intros k; apply elem_of_sorted_keys).
  induction (sorted_keys votes) as [|k ks IH]; [done|]. simpl.
  destruct (Hk k) as [v Hv]; [left|]. rewrite Hv. simpl. f_equal.
  apply IH. intros k' Hk'. apply Hk. by right.
Qed.

Lemma check_sorted_votes {V} s (node : V → string) matches e1 e2 e3 (votes : gmap string V) :
  (∀ n v, votes !! n = Some v →
     node v = n ∧ isValidatorLocked s n = true ∧ matches v = true) →
  check_votes (isValidatorLocked s) node matches e1 e2 e3 ∅ (sorted_votes votes) = None.
Proof.
  intros Hv. apply check_votes_None. split_and!.
  - apply Forall_forall. intros v [n Hn]%elem_of_sorted_votes.
    destruct (Hv _ _ Hn) as (-> & ? & ?). done.
  - rewrite sorted_votes_nodes by (intros; by apply Hv). apply NoDup_sorted_keys.
  - intros v _. apply not_elem_of_empty.
Qed.

(** ** The invariant *)

Section invariant.
Context (univ : Block → Prop).
Context (univ_hash : ∀ b1 b2, univ b1 → univ b2 → Hash b1 = Hash b2 → Height b1 = Height b2).

(** A prepared certificate whose identity a full certificate backs, with its
    block beside it. *)
Definition backed (s : State) (c : PreparedCertificate) : Prop :=
  ∃ votes, validatePreparedCertificateLocked s
    (MkPreparedCert (pc_View c) (pc_Sequence c) (pc_Height c) (pc_BlockHash c) votes) = None.

Definition prepared_ok (s : State) : Prop :=
  ∀ q c, st_PreparedByHeight s !! q = Some c →
    pc_Height c = q ∧ pc_Sequence c = q ∧ backed s c ∧
    ∃ b, st_PreparedBlocks s !! q = Some b ∧ BlockHash b = pc_BlockHash c ∧
         Hash b = pc_BlockHash c ∧ Height b = q ∧ univ b.

Record wf (s : State) : Prop := {
  wf_locked : locked_ok univ (st_LockedBlocks s);
  wf_slots : slots_ok (st_ViewID s) (st_LockedBlocks s) (st_PrePrepareBySlot s);
  wf_prepares : votes_ok (isValidatorLocked s) (st_ViewID s) (st_LockedBlocks s)
                  (st_PrepareVotes s);
  wf_commits : votes_ok (isValidatorLocked s) (st_ViewID s) (st_LockedBlocks s)
                 (st_CommitVotes s);
  wf_early_prepares : early_ok (isValidatorLocked s) (st_ViewID s) (st_EarlyPrepareVotes s);
  wf_early_commits : early_ok (isValidatorLocked s) (st_ViewID s) (st_EarlyCommitVotes s);
  wf_certs : certs_ok s (st_CommitCertificates s);
  wf_committed : committed_ok (st_CommittedBlocks s);
  wf_prepared : prepared_ok s;
  wf_stable : st_LowWatermark s = cpc_Height (st_StableCheckpoint s);
}.

(** The invariant only reads these fields. *)
Definition core (s : State) :=
  (st_ValidatorSet s, st_ViewID s, st_LockedBlocks s, st_PrePrepareBySlot s,
   (st_PrepareVotes s, st_CommitVotes s, st_EarlyPrepareVotes s, st_EarlyCommitVotes s),
   (st_CommitCertificates s, st_CommittedBlocks s, st_PreparedByHeight s, st_PreparedBlocks s),
   (st_LowWatermark s, st_StableCheckpoint s)).

Lemma isValidator_ext s s' :
  st_ValidatorSet s = st_ValidatorSet s' → isValidatorLocked s = isValidatorLocked s'.
Proof. intros E. unfold isValidatorLocked. by rewrite E. Qed.

Lemma validateCommitCertificate_ext s s' c :
  st_ValidatorSet s = st_ValidatorSet s' →
  validateCommitCertificateLocked s c = validateCommitCertificateLocked s' c.
Proof.
  intros E. unfold validateCommitCertificateLocked, commitQuorumLocked.
  by rewrite E, (isValidator_ext _ _ E).
Qed.

Lemma validatePreparedCertificate_ext s s' c :
  st_ValidatorSet s = st_ValidatorSet s' →
  validatePreparedCertificateLocked s c = validatePreparedCertificateLocked s' c.
Proof.
  intros E. unfold validatePreparedCertificateLocked, prepareQuorumLocked.
  by rewrite E, (isValidator_ext _ _ E).
Qed.

Lemma wf_core s s' : core s' = core s → wf s → wf s'.
Proof.
  unfold core. intros E. injection E as Ev Eview EL EP EV EC EEV EEC ECC ECB EPH EPB ELW ESC.
  intros [W1 W2 W3 W4 W5 W6 W7 W8 W9 W10].
  constructor; rewrite ?(isValidator_ext _ _ Ev), ?Eview, ?EL, ?EP, ?EV, ?EC, ?EEV, ?EEC,
    ?ECC, ?ECB, ?ELW, ?ESC; auto.
  - intros q c Hc. rewrite (validateCommitCertificate_ext _ _ _ Ev). by apply W7.
  - intros q c. rewrite EPH, EPB. intros Hc. destruct (W9 q c Hc) as (? & ? & [vs Hvs] & ?).
    split_and!; auto. exists vs. by rewrite (validatePreparedCertificate_ext _ _ _ Ev).
Qed.

(** One lemma per part of the state a handler changes. *)

Lemma wf_set_PrepareVotes s M :
  wf s → votes_ok (isValidatorLocked s) (st_ViewID s) (st_LockedBlocks s) M →
  wf (set_PrepareVotes M s).
Proof. intros [] HM. constructor; assumption. Qed.

Lemma wf_set_CommitVotes s M :
  wf s → votes_ok (isValidatorLocked s) (st_ViewID s) (st_LockedBlocks s) M →
  wf (set_CommitVotes M s).
Proof. intros [] HM. constructor; assumption. Qed.

Lemma wf_set_EarlyPrepareVotes s M :
  wf s → early_ok (isValidatorLocked s) (st_ViewID s) M → wf (set_EarlyPrepareVotes M s).
Proof. intros [] HM. constructor; assumption. Qed.

Lemma wf_set_EarlyCommitVotes s M :
  wf s → early_ok (isValidatorLocked s) (st_ViewID s) M → wf (set_EarlyCommitVotes M s).
Proof. intros [] HM. constructor; assumption. Qed.

Lemma wf_set_CommitCertificates s q c :
  wf s → cc_Height c = q → validateCommitCertificateLocked s c = None →
  wf (set_CommitCertificates (<[q := c]> (st_CommitCertificates s)) s).
Proof.
  intros [] Hq Hc. constructor; try assumption; cbn.
  intros q' c' [[<- <-]|[? Hc']]%lookup_insert_Some; [done|]. by apply wf_certs0.
Qed.

Lemma wf_set_CommittedBlocks s q b :
  wf s → Height b = q → BlockHash b ≠ "" →
  wf (set_CommittedBlocks (<[q := b]> (st_CommittedBlocks s)) s).
Proof.
  intros [] Hq Hb. constructor; try assumption; cbn.
  intros q' b' [[<- <-]|[? Hb']]%lookup_insert_Some; [done|]. by apply wf_committed0.
Qed.

Lemma wf_drop_committed s f :
  wf s → wf (set_CommittedBlocks (map_keep f (st_CommittedBlocks s)) s).
Proof.
  intros []. constructor; try assumption; cbn. intros q b [Hb _]%lookup_map_keep_Some. by apply wf_committed0.
Qed.

(** Locking [b] for its slot of the current view. *)
Lemma wf_lock s b :
  wf s → univ b → Hash b = BlockHash b → BlockHash b ≠ "" → Height b ≠ 0 →
  wf (set_LockedBlocks (<[BlockHash b := b]> (st_LockedBlocks s))
       (set_PrePrepareBySlot
          (<[slotKey (st_ViewID s) (Height b) := BlockHash b]> (st_PrePrepareBySlot s)) s)).
Proof.
  intros [] ? ? ? ?. constructor; try assumption; cbn.
  - by apply locked_insert.
  - by eapply slots_insert.
  - by eapply votes_lock.
  - by eapply votes_lock.
Qed.

(** Dropping locked blocks with their votes, once no slot needs them. *)
Lemma wf_unlock s height :
  wf s →
  (∀ slot h, st_PrePrepareBySlot s !! slot = Some h → hash_done s height h = false) →
  wf (unlock_upto height s).
Proof.
  intros [] Hslots. unfold unlock_upto. constructor; try assumption; cbn.
  - intros h b [Hb _]%lookup_map_keep_Some. by apply wf_locked0.
  - intros slot h Hs. destruct (wf_slots0 _ _ Hs) as (b & ? & ? & ?). exists b.
    rewrite lookup_map_keep_Some, (Hslots _ _ Hs). auto.
  - apply (votes_keep _ _ _ (λ h, negb (hash_done s height h))), wf_prepares0.
  - apply (votes_keep _ _ _ (λ h, negb (hash_done s height h))), wf_commits0.
Qed.

Lemma wf_drop_slots s f :
  wf s → wf (set_PrePrepareBySlot (map_keep (λ k _, f k) (st_PrePrepareBySlot s)) s).
Proof.
  intros []. constructor; try assumption; cbn. intros slot h [Hs _]%lookup_map_keep_Some. by apply wf_slots0.
Qed.

Lemma wf_set_prepared s P B :
  wf s →
  (∀ q c, P !! q = Some c →
     pc_Height c = q ∧ pc_Sequence c = q ∧ backed s c ∧
     ∃ b, B !! q = Some b ∧ BlockHash b = pc_BlockHash c ∧ Hash b = pc_BlockHash c ∧
          Height b = q ∧ univ b) →
  wf (set_PreparedBlocks B (set_PreparedByHeight P s)).
Proof. intros [] HP. constructor; assumption. Qed.

End invariant.
