(* ===== verification/PbftSteps.v ===== *)
(** * Every operation keeps the invariant

    The operations of a replica as one step function, what each of them leaves
    behind, and the invariant of every reachable state. *)
From S2P Require Import Prelude GoStd Tx Block PbftTypes PbftState PbftCert PbftInv.
Local Open Scope N_scope.
#[local] Opaque Hash slotKey pad20.

Ltac case_if :=
  match goal with
  | H : context [if ?c then _ else _] |- _ => destruct c eqn:?
  | |- context [if ?c then _ else _] => destruct c eqn:?
  end.

Ltac bool_props :=
  repeat match goal with
  | H : _ || _ = false |- _ => apply orb_false_elim in H as [? ?]
  | H : _ && _ = true |- _ => apply andb_prop in H as [? ?]
  | H : negb _ = false |- _ => apply negb_false_iff in H
  | H : negb _ = true |- _ => apply negb_true_iff in H
  | H : bool_decide _ = true |- _ => apply bool_decide_eq_true in H
  | H : bool_decide _ = false |- _ => apply bool_decide_eq_false in H
  | H : (_ <=? _) = true |- _ => apply N.leb_le in H
  | H : (_ <=? _) = false |- _ => apply N.leb_gt in H
  | H : (_ <? _) = true |- _ => apply N.ltb_lt in H
  | H : (_ <? _) = false |- _ => apply N.ltb_ge in H
  | H : (_ <=? _)%Z = true |- _ => apply Z.leb_le in H
  | H : (_ <? _)%Z = false |- _ => apply Z.ltb_ge in H
  end.

(** ** What an accepted PRE-PREPARE satisfies *)

Record preprepare_facts (s : State) (msg : PrePrepare) : Prop := {
  pf_view : pp_View msg = st_ViewID s;
  pf_leader : leaderForViewLocked s (st_ViewID s) = Some (pp_LeaderID msg);
  pf_seq : pp_Sequence msg = pp_Height msg;
  pf_height : pp_Height msg = Height (pp_Block msg);
  pf_nonzero : Height (pp_Block msg) ≠ 0;
  pf_hash : pp_BlockHash msg = BlockHash (pp_Block msg);
  pf_digest : Hash (pp_Block msg) = BlockHash (pp_Block msg);
  pf_nonempty : BlockHash (pp_Block msg) ≠ "";
  pf_marks : inWatermarksLocked s (pp_Height msg) = true;
  pf_lock : ∀ h, st_PrePrepareBySlot s !! slotKey (st_ViewID s) (pp_Height msg) = Some h →
            h ≠ "" → h = pp_BlockHash msg;
  pf_prepared : ∀ c, st_PreparedByHeight s !! pp_Height msg = Some c →
                pc_BlockHash c ≠ "" → pc_BlockHash c = pp_BlockHash msg;
}.

Lemma validatePrePrepare_facts s msg :
  validatePrePrepareLocked s msg = Some None → preprepare_facts s msg.
Proof.
  unfold validatePrePrepareLocked. intros H. case_if; [done|]. bool_props.
  destruct (leaderForViewLocked s (pp_View msg)) as [l|] eqn:Hl; [|done]. simpl in H.
  injection H as H. repeat (case_if; [done|]). bool_props.
  constructor; try congruence.
  - intros h Hh Hne. rewrite <- Heqb, <- H4 in *. rewrite Hh in Heqb5. simpl in Heqb5.
    apply andb_false_iff in Heqb5 as [E|E]; bool_props; congruence.
  - intros c Hc Hne. rewrite Hc in Heqb6.
    apply andb_false_iff in Heqb6 as [E|E]; bool_props; congruence.
Qed.

Section steps.
Context (univ : Block → Prop).
Context (univ_hash : ∀ b1 b2, univ b1 → univ b2 → Hash b1 = Hash b2 → Height b1 = Height b2).
Abbreviation wf := (wf univ).

(** ** PRE-PREPARE *)

Lemma wf_replay_prepares s slot h b :
  wf s → st_LockedBlocks s !! h = Some b → slot = slotKey (st_ViewID s) (Height b) →
  wf (replay_prepares slot h s).
Proof.
  intros W Hb ->. unfold replay_prepares.
  destruct (st_EarlyPrepareVotes s !! _) as [votes|] eqn:Hv; [|done].
  case_if; [done|].
  apply wf_set_EarlyPrepareVotes; [|apply (early_sub _ _ (st_EarlyPrepareVotes s));
    [apply W|apply delete_subseteq]].
  set (chosen := map_keep _ votes).
  apply (wf_core _ (set_PrepareVotes
    (<[h := chosen ∪ inner (st_PrepareVotes s) h]> (st_PrepareVotes s)) s)); [reflexivity|].
  apply wf_set_PrepareVotes; [done|].
  eapply votes_add; [apply W|done|].
  intros n v [Hn Hh]%lookup_map_keep_Some. bool_props.
  destruct (wf_early_prepares _ _ W _ _ _ _ Hv Hn) as (? & ? & ? & ? & E).
  apply slotKey_inj in E as [_ E]. cbn in *. split_and!; auto.
Qed.

Lemma wf_replay_commits s slot h b :
  wf s → st_LockedBlocks s !! h = Some b → slot = slotKey (st_ViewID s) (Height b) →
  wf (replay_commits slot h s).
Proof.
  intros W Hb ->. unfold replay_commits.
  destruct (st_EarlyCommitVotes s !! _) as [votes|] eqn:Hv; [|done].
  case_if; [done|].
  apply wf_set_EarlyCommitVotes; [|apply (early_sub _ _ (st_EarlyCommitVotes s));
    [apply W|apply delete_subseteq]].
  set (chosen := map_keep _ votes).
  apply (wf_core _ (set_CommitVotes
    (<[h := chosen ∪ inner (st_CommitVotes s) h]> (st_CommitVotes s)) s)); [reflexivity|].
  apply wf_set_CommitVotes; [done|].
  eapply votes_add; [apply W|done|].
  intros n v [Hn Hh]%lookup_map_keep_Some. bool_props.
  destruct (wf_early_commits _ _ W _ _ _ _ Hv Hn) as (? & ? & ? & ? & E).
  apply slotKey_inj in E as [_ E]. cbn in *. split_and!; auto.
Qed.

Lemma replay_prepares_frame slot h s :
  st_LockedBlocks (replay_prepares slot h s) = st_LockedBlocks s ∧
  st_ViewID (replay_prepares slot h s) = st_ViewID s ∧
  st_PrePrepareBySlot (replay_prepares slot h s) = st_PrePrepareBySlot s.
Proof. unfold replay_prepares. by repeat case_match. Qed.

Lemma replay_commits_frame slot h s :
  st_LockedBlocks (replay_commits slot h s) = st_LockedBlocks s ∧
  st_ViewID (replay_commits slot h s) = st_ViewID s ∧
  st_PrePrepareBySlot (replay_commits slot h s) = st_PrePrepareBySlot s.
Proof. unfold replay_commits. by repeat case_match. Qed.

Lemma wf_replayEarlyVotes s slot h b :
  wf s → st_LockedBlocks s !! h = Some b → slot = slotKey (st_ViewID s) (Height b) →
  wf (replayEarlyVotesLocked slot h s).
Proof.
  intros W Hb Hs. unfold replayEarlyVotesLocked.
  destruct (replay_prepares_frame slot h s) as (F1 & F2 & _).
  eapply wf_replay_commits; [by eapply wf_replay_prepares|by rewrite F1|by rewrite F2].
Qed.

(** The state in which the early votes of an accepted PRE-PREPARE are replayed. *)
Definition preprepare_locked (msg : PrePrepare) (s : State) : State :=
  set_LockedBlocks (<[pp_BlockHash msg := pp_Block msg]> (st_LockedBlocks s))
    (set_SequenceID (pp_Sequence msg) (set_Height (pp_Height msg)
      (set_PrePrepareBySlot (<[slotKey (pp_View msg) (pp_Sequence msg) := pp_BlockHash msg]>
         (st_PrePrepareBySlot s)) s))).

Lemma wf_preprepare_locked msg s :
  wf s → univ (pp_Block msg) → preprepare_facts s msg → wf (preprepare_locked msg s).
Proof.
  intros W Hu [Pv _ Ps Ph Pz PH Pd Pn _ _ _]. unfold preprepare_locked.
  rewrite Pv, Ps, Ph, PH.
  eapply wf_core; [|apply (wf_lock univ univ_hash s (pp_Block msg) W Hu Pd Pn Pz)]. reflexivity.
Qed.

Lemma OnPrePrepare_state now msg s :
  validatePrePrepareLocked s msg = Some None →
  ∃ s' r, OnPrePrepare now msg s = Some (s', (r, None)) ∧
    core s' = core (replayEarlyVotesLocked (slotKey (pp_View msg) (pp_Sequence msg))
                     (pp_BlockHash msg) (preprepare_locked msg s)).
Proof.
  intros Hv. unfold OnPrePrepare. rewrite Hv. cbn [mbind option_bind].
  change (set_LockedBlocks _ _) with (preprepare_locked msg s).
  generalize (replayEarlyVotesLocked (slotKey (pp_View msg) (pp_Sequence msg))
    (pp_BlockHash msg) (preprepare_locked msg s)). intros s2.
  case_if; eauto.
Qed.

Lemma wf_OnPrePrepare now msg s s' r :
  wf s → univ (pp_Block msg) → OnPrePrepare now msg s = Some (s', r) → wf s'.
Proof.
  intros W Hu E. destruct (validatePrePrepareLocked s msg) as [[e|]|] eqn:Hval.
  - unfold OnPrePrepare in E. rewrite Hval in E. by simplify_eq/=.
  - destruct (OnPrePrepare_state now msg s Hval) as (s1 & p & E1 & Hc).
    rewrite E in E1. injection E1 as -> ->. apply (wf_core _ _ _ Hc).
    apply validatePrePrepare_facts in Hval as F.
    apply (wf_replayEarlyVotes _ _ _ (pp_Block msg)); [by apply wf_preprepare_locked| |].
    + apply lookup_insert_eq.
    + destruct F. unfold preprepare_locked. cbn [st_ViewID set_LockedBlocks set_SequenceID set_Height set_PrePrepareBySlot]. congruence.
  - unfold OnPrePrepare in E. by rewrite Hval in E.
Qed.

(** ** Votes *)

Lemma slot_block s v q h :
  wf s → v = st_ViewID s → default "" (st_PrePrepareBySlot s !! slotKey v q) = h → h ≠ "" →
  ∃ b, st_LockedBlocks s !! h = Some b ∧ Height b = q ∧ q ≠ 0.
Proof.
  intros W -> Hh Hne. destruct (st_PrePrepareBySlot s !! _) as [h'|] eqn:E; simpl in Hh;
    [|by subst]. subst h'. destruct (wf_slots _ _ W _ _ E) as (b & Hb & Hk & Hz).
  apply slotKey_inj in Hk as [_ ->]. eauto.
Qed.

Lemma wf_bufferEarlyPrepare s msg slot :
  wf s → isValidatorLocked s (p_NodeID msg) = true → p_View msg = st_ViewID s →
  p_Sequence msg = p_Height msg → slot = slotKey (st_ViewID s) (p_Height msg) →
  wf (bufferEarlyPrepareLocked slot msg s).1.
Proof.
  intros W ? ? ? ->. unfold bufferEarlyPrepareLocked.
  assert (wf (set_EarlyPrepareVotes (<[slotKey (st_ViewID s) (p_Height msg) :=
    <[p_NodeID msg := msg]> (inner (st_EarlyPrepareVotes s)
       (slotKey (st_ViewID s) (p_Height msg)))]> (st_EarlyPrepareVotes s)) s)) as W'.
  { apply wf_set_EarlyPrepareVotes; [done|].
    by refine (early_insert _ _ _ msg _ (wf_early_prepares _ _ W) _ _ _ eq_refl). }
  by repeat case_match.
Qed.

Lemma wf_bufferEarlyCommit s msg slot :
  wf s → isValidatorLocked s (c_NodeID msg) = true → c_View msg = st_ViewID s →
  c_Sequence msg = c_Height msg → slot = slotKey (st_ViewID s) (c_Height msg) →
  wf (bufferEarlyCommitLocked slot msg s).1.
Proof.
  intros W ? ? ? ->. unfold bufferEarlyCommitLocked.
  assert (wf (set_EarlyCommitVotes (<[slotKey (st_ViewID s) (c_Height msg) :=
    <[c_NodeID msg := msg]> (inner (st_EarlyCommitVotes s)
       (slotKey (st_ViewID s) (c_Height msg)))]> (st_EarlyCommitVotes s)) s)) as W'.
  { apply wf_set_EarlyCommitVotes; [done|].
    by refine (early_insert _ _ _ msg _ (wf_early_commits _ _ W) _ _ _ eq_refl). }
  by repeat case_match.
Qed.

Lemma wf_store_prepared s cert b :
  wf s → validatePreparedCertificateLocked s cert = None → pc_Sequence cert = pc_Height cert →
  st_LockedBlocks s !! pc_BlockHash cert = Some b → Height b = pc_Height cert →
  wf (store_prepared_cert cert s).
Proof.
  intros W Hc Hs Hb Hh. unfold store_prepared_cert. case_if; [|done].
  destruct (wf_locked _ _ W _ _ Hb) as (B1 & B2 & B3 & B4).
  unfold locked_block. cbn [st_LockedBlocks set_PreparedByHeight]. rewrite Hb. simpl.
  rewrite bool_decide_eq_false_2 by congruence. simpl.
  eapply wf_core; [|eapply (wf_set_prepared univ s
    (<[pc_Height cert := cert]> (st_PreparedByHeight s))
    (<[pc_Height cert := b]> (st_PreparedBlocks s)))]; [reflexivity|done|].
  intros q c [[<- <-]|[Hne Hq]]%lookup_insert_Some.
  - split_and!; auto; [exists (pc_Prepares cert); by destruct cert|].
    exists b. rewrite lookup_insert_eq. split_and!; auto.
  - rewrite lookup_insert_ne by done. by apply (wf_prepared _ _ W).
Qed.

(** The votes for a block after one more of them is in. *)
Lemma votes_add_one {V} `{Vote V} valid view L b (msg : V) (M : gmap string (gmap string V)) :
  votes_ok valid view L M → L !! vt_BlockHash msg = Some b →
  valid (vt_NodeID msg) = true → vt_View msg = view → vt_Sequence msg = vt_Height msg →
  vt_Height msg = Height b →
  votes_ok valid view L
    (<[vt_BlockHash msg := <[vt_NodeID msg := msg]> (inner M (vt_BlockHash msg))]> M).
Proof.
  intros HM Hb ? ? ? ?.
  rewrite (insert_union_singleton_l (inner M (vt_BlockHash msg))).
  eapply votes_add; [done|done|].
  intros n v [<- <-]%lookup_singleton_Some. by split_and!.
Qed.

(** Reading the votes of one block back: all of them match a certificate with
    the slot of any one of them. *)
Lemma votes_same_slot {V} `{Vote V} valid view L (M : gmap string (gmap string V)) h m msg n v :
  votes_ok valid view L M → M !! h = Some m →
  m !! vt_NodeID msg = Some msg → m !! n = Some v →
  valid n = true ∧ vt_NodeID v = n ∧ vt_View v = vt_View msg ∧ vt_Sequence v = vt_Sequence msg ∧
  vt_Height v = vt_Height msg ∧ vt_BlockHash v = h.
Proof.
  intros HM Hm Hmsg Hv.
  destruct (HM _ _ _ _ Hm Hmsg) as (? & ? & ? & ? & ? & b1 & ? & ?).
  destruct (HM _ _ _ _ Hm Hv) as (? & ? & ? & ? & ? & b2 & ? & ?).
  simplify_eq. split_and!; congruence.
Qed.

Lemma wf_AcceptPrepare now msg s : wf s → wf (AcceptPrepare now msg s).1.
Proof.
  intros W. unfold AcceptPrepare. do 4 (case_if; [done|]).
  bool_props. case_if; bool_props.
  { rewrite (surjective_pairing (bufferEarlyPrepareLocked _ _ _)). simpl.
    apply wf_bufferEarlyPrepare; try done. congruence. }
  case_if; [done|]. case_if; [by apply (wf_core _ s)|]. bool_props.
  destruct (slot_block s (p_View msg) (p_Sequence msg) (p_BlockHash msg)) as (b & Hb & Hh & Hz);
    [done|congruence|congruence|congruence|].
  set (s0 := set_PrepareBySlotNode _ s).
  assert (wf s0) as W0 by (eapply wf_core; [|exact W]; reflexivity).
  change (st_PrepareVotes s0) with (st_PrepareVotes s).
  set (votes := <[p_NodeID msg:=msg]> (inner (st_PrepareVotes s) (p_BlockHash msg))).
  set (s1 := set_PrepareVotes _ s0).
  assert (wf s1) as W1.
  { apply wf_set_PrepareVotes; [done|].
    refine (votes_add_one _ _ _ b msg _ (wf_prepares _ _ W0) Hb _ _ _ _);
      first [done|cbn; congruence]. }
  case_if; [|done]. bool_props.
  set (cert := MkPreparedCert _ _ _ _ _).
  apply (wf_core _ (store_prepared_cert cert s1)); [reflexivity|].
  apply (wf_store_prepared s1 _ b); [done| |cbn; congruence|done|cbn; congruence].
  unfold validatePreparedCertificateLocked. cbn [pc_BlockHash pc_Height pc_Sequence pc_Prepares].
  rewrite !bool_decide_eq_false_2 by (cbn; congruence). simpl.
  rewrite length_sorted_votes. destruct (Z.ltb_spec (Z.of_nat (size votes)) (prepareQuorumLocked s1));
    [lia|].
  apply check_sorted_votes. intros n v Hv.
  destruct (votes_same_slot (isValidatorLocked s1) (st_ViewID s1) (st_LockedBlocks s1)
    (st_PrepareVotes s1) (p_BlockHash msg) votes msg n v) as (? & ? & ? & ? & ? & ?);
    [apply W1|unfold s1; cbn; by rewrite lookup_insert_eq
    |unfold votes; cbn; by rewrite lookup_insert_eq|done|].
  split_and!; auto. by apply prepare_matches_spec.
Qed.

Lemma wf_AcceptCommit now msg s : wf s → wf (AcceptCommit now msg s).1.
Proof.
  intros W. unfold AcceptCommit. do 4 (case_if; [done|]).
  bool_props. case_if; bool_props.
  { rewrite (surjective_pairing (bufferEarlyCommitLocked _ _ _)). simpl.
    apply wf_bufferEarlyCommit; try done. congruence. }
  case_if; [done|]. case_if; [by apply (wf_core _ s)|]. bool_props.
  destruct (slot_block s (c_View msg) (c_Sequence msg) (c_BlockHash msg)) as (b & Hb & Hh & Hz);
    [done|congruence|congruence|congruence|].
  set (s0 := set_CommitBySlotNode _ s).
  assert (wf s0) as W0 by (eapply wf_core; [|exact W]; reflexivity).
  change (st_CommitVotes s0) with (st_CommitVotes s).
  set (votes := <[c_NodeID msg:=msg]> (inner (st_CommitVotes s) (c_BlockHash msg))).
  set (s1 := set_CommitVotes _ s0).
  assert (wf s1) as W1.
  { apply wf_set_CommitVotes; [done|].
    refine (votes_add_one _ _ _ b msg _ (wf_commits _ _ W0) Hb _ _ _ _);
      first [done|cbn; congruence]. }
  case_if; [|done]. bool_props.
  assert (locked_block s1 (c_BlockHash msg) = b) as Hlb
    by (unfold locked_block; change (st_LockedBlocks s1) with (st_LockedBlocks s); by rewrite Hb).
  rewrite Hlb in *. set (cert := MkCommitCert _ _ _ _ _).
  set (s2 := set_CommitCertificates (<[c_Height msg := cert]> (st_CommitCertificates s1)) s1).
  apply (wf_core _ (set_CommittedBlocks (<[Height b := b]> (st_CommittedBlocks s2)) s2));
    [reflexivity|].
  apply wf_set_CommittedBlocks; [|done|done].
  apply wf_set_CommitCertificates; [done|done|].
  unfold validateCommitCertificateLocked. cbn [cc_BlockHash cc_Height cc_Sequence cc_Commits].
  rewrite !bool_decide_eq_false_2 by (cbn; congruence).
  rewrite bool_decide_eq_true_2 by (cbn; congruence). simpl.
  rewrite length_sorted_votes. destruct (Z.ltb_spec (Z.of_nat (size votes)) (commitQuorumLocked s1));
    [lia|].
  apply check_sorted_votes. intros n v Hv.
  destruct (votes_same_slot (isValidatorLocked s1) (st_ViewID s1) (st_LockedBlocks s1)
    (st_CommitVotes s1) (c_BlockHash msg) votes msg n v) as (? & ? & ? & ? & ? & ?);
    [apply W1|unfold s1; cbn; by rewrite lookup_insert_eq
    |unfold votes; cbn; by rewrite lookup_insert_eq|done|].
  split_and!; auto. by apply commit_matches_spec.
Qed.

(** ** Commit certificates from other replicas, broadcasts, view changes *)

Lemma wf_AcceptCommitCertificate now cert b s :
  wf s → wf (AcceptCommitCertificate now cert b s).1.
Proof.
  intros W. unfold AcceptCommitCertificate.
  destruct (validateCommitCertificateLocked s cert) as [e|] eqn:Hc; [done|].
  case_if; [done|]. case_if; [done|]. bool_props.
  set (s1 := set_CommitCertificates (<[cc_Height cert := cert]> (st_CommitCertificates s)) s).
  apply (wf_core _ (set_CommittedBlocks (<[cc_Height cert := b]> (st_CommittedBlocks s1)) s1));
    [reflexivity|].
  apply wf_set_CommittedBlocks; [by apply wf_set_CommitCertificates|done|done].
Qed.

Lemma core_ShouldBroadcastCommit now v q h i s :
  core (ShouldBroadcastCommit now v q h i s).1 = core s.
Proof. unfold ShouldBroadcastCommit. by case_if. Qed.

Lemma core_MarkViewChangeBroadcast v s : core (MarkViewChangeBroadcast v s).1 = core s.
Proof. unfold MarkViewChangeBroadcast. by case_if. Qed.

Lemma core_BuildViewChange order v h s s' r :
  BuildViewChange order v h s = Some (s', r) → core s' = core s.
Proof.
  unfold BuildViewChange. case_if; [by intros [= <- _]|].
  destruct (leaderForViewLocked s v); [|done]. cbn.
  destruct (choose_prepared s order h) as [c b]. repeat case_match; by intros [= <- _].
Qed.

Lemma core_acceptViewChange msg s s' r :
  acceptViewChangeLocked msg s = Some (s', r) → core s' = core s.
Proof.
  unfold acceptViewChangeLocked. repeat (case_if; [by intros [= <- _]|]).
  destruct (leaderForViewLocked s (vc_NewView msg)); [|done]. cbn.
  repeat case_match; by intros [= <- _].
Qed.

Lemma wf_ConfigureCheckpoint interval window s : wf s → wf (ConfigureCheckpoint interval window s).
Proof.
  intros W. unfold ConfigureCheckpoint. repeat case_if; by apply (wf_core _ s).
Qed.

(** ** Durable commits *)

Lemma wf_MarkDurableCommit now b s : wf s → wf (MarkDurableCommit now b s).
Proof.
  intros W. unfold MarkDurableCommit. case_if; [done|]. bool_props.
  set (s1 := set_CommittedBlocks _ s).
  assert (wf s1) as W1 by by apply wf_set_CommittedBlocks.
  set (s2 := set_PreparedBlocks _ _).
  assert (wf s2) as W2.
  { apply wf_set_prepared; [done|]. intros q c [Hne Hc]%lookup_delete_Some.
    rewrite lookup_delete_ne by done. by apply (wf_prepared _ _ W1). }
  clearbody s2. clear s1 W1.
  set (s3 := set_PrePrepareBySlot _ _).
  assert (wf s3) as W3.
  { apply (wf_core _ (set_PrePrepareBySlot
      (map_keep (λ k _, negb (slot_done s2 (Height b) k)) (st_PrePrepareBySlot s2)) s2));
      [reflexivity|]. by apply wf_drop_slots. }
  apply (wf_core _ (unlock_upto (Height b) s3)); [reflexivity|].
  apply wf_unlock; [done|]. intros slot h [Hs Hd]%lookup_map_keep_Some.
  change (st_PrePrepareBySlot s2 !! slot = Some h) in Hs.
  change (hash_done s2 (Height b) h = false).
  destruct (wf_slots _ _ W2 _ _ Hs) as (b0 & Hb0 & _ & _).
  unfold slot_done in Hd. rewrite Hs in Hd. unfold locked_block in Hd. rewrite Hb0 in Hd.
  apply negb_true_iff in Hd. unfold hash_done. by rewrite Hb0.
Qed.

(** ** Checkpoints *)

(** The invariant without the demand that a slot's block is still locked: what
    holds between the unlocking of blocks and the removal of their slots. *)
Record wf_unslotted (s : State) : Prop := {
  wu_slots : ∀ slot h, st_PrePrepareBySlot s !! slot = Some h →
    h ≠ "" ∧ ∀ b, st_LockedBlocks s !! h = Some b →
      slot = slotKey (st_ViewID s) (Height b) ∧ Height b ≠ 0;
  wu_rest : wf (set_PrePrepareBySlot ∅ s);
}.

Lemma wf_unslotted_unlock height s : wf s → wf_unslotted (unlock_upto height s).
Proof.
  intros W. split.
  - intros slot h Hs. destruct (wf_slots _ _ W _ _ Hs) as (b & Hb & ? & ?).
    destruct (wf_locked _ _ W _ _ Hb) as (_ & _ & ? & _). split; [done|].
    intros b' [Hb' _]%lookup_map_keep_Some.
    change (st_LockedBlocks s !! h = Some b') in Hb'. by simplify_eq.
  - assert (wf (set_PrePrepareBySlot ∅ s)) as W0 by (destruct W; by constructor).
    exact (wf_unlock univ _ height W0 (λ slot h H, ltac:(done))).
Qed.

Lemma wf_prune_prepared height s : wf_unslotted s → wf_unslotted (prune_prepared height s).
Proof.
  intros [Hs W]. split; [exact Hs|]. destruct W as [L1 L2 L3 L4 L5 L6 L7 L8 L9 L10].
  constructor; try assumption.
  - intros q b [Hb _]%lookup_map_keep_Some. by apply L8.
  - intros q c [Hc Hq]%lookup_map_keep_Some.
    destruct (L9 q c Hc) as (? & ? & ? & b & Hb & ?). split_and!; auto.
    exists b. split; [|done]. apply lookup_map_keep_Some. split; [done|].
    apply negb_true_iff in Hq. by rewrite Hq.
Qed.

Lemma wf_prune_slots height s : wf_unslotted s → wf (prune_slots height s).
Proof.
  intros [Hs W]. destruct W as [L1 L2 L3 L4 L5 L6 L7 L8 L9 L10]. constructor; try assumption.
  - intros slot h [Hh Hst]%lookup_map_keep_Some. apply negb_true_iff in Hst.
    change (st_PrePrepareBySlot s !! slot = Some h) in Hh.
    destruct (Hs _ _ Hh) as [_ Hb]. unfold slot_stale, locked_block in Hst. rewrite Hh in Hst.
    destruct (st_LockedBlocks s !! h) as [b|] eqn:E; [|done]. exists b. auto.
  - eapply early_sub; [exact L5|apply map_keep_sub].
  - eapply early_sub; [exact L6|apply map_keep_sub].
Qed.

Lemma wf_prune_votes height s : wf s → wf (prune_votes height s).
Proof.
  intros W. apply (wf_core _ (set_EarlyCommitVotes
    (map_keep (λ _, keep_first (λ v, c_Height v <=? height)) (st_EarlyCommitVotes s))
    (set_EarlyPrepareVotes
      (map_keep (λ _, keep_first (λ v, p_Height v <=? height)) (st_EarlyPrepareVotes s)) s)));
    [reflexivity|].
  apply wf_set_EarlyCommitVotes; [apply wf_set_EarlyPrepareVotes; [done|]|];
    (eapply early_sub; [apply W|apply map_keep_sub]).
Qed.

Lemma core_drop_views v s : core (drop_views v s) = core s.
Proof. reflexivity. Qed.

Lemma wf_pruneStable height s : wf s → wf (pruneStableLocked height s).
Proof.
  intros W. unfold pruneStableLocked. cbv zeta. eapply wf_core; [apply core_drop_views|].
  by apply wf_prune_votes, wf_prune_slots, wf_prune_prepared, wf_unslotted_unlock.
Qed.

Lemma core_set_LastProgressTime now s : core (set_LastProgressTime now s) = core s.
Proof. reflexivity. Qed.

Lemma wf_AcceptCheckpoint now msg s : wf s → wf (AcceptCheckpoint now msg s).1.
Proof.
  intros W. unfold AcceptCheckpoint. do 3 (case_if; [done|]).
  set (s1 := set_CheckpointVotes _ s).
  assert (wf s1) as W1 by by apply (wf_core _ s).
  clearbody s1. case_if; [done|]. case_if; [done|]. cbn [fst].
  case_if; [|by apply (wf_core _ s1)].
  set (cert := MkCheckpointCert _ _ _ _).
  set (s2 := set_HighWatermark _ _).
  assert (wf s2) as W2 by (destruct W1; by constructor).
  eapply wf_core; [apply core_set_LastProgressTime|]. by apply wf_pruneStable.
Qed.

End steps.

(** ** What a COMMIT that completes a quorum leaves behind *)

(** The conditions under which [AcceptCommit] reports a committed block, read
    off the code before any invariant is used. *)
Lemma AcceptCommit_reached now msg s s' n b :
  AcceptCommit now msg s = (s', (true, n, b, None)) →
  let votes := <[c_NodeID msg := msg]> (inner (st_CommitVotes s) (c_BlockHash msg)) in
  n = Z.of_nat (size votes) ∧ (commitQuorumLocked s <= n)%Z ∧
  b = locked_block s (c_BlockHash msg) ∧ BlockHash b ≠ "" ∧
  c_View msg = st_ViewID s ∧ c_Sequence msg = c_Height msg ∧
  default "" (st_PrePrepareBySlot s !! slotKey (c_View msg) (c_Sequence msg)) = c_BlockHash msg ∧
  c_BlockHash msg ≠ "" ∧
  (∃ p, st_PreparedByHeight s !! c_Height msg = Some p ∧ pc_BlockHash p = c_BlockHash msg) ∧
  st_CommittedBlocks s' = <[Height b := b]> (st_CommittedBlocks s) ∧
  st_CommitCertificates s' = <[c_Height msg := MkCommitCert (c_View msg) (c_Sequence msg)
    (c_Height msg) (c_BlockHash msg) (sorted_votes votes)]> (st_CommitCertificates s).
Proof.
  unfold AcceptCommit. do 4 (case_if; [done|]). case_if.
  { unfold bufferEarlyCommitLocked. by repeat case_match. }
  do 2 (case_if; [done|]). case_if; [|done].
  intros [= <- <- <-]. cbv zeta. bool_props. split_and!; auto; [congruence|].
  match goal with H : match ?x with _ => _ end = true |- _ => destruct x as [p|] eqn:Hp; [|done] end.
  bool_props. by exists p.
Qed.
