(* ===== verification/PbftView.v ===== *)
(** * View changes

    What an accepted NEW-VIEW rests on, and that entering the view keeps the
    replica invariant. *)
From S2P Require Import Prelude GoStd Tx Block PbftTypes PbftState PbftCert PbftInv PbftSteps.
Local Open Scope N_scope.
#[local] Opaque Hash slotKey pad20.

(** ** NEW-VIEW *)

(** What the loop of [validateNewViewLocked] leaves behind: the accumulated
    certificate is that of some view change, checked with its block, and no
    certificate among the view changes is higher. *)
Definition vc_evidence (s : State) (cert : PreparedCertificate) (b : Block) : Prop :=
  validatePreparedCertificateLocked s cert = None ∧
  BlockHash b = pc_BlockHash cert ∧ Height b = pc_Height cert ∧ Hash b = pc_BlockHash cert.

(** [c1] is below [c2] in the order of (view, height), and does not contradict it
    at the same view and height. *)
Definition cert_le (c1 c2 : PreparedCertificate) : Prop :=
  pc_View c1 < pc_View c2 ∨
  (pc_View c1 = pc_View c2 ∧ pc_Height c1 < pc_Height c2) ∨
  (pc_View c1 = pc_View c2 ∧ pc_Height c1 = pc_Height c2 ∧ pc_BlockHash c1 = pc_BlockHash c2).

#[global] Instance cert_le_trans : Transitive cert_le.
Proof. unfold cert_le. intros c1 c2 c3. intuition (lia || congruence). Qed.
#[global] Instance cert_le_refl : Reflexive cert_le.
Proof. intros c. unfold cert_le. auto. Qed.

Lemma check_evidence_facts s vc e cert :
  check_evidence s vc e = None → vc_Prepared vc = Some cert →
  ∃ b, vc_PreparedBlock vc = Some b ∧ vc_evidence s cert b.
Proof.
  unfold check_evidence. intros H Hc. case_match; [done|]. rewrite Hc in H.
  destruct (validatePreparedCertificateLocked s cert) eqn:Hv; [done|]. case_if; [done|].
  unfold prepared_block_bad in *. destruct (vc_PreparedBlock vc) as [b|]; [|done]. bool_props.
  exists b. by repeat split.
Qed.

Lemma cert_nonempty s cert :
  validatePreparedCertificateLocked s cert = None → pc_BlockHash cert ≠ "".
Proof.
  unfold validatePreparedCertificateLocked. case_if; [done|]. by bool_props.
Qed.

Lemma higher_prepared_le c acc :
  pc_BlockHash acc ≠ "" → higher_prepared c acc = true → cert_le acc c.
Proof.
  unfold higher_prepared, cert_le. rewrite !orb_true_iff, andb_true_iff, !N.ltb_lt,
    !bool_decide_eq_true. intros ? [[?|?]|[? ?]]; [done|lia|lia].
Qed.

Lemma not_higher_prepared_le c acc :
  higher_prepared c acc = false →
  (pc_View c ≟ pc_View acc) && (pc_Height c ≟ pc_Height acc) &&
    (pc_BlockHash c ≠? pc_BlockHash acc) = false →
  cert_le c acc ∧ pc_BlockHash acc ≠ "".
Proof.
  unfold higher_prepared, cert_le.
  rewrite !orb_false_iff, !andb_false_iff, !N.ltb_ge, !bool_decide_eq_false, negb_false_iff,
    bool_decide_eq_true.
  intros [[? ?] ?] ?. split; [|done].
  destruct (decide (pc_View c = pc_View acc)), (decide (pc_Height c = pc_Height acc));
    intuition lia.
Qed.

(** The loop of [validateNewViewLocked], from any accumulator: the result is the
    accumulator or the checked evidence of one of the view changes, nothing seen
    is above it, and the senders are distinct validators. *)
Record nv_loop (s : State) (msg : NewView) (seen : gset string)
    (acc : PreparedCertificate * Block) (vcs : list ViewChange)
    (r : PreparedCertificate * Block) : Prop := {
  nl_from : r = acc ∨
    ∃ vc, vc ∈ vcs ∧ vc_Prepared vc = Some r.1 ∧ vc_PreparedBlock vc = Some r.2;
  nl_evidence : pc_BlockHash r.1 ≠ "" → vc_evidence s r.1 r.2;
  nl_acc : pc_BlockHash acc.1 ≠ "" → pc_BlockHash r.1 ≠ "" ∧ cert_le acc.1 r.1;
  nl_max : ∀ vc c, vc ∈ vcs → vc_Prepared vc = Some c →
    pc_BlockHash r.1 ≠ "" ∧ cert_le c r.1;
  nl_nodup : NoDup (vc_NodeID <$> vcs);
  nl_senders : ∀ vc, vc ∈ vcs → (vc_NodeID vc ∉ seen) ∧
    isValidatorLocked s (vc_NodeID vc) = true ∧
    vc_NewView vc = nv_View msg ∧ vc_LeaderID vc = nv_LeaderID msg;
}.

Lemma nv_loop_cons s msg seen acc acc' vc vcs r :
  nv_loop s msg ({[vc_NodeID vc]} ∪ seen) acc' vcs r →
  acc' = acc ∨ (vc_Prepared vc = Some acc'.1 ∧ vc_PreparedBlock vc = Some acc'.2) →
  (pc_BlockHash acc.1 ≠ "" → pc_BlockHash acc'.1 ≠ "" ∧ cert_le acc.1 acc'.1) →
  (∀ c, vc_Prepared vc = Some c → pc_BlockHash acc'.1 ≠ "" ∧ cert_le c acc'.1) →
  vc_NodeID vc ∉ seen → isValidatorLocked s (vc_NodeID vc) = true →
  vc_NewView vc = nv_View msg → vc_LeaderID vc = nv_LeaderID msg →
  nv_loop s msg seen acc (vc :: vcs) r.
Proof.
  intros [R1 R2 R3 R4 R5 R6] Hfrom Hup Hvc Hs1 Hs2 Hs3 Hs4. constructor.
  - destruct R1 as [->|(vc' & ? & ? & ?)]; [|right; exists vc'; set_solver].
    destruct Hfrom as [->|[? ?]]; [by left|right; exists vc; set_solver].
  - done.
  - intros Hne. destruct (Hup Hne) as [N1 L1]. destruct (R3 N1) as [N2 L2]. split; [done|by etrans].
  - intros vc' c [->|Hin]%elem_of_cons Hc; [|by eapply R4].
    destruct (Hvc _ Hc) as [N1 L1]. destruct (R3 N1) as [N2 L2]. split; [done|by etrans].
  - simpl. constructor; [|done]. intros (vc' & E & Hin)%list_elem_of_fmap.
    destruct (R6 _ Hin) as [Hn _]. set_solver.
  - intros vc' [->|Hin]%elem_of_cons; [done|]. destruct (R6 _ Hin) as (Hn & ? & ? & ?).
    split_and!; auto. set_solver.
Qed.

Lemma check_view_changes_loop s msg vcs : ∀ seen acc r,
  (pc_BlockHash acc.1 ≠ "" → vc_evidence s acc.1 acc.2) →
  check_view_changes s msg seen acc vcs = inr r → nv_loop s msg seen acc vcs r.
Proof.
  induction vcs as [|vc vcs IH]; intros seen acc r Hacc H; simpl in H.
  { simplify_eq. constructor; auto using NoDup_nil_2; by intros ? **; set_solver. }
  do 3 (case_if; [done|]).
  destruct (check_evidence s vc _) eqn:Hev; [done|]. bool_props.
  destruct (vc_Prepared vc) as [cert|] eqn:Hc.
  2: { eapply nv_loop_cons; [by apply IH|by left|by split| |done..]. intros c Hc'. congruence. }
  destruct (check_evidence_facts _ _ _ _ Hev Hc) as (b & Hb & E).
  case_if; [|case_if; [done|]].
  - rewrite Hb in H. cbn [default] in H.
    apply (nv_loop_cons _ _ _ _ (cert, b)); [by apply IH|auto| | |done..].
    + intros Hne. split; [by eapply cert_nonempty, E|by apply higher_prepared_le].
    + rewrite Hc. intros c [= <-]. split; [by eapply cert_nonempty, E|done].
  - destruct (not_higher_prepared_le cert acc.1) as [L N]; [done|done|].
    eapply nv_loop_cons; [by apply IH|by left|by split| |done..].
    rewrite Hc. intros c [= <-]. auto.
Qed.

(** ** What an accepted NEW-VIEW proposal rests on *)

Record newview_facts (s : State) (msg : NewView) : Prop := {
  nf_forward : st_ViewID s <= nv_View msg;
  nf_leader : leaderForViewLocked s (nv_View msg) = Some (nv_LeaderID msg);
  nf_quorum : (commitQuorumLocked s <= Z.of_nat (length (nv_ViewChanges msg)))%Z;
  nf_nodup : NoDup (vc_NodeID <$> nv_ViewChanges msg);
  nf_senders : ∀ vc, vc ∈ nv_ViewChanges msg →
    isValidatorLocked s (vc_NodeID vc) = true ∧ vc_NewView vc = nv_View msg ∧
    vc_LeaderID vc = nv_LeaderID msg;
  nf_selected :
    (nv_SelectedPrepared msg = None ∧ nv_SelectedBlock msg = None ∧
     ∀ vc, vc ∈ nv_ViewChanges msg → vc_Prepared vc = None) ∨
    ∃ sel b high hb vc,
      nv_SelectedPrepared msg = Some sel ∧ nv_SelectedBlock msg = Some b ∧
      vc ∈ nv_ViewChanges msg ∧ vc_Prepared vc = Some high ∧ vc_PreparedBlock vc = Some hb ∧
      vc_evidence s high hb ∧
      pc_View sel = pc_View high ∧ pc_Sequence sel = pc_Sequence high ∧
      pc_Height sel = pc_Height high ∧ pc_BlockHash sel = pc_BlockHash high ∧
      BlockHash b = pc_BlockHash sel ∧ Hash b = pc_BlockHash sel ∧
      ∀ vc' c, vc' ∈ nv_ViewChanges msg → vc_Prepared vc' = Some c → cert_le c sel;
}.

Lemma validateNewView_facts s msg :
  validateNewViewLocked s msg = Some None → newview_facts s msg.
Proof.
  unfold validateNewViewLocked. intros H. case_if; [done|].
  destruct (leaderForViewLocked s (nv_View msg)) as [l|] eqn:Hl; [|done]. simpl in H.
  injection H as H. do 2 (case_if; [done|]). bool_props. subst l.
  destruct (check_view_changes _ _ _ _ _) as [e|[high hb]] eqn:Hloop; [done|].
  apply check_view_changes_loop in Hloop as [F E _ M ND S]; [|done]. simpl in *.
  assert (∀ vc, vc ∈ nv_ViewChanges msg →
    isValidatorLocked s (vc_NodeID vc) = true ∧ vc_NewView vc = nv_View msg ∧
    vc_LeaderID vc = nv_LeaderID msg) as S' by (intros vc Hvc; by apply S).
  constructor; auto. destruct F as [F|(vc & Hin & Hp & Hpb)].
  - injection F as -> ->. simpl in H. case_if; [done|]. bool_props. left.
    rewrite <- !eq_None_not_Some in *. split_and!; auto.
    intros vc Hin. destruct (vc_Prepared vc) as [c|] eqn:Hc; [|done].
    by destruct (M _ _ Hin Hc).
  - right. destruct (M _ _ Hin Hp) as [Hne _].
    rewrite bool_decide_eq_false_2 in H by done.
    destruct (nv_SelectedPrepared msg) as [sel|], (nv_SelectedBlock msg) as [b|]; try done.
    case_if; [done|]. bool_props. destruct (E Hne) as (V & B1 & B2 & B3).
    exists sel, b, high, hb, vc. split_and!; auto; try congruence.
    intros vc' c Hin' Hc'. destruct (M _ _ Hin' Hc') as [_ L].
    unfold cert_le in *. by replace (pc_View sel) with (pc_View high) by done;
      replace (pc_Height sel) with (pc_Height high) by done;
      replace (pc_BlockHash sel) with (pc_BlockHash high) by done.
Qed.

(** ** Entering a view *)

(** The evidence inside a NEW-VIEW message: its blocks are blocks the replicas
    know, and its prepared certificates are for a slot of equal sequence and
    height, as every replica that counts votes makes sure. *)
Definition newview_msg_ok (univ : Block → Prop) (msg : NewView) : Prop :=
  (∀ b, nv_SelectedBlock msg = Some b → univ b) ∧
  ∀ vc, vc ∈ nv_ViewChanges msg →
    (∀ b, vc_PreparedBlock vc = Some b → univ b) ∧
    (∀ c, vc_Prepared vc = Some c → pc_Sequence c = pc_Height c).

Section entering.
Context (univ : Block → Prop).
Context (univ_hash : ∀ b1 b2, univ b1 → univ b2 → Hash b1 = Hash b2 → Height b1 = Height b2).

Lemma wf_enter_view now msg s : wf univ s → wf univ (enter_view now msg s).
Proof.
  intros [_ _ _ _ _ _ C B _ S].
  assert (core (enter_view now msg s) =
    (st_ValidatorSet s, nv_View msg, ∅, ∅, (∅, ∅, ∅, ∅),
     (st_CommitCertificates s, st_CommittedBlocks s, ∅, ∅),
     (st_LowWatermark s, st_StableCheckpoint s))) as E by reflexivity.
  revert E. generalize (enter_view now msg s). intros e E.
  unfold core in E. injection E as E0 E1 E2 E3 E4 E5 E6 E7 E8 E9 E10 E11 E12 E13.
  constructor; rewrite ?E2, ?E3, ?E4, ?E5, ?E6, ?E7, ?E9, ?E12, ?E13;
    auto using votes_empty, early_empty.
  - by intros h b ?%lookup_empty_Some.
  - by intros h b ?%lookup_empty_Some.
  - rewrite E8. intros q c Hc. rewrite (validateCommitCertificate_ext _ _ _ E0). by apply C.
  - intros q c. rewrite E10. by intros ?%lookup_empty_Some.
Qed.

Lemma wf_adopt s cert b view :
  wf univ s → univ b → view = st_ViewID s → Hash b = pc_BlockHash cert →
  BlockHash b = pc_BlockHash cert → pc_BlockHash cert ≠ "" → pc_Sequence cert = pc_Height cert →
  Height b = pc_Height cert → Height b ≠ 0 → backed s cert → wf univ (adopt cert b view s).
Proof.
  intros W Hu -> Hh Hb Hne Hs Hhb Hz Hback.
  set (s1 := set_PreparedBlocks (<[pc_Height cert := b]> (st_PreparedBlocks s))
               (set_PreparedByHeight (<[pc_Height cert := cert]> (st_PreparedByHeight s)) s)).
  assert (wf univ s1) as W1.
  { apply wf_set_prepared; [done|]. intros q c [[<- <-]|[Hq Hc]]%lookup_insert_Some.
    - split_and!; auto. exists b. rewrite lookup_insert_eq. by split_and!.
    - rewrite lookup_insert_ne by done. by apply (wf_prepared _ _ W). }
  unfold adopt. fold s1. rewrite Hs, <- Hhb.
  eapply wf_core; [|apply (wf_lock univ univ_hash s1 b W1 Hu); congruence]. reflexivity.
Qed.

Lemma AcceptNewView_ok now msg s s' b has :
  AcceptNewView now msg s = Some (s', (b, has, None)) →
  newview_facts s msg ∧
  ((nv_View msg = st_ViewID s ∧
    s' = set_AcceptedNewViews (<[nv_View msg := msg]> (st_AcceptedNewViews s)) s) ∨
   (st_ViewID s < nv_View msg ∧
    let s1 := enter_view now msg
                (set_AcceptedNewViews (<[nv_View msg := msg]> (st_AcceptedNewViews s)) s) in
    (nv_SelectedPrepared msg = None ∧ s' = s1 ∧ has = false) ∨
    ∃ cert b', nv_SelectedPrepared msg = Some cert ∧ nv_SelectedBlock msg = Some b' ∧
      s' = adopt cert b' (nv_View msg) s1 ∧ b = b' ∧ has = true)).
Proof.
  unfold AcceptNewView. destruct (validateNewViewLocked s msg) as [[e|]|] eqn:Hv; [done| |done].
  apply validateNewView_facts in Hv as F. cbn [mbind option_bind]. cbv zeta.
  generalize (set_AcceptedNewViews (<[nv_View msg := msg]> (st_AcceptedNewViews s)) s). intros s0.
  case_if; bool_props; intros H; (split; [done|]).
  - left. split; [done|]. by case_match; simplify_eq.
  - right. split; [pose proof (nf_forward _ _ F); lia|].
    destruct (nf_selected _ _ F) as [(E1 & E2 & _)|(sel & b0 & _ & _ & _ & E1 & E2 & _)];
      rewrite E1, E2 in *; injection H as <- <- <-; [by left|right].
    exists sel, b0. by split_and!.
Qed.

Lemma AcceptNewView_rejected now msg s s' b has e :
  AcceptNewView now msg s = Some (s', (b, has, Some e)) → s' = s.
Proof.
  unfold AcceptNewView. destruct (validateNewViewLocked s msg) as [[e'|]|]; cbn [mbind option_bind];
    [by intros [= <- _ _ _]| |done].
  by repeat case_match.
Qed.

Lemma wf_AcceptNewView now msg s s' r :
  wf univ s → newview_msg_ok univ msg → AcceptNewView now msg s = Some (s', r) → wf univ s'.
Proof.
  intros W [Mb Mvc] H. destruct r as [[b has] [e|]].
  { by apply AcceptNewView_rejected in H as ->. }
  apply AcceptNewView_ok in H as [F [[_ ->]|[Hfw H]]]; [by apply (wf_core _ s)|].
  set (s0 := set_AcceptedNewViews _ s) in *.
  assert (wf univ s0) as W0 by by apply (wf_core _ s).
  apply (wf_enter_view now msg) in W0. cbv zeta in H.
  destruct H as [(_ & -> & _)|(cert & b' & E1 & E2 & -> & _)]; [done|].
  destruct (nf_selected _ _ F) as [(E1' & _)|(sel & b0 & high & hb & vc & E1' & E2' & Hin & Hp & Hpb
    & (V & B1 & B2 & B3) & S1 & S2 & S3 & S4 & S5 & S6 & _)]; [congruence|].
  rewrite E1 in E1'. rewrite E2 in E2'. injection E1' as <-. injection E2' as <-.
  destruct (Mvc _ Hin) as [Mhb Mseq]. specialize (Mhb _ Hpb). specialize (Mseq _ Hp).
  assert (Height b' = Height hb) as EH by (apply univ_hash; [by apply Mb|done|congruence]).
  assert (pc_BlockHash high ≠ "" ∧ pc_Height high ≠ 0) as [N1 N2].
  { revert V. unfold validatePreparedCertificateLocked. case_if; [done|]. by bool_props. }
  apply wf_adopt; auto; try congruence.
  exists (pc_Prepares high). rewrite S1, S2, S3, S4. by destruct high.
Qed.

End entering.
