(* ===== verification/PbftReach.v ===== *)
(** * Reachable replica states

    The operations the runtime calls on a replica as one step function, runs of
    them, and what holds in every state a run reaches. *)
From S2P Require Import Prelude GoStd Tx Block PbftTypes PbftState PbftCert PbftInv PbftSteps PbftView.
Local Open Scope N_scope.
#[local] Opaque Hash slotKey pad20.

(** The mutating operations of [State]; times and the iteration order of Go maps are
    arguments. [OpLegacyNewView] is the entry point [OnNewView] of the V4.1 runtime. *)
Inductive op :=
  | OpConfigure (interval window : N)
  | OpPrePrepare (now : Z) (msg : PrePrepare)
  | OpPrepare (now : Z) (msg : Prepare)
  | OpCommit (now : Z) (msg : Commit)
  | OpCertificate (now : Z) (cert : CommitCertificate) (b : Block)
  | OpBroadcastCommit (now : Z) (view sequence : N) (hash : string) (retry : Z)
  | OpBuildViewChange (order : list (N * PreparedCertificate)) (newView height : N)
  | OpViewChange (msg : ViewChange)
  | OpMarkViewChange (newView : N)
  | OpNewView (now : Z) (msg : NewView)
  | OpLegacyNewView (now : Z) (msg : NewView)
  | OpDurable (now : Z) (b : Block)
  | OpCheckpoint (now : Z) (msg : Checkpoint)
  | OpTouch (now : Z).

(** The state after an operation; [None] when the operation panics. *)
Definition step (o : op) (s : State) : option State :=
  match o with
  | OpConfigure i w => Some (ConfigureCheckpoint i w s)
  | OpPrePrepare now msg => fst <$> OnPrePrepare now msg s
  | OpPrepare now msg => Some (AcceptPrepare now msg s).1
  | OpCommit now msg => Some (AcceptCommit now msg s).1
  | OpCertificate now cert b => Some (AcceptCommitCertificate now cert b s).1
  | OpBroadcastCommit now v q h i => Some (ShouldBroadcastCommit now v q h i s).1
  | OpBuildViewChange order v h => fst <$> BuildViewChange order v h s
  | OpViewChange msg => fst <$> acceptViewChangeLocked msg s
  | OpMarkViewChange v => Some (MarkViewChangeBroadcast v s).1
  | OpNewView now msg => fst <$> AcceptNewView now msg s
  | OpLegacyNewView now msg => OnNewView now msg s
  | OpDurable now b => Some (MarkDurableCommit now b s)
  | OpCheckpoint now msg => Some (AcceptCheckpoint now msg s).1
  | OpTouch now => Some (TouchProgress now s)
  end.

(** [reach s0 s]: some sequence of operations leads from [s0] to [s]. *)
Inductive reach (ok : op → Prop) (s0 : State) : State → Prop :=
  | reach_refl : reach ok s0 s0
  | reach_step s o s' : reach ok s0 s → ok o → step o s = Some s' → reach ok s0 s'.

(** The blocks and certificates a message carries are those of the universe, and the
    legacy entry point gets no message without view changes: it would change the view
    and keep the votes of the old one. *)
Definition op_ok (univ : Block → Prop) (o : op) : Prop :=
  match o with
  | OpPrePrepare _ msg => univ (pp_Block msg)
  | OpNewView _ msg => newview_msg_ok univ msg
  | OpLegacyNewView _ msg => nv_ViewChanges msg ≠ [] ∧ newview_msg_ok univ msg
  | _ => True
  end.

(** What [OnNewView] does: the checks of [AcceptNewView], or a bare change of view. *)
Lemma OnNewView_cases now msg s s' : OnNewView now msg s = Some s' →
  (∃ r, AcceptNewView now msg s = Some (s', r)) ∨
  (nv_ViewChanges msg = [] ∧ (s' = s ∨ (st_ViewID s < nv_View msg ∧
     s' = set_LastProgressTime now (set_Stage StageIdle (set_LeaderID (nv_LeaderID msg) (set_ViewID (nv_View msg) s)))))).
Proof.
  unfold OnNewView. case_bool_decide as Hl.
  - apply nil_length_inv in Hl. right. split; [done|]. destruct (N.ltb_spec (st_ViewID s) (nv_View msg)); [|left; congruence].
    destruct (leaderForViewLocked s (nv_View msg)) as [leader|]; [|done]. cbn [mbind option_bind] in *.
    case_bool_decide; [right|left; congruence]. split; [done|congruence].
  - intros ([s1 r] & H & ->)%fmap_Some. left. by exists r.
Qed.

Section reachable.
Context (univ : Block → Prop).
Context (univ_hash : ∀ b1 b2, univ b1 → univ b2 → Hash b1 = Hash b2 → Height b1 = Height b2).

Lemma wf_NewState node shard leader validators now :
  wf univ (NewState node shard leader validators now).
Proof.
  constructor; try (intros ? ? H; destruct (lookup_empty_Some _ _ H));
    first [apply votes_empty|apply early_empty|reflexivity].
Qed.

Lemma NewState_validators node shard leader validators now :
  validators ≠ [] →
  st_ValidatorSet (NewState node shard leader validators now) = sort_strings validators.
Proof.
  intros Hne. unfold NewState. cbn [st_ValidatorSet].
  rewrite (bool_decide_eq_false_2 (length _ = O)); [done|].
  rewrite length_sort_strings. by destruct validators.
Qed.

Lemma wf_step o s s' : wf univ s → op_ok univ o → step o s = Some s' → wf univ s'.
Proof.
  intros W Ho H. destruct o; simpl in H.
  - injection H as <-. by apply wf_ConfigureCheckpoint.
  - apply fmap_Some in H as ([s1 r] & H & ->). by eapply wf_OnPrePrepare.
  - injection H as <-. by apply wf_AcceptPrepare.
  - injection H as <-. by apply wf_AcceptCommit.
  - injection H as <-. by apply wf_AcceptCommitCertificate.
  - injection H as <-. by eapply wf_core; [apply core_ShouldBroadcastCommit|].
  - apply fmap_Some in H as ([s1 r] & H & ->). by eapply wf_core; [eapply core_BuildViewChange|].
  - apply fmap_Some in H as ([s1 r] & H & ->). by eapply wf_core; [eapply core_acceptViewChange|].
  - injection H as <-. by eapply wf_core; [apply core_MarkViewChangeBroadcast|].
  - apply fmap_Some in H as ([s1 r] & H & ->). by eapply wf_AcceptNewView.
  - destruct Ho as [Hne Ho]. apply OnNewView_cases in H as [[r H]|[? _]]; [|done]. by eapply wf_AcceptNewView.
  - injection H as <-. by apply wf_MarkDurableCommit.
  - injection H as <-. by apply wf_AcceptCheckpoint.
  - injection H as <-. apply (wf_core univ s); [reflexivity|done].
Qed.

Lemma wf_reach s0 s : wf univ s0 → reach (op_ok univ) s0 s → wf univ s.
Proof. intros W R. induction R; eauto using wf_step. Qed.

End reachable.

(** ** Views and watermarks only move forward *)

(** A setter that does not touch what [obs] sees of a state. *)
Class Frames {A B} (obs : State → B) (f : A → State → State) : Prop :=
  frames v s : obs (f v s) = obs s.
Arguments frames {A B} obs {f _} v s.
#[global] Hint Extern 0 (Frames _ _) => (intros ? ?; reflexivity) : typeclass_instances.

(** What no operation changes, and what it only increases. *)
Definition static (s : State) := (st_NodeID s, st_InitialLeaderID s, st_ValidatorSet s).
Definition progress (s : State) := (static s, st_ViewID s, st_StableCheckpoint s).

Definition forward (s s' : State) : Prop :=
  static s' = static s ∧ st_ViewID s <= st_ViewID s' ∧
  cpc_Height (st_StableCheckpoint s) <= cpc_Height (st_StableCheckpoint s').

#[global] Instance forward_preorder : PreOrder forward.
Proof.
  split; [by intros s|].
  intros s1 s2 s3 (?&?&?) (?&?&?). unfold forward. split_and!; [congruence|lia|lia].
Qed.

Lemma progress_forward s s' : progress s' = progress s → forward s s'.
Proof.
  intros E. apply pair_equal_spec in E as [E E3]. apply pair_equal_spec in E as [E1 E2].
  unfold forward. by rewrite E1, E2, E3.
Qed.

(** Most operations also leave the votes for view changes and checkpoints alone. *)
Definition quiet (s : State) := (progress s, st_ViewChangeVotes s, st_CheckpointVotes s).

Lemma quiet_progress s s' : quiet s' = quiet s → progress s' = progress s.
Proof. intros [E _]%pair_equal_spec. by apply pair_equal_spec in E as [-> _]. Qed.
Lemma quiet_view_changes s s' : quiet s' = quiet s → st_ViewChangeVotes s' = st_ViewChangeVotes s.
Proof. intros [E _]%pair_equal_spec. by apply pair_equal_spec in E as [_ ->]. Qed.
Lemma quiet_checkpoints s s' : quiet s' = quiet s → st_CheckpointVotes s' = st_CheckpointVotes s.
Proof. by intros [_ ->]%pair_equal_spec. Qed.

Lemma quiet_replay slot h s : quiet (replayEarlyVotesLocked slot h s) = quiet s.
Proof.
  unfold replayEarlyVotesLocked, replay_commits, replay_prepares.
  repeat case_match; by rewrite ?(frames quiet).
Qed.

Lemma quiet_OnPrePrepare now msg s s' r :
  OnPrePrepare now msg s = Some (s', r) → quiet s' = quiet s.
Proof.
  unfold OnPrePrepare. destruct (validatePrePrepareLocked s msg) as [[e|]|]; [|cbn [mbind option_bind]|done].
  { by intros [= <- _]. }
  cbv zeta. intros H%some_pair_fst. rewrite <- H. rewrite (frames quiet).
  case_if; rewrite ?(frames quiet), quiet_replay; by rewrite !(frames quiet).
Qed.

Lemma quiet_AcceptPrepare now msg s : quiet (AcceptPrepare now msg s).1 = quiet s.
Proof.
  unfold AcceptPrepare, bufferEarlyPrepareLocked, store_prepared_cert.
  repeat case_match; simplify_eq/=; by rewrite ?(frames quiet).
Qed.

Lemma quiet_AcceptCommit now msg s : quiet (AcceptCommit now msg s).1 = quiet s.
Proof.
  unfold AcceptCommit, bufferEarlyCommitLocked.
  repeat case_match; simplify_eq/=; by rewrite ?(frames quiet).
Qed.

Lemma progress_pruneStable h s : progress (pruneStableLocked h s) = progress s.
Proof.
  unfold pruneStableLocked. cbv zeta. by rewrite !(frames progress).
Qed.

Lemma forward_AcceptCheckpoint now msg s : forward s (AcceptCheckpoint now msg s).1.
Proof.
  unfold AcceptCheckpoint. do 3 (case_if; [reflexivity|]).
  set (s1 := set_CheckpointVotes _ s).
  assert (forward s s1) as F1 by (apply progress_forward, (frames progress)).
  case_if; [done|]. case_if; [done|]. cbn [fst]. etrans; [exact F1|]. clear F1. clearbody s1.
  case_if; [|apply progress_forward, (frames progress)]. bool_props.
  set (cert := MkCheckpointCert _ _ _ _).
  trans (set_StableCheckpoint cert s1); [unfold forward; cbn; split_and!; [done|lia|lia]|].
  apply progress_forward. rewrite (frames progress), progress_pruneStable.
  by rewrite !(frames progress).
Qed.

Lemma forward_AcceptNewView now msg s s' r :
  AcceptNewView now msg s = Some (s', r) → forward s s'.
Proof.
  intros H. destruct r as [[b has] [e|]].
  { by apply AcceptNewView_rejected in H as ->. }
  apply AcceptNewView_ok in H as [F [[_ ->]|[Hfw H]]].
  { apply progress_forward, (frames progress). }
  set (s0 := set_AcceptedNewViews _ s) in *.
  assert (progress s0 = progress s) as E0 by apply (frames progress).
  assert (forward s (enter_view now msg s0)) as F1.
  { unfold forward. split_and!; [done|cbn; lia|done]. }
  destruct H as [(_ & -> & _)|(cert & b' & _ & _ & -> & _)]; [done|].
  etrans; [exact F1|]. apply progress_forward. unfold adopt. by rewrite !(frames progress).
Qed.

Lemma forward_OnNewView now msg s s' : OnNewView now msg s = Some s' → forward s s'.
Proof.
  intros [[r H]|[_ [->|[Hv ->]]]]%OnNewView_cases; [by eapply forward_AcceptNewView|done|].
  unfold forward. split_and!; [done|cbn; lia|done].
Qed.

Definition is_quiet (o : op) : bool :=
  match o with OpViewChange _ | OpNewView _ _ | OpLegacyNewView _ _ | OpCheckpoint _ _ => false | _ => true end.

Lemma quiet_step o s s' : is_quiet o = true → step o s = Some s' → quiet s' = quiet s.
Proof.
  destruct o; cbn [step]; intros Hq H; try discriminate Hq;
    try (apply fmap_Some in H as ([s1 r] & H & ->); cbn [fst]);
    try (injection H as <-).
  - unfold ConfigureCheckpoint. repeat case_if; by rewrite !(frames quiet).
  - by eapply quiet_OnPrePrepare.
  - apply quiet_AcceptPrepare.
  - apply quiet_AcceptCommit.
  - unfold AcceptCommitCertificate. repeat case_match; by rewrite ?(frames quiet).
  - unfold ShouldBroadcastCommit. case_if; by rewrite ?(frames quiet).
  - revert H. unfold BuildViewChange. case_if; [by intros [= <- _]|].
    destruct (leaderForViewLocked s newView); [|done]. cbn.
    destruct (choose_prepared s order height) as [c b]. repeat case_match; by intros [= <- _].
  - unfold MarkViewChangeBroadcast. case_if; by rewrite ?(frames quiet).
  - unfold MarkDurableCommit. case_if; [done|]. cbv zeta. by rewrite !(frames quiet).
  - apply (frames quiet).
Qed.

Lemma progress_acceptViewChange msg s s' r :
  acceptViewChangeLocked msg s = Some (s', r) → progress s' = progress s.
Proof.
  unfold acceptViewChangeLocked. repeat (case_if; [by intros [= <- _]|]).
  destruct (leaderForViewLocked s (vc_NewView msg)); [|done]. cbn.
  repeat case_match; by intros [= <- _].
Qed.

Lemma forward_step o s s' : step o s = Some s' → forward s s'.
Proof.
  intros H. destruct (is_quiet o) eqn:Hq.
  { by eapply progress_forward, quiet_progress, quiet_step. }
  destruct o; try discriminate Hq; cbn [step] in H.
  - apply fmap_Some in H as ([s1 r] & H & ->).
    by eapply progress_forward, progress_acceptViewChange.
  - apply fmap_Some in H as ([s1 r] & H & ->). by eapply forward_AcceptNewView.
  - by eapply forward_OnNewView.
  - injection H as <-. apply forward_AcceptCheckpoint.
Qed.

Lemma forward_reach ok s0 s : reach ok s0 s → forward s0 s.
Proof. induction 1; [done|]. etrans; [done|]. by eapply forward_step. Qed.

(** ** Runs, executably *)

Fixpoint run (ops : list op) (s : State) : option State :=
  match ops with
  | [] => Some s
  | o :: ops' => s' ← step o s; run ops' s'
  end.

Lemma reach_trans ok s0 s1 s2 : reach ok s0 s1 → reach ok s1 s2 → reach ok s0 s2.
Proof. intros R1 R2. induction R2; eauto using reach. Qed.

Lemma run_reach (ok : op → Prop) ops : ∀ s s', Forall ok ops → run ops s = Some s' → reach ok s s'.
Proof.
  induction ops as [|o ops IH]; intros s s' Hok H; simpl in H; [simplify_eq; constructor|].
  destruct (step o s) as [s1|] eqn:E; [|done]. inversion Hok as [|? ? Ho Hok']; subst.
  eapply reach_trans; [by eapply reach_step; [apply reach_refl|..]|by apply IH].
Qed.

(** ** Slots stay locked *)

(** The operations of the voting phase: everything but those that retire slots (a
    durable commit, a stable checkpoint, a new view). *)
Definition voting (o : op) : bool :=
  match o with OpNewView _ _ | OpLegacyNewView _ _ | OpDurable _ _ | OpCheckpoint _ _ => false | _ => true end.

Lemma slots_replay slot h s :
  st_PrePrepareBySlot (replayEarlyVotesLocked slot h s) = st_PrePrepareBySlot s.
Proof.
  unfold replayEarlyVotesLocked.
  destruct (replay_commits_frame slot h (replay_prepares slot h s)) as (_ & _ & ->).
  by destruct (replay_prepares_frame slot h s) as (_ & _ & ->).
Qed.

Lemma slots_OnPrePrepare now msg s s' r :
  OnPrePrepare now msg s = Some (s', r) →
  (s' = s ∧ r.2 ≠ None) ∨
  (preprepare_facts s msg ∧
   r = (MkPrepare (pp_View msg) (pp_Sequence msg) (pp_Height msg) (st_NodeID s)
          (pp_BlockHash msg) "", None) ∧
   st_PrePrepareBySlot s' =
     <[slotKey (pp_View msg) (pp_Sequence msg) := pp_BlockHash msg]> (st_PrePrepareBySlot s)).
Proof.
  intros H. destruct (validatePrePrepareLocked s msg) as [[e|]|] eqn:Hval.
  - left. unfold OnPrePrepare in H. rewrite Hval in H. by simplify_eq/=.
  - right. split; [by apply validatePrePrepare_facts|].
    pose proof (quiet_progress _ _ (quiet_OnPrePrepare _ _ _ _ _ H)) as Q.
    do 4 apply pair_equal_spec in Q as [Q _].
    unfold OnPrePrepare in H. rewrite Hval in H. cbn [mbind option_bind] in H. cbv zeta in H.
    apply (f_equal (default (s, (zero_prepare, None)))) in H. cbn [default] in H.
    apply pair_equal_spec in H as [Hs Hr]. split.
    + rewrite <- Hr. rewrite <- Hs in Q. by rewrite <- Q.
    + rewrite <- Hs. rewrite (frames st_PrePrepareBySlot).
      case_if; rewrite ?(frames st_PrePrepareBySlot), slots_replay; reflexivity.
  - unfold OnPrePrepare in H. by rewrite Hval in H.
Qed.

Lemma core_slots s s' : core s' = core s → st_PrePrepareBySlot s' = st_PrePrepareBySlot s.
Proof. unfold core. congruence. Qed.

Lemma slots_voting o s s' slot h :
  voting o = true → step o s = Some s' →
  st_PrePrepareBySlot s !! slot = Some h → h ≠ "" → st_PrePrepareBySlot s' !! slot = Some h.
Proof.
  destruct o; cbn [step]; intros Hq H Hs Hne; try discriminate Hq;
    try (apply fmap_Some in H as ([s1 r] & H & ->); cbn [fst]);
    try (injection H as <-).
  - unfold ConfigureCheckpoint. repeat case_if; by rewrite !(frames st_PrePrepareBySlot).
  - apply slots_OnPrePrepare in H as [[-> _]|(F & _ & ->)]; [done|].
    rewrite lookup_insert. case_decide as E; [|done]. f_equal. symmetry.
    rewrite <- E, (pf_view _ _ F), (pf_seq _ _ F) in Hs. by eapply pf_lock.
  - unfold AcceptPrepare, bufferEarlyPrepareLocked, store_prepared_cert.
    repeat case_match; simplify_eq/=; by rewrite ?(frames st_PrePrepareBySlot).
  - unfold AcceptCommit, bufferEarlyCommitLocked.
    repeat case_match; simplify_eq/=; by rewrite ?(frames st_PrePrepareBySlot).
  - unfold AcceptCommitCertificate. repeat case_match; by rewrite ?(frames st_PrePrepareBySlot).
  - unfold ShouldBroadcastCommit. case_if; by rewrite ?(frames st_PrePrepareBySlot).
  - apply core_BuildViewChange, core_slots in H. by rewrite H.
  - apply core_acceptViewChange, core_slots in H. by rewrite H.
  - unfold MarkViewChangeBroadcast. case_if; by rewrite ?(frames st_PrePrepareBySlot).
  - unfold TouchProgress. by rewrite (frames st_PrePrepareBySlot).
Qed.

Lemma slots_voting_reach s s' slot h :
  reach (λ o, voting o = true) s s' →
  st_PrePrepareBySlot s !! slot = Some h → h ≠ "" → st_PrePrepareBySlot s' !! slot = Some h.
Proof. intros R Hs Hne. induction R; eauto using slots_voting. Qed.
