(* ===== verification/PbftLive.v ===== *)
(** * Changing views

    The view-change votes a replica collects, and what the primary and the
    replicas of the next view make of them: the proposal the primary builds is
    one every replica accepts, the leader rotates through the validators, and
    the evidence a replica reports does not depend on map iteration order. *)
From S2P Require Import Prelude GoStd Tx Block PbftTypes PbftState PbftCert PbftInv PbftSteps PbftView PbftReach.
Local Open Scope N_scope.
#[local] Opaque Hash slotKey pad20.

(** ** The collected view-change votes *)

Record vc_vote_ok (s : State) (view : N) (node : string) (vc : ViewChange) : Prop := {
  vv_node : vc_NodeID vc = node;
  vv_validator : isValidatorLocked s node = true;
  vv_view : vc_NewView vc = view;
  vv_leader : leaderForViewLocked s view = Some (vc_LeaderID vc);
  vv_evidence : ∀ e, check_evidence s vc e = None;
}.

Definition vcs_ok (s : State) : Prop := ∀ view m node vc,
  st_ViewChangeVotes s !! view = Some m → m !! node = Some vc → vc_vote_ok s view node vc.

(** The checks read only the identity of the replica's shard. *)
Lemma leaderForView_ext s s' view :
  st_ValidatorSet s = st_ValidatorSet s' → st_InitialLeaderID s = st_InitialLeaderID s' →
  leaderForViewLocked s view = leaderForViewLocked s' view.
Proof. intros E1 E2. unfold leaderForViewLocked. by rewrite E1, E2. Qed.

Lemma check_evidence_ext s s' vc e :
  st_ValidatorSet s = st_ValidatorSet s' → check_evidence s vc e = check_evidence s' vc e.
Proof.
  intros E. unfold check_evidence, validateCheckpointCertificateLocked, commitQuorumLocked.
  rewrite E, (isValidator_ext _ _ E).
  by destruct (vc_Prepared vc) as [c|]; rewrite ?(validatePreparedCertificate_ext _ _ c E).
Qed.

Lemma check_evidence_any s vc e e' : check_evidence s vc e = None → check_evidence s vc e' = None.
Proof. unfold check_evidence. by repeat case_match. Qed.

Lemma vc_vote_ext s s' view node vc :
  st_ValidatorSet s = st_ValidatorSet s' → st_InitialLeaderID s = st_InitialLeaderID s' →
  vc_vote_ok s view node vc → vc_vote_ok s' view node vc.
Proof.
  intros E1 E2 []. constructor; auto.
  - by rewrite <- (isValidator_ext _ _ E1).
  - by rewrite <- (leaderForView_ext _ _ _ E1 E2).
  - intros e. by rewrite <- (check_evidence_ext _ _ _ _ E1).
Qed.

Lemma vcs_ok_sub s s' :
  static s' = static s → st_ViewChangeVotes s' ⊆ st_ViewChangeVotes s → vcs_ok s → vcs_ok s'.
Proof.
  unfold static. intros E Hsub V view m node vc Hm Hvc. simplify_eq/=.
  eapply vc_vote_ext; [symmetry; done..|]. eapply V; [by eapply lookup_weaken|done].
Qed.

Lemma vcs_ok_acceptViewChange msg s s' r :
  vcs_ok s → acceptViewChangeLocked msg s = Some (s', r) → vcs_ok s'.
Proof.
  intros V. unfold acceptViewChangeLocked. repeat (case_if; [by intros [= <- _]|]).
  destruct (leaderForViewLocked s (vc_NewView msg)) as [l|] eqn:Hl; [|done].
  cbn [mbind option_bind]. case_if; [by intros [= <- _]|].
  destruct (check_evidence s msg _) eqn:He; [by intros [= <- _]|].
  destruct (inner _ _ !! vc_NodeID msg) as [old|].
  { case_if; by intros [= <- _]. }
  cbv zeta. intros H%some_pair_fst. rewrite <- H. bool_props. clear H.
  intros view m node vc Hm Hvc.
  apply (vc_vote_ext s); [done|done|].
  change (st_ViewChangeVotes _) with (<[vc_NewView msg :=
    <[vc_NodeID msg := msg]> (inner (st_ViewChangeVotes s) (vc_NewView msg))]>
      (st_ViewChangeVotes s)) in Hm.
  apply lookup_insert_Some in Hm as [[<- <-]|[? Hm]]; [|by eapply V].
  apply lookup_insert_Some in Hvc as [[<- <-]|[? Hvc]].
  - constructor; auto; [congruence|]. intros e. by eapply check_evidence_any.
  - unfold inner in Hvc. destruct (st_ViewChangeVotes s !! _) eqn:E; [|done]. by eapply V.
Qed.

Lemma votes_drop_views view s :
  st_ViewChangeVotes (drop_views view s) ⊆ st_ViewChangeVotes s.
Proof. apply map_keep_sub. Qed.

Lemma votes_AcceptCheckpoint now msg s :
  st_ViewChangeVotes (AcceptCheckpoint now msg s).1 ⊆ st_ViewChangeVotes s.
Proof.
  unfold AcceptCheckpoint. do 3 (case_if; [done|]).
  set (s1 := set_CheckpointVotes _ s). change (st_ViewChangeVotes s) with (st_ViewChangeVotes s1).
  case_if; [done|]. case_if; [done|]. cbn [fst]. clearbody s1.
  rewrite (frames st_ViewChangeVotes). case_if; [|done].
  unfold pruneStableLocked. cbv zeta. etrans; [apply votes_drop_views|].
  by rewrite !(frames st_ViewChangeVotes).
Qed.

Lemma votes_AcceptNewView now msg s s' r :
  AcceptNewView now msg s = Some (s', r) → st_ViewChangeVotes s' ⊆ st_ViewChangeVotes s.
Proof.
  intros H. destruct r as [[b has] [e|]].
  { by apply AcceptNewView_rejected in H as ->. }
  apply AcceptNewView_ok in H as [F [[_ ->]|[Hfw H]]]; [by rewrite (frames st_ViewChangeVotes)|].
  set (s0 := set_AcceptedNewViews _ s) in *.
  change (st_ViewChangeVotes s) with (st_ViewChangeVotes s0). clearbody s0.
  assert (st_ViewChangeVotes (enter_view now msg s0) ⊆ st_ViewChangeVotes s0) as Hsub
    by apply map_keep_sub.
  destruct H as [(_ & -> & _)|(cert & b' & _ & _ & -> & _)]; [done|].
  unfold adopt. by rewrite !(frames st_ViewChangeVotes).
Qed.

Lemma vcs_ok_step o s s' : vcs_ok s → step o s = Some s' → vcs_ok s'.
Proof.
  intros V H. destruct (forward_step _ _ _ H) as (E & _).
  destruct (is_quiet o) eqn:Hq.
  { apply (vcs_ok_sub s); [done| |done].
    apply (quiet_step _ _ _ Hq), quiet_view_changes in H. by rewrite H. }
  destruct o; try discriminate Hq; cbn [step] in H.
  - apply fmap_Some in H as ([s1 r] & H & ->). by eapply vcs_ok_acceptViewChange.
  - apply fmap_Some in H as ([s1 r] & H & ->).
    apply (vcs_ok_sub s); [done|by eapply votes_AcceptNewView|done].
  - apply (vcs_ok_sub s); [done| |done].
    apply OnNewView_cases in H as [[r H]|[_ [->|[_ ->]]]]; [by eapply votes_AcceptNewView|done|by rewrite !(frames st_ViewChangeVotes)].
  - injection H as <-. apply (vcs_ok_sub s); [done|by apply votes_AcceptCheckpoint|done].
Qed.

Lemma vcs_ok_reach ok node shard leader validators now s :
  reach ok (NewState node shard leader validators now) s → vcs_ok s.
Proof.
  induction 1 as [|s o s' _ IH _ H]; [|by eapply vcs_ok_step].
  intros view m n vc Hm. destruct (lookup_empty_Some _ _ Hm).
Qed.

(** ** The primary's proposal is accepted *)

(** On votes that passed the replica's own checks the validation loop follows
    the selection loop. *)
Lemma check_view_changes_select s msg vcs : ∀ seen acc r,
  select_prepared vcs acc = Some r →
  NoDup (vc_NodeID <$> vcs) →
  (∀ vc, vc ∈ vcs → vc_NodeID vc ∉ seen) →
  (∀ vc, vc ∈ vcs → vc_vote_ok s (nv_View msg) (vc_NodeID vc) vc ∧ vc_LeaderID vc = nv_LeaderID msg) →
  check_view_changes s msg seen acc vcs = inr r.
Proof.
  induction vcs as [|vc vcs IH]; intros seen acc r Hsel Hnd Hseen Hok; [by simplify_eq/=|].
  destruct (Hok vc) as [[_ Hv Hw Hl He] Hld]; [left|]. apply NoDup_cons in Hnd as [Hnin Hnd].
  simpl. rewrite (bool_decide_eq_false_2 (vc_NodeID vc ∈ seen)) by (apply Hseen; left).
  rewrite (bool_decide_eq_true_2 (vc_NewView vc = _)), (bool_decide_eq_true_2 (vc_LeaderID vc = _))
    by done.
  rewrite Hv, He. simpl in Hsel |- *.
  assert (∀ acc', select_prepared vcs acc' = Some r →
    check_view_changes s msg ({[vc_NodeID vc]} ∪ seen) acc' vcs = inr r) as next.
  { intros acc' Hsel'. apply IH; [done|done| |set_solver].
    intros vc' Hin. rewrite elem_of_union, elem_of_singleton. intros [E|E].
    - apply Hnin. rewrite <- E. by apply list_elem_of_fmap_2.
    - by apply (Hseen vc'); [right|]. }
  destruct (vc_Prepared vc) as [cert|] eqn:Hc; [|by apply next].
  destruct (check_evidence_facts _ _ _ _ (He "") Hc) as (b & Hb & _). rewrite Hb in *.
  case_if; [by apply next|]. case_if; [done|by apply next].
Qed.

Lemma select_prepared_from vcs : ∀ acc r, select_prepared vcs acc = Some r →
  r = acc ∨ ∃ vc, vc ∈ vcs ∧ vc_Prepared vc = Some r.1.
Proof.
  induction vcs as [|vc vcs IH]; intros acc r H; simpl in H; [left; congruence|].
  destruct (vc_Prepared vc) as [cert|] eqn:Hc; [|destruct (IH _ _ H) as [?|(vc' & ? & ?)];
    [by left|right; exists vc'; by split; [right|]]].
  repeat case_if; try done; destruct (IH _ _ H) as [->|(vc' & ? & ?)];
    first [by left|by right; exists vc; split; [left|]|by right; exists vc'; split; [right|]].
Qed.

(** The facts about the votes that go into a proposal. *)
Lemma proposal_votes s view vc :
  vcs_ok s → vc ∈ sorted_votes (inner (st_ViewChangeVotes s) view) →
  vc_vote_ok s view (vc_NodeID vc) vc.
Proof.
  intros V [n Hn]%elem_of_sorted_votes. unfold inner in Hn.
  destruct (st_ViewChangeVotes s !! view) as [m|] eqn:E; [|done].
  pose proof (V _ _ _ _ E Hn) as W. by rewrite (vv_node _ _ _ _ W).
Qed.

Lemma proposal_nodup s view :
  vcs_ok s → NoDup (vc_NodeID <$> sorted_votes (inner (st_ViewChangeVotes s) view)).
Proof.
  intros V. rewrite sorted_votes_nodes; [apply NoDup_sorted_keys|].
  intros n vc Hn. unfold inner in Hn.
  destruct (st_ViewChangeVotes s !! view) as [m|] eqn:E; [|done].
  apply (vv_node _ _ _ _ (V _ _ _ _ E Hn)).
Qed.

Lemma BuildNewView_shape s newView height nv :
  BuildNewView newView height s = Some (nv, None) →
  let votes := inner (st_ViewChangeVotes s) newView in
  leaderForViewLocked s newView = Some (nv_LeaderID nv) ∧ nv_View nv = newView ∧
  nv_ViewChanges nv = sorted_votes votes ∧
  (commitQuorumLocked s <= Z.of_nat (size votes))%Z ∧
  ∃ sel b, select_prepared (sorted_votes votes) (zero_prepared_cert, zero_block) = Some (sel, b) ∧
    (nv_SelectedPrepared nv, nv_SelectedBlock nv) =
      if pc_BlockHash sel ≠? "" then (Some sel, Some b) else (None, None).
Proof.
  unfold BuildNewView. destruct (leaderForViewLocked s newView) as [l|]; [|done].
  cbn [mbind option_bind]. case_if; [done|]. cbv zeta. case_if; [done|].
  destruct (select_prepared _ _) as [[sel b]|] eqn:Hsel; [|done]. bool_props.
  destruct (pc_BlockHash sel ≠? "") eqn:Hne; intros [= <-]; cbn;
    (split_and!; auto; exists sel, b; split; [done|]); by rewrite Hne.
Qed.

Lemma BuildNewView_validates s s2 newView height nv :
  vcs_ok s → BuildNewView newView height s = Some (nv, None) →
  st_ValidatorSet s2 = st_ValidatorSet s → st_InitialLeaderID s2 = st_InitialLeaderID s →
  st_ViewID s2 <= newView → validateNewViewLocked s2 nv = Some None.
Proof.
  intros V H E1 E2 Hview.
  apply BuildNewView_shape in H as (Hl & Hv & Hvc & Hq & sel & b & Hsel & Hs). cbv zeta in *.
  set (votes := inner (st_ViewChangeVotes s) newView) in *.
  assert (check_view_changes s2 nv ∅ (zero_prepared_cert, zero_block) (nv_ViewChanges nv)
    = inr (sel, b)) as Hloop.
  { rewrite Hvc. apply check_view_changes_select; [done|by apply proposal_nodup|set_solver|].
    intros vc Hin. apply (proposal_votes s newView vc V) in Hin. rewrite Hv. split.
    - by eapply vc_vote_ext; [..|exact Hin].
    - pose proof (vv_leader _ _ _ _ Hin). congruence. }
  unfold validateNewViewLocked. rewrite Hv.
  destruct (N.ltb_spec newView (st_ViewID s2)); [lia|].
  rewrite (leaderForView_ext s2 s), Hl by done. cbn [mbind option_bind].
  rewrite bool_decide_eq_true_2 by done. cbn [negb].
  rewrite Hloop. unfold commitQuorumLocked in *. rewrite E1, Hvc, length_sorted_votes. fold votes.
  destruct (Z.ltb_spec (Z.of_nat (size votes)) (Quorum (Z.of_nat (length (st_ValidatorSet s)))));
    [lia|].
  apply check_view_changes_loop in Hloop as [_ Hev _ _ _ _]; [|done]. simpl in Hev.
  destruct (decide (pc_BlockHash sel = "")) as [Hne|Hne].
  - rewrite bool_decide_eq_true_2 in * by done. cbn [negb] in Hs.
    apply pair_equal_spec in Hs as [-> ->]. by rewrite !bool_decide_eq_false_2 by (by intros [? ?]).
  - rewrite bool_decide_eq_false_2 in * by done. cbn [negb] in Hs.
    apply pair_equal_spec in Hs as [-> ->]. destruct (Hev Hne) as (_ & B1 & _ & B2).
    rewrite B2, B1. by rewrite !bool_decide_eq_true_2 by done.
Qed.

(** ** The rotation of leaders *)

Lemma leader_base_bounds initial vs : ∀ i, (0 <= i)%Z →
  (0 <= leader_base initial i vs < Z.max 1 (i + Z.of_nat (length vs)))%Z.
Proof.
  induction vs as [|v vs IH]; intros i Hi; simpl; [lia|].
  case_if; [lia|]. specialize (IH (i + 1)%Z). lia.
Qed.

Lemma leader_base_initial initial vs : ∀ i, (0 <= i)%Z → initial ∈ vs →
  (i <= leader_base initial i vs)%Z ∧
  vs !! Z.to_nat (leader_base initial i vs - i) = Some initial.
Proof.
  induction vs as [|v vs IH]; intros i Hi Hin; [by apply elem_of_nil in Hin|]. simpl.
  case_if; bool_props; [subst; split; [lia|by rewrite Z.sub_diag]|].
  apply elem_of_cons in Hin as [->|Hin]; [done|].
  destruct (IH (i + 1)%Z) as [Hle Hl]; [lia|done|]. split; [lia|].
  replace (Z.to_nat (leader_base initial (i + 1) vs - i))
    with (S (Z.to_nat (leader_base initial (i + 1) vs - (i + 1)))) by lia. done.
Qed.

Definition leader_start (s : State) : Z := leader_base (st_InitialLeaderID s) 0 (st_ValidatorSet s).

Lemma leader_start_bounds s :
  st_ValidatorSet s ≠ [] → (0 <= leader_start s < Z.of_nat (length (st_ValidatorSet s)))%Z.
Proof.
  intros Hne. pose proof (leader_base_bounds (st_InitialLeaderID s) (st_ValidatorSet s) 0).
  unfold leader_start. destruct (st_ValidatorSet s); [done|]. cbn [length] in *. lia.
Qed.

Lemma leaderForView_small s view :
  st_ValidatorSet s ≠ [] → (Z.of_N view + Z.of_nat (length (st_ValidatorSet s)) <= max_int64)%Z →
  leaderForViewLocked s view =
    st_ValidatorSet s !! Z.to_nat ((leader_start s + Z.of_N view)
                                   mod Z.of_nat (length (st_ValidatorSet s))).
Proof.
  intros Hne Hb. pose proof (leader_start_bounds s Hne) as Hs.
  unfold leaderForViewLocked.
  destruct (st_ValidatorSet s) as [|v0 vs] eqn:E; [done|]. rewrite <- E in *. clear E.
  fold (leader_start s).
  assert (int_of_u64 view = Z.of_N view) as ->.
  { apply i64_wrap_small. unfold min_int64, max_int64 in *. lia. }
  assert (i64_add (leader_start s) (Z.of_N view) = leader_start s + Z.of_N view)%Z as ->.
  { apply i64_wrap_small. unfold min_int64, max_int64 in *. lia. }
  rewrite Z.rem_mod_nonneg by lia.
  destruct (Z.ltb_spec ((leader_start s + Z.of_N view) mod Z.of_nat (length (st_ValidatorSet s))) 0);
    [|done].
  pose proof (Z.mod_pos_bound (leader_start s + Z.of_N view) (Z.of_nat (length (st_ValidatorSet s)))).
  lia.
Qed.

(** An index past the sign bit: the remainder is negative and the slice access
    panics, unless the validator count divides it. *)
Lemma leaderForView_panics s view :
  st_ValidatorSet s ≠ [] →
  (max_int64 < Z.of_N view <= 2 ^ 64 - Z.of_nat (length (st_ValidatorSet s)))%Z →
  (Z.of_nat (length (st_ValidatorSet s)) <= 2 ^ 62)%Z →
  ((leader_start s + Z.of_N view - 2 ^ 64) mod Z.of_nat (length (st_ValidatorSet s)) ≠ 0)%Z →
  leaderForViewLocked s view = None.
Proof.
  intros Hne Hv Hn Hmod. pose proof (leader_start_bounds s Hne) as Hs.
  unfold leaderForViewLocked.
  destruct (st_ValidatorSet s) as [|v0 vs] eqn:E; [done|]. rewrite <- E in *. clear E.
  fold (leader_start s).
  set (n := Z.of_nat (length (st_ValidatorSet s))) in *.
  assert (int_of_u64 view = Z.of_N view - 2 ^ 64)%Z as -> by (apply i64_wrap_high; lia).
  assert (i64_add (leader_start s) (Z.of_N view - 2 ^ 64) = leader_start s + Z.of_N view - 2 ^ 64)%Z
    as ->.
  { unfold i64_add. rewrite i64_wrap_small; unfold min_int64, max_int64 in *; lia. }
  set (x := (leader_start s + Z.of_N view - 2 ^ 64)%Z) in *.
  assert (Z.rem x n <= 0)%Z as Hle by (apply Z.rem_nonpos; lia).
  assert (Z.rem x n ≠ 0)%Z as Hnz.
  { intros Hz. apply Hmod. apply Z.rem_divide in Hz; [|lia]. by apply Z.mod_divide; [lia|]. }
  destruct (Z.ltb_spec (Z.rem x n) 0); [done|lia].
Qed.

(** Within [n] consecutive views every validator leads. *)
Lemma leader_fair s start node :
  node ∈ st_ValidatorSet s →
  (Z.of_N start + 2 * Z.of_nat (length (st_ValidatorSet s)) <= max_int64)%Z →
  ∃ view, start <= view ∧ view < start + N.of_nat (length (st_ValidatorSet s)) ∧
    leaderForViewLocked s view = Some node.
Proof.
  intros Hin Hb. apply list_elem_of_lookup in Hin as [k Hk].
  pose proof (lookup_lt_Some _ _ _ Hk) as Hlt.
  assert (st_ValidatorSet s ≠ []) as Hne by by destruct (st_ValidatorSet s).
  set (n := Z.of_nat (length (st_ValidatorSet s))) in *.
  set (d := ((Z.of_nat k - leader_start s - Z.of_N start) mod n)%Z).
  assert (0 <= d < n)%Z as Hd by (apply Z.mod_pos_bound; lia).
  exists (start + Z.to_N d). split_and!; [lia|lia|].
  rewrite leaderForView_small by (try done; lia). fold n.
  replace ((leader_start s + Z.of_N (start + Z.to_N d)) mod n)%Z with (Z.of_nat k);
    [by rewrite Nat2Z.id|].
  rewrite N2Z.inj_add, Z2N.id by lia. unfold d.
  rewrite Z.add_assoc, Zplus_mod_idemp_r.
  replace (leader_start s + Z.of_N start + (Z.of_nat k - leader_start s - Z.of_N start))%Z
    with (Z.of_nat k) by lia.
  symmetry. apply Z.mod_small. lia.
Qed.

(** ** The prepared evidence a replica reports *)

Definition cert_lt (c1 c2 : PreparedCertificate) : Prop :=
  pc_View c1 < pc_View c2 ∨ (pc_View c1 = pc_View c2 ∧ pc_Height c1 < pc_Height c2).

(** The entries of [PreparedByHeight] are filed under their own height. *)
Definition entries_ok (l : list (N * PreparedCertificate)) : Prop :=
  ∀ q c, (q, c) ∈ l → pc_Height c = q ∧ pc_BlockHash c ≠ "".

(** What the loop chooses: the greatest certificate up to the height. *)
Definition chosen_from (s : State) (height : N) (l : list (N * PreparedCertificate))
    (r : PreparedCertificate * Block) : Prop :=
  ((∀ q c, (q, c) ∈ l → height < q) ∧ r = (zero_prepared_cert, zero_block)) ∨
  ∃ q c, (q, c) ∈ l ∧ q <= height ∧ r = (c, default zero_block (st_PreparedBlocks s !! q)) ∧
    ∀ q' c', (q', c') ∈ l → q' <= height → q' = q ∨ cert_lt c' c.

Lemma choose_prepared_spec s height l :
  entries_ok l → NoDup l.*1 → chosen_from s height l (choose_prepared s l height).
Proof.
  unfold choose_prepared. induction l as [|[q c] l IH] using rev_ind; intros He Hnd.
  { left. split; [by intros ? ? ?%elem_of_nil|done]. }
  rewrite foldl_app. cbn [foldl]. rewrite fmap_app in Hnd. apply NoDup_app in Hnd as (Hnd & Hnin & _).
  specialize (IH (λ q' c' H, He q' c' (proj2 (elem_of_app _ _ _) (or_introl H))) Hnd).
  destruct (He q c) as [Hq Hc]; [set_solver|].
  assert (∀ q' c', (q', c') ∈ l ++ [(q, c)] → (q', c') ∈ l ∨ (q' = q ∧ c' = c)) as Hin
    by (intros q' c'; rewrite elem_of_app, list_elem_of_singleton; intros [?|[= -> ->]]; auto).
  set (r := foldl _ _ l) in *. unfold choose_prepared_step at 1.
  destruct (N.ltb_spec height q) as [Hlt|Hle].
  { destruct IH as [[Hno ->]|(q0 & c0 & H0 & Hle0 & -> & Hmax)]; [left|right].
    - split; [|done]. intros q' c' [H'|[-> ->]]%Hin; eauto.
    - exists q0, c0. split_and!; [set_solver|done|done|].
      intros q' c' [H'|[-> ->]]%Hin Hq'; [eauto|lia]. }
  right. unfold higher_prepared. destruct IH as [[Hno ->]|(q0 & c0 & H0 & Hle0 & -> & Hmax)].
  { cbn. exists q, c. split_and!; [set_solver|done|done|].
    intros q' c' [H'|[-> ->]]%Hin Hq'; [|by left]. specialize (Hno _ _ H'). lia. }
  destruct (He q0 c0) as [Hq0 Hc0]; [set_solver|]. cbn [fst].
  assert (q ≠ q0) as Hne.
  { intros ->. apply (Hnin q0); [by apply (list_elem_of_fmap_2 fst l (q0, c0))|by left]. }
  rewrite (bool_decide_eq_false_2 (pc_BlockHash c0 = "")) by done. cbn [orb].
  case_if.
  - exists q, c. split_and!; [set_solver|done|done|].
    assert (cert_lt c0 c) as Hlt.
    { apply orb_true_iff in Heqb as [H|H]; bool_props; unfold cert_lt; lia. }
    intros q' c' [H'|[-> ->]]%Hin Hq'; [|by left].
    right. destruct (Hmax _ _ H' Hq') as [->|H1]; [|unfold cert_lt in *; lia].
    by rewrite (NoDup_fst_eq l q0 c' c0 Hnd H' H0).
  - exists q0, c0. split_and!; [set_solver|done|done|].
    intros q' c' [H'|[-> ->]]%Hin Hq'; [eauto|]. right.
    apply orb_false_iff in Heqb as [B1 B2]. bool_props. unfold cert_lt.
    apply andb_false_iff in B2 as [B2|B2]; bool_props; lia.
Qed.

Lemma chosen_from_unique s height l l' r r' :
  l ≡ₚ l' → NoDup l.*1 → chosen_from s height l r → chosen_from s height l' r' → r = r'.
Proof.
  intros Hp Hnd H H'.
  destruct H as [[Hno ->]|(q & c & Hin & Hle & -> & Hmax)],
    H' as [[Hno' ->]|(q' & c' & Hin' & Hle' & -> & Hmax')]; [done| | |].
  - rewrite <- Hp in Hin'. specialize (Hno _ _ Hin'). lia.
  - rewrite Hp in Hin. specialize (Hno' _ _ Hin). lia.
  - rewrite <- Hp in Hin'. destruct (Hmax _ _ Hin' Hle') as [->|L].
    { by rewrite (NoDup_fst_eq l q c c' Hnd Hin Hin'). }
    rewrite Hp in Hin. destruct (Hmax' _ _ Hin Hle) as [->|L'].
    { rewrite <- Hp in Hin. by rewrite (NoDup_fst_eq l q' c c' Hnd Hin Hin'). }
    unfold cert_lt in *. lia.
Qed.

Lemma prepared_entries_ok univ s order :
  wf univ s → order ≡ₚ map_to_list (st_PreparedByHeight s) → entries_ok order.
Proof.
  intros W Hp q c Hin. rewrite Hp in Hin. apply elem_of_map_to_list in Hin.
  destruct (wf_prepared _ _ W _ _ Hin) as (Hq & _ & [votes Hv] & _).
  split; [done|]. exact (cert_nonempty _ _ Hv).
Qed.

Lemma choose_prepared_order univ s order height :
  wf univ s → order ≡ₚ map_to_list (st_PreparedByHeight s) →
  chosen_from s height order (choose_prepared s order height) ∧
  choose_prepared s order height =
    choose_prepared s (map_to_list (st_PreparedByHeight s)) height.
Proof.
  intros W Hp.
  assert (NoDup (map_to_list (st_PreparedByHeight s)).*1) as Hnd by apply NoDup_fst_map_to_list.
  assert (NoDup order.*1) as Hnd' by by rewrite Hp.
  assert (chosen_from s height order (choose_prepared s order height)) as H1
    by (apply choose_prepared_spec; [by eapply prepared_entries_ok|done]).
  split; [done|]. eapply chosen_from_unique; [exact Hp|exact Hnd'|exact H1|].
  apply choose_prepared_spec; [by eapply prepared_entries_ok|done].
Qed.
