(* ===== verification/PbftCheckpoint.v ===== *)
(** * Checkpoints

    The checkpoint votes a replica collects, and what a stable checkpoint
    means: a validated certificate for a block the replica itself committed. *)
From S2P Require Import Prelude GoStd Tx Block PbftTypes PbftState PbftCert PbftInv PbftSteps PbftView PbftReach.
Local Open Scope N_scope.
#[local] Opaque Hash slotKey pad20.

(** ** Keys *)

(** Hashes and roots are hex strings: no separator in them. *)
Definition no_colon (s : string) : bool := negb (str_contains s ":").

Lemma no_colon_cons a s : no_colon (String a s) = true → a ≠ ":"%char ∧ no_colon s = true.
Proof.
  unfold no_colon. cbn [str_contains]. intros [H1 H2]%negb_true_iff%orb_false_elim.
  split; [|by rewrite H2]. intros ->. unfold has_prefix in H1. simpl in H1. by destruct s.
Qed.

(** A string with one separator splits in one way, whatever the other split
    looks like. *)
Lemma colon_split a b a' b' :
  no_colon a = true → no_colon b = true →
  (a +:+ String ":" b) = (a' +:+ String ":" b') → a = a' ∧ b = b'.
Proof.
  intros Ha Hb. revert a' Ha. induction a as [|x a IH]; intros [|y a'] Ha E;
    rewrite ?append_cons, ?append_nil in E; simplify_eq; try done.
  - exfalso. clear Ha. induction a' as [|z a' IH]; rewrite ?append_cons, ?append_nil in Hb;
      apply no_colon_cons in Hb as [? ?]; auto.
  - apply no_colon_cons in Ha as [_ Ha]. by edestruct (IH a') as [-> ->].
Qed.

Lemma checkpointKey_inj h bh sr h' bh' sr' :
  no_colon bh = true → no_colon sr = true →
  checkpointKey h bh sr = checkpointKey h' bh' sr' → h = h' ∧ bh = bh' ∧ sr = sr'.
Proof.
  unfold checkpointKey. intros Hb Hs E.
  destruct (digits_sep_inj (pad20 h) (pad20 h') ":"%char (bh +:+ ":" +:+ sr) (bh' +:+ ":" +:+ sr'))
    as [E1 E2]; auto using pad20_digits.
  apply (inj pad20) in E1. apply (colon_split bh sr bh' sr' Hb Hs) in E2. tauto.
Qed.

(** ** The collected votes *)

Definition checkpoints_ok (valid : string → bool) (M : gmap string (gmap string Checkpoint)) : Prop :=
  ∀ key m n v, M !! key = Some m → m !! n = Some v →
    valid n = true ∧ cp_NodeID v = n ∧
    key = checkpointKey (cp_Height v) (cp_BlockHash v) (cp_StateRoot v).

Lemma checkpoints_sub valid M M' : checkpoints_ok valid M → M' ⊆ M → checkpoints_ok valid M'.
Proof. intros H Hsub key m n v Hm Hv. eapply H; [by eapply lookup_weaken|done]. Qed.

Lemma checkpoints_add valid M msg :
  checkpoints_ok valid M → valid (cp_NodeID msg) = true →
  let key := checkpointKey (cp_Height msg) (cp_BlockHash msg) (cp_StateRoot msg) in
  checkpoints_ok valid (<[key := <[cp_NodeID msg := msg]> (inner M key)]> M).
Proof.
  cbv zeta. intros H Hv key m n v [[<- <-]|[Hne Hm]]%lookup_insert_Some Hn; [|by eapply H].
  apply lookup_insert_Some in Hn as [[<- <-]|[_ Hn]]; [done|].
  unfold inner in Hn. destruct (M !! _) eqn:E; [|done]. by eapply H.
Qed.

Definition ck_ok (s : State) : Prop := checkpoints_ok (isValidatorLocked s) (st_CheckpointVotes s).

Lemma ckvotes_prune_votes h s : st_CheckpointVotes (prune_votes h s) ⊆ st_CheckpointVotes s.
Proof. apply map_keep_sub. Qed.

Lemma ckvotes_pruneStable h s : st_CheckpointVotes (pruneStableLocked h s) ⊆ st_CheckpointVotes s.
Proof.
  unfold pruneStableLocked. cbv zeta. rewrite (frames st_CheckpointVotes).
  set (s1 := prune_slots _ _).
  replace (st_CheckpointVotes s) with (st_CheckpointVotes s1)
    by (unfold s1; by rewrite !(frames st_CheckpointVotes)).
  apply ckvotes_prune_votes.
Qed.

(** The votes a checkpoint message is counted with. *)
Definition checkpoint_votes (msg : Checkpoint) (s : State) : gmap string Checkpoint :=
  <[cp_NodeID msg := msg]> (inner (st_CheckpointVotes s)
    (checkpointKey (cp_Height msg) (cp_BlockHash msg) (cp_StateRoot msg))).

Lemma ck_ok_AcceptCheckpoint now msg s : ck_ok s → ck_ok (AcceptCheckpoint now msg s).1.
Proof.
  intros K. pose proof (forward_AcceptCheckpoint now msg s) as [E _].
  apply pair_equal_spec in E as [_ E]. unfold ck_ok.
  rewrite (isValidator_ext _ _ E). clear E. unfold AcceptCheckpoint. do 3 (case_if; [done|]).
  bool_props.
  pose proof (checkpoints_add _ _ msg K Heqb) as K'. cbv zeta in K'.
  set (s1 := set_CheckpointVotes _ s).
  change (<[_ := _]> (st_CheckpointVotes s)) with (st_CheckpointVotes s1) in K'.
  case_if; [done|]. case_if; [done|]. cbn [fst]. rewrite (frames st_CheckpointVotes).
  case_if; [|done]. eapply checkpoints_sub; [exact K'|].
  etrans; [apply ckvotes_pruneStable|]. by rewrite !(frames st_CheckpointVotes).
Qed.

Lemma ckvotes_acceptViewChange msg s s' r :
  acceptViewChangeLocked msg s = Some (s', r) → st_CheckpointVotes s' = st_CheckpointVotes s.
Proof.
  unfold acceptViewChangeLocked. repeat (case_if; [by intros [= <- _]|]).
  destruct (leaderForViewLocked s (vc_NewView msg)); [|done]. cbn.
  repeat case_match; by intros [= <- _].
Qed.

Lemma ckvotes_AcceptNewView now msg s s' r :
  AcceptNewView now msg s = Some (s', r) → st_CheckpointVotes s' = st_CheckpointVotes s.
Proof.
  intros H. destruct r as [[b has] [e|]].
  { by apply AcceptNewView_rejected in H as ->. }
  apply AcceptNewView_ok in H as [F [[_ ->]|[Hfw H]]]; [by rewrite (frames st_CheckpointVotes)|].
  set (s0 := set_AcceptedNewViews _ s) in *.
  change (st_CheckpointVotes s) with (st_CheckpointVotes s0). clearbody s0.
  destruct H as [(_ & -> & _)|(cert & b' & _ & _ & -> & _)]; [done|].
  unfold adopt. by rewrite !(frames st_CheckpointVotes).
Qed.

Lemma ck_ok_step o s s' : ck_ok s → step o s = Some s' → ck_ok s'.
Proof.
  intros K H. destruct (forward_step _ _ _ H) as [E _]. apply pair_equal_spec in E as [_ E].
  assert (st_CheckpointVotes s' = st_CheckpointVotes s → ck_ok s') as same
    by (intros E'; unfold ck_ok; by rewrite E', (isValidator_ext _ _ E)).
  destruct (is_quiet o) eqn:Hq.
  { apply same. by eapply quiet_checkpoints, quiet_step. }
  destruct o; try discriminate Hq; cbn [step] in H.
  - apply fmap_Some in H as ([s1 r] & H & ->). by eapply same, ckvotes_acceptViewChange.
  - apply fmap_Some in H as ([s1 r] & H & ->). by eapply same, ckvotes_AcceptNewView.
  - apply same. apply OnNewView_cases in H as [[r H]|[_ [->|[_ ->]]]]; [by eapply ckvotes_AcceptNewView|done|by rewrite !(frames st_CheckpointVotes)].
  - injection H as <-. by apply ck_ok_AcceptCheckpoint.
Qed.

Lemma ck_ok_reach ok node shard leader validators now s :
  reach ok (NewState node shard leader validators now) s → ck_ok s.
Proof.
  induction 1 as [|s o s' _ IH _ H]; [|by eapply ck_ok_step].
  intros key m n v Hm. destruct (lookup_empty_Some _ _ Hm).
Qed.

(** ** A stable checkpoint *)

Lemma AcceptCheckpoint_stable now msg s s' n cert :
  AcceptCheckpoint now msg s = (s', (true, n, cert, None)) →
  isValidatorLocked s (cp_NodeID msg) = true ∧ cp_Height msg ≠ 0 ∧
  cp_BlockHash msg ≠ "" ∧ cp_StateRoot msg ≠ "" ∧
  n = Z.of_nat (size (checkpoint_votes msg s)) ∧ (commitQuorumLocked s <= n)%Z ∧
  cert = MkCheckpointCert (cp_Height msg) (cp_BlockHash msg) (cp_StateRoot msg)
           (sorted_votes (checkpoint_votes msg s)) ∧
  (∃ b, st_CommittedBlocks s !! cp_Height msg = Some b ∧ BlockHash b = cp_BlockHash msg) ∧
  is_Some (checkpoint_votes msg s !! st_NodeID s) ∧
  cpc_Height (st_StableCheckpoint s) < cp_Height msg ∧
  ∃ s0, s' = set_LastProgressTime now (pruneStableLocked (cp_Height msg)
    (set_HighWatermark (u64_add (cp_Height msg) (st_WatermarkWindow s))
      (set_LowWatermark (cp_Height msg) (set_StableCheckpoint cert s0)))) ∧
    core s0 = core s.
Proof.
  unfold AcceptCheckpoint. do 3 (case_if; [done|]).
  fold (checkpoint_votes msg s). set (s1 := set_CheckpointVotes _ s).
  case_if; [done|]. destruct (checkpoint_installed s1 msg) eqn:Hins; [|done].
  destruct (cpc_Height (st_StableCheckpoint s1) <? cp_Height msg) eqn:Hnew; [|done].
  assert (core s1 = core s) as Ec by done.
  assert (inner (st_CheckpointVotes s1) (checkpointKey (cp_Height msg) (cp_BlockHash msg)
    (cp_StateRoot msg)) = checkpoint_votes msg s) as Ei
    by (unfold s1, inner; cbn; by rewrite lookup_insert_eq).
  unfold checkpoint_installed in Hins. rewrite Ei in Hins.
  change (st_CommittedBlocks s1) with (st_CommittedBlocks s) in Hins.
  change (st_NodeID s1) with (st_NodeID s) in Hins.
  change (st_StableCheckpoint s1) with (st_StableCheckpoint s) in Hnew.
  change (commitQuorumLocked s1) with (commitQuorumLocked s) in *. bool_props.
  destruct (st_CommittedBlocks s !! cp_Height msg) as [b|] eqn:Hb; [|done].
  destruct (checkpoint_votes msg s !! st_NodeID s) as [v|] eqn:Hv; [|done]. bool_props.
  intros [Hs Hr]%pair_equal_spec. injection Hr as <- <-.
  split_and!; auto; [by exists b|]. exists s1. split; [by rewrite <- Hs|done].
Qed.

(** The collected votes of one key make a certificate. *)
Lemma checkpoint_votes_certify s msg :
  ck_ok s → isValidatorLocked s (cp_NodeID msg) = true →
  no_colon (cp_BlockHash msg) = true → no_colon (cp_StateRoot msg) = true →
  ∀ n v, checkpoint_votes msg s !! n = Some v →
    cp_NodeID v = n ∧ isValidatorLocked s n = true ∧
    checkpoint_matches (MkCheckpointCert (cp_Height msg) (cp_BlockHash msg) (cp_StateRoot msg)
      (sorted_votes (checkpoint_votes msg s))) v = true.
Proof.
  intros K Hval Hb Hs n v Hv.
  destruct (checkpoints_add _ _ msg K Hval _ _ n v (lookup_insert_eq _ _ _) Hv) as (? & ? & E).
  apply checkpointKey_inj in E as (E1 & E2 & E3); [|done..].
  split_and!; auto. unfold checkpoint_matches. cbn.
  by rewrite E1, E2, E3, !bool_decide_eq_true_2.
Qed.

Lemma locked_pruneStable h s hash b :
  st_LockedBlocks (pruneStableLocked h s) !! hash = Some b → h < Height b.
Proof.
  unfold pruneStableLocked. cbv zeta. rewrite !(frames st_LockedBlocks).
  intros [Hb Hd]%lookup_map_keep_Some. apply negb_true_iff in Hd.
  change (st_LockedBlocks s !! hash = Some b) in Hb.
  unfold hash_done in Hd. rewrite Hb in Hd. by apply N.leb_gt in Hd.
Qed.

(** C31: stable checkpoints. When [AcceptCheckpoint] of a reachable replica reports
    a newly stable checkpoint (with a block hash and a state root free of the key
    separator), its certificate carries a quorum of votes and validates, the
    replica has itself committed that block and voted for that state, the low
    watermark moves up to it, and no block at or below it stays locked. *)
Theorem stable_checkpoint_certified (ok : op → Prop) node shard leader validators now0
    (s : State) now (msg : Checkpoint) s' n cert :
  reach ok (NewState node shard leader validators now0) s →
  AcceptCheckpoint now msg s = (s', (true, n, cert, None)) →
  no_colon (cp_BlockHash msg) = true → no_colon (cp_StateRoot msg) = true →
  validateCheckpointCertificateLocked s cert = None ∧
  Z.of_nat (length (cpc_Checkpoints cert)) = n ∧ (commitQuorumLocked s <= n)%Z ∧
  (∃ b, st_CommittedBlocks s !! cp_Height msg = Some b ∧ BlockHash b = cpc_BlockHash cert) ∧
  (∃ v, v ∈ cpc_Checkpoints cert ∧ cp_NodeID v = st_NodeID s) ∧
  st_StableCheckpoint s' = cert ∧ st_LowWatermark s' = cp_Height msg ∧
  cpc_Height (st_StableCheckpoint s) < cpc_Height (st_StableCheckpoint s') ∧
  ∀ hash b, st_LockedBlocks s' !! hash = Some b → cp_Height msg < Height b.
Proof.
  intros R H Hb Hs. pose proof (ck_ok_reach _ _ _ _ _ _ _ R) as K.
  apply AcceptCheckpoint_stable in H as (Hval & Z1 & Z2 & Z3 & -> & Hq & Hc & HB & [v Hv] & Hlt
    & s0 & -> & _).
  pose proof (checkpoint_votes_certify s msg K Hval Hb Hs) as Hvotes. rewrite <- Hc in Hvotes.
  assert (cpc_Height cert = cp_Height msg ∧ cpc_BlockHash cert = cp_BlockHash msg ∧
    cpc_StateRoot cert = cp_StateRoot msg ∧
    cpc_Checkpoints cert = sorted_votes (checkpoint_votes msg s)) as (C1 & C2 & C3 & C4)
    by (by subst cert). clear Hc.
  set (s1 := set_HighWatermark _ _).
  assert (progress (set_LastProgressTime now (pruneStableLocked (cp_Height msg) s1)) = progress s1)
    as E by (rewrite (frames progress); apply progress_pruneStable).
  apply pair_equal_spec in E as [_ E].
  split_and!.
  - unfold validateCheckpointCertificateLocked. rewrite C1, C2, C3, C4, length_sorted_votes.
    rewrite !bool_decide_eq_false_2 by done. cbn [orb].
    destruct (Z.ltb_spec (Z.of_nat (size (checkpoint_votes msg s))) (commitQuorumLocked s)); [lia|].
    by apply check_sorted_votes.
  - by rewrite C4, length_sorted_votes.
  - done.
  - by rewrite C2.
  - exists v. rewrite C4, elem_of_sorted_votes. split; [by eexists|by apply (Hvotes _ _ Hv)].
  - by rewrite E.
  - rewrite (frames st_LowWatermark). unfold pruneStableLocked. cbv zeta.
    by rewrite !(frames st_LowWatermark).
  - rewrite E. change (st_StableCheckpoint s1) with cert. by rewrite C1.
  - intros hash b. rewrite (frames st_LockedBlocks). apply locked_pruneStable.
Qed.
