(* ===== verification/PbftTheorems.v ===== *)
(** * What the consensus core guarantees

    The theorems about replicas of [consensus/pbft], each with a run of a
    four-validator cluster that meets its hypotheses. *)
From S2P Require Import Prelude GoStd Tx Block PbftTypes PbftState PbftCert PbftInv PbftSteps PbftView PbftReach PbftLive PbftCheckpoint.
Local Open Scope N_scope.

(** ** A small cluster *)

Module Demo.

Definition validators : list string := ["n0"; "n1"; "n2"; "n3"].
Definition replica (id : string) : State := NewState id "shard0" "n0" validators 0.

Definition block1 : Block := Eval vm_compute in
  AssignHash (MkBlock "" "shard0" 1 "genesis" "n0" 7 (Some ["tx1"]) [] "" "empty"
    "pending_not_executed" "pending_not_executed" "" false false [] None None).
Definition hash1 : string := Eval vm_compute in BlockHash block1.

Definition univ (b : Block) : Prop := b = block1.
Lemma univ_hash b1 b2 : univ b1 → univ b2 → Hash b1 = Hash b2 → Height b1 = Height b2.
Proof. by intros -> ->. Qed.

Definition preprepare : PrePrepare := MkPrePrepare 0 1 1 "n0" hash1 block1 "".
Definition prepare (id : string) : Prepare := MkPrepare 0 1 1 id hash1 "".
Definition commit (id : string) : Commit := MkCommit 0 1 1 id hash1 "".

(** A vote arrives before the proposal, then the round completes. *)
Definition round : list op :=
  [OpPrepare 1 (prepare "n2"); OpPrePrepare 2 preprepare; OpPrepare 3 (prepare "n0");
   OpPrepare 4 (prepare "n1"); OpCommit 5 (commit "n0"); OpCommit 6 (commit "n1")].

Definition prepared_state (id : string) : State := default (replica id) (run round (replica id)).
Definition committed_state (id : string) : State :=
  default (replica id) (run (round ++ [OpCommit 7 (commit "n3")]) (replica id)).

Lemma round_ok : Forall (op_ok univ) (round ++ [OpCommit 7 (commit "n3")]).
Proof. repeat constructor. Qed.

Lemma prepared_reach id :
  defined (run round (replica id)) = true → reach (op_ok univ) (replica id) (prepared_state id).
Proof.
  intros H. apply (run_reach _ round); [repeat constructor|exact (defined_default _ _ H)].
Qed.

Lemma committed_reach id :
  defined (run (round ++ [OpCommit 7 (commit "n3")]) (replica id)) = true →
  reach (op_ok univ) (replica id) (committed_state id).
Proof.
  intros H. apply (run_reach _ (round ++ [OpCommit 7 (commit "n3")])); [apply round_ok|].
  exact (defined_default _ _ H).
Qed.

(** The validators give up on view 0; the next leader collects their reports. *)
Definition entries (id : string) : list (N * PreparedCertificate) :=
  map_to_list (st_PreparedByHeight (prepared_state id)).
Definition view_change (id : string) : ViewChange :=
  from_option (λ r, r.2.1) zero_view_change
    (BuildViewChange (entries id) 1 1 (prepared_state id)).
Definition collect : list op := (λ id, OpViewChange (view_change id)) <$> ["n1"; "n2"; "n3"].
Definition next_leader : State :=
  default (prepared_state "n1") (run (round ++ collect) (replica "n1")).
Definition new_view : NewView :=
  from_option fst zero_new_view (BuildNewView 1 1 next_leader).

Definition entering : option (State * (Block * bool * error)) :=
  AcceptNewView 9 new_view (prepared_state "n2").
Definition entered : State * (Block * bool * error) :=
  default (replica "n2", ((zero_block, false), Some "panic")) entering.

Lemma next_leader_reach :
  defined (run (round ++ collect) (replica "n1")) = true →
  reach (op_ok univ) (replica "n1") next_leader.
Proof.
  intros H. apply (run_reach _ (round ++ collect)); [repeat constructor|].
  exact (defined_default _ _ H).
Qed.

(** After the commit, three validators vote for the same checkpoint. *)
Definition checkpoint (id : string) : Checkpoint := MkCheckpoint 1 id hash1 "c0ffee" "".
Definition checkpointing : list op :=
  round ++ [OpCommit 7 (commit "n3"); OpCheckpoint 8 (checkpoint "n0");
            OpCheckpoint 9 (checkpoint "n1")].
Definition voted_state : State := default (replica "n1") (run checkpointing (replica "n1")).

Lemma voted_reach :
  defined (run checkpointing (replica "n1")) = true → reach (op_ok univ) (replica "n1") voted_state.
Proof.
  intros H. apply (run_reach _ checkpointing); [repeat constructor|].
  exact (defined_default _ _ H).
Qed.

End Demo.

(** ** Invariant and agreement *)

(** C21: in every state a replica reaches from [NewState] through any sequence of
    its operations, each locked slot of the current view holds a block of that
    slot's height, votes are counted once per validator for the current view and
    the locked block, and every stored commit certificate validates. The blocks and
    certificates the messages carry are from a universe in which blocks with one hash
    have one height, and the legacy entry point [OnNewView] is called only with
    messages that carry view changes ([legacy_new_view_mixes_votes] is a run with
    one that carries none). *)
Theorem reachable_wf (univ : Block → Prop) node shard leader validators now (s : State) :
  (∀ b1 b2, univ b1 → univ b2 → Hash b1 = Hash b2 → Height b1 = Height b2) →
  reach (op_ok univ) (NewState node shard leader validators now) s →
  wf univ s.
Proof. intros Hu R. eapply wf_reach; [done| |exact R]. apply wf_NewState. Qed.

Lemma reachable_wf_witness : wf Demo.univ (Demo.committed_state "n1").
Proof.
  apply (reachable_wf _ "n1" "shard0" "n0" Demo.validators 0); [apply Demo.univ_hash|].
  apply Demo.committed_reach. vm_compute. reflexivity.
Defined.

(** Agreement. Two replicas of one shard that hold commit certificates for
    the same height and view, however they got them, hold them for the same
    block, as long as at most [FaultTolerance n] of the [n] validators are faulty
    and a correct validator signs one COMMIT per view and sequence. *)
Theorem reachable_commits_agree (univ : Block → Prop) node1 node2 shard leader validators now1 now2
    (s1 s2 : State) (height : N) (c1 c2 : CommitCertificate)
    (faulty : gset string) (signed : Commit → Prop) :
  (∀ b1 b2, univ b1 → univ b2 → Hash b1 = Hash b2 → Height b1 = Height b2) →
  validators ≠ [] → sane_count (Z.of_nat (length validators)) →
  reach (op_ok univ) (NewState node1 shard leader validators now1) s1 →
  reach (op_ok univ) (NewState node2 shard leader validators now2) s2 →
  st_CommitCertificates s1 !! height = Some c1 →
  st_CommitCertificates s2 !! height = Some c2 →
  cc_View c1 = cc_View c2 →
  (∀ v, v ∈ cc_Commits c1 ++ cc_Commits c2 → signed v) →
  (Z.of_nat (size faulty) <= FaultTolerance (Z.of_nat (length validators)))%Z →
  (∀ v w, signed v → signed w → c_NodeID v = c_NodeID w → c_NodeID v ∉ faulty →
          c_View v = c_View w → c_Sequence v = c_Sequence w → c_BlockHash v = c_BlockHash w) →
  cc_BlockHash c1 = cc_BlockHash c2.
Proof.
  intros Hu Hne Hsane R1 R2 H1 H2 Hv Hsig Hf Honest.
  assert (∀ node now s, reach (op_ok univ) (NewState node shard leader validators now) s →
    st_ValidatorSet s = sort_strings validators) as Hset.
  { intros node now s R. destruct (forward_reach _ _ _ R) as [E _].
    apply pair_equal_spec in E as [_ ->]. by apply NewState_validators. }
  destruct (wf_certs _ _ (wf_reach univ Hu _ _ (wf_NewState univ _ _ _ _ _) R1) _ _ H1) as [E1 V1].
  destruct (wf_certs _ _ (wf_reach univ Hu _ _ (wf_NewState univ _ _ _ _ _) R2) _ _ H2) as [E2 V2].
  rewrite (validateCommitCertificate_ext s2 s1) in V2
    by by rewrite (Hset _ _ _ R1), (Hset _ _ _ R2).
  assert (length (st_ValidatorSet s1) = length validators) as Hlen
    by (rewrite (Hset _ _ _ R1); apply length_sort_strings).
  apply (commit_certs_agree s1 c1 c2 faulty signed); rewrite ?Hlen; auto.
  - intros E. rewrite E in Hlen. by destruct validators.
  - rewrite (commit_cert_slot _ _ V1), (commit_cert_slot _ _ V2). congruence.
Qed.

Lemma reachable_commits_agree_witness :
  ∃ c1 c2, st_CommitCertificates (Demo.committed_state "n1") !! 1 = Some c1 ∧
           st_CommitCertificates (Demo.committed_state "n2") !! 1 = Some c2 ∧
           cc_BlockHash c1 = cc_BlockHash c2.
Proof.
  eexists _, _. split; [vm_compute; reflexivity|]. split; [vm_compute; reflexivity|].
  apply (reachable_commits_agree Demo.univ "n1" "n2" "shard0" "n0" Demo.validators 0 0
    (Demo.committed_state "n1") (Demo.committed_state "n2") 1 _ _ ∅
    (λ v, c_BlockHash v = Demo.hash1)).
  - apply Demo.univ_hash.
  - done.
  - vm_compute. done.
  - apply Demo.committed_reach. vm_compute. reflexivity.
  - apply Demo.committed_reach. vm_compute. reflexivity.
  - vm_compute. reflexivity.
  - vm_compute. reflexivity.
  - reflexivity.
  - apply Forall_forall. repeat constructor.
  - vm_compute. discriminate.
  - congruence.
Defined.

(** C22: when [AcceptCommit] of a reachable replica reports a committed block, the
    replica holds a quorum of matching COMMIT votes and prepared evidence for that
    block, stores it at its height, and stores a certificate for it that every
    replica of the shard validates. The replica was reached as in the invariant: from
    blocks among which one hash has one height, and without a message to the legacy
    entry point [OnNewView] that carries no view changes. *)
Theorem AcceptCommit_certifies (univ : Block → Prop) node shard leader validators now0
    (s : State) now (msg : Commit) s' n b :
  (∀ b1 b2, univ b1 → univ b2 → Hash b1 = Hash b2 → Height b1 = Height b2) →
  reach (op_ok univ) (NewState node shard leader validators now0) s →
  AcceptCommit now msg s = (s', (true, n, b, None)) →
  (Quorum (Z.of_nat (length (st_ValidatorSet s))) <= n)%Z ∧
  Height b = c_Height msg ∧ BlockHash b = c_BlockHash msg ∧ Hash b = c_BlockHash msg ∧
  st_CommittedBlocks s' !! Height b = Some b ∧
  (∃ p, st_PreparedByHeight s !! Height b = Some p ∧ pc_BlockHash p = BlockHash b ∧ backed s p) ∧
  ∃ cert, st_CommitCertificates s' !! Height b = Some cert ∧
    cc_BlockHash cert = BlockHash b ∧ cc_View cert = st_ViewID s ∧
    Z.of_nat (length (cc_Commits cert)) = n ∧
    ∀ s2, st_ValidatorSet s2 = st_ValidatorSet s → validateCommitCertificateLocked s2 cert = None.
Proof.
  intros Hu R H. pose proof (wf_reach univ Hu _ _ (wf_NewState univ _ _ _ _ _) R) as W.
  pose proof (wf_AcceptCommit univ now msg s W) as W'. rewrite H in W'.
  pose proof (progress_forward _ _ (quiet_progress _ _ (quiet_AcceptCommit now msg s))) as [F _].
  rewrite H in F. apply pair_equal_spec in F as [_ F]. cbn [fst] in *.
  apply AcceptCommit_reached in H as (Hn & Hq & Hb & Hne & Hv & Hs & Hl & Hne2 & (p & Hp & Ep)
    & HB & HC). cbv zeta in *.
  destruct (slot_block univ s _ _ _ W Hv Hl Hne2) as (b0 & Hb0 & Hh & _).
  assert (b = b0) as -> by (rewrite Hb; unfold locked_block; by rewrite Hb0).
  destruct (wf_locked _ _ W _ _ Hb0) as (L1 & L2 & _).
  assert (Height b0 = c_Height msg) as Hh' by congruence. rewrite Hh'.
  split_and!; auto.
  - by rewrite HB, Hh', lookup_insert_eq.
  - exists p. destruct (wf_prepared _ _ W _ _ Hp) as (_ & _ & ? & _). split_and!; congruence.
  - eexists. rewrite HC, lookup_insert_eq. split; [done|]. cbn.
    rewrite length_sorted_votes. split_and!; auto. intros s2 Hs2.
    rewrite (validateCommitCertificate_ext _ s') by congruence.
    destruct (wf_certs _ _ W' (c_Height msg) (MkCommitCert (c_View msg) (c_Sequence msg)
      (c_Height msg) (c_BlockHash msg) (sorted_votes (<[c_NodeID msg:=msg]>
         (inner (st_CommitVotes s) (c_BlockHash msg)))))) as [_ V]; [|exact V].
    by rewrite HC, lookup_insert_eq.
Qed.

Lemma AcceptCommit_certifies_witness :
  let r := AcceptCommit 7 (Demo.commit "n3") (Demo.prepared_state "n1") in
  r.2 = (true, 3%Z, Demo.block1, None) ∧
  st_CommittedBlocks r.1 !! Height Demo.block1 = Some Demo.block1.
Proof.
  split; [vm_compute; reflexivity|].
  eapply (AcceptCommit_certifies Demo.univ "n1" "shard0" "n0" Demo.validators 0
    (Demo.prepared_state "n1") 7 (Demo.commit "n3") _ 3).
  - apply Demo.univ_hash.
  - apply Demo.prepared_reach. vm_compute. reflexivity.
  - apply pair_eta_snd. vm_compute. reflexivity.
Defined.

(** A replica that has accepted one proposal for a slot accepts no other one
    there: in the voting phase of a view the PREPAREs it emits for a view and
    sequence all name one block. *)
Theorem no_conflicting_prepares now1 now2 (m1 m2 : PrePrepare) (s s1 s2 s3 : State)
    (p1 p2 : Prepare) :
  OnPrePrepare now1 m1 s = Some (s1, (p1, None)) →
  reach (λ o, voting o = true) s1 s2 →
  OnPrePrepare now2 m2 s2 = Some (s3, (p2, None)) →
  p_View p1 = p_View p2 → p_Sequence p1 = p_Sequence p2 →
  p_BlockHash p1 = p_BlockHash p2.
Proof.
  intros H1 R H2 Ev Es.
  apply slots_OnPrePrepare in H1 as [[_ ?]|(F1 & E1 & S1)]; [done|].
  apply slots_OnPrePrepare in H2 as [[_ ?]|(F2 & E2 & _)]; [done|].
  injection E1 as ->. injection E2 as ->. cbn in *.
  apply (pf_lock _ _ F2).
  - apply (slots_voting_reach s1 s2); [done| |rewrite (pf_hash _ _ F1); apply (pf_nonempty _ _ F1)].
    rewrite S1, <- (pf_view _ _ F2), <- Ev, <- (pf_seq _ _ F2), <- Es. apply lookup_insert_eq.
  - rewrite (pf_hash _ _ F1). apply (pf_nonempty _ _ F1).
Qed.

(** The proposal, a vote, and the proposal again. *)
Lemma no_conflicting_prepares_witness :
  let d := (Demo.replica "n1", (zero_prepare, Some "panic")) in
  let r1 := default d (OnPrePrepare 2 Demo.preprepare (Demo.replica "n1")) in
  let s2 := (AcceptPrepare 3 (Demo.prepare "n2") r1.1).1 in
  let r2 := default d (OnPrePrepare 4 Demo.preprepare s2) in
  p_BlockHash r1.2.1 = p_BlockHash r2.2.1.
Proof.
  intros d r1 s2 r2.
  apply (no_conflicting_prepares 2 4 Demo.preprepare Demo.preprepare (Demo.replica "n1") r1.1 s2 r2.1).
  - apply result_eta; vm_compute; reflexivity.
  - apply (reach_step _ _ r1.1 (OpPrepare 3 (Demo.prepare "n2"))); [apply reach_refl|done|done].
  - apply result_eta; vm_compute; reflexivity.
  - vm_compute. reflexivity.
  - vm_compute. reflexivity.
Defined.

(** ** View changes *)

(** C25: the NEW-VIEW a primary builds from the view changes it collected is
    accepted by every replica of the shard that is not past that view. *)
Theorem BuildNewView_accepted (ok : op → Prop) node shard leader validators now
    (s s2 : State) newView height (nv : NewView) :
  reach ok (NewState node shard leader validators now) s →
  BuildNewView newView height s = Some (nv, None) →
  st_ValidatorSet s2 = st_ValidatorSet s → st_InitialLeaderID s2 = st_InitialLeaderID s →
  st_ViewID s2 <= newView →
  validateNewViewLocked s2 nv = Some None.
Proof. intros R. apply BuildNewView_validates. by eapply vcs_ok_reach. Qed.

Lemma BuildNewView_accepted_witness :
  validateNewViewLocked (Demo.prepared_state "n2") Demo.new_view = Some None.
Proof.
  apply (BuildNewView_accepted (op_ok Demo.univ) "n1" "shard0" "n0" Demo.validators 0
    Demo.next_leader _ 1 1).
  - apply Demo.next_leader_reach. vm_compute. reflexivity.
  - assert (snd <$> BuildNewView 1 1 Demo.next_leader = Some None) as H
      by (vm_compute; reflexivity).
    unfold Demo.new_view. destruct (BuildNewView 1 1 Demo.next_leader) as [[nv e]|]; [|done].
    by injection H as ->.
  - vm_compute. reflexivity.
  - vm_compute. reflexivity.
  - vm_compute. discriminate.
Defined.

(** C24: entering a view. An accepted NEW-VIEW for a later view rests on view
    changes of a quorum of distinct validators; no vote survives it; and if any
    of the view changes carries a prepared certificate, the replica adopts a
    certificate none of them exceeds or contradicts at the same view and height,
    with the certified block locked for its slot. *)
Theorem new_view_adopts_highest now (msg : NewView) (s s' : State) b has :
  AcceptNewView now msg s = Some (s', (b, has, None)) → st_ViewID s < nv_View msg →
  st_ViewID s' = nv_View msg ∧ st_PrepareVotes s' = ∅ ∧ st_CommitVotes s' = ∅ ∧
  st_EarlyPrepareVotes s' = ∅ ∧ st_EarlyCommitVotes s' = ∅ ∧
  NoDup (vc_NodeID <$> nv_ViewChanges msg) ∧
  (commitQuorumLocked s <= Z.of_nat (length (nv_ViewChanges msg)))%Z ∧
  ((has = false ∧ st_LockedBlocks s' = ∅ ∧ st_PreparedByHeight s' = ∅ ∧
    ∀ vc, vc ∈ nv_ViewChanges msg → vc_Prepared vc = None) ∨
   (has = true ∧ ∃ sel, st_PreparedByHeight s' = {[pc_Height sel := sel]} ∧
      st_PrePrepareBySlot s' = {[slotKey (nv_View msg) (pc_Sequence sel) := BlockHash b]} ∧
      st_LockedBlocks s' = {[BlockHash b := b]} ∧
      BlockHash b = pc_BlockHash sel ∧ Hash b = pc_BlockHash sel ∧ backed s sel ∧
      ∀ vc c, vc ∈ nv_ViewChanges msg → vc_Prepared vc = Some c → cert_le c sel)).
Proof.
  intros H Hfw. apply AcceptNewView_ok in H as [F [[? _]|[_ H]]]; [lia|]. cbv zeta in H.
  set (s0 := set_AcceptedNewViews _ s) in *. clearbody s0.
  assert (∀ cert b v s1, st_ViewID (adopt cert b v s1) = st_ViewID s1 ∧
    st_PrepareVotes (adopt cert b v s1) = st_PrepareVotes s1 ∧
    st_CommitVotes (adopt cert b v s1) = st_CommitVotes s1 ∧
    st_EarlyPrepareVotes (adopt cert b v s1) = st_EarlyPrepareVotes s1 ∧
    st_EarlyCommitVotes (adopt cert b v s1) = st_EarlyCommitVotes s1) as HA by done.
  destruct H as [(E1 & -> & ->)|(cert & b' & E1 & E2 & -> & -> & ->)].
  - split_and!; try done; [apply F|apply F|]. left. split_and!; try done.
    destruct (nf_selected _ _ F) as [(_ & _ & ?)|(sel & ? & ? & ? & ? & ? & _)]; [done|congruence].
  - destruct (HA cert b' (nv_View msg) (enter_view now msg s0)) as (-> & -> & -> & -> & ->).
    split_and!; try done; [apply F|apply F|]. right. split; [done|]. exists cert.
    destruct (nf_selected _ _ F) as [(? & _)|(sel & b0 & high & hb & vc & S1 & S2 & Hin & Hp & Hpb
      & (V & B1 & B2 & B3) & I1 & I2 & I3 & I4 & I5 & I6 & M)]; [congruence|].
    assert (sel = cert ∧ b0 = b') as [-> ->] by (split; congruence).
    split_and!; try done. exists (pc_Prepares high). rewrite I1, I2, I3, I4. by destruct high.
Qed.

Lemma new_view_adopts_highest_witness :
  Demo.entered.2 = ((Demo.block1, true), None) ∧ st_ViewID Demo.entered.1 = 1.
Proof.
  assert (Demo.entered.2 = ((Demo.block1, true), None)) as E by (vm_compute; reflexivity).
  split; [exact E|].
  assert (defined Demo.entering = true) as D by (vm_compute; reflexivity).
  pose proof (defined_default (Demo.replica "n2", ((zero_block, false), Some "panic")) _ D) as X.
  fold Demo.entered in X. rewrite (pair_eta_snd _ _ E) in X.
  apply (new_view_adopts_highest 9 Demo.new_view (Demo.prepared_state "n2")
    Demo.entered.1 Demo.block1 true X).
  vm_compute. reflexivity.
Defined.

(** the VIEW-CHANGE a replica sends does not depend on the order in which Go
    iterates over the prepared certificates, and it reports the certificate that
    is greatest in (view, height) among those up to the given height. *)
Theorem BuildViewChange_deterministic (univ : Block → Prop) node shard leader validators now
    (s : State) (order : list (N * PreparedCertificate)) newView height :
  (∀ b1 b2, univ b1 → univ b2 → Hash b1 = Hash b2 → Height b1 = Height b2) →
  reach (op_ok univ) (NewState node shard leader validators now) s →
  order ≡ₚ map_to_list (st_PreparedByHeight s) →
  BuildViewChange order newView height s =
    BuildViewChange (map_to_list (st_PreparedByHeight s)) newView height s ∧
  chosen_from s height order (choose_prepared s order height).
Proof.
  intros Hu R Hp.
  destruct (choose_prepared_order univ s order height) as [H1 H2];
    [by eapply wf_reach, R; [|apply wf_NewState]|done|].
  split; [|done]. unfold BuildViewChange. by rewrite H2.
Qed.

Lemma BuildViewChange_deterministic_witness :
  BuildViewChange (rev (Demo.entries "n2")) 1 1 (Demo.prepared_state "n2") =
  BuildViewChange (Demo.entries "n2") 1 1 (Demo.prepared_state "n2").
Proof.
  apply (BuildViewChange_deterministic Demo.univ "n2" "shard0" "n0" Demo.validators 0).
  - apply Demo.univ_hash.
  - apply Demo.prepared_reach. vm_compute. reflexivity.
  - symmetry. apply Permutation_rev.
Defined.

(** along any run a replica keeps its identity, its validators and the
    initial leader, and its view and its stable checkpoint only move forward. *)
Theorem views_move_forward (ok : op → Prop) (s0 s : State) :
  reach ok s0 s →
  st_NodeID s = st_NodeID s0 ∧ st_ValidatorSet s = st_ValidatorSet s0 ∧
  st_InitialLeaderID s = st_InitialLeaderID s0 ∧ st_ViewID s0 <= st_ViewID s ∧
  cpc_Height (st_StableCheckpoint s0) <= cpc_Height (st_StableCheckpoint s).
Proof.
  intros R. destruct (forward_reach _ _ _ R) as (E & V & C).
  apply pair_equal_spec in E as [E E2]. apply pair_equal_spec in E as [E0 E1]. by split_and!.
Qed.

Lemma views_move_forward_witness : st_NodeID (Demo.committed_state "n1") = "n1".
Proof.
  refine (proj1 (views_move_forward (op_ok Demo.univ) (Demo.replica "n1")
    (Demo.committed_state "n1") _)).
  apply Demo.committed_reach. vm_compute. reflexivity.
Defined.

(** ** Leaders *)

(** C32: the leader of a view is the validator at the initial leader's position
    plus the view, modulo the number of validators, and every validator leads
    within any [n] consecutive views. *)
Theorem leader_rotation (s : State) (view : N) (node : string) :
  node ∈ st_ValidatorSet s →
  (Z.of_N view + 2 * Z.of_nat (length (st_ValidatorSet s)) <= max_int64)%Z →
  leaderForViewLocked s view =
    st_ValidatorSet s !! Z.to_nat ((leader_start s + Z.of_N view)
                                   mod Z.of_nat (length (st_ValidatorSet s))) ∧
  (st_InitialLeaderID s ∈ st_ValidatorSet s →
   st_ValidatorSet s !! Z.to_nat (leader_start s) = Some (st_InitialLeaderID s)) ∧
  ∃ later, view <= later ∧ later < view + N.of_nat (length (st_ValidatorSet s)) ∧
    leaderForViewLocked s later = Some node.
Proof.
  intros Hin Hb. split_and!; [|intros Hi|by apply leader_fair].
  - apply leaderForView_small; [by intros E; rewrite E in Hin; apply elem_of_nil in Hin|lia].
  - destruct (leader_base_initial _ _ 0 ltac:(done) Hi) as [_ H]. by rewrite Z.sub_0_r in H.
Qed.

Lemma leader_rotation_witness :
  ∃ later, 5 <= later ∧ later < 9 ∧ leaderForViewLocked (Demo.replica "n1") later = Some "n3".
Proof.
  apply (leader_rotation (Demo.replica "n1") 5 "n3").
  - vm_compute. repeat constructor.
  - vm_compute. discriminate.
Defined.

(** C36: a view number past the sign bit of [int]. A VIEW-CHANGE from any validator
    that names a later view above 2^63 - 1 and at most 2^64 - n, for n validators,
    makes [acceptViewChangeLocked] index the validator slice with a negative number
    and panic, unless n divides the sum of the initial leader's position and the view,
    wrapped to a negative [int]: for one view in n the index is 0 and the call does
    not panic. *)
Theorem view_change_overflow_panics (msg : ViewChange) (s : State) :
  let n := Z.of_nat (length (st_ValidatorSet s)) in
  isValidatorLocked s (vc_NodeID msg) = true → vc_View msg < vc_NewView msg →
  st_ViewID s < vc_NewView msg → (n <= 2 ^ 62)%Z →
  (max_int64 < Z.of_N (vc_NewView msg) <= 2 ^ 64 - n)%Z →
  ((leader_start s + Z.of_N (vc_NewView msg) - 2 ^ 64) mod n ≠ 0)%Z →
  acceptViewChangeLocked msg s = None.
Proof.
  cbv zeta. intros Hval H1 H2 Hn Hv Hm. unfold acceptViewChangeLocked. rewrite Hval. cbn [negb].
  destruct (N.leb_spec (vc_NewView msg) (vc_View msg)); [lia|].
  destruct (N.leb_spec (vc_NewView msg) (st_ViewID s)); [lia|]. cbn [orb].
  rewrite leaderForView_panics; [done| |done|done|done].
  intros E. unfold isValidatorLocked in Hval. rewrite E in Hval. by case_match.
Qed.

Lemma view_change_overflow_panics_witness :
  acceptViewChangeLocked
    (MkViewChange 0 (2 ^ 63 + 1) "n3" 1 "n1" None None None "") (Demo.replica "n1") = None.
Proof.
  apply (view_change_overflow_panics
    (MkViewChange 0 (2 ^ 63 + 1) "n3" 1 "n1" None None None "") (Demo.replica "n1")).
  - vm_compute. reflexivity.
  - vm_compute. reflexivity.
  - vm_compute. reflexivity.
  - vm_compute. discriminate.
  - vm_compute. split; discriminate || reflexivity.
  - vm_compute. discriminate.
Defined.

(** ** Checkpoints *)

Lemma stable_checkpoint_certified_witness :
  let r := AcceptCheckpoint 10 (Demo.checkpoint "n2") Demo.voted_state in
  r.2.1.1 = (true, 3%Z) ∧ st_LowWatermark r.1 = 1.
Proof.
  intros r. assert (r.2 = (true, 3%Z, r.2.1.2, None)) as E by (vm_compute; reflexivity).
  split; [by rewrite E|].
  destruct (stable_checkpoint_certified (op_ok Demo.univ) "n1" "shard0" "n0" Demo.validators 0
    Demo.voted_state 10 (Demo.checkpoint "n2") r.1 3 r.2.1.2) as (_ & _ & _ & _ & _ & _ & L & _).
  - apply Demo.voted_reach. vm_compute. reflexivity.
  - exact (pair_eta_snd r _ E).
  - vm_compute. reflexivity.
  - vm_compute. reflexivity.
  - exact L.
Defined.

(** ** The votes inside a NEW-VIEW's selected certificate *)

Definition without_votes (c : PreparedCertificate) : PreparedCertificate :=
  MkPreparedCert (pc_View c) (pc_Sequence c) (pc_Height c) (pc_BlockHash c) [].

Definition planted (msg : NewView) : NewView :=
  MkNewView (nv_View msg) (nv_LeaderID msg) (nv_Height msg) (nv_ViewChanges msg)
    (without_votes <$> nv_SelectedPrepared msg) (nv_SelectedBlock msg) (nv_Signature msg).

Lemma check_view_changes_planted s msg vcs : ∀ seen acc,
  check_view_changes s (planted msg) seen acc vcs = check_view_changes s msg seen acc vcs.
Proof.
  induction vcs as [|vc vcs IH]; intros seen acc; [done|]. simpl.
  destruct (vc_Prepared vc); rewrite ?IH; done.
Qed.

Lemma validateNewView_planted s msg :
  validateNewViewLocked s (planted msg) = validateNewViewLocked s msg.
Proof.
  unfold validateNewViewLocked. rewrite check_view_changes_planted. cbn [planted nv_View nv_LeaderID
    nv_ViewChanges nv_SelectedPrepared nv_SelectedBlock].
  by destruct (nv_SelectedPrepared msg).
Qed.

(** a NEW-VIEW that validates still validates when its primary strips the
    selected certificate of all its votes, and a replica that enters the view
    stores that certificate although it does not validate: the view changes the
    replica sends later carry evidence its peers reject. *)
Theorem new_view_planted_certificate now (msg : NewView) (s : State) (sel : PreparedCertificate) :
  validateNewViewLocked s msg = Some None → st_ViewID s < nv_View msg →
  nv_SelectedPrepared msg = Some sel → (0 < prepareQuorumLocked s)%Z →
  ∃ s' b, AcceptNewView now (planted msg) s = Some (s', (b, true, None)) ∧
    st_PreparedByHeight s' !! pc_Height sel = Some (without_votes sel) ∧
    validatePreparedCertificateLocked s' (without_votes sel) =
      Some "prepared_certificate_insufficient_votes".
Proof.
  intros Hv Hfw Hsel Hq. apply validateNewView_facts in Hv as F.
  destruct (nf_selected _ _ F) as [(E & _)|(sel' & b & high & hb & vc & E1 & E2 & _ & _ & _
    & (V & _) & _ & I2 & I3 & I4 & _)]; [congruence|]. assert (sel' = sel) as -> by congruence.
  set (s0 := set_AcceptedNewViews (<[nv_View msg := planted msg]> (st_AcceptedNewViews s)) s).
  exists (adopt (without_votes sel) b (nv_View msg) (enter_view now (planted msg) s0)), b.
  split_and!.
  - unfold AcceptNewView. rewrite validateNewView_planted, Hv. cbn [mbind option_bind].
    cbn [planted nv_View nv_SelectedPrepared nv_SelectedBlock].
    rewrite bool_decide_eq_false_2 by lia. by rewrite Hsel, E2.
  - apply lookup_insert_eq.
  - rewrite (validatePreparedCertificate_ext _ s) by done.
    unfold validatePreparedCertificateLocked in *. cbn [without_votes pc_BlockHash pc_Height
      pc_Sequence pc_Prepares length]. rewrite I2, I3, I4. case_if; [done|].
    destruct (Z.ltb_spec (Z.of_nat 0) (prepareQuorumLocked s)); [done|lia].
Qed.

Lemma new_view_planted_certificate_witness :
  ∃ s' b sel, nv_SelectedPrepared Demo.new_view = Some sel ∧
    AcceptNewView 9 (planted Demo.new_view) (Demo.prepared_state "n2") = Some (s', (b, true, None)) ∧
    st_PreparedByHeight s' !! pc_Height sel = Some (without_votes sel).
Proof.
  assert (defined (nv_SelectedPrepared Demo.new_view) = true) as D by (vm_compute; reflexivity).
  apply (defined_default zero_prepared_cert) in D.
  destruct (new_view_planted_certificate 9 Demo.new_view (Demo.prepared_state "n2") _
    ltac:(vm_compute; reflexivity) ltac:(vm_compute; reflexivity) D ltac:(vm_compute; reflexivity))
    as (s' & b & H1 & H2 & _).
  exists s', b, (default zero_prepared_cert (nv_SelectedPrepared Demo.new_view)). auto.
Defined.

(** ** The legacy entry point

    [OnNewView] with a message without view changes, as the V4.1 runtime sends it,
    changes the view and keeps the votes: runs with it are outside [op_ok]. *)

Module Legacy.

(** Two COMMITs in view 0, the bare change of view, the proposal again, one COMMIT in
    view 1. *)
Definition bare_new_view : NewView := MkNewView 1 "n1" 1 [] None None "".
Definition run_legacy : list op :=
  Demo.round ++ [OpLegacyNewView 8 bare_new_view; OpPrePrepare 9 (MkPrePrepare 1 1 1 "n1" Demo.hash1 Demo.block1 "")].
Definition state : State := default (Demo.replica "n1") (run run_legacy (Demo.replica "n1")).
Definition last_commit : Commit := MkCommit 1 1 1 "n3" Demo.hash1 "".
Definition cert : CommitCertificate :=
  default (MkCommitCert 0 0 0 "" []) (st_CommitCertificates (AcceptCommit 10 last_commit state).1 !! 1).

End Legacy.

(** After a bare change of view [AcceptCommit] counts COMMITs of two views as one
    quorum, reports the block as committed, and stores a certificate that its own
    validation refuses. *)
Theorem legacy_new_view_mixes_votes :
  run Legacy.run_legacy (Demo.replica "n1") = Some Legacy.state ∧
  (AcceptCommit 10 Legacy.last_commit Legacy.state).2 = (true, 3%Z, Demo.block1, None) ∧
  st_CommitCertificates (AcceptCommit 10 Legacy.last_commit Legacy.state).1 !! 1 = Some Legacy.cert ∧
  c_View <$> cc_Commits Legacy.cert = [0; 0; 1] ∧
  validateCommitCertificateLocked Legacy.state Legacy.cert = Some "commit_certificate_vote_mismatch".
Proof. split_and!; vm_compute; reflexivity. Qed.
