(* ===== verification/StateRoot.v ===== *)
(** * The state commitment ([executor/realism/state/root.go])

    A Merkle treap over the state: a search tree on the keys, a heap on
    priorities derived from the keys, every node holding the hash of its
    subtree. [commitmentSet] copies the path it changes, so a tree is a value
    and [Clone] is the identity. *)
From S2P Require Import Prelude GoStd.
Local Open Scope N_scope.

(** Go's [<] on strings: bytewise. *)
Definition str_ltb (a b : string) : bool := negb (bool_decide (String.le b a)).

Inductive commitmentNode :=
  | Nil
  | Node (key value : string) (priority : list N) (left right : commitmentNode) (hash : list N).

Definition emptyCommitmentHash : list N :=
  Eval vm_compute in Sha256.sum256 (bytes_of_string "mbe-state-merkle-treap-v2:empty").

Definition commitmentPriority (key : string) : list N :=
  Sha256.sum256 (bytes_of_string "mbe-state-merkle-treap-v2:priority" ++ [0] ++
                 bytes_of_string key).

(** Bytewise comparison of two arrays of the same length. *)
Fixpoint bytes_compare (a b : list N) : comparison :=
  match a, b with
  | x :: a', y :: b' => if x <? y then Lt else if y <? x then Gt else bytes_compare a' b'
  | _, _ => Eq
  end.

Definition priority_less (p1 : list N) (k1 : string) (p2 : list N) (k2 : string) : bool :=
  match bytes_compare p1 p2 with
  | Lt => true
  | Gt => false
  | Eq => str_ltb k1 k2
  end.

(** The right argument is never nil in the code. *)
Definition commitmentPriorityLess (left right : commitmentNode) : bool :=
  match left, right with
  | Node k1 _ p1 _ _ _, Node k2 _ p2 _ _ _ => priority_less p1 k1 p2 k2
  | _, _ => false
  end.

Definition node_hash (t : commitmentNode) : list N :=
  match t with Nil => emptyCommitmentHash | Node _ _ _ _ _ h => h end.

Definition writeCommitmentString (s : string) : list N :=
  Sha256.be_bytes 8 (N.of_nat (String.length s)) ++ bytes_of_string s.

Definition node_input (left : list N) (key value : string) (right : list N) : list N :=
  bytes_of_string "mbe-state-merkle-treap-v2:node" ++ [0] ++ left ++
  writeCommitmentString key ++ writeCommitmentString value ++ right.

Definition refreshCommitmentHash (t : commitmentNode) : commitmentNode :=
  match t with
  | Nil => Nil
  | Node k v p l r _ =>
      Node k v p l r (Sha256.sum256 (node_input (node_hash l) k v (node_hash r)))
  end.

(** Go would panic on a nil child; the callers rotate only a present one. *)
Definition rotateCommitmentRight (root : commitmentNode) : commitmentNode :=
  match root with
  | Node k v p (Node k1 v1 p1 l1 r1 h1) r h =>
      let root := refreshCommitmentHash (Node k v p r1 r h) in
      refreshCommitmentHash (Node k1 v1 p1 l1 root h1)
  | _ => root
  end.

Definition rotateCommitmentLeft (root : commitmentNode) : commitmentNode :=
  match root with
  | Node k v p l (Node k1 v1 p1 l1 r1 h1) h =>
      let root := refreshCommitmentHash (Node k v p l l1 h) in
      refreshCommitmentHash (Node k1 v1 p1 root r1 h1)
  | _ => root
  end.

Fixpoint commitmentSet (node : commitmentNode) (key value : string) : commitmentNode :=
  match node with
  | Nil => refreshCommitmentHash (Node key value (commitmentPriority key) Nil Nil [])
  | Node k v p l r h =>
      if key ≟ k then refreshCommitmentHash (Node k value p l r h)
      else if str_ltb key k then
        let l' := commitmentSet l key value in
        let node := Node k v p l' r h in
        refreshCommitmentHash
          (if commitmentPriorityLess l' node then rotateCommitmentRight node else node)
      else
        let r' := commitmentSet r key value in
        let node := Node k v p l r' h in
        refreshCommitmentHash
          (if commitmentPriorityLess r' node then rotateCommitmentLeft node else node)
  end.

(** ** [Commitment] (a pointer: [None] is nil) *)

Definition NewCommitment (snapshot : gmap string string) : commitmentNode :=
  foldl (λ t key, commitmentSet t key (default "" (snapshot !! key))) Nil (sorted_keys snapshot).

Definition CommitmentSet (c : option commitmentNode) (key value : string) : option commitmentNode :=
  (λ t, commitmentSet t key value) <$> c.

Definition Apply (c : option commitmentNode) (updates : gmap string string)
    (qualify : option (string → string)) : option commitmentNode :=
  foldl (λ c key, CommitmentSet c (from_option (λ q, q key) key qualify)
                    (default "" (updates !! key)))
        c (sorted_keys updates).

Definition CloneOrBuild (base : option commitmentNode) (snapshot : gmap string string)
    : commitmentNode :=
  match base with Some t => t | None => NewCommitment snapshot end.

Definition CommitmentRoot (c : option commitmentNode) : string :=
  hex_encode (node_hash (default Nil c)).

Definition Root (snapshot : gmap string string) : string :=
  CommitmentRoot (Some (NewCommitment snapshot)).

Definition LegacyRoot (snapshot : gmap string string) : string :=
  sha256_hex (foldr (λ key acc, key +:+ "=" +:+ default "" (snapshot !! key) +:+ nl +:+ acc) ""
                (sorted_keys snapshot)).

Definition LegacyCommitmentVersion : string := "mbe_flat_sorted_sha256_v1".
Definition CommitmentVersion : string := "mbe_state_merkle_treap_v2".

Definition RootForVersion (snapshot : gmap string string) (version : string) : string :=
  if (version ≟ "") || (version ≟ LegacyCommitmentVersion) then LegacyRoot snapshot
  else if version ≟ CommitmentVersion then Root snapshot
  else "".

(** ** Orders *)

Definition str_lt (a b : string) : Prop := String.le a b ∧ a ≠ b.

Lemma str_ltb_spec a b : str_ltb a b = true ↔ str_lt a b.
Proof.
  unfold str_ltb, str_lt. rewrite negb_true_iff, bool_decide_eq_false. split.
  - intros H. split; [by destruct (total String.le a b)|]. by intros ->.
  - intros [H Hne] H'. apply Hne. by apply (anti_symm String.le).
Qed.

Lemma str_lt_trans a b c : str_lt a b → str_lt b c → str_lt a c.
Proof.
  intros [H1 N1] [H2 N2]. split; [by etrans|]. intros ->. apply N1. by apply (anti_symm String.le).
Qed.

Lemma str_lt_irrefl a : ¬ str_lt a a.
Proof. by intros [_ ?]. Qed.

Lemma str_lt_total a b : a ≠ b → str_lt a b ∨ str_lt b a.
Proof.
  intros Hne. destruct (total String.le a b); [left|right]; split; auto.
Qed.

Lemma str_ltb_false a b : a ≠ b → str_ltb a b = false → str_lt b a.
Proof.
  intros Hne H. destruct (str_lt_total a b Hne) as [Hl|Hl]; [|done].
  apply str_ltb_spec in Hl. congruence.
Qed.

(** The heap order, as an order on keys: the priority is a function of the key. *)
Definition prio_lt (k1 k2 : string) : Prop :=
  priority_less (commitmentPriority k1) k1 (commitmentPriority k2) k2 = true.

Lemma bytes_compare_lt_trans a : ∀ b c, length a = length b → length b = length c →
  bytes_compare a b = Lt → bytes_compare b c ≠ Gt → bytes_compare a c = Lt.
Proof.
  induction a as [|x a IH]; intros [|y b] [|z c] L1 L2; simpl; try done.
  injection L1 as L1. injection L2 as L2.
  destruct (N.ltb_spec x y), (N.ltb_spec y x), (N.ltb_spec y z), (N.ltb_spec z y),
    (N.ltb_spec x z), (N.ltb_spec z x); try lia; try done. by apply IH.
Qed.

Lemma bytes_compare_eq_l a : ∀ b c, length a = length b →
  bytes_compare a b = Eq → bytes_compare a c = bytes_compare b c.
Proof.
  induction a as [|x a IH]; intros [|y b] c L; simpl; try done. injection L as L.
  destruct (N.ltb_spec x y), (N.ltb_spec y x); try done. intros H'.
  assert (x = y) as -> by lia. destruct c; [done|]. by rewrite (IH b c).
Qed.

Lemma bytes_compare_sym a : ∀ b, length a = length b → bytes_compare b a = CompOpp (bytes_compare a b).
Proof.
  induction a as [|x a IH]; intros [|y b] L; simpl; try done. injection L as L.
  destruct (N.ltb_spec x y), (N.ltb_spec y x); try done; try lia. by apply IH.
Qed.

Lemma length_priority k1 k2 : length (commitmentPriority k1) = length (commitmentPriority k2).
Proof. unfold commitmentPriority. by rewrite !length_sum256. Qed.

Lemma prio_lt_irrefl k : ¬ prio_lt k k.
Proof.
  unfold prio_lt, priority_less. intros H.
  pose proof (bytes_compare_sym (commitmentPriority k) (commitmentPriority k) eq_refl) as E.
  destruct (bytes_compare _ _); try done. apply str_ltb_spec in H. by apply str_lt_irrefl in H.
Qed.

Lemma prio_lt_trans k1 k2 k3 : prio_lt k1 k2 → prio_lt k2 k3 → prio_lt k1 k3.
Proof.
  unfold prio_lt, priority_less.
  pose proof (length_priority k1 k2) as L12. pose proof (length_priority k2 k3) as L23.
  set (p1 := commitmentPriority k1) in *. set (p2 := commitmentPriority k2) in *.
  set (p3 := commitmentPriority k3) in *. clearbody p1 p2 p3.
  destruct (bytes_compare p1 p2) eqn:E12; [| |done].
  - rewrite (bytes_compare_eq_l p1 p2 p3) by done.
    destruct (bytes_compare p2 p3); [|done..].
    rewrite !str_ltb_spec. apply str_lt_trans.
  - destruct (bytes_compare p2 p3) eqn:E23; [| |done];
      by rewrite (bytes_compare_lt_trans p1 p2 p3) by congruence.
Qed.

Lemma prio_lt_total k1 k2 : k1 ≠ k2 → prio_lt k1 k2 ∨ prio_lt k2 k1.
Proof.
  intros Hne. unfold prio_lt, priority_less.
  rewrite (bytes_compare_sym (commitmentPriority k1) (commitmentPriority k2))
    by apply length_priority.
  destruct (bytes_compare _ _); simpl; auto. rewrite !str_ltb_spec. by apply str_lt_total.
Qed.

#[local] Opaque commitmentPriority Sha256.sum256.

(** ** The invariant *)

Fixpoint keys (t : commitmentNode) : gset string :=
  match t with Nil => ∅ | Node k _ _ l r _ => {[k]} ∪ keys l ∪ keys r end.

Fixpoint get (t : commitmentNode) (key : string) : option string :=
  match t with
  | Nil => None
  | Node k v _ l r _ =>
      if key ≟ k then Some v else if str_ltb key k then get l key else get r key
  end.

(** Search tree, heap, and the stored priority and hash are the ones of the
    node's contents. *)
Fixpoint treap (t : commitmentNode) : Prop :=
  match t with
  | Nil => True
  | Node k v p l r h =>
      treap l ∧ treap r ∧
      (∀ x, x ∈ keys l → str_lt x k ∧ prio_lt k x) ∧
      (∀ x, x ∈ keys r → str_lt k x ∧ prio_lt k x) ∧
      p = commitmentPriority k ∧
      h = Sha256.sum256 (node_input (node_hash l) k v (node_hash r))
  end.

Definition root_key (t : commitmentNode) : option string :=
  match t with Nil => None | Node k _ _ _ _ _ => Some k end.

(** A node with the priority and hash that belong to it. *)
Definition fresh (k v : string) (l r : commitmentNode) : commitmentNode :=
  Node k v (commitmentPriority k) l r (Sha256.sum256 (node_input (node_hash l) k v (node_hash r))).

Lemma set_left_eq k v l r key value :
  str_lt key k →
  commitmentSet (fresh k v l r) key value =
    let node := Node k v (commitmentPriority k) (commitmentSet l key value) r
                  (node_hash (fresh k v l r)) in
    refreshCommitmentHash
      (if commitmentPriorityLess (commitmentSet l key value) node
       then rotateCommitmentRight node else node).
Proof.
  intros Hlt. unfold fresh. cbn [commitmentSet].
  rewrite bool_decide_eq_false_2 by (intros ->; by apply str_lt_irrefl in Hlt).
  by rewrite (proj2 (str_ltb_spec key k)).
Qed.

(** What [commitmentSet] does below a node, with the hash updates out of sight:
    the result is the node with its new child, or that child rotated above it. *)
Lemma set_left k v l r key value :
  str_lt key k → treap (commitmentSet l key value) →
  let l' := commitmentSet l key value in
  commitmentSet (fresh k v l r) key value = fresh k v l' r ∧
    (∀ k1, root_key l' = Some k1 → ¬ prio_lt k1 k) ∨
  ∃ k1 v1 l1 r1, l' = fresh k1 v1 l1 r1 ∧ prio_lt k1 k ∧
    commitmentSet (fresh k v l r) key value = fresh k1 v1 l1 (fresh k v r1 r).
Proof.
  intros Hlt T. cbv zeta. rewrite set_left_eq by done. cbv zeta.
  destruct (commitmentSet l key value) as [|k1 v1 p1 l1 r1 h1]; [by left|].
  destruct T as (_ & _ & _ & _ & -> & ->). cbn [commitmentPriorityLess root_key].
  destruct (priority_less _ _ _ _) eqn:E; [right|left].
  - exists k1, v1, l1, r1. split_and!; [done|exact E|done].
  - split; [done|]. intros ? [= <-]. unfold prio_lt. by rewrite E.
Qed.

Lemma set_right_eq k v l r key value :
  str_lt k key →
  commitmentSet (fresh k v l r) key value =
    let node := Node k v (commitmentPriority k) l (commitmentSet r key value)
                  (node_hash (fresh k v l r)) in
    refreshCommitmentHash
      (if commitmentPriorityLess (commitmentSet r key value) node
       then rotateCommitmentLeft node else node).
Proof.
  intros Hlt. unfold fresh. cbn [commitmentSet].
  rewrite bool_decide_eq_false_2 by (intros ->; by apply str_lt_irrefl in Hlt).
  destruct (str_ltb key k) eqn:Es; [|done].
  apply str_ltb_spec in Es. destruct (str_lt_irrefl k). by eapply str_lt_trans.
Qed.

Lemma set_right k v l r key value :
  str_lt k key → treap (commitmentSet r key value) →
  let r' := commitmentSet r key value in
  commitmentSet (fresh k v l r) key value = fresh k v l r' ∧
    (∀ k1, root_key r' = Some k1 → ¬ prio_lt k1 k) ∨
  ∃ k1 v1 l1 r1, r' = fresh k1 v1 l1 r1 ∧ prio_lt k1 k ∧
    commitmentSet (fresh k v l r) key value = fresh k1 v1 (fresh k v l l1) r1.
Proof.
  intros Hlt T. cbv zeta. rewrite set_right_eq by done. cbv zeta.
  destruct (commitmentSet r key value) as [|k1 v1 p1 l1 r1 h1]; [by left|].
  destruct T as (_ & _ & _ & _ & -> & ->). cbn [commitmentPriorityLess root_key].
  destruct (priority_less _ _ _ _) eqn:E; [right|left].
  - exists k1, v1, l1, r1. split_and!; [done|exact E|done].
  - split; [done|]. intros ? [= <-]. unfold prio_lt. by rewrite E.
Qed.

Lemma treap_fresh k v l r :
  treap l → treap r → (∀ x, x ∈ keys l → str_lt x k ∧ prio_lt k x) →
  (∀ x, x ∈ keys r → str_lt k x ∧ prio_lt k x) → treap (fresh k v l r).
Proof. simpl. auto 10. Qed.

Lemma treap_inv k v p l r h : treap (Node k v p l r h) → Node k v p l r h = fresh k v l r.
Proof. by intros (_ & _ & _ & _ & -> & ->). Qed.

Lemma treap_rotate_right k v k1 v1 l1 r1 r :
  treap (fresh k1 v1 l1 r1) → treap r →
  (∀ x, x ∈ keys r1 → str_lt x k ∧ prio_lt k x) →
  (∀ x, x ∈ keys r → str_lt k x ∧ prio_lt k x) →
  str_lt k1 k → prio_lt k1 k → treap (fresh k1 v1 l1 (fresh k v r1 r)).
Proof.
  intros (Tl & Tr & Hl & Hr & _ & _) T H1 H2 Hs Hp.
  apply treap_fresh; [done|by apply treap_fresh|done|].
  intros x. simpl. rewrite !elem_of_union, elem_of_singleton. intros [[->|Hx]|Hx]; [done|by apply Hr|].
  destruct (H2 x Hx). split; [by eapply str_lt_trans|by eapply prio_lt_trans].
Qed.

Lemma treap_rotate_left k v k1 v1 l1 r1 l :
  treap (fresh k1 v1 l1 r1) → treap l →
  (∀ x, x ∈ keys l → str_lt x k ∧ prio_lt k x) →
  (∀ x, x ∈ keys l1 → str_lt k x ∧ prio_lt k x) →
  str_lt k k1 → prio_lt k1 k → treap (fresh k1 v1 (fresh k v l l1) r1).
Proof.
  intros (Tl & Tr & Hl & Hr & _ & _) T H1 H2 Hs Hp.
  apply treap_fresh; [by apply treap_fresh|done| |done].
  intros x. simpl. rewrite !elem_of_union, elem_of_singleton. intros [[->|Hx]|Hx]; [done| |by apply Hl].
  destruct (H1 x Hx). split; [by eapply str_lt_trans|by eapply prio_lt_trans].
Qed.

(** Under a node [k]: the new subtree's keys still lie below [k] in the heap
    unless the new key has come out on top of it. *)
Lemma below_unrotated k key (old new : commitmentNode) :
  treap new → keys new = {[key]} ∪ keys old →
  (∀ x, x ∈ keys old → prio_lt k x) → (∀ k1, root_key new = Some k1 → ¬ prio_lt k1 k) →
  (∀ x, x ∈ keys new → x ≠ k) →
  ∀ x, x ∈ keys new → prio_lt k x.
Proof.
  intros T Hk Hold Hroot Hne x Hx.
  destruct new as [|k1 v1 p1 l1 r1 h1]; [simpl in Hx; set_solver|].
  assert (prio_lt k k1) as H1.
  { assert (k ≠ k1) as Hkk by (intros ->; apply (Hne k1); simpl; set_solver).
    destruct (prio_lt_total k k1 Hkk) as [|H]; [done|]. by destruct (Hroot k1). }
  destruct T as (_ & _ & Hl & Hr & _). simpl in Hx.
  rewrite !elem_of_union, elem_of_singleton in Hx. destruct Hx as [[->|Hx]|Hx]; [done|..];
    (eapply prio_lt_trans; [done|]); [by apply Hl|by apply Hr].
Qed.

Lemma above_rotated k key k1 v1 l1 r1 (old : commitmentNode) :
  keys (fresh k1 v1 l1 r1) = {[key]} ∪ keys old → prio_lt k1 k →
  (∀ x, x ∈ keys old → prio_lt k x) → k1 = key.
Proof.
  intros Hk Hp Hold. assert (k1 ∈ {[key]} ∪ keys old) as H by (rewrite <- Hk; simpl; set_solver).
  rewrite elem_of_union, elem_of_singleton in H. destruct H as [|H]; [done|].
  destruct (prio_lt_irrefl k). eapply prio_lt_trans; [by apply Hold|done].
Qed.

Lemma keys_rotate_right k v k1 v1 l1 r1 r :
  keys (fresh k1 v1 l1 (fresh k v r1 r)) = {[k]} ∪ keys (fresh k1 v1 l1 r1) ∪ keys r.
Proof. simpl. set_solver. Qed.

Lemma keys_rotate_left k v k1 v1 l1 r1 l :
  keys (fresh k1 v1 (fresh k v l l1) r1) = {[k]} ∪ keys l ∪ keys (fresh k1 v1 l1 r1).
Proof. simpl. set_solver. Qed.

Lemma treap_set t key value :
  treap t → treap (commitmentSet t key value) ∧
            keys (commitmentSet t key value) = {[key]} ∪ keys t.
Proof.
  induction t as [|k v p l IHl r IHr h]; intros T.
  { split; [|simpl; set_solver]. apply (treap_fresh key value Nil Nil); simpl; set_solver. }
  rewrite (treap_inv _ _ _ _ _ _ T). destruct T as (Tl & Tr & Hl & Hr & _ & _).
  destruct (IHl Tl) as [Tl' Kl], (IHr Tr) as [Tr' Kr].
  destruct (decide (key = k)) as [->|Hne].
  { unfold fresh. simpl. rewrite bool_decide_eq_true_2 by done. split; [|simpl; set_solver].
    by apply treap_fresh. }
  destruct (str_lt_total key k Hne) as [Hlt|Hlt].
  - destruct (set_left k v l r key value Hlt Tl') as [[-> Hroot]|(k1 & v1 & l1 & r1 & E & Hp & ->)].
    + split; [|simpl; rewrite Kl; clear; set_solver]. apply treap_fresh; auto.
      assert (∀ x, x ∈ keys (commitmentSet l key value) → str_lt x k) as Hs.
      { intros x. rewrite Kl, elem_of_union, elem_of_singleton. intros [->|?]; [done|by apply Hl]. }
      intros x Hx. split; [by apply Hs|].
      apply (below_unrotated k key l (commitmentSet l key value)); auto; [by intros; apply Hl|].
      intros y Hy ->. by apply (str_lt_irrefl k), Hs.
    + rewrite E in Tl', Kl. assert (k1 = key) as ->
        by (eapply above_rotated; [exact Kl|done|by intros; apply Hl]).
      split; [|rewrite keys_rotate_right, Kl; clear; simpl; set_solver].
      apply treap_rotate_right; [exact Tl'|exact Tr| |exact Hr|exact Hlt|exact Hp].
      destruct Tl' as (_ & _ & _ & Hr1 & _). intros x Hx.
      assert (x ∈ {[key]} ∪ keys l) as Hxl by (rewrite <- Kl; simpl; clear -Hx; set_solver).
      rewrite elem_of_union, elem_of_singleton in Hxl. destruct Hxl as [->|]; [|by apply Hl].
      destruct (Hr1 key Hx) as [Hs _]. by apply str_lt_irrefl in Hs.
  - destruct (set_right k v l r key value Hlt Tr') as [[-> Hroot]|(k1 & v1 & l1 & r1 & E & Hp & ->)].
    + split; [|simpl; rewrite Kr; clear; set_solver]. apply treap_fresh; auto.
      assert (∀ x, x ∈ keys (commitmentSet r key value) → str_lt k x) as Hs.
      { intros x. rewrite Kr, elem_of_union, elem_of_singleton. intros [->|?]; [done|by apply Hr]. }
      intros x Hx. split; [by apply Hs|].
      apply (below_unrotated k key r (commitmentSet r key value)); auto; [by intros; apply Hr|].
      intros y Hy ->. by apply (str_lt_irrefl k), Hs.
    + rewrite E in Tr', Kr. assert (k1 = key) as ->
        by (eapply above_rotated; [exact Kr|done|by intros; apply Hr]).
      split; [|rewrite keys_rotate_left, Kr; clear; simpl; set_solver].
      apply treap_rotate_left; [exact Tr'|exact Tl|exact Hl| |exact Hlt|exact Hp].
      destruct Tr' as (_ & _ & Hl1 & _ & _). intros x Hx.
      assert (x ∈ {[key]} ∪ keys r) as Hxr by (rewrite <- Kr; simpl; clear -Hx; set_solver).
      rewrite elem_of_union, elem_of_singleton in Hxr. destruct Hxr as [->|]; [|by apply Hr].
      destruct (Hl1 key Hx) as [Hs _]. by apply str_lt_irrefl in Hs.
Qed.

(** ** Lookups *)

Inductive order3 (x k : string) : Prop :=
  | O_eq : x = k → order3 x k
  | O_lt : str_lt x k → order3 x k
  | O_gt : str_lt k x → order3 x k.

Lemma order3_all x k : order3 x k.
Proof.
  destruct (decide (x = k)); [by apply O_eq|].
  destruct (str_lt_total x k); [done|by apply O_lt|by apply O_gt].
Qed.

Lemma get_eq k v l r : get (fresh k v l r) k = Some v.
Proof. simpl. by rewrite bool_decide_eq_true_2. Qed.

Lemma get_lt x k v l r : str_lt x k → get (fresh k v l r) x = get l x.
Proof.
  intros H. simpl. rewrite bool_decide_eq_false_2 by (intros ->; by apply str_lt_irrefl in H).
  by rewrite (proj2 (str_ltb_spec x k)).
Qed.

Lemma get_gt x k v l r : str_lt k x → get (fresh k v l r) x = get r x.
Proof.
  intros H. simpl. rewrite bool_decide_eq_false_2 by (intros ->; by apply str_lt_irrefl in H).
  destruct (str_ltb x k) eqn:E; [|done]. apply str_ltb_spec in E.
  destruct (str_lt_irrefl k). by eapply str_lt_trans.
Qed.

Ltac get_simpl :=
  repeat first [rewrite get_eq | rewrite get_lt by done | rewrite get_gt by done].

Lemma get_rotate k1 v1 k v l1 r1 r x :
  str_lt k1 k → get (fresh k1 v1 l1 (fresh k v r1 r)) x = get (fresh k v (fresh k1 v1 l1 r1) r) x.
Proof.
  intros Hlt. destruct (order3_all x k1) as [->|H1|H1].
  - by get_simpl.
  - assert (str_lt x k) by by eapply str_lt_trans. by get_simpl.
  - destruct (order3_all x k) as [->|H2|H2]; by get_simpl.
Qed.

Lemma get_set t key value :
  treap t → ∀ x, get (commitmentSet t key value) x = if x ≟ key then Some value else get t x.
Proof.
  induction t as [|k v p l IHl r IHr h]; intros T x.
  { simpl. repeat case_match; done. }
  rewrite (treap_inv _ _ _ _ _ _ T). destruct T as (Tl & Tr & Hl & Hr & _ & _).
  destruct (treap_set l key value Tl) as [Tl' Kl], (treap_set r key value Tr) as [Tr' Kr].
  specialize (IHl Tl). specialize (IHr Tr).
  destruct (decide (key = k)) as [->|Hne].
  { unfold fresh. simpl. rewrite bool_decide_eq_true_2 by done. simpl.
    by destruct (decide (x = k)) as [->|]; [rewrite bool_decide_eq_true_2|
      rewrite !bool_decide_eq_false_2]. }
  assert (∀ l' r', (∀ y, str_lt y k → get l' y = if y ≟ key then Some value else get l y) →
    (∀ y, str_lt k y → get r' y = if y ≟ key then Some value else get r y) →
    get (fresh k v l' r') x = if x ≟ key then Some value else get (fresh k v l r) x) as main.
  { intros l' r' E1 E2. destruct (order3_all x k) as [->|H|H]; get_simpl; auto.
    by rewrite bool_decide_eq_false_2. }
  destruct (str_lt_total key k Hne) as [Hlt|Hlt].
  - assert (∀ y, str_lt k y → get r y = if y ≟ key then Some value else get r y) as Er.
    { intros y Hy. rewrite bool_decide_eq_false_2; [done|]. intros ->.
      destruct (str_lt_irrefl k). by eapply str_lt_trans. }
    destruct (set_left k v l r key value Hlt Tl') as [[-> Hroot]|(k1 & v1 & l1 & r1 & E & Hp & ->)];
      [by apply main|].
    rewrite get_rotate.
    + apply main; [|done]. rewrite <- E. auto.
    + assert (k1 ∈ keys (commitmentSet l key value)) as Hk by (rewrite E; simpl; set_solver).
      rewrite Kl, elem_of_union, elem_of_singleton in Hk. destruct Hk as [->|Hk]; [done|by apply Hl].
  - assert (∀ y, str_lt y k → get l y = if y ≟ key then Some value else get l y) as El.
    { intros y Hy. rewrite bool_decide_eq_false_2; [done|]. intros ->.
      destruct (str_lt_irrefl k). by eapply str_lt_trans. }
    destruct (set_right k v l r key value Hlt Tr') as [[-> Hroot]|(k1 & v1 & l1 & r1 & E & Hp & ->)];
      [by apply main|].
    rewrite <- get_rotate.
    + apply main; [done|]. rewrite <- E. auto.
    + assert (k1 ∈ keys (commitmentSet r key value)) as Hk by (rewrite E; simpl; set_solver).
      rewrite Kr, elem_of_union, elem_of_singleton in Hk. destruct Hk as [->|Hk]; [done|by apply Hr].
Qed.

Lemma get_keys t x : treap t → is_Some (get t x) ↔ x ∈ keys t.
Proof.
  induction t as [|k v p l IHl r IHr h]; intros T; [simpl; rewrite is_Some_alt; set_solver|].
  rewrite (treap_inv _ _ _ _ _ _ T). destruct T as (Tl & Tr & Hl & Hr & _ & _).
  assert (keys (fresh k v l r) = {[k]} ∪ keys l ∪ keys r) as -> by done.
  rewrite !elem_of_union, elem_of_singleton.
  destruct (order3_all x k) as [->|H|H]; get_simpl.
  - split; [auto|by eexists].
  - rewrite (IHl Tl). split; [auto|]. intros [[->|?]|Hx]; [by apply str_lt_irrefl in H|done|].
    destruct (Hr x Hx) as [H' _]. destruct (str_lt_irrefl k). by eapply str_lt_trans.
  - rewrite (IHr Tr). split; [auto|]. intros [[->|Hx]|?]; [by apply str_lt_irrefl in H| |done].
    destruct (Hl x Hx) as [H' _]. destruct (str_lt_irrefl k). by eapply str_lt_trans.
Qed.

(** ** One tree per state *)

Lemma get_left_only k v l r x :
  treap (fresh k v l r) → get l x = if bool_decide (str_ltb x k = true) then get (fresh k v l r) x else None.
Proof.
  intros (Tl & Tr & Hl & Hr & _ & _). case_bool_decide as E.
  - apply str_ltb_spec in E. by get_simpl.
  - destruct (get l x) eqn:G; [|done]. destruct E. apply str_ltb_spec, Hl, get_keys; eauto.
Qed.

Lemma get_right_only k v l r x :
  treap (fresh k v l r) → get r x = if bool_decide (str_ltb k x = true) then get (fresh k v l r) x else None.
Proof.
  intros (Tl & Tr & Hl & Hr & _ & _). case_bool_decide as E.
  - apply str_ltb_spec in E. by get_simpl.
  - destruct (get r x) eqn:G; [|done]. destruct E. apply str_ltb_spec, Hr, get_keys; eauto.
Qed.

Lemma root_minimal k v l r x :
  treap (fresh k v l r) → is_Some (get (fresh k v l r) x) → x = k ∨ prio_lt k x.
Proof.
  intros T Hx. apply get_keys in Hx; [|done]. destruct T as (_ & _ & Hl & Hr & _ & _).
  assert (x ∈ {[k]} ∪ keys l ∪ keys r) as H by exact Hx.
  rewrite !elem_of_union, elem_of_singleton in H. destruct H as [[->|H]|H]; [by left|right..].
  - by apply Hl.
  - by apply Hr.
Qed.

Lemma treap_unique t1 : ∀ t2, treap t1 → treap t2 → (∀ x, get t1 x = get t2 x) → t1 = t2.
Proof.
  induction t1 as [|k v p l IHl r IHr h]; intros [|k2 v2 p2 l2 r2 h2] T1 T2 E; [done|..].
  - specialize (E k2). simpl in E. by rewrite bool_decide_eq_true_2 in E.
  - specialize (E k). simpl in E. by rewrite bool_decide_eq_true_2 in E.
  - pose proof (treap_inv _ _ _ _ _ _ T1) as I1. pose proof (treap_inv _ _ _ _ _ _ T2) as I2.
    rewrite I1, I2 in *. clear I1 I2.
    assert (k = k2) as ->.
    { destruct (root_minimal _ _ _ _ k2 T1) as [|P1]; [by rewrite E, get_eq|done|].
      destruct (root_minimal _ _ _ _ k T2) as [|P2]; [by rewrite <- E, get_eq|done|].
      destruct (prio_lt_irrefl k). by eapply prio_lt_trans. }
    assert (v = v2) as -> by (specialize (E k2); rewrite !get_eq in E; congruence).
    rewrite (IHl l2), (IHr r2); [done|apply T1|apply T2| |apply T1|apply T2|].
    + intros x. rewrite (get_right_only _ _ _ _ x T1), (get_right_only _ _ _ _ x T2). by rewrite E.
    + intros x. rewrite (get_left_only _ _ _ _ x T1), (get_left_only _ _ _ _ x T2). by rewrite E.
Qed.

(** ** Trees built by the code *)

(** A tree represents a state when it is a treap with that state's entries. *)
Definition represents (t : commitmentNode) (m : gmap string string) : Prop :=
  treap t ∧ ∀ x, get t x = m !! x.

Lemma represents_nil : represents Nil ∅.
Proof. split; [done|]. intros x. by rewrite lookup_empty. Qed.

Lemma represents_set t m key value :
  represents t m → represents (commitmentSet t key value) (<[key := value]> m).
Proof.
  intros [T G]. split; [by apply treap_set|]. intros x. rewrite get_set, G by done.
  case_bool_decide as E; [subst; by rewrite lookup_insert_eq|by rewrite lookup_insert_ne].
Qed.

Lemma represents_unique t1 t2 m : represents t1 m → represents t2 m → t1 = t2.
Proof. intros [T1 G1] [T2 G2]. apply treap_unique; auto. intros x. by rewrite G1, G2. Qed.

Lemma represents_fold (f : string → string) ks : ∀ t m,
  represents t m →
  represents (foldl (λ t key, commitmentSet t key (f key)) t ks)
             (foldl (λ m key, <[key := f key]> m) m ks).
Proof. induction ks as [|k ks IH]; intros t m R; simpl; [done|]. by apply IH, represents_set. Qed.

Lemma foldl_inserts (f : string → string) ks : ∀ (m : gmap string string) x,
  foldl (λ m key, <[key := f key]> m) m ks !! x = if decide (x ∈ ks) then Some (f x) else m !! x.
Proof.
  induction ks as [|k ks IH]; intros m x; simpl.
  { done. }
  rewrite IH, lookup_insert. repeat case_decide; set_solver.
Qed.

Lemma represents_New m : represents (NewCommitment m) m.
Proof.
  destruct (represents_fold (λ k, default "" (m !! k)) (sorted_keys m) _ _ represents_nil) as [T G].
  split; [exact T|]. intros x. etrans; [apply G|]. rewrite foldl_inserts. case_decide as E.
  - apply elem_of_sorted_keys in E as [v Hv]. by rewrite Hv.
  - rewrite elem_of_sorted_keys in E. rewrite lookup_empty. symmetry. by apply eq_None_not_Some.
Qed.

(** ** Binding: equal roots, equal states

    SHA-256 is not injective, so what a digest binds is said of the byte strings that
    the two computations hash: no string of the one collides with one of the other. *)

Definition coll_free (l1 l2 : list (list N)) : Prop :=
  ∀ x y, x ∈ l1 → y ∈ l2 → Sha256.sum256 x = Sha256.sum256 y → x = y.

(** The same, as a test. *)
Definition coll_free_test (l1 l2 : list (list N)) : bool :=
  forallb (λ x, forallb (λ y, bool_decide (x = y) || negb (bool_decide (Sha256.sum256 x = Sha256.sum256 y))) l2) l1.

Lemma coll_free_tested l1 l2 : coll_free_test l1 l2 = true → coll_free l1 l2.
Proof.
  unfold coll_free_test. intros H x y Hx%list_elem_of_In Hy%list_elem_of_In E. rewrite forallb_forall in H.
  specialize (H x Hx). rewrite forallb_forall in H. specialize (H y Hy).
  apply orb_true_iff in H as [H|H]; [by apply bool_decide_eq_true in H|].
  by rewrite bool_decide_eq_true_2 in H.
Qed.

Lemma coll_free_mono l1 l2 k1 k2 : coll_free l1 l2 → k1 ⊆ l1 → k2 ⊆ l2 → coll_free k1 k2.
Proof. intros H H1 H2 x y Hx Hy. apply H; auto. Qed.

Lemma coll_free_cons x l1 y l2 : coll_free (x :: l1) (y :: l2) → coll_free [x] [y] ∧ coll_free l1 l2.
Proof. intros H. split; (eapply coll_free_mono; [exact H|set_solver..]). Qed.

Lemma coll_free_same x : coll_free [x] [x].
Proof. by intros y z ->%list_elem_of_singleton ->%list_elem_of_singleton _. Qed.

(** The byte strings hashed for a tree, one for each node and one for the empty tree. *)
Fixpoint tree_inputs (t : commitmentNode) : list (list N) :=
  match t with
  | Nil => [bytes_of_string "mbe-state-merkle-treap-v2:empty"]
  | Node k v _ l r _ => node_input (node_hash l) k v (node_hash r) :: tree_inputs l ++ tree_inputs r
  end.

(** Those hashed for the root of a state. *)
Definition root_inputs (m : gmap string string) : list (list N) := tree_inputs (NewCommitment m).

(** [len(s)] fits the eight bytes it is written in. *)
Definition short (s : string) : Prop := N.of_nat (String.length s) < 2 ^ 64.

Definition all_short (m : gmap string string) : Prop :=
  ∀ k v, m !! k = Some v → short k ∧ short v.

Lemma writeCommitmentString_inj s1 s2 t1 t2 :
  short s1 → short s2 →
  writeCommitmentString s1 ++ t1 = writeCommitmentString s2 ++ t2 → s1 = s2 ∧ t1 = t2.
Proof.
  unfold writeCommitmentString, short. intros H1 H2 E. rewrite <- !app_assoc in E.
  apply app_inj_1 in E as [EL E]; [|by rewrite !length_be_bytes].
  apply be_bytes_inj in EL; [|done..]. apply Nat2N.inj in EL.
  apply app_inj_1 in E as [Es Et]; [|by rewrite !length_bytes_of_string].
  by apply (inj bytes_of_string) in Es.
Qed.

Lemma node_input_inj l1 k1 v1 r1 l2 k2 v2 r2 :
  length l1 = length l2 → short k1 → short k2 → short v1 → short v2 →
  node_input l1 k1 v1 r1 = node_input l2 k2 v2 r2 → l1 = l2 ∧ k1 = k2 ∧ v1 = v2 ∧ r1 = r2.
Proof.
  unfold node_input. intros L Sk1 Sk2 Sv1 Sv2 E.
  apply app_inv_head in E. apply app_inv_head in E. apply app_inj_1 in E as [-> E]; [|done].
  apply writeCommitmentString_inj in E as [-> E]; [|done..].
  apply writeCommitmentString_inj in E as [-> E]; [|done..]. done.
Qed.

Lemma length_node_hash t : treap t → length (node_hash t) = 32%nat.
Proof. destruct t; [done|]. intros (_ & _ & _ & _ & _ & ->). apply length_sum256. Qed.

Lemma node_hash_range t : treap t → Forall (λ b, b < 256) (node_hash t).
Proof.
  destruct t; [intros _; repeat constructor|]. intros (_ & _ & _ & _ & _ & ->). apply sum256_range.
Qed.

Lemma empty_input_differs l k v r :
  bytes_of_string "mbe-state-merkle-treap-v2:empty" ≠ node_input l k v r.
Proof. intros E. apply (f_equal (λ b, nth 26 b 0)) in E. by vm_compute in E. Qed.

Lemma emptyCommitmentHash_eq :
  emptyCommitmentHash = Sha256.sum256 (bytes_of_string "mbe-state-merkle-treap-v2:empty").
Proof. vm_compute. reflexivity. Qed.

Definition tree_short (t : commitmentNode) : Prop :=
  ∀ k v, get t k = Some v → short k ∧ short v.

Lemma tree_short_sub k v l r :
  treap (fresh k v l r) → tree_short (fresh k v l r) → short k ∧ short v ∧ tree_short l ∧ tree_short r.
Proof.
  intros T S. destruct (S k v) as [? ?]; [apply get_eq|]. split_and!; auto.
  - intros x w Hw. apply S. rewrite (get_left_only _ _ _ _ x T) in Hw. by case_bool_decide.
  - intros x w Hw. apply S. rewrite (get_right_only _ _ _ _ x T) in Hw. by case_bool_decide.
Qed.

Lemma hash_binding t1 : ∀ t2, treap t1 → treap t2 → tree_short t1 → tree_short t2 →
  coll_free (tree_inputs t1) (tree_inputs t2) → node_hash t1 = node_hash t2 → t1 = t2.
Proof.
  induction t1 as [|k v p l IHl r IHr h]; intros [|k2 v2 p2 l2 r2 h2] T1 T2 S1 S2 C E; [done|..].
  - destruct T2 as (_ & _ & _ & _ & _ & ->). simpl in E. rewrite emptyCommitmentHash_eq in E.
    destruct (empty_input_differs (node_hash l2) k2 v2 (node_hash r2)). apply C; [left|left|exact E].
  - destruct T1 as (_ & _ & _ & _ & _ & ->). simpl in E. rewrite emptyCommitmentHash_eq in E.
    destruct (empty_input_differs (node_hash l) k v (node_hash r)). symmetry. apply C; [left|left|exact E].
  - pose proof (treap_inv _ _ _ _ _ _ T1) as I1. pose proof (treap_inv _ _ _ _ _ _ T2) as I2.
    rewrite I1, I2 in *. clear I1 I2.
    destruct (tree_short_sub _ _ _ _ T1 S1) as (Sk & Sv & Sl & Sr).
    destruct (tree_short_sub _ _ _ _ T2 S2) as (Sk2 & Sv2 & Sl2 & Sr2).
    destruct T1 as (Tl & Tr & _), T2 as (Tl2 & Tr2 & _).
    cbn [fresh node_hash] in E. apply (C (node_input _ _ _ _) (node_input _ _ _ _)) in E; [|by left..].
    apply node_input_inj in E as (El & -> & -> & Er); auto; [|by rewrite !length_node_hash].
    cbn [fresh tree_inputs] in C.
    rewrite (IHl l2), (IHr r2); auto; (eapply coll_free_mono; [exact C|..]; set_solver).
Qed.

(** ** Theorems *)

(** C26: the root does not depend on how the state came about. Any sequence of
    [Set]s on a fresh commitment gives the root that [Root] computes from the
    final snapshot. *)
Theorem root_order_independent (sets : list (string * string)) :
  CommitmentRoot (foldl (λ c kv, CommitmentSet c kv.1 kv.2) (Some Nil) sets) =
  Root (foldl (λ m kv, <[kv.1 := kv.2]> m) ∅ sets).
Proof.
  assert (∀ t m, represents t m → ∃ t', represents t' (foldl (λ m kv, <[kv.1 := kv.2]> m) m sets) ∧
    foldl (λ c kv, CommitmentSet c kv.1 kv.2) (Some t) sets = Some t') as H.
  { induction sets as [|[k v] sets IH]; intros t m R; simpl; [by exists t|].
    by apply IH, represents_set. }
  destruct (H _ _ represents_nil) as (t' & R & ->). unfold Root.
  by rewrite (represents_unique t' _ _ R (represents_New _)).
Qed.

(** Incremental maintenance. On a commitment that represents a state, [Apply]
    with a batch of updates gives the tree of the updated state, the one a full
    rebuild gives; [Set] is the case of one update. *)
Theorem apply_is_rebuild (m updates : gmap string string) :
  Apply (Some (NewCommitment m)) updates None = Some (NewCommitment (updates ∪ m)).
Proof.
  unfold Apply. cbn [from_option].
  assert (∀ ks t m0, represents t m0 →
    ∃ t', represents t' (foldl (λ m key, <[key := default "" (updates !! key)]> m) m0 ks) ∧
      foldl (λ c key, CommitmentSet c key (default "" (updates !! key))) (Some t) ks = Some t') as H.
  { induction ks as [|k ks IH]; intros t m0 R; simpl; [by exists t|]. by apply IH, represents_set. }
  destruct (H (sorted_keys updates) _ _ (represents_New m)) as (t' & R & ->). f_equal.
  apply (represents_unique _ _ _ R). destruct (represents_New (updates ∪ m)) as [T G].
  split; [exact T|]. intros x. rewrite G, foldl_inserts. case_decide as E.
  - apply elem_of_sorted_keys in E as [v Hv]. rewrite Hv. by apply lookup_union_Some_l.
  - rewrite elem_of_sorted_keys, <- eq_None_not_Some in E. by rewrite lookup_union_r.
Qed.

(** C27: the root binds the state. Two states with the same root are equal, when no
    string hashed for the nodes of the one tree has the SHA-256 digest of a different
    string hashed for the nodes of the other; the keys and values are shorter than
    2^64 bytes. *)
Theorem root_binds_state (m1 m2 : gmap string string) :
  all_short m1 → all_short m2 → coll_free (root_inputs m1) (root_inputs m2) → Root m1 = Root m2 → m1 = m2.
Proof.
  intros S1 S2 C E. destruct (represents_New m1) as [T1 G1], (represents_New m2) as [T2 G2].
  unfold Root, CommitmentRoot in E. cbn [default from_option id] in E.
  apply hex_encode_inj in E; [|by apply node_hash_range..].
  apply hash_binding in E; auto.
  - apply map_eq. intros x. by rewrite <- G1, E, G2.
  - intros k v H. rewrite G1 in H. eauto.
  - intros k v H. rewrite G2 in H. eauto.
Qed.

Definition two_balances (b : string) : gmap string string := {["balance:a" := "10"; "balance:b" := b]}.

Lemma two_balances_short b : short b → all_short (two_balances b).
Proof.
  unfold two_balances. intros Hb k v [[<- <-]|[_ [<- <-]%lookup_singleton_Some]]%lookup_insert_Some.
  - split; reflexivity.
  - split; [reflexivity|exact Hb].
Qed.

(** A state built in two orders; and two states whose strings do not collide, so that
    their roots differ. *)
Lemma root_binds_state_witness :
  (Root (two_balances "5") = Root (<["balance:b" := "5"]> (two_balances "6")) ∧
   two_balances "5" = <["balance:b" := "5"]> (two_balances "6")) ∧
  Root (two_balances "5") ≠ Root (two_balances "6").
Proof.
  split; [split; [vm_compute; reflexivity|]|].
  - apply (root_binds_state (two_balances "5") (<["balance:b" := "5"]> (two_balances "6"))).
    + apply two_balances_short. reflexivity.
    + assert (<["balance:b" := "5"]> (two_balances "6") = two_balances "5") as -> by (vm_compute; reflexivity).
      apply two_balances_short. reflexivity.
    + apply coll_free_tested. vm_compute. reflexivity.
    + vm_compute. reflexivity.
  - intros E. apply (root_binds_state (two_balances "5") (two_balances "6")) in E.
    + apply (f_equal (lookup "balance:b")) in E. vm_compute in E. discriminate E.
    + apply two_balances_short. reflexivity.
    + apply two_balances_short. reflexivity.
    + apply coll_free_tested. vm_compute. reflexivity.
Defined.

(** The trees the code builds, on a small state. *)
Example root_example :
  Root {["a" := "1"; "b" := "2"]} = CommitmentRoot (Some (commitmentSet (commitmentSet Nil "b" "2") "a" "1")).
Proof. vm_compute. reflexivity. Qed.
