(* ===== verification/MvMemory.v ===== *)
(** * Block-STM's multi-version memory
    ([executor/realism/execution/blockstm/{types,mvmemory}.go])

    For every key the list of versions transactions have written, in version
    order; a reader sees the greatest version of a lower transaction. Every
    operation runs under the memory's lock; the slices stay inside the map, so
    their in-place updates are updates of the map's values. *)
From S2P Require Import Prelude GoStd.
Local Open Scope N_scope.

Record Version := MkVersion { v_Txn : N; v_Incarnation : N }.

#[global] Instance Version_eq_dec : EqDecision Version.
Proof. solve_decision. Defined.

Definition Less (v other : Version) : bool :=
  if v_Txn v ≠? v_Txn other then v_Txn v <? v_Txn other
  else v_Incarnation v <? v_Incarnation other.

Record VersionedValue := MkVersioned { vv_Version : Version; vv_Value : string; vv_Estimate : bool }.

Record ReadDescriptor := MkRead {
  rd_Key : string;
  rd_FromBase : bool;
  rd_Version : Version;
  rd_Value : string;
  rd_Estimate : bool;
  rd_DependencyOn : option Version;
}.

Record ValidationResult := MkValidation {
  vr_Valid : bool;
  vr_FailedKey : string;
  vr_Expected : ReadDescriptor;
  vr_Observed : ReadDescriptor;
  vr_Dependency : option Version;
}.

Definition zero_read : ReadDescriptor := MkRead "" false (MkVersion 0 0) "" false None.

Abbreviation MVMemory := (gmap string (list VersionedValue)).

Definition NewMVMemory : MVMemory := ∅.

Definition items_of (m : MVMemory) (key : string) : list VersionedValue := default [] (m !! key).

(** ** Operations *)

(** The loop that overwrites the first item of the same version; [false] when
    there is none. *)
Fixpoint replace_item (item : VersionedValue) (items : list VersionedValue)
    : list VersionedValue * bool :=
  match items with
  | [] => ([], false)
  | x :: items' =>
      if vv_Version x ≟ vv_Version item then (item :: items', true)
      else let '(r, b) := replace_item item items' in (x :: r, b)
  end.

(** [sort.Slice] with [Less]; insertion sort, which is the result of any sort
    when the versions differ. *)
Fixpoint insert_sorted (item : VersionedValue) (items : list VersionedValue)
    : list VersionedValue :=
  match items with
  | [] => [item]
  | x :: items' =>
      if Less (vv_Version item) (vv_Version x) then item :: x :: items'
      else x :: insert_sorted item items'
  end.
Definition sort_items (items : list VersionedValue) : list VersionedValue :=
  foldl (λ acc x, insert_sorted x acc) [] items.

Definition upsertLocked (m : MVMemory) (key : string) (item : VersionedValue) : MVMemory :=
  let '(items, replaced) := replace_item item (items_of m key) in
  let items := if replaced : bool then items else items ++ [item] in
  <[key := sort_items items]> m.

Definition Write (m : MVMemory) (key : string) (version : Version) (value : string) : MVMemory :=
  upsertLocked m key (MkVersioned version value false).

Definition MarkEstimate (m : MVMemory) (key : string) (version : Version) : MVMemory :=
  upsertLocked m key (MkVersioned version "" true).

Definition ClearTxnVersions (m : MVMemory) (key : string) (txn : N) : MVMemory :=
  if length (items_of m key) ≟ O then m
  else
  let kept := filter (λ item, v_Txn (vv_Version item) ≠ txn) (items_of m key) in
  if length kept ≟ O then delete key m else <[key := kept]> m.

(** The loop from the last item down. *)
Definition find_below (reader : N) (items : list VersionedValue) : option VersionedValue :=
  List.find (λ item, v_Txn (vv_Version item) <? reader) (reverse items).

Definition Read (m : MVMemory) (key : string) (reader : N) (base : gmap string string)
    : ReadDescriptor :=
  match find_below reader (items_of m key) with
  | Some item => MkRead key false (vv_Version item) (vv_Value item) (vv_Estimate item)
                   (if vv_Estimate item then Some (vv_Version item) else None)
  | None => MkRead key true (MkVersion 0 0) (default "" (base !! key)) false None
  end.

Definition sameRead (left right : ReadDescriptor) : bool :=
  if (rd_Key left ≠? rd_Key right) || negb (Bool.eqb (rd_FromBase left) (rd_FromBase right)) ||
     (rd_Value left ≠? rd_Value right) || negb (Bool.eqb (rd_Estimate left) (rd_Estimate right))
  then false
  else if negb (rd_FromBase left) && (rd_Version left ≠? rd_Version right) then false
  else true.

Fixpoint Validate (m : MVMemory) (reader : N) (base : gmap string string)
    (captured : list ReadDescriptor) : ValidationResult :=
  match captured with
  | [] => MkValidation true "" zero_read zero_read None
  | expected :: captured' =>
      let observed := Read m (rd_Key expected) reader base in
      if rd_Estimate observed
      then MkValidation false (rd_Key expected) expected observed (rd_DependencyOn observed)
      else if negb (sameRead expected observed)
      then MkValidation false (rd_Key expected) expected observed None
      else Validate m reader base captured'
  end.

(** ** Versions *)

Definition vlt (v w : Version) : Prop := Less v w = true.

Lemma vlt_spec v w :
  vlt v w ↔ v_Txn v < v_Txn w ∨ (v_Txn v = v_Txn w ∧ v_Incarnation v < v_Incarnation w).
Proof.
  unfold vlt, Less. destruct (decide (v_Txn v = v_Txn w)) as [E|E].
  - rewrite bool_decide_eq_true_2 by done. simpl. rewrite N.ltb_lt. lia.
  - rewrite bool_decide_eq_false_2 by done. simpl. rewrite N.ltb_lt. lia.
Qed.

Lemma Less_false v w : v ≠ w → Less v w = false → vlt w v.
Proof.
  intros Hne H. apply vlt_spec. assert (¬ vlt v w) as Hn by (unfold vlt; by rewrite H).
  rewrite vlt_spec in Hn. destruct v as [a b], w as [c d]. simpl in *.
  assert (a ≠ c ∨ b ≠ d) by (destruct (decide (a = c)), (decide (b = d)); naive_solver). lia.
Qed.

#[global] Instance vlt_trans : Transitive vlt.
Proof. intros u v w. rewrite !vlt_spec. lia. Qed.
Lemma vlt_irrefl v : ¬ vlt v v.
Proof. rewrite vlt_spec. lia. Qed.

(** ** Sorted version lists *)

Definition ilt (x y : VersionedValue) : Prop := vlt (vv_Version x) (vv_Version y).
#[global] Instance ilt_trans : Transitive ilt.
Proof. intros x y z. unfold ilt. apply transitivity. Qed.

Abbreviation versions items := (vv_Version <$> items).

Lemma insert_sorted_perm x l : insert_sorted x l ≡ₚ x :: l.
Proof.
  induction l as [|y l IH]; simpl; [done|]. case_match; [done|]. rewrite IH. by constructor.
Qed.

Lemma insert_sorted_ok x l :
  StronglySorted ilt l → vv_Version x ∉ versions l → StronglySorted ilt (insert_sorted x l).
Proof.
  induction l as [|y l IH]; intros Hs Hn; simpl; [by repeat constructor|].
  apply StronglySorted_inv in Hs as [Hs Hy]. rewrite fmap_cons, not_elem_of_cons in Hn.
  destruct Hn as [Hne Hn]. case_match eqn:E.
  - constructor; [by constructor|]. constructor; [done|].
    eapply Forall_impl; [exact Hy|]. intros z Hz. by eapply (transitivity (y := y)).
  - constructor; [by apply IH|]. rewrite insert_sorted_perm. constructor; [|done].
    by apply Less_false.
Qed.

Lemma sort_items_spec l :
  NoDup (versions l) → sort_items l ≡ₚ l ∧ StronglySorted ilt (sort_items l).
Proof.
  unfold sort_items. induction l as [|x l IH] using rev_ind; intros Hn; [by repeat constructor|].
  rewrite fmap_app in Hn. apply NoDup_app in Hn as (Hn & Hx & _). destruct (IH Hn) as [Hp Hs].
  rewrite foldl_app. simpl. split.
  - rewrite insert_sorted_perm, Hp. by rewrite Permutation_app_comm.
  - apply insert_sorted_ok; [done|]. rewrite Hp. intros H. by apply (Hx _ H); left.
Qed.

Lemma sorted_nodup l : StronglySorted ilt l → NoDup (versions l).
Proof.
  induction l as [|x l IH]; intros Hs; [constructor|].
  apply StronglySorted_inv in Hs as [Hs Hx]. simpl. constructor; [|by apply IH].
  intros (y & E & Hy)%list_elem_of_fmap. rewrite Forall_forall in Hx.
  specialize (Hx _ Hy). unfold ilt in Hx. rewrite E in Hx. by apply vlt_irrefl in Hx.
Qed.

Lemma replace_item_spec item l : NoDup (versions l) →
  let '(r, b) := replace_item item l in
  versions r = versions l ∧
  (b = true ↔ vv_Version item ∈ versions l) ∧
  ∀ x, x ∈ r ↔ (b = true ∧ x = item) ∨ (x ∈ l ∧ vv_Version x ≠ vv_Version item).
Proof.
  induction l as [|y l IH]; intros Hn; cbn [replace_item].
  { split_and!; [done|set_solver|set_solver]. }
  apply NoDup_cons in Hn as [Hy Hn]. specialize (IH Hn).
  case_bool_decide as E.
  - split_and!; [by rewrite !fmap_cons, E|rewrite fmap_cons; set_solver|]. intros x. rewrite !elem_of_cons. split.
    + intros [->|Hx]; [by left|]. right. split; [by right|]. intros Ex. apply Hy.
      rewrite E, <- Ex. by apply list_elem_of_fmap_2.
    + intros [[_ ->]|[[->|Hx] Hne]]; [by left|done|by right].
  - destruct (replace_item item l) as [r b]. destruct IH as (E1 & E2 & E3).
    split_and!; [by rewrite !fmap_cons, E1| |].
    + rewrite E2, fmap_cons, elem_of_cons. split; [by right|]. intros [?|?]; [congruence|done].
    + intros x. rewrite !elem_of_cons, E3. split; [|naive_solver].
      intros [->|[?|[? ?]]]; [by right; split; [left|]|by left|by right; split; [right|]].
Qed.

(** ** The invariant, and the memory as a set of versions *)

Definition mv_ok (m : MVMemory) : Prop :=
  ∀ key items, m !! key = Some items → StronglySorted ilt items ∧ items ≠ [].

(** [x] is stored for [key]: the abstract content of the memory. *)
Definition stored (m : MVMemory) (key : string) (x : VersionedValue) : Prop :=
  x ∈ items_of m key.

Lemma items_sorted m key : mv_ok m → StronglySorted ilt (items_of m key).
Proof.
  intros H. unfold items_of. destruct (m !! key) as [l|] eqn:E; simpl; [|constructor].
  by apply (H key).
Qed.

Lemma upsert_items m key item :
  mv_ok m →
  ∃ items, upsertLocked m key item = <[key := items]> m ∧ StronglySorted ilt items ∧
    ∀ x, x ∈ items ↔ x = item ∨ (stored m key x ∧ vv_Version x ≠ vv_Version item).
Proof.
  intros H. pose proof (sorted_nodup _ (items_sorted m key H)) as Hn. unfold upsertLocked, stored.
  pose proof (replace_item_spec item _ Hn) as R.
  destruct (replace_item item (items_of m key)) as [r b]. destruct R as (R1 & R2 & R3).
  destruct b.
  - destruct (sort_items_spec r) as [Hp Hs]; [by rewrite R1|]. eexists. split_and!; [done..|].
    intros x. rewrite Hp, R3. naive_solver.
  - assert (vv_Version item ∉ versions (items_of m key)) as Hni by (intros Hi; by apply R2 in Hi).
    destruct (sort_items_spec (r ++ [item])) as [Hp Hs].
    { rewrite fmap_app, R1. apply NoDup_app. split_and!; [done| |apply NoDup_singleton].
      intros v Hv. simpl. rewrite list_elem_of_singleton. by intros ->. }
    eexists. split_and!; [done..|]. intros x.
    rewrite Hp, elem_of_app, list_elem_of_singleton, R3. naive_solver.
Qed.

Lemma mv_ok_upsert m key item : mv_ok m → mv_ok (upsertLocked m key item).
Proof.
  intros H. destruct (upsert_items m key item H) as (items & -> & Hs & Hx).
  intros k l [[<- <-]|[_ Hl]]%lookup_insert_Some; [|by apply (H k)].
  split; [done|]. intros ->. by apply (not_elem_of_nil item), Hx; left.
Qed.

Lemma stored_upsert m key item k x :
  mv_ok m →
  stored (upsertLocked m key item) k x ↔
    (k = key ∧ (x = item ∨ (stored m key x ∧ vv_Version x ≠ vv_Version item))) ∨
    (k ≠ key ∧ stored m k x).
Proof.
  intros H. destruct (upsert_items m key item H) as (items & -> & Hs & Hx).
  unfold stored at 1, items_of. rewrite lookup_insert. case_decide as E; simpl.
  - subst. rewrite Hx. naive_solver.
  - unfold stored, items_of. naive_solver.
Qed.

Lemma ClearTxnVersions_items m key txn k :
  items_of (ClearTxnVersions m key txn) k =
  if decide (k = key) then filter (λ x, v_Txn (vv_Version x) ≠ txn) (items_of m key)
  else items_of m k.
Proof.
  unfold ClearTxnVersions. case_bool_decide as E1.
  { case_decide; [|done]. subst. apply nil_length_inv in E1. by rewrite E1. }
  case_bool_decide as E2; unfold items_of at 1.
  - apply nil_length_inv in E2. rewrite lookup_delete. case_decide; case_decide; try congruence;
      [by rewrite E2|done].
  - rewrite lookup_insert. by repeat (case_decide; try congruence).
Qed.

Lemma StronglySorted_filter {A} (R : A → A → Prop) (P : A → Prop) `{∀ x, Decision (P x)} l :
  StronglySorted R l → StronglySorted R (filter P l).
Proof.
  induction l as [|x l IH]; intros Hs; [constructor|].
  apply StronglySorted_inv in Hs as [Hs Hx]. rewrite filter_cons. case_decide; [|by apply IH].
  constructor; [by apply IH|]. apply Forall_forall. intros y [_ Hy]%list_elem_of_filter.
  rewrite Forall_forall in Hx. auto.
Qed.

Lemma mv_ok_clear m key txn : mv_ok m → mv_ok (ClearTxnVersions m key txn).
Proof.
  intros H k l Hl.
  assert (StronglySorted ilt (items_of (ClearTxnVersions m key txn) k)) as Hs.
  { rewrite ClearTxnVersions_items. case_decide; [apply StronglySorted_filter|];
      by apply items_sorted. }
  unfold items_of in Hs. rewrite Hl in Hs. split; [exact Hs|].
  unfold ClearTxnVersions in Hl. case_bool_decide; [by apply (H k)|].
  case_bool_decide as E.
  - apply lookup_delete_Some in Hl as [_ Hl]. by apply (H k).
  - apply lookup_insert_Some in Hl as [[_ <-]|[_ Hl]]; [|by apply (H k)]. by intros E'; rewrite E' in E.
Qed.

(** ** Reads *)

(** [x] is what a reader sees: the greatest stored version of a lower
    transaction. *)
Definition visible (m : MVMemory) (key : string) (reader : N) (x : VersionedValue) : Prop :=
  stored m key x ∧ v_Txn (vv_Version x) < reader ∧
  ∀ y, stored m key y → v_Txn (vv_Version y) < reader → y = x ∨ ilt y x.

Lemma find_below_spec reader l :
  StronglySorted ilt l →
  match find_below reader l with
  | Some x => x ∈ l ∧ v_Txn (vv_Version x) < reader ∧
              ∀ y, y ∈ l → v_Txn (vv_Version y) < reader → y = x ∨ ilt y x
  | None => ∀ y, y ∈ l → reader <= v_Txn (vv_Version y)
  end.
Proof.
  unfold find_below. induction l as [|z l IH] using rev_ind; intros Hs; [by intros y ?%elem_of_nil|].
  rewrite reverse_snoc. simpl.
  assert (StronglySorted ilt l ∧ ∀ y, y ∈ l → ilt y z) as [Hl Hz].
  { clear IH. induction l as [|w l IH]; [split; [constructor|by intros y ?%elem_of_nil]|].
    apply StronglySorted_inv in Hs as [Hs Hw]. apply Forall_app in Hw as [Hw Hwz].
    destruct (IH Hs) as [H1 H2]. split; [by constructor|].
    intros y [->|Hy]%elem_of_cons; [by inversion Hwz|auto]. }
  destruct (N.ltb_spec (v_Txn (vv_Version z)) reader) as [Hlt|Hge].
  - split_and!; [set_solver|done|]. intros y Hy _.
    apply elem_of_app in Hy as [Hy|Hy%list_elem_of_singleton]; [right; auto|by left].
  - specialize (IH Hl). destruct (List.find _ _) as [x|].
    + destruct IH as (H1 & H2 & H3). split_and!; [set_solver|done|].
      intros y [Hy|Hy%list_elem_of_singleton]%elem_of_app Ht; [auto|subst; lia].
    + intros y [Hy|Hy%list_elem_of_singleton]%elem_of_app; [auto|by subst].
Qed.

Lemma Read_cases m key reader base :
  mv_ok m →
  (∃ x, visible m key reader x ∧
     Read m key reader base = MkRead key false (vv_Version x) (vv_Value x) (vv_Estimate x)
       (if vv_Estimate x then Some (vv_Version x) else None)) ∨
  ((∀ y, stored m key y → reader <= v_Txn (vv_Version y)) ∧
   Read m key reader base = MkRead key true (MkVersion 0 0) (default "" (base !! key)) false None).
Proof.
  intros H. pose proof (find_below_spec reader _ (items_sorted m key H)) as F. unfold Read.
  destruct (find_below reader (items_of m key)) as [x|]; [left|by right].
  exists x. split; [|done]. exact F.
Qed.

Lemma visible_unique m key reader x y : visible m key reader x → visible m key reader y → x = y.
Proof.
  intros (Sx & Tx & Mx) (Sy & Ty & My). destruct (Mx y Sy Ty) as [|L1]; [done|].
  destruct (My x Sx Tx) as [|L2]; [done|]. unfold ilt in *.
  destruct (vlt_irrefl (vv_Version x)). by etrans.
Qed.

(** The read of a given stored item. *)
Lemma Read_visible m key reader base x :
  mv_ok m → visible m key reader x →
  Read m key reader base = MkRead key false (vv_Version x) (vv_Value x) (vv_Estimate x)
    (if vv_Estimate x then Some (vv_Version x) else None).
Proof.
  intros H V. destruct (Read_cases m key reader base H) as [(y & Vy & ->)|[Hn _]].
  - by rewrite (visible_unique _ _ _ _ _ V Vy).
  - destruct V as (S & T & _). specialize (Hn _ S). lia.
Qed.

Lemma Read_base m key reader base :
  mv_ok m → (∀ y, stored m key y → reader <= v_Txn (vv_Version y)) →
  Read m key reader base = MkRead key true (MkVersion 0 0) (default "" (base !! key)) false None.
Proof.
  intros H Hn. destruct (Read_cases m key reader base H) as [(y & (S & T & _) & _)|[_ ->]]; [|done].
  specialize (Hn _ S). lia.
Qed.

(** A read depends only on the versions of lower transactions. *)
Lemma Read_ext m m' key reader base :
  mv_ok m → mv_ok m' →
  (∀ x, v_Txn (vv_Version x) < reader → stored m key x ↔ stored m' key x) →
  Read m key reader base = Read m' key reader base.
Proof.
  intros H H' E. destruct (Read_cases m key reader base H) as [(x & (S & T & M) & ->)|[Hn ->]].
  - symmetry. apply Read_visible; [done|]. split_and!; [by apply E|done|].
    intros y Sy Ty. apply M; [by apply E|done].
  - symmetry. apply Read_base; [done|]. intros y Sy.
    destruct (N.lt_ge_cases (v_Txn (vv_Version y)) reader) as [Hlt|]; [|done].
    apply Hn. by apply E.
Qed.

Lemma Read_skip m key i base :
  mv_ok m → (∀ y, stored m key y → v_Txn (vv_Version y) ≠ i) →
  Read m key (i + 1) base = Read m key i base.
Proof.
  intros H Hn. destruct (Read_cases m key i base H) as [(x & (S & T & M) & ->)|[Hl ->]].
  - apply Read_visible; [done|]. split_and!; [done|lia|]. intros y Sy Ty. apply M; [done|].
    specialize (Hn _ Sy). lia.
  - apply Read_base; [done|]. intros y Sy. specialize (Hn _ Sy). specialize (Hl _ Sy). lia.
Qed.

(** ** Validation *)

Lemma sameRead_spec a b :
  sameRead a b = true ↔
  rd_Key a = rd_Key b ∧ rd_FromBase a = rd_FromBase b ∧ rd_Value a = rd_Value b ∧
  rd_Estimate a = rd_Estimate b ∧ (rd_FromBase a = false → rd_Version a = rd_Version b).
Proof.
  assert (sameRead a b = (rd_Key a ≟ rd_Key b) && Bool.eqb (rd_FromBase a) (rd_FromBase b) &&
    (rd_Value a ≟ rd_Value b) && Bool.eqb (rd_Estimate a) (rd_Estimate b) &&
    (rd_FromBase a || (rd_Version a ≟ rd_Version b))) as ->.
  { unfold sameRead. destruct (rd_Key a ≟ rd_Key b), (Bool.eqb (rd_FromBase a) (rd_FromBase b)),
      (rd_Value a ≟ rd_Value b), (Bool.eqb (rd_Estimate a) (rd_Estimate b)); simpl; try done.
    by destruct (rd_FromBase a), (rd_Version a ≟ rd_Version b). }
  rewrite !andb_true_iff, orb_true_iff, !bool_decide_eq_true, !eqb_true_iff.
  destruct (rd_FromBase a); intuition congruence.
Qed.

Lemma Validate_spec m reader base captured :
  vr_Valid (Validate m reader base captured) = true ↔
  ∀ r, r ∈ captured → rd_Estimate (Read m (rd_Key r) reader base) = false ∧
                      sameRead r (Read m (rd_Key r) reader base) = true.
Proof.
  induction captured as [|r l IH]; simpl; [by split; [intros _ r ?%elem_of_nil|]|].
  destruct (rd_Estimate (Read m (rd_Key r) reader base)) eqn:E1; simpl.
  { split; [done|]. intros H. destruct (H r) as [H1 _]; [left|]. congruence. }
  destruct (sameRead r (Read m (rd_Key r) reader base)) eqn:E2; simpl.
  - rewrite IH. split.
    + intros H r' [->|Hr]%elem_of_cons; auto.
    + intros H r' Hr. apply H. by right.
  - split; [done|]. intros H. destruct (H r) as [_ H1]; [left|]. congruence.
Qed.

(** ** Memories the operations build *)

Inductive mv_op :=
  | MvWrite (key : string) (version : Version) (value : string)
  | MvEstimate (key : string) (version : Version)
  | MvClear (key : string) (txn : N).

Definition mv_apply (m : MVMemory) (o : mv_op) : MVMemory :=
  match o with
  | MvWrite k v x => Write m k v x
  | MvEstimate k v => MarkEstimate m k v
  | MvClear k t => ClearTxnVersions m k t
  end.

(** The specification: what is stored, as a set of versioned values per key. *)
Definition mv_spec (S : string → VersionedValue → Prop) (o : mv_op)
    : string → VersionedValue → Prop :=
  match o with
  | MvWrite key v x => λ k y, (k = key ∧ y = MkVersioned v x false) ∨
                              (S k y ∧ ¬ (k = key ∧ vv_Version y = v))
  | MvEstimate key v => λ k y, (k = key ∧ y = MkVersioned v "" true) ∨
                               (S k y ∧ ¬ (k = key ∧ vv_Version y = v))
  | MvClear key t => λ k y, S k y ∧ ¬ (k = key ∧ v_Txn (vv_Version y) = t)
  end.

Lemma mv_ok_apply m o : mv_ok m → mv_ok (mv_apply m o).
Proof. destruct o; [apply mv_ok_upsert|apply mv_ok_upsert|apply mv_ok_clear]. Qed.

Lemma stored_apply m o key x :
  mv_ok m → stored (mv_apply m o) key x ↔ mv_spec (stored m) o key x.
Proof.
  intros H. destruct o as [k v y|k v|k t]; cbn [mv_apply mv_spec].
  - unfold Write. rewrite stored_upsert by done. simpl.
    destruct (decide (key = k)) as [->|]; naive_solver.
  - unfold MarkEstimate. rewrite stored_upsert by done. simpl.
    destruct (decide (key = k)) as [->|]; naive_solver.
  - unfold stored. rewrite ClearTxnVersions_items. case_decide as E; [subst|naive_solver].
    rewrite list_elem_of_filter. naive_solver.
Qed.

Lemma mv_ok_New : mv_ok NewMVMemory.
Proof. unfold NewMVMemory. by intros k l ?%lookup_empty_Some. Qed.

Lemma mv_ok_run ops : mv_ok (foldl mv_apply NewMVMemory ops).
Proof.
  generalize mv_ok_New. generalize NewMVMemory. induction ops as [|o ops IH]; intros m H; [done|].
  by apply IH, mv_ok_apply.
Qed.

(** C33: the multi-version memory refines its specification. After any sequence of
    writes, estimates and clears every key's list is in strict version order, and
    what it holds is what the operations, read as updates of a set of versioned
    values per key, leave. *)
Theorem mv_refines (ops : list mv_op) (key : string) :
  StronglySorted ilt (items_of (foldl mv_apply NewMVMemory ops) key) ∧
  ∀ x, x ∈ items_of (foldl mv_apply NewMVMemory ops) key ↔
       foldl mv_spec (λ _ _, False) ops key x.
Proof.
  split; [apply items_sorted, mv_ok_run|].
  assert (∀ ops m S, mv_ok m → (∀ k y, stored m k y ↔ S k y) →
    ∀ k y, stored (foldl mv_apply m ops) k y ↔ foldl mv_spec S ops k y) as main.
  { clear. induction ops as [|o ops IH]; intros m S H E; [done|]. simpl.
    apply IH; [by apply mv_ok_apply|]. intros k y. rewrite stored_apply by done.
    destruct o; simpl; by rewrite E. }
  intros x. apply main; [apply mv_ok_New|].
  intros k y. unfold stored, items_of, NewMVMemory. rewrite lookup_empty. simpl. split; [|done].
  apply not_elem_of_nil.
Qed.

(** a read returns the greatest version below the reader, with an ESTIMATE
    reported as a dependency, and the base value when there is none. *)
Theorem Read_latest_lower (ops : list mv_op) (key : string) (reader : N)
    (base : gmap string string) :
  let m := foldl mv_apply NewMVMemory ops in
  let r := Read m key reader base in
  rd_Key r = key ∧
  (if rd_FromBase r
   then rd_Value r = default "" (base !! key) ∧ rd_Estimate r = false ∧
        ∀ y, y ∈ items_of m key → reader <= v_Txn (vv_Version y)
   else ∃ x, x ∈ items_of m key ∧ v_Txn (vv_Version x) < reader ∧
        rd_Version r = vv_Version x ∧ rd_Value r = vv_Value x ∧ rd_Estimate r = vv_Estimate x ∧
        rd_DependencyOn r = (if vv_Estimate x then Some (vv_Version x) else None) ∧
        ∀ y, y ∈ items_of m key → v_Txn (vv_Version y) < reader →
             y = x ∨ vlt (vv_Version y) (vv_Version x)).
Proof.
  intros m r. unfold r. clear r.
  destruct (Read_cases m key reader base (mv_ok_run ops)) as [(x & (S & T & M) & ->)|[Hn ->]].
  - split; [done|]. exists x. by split_and!.
  - by split_and!.
Qed.

(** ** Validated executions are serial

    A transaction as the executor runs it: it asks for values one at a time and
    ends with its writes. *)
Inductive program :=
  | Done (writes : list (string * string))
  | Get (key : string) (next : string → program).

(** Run on a plain state, the way a serial executor does. *)
Fixpoint run_on (st : gmap string string) (p : program) : list (string * string) :=
  match p with
  | Done writes => writes
  | Get key next => run_on st (next (default "" (st !! key)))
  end.

Definition write_all (writes : list (string * string)) (st : gmap string string)
    : gmap string string :=
  foldl (λ st kv, <[kv.1 := kv.2]> st) st writes.

Definition serial (base : gmap string string) (ps : list program) : gmap string string :=
  foldl (λ st p, write_all (run_on st p) st) base ps.

(** The program, fed with captured reads, asks for exactly their keys and ends
    with the writes. *)
Fixpoint replay (p : program) (reads : list ReadDescriptor) : option (list (string * string)) :=
  match p, reads with
  | Done writes, [] => Some writes
  | Get key next, r :: reads' =>
      if rd_Key r ≟ key then replay (next (rd_Value r)) reads' else None
  | _, _ => None
  end.

(** The record of one finished incarnation. *)
Record finished := MkFinished {
  fin_reads : list ReadDescriptor;
  fin_writes : list (string * string);
  fin_incarnation : N;
}.

Definition last_write (writes : list (string * string)) (key : string) : option string :=
  write_all writes ∅ !! key.

(** The memory holds, for every transaction, its last write per key, and nothing
    else: no estimates, no left-over incarnations. *)
Definition published (m : MVMemory) (fs : list finished) : Prop :=
  ∀ key x, stored m key x ↔
    ∃ i f value, fs !! i = Some f ∧ last_write (fin_writes f) key = Some value ∧
      x = MkVersioned (MkVersion (N.of_nat i) (fin_incarnation f)) value false.

Lemma write_all_lookup writes : ∀ st key,
  write_all writes st !! key = match last_write writes key with Some v => Some v | None => st !! key end.
Proof.
  unfold last_write, write_all. induction writes as [|[k v] w IH] using rev_ind; intros st key.
  { simpl. by rewrite lookup_empty. }
  rewrite !foldl_app. simpl. rewrite !lookup_insert. case_decide; [done|]. apply IH.
Qed.

Lemma run_on_replay st p : ∀ reads writes,
  replay p reads = Some writes →
  (∀ r, r ∈ reads → rd_Value r = default "" (st !! rd_Key r)) → run_on st p = writes.
Proof.
  induction p as [w|key next IH]; intros [|r reads] writes H Hr; simpl in H; try done.
  - by injection H.
  - case_bool_decide as E; [|done]. simpl. rewrite <- E, <- Hr by left.
    eapply IH; [exact H|]. intros r' Hr'. apply Hr. by right.
Qed.

(** What the reader at position [i] sees is the serial state before it. *)
Lemma read_is_serial m base ps fs i :
  mv_ok m → published m fs → Forall2 (λ p f, replay p (fin_reads f) = Some (fin_writes f)) ps fs →
  (∀ j f, fs !! j = Some f → vr_Valid (Validate m (N.of_nat j) base (fin_reads f)) = true) →
  (i <= length fs)%nat →
  ∀ key, rd_Value (Read m key (N.of_nat i) base) = default "" (serial base (take i ps) !! key) ∧
         rd_Estimate (Read m key (N.of_nat i) base) = false.
Proof.
  intros H P R V. induction i as [|i IH]; intros Hi key.
  { rewrite Read_base; [done|done|]. intros y _. lia. }
  destruct (lookup_lt_is_Some_2 fs i) as [f Hf]; [lia|].
  destruct (Forall2_lookup_r _ _ _ _ _ R Hf) as (p & Hp & Hrep).
  assert (run_on (serial base (take i ps)) p = fin_writes f) as Hrun.
  { apply (run_on_replay _ p (fin_reads f)); [done|]. intros r Hr.
    destruct (proj1 (Validate_spec _ _ _ _) (V _ _ Hf) r Hr) as [_ Hs].
    apply sameRead_spec in Hs as (_ & _ & -> & _). apply IH. lia. }
  rewrite (take_S_r _ _ _ Hp). unfold serial. rewrite foldl_app. simpl. fold (serial base (take i ps)).
  rewrite Hrun, write_all_lookup.
  destruct (last_write (fin_writes f) key) as [v|] eqn:Hw.
  - rewrite (Read_visible m key _ base
      (MkVersioned (MkVersion (N.of_nat i) (fin_incarnation f)) v false)); [done|done|].
    split_and!.
    + apply P. by exists i, f, v.
    + simpl. lia.
    + intros y (j & f' & w & Hf' & Hw' & ->)%P Ht. simpl in Ht.
      destruct (decide (j = i)) as [->|]; [left; by simplify_eq|right].
      unfold ilt. rewrite vlt_spec. simpl. lia.
  - rewrite Nat2N.inj_succ, <- N.add_1_r, Read_skip; [apply IH; lia|done|].
    intros y (j & f' & w & Hf' & Hw' & ->)%P. simpl. intros E%Nat2N.inj. subst j. congruence.
Qed.

(** serializability. If every transaction of a block was last run against
    captured reads that still validate, and the memory holds exactly the writes
    of those runs, then what is visible after the block is the state the
    transactions leave when they run one after the other on the base state, in
    block order. *)
Theorem validated_block_is_serial (ops : list mv_op) (base : gmap string string)
    (ps : list program) (fs : list finished) :
  let m := foldl mv_apply NewMVMemory ops in
  published m fs →
  Forall2 (λ p f, replay p (fin_reads f) = Some (fin_writes f)) ps fs →
  (∀ j f, fs !! j = Some f → vr_Valid (Validate m (N.of_nat j) base (fin_reads f)) = true) →
  ∀ key, rd_Value (Read m key (N.of_nat (length fs)) base) = default "" (serial base ps !! key).
Proof.
  intros m P R V key.
  destruct (read_is_serial m base ps fs (length fs) (mv_ok_run ops) P R V ltac:(lia) key) as [-> _].
  by rewrite take_ge by (by rewrite (Forall2_length _ _ _ R)).
Qed.

Lemma last_write_one k v key value :
  last_write [(k, v)] key = Some value ↔ key = k ∧ value = v.
Proof. unfold last_write. simpl. rewrite lookup_insert_Some, lookup_empty. naive_solver. Qed.

(** Transaction 0 copies a's value to b; transaction 1, run again after it read
    too early, copies b's value to c. *)
Lemma validated_block_is_serial_witness :
  let base := {["a" := "10"]} : gmap string string in
  let p0 := Get "a" (λ v, Done [("b", v)]) in
  let p1 := Get "b" (λ v, Done [("c", v)]) in
  let m := foldl mv_apply NewMVMemory
    [MvEstimate "b" (MkVersion 0 0); MvWrite "b" (MkVersion 0 0) "10";
     MvWrite "c" (MkVersion 1 1) "10"] in
  rd_Value (Read m "c" 2 base) = default "" (serial base [p0; p1] !! "c").
Proof.
  intros base p0 p1 m.
  apply (validated_block_is_serial _ base [p0; p1]
    [MkFinished [MkRead "a" true (MkVersion 0 0) "10" false None] [("b", "10")] 0;
     MkFinished [MkRead "b" false (MkVersion 0 0) "10" false None] [("c", "10")] 1]).
  - intros key x. simpl. unfold Write, MarkEstimate.
    assert (∀ k, ¬ stored NewMVMemory k x) as Hno by (intros k; apply not_elem_of_nil).
    rewrite !stored_upsert by auto using mv_ok_upsert, mv_ok_New. cbn [vv_Version]. split.
    + intros H. clear -H Hno.
      assert ((key = "b" ∧ x = MkVersioned (MkVersion 0 0) "10" false) ∨
              (key = "c" ∧ x = MkVersioned (MkVersion 1 1) "10" false)) as [[-> ->]|[-> ->]]
        by (destruct (decide (key = "c")), (decide (key = "b")); intuition (subst; naive_solver)).
      * by exists 0%nat, (MkFinished [MkRead "a" true (MkVersion 0 0) "10" false None] [("b", "10")] 0), "10".
      * by exists 1%nat, (MkFinished [MkRead "b" false (MkVersion 0 0) "10" false None] [("c", "10")] 1), "10".
    + intros ([|[|i]] & f & value & [= <-] & [-> ->]%last_write_one & ->); [right|left].
      * split; [done|]. left. by split; [|left].
      * by split; [|left].
  - repeat constructor.
  - intros [|[|j]] f [= <-]; vm_compute; reflexivity.
Defined.
