(* ===== verification/Heap.v ===== *)
(** * Go's [container/heap] on a slice

    [heap.Push] and [heap.Pop] with the sift loops of the standard library, and
    the facts a client relies on: both keep the elements and the heap order, and
    [Pop] takes a least element. *)
From S2P Require Import Prelude.

Section heap.
Context {A : Type} `{Inhabited A} (less : A → A → bool).

Definition swap (i j : nat) (l : list A) : list A := <[i := l !!! j]> (<[j := l !!! i]> l).

(** The loops run at most once per level; the length of the slice is fuel
    enough. *)
Fixpoint up (fuel j : nat) (l : list A) : list A :=
  match fuel with
  | O => l
  | S fuel' =>
      let i := ((j - 1) / 2)%nat in
      if (i ≟ j) || negb (less (l !!! j) (l !!! i)) then l
      else up fuel' i (swap i j l)
  end.

Fixpoint down (fuel i n : nat) (l : list A) : list A :=
  match fuel with
  | O => l
  | S fuel' =>
      let j1 := (2 * i + 1)%nat in
      if (n <=? j1)%nat then l
      else
      let j2 := (j1 + 1)%nat in
      let j := if (j2 <? n)%nat && less (l !!! j2) (l !!! j1) then j2 else j1 in
      if negb (less (l !!! j) (l !!! i)) then l
      else down fuel' j n (swap i j l)
  end.

Definition heap_push (x : A) (l : list A) : list A :=
  up (S (length l)) (length l) (l ++ [x]).

(** [None] on an empty heap, where Go panics. *)
Definition heap_pop (l : list A) : option (A * list A) :=
  match l with
  | [] => None
  | _ =>
      let n := (length l - 1)%nat in
      let l' := down (length l) 0 n (swap 0 n l) in
      Some (l' !!! n, take n l')
  end.

(** ** Swaps *)

Lemma length_swap i j l : length (swap i j l) = length l.
Proof. unfold swap. by rewrite !length_insert. Qed.

Lemma lookup_swap i j l k :
  (i < length l)%nat → (j < length l)%nat →
  swap i j l !!! k = if decide (k = i) then l !!! j else if decide (k = j) then l !!! i else l !!! k.
Proof.
  intros Hi Hj. unfold swap. case_decide as E1; [subst|].
  - by rewrite list_lookup_total_insert_eq by (by rewrite length_insert).
  - rewrite list_lookup_total_insert_ne by done. case_decide as E2; [subst|].
    + by rewrite list_lookup_total_insert_eq.
    + by rewrite list_lookup_total_insert_ne.
Qed.

Lemma swap_perm i j l : (i < length l)%nat → (j < length l)%nat → swap i j l ≡ₚ l.
Proof.
  intros Hi Hj. unfold swap.
  destruct (lookup_lt_is_Some_2 l i Hi) as [x Hx], (lookup_lt_is_Some_2 l j Hj) as [y Hy].
  rewrite (list_lookup_total_correct _ _ _ Hx), (list_lookup_total_correct _ _ _ Hy).
  by apply Permutation_insert_swap.
Qed.

(** ** The heap order *)

Definition le (a b : A) : Prop := less b a = false.
Definition parent (k : nat) : nat := ((k - 1) / 2)%nat.

Context (le_trans : ∀ a b c, le a b → le b c → le a c).
Context (less_asym : ∀ a b, less a b = true → less b a = false).

Definition heap (n : nat) (l : list A) : Prop :=
  ∀ k, (0 < k < n)%nat → le (l !!! parent k) (l !!! k).

(** A heap but for the edge above [j], resp. the edges below [i]. *)
Definition up_ok (n j : nat) (l : list A) : Prop :=
  (∀ k, (0 < k < n)%nat → k ≠ j → le (l !!! parent k) (l !!! k)) ∧
  (∀ k, (0 < k < n)%nat → parent k = j → (0 < j)%nat → le (l !!! parent j) (l !!! k)).

Definition down_ok (n i : nat) (l : list A) : Prop :=
  (∀ k, (0 < k < n)%nat → parent k ≠ i → le (l !!! parent k) (l !!! k)) ∧
  (∀ k, (0 < k < n)%nat → parent k = i → (0 < i)%nat → le (l !!! parent i) (l !!! k)).

Lemma parent_lt k : (0 < k)%nat → (parent k < k)%nat.
Proof. intros. unfold parent. apply Nat.Div0.div_lt_upper_bound. lia. Qed.

Lemma parent_children i k :
  (0 < k)%nat → parent k = i ↔ k = (2 * i + 1)%nat ∨ k = (2 * i + 2)%nat.
Proof.
  intros. unfold parent. pose proof (Nat.div_mod_eq (k - 1) 2).
  pose proof (Nat.mod_upper_bound (k - 1) 2). lia.
Qed.

Ltac at_swap := repeat (case_decide; subst; try lia).

Lemma up_step n j l :
  (n <= length l)%nat → (0 < j < n)%nat → up_ok n j l →
  less (l !!! j) (l !!! parent j) = true → up_ok n (parent j) (swap (parent j) j l).
Proof.
  intros Hn Hj [U1 U2] Hless. pose proof (parent_lt j) as Hp.
  assert (le (l !!! j) (l !!! parent j)) as Hji by (by apply less_asym).
  split.
  - intros k Hk Hne. pose proof (parent_lt k) as Hpk. rewrite !lookup_swap by lia.
    rewrite (decide_False (P := k = parent j)) by done.
    destruct (decide (k = j)) as [->|Hkj]; [by rewrite decide_True|].
    destruct (decide (parent k = parent j)) as [E|E].
    { eapply le_trans; [exact Hji|]. rewrite <- E. apply U1; lia. }
    destruct (decide (parent k = j)) as [E2|E2]; [apply U2; lia|apply U1; lia].
  - intros k Hk Hpk Hpos. pose proof (parent_lt (parent j)). rewrite !lookup_swap by lia.
    rewrite (decide_False (P := parent (parent j) = parent j)) by lia.
    rewrite (decide_False (P := parent (parent j) = j)) by lia.
    pose proof (parent_lt k). rewrite (decide_False (P := k = parent j)) by lia.
    assert (le (l !!! parent (parent j)) (l !!! parent j)) as Hpp by (apply U1; lia).
    destruct (decide (k = j)) as [->|Hkj]; [done|].
    eapply le_trans; [exact Hpp|]. rewrite <- Hpk. apply U1; lia.
Qed.

Lemma up_heap fuel : ∀ j n l,
  (n <= length l)%nat → (j < n)%nat → (j < fuel)%nat → up_ok n j l →
  heap n (up fuel j l) ∧ up fuel j l ≡ₚ l.
Proof.
  induction fuel as [|fuel IH]; intros j n l Hn Hj Hf U; [lia|]. cbn [up]. fold (parent j). cbv zeta.
  destruct (decide (parent j = j)) as [E|E].
  { rewrite bool_decide_eq_true_2 by done. split; [|done]. intros k Hk. apply U; [done|].
    intros ->. pose proof (parent_lt j). lia. }
  rewrite bool_decide_eq_false_2 by done. cbn [orb].
  assert (0 < j)%nat by (destruct j; [by destruct E|lia]). pose proof (parent_lt j).
  destruct (less (l !!! j) (l !!! parent j)) eqn:Hless; cbn [negb].
  - destruct (IH (parent j) n (swap (parent j) j l)) as [Hh Hp];
      [by rewrite length_swap|lia|lia|by apply up_step|].
    split; [done|]. rewrite Hp. apply swap_perm; lia.
  - split; [|done]. intros k Hk. destruct (decide (k = j)) as [->|]; [exact Hless|by apply U].
Qed.

Lemma down_step n i j l :
  (n <= length l)%nat → (0 < j < n)%nat → parent j = i → down_ok n i l →
  (∀ k, (0 < k < n)%nat → parent k = i → le (l !!! j) (l !!! k)) →
  less (l !!! j) (l !!! i) = true → down_ok n j (swap i j l).
Proof.
  intros Hn Hj Hp [D1 D2] Hmin Hless. pose proof (parent_lt j) as Hpj.
  assert (le (l !!! j) (l !!! i)) as Hji by (by apply less_asym).
  split.
  - intros k Hk Hne. pose proof (parent_lt k) as Hpk. rewrite !lookup_swap by lia.
    rewrite (decide_False (P := parent k = j)) by done.
    destruct (decide (parent k = i)) as [E|E].
    { rewrite (decide_False (P := k = i)) by lia.
      destruct (decide (k = j)) as [->|]; [done|]. by apply Hmin. }
    destruct (decide (k = i)) as [->|Hki]; [apply D2; lia|].
    rewrite decide_False by (intros ->; done). by apply D1.
  - intros k Hk Hpk Hpos. pose proof (parent_lt k). rewrite !lookup_swap by lia.
    rewrite (decide_True (P := parent j = i)) by done.
    rewrite (decide_False (P := k = i)) by lia. rewrite (decide_False (P := k = j)) by lia.
    rewrite <- Hpk. apply D1; lia.
Qed.

Lemma down_heap fuel : ∀ i n l,
  (n <= length l)%nat → (n <= i + fuel)%nat → down_ok n i l →
  heap n (down fuel i n l) ∧ down fuel i n l ≡ₚ l ∧
  ∀ k, (n <= k)%nat → down fuel i n l !!! k = l !!! k.
Proof.
  induction fuel as [|fuel IH]; intros i n l Hn Hf [D1 D2].
  { split_and!; [|done|done]. intros k Hk. apply D1; [done|]. pose proof (parent_lt k). simpl. lia. }
  cbn [down]. destruct (Nat.leb_spec n (2 * i + 1)) as [Hle|Hlt].
  { split_and!; [|done|done]. intros k Hk. apply D1; [done|]. rewrite parent_children by lia. lia. }
  set (j := if ((2 * i + 1 + 1 <? n)%nat && less (l !!! (2 * i + 1 + 1)%nat) (l !!! (2 * i + 1)%nat))
            then (2 * i + 1 + 1)%nat else (2 * i + 1)%nat).
  assert ((0 < j < n)%nat ∧ parent j = i ∧
    ∀ k, (0 < k < n)%nat → parent k = i → le (l !!! j) (l !!! k)) as (Hj & Hpj & Hmin).
  { assert (le_refl : ∀ a, le a a).
    { intros a. unfold le. destruct (less a a) eqn:E; [|done]. by rewrite (less_asym _ _ E) in E. }
    unfold j. destruct (Nat.ltb_spec (2 * i + 1 + 1) n); cbn [andb];
      [destruct (less (l !!! (2 * i + 1 + 1)%nat) (l !!! (2 * i + 1)%nat)) eqn:E|];
      (split_and!; [lia|lia|apply parent_children; lia|]);
      intros k Hk [->| ->]%parent_children; try lia; try apply le_refl;
      replace (2 * i + 2)%nat with (2 * i + 1 + 1)%nat in * by lia; try apply le_refl; try lia.
    - by apply less_asym.
    - exact E. }
  clearbody j. destruct (less (l !!! j) (l !!! i)) eqn:Hless; cbn [negb].
  - pose proof (parent_lt j). destruct (IH j n (swap i j l)) as (Hh & Hp & Ht);
      [by rewrite length_swap|lia|by apply down_step|].
    split_and!; [done| |].
    + rewrite Hp. apply swap_perm; lia.
    + intros k Hk. rewrite Ht, lookup_swap by lia. by rewrite !decide_False by lia.
  - split_and!; [|done|done]. intros k Hk. destruct (decide (parent k = i)) as [E|E]; [|by apply D1].
    rewrite E. eapply le_trans; [exact Hless|by apply Hmin].
Qed.

(** ** Push and pop *)

Lemma heap_push_spec x l :
  heap (length l) l →
  heap_push x l ≡ₚ x :: l ∧ heap (length (heap_push x l)) (heap_push x l).
Proof.
  intros Hh. unfold heap_push.
  destruct (up_heap (S (length l)) (length l) (S (length l)) (l ++ [x])) as [Hu Hp].
  - rewrite length_app. simpl. lia.
  - lia.
  - lia.
  - split; intros k Hk.
    + intros Hne. pose proof (parent_lt k). rewrite !lookup_total_app_l by lia. apply Hh. lia.
    + intros Hpk. pose proof (parent_lt k). lia.
  - split; [by rewrite Hp, Permutation_app_comm|].
    by rewrite (Permutation_length Hp), length_app, Nat.add_1_r.
Qed.

(** The root of a heap is least. *)
Lemma heap_root n l k : heap n l → (k < n)%nat → le (l !!! 0%nat) (l !!! k).
Proof.
  intros Hh. induction k as [k IH] using lt_wf_ind. intros Hk.
  destruct (decide (k = 0%nat)) as [->|Hne].
  - unfold le. destruct (less _ _) eqn:E; [|done]. by rewrite (less_asym _ _ E) in E.
  - pose proof (parent_lt k). eapply le_trans; [apply (IH (parent k)); lia|apply Hh; lia].
Qed.

Lemma heap_pop_spec l x l' :
  heap (length l) l → heap_pop l = Some (x, l') →
  l ≡ₚ x :: l' ∧ heap (length l') l' ∧ ∀ y, y ∈ l → le x y.
Proof.
  intros Hh. unfold heap_pop. destruct l as [|z l0] eqn:El; [done|]. rewrite <- El in *.
  assert (0 < length l)%nat as Hl by (subst; simpl; lia). clear El z l0.
  set (n := (length l - 1)%nat). intros [= <- <-].
  destruct (down_heap (length l) 0 n (swap 0 n l)) as (Hd & Hp & Ht).
  - rewrite length_swap. lia.
  - lia.
  - split; intros k Hk; [|lia]. intros Hpk. pose proof (parent_lt k).
    rewrite !lookup_swap by lia. rewrite !decide_False by lia. apply Hh. lia.
  - set (d := down (length l) 0 n (swap 0 n l)) in *.
    assert (length d = S n) as Hlen by (rewrite (Permutation_length Hp), length_swap; lia).
    assert (d !!! n = l !!! 0%nat) as Ex.
    { rewrite Ht, lookup_swap by lia. destruct (decide (n = 0%nat)) as [->|]; [done|by rewrite decide_True]. }
    split_and!.
    + rewrite <- (swap_perm 0 n l), <- Hp by lia.
      rewrite <- (take_drop n d) at 1.
      assert (drop n d = [d !!! n]) as ->.
      { apply (list_eq). intros [|i]; rewrite lookup_drop; simpl.
        - rewrite Nat.add_0_r. by apply list_lookup_lookup_total_lt; lia.
        - apply lookup_ge_None_2. lia. }
      by rewrite Permutation_app_comm.
    + rewrite length_take, Nat.min_l by lia. intros k Hk. pose proof (parent_lt k).
      rewrite !lookup_total_take_lt by lia. by apply Hd.
    + intros y [i Hi]%list_elem_of_lookup. rewrite Ex.
      rewrite <- (list_lookup_total_correct _ _ _ Hi). apply (heap_root (length l)); [done|].
      by eapply lookup_lt_Some.
Qed.

End heap.
