(* ===== verification/Scheduler.v ===== *)
(** * Block-STM's scheduler
    ([executor/realism/execution/blockstm/scheduler.go])

    The ordered set of execution and validation tasks the workers draw from, in
    its two forms (a scanned slice, a binary heap), and the registry of tasks
    that wait for another transaction's version. *)
From S2P Require Import Prelude GoStd MvMemory Heap.
Local Open Scope N_scope.

Inductive TransactionStatus :=
  | StatusPending | StatusExecuting | StatusValidating | StatusWaiting | StatusCommitted
  | StatusAborted.
Inductive SchedulerTaskKind := TaskExecute | TaskValidate.

#[global] Instance TransactionStatus_eq_dec : EqDecision TransactionStatus.
Proof. solve_decision. Defined.
#[global] Instance SchedulerTaskKind_eq_dec : EqDecision SchedulerTaskKind.
Proof. solve_decision. Defined.

Record SchedulerTask := MkTask {
  tk_Kind : SchedulerTaskKind;
  tk_Version : Version;
  tk_Generation : N;
}.
#[global] Instance SchedulerTask_eq_dec : EqDecision SchedulerTask.
Proof. solve_decision. Defined.

#[global] Instance SchedulerTask_countable : Countable SchedulerTask.
Proof.
  refine (inj_countable'
    (λ t, (bool_decide (tk_Kind t = TaskExecute), v_Txn (tk_Version t),
           v_Incarnation (tk_Version t), tk_Generation t))
    (λ '(b, x, i, g), MkTask (if b : bool then TaskExecute else TaskValidate) (MkVersion x i) g) _).
  by intros [[] [x i] g].
Defined.
#[global] Instance SchedulerTask_inhabited : Inhabited SchedulerTask :=
  populate (MkTask TaskExecute (MkVersion 0 0) 0).

(** A missing status is Go's empty string; a missing incarnation is 0. *)
Record Scheduler := MkScheduler {
  sc_statuses : gmap N TransactionStatus;
  sc_incarnation : gmap N N;
  sc_queue : list SchedulerTask;
  sc_priorityTasks : list SchedulerTask;
  sc_priorityQueue : bool;
  sc_queued : gset SchedulerTask;
  sc_aborts : Z;
}.
#[global] Instance Scheduler_eta : Eta Scheduler := λ s,
  MkScheduler (sc_statuses s) (sc_incarnation s) (sc_queue s) (sc_priorityTasks s)
    (sc_priorityQueue s) (sc_queued s) (sc_aborts s).

Definition set_statuses (v : gmap N TransactionStatus) (s : Scheduler) : Scheduler :=
  ltac:(set_field sc_statuses v s).
Definition set_incarnation (v : gmap N N) (s : Scheduler) : Scheduler :=
  ltac:(set_field sc_incarnation v s).
Definition set_queue (v : list SchedulerTask) (s : Scheduler) : Scheduler :=
  ltac:(set_field sc_queue v s).
Definition set_priorityTasks (v : list SchedulerTask) (s : Scheduler) : Scheduler :=
  ltac:(set_field sc_priorityTasks v s).
Definition set_queued (v : gset SchedulerTask) (s : Scheduler) : Scheduler :=
  ltac:(set_field sc_queued v s).
Definition set_aborts (v : Z) (s : Scheduler) : Scheduler :=
  ltac:(set_field sc_aborts v s).

Definition set_status (txn : N) (st : TransactionStatus) (s : Scheduler) : Scheduler :=
  set_statuses (<[txn := st]> (sc_statuses s)) s.
Definition incarnation_of (s : Scheduler) (txn : N) : N := default 0 (sc_incarnation s !! txn).

Definition schedulerTaskLess (left right : SchedulerTask) : bool :=
  let l := tk_Version left in
  let r := tk_Version right in
  if v_Txn l ≠? v_Txn r then v_Txn l <? v_Txn r
  else if v_Incarnation l ≠? v_Incarnation r then v_Incarnation r <? v_Incarnation l
  else if tk_Kind left ≠? tk_Kind right then tk_Kind left ≟ TaskExecute
  else tk_Generation right <? tk_Generation left.

Definition enqueueLocked (task : SchedulerTask) (s : Scheduler) : Scheduler :=
  if bool_decide (task ∈ sc_queued s) then s
  else
  let s := set_queued ({[task]} ∪ sc_queued s) s in
  if sc_priorityQueue s
  then set_priorityTasks (heap_push schedulerTaskLess task (sc_priorityTasks s)) s
  else set_queue (sc_queue s ++ [task]) s.

(** ** Construction *)

(** [TxnIndex(index)] keeps 32 bits. *)
Definition defaultTxnOrder (txCount : nat) : list N :=
  (λ i, N.of_nat i mod 2 ^ 32) <$> seq 0 txCount.

(** One turn of the first loop of the constructor: the state and [seen]. *)
Definition schedule_fresh (kind : SchedulerTaskKind) (status : TransactionStatus) (txCount : nat)
    (acc : Scheduler * gset N) (txn : N) : Scheduler * gset N :=
  let '(s, seen) := acc in
  if (N.of_nat txCount <=? txn) || bool_decide (txn ∈ seen) then acc
  else (enqueueLocked (MkTask kind (MkVersion txn 0) 0) (set_status txn status s), {[txn]} ∪ seen).

(** The second loop does not record what it has seen. *)
Definition schedule_missing (kind : SchedulerTaskKind) (status : TransactionStatus)
    (seen : gset N) (s : Scheduler) (txn : N) : Scheduler :=
  if bool_decide (txn ∈ seen) then s
  else enqueueLocked (MkTask kind (MkVersion txn 0) 0) (set_status txn status s).

Definition schedule_all (kind : SchedulerTaskKind) (status : TransactionStatus) (txCount : nat)
    (order : list N) (s : Scheduler) : Scheduler :=
  let '(s, seen) := foldl (schedule_fresh kind status txCount) (s, ∅) order in
  foldl (schedule_missing kind status seen) s (defaultTxnOrder txCount).

Definition newSchedulerWithOrder (txCount : nat) (order : list N) (priority : bool) : Scheduler :=
  schedule_all TaskExecute StatusPending txCount order (MkScheduler ∅ ∅ [] [] priority ∅ 0).

Definition NewValidationSchedulerWithOrder (txCount : nat) (order : list N) : Scheduler :=
  schedule_all TaskValidate StatusValidating txCount order (MkScheduler ∅ ∅ [] [] false ∅ 0).

(** ** Drawing a task *)

(** The scan for the position of the best task. *)
Fixpoint best_index (best : nat) (q : list SchedulerTask) (fuel index : nat) : nat :=
  match fuel with
  | O => best
  | S fuel' =>
      best_index (if schedulerTaskLess (q !!! index) (q !!! best) then index else best)
        q fuel' (S index)
  end.

(** The next task in order and the scheduler without it. *)
Definition take_task (s : Scheduler) : option (SchedulerTask * Scheduler) :=
  if sc_priorityQueue s then
    '(task, rest) ← heap_pop schedulerTaskLess (sc_priorityTasks s);
    Some (task, set_priorityTasks rest s)
  else
  match sc_queue s with
  | [] => None
  | q => let best := best_index 0 q (length q - 1) 1 in
         Some (q !!! best, set_queue (take best q ++ drop (S best) q) s)
  end.

(** A task is handed out only for the current incarnation of a transaction that
    is not waiting. *)
Definition live (s : Scheduler) (task : SchedulerTask) : bool :=
  (v_Incarnation (tk_Version task) ≟ incarnation_of s (v_Txn (tk_Version task))) &&
  bool_decide (sc_statuses s !! v_Txn (tk_Version task) ≠ Some StatusWaiting).

Fixpoint next_loop (fuel : nat) (s : Scheduler) : Scheduler * option SchedulerTask :=
  match fuel with
  | O => (s, None)
  | S fuel' =>
      match take_task s with
      | None => (s, None)
      | Some (task, s) =>
          let s := set_queued (sc_queued s ∖ {[task]}) s in
          if negb (live s task) then next_loop fuel' s
          else
          let status := match tk_Kind task with
                        | TaskExecute => StatusExecuting
                        | TaskValidate => StatusValidating
                        end in
          (set_status (v_Txn (tk_Version task)) status s, Some task)
      end
  end.

Definition tasks (s : Scheduler) : list SchedulerTask :=
  if sc_priorityQueue s then sc_priorityTasks s else sc_queue s.

Definition QueueLen (s : Scheduler) : nat := length (tasks s).

(** The loop drops a task per turn, so the queue length bounds it. *)
Definition Next (s : Scheduler) : Scheduler * option SchedulerTask := next_loop (S (QueueLen s)) s.

(** ** Scheduling, commits and aborts *)

Definition ScheduleValidationGeneration (version : Version) (generation : N) (s : Scheduler)
    : Scheduler :=
  if v_Incarnation version ≠? incarnation_of s (v_Txn version) then s
  else set_status (v_Txn version) StatusValidating
         (enqueueLocked (MkTask TaskValidate version generation) s).

Definition ScheduleValidation (version : Version) (s : Scheduler) : Scheduler :=
  ScheduleValidationGeneration version 0 s.

Definition ScheduleExecution (version : Version) (s : Scheduler) : Scheduler :=
  if v_Incarnation version ≠? incarnation_of s (v_Txn version) then s
  else set_status (v_Txn version) StatusPending (enqueueLocked (MkTask TaskExecute version 0) s).

Definition SchedulerCommit (version : Version) (s : Scheduler) : Scheduler :=
  if v_Incarnation version ≟ incarnation_of s (v_Txn version)
  then set_status (v_Txn version) StatusCommitted s else s.

(** Incarnations have 32 bits. *)
Definition abortLocked (version : Version) (wait : bool) (s : Scheduler) : Scheduler * Version :=
  let current := incarnation_of s (v_Txn version) in
  if v_Incarnation version ≠? current then (s, MkVersion (v_Txn version) current)
  else
  let next := MkVersion (v_Txn version) ((current + 1) mod 2 ^ 32) in
  let s := set_incarnation (<[v_Txn version := v_Incarnation next]> (sc_incarnation s)) s in
  let s := set_aborts (i64_add (sc_aborts s) 1) s in
  if wait then (set_status (v_Txn version) StatusWaiting s, next)
  else (enqueueLocked (MkTask TaskExecute next 0) (set_status (v_Txn version) StatusAborted s), next).

Definition Abort (version : Version) (s : Scheduler) : Scheduler * Version :=
  abortLocked version false s.
Definition AbortAndWait (version : Version) (s : Scheduler) : Scheduler * Version :=
  abortLocked version true s.

Definition Wait (version : Version) (s : Scheduler) : Scheduler :=
  if v_Incarnation version ≟ incarnation_of s (v_Txn version)
  then set_status (v_Txn version) StatusWaiting s else s.

Definition ResumeTask (task : SchedulerTask) (s : Scheduler) : Scheduler :=
  let version := tk_Version task in
  if v_Incarnation version ≠? incarnation_of s (v_Txn version) then s
  else if bool_decide (sc_statuses s !! v_Txn version ≠ Some StatusWaiting) then s
  else set_status (v_Txn version)
         (match tk_Kind task with TaskValidate => StatusValidating | TaskExecute => StatusPending end)
         (enqueueLocked task s).

Definition Resume (version : Version) (s : Scheduler) : Scheduler :=
  ResumeTask (MkTask TaskExecute version 0) s.

(** ** The dependency registry *)

#[global] Instance Version_countable : Countable Version.
Proof.
  refine (inj_countable' (λ v, (v_Txn v, v_Incarnation v)) (λ '(x, i), MkVersion x i) _).
  by intros [x i].
Defined.

Record DependencyRegistry := MkRegistry {
  dr_waiters : gmap Version (list SchedulerTask);
  dr_seen : gmap Version (gset SchedulerTask);
}.

Definition NewDependencyRegistry : DependencyRegistry := MkRegistry ∅ ∅.

Definition RegisterTask (waiter : SchedulerTask) (dependency : Version) (r : DependencyRegistry)
    : DependencyRegistry :=
  let seen := default ∅ (dr_seen r !! dependency) in
  if bool_decide (waiter ∈ seen) then MkRegistry (dr_waiters r) (<[dependency := seen]> (dr_seen r))
  else MkRegistry
         (<[dependency := default [] (dr_waiters r !! dependency) ++ [waiter]]> (dr_waiters r))
         (<[dependency := {[waiter]} ∪ seen]> (dr_seen r)).

Definition Register (waiter dependency : Version) (r : DependencyRegistry) : DependencyRegistry :=
  RegisterTask (MkTask TaskExecute waiter 0) dependency r.

Definition ResolveTasks (dependency : Version) (r : DependencyRegistry)
    : DependencyRegistry * list SchedulerTask :=
  (MkRegistry (delete dependency (dr_waiters r)) (delete dependency (dr_seen r)),
   default [] (dr_waiters r !! dependency)).

Definition Resolve (dependency : Version) (r : DependencyRegistry)
    : DependencyRegistry * list Version :=
  let '(r, ts) := ResolveTasks dependency r in (r, tk_Version <$> ts).

(** ** The order of tasks *)

Definition kind_rank (k : SchedulerTaskKind) : N :=
  match k with TaskExecute => 0 | TaskValidate => 1 end.

Lemma taskLess_spec l r :
  schedulerTaskLess l r = true ↔
  let a := tk_Version l in let b := tk_Version r in
  v_Txn a < v_Txn b ∨ (v_Txn a = v_Txn b ∧ (v_Incarnation b < v_Incarnation a ∨
    (v_Incarnation a = v_Incarnation b ∧ (kind_rank (tk_Kind l) < kind_rank (tk_Kind r) ∨
      (tk_Kind l = tk_Kind r ∧ tk_Generation r < tk_Generation l))))).
Proof.
  unfold schedulerTaskLess. cbv zeta.
  destruct l as [kl [xl il] gl], r as [kr [xr ir] gr]. cbn.
  destruct (decide (xl = xr)) as [->|];
    [rewrite (bool_decide_eq_true_2 (xr = xr)) by done
    |rewrite (bool_decide_eq_false_2 (xl = xr)) by done]; cbn; [|rewrite N.ltb_lt; lia].
  destruct (decide (il = ir)) as [->|];
    [rewrite (bool_decide_eq_true_2 (ir = ir)) by done
    |rewrite (bool_decide_eq_false_2 (il = ir)) by done]; cbn; [|rewrite N.ltb_lt; lia].
  destruct kl, kr; rewrite ?(bool_decide_eq_true_2 (_ = _)) by done;
    rewrite ?(bool_decide_eq_false_2 (_ = _)) by done; cbn; rewrite ?N.ltb_lt;
    intuition (try lia; try discriminate).
Qed.

Lemma taskLess_asym l r : schedulerTaskLess l r = true → schedulerTaskLess r l = false.
Proof.
  intros H. apply not_true_is_false. intros H'. apply taskLess_spec in H, H'. cbv zeta in *.
  destruct (tk_Kind l), (tk_Kind r); simpl in *; intuition (lia || discriminate).
Qed.

Lemma taskLess_trans l m r :
  schedulerTaskLess l m = true → schedulerTaskLess m r = true → schedulerTaskLess l r = true.
Proof.
  rewrite !taskLess_spec. cbv zeta.
  destruct (tk_Kind l), (tk_Kind m), (tk_Kind r); simpl; intuition (lia || discriminate).
Qed.

Lemma taskLess_total l r : l ≠ r → schedulerTaskLess l r = true ∨ schedulerTaskLess r l = true.
Proof.
  rewrite !taskLess_spec. cbv zeta.
  destruct l as [kl [xl il] gl], r as [kr [xr ir] gr]. cbn. intros Hne.
  destruct (N.lt_trichotomy xl xr) as [|[->|]]; [lia| |lia].
  destruct (N.lt_trichotomy il ir) as [|[->|]]; [lia| |lia].
  destruct (N.lt_trichotomy gl gr) as [|[->|]], kl, kr; cbn; try done; intuition lia.
Qed.

Lemma task_le l r : schedulerTaskLess r l = false ↔ l = r ∨ schedulerTaskLess l r = true.
Proof.
  split.
  - intros H. destruct (decide (l = r)) as [|Hne]; [by left|right].
    destruct (taskLess_total l r Hne); [done|congruence].
  - intros [->|H]; [|by apply taskLess_asym].
    destruct (schedulerTaskLess r r) eqn:E; [|done]. by rewrite (taskLess_asym _ _ E) in E.
Qed.

Lemma task_le_trans a b c :
  Heap.le schedulerTaskLess a b → Heap.le schedulerTaskLess b c → Heap.le schedulerTaskLess a c.
Proof.
  unfold Heap.le. rewrite !task_le. intros [->|H1] [->|H2]; eauto using taskLess_trans.
Qed.

(** ** The invariant *)

Record sc_ok (s : Scheduler) : Prop := {
  so_nodup : NoDup (tasks s);
  so_queued : ∀ t, t ∈ sc_queued s ↔ t ∈ tasks s;
  so_heap : heap schedulerTaskLess (length (sc_priorityTasks s)) (sc_priorityTasks s);
}.

(** What the operations other than the queue handling see. *)
Definition view (s : Scheduler) := (sc_statuses s, sc_incarnation s, sc_queued s, sc_aborts s).

Lemma tasks_set_status txn st s : tasks (set_status txn st s) = tasks s.
Proof. done. Qed.

Lemma enqueue_spec task s :
  sc_ok s →
  sc_ok (enqueueLocked task s) ∧ sc_priorityQueue (enqueueLocked task s) = sc_priorityQueue s ∧
  view (enqueueLocked task s) =
    (sc_statuses s, sc_incarnation s, {[task]} ∪ sc_queued s, sc_aborts s) ∧
  (∀ t, t ∈ tasks (enqueueLocked task s) ↔ t = task ∨ t ∈ tasks s).
Proof.
  intros [H1 H2 H3]. unfold enqueueLocked. case_bool_decide as E.
  { apply H2 in E as E'. split_and!; [done|done| |set_solver].
    unfold view. by replace ({[task]} ∪ sc_queued s) with (sc_queued s) by set_solver. }
  rewrite H2 in E. cbn [sc_priorityQueue set_queued].
  destruct (sc_priorityQueue s) eqn:Ep.
  - destruct (heap_push_spec schedulerTaskLess task_le_trans taskLess_asym task _ H3) as [Hp Hh].
    assert (tasks s = sc_priorityTasks s) as Et by (unfold tasks; by rewrite Ep).
    rewrite Et in *. cbn [sc_priorityTasks set_queued].
    set (l := heap_push _ _ _) in *. clearbody l.
    assert (tasks (set_priorityTasks l (set_queued ({[task]} ∪ sc_queued s) s)) = l) as El
      by (unfold tasks; cbn; by rewrite Ep).
    split_and!; [split|done|done|]; rewrite ?El.
    + rewrite Hp. by constructor.
    + intros t. cbn. rewrite Hp, elem_of_cons. set_solver.
    + exact Hh.
    + intros t. rewrite Hp, elem_of_cons. done.
  - assert (tasks s = sc_queue s) as Et by (unfold tasks; by rewrite Ep). rewrite Et in *.
    cbn [sc_queue set_queued].
    assert (tasks (set_queue (sc_queue s ++ [task]) (set_queued ({[task]} ∪ sc_queued s) s))
      = sc_queue s ++ [task]) as El by (unfold tasks; cbn; by rewrite Ep).
    split_and!; [split|done|done|]; rewrite ?El.
    + rewrite Permutation_app_comm. by constructor.
    + intros t. cbn. rewrite elem_of_app. set_solver.
    + exact H3.
    + intros t. rewrite elem_of_app, list_elem_of_singleton. tauto.
Qed.

(** ** Drawing *)

Lemma best_index_spec q : ∀ fuel best index,
  (index + fuel = length q)%nat → (best < index)%nat →
  (∀ i, (i < index)%nat → Heap.le schedulerTaskLess (q !!! best) (q !!! i)) →
  (best_index best q fuel index < length q)%nat ∧
  ∀ i, (i < length q)%nat → Heap.le schedulerTaskLess (q !!! best_index best q fuel index) (q !!! i).
Proof.
  induction fuel as [|fuel IH]; intros best index Hl Hb Hmin; cbn [best_index].
  { split; [lia|]. intros i Hi. apply Hmin. lia. }
  apply IH; [lia|case_match; lia|]. intros i Hi.
  destruct (schedulerTaskLess (q !!! index) (q !!! best)) eqn:E.
  - assert (Heap.le schedulerTaskLess (q !!! index) (q !!! best)) as H by by apply taskLess_asym.
    destruct (decide (i = index)) as [->|]; [by apply task_le; left|].
    eapply task_le_trans; [exact H|apply Hmin; lia].
  - destruct (decide (i = index)) as [->|]; [exact E|apply Hmin; lia].
Qed.

Lemma take_task_spec s :
  sc_ok s →
  match take_task s with
  | None => tasks s = []
  | Some (t, s') =>
      tasks s ≡ₚ t :: tasks s' ∧ sc_priorityQueue s' = sc_priorityQueue s ∧ view s' = view s ∧
      heap schedulerTaskLess (length (sc_priorityTasks s')) (sc_priorityTasks s') ∧
      ∀ y, y ∈ tasks s → y = t ∨ schedulerTaskLess t y = true
  end.
Proof.
  intros [H1 H2 H3]. unfold take_task. destruct (sc_priorityQueue s) eqn:Ep.
  - assert (tasks s = sc_priorityTasks s) as Et by (unfold tasks; by rewrite Ep). rewrite Et in *.
    destruct (heap_pop schedulerTaskLess (sc_priorityTasks s)) as [[t rest]|] eqn:E; cbn.
    + destruct (heap_pop_spec schedulerTaskLess task_le_trans taskLess_asym _ _ _ H3 E)
        as (Hp & Hh & Hmin).
      assert (tasks (set_priorityTasks rest s) = rest) as -> by (unfold tasks; cbn; by rewrite Ep).
      split_and!; [done|done|done|done|]. intros y Hy.
      destruct (proj1 (task_le t y) (Hmin y Hy)) as [->|]; auto.
    + unfold heap_pop in E. by destruct (sc_priorityTasks s).
  - assert (tasks s = sc_queue s) as Et by (unfold tasks; by rewrite Ep). rewrite Et in *.
    destruct (sc_queue s) as [|x q0] eqn:Eq; [done|]. rewrite <- Eq in *.
    assert (0 < length (sc_queue s))%nat as Hl by (rewrite Eq; simpl; lia). clear Eq x q0.
    set (q := sc_queue s) in *.
    destruct (best_index_spec q (length q - 1) 0 1) as [Hb Hmin]; [lia|lia| |].
    { intros i Hi. assert (i = 0%nat) as -> by lia. apply task_le. by left. }
    set (b := best_index 0 q (length q - 1) 1) in *.
    assert (tasks (set_queue (take b q ++ drop (S b) q) s) = take b q ++ drop (S b) q) as ->
      by (unfold tasks; cbn; by rewrite Ep).
    split_and!; [|done|done|done|].
    + assert (q !! b = Some (q !!! b)) as Hx by (by apply list_lookup_lookup_total_lt).
      rewrite <- (take_drop_middle q b _ Hx) at 1. by rewrite Permutation_middle.
    + intros y [i Hi]%list_elem_of_lookup. rewrite <- (list_lookup_total_correct _ _ _ Hi).
      destruct (proj1 (task_le (q !!! b) (q !!! i))) as [->|]; auto.
      apply Hmin. by eapply lookup_lt_Some.
Qed.

Lemma sc_ok_take s t s' :
  sc_ok s → take_task s = Some (t, s') →
  sc_ok (set_queued (sc_queued s' ∖ {[t]}) s') ∧ tasks s ≡ₚ t :: tasks s' ∧
  view s' = view s ∧ sc_priorityQueue s' = sc_priorityQueue s ∧
  ∀ y, y ∈ tasks s → y = t ∨ schedulerTaskLess t y = true.
Proof.
  intros H E. pose proof (take_task_spec s H) as T. rewrite E in T.
  destruct T as (Hp & Hq & Hv & Hh & Hmin). split_and!; auto.
  destruct H as [H1 H2 _]. rewrite Hp in H1. apply NoDup_cons in H1 as [Hni H1].
  split; [exact H1| |exact Hh]. intros y. cbn. unfold view in Hv. simplify_eq/=.
  change (tasks (set_queued _ s')) with (tasks s').
  rewrite elem_of_difference, elem_of_singleton.
  assert (sc_queued s' = sc_queued s) as -> by congruence.
  rewrite H2, Hp, elem_of_cons. split; [naive_solver|]. intros Hy. split; [auto|]. by intros ->.
Qed.

(** What [Next] hands out and what it leaves. *)
Record next_facts (s : Scheduler) (task : SchedulerTask) (s' : Scheduler) : Prop := {
  nx_member : task ∈ tasks s;
  nx_live : live s task = true;
  nx_least : ∀ t, t ∈ tasks s → live s t = true → t = task ∨ schedulerTaskLess task t = true;
  nx_rest : ∀ t, t ∈ tasks s' ↔ t ∈ tasks s ∧ schedulerTaskLess task t = true;
  nx_incarnation : sc_incarnation s' = sc_incarnation s;
  nx_statuses : sc_statuses s' = <[v_Txn (tk_Version task) :=
    match tk_Kind task with TaskExecute => StatusExecuting | TaskValidate => StatusValidating end]>
    (sc_statuses s);
  nx_aborts : sc_aborts s' = sc_aborts s;
}.

Definition same_live (s s' : Scheduler) : Prop :=
  sc_statuses s' = sc_statuses s ∧ sc_incarnation s' = sc_incarnation s ∧
  sc_aborts s' = sc_aborts s.

Lemma live_ext s s' t : same_live s s' → live s' t = live s t.
Proof. intros (E1 & E2 & _). unfold live, incarnation_of. by rewrite E1, E2. Qed.

Lemma next_loop_spec fuel : ∀ s,
  sc_ok s → (length (tasks s) < fuel)%nat →
  match next_loop fuel s with
  | (s', None) => sc_ok s' ∧ tasks s' = [] ∧ same_live s s' ∧ ∀ t, t ∈ tasks s → live s t = false
  | (s', Some t) => sc_ok s' ∧ next_facts s t s'
  end.
Proof.
  induction fuel as [|fuel IH]; intros s H Hf; [lia|]. cbn [next_loop].
  destruct (take_task s) as [[t s1]|] eqn:E.
  2: { pose proof (take_task_spec s H) as T. rewrite E in T. rewrite T.
       split_and!; [done|done|done|by intros ? ?%elem_of_nil]. }
  destruct (sc_ok_take _ _ _ H E) as (H1 & Hp & Hv & _ & Hmin).
  set (s2 := set_queued _ s1) in *.
  assert (tasks s2 = tasks s1) as Et by done.
  assert (same_live s s2) as Hl by (unfold view in Hv; split_and!; cbn; congruence).
  rewrite (live_ext _ _ t Hl). rewrite <- Et in Hp. clearbody s2.
  destruct (live s t) eqn:Elive; cbn [negb].
  - split.
    + destruct H1 as [N1 N2 N3]. by constructor.
    + assert (t ∉ tasks s2) as Hni
        by (pose proof (so_nodup _ H) as N; rewrite Hp in N; by apply NoDup_cons in N as [? _]).
      constructor; auto.
      * rewrite Hp. left.
      * intros y. rewrite tasks_set_status, Hp, elem_of_cons. split.
        -- intros Hy. split; [by right|]. destruct (Hmin y) as [->|]; [rewrite Hp; by right|done|done].
        -- intros [[->|Hy] L]; [|done]. by rewrite (taskLess_asym _ _ L) in L.
      * apply Hl.
      * cbn. by rewrite (proj1 Hl).
      * apply Hl.
  - assert (length (tasks s2) < fuel)%nat as Hf2
      by (rewrite Hp in Hf; simpl in Hf; lia).
    specialize (IH s2 H1 Hf2). destruct (next_loop fuel s2) as [s' [x|]].
    + destruct IH as [Hok F]. split; [done|]. destruct F as [F1 F2 F3 F4 F5 F6 F7].
      assert (x ∈ tasks s) as Hx by (rewrite Hp; by right).
      assert (x ≠ t) as Hxt by (intros ->; rewrite (live_ext _ _ t Hl) in F2; congruence).
      constructor.
      * done.
      * by rewrite <- (live_ext _ _ x Hl).
      * intros y Hy Ly. rewrite Hp, elem_of_cons in Hy. destruct Hy as [->|Hy]; [congruence|].
        apply F3; [done|by rewrite (live_ext _ _ y Hl)].
      * intros y. rewrite F4, Hp, elem_of_cons. split; [naive_solver|]. intros [[->|Hy] L]; [|done].
        destruct (Hmin x Hx) as [|L']; [done|]. by rewrite (taskLess_asym _ _ L) in L'.
      * rewrite F5. apply Hl.
      * rewrite F6. by rewrite (proj1 Hl).
      * rewrite F7. apply Hl.
    + destruct IH as (Hok & He & Hs & Hn). split_and!; auto.
      * destruct Hl as (? & ? & ?), Hs as (? & ? & ?). split_and!; congruence.
      * intros y. rewrite Hp, elem_of_cons. intros [->|Hy]; [done|].
        rewrite <- (live_ext _ _ y Hl). auto.
Qed.

Lemma Next_spec s :
  sc_ok s →
  match Next s with
  | (s', None) => sc_ok s' ∧ tasks s' = [] ∧ same_live s s' ∧ ∀ t, t ∈ tasks s → live s t = false
  | (s', Some t) => sc_ok s' ∧ next_facts s t s'
  end.
Proof. intros H. apply next_loop_spec; [done|]. unfold QueueLen. lia. Qed.

(** ** The two forms of the queue agree *)

(** Two schedulers with the same tasks and the same books. *)
Record agree (s1 s2 : Scheduler) : Prop := {
  ag_ok1 : sc_ok s1;
  ag_ok2 : sc_ok s2;
  ag_tasks : ∀ t, t ∈ tasks s1 ↔ t ∈ tasks s2;
  ag_statuses : sc_statuses s1 = sc_statuses s2;
  ag_incarnation : sc_incarnation s1 = sc_incarnation s2;
  ag_aborts : sc_aborts s1 = sc_aborts s2;
}.

Lemma agree_queued s1 s2 : agree s1 s2 → sc_queued s1 = sc_queued s2.
Proof.
  intros A. apply set_eq. intros t.
  by rewrite (so_queued _ (ag_ok1 _ _ A)), (so_queued _ (ag_ok2 _ _ A)), (ag_tasks _ _ A).
Qed.

Lemma agree_enqueue task s1 s2 :
  agree s1 s2 → agree (enqueueLocked task s1) (enqueueLocked task s2).
Proof.
  intros A. destruct (enqueue_spec task s1 (ag_ok1 _ _ A)) as (O1 & _ & V1 & T1).
  destruct (enqueue_spec task s2 (ag_ok2 _ _ A)) as (O2 & _ & V2 & T2).
  unfold view in *. destruct A as [_ _ At As Ai Aa].
  constructor; try done; try congruence. intros t. rewrite T1, T2, At. done.
Qed.

Lemma agree_same_books (f : Scheduler → Scheduler) s1 s2 :
  (∀ s, tasks (f s) = tasks s ∧ sc_queued (f s) = sc_queued s ∧
        sc_priorityTasks (f s) = sc_priorityTasks s) →
  (∀ s s', sc_statuses s = sc_statuses s' → sc_incarnation s = sc_incarnation s' →
     sc_aborts s = sc_aborts s' →
     sc_statuses (f s) = sc_statuses (f s') ∧ sc_incarnation (f s) = sc_incarnation (f s') ∧
     sc_aborts (f s) = sc_aborts (f s')) →
  agree s1 s2 → agree (f s1) (f s2).
Proof.
  intros Hf Hb [O1 O2 At As Ai Aa].
  destruct (Hf s1) as (T1 & Q1 & P1), (Hf s2) as (T2 & Q2 & P2).
  destruct (Hb s1 s2 As Ai Aa) as (? & ? & ?).
  constructor; try done.
  - destruct O1. split; rewrite ?T1, ?Q1, ?P1; auto.
  - destruct O2. split; rewrite ?T2, ?Q2, ?P2; auto.
  - intros t. by rewrite T1, T2.
Qed.

Lemma agree_set_status txn st s1 s2 :
  agree s1 s2 → agree (set_status txn st s1) (set_status txn st s2).
Proof.
  apply agree_same_books; [done|]. intros s s' E1 E2 E3. cbn. by rewrite E1.
Qed.

Lemma agree_incarnation s1 s2 txn : agree s1 s2 → incarnation_of s1 txn = incarnation_of s2 txn.
Proof. intros A. unfold incarnation_of. by rewrite (ag_incarnation _ _ A). Qed.

(** The books of [abortLocked]: the next incarnation, one more abort. *)
Definition bump (txn i : N) (s : Scheduler) : Scheduler :=
  let s := set_incarnation (<[txn := i]> (sc_incarnation s)) s in
  set_aborts (i64_add (sc_aborts s) 1) s.

Lemma agree_bump txn i s1 s2 : agree s1 s2 → agree (bump txn i s1) (bump txn i s2).
Proof.
  apply agree_same_books; [done|]. intros s s' E1 E2 E3. cbn. by rewrite E2, E3.
Qed.

(** ** Operations as steps *)

Inductive sc_op :=
  | ScNext
  | ScValidate (version : Version) (generation : N)
  | ScExecute (version : Version)
  | ScCommit (version : Version)
  | ScAbort (version : Version)
  | ScAbortWait (version : Version)
  | ScWait (version : Version)
  | ScResume (task : SchedulerTask).

Inductive sc_out := OutTask (task : option SchedulerTask) | OutVersion (v : Version) | OutNone.

Definition sc_step (s : Scheduler) (o : sc_op) : Scheduler * sc_out :=
  match o with
  | ScNext => let '(s, t) := Next s in (s, OutTask t)
  | ScValidate v g => (ScheduleValidationGeneration v g s, OutNone)
  | ScExecute v => (ScheduleExecution v s, OutNone)
  | ScCommit v => (SchedulerCommit v s, OutNone)
  | ScAbort v => let '(s, v) := Abort v s in (s, OutVersion v)
  | ScAbortWait v => let '(s, v) := AbortAndWait v s in (s, OutVersion v)
  | ScWait v => (Wait v s, OutNone)
  | ScResume t => (ResumeTask t s, OutNone)
  end.

Fixpoint sc_run (s : Scheduler) (ops : list sc_op) : Scheduler * list sc_out :=
  match ops with
  | [] => (s, [])
  | o :: ops' => let '(s, r) := sc_step s o in let '(s, rs) := sc_run s ops' in (s, r :: rs)
  end.

Lemma agree_live s1 s2 t : agree s1 s2 → live s2 t = live s1 t.
Proof. intros A. apply live_ext. destruct A. by split_and!. Qed.

Lemma agree_Next s1 s2 :
  agree s1 s2 → agree (Next s1).1 (Next s2).1 ∧ (Next s1).2 = (Next s2).2.
Proof.
  intros A. pose proof (Next_spec s1 (ag_ok1 _ _ A)) as N1.
  pose proof (Next_spec s2 (ag_ok2 _ _ A)) as N2.
  destruct (Next s1) as [s1' [t1|]], (Next s2) as [s2' [t2|]]; cbn [fst snd].
  - destruct N1 as [O1 F1], N2 as [O2 F2].
    assert (t1 = t2) as ->.
    { destruct (nx_least _ _ _ F1 t2) as [|L1]; [apply (ag_tasks _ _ A), F2
        |rewrite <- (agree_live _ _ t2 A); apply F2|done|].
      destruct (nx_least _ _ _ F2 t1) as [|L2]; [apply (ag_tasks _ _ A), F1
        |rewrite (agree_live _ _ t1 A); apply F1|done|].
      by rewrite (taskLess_asym _ _ L1) in L2. }
    split; [|done]. destruct A as [_ _ At As Ai Aa]. constructor; auto.
    + intros t. by rewrite (nx_rest _ _ _ F1), (nx_rest _ _ _ F2), At.
    + by rewrite (nx_statuses _ _ _ F1), (nx_statuses _ _ _ F2), As.
    + by rewrite (nx_incarnation _ _ _ F1), (nx_incarnation _ _ _ F2).
    + by rewrite (nx_aborts _ _ _ F1), (nx_aborts _ _ _ F2).
  - destruct N1 as [_ F1], N2 as (_ & _ & _ & N2).
    assert (live s2 t1 = false) as E by (apply N2, (ag_tasks _ _ A), F1).
    rewrite (agree_live _ _ t1 A), (nx_live _ _ _ F1) in E. done.
  - destruct N2 as [_ F2], N1 as (_ & _ & _ & N1).
    assert (live s1 t2 = false) as E by (apply N1, (ag_tasks _ _ A), F2).
    rewrite <- (agree_live _ _ t2 A), (nx_live _ _ _ F2) in E. done.
  - destruct N1 as (O1 & E1 & (S1 & I1 & B1) & _), N2 as (O2 & E2 & (S2 & I2 & B2) & _).
    split; [|done]. destruct A as [_ _ At As Ai Aa].
    constructor; try done; try congruence. intros t. by rewrite E1, E2.
Qed.

Lemma agree_step o s1 s2 :
  agree s1 s2 → agree (sc_step s1 o).1 (sc_step s2 o).1 ∧ (sc_step s1 o).2 = (sc_step s2 o).2.
Proof.
  intros A. destruct o; cbn [sc_step].
  - destruct (agree_Next s1 s2 A) as [A' E].
    destruct (Next s1) as [s1' t1], (Next s2) as [s2' t2]. cbn in *. by subst.
  - split; [|done]. cbn. unfold ScheduleValidationGeneration.
    rewrite (agree_incarnation _ _ _ A). case_match; [done|].
    by apply agree_set_status, agree_enqueue.
  - split; [|done]. cbn. unfold ScheduleExecution.
    rewrite (agree_incarnation _ _ _ A). case_match; [done|].
    by apply agree_set_status, agree_enqueue.
  - split; [|done]. cbn. unfold SchedulerCommit.
    rewrite (agree_incarnation _ _ _ A). case_match; [|done]. by apply agree_set_status.
  - unfold Abort, abortLocked. rewrite (agree_incarnation _ _ _ A).
    destruct (v_Incarnation version ≠? incarnation_of s2 (v_Txn version)); [done|].
    split; [|done]. apply agree_enqueue, agree_set_status.
    exact (agree_bump (v_Txn version) _ s1 s2 A).
  - unfold AbortAndWait, abortLocked. rewrite (agree_incarnation _ _ _ A).
    destruct (v_Incarnation version ≠? incarnation_of s2 (v_Txn version)); [done|].
    split; [|done]. apply agree_set_status. exact (agree_bump (v_Txn version) _ s1 s2 A).
  - split; [|done]. cbn. unfold Wait.
    rewrite (agree_incarnation _ _ _ A). case_match; [|done]. by apply agree_set_status.
  - split; [|done]. cbn. unfold ResumeTask.
    rewrite (agree_incarnation _ _ _ A), (ag_statuses _ _ A). case_match; [done|].
    case_match; [done|]. by apply agree_set_status, agree_enqueue.
Qed.

Lemma agree_run ops : ∀ s1 s2, agree s1 s2 →
  agree (sc_run s1 ops).1 (sc_run s2 ops).1 ∧ (sc_run s1 ops).2 = (sc_run s2 ops).2.
Proof.
  induction ops as [|o ops IH]; intros s1 s2 A; [done|]. cbn [sc_run].
  destruct (agree_step o s1 s2 A) as [A' E].
  destruct (sc_step s1 o) as [s1' r1], (sc_step s2 o) as [s2' r2]. cbn in A', E. subst r2.
  destruct (IH _ _ A') as [A'' E'].
  destruct (sc_run s1' ops) as [s1'' rs1], (sc_run s2' ops) as [s2'' rs2]. cbn in *. by subst.
Qed.

Lemma sc_ok_empty priority : sc_ok (MkScheduler ∅ ∅ [] [] priority ∅ 0).
Proof.
  assert (tasks (MkScheduler ∅ ∅ [] [] priority ∅ 0) = []) as E by by destruct priority.
  split; rewrite ?E; [constructor|set_solver|]. intros k. simpl. lia.
Qed.

Lemma agree_schedule_all kind st n order s1 s2 :
  agree s1 s2 → agree (schedule_all kind st n order s1) (schedule_all kind st n order s2).
Proof.
  intros A. unfold schedule_all.
  assert (∀ seen, agree (foldl (schedule_fresh kind st n) (s1, seen) order).1
                        (foldl (schedule_fresh kind st n) (s2, seen) order).1 ∧
                  (foldl (schedule_fresh kind st n) (s1, seen) order).2 =
                  (foldl (schedule_fresh kind st n) (s2, seen) order).2) as H.
  { revert s1 s2 A. induction order as [|txn order IH]; intros s1 s2 A seen; [done|].
    cbn [foldl schedule_fresh]. case_match; [by apply IH|].
    by apply IH, agree_enqueue, agree_set_status. }
  destruct (H ∅) as [A' E]. destruct (foldl _ (s1, ∅) order) as [s1' seen1].
  destruct (foldl _ (s2, ∅) order) as [s2' seen2]. cbn in A', E. subst seen2. clear -A'.
  generalize (defaultTxnOrder n). intros l. revert s1' s2' A'.
  induction l as [|txn l IH]; intros s1 s2 A; [done|]. cbn [foldl]. apply IH.
  unfold schedule_missing. case_match; [done|]. by apply agree_enqueue, agree_set_status.
Qed.

(** C28: the heap-backed scheduler is equivalent to the one that scans its queue:
    on every sequence of operations both give the same results, call by call. *)
Theorem priority_scheduler_equivalent (txCount : nat) (order : list N) (ops : list sc_op) :
  (sc_run (newSchedulerWithOrder txCount order true) ops).2 =
  (sc_run (newSchedulerWithOrder txCount order false) ops).2.
Proof.
  apply agree_run, agree_schedule_all.
  constructor; try done; apply sc_ok_empty.
Qed.

(** ** Reachable schedulers *)

Lemma sc_ok_run txCount order priority ops :
  sc_ok (sc_run (newSchedulerWithOrder txCount order priority) ops).1.
Proof.
  apply (ag_ok1 _ (sc_run (newSchedulerWithOrder txCount order priority) ops).1).
  apply agree_run, agree_schedule_all. constructor; try done; apply sc_ok_empty.
Qed.

(** [Next] on any scheduler the operations lead to. It returns the least task
    (lowest transaction first) among those for the current incarnation of a
    transaction that is not waiting, keeps exactly the tasks behind it, and
    returns nothing only when no such task is queued. *)
Theorem Next_least_live (txCount : nat) (order : list N) (priority : bool) (ops : list sc_op) :
  let s := (sc_run (newSchedulerWithOrder txCount order priority) ops).1 in
  match Next s with
  | (s', Some task) =>
      task ∈ tasks s ∧ (task ∉ tasks s') ∧
      v_Incarnation (tk_Version task) = incarnation_of s (v_Txn (tk_Version task)) ∧
      sc_statuses s !! v_Txn (tk_Version task) ≠ Some StatusWaiting ∧
      sc_statuses s' !! v_Txn (tk_Version task) =
        Some (match tk_Kind task with TaskExecute => StatusExecuting
              | TaskValidate => StatusValidating end) ∧
      (∀ t, t ∈ tasks s → live s t = true → t = task ∨ schedulerTaskLess task t = true) ∧
      (∀ t, t ∈ tasks s' ↔ t ∈ tasks s ∧ schedulerTaskLess task t = true)
  | (s', None) => tasks s' = [] ∧ ∀ t, t ∈ tasks s → live s t = false
  end.
Proof.
  intros s. pose proof (Next_spec s (sc_ok_run txCount order priority ops)) as N.
  destruct (Next s) as [s' [task|]]; [|by destruct N as (_ & ? & _ & ?)].
  destruct N as [_ F]. pose proof (nx_live _ _ _ F) as L.
  unfold live in L. apply andb_prop in L as [L1 L2].
  apply bool_decide_eq_true in L1, L2. split_and!; auto; try apply F.
  - rewrite (nx_rest _ _ _ F). intros [_ L]. by rewrite (taskLess_asym _ _ L) in L.
  - rewrite (nx_statuses _ _ _ F). apply lookup_insert_eq.
Qed.

(** The task a fresh scheduler holds for a transaction. *)
Definition first_task (txn : N) : SchedulerTask := MkTask TaskExecute (MkVersion txn 0) 0.

(** The tasks are those of [seen], all below the count. *)
Definition fresh_ok (n : nat) (s : Scheduler) (seen : gset N) : Prop :=
  sc_ok s ∧ (∀ t, t ∈ tasks s ↔ ∃ txn, txn ∈ seen ∧ t = first_task txn) ∧
  (∀ txn, txn ∈ seen → txn < N.of_nat n) ∧
  (∀ txn, sc_statuses s !! txn = if decide (txn ∈ seen) then Some StatusPending else None) ∧
  sc_incarnation s = ∅.

Lemma fresh_ok_add n s seen txn :
  fresh_ok n s seen → txn < N.of_nat n →
  fresh_ok n (enqueueLocked (first_task txn) (set_status txn StatusPending s)) ({[txn]} ∪ seen).
Proof.
  intros (H & Ht & Hn & Hs & Hi) Htxn.
  assert (sc_ok (set_status txn StatusPending s)) as H' by (destruct H; by constructor).
  destruct (enqueue_spec (first_task txn) _ H') as (O & _ & V & T). split_and!.
  - done.
  - intros t. rewrite T, tasks_set_status, Ht. set_solver.
  - intros x. rewrite elem_of_union, elem_of_singleton. intros [->|?]; auto.
  - intros x. apply (f_equal (λ v, v.1.1.1)) in V. cbn in V. rewrite V.
    rewrite lookup_insert, Hs. repeat case_decide; set_solver.
  - apply (f_equal (λ v, v.1.1.2)) in V. cbn in V. by rewrite V.
Qed.

Lemma fresh_ok_first n order : ∀ s seen, fresh_ok n s seen →
  let r := foldl (schedule_fresh TaskExecute StatusPending n) (s, seen) order in
  fresh_ok n r.1 r.2.
Proof.
  induction order as [|txn order IH]; intros s seen F; [done|]. cbn [foldl schedule_fresh].
  destruct (N.leb_spec (N.of_nat n) txn); cbn [orb]; [by apply IH|].
  case_bool_decide; [by apply IH|]. by apply IH, fresh_ok_add.
Qed.

Lemma fresh_ok_second n seen l : ∀ s done,
  fresh_ok n s done → seen ⊆ done → (∀ txn, txn ∈ done → txn ∈ seen ∨ txn ∉ l) → NoDup l →
  (∀ txn, txn ∈ l → txn < N.of_nat n) →
  fresh_ok n (foldl (schedule_missing TaskExecute StatusPending seen) s l) (done ∪ list_to_set l).
Proof.
  induction l as [|txn l IH]; intros s done F Hsub Hd Hnd Hl.
  { simpl. by rewrite (right_id_L ∅ (∪)). }
  apply NoDup_cons in Hnd as [Hni Hnd]. cbn [foldl]. unfold schedule_missing at 2.
  case_bool_decide as E.
  - replace (done ∪ list_to_set (txn :: l)) with (done ∪ list_to_set l) by set_solver.
    apply IH; set_solver.
  - replace (done ∪ list_to_set (txn :: l)) with (({[txn]} ∪ done) ∪ list_to_set l) by set_solver.
    apply IH; [by apply fresh_ok_add; [|apply Hl; left]|set_solver| |done|set_solver].
    intros x. rewrite elem_of_union, elem_of_singleton. intros [->|Hx]; [by right|].
    destruct (Hd x Hx); set_solver.
Qed.

Lemma defaultTxnOrder_spec n txn :
  N.of_nat n <= 2 ^ 32 → txn ∈ defaultTxnOrder n ↔ txn < N.of_nat n.
Proof.
  intros Hn. unfold defaultTxnOrder. rewrite list_elem_of_fmap. split.
  - intros (i & -> & Hi%elem_of_seq). rewrite N.mod_small by lia. lia.
  - intros Ht. exists (N.to_nat txn). rewrite elem_of_seq, N2Nat.id, N.mod_small by lia. lia.
Qed.

Lemma NoDup_defaultTxnOrder n : N.of_nat n <= 2 ^ 32 → NoDup (defaultTxnOrder n).
Proof.
  intros Hn. unfold defaultTxnOrder. apply NoDup_fmap_2_strong; [|apply NoDup_seq].
  intros i j Hi%elem_of_seq Hj%elem_of_seq. rewrite !N.mod_small by lia. lia.
Qed.

Lemma new_scheduler_fresh (txCount : nat) (order : list N) (priority : bool) :
  N.of_nat txCount <= 2 ^ 32 →
  ∃ seen, fresh_ok txCount (newSchedulerWithOrder txCount order priority) seen ∧
    ∀ txn, txn ∈ seen ↔ txn < N.of_nat txCount.
Proof.
  intros Hn. unfold newSchedulerWithOrder, schedule_all.
  set (s0 := MkScheduler ∅ ∅ [] [] priority ∅ 0).
  assert (fresh_ok txCount s0 ∅) as F0.
  { split_and!; [apply sc_ok_empty| |set_solver
      |intros txn; unfold s0; cbn; by rewrite lookup_empty, decide_False by set_solver|done].
    intros t. assert (tasks s0 = []) as -> by by destruct priority. set_solver. }
  pose proof (fresh_ok_first txCount order _ _ F0) as F1. cbv zeta in F1.
  destruct (foldl _ (s0, ∅) order) as [s1 seen]. cbn in F1.
  pose proof (fresh_ok_second txCount seen (defaultTxnOrder txCount) s1 seen F1) as F2.
  exists (seen ∪ list_to_set (defaultTxnOrder txCount)).
  destruct F2 as (O & Ht & Hlt & Hs & Hi); [done|by left|by apply NoDup_defaultTxnOrder
    |intros txn; by apply defaultTxnOrder_spec|].
  split; [by split_and!|]. intros txn. split; [apply Hlt|]. intros H.
  apply elem_of_union_r, elem_of_list_to_set. by apply defaultTxnOrder_spec.
Qed.

(** A new scheduler holds one execution task, of incarnation 0 and status
    pending, for every transaction of the block and nothing else, whatever order
    (even one with repeated or missing indexes) it is given. *)
Theorem new_scheduler_complete (txCount : nat) (order : list N) (priority : bool) :
  N.of_nat txCount <= 2 ^ 32 →
  let s := newSchedulerWithOrder txCount order priority in
  NoDup (tasks s) ∧
  (∀ t, t ∈ tasks s ↔ ∃ txn, txn < N.of_nat txCount ∧ t = first_task txn) ∧
  ∀ txn, sc_statuses s !! txn = if txn <? N.of_nat txCount then Some StatusPending else None.
Proof.
  intros Hn s. destruct (new_scheduler_fresh txCount order priority Hn) as
    (seen & (O & Ht & _ & Hs & _) & Hall). split_and!; [apply O| |].
  - intros t. unfold s. rewrite Ht. by setoid_rewrite Hall.
  - intros txn. unfold s. rewrite Hs. destruct (N.ltb_spec txn (N.of_nat txCount)).
    + by rewrite decide_True by by apply Hall.
    + rewrite decide_False; [done|]. rewrite Hall. lia.
Qed.

Lemma new_scheduler_complete_witness :
  NoDup (tasks (newSchedulerWithOrder 3 [2; 7; 2; 0] true)).
Proof. apply (new_scheduler_complete 3 [2; 7; 2; 0] true). vm_compute. discriminate. Defined.

(** ** The dependency registry *)

Inductive dr_op := DrRegister (waiter : SchedulerTask) (dependency : Version)
                 | DrResolve (dependency : Version).

Definition dr_step (r : DependencyRegistry) (o : dr_op) : DependencyRegistry * list SchedulerTask :=
  match o with
  | DrRegister w d => (RegisterTask w d r, [])
  | DrResolve d => ResolveTasks d r
  end.

(** The specification: a list of distinct waiters per version. *)
Definition dr_spec (f : Version → list SchedulerTask) (o : dr_op)
    : (Version → list SchedulerTask) * list SchedulerTask :=
  match o with
  | DrRegister w d => (λ v, if decide (v = d ∧ w ∉ f d) then f d ++ [w] else f v, [])
  | DrResolve d => (λ v, if decide (v = d) then [] else f v, f d)
  end.

Fixpoint outputs {S O} (step : S → O → S * list SchedulerTask) (s : S) (ops : list O)
    : list (list SchedulerTask) :=
  match ops with
  | [] => []
  | o :: ops' => (step s o).2 :: outputs step (step s o).1 ops'
  end.

Definition dr_rel (r : DependencyRegistry) (f : Version → list SchedulerTask) : Prop :=
  ∀ v, default [] (dr_waiters r !! v) = f v ∧ NoDup (f v) ∧
       ∀ t, t ∈ default ∅ (dr_seen r !! v) ↔ t ∈ f v.

Lemma dr_rel_step r f o :
  dr_rel r f → dr_rel (dr_step r o).1 (dr_spec f o).1 ∧ (dr_step r o).2 = (dr_spec f o).2.
Proof.
  intros R. destruct o as [w d|d]; cbn [dr_step dr_spec fst snd].
  - split; [|done]. destruct (R d) as (W & N & S). unfold RegisterTask.
    case_bool_decide as E; intros v; cbn; rewrite !lookup_insert.
    + rewrite S in E. rewrite decide_False by naive_solver. destruct (R v) as (? & ? & ?).
      case_decide; subst; split_and!; auto.
    + rewrite S in E. rewrite W. destruct (R v) as (? & ? & ?).
      case_decide as E1; subst; [rewrite decide_True by done|rewrite decide_False by naive_solver; auto].
      split_and!; [done| |].
      * apply NoDup_app. split_and!; [done| |apply NoDup_singleton].
        intros x Hx ->%list_elem_of_singleton. done.
      * intros t. simpl. rewrite elem_of_union, elem_of_singleton, elem_of_app,
          list_elem_of_singleton, S. tauto.
  - split; [|by apply R]. intros v. cbn. rewrite !lookup_delete. destruct (R v) as (? & ? & ?).
    repeat (case_decide; try congruence); [|by split_and!].
    split_and!; [done|constructor|set_solver].
Qed.

(** The dependency registry hands every registered waiter to the resolution
    of its dependency exactly once, in the order of registration: over any
    sequence of calls it answers as lists of distinct waiters per version do. *)
Theorem registry_refines (ops : list dr_op) :
  outputs dr_step NewDependencyRegistry ops = outputs dr_spec (λ _, []) ops.
Proof.
  assert (dr_rel NewDependencyRegistry (λ _, [])) as R.
  { intros v. unfold NewDependencyRegistry. cbn. rewrite !lookup_empty.
    split_and!; [done|constructor|set_solver]. }
  revert R. generalize NewDependencyRegistry (λ _ : Version, @nil SchedulerTask).
  induction ops as [|o ops IH]; intros r f R; [done|]. cbn [outputs].
  destruct (dr_rel_step r f o R) as [R' E]. rewrite E. f_equal. by apply IH.
Qed.
