(* ===== verification/Mempool.v ===== *)
(** * Nonces, the mempool and the proposer that drains it
    ([executor/realism/{account/nonce,mempool/*,block/proposer}.go])

    Every operation of the pool runs under its mutex. [verify] is
    [tx.Verify]; times are nanoseconds. *)
From S2P Require Import Prelude GoStd Tx Block.
Local Open Scope N_scope.

(** ** [account.NonceManager] *)

Definition Expected (next : gmap string N) (sender : string) : N := default 0 (next !! sender).

(** [fmt.Errorf("%s: expected %d got %d", reason, expected, nonce)]. *)
Definition nonce_error (reason : string) (expected nonce : N) : string :=
  (reason +:+ ": expected " +:+ format_uint expected +:+ " got " +:+ format_uint nonce)%string.

Definition NonceValidate (next : gmap string N) (sender : string) (nonce : N) : error :=
  let expected := Expected next sender in
  if nonce <? expected then Some (nonce_error "stale_nonce" expected nonce)
  else if expected <? nonce then Some (nonce_error "future_nonce_not_supported" expected nonce)
  else None.

Definition NonceAccept (next : gmap string N) (sender : string) (nonce : N)
    : gmap string N * error :=
  match NonceValidate next sender nonce with
  | Some e => (next, Some e)
  | None => (<[sender := u64_add nonce 1]> next, None)
  end.

(** ** The pool *)

Record entry := MkEntry { en_tx : SignedTransaction; en_admittedAt : Z; en_seq : Z }.

Record Policy := MkPolicy { po_Capacity : Z; po_TTL : Z }.
Definition DefaultPolicy : Policy := MkPolicy 10000 (10 * 60 * 1000000000).

Record Mempool := MkMempool {
  mp_nodeID : string;
  mp_shardID : string;
  mp_policy : Policy;
  mp_nonces : gmap string N;
  mp_byID : gmap string entry;
  mp_order : list string;
  mp_nextSeq : Z;
  mp_reserved : gset string;
}.
#[global] Instance Mempool_eta : Eta Mempool := λ m,
  MkMempool (mp_nodeID m) (mp_shardID m) (mp_policy m) (mp_nonces m) (mp_byID m) (mp_order m)
    (mp_nextSeq m) (mp_reserved m).
Definition set_nonces (v : gmap string N) (m : Mempool) : Mempool :=
  ltac:(set_field mp_nonces v m).
Definition set_byID (v : gmap string entry) (m : Mempool) : Mempool :=
  ltac:(set_field mp_byID v m).
Definition set_order (v : list string) (m : Mempool) : Mempool :=
  ltac:(set_field mp_order v m).
Definition set_nextSeq (v : Z) (m : Mempool) : Mempool :=
  ltac:(set_field mp_nextSeq v m).
Definition set_reserved (v : gset string) (m : Mempool) : Mempool :=
  ltac:(set_field mp_reserved v m).

Record AdmissionResult := MkAdmission {
  ar_Accepted : bool;
  ar_TxID : string;
  ar_Sender : string;
  ar_Receiver : string;
  ar_Nonce : N;
  ar_Action : string;
  ar_RejectReason : string;
  ar_NodeID : string;
  ar_ShardID : string;
  ar_MempoolSize : Z;
  ar_QueueWaitMS : Z;
  ar_Timestamp : Z;
}.

(** [New] with the nonce manager's map (a nil manager starts empty). *)
Definition NewMempool (nodeID shardID : string) (policy : Policy) (nonces : option (gmap string N))
    : Mempool :=
  let cap := if (po_Capacity policy <=? 0)%Z then po_Capacity DefaultPolicy else po_Capacity policy in
  let ttl := if (po_TTL policy <=? 0)%Z then po_TTL DefaultPolicy else po_TTL policy in
  MkMempool nodeID shardID (MkPolicy cap ttl) (default ∅ nonces) ∅ [] 0 ∅.

(** The text before the first colon, or all of it. *)
Definition reasonOf (err : error) : string :=
  match err with
  | None => ""
  | Some text => default text (before_byte ":" text)
  end.

Definition rejected (t : SignedTransaction) (nodeID shardID reason : string) (size now : Z)
    : AdmissionResult :=
  MkAdmission false (TxID t) (Sender t) (Receiver t) (Nonce t) "rejected" reason nodeID shardID
    size 0 now.

Definition hasLocked (m : Mempool) (txID : string) : bool := defined (mp_byID m !! txID).
Definition pool_size (m : Mempool) : Z := Z.of_nat (size (mp_byID m)).

Definition admitAt (verify : SignedTransaction → error) (item : SignedTransaction) (now : Z)
    (enforceNonce : bool) (m : Mempool) : Mempool * AdmissionResult :=
  let nowMS := unix_milli now in
  let refuse m reason :=
    (m, rejected item (mp_nodeID m) (mp_shardID m) reason (pool_size m) nowMS) in
  match verify item with
  | Some e => refuse m (reasonOf (Some e))
  | None =>
      if hasLocked m (TxID item) then refuse m "duplicate_tx"
      else if (po_Capacity (mp_policy m) <=? pool_size m)%Z then refuse m "capacity_exceeded"
      else
      let '(nonces, err) := if enforceNonce then NonceAccept (mp_nonces m) (Sender item) (Nonce item)
                            else (mp_nonces m, None) in
      match err with
      | Some e => refuse m (reasonOf (Some e))
      | None =>
          let m := set_nonces nonces m in
          let m := set_nextSeq (i64_add (mp_nextSeq m) 1) m in
          let m := set_byID (<[TxID item := MkEntry item now (mp_nextSeq m)]> (mp_byID m)) m in
          let m := set_order (mp_order m ++ [TxID item]) m in
          (m, MkAdmission true (TxID item) (Sender item) (Receiver item) (Nonce item) "accepted" ""
                (mp_nodeID m) (mp_shardID m) (pool_size m) 0 nowMS)
      end
  end.

Definition filterID (ids : list string) (remove : string) : list string :=
  filter (λ id, id ≠ remove) ids.

Definition removeLocked (txID : string) (m : Mempool) : Mempool * bool :=
  if negb (hasLocked m txID) then (m, false)
  else
  let m := set_byID (delete txID (mp_byID m)) m in
  let m := set_reserved (mp_reserved m ∖ {[txID]}) m in
  (set_order (filterID (mp_order m) txID) m, true).

(** The loop of [PopReady] over a copy of the ids. *)
Fixpoint pop_ids (ids : list string) (m : Mempool) : Mempool * list SignedTransaction :=
  match ids with
  | [] => (m, [])
  | id :: ids' =>
      match mp_byID m !! id with
      | Some e => let '(m, out) := pop_ids ids' (removeLocked id m).1 in (m, en_tx e :: out)
      | None => pop_ids ids' m
      end
  end.

Definition PopReady (limit : Z) (m : Mempool) : Mempool * list SignedTransaction :=
  if (limit <=? 0)%Z then (m, [])
  else pop_ids (take (Z.to_nat limit) (mp_order m)) m.

(** The loop of [ReserveReady]; [out] has been collected. *)
Fixpoint reserve_ids (limit : Z) (ids : list string) (out : list SignedTransaction) (m : Mempool)
    : Mempool * list SignedTransaction :=
  match ids with
  | [] => (m, out)
  | id :: ids' =>
      if (limit <=? Z.of_nat (length out))%Z then (m, out)
      else if bool_decide (id ∈ mp_reserved m) then reserve_ids limit ids' out m
      else
      match mp_byID m !! id with
      | Some e => reserve_ids limit ids' (out ++ [en_tx e])
                    (set_reserved ({[id]} ∪ mp_reserved m) m)
      | None => reserve_ids limit ids' out m
      end
  end.

Definition ReserveReady (limit : Z) (m : Mempool) : Mempool * list SignedTransaction :=
  if (limit <=? 0)%Z then (m, []) else reserve_ids limit (mp_order m) [] m.

Definition CommitReserved (items : list SignedTransaction) (m : Mempool) : Mempool :=
  foldl (λ m item, (removeLocked (TxID item)
                      (set_reserved (mp_reserved m ∖ {[TxID item]}) m)).1) m items.

Definition ReleaseReserved (items : list SignedTransaction) (m : Mempool) : Mempool :=
  foldl (λ m item, set_reserved (mp_reserved m ∖ {[TxID item]}) m) m items.

Definition LookupMany (txIDs : list string) (m : Mempool) : gmap string SignedTransaction :=
  foldl (λ out id, match mp_byID m !! id with Some e => <[id := en_tx e]> out | None => out end)
    ∅ txIDs.

(** The loop of [Expire] over a copy of the ids. *)
Fixpoint expire_ids (now : Z) (ids : list string) (m : Mempool) : Mempool * list AdmissionResult :=
  match ids with
  | [] => (m, [])
  | id :: ids' =>
      match mp_byID m !! id with
      | None => expire_ids now ids' m
      | Some e =>
          if (po_TTL (mp_policy m) <? time_sub now (en_admittedAt e))%Z then
            let m := (removeLocked id m).1 in
            let r := MkAdmission false (TxID (en_tx e)) (Sender (en_tx e)) (Receiver (en_tx e))
                       (Nonce (en_tx e)) "expired" "ttl_expired" (mp_nodeID m) (mp_shardID m)
                       (pool_size m) (milliseconds (time_sub now (en_admittedAt e)))
                       (unix_milli now) in
            let '(m, out) := expire_ids now ids' m in (m, r :: out)
          else expire_ids now ids' m
      end
  end.

Definition Expire (now : Z) (m : Mempool) : Mempool * list AdmissionResult :=
  if (po_TTL (mp_policy m) <=? 0)%Z then (m, []) else expire_ids now (mp_order m) m.

Definition IDs (m : Mempool) : list string := filter (λ id, hasLocked m id = true) (mp_order m).

(** ** The proposer *)

Definition Build (p : Proposer) (limit now : Z) (m : Mempool) : Mempool * (Block * error) :=
  let '(m, txs) := ReserveReady limit m in
  if length txs ≟ O then (m, (zero_block, Some "empty_mempool"))
  else (m, (candidate p txs (unix_milli now), None)).

(** ** The invariant *)

(** The entry of an id in the order, as a sequence number. *)
Definition seq_of (m : Mempool) (id : string) : Z := from_option en_seq 0%Z (mp_byID m !! id).

Record mp_ok (m : Mempool) : Prop := {
  mo_nodup : NoDup (mp_order m);
  mo_order : ∀ id, id ∈ mp_order m ↔ is_Some (mp_byID m !! id);
  mo_ids : ∀ id e, mp_byID m !! id = Some e → TxID (en_tx e) = id;
  mo_capacity : (pool_size m <= po_Capacity (mp_policy m))%Z;
  mo_reserved : ∀ id, id ∈ mp_reserved m → is_Some (mp_byID m !! id);
}.

Lemma hasLocked_spec m id : hasLocked m id = true ↔ is_Some (mp_byID m !! id).
Proof.
  unfold hasLocked, defined. by destruct (mp_byID m !! id).
Qed.

Lemma mp_ok_New node shard policy nonces : mp_ok (NewMempool node shard policy nonces).
Proof.
  constructor; cbn.
  - constructor.
  - intros id. rewrite lookup_empty, is_Some_alt. set_solver.
  - intros id e. by rewrite lookup_empty.
  - unfold pool_size. cbn. rewrite map_size_empty. destruct (Z.leb_spec (po_Capacity policy) 0); lia.
  - set_solver.
Qed.

(** ** Removal *)

Lemma removeLocked_ok id m : mp_ok m → mp_ok (removeLocked id m).1.
Proof.
  intros [H1 H2 H3 H4 H5]. unfold removeLocked. destruct (hasLocked m id) eqn:E; [|done].
  apply hasLocked_spec in E. constructor; cbn.
  - by apply NoDup_filter.
  - intros x. unfold filterID. rewrite list_elem_of_filter, H2. destruct (decide (x = id)) as [->|].
    + rewrite lookup_delete_eq. split; [by intros [? _]|by intros [? ?]].
    + rewrite lookup_delete_ne by done. naive_solver.
  - intros x e [_ He]%lookup_delete_Some. by apply H3.
  - unfold pool_size in *. cbn. rewrite map_size_delete.
    destruct E as [e ->]. lia.
  - intros x. rewrite elem_of_difference, elem_of_singleton. intros [Hx Hne].
    rewrite lookup_delete_ne by done. by apply H5.
Qed.

Lemma removeLocked_byID id m : mp_byID (removeLocked id m).1 = delete id (mp_byID m).
Proof.
  unfold removeLocked. destruct (hasLocked m id) eqn:E; [done|]. cbn.
  symmetry. apply delete_id, eq_None_not_Some. rewrite <- hasLocked_spec. congruence.
Qed.

Lemma removeLocked_frame id m :
  mp_policy (removeLocked id m).1 = mp_policy m ∧ mp_nonces (removeLocked id m).1 = mp_nonces m.
Proof. unfold removeLocked. by case_match. Qed.

Lemma set_reserved_ok R m : mp_ok m → (∀ id, id ∈ R → id ∈ mp_reserved m) → mp_ok (set_reserved R m).
Proof. intros [H1 H2 H3 H4 H5] HR. by constructor; auto. Qed.

(** ** Admission *)

(** The conditions under which a transaction enters the pool. *)
Definition admissible (verify : SignedTransaction → error) (item : SignedTransaction)
    (enforce : bool) (m : Mempool) : Prop :=
  verify item = None ∧ mp_byID m !! TxID item = None ∧
  (pool_size m < po_Capacity (mp_policy m))%Z ∧
  (enforce = true → Nonce item = Expected (mp_nonces m) (Sender item)).

Definition admitted (item : SignedTransaction) (now : Z) (enforce : bool) (m : Mempool) : Mempool :=
  set_order (mp_order m ++ [TxID item])
    (set_byID (<[TxID item := MkEntry item now (i64_add (mp_nextSeq m) 1)]> (mp_byID m))
      (set_nextSeq (i64_add (mp_nextSeq m) 1)
        (set_nonces (if enforce then <[Sender item := u64_add (Nonce item) 1]> (mp_nonces m)
                     else mp_nonces m) m))).

Lemma NonceValidate_spec next sender nonce :
  NonceValidate next sender nonce = None ↔ nonce = Expected next sender.
Proof.
  unfold NonceValidate. cbv zeta. destruct (N.ltb_spec nonce (Expected next sender));
    [split; [done|lia]|].
  destruct (N.ltb_spec (Expected next sender) nonce); split; try done; lia.
Qed.

Lemma admitAt_cases verify item now enforce m :
  (admissible verify item enforce m ∧ (admitAt verify item now enforce m).1 = admitted item now enforce m ∧
   ar_Accepted (admitAt verify item now enforce m).2 = true) ∨
  (¬ admissible verify item enforce m ∧ (admitAt verify item now enforce m).1 = m ∧
   ar_Accepted (admitAt verify item now enforce m).2 = false ∧
   ar_Action (admitAt verify item now enforce m).2 = "rejected").
Proof.
  unfold admitAt, admissible. destruct (verify item) as [e|]; [right; naive_solver|].
  destruct (hasLocked m (TxID item)) eqn:Eh.
  { right. apply hasLocked_spec in Eh as [e He]. rewrite He. naive_solver. }
  assert (mp_byID m !! TxID item = None) as Hn
    by (apply eq_None_not_Some; rewrite <- hasLocked_spec; congruence).
  destruct (Z.leb_spec (po_Capacity (mp_policy m)) (pool_size m)) as [Hc|Hc].
  { right. split_and!; [|done..]. intros (_ & _ & ? & _). lia. }
  destruct enforce; cbn [andb].
  - unfold NonceAccept. destruct (NonceValidate (mp_nonces m) (Sender item) (Nonce item)) eqn:Ev.
    + right. split_and!; [|done..]. intros (_ & _ & _ & Hx).
      specialize (Hx eq_refl). apply NonceValidate_spec in Hx. congruence.
    + left. apply NonceValidate_spec in Ev. by split_and!.
  - left. by split_and!.
Qed.

Lemma admitted_ok item now enforce m :
  mp_ok m → mp_byID m !! TxID item = None → (pool_size m < po_Capacity (mp_policy m))%Z →
  mp_ok (admitted item now enforce m).
Proof.
  intros [H1 H2 H3 H4 H5] Hn Hc. constructor; cbn.
  - apply NoDup_app. split_and!; [done| |apply NoDup_singleton].
    intros id Hid ->%list_elem_of_singleton. apply H2 in Hid. rewrite Hn in Hid. by destruct Hid.
  - intros id. rewrite elem_of_app, list_elem_of_singleton, H2, lookup_insert.
    case_decide; subst; naive_solver.
  - intros id e [[<- <-]|[_ He]]%lookup_insert_Some; [done|by apply H3].
  - unfold pool_size in *. cbn. rewrite map_size_insert_None by done. lia.
  - intros id Hid. rewrite lookup_insert_is_Some'. auto.
Qed.

(** ** Reservations *)

Definition unreserved (m : Mempool) (ids : list string) : list string :=
  filter (λ id, id ∉ mp_reserved m) ids.

Lemma reserve_ids_spec limit ids : ∀ out m,
  NoDup ids → (∀ id, id ∈ ids → ∃ e, mp_byID m !! id = Some e ∧ TxID (en_tx e) = id) →
  let chosen := take (Z.to_nat (limit - Z.of_nat (length out))) (unreserved m ids) in
  let r := reserve_ids limit ids out m in
  r.1 = set_reserved (list_to_set chosen ∪ mp_reserved m) m ∧
  TxID <$> r.2 = (TxID <$> out) ++ chosen.
Proof.
  assert (∀ m : Mempool, set_reserved (∅ ∪ mp_reserved m) m = m) as Hid
    by (intros m; rewrite (left_id_L ∅ (∪)); by destruct m).
  induction ids as [|id ids IH]; intros out m Hnd Hin; cbn [reserve_ids].
  { unfold unreserved. rewrite filter_nil, take_nil. cbn [fst snd list_to_set].
    by rewrite Hid, app_nil_r. }
  apply NoDup_cons in Hnd as [Hni Hnd].
  destruct (Z.leb_spec limit (Z.of_nat (length out))) as [Hl|Hl].
  { replace (Z.to_nat (limit - Z.of_nat (length out))) with 0%nat by lia. simpl.
    by rewrite Hid, app_nil_r. }
  unfold unreserved. rewrite filter_cons. case_bool_decide as Er.
  { rewrite decide_False by auto. apply IH; [done|]. intros x Hx. apply Hin. by right. }
  rewrite decide_True by done. destruct (Hin id) as (e & He & Hid'); [left|]. rewrite He.
  replace (Z.to_nat (limit - Z.of_nat (length out)))
    with (S (Z.to_nat (limit - Z.of_nat (length (out ++ [en_tx e])))))
    by (rewrite length_app; simpl; lia).
  rewrite firstn_cons.
  destruct (IH (out ++ [en_tx e]) (set_reserved ({[id]} ∪ mp_reserved m) m)) as [E1 E2];
    [done|intros x Hx; apply Hin; by right|].
  assert (unreserved (set_reserved ({[id]} ∪ mp_reserved m) m) ids = unreserved m ids) as Eu.
  { unfold unreserved. apply filter_ext_in. intros x Hx. cbn. set_solver. }
  rewrite Eu in E1, E2. split.
  - rewrite E1. unfold set_reserved. cbn. f_equal. set_solver.
  - rewrite E2, fmap_app. simpl. rewrite Hid', <- app_assoc. done.
Qed.

Lemma ReserveReady_spec limit m :
  mp_ok m →
  let chosen := take (Z.to_nat limit) (unreserved m (mp_order m)) in
  (ReserveReady limit m).1 = set_reserved (list_to_set chosen ∪ mp_reserved m) m ∧
  TxID <$> (ReserveReady limit m).2 = chosen.
Proof.
  intros H. unfold ReserveReady. destruct (Z.leb_spec limit 0) as [Hl|Hl].
  { replace (Z.to_nat limit) with 0%nat by lia. simpl. rewrite (left_id_L ∅ (∪)). by destruct m. }
  destruct (reserve_ids_spec limit (mp_order m) [] m) as [E1 E2]; [apply H| |].
  { intros id Hid. apply (mo_order _ H) in Hid as [e He]. exists e. split; [done|].
    by apply (mo_ids _ H). }
  simpl in *. by rewrite Z.sub_0_r in *.
Qed.

Lemma chosen_in_pool limit m id :
  mp_ok m → id ∈ take limit (unreserved m (mp_order m)) → is_Some (mp_byID m !! id).
Proof.
  intros H Hid. apply (mo_order _ H). apply elem_of_take in Hid as (i & Hi & _).
  apply list_elem_of_lookup_2, list_elem_of_filter in Hi. apply Hi.
Qed.

Lemma ReserveReady_ok limit m : mp_ok m → mp_ok (ReserveReady limit m).1.
Proof.
  intros H. destruct (ReserveReady_spec limit m H) as [-> _]. destruct H as [H1 H2 H3 H4 H5] eqn:EH.
  constructor; auto. cbn. intros id. rewrite elem_of_union, elem_of_list_to_set. intros [Hid|]; auto.
  by eapply chosen_in_pool.
Qed.

(** ** Popping and expiry *)

Lemma pop_ids_ok ids : ∀ m, mp_ok m → mp_ok (pop_ids ids m).1.
Proof.
  induction ids as [|id ids IH]; intros m H; simpl; [done|].
  destruct (mp_byID m !! id) as [e|]; [|by apply IH].
  specialize (IH (removeLocked id m).1 (removeLocked_ok id m H)).
  by destruct (pop_ids ids (removeLocked id m).1).
Qed.

Lemma pop_ids_spec ids : ∀ m,
  NoDup ids → mp_ok m → (∀ id, id ∈ ids → is_Some (mp_byID m !! id)) →
  TxID <$> (pop_ids ids m).2 = ids ∧
  mp_byID (pop_ids ids m).1 = foldr delete (mp_byID m) ids.
Proof.
  induction ids as [|id ids IH]; intros m Hnd H Hin; simpl; [done|].
  apply NoDup_cons in Hnd as [Hni Hnd]. destruct (Hin id) as [e He]; [left|]. rewrite He.
  destruct (IH (removeLocked id m).1) as [E1 E2]; [done|by apply removeLocked_ok| |].
  { intros x Hx. rewrite removeLocked_byID, lookup_delete_ne by (by intros ->). apply Hin. by right. }
  destruct (pop_ids ids (removeLocked id m).1) as [m' out]. cbn in *. split.
  - f_equal; [by apply (mo_ids _ H)|done].
  - rewrite E2, removeLocked_byID. clear. induction ids as [|x ids IH]; simpl; [done|].
    rewrite IH. apply delete_delete.
Qed.

Lemma expire_ids_ok now ids : ∀ m, mp_ok m → mp_ok (expire_ids now ids m).1.
Proof.
  induction ids as [|id ids IH]; intros m H; simpl; [done|].
  destruct (mp_byID m !! id) as [e|]; [|by apply IH]. case_match; [|by apply IH].
  specialize (IH (removeLocked id m).1 (removeLocked_ok id m H)).
  by destruct (expire_ids now ids (removeLocked id m).1).
Qed.

(** What the sweep removes: the entries of the listed ids that are over age. *)
Definition over_age (now : Z) (m : Mempool) (e : entry) : bool :=
  (po_TTL (mp_policy m) <? time_sub now (en_admittedAt e))%Z.

Lemma expire_ids_spec now ids : ∀ m,
  NoDup ids →
  ∀ id, mp_byID (expire_ids now ids m).1 !! id =
    match mp_byID m !! id with
    | Some e => if bool_decide (id ∈ ids) && over_age now m e then None else Some e
    | None => None
    end.
Proof.
  induction ids as [|x ids IH]; intros m Hnd id; cbn [expire_ids].
  { cbn [fst]. destruct (mp_byID m !! id); [|done].
    by rewrite bool_decide_eq_false_2 by apply not_elem_of_nil. }
  apply NoDup_cons in Hnd as [Hni Hnd].
  assert (∀ m', over_age now m' = over_age now m →
    mp_byID m' !! id = mp_byID m !! id → id ≠ x →
    mp_byID (expire_ids now ids m').1 !! id = match mp_byID m !! id with
      | Some e => if bool_decide (id ∈ x :: ids) && over_age now m e then None else Some e
      | None => None end) as other.
  { intros m' Ho Hm Hne. rewrite IH, Hm, Ho by done. destruct (mp_byID m !! id); [|done].
    rewrite (bool_decide_ext (id ∈ ids) (id ∈ x :: ids)); [done|]. rewrite elem_of_cons. naive_solver. }
  assert (x = id → mp_byID m !! x = None ∨ (∃ e, mp_byID m !! x = Some e ∧ over_age now m e = false) →
    mp_byID (expire_ids now ids m).1 !! id = match mp_byID m !! id with
      | Some e => if bool_decide (id ∈ x :: ids) && over_age now m e then None else Some e
      | None => None end) as stays.
  { intros <- Hc. rewrite IH by done. destruct (mp_byID m !! x) as [e|]; [|done].
    rewrite bool_decide_eq_false_2 by done. destruct Hc as [|(e' & [= <-] & ->)]; [done|].
    by rewrite !andb_false_r. }
  destruct (decide (id = x)) as [->|Hne].
  - destruct (mp_byID m !! x) as [e|] eqn:He; [|by apply stays; auto].
    fold (over_age now m e). destruct (over_age now m e) eqn:Ho; [|by apply stays; eauto].
    pose proof (IH (removeLocked x m).1 Hnd x) as Hx. rewrite removeLocked_byID, lookup_delete_eq in Hx.
    destruct (expire_ids now ids (removeLocked x m).1) as [m' out]. cbn in *.
    by rewrite bool_decide_eq_true_2 by left.
  - destruct (mp_byID m !! x) as [e|] eqn:He; [|by apply other].
    fold (over_age now m e). destruct (over_age now m e) eqn:Ho; [|by apply other].
    assert (over_age now (removeLocked x m).1 = over_age now m) as Ho'
      by (unfold over_age; by destruct (removeLocked_frame x m) as [-> _]).
    pose proof (other (removeLocked x m).1 Ho') as Hx.
    rewrite removeLocked_byID, lookup_delete_ne in Hx by done. specialize (Hx eq_refl Hne).
    by destruct (expire_ids now ids (removeLocked x m).1) as [m' out].
Qed.

(** ** Runs of the pool *)

Inductive mp_op :=
  | MpAdmit (item : SignedTransaction) (now : Z)
  | MpRelay (item : SignedTransaction) (now : Z)
  | MpRemove (txID : string)
  | MpPop (limit : Z)
  | MpReserve (limit : Z)
  | MpCommit (items : list SignedTransaction)
  | MpRelease (items : list SignedTransaction)
  | MpExpire (now : Z).

Section runs.
Context (verify : SignedTransaction → error).

Definition mp_step (m : Mempool) (o : mp_op) : Mempool :=
  match o with
  | MpAdmit item now => (admitAt verify item now true m).1
  | MpRelay item now => (admitAt verify item now false m).1
  | MpRemove id => (removeLocked id m).1
  | MpPop limit => (PopReady limit m).1
  | MpReserve limit => (ReserveReady limit m).1
  | MpCommit items => CommitReserved items m
  | MpRelease items => ReleaseReserved items m
  | MpExpire now => (Expire now m).1
  end.

Lemma CommitReserved_ok items : ∀ m, mp_ok m → mp_ok (CommitReserved items m).
Proof.
  induction items as [|x items IH]; intros m H; [done|]. unfold CommitReserved. simpl.
  apply IH, removeLocked_ok, set_reserved_ok; set_solver.
Qed.

Lemma ReleaseReserved_ok items : ∀ m, mp_ok m → mp_ok (ReleaseReserved items m).
Proof.
  induction items as [|x items IH]; intros m H; [done|]. unfold ReleaseReserved. simpl.
  apply IH, set_reserved_ok; set_solver.
Qed.

Lemma admitAt_ok item now enforce m : mp_ok m → mp_ok (admitAt verify item now enforce m).1.
Proof.
  intros H. destruct (admitAt_cases verify item now enforce m) as [((_ & Hn & Hc & _) & -> & _)
    |(_ & -> & _)]; [by apply admitted_ok|done].
Qed.

Lemma mp_ok_step m o : mp_ok m → mp_ok (mp_step m o).
Proof.
  intros H. destruct o; cbn [mp_step].
  - by apply admitAt_ok.
  - by apply admitAt_ok.
  - by apply removeLocked_ok.
  - unfold PopReady. case_match; [done|by apply pop_ids_ok].
  - by apply ReserveReady_ok.
  - by apply CommitReserved_ok.
  - by apply ReleaseReserved_ok.
  - unfold Expire. case_match; [done|by apply expire_ids_ok].
Qed.

Lemma mp_ok_run ops : ∀ m, mp_ok m → mp_ok (foldl mp_step m ops).
Proof. induction ops as [|o ops IH]; intros m H; [done|]. by apply IH, mp_ok_step. Qed.

(** The nonces of the admissions of a sender that the pool accepted with the
    nonce check on, in order. *)
Fixpoint accepted_nonces (sender : string) (ops : list mp_op) (m : Mempool) : list N :=
  match ops with
  | [] => []
  | o :: ops' =>
      match o with
      | MpAdmit item now =>
          if ar_Accepted (admitAt verify item now true m).2 && (Sender item ≟ sender)
          then [Nonce item] else []
      | _ => []
      end ++ accepted_nonces sender ops' (mp_step m o)
  end.

(** The parts of the pool only admission touches. *)
Definition books (m : Mempool) := (mp_policy m, mp_nonces m).

Lemma books_remove id m : books (removeLocked id m).1 = books m.
Proof. unfold books. by destruct (removeLocked_frame id m) as [-> ->]. Qed.

Lemma books_pop ids : ∀ m, books (pop_ids ids m).1 = books m.
Proof.
  induction ids as [|id ids IH]; intros m; simpl; [done|]. destruct (mp_byID m !! id); [|done].
  specialize (IH (removeLocked id m).1). destruct (pop_ids ids (removeLocked id m).1).
  cbn in *. by rewrite IH, books_remove.
Qed.

Lemma books_expire now ids : ∀ m, books (expire_ids now ids m).1 = books m.
Proof.
  induction ids as [|id ids IH]; intros m; simpl; [done|]. destruct (mp_byID m !! id); [|done].
  case_match; [|done].
  specialize (IH (removeLocked id m).1). destruct (expire_ids now ids (removeLocked id m).1).
  cbn in *. by rewrite IH, books_remove.
Qed.

Lemma books_reserve limit ids : ∀ out m, books (reserve_ids limit ids out m).1 = books m.
Proof.
  induction ids as [|id ids IH]; intros out m; simpl; [done|]. repeat case_match; try done; by rewrite IH.
Qed.

Lemma books_fold (f : Mempool → SignedTransaction → Mempool) items :
  (∀ m x, books (f m x) = books m) → ∀ m, books (foldl f m items) = books m.
Proof. intros Hf. induction items as [|x items IH]; intros m; simpl; [done|]. by rewrite IH, Hf. Qed.

Lemma books_step m o :
  (∀ item now, o ≠ MpAdmit item now) → books (mp_step m o) = books m.
Proof.
  intros Hne. destruct o as [item now|item now|id|limit|limit|items|items|now]; cbn [mp_step].
  - by destruct (Hne item now).
  - destruct (admitAt_cases verify item now false m) as [(_ & -> & _)|(_ & -> & _)]; done.
  - apply books_remove.
  - unfold PopReady. case_match; [done|apply books_pop].
  - unfold ReserveReady. case_match; [done|apply books_reserve].
  - apply books_fold. intros m' x. by rewrite books_remove.
  - by apply books_fold.
  - unfold Expire. case_match; [done|apply books_expire].
Qed.

Lemma is_admit o : (∀ item now, o ≠ MpAdmit item now) ∨ ∃ item now, o = MpAdmit item now.
Proof. destruct o; naive_solver. Qed.

Lemma nonces_step m o :
  (∀ item now, o ≠ MpAdmit item now) → mp_nonces (mp_step m o) = mp_nonces m.
Proof. intros Hne. by apply (books_step m), pair_equal_spec in Hne as [_ ?]. Qed.

Lemma policy_step m o : mp_policy (mp_step m o) = mp_policy m.
Proof.
  destruct (is_admit o) as [Hne|(item & now & ->)].
  - by apply (books_step m), pair_equal_spec in Hne as [? _].
  - cbn [mp_step].
    destruct (admitAt_cases verify item now true m) as [(_ & -> & _)|(_ & -> & _)]; done.
Qed.

Lemma accepted_nonces_spec sender ops : ∀ m,
  ∃ k, accepted_nonces sender ops m = count_from (Expected (mp_nonces m) sender) k.
Proof.
  induction ops as [|o ops IH]; intros m; [by exists O|]. cbn [accepted_nonces].
  destruct (IH (mp_step m o)) as [k Hk]. rewrite Hk.
  destruct (is_admit o) as [Hne|(item & now & ->)].
  { rewrite (nonces_step m o Hne). exists k. destruct o; try done. by destruct (Hne item now). }
  cbn [mp_step]. destruct (admitAt_cases verify item now true m)
    as [((_ & _ & _ & Hn) & -> & ->)|(_ & -> & -> & _)]; [|by exists k].
  specialize (Hn eq_refl). cbn [andb]. unfold Expected. cbn.
  case_bool_decide as E.
  - subst sender. rewrite lookup_insert_eq. exists (S k). simpl. by rewrite Hn.
  - rewrite lookup_insert_ne by done. by exists k.
Qed.

End runs.

(** ** Theorems *)

(** C34: after any sequence of operations the pool's index, its order and its
    reservations agree: the order lists the pooled ids once each, every entry is
    filed under its own id, reserved ids are pooled, and the pool is within its
    capacity. *)
Theorem mempool_consistent (verify : SignedTransaction → error) node shard policy nonces
    (ops : list mp_op) :
  let m := foldl (mp_step verify) (NewMempool node shard policy nonces) ops in
  NoDup (mp_order m) ∧
  (∀ id, id ∈ mp_order m ↔ is_Some (mp_byID m !! id)) ∧
  (∀ id e, mp_byID m !! id = Some e → TxID (en_tx e) = id) ∧
  (pool_size m <= po_Capacity (mp_policy m))%Z ∧
  (∀ id, id ∈ mp_reserved m → is_Some (mp_byID m !! id)) ∧
  IDs m = mp_order m.
Proof.
  intros m. pose proof (mp_ok_run verify ops _ (mp_ok_New node shard policy nonces)) as H. fold m in H.
  split_and!; try apply H. unfold IDs. apply filter_all. intros id Hid.
  apply hasLocked_spec. by apply (mo_order _ H).
Qed.

(** C35: admission on every branch. A transaction is accepted exactly when it
    verifies, is not pooled yet, the pool is below capacity and (with the nonce
    check) it carries the sender's next nonce; then it is appended to the order,
    and a rejected one leaves the pool as it was. *)
Theorem admission_exact (verify : SignedTransaction → error) (item : SignedTransaction) (now : Z)
    (enforce : bool) (m : Mempool) :
  let r := admitAt verify item now enforce m in
  (ar_Accepted r.2 = true ↔
     verify item = None ∧ mp_byID m !! TxID item = None ∧
     (pool_size m < po_Capacity (mp_policy m))%Z ∧
     (enforce = true → Nonce item = Expected (mp_nonces m) (Sender item))) ∧
  (ar_Accepted r.2 = true → mp_order r.1 = mp_order m ++ [TxID item] ∧
     en_tx <$> mp_byID r.1 !! TxID item = Some item ∧
     Expected (mp_nonces r.1) (Sender item) =
       if enforce then u64_add (Nonce item) 1 else Expected (mp_nonces m) (Sender item)) ∧
  (ar_Accepted r.2 = false → r.1 = m ∧ ar_Action r.2 = "rejected").
Proof.
  intros r. destruct (admitAt_cases verify item now enforce m) as [(A & E & R)|(A & E & R & Ac)].
  - fold r in E, R. rewrite R, E. split_and!; [by split|intros _|done].
    cbn. rewrite lookup_insert_eq. split_and!; [done|done|].
    destruct enforce; [|done]. unfold Expected. by rewrite lookup_insert_eq.
  - fold r in E, R, Ac. rewrite R. split_and!; [|done|done]. split; [done|]. intros H. by destruct A.
Qed.

(** over any run of a pool with a fresh nonce manager, the nonces of a
    sender's accepted transactions are 0, 1, 2, ... in order: nothing is admitted
    twice or out of order, whatever is removed, expired or relayed meanwhile. *)
Theorem nonces_consecutive (verify : SignedTransaction → error) node shard policy
    (ops : list mp_op) (sender : string) :
  let nonces := accepted_nonces verify sender ops (NewMempool node shard policy None) in
  nonces = count_from 0 (length nonces).
Proof.
  intros nonces. destruct (accepted_nonces_spec verify sender ops (NewMempool node shard policy None))
    as [k Hk]. unfold nonces. rewrite Hk. f_equal.
  by rewrite length_count_from.
Qed.

(** reservation is first in, first out and never hands out a transaction
    twice: [ReserveReady] returns the oldest unreserved transactions, up to the
    limit, and marks exactly them. *)
Theorem reserve_fifo (verify : SignedTransaction → error) node shard policy nonces
    (ops : list mp_op) (limit : Z) :
  let m := foldl (mp_step verify) (NewMempool node shard policy nonces) ops in
  let r := ReserveReady limit m in
  TxID <$> r.2 = take (Z.to_nat limit) (filter (λ id, id ∉ mp_reserved m) (mp_order m)) ∧
  mp_reserved r.1 = list_to_set (TxID <$> r.2) ∪ mp_reserved m ∧
  (∀ id, id ∈ TxID <$> r.2 → id ∉ mp_reserved m) ∧
  mp_byID r.1 = mp_byID m ∧ mp_order r.1 = mp_order m.
Proof.
  intros m r. pose proof (mp_ok_run verify ops _ (mp_ok_New node shard policy nonces)) as H.
  fold m in H. destruct (ReserveReady_spec limit m H) as [E1 E2]. fold r in E1, E2.
  rewrite E2, E1. split_and!; try done.
  intros id Hid. apply elem_of_take in Hid as (i & Hi & _).
  apply list_elem_of_lookup_2, list_elem_of_filter in Hi. apply Hi.
Qed.

(** Popping and expiry. [PopReady] takes the oldest transactions up to the
    limit out of the pool, and [Expire] removes exactly the transactions older
    than the time to live. *)
Theorem pop_and_expire (verify : SignedTransaction → error) node shard policy nonces
    (ops : list mp_op) (limit now : Z) :
  let m := foldl (mp_step verify) (NewMempool node shard policy nonces) ops in
  TxID <$> (PopReady limit m).2 = take (Z.to_nat limit) (mp_order m) ∧
  (∀ id, mp_byID (PopReady limit m).1 !! id =
     if bool_decide (id ∈ take (Z.to_nat limit) (mp_order m)) then None else mp_byID m !! id) ∧
  (∀ id, mp_byID (Expire now m).1 !! id =
     mp_byID m !! id ≫= λ e,
       if (po_TTL (mp_policy m) <? time_sub now (en_admittedAt e))%Z then None else Some e).
Proof.
  intros m. pose proof (mp_ok_run verify ops _ (mp_ok_New node shard policy nonces)) as H. fold m in H.
  assert (0 < po_TTL (mp_policy m))%Z as HT.
  { assert (∀ ops m0, mp_policy (foldl (mp_step verify) m0 ops) = mp_policy m0) as Hp.
    { clear. induction ops as [|o ops IH]; intros m0; [done|]. simpl. rewrite IH. apply policy_step. }
    unfold m. rewrite Hp. cbn. destruct (Z.leb_spec (po_TTL policy) 0); [done|lia]. }
  set (ids := take (Z.to_nat limit) (mp_order m)).
  assert (TxID <$> (PopReady limit m).2 = ids ∧
    mp_byID (PopReady limit m).1 = foldr delete (mp_byID m) ids) as [E1 E2].
  { unfold PopReady. destruct (Z.leb_spec limit 0).
    - unfold ids. by replace (Z.to_nat limit) with 0%nat by lia.
    - apply pop_ids_spec; [|done|].
      + eapply sublist_NoDup; [apply H|apply sublist_take].
      + intros id Hid. apply (mo_order _ H). apply elem_of_take in Hid as (i & Hi & _).
        by eapply list_elem_of_lookup_2. }
  split_and!; [done| |].
  - intros id. rewrite E2. clear E1 E2. clearbody ids. induction ids as [|x ids IH]; simpl; [done|].
    rewrite lookup_delete, IH. repeat case_decide; repeat case_bool_decide; set_solver.
  - intros id. unfold Expire. destruct (Z.leb_spec (po_TTL (mp_policy m)) 0); [lia|].
    rewrite expire_ids_spec by apply H. destruct (mp_byID m !! id) as [e|] eqn:He; [|done]. simpl.
    rewrite bool_decide_eq_true_2 by (apply (mo_order _ H); eauto). done.
Qed.

(** A proposer's block holds the oldest unreserved transactions, its hash is
    the hash of its contents, and after [Confirm] the next block it builds links
    to it at the following height. *)
Theorem proposer_chains (p : Proposer) (limit now limit2 now2 : Z) (m m' : Mempool) (b b2 : Block) :
  Build p limit now m = (m', (b, None)) →
  (Build (Confirm p b) limit2 now2 m').2 = (b2, None) →
  Hash b = BlockHash b ∧ TxIDs b = Some (TxID <$> TxList b) ∧
  TxList b = (ReserveReady limit m).2 ∧ TxRootField b = TxRoot (TxIDs b) ∧
  Height b = pr_NextHeight p ∧ PreviousHash b = pr_PreviousHash p ∧
  PreviousHash b2 = BlockHash b ∧ Height b2 = u64_add (Height b) 1.
Proof.
  unfold Build. destruct (ReserveReady limit m) as [m1 txs] eqn:E1.
  case_bool_decide; [done|]. intros [= <- <-].
  destruct (ReserveReady limit2 m1) as [m2 txs2]. case_bool_decide; [done|]. intros [= <-].
  by split_and!.
Qed.

(** A pool with two transactions, drained one block at a time. *)
Definition sample_tx (id : string) (nonce : N) : SignedTransaction :=
  MkTx id "" "alice" "bob" nonce 1 [] [] "" "" "" [] "" "" "" "" 0 "" "" "" "" None.

Definition sample_pool : Mempool :=
  foldl (mp_step (λ _, None)) (NewMempool "n0" "shard0" DefaultPolicy None)
    [MpAdmit (sample_tx "tx0" 0) 1; MpAdmit (sample_tx "tx1" 1) 2].

Lemma proposer_chains_witness :
  let r := Build (NewProposer "n0" "shard0") 1 3 sample_pool in
  let r2 := Build (Confirm (NewProposer "n0" "shard0") r.2.1) 1 4 r.1 in
  TxList r.2.1 = [sample_tx "tx0" 0] ∧ TxList r2.2.1 = [sample_tx "tx1" 1] ∧
  PreviousHash r2.2.1 = BlockHash r.2.1.
Proof.
  intros r r2. split; [vm_compute; reflexivity|]. split; [vm_compute; reflexivity|].
  apply (proposer_chains (NewProposer "n0" "shard0") 1 3 1 4 sample_pool r.1 r.2.1 r2.2.1).
  - assert (r.2.2 = None) as E by (vm_compute; reflexivity).
    exact (pair_eta_snd r _ (pair_eta_snd r.2 None E)).
  - assert (r2.2.2 = None) as E by (vm_compute; reflexivity).
    exact (pair_eta_snd r2.2 None E).
Defined.
