(* ===== verification/Serial.v ===== *)
(** * The serial block executor ([executor/realism/execution/{serial,receipt,log}.go])

    A transaction runs against an overlay, a Go interface with several
    implementations. The executor is an [action], a program over the interface's
    [get] and [set]; an implementation is a handler ([Overlay]) the action is
    interpreted with. Wall-clock durations in a [Result] are left out. *)
From S2P Require Import Prelude GoStd Tx Block StateRoot.
Import Json.
Local Open Scope N_scope.

(** ** Programs over the overlay interface *)

Inductive action (A : Type) :=
  | Ret (a : A)
  | GetKey (key : string) (next : string → action A)
  | SetKey (key value : string) (next : action A).
Arguments Ret {A} a.
Arguments GetKey {A} key next.
Arguments SetKey {A} key value next.

Fixpoint action_bind {A B} (f : A → action B) (p : action A) : action B :=
  match p with
  | Ret a => f a
  | GetKey key next => GetKey key (λ v, action_bind f (next v))
  | SetKey key value next => SetKey key value (action_bind f next)
  end.
#[global] Instance action_ret : MRet action := @Ret.
#[global] Instance action_mbind : MBind action := @action_bind.

Definition get (key : string) : action string := GetKey key Ret.
Definition set (key value : string) : action () := SetKey key value (Ret ()).

(** One handler per implementation of [txExecutionOverlay]. *)
Class Overlay (Ov : Type) := {
  ov_get : string → Ov → Ov * string;
  ov_set : string → string → Ov → Ov;
  ov_writes : Ov → gmap string string;
}.

Fixpoint interp `{Overlay Ov} {A} (p : action A) (o : Ov) : Ov * A :=
  match p with
  | Ret a => (o, a)
  | GetKey key next => let '(o', v) := ov_get key o in interp (next v) o'
  | SetKey key value next => interp next (ov_set key value o)
  end.

(** ** Receipts and deltas *)

Record Receipt := MkReceipt {
  rc_TxID : string;
  rc_BlockHash : string;
  rc_Height : N;
  rc_Success : bool;
  rc_Error : string;
  rc_ExecutionCost : Z;
  rc_StateKeys : list string;
  rc_StateRootAfterTx : string;
}.

Record ReadObservation := MkObservation {
  ro_Key : string;
  ro_Value : string;
  ro_ValueDigest : string;
  ro_Source : string;
}.

Record TxDelta := MkDelta {
  td_TxID : string;
  td_OriginalIndex : Z;
  td_ReadSet : list ReadObservation;
  td_WriteSet : gmap string string;
  td_Receipt : Receipt;
  td_Success : bool;
  td_Error : string;
}.

Definition json_receipt (r : Receipt) : json :=
  JObj (fld "tx_id" (JStr (rc_TxID r)) ++ fld "block_hash" (JStr (rc_BlockHash r)) ++
        fld "height" (JUint (rc_Height r)) ++ fld "success" (JBool (rc_Success r)) ++
        fld "error" (JStr (rc_Error r)) ++ fld "execution_cost" (JInt (rc_ExecutionCost r)) ++
        fld "state_keys" (arr_copy (JStr <$> rc_StateKeys r)) ++
        fld "state_root_after_tx" (JStr (rc_StateRootAfterTx r))).

(** The receipts are appended to a nil slice. *)
Definition ReceiptRoot (receipts : list Receipt) : string :=
  sha256_hex (marshal (arr_copy (json_receipt <$> receipts))).

Definition digestValue (value : string) : string := sha256_hex value.

(** ** What a transaction does *)

Definition isPureCommutativeDelta (accesses : list AccessItem) : bool :=
  negb (length accesses ≟ O) &&
  forallb (λ a, (ai_Mode a ≟ AccessRead) || (ai_Mode a ≟ AccessCommutativeDelta)) accesses.

Definition crossShardTargetFromPayload (payload : string) : string :=
  if negb (has_prefix payload "v5_cross:") then ""
  else
  let target := trim_prefix payload "v5_cross:" in
  trim_space (default target (before_byte ":" target)).

Definition isCrossShardTargetCommit (item : SignedTransaction) (shardID : string) : bool :=
  let target := crossShardTargetFromPayload (Payload item) in
  (target ≠? "") && (target ≟ shardID).

Definition isDirectAccessTransaction (item : SignedTransaction) : bool :=
  (AccessListSchema item ≠? "") && (AccessListSchema item ≠? "dcl_sale_access_template_v1") &&
  (AccessListSource item ≠? "legacy_state_keys").

Definition directAccessValue (item : SignedTransaction) (access : AccessItem) (previous : string)
    : string :=
  sha256_hex (marshal (JObj
    (fld "logical_tx_id" (JStr (SemanticID item)) ++ fld "key" (JStr (ai_Key access)) ++
     fld "semantics" (JStr (ai_UpdateSemantics access)) ++ opt_str "previous" previous))).

Definition setBalance (account : string) (balance : Z) : action () :=
  set ("balance:" +:+ account) (format_int balance).
Definition setNonce (account : string) (nonce : N) : action () :=
  set ("nonce:" +:+ account) (format_uint nonce).
Definition getBalance (account : string) : action Z :=
  value ← get ("balance:" +:+ account); mret (atoi64 value).
Definition getNonce (account : string) : action N :=
  value ← get ("nonce:" +:+ account); mret (atou64 value).

Definition ensureAccount (account : string) (balance : Z) : action () :=
  b ← get ("balance:" +:+ account);
  _ ← (if b ≟ "" then setBalance account balance else mret ());
  n ← get ("nonce:" +:+ account);
  if n ≟ "" then setNonce account 0 else mret ().

Fixpoint applyCommutativeDeltas (accesses : list AccessItem) : action () :=
  match accesses with
  | [] => mret ()
  | a :: rest =>
      if (ai_Mode a ≠? AccessCommutativeDelta) || (ai_Key a ≟ "") then applyCommutativeDeltas rest
      else
      text ← get (ai_Key a);
      _ ← set (ai_Key a) (format_int (i64_add (atoi64 text) (ai_Delta a)));
      applyCommutativeDeltas rest
  end.

Definition direct_access (item : SignedTransaction) (a : AccessItem) : action () :=
  if ai_Key a ≟ "" then mret ()
  else if ai_Mode a ≟ AccessRead then _ ← get (ai_Key a); mret ()
  else if ai_Mode a ≟ AccessCommutativeDelta then applyCommutativeDeltas [a]
  else if ai_Mode a ≟ AccessReadWrite
  then current ← get (ai_Key a); set (ai_Key a) (directAccessValue item a current)
  else if ai_Mode a ≟ AccessWrite then set (ai_Key a) (directAccessValue item a "")
  else mret ().

Fixpoint applyDirectAccess (item : SignedTransaction) (accesses : list AccessItem) : action () :=
  match accesses with
  | [] => mret ()
  | a :: rest => _ ← direct_access item a; applyDirectAccess item rest
  end.
Definition applyDirectAccessTransaction (item : SignedTransaction) : action () :=
  applyDirectAccess item (AccessList item).

Fixpoint applyDeclaredSemanticReads (accesses : list AccessItem) : action () :=
  match accesses with
  | [] => mret ()
  | a :: rest =>
      _ ← (if (ai_Mode a ≠? AccessRead) || (ai_Key a ≟ "") then mret ()
           else if ai_UpdateSemantics a ≟ "category_metadata" then _ ← get (ai_Key a); mret ()
           else mret ());
      applyDeclaredSemanticReads rest
  end.

(** The receipt before the state root is filled in; [""] is a success. *)
Definition receipt_of (b : Block) (item : SignedTransaction) (err : string) : Receipt :=
  MkReceipt (TxID item) (BlockHash b) (Height b) (err ≟ "") err 1 (StateKeys item) "".

Definition nonce_mismatch (expected got : N) : string :=
  "nonce_mismatch_expected_" +:+ format_uint expected +:+ "_got_" +:+ format_uint got.

(** A transfer: the accounts are created before the checks. *)
Definition transfer_checked (item : SignedTransaction) : action string :=
  expected ← getNonce (Sender item);
  if Nonce item ≠? expected then mret (nonce_mismatch expected (Nonce item))
  else if (Value item <=? 0)%Z then mret "invalid_value"
  else
  balance ← getBalance (Sender item);
  if (balance <? Value item)%Z then mret "insufficient_balance"
  else
  _ ← setBalance (Sender item) (i64_sub balance (Value item));
  received ← getBalance (Receiver item);
  _ ← setBalance (Receiver item) (i64_add received (Value item));
  _ ← setNonce (Sender item) (u64_add (Nonce item) 1);
  _ ← applyCommutativeDeltas (AccessList item);
  mret "".

Definition transfer (initial : Z) (item : SignedTransaction) : action string :=
  _ ← ensureAccount (Sender item) initial;
  _ ← ensureAccount (Receiver item) 0;
  transfer_checked item.

(** [executeTxWithStateRoot(..., false)]: every executor of the program calls it
    this way. *)
Definition executeTxWithoutStateRoot (initial : Z) (b : Block) (item : SignedTransaction)
    : action Receipt :=
  _ ← applyDeclaredSemanticReads (AccessList item);
  if isPureCommutativeDelta (AccessList item)
  then _ ← applyCommutativeDeltas (AccessList item); mret (receipt_of b item "")
  else if isCrossShardTargetCommit item (ShardID b)
  then _ ← set ("relay_commit:" +:+ TxID item) "1"; mret (receipt_of b item "")
  else if isDirectAccessTransaction item
  then _ ← applyDirectAccessTransaction item; mret (receipt_of b item "")
  else err ← transfer initial item; mret (receipt_of b item err).

(** ** The two overlays of serial execution *)

Definition qualify (shardID key : string) : string :=
  if str_contains key "::" then key else shardID +:+ "::" +:+ key.

Record serialBlockTxOverlay := MkSerialOverlay {
  sb_shardID : string;
  sb_base : gmap string string;
  sb_reads : list ReadObservation;
  sb_writes : gmap string string;
}.

Record txOverlay := MkTxOverlay {
  to_shardID : string;
  to_base : gmap string string;
  to_reads : list ReadObservation;
  to_writes : gmap string string;
}.

Definition newSerialBlockTxOverlay (shardID : string) (base : gmap string string) :=
  MkSerialOverlay shardID base [] ∅.
Definition newTxOverlay (shardID : string) (base : gmap string string) :=
  MkTxOverlay shardID base [] ∅.

Definition observe (key value source : string) : ReadObservation :=
  MkObservation key value (digestValue value) source.

Definition serialBlockTxOverlay_get (key : string) (o : serialBlockTxOverlay)
    : serialBlockTxOverlay * string :=
  let value := match sb_writes o !! key with
               | Some v => v
               | None => default "" (sb_base o !! qualify (sb_shardID o) key)
               end in
  (MkSerialOverlay (sb_shardID o) (sb_base o)
     (sb_reads o ++ [observe key value "state_snapshot_overlay"]) (sb_writes o), value).

Definition serialBlockTxOverlay_set (key value : string) (o : serialBlockTxOverlay)
    : serialBlockTxOverlay :=
  MkSerialOverlay (sb_shardID o) (sb_base o) (sb_reads o) (<[key := value]> (sb_writes o)).

Definition txOverlay_get (key : string) (o : txOverlay) : txOverlay * string :=
  let '(value, source) :=
    match to_writes o !! key with
    | Some v => (v, "state_snapshot_overlay_local_write")
    | None => (default "" (to_base o !! qualify (to_shardID o) key), "state_snapshot_overlay")
    end in
  (MkTxOverlay (to_shardID o) (to_base o)
     (to_reads o ++ [observe key value source]) (to_writes o), value).

Definition txOverlay_set (key value : string) (o : txOverlay) : txOverlay :=
  MkTxOverlay (to_shardID o) (to_base o) (to_reads o) (<[key := value]> (to_writes o)).

#[global] Instance serialBlockTxOverlay_Overlay : Overlay serialBlockTxOverlay :=
  {| ov_get := serialBlockTxOverlay_get; ov_set := serialBlockTxOverlay_set;
     ov_writes := sb_writes |}.
#[global] Instance txOverlay_Overlay : Overlay txOverlay :=
  {| ov_get := txOverlay_get; ov_set := txOverlay_set; ov_writes := to_writes |}.

(** ** Plans *)

Record AccessSet := MkAccessSet { as_ReadKeys : list string; as_WriteKeys : list string }.

Record SerialPlan := MkSerialPlan {
  xp_EngineID : string;
  xp_EngineVersion : string;
  xp_BlockHash : string;
  xp_BlockHeight : N;
  xp_OrderedTransactionIDs : list string;
  xp_OriginalTransactionIdxs : list Z;
  xp_DeclaredAccessSetDigest : string;
  xp_DeclaredReadKeyCount : Z;
  xp_DeclaredWriteKeyCount : Z;
  xp_WorkerCount : Z;
  xp_PlanDigest : string;
}.

Definition SerialBlockExecutorID : string := "serial_block_executor".
Definition SerialBlockExecutorVersion : string := "1.0.0".

Definition sortedSet (values : gset string) : list string := sort_strings (elements values).

Definition access_keys (a : AccessItem) : gset string * gset string :=
  let k := {[ai_Key a]} in
  if ai_Mode a ≟ AccessRead then (k, ∅)
  else if ai_Mode a ≟ AccessWrite then (∅, k)
  else if (ai_Mode a ≟ AccessReadWrite) || (ai_Mode a ≟ AccessCommutativeDelta) then (k, k)
  else (∅, ∅).

Definition account_keys (item : SignedTransaction) : gset string :=
  {["balance:" +:+ Sender item; "nonce:" +:+ Sender item;
    "balance:" +:+ Receiver item; "nonce:" +:+ Receiver item]}.

Definition tx_keys (item : SignedTransaction) : gset string * gset string :=
  match AccessList item with
  | [] => let ks := list_to_set (StateKeys item) ∪ account_keys item in (ks, ks)
  | l => (⋃ ((λ a, (access_keys a).1) <$> l), ⋃ ((λ a, (access_keys a).2) <$> l))
  end.

Definition declaredAccessSet (txs : list SignedTransaction) : AccessSet :=
  MkAccessSet (sortedSet (⋃ ((λ t, (tx_keys t).1) <$> txs)))
              (sortedSet (⋃ ((λ t, (tx_keys t).2) <$> txs))).

Definition json_access_set (a : AccessSet) : json :=
  JObj (fld "read_keys" (JArr (JStr <$> as_ReadKeys a)) ++
        fld "write_keys" (JArr (JStr <$> as_WriteKeys a))).

Definition json_serial_plan (p : SerialPlan) : json :=
  JObj (fld "engine_id" (JStr (xp_EngineID p)) ++
        fld "engine_version" (JStr (xp_EngineVersion p)) ++
        fld "block_hash" (JStr (xp_BlockHash p)) ++
        fld "block_height" (JUint (xp_BlockHeight p)) ++
        fld "ordered_transaction_ids" (JArr (JStr <$> xp_OrderedTransactionIDs p)) ++
        fld "original_transaction_indexes" (JArr (JInt <$> xp_OriginalTransactionIdxs p)) ++
        fld "declared_access_set_digest" (JStr (xp_DeclaredAccessSetDigest p)) ++
        fld "declared_read_key_count" (JInt (xp_DeclaredReadKeyCount p)) ++
        fld "declared_write_key_count" (JInt (xp_DeclaredWriteKeyCount p)) ++
        fld "worker_count" (JInt (xp_WorkerCount p))).

Definition buildSerialPlan (b : Block) (declared : AccessSet) : SerialPlan :=
  let plan := MkSerialPlan SerialBlockExecutorID SerialBlockExecutorVersion (BlockHash b)
    (Height b) (TxID <$> TxList b) (Z.of_nat <$> seq 0 (length (TxList b)))
    (sha256_hex (marshal (json_access_set declared)))
    (Z.of_nat (length (as_ReadKeys declared))) (Z.of_nat (length (as_WriteKeys declared))) 1 in
  plan (sha256_hex (marshal (json_serial_plan (plan "")))).

(** ** Executing a block *)

Record StateUpdate := MkUpdate { su_Key : string; su_Value : string }.

(** Without the wall-clock fields, the constant flags ([deterministic_execution],
    [evm_execution], [fabric_execution]) and the Block-STM counters. *)
Record Result := MkResult {
  re_BlockHash : string;
  re_Height : N;
  re_StateRootBefore : string;
  re_StateRootAfter : string;
  re_ReceiptRoot : string;
  re_Receipts : list Receipt;
  re_StateUpdates : gmap string string;
  re_StateDelta : list StateUpdate;
  re_SuccessfulTxs : Z;
  re_FailedTxs : Z;
  re_BlockExecutorID : string;
  re_ExecutorVersion : string;
  re_WorkerCount : Z;
  re_Plan : option SerialPlan;
  re_PlanDigest : string;
  re_TxDeltas : list TxDelta;
  re_StateRootVersion : string;
  re_SerialEquivalent : bool;
}.

Definition stateDelta (before after : gmap string string) : list StateUpdate :=
  (λ key, MkUpdate key (default "" (after !! key))) <$>
  sorted_keys (map_keep (λ key value, default "" (before !! key) ≠? value) after).

(** The loops [for _, key := range keys] over a transaction's sorted writes. *)
Definition materialize (shardID : string) (writes working : gmap string string)
    : gmap string string :=
  foldl (λ w key, <[qualify shardID key := default "" (writes !! key)]> w) working
    (sorted_keys writes).

Definition commit_writes (shardID : string) (writes : gmap string string) (c : commitmentNode)
    : commitmentNode :=
  foldl (λ c key, commitmentSet c (qualify shardID key) (default "" (writes !! key))) c
    (sorted_keys writes).

Definition with_root (r : Receipt) (root : string) : Receipt :=
  MkReceipt (rc_TxID r) (rc_BlockHash r) (rc_Height r) (rc_Success r) (rc_Error r)
    (rc_ExecutionCost r) (rc_StateKeys r) root.

Definition delta_of (item : SignedTransaction) (index : Z) (reads : list ReadObservation)
    (writes : gmap string string) (receipt : Receipt) : TxDelta :=
  MkDelta (TxID item) index reads writes receipt (rc_Success receipt) (rc_Error receipt).

(** One turn of [ExecuteBlockWithCommitment]'s loop: the working state and the
    commitment after the transaction, and its delta. *)
Definition block_turn (initial : Z) (b : Block) (index : Z) (item : SignedTransaction)
    (wc : gmap string string * commitmentNode)
    : gmap string string * commitmentNode * TxDelta :=
  let '(working, commitment) := wc in
  let '(o, receipt) := interp (executeTxWithoutStateRoot initial b item)
                         (newSerialBlockTxOverlay (ShardID b) working) in
  let working := materialize (ShardID b) (sb_writes o) working in
  let commitment := commit_writes (ShardID b) (sb_writes o) commitment in
  let receipt := with_root receipt (CommitmentRoot (Some commitment)) in
  (working, commitment, delta_of item index (sb_reads o) (sb_writes o) receipt).

Fixpoint block_loop (initial : Z) (b : Block) (index : Z) (items : list SignedTransaction)
    (wc : gmap string string * commitmentNode)
    : gmap string string * commitmentNode * list TxDelta :=
  match items with
  | [] => (wc, [])
  | item :: rest =>
      let '(wc', delta) := block_turn initial b index item wc in
      let '(wc'', deltas) := block_loop initial b (index + 1) rest wc' in
      (wc'', delta :: deltas)
  end.

Definition count_success (deltas : list TxDelta) : Z :=
  Z.of_nat (length (filter (λ d, td_Success d = true) deltas)).
Definition count_failed (deltas : list TxDelta) : Z :=
  Z.of_nat (length (filter (λ d, td_Success d = false) deltas)).

Definition ExecuteBlockWithCommitment (initial : Z) (b : Block) (base : gmap string string)
    (baseCommitment : option commitmentNode) : Result :=
  let commitment := CloneOrBuild baseCommitment base in
  let declared := declaredAccessSet (TxList b) in
  let '(working, commitment', deltas) := block_loop initial b 0 (TxList b) (base, commitment) in
  let plan := buildSerialPlan b declared in
  MkResult (BlockHash b) (Height b) (CommitmentRoot (Some commitment))
    (CommitmentRoot (Some commitment')) (ReceiptRoot (td_Receipt <$> deltas))
    (td_Receipt <$> deltas) working (stateDelta base working)
    (count_success deltas) (count_failed deltas) SerialBlockExecutorID SerialBlockExecutorVersion 1
    (Some plan) (xp_PlanDigest plan) deltas CommitmentVersion false.

Definition ExecuteBlock (initial : Z) (b : Block) (base : gmap string string) : Result :=
  ExecuteBlockWithCommitment initial b base None.

(** [ExecuteBlockDeltas]: the same loop without roots. *)
Definition delta_turn (initial : Z) (b : Block) (index : Z) (item : SignedTransaction)
    (working : gmap string string) : gmap string string * TxDelta :=
  let '(o, receipt) := interp (executeTxWithoutStateRoot initial b item)
                         (newSerialBlockTxOverlay (ShardID b) working) in
  (materialize (ShardID b) (sb_writes o) working,
   delta_of item index (sb_reads o) (sb_writes o) receipt).

Fixpoint delta_loop (initial : Z) (b : Block) (index : Z) (items : list SignedTransaction)
    (working : gmap string string) : gmap string string * list TxDelta :=
  match items with
  | [] => (working, [])
  | item :: rest =>
      let '(working', delta) := delta_turn initial b index item working in
      let '(working'', deltas) := delta_loop initial b (index + 1) rest working' in
      (working'', delta :: deltas)
  end.

Definition ExecuteBlockDeltas (initial : Z) (b : Block) (base : gmap string string) : Result :=
  let '(_, deltas) := delta_loop initial b 0 (TxList b) base in
  MkResult (BlockHash b) (Height b) "" "" "" (td_Receipt <$> deltas) ∅ []
    (count_success deltas) (count_failed deltas) SerialBlockExecutorID SerialBlockExecutorVersion 1
    None "" deltas "" false.

(** One transaction against a snapshot, for the speculative executors. *)
Definition ExecuteTransaction (initial : Z) (b : Block) (item : SignedTransaction)
    (base : gmap string string) (originalIndex : Z) : Receipt * TxDelta :=
  let '(o, receipt) := interp (executeTxWithoutStateRoot initial b item)
                         (newTxOverlay (ShardID b) base) in
  (receipt, delta_of item originalIndex (to_reads o) (to_writes o) receipt).

Definition NewSerialExecutor : Z := 1000000.
