(* ===== verification/SerialProps.v ===== *)
(** * What the serial executor guarantees

    The laws an overlay keeps, that execution depends on nothing else, and the
    block-level consequences: roots, deltas, conservation of balances. *)
From S2P Require Import Prelude GoStd Tx Block StateRoot Serial.
Local Open Scope N_scope.
#[local] Opaque Sha256.sum256 sha256_hex Json.marshal.

(** ** The contract of an overlay *)

(** [ov_view o key] is what reading [key] gives; reads change neither it nor the
    writes, and a write changes both at its key only. *)
Class LawfulOverlay (Ov : Type) `{Overlay Ov} := {
  ov_view : Ov → string → string;
  ov_get_value key o : (ov_get key o).2 = ov_view o key;
  ov_get_view key o : ov_view (ov_get key o).1 = ov_view o;
  ov_get_writes key o : ov_writes (ov_get key o).1 = ov_writes o;
  ov_set_view key value o key' :
    ov_view (ov_set key value o) key' = if decide (key = key') then value else ov_view o key';
  ov_set_writes key value o : ov_writes (ov_set key value o) = <[key := value]> (ov_writes o);
}.

(** Two overlays that show and have written the same. *)
Definition same_overlay `{LawfulOverlay Ov1} `{LawfulOverlay Ov2} (o1 : Ov1) (o2 : Ov2) : Prop :=
  (∀ key, ov_view o1 key = ov_view o2 key) ∧ ov_writes o1 = ov_writes o2.

Lemma interp_same {A} `{LawfulOverlay Ov1} `{LawfulOverlay Ov2} (p : action A) :
  ∀ (o1 : Ov1) (o2 : Ov2), same_overlay o1 o2 →
    (interp p o1).2 = (interp p o2).2 ∧ same_overlay (interp p o1).1 (interp p o2).1.
Proof.
  induction p as [a|key next IH|key value next IH]; intros o1 o2 [V W]; simpl; [done|..].
  - pose proof (ov_get_value key o1) as E1. pose proof (ov_get_value key o2) as E2.
    pose proof (ov_get_view key o1) as V1. pose proof (ov_get_view key o2) as V2.
    pose proof (ov_get_writes key o1) as W1. pose proof (ov_get_writes key o2) as W2.
    destruct (ov_get key o1) as [o1' v1], (ov_get key o2) as [o2' v2]. simpl in *.
    rewrite E1, E2, V. apply IH. split; [intros k; by rewrite V1, V2|congruence].
  - apply IH. split; [|by rewrite !ov_set_writes, W].
    intros k. rewrite !ov_set_view. by case_decide.
Qed.

Lemma interp_bind {A B} `{Overlay Ov} (p : action A) (f : A → action B) : ∀ (o : Ov),
  interp (p ≫= f) o = interp (f (interp p o).2) (interp p o).1.
Proof.
  induction p as [a|key next IH|key value next IH]; intros o; simpl; [done|..].
  - destruct (ov_get key o) as [o' v]. apply IH.
  - apply IH.
Qed.

Definition serial_view (o : serialBlockTxOverlay) (key : string) : string :=
  match sb_writes o !! key with
  | Some v => v
  | None => default "" (sb_base o !! qualify (sb_shardID o) key)
  end.
Definition tx_view (o : txOverlay) (key : string) : string :=
  match to_writes o !! key with
  | Some v => v
  | None => default "" (to_base o !! qualify (to_shardID o) key)
  end.

(** The pure overlay: a read function and the writes so far. *)
Record store := MkStore { so_base : string → string; so_writes : gmap string string }.

Definition store_view (o : store) (key : string) : string :=
  match so_writes o !! key with Some v => v | None => so_base o key end.

#[global] Instance store_Overlay : Overlay store :=
  {| ov_get key o := (o, store_view o key);
     ov_set key value o := MkStore (so_base o) (<[key := value]> (so_writes o));
     ov_writes := so_writes |}.

Ltac overlay_laws view :=
  refine {| ov_view := view |};
  first [done
        |intros k v o k'; unfold view; simpl; rewrite lookup_insert; by case_decide
        |intros k o; simpl; unfold txOverlay_get, view; by destruct (to_writes o !! k)].

#[global] Instance serialBlockTxOverlay_lawful : LawfulOverlay serialBlockTxOverlay.
Proof. overlay_laws serial_view. Defined.
#[global] Instance txOverlay_lawful : LawfulOverlay txOverlay.
Proof. overlay_laws tx_view. Defined.
#[global] Instance store_lawful : LawfulOverlay store.
Proof. overlay_laws store_view. Defined.

(** ** One transaction on a plain state *)

(** The state as the transactions of a shard read it. *)
Definition shard_view (shardID : string) (st : gmap string string) (key : string) : string :=
  default "" (st !! qualify shardID key).

Definition tx_run (initial : Z) (b : Block) (item : SignedTransaction) (st : gmap string string)
    : store * Receipt :=
  interp (executeTxWithoutStateRoot initial b item) (MkStore (shard_view (ShardID b) st) ∅).

Definition tx_state (initial : Z) (b : Block) (item : SignedTransaction) (st : gmap string string)
    : gmap string string :=
  materialize (ShardID b) (so_writes (tx_run initial b item st).1) st.

Lemma serial_overlay_run initial b item st :
  let r := interp (executeTxWithoutStateRoot initial b item)
             (newSerialBlockTxOverlay (ShardID b) st) in
  r.2 = (tx_run initial b item st).2 ∧ sb_writes r.1 = so_writes (tx_run initial b item st).1.
Proof.
  intros r. destruct (interp_same (executeTxWithoutStateRoot initial b item)
    (newSerialBlockTxOverlay (ShardID b) st) (MkStore (shard_view (ShardID b) st) ∅)) as [E [_ W]];
    [by split|]. by split.
Qed.

Lemma tx_overlay_run initial b item st :
  let r := interp (executeTxWithoutStateRoot initial b item) (newTxOverlay (ShardID b) st) in
  r.2 = (tx_run initial b item st).2 ∧ to_writes r.1 = so_writes (tx_run initial b item st).1.
Proof.
  intros r. destruct (interp_same (executeTxWithoutStateRoot initial b item)
    (newTxOverlay (ShardID b) st) (MkStore (shard_view (ShardID b) st) ∅)) as [E [_ W]];
    [by split|]. by split.
Qed.

Lemma block_turn_eq initial b index item st c :
  ∃ reads, block_turn initial b index item (st, c) =
    let writes := so_writes (tx_run initial b item st).1 in
    let c' := commit_writes (ShardID b) writes c in
    (tx_state initial b item st, c',
     delta_of item index reads writes
       (with_root (tx_run initial b item st).2 (CommitmentRoot (Some c')))).
Proof.
  destruct (serial_overlay_run initial b item st) as [E W]. unfold block_turn, tx_state.
  destruct (interp _ (newSerialBlockTxOverlay _ _)) as [o r]. simpl in E, W.
  exists (sb_reads o). by rewrite E, W.
Qed.

#[local] Arguments block_turn : simpl never.
#[local] Arguments delta_turn : simpl never.
#[local] Arguments tx_run : simpl never.
#[local] Arguments tx_state : simpl never.

(** Applying writes whose keys do not clash with [key]. *)
Lemma shard_view_materialize shardID writes st key :
  (∀ k, is_Some (writes !! k) → qualify shardID k = qualify shardID key → k = key) →
  shard_view shardID (materialize shardID writes st) key =
    match writes !! key with Some v => v | None => shard_view shardID st key end.
Proof.
  intros Hk. unfold materialize.
  assert (∀ ks st, (∀ k, k ∈ ks → qualify shardID k = qualify shardID key → k = key) →
    shard_view shardID (foldl (λ w k, <[qualify shardID k := default "" (writes !! k)]> w) st ks) key =
    if decide (key ∈ ks) then default "" (writes !! key) else shard_view shardID st key) as H.
  { induction ks as [|k ks IH]; intros st' Hks; [done|]. simpl.
    rewrite IH by (intros k' Hk'; apply Hks; by right). unfold shard_view at 1. rewrite lookup_insert.
    destruct (decide (key = k)) as [->|Hne].
    - rewrite (decide_True (P := k ∈ k :: ks)) by left. rewrite (decide_True (P := qualify _ _ = _)) by done.
      by case_decide.
    - rewrite (decide_False (P := qualify _ _ = _)).
      + destruct (decide (key ∈ ks)); [rewrite decide_True by (by right)|rewrite decide_False by set_solver]; done.
      + intros E. apply Hne. symmetry. apply Hks; [left|done]. }
  rewrite H by (intros k ?%elem_of_sorted_keys; auto).
  case_decide as E; rewrite elem_of_sorted_keys in E.
  - by destruct E as [v ->].
  - by destruct (writes !! key) as [v|]; [destruct E|].
Qed.

(** ** Roots *)

Lemma commit_writes_represents shardID writes c st :
  represents c st → represents (commit_writes shardID writes c) (materialize shardID writes st).
Proof.
  unfold commit_writes, materialize. generalize (sorted_keys writes) as ks. intros ks. revert c st.
  induction ks as [|k ks IH]; intros c st R; simpl; [done|]. by apply IH, represents_set.
Qed.

Lemma represents_root c st : represents c st → CommitmentRoot (Some c) = Root st.
Proof. intros R. unfold Root. by rewrite (represents_unique _ _ _ R (represents_New st)). Qed.

(** The states after each transaction. *)
Fixpoint states (initial : Z) (b : Block) (items : list SignedTransaction)
    (st : gmap string string) : list (gmap string string) :=
  match items with
  | [] => []
  | item :: rest => let st' := tx_state initial b item st in st' :: states initial b rest st'
  end.

Definition final (initial : Z) (b : Block) (items : list SignedTransaction)
    (st : gmap string string) : gmap string string :=
  foldl (λ st item, tx_state initial b item st) st items.

Lemma block_loop_spec initial b items : ∀ index st c,
  represents c st →
  let r := block_loop initial b index items (st, c) in
  r.1.1 = final initial b items st ∧ represents r.1.2 r.1.1 ∧
  rc_StateRootAfterTx ∘ td_Receipt <$> r.2 = Root <$> states initial b items st.
Proof.
  induction items as [|item items IH]; intros index st c R; simpl; [done|].
  destruct (block_turn_eq initial b index item st c) as [reads ->]. cbv zeta iota.
  pose proof (commit_writes_represents (ShardID b) (so_writes (tx_run initial b item st).1) _ _ R) as R'.
  specialize (IH (index + 1)%Z _ _ R'). fold (tx_state initial b item st) in *.
  destruct (block_loop _ _ _ _ _) as [[w c'] ds]. simpl in *. destruct IH as (Hw & Rw & Ht).
  split_and!; [exact Hw|exact Rw|]. f_equal; [by apply represents_root|exact Ht].
Qed.

(** The roots a block execution reports. Whether the caller passes the
    commitment of the base state or leaves the executor to build it, the root
    before is the root of the base state, every receipt carries the root of the
    state after its transaction, and the root after is the root of the state the
    result holds. *)
Theorem block_roots (initial : Z) (b : Block) (base : gmap string string)
    (c : option commitmentNode) :
  c = None ∨ c = Some (NewCommitment base) →
  let r := ExecuteBlockWithCommitment initial b base c in
  re_StateRootBefore r = Root base ∧
  re_StateUpdates r = final initial b (TxList b) base ∧
  re_StateRootAfter r = Root (re_StateUpdates r) ∧
  rc_StateRootAfterTx <$> re_Receipts r = Root <$> states initial b (TxList b) base ∧
  re_ReceiptRoot r = ReceiptRoot (re_Receipts r).
Proof.
  intros Hc r. assert (CloneOrBuild c base = NewCommitment base) as E by (destruct Hc as [->| ->]; done).
  unfold r, ExecuteBlockWithCommitment. rewrite E.
  destruct (block_loop_spec initial b (TxList b) 0 base _ (represents_New base)) as (Hw & Hr & Ht).
  destruct (block_loop _ _ _ _ _) as [[w c'] ds]. simpl in *. split_and!; auto.
  - by apply represents_root.
  - by rewrite <- list_fmap_compose.
Qed.

(** ** What every transaction writes and returns *)

(** Every write satisfies [Q] and every result [P], whatever is read. *)
Fixpoint act_ok {A} (Q : string → string → Prop) (P : A → Prop) (p : action A) : Prop :=
  match p with
  | Ret a => P a
  | GetKey _ next => ∀ v, act_ok Q P (next v)
  | SetKey key value next => Q key value ∧ act_ok Q P next
  end.

Lemma act_ok_bind {A B} Q (P : A → Prop) (P' : B → Prop) (p : action A) (f : A → action B) :
  act_ok Q P p → (∀ a, P a → act_ok Q P' (f a)) → act_ok Q P' (p ≫= f).
Proof.
  intros Hp Hf. induction p as [a|key next IH|key value next IH]; simpl in *; [by apply Hf|..].
  - intros v. by apply IH.
  - destruct Hp. split; [done|]. by apply IH.
Qed.

Lemma act_ok_any {A B} Q (P' : B → Prop) (p : action A) (f : A → action B) :
  act_ok Q (λ _, True) p → (∀ a, act_ok Q P' (f a)) → act_ok Q P' (p ≫= f).
Proof. intros Hp Hf. by eapply act_ok_bind; [exact Hp|intros a _]. Qed.

Lemma act_ok_interp {A} `{LawfulOverlay Ov} Q (P : A → Prop) (p : action A) : ∀ (o : Ov),
  act_ok Q P p → (∀ k v, ov_writes o !! k = Some v → Q k v) →
  P (interp p o).2 ∧ ∀ k v, ov_writes (interp p o).1 !! k = Some v → Q k v.
Proof.
  induction p as [a|key next IH|key value next IH]; intros o Hp Hw; simpl in *; [done|..].
  - pose proof (ov_get_writes key o) as E. destruct (ov_get key o) as [o' v].
    apply IH; [done|]. simpl in E. by rewrite E.
  - destruct Hp as [Hq Hp]. apply IH; [done|]. intros k v. rewrite ov_set_writes.
    intros [[-> ->]|[_ ?]]%lookup_insert_Some; auto.
Qed.

Lemma hex_encode_length l : String.length (hex_encode l) = (2 * length l)%nat.
Proof. induction l as [|x l IH]; simpl; [done|]. rewrite IH. lia. Qed.

#[local] Transparent sha256_hex.
Lemma sha256_hex_nonempty s : sha256_hex s ≠ "".
Proof.
  unfold sha256_hex. intros E. apply (f_equal String.length) in E.
  rewrite hex_encode_length, length_sum256 in E. discriminate.
Qed.
#[local] Opaque sha256_hex.

(** No write is empty: a state never reads a written key as missing. *)
Definition filled (_ value : string) : Prop := value ≠ "".

Lemma ok_applyDeltas l : act_ok filled (λ _, True) (applyCommutativeDeltas l).
Proof.
  induction l as [|a l IH]; simpl; [done|]. case_match; [done|].
  intros v. split; [apply format_int_nonempty|done].
Qed.

Lemma ok_ensureAccount account balance : act_ok filled (λ _, True) (ensureAccount account balance).
Proof.
  simpl. intros v. case_match; simpl.
  - split; [apply format_int_nonempty|]. intros n. case_match; simpl; [|done].
    split; [apply format_uint_nonempty|done].
  - intros n. case_match; simpl; [|done]. split; [apply format_uint_nonempty|done].
Qed.

Lemma ok_direct item l : act_ok filled (λ _, True) (applyDirectAccess item l).
Proof.
  induction l as [|a l IH]; simpl; [done|]. apply act_ok_any; [|done]. unfold direct_access.
  repeat (case_match; [try done|]); simpl; auto using sha256_hex_nonempty.
  by apply (ok_applyDeltas [a]).
Qed.

Lemma ok_semantic_reads l : act_ok filled (λ _, True) (applyDeclaredSemanticReads l).
Proof.
  induction l as [|a l IH]; simpl; [done|]. apply act_ok_any; [|done]. by repeat case_match.
Qed.

Lemma ok_transfer initial item : act_ok filled (λ _, True) (transfer initial item).
Proof.
  unfold transfer. apply act_ok_any; [apply ok_ensureAccount|intros _].
  apply act_ok_any; [apply ok_ensureAccount|intros _]. unfold transfer_checked. simpl. intros n.
  repeat (case_match; [done|]). simpl. intros v. case_match; [done|]. simpl.
  split; [apply format_int_nonempty|]. intros w. split; [apply format_int_nonempty|].
  split; [apply format_uint_nonempty|]. apply act_ok_any; [apply ok_applyDeltas|done].
Qed.

Lemma ok_executeTx initial b item :
  act_ok filled (λ r, ∃ err, r = receipt_of b item err) (executeTxWithoutStateRoot initial b item).
Proof.
  unfold executeTxWithoutStateRoot. apply act_ok_any; [apply ok_semantic_reads|intros _].
  repeat case_match.
  - apply act_ok_any; [apply ok_applyDeltas|]. simpl. eauto.
  - simpl. split; [done|eauto].
  - apply act_ok_any; [apply ok_direct|]. simpl. eauto.
  - apply act_ok_any; [apply ok_transfer|]. simpl. eauto.
Qed.

Lemma tx_run_ok initial b item st :
  (∃ err, (tx_run initial b item st).2 = receipt_of b item err) ∧
  ∀ k v, so_writes (tx_run initial b item st).1 !! k = Some v → v ≠ "".
Proof.
  destruct (act_ok_interp filled _ _ (MkStore (shard_view (ShardID b) st) ∅)
    (ok_executeTx initial b item)) as [Hr Hw]; [|by split].
  intros k v H. simpl in H. by rewrite lookup_empty in H.
Qed.

(** ** Deltas *)

Definition without_root (d : TxDelta) : TxDelta :=
  MkDelta (td_TxID d) (td_OriginalIndex d) (td_ReadSet d) (td_WriteSet d)
    (with_root (td_Receipt d) "") (td_Success d) (td_Error d).

Lemma delta_loop_spec initial b items : ∀ index st c,
  (delta_loop initial b index items st).1 = (block_loop initial b index items (st, c)).1.1 ∧
  (delta_loop initial b index items st).2 =
    without_root <$> (block_loop initial b index items (st, c)).2.
Proof.
  induction items as [|item items IH]; intros index st c; simpl; [done|].
  unfold delta_turn, block_turn. destruct (serial_overlay_run initial b item st) as [E _].
  destruct (tx_run_ok initial b item st) as [[err Hr] _].
  destruct (interp _ (newSerialBlockTxOverlay _ _)) as [o r]. simpl in E. subst r. rewrite Hr.
  cbv zeta iota. set (c' := commit_writes _ _ _). set (st' := materialize _ _ _).
  destruct (IH (index + 1)%Z st' c') as [E1 E2]. clearbody st' c'.
  destruct (delta_loop _ _ _ _ _) as [w ds], (block_loop _ _ _ _ _) as [[w' c''] ds'].
  simpl in *. subst. done.
Qed.

Lemma count_without_root ds :
  count_success (without_root <$> ds) = count_success ds ∧
  count_failed (without_root <$> ds) = count_failed ds.
Proof.
  unfold count_success, count_failed. induction ds as [|d ds [IH1 IH2]]; [done|].
  rewrite !fmap_cons, !filter_cons. simpl. repeat case_decide; simpl; lia.
Qed.

Lemma length_block_loop initial b items : ∀ index wc,
  length (block_loop initial b index items wc).2 = length items.
Proof.
  induction items as [|item items IH]; intros index wc; simpl; [done|].
  destruct (block_turn _ _ _ _ _) as [wc' d]. specialize (IH (index + 1)%Z wc').
  destruct (block_loop _ _ _ _ _). simpl in *. lia.
Qed.

(** [ExecuteBlockDeltas] runs the same transactions with the same effects as
    [ExecuteBlockWithCommitment]: it returns the same deltas, read and write sets
    included, the same counts and the same receipts, only without state roots. *)
Theorem deltas_equivalent (initial : Z) (b : Block) (base : gmap string string)
    (c : option commitmentNode) :
  let full := ExecuteBlockWithCommitment initial b base c in
  let light := ExecuteBlockDeltas initial b base in
  re_TxDeltas light = without_root <$> re_TxDeltas full ∧
  re_Receipts light = (λ r, with_root r "") <$> re_Receipts full ∧
  re_SuccessfulTxs light = re_SuccessfulTxs full ∧ re_FailedTxs light = re_FailedTxs full ∧
  (re_SuccessfulTxs full + re_FailedTxs full = Z.of_nat (length (TxList b)))%Z.
Proof.
  intros full light. unfold full, light, ExecuteBlockWithCommitment, ExecuteBlockDeltas.
  destruct (delta_loop_spec initial b (TxList b) 0 base (CloneOrBuild c base)) as [_ E].
  destruct (delta_loop _ _ _ _ _) as [w ds]. simpl in E. subst ds.
  pose proof (length_block_loop initial b (TxList b) 0 (base, CloneOrBuild c base)) as El.
  destruct (block_loop _ _ _ _ _) as [[w' c'] ds]. simpl in *.
  destruct (count_without_root ds) as [-> ->]. split_and!; [done| |done|done|].
  - by rewrite <- !list_fmap_compose.
  - unfold count_success, count_failed. rewrite <- El.
    clear. induction ds as [|d ds IH]; [done|]. rewrite !filter_cons.
    destruct (td_Success d); simpl; lia.
Qed.

(** ** The state delta of a block *)

Lemma materialize_filled shardID writes : ∀ st key,
  (∀ k v, writes !! k = Some v → v ≠ "") →
  materialize shardID writes st !! key = st !! key ∨
  ∃ v, materialize shardID writes st !! key = Some v ∧ v ≠ "".
Proof.
  intros st key Hw. unfold materialize.
  assert (∀ k, k ∈ sorted_keys writes → default "" (writes !! k) ≠ "") as Hk.
  { intros k [v Hv]%elem_of_sorted_keys. rewrite Hv. by apply (Hw k). }
  revert Hk. generalize (sorted_keys writes) as ks. intros ks. revert st.
  induction ks as [|k ks IH]; intros st Hk; simpl; [by left|].
  destruct (IH (<[qualify shardID k := default "" (writes !! k)]> st)) as [->|?];
    [intros ? ?; apply Hk; by right| |by right].
  rewrite lookup_insert. case_decide; [right|by left]. eexists. split; [done|]. apply Hk. left.
Qed.

Lemma final_filled initial b items : ∀ st key,
  final initial b items st !! key = st !! key ∨
  ∃ v, final initial b items st !! key = Some v ∧ v ≠ "".
Proof.
  induction items as [|item items IH]; intros st key; [by left|].
  destruct (IH (tx_state initial b item st) key) as [E|?]; [|by right].
  change (final initial b (item :: items) st) with (final initial b items (tx_state initial b item st)).
  rewrite E. apply materialize_filled, tx_run_ok.
Qed.

Lemma foldl_updates ks (f : string → string) (st : gmap string string) :
  foldl (λ st u, <[su_Key u := su_Value u]> st) st ((λ k, MkUpdate k (f k)) <$> ks) =
  foldl (λ st k, <[k := f k]> st) st ks.
Proof. revert st. induction ks as [|k ks IH]; intros st; simpl; [done|]. apply IH. Qed.

(** the state delta is exact. Applying a block's [StateDelta] to the base
    state gives the state after the block, entry for entry, and the delta lists
    only keys whose value changed, each once and in order. *)
Theorem state_delta_exact (initial : Z) (b : Block) (base : gmap string string) :
  let r := ExecuteBlock initial b base in
  foldl (λ st u, <[su_Key u := su_Value u]> st) base (re_StateDelta r) = re_StateUpdates r ∧
  NoDup (su_Key <$> re_StateDelta r) ∧ StronglySorted String.le (su_Key <$> re_StateDelta r) ∧
  ∀ u, u ∈ re_StateDelta r → default "" (base !! su_Key u) ≠ su_Value u.
Proof.
  intros r.
  destruct (block_loop_spec initial b (TxList b) 0 base _ (represents_New base)) as (Hw & _ & _).
  assert (re_StateDelta r = stateDelta base (re_StateUpdates r) ∧
          re_StateUpdates r = final initial b (TxList b) base) as [-> ->].
  { unfold r, ExecuteBlock, ExecuteBlockWithCommitment. simpl.
    destruct (block_loop _ _ _ _ _) as [[w c'] ds]. by simpl in *; subst. }
  pose proof (final_filled initial b (TxList b) base) as F. revert F.
  generalize (final initial b (TxList b) base) as after. intros after F. unfold stateDelta.
  set (changed := map_keep _ _). split_and!.
  - apply map_eq. intros key. rewrite foldl_updates, foldl_inserts.
    case_decide as D; rewrite elem_of_sorted_keys in D; unfold changed in D;
      rewrite lookup_map_keep in D.
    + destruct D as [v D]. destruct (after !! key); [done|discriminate D].
    + destruct (after !! key) as [v|] eqn:Ea; simpl in D.
      * case_bool_decide as Ev; simpl in D; [|by destruct D].
        destruct (F key) as [E|(w & E & Hne)]; [congruence|].
        destruct (base !! key) as [w'|]; simpl in Ev; congruence.
      * destruct (F key) as [E|(w & E & Hne)]; congruence.
  - rewrite <- list_fmap_compose. rewrite (list_fmap_ext _ id); [|done]. rewrite list_fmap_id.
    apply NoDup_sorted_keys.
  - rewrite <- list_fmap_compose. rewrite (list_fmap_ext _ id); [|done]. rewrite list_fmap_id.
    apply sort_strings_sorted.
  - intros u (k & -> & [v Hk]%elem_of_sorted_keys)%list_elem_of_fmap. simpl.
    unfold changed in Hk. apply lookup_map_keep_Some in Hk as [-> Hk]. simpl.
    by case_bool_decide.
Qed.

(** ** Speculative execution *)

Lemma ExecuteTransaction_run initial b item st index :
  (ExecuteTransaction initial b item st index).1 = (tx_run initial b item st).2 ∧
  td_WriteSet (ExecuteTransaction initial b item st index).2 =
    so_writes (tx_run initial b item st).1.
Proof.
  unfold ExecuteTransaction. destruct (tx_overlay_run initial b item st) as [E W].
  destruct (interp _ (newTxOverlay _ _)) as [o r]. by simpl in *; subst.
Qed.

Lemma block_loop_receipt initial b items : ∀ index st c i item,
  items !! i = Some item →
  ∃ d, (block_loop initial b index items (st, c)).2 !! i = Some d ∧
    with_root (td_Receipt d) "" = (tx_run initial b item (final initial b (take i items) st)).2 ∧
    td_WriteSet d = so_writes (tx_run initial b item (final initial b (take i items) st)).1.
Proof.
  induction items as [|it items IH]; intros index st c i item Hi; [done|]. simpl.
  destruct (block_turn_eq initial b index it st c) as [reads ->]. cbv zeta iota.
  specialize (IH (index + 1)%Z (tx_state initial b it st)
    (commit_writes (ShardID b) (so_writes (tx_run initial b it st).1) c)).
  destruct (block_loop _ _ _ _ _) as [wc ds]. destruct i as [|i]; simplify_eq/=.
  - eexists. split; [done|]. simpl. by destruct (tx_run_ok initial b item st) as [[err ->] _].
  - by apply IH.
Qed.

(** speculation agrees with serial execution. Running [ExecuteTransaction] on
    the state the earlier transactions left, and applying its write set, gives
    transaction by transaction the receipts (without roots) and at the end the
    state of the serial block execution. *)
Theorem speculation_is_serial (initial : Z) (b : Block) (base : gmap string string) :
  let after := foldl (λ st item,
    materialize (ShardID b) (td_WriteSet (ExecuteTransaction initial b item st 0).2) st) in
  re_StateUpdates (ExecuteBlock initial b base) = after base (TxList b) ∧
  ∀ i item, TxList b !! i = Some item →
    ∃ r, re_Receipts (ExecuteBlock initial b base) !! i = Some r ∧
      with_root r "" = (ExecuteTransaction initial b item (after base (take i (TxList b))) 0).1.
Proof.
  intros after.
  assert (∀ items st, after st items = final initial b items st) as Ha.
  { induction items as [|item items IH]; intros st; [done|]. simpl. rewrite IH.
    by rewrite (proj2 (ExecuteTransaction_run initial b item st 0)). }
  unfold ExecuteBlock, ExecuteBlockWithCommitment. simpl.
  destruct (block_loop_spec initial b (TxList b) 0 base _ (represents_New base)) as (Hw & _ & _).
  pose proof (block_loop_receipt initial b (TxList b) 0 base (NewCommitment base)) as Hd.
  destruct (block_loop _ _ _ _ _) as [[w c'] ds]. simpl in *. split; [by rewrite Ha|].
  intros i item Hi. destruct (Hd i item Hi) as (d & Hl & Hr & _).
  exists (td_Receipt d). rewrite list_lookup_fmap, Hl. split; [done|].
  by rewrite Hr, Ha, (proj1 (ExecuteTransaction_run _ _ _ _ _)).
Qed.

Definition rebase (base : gmap string string) (o : txOverlay) : txOverlay :=
  MkTxOverlay (to_shardID o) base (to_reads o) (to_writes o).

Lemma reads_grow {A} (p : action A) : ∀ (o : txOverlay), to_reads o ⊆ to_reads (interp p o).1.
Proof.
  induction p as [a|key next IH|key value next IH]; intros o; simpl; [done| |exact (IH (txOverlay_set key value o))].
  unfold txOverlay_get. destruct (to_writes o !! key); simpl;
    (etrans; [|apply IH]; simpl; set_solver).
Qed.

Lemma interp_rebase {A} (p : action A) base : ∀ (o : txOverlay),
  (∀ ro, ro ∈ to_reads (interp p o).1 →
    shard_view (to_shardID o) base (ro_Key ro) = shard_view (to_shardID o) (to_base o) (ro_Key ro)) →
  interp p (rebase base o) = (rebase base (interp p o).1, (interp p o).2).
Proof.
  induction p as [a|key next IH|key value next IH]; intros o Hr; simpl in *;
    [done| |by rewrite <- (IH (txOverlay_set key value o))].
  unfold txOverlay_get in *. simpl. destruct (to_writes o !! key) as [v|] eqn:Ew.
  - by rewrite <- IH.
  - assert (shard_view (to_shardID o) base key = shard_view (to_shardID o) (to_base o) key) as E.
    { specialize (Hr (observe key (shard_view (to_shardID o) (to_base o) key)
        "state_snapshot_overlay")). apply Hr, reads_grow. simpl. set_solver. }
    unfold shard_view in E. rewrite E. by rewrite <- IH.
Qed.

Lemma ExecuteTransaction_reads initial b item base1 base2 index :
  (∀ ro, ro ∈ td_ReadSet (ExecuteTransaction initial b item base1 index).2 →
     shard_view (ShardID b) base2 (ro_Key ro) = shard_view (ShardID b) base1 (ro_Key ro)) →
  ExecuteTransaction initial b item base2 index = ExecuteTransaction initial b item base1 index.
Proof.
  intros H. unfold ExecuteTransaction in *.
  pose proof (interp_rebase (executeTxWithoutStateRoot initial b item) base2
    (newTxOverlay (ShardID b) base1)) as E.
  destruct (interp _ (newTxOverlay (ShardID b) base1)) as [o rc]. simpl in *.
  unfold newTxOverlay at 1. unfold rebase in E at 1. simpl in E. by rewrite E.
Qed.

(** a transaction is a function of what it read. If two snapshots agree on
    the keys of the read set [ExecuteTransaction] reports for one of them, it
    returns the same receipt and the same delta for both: checking the read set
    is enough to know that a speculative result still holds. *)
Theorem reads_determine_result (initial : Z) (b : Block) (item : SignedTransaction)
    (base1 base2 : gmap string string) (index : Z) :
  let r := ExecuteTransaction initial b item base1 index in
  (∀ ro, ro ∈ td_ReadSet r.2 →
     shard_view (ShardID b) base2 (ro_Key ro) = shard_view (ShardID b) base1 (ro_Key ro)) →
  ExecuteTransaction initial b item base2 index = r.
Proof.
  intros r H. by apply ExecuteTransaction_reads.
Qed.

(** ** A sample *)

Definition sample_transfer (sender receiver : string) (nonce : N) (value : Z) : SignedTransaction :=
  MkTx ("tx-" +:+ sender +:+ format_uint nonce) "" sender receiver nonce value ["acct:" +:+ sender]
    [] "" "" "" [] "" "" "" "" 0 "" "" "" "" None.

Definition sample_state : gmap string string :=
  {["s0::balance:alice" := "100"; "s0::nonce:alice" := "0"]}.

Definition sample_block (items : list SignedTransaction) : Block :=
  MkBlock "h1" "s0" 1 "h0" "n0" 0 (Some (TxID <$> items)) items "" "" "" "" "" false false [] None None.

Lemma block_roots_witness :
  let b := sample_block [sample_transfer "alice" "bob" 0 30] in
  re_StateRootBefore (ExecuteBlockWithCommitment 1000 b sample_state
    (Some (NewCommitment sample_state))) = Root sample_state.
Proof.
  intros b.
  by destruct (block_roots 1000 b sample_state (Some (NewCommitment sample_state)) (or_intror eq_refl)).
Defined.

(** A balance nobody read does not matter. *)
Lemma reads_determine_result_witness :
  let b := sample_block [] in
  let item := sample_transfer "alice" "bob" 0 30 in
  let base2 := <["s0::balance:carol" := "7"]> sample_state in
  ExecuteTransaction 1000 b item base2 0 = ExecuteTransaction 1000 b item sample_state 0.
Proof.
  intros b item base2. apply (reads_determine_result 1000 b item sample_state base2 0).
  assert (forallb (λ ro, shard_view "s0" base2 (ro_Key ro) ≟ shard_view "s0" sample_state (ro_Key ro))
    (td_ReadSet (ExecuteTransaction 1000 b item sample_state 0).2) = true) as H
    by (vm_compute; reflexivity).
  intros ro Hro. exact (bool_decide_eq_true_1 _ (forallb_elem _ _ ro H Hro)).
Defined.
