(* ===== verification/Footprint.v ===== *)
(** * The keys a transaction can touch

    Every program of the serial executor reads and writes only the accounts of its
    transaction, its relay marker and the keys of its access list. The executors
    that detect conflicts on keys build on it. *)
From S2P Require Import Prelude GoStd Tx Block StateRoot Serial SerialProps.
Local Open Scope N_scope.
#[local] Opaque Sha256.sum256 sha256_hex Json.marshal.

(** ** What a transaction touches *)

(** Every key the program reads or writes satisfies [K], whatever it reads. *)
Fixpoint keys_ok {A} (K : string → Prop) (p : action A) : Prop :=
  match p with
  | Ret _ => True
  | GetKey key next => K key ∧ ∀ v, keys_ok K (next v)
  | SetKey key _ next => K key ∧ keys_ok K next
  end.

Lemma keys_ok_bind {A B} K (p : action A) (f : A → action B) :
  keys_ok K p → (∀ a, keys_ok K (f a)) → keys_ok K (p ≫= f).
Proof.
  intros Hp Hf. induction p as [a|key next IH|key value next IH]; simpl in *; [apply Hf|..].
  - destruct Hp. split; [done|]. intros v. by apply IH.
  - destruct Hp. split; [done|]. by apply IH.
Qed.

(** The keys a transaction can touch. *)
Definition touched (item : SignedTransaction) : list string :=
  ["balance:" +:+ Sender item; "nonce:" +:+ Sender item; "balance:" +:+ Receiver item;
   "nonce:" +:+ Receiver item; "relay_commit:" +:+ TxID item] ++ (ai_Key <$> AccessList item).

Section keys.
Context (K : string → Prop).

Lemma keys_deltas l :
  (∀ a, a ∈ l → ai_Key a ≠ "" → K (ai_Key a)) → keys_ok K (applyCommutativeDeltas l).
Proof.
  induction l as [|a l IH]; intros H; simpl; [done|].
  assert (keys_ok K (applyCommutativeDeltas l)) as Hl by (apply IH; intros x Hx; apply H; by right).
  case_match eqn:E; [done|]. apply orb_false_iff in E as [_ E]. apply bool_decide_eq_false in E.
  assert (K (ai_Key a)) by (apply H; [left|done]). simpl. auto.
Qed.

Lemma keys_direct item l :
  (∀ a, a ∈ l → ai_Key a ≠ "" → K (ai_Key a)) → keys_ok K (applyDirectAccess item l).
Proof.
  induction l as [|a l IH]; intros H; simpl; [done|].
  apply keys_ok_bind; [|intros _; apply IH; intros x Hx; apply H; by right].
  unfold direct_access. case_bool_decide as E; [done|].
  assert (K (ai_Key a)) by (apply H; [left|done]).
  assert (keys_ok K (applyCommutativeDeltas [a])).
  { apply (keys_deltas [a]). intros x Hx%list_elem_of_singleton. by subst. }
  by repeat (case_match; simpl; auto).
Qed.

Lemma keys_semantic l :
  (∀ a, a ∈ l → ai_Key a ≠ "" → K (ai_Key a)) → keys_ok K (applyDeclaredSemanticReads l).
Proof.
  induction l as [|a l IH]; intros H; simpl; [done|].
  apply keys_ok_bind; [|intros _; apply IH; intros x Hx; apply H; by right].
  case_match eqn:E; [done|]. apply orb_false_iff in E as [_ E]. apply bool_decide_eq_false in E.
  case_match; [|done]. simpl. split; [|done]. apply H; [left|done].
Qed.

Lemma program_keys_ensure account balance :
  K ("balance:" +:+ account) → K ("nonce:" +:+ account) → keys_ok K (ensureAccount account balance).
Proof.
  intros Hb Hn. simpl. split; [done|]. intros v. case_match; simpl.
  - split_and!; [done..|]. intros w. by case_match; simpl.
  - split_and!; [done..|]. intros w. by case_match; simpl.
Qed.

Lemma program_keys_transfer initial item :
  (∀ k, k ∈ touched item → k ≠ "" → K k) → keys_ok K (transfer initial item).
Proof.
  intros H. unfold transfer.
  assert (K ("balance:" +:+ Sender item) ∧ K ("nonce:" +:+ Sender item) ∧
          K ("balance:" +:+ Receiver item) ∧ K ("nonce:" +:+ Receiver item)) as (H1 & H2 & H3 & H4).
  { split_and!; apply H; try done; unfold touched; set_solver. }
  apply keys_ok_bind; [by apply program_keys_ensure|intros _].
  apply keys_ok_bind; [by apply program_keys_ensure|intros _]. unfold transfer_checked. simpl.
  split; [done|]. intros n. repeat (case_match; [done|]). simpl. split; [done|]. intros v.
  case_match; [done|]. simpl. split_and!; [done..|]. intros w. split_and!; [done..|].
  apply keys_ok_bind; [|done]. apply keys_deltas. intros a Ha Hne. apply H; [|done].
  unfold touched. apply elem_of_app. right. by apply list_elem_of_fmap_2.
Qed.

Lemma keys_executeTx initial b item :
  (∀ k, k ∈ touched item → k ≠ "" → K k) → keys_ok K (executeTxWithoutStateRoot initial b item).
Proof.
  intros H. assert (∀ a, a ∈ AccessList item → ai_Key a ≠ "" → K (ai_Key a)) as Ha.
  { intros a Hin Hne. apply H; [|done]. apply elem_of_app. right. by apply list_elem_of_fmap_2. }
  unfold executeTxWithoutStateRoot. apply keys_ok_bind; [by apply keys_semantic|intros _].
  repeat case_match.
  - apply keys_ok_bind; [by apply keys_deltas|done].
  - simpl. split; [|done]. apply H; [|done]. unfold touched. set_solver.
  - apply keys_ok_bind; [by apply keys_direct|done].
  - apply keys_ok_bind; [by apply program_keys_transfer|done].
Qed.
End keys.

(** What an execution has read and written are keys of its program. *)
Lemma keys_ok_interp {A} K (p : action A) : ∀ (o : txOverlay),
  keys_ok K p →
  (∀ ro, ro ∈ to_reads o → K (ro_Key ro)) → (∀ k, is_Some (to_writes o !! k) → K k) →
  (∀ ro, ro ∈ to_reads (interp p o).1 → K (ro_Key ro)) ∧
  (∀ k, is_Some (to_writes (interp p o).1 !! k) → K k).
Proof.
  induction p as [a|key next IH|key value next IH]; intros o Hp Hr Hw; simpl in *; [done|..].
  - destruct Hp as [Hk Hp]. unfold txOverlay_get. destruct (to_writes o !! key);
      (apply IH; [done| |done]); simpl; intros ro [?|E%list_elem_of_singleton]%elem_of_app; subst; auto.
  - destruct Hp as [Hk Hp].
    apply (IH (txOverlay_set key value o)); [done|done|]. simpl. intros k.
    rewrite lookup_insert. case_decide; subst; auto.
Qed.

Lemma ExecuteTransaction_keys initial b item st index :
  (∀ ro, ro ∈ td_ReadSet (ExecuteTransaction initial b item st index).2 →
     ro_Key ro ∈ touched item ∧ ro_Key ro ≠ "") ∧
  (∀ k, is_Some (td_WriteSet (ExecuteTransaction initial b item st index).2 !! k) →
     k ∈ touched item ∧ k ≠ "").
Proof.
  unfold ExecuteTransaction.
  pose proof (keys_ok_interp (λ k, k ∈ touched item ∧ k ≠ "") _ (newTxOverlay (ShardID b) st)
    (keys_executeTx (λ k, k ∈ touched item ∧ k ≠ "") initial b item ltac:(done))) as H.
  destruct (interp _ _) as [o r]. simpl in *. apply H.
  - intros ro. by rewrite elem_of_nil.
  - intros k. rewrite lookup_empty. by intros [].
Qed.

(** No two keys a block's transactions can touch name the same cell of the state:
    none of them is another one qualified with the block's shard. *)
Definition block_keys (b : Block) : list string :=
  filter (λ k, k ≠ "") (mjoin (touched <$> TxList b)).

Definition unaliased (b : Block) : bool :=
  forallb (λ k1, forallb (λ k2,
    (qualify (ShardID b) k1 ≠? qualify (ShardID b) k2) || (k1 ≟ k2)) (block_keys b)) (block_keys b).

Lemma unaliased_inj b k1 k2 :
  unaliased b = true → k1 ∈ block_keys b → k2 ∈ block_keys b →
  qualify (ShardID b) k1 = qualify (ShardID b) k2 → k1 = k2.
Proof.
  intros Ha H1 H2 E. pose proof (forallb_elem _ _ _ (forallb_elem _ _ _ Ha H1) H2) as H.
  simpl in H. rewrite E in H. apply orb_true_iff in H as [H|H].
  - apply negb_true_iff, bool_decide_eq_false in H. done.
  - by apply bool_decide_eq_true in H.
Qed.

Lemma block_keys_touched b item k :
  item ∈ TxList b → k ∈ touched item → k ≠ "" → k ∈ block_keys b.
Proof.
  intros Hi Hk Hne. unfold block_keys. apply list_elem_of_filter. split; [done|].
  apply list_elem_of_join. exists (touched item). split; [done|]. by apply list_elem_of_fmap_2.
Qed.
