(* ===== verification/Ledger.v ===== *)
(** * Balances and nonces under serial execution

    Plain transfers move balances between accounts: nothing is lost, nothing
    overflows, nothing goes negative, and only the first appearance of a sender
    adds to the supply. *)
From S2P Require Import Prelude GoStd Tx Block StateRoot Serial SerialProps.
Local Open Scope N_scope.
#[local] Opaque Sha256.sum256 sha256_hex Json.marshal.
#[local] Arguments tx_run : simpl never.
#[local] Arguments tx_state : simpl never.

Definition bk (account : string) : string := "balance:" +:+ account.
Definition nk (account : string) : string := "nonce:" +:+ account.

#[global] Instance bk_inj : Inj (=) (=) bk.
Proof. intros x y H. unfold bk in H. simpl in H. by simplify_eq. Qed.
#[global] Instance nk_inj : Inj (=) (=) nk.
Proof. intros x y H. unfold nk in H. simpl in H. by simplify_eq. Qed.
Lemma bk_nk x y : bk x ≠ nk y.
Proof. unfold bk, nk. discriminate. Qed.




(** ** Sums *)






(** ** The ledger an overlay shows *)

Section ledger.
Context (accounts : list string) (Hnd : NoDup accounts).


Lemma view_set key value (o : store) key' :
  store_view (ov_set key value o) key' = if decide (key = key') then value else store_view o key'.
Proof. unfold store_view. simpl. rewrite lookup_insert. by case_decide. Qed.






Lemma no_deltas l :
  forallb (λ a, ai_Mode a ≠? AccessCommutativeDelta) l = true → applyCommutativeDeltas l = mret ().
Proof.
  induction l as [|a l IH]; simpl; [done|]. intros [Ha Hl]%andb_true_iff. rewrite Ha. by apply IH.
Qed.



End ledger.

(** ** A transfer inside a block *)

(** A transaction that [executeTxWithoutStateRoot] treats as a plain transfer and
    that declares no commutative deltas. *)
Definition is_transfer (b : Block) (item : SignedTransaction) : bool :=
  negb (isPureCommutativeDelta (AccessList item)) &&
  negb (isCrossShardTargetCommit item (ShardID b)) &&
  negb (isDirectAccessTransaction item) &&
  forallb (λ a, ai_Mode a ≠? AccessCommutativeDelta) (AccessList item).

Lemma semantic_reads_store l (o : store) : interp (applyDeclaredSemanticReads l) o = (o, ()).
Proof.
  induction l as [|a l IH]; [done|]. simpl. rewrite interp_bind.
  by repeat case_match; simpl; rewrite ?IH.
Qed.

Lemma tx_run_transfer initial b item st :
  is_transfer b item = true →
  let o := MkStore (shard_view (ShardID b) st) ∅ in
  (tx_run initial b item st).1 = (interp (transfer initial item) o).1 ∧
  (tx_run initial b item st).2 = receipt_of b item (interp (transfer initial item) o).2.
Proof.
  unfold is_transfer. rewrite !andb_true_iff, !negb_true_iff. intros [[[Hp Hc] Hd] _].
  unfold tx_run, executeTxWithoutStateRoot. rewrite interp_bind, semantic_reads_store. cbn [fst snd].
  rewrite Hp, Hc, Hd, interp_bind. done.
Qed.

(** Keys of an account that live in the shard's own name space. *)
Definition local (account : string) : bool :=
  negb (str_contains (bk account) "::") && negb (str_contains (nk account) "::").

Definition transfer_keys (item : SignedTransaction) : gset string :=
  {[bk (Sender item); nk (Sender item); bk (Receiver item); nk (Receiver item)]}.

Lemma keys_ensure account z (K : gset string) :
  bk account ∈ K → nk account ∈ K →
  act_ok (λ k v, k ∈ K ∧ v ≠ "") (λ _, True) (ensureAccount account z).
Proof.
  intros Hb Hn. simpl. intros v. pose proof (format_int_nonempty z) as Hi.
  pose proof (format_uint_nonempty 0) as Hu. case_match; simpl.
  - split; [done|]. intros n. by case_match.
  - intros n. by case_match.
Qed.

Lemma keys_transfer_checked item :
  forallb (λ a, ai_Mode a ≠? AccessCommutativeDelta) (AccessList item) = true →
  act_ok (λ k v, k ∈ transfer_keys item ∧ v ≠ "") (λ _, True) (transfer_checked item).
Proof.
  intros Hd. unfold transfer_checked. rewrite no_deltas by done.
  assert (bk (Sender item) ∈ transfer_keys item ∧ bk (Receiver item) ∈ transfer_keys item ∧
          nk (Sender item) ∈ transfer_keys item) as (?&?&?) by set_solver.
  simpl. intros n. repeat (case_match; [done|]). simpl. intros v. case_match; [done|]. simpl.
  split_and!; auto using format_int_nonempty. intros w.
  split_and!; auto using format_int_nonempty, format_uint_nonempty.
Qed.

Lemma keys_transfer initial item :
  forallb (λ a, ai_Mode a ≠? AccessCommutativeDelta) (AccessList item) = true →
  act_ok (λ k v, k ∈ transfer_keys item ∧ v ≠ "") (λ _, True) (transfer initial item).
Proof.
  intros Hd. unfold transfer. apply act_ok_any; [apply keys_ensure; set_solver|intros _].
  apply act_ok_any; [apply keys_ensure; set_solver|intros _]. by apply keys_transfer_checked.
Qed.


Lemma qualify_local shardID k1 k2 :
  str_contains k1 "::" = false → str_contains k2 "::" = false →
  qualify shardID k1 = qualify shardID k2 → k1 = k2.
Proof. unfold qualify. intros -> -> H. by do 2 apply (inj (String.append _)) in H. Qed.

Lemma interp_base {A} (p : action A) : ∀ o : store, so_base (interp p o).1 = so_base o.
Proof.
  induction p as [a|k next IH|k value next IH]; intros o; simpl; [done|apply IH|].
  exact (IH (ov_set k value o)).
Qed.

(** The view of the state after a transfer is the view of its overlay. *)
Lemma view_after_transfer initial b item st account :
  is_transfer b item = true → local (Sender item) = true → local (Receiver item) = true →
  local account = true →
  let o := (interp (transfer initial item) (MkStore (shard_view (ShardID b) st) ∅)).1 in
  shard_view (ShardID b) (tx_state initial b item st) (bk account) = store_view o (bk account) ∧
  shard_view (ShardID b) (tx_state initial b item st) (nk account) = store_view o (nk account).
Proof.
  intros Ht Hs Hr Ha o. unfold local in Hs, Hr, Ha. rewrite !andb_true_iff, !negb_true_iff in *.
  destruct Hs as [Hs1 Hs2], Hr as [Hr1 Hr2], Ha as [Ha1 Ha2].
  unfold tx_state. rewrite (proj1 (tx_run_transfer initial b item st Ht)). fold o.
  assert (∀ k, is_Some (so_writes o !! k) → str_contains k "::" = false) as Hk.
  { intros k [v Hv]. unfold is_transfer in Ht. apply andb_true_iff in Ht as [_ Hd].
    destruct (act_ok_interp _ _ _ (MkStore (shard_view (ShardID b) st) ∅)
      (keys_transfer initial item Hd)) as [_ Hw].
    { intros k' v' H. simpl in H. by rewrite lookup_empty in H. }
    destruct (Hw k v Hv) as [Hin _]. unfold transfer_keys in Hin.
    rewrite !elem_of_union, !elem_of_singleton in Hin. naive_solver. }
  rewrite !shard_view_materialize by (intros k Hw; apply qualify_local; auto). unfold store_view.
  by replace (so_base o) with (shard_view (ShardID b) st) by (symmetry; apply interp_base).
Qed.



(** ** Conservation over a block *)








(** ** Nonces *)

Definition nonce_of (f : string → string) (account : string) : N := atou64 (f (nk account)).

Lemma view_insert base w key value key' :
  store_view (MkStore base (<[key := value]> w)) key' =
  if decide (key = key') then value else store_view (MkStore base w) key'.
Proof. unfold store_view. simpl. rewrite lookup_insert. by case_decide. Qed.

Lemma store_eta (o : store) : MkStore (so_base o) (so_writes o) = o.
Proof. by destruct o. Qed.

Lemma nonce_set_balance a value (o : store) x :
  nonce_of (store_view (ov_set (bk a) value o)) x = nonce_of (store_view o) x.
Proof.
  unfold nonce_of. rewrite view_set, decide_False; [done|]. apply bk_nk.
Qed.

Lemma nonce_set_nonce a n (o : store) x :
  n <= max_uint64 →
  nonce_of (store_view (ov_set (nk a) (format_uint n) o)) x =
  if decide (x = a) then n else nonce_of (store_view o) x.
Proof.
  intros Hn. unfold nonce_of. rewrite view_set. destruct (decide (x = a)) as [->|Hx].
  - rewrite decide_True by done. by apply atou64_format_uint.
  - rewrite decide_False; [done|]. by intros ?%(inj nk).
Qed.

Lemma nonce_ensure a z (o : store) x :
  nonce_of (store_view (interp (ensureAccount a z) o).1) x = nonce_of (store_view o) x.
Proof.
  assert (∀ o' : store, nonce_of (store_view (interp (n ← get (nk a);
    if n ≟ "" then setNonce a 0 else mret ()) o').1) x = nonce_of (store_view o') x) as Hn.
  { intros o'. simpl. case_bool_decide as E; simpl; [|done].
    etrans; [exact (nonce_set_nonce a 0 o' x (N.le_0_l _))|]. case_decide as Ex; [|done].
    subst. unfold nonce_of. by rewrite E. }
  unfold ensureAccount. rewrite interp_bind. cbn [interp ov_get store_Overlay get fst snd].
  fold (bk a) (nk a). case_bool_decide; simpl.
  - etrans; [exact (Hn (ov_set (bk a) (format_int z) o))|]. apply nonce_set_balance.
  - apply Hn.
Qed.

Lemma u64_add_range a b : u64_add a b <= max_uint64.
Proof.
  unfold u64_add, max_uint64, two64. pose proof (N.mod_upper_bound (a + b) (2 ^ 64)). lia.
Qed.

(** A transfer succeeds only with the sender's nonce and then moves it on; a
    failed one leaves every nonce as it was. *)
Definition nonce_effect (item : SignedTransaction) (f : string → string) (err : string)
    (f' : string → string) : Prop :=
  (err = "" → Nonce item = nonce_of f (Sender item)) ∧
  ∀ a, nonce_of f' a =
    if decide (err = "" ∧ a = Sender item) then u64_add (Nonce item) 1 else nonce_of f a.

Lemma nonce_effect_failed item f err : err ≠ "" → nonce_effect item f err f.
Proof. intros He. split; [done|]. intros a. rewrite decide_False; [done|]. by intros [? _]. Qed.

Lemma transfer_checked_nonce item (o : store) :
  forallb (λ a, ai_Mode a ≠? AccessCommutativeDelta) (AccessList item) = true →
  let r := interp (transfer_checked item) o in
  nonce_effect item (store_view o) r.2 (store_view r.1).
Proof.
  intros Hd r. unfold r, transfer_checked. clear r. rewrite no_deltas by done. simpl.
  fold (nk (Sender item)). case_bool_decide as En; simpl; [|by apply nonce_effect_failed].
  case_match; simpl; [by apply nonce_effect_failed|].
  case_match; simpl; [by apply nonce_effect_failed|]. split; [intros _; exact En|].
  intros a. etrans; [exact (nonce_set_nonce (Sender item) (u64_add (Nonce item) 1)
    (ov_set (bk (Receiver item)) _ (ov_set (bk (Sender item)) _ o)) a (u64_add_range _ _))|].
  rewrite !nonce_set_balance. repeat case_decide; naive_solver.
Qed.

Lemma transfer_nonce initial item (o : store) :
  forallb (λ a, ai_Mode a ≠? AccessCommutativeDelta) (AccessList item) = true →
  let r := interp (transfer initial item) o in
  nonce_effect item (store_view o) r.2 (store_view r.1).
Proof.
  intros Hd r. unfold r, transfer. clear r. rewrite !interp_bind.
  assert (∀ a, nonce_of (store_view (interp (ensureAccount (Receiver item) 0)
    (interp (ensureAccount (Sender item) initial) o).1).1) a = nonce_of (store_view o) a) as E
    by (intros a; by rewrite !nonce_ensure).
  set (o2 := (interp (ensureAccount (Receiver item) 0) _).1) in *. clearbody o2.
  destruct (transfer_checked_nonce item o2 Hd) as [H1 H2].
  split; [intros He; by rewrite (H1 He)|]. intros a. by rewrite H2, E.
Qed.

Lemma nonce_after_transfer initial b item st account :
  is_transfer b item = true → local (Sender item) = true → local (Receiver item) = true →
  local account = true →
  let f := shard_view (ShardID b) st in
  let f' := shard_view (ShardID b) (tx_state initial b item st) in
  if rc_Success (tx_run initial b item st).2 && bool_decide (account = Sender item)
  then Nonce item = nonce_of f account ∧ nonce_of f' account = u64_add (Nonce item) 1
  else nonce_of f' account = nonce_of f account.
Proof.
  intros Ht Hs Hr Ha f f'. set (o := MkStore f ∅).
  destruct (view_after_transfer initial b item st account Ht Hs Hr Ha) as [_ Ev].
  destruct (tx_run_transfer initial b item st Ht) as [_ ->].
  pose proof Ht as Hd. unfold is_transfer in Hd. apply andb_true_iff in Hd as [_ Hd].
  destruct (transfer_nonce initial item o Hd) as [H1 H2]. specialize (H2 account).
  assert (nonce_of f' account = nonce_of (store_view (interp (transfer initial item) o).1) account)
    as -> by exact (f_equal atou64 Ev).
  change (nonce_of (store_view o)) with (nonce_of f) in *. rewrite H2. clear H2 Ev.
  cbn [receipt_of rc_Success]. fold f o. set (err := (interp (transfer initial item) o).2) in *.
  clearbody err. repeat case_bool_decide; cbn [andb]; case_decide; naive_solver.
Qed.

(** The nonces of a sender's successful transactions, in block order. *)
Definition executed_nonces (sender : string) (items : list SignedTransaction)
    (receipts : list Receipt) : list N :=
  omap (λ '(t, r), if rc_Success r && bool_decide (sender = Sender t) then Some (Nonce t) else None)
    (zip items receipts).

Definition transfer_local (b : Block) (item : SignedTransaction) : bool :=
  is_transfer b item && local (Sender item) && local (Receiver item).

Lemma loop_nonces initial b sender items : ∀ index st c,
  Forall (λ t, transfer_local b t = true) items → local sender = true →
  ∃ k, executed_nonces sender items
      (td_Receipt <$> (block_loop initial b index items (st, c)).2) =
    count_from (nonce_of (shard_view (ShardID b) st) sender) k.
Proof.
  induction items as [|t items IH]; intros index st c Hok Hs; [by exists O|].
  inversion Hok as [|? ? H1 Hok']; subst. unfold transfer_local in H1.
  rewrite !andb_true_iff in H1. destruct H1 as [[Ht Hts] Htr]. cbn [block_loop].
  destruct (block_turn_eq initial b index t st c) as [reads ->]. cbv zeta iota.
  destruct (IH (index + 1)%Z (tx_state initial b t st)
    (commit_writes (ShardID b) (so_writes (tx_run initial b t st).1) c) Hok' Hs) as [k Hk].
  destruct (block_loop _ _ _ _ _) as [wc ds]. cbn in *. unfold executed_nonces in *. cbn in *.
  pose proof (nonce_after_transfer initial b t st sender Ht Hts Htr Hs) as E. cbv zeta in E.
  destruct (rc_Success _ && _); cbn.
  - destruct E as [-> E]. exists (S k). cbn. rewrite Hk, E. done.
  - exists k. by rewrite Hk, E.
Qed.

(** no replay. In a block of plain transfers the successful transactions of a
    sender carry consecutive nonces that start at the sender's nonce in the base
    state: none is skipped, repeated or executed out of order. *)
Theorem block_nonces_consecutive (initial : Z) (b : Block) (base : gmap string string)
    (sender : string) :
  Forall (λ t, transfer_local b t = true) (TxList b) → local sender = true →
  let nonces := executed_nonces sender (TxList b) (re_Receipts (ExecuteBlock initial b base)) in
  nonces = count_from (nonce_of (shard_view (ShardID b) base) sender) (length nonces).
Proof.
  intros Hok Hs nonces.
  destruct (loop_nonces initial b sender (TxList b) 0 base (NewCommitment base) Hok Hs) as [k Hk].
  assert (nonces = count_from (nonce_of (shard_view (ShardID b) base) sender) k) as ->.
  { rewrite <- Hk. unfold nonces, ExecuteBlock, ExecuteBlockWithCommitment. simpl.
    by destruct (block_loop _ _ _ _ _) as [[w c'] ds]. }
  by rewrite length_count_from.
Qed.

(** ** A sample: bob spends what he received, carol is new and pays alice *)

Definition sample_items : list SignedTransaction :=
  [sample_transfer "alice" "bob" 0 30; sample_transfer "bob" "alice" 0 10;
   sample_transfer "carol" "alice" 0 1; sample_transfer "alice" "bob" 0 30].


Lemma block_nonces_consecutive_witness :
  let b := sample_block sample_items in
  let nonces := executed_nonces "alice" sample_items
    (re_Receipts (ExecuteBlock 1000 b sample_state)) in
  nonces = count_from 0 (length nonces).
Proof.
  intros b. apply (block_nonces_consecutive 1000 b sample_state "alice"); [|reflexivity].
  repeat constructor.
Defined.
