(* ===== verification/StateDB.v ===== *)
(** * The state database ([executor/realism/state/db.go])

    The values of a shard with their commitment, batches with compare-and-set,
    and persistence: a write-ahead log of block deltas, snapshots, and the load
    that rebuilds the values after a restart.

    The data directory is a [disk]. A line of a log file is what it decodes to
    ([None] when [json.Unmarshal] refuses it) and its length in bytes; a write
    cut short by a crash leaves a torn tail, and text appended to a torn tail
    ends up on the same line, which does not decode. Reads and writes that the
    operating system refuses are left out, as are the time measurements. *)
From S2P Require Import Prelude GoStd Tx Block StateRoot Serial.
Import Json.
Local Open Scope N_scope.

Record StateKV := MkKV {
  kv_Key : string;
  kv_Value : string;
  kv_TxIDs : list string;
  kv_UpdateSemantics : string;
  kv_Delta : Z;
  kv_BaseValue : string;
  kv_BaseValueDigest : string;
  kv_ApplyOrigin : string;
  kv_DeltaKind : string;
  kv_HasInitialValue : bool;
  kv_InitialValue : Z;
  kv_DeltaID : string;
  kv_BlockHeight : N;
  kv_RoutingOrdinal : N;
  kv_PreviousVersion : N;
  kv_ProducedVersion : N;
  kv_OrderingNoop : bool;
}.

Record CASMismatchError := MkCAS {
  ca_Key : string;
  ca_ExpectedDigest : string;
  ca_ActualDigest : string;
  ca_DeltaID : string;
  ca_TxIDs : list string;
  ca_BlockHeight : N;
}.

Record DB := MkDB {
  db_namespace : string;
  db_values : gmap string string;
  db_commitment : option commitmentNode;
  db_walSinceSync : Z;
  db_walGeneration : Z;
  db_lastHeight : N;
  db_lastBlockHash : string;
}.

#[global] Instance DB_eta : Eta DB := λ d,
  MkDB (db_namespace d) (db_values d) (db_commitment d) (db_walSinceSync d) (db_walGeneration d)
    (db_lastHeight d) (db_lastBlockHash d).
Definition set_values (v : gmap string string) (d : DB) : DB :=
  ltac:(set_field (db_values) v d).
Definition set_commitment (v : option commitmentNode) (d : DB) : DB :=
  ltac:(set_field (db_commitment) v d).
Definition set_walSinceSync (v : Z) (d : DB) : DB := ltac:(set_field (db_walSinceSync) v d).
Definition set_walGeneration (v : Z) (d : DB) : DB := ltac:(set_field (db_walGeneration) v d).
Definition set_lastHeight (v : N) (d : DB) : DB := ltac:(set_field (db_lastHeight) v d).
Definition set_lastBlockHash (v : string) (d : DB) : DB := ltac:(set_field (db_lastBlockHash) v d).

(** ** Values *)

Definition NewDB (namespace : string) : DB :=
  MkDB (if namespace ≟ "" then "s0" else namespace) ∅ (Some (NewCommitment ∅)) 0 1 0 "".

Definition db_key (d : DB) (key : string) : string := qualify (db_namespace d) key.

Definition Get (d : DB) (key : string) : string := default "" (db_values d !! db_key d key).

(** Both [values] and the commitment, which is updated in place: nil stays nil. *)
Definition put (key value : string) (d : DB) : DB :=
  set_commitment (CommitmentSet (db_commitment d) key value)
    (set_values (<[key := value]> (db_values d)) d).

Definition Set_ (key value : string) (d : DB) : DB := put (db_key d key) value d.

(** [range updates] in the order the list gives. *)
Definition ApplyBatch (updates : list (string * string)) (d : DB) : DB :=
  foldl (λ d kv, Set_ kv.1 kv.2 d) d updates.

Definition stateValueDigest (value : string) : string := sha256_hex value.

(** The value an update leaves at its key; [inl] refuses it, [inr None] leaves
    the entry alone. *)
Definition applyStateKV (values : gmap string string) (key : string) (item : StateKV)
    : CASMismatchError + option string :=
  let current := default "" (values !! key) in
  if kv_OrderingNoop item then inr None
  else if kv_UpdateSemantics item ≟ "commutative_delta" then
    let base := if (current ≟ "") && kv_HasInitialValue item then kv_InitialValue item
                else atoi64 current in
    inr (Some (format_int (i64_add base (kv_Delta item))))
  else if (kv_ProducedVersion item ≟ 0) && (kv_BaseValueDigest item ≠? "") &&
          (stateValueDigest current ≠? kv_BaseValueDigest item)
  then inl (MkCAS key (kv_BaseValueDigest item) (stateValueDigest current) (kv_DeltaID item)
              (kv_TxIDs item) (kv_BlockHeight item))
  else inr (Some (kv_Value item)).

Definition write_value (key : string) (v : option string) (values : gmap string string)
    : gmap string string :=
  match v with Some v => <[key := v]> values | None => values end.

(** The updates before a refused one stay applied. *)
Fixpoint ApplyDeterministicBatch (updates : list StateKV) (d : DB) : DB * option CASMismatchError :=
  match updates with
  | [] => (d, None)
  | item :: rest =>
      let key := db_key d (kv_Key item) in
      match applyStateKV (db_values d) key item with
      | inl e => (d, Some e)
      | inr v =>
          let d := set_values (write_value key v (db_values d)) d in
          let d := set_commitment
            (CommitmentSet (db_commitment d) key (default "" (db_values d !! key))) d in
          ApplyDeterministicBatch rest d
      end
  end.

Definition ensure_commitment (d : DB) : DB :=
  match db_commitment d with
  | Some _ => d
  | None => set_commitment (Some (NewCommitment (db_values d))) d
  end.

Definition SnapshotWithCommitment (d : DB) : DB * (gmap string string * option commitmentNode) :=
  let d := ensure_commitment d in (d, (db_values d, db_commitment d)).

Definition Restore (snapshot : gmap string string) (d : DB) : DB :=
  set_commitment (Some (NewCommitment snapshot)) (set_values snapshot d).

Definition DBRoot (d : DB) : DB * string :=
  let d := ensure_commitment d in (d, CommitmentRoot (db_commitment d)).

Definition Balance (d : DB) (account : string) : Z :=
  let value := Get d ("balance:" +:+ account) in if value ≟ "" then 0 else atoi64 value.
Definition SetBalance (account : string) (balance : Z) (d : DB) : DB :=
  Set_ ("balance:" +:+ account) (format_int balance) d.
Definition DBNonce (d : DB) (account : string) : N :=
  let value := Get d ("nonce:" +:+ account) in if value ≟ "" then 0 else atou64 value.
Definition SetNonce (account : string) (nonce : N) (d : DB) : DB :=
  Set_ ("nonce:" +:+ account) (format_uint nonce) d.

(** ** The write-ahead log *)

Record walRecord := MkRecord {
  wr_Version : string;
  wr_Namespace : string;
  wr_BlockHeight : N;
  wr_BlockHash : string;
  wr_ParentHash : string;
  wr_DeltaID : string;
  wr_StateUpdates : list StateKV;
  wr_StateRootBefore : string;
  wr_StateRootAfter : string;
  wr_StateRootVersion : string;
  wr_Checksum : string;
}.

Definition json_kv (k : StateKV) : json :=
  JObj (fld "key" (JStr (kv_Key k)) ++ fld "value" (JStr (kv_Value k)) ++
        opt_arr "tx_ids" (JStr <$> kv_TxIDs k) ++
        opt_str "update_semantics" (kv_UpdateSemantics k) ++ opt_int "delta" (kv_Delta k) ++
        opt_str "base_value" (kv_BaseValue k) ++
        opt_str "base_value_digest" (kv_BaseValueDigest k) ++
        opt_str "apply_origin" (kv_ApplyOrigin k) ++ opt_str "delta_kind" (kv_DeltaKind k) ++
        opt_bool "has_initial_value" (kv_HasInitialValue k) ++
        fld "initial_value" (JInt (kv_InitialValue k)) ++ opt_str "delta_id" (kv_DeltaID k) ++
        opt_uint "block_height" (kv_BlockHeight k) ++
        opt_uint "routing_ordinal" (kv_RoutingOrdinal k) ++
        opt_uint "previous_version" (kv_PreviousVersion k) ++
        opt_uint "produced_version" (kv_ProducedVersion k) ++
        opt_bool "ordering_noop" (kv_OrderingNoop k)).

Definition json_record (r : walRecord) : json :=
  JObj (fld "version" (JStr (wr_Version r)) ++ fld "namespace" (JStr (wr_Namespace r)) ++
        fld "block_height" (JUint (wr_BlockHeight r)) ++
        fld "block_hash" (JStr (wr_BlockHash r)) ++ fld "parent_hash" (JStr (wr_ParentHash r)) ++
        fld "delta_id" (JStr (wr_DeltaID r)) ++
        fld "state_updates" (arr_copy (json_kv <$> wr_StateUpdates r)) ++
        fld "state_root_before" (JStr (wr_StateRootBefore r)) ++
        fld "state_root_after" (JStr (wr_StateRootAfter r)) ++
        opt_str "state_root_version" (wr_StateRootVersion r) ++
        fld "checksum" (JStr (wr_Checksum r))).

Definition with_checksum (r : walRecord) (sum : string) : walRecord :=
  MkRecord (wr_Version r) (wr_Namespace r) (wr_BlockHeight r) (wr_BlockHash r) (wr_ParentHash r)
    (wr_DeltaID r) (wr_StateUpdates r) (wr_StateRootBefore r) (wr_StateRootAfter r)
    (wr_StateRootVersion r) sum.

Definition walChecksum (r : walRecord) : string := sha256_hex (marshal (json_record (with_checksum r ""))).

Record wal_line := MkLine { ln_length : N; ln_record : option walRecord }.
(** Complete lines, and the length of a torn tail when there is one. *)
Record wal_file := MkWal { wf_lines : list wal_line; wf_torn : option N }.

Record SnapshotMetadata := MkSnapMeta {
  sm_Version : string;
  sm_Namespace : string;
  sm_IncludedHeight : N;
  sm_IncludedBlockHash : string;
  sm_StateRoot : string;
  sm_StateRootVersion : string;
  sm_WALGeneration : Z;
}.
Definition zero_meta : SnapshotMetadata := MkSnapMeta "" "" 0 "" "" "" 0.

Record WALManifest := MkManifest {
  wm_Version : string;
  wm_Namespace : string;
  wm_ActiveGeneration : Z;
}.
Definition zero_manifest : WALManifest := MkManifest "" "" 0.

(** The files of the data directory: [None] is a missing file. The commit markers
    are written by the block store; their block hashes are what is read here. *)
Record disk := MkDisk {
  dk_snapshot : option (gmap string string);
  dk_meta : option SnapshotMetadata;
  dk_manifest : option WALManifest;
  dk_wals : gmap Z wal_file;
  dk_legacy : option wal_file;
  dk_markers : list string;
}.

#[global] Instance disk_eta : Eta disk := λ k,
  MkDisk (dk_snapshot k) (dk_meta k) (dk_manifest k) (dk_wals k) (dk_legacy k) (dk_markers k).
Definition put_snapshot (v : gmap string string) (k : disk) : disk :=
  ltac:(set_field (dk_snapshot) (Some v) k).
Definition put_meta (v : SnapshotMetadata) (k : disk) : disk := ltac:(set_field (dk_meta) (Some v) k).
Definition put_manifest (v : WALManifest) (k : disk) : disk :=
  ltac:(set_field (dk_manifest) (Some v) k).
Definition put_wals (v : gmap Z wal_file) (k : disk) : disk := ltac:(set_field (dk_wals) v k).
Definition put_markers (v : list string) (k : disk) : disk := ltac:(set_field (dk_markers) v k).

Definition empty_wal : wal_file := MkWal [] None.

(** [walPath]: generations below one share the first file. *)
Definition wal_generation (generation : Z) : Z := if (generation <=? 0)%Z then 1 else generation.

Definition encoded_length (r : walRecord) : N :=
  N.of_nat (String.length (marshal (json_record r))).

(** Appending a record and its line feed to a file. *)
Definition append_line (r : walRecord) (f : wal_file) : wal_file :=
  match wf_torn f with
  | None => MkWal (wf_lines f ++ [MkLine (encoded_length r) (Some r)]) None
  | Some torn => MkWal (wf_lines f ++ [MkLine (torn + encoded_length r) None]) None
  end.

Record PersistenceOptions := MkOptions {
  op_DurabilityMode : string;
  op_FSyncCadence : Z;
  op_SnapshotCadence : Z;
}.
Definition DefaultPersistenceOptions : PersistenceOptions := MkOptions "strict" 1 128.

Definition writeWALManifest (d : DB) (generation : Z) (k : disk) : disk :=
  put_manifest (MkManifest "state_wal_manifest_v1" (db_namespace d) generation) k.

Definition valid_manifest (d : DB) (m : WALManifest) : bool :=
  (wm_Version m ≟ "state_wal_manifest_v1") && (wm_Namespace m ≟ db_namespace d).

(** The database, the directory and whether the file was synced. *)
Definition appendWAL (record : walRecord) (opts : PersistenceOptions) (d : DB) (k : disk)
    : DB * disk * bool :=
  let d :=
    if (db_walGeneration d <=? 0)%Z then
      match dk_manifest k with
      | Some m => if valid_manifest d m && (0 <? wm_ActiveGeneration m)%Z
                  then set_walGeneration (wm_ActiveGeneration m) d else set_walGeneration 1 d
      | None => set_walGeneration 1 d
      end
    else d in
  let k := match dk_manifest k with
           | Some _ => k
           | None => writeWALManifest d (db_walGeneration d) k
           end in
  let g := wal_generation (db_walGeneration d) in
  let k := put_wals (<[g := append_line record (default empty_wal (dk_wals k !! g))]> (dk_wals k)) k in
  let since := (db_walSinceSync d + 1)%Z in
  let sync := (op_DurabilityMode opts ≟ "strict") ||
              ((op_DurabilityMode opts ≟ "batched") && (op_FSyncCadence opts <=? since)%Z) in
  (set_walSinceSync (if sync then 0 else since) d, k, sync).

Record DeltaMetadata := MkDeltaMeta {
  dm_BlockHeight : N;
  dm_BlockHash : string;
  dm_ParentHash : string;
  dm_DeltaID : string;
  dm_StateRootBefore : string;
  dm_StateRootAfter : string;
}.

Definition delta_record (d : DB) (meta : DeltaMetadata) (updates : list StateKV) : walRecord :=
  let id := if dm_DeltaID meta ≟ ""
            then db_namespace d +:+ ":" +:+ format_uint (dm_BlockHeight meta) +:+ ":" +:+ dm_BlockHash meta
            else dm_DeltaID meta in
  let r := MkRecord "state_delta_wal_v1" (db_namespace d) (dm_BlockHeight meta) (dm_BlockHash meta)
             (dm_ParentHash meta) id updates (dm_StateRootBefore meta) (dm_StateRootAfter meta)
             CommitmentVersion "" in
  with_checksum r (walChecksum r).

Definition PersistDelta (meta : DeltaMetadata) (updates : list StateKV) (opts : PersistenceOptions)
    (d : DB) (k : disk) : DB * disk * bool :=
  let opts := MkOptions (if op_DurabilityMode opts ≟ "" then "strict" else op_DurabilityMode opts)
                (if (op_FSyncCadence opts <=? 0)%Z then 1 else op_FSyncCadence opts)
                (op_SnapshotCadence opts) in
  let '(d, k, sync) := appendWAL (delta_record d meta updates) opts d k in
  (set_lastBlockHash (dm_BlockHash meta) (set_lastHeight (dm_BlockHeight meta) d), k, sync).

(** [SnapshotIfDue], file by file in the order they are published. *)
Definition snapshot_due (blockHeight : N) (opts : PersistenceOptions) : bool :=
  (0 <? op_SnapshotCadence opts)%Z && (blockHeight ≠? 0) &&
  (blockHeight mod Z.to_N (op_SnapshotCadence opts) ≟ 0).

Definition snapshot_meta (d : DB) (blockHeight : N) : SnapshotMetadata :=
  MkSnapMeta "state_snapshot_metadata_v1" (db_namespace d) blockHeight (db_lastBlockHash d)
    (DBRoot d).2 CommitmentVersion (db_walGeneration d).

Definition SnapshotIfDue (blockHeight : N) (opts : PersistenceOptions) (d : DB) (k : disk)
    : DB * disk :=
  if negb (snapshot_due blockHeight opts) then (d, k)
  else
  let k := put_snapshot (db_values d) k in
  let d := set_walGeneration (db_walGeneration d + 1) d in
  let k := put_meta (snapshot_meta d blockHeight) k in
  let d := ensure_commitment d in
  let k := writeWALManifest d (db_walGeneration d) k in
  let g := wal_generation (db_walGeneration d) in
  (d, put_wals {[g := empty_wal]} k).

(** ** Loading *)

Inductive load_error :=
  | BadMetadata | BadManifest | UnsupportedSnapshotRoot | SnapshotRootMismatch
  | LineTooLong | WalUndecodable (line : Z) | WalInvalid (line : Z) | WalChecksum (line : Z)
  | WalHeightGap (got after : N) | WalParentMismatch (height : N)
  | WalUnsupportedRoot (height : N) | WalRootBeforeMismatch (height : N)
  | WalApplyFailed (height : N) (e : CASMismatchError) | WalRootAfterMismatch (height : N).

(** [bufio.Scanner] gives up on a line that does not fit its 64 KiB buffer; the
    text after the last line feed is a line too. *)
Definition max_scan_token : N := 65536.
Definition scan_lines (f : wal_file) : list wal_line :=
  wf_lines f ++ match wf_torn f with Some n => [MkLine n None] | None => [] end.
Definition readWALLines (f : wal_file) : load_error + list wal_line :=
  if forallb (λ l, ln_length l <? max_scan_token) (scan_lines f) then inr (scan_lines f)
  else inl LineTooLong.

Fixpoint applyStateKVs (values : gmap string string) (updates : list StateKV) (namespace : string)
    : CASMismatchError + gmap string string :=
  match updates with
  | [] => inr values
  | item :: rest =>
      let key := qualify namespace (kv_Key item) in
      match applyStateKV values key item with
      | inl e => inl e
      | inr v => applyStateKVs (write_value key v values) rest namespace
      end
  end.

(** What the replay carries from record to record. *)
Record cursor := MkCursor {
  cu_values : gmap string string;
  cu_applied : gset string;
  cu_lastHeight : N;
  cu_lastHash : string;
}.

Definition root_version (version : string) : string :=
  if version ≟ "" then LegacyCommitmentVersion else version.

(** The checks on a record that is to be applied, and its application. *)
Definition apply_record (namespace : string) (r : walRecord) (c : cursor) : load_error + cursor :=
  let h := wr_BlockHeight r in
  let version := root_version (wr_StateRootVersion r) in
  let before := RootForVersion (cu_values c) version in
  if (cu_lastHeight c ≠? 0) && (h ≠? u64_add (cu_lastHeight c) 1)
  then inl (WalHeightGap h (cu_lastHeight c))
  else if (cu_lastHash c ≠? "") && (wr_ParentHash r ≠? cu_lastHash c) then inl (WalParentMismatch h)
  else if before ≟ "" then inl (WalUnsupportedRoot h)
  else if (wr_StateRootBefore r ≠? "") && (before ≠? wr_StateRootBefore r)
  then inl (WalRootBeforeMismatch h)
  else match applyStateKVs (cu_values c) (wr_StateUpdates r) namespace with
  | inl e => inl (WalApplyFailed h e)
  | inr values =>
      if (wr_StateRootAfter r ≠? "") && (RootForVersion values version ≠? wr_StateRootAfter r)
      then inl (WalRootAfterMismatch h)
      else inr (MkCursor values ({[wr_DeltaID r]} ∪ cu_applied c) h (wr_BlockHash r))
  end.

(** The lines of one file; a last line that does not decode ends the file. *)
Fixpoint replay_lines (namespace : string) (included : N) (committed : gset string) (line : Z)
    (lines : list wal_line) (c : cursor) : load_error + cursor :=
  match lines with
  | [] => inr c
  | l :: rest =>
      match ln_record l with
      | None => match rest with [] => inr c | _ => inl (WalUndecodable line) end
      | Some r =>
          if (wr_Version r ≠? "state_delta_wal_v1") || (wr_Namespace r ≠? namespace)
          then inl (WalInvalid line)
          else if wr_Checksum r ≠? walChecksum r then inl (WalChecksum line)
          else if (wr_BlockHeight r <=? included) || bool_decide (wr_BlockHash r ∉ committed) ||
                  bool_decide (wr_DeltaID r ∈ cu_applied c)
          then replay_lines namespace included committed (line + 1) rest c
          else match apply_record namespace r c with
          | inl e => inl e
          | inr c' => replay_lines namespace included committed (line + 1) rest c'
          end
      end
  end.

Fixpoint replay_files (namespace : string) (included : N) (committed : gset string)
    (files : list wal_file) (c : cursor) : load_error + cursor :=
  match files with
  | [] => inr c
  | f :: rest =>
      match readWALLines f with
      | inl e => inl e
      | inr lines =>
          match replay_lines namespace included committed 1 lines c with
          | inl e => inl e
          | inr c' => replay_files namespace included committed rest c'
          end
      end
  end.

Definition segment_le (a b : Z * wal_file) : Prop := (a.1 <= b.1)%Z.
#[global] Instance segment_le_dec a b : Decision (segment_le a b).
Proof. unfold segment_le. apply _. Defined.

(** [walSegmentPaths]: by generation, the file without one first. *)
Definition walSegmentPaths (k : disk) : list wal_file :=
  option_list (dk_legacy k) ++
  (snd <$> merge_sort segment_le (map_to_list (dk_wals k))).

Definition replayWAL (d : DB) (k : disk) (values : gmap string string) (meta : SnapshotMetadata)
    : load_error + gmap string string :=
  let committed := list_to_set (dk_markers k) in
  if size (committed : gset string) ≟ O then inr values
  else match replay_files (db_namespace d) (sm_IncludedHeight meta) committed (walSegmentPaths k)
               (MkCursor values ∅ (sm_IncludedHeight meta) (sm_IncludedBlockHash meta)) with
  | inl e => inl e
  | inr c => inr (cu_values c)
  end.

Definition loadSnapshotMetadata (d : DB) (k : disk) : load_error + SnapshotMetadata :=
  match dk_meta k with
  | None => inr zero_meta
  | Some m => if (sm_Version m ≠? "state_snapshot_metadata_v1") ||
                 (sm_Namespace m ≠? db_namespace d)
              then inl BadMetadata else inr m
  end.

Definition loadWALManifest (d : DB) (k : disk) : load_error + WALManifest :=
  match dk_manifest k with
  | None => inr zero_manifest
  | Some m => if valid_manifest d m then inr m else inl BadManifest
  end.

Definition check_snapshot (values : gmap string string) (meta : SnapshotMetadata)
    : option load_error :=
  let got := RootForVersion values (root_version (sm_StateRootVersion meta)) in
  if got ≟ "" then Some UnsupportedSnapshotRoot
  else if (sm_StateRoot meta ≠? "") && (got ≠? sm_StateRoot meta) then Some SnapshotRootMismatch
  else None.

Definition Load (d : DB) (k : disk) : load_error + DB :=
  meta ← loadSnapshotMetadata d k;
  manifest ← loadWALManifest d k;
  let checked := bool_decide (is_Some (dk_snapshot k)) && (sm_Version meta ≠? "") in
  let values := default ∅ (dk_snapshot k) in
  match (if checked then check_snapshot values meta else None) with
  | Some e => inl e
  | None =>
      let g := if (0 <? wm_ActiveGeneration manifest)%Z then wm_ActiveGeneration manifest
               else if checked then sm_WALGeneration meta else db_walGeneration d in
      values' ← replayWAL d k values meta;
      inr (set_commitment (Some (NewCommitment values'))
             (set_values values' (set_walGeneration g d)))
  end.

Definition Open (namespace : string) (k : disk) : load_error + DB := Load (NewDB namespace) k.
