(* ===== verification/Durability.v ===== *)
(** * The state database keeps and recovers its state

    The commitment of the database follows its values, the log replay applies
    the batches the database applied, and a restart recovers the state of the
    last block with a commit marker, whatever a crash left behind it. *)
From S2P Require Import Prelude GoStd Tx Block StateRoot Serial SerialProps StateDB.
Local Open Scope N_scope.
#[local] Opaque Sha256.sum256 sha256_hex Json.marshal walChecksum.

(** ** The commitment follows the values *)

Definition db_ok (d : DB) : Prop := ∀ c, db_commitment d = Some c → represents c (db_values d).

Lemma db_ok_put key value d : db_ok d → db_ok (put key value d).
Proof.
  intros H c Hc. unfold put in *. simpl in *. destruct (db_commitment d) as [t|] eqn:E; [|done].
  simpl in Hc. simplify_eq. by apply represents_set, H.
Qed.

Lemma db_ok_ensure d : db_ok d → db_ok (ensure_commitment d).
Proof.
  intros H. unfold ensure_commitment. destruct (db_commitment d) eqn:E; [done|].
  intros c Hc. simpl in *. simplify_eq. apply represents_New.
Qed.

Lemma db_ok_batch updates : ∀ d, db_ok d → db_ok (ApplyBatch updates d).
Proof.
  unfold ApplyBatch. induction updates as [|[k v] updates IH]; intros d H; [done|].
  simpl. by apply IH, db_ok_put.
Qed.

(** An update with [OrderingNoop] is harmless when its key has a value. *)
Definition noop_safe (d : DB) (item : StateKV) : Prop :=
  kv_OrderingNoop item = true → is_Some (db_values d !! db_key d (kv_Key item)).

Lemma applyStateKV_noop values key item v :
  applyStateKV values key item = inr v → v = None → kv_OrderingNoop item = true.
Proof. unfold applyStateKV. intros H ->. by repeat case_match. Qed.

(** One accepted update of a deterministic batch. *)
Definition batch_turn (item : StateKV) (v : option string) (d : DB) : DB :=
  let key := db_key d (kv_Key item) in
  let d := set_values (write_value key v (db_values d)) d in
  set_commitment (CommitmentSet (db_commitment d) key (default "" (db_values d !! key))) d.

Lemma db_ok_batch_turn item v d :
  (v = None → is_Some (db_values d !! db_key d (kv_Key item))) →
  db_ok d → db_ok (batch_turn item v d).
Proof.
  intros Hv H c Hc. unfold batch_turn in *. simpl in *.
  destruct (db_commitment d) as [t|] eqn:E; [|done]. simpl in Hc. simplify_eq.
  pose proof (H t E) as R. destruct v as [v|]; simpl.
  - rewrite lookup_insert_eq. simpl. by apply represents_set.
  - destruct (Hv eq_refl) as [w Hw]. rewrite Hw. simpl.
    replace (db_values d) with (<[db_key d (kv_Key item) := w]> (db_values d)) by (by apply insert_id).
    by apply represents_set.
Qed.

Lemma deterministic_cons item rest d :
  ApplyDeterministicBatch (item :: rest) d =
  match applyStateKV (db_values d) (db_key d (kv_Key item)) item with
  | inl e => (d, Some e)
  | inr v => ApplyDeterministicBatch rest (batch_turn item v d)
  end.
Proof. done. Qed.

Lemma db_ok_deterministic updates : ∀ d,
  forallb (λ u, negb (kv_OrderingNoop u)) updates = true → db_ok d →
  db_ok (ApplyDeterministicBatch updates d).1.
Proof.
  induction updates as [|item rest IH]; intros d Hn H; [done|]. rewrite deterministic_cons.
  apply andb_true_iff in Hn as [Hi Hn]. destruct (applyStateKV _ _ _) as [e|v] eqn:E; [done|].
  apply IH; [done|]. apply db_ok_batch_turn; [|done]. intros ->.
  apply applyStateKV_noop in E; [|done]. by rewrite E in Hi.
Qed.

(** The operations that change or read the in-memory state. *)
Inductive db_op :=
  | DbSet (key value : string)
  | DbBatch (updates : list (string * string))
  | DbDeterministic (updates : list StateKV)
  | DbRestore (snapshot : gmap string string)
  | DbRoot | DbSnapshot.

Definition db_step (d : DB) (o : db_op) : DB :=
  match o with
  | DbSet key value => Set_ key value d
  | DbBatch updates => ApplyBatch updates d
  | DbDeterministic updates => (ApplyDeterministicBatch updates d).1
  | DbRestore snapshot => Restore snapshot d
  | DbRoot => (DBRoot d).1
  | DbSnapshot => (SnapshotWithCommitment d).1
  end.

Definition without_noops (o : db_op) : bool :=
  match o with
  | DbDeterministic updates => forallb (λ u, negb (kv_OrderingNoop u)) updates
  | _ => true
  end.

Lemma db_ok_New ns : db_ok (NewDB ns).
Proof. intros c [= <-]. apply represents_New. Qed.

Lemma db_ok_step d o : without_noops o = true → db_ok d → db_ok (db_step d o).
Proof.
  destruct o; simpl; intros Hn H; try (by apply db_ok_ensure).
  - by apply db_ok_put.
  - by apply db_ok_batch.
  - by apply db_ok_deterministic.
  - intros c [= <-]. apply represents_New.
Qed.

Lemma DBRoot_ok d : db_ok d → (DBRoot d).2 = Root (db_values d) ∧ db_values (DBRoot d).1 = db_values d.
Proof.
  intros H. unfold DBRoot, ensure_commitment. destruct (db_commitment d) as [c|] eqn:E; simpl.
  - rewrite E. split; [|done]. by apply represents_root, H.
  - done.
Qed.

(** C39: the root follows the values. After any sequence of sets, batches (refused
    ones included), restores and snapshots the database reports the root of the
    values it holds, and a snapshot pairs the values with their own commitment,
    as long as no update is an ordering no-op. *)
Theorem db_root_consistent (ns : string) (ops : list db_op) :
  forallb without_noops ops = true →
  let d := foldl db_step (NewDB ns) ops in
  (DBRoot d).2 = Root (db_values d) ∧
  (SnapshotWithCommitment d).2 = (db_values d, Some (NewCommitment (db_values d))).
Proof.
  intros Hn d. assert (db_ok d) as H.
  { unfold d. revert Hn. generalize (NewDB ns), (db_ok_New ns). clear d.
    induction ops as [|o ops IH]; intros d H Hn; [done|]. simpl in *.
    apply andb_true_iff in Hn as [Ho Hn]. by apply IH; [apply db_ok_step|]. }
  split; [by apply DBRoot_ok|]. pose proof (db_ok_ensure d H) as He. clearbody d.
  unfold SnapshotWithCommitment, ensure_commitment in *. destruct (db_commitment d) as [c|] eqn:E; simpl.
  - rewrite E. do 2 f_equal. apply (represents_unique _ _ (db_values d)); [by apply H|apply represents_New].
  - done.
Qed.

(** an ordering no-op on a key without a value puts the key into the
    commitment and not into the values: from then on the database reports the
    root of a state it does not hold, which no rebuild from its values gives. *)
Theorem noop_desynchronizes (d : DB) (c : commitmentNode) (item : StateKV) :
  let key := db_key d (kv_Key item) in
  db_commitment d = Some c → represents c (db_values d) →
  kv_OrderingNoop item = true → db_values d !! key = None →
  let d' := (ApplyDeterministicBatch [item] d).1 in
  (ApplyDeterministicBatch [item] d).2 = None ∧ db_values d' = db_values d ∧
  (DBRoot d').2 = Root (<[key := ""]> (db_values d)) ∧
  (DBRoot (Restore (db_values d') d')).2 = Root (db_values d).
Proof.
  intros key Hc R Hi Hk d'. unfold d'. rewrite deterministic_cons. unfold applyStateKV. rewrite Hi.
  cbn [ApplyDeterministicBatch fst snd]. split_and!; [done|done| |done].
  unfold DBRoot, ensure_commitment, batch_turn. simpl. rewrite Hc. simpl.
  fold key. rewrite Hk. simpl. by apply represents_root, represents_set.
Qed.

Lemma noop_desynchronizes_witness :
  let item := MkKV "k" "" [] "" 0 "" "" "" "" false 0 "" 0 0 0 0 true in
  (DBRoot (ApplyDeterministicBatch [item] (NewDB "s0")).1).2 = Root (<["s0::k" := ""]> ∅) ∧
  bool_decide (Root (<["s0::k" := ""]> ∅) = Root ∅) = false.
Proof.
  intros item. split; [|vm_compute; reflexivity].
  destruct (noop_desynchronizes (NewDB "s0") (NewCommitment ∅) item) as (_ & _ & H & _);
    [done|apply represents_New|done|done|exact H].
Defined.

Lemma db_root_consistent_witness :
  let d := foldl db_step (NewDB "s0")
    [DbSet "a" "1"; DbDeterministic [MkKV "a" "" [] "commutative_delta" 2 "" "" "" "" false 0 "" 0 0 0 0 false]] in
  (DBRoot d).2 = Root (db_values d) ∧ db_values d = {["s0::a" := "3"]}.
Proof.
  intros d. split; [|vm_compute; reflexivity].
  apply (db_root_consistent "s0"). reflexivity.
Defined.

(** ** Chains of log records *)

Lemma batch_replays updates : ∀ d d',
  ApplyDeterministicBatch updates d = (d', None) →
  applyStateKVs (db_values d) updates (db_namespace d) = inr (db_values d') ∧
  db_namespace d' = db_namespace d ∧ db_walGeneration d' = db_walGeneration d ∧
  db_lastBlockHash d' = db_lastBlockHash d.
Proof.
  induction updates as [|item rest IH]; intros d d'; [by intros [= <-]|]. rewrite deterministic_cons.
  cbn [applyStateKVs]. unfold db_key. destruct (applyStateKV _ _ _) as [e|v]; [done|].
  intros H. destruct (IH _ _ H) as (E1 & E2 & E3 & E4). by split_and!.
Qed.

Section chain.
Context (ns : string).

(** [r] takes the values [v] of height [h] and block [x] to [v']. *)
Record next_record (v : gmap string string) (h : N) (x : string) (r : walRecord)
    (v' : gmap string string) : Prop := {
  nr_version : wr_Version r = "state_delta_wal_v1";
  nr_namespace : wr_Namespace r = ns;
  nr_checksum : wr_Checksum r = walChecksum r;
  nr_height : wr_BlockHeight r = h + 1;
  nr_small : h + 1 <= max_uint64;
  nr_parent : x = "" ∨ wr_ParentHash r = x;
  nr_root_version : wr_StateRootVersion r = CommitmentVersion;
  nr_before : wr_StateRootBefore r = Root v;
  nr_apply : applyStateKVs v (wr_StateUpdates r) ns = inr v';
  nr_after : wr_StateRootAfter r = Root v';
}.

Fixpoint chain (v : gmap string string) (h : N) (x : string) (rs : list walRecord)
    (v' : gmap string string) (h' : N) (x' : string) : Prop :=
  match rs with
  | [] => v = v' ∧ h = h' ∧ x = x'
  | r :: rest => ∃ v1, next_record v h x r v1 ∧ chain v1 (h + 1) (wr_BlockHash r) rest v' h' x'
  end.

Lemma chain_snoc rs r v2 : ∀ v h x v1 h1 x1,
  chain v h x rs v1 h1 x1 → next_record v1 h1 x1 r v2 →
  chain v h x (rs ++ [r]) v2 (h1 + 1) (wr_BlockHash r).
Proof.
  induction rs as [|r0 rs IH]; intros v h x v1 h1 x1 H Hn; simpl in *.
  - destruct H as (-> & -> & ->). by exists v2.
  - destruct H as (w & Hw & H). exists w. split; [done|]. by eapply IH.
Qed.

Lemma Root_nonempty v : Root v ≠ "".
Proof.
  unfold Root, CommitmentRoot. intros E. apply (f_equal String.length) in E.
  rewrite hex_encode_length, length_node_hash in E by apply represents_New. discriminate.
Qed.

Lemma RootForVersion_current v : RootForVersion v (root_version CommitmentVersion) = Root v.
Proof. done. Qed.

Lemma apply_next_record v h x r v' applied :
  next_record v h x r v' →
  apply_record ns r (MkCursor v applied h x) =
    inr (MkCursor v' ({[wr_DeltaID r]} ∪ applied) (h + 1) (wr_BlockHash r)).
Proof.
  intros []. unfold apply_record. cbn [cu_values cu_applied cu_lastHeight cu_lastHash].
  rewrite nr_root_version0, !RootForVersion_current, nr_apply0, nr_height0, nr_before0, nr_after0,
    RootForVersion_current.
  replace (u64_add h 1) with (h + 1)
    by (unfold u64_add, two64, max_uint64 in *; rewrite N.mod_small; lia).
  rewrite (bool_decide_eq_true_2 (h + 1 = h + 1)), andb_false_r by done.
  rewrite (bool_decide_eq_true_2 (Root v = Root v)), (bool_decide_eq_true_2 (Root v' = Root v')),
    !andb_false_r by done.
  rewrite (bool_decide_eq_false_2 (Root v = "")) by apply Root_nonempty.
  destruct nr_parent0 as [->| ->]; [done|].
  by rewrite (bool_decide_eq_true_2 (x = x)), andb_false_r by done.
Qed.

Lemma replay_chain included committed rs : ∀ ls v h x v' h' x' applied line rest,
  ln_record <$> ls = Some <$> rs → chain v h x rs v' h' x' → included <= h →
  (∀ r, r ∈ rs → wr_BlockHash r ∈ committed) →
  NoDup (wr_DeltaID <$> rs) → (∀ r, r ∈ rs → wr_DeltaID r ∉ applied) →
  ∃ line' applied',
    replay_lines ns included committed line (ls ++ rest) (MkCursor v applied h x) =
    replay_lines ns included committed line' rest (MkCursor v' applied' h' x').
Proof.
  induction rs as [|r rs IH]; intros [|l ls] v h x v' h' x' applied line rest Hl Hc Hi Hm Hnd Ha;
    simplify_eq/=.
  { destruct Hc as (-> & -> & ->). eauto. }
  destruct Hc as (v1 & Hn & Hc). rewrite H. pose proof (apply_next_record _ _ _ _ _ applied Hn) as E.
  apply NoDup_cons in Hnd as [Hnin Hnd].
  rewrite (nr_version _ _ _ _ _ Hn), (nr_namespace _ _ _ _ _ Hn), (nr_checksum _ _ _ _ _ Hn).
  rewrite !(bool_decide_eq_true_2 (_ = _)) by done. cbn [negb orb].
  rewrite (bool_decide_eq_false_2 (wr_BlockHash r ∉ committed)) by (intros []; apply Hm; left).
  rewrite (bool_decide_eq_false_2 (wr_DeltaID r ∈ applied)) by (apply Ha; left).
  assert ((wr_BlockHeight r <=? included) = false) as ->
    by (apply N.leb_gt; rewrite (nr_height _ _ _ _ _ Hn); lia). cbn [orb]. rewrite E.
  apply IH; [done|done|lia|set_solver|done|].
  intros r' Hr'. apply not_elem_of_union. split; [|apply Ha; by right].
  intros Heq%elem_of_singleton. apply Hnin. rewrite <- Heq. by apply (list_elem_of_fmap_2 wr_DeltaID).
Qed.

(** Lines behind the last committed record that the replay passes over. *)
Fixpoint ignored (committed : gset string) (ls : list wal_line) : Prop :=
  match ls with
  | [] => True
  | l :: rest =>
      match ln_record l with
      | None => rest = []
      | Some r => wr_Version r = "state_delta_wal_v1" ∧ wr_Namespace r = ns ∧
                  wr_Checksum r = walChecksum r ∧ (wr_BlockHash r ∉ committed) ∧
                  ignored committed rest
      end
  end.

Lemma replay_ignored included committed ls : ∀ line c,
  ignored committed ls → replay_lines ns included committed line ls c = inr c.
Proof.
  induction ls as [|l ls IH]; intros line c H; simpl in *; [done|].
  destruct (ln_record l) as [r|]; [|by subst]. destruct H as (-> & -> & -> & Hx & H).
  rewrite !(bool_decide_eq_true_2 (_ = _)) by done. cbn [negb orb].
  rewrite (bool_decide_eq_true_2 (_ ∉ _)), orb_true_r by done. cbn [orb]. by apply IH.
Qed.

End chain.

(** ** Committing blocks *)

Record commit_req := MkCommitReq {
  cr_height : N;
  cr_hash : string;
  cr_parent : string;
  cr_id : string;
  cr_updates : list StateKV;
}.

(** A block's delta in the order the runtime writes it: apply, log, marker,
    snapshot. [None]: the batch was refused and nothing is written. *)
Definition commit_block (opts : PersistenceOptions) (q : commit_req) (s : DB * disk)
    : option (DB * disk) :=
  let '(d0, before) := DBRoot s.1 in
  match ApplyDeterministicBatch (cr_updates q) d0 with
  | (_, Some _) => None
  | (d1, None) =>
      let '(d2, after) := DBRoot d1 in
      let meta := MkDeltaMeta (cr_height q) (cr_hash q) (cr_parent q) (cr_id q) before after in
      let '(d3, k, _) := PersistDelta meta (cr_updates q) opts d2 s.2 in
      Some (SnapshotIfDue (cr_height q) opts d3 (put_markers (dk_markers k ++ [cr_hash q]) k))
  end.

Fixpoint commit_all (opts : PersistenceOptions) (qs : list commit_req) (s : DB * disk)
    : option (DB * disk) :=
  match qs with
  | [] => Some s
  | q :: rest => s' ← commit_block opts q s; commit_all opts rest s'
  end.

Definition empty_disk : disk := MkDisk None None None ∅ None [].

(** Blocks of consecutive heights that link to each other, with delta ids of
    their own and no ordering no-ops. *)
Fixpoint linked (h : N) (x : string) (used : gset string) (qs : list commit_req) : Prop :=
  match qs with
  | [] => True
  | q :: rest =>
      cr_height q = h + 1 ∧ h + 1 <= max_uint64 ∧ (x = "" ∨ cr_parent q = x) ∧
      cr_id q ≠ "" ∧ (cr_id q ∉ used) ∧
      forallb (λ u, negb (kv_OrderingNoop u)) (cr_updates q) = true ∧
      linked (h + 1) (cr_hash q) ({[cr_id q]} ∪ used) rest
  end.

(** What the directory holds between commits. *)
Definition snapshot_part (ns : string) (k : disk) (v0 : gmap string string) (h0 : N) (x0 : string)
    : Prop :=
  (dk_snapshot k = None ∧ dk_meta k = None ∧ v0 = ∅ ∧ h0 = 0 ∧ x0 = "") ∨
  (dk_snapshot k = Some v0 ∧ ∃ g, dk_meta k =
     Some (MkSnapMeta "state_snapshot_metadata_v1" ns h0 x0 (Root v0) CommitmentVersion g)).

Definition manifest_part (ns : string) (g : Z) (k : disk) : Prop :=
  (dk_manifest k = None ∧ g = 1%Z ∧ dk_snapshot k = None) ∨
  dk_manifest k = Some (MkManifest "state_wal_manifest_v1" ns g).

Definition wal_part (g : Z) (k : disk) (ls : list wal_line) : Prop :=
  (dk_wals k = ∅ ∧ ls = []) ∨ dk_wals k = {[g := MkWal ls None]}.

Record durable (ns : string) (d : DB) (k : disk) (h : N) (x : string) (used : gset string)
    (ls : list wal_line) : Prop := {
  du_db : db_ok d;
  du_namespace : db_namespace d = ns;
  du_generation : (0 < db_walGeneration d)%Z;
  du_legacy : dk_legacy k = None;
  du_manifest : manifest_part ns (db_walGeneration d) k;
  du_wal : wal_part (db_walGeneration d) k ls;
  du_history : ∃ v0 h0 x0 rs, snapshot_part ns k v0 h0 x0 ∧ ln_record <$> ls = Some <$> rs ∧
    chain ns v0 h0 x0 rs (db_values d) h x ∧ NoDup (wr_DeltaID <$> rs) ∧
    ∀ r, r ∈ rs → wr_DeltaID r ∈ used ∧ wr_BlockHash r ∈ dk_markers k;
}.

Lemma durable_new ns :
  durable (db_namespace (NewDB ns)) (NewDB ns) empty_disk 0 "" ∅ [].
Proof.
  split; [apply db_ok_New|done|done|done|by left|by left|].
  exists ∅, 0, "", []. split_and!; [by left; split_and!|done|done|constructor|set_solver].
Qed.

Lemma chain_height ns rs : ∀ v h x v' h' x', chain ns v h x rs v' h' x' → h <= h'.
Proof.
  induction rs as [|r rs IH]; intros v h x v' h' x'; simpl.
  - intros (-> & -> & ->). lia.
  - intros (w & _ & H%IH). lia.
Qed.

Lemma PersistDelta_spec meta updates opts d k ls :
  (0 < db_walGeneration d)%Z → manifest_part (db_namespace d) (db_walGeneration d) k →
  wal_part (db_walGeneration d) k ls →
  let r := PersistDelta meta updates opts d k in
  let record := delta_record d meta updates in
  (db_values r.1.1 = db_values d ∧ db_commitment r.1.1 = db_commitment d ∧
   db_namespace r.1.1 = db_namespace d ∧ db_walGeneration r.1.1 = db_walGeneration d ∧
   db_lastBlockHash r.1.1 = dm_BlockHash meta) ∧
  (dk_snapshot r.1.2 = dk_snapshot k ∧ dk_meta r.1.2 = dk_meta k ∧ dk_legacy r.1.2 = dk_legacy k ∧
   dk_markers r.1.2 = dk_markers k) ∧
  manifest_part (db_namespace d) (db_walGeneration d) r.1.2 ∧
  wal_part (db_walGeneration d) r.1.2 (ls ++ [MkLine (encoded_length record) (Some record)]).
Proof.
  intros Hg Hm Hw r record. unfold r, PersistDelta, appendWAL.
  rewrite (proj2 (Z.leb_gt _ _) Hg). unfold wal_generation. fold record. clearbody record.
  rewrite (proj2 (Z.leb_gt _ _) Hg).
  split_and!; try done; try (by destruct (dk_manifest k)).
  - destruct Hm as [[Hm _]|Hm]; rewrite Hm; right; [done|exact Hm].
  - right. cbn [dk_wals put_wals fst snd].
    assert (dk_wals (match dk_manifest k with Some _ => k
      | None => writeWALManifest d (db_walGeneration d) k end) = dk_wals k) as ->
      by (by destruct (dk_manifest k)).
    destruct Hw as [[-> ->]| ->].
    + rewrite lookup_empty. cbn. by rewrite insert_empty.
    + rewrite lookup_singleton_eq. cbn. by rewrite insert_singleton_eq.
Qed.

Lemma delta_record_next ns d meta updates v' h x :
  db_namespace d = ns → dm_DeltaID meta ≠ "" → dm_BlockHeight meta = h + 1 → h + 1 <= max_uint64 →
  (x = "" ∨ dm_ParentHash meta = x) → ∀ v,
  dm_StateRootBefore meta = Root v → applyStateKVs v updates ns = inr v' →
  dm_StateRootAfter meta = Root v' →
  next_record ns v h x (delta_record d meta updates) v' ∧
  wr_DeltaID (delta_record d meta updates) = dm_DeltaID meta ∧
  wr_BlockHash (delta_record d meta updates) = dm_BlockHash meta.
Proof.
  intros Hns Hid Hh Hs Hp v Hb Ha Hr. unfold delta_record.
  rewrite (bool_decide_eq_false_2 (dm_DeltaID meta = "")) by done. split; [|done].
  by split.
Qed.

Lemma durable_snapshot ns d k h x used ls opts :
  durable ns d k h x used ls → db_lastBlockHash d = x →
  let s := SnapshotIfDue h opts d k in
  ∃ ls', durable ns s.1 s.2 h x used ls' ∧ db_values s.1 = db_values d ∧
    dk_markers s.2 = dk_markers k ∧ db_lastBlockHash s.1 = x.
Proof.
  intros D Hx s. unfold s, SnapshotIfDue. destruct (snapshot_due h opts); simpl; [|eauto].
  set (d1 := set_walGeneration _ d).
  assert (db_ok d1) as Hok by exact (du_db _ _ _ _ _ _ _ D).
  pose proof (du_generation _ _ _ _ _ _ _ D) as Hg. pose proof (du_namespace _ _ _ _ _ _ _ D) as Hns.
  assert (db_namespace (ensure_commitment d1) = ns ∧
          db_walGeneration (ensure_commitment d1) = (db_walGeneration d + 1)%Z ∧
          db_values (ensure_commitment d1) = db_values d ∧
          db_lastBlockHash (ensure_commitment d1) = x) as (En & Eg & Ev & El)
    by (unfold ensure_commitment, d1; destruct (db_commitment _); done).
  exists []. split; [|done]. split; cbn [fst snd]; try done.
  - by apply db_ok_ensure.
  - rewrite Eg. lia.
  - by apply (du_legacy _ _ _ _ _ _ _ D).
  - right. cbn. by rewrite En.
  - right. cbn. unfold wal_generation. rewrite Eg. rewrite (proj2 (Z.leb_gt _ _)) by lia. done.
  - exists (db_values d), h, x, []. split_and!; [|done|by rewrite Ev|constructor|set_solver].
    right. split; [done|]. exists (db_walGeneration d + 1)%Z. cbn. unfold snapshot_meta.
    rewrite (proj1 (DBRoot_ok d1 Hok)). cbn. by rewrite Hns, Hx.
Qed.

Lemma durable_append ns d d3 k k3 h x used ls r n :
  durable ns d k h x used ls → next_record ns (db_values d) h x r (db_values d3) →
  (wr_DeltaID r ∉ used) → db_ok d3 → db_namespace d3 = ns →
  db_walGeneration d3 = db_walGeneration d →
  (dk_snapshot k3 = dk_snapshot k ∧ dk_meta k3 = dk_meta k ∧ dk_legacy k3 = dk_legacy k ∧
   dk_markers k3 = dk_markers k) →
  manifest_part ns (db_walGeneration d) k3 →
  wal_part (db_walGeneration d) k3 (ls ++ [MkLine n (Some r)]) →
  durable ns d3 (put_markers (dk_markers k3 ++ [wr_BlockHash r]) k3) (h + 1) (wr_BlockHash r)
    ({[wr_DeltaID r]} ∪ used) (ls ++ [MkLine n (Some r)]).
Proof.
  intros D Hnext Hfresh Hok Hns Hg (S3 & M3 & Lg3 & Mk3) Man W.
  destruct (du_history _ _ _ _ _ _ _ D) as (v0 & h0 & x0 & rs & Hs & Hl & Hc & Hnd & Hr).
  split; cbn; rewrite ?Hg; try done; [apply D|rewrite Lg3; apply D|].
  exists v0, h0, x0, (rs ++ [r]). split_and!.
  - unfold snapshot_part in *. cbn. by rewrite S3, M3.
  - by rewrite !fmap_app, Hl.
  - by eapply chain_snoc.
  - rewrite fmap_app. apply NoDup_app. split_and!; [done| |apply NoDup_singleton].
    intros i (r' & -> & Hr')%list_elem_of_fmap Hi%list_elem_of_singleton.
    apply Hfresh. destruct (Hr r' Hr') as [Hu _]. congruence.
  - intros r' [Hr'|Hr'%list_elem_of_singleton]%elem_of_app; rewrite Mk3.
    + destruct (Hr r' Hr'). split; set_solver.
    + subst r'. split; [set_solver|]. apply elem_of_app. right. left.
Qed.

Lemma DBRoot_frame d :
  db_ok d → let s := DBRoot d in
  db_ok s.1 ∧ s.2 = Root (db_values d) ∧ db_values s.1 = db_values d ∧
  db_namespace s.1 = db_namespace d ∧ db_walGeneration s.1 = db_walGeneration d.
Proof.
  intros H s. destruct (DBRoot_ok d H) as [Hr Hv]. split_and!; [by apply db_ok_ensure|done|done|..];
    unfold s, DBRoot, ensure_commitment; by destruct (db_commitment d).
Qed.

Lemma durable_commit ns opts q d k h x used ls s' :
  durable ns d k h x used ls → linked h x used [q] → commit_block opts q (d, k) = Some s' →
  ∃ ls', durable ns s'.1 s'.2 (h + 1) (cr_hash q) ({[cr_id q]} ∪ used) ls' ∧
    dk_markers s'.2 = dk_markers k ++ [cr_hash q].
Proof.
  intros D (Hh & Hsm & Hp & Hid & Hfresh & Hn & _) H. unfold commit_block in H. cbn [fst snd] in H.
  pose proof (du_namespace _ _ _ _ _ _ _ D) as Hns.
  destruct (DBRoot_frame d (du_db _ _ _ _ _ _ _ D)) as (Hok0 & Er & Ev & En0 & Eg0).
  destruct (DBRoot d) as [d0 before]. cbn [fst snd] in *. subst before.
  pose proof (db_ok_deterministic (cr_updates q) d0 Hn Hok0) as Hok1.
  pose proof (batch_replays (cr_updates q) d0) as Hb.
  destruct (ApplyDeterministicBatch _ d0) as [d1 [e|]]; [done|]. cbn [fst] in Hok1.
  destruct (Hb d1 eq_refl) as (Ha & En1 & Eg1 & _). clear Hb.
  destruct (DBRoot_frame d1 Hok1) as (Hok2 & Er1 & Ev1 & En2 & Eg2).
  destruct (DBRoot d1) as [d2 after]. cbn [fst snd] in *. subst after.
  rewrite Ev, En0, Hns in Ha. rewrite <- Ev1 in Ha, H. rewrite En1, En0, Hns in En2.
  rewrite Eg1, Eg0 in Eg2. set (meta := MkDeltaMeta _ _ _ _ _ _) in H.
  destruct (delta_record_next ns d2 meta (cr_updates q) (db_values d2) h x En2 Hid Hh Hsm Hp
    (db_values d) eq_refl Ha eq_refl) as (Hnext & Hrid & Hrx).
  destruct (PersistDelta_spec meta (cr_updates q) opts d2 k ls) as
    ((V3 & C3 & N3 & G3 & L3) & Same & Man3 & W3).
  { rewrite Eg2. apply D. } { rewrite En2, Eg2. apply D. } { rewrite Eg2. apply D. }
  destruct (PersistDelta _ _ _ _ _) as [[d3 k3] sync]. cbn [fst snd] in *.
  apply (f_equal (default (d, k))) in H. cbn [default from_option id] in H. subst s'.
  change (dm_DeltaID meta) with (cr_id q) in Hrid. change (dm_BlockHash meta) with (cr_hash q) in *.
  clearbody meta. revert Hnext Hrid Hrx W3. generalize (delta_record d2 meta (cr_updates q)) as r.
  intros r Hnext Hrid Hrx W3. rewrite En2, Eg2 in Man3. rewrite Eg2 in W3, G3.
  assert (db_ok d3) as Hok3 by (intros c E; rewrite V3; apply Hok2; congruence).
  rewrite <- V3 in Hnext. rewrite <- Hrid in Hfresh. rewrite <- Hrid, <- Hrx, Hh. rewrite <- Hrx in L3.
  pose proof (durable_append ns d d3 k k3 h x used ls r _ D Hnext Hfresh Hok3
    (eq_trans N3 En2) G3 Same Man3 W3) as D3.
  destruct (durable_snapshot _ _ _ _ _ _ _ opts D3 L3) as (ls' & D' & _ & Mk' & _).
  exists ls'. split; [exact D'|]. rewrite Mk'. cbn. f_equal. apply Same.
Qed.

Lemma durable_all ns opts qs : ∀ d k h x used ls d' k',
  durable ns d k h x used ls → linked h x used qs →
  commit_all opts qs (d, k) = Some (d', k') →
  ∃ h' x' used' ls', durable ns d' k' h' x' used' ls'.
Proof.
  induction qs as [|q qs IH]; intros d k h x used ls d' k' D L H; simpl in H.
  { simplify_eq. eauto. }
  destruct (commit_block opts q (d, k)) as [[d1 k1]|] eqn:E; [|done].
  destruct L as (L1 & L2 & L3 & L4 & L5 & L6 & L7).
  destruct (durable_commit ns opts q d k h x used ls (d1, k1) D) as (ls1 & D1 & _); [by split_and!|done|].
  by eapply IH.
Qed.

(** ** Recovery *)

(** What a crash may leave behind the last commit: records that were logged but
    whose block got no marker, and a write cut short. *)
Definition logged (ns : string) (r : walRecord) : Prop :=
  wr_Version r = "state_delta_wal_v1" ∧ wr_Namespace r = ns ∧ wr_Checksum r = walChecksum r.

Definition crashed (d : DB) (extra : list walRecord) (torn : option N) (k : disk) : disk :=
  let f := default empty_wal (dk_wals k !! db_walGeneration d) in
  put_wals (<[db_walGeneration d :=
    MkWal (wf_lines f ++ ((λ r, MkLine (encoded_length r) (Some r)) <$> extra)) torn]> (dk_wals k)) k.

Definition short_lines (f : wal_file) : bool :=
  forallb (λ l, ln_length l <? max_scan_token) (scan_lines f).

Lemma ignored_tail ns committed extra torn :
  Forall (λ r, logged ns r ∧ (wr_BlockHash r ∉ committed)) extra →
  ignored ns committed (((λ r, MkLine (encoded_length r) (Some r)) <$> extra) ++
    match torn with Some n => [MkLine n None] | None => [] end).
Proof.
  induction extra as [|r extra IH]; intros He; simpl; [by destruct torn|].
  inversion He as [|? ? [(?&?&?) ?] He']; subst. by split_and!; [..|apply IH].
Qed.

Lemma crashed_wal d k ls extra torn :
  wal_part (db_walGeneration d) k ls →
  dk_wals (crashed d extra torn k) = {[db_walGeneration d :=
    MkWal (ls ++ ((λ r, MkLine (encoded_length r) (Some r)) <$> extra)) torn]}.
Proof.
  unfold crashed. intros [[E ->]|E]; cbn; rewrite E.
  - by rewrite lookup_empty, insert_empty.
  - by rewrite lookup_singleton_eq, insert_singleton_eq.
Qed.

Lemma segments_one g f (k : disk) :
  dk_legacy k = None → dk_wals k = {[g := f]} → walSegmentPaths k = [f].
Proof.
  intros Hl Hw. unfold walSegmentPaths. rewrite Hl, Hw, map_to_list_singleton. done.
Qed.

(** A directory with one log file: the lines of a chain of committed records and
    a tail the replay passes over. *)
Lemma replay_tail ns d0 k g f ls tail v0 h0 x0 rs v h x meta :
  db_namespace d0 = ns → dk_legacy k = None → dk_wals k = {[g := f]} →
  scan_lines f = ls ++ tail → short_lines f = true →
  ignored ns (list_to_set (dk_markers k)) tail →
  ln_record <$> ls = Some <$> rs → chain ns v0 h0 x0 rs v h x →
  NoDup (wr_DeltaID <$> rs) → (∀ r, r ∈ rs → wr_BlockHash r ∈ dk_markers k) →
  sm_IncludedHeight meta = h0 → sm_IncludedBlockHash meta = x0 →
  replayWAL d0 k v0 meta = inr v.
Proof.
  intros Hns Hlg Hw Hsc Hsh Hig Hl Hc Hnd Hr Hmh Hmx. unfold replayWAL.
  rewrite (segments_one g f k Hlg Hw). case_bool_decide as E0.
  { assert (rs = []) as ->; [|by destruct Hc as (-> & _)].
    destruct rs as [|r rs]; [done|]. assert (wr_BlockHash r ∈ dk_markers k) as Hin by (apply Hr; left).
    apply size_empty_inv in E0. set_solver. }
  rewrite Hmh, Hmx, Hns. cbn [replay_files]. unfold readWALLines.
  unfold short_lines in Hsh. rewrite Hsh, Hsc.
  destruct (replay_chain ns h0 (list_to_set (dk_markers k)) rs ls v0 h0 x0 v h x ∅ 1 tail)
    as (line' & applied' & E); [done|done|lia| |done|set_solver|].
  { intros r Hin. apply elem_of_list_to_set. by apply Hr. }
  cbn in E |- *. by rewrite E, replay_ignored.
Qed.

Lemma Load_spec d k meta man v :
  loadSnapshotMetadata d k = inr meta → loadWALManifest d k = inr man →
  let checked := bool_decide (is_Some (dk_snapshot k)) && (sm_Version meta ≠? "") in
  (checked = true → check_snapshot (default ∅ (dk_snapshot k)) meta = None) →
  replayWAL d k (default ∅ (dk_snapshot k)) meta = inr v →
  Load d k = inr (set_commitment (Some (NewCommitment v)) (set_values v (set_walGeneration
    (if (0 <? wm_ActiveGeneration man)%Z then wm_ActiveGeneration man
     else if checked then sm_WALGeneration meta else db_walGeneration d) d))).
Proof.
  intros Hm Hw checked Hc Hr. unfold Load. rewrite Hm. cbn [mbind sum_mbind]. rewrite Hw.
  cbn [mbind sum_mbind]. fold checked. destruct checked; [rewrite Hc by done|]; by rewrite Hr.
Qed.

Lemma manifest_loads ns d0 g k :
  db_namespace d0 = ns → (0 < g)%Z → manifest_part ns g k →
  loadWALManifest d0 k = inr (default zero_manifest (dk_manifest k)).
Proof.
  intros Hns Hg Hm. unfold loadWALManifest. destruct Hm as [[-> _]| ->]; [done|].
  unfold valid_manifest. rewrite Hns. by rewrite !bool_decide_eq_true_2.
Qed.

Lemma DBRoot_fresh d v g :
  (DBRoot (set_commitment (Some (NewCommitment v)) (set_values v (set_walGeneration g d)))).2 = Root v.
Proof. done. Qed.

Lemma manifest_generation ns g k b m :
  (0 < g)%Z → manifest_part ns g k →
  (let man := default zero_manifest (dk_manifest k) in
   if (0 <? wm_ActiveGeneration man)%Z then wm_ActiveGeneration man
   else if bool_decide (is_Some (dk_snapshot k)) && b then m else 1%Z) = g.
Proof.
  intros Hg [(-> & -> & ->)| ->]; cbn; [done|]. by rewrite (proj2 (Z.ltb_lt 0 g) Hg).
Qed.

Lemma snapshot_loads ns d0 k v0 h0 x0 :
  db_namespace d0 = ns → snapshot_part ns k v0 h0 x0 →
  ∃ meta, loadSnapshotMetadata d0 k = inr meta ∧ default ∅ (dk_snapshot k) = v0 ∧
    sm_IncludedHeight meta = h0 ∧ sm_IncludedBlockHash meta = x0 ∧
    (bool_decide (is_Some (dk_snapshot k)) && (sm_Version meta ≠? "") = true →
       check_snapshot (default ∅ (dk_snapshot k)) meta = None).
Proof.
  intros Hns Hs. unfold loadSnapshotMetadata.
  destruct Hs as [(Hs & -> & -> & -> & ->)|(Hs & g & ->)]; rewrite Hs; [by exists zero_meta|].
  rewrite Hns. cbn. rewrite (bool_decide_eq_true_2 (ns = ns)) by done.
  eexists. split; [reflexivity|]. split_and!; try done. intros _.
  unfold check_snapshot. cbn [sm_StateRootVersion sm_StateRoot].
  rewrite RootForVersion_current, (bool_decide_eq_false_2 (Root v0 = "")) by apply Root_nonempty.
  rewrite (bool_decide_eq_true_2 (Root v0 = Root v0)) by done. by rewrite andb_false_r.
Qed.

(** A directory that differs from a durable one only in its log and its markers,
    and whose log is a tail longer, opens with the durable values. *)
Lemma durable_opens ns d k h x used ls k' g f tail :
  let ns' := db_namespace (NewDB ns) in
  durable ns' d k h x used ls →
  dk_snapshot k' = dk_snapshot k → dk_meta k' = dk_meta k →
  manifest_part ns' (db_walGeneration d) k' →
  (∀ y, y ∈ dk_markers k → y ∈ dk_markers k') →
  dk_legacy k' = None → dk_wals k' = {[g := f]} → scan_lines f = ls ++ tail → short_lines f = true →
  ignored ns' (list_to_set (dk_markers k')) tail →
  ∃ d', Open ns k' = inr d' ∧ db_values d' = db_values d ∧
    (DBRoot d').2 = (DBRoot d).2 ∧ db_walGeneration d' = db_walGeneration d ∧ db_namespace d' = ns'.
Proof.
  intros ns' D Es Em Hm Hmk Hlg Hw Hsc Hsh Hig.
  destruct (du_history _ _ _ _ _ _ _ D) as (v0 & h0 & x0 & rs & Hs & Hl & Hc & Hnd & Hr).
  pose proof (du_generation _ _ _ _ _ _ _ D) as Hg.
  assert (snapshot_part ns' k' v0 h0 x0) as Hs'.
  { unfold snapshot_part. by rewrite Es, Em. }
  destruct (snapshot_loads _ (NewDB ns) k' v0 h0 x0 eq_refl Hs') as (meta & Hmeta & Hv & Hmh & Hmx & Hchk).
  assert (replayWAL (NewDB ns) k' v0 meta = inr (db_values d)) as Hrep.
  { eapply (replay_tail ns' (NewDB ns) k' g f ls tail v0 h0 x0 rs _ h x meta eq_refl); try done.
    intros r Hin. by apply Hmk, Hr. }
  rewrite <- Hv in Hrep. eexists. split.
  { apply (Load_spec (NewDB ns) _ meta _ _ Hmeta
      (manifest_loads _ (NewDB ns) _ k' eq_refl Hg Hm) Hchk Hrep). }
  split_and!; [done| |exact (manifest_generation _ _ k' _ _ Hg Hm)|done].
  rewrite (proj1 (DBRoot_ok d (du_db _ _ _ _ _ _ _ D))). by apply DBRoot_fresh.
Qed.

(** C40: recovery. Commit a chain of blocks of consecutive heights that link to each
    other, each with an id of its own that is not empty and without ordering no-ops,
    into a new database (log record, commit marker, snapshot when due), and crash
    between commits or while logging: behind the log are complete records without a
    commit marker and a torn last write. Opening the directory gives the values and
    the root of the last committed block, as long as no log line reaches the scanner's
    limit of 64 KiB. A crash inside [SnapshotIfDue] is not among these
    ([interrupted_snapshot_blocks_recovery]), and the lines of the log are taken as
    decoded, not as JSON text. *)
Theorem recovery_restores_committed (ns : string) (opts : PersistenceOptions)
    (qs : list commit_req) (d : DB) (k : disk) (extra : list walRecord) (torn : option N) :
  linked 0 "" ∅ qs → commit_all opts qs (NewDB ns, empty_disk) = Some (d, k) →
  Forall (λ r, logged (db_namespace d) r ∧ (wr_BlockHash r ∉ dk_markers k)) extra →
  forallb short_lines (walSegmentPaths (crashed d extra torn k)) = true →
  ∃ d', Open ns (crashed d extra torn k) = inr d' ∧ db_values d' = db_values d ∧
    (DBRoot d').2 = (DBRoot d).2 ∧ db_walGeneration d' = db_walGeneration d ∧
    db_namespace d' = db_namespace (NewDB ns).
Proof.
  intros L H He Hsh.
  destruct (durable_all _ opts qs _ _ _ _ _ _ _ _ (durable_new ns) L H) as (h & x & used & ls & D).
  rewrite (du_namespace _ _ _ _ _ _ _ D) in He.
  pose proof (du_legacy _ _ _ _ _ _ _ D) as Hlg.
  pose proof (crashed_wal d k ls extra torn (du_wal _ _ _ _ _ _ _ D)) as Hw.
  rewrite (segments_one _ _ (crashed d extra torn k) Hlg Hw) in Hsh. cbn [forallb] in Hsh.
  rewrite andb_true_r in Hsh.
  eapply (durable_opens ns d k h x used ls (crashed d extra torn k)); try done.
  { apply D. }
  { unfold scan_lines. cbn [wf_lines wf_torn]. by rewrite <- app_assoc. }
  apply ignored_tail. eapply Forall_impl; [exact He|]. intros r [Hlog Hx]. split; [done|].
  by rewrite elem_of_list_to_set.
Qed.

Ltac solve_linked :=
  vm_compute; split_and!; try done; try (by left); try (by right); try set_solver.

Definition sample_update (key : string) (delta : Z) : StateKV :=
  MkKV key "" [] "commutative_delta" delta "" "" "" "" false 0 "" 0 0 0 0 false.

Definition sample_commits : list commit_req :=
  [MkCommitReq 1 "b1" "" "id1" [sample_update "a" 5];
   MkCommitReq 2 "b2" "b1" "id2" [sample_update "a" 2; sample_update "b" 1];
   MkCommitReq 3 "b3" "b2" "id3" [sample_update "b" 4]].

Definition sample_opts : PersistenceOptions := MkOptions "strict" 1 2.

Definition sample_crash : DB * disk :=
  default (NewDB "", empty_disk) (commit_all sample_opts sample_commits (NewDB "", empty_disk)).

Definition sample_unmarked : walRecord :=
  delta_record sample_crash.1 (MkDeltaMeta 4 "b4" "b3" "id4" "x" "y") [sample_update "a" 9].

Lemma recovery_restores_committed_witness :
  let k := crashed sample_crash.1 [sample_unmarked] (Some 17) sample_crash.2 in
  db_values sample_crash.1 = {["s0::a" := "7"; "s0::b" := "5"]} ∧
  is_Some (dk_snapshot k) ∧
  ∃ d', Open "" k = inr d' ∧ db_values d' = db_values sample_crash.1 ∧
    (DBRoot d').2 = (DBRoot sample_crash.1).2 ∧
    db_walGeneration d' = db_walGeneration sample_crash.1 ∧ db_namespace d' = "s0".
Proof.
  intros k. split; [vm_compute; reflexivity|]. split; [by exists {["s0::a" := "7"; "s0::b" := "1"]}; vm_compute|].
  apply (recovery_restores_committed "" sample_opts sample_commits).
  - solve_linked.
  - vm_compute. reflexivity.
  - constructor; [|constructor]. split; [by repeat split; vm_compute|].
    by apply (bool_decide_unpack _); vm_compute.
  - vm_compute. reflexivity.
Defined.

(** ** Directories that recovery refuses or misreads *)

Lemma commit_block_disk opts q d k d' k' :
  commit_block opts q (d, k) = Some (d', k') → snapshot_due (cr_height q) opts = false →
  (0 < db_walGeneration d)%Z → ∃ r, let g := db_walGeneration d in
  k' = put_markers (dk_markers k ++ [cr_hash q])
    (put_wals (<[g := append_line r (default empty_wal (dk_wals k !! g))]> (dk_wals k))
      (match dk_manifest k with Some _ => k | None => writeWALManifest d g k end)).
Proof.
  intros H Hdue Hg. unfold commit_block in H. cbn [fst snd] in H.
  assert (db_namespace (DBRoot d).1 = db_namespace d ∧
          db_walGeneration (DBRoot d).1 = db_walGeneration d) as [N0 G0]
    by (unfold DBRoot, ensure_commitment; by destruct (db_commitment d)).
  destruct (DBRoot d) as [d0 before]. cbn [fst snd] in *.
  pose proof (batch_replays (cr_updates q) d0) as Hb.
  destruct (ApplyDeterministicBatch _ d0) as [d1 [e|]]; [done|].
  destruct (Hb d1 eq_refl) as (_ & N1 & G1 & _). clear Hb.
  assert (db_namespace (DBRoot d1).1 = db_namespace d1 ∧
          db_walGeneration (DBRoot d1).1 = db_walGeneration d1) as [N2 G2]
    by (unfold DBRoot, ensure_commitment; by destruct (db_commitment d1)).
  destruct (DBRoot d1) as [d2 after]. cbn [fst snd] in *.
  assert (db_walGeneration d2 = db_walGeneration d) as E2 by congruence.
  pose proof (proj2 (Z.leb_gt _ _) Hg) as Hg'. rewrite <- E2 in Hg'.
  unfold PersistDelta, appendWAL in H. rewrite Hg' in H. unfold wal_generation in H. rewrite Hg', E2 in H.
  revert H. generalize (delta_record d2 (MkDeltaMeta (cr_height q) (cr_hash q) (cr_parent q)
    (cr_id q) before after) (cr_updates q)) as r. intros r H. exists r. cbv zeta.
  unfold SnapshotIfDue in H. rewrite Hdue in H. cbn [negb] in H.
  apply (f_equal (default (d, k))) in H. cbn [default from_option id] in H.
  apply (f_equal snd) in H. cbn [snd] in H. rewrite <- H.
  destruct (dk_manifest k); [done|]. unfold writeWALManifest. rewrite N2, N1, N0. done.
Qed.

Lemma Load_frame d k d' :
  Load d k = inr d' → dk_manifest k = None ∨ (∃ m, dk_manifest k = Some m ∧ (0 < wm_ActiveGeneration m)%Z) →
  db_namespace d' = db_namespace d ∧
  (∀ m, dk_manifest k = Some m → db_walGeneration d' = wm_ActiveGeneration m) ∧
  (dk_manifest k = None → dk_snapshot k = None → db_walGeneration d' = db_walGeneration d).
Proof.
  unfold Load. destruct (loadSnapshotMetadata d k) as [|meta]; [done|]. cbn [mbind sum_mbind].
  unfold loadWALManifest. intros H Hm.
  destruct (dk_manifest k) as [m|]; [destruct (valid_manifest d m); [|done]|];
    cbn [mbind sum_mbind] in H;
    (destruct (if _ && _ then check_snapshot _ _ else None); [done|]);
    (destruct (replayWAL _ _ _ _); [done|]); cbn in H;
    apply (f_equal (λ s, match s with inr y => y | inl _ => d end)) in H; subst d'.
  - destruct Hm as [?|(? & [= <-] & Hp)]; [done|]. split_and!; [done| |done].
    intros ? [= <-]. cbn. by rewrite (proj2 (Z.ltb_lt _ _) Hp).
  - split_and!; [done|done|]. intros _ Hs. cbn. by rewrite Hs.
Qed.

Lemma opened_frame ns d k d1 :
  let ns' := db_namespace (NewDB ns) in
  (0 < db_walGeneration d)%Z → manifest_part ns' (db_walGeneration d) k → Open ns k = inr d1 →
  db_walGeneration d1 = db_walGeneration d ∧ db_namespace d1 = ns'.
Proof.
  intros ns' Hg Hm H. unfold Open in H. destruct (Load_frame _ _ _ H) as (N1 & G1 & G2).
  { destruct Hm as [[? _]|Hm]; [by left|right]. rewrite Hm. by eexists. }
  split; [|done]. destruct Hm as [(Hm & -> & Hs)|Hm]; [by rewrite G2|by rewrite (G1 _ Hm)].
Qed.

(** a crash that leaves part of a record at the end of the log costs the next
    block. The recovered database appends its next record behind the fragment, on
    the same line: the block is marked as committed, and the directory opens with
    the values before it. *)
Theorem torn_append_loses_block (ns : string) (opts : PersistenceOptions) (qs : list commit_req)
    (d : DB) (k : disk) (n : N) (d1 : DB) (q : commit_req) (d2 : DB) (k2 : disk) :
  linked 0 "" ∅ qs → commit_all opts qs (NewDB ns, empty_disk) = Some (d, k) →
  Open ns (crashed d [] (Some n) k) = inr d1 →
  commit_block opts q (d1, crashed d [] (Some n) k) = Some (d2, k2) →
  snapshot_due (cr_height q) opts = false →
  forallb short_lines (walSegmentPaths k2) = true →
  (cr_hash q ∈ dk_markers k2) ∧ ∃ d3, Open ns k2 = inr d3 ∧ db_values d3 = db_values d.
Proof.
  intros L H O1 C Hdue Hsh.
  destruct (durable_all _ opts qs _ _ _ _ _ _ _ _ (durable_new ns) L H) as (h & x & used & ls & D).
  pose proof (du_legacy _ _ _ _ _ _ _ D) as Hlg.
  pose proof (crashed_wal d k ls [] (Some n) (du_wal _ _ _ _ _ _ _ D)) as Hw.
  rewrite app_nil_r in Hw. pose proof (du_generation _ _ _ _ _ _ _ D) as Hg.
  pose proof (du_manifest _ _ _ _ _ _ _ D) as Hm.
  destruct (opened_frame ns d (crashed d [] (Some n) k) d1 Hg Hm O1) as [G1 N1].
  destruct (commit_block_disk opts q d1 _ d2 k2 C Hdue) as (r & ->); [by rewrite G1|].
  cbv zeta in *. rewrite G1, Hw, lookup_singleton_eq in *. rewrite insert_singleton_eq in *.
  cbn [default from_option id append_line wf_torn wf_lines] in *. unfold append_line in *. cbn in Hsh |- *.
  split; [apply elem_of_app; right; left|].
  set (k2 := put_markers _ _) in *. set (f := MkWal _ _) in *.
  assert (dk_wals k2 = {[db_walGeneration d := f]}) as Hw2 by done.
  assert (dk_legacy k2 = None) as Hlg2 by (unfold k2; cbn; by destruct (dk_manifest k)).
  rewrite (segments_one _ f k2 Hlg2 Hw2) in Hsh. cbn [forallb] in Hsh. rewrite andb_true_r in Hsh.
  destruct (durable_opens ns d k h x used ls k2 (db_walGeneration d) f
    [MkLine (n + encoded_length r) None] D) as (d3 & E & V & _); try done.
  - unfold k2. cbn. by destruct (dk_manifest k).
  - unfold k2. cbn. by destruct (dk_manifest k).
  - right. unfold k2. cbn. destruct Hm as [[E _]|E]; rewrite E; [cbn; by rewrite N1|exact E].
  - intros y Hy. apply elem_of_app. by left.
  - unfold scan_lines, f. cbn. by rewrite app_nil_r.
  - by exists d3.
Qed.

Definition next_commit : commit_req := MkCommitReq 3 "b3" "b2" "id3" [sample_update "b" 4].

Definition torn_commit : DB * disk :=
  default (NewDB "", empty_disk) (commit_all sample_opts (take 2 sample_commits) (NewDB "", empty_disk)).

Definition torn_opened : DB :=
  match Open "" (crashed torn_commit.1 [] (Some 7) torn_commit.2) with inr d => d | inl _ => NewDB "" end.

Definition torn_next : DB * disk :=
  default (NewDB "", empty_disk)
    (commit_block sample_opts next_commit (torn_opened, crashed torn_commit.1 [] (Some 7) torn_commit.2)).

Lemma torn_append_loses_block_witness :
  db_values torn_next.1 = {["s0::a" := "7"; "s0::b" := "5"]} ∧
  db_values torn_commit.1 = {["s0::a" := "7"; "s0::b" := "1"]} ∧
  (cr_hash next_commit ∈ dk_markers torn_next.2) ∧
  ∃ d3, Open "" torn_next.2 = inr d3 ∧ db_values d3 = db_values torn_commit.1.
Proof.
  split; [vm_compute; reflexivity|]. split; [vm_compute; reflexivity|].
  apply (torn_append_loses_block "" sample_opts (take 2 sample_commits) torn_commit.1 torn_commit.2 7
    torn_opened next_commit torn_next.1 torn_next.2).
  - solve_linked.
  - vm_compute. reflexivity.
  - vm_compute. reflexivity.
  - vm_compute. reflexivity.
  - vm_compute. reflexivity.
  - vm_compute. reflexivity.
Defined.

(** a log line of 64 KiB or more ends recovery. As soon as one line of the
    log (a committed record, one without a marker, or the fragment a crash left)
    reaches the scanner's limit, the directory cannot be opened, although every
    block of it was committed. *)
Theorem long_record_blocks_recovery (ns : string) (opts : PersistenceOptions) (qs : list commit_req)
    (d : DB) (k : disk) (extra : list walRecord) (torn : option N) :
  linked 0 "" ∅ qs → commit_all opts qs (NewDB ns, empty_disk) = Some (d, k) →
  dk_markers k ≠ [] → forallb short_lines (walSegmentPaths (crashed d extra torn k)) = false →
  Open ns (crashed d extra torn k) = inl LineTooLong.
Proof.
  intros L H Hmk Hsh.
  destruct (durable_all _ opts qs _ _ _ _ _ _ _ _ (durable_new ns) L H) as (h & x & used & ls & D).
  destruct (du_history _ _ _ _ _ _ _ D) as (v0 & h0 & x0 & rs & Hs & _).
  set (k' := crashed d extra torn k) in *.
  destruct (snapshot_loads _ (NewDB ns) k' v0 h0 x0 eq_refl Hs) as (meta & Hmeta & Hv & _ & _ & Hchk).
  pose proof (manifest_loads _ (NewDB ns) _ k' eq_refl (du_generation _ _ _ _ _ _ _ D)
    (du_manifest _ _ _ _ _ _ _ D)) as Hman.
  pose proof (segments_one _ _ k' (du_legacy _ _ _ _ _ _ _ D)
    (crashed_wal d k ls extra torn (du_wal _ _ _ _ _ _ _ D))) as Hseg.
  rewrite Hseg in Hsh. cbn [forallb] in Hsh. rewrite andb_true_r in Hsh.
  assert (replayWAL (NewDB ns) k' (default ∅ (dk_snapshot k')) meta = inl LineTooLong) as Hrep.
  { unfold replayWAL. rewrite bool_decide_eq_false_2.
    - rewrite Hseg. cbn [replay_files]. unfold readWALLines. unfold short_lines in Hsh. by rewrite Hsh.
    - intros E. apply size_empty_inv in E. change (dk_markers k') with (dk_markers k) in E.
      destruct (dk_markers k); [done|set_solver]. }
  unfold Open, Load. rewrite Hmeta. cbn [mbind sum_mbind]. rewrite Hman. cbn [mbind sum_mbind].
  destruct (_ && _) eqn:E; [rewrite Hchk by done|]; by rewrite Hrep.
Qed.

Lemma long_record_blocks_recovery_witness :
  Open "" (crashed sample_crash.1 [] (Some 70000) sample_crash.2) = inl LineTooLong.
Proof.
  apply (long_record_blocks_recovery "" sample_opts sample_commits).
  - solve_linked.
  - vm_compute. reflexivity.
  - vm_compute. discriminate.
  - vm_compute. reflexivity.
Defined.

(** a snapshot interrupted between its two files. The new snapshot replaces
    the old one before the metadata that carries its root is written: a crash in
    between leaves a directory that cannot be opened, unless the two states
    happen to have the same root. *)
Theorem interrupted_snapshot_blocks_recovery (ns : string) (opts : PersistenceOptions)
    (qs : list commit_req) (d : DB) (k : disk) (v0 : gmap string string) :
  linked 0 "" ∅ qs → commit_all opts qs (NewDB ns, empty_disk) = Some (d, k) →
  dk_snapshot k = Some v0 → Root (db_values d) ≠ Root v0 →
  Open ns (put_snapshot (db_values d) k) = inl SnapshotRootMismatch.
Proof.
  intros L H Hsnap Hne.
  destruct (durable_all _ opts qs _ _ _ _ _ _ _ _ (durable_new ns) L H) as (h & x & used & ls & D).
  destruct (du_history _ _ _ _ _ _ _ D) as (v1 & h0 & x0 & rs & Hs & _).
  destruct Hs as [(? & _)|(Hs & g & Hmeta)]; [congruence|]. simplify_eq.
  pose proof (manifest_loads _ (NewDB ns) _ k eq_refl (du_generation _ _ _ _ _ _ _ D)
    (du_manifest _ _ _ _ _ _ _ D)) as Hman.
  unfold Open, Load, loadSnapshotMetadata. cbn [dk_meta put_snapshot]. rewrite Hmeta.
  cbn [sm_Version sm_Namespace]. rewrite (bool_decide_eq_true_2 (_ = db_namespace (NewDB ns))) by done.
  rewrite (bool_decide_eq_true_2 ("state_snapshot_metadata_v1" = _)) by done. cbn [negb orb mbind sum_mbind].
  change (loadWALManifest (NewDB ns) (put_snapshot (db_values d) k)) with (loadWALManifest (NewDB ns) k).
  rewrite Hman. cbn [mbind sum_mbind dk_snapshot put_snapshot default from_option id].
  cbn [sm_Version]. rewrite (bool_decide_eq_true_2 (is_Some (Some _))) by done.
  rewrite (bool_decide_eq_false_2 ("state_snapshot_metadata_v1" = "")) by done. cbn [negb andb].
  unfold check_snapshot. cbn [sm_StateRootVersion sm_StateRoot].
  rewrite RootForVersion_current, !(bool_decide_eq_false_2 (Root _ = "")) by apply Root_nonempty.
  by rewrite bool_decide_eq_false_2.
Qed.

Lemma interrupted_snapshot_blocks_recovery_witness :
  Open "" (put_snapshot (db_values sample_crash.1) sample_crash.2) = inl SnapshotRootMismatch.
Proof.
  apply (interrupted_snapshot_blocks_recovery "" sample_opts sample_commits _ _
    {["s0::a" := "7"; "s0::b" := "1"]}).
  - solve_linked.
  - vm_compute. reflexivity.
  - vm_compute. reflexivity.
  - by apply (bool_decide_unpack _); vm_compute.
Defined.
