(* ===== verification/BlockStore.v ===== *)
(** * The block store: [storage/*.go]

    A data directory maps file names to bytes. Blocks, markers, receipts and the
    transaction index are JSON lines; [DurableCommitWithMetrics] appends to them in
    a fixed order, [ReadCommitted] reads them back, [ReadCommittedRange] through an
    index of offsets. [gzip] is a parameter; base64, JSON and SHA-256 are computed.
    Failing system calls are not modelled. *)
From S2P Require Import Prelude GoStd GoJson JsonRoundtrip GoStruct GoText Tx Block BlockCodec StateRoot Serial.
Import Json.
Local Open Scope N_scope.

(** [compress/gzip] at one level: a stream is decompressed to what was compressed. *)
Class Gzip := {
  gzip : list N → list N;
  gunzip : list N → option (list N);
  gzip_bytes : ∀ p, Forall (λ b, b < 256) p → Forall (λ b, b < 256) (gzip p);
  gunzip_gzip : ∀ p, Forall (λ b, b < 256) p → gunzip (gzip p) = Some p;
}.

Abbreviation dir := (gmap string (list N)).

(** ** Records *)

Record CommitRecord := MkCommitRecord {
  cr_Timestamp : Z;
  cr_NodeID : string;
  cr_ShardID : string;
  cr_Height : N;
  cr_BlockHash : string;
  cr_ProposerID : string;
  cr_TxCount : Z;
  cr_PrepareQuorum : bool;
  cr_CommitQuorum : bool;
  cr_Committed : bool;
  cr_StateCommit : bool;
}.

Record TxIndexRecord := MkTxIndex {
  ti_TxID : string;
  ti_BlockHash : string;
  ti_Height : N;
  ti_ReceiptOK : bool;
  ti_ReceiptRoot : string;
}.

Record CommitMarker := MkMarker {
  cm_Version : string;
  cm_NodeID : string;
  cm_ShardID : string;
  cm_Height : N;
  cm_BlockHash : string;
  cm_ReceiptRoot : string;
  cm_StateRoot : string;
  cm_Committed : bool;
  cm_BlockOffset : Z;
  cm_BlockLength : Z;
  cm_BlockSourceSize : Z;
}.

Record CommitSummary := MkSummary {
  cs_RuntimeStage : string;
  cs_RuntimeTruth : string;
  cs_NodeID : string;
  cs_ShardID : string;
  cs_CommittedHeight : N;
  cs_LatestBlockHash : string;
  cs_LatestStateRoot : string;
  cs_LatestReceiptRoot : string;
  cs_BlockDB : bool;
  cs_StateDB : bool;
  cs_ReceiptDB : bool;
  cs_TxIndex : bool;
  cs_StateCommit : bool;
}.

Record durableCompressedProposalPayload := MkWrapper {
  wp_Codec : string;
  wp_Encoding : string;
  wp_UncompressedBytes : Z;
  wp_UncompressedSHA256 : string;
  wp_PayloadGzipBase64 : string;
}.

#[global] Instance tx_index_eta : Eta TxIndexRecord := λ r,
  MkTxIndex (ti_TxID r) (ti_BlockHash r) (ti_Height r) (ti_ReceiptOK r) (ti_ReceiptRoot r).

Definition c_tx_index : codec TxIndexRecord := c_struct (MkTxIndex "" "" 0 false "")
  ["tx_id" ::= c_string at ti_TxID; "block_hash" ::= c_string at ti_BlockHash; "height" ::= c_uint at ti_Height;
   "receipt_success" ::= c_bool at ti_ReceiptOK; "receipt_root" ::= c_string at ti_ReceiptRoot].

Lemma tx_index_lawful : lawful c_tx_index.
Proof. solve_struct. Qed.

#[global] Instance marker_eta : Eta CommitMarker := λ r,
    MkMarker (cm_Version r) (cm_NodeID r) (cm_ShardID r) (cm_Height r) (cm_BlockHash r) (cm_ReceiptRoot r)
    (cm_StateRoot r) (cm_Committed r) (cm_BlockOffset r) (cm_BlockLength r) (cm_BlockSourceSize r).

Definition c_marker : codec CommitMarker := c_struct (MkMarker "" "" "" 0 "" "" "" false 0 0 0)
  ["version" ::= c_string at cm_Version; "node_id" ::= c_string at cm_NodeID;
   "shard_id" ::= c_string at cm_ShardID; "height" ::= c_uint at cm_Height;
   "block_hash" ::= c_string at cm_BlockHash; "receipt_root" ::= c_string at cm_ReceiptRoot;
   "state_root" ::= c_string at cm_StateRoot; "committed" ::= c_bool at cm_Committed;
   "block_offset" ?:= c_int at cm_BlockOffset; "block_length" ?:= c_int at cm_BlockLength;
   "block_source_size" ?:= c_int at cm_BlockSourceSize].

Lemma marker_lawful : lawful c_marker.
Proof. solve_struct. Qed.

#[global] Instance summary_eta : Eta CommitSummary := λ r,
    MkSummary (cs_RuntimeStage r) (cs_RuntimeTruth r) (cs_NodeID r) (cs_ShardID r) (cs_CommittedHeight r)
    (cs_LatestBlockHash r) (cs_LatestStateRoot r) (cs_LatestReceiptRoot r) (cs_BlockDB r) (cs_StateDB r)
    (cs_ReceiptDB r) (cs_TxIndex r) (cs_StateCommit r).

Definition c_summary : codec CommitSummary := c_struct (MkSummary "" "" "" "" 0 "" "" "" false false false false
    false)
  ["runtime_stage" ::= c_string at cs_RuntimeStage; "runtime_truth" ::= c_string at cs_RuntimeTruth;
   "node_id" ::= c_string at cs_NodeID; "shard_id" ::= c_string at cs_ShardID;
   "committed_height" ::= c_uint at cs_CommittedHeight; "latest_block_hash" ::= c_string at cs_LatestBlockHash;
   "latest_state_root" ::= c_string at cs_LatestStateRoot;
   "latest_receipt_root" ::= c_string at cs_LatestReceiptRoot; "block_db" ::= c_bool at cs_BlockDB;
   "state_db" ::= c_bool at cs_StateDB; "receipt_db" ::= c_bool at cs_ReceiptDB;
   "tx_index" ::= c_bool at cs_TxIndex; "state_commit" ::= c_bool at cs_StateCommit].

Lemma summary_lawful : lawful c_summary.
Proof. solve_struct. Qed.

#[global] Instance wrapper_eta : Eta durableCompressedProposalPayload := λ r,
    MkWrapper (wp_Codec r) (wp_Encoding r) (wp_UncompressedBytes r) (wp_UncompressedSHA256 r)
    (wp_PayloadGzipBase64 r).

Definition c_wrapper : codec durableCompressedProposalPayload := c_struct (MkWrapper "" "" 0 "" "")
  ["_mbe_storage_codec" ::= c_string at wp_Codec; "encoding" ::= c_string at wp_Encoding;
   "uncompressed_bytes" ::= c_int at wp_UncompressedBytes;
   "uncompressed_sha256" ::= c_string at wp_UncompressedSHA256;
   "payload_gzip_base64" ::= c_string at wp_PayloadGzipBase64].

Lemma wrapper_lawful : lawful c_wrapper.
Proof. solve_struct. Qed.

#[global] Instance commit_record_eta : Eta CommitRecord := λ r,
    MkCommitRecord (cr_Timestamp r) (cr_NodeID r) (cr_ShardID r) (cr_Height r) (cr_BlockHash r) (cr_ProposerID r)
    (cr_TxCount r) (cr_PrepareQuorum r) (cr_CommitQuorum r) (cr_Committed r) (cr_StateCommit r).

Definition c_commit_record : codec CommitRecord := c_struct (MkCommitRecord 0 "" "" 0 "" "" 0 false false false
    false)
  ["timestamp" ::= c_int at cr_Timestamp; "node_id" ::= c_string at cr_NodeID;
   "shard_id" ::= c_string at cr_ShardID; "height" ::= c_uint at cr_Height;
   "block_hash" ::= c_string at cr_BlockHash; "proposer_id" ::= c_string at cr_ProposerID;
   "tx_count" ::= c_int at cr_TxCount; "prepare_quorum" ::= c_bool at cr_PrepareQuorum;
   "commit_quorum" ::= c_bool at cr_CommitQuorum; "committed" ::= c_bool at cr_Committed;
   "state_commit" ::= c_bool at cr_StateCommit].

Lemma commit_record_lawful : lawful c_commit_record.
Proof. solve_struct. Qed.

(** ** Proposal evidence in storage *)

Definition durableProposalPayloadCodec : string := "mbe_v5_durable_proposal_gzip_v1".
Definition durableProposalCompressionThreshold : Z := 16 * 1024.
Definition durableProposalMaximumSemanticBytes : Z := 512 * 1024 * 1024.

Definition len {A} (l : list A) : Z := Z.of_nat (length l).

Definition sha256_bytes (p : list N) : string := hex_encode (Sha256.sum256 p).

Definition set_evidence (b : Block) (e : option ProposalEvidenceEnvelope) : Block := ltac:(set_field ProposalEvidence e b).
Definition set_payload (e : ProposalEvidenceEnvelope) (p : list N) : ProposalEvidenceEnvelope :=
  MkEvidence (pe_AlgorithmID e) (pe_PayloadDigest e) p.

Definition compressed_wrapper `{Gzip} (semantic : list N) : durableCompressedProposalPayload :=
  MkWrapper durableProposalPayloadCodec "gzip+base64+json" (len semantic) (sha256_bytes semantic)
    (string_of_bytes (b64_encode (gzip semantic))).

Definition blockForDurableStorage `{Gzip} (value : Block) : string + Block :=
  match ProposalEvidence value with
  | None => inr value
  | Some e =>
      if (len (pe_Payload e) <? durableProposalCompressionThreshold)%Z then inr value
      else
      let semantic := pe_Payload e in
      if (durableProposalMaximumSemanticBytes <? len semantic)%Z then inl "durable proposal evidence exceeds"
      else
      let encoded := bytes_of_string (Marshal c_wrapper (compressed_wrapper semantic)) in
      if (len semantic <=? len encoded)%Z then inr value
      else inr (set_evidence value (Some (set_payload e encoded)))
  end.

(** [io.ReadAll(io.LimitReader(reader, n))]. *)
Definition limited (n : Z) (p : list N) : list N := if (n <? len p)%Z then take (Z.to_nat n) p else p.

Definition restoreBlockFromDurableStorage `{Gzip} (value : Block) : string + Block :=
  match ProposalEvidence value with
  | None => inr value
  | Some e =>
      if length (pe_Payload e) ≟ O then inr value
      else
      match Unmarshal c_wrapper (string_of_bytes (pe_Payload e)) with
      | None => inr value
      | Some wrapper =>
          if wp_Codec wrapper ≟ "" then inr value
          else if wp_Codec wrapper ≠? durableProposalPayloadCodec
          then inl "unsupported durable proposal payload codec"
          else if wp_Encoding wrapper ≠? "gzip+base64+json" then inl "unsupported durable proposal payload encoding"
          else if (wp_UncompressedBytes wrapper <? 1)%Z ||
                  (durableProposalMaximumSemanticBytes <? wp_UncompressedBytes wrapper)%Z
          then inl "invalid durable proposal uncompressed size"
          else
          match b64_decode (bytes_of_string (wp_PayloadGzipBase64 wrapper)) with
          | None => inl "decode durable proposal base64"
          | Some compressed =>
              match gunzip compressed with
              | None => inl "decompress durable proposal evidence"
              | Some content =>
                  let semantic := limited (durableProposalMaximumSemanticBytes + 1) content in
                  if len semantic ≠? wp_UncompressedBytes wrapper
                  then inl "durable proposal uncompressed size mismatch"
                  else
                  let digest := sha256_bytes semantic in
                  if digest ≠? wp_UncompressedSHA256 wrapper then inl "durable proposal uncompressed digest mismatch"
                  else if (pe_PayloadDigest e ≠? "") && (pe_PayloadDigest e ≠? digest)
                  then inl "durable proposal commitment mismatch"
                  else inr (set_evidence value (Some (set_payload e semantic)))
              end
          end
      end
  end.

Definition durableProposalStorageEncoding (value : Block) : string :=
  match ProposalEvidence value with
  | None => "none"
  | Some e =>
      match Unmarshal c_wrapper (string_of_bytes (pe_Payload e)) with
      | Some wrapper => if wp_Codec wrapper ≟ durableProposalPayloadCodec then wp_Encoding wrapper else "plain_json"
      | None => "plain_json"
      end
  end.

(** ** Writing *)

Record BlockStore := MkBlockStore {
  bs_NodeID : string;
  bs_ShardID : string;
  bs_failpoint : string;
  bs_rollbackFailpoint : bool;
}.
Definition NewBlockStore (nodeID shardID : string) : BlockStore := MkBlockStore nodeID shardID "" false.
Definition SetFailpointForTest (s : BlockStore) (point : string) : BlockStore :=
  MkBlockStore (bs_NodeID s) (bs_ShardID s) point (bs_rollbackFailpoint s).
Definition SetRollbackFailpointForTest (s : BlockStore) (enabled : bool) : BlockStore :=
  MkBlockStore (bs_NodeID s) (bs_ShardID s) (bs_failpoint s) enabled.

Definition content (fs : dir) (path : string) : list N := default [] (fs !! path).
Definition line_of (text : string) : list N := bytes_of_string text ++ [10].

(** [json.NewEncoder(f).Encode]: the value and a line feed. *)
Definition appendJSONBatch (fs : dir) (path : string) (rows : list string) : dir * Z :=
  let after := content fs path ++ mjoin (line_of <$> rows) in
  (<[path := after]> fs, (len after - len (content fs path))%Z).
Definition appendJSON (fs : dir) (path : string) (row : string) : dir * Z := appendJSONBatch fs path [row].

(** A [json.RawMessage] that is no JSON value makes the encoder fail; the file has
    been opened by then. *)
Definition valid_raw (p : list N) : bool :=
  (length p ≟ O) || match parse_json (string_of_bytes p) with Some _ => true | None => false end.
Definition encodable (b : Block) : bool :=
  match ProposalEvidence b with Some e => valid_raw (pe_Payload e) | None => true end &&
  match ExecutionPlan b with Some e => valid_raw (ep_Payload e) | None => true end.
Definition touch (fs : dir) (path : string) : dir := <[path := content fs path]> fs.

(** [json.MarshalIndent(value, "", "  ")] of a struct of strings, numbers and
    booleans, and [metrics.WriteJSON]. *)
Definition marshal_indent (fields : list (string * json)) : string :=
  "{" +:+ nl +:+ join ("," +:+ nl) ((λ kv, "  " +:+ quote kv.1 +:+ ": " +:+ marshal kv.2) <$> fields) +:+ nl +:+ "}".
Definition WriteJSON (fs : dir) (path : string) (j : json) : dir :=
  <[path := match j with JObj fields => line_of (marshal_indent fields) | _ => line_of (marshal j) end]> fs.

(** [encoding/csv]: a field is quoted when it has to be. *)
Definition has_byte (p : N → bool) (s : string) : bool := existsb p (bytes_of_string s).
Definition csv_needs_quotes (s : string) : bool :=
  negb (s ≟ "") && ((s ≟ "\.") ||
    has_byte (λ b, (b =? 44) || (b =? 34) || (b =? 13) || (b =? 10)) s ||
    existsb (has_prefix s) spaces_fwd).
Definition csv_quoted (s : string) : list N :=
  34 :: mjoin ((λ b, if b =? 34 then [34; 34] else [b]) <$> bytes_of_string s) ++ [34].
Definition csv_field (s : string) : list N := if csv_needs_quotes s then csv_quoted s else bytes_of_string s.
Fixpoint csv_row (fields : list string) : list N :=
  match fields with [] => [10] | [x] => csv_field x ++ [10] | x :: rest => csv_field x ++ 44 :: csv_row rest end.
Definition WriteCSV (fs : dir) (path : string) (header : list string) (rows : list (list string)) : dir :=
  <[path := mjoin (csv_row <$> header :: rows)]> fs.

Definition format_bool (b : bool) : string := if b then "true" else "false".
Definition WriteCommitCSV (fs : dir) (path : string) (records : list CommitRecord) : dir :=
  WriteCSV fs path
    ["timestamp"; "node_id"; "shard_id"; "height"; "block_hash"; "proposer_id"; "tx_count"; "prepare_quorum";
     "commit_quorum"; "committed"; "state_commit"]
    ((λ r, [format_int (cr_Timestamp r); cr_NodeID r; cr_ShardID r; format_uint (cr_Height r); cr_BlockHash r;
            cr_ProposerID r; format_int (cr_TxCount r); format_bool (cr_PrepareQuorum r);
            format_bool (cr_CommitQuorum r); format_bool (cr_Committed r); format_bool (cr_StateCommit r)]) <$> records).

Definition blocks_file : string := "blocks.jsonl".
Definition legacy_file : string := "committed_blocks.jsonl".
Definition receipts_file : string := "receipts.jsonl".
Definition index_file : string := "tx_index.jsonl".
Definition markers_file : string := "commit_markers.jsonl".
Definition summary_file : string := "commit_summary.json".
Definition log_file : string := "commit_log.csv".

Definition marker_version : string := "durable_commit_marker_v1".

Definition set_commit (b : Block) : Block := ltac:(set_field StateCommit true b).

Definition index_record (receiptRoot : string) (r : Receipt) : TxIndexRecord :=
  MkTxIndex (rc_TxID r) (rc_BlockHash r) (rc_Height r) (rc_Success r) receiptRoot.

Definition commit_marker (s : BlockStore) (b : Block) (result : Result) (offset length : Z) : CommitMarker :=
  MkMarker marker_version (bs_NodeID s) (bs_ShardID s) (Height b) (BlockHash b) (re_ReceiptRoot result)
    (re_StateRootAfter result) true offset length (offset + length).

Definition commit_summary (s : BlockStore) (b : Block) (result : Result) : CommitSummary :=
  MkSummary "v4_2_state_cross_shard_recovery_frontend" "v4_real_state_cross_shard_recovery" (bs_NodeID s) (bs_ShardID s)
    (Height b) (BlockHash b) (re_StateRootAfter result) (re_ReceiptRoot result) true true true true true.

(** The directory after the call, the bytes written and the error. *)
Definition DurableCommitWithMetrics `{Gzip} (s : BlockStore) (fs : dir) (b : Block) (result : Result)
    : dir * Z * error :=
  let b := set_commit b in
  let '(fs, w1) := appendJSONBatch fs receipts_file (marshal ∘ json_receipt <$> re_Receipts result) in
  if bs_failpoint s ≟ "after_receipt_append"
  then (fs, w1, Some "injected durable commit failure after receipt append")
  else
  let '(fs, w2) := appendJSONBatch fs index_file
                     (Marshal c_tx_index ∘ index_record (re_ReceiptRoot result) <$> re_Receipts result) in
  match blockForDurableStorage b with
  | inl err => (fs, (w1 + w2)%Z, Some err)
  | inr storedBlock =>
      let blockOffset := len (content fs blocks_file) in
      if negb (encodable storedBlock) then (touch fs blocks_file, (w1 + w2)%Z, Some "write jsonl blocks.jsonl")
      else
      let '(fs, blockLength) := appendJSON fs blocks_file (Marshal c_block storedBlock) in
      if bs_failpoint s ≟ "after_block_append"
      then (fs, (w1 + w2 + blockLength)%Z, Some "injected durable commit failure after block append")
      else
      let '(fs, w4) := appendJSON fs markers_file (Marshal c_marker (commit_marker s b result blockOffset blockLength)) in
      let written := (w1 + w2 + blockLength + w4)%Z in
      if bs_failpoint s ≟ "after_commit_marker"
      then (fs, written, Some "injected durable commit failure after commit marker")
      else
      let fs := WriteJSON fs summary_file (c_enc c_summary (commit_summary s b result)) in
      let fs := WriteCSV fs log_file
        ["node_id"; "shard_id"; "height"; "block_hash"; "state_root_before"; "state_root_after"; "receipt_root";
         "tx_count"; "execution_status"; "state_commit"]
        [[bs_NodeID s; bs_ShardID s; format_uint (Height b); BlockHash b; re_StateRootBefore result;
          re_StateRootAfter result; re_ReceiptRoot result; format_uint (N.of_nat (length (default [] (TxIDs b))));
          "executed"; "true"]] in
      (fs, written, None)
  end.

Definition DurableCommit `{Gzip} (s : BlockStore) (fs : dir) (b : Block) (result : Result)
    : dir * (string + CommitSummary) :=
  match DurableCommitWithMetrics s fs b result with
  | (fs, _, Some err) => (fs, inl err)
  | (fs, _, None) => (fs, inr (commit_summary s b result))
  end.

(** The older log, one object with the block and its commit record per line. *)
Definition AppendCommitted (fs : dir) (b : Block) (record : CommitRecord) : dir * error :=
  if negb (encodable b) then (touch fs legacy_file, Some "write committed block")
  else ((appendJSON fs legacy_file
           (marshal (JObj (fld "block" (c_enc c_block b) ++ fld "commit" (c_enc c_commit_record record))))).1, None).

(** ** Checkpoint and rollback *)

(** The maps of the checkpoint in the order Go ranges over them; a size of -1 is a
    missing file. *)
Record ArtifactCheckpoint := MkCheckpoint {
  ac_appendSizes : list (string * Z);
  ac_replaceData : list (string * list N);
  ac_replaceMissing : list string;
}.

Definition append_files : list string := [blocks_file; receipts_file; index_file; markers_file].
Definition replace_files : list string := [summary_file; log_file].

Definition Checkpoint (fs : dir) : ArtifactCheckpoint :=
  MkCheckpoint
    ((λ path, (path, match fs !! path with Some data => len data | None => -1 end%Z)) <$> append_files)
    (omap (λ path, data ← fs !! path; Some (path, data)) replace_files)
    (filter (λ path, fs !! path = None) replace_files).

(** [file.Truncate(size)]: a longer size fills with zeros. *)
Definition truncate (data : list N) (size : Z) : list N :=
  take (Z.to_nat size) data ++ repeat 0 (Z.to_nat (size - len data)).

Fixpoint rollback_appends (fs : dir) (sizes : list (string * Z)) : dir * error :=
  match sizes with
  | [] => (fs, None)
  | (path, size) :: rest =>
      if (size =? -1)%Z then rollback_appends (delete path fs) rest
      else if (size <? -1)%Z then (fs, Some "invalid checkpoint size")
      else match fs !! path with
           | None => (fs, Some ("rollback missing append artifact " +:+ path))
           | Some data => rollback_appends (<[path := truncate data size]> fs) rest
           end
  end.

Definition Rollback (s : BlockStore) (fs : dir) (c : ArtifactCheckpoint) : dir * error :=
  if bs_rollbackFailpoint s then (fs, Some "injected block store rollback failure")
  else
  match rollback_appends fs (ac_appendSizes c) with
  | (fs, Some err) => (fs, Some err)
  | (fs, None) =>
      let fs := foldl (λ fs pd, <[pd.1 := pd.2]> fs) fs (ac_replaceData c) in
      (foldl (λ fs path, delete path fs) fs (ac_replaceMissing c), None)
  end.

(** ** Reading *)

(** Text up to the last line feed as lines, and what follows it. *)
Fixpoint split_lines (l : list N) : list (list N) * list N :=
  match l with
  | [] => ([], [])
  | b :: rest =>
      let '(lines, tail) := split_lines rest in
      if b =? 10 then ([] :: lines, tail)
      else match lines with [] => ([], b :: tail) | line :: lines => ((b :: line) :: lines, tail) end
  end.

Fixpoint take_while {A} (p : A → bool) (l : list A) : list A :=
  match l with x :: rest => if p x then x :: take_while p rest else [] | [] => [] end.

Definition drop_cr (line : list N) : list N :=
  match reverse line with 13 :: rest => reverse rest | _ => line end.

(** [bufio.Scanner]: the lines without their ends, the last one also when it has
    none, and whether a line did not fit the buffer. *)
Definition scan (max : Z) (l : list N) : list (list N) * bool :=
  let '(lines, tail) := split_lines l in
  let all := lines ++ (if length tail ≟ O then [] else [tail]) in
  let fits := (λ line, (len line <? max)%Z) in
  ((λ line, drop_cr line) <$> take_while fits all, negb (forallb fits all)).

Definition maxCommittedBlockRecordBytes : Z := 64 * 1024 * 1024.

Definition text_of (line : list N) : string := string_of_bytes line.

Inductive store_error :=
  | SeOpen | SeRow | SeBlock | SeRestore (reason : string) | SeInvalid (height : N) (hash : string)
  | SeTooLong | SeMarkerRow | SeMarker (hash : string) | SeIndexRow
  | SeRange | SeHeight (offset : Z) | SeZeroHeight (offset : Z) | SeReadAt (height : N)
  | SeMismatch (requested decoded : N) | SeLookup.

Definition marker_valid (m : CommitMarker) : bool :=
  (cm_Version m ≟ marker_version) && cm_Committed m && (cm_BlockHash m ≠? "").

(** The hashes of the markers that end in a line feed. *)
Fixpoint marker_hashes (lines : list (list N)) : store_error + list string :=
  match lines with
  | [] => inr []
  | line :: rest =>
      match Unmarshal c_marker (text_of (line ++ [10])) with
      | None => inl SeMarkerRow
      | Some m =>
          if negb (marker_valid m) then inl (SeMarker (cm_BlockHash m))
          else hashes ← marker_hashes rest; inr (cm_BlockHash m :: hashes)
      end
  end.
Definition committedMarkerHashes (fs : dir) : store_error + list string :=
  match fs !! markers_file with
  | None => inr []
  | Some data => marker_hashes (split_lines data).1
  end.

(** The last member of that name, as in a [map[string]json.RawMessage]. *)
Definition map_member (name : string) (ms : list (string * (jvalue * list N))) : option (list N) :=
  foldl (λ acc m, if m.1 ≟ name then Some m.2.2 else acc) None ms.

(** A row holds the block or an object with the block in it. *)
Definition row_text (row : list N) : option (list N) :=
  match parse_json (text_of row) with
  | Some (VObj ms) => Some (default row (map_member "block" ms))
  | Some VNull => Some row
  | _ => None
  end.

Definition decode_row `{Gzip} (row : list N) : store_error + Block :=
  match row_text row with
  | None => inl SeRow
  | Some raw =>
      match Unmarshal c_block (text_of raw) with
      | None => inl SeBlock
      | Some item =>
          match restoreBlockFromDurableStorage item with
          | inl err => inl (SeRestore err)
          | inr item =>
              if (Height item =? 0) || (BlockHash item ≟ "") then inl (SeInvalid (Height item) (BlockHash item))
              else inr item
          end
      end
  end.

Fixpoint decode_rows `{Gzip} (rows : list (list N)) : store_error + list Block :=
  match rows with
  | [] => inr []
  | row :: rest => item ← decode_row row; items ← decode_rows rest; inr (item :: items)
  end.

(** [legacy] tells which of the two logs is read. *)
Definition counts (legacy : bool) (markers : list string) (b : Block) : bool :=
  if length markers ≟ O then legacy else bool_decide (BlockHash b ∈ markers).

Definition ReadCommitted `{Gzip} (fs : dir) : store_error + list Block :=
  markers ← committedMarkerHashes fs;
  let legacy := bool_decide (is_Some (fs !! legacy_file)) in
  match fs !! (if legacy then legacy_file else blocks_file) with
  | None => inl SeOpen
  | Some data =>
      let '(rows, tooLong) := scan maxCommittedBlockRecordBytes data in
      items ← decode_rows rows;
      if tooLong : bool then inl SeTooLong
      else inr (filter (λ b, counts legacy markers b = true) items)
  end.

(** The default buffer of [bufio.Scanner]. *)
Definition MaxScanTokenSize : Z := 64 * 1024.

Fixpoint find_transaction (txID : string) (committed : list string) (rows : list (list N)) (tooLong : bool)
    : store_error + bool :=
  match rows with
  | [] => if tooLong then inl SeTooLong else inr false
  | row :: rest =>
      match Unmarshal c_tx_index (text_of row) with
      | None => inl SeIndexRow
      | Some r =>
          if (ti_TxID r ≟ txID) && bool_decide (ti_BlockHash r ∈ committed) then inr true
          else find_transaction txID committed rest tooLong
      end
  end.
Definition HasTransaction (fs : dir) (txID : string) : store_error + bool :=
  committed ← committedMarkerHashes fs;
  if length committed ≟ O then inr false
  else
  match fs !! index_file with
  | None => inr false
  | Some data => let '(rows, tooLong) := scan MaxScanTokenSize data in find_transaction txID committed rows tooLong
  end.

(** ** Ranges *)

Record durableBlockOffset := MkOffset { do_offset : Z; do_length : Z }.

Record durableBlockRangeIndex := MkIndex {
  ix_legacyWrapped : bool;
  ix_indexedSize : Z;
  ix_offsets : gmap N durableBlockOffset;
}.

(** [durableBlockRangeIndexes]: an index per path, kept by the process. *)
Abbreviation indexes := (gmap string durableBlockRangeIndex).
Definition blockRangeIndexForPath (ixs : indexes) (path : string) (legacyWrapped : bool) : durableBlockRangeIndex :=
  default (MkIndex legacyWrapped 0 ∅) (ixs !! path).

Definition committedBlockRangePath (fs : dir) : option (string * bool) :=
  if bool_decide (is_Some (fs !! legacy_file)) then Some (legacy_file, true)
  else if bool_decide (is_Some (fs !! blocks_file)) then Some (blocks_file, false)
  else None.

(** [struct{ Block json.RawMessage }]: the text of the member, or nothing. *)
Definition c_legacy_row : codec (list N) :=
  c_struct [] [MkField "block" false c_raw (λ p, p) (λ p _, p)].
Definition legacy_payload (line : list N) : option (list N) :=
  p ← Unmarshal c_legacy_row (text_of line); if length p ≟ O then None else Some p.

Definition c_header : codec N := c_struct 0 [MkField "height" false c_uint (λ n, n) (λ n _, n)].

Definition durableBlockHeightFromLine (line : list N) (legacyWrapped : bool) : option N :=
  if legacyWrapped then p ← legacy_payload line; Unmarshal c_header (text_of p)
  else Unmarshal c_header (text_of line).

Definition decodeDurableBlockLine `{Gzip} (line : list N) (legacyWrapped : bool) : option Block :=
  raw ← (if legacyWrapped then legacy_payload line else Some line);
  item ← Unmarshal c_block (text_of raw);
  match restoreBlockFromDurableStorage item with
  | inl _ => None
  | inr item => if (Height item =? 0) || (BlockHash item ≟ "") then None else Some item
  end.

(** The loop of [seedFromCommitMarkers]: the index so far, the next offset and the
    last height. *)
Record seeding := MkSeeding { sg_offsets : gmap N durableBlockOffset; sg_next : Z; sg_height : N; sg_count : nat }.

Definition seed_marker (sourceSize : Z) (g : seeding) (line : list N) : option seeding :=
  if trim_space (text_of line) ≟ "" then Some g
  else
  m ← Unmarshal c_marker (text_of line);
  if negb (cm_Version m ≟ marker_version) || negb (cm_Committed m) || (cm_Height m =? 0) || (cm_BlockHash m ≟ "") then None
  else if (cm_BlockLength m <=? 0)%Z || (maxCommittedBlockRecordBytes <? cm_BlockLength m)%Z ||
          (cm_BlockSourceSize m <=? 0)%Z then None
  else if (cm_BlockOffset m ≠? sg_next g) ||
          (cm_BlockSourceSize m ≠? i64_add (cm_BlockOffset m) (cm_BlockLength m)) ||
          (sourceSize <? cm_BlockSourceSize m)%Z || ((0 <? sg_height g) && (cm_Height m <=? sg_height g)) then None
  else Some (MkSeeding (<[cm_Height m := MkOffset (cm_BlockOffset m) (cm_BlockLength m)]> (sg_offsets g))
               (cm_BlockSourceSize m) (cm_Height m) (S (sg_count g))).

Fixpoint seed_markers (sourceSize : Z) (g : seeding) (lines : list (list N)) : option seeding :=
  match lines with [] => Some g | line :: rest => g ← seed_marker sourceSize g line; seed_markers sourceSize g rest end.

Definition seedFromCommitMarkers (fs : dir) (ix : durableBlockRangeIndex) (sourceSize : Z)
    : option durableBlockRangeIndex :=
  if ix_legacyWrapped ix || (sourceSize <=? 0)%Z then None
  else
  data ← fs !! markers_file;
  g ← seed_markers sourceSize (MkSeeding ∅ 0 0 0) (split_lines data).1;
  if sg_count g ≟ O then None
  else Some (MkIndex (ix_legacyWrapped ix) (sg_next g) (sg_offsets g)).

(** The lines from an offset on that end in a line feed, into the index. *)
Fixpoint index_lines (legacyWrapped : bool) (offset : Z) (offsets : gmap N durableBlockOffset)
    (lines : list (list N)) : store_error + (Z * gmap N durableBlockOffset) :=
  match lines with
  | [] => inr (offset, offsets)
  | line :: rest =>
      match durableBlockHeightFromLine (line ++ [10]) legacyWrapped with
      | None => inl (SeHeight offset)
      | Some height =>
          if height =? 0 then inl (SeZeroHeight offset)
          else
          let size := (len line + 1)%Z in
          index_lines legacyWrapped (offset + size) (<[height := MkOffset offset size]> offsets) rest
      end
  end.

(** The offsets an error leaves behind: those of the lines before it. *)
Fixpoint index_prefix (legacyWrapped : bool) (offset : Z) (offsets : gmap N durableBlockOffset)
    (lines : list (list N)) : gmap N durableBlockOffset :=
  match lines with
  | [] => offsets
  | line :: rest =>
      match durableBlockHeightFromLine (line ++ [10]) legacyWrapped with
      | None => offsets
      | Some height =>
          if height =? 0 then offsets
          else
          let size := (len line + 1)%Z in
          index_prefix legacyWrapped (offset + size) (<[height := MkOffset offset size]> offsets) rest
      end
  end.

Definition scan_index (data : list N) (ix : durableBlockRangeIndex) : durableBlockRangeIndex * option store_error :=
  let start := ix_indexedSize ix in
  let lines := (split_lines (drop (Z.to_nat start) data)).1 in
  match index_lines (ix_legacyWrapped ix) start (ix_offsets ix) lines with
  | inl err =>
      (MkIndex (ix_legacyWrapped ix) start (index_prefix (ix_legacyWrapped ix) start (ix_offsets ix) lines), Some err)
  | inr (offset, offsets) => (MkIndex (ix_legacyWrapped ix) offset offsets, None)
  end.

Definition refresh (fs : dir) (path : string) (ix : durableBlockRangeIndex)
    : durableBlockRangeIndex * option store_error :=
  match fs !! path with
  | None => (ix, Some SeOpen)
  | Some data =>
      let size := len data in
      if (size =? ix_indexedSize ix)%Z then (ix, None)
      else
      let ix := if (size <? ix_indexedSize ix)%Z then MkIndex (ix_legacyWrapped ix) 0 ∅ else ix in
      if (ix_indexedSize ix =? 0)%Z && bool_decide (ix_offsets ix = ∅) && negb (ix_legacyWrapped ix) then
        match seedFromCommitMarkers fs ix size with
        | Some seeded => if (size =? ix_indexedSize seeded)%Z then (seeded, None) else scan_index data seeded
        | None => scan_index data ix
        end
      else scan_index data ix
  end.

(** [file.ReadAt]: all of the bytes or an error. *)
Definition ReadAt (data : list N) (offset length : Z) : option (list N) :=
  if (offset <? 0)%Z || (len data <? offset + length)%Z then None
  else Some (take (Z.to_nat length) (drop (Z.to_nat offset) data)).

Definition read_height `{Gzip} (data : list N) (ix : durableBlockRangeIndex) (legacy : bool) (markers : list string)
    (height : N) : store_error + list Block :=
  match ix_offsets ix !! height with
  | None => inr []
  | Some record =>
      match ReadAt data (do_offset record) (do_length record) with
      | None => inl (SeReadAt height)
      | Some line =>
          match decodeDurableBlockLine line legacy with
          | None => inl SeBlock
          | Some item =>
              if Height item ≠? height then inl (SeMismatch height (Height item))
              else inr (if counts legacy markers item then [item] else [])
          end
      end
  end.

Fixpoint read_heights `{Gzip} (data : list N) (ix : durableBlockRangeIndex) (legacy : bool) (markers : list string)
    (height : N) (count : nat) : store_error + list Block :=
  match count with
  | O => inr []
  | S count =>
      items ← read_height data ix legacy markers height;
      rest ← read_heights data ix legacy markers (height + 1) count;
      inr (items ++ rest)
  end.

(** The index of the path after the call, and the blocks. *)
Definition ReadCommittedRange `{Gzip} (fs : dir) (ixs : indexes) (fromHeight toHeight : N)
    : indexes * (store_error + list Block) :=
  if (fromHeight =? 0) || (toHeight <? fromHeight) then (ixs, inl SeRange)
  else
  match committedBlockRangePath fs with
  | None => (ixs, inl SeOpen)
  | Some (path, legacy) =>
      let ix := blockRangeIndexForPath ixs path legacy in
      let ix := if bool_decide (ix_legacyWrapped ix = legacy) then ix else MkIndex legacy 0 ∅ in
      match refresh fs path ix with
      | (ix, Some err) => (<[path := ix]> ixs, inl err)
      | (ix, None) =>
          (<[path := ix]> ixs,
           markers ← committedMarkerHashes fs;
           read_heights (content fs path) ix legacy markers fromHeight (N.to_nat (toHeight - fromHeight + 1)))
      end
  end.

Definition ReadCommittedAtHeight `{Gzip} (fs : dir) (ixs : indexes) (height : N)
    : indexes * (store_error + option Block) :=
  if height =? 0 then (ixs, inr None)
  else
  let '(ixs, result) := ReadCommittedRange fs ixs height height in
  (ixs, blocks ← result;
        match blocks with
        | [] => inr None
        | [b] => if Height b ≟ height then inr (Some b) else inl SeLookup
        | _ => inl SeLookup
        end).
