(* ===== verification/BlockStoreProps.v ===== *)
(** * The block store: lines, rows and stored blocks *)
From S2P Require Import Prelude GoStd GoJson JsonRoundtrip GoStruct GoText Tx Block BlockCodec StateRoot Serial BlockStore.
Import Json.
Local Open Scope N_scope.
#[local] Opaque Sha256.sum256 sha256_bytes.

(** ** Lines *)

Definition unbroken (line : list N) : Prop := Forall (λ b, b ≠ 10) line.

Lemma split_lines_tail tail : unbroken tail → split_lines tail = ([], tail).
Proof.
  induction 1 as [|b tail Hb _ IH]; [done|]. simpl. rewrite IH, (proj2 (N.eqb_neq _ _)) by done. done.
Qed.

Lemma split_lines_cons line rest : unbroken line →
  split_lines (line ++ 10 :: rest) = (line :: (split_lines rest).1, (split_lines rest).2).
Proof.
  induction 1 as [|b line Hb _ IH]; simpl.
  - by destruct (split_lines rest).
  - rewrite IH. by rewrite (proj2 (N.eqb_neq _ _)).
Qed.

Definition lines_text (lines : list (list N)) : list N := mjoin ((λ line, line ++ [10]) <$> lines).

Lemma split_lines_text lines tail : Forall unbroken lines → unbroken tail →
  split_lines (lines_text lines ++ tail) = (lines, tail).
Proof.
  intros Hl Ht. induction Hl as [|line lines Hline _ IH]; [by apply split_lines_tail|].
  change (lines_text (line :: lines)) with ((line ++ [10]) ++ lines_text lines). rewrite <- !app_assoc. cbn [app].
  by rewrite split_lines_cons, IH.
Qed.

Lemma lines_text_app l1 l2 : lines_text (l1 ++ l2) = lines_text l1 ++ lines_text l2.
Proof. unfold lines_text. rewrite fmap_app. apply join_app. Qed.

(** ** Rows *)

Lemma printable_unbroken t : printable t → unbroken t.
Proof. intros H. eapply Forall_impl; [exact H|]. intros b Hb. simpl in Hb. lia. Qed.

Lemma marshal_unbroken {T} (c : codec T) t : lawful c → c_ok c t → unbroken (bytes_of_string (Marshal c t)).
Proof. intros Hl Hok. apply printable_unbroken, marshal_printable, Hl, Hok. Qed.

Lemma text_of_bytes s : text_of (bytes_of_string s) = s.
Proof. apply string_of_bytes_of. Qed.

Lemma text_of_line s : text_of (bytes_of_string s ++ [10]) = s +:+ nl.
Proof. rewrite <- (string_of_bytes_of (s +:+ nl)). unfold text_of. by rewrite bytes_app. Qed.

(** A struct is read from its line, with or without the line feed. *)
Lemma unmarshal_line {A} zero (fs : list (field A)) a : lawful (c_struct zero fs) → c_ok (c_struct zero fs) a →
  Unmarshal (c_struct zero fs) (Marshal (c_struct zero fs) a +:+ nl) = Some a.
Proof.
  intros Hl Hok. destruct (Hl a Hok) as [Hj Hr]. unfold Unmarshal, Marshal. cbn [c_struct c_enc] in Hj |- *.
  rewrite parse_json_line by done. exact Hr.
Qed.

Lemma block_line b : c_ok c_block b → Unmarshal c_block (Marshal c_block b +:+ nl) = Some b.
Proof. exact (unmarshal_line _ _ _ block_lawful). Qed.
Lemma marker_line m : c_ok c_marker m → Unmarshal c_marker (Marshal c_marker m +:+ nl) = Some m.
Proof. exact (unmarshal_line _ _ _ marker_lawful). Qed.

(** The fields of a block: one is called [height], none [block]. *)
Definition other_field (kv : string * json) : Prop := kv.1 ≠ "block" ∧ same_field "height" kv.1 = false.

Lemma block_members b : ∃ l1 l2,
  c_enc c_block b = JObj (l1 ++ ("height", JUint (Height b)) :: l2) ∧ Forall other_field (l1 ++ l2).
Proof.
  exists [("block_hash", JStr (BlockHash b)); ("shard_id", JStr (ShardID b))]. eexists. split; [reflexivity|].
  assert (∀ k v, k ≠ "block" → same_field "height" k = false → other_field (k, v)) as Hone by done.
  unfold opt_arr, opt_obj, fld. cbn [app].
  repeat (apply Forall_cons; split; [by apply Hone; vm_compute|]).
  repeat (apply Forall_app; split); try (by constructor); unfold emit; cbn [f_omit f_codec f_name f_get c_opt].
  all: cbn; unfold opt_arr, opt_obj; repeat case_match; repeat constructor; by vm_compute.
Qed.

(** ** Evidence *)

Lemma hex_ascii l : Forall (λ b, b < 256) l → Forall (λ b, b < 128) (bytes_of_string (hex_encode l)).
Proof.
  assert (∀ n, n < 16 → N_of_ascii (hex_digit n) < 128) as Hd.
  { intros n Hn. unfold hex_digit, byte_of. destruct (N.ltb_spec n 10); rewrite N_ascii_embedding by lia; lia. }
  induction 1 as [|b l Hb _ IH]; [constructor|]. cbn [hex_encode]. rewrite !bytes_cons.
  repeat constructor; [apply Hd, div_bound; lia|apply Hd, mod_bound; done|done].
Qed.

Lemma sha256_utf8 p : utf8_string (sha256_bytes p).
Proof. Transparent sha256_bytes. apply ascii_utf8, hex_ascii, sum256_range. Opaque sha256_bytes. Qed.

Lemma b64_utf8 l : Forall (λ b, b < 256) l → utf8_string (string_of_bytes (b64_encode l)).
Proof.
  intros Hl. pose proof (b64_no_breaks l Hl) as Hb. apply ascii_utf8. rewrite bytes_of_bytes.
  - eapply Forall_impl; [exact Hb|]. simpl. lia.
  - eapply Forall_impl; [exact Hb|]. simpl. lia.
Qed.

Section Stored.
Context `{Gzip}.

Lemma wrapper_ok p : Forall (λ b, b < 256) p → (len p <= durableProposalMaximumSemanticBytes)%Z →
  c_ok c_wrapper (compressed_wrapper p).
Proof.
  intros Hb Hp. cbn [c_wrapper c_struct c_ok].
  repeat (apply Forall_cons; split; [|]); [by apply name_utf8|by apply name_utf8| |apply sha256_utf8|
    apply b64_utf8, gzip_bytes, Hb|constructor].
  cbn. unfold len, durableProposalMaximumSemanticBytes, min_int64, max_int64 in *. lia.
Qed.

Lemma wrapper_marshalled p : Forall (λ b, b < 256) p → (len p <= durableProposalMaximumSemanticBytes)%Z →
  marshalled (bytes_of_string (Marshal c_wrapper (compressed_wrapper p))).
Proof.
  intros Hb Hp. exists (c_enc c_wrapper (compressed_wrapper p)). split; [|split; [|done]].
  - cbn. unfold opt_str, opt_int. repeat case_match; by repeat split.
  - by apply wrapper_lawful, wrapper_ok.
Qed.

(** Evidence that storage gives back: compressed evidence must match its digest,
    and plain evidence must not look compressed. *)
Definition evidence_ok (e : ProposalEvidenceEnvelope) : Prop :=
  (len (pe_Payload e) <= durableProposalMaximumSemanticBytes)%Z ∧
  (pe_PayloadDigest e = "" ∨ pe_PayloadDigest e = sha256_bytes (pe_Payload e)) ∧
  match Unmarshal c_wrapper (string_of_bytes (pe_Payload e)) with Some w => wp_Codec w = "" | None => True end.

Record storable (b : Block) : Prop := {
  st_typed : c_ok c_block b;
  st_height : Height b ≠ 0;
  st_hash : BlockHash b ≠ "";
  st_evidence : match ProposalEvidence b with Some e => evidence_ok e | None => True end;
}.

Lemma block_ok_evidence b e : c_ok c_block b → c_ok c_evidence e → c_ok c_block (set_evidence b (Some e)).
Proof.
  cbn [c_block c_struct c_ok]. intros Hb He. repeat (apply Forall_cons in Hb as [? Hb]).
  repeat (apply Forall_cons; split; [assumption|]). constructor.
Qed.

Lemma evidence_of b e : c_ok c_block b → ProposalEvidence b = Some e → c_ok c_evidence e.
Proof.
  cbn [c_block c_struct c_ok]. intros Hb He. repeat (apply Forall_cons in Hb as [? Hb]).
  match goal with H : c_ok (f_codec _) _ |- _ => cbn [f_codec f_get] in H; rewrite He in H; exact H end.
Qed.

Lemma evidence_payload_ok e p : c_ok c_evidence e → marshalled p → c_ok c_evidence (set_payload e p).
Proof.
  cbn [c_evidence c_struct c_ok]. intros He Hp. repeat (apply Forall_cons in He as [? He]).
  repeat (apply Forall_cons; split; [assumption|]). apply Forall_cons. split; [by right|constructor].
Qed.

Lemma restore_plain b : match ProposalEvidence b with Some e => evidence_ok e | None => True end →
  restoreBlockFromDurableStorage b = inr b.
Proof.
  unfold restoreBlockFromDurableStorage. destruct (ProposalEvidence b) as [e|]; [|done]. intros (_ & _ & Hw).
  case_bool_decide; [done|]. destruct (Unmarshal _ _) as [w|]; [|done]. by rewrite bool_decide_eq_true_2.
Qed.

Lemma limited_all p : (len p <= durableProposalMaximumSemanticBytes)%Z →
  limited (durableProposalMaximumSemanticBytes + 1) p = p.
Proof. intros Hp. unfold limited. by rewrite (proj2 (Z.ltb_ge _ _)) by lia. Qed.

Lemma payload_bytes e : c_ok c_evidence e → Forall (λ b, b < 256) (pe_Payload e).
Proof.
  cbn [c_evidence c_struct c_ok]. intros He. do 2 (apply Forall_cons in He as [_ He]). apply Forall_cons in He as [He _].
  cbn in He. destruct He as [-> |(j & _ & _ & ->)]; [constructor|apply bytes_small].
Qed.

Lemma restore_compressed b e : ProposalEvidence b = Some e → c_ok c_evidence e → evidence_ok e → pe_Payload e ≠ [] →
  restoreBlockFromDurableStorage
    (set_evidence b (Some (set_payload e (bytes_of_string (Marshal c_wrapper (compressed_wrapper (pe_Payload e))))))) = inr b.
Proof.
  intros He Hc (Hmax & Hd & _) Hne. pose proof (payload_bytes e Hc) as Hb. set (p := pe_Payload e) in *.
  pose proof (wrapper_ok p Hb Hmax) as Hw. pose proof (wrapper_marshalled p Hb Hmax) as Hm.
  unfold restoreBlockFromDurableStorage. cbn [set_evidence ProposalEvidence set_payload pe_Payload pe_PayloadDigest].
  rewrite bool_decide_eq_false_2.
  2:{ intros Hz. apply (marshalled_nonempty _ Hm). by apply nil_length_inv. }
  rewrite string_of_bytes_of, (unmarshal_marshal _ _ wrapper_lawful Hw).
  cbn [compressed_wrapper wp_Codec wp_Encoding wp_UncompressedBytes wp_UncompressedSHA256 wp_PayloadGzipBase64].
  rewrite bool_decide_eq_false_2 by done. rewrite !(bool_decide_eq_true_2 (_ = _)) by done. cbn [negb].
  assert ((len p <? 1)%Z = false) as ->.
  { apply Z.ltb_ge. unfold len. destruct p; [done|]. simpl. lia. }
  rewrite (proj2 (Z.ltb_ge _ _)) by done. cbn [orb].
  assert (bytes_of_string (string_of_bytes (b64_encode (gzip p))) = b64_encode (gzip p)) as ->.
  { apply bytes_of_bytes. eapply Forall_impl; [by apply b64_no_breaks, gzip_bytes|]. simpl. lia. }
  rewrite (b64_decode_encode _ (gzip_bytes p Hb)), gunzip_gzip, limited_all by done.
  rewrite !(bool_decide_eq_true_2 (_ = _)) by done. cbn [negb].
  assert ((pe_PayloadDigest e ≠? "") && (pe_PayloadDigest e ≠? sha256_bytes p) = false) as ->.
  { apply andb_false_iff. destruct Hd as [-> | ->]; [by left|right]. by rewrite bool_decide_eq_true_2. }
  f_equal. destruct b, e. cbn in He. by rewrite He.
Qed.

Lemma valid_marshalled p : p = [] ∨ marshalled p → valid_raw p = true.
Proof.
  intros [-> |(j & _ & Hj & ->)]; [done|]. unfold valid_raw. rewrite string_of_bytes_of, parse_json_marshal by done.
  by rewrite orb_true_r.
Qed.

Lemma encodable_ok b : c_ok c_block b → encodable b = true.
Proof.
  cbn [c_block c_struct c_ok]. intros Hb. do 16 (apply Forall_cons in Hb as [_ Hb]).
  apply Forall_cons in Hb as [Hplan Hb]. apply Forall_cons in Hb as [Hev _].
  cbn [f_codec f_get c_pointer c_ok] in Hplan, Hev. unfold encodable. apply andb_true_iff. split.
  - destruct (ProposalEvidence b) as [e|]; [|done]. cbn [c_evidence c_struct c_ok] in Hev.
    do 2 (apply Forall_cons in Hev as [_ Hev]). apply Forall_cons in Hev as [Hev _]. by apply valid_marshalled.
  - destruct (ExecutionPlan b) as [e|]; [|done]. cbn [c_plan c_struct c_ok] in Hplan.
    do 3 (apply Forall_cons in Hplan as [_ Hplan]). apply Forall_cons in Hplan as [Hplan _]. by apply valid_marshalled.
Qed.

(** ** Stored blocks *)

(** What [blockForDurableStorage] makes of a block can be read and restored. *)
Lemma stored_block b : storable b → ∃ sb, blockForDurableStorage b = inr sb ∧ c_ok c_block sb ∧
  restoreBlockFromDurableStorage sb = inr b ∧ Height sb = Height b ∧ BlockHash sb = BlockHash b.
Proof.
  intros [Hok Hh Hb He]. pose proof (restore_plain b He) as Hp. unfold blockForDurableStorage.
  destruct (ProposalEvidence b) as [e|] eqn:Ee; [|by exists b].
  destruct (Z.ltb_spec (len (pe_Payload e)) durableProposalCompressionThreshold) as [Hs|Hs]; [by exists b|].
  pose proof He as (Hmax & _). rewrite (proj2 (Z.ltb_ge _ _)) by done.
  destruct (_ <=? _)%Z; [by exists b|]. eexists. split; [done|]. split_and!; [|..|done|done].
  - apply block_ok_evidence; [done|]. apply evidence_payload_ok; [by eapply evidence_of|].
    apply wrapper_marshalled; [by eapply payload_bytes, evidence_of|done].
  - apply restore_compressed; [done|by eapply evidence_of|done|]. intros Hz. rewrite Hz in Hs. by apply Z.leb_le in Hs.
Qed.

Definition row (sb : Block) : list N := bytes_of_string (Marshal c_block sb).

(** [sb] is the stored form of [b]. *)
Record stored_as (b sb : Block) : Prop := {
  sa_storable : storable b;
  sa_form : blockForDurableStorage b = inr sb;
  sa_fits : (len (row sb) < maxCommittedBlockRecordBytes)%Z;
}.

Lemma stored_as_ok b sb : stored_as b sb → c_ok c_block sb ∧ restoreBlockFromDurableStorage sb = inr b ∧
  Height sb = Height b ∧ BlockHash sb = BlockHash b.
Proof. intros [Hs Hf _]. destruct (stored_block b Hs) as (sb' & E & H'). rewrite Hf in E. by injection E as <-. Qed.

Lemma map_member_none name ms : Forall (λ m, m.1 ≠ name) ms → map_member name ms = None.
Proof.
  intros Hms. unfold map_member. induction Hms as [|m ms Hm _ IH]; [done|]. simpl. by rewrite bool_decide_eq_false_2.
Qed.

Lemma row_text_own sb : c_ok c_block sb → row_text (row sb) = Some (row sb).
Proof.
  intros Hok. destruct (block_lawful sb Hok) as [Hj _]. unfold row_text, row. rewrite text_of_bytes. unfold Marshal.
  rewrite parse_json_marshal by done. destruct (block_members sb) as (l1 & l2 & E & Hl). rewrite E. cbn [value_of].
  rewrite map_member_none; [done|]. apply Forall_map. apply Forall_app in Hl as [H1 H2].
  apply Forall_app. split; [|apply Forall_cons; split; [done|]]; (eapply Forall_impl; [eassumption|]); by intros [k v] [? _].
Qed.

Lemma decode_row_stored b sb : stored_as b sb → decode_row (row sb) = inr b.
Proof.
  intros Hs. destruct (stored_as_ok _ _ Hs) as (Hok & Hr & _). unfold decode_row. rewrite row_text_own by done.
  unfold row. rewrite text_of_bytes, unmarshal_marshal by (done || apply block_lawful). rewrite Hr.
  destruct Hs as [[_ Hh Hb _] _ _]. by rewrite (proj2 (N.eqb_neq _ _)), bool_decide_eq_false_2.
Qed.

Lemma decode_line_item line item b : Unmarshal c_block (text_of line) = Some item →
  restoreBlockFromDurableStorage item = inr b → Height b ≠ 0 → BlockHash b ≠ "" →
  decodeDurableBlockLine line false = Some b.
Proof.
  intros E Hr Hh Hb. unfold decodeDurableBlockLine. cbn [mbind option_bind].
  revert E. generalize (Unmarshal c_block (text_of line)). intros o ->. cbn [mbind option_bind]. rewrite Hr.
  by rewrite (proj2 (N.eqb_neq _ _) Hh), bool_decide_eq_false_2.
Qed.

Lemma row_line_read sb : c_ok c_block sb → Unmarshal c_block (text_of (row sb ++ [10])) = Some sb.
Proof. intros Hok. unfold row. rewrite text_of_line. by apply block_line. Qed.

Lemma decode_line_stored b sb : stored_as b sb → decodeDurableBlockLine (row sb ++ [10]) false = Some b.
Proof.
  intros Hs. destruct (stored_as_ok _ _ Hs) as (Hok & Hr & _).
  exact (decode_line_item _ _ _ (row_line_read sb Hok) Hr (st_height _ (sa_storable _ _ Hs)) (st_hash _ (sa_storable _ _ Hs))).
Qed.

Lemma height_typed sb : c_ok c_block sb → Height sb <= max_uint64.
Proof. cbn [c_block c_struct c_ok]. intros Hb. by repeat (apply Forall_cons in Hb as [? Hb]). Qed.

Lemma load_others ms n : Forall (λ m, same_field "height" m.1 = false) ms →
  foldl (load_member [MkField "height" false c_uint (λ n : N, n) (λ n _, n)]) (Some n) ms = Some n.
Proof.
  induction 1 as [|m ms Hm _ IH]; [done|]. cbn [foldl]. unfold load_member at 2. cbn [mbind option_bind find f_name].
  by rewrite Hm.
Qed.

Lemma height_line_stored b sb : stored_as b sb →
  durableBlockHeightFromLine (row sb ++ [10]) false = Some (Height b).
Proof.
  intros Hs. destruct (stored_as_ok _ _ Hs) as (Hok & _ & Hh & _). destruct (block_lawful sb Hok) as [Hj _].
  unfold durableBlockHeightFromLine, row, Marshal. rewrite text_of_line. unfold Unmarshal.
  destruct (block_members sb) as (l1 & l2 & E & Hl). rewrite E in *. rewrite parse_json_line by done.
  cbn [mbind option_bind value_of]. unfold c_header. cbn [c_struct c_dec]. apply Forall_app in Hl as [H1 H2].
  rewrite map_app, foldl_app. rewrite load_others.
  2:{ apply Forall_map. eapply Forall_impl; [exact H1|]. by intros [k v] [_ ?]. }
  cbn [map foldl]. unfold load_member at 2. cbn [mbind option_bind find f_name fst snd].
  change (same_field "height" "height") with true. cbn [f_codec f_get f_set c_uint c_dec value_of].
  rewrite parse_uint_format by (by apply height_typed). cbn [mbind option_bind]. rewrite load_others, Hh; [done|].
  apply Forall_map. eapply Forall_impl; [exact H2|]. by intros [k v] [_ ?].
Qed.
End Stored.
