(* ===== verification/BlockStoreTheorems.v ===== *)
(** * The block store: commits are read back, rollback undoes them *)
From S2P Require Import Prelude GoStd GoJson JsonRoundtrip GoStruct GoText Tx Block BlockCodec StateRoot Serial BlockStore BlockStoreProps.
Import Json.
Local Open Scope N_scope.
#[local] Opaque Sha256.sum256 sha256_bytes.

Definition marker_row (m : CommitMarker) : list N := bytes_of_string (Marshal c_marker m).

Section Store.
Context `{Gzip}.

(** What the directory holds: the blocks with their stored forms, in the order of
    the log, and the markers. *)
Record holds (fs : dir) (rows : list (Block * Block)) (marks : list CommitMarker) : Prop := {
  ho_legacy : fs !! legacy_file = None;
  ho_blocks : content fs blocks_file = lines_text ((λ r, row r.2) <$> rows);
  ho_rows : Forall (λ r, stored_as r.1 r.2) rows;
  ho_markers : content fs markers_file = lines_text (marker_row <$> marks);
  ho_marks : Forall (λ m, c_ok c_marker m ∧ marker_valid m = true) marks;
}.

Definition hashes (marks : list CommitMarker) : list string := cm_BlockHash <$> marks.

(** The blocks with a marker. *)
Definition committed (rows : list (Block * Block)) (marks : list CommitMarker) : list Block :=
  filter (λ b, BlockHash b ∈ hashes marks) rows.*1.

Lemma rows_unbroken rows : Forall (λ r, stored_as r.1 r.2) rows → Forall unbroken ((λ r, row r.2) <$> rows).
Proof.
  intros Hr. apply Forall_fmap. eapply Forall_impl; [exact Hr|]. intros [b sb] Hs. simpl.
  apply (marshal_unbroken c_block); [apply block_lawful|]. by apply (stored_as_ok b).
Qed.

Lemma marks_unbroken marks : Forall (λ m, c_ok c_marker m ∧ marker_valid m = true) marks →
  Forall unbroken (marker_row <$> marks).
Proof.
  intros Hm. apply Forall_fmap. eapply Forall_impl; [exact Hm|]. intros m [Hok _].
  by apply (marshal_unbroken c_marker); [apply marker_lawful|].
Qed.

Lemma lines_text_nil lines : lines_text lines = [] → lines = [].
Proof. destruct lines as [|line lines]; [done|]. unfold lines_text. simpl. by destruct line. Qed.

Lemma split_lines_all lines : Forall unbroken lines → split_lines (lines_text lines) = (lines, []).
Proof. intros Hl. rewrite <- (app_nil_r (lines_text lines)). apply split_lines_text; [done|constructor]. Qed.

Lemma marker_hashes_read marks : Forall (λ m, c_ok c_marker m ∧ marker_valid m = true) marks →
  marker_hashes (marker_row <$> marks) = inr (hashes marks).
Proof.
  induction 1 as [|m marks [Hok Hv] _ IH]; [done|]. rewrite fmap_cons. cbn [marker_hashes].
  unfold marker_row at 1. rewrite text_of_line, marker_line, Hv, IH by done. done.
Qed.

Lemma holds_markers fs rows marks : holds fs rows marks → committedMarkerHashes fs = inr (hashes marks).
Proof.
  intros [_ _ _ Hm Hok]. unfold committedMarkerHashes. unfold content in Hm.
  destruct (fs !! markers_file) as [data|]; simpl in Hm.
  - rewrite Hm, split_lines_all by (by apply marks_unbroken). by apply marker_hashes_read.
  - symmetry in Hm. apply lines_text_nil in Hm. by destruct marks.
Qed.

Lemma counts_committed marks b : counts false (hashes marks) b = bool_decide (BlockHash b ∈ hashes marks).
Proof.
  unfold counts. case_bool_decide as E; [|done]. apply nil_length_inv in E. rewrite E. symmetry.
  apply bool_decide_eq_false. apply not_elem_of_nil.
Qed.

Lemma row_no_cr b sb : stored_as b sb → drop_cr (row sb) = row sb.
Proof.
  intros _. unfold drop_cr, row, Marshal. destruct (block_members sb) as (l1 & l2 & E & _). rewrite E. cbn [marshal].
  rewrite !bytes_app, !reverse_app. done.
Qed.

Lemma take_while_all {A} (p : A → bool) l : forallb p l = true → take_while p l = l.
Proof. induction l as [|a l IH]; [done|]. simpl. intros [-> Hl]%andb_true_iff. by rewrite IH. Qed.

Lemma rows_scan rows : Forall (λ r, stored_as r.1 r.2) rows →
  scan maxCommittedBlockRecordBytes (lines_text ((λ r, row r.2) <$> rows)) = ((λ r, row r.2) <$> rows, false).
Proof.
  intros Hr. unfold scan. rewrite split_lines_all by (by apply rows_unbroken). rewrite bool_decide_eq_true_2, app_nil_r by done.
  assert (forallb (λ line, (len line <? maxCommittedBlockRecordBytes)%Z) ((λ r, row r.2) <$> rows) = true) as Hf.
  { apply forallb_forall. intros line Hl. apply list_elem_of_In, list_elem_of_fmap in Hl as ([b sb] & -> & Hin).
    rewrite Forall_forall in Hr. apply Z.ltb_lt, (sa_fits b), (Hr (b, sb) Hin). }
  rewrite Hf, take_while_all by done. f_equal. rewrite <- list_fmap_compose. apply list_fmap_ext.
  intros i [b sb] Hi. simpl. rewrite Forall_lookup in Hr. by apply (row_no_cr b), (Hr i (b, sb)).
Qed.

Lemma rows_decoded rows : Forall (λ r, stored_as r.1 r.2) rows → decode_rows ((λ r, row r.2) <$> rows) = inr rows.*1.
Proof.
  induction 1 as [|[b sb] rows Hs _ IH]; [done|]. rewrite !fmap_cons. cbn [decode_rows]. simpl.
  rewrite (decode_row_stored b sb Hs), IH. done.
Qed.

(** Reading gives the blocks with a marker, in the order of the log. *)
Lemma read_committed fs rows marks : holds fs rows marks → is_Some (fs !! blocks_file) →
  ReadCommitted fs = inr (committed rows marks).
Proof.
  intros Hh [data Hd]. pose proof (holds_markers _ _ _ Hh) as Hm. destruct Hh as [Hl Hb Hr _ _].
  unfold ReadCommitted. rewrite Hm. cbn [mbind sum_mbind]. rewrite Hl.
  rewrite bool_decide_eq_false_2 by (by intros [? ?]). rewrite Hd. unfold content in Hb. rewrite Hd in Hb. simpl in Hb.
  subst data. rewrite rows_scan by done. rewrite rows_decoded by done. cbn [mbind sum_mbind]. f_equal.
  apply list_filter_iff. intros b. rewrite counts_committed. apply bool_decide_eq_true.
Qed.

(** ** Commits *)

Lemma content_insert (fs : dir) path data : content (<[path := data]> fs) path = data.
Proof. unfold content. by rewrite lookup_insert_eq. Qed.
Lemma content_insert_ne (fs : dir) path path' data : path ≠ path' → content (<[path := data]> fs) path' = content fs path'.
Proof. intros Hne. unfold content. by rewrite lookup_insert_ne. Qed.

Definition appended (fs : dir) (path : string) (lines : list (list N)) : dir :=
  <[path := content fs path ++ lines_text lines]> fs.

Lemma append_batch fs path rows : appendJSONBatch fs path rows =
  (appended fs path (bytes_of_string <$> rows), len (lines_text (bytes_of_string <$> rows))).
Proof.
  unfold appendJSONBatch, appended.
  assert (mjoin (line_of <$> rows) = lines_text (bytes_of_string <$> rows)) as ->.
  { unfold lines_text. by rewrite <- list_fmap_compose. }
  f_equal. unfold len. rewrite length_app. lia.
Qed.

Lemma append_one fs path text : appendJSON fs path text =
  (appended fs path [bytes_of_string text], (len (bytes_of_string text) + 1)%Z).
Proof.
  unfold appendJSON. rewrite append_batch. f_equal. unfold lines_text, len. simpl. rewrite app_nil_r, length_app. simpl. lia.
Qed.

(** The directory after each write of a commit. *)
Definition receipts_written (fs : dir) (result : Result) : dir :=
  appended fs receipts_file (bytes_of_string <$> (marshal ∘ json_receipt <$> re_Receipts result)).
Definition index_written (fs : dir) (result : Result) : dir :=
  appended (receipts_written fs result) index_file
    (bytes_of_string <$> (Marshal c_tx_index ∘ index_record (re_ReceiptRoot result) <$> re_Receipts result)).
Definition block_written (fs : dir) (result : Result) (sb : Block) : dir :=
  appended (index_written fs result) blocks_file [row sb].
Definition new_marker (s : BlockStore) (fs : dir) (b : Block) (result : Result) (sb : Block) : CommitMarker :=
  commit_marker s (set_commit b) result (len (content fs blocks_file)) (len (row sb) + 1).
Definition marker_written (s : BlockStore) (fs : dir) (b : Block) (result : Result) (sb : Block) : dir :=
  appended (block_written fs result sb) markers_file [marker_row (new_marker s fs b result sb)].

Definition interrupted (point : string) : bool :=
  (point ≟ "after_receipt_append") || (point ≟ "after_block_append") || (point ≟ "after_commit_marker").

Definition overwritten (fs fs' : dir) : Prop :=
  ∀ path, path ∉ replace_files → fs' !! path = fs !! path.

Lemma index_content fs result : content (index_written fs result) blocks_file = content fs blocks_file.
Proof. unfold index_written, receipts_written, appended. by rewrite !content_insert_ne. Qed.

Lemma commit_stages s fs b result sb : blockForDurableStorage (set_commit b) = inr sb → encodable sb = true →
  ∃ fs' written err, DurableCommitWithMetrics s fs b result = (fs', written, err) ∧
    (err = None ↔ interrupted (bs_failpoint s) = false) ∧
    overwritten (if bs_failpoint s ≟ "after_receipt_append" then receipts_written fs result
                 else if bs_failpoint s ≟ "after_block_append" then block_written fs result sb
                 else marker_written s fs b result sb) fs'.
Proof.
  intros Hf He. unfold DurableCommitWithMetrics. rewrite append_batch. fold (receipts_written fs result).
  unfold interrupted. destruct (bs_failpoint s ≟ "after_receipt_append") eqn:E1.
  { eexists _, _, _. split; [reflexivity|]. split; [done|by intros ? ?]. }
  rewrite append_batch. fold (index_written fs result). rewrite Hf, He. cbn [negb].
  rewrite append_one. fold (row sb). fold (block_written fs result sb).
  destruct (bs_failpoint s ≟ "after_block_append") eqn:E2.
  { eexists _, _, _. split; [reflexivity|]. split; [done|by intros ? ?]. }
  rewrite append_one, index_content. fold (new_marker s fs b result sb).
  fold (marker_row (new_marker s fs b result sb)). fold (marker_written s fs b result sb).
  destruct (bs_failpoint s ≟ "after_commit_marker") eqn:E3.
  { eexists _, _, _. split; [reflexivity|]. split; [done|by intros ? ?]. }
  eexists _, _, _. split; [reflexivity|]. split; [done|]. intros path Hp. unfold WriteCSV, WriteJSON.
  rewrite !lookup_insert_ne; [done|..]; intros <-; apply Hp; unfold replace_files; set_solver.
Qed.
(** ** What a commit adds *)

Definition core_files : list string := [legacy_file; blocks_file; markers_file].

Lemma holds_same fs fs' rows marks : (∀ path, path ∈ core_files → fs' !! path = fs !! path) →
  holds fs rows marks → holds fs' rows marks.
Proof.
  intros Hsame [Hl Hb Hr Hm Hok].
  assert (∀ path, path ∈ core_files → content fs' path = content fs path) as Hc by (intros path Hp; unfold content; by rewrite Hsame).
  split; [rewrite Hsame; [done|]|rewrite Hc; [done|]|done|rewrite Hc; [done|]|done]; unfold core_files; set_solver.
Qed.

Lemma holds_append_other fs path lines rows marks : path ∉ core_files → holds fs rows marks →
  holds (appended fs path lines) rows marks.
Proof. intros Hp. apply holds_same. intros path' Hp'. unfold appended. rewrite lookup_insert_ne; [done|]. by intros ->. Qed.

Lemma holds_block fs rows marks b sb : stored_as b sb → holds fs rows marks →
  holds (appended fs blocks_file [row sb]) (rows ++ [(b, sb)]) marks.
Proof.
  intros Hs [Hl Hb Hr Hm Hok]. unfold appended. split; [by rewrite lookup_insert_ne| | |by rewrite content_insert_ne|done].
  - by rewrite content_insert, Hb, fmap_app, lines_text_app.
  - apply Forall_app. split; [done|]. by apply Forall_singleton.
Qed.

Lemma holds_mark fs rows marks m : c_ok c_marker m → marker_valid m = true → holds fs rows marks →
  holds (appended fs markers_file [marker_row m]) rows (marks ++ [m]).
Proof.
  intros Hc Hv [Hl Hb Hr Hm Hok]. unfold appended.
  split; [by rewrite lookup_insert_ne|by rewrite content_insert_ne|done| |].
  - by rewrite content_insert, Hm, fmap_app, lines_text_app.
  - apply Forall_app. split; [done|]. by apply Forall_singleton.
Qed.

(** Values of the Go types in a commit: strings are UTF-8 and the log is shorter
    than an [int64] counts. *)
Definition commit_typed (s : BlockStore) (fs : dir) (result : Result) (sb : Block) : Prop :=
  utf8_string (bs_NodeID s) ∧ utf8_string (bs_ShardID s) ∧ utf8_string (re_ReceiptRoot result) ∧
  utf8_string (re_StateRootAfter result) ∧ (len (content fs blocks_file) + len (row sb) + 1 <= max_int64)%Z.

Lemma new_marker_ok s fs b result sb : stored_as (set_commit b) sb → commit_typed s fs result sb →
  c_ok c_marker (new_marker s fs b result sb) ∧ marker_valid (new_marker s fs b result sb) = true.
Proof.
  intros Hs (Hn & Hsh & Hrr & Hsr & Hsize). pose proof Hs as [[Hok _ Hh _] _ _].
  assert (utf8_string (BlockHash b) ∧ Height b <= max_uint64) as [Hbh Hbt].
  { cbn [c_block c_struct c_ok] in Hok. do 3 apply Forall_cons in Hok as [? Hok]. done. }
  assert (∀ l : list N, (0 <= len l)%Z) as Hpos by (unfold len; lia).
  pose proof (Hpos (content fs blocks_file)) as Ho. pose proof (Hpos (row sb)) as Hlen. unfold new_marker.
  revert Hsize Ho Hlen. generalize (len (content fs blocks_file)) (len (row sb)). intros o n Hsize Ho Hlen. split.
  - cbn [c_marker c_struct c_ok]. repeat (apply Forall_cons; split; [|]); try apply Forall_nil_2;
      cbn; try done; try (by apply name_utf8); unfold min_int64, max_int64 in *; try lia.
  - unfold marker_valid. by rewrite !andb_true_iff, negb_true_iff, bool_decide_eq_true, bool_decide_eq_false.
Qed.

(** An interrupted commit leaves the directory as it was, with an unmarked block, or
    with the block committed. *)
Lemma commit_holds s fs b result sb rows marks : holds fs rows marks → stored_as (set_commit b) sb →
  commit_typed s fs result sb →
  ∃ fs' written err, DurableCommitWithMetrics s fs b result = (fs', written, err) ∧
    (err = None ↔ interrupted (bs_failpoint s) = false) ∧
    (is_Some (fs !! blocks_file) ∨ bs_failpoint s ≠ "after_receipt_append" → is_Some (fs' !! blocks_file)) ∧
    if bs_failpoint s ≟ "after_receipt_append" then holds fs' rows marks
    else if bs_failpoint s ≟ "after_block_append" then holds fs' (rows ++ [(set_commit b, sb)]) marks
    else holds fs' (rows ++ [(set_commit b, sb)]) (marks ++ [new_marker s fs b result sb]) ∧
         is_Some (fs' !! blocks_file) ∧ content fs' blocks_file = content fs blocks_file ++ row sb ++ [10].
Proof.
  intros Hh Hs Ht. destruct (new_marker_ok s fs b result sb Hs Ht) as [Hm Hv].
  destruct (commit_stages s fs b result sb) as (fs' & w & err & Er & He & Ho).
  { apply Hs. }
  { apply encodable_ok. by apply (stored_as_ok (set_commit b)). }
  exists fs', w, err. split; [done|]. split; [done|]. split.
  { rewrite Ho by (unfold replace_files; set_solver). unfold marker_written, block_written, index_written, receipts_written, appended.
    case_bool_decide as Ep; [by rewrite lookup_insert_ne; [intros [?|?]|]|].
    destruct (_ ≟ "after_block_append"); [|rewrite lookup_insert_ne by done]; rewrite lookup_insert_eq; intros _; by eexists. }
  assert (∀ g, overwritten g fs' → ∀ rows marks, holds g rows marks → holds fs' rows marks) as Hov.
  { intros g Hg rows' marks'. apply holds_same. intros path Hp. apply Hg. intros Hr.
    unfold core_files, replace_files in *. set_solver. }
  assert (holds (receipts_written fs result) rows marks) as H1 by (apply holds_append_other; [by vm_compute; set_solver|done]).
  assert (holds (index_written fs result) rows marks) as H2 by (apply holds_append_other; [by vm_compute; set_solver|done]).
  destruct (_ ≟ "after_receipt_append"); [by eapply Hov|].
  pose proof (holds_block _ _ _ _ _ Hs H2) as H3. destruct (_ ≟ "after_block_append"); [by eapply Hov|].
  split; [eapply Hov; [exact Ho|by apply holds_mark]|].
  assert (fs' !! blocks_file = Some (content fs blocks_file ++ row sb ++ [10])) as E.
  { rewrite Ho by (unfold replace_files; set_solver). unfold marker_written, block_written, appended at 1.
    rewrite lookup_insert_ne by done. unfold appended at 1. rewrite lookup_insert_eq, index_content.
    unfold lines_text. simpl. by rewrite app_nil_r. }
  rewrite E. split; [by eexists|]. unfold content at 1. by rewrite E.
Qed.
(** ** Sequences of commits *)

Definition commit_all (s : BlockStore) (fs : dir) (l : list (Block * Result)) : dir :=
  foldl (λ fs br, (DurableCommitWithMetrics s fs br.1 br.2).1.1) fs l.

Definition size_of_row (r : Block * Block) : Z := (len (row r.2) + 1)%Z.
Definition text_of_rows (rows : list (Block * Block)) : list N := lines_text ((λ r, row r.2) <$> rows).
Definition rows_size (rows : list (Block * Block)) : Z := len (text_of_rows rows).

(** A marker points at its row. *)
Definition marks_row (rows : list (Block * Block)) (m : CommitMarker) : Prop :=
  ∃ i r, rows !! i = Some r ∧ cm_BlockOffset m = rows_size (take i rows) ∧ cm_BlockLength m = size_of_row r ∧
    cm_Height m = Height r.1.

Lemma marks_row_app rows rows' m : marks_row rows m → marks_row (rows ++ rows') m.
Proof.
  intros (i & r & Hi & Ho & Hl & Hh). exists i, r. pose proof (lookup_lt_Some _ _ _ Hi).
  rewrite lookup_app_l, take_app_le by lia. done.
Qed.

Lemma marks_row_new s fs rows marks b result sb : holds fs rows marks →
  marks_row (rows ++ [(set_commit b, sb)]) (new_marker s fs b result sb).
Proof.
  intros Hh. exists (length rows), (set_commit b, sb). rewrite list_lookup_middle by done. split; [done|].
  rewrite take_app_length. split; [|done]. unfold rows_size, text_of_rows. by rewrite <- (ho_blocks _ _ _ Hh).
Qed.

(** A block and a result that can be stored. *)
Definition durable (br : Block * Result) : Prop :=
  (∃ sb, stored_as (set_commit br.1) sb) ∧ utf8_string (re_ReceiptRoot br.2) ∧ utf8_string (re_StateRootAfter br.2).

Definition store_ready (s : BlockStore) : Prop :=
  bs_failpoint s = "" ∧ utf8_string (bs_NodeID s) ∧ utf8_string (bs_ShardID s).

(** A log of that many lines of at most 64 MiB is shorter than an [int64] counts. *)
Definition max_commits : Z := 2 ^ 36.

Record committed_all (fs : dir) (l : list Block) (rows : list (Block * Block)) (marks : list CommitMarker) : Prop := {
  ca_holds : holds fs rows marks;
  ca_rows : rows.*1 = l;
  ca_marks : hashes marks = BlockHash <$> l;
  ca_size : (len (content fs blocks_file) <= len rows * maxCommittedBlockRecordBytes)%Z;
  ca_exists : l ≠ [] → is_Some (fs !! blocks_file);
  ca_linked : Forall (marks_row rows) marks;
}.

Lemma committed_all_blocks fs l rows marks : committed_all fs l rows marks → committed rows marks = l.
Proof.
  intros [_ Hr Hm _ _ _]. unfold committed. rewrite Hr, Hm. apply filter_all. intros b Hb.
  apply list_elem_of_fmap. by exists b.
Qed.

Lemma commit_next s fs l rows marks b result sb : committed_all fs l rows marks → store_ready s →
  durable (b, result) → stored_as (set_commit b) sb → (len rows < max_commits)%Z →
  commit_typed s fs result sb.
Proof.
  intros [_ _ _ Hsize _ _] (_ & Hn & Hsh) (_ & Hrr & Hsr) Hs Hlen. split_and!; [done..|].
  pose proof (sa_fits _ _ Hs). unfold max_commits, maxCommittedBlockRecordBytes, max_int64 in *. nia.
Qed.

Lemma commit_all_holds s l : store_ready s → ∀ fs done rows marks, committed_all fs done rows marks →
  Forall durable l → (len rows + len l <= max_commits)%Z →
  ∃ rows' marks', committed_all (commit_all s fs l) (done ++ (set_commit <$> l.*1)) rows' marks' ∧
    len rows' = (len rows + len l)%Z.
Proof.
  intros Hs. induction l as [|[b result] l IH]; intros fs done rows marks Hc Hl Hlen.
  { exists rows, marks. rewrite app_nil_r. split; [done|]. unfold len. simpl. lia. }
  apply Forall_cons in Hl as [Hd Hl]. pose proof Hd as [[sb Hsb] _]. unfold len in Hlen. simpl in Hlen.
  assert (commit_typed s fs result sb) as Ht by (eapply commit_next; [done..|unfold len; lia]).
  destruct (commit_holds s fs b result sb rows marks (ca_holds _ _ _ _ Hc) Hsb Ht) as (fs' & w & err & Er & _ & _ & Hh).
  rewrite (proj1 Hs) in Hh. destruct Hh as (Hh & Hex & Hcont).
  destruct (IH fs' (done ++ [set_commit b]) (rows ++ [(set_commit b, sb)])
    (marks ++ [new_marker s fs b result sb])) as (rows' & marks' & Hc' & Hl').
  - destruct Hc as [Hold Hr Hm Hsize _ Hlink]. split; [done| | | |done|].
    + by rewrite fmap_app, Hr.
    + unfold hashes in *. by rewrite !fmap_app, Hm.
    + rewrite Hcont. pose proof (sa_fits _ _ Hsb) as Hfit. revert Hfit Hsize. unfold len. rewrite !length_app.
      generalize (length (content fs blocks_file)) (length (row sb)). intros c n. cbn [length].
      unfold maxCommittedBlockRecordBytes. lia.
    + apply Forall_app. split; [|apply Forall_singleton; by eapply marks_row_new].
      eapply Forall_impl; [exact Hlink|]. intros m. apply marks_row_app.
  - done.
  - unfold len. rewrite length_app. simpl. lia.
  - exists rows', marks'. cbn [commit_all foldl]. unfold commit_all in Hc'. cbn [fst snd] in *. rewrite Er. cbn [fst].
    rewrite <- app_assoc in Hc'. split; [exact Hc'|]. rewrite Hl'. unfold len. rewrite length_app. simpl. lia.
Qed.
Lemma nothing_committed : committed_all ∅ [] [] [].
Proof. by repeat constructor. Qed.

Lemma commit_all_read s l : store_ready s → Forall durable l → (len l <= max_commits)%Z →
  ∃ rows marks, committed_all (commit_all s ∅ l) (set_commit <$> l.*1) rows marks ∧ len rows = len l.
Proof.
  intros Hs Hl Hlen. destruct (commit_all_holds s l Hs ∅ [] [] [] nothing_committed Hl) as (rows & marks & Hc & Hr).
  { done. }
  exists rows, marks. done.
Qed.

(** C13: What is committed is read back: after any non-empty sequence of durable commits
    into an empty directory, [ReadCommitted] returns exactly the committed blocks, in
    order and with their proposal evidence, through JSON, base64 and compression. A
    block is durable when its texts are UTF-8, its height is not 0 and its hash not
    empty, its raw payloads are texts that [json.Marshal] prints, its evidence is at
    most 512 MiB long, carries no digest or its own and has no field
    [_mbe_storage_codec], and its row is shorter than 64 MiB. *)
Theorem durable_commits_read_back s l :
  store_ready s → Forall durable l → l ≠ [] → (len l <= max_commits)%Z →
  ReadCommitted (commit_all s ∅ l) = inr (set_commit <$> l.*1).
Proof.
  intros Hs Hl Hne Hlen. destruct (commit_all_read s l Hs Hl Hlen) as (rows & marks & Hc & _).
  rewrite (read_committed _ rows marks).
  - by rewrite (committed_all_blocks _ _ _ _ Hc).
  - apply Hc.
  - apply Hc. by destruct l.
Qed.

Lemma committed_app rows marks b sb marks' :
  committed (rows ++ [(b, sb)]) (marks ++ marks') =
  filter (λ b, BlockHash b ∈ hashes marks ++ hashes marks') rows.*1 ++
  (if decide (BlockHash b ∈ hashes marks ++ hashes marks') then [b] else []).
Proof.
  unfold committed, hashes. rewrite !fmap_app, filter_app. cbn [fmap list_fmap fst]. by rewrite filter_cons, filter_nil.
Qed.

(** C15: A commit is atomic for readers: when a commit of a block with a new hash is
    interrupted at one of the three points the code names (after the receipts, after
    the block row, after the marker) or at none, [ReadCommitted] returns the blocks
    committed before, followed by the new block once its marker is written. The blocks
    are durable, and the first commit into an empty directory is not one interrupted
    after the receipts: that leaves no block log, and [ReadCommitted] fails as it does
    in an empty directory. *)
Theorem interrupted_commit_atomic s l b result point :
  store_ready s → Forall durable l → l ≠ [] ∨ point ≠ "after_receipt_append" → durable (b, result) → (len l < max_commits)%Z →
  BlockHash b ∉ BlockHash <$> l.*1 →
  ReadCommitted (DurableCommitWithMetrics (SetFailpointForTest s point) (commit_all s ∅ l) b result).1.1 =
  inr ((set_commit <$> l.*1) ++
       (if (point ≟ "after_receipt_append") || (point ≟ "after_block_append") then [] else [set_commit b])).
Proof.
  intros Hs Hl Hne Hd Hlen Hnew. destruct (commit_all_read s l Hs Hl ltac:(lia)) as (rows & marks & Hc & Hrows).
  set (fs := commit_all s ∅ l) in *. pose proof Hd as [[sb Hsb] _].
  assert (commit_typed (SetFailpointForTest s point) fs result sb) as Ht.
  { eapply (commit_next s); [done..|lia]. }
  destruct (commit_holds (SetFailpointForTest s point) fs b result sb rows marks (ca_holds _ _ _ _ Hc) Hsb Ht)
    as (fs' & w & err & -> & _ & Hex & Hh). cbn [fst bs_failpoint SetFailpointForTest] in *.
  assert (BlockHash <$> (set_commit <$> l.*1) = BlockHash <$> l.*1) as Hsame by (by rewrite <- list_fmap_compose).
  assert (BlockHash b ∉ hashes marks) as Hni by (by rewrite (ca_marks _ _ _ _ Hc), Hsame).
  pose proof (committed_all_blocks _ _ _ _ Hc) as Hall.
  assert (is_Some (fs' !! blocks_file)) as Hex' by (apply Hex; destruct Hne as [Hne|?]; [left; apply Hc; by destruct l|by right]). clear Hex.
  destruct (point ≟ "after_receipt_append"); [by rewrite (read_committed _ _ _ Hh Hex'), Hall, app_nil_r|]. cbn [orb].
  destruct (point ≟ "after_block_append").
  - rewrite (read_committed _ _ _ Hh Hex'). rewrite <- (app_nil_r marks) at 1. rewrite committed_app, app_nil_r.
    fold (committed rows marks). by rewrite Hall, decide_False by done.
  - destruct Hh as (Hh & _). rewrite (read_committed _ _ _ Hh Hex'), committed_app, decide_True.
    2:{ apply elem_of_app. right. left. }
    f_equal. f_equal. rewrite (ca_rows _ _ _ _ Hc). apply filter_all. intros x Hx. apply elem_of_app. left.
    rewrite (ca_marks _ _ _ _ Hc). apply list_elem_of_fmap. by exists x.
Qed.
(** ** Rollback *)

(** What writing does to a directory: logs grow, the two summaries change, other
    files stay. *)
Definition grows (fs fs' : dir) : Prop :=
  (∀ path d, path ∈ append_files → fs !! path = Some d → ∃ x, fs' !! path = Some (d ++ x)) ∧
  (∀ path, path ∉ append_files → path ∉ replace_files → fs' !! path = fs !! path).

#[local] Instance grows_preorder : PreOrder grows.
Proof.
  split.
  - intros fs. split; [|done]. intros path d _ ->. exists []. by rewrite app_nil_r.
  - intros f1 f2 f3 [A1 B1] [A2 B2]. split.
    + intros path d Hp Hd. destruct (A1 path d Hp Hd) as [x Hx]. destruct (A2 path _ Hp Hx) as [y Hy].
      exists (x ++ y). by rewrite (assoc (++)).
    + intros path H1 H2. by rewrite B2, B1.
Qed.

Lemma grows_append fs path x : path ∈ append_files → grows fs (<[path := content fs path ++ x]> fs).
Proof.
  intros Hp. split.
  - intros path' d _ Hd. destruct (decide (path = path')) as [<-|Hne].
    + rewrite lookup_insert_eq. unfold content. rewrite Hd. by eexists.
    + rewrite lookup_insert_ne by done. exists []. by rewrite app_nil_r.
  - intros path' H1 _. rewrite lookup_insert_ne; [done|]. by intros ->.
Qed.

Lemma grows_replace fs path data : path ∈ replace_files → grows fs (<[path := data]> fs).
Proof.
  intros Hp. split.
  - intros path' d Hp' Hd. rewrite lookup_insert_ne.
    + exists []. by rewrite app_nil_r.
    + intros ->. unfold append_files, replace_files in *. set_solver.
  - intros path' _ H2. rewrite lookup_insert_ne; [done|]. by intros ->.
Qed.

Lemma commit_grows s fs b result : grows fs (DurableCommitWithMetrics s fs b result).1.1.
Proof.
  assert (∀ g path rows, path ∈ append_files → grows g (appendJSONBatch g path rows).1) as Happ.
  { intros g path rows Hp. rewrite append_batch. by apply grows_append. }
  unfold DurableCommitWithMetrics.
  pose proof (Happ fs receipts_file (marshal ∘ json_receipt <$> re_Receipts result) ltac:(unfold append_files; set_solver)) as H1.
  destruct (appendJSONBatch fs receipts_file _) as [f1 w1]. cbn [fst] in H1. destruct (_ ≟ "after_receipt_append"); [done|].
  pose proof (Happ f1 index_file (Marshal c_tx_index ∘ index_record (re_ReceiptRoot result) <$> re_Receipts result)
    ltac:(unfold append_files; set_solver)) as H2.
  destruct (appendJSONBatch f1 index_file _) as [f2 w2]. cbn [fst] in H2.
  destruct (blockForDurableStorage _) as [err|sb]; [by etrans|]. destruct (negb (encodable sb)).
  { etrans; [done|]. etrans; [done|]. unfold touch. cbn [fst]. rewrite <- (app_nil_r (content f2 blocks_file)).
    apply grows_append. unfold append_files. set_solver. }
  unfold appendJSON.
  pose proof (Happ f2 blocks_file [Marshal c_block sb] ltac:(unfold append_files; set_solver)) as H3.
  destruct (appendJSONBatch f2 blocks_file _) as [f3 w3]. cbn [fst] in H3. destruct (_ ≟ "after_block_append"); [by do 2 etrans|].
  match goal with |- context [appendJSONBatch f3 markers_file ?rows] =>
    pose proof (Happ f3 markers_file rows ltac:(unfold append_files; set_solver)) as H4;
    destruct (appendJSONBatch f3 markers_file rows) as [f4 w4] end.
  cbn [fst] in H4. destruct (_ ≟ "after_commit_marker"); [by do 3 etrans|].
  do 4 (etrans; [done|]). unfold WriteCSV, WriteJSON. cbn [fst].
  etrans; apply grows_replace; unfold replace_files; set_solver.
Qed.

Definition size_in (fs : dir) (path : string) : Z := match fs !! path with Some data => len data | None => -1 end.

Lemma truncate_back d x : truncate (d ++ x) (len d) = d.
Proof.
  unfold truncate, len. rewrite Nat2Z.id, take_app_length, length_app.
  replace (Z.to_nat _) with O by lia. by rewrite app_nil_r.
Qed.

Lemma rollback_appends_back fs paths : NoDup paths → ∀ g,
  (∀ path d, path ∈ paths → fs !! path = Some d → ∃ x, g !! path = Some (d ++ x)) →
  ∃ g', rollback_appends g ((λ path, (path, size_in fs path)) <$> paths) = (g', None) ∧
    (∀ path, path ∈ paths → g' !! path = fs !! path) ∧ (∀ path, path ∉ paths → g' !! path = g !! path).
Proof.
  induction 1 as [|path paths Hp _ IH]; intros g Hg.
  { exists g. split; [done|]. split; [|done]. intros path Hn. by apply elem_of_nil in Hn. }
  assert (∃ g1, rollback_appends g ((λ path, (path, size_in fs path)) <$> path :: paths) =
      rollback_appends g1 ((λ path, (path, size_in fs path)) <$> paths) ∧
    g1 !! path = fs !! path ∧ ∀ path', path' ≠ path → g1 !! path' = g !! path') as (g1 & -> & E1 & E2).
  { rewrite fmap_cons. cbn [rollback_appends]. destruct (fs !! path) as [d|] eqn:Ed.
    - assert (size_in fs path = len d) as -> by (unfold size_in; by rewrite Ed). destruct (Hg path d ltac:(left) Ed) as [x Hx].
      assert (∀ l : list N, (len l =? -1)%Z = false ∧ (len l <? -1)%Z = false) as Hl.
      { intros l. unfold len. split; [apply Z.eqb_neq|apply Z.ltb_ge]; lia. }
      destruct (Hl d) as [-> ->]. rewrite Hx. eexists. split; [reflexivity|]. rewrite truncate_back. split.
      + apply lookup_insert_eq.
      + intros path' Hne. by rewrite lookup_insert_ne.
    - assert (size_in fs path = (-1)%Z) as -> by (unfold size_in; by rewrite Ed).
      eexists. split; [reflexivity|]. split; [apply lookup_delete_eq|].
      intros path' Hne. by rewrite lookup_delete_ne. }
  destruct (IH g1) as (g' & -> & A & B).
  { intros path' d Hp' Hd. destruct (Hg path' d ltac:(by right) Hd) as [x Hx]. exists x. rewrite E2; [done|]. by intros ->. }
  exists g'. split; [done|]. split.
  - intros path' [-> |Hp']%elem_of_cons; [by rewrite B|by apply A].
  - intros path' [Hne Hn]%not_elem_of_cons. by rewrite B, E2.
Qed.

Lemma replaced_lookup data path : ∀ g : dir, NoDup data.*1 →
  foldl (λ g pd, <[pd.1 := pd.2]> g) g data !! path =
  match list_to_map (M := gmap string (list N)) data !! path with Some d => Some d | None => g !! path end.
Proof.
  induction data as [|[p d] data IH]; intros g Hnd; [done|]. apply NoDup_cons in Hnd as [Hp Hnd]. cbn [foldl].
  rewrite IH by done. cbn [fst snd list_to_map foldr]. destruct (decide (p = path)) as [->|Hne].
  - rewrite not_elem_of_list_to_map_1 by done. by rewrite !lookup_insert_eq.
  - by rewrite !lookup_insert_ne.
Qed.

Lemma removed_lookup missing path : ∀ g : dir,
  foldl (λ g p, delete p g) g missing !! path = if decide (path ∈ missing) then None else g !! path.
Proof.
  induction missing as [|p missing IH]; intros g; [done|]. cbn [foldl]. rewrite IH. destruct (decide (p = path)) as [->|Hne].
  - rewrite (decide_True (P := path ∈ path :: missing)) by left. case_decide; [done|]. apply lookup_delete_eq.
  - rewrite lookup_delete_ne by done. repeat case_decide; set_solver.
Qed.

(** C16: A rollback undoes a commit: whatever the block and wherever its commit failed,
    [Rollback] with the checkpoint taken before it succeeds and leaves every file as
    it was, in whichever order Go visits the checkpoint's maps. *)
Theorem rollback_undoes_commit s s' fs b result sizes data missing :
  bs_rollbackFailpoint s = false →
  sizes ≡ₚ ac_appendSizes (Checkpoint fs) → data ≡ₚ ac_replaceData (Checkpoint fs) →
  missing ≡ₚ ac_replaceMissing (Checkpoint fs) →
  Rollback s (DurableCommitWithMetrics s' fs b result).1.1 (MkCheckpoint sizes data missing) = (fs, None).
Proof.
  intros Hf Hs Hd Hm. set (g := (DurableCommitWithMetrics s' fs b result).1.1).
  destruct (commit_grows s' fs b result) as [A B]. fold g in A, B. unfold Rollback. rewrite Hf.
  apply Permutation_map_inv in Hs as (paths & -> & Hpaths).
  assert (∀ path, path ∈ paths ↔ path ∈ append_files) as Hin by (intros path; by rewrite Hpaths).
  assert (NoDup paths) as Hnd.
  { rewrite <- Hpaths. apply (bool_decide_unpack _). by vm_compute. }
  destruct (rollback_appends_back fs paths Hnd g) as (g' & E & C & D).
  { intros path d Hp. apply A. by apply Hin. }
  cbn [ac_appendSizes ac_replaceData ac_replaceMissing].
  change (map _ paths) with ((λ path, (path, size_in fs path)) <$> paths). rewrite E. f_equal.
  assert (∀ path d, (path, d) ∈ data ↔ path ∈ replace_files ∧ fs !! path = Some d) as Hdata.
  { intros path d. rewrite Hd. cbn [Checkpoint ac_replaceData]. rewrite list_elem_of_omap. split.
    - intros (p & Hp & Ep). destruct (fs !! p) eqn:Ef; [|done]. simpl in Ep. by simplify_eq.
    - intros [Hp Ef]. exists path. by rewrite Ef. }
  assert (NoDup data.*1) as Hdn.
  { rewrite Hd. cbn [Checkpoint ac_replaceData]. unfold replace_files. cbn [omap list_omap].
    destruct (fs !! summary_file), (fs !! log_file); simpl; apply (bool_decide_unpack _); by vm_compute. }
  assert (∀ path, path ∈ missing ↔ fs !! path = None ∧ path ∈ replace_files) as Hmiss.
  { intros path. rewrite Hm. cbn [Checkpoint ac_replaceMissing]. by rewrite list_elem_of_filter. }
  apply map_eq. intros path. rewrite removed_lookup, replaced_lookup by done.
  destruct (decide (path ∈ replace_files)) as [Hr|Hr].
  - destruct (fs !! path) as [d|] eqn:Ef.
    + rewrite decide_False by (rewrite Hmiss; naive_solver).
      by rewrite (elem_of_list_to_map_1 data path d Hdn (proj2 (Hdata path d) (conj Hr Ef))).
    + by rewrite decide_True by (by apply Hmiss).
  - rewrite decide_False by (rewrite Hmiss; naive_solver). rewrite not_elem_of_list_to_map_1.
    2:{ intros ([p d] & -> & Hpd)%list_elem_of_fmap. by apply Hdata in Hpd as [? _]. }
    destruct (decide (path ∈ append_files)) as [Ha|Ha]; [by apply C, Hin|]. rewrite D by (by rewrite Hin). by apply B.
Qed.
End Store.
