(* ===== verification/BlockStoreRange.v ===== *)
(** * The block store: reading a range through the index *)
From S2P Require Import Prelude GoStd GoJson JsonRoundtrip GoStruct GoText Tx Block BlockCodec StateRoot Serial BlockStore BlockStoreProps BlockStoreTheorems.
Import Json.
Local Open Scope N_scope.
#[local] Opaque Sha256.sum256 sha256_bytes.

Section Range.
Context `{Gzip}.

(** ** Offsets *)

Fixpoint offsets_from (o : Z) (rows : list (Block * Block)) (m : gmap N durableBlockOffset) : gmap N durableBlockOffset :=
  match rows with
  | [] => m
  | r :: rest => offsets_from (o + size_of_row r) rest (<[Height r.1 := MkOffset o (size_of_row r)]> m)
  end.

Lemma text_of_rows_app l1 l2 : text_of_rows (l1 ++ l2) = text_of_rows l1 ++ text_of_rows l2.
Proof. unfold text_of_rows. by rewrite fmap_app, lines_text_app. Qed.

Lemma text_of_row r : text_of_rows [r] = row r.2 ++ [10].
Proof. unfold text_of_rows, lines_text. cbn [fmap list_fmap mjoin list_join]. by rewrite app_nil_r. Qed.

Lemma rows_size_app l1 l2 : rows_size (l1 ++ l2) = (rows_size l1 + rows_size l2)%Z.
Proof. unfold rows_size, len. rewrite text_of_rows_app, length_app. lia. Qed.

Lemma rows_size_one r : rows_size [r] = size_of_row r.
Proof. unfold rows_size, size_of_row, len. rewrite text_of_row, length_app. cbn [length]. lia. Qed.

Lemma rows_size_nonneg rows : (0 <= rows_size rows)%Z.
Proof. unfold rows_size, len. lia. Qed.

Lemma size_of_row_pos r : (1 <= size_of_row r)%Z.
Proof. unfold size_of_row, len. lia. Qed.

Lemma rows_size_cons r rows : rows_size (r :: rows) = (size_of_row r + rows_size rows)%Z.
Proof. change (r :: rows) with ([r] ++ rows). by rewrite rows_size_app, rows_size_one. Qed.

Lemma rows_size_pos rows : rows ≠ [] → (1 <= rows_size rows)%Z.
Proof.
  destruct rows as [|r rows]; [done|]. intros _. rewrite rows_size_cons. pose proof (size_of_row_pos r).
  pose proof (rows_size_nonneg rows). lia.
Qed.

(** Prefixes of different lengths have different sizes. *)
Lemma prefix_size_lt rows i j : (i < j)%nat → (j <= length rows)%nat → (rows_size (take i rows) < rows_size (take j rows))%Z.
Proof.
  intros Hij Hj. rewrite <- (take_drop i (take j rows)), take_take, Nat.min_l, rows_size_app by lia.
  pose proof (rows_size_pos (drop i (take j rows))) as Hp.
  assert (drop i (take j rows) ≠ []) as Hne.
  { intros Hz. apply (f_equal length) in Hz. rewrite length_drop, length_take in Hz. simpl in Hz. lia. }
  specialize (Hp Hne). lia.
Qed.

Lemma prefix_size_inj rows i j : (i <= length rows)%nat → (j <= length rows)%nat →
  rows_size (take i rows) = rows_size (take j rows) → i = j.
Proof.
  intros Hi Hj E. destruct (Nat.lt_trichotomy i j) as [Hlt|[->|Hlt]]; [|done|].
  - pose proof (prefix_size_lt rows i j Hlt Hj). lia.
  - pose proof (prefix_size_lt rows j i Hlt Hi). lia.
Qed.

Lemma prefix_size_le rows i : (rows_size (take i rows) <= rows_size rows)%Z.
Proof. rewrite <- (take_drop i rows) at 2. rewrite rows_size_app. pose proof (rows_size_nonneg (drop i rows)). lia. Qed.

Lemma offsets_from_app l1 l2 : ∀ o m, offsets_from o (l1 ++ l2) m = offsets_from (o + rows_size l1) l2 (offsets_from o l1 m).
Proof.
  induction l1 as [|r l1 IH]; intros o m; simpl.
  - by rewrite Z.add_0_r.
  - rewrite IH, rows_size_cons. f_equal. lia.
Qed.

(** ** Indexing *)

Lemma index_lines_rows rows : Forall (λ r, stored_as r.1 r.2) rows → ∀ o m,
  index_lines false o m ((λ r, row r.2) <$> rows) = inr ((o + rows_size rows)%Z, offsets_from o rows m).
Proof.
  induction 1 as [|[b sb] rows Hs _ IH]; intros o m.
  { cbn. by rewrite Z.add_0_r. }
  rewrite fmap_cons. cbn [index_lines snd]. rewrite (height_line_stored b sb Hs).
  assert (Height b ≠ 0) as Hh by apply Hs. rewrite (proj2 (N.eqb_neq _ _) Hh), IH, rows_size_cons.
  unfold size_of_row. cbn [snd fst offsets_from]. f_equal. f_equal. lia.
Qed.

Record indexed (rows : list (Block * Block)) (ix : durableBlockRangeIndex) (n : nat) : Prop := {
  xd_legacy : ix_legacyWrapped ix = false;
  xd_bound : (n <= length rows)%nat;
  xd_size : ix_indexedSize ix = rows_size (take n rows);
  xd_offsets : ix_offsets ix = offsets_from 0 (take n rows) ∅;
}.

Lemma indexed_all rows ix n : indexed rows ix n → ix_indexedSize ix = rows_size rows → indexed rows ix (length rows).
Proof.
  intros [Hl Hb Hs Ho] E. rewrite Hs in E. rewrite <- (firstn_all rows) in E at 2.
  apply prefix_size_inj in E as ->; [|done|done]. by split.
Qed.

Lemma scan_index_rows rows ix n : Forall (λ r, stored_as r.1 r.2) rows → indexed rows ix n →
  ∃ ix', scan_index (text_of_rows rows) ix = (ix', None) ∧ indexed rows ix' (length rows).
Proof.
  intros Hr [Hl Hb Hs Ho]. unfold scan_index. rewrite Hl, Hs, Ho.
  assert (drop (Z.to_nat (rows_size (take n rows))) (text_of_rows rows) = text_of_rows (drop n rows)) as ->.
  { rewrite <- (take_drop n rows) at 2. rewrite text_of_rows_app. unfold rows_size, len. rewrite Nat2Z.id. apply drop_app_length. }
  unfold text_of_rows at 1. rewrite split_lines_all by (apply rows_unbroken; by apply Forall_drop). cbn [fst].
  rewrite index_lines_rows by (by apply Forall_drop). eexists. split; [reflexivity|]. split; [done|done| |]; cbn [ix_indexedSize ix_offsets].
  - by rewrite <- rows_size_app, take_drop, firstn_all.
  - rewrite firstn_all. trans (offsets_from 0 (take n rows ++ drop n rows) ∅); [|by rewrite take_drop].
    by rewrite offsets_from_app, Z.add_0_l.
Qed.

(** ** Seeding from the markers *)

Definition seeded (rows : list (Block * Block)) (g : seeding) (n : nat) : Prop :=
  (n <= length rows)%nat ∧ sg_next g = rows_size (take n rows) ∧ sg_offsets g = offsets_from 0 (take n rows) ∅.

Lemma offsets_snoc rows i r m : rows !! i = Some r →
  offsets_from 0 (take (S i) rows) m =
  <[Height r.1 := MkOffset (rows_size (take i rows)) (size_of_row r)]> (offsets_from 0 (take i rows) m).
Proof. intros Hi. rewrite (take_S_r _ _ _ Hi), offsets_from_app. done. Qed.

Lemma rows_size_snoc rows i r : rows !! i = Some r →
  rows_size (take (S i) rows) = (rows_size (take i rows) + size_of_row r)%Z.
Proof. intros Hi. by rewrite (take_S_r _ _ _ Hi), rows_size_app, rows_size_one. Qed.

Lemma seed_one rows size g n m g' : (rows_size rows <= max_int64)%Z → c_ok c_marker m → marks_row rows m →
  seeded rows g n → seed_marker size g (marker_row m) = Some g' → ∃ n', seeded rows g' n'.
Proof.
  intros Hmax Hok (i & r & Hi & Eo & El & Eh) (Hn & Hnext & Hoff) E. unfold seed_marker in E.
  destruct (trim_space _ ≟ ""); [injection E as <-; by exists n|].
  unfold marker_row in E. rewrite text_of_bytes, unmarshal_marshal in E by (done || apply marker_lawful).
  cbn [mbind option_bind] in E. repeat (case_match; [done|]). simplify_eq.
  repeat match goal with H : _ || _ = false |- _ => apply orb_false_iff in H as [? ?] end.
  repeat match goal with H : negb _ = false |- _ => apply negb_false_iff, bool_decide_eq_true in H end.
  pose proof (lookup_lt_Some _ _ _ Hi) as Hlt.
  assert (i = n) as ->.
  { apply (prefix_size_inj rows); [lia|done|]. congruence. }
  exists (S n). unfold seeded. cbn [sg_next sg_offsets]. split; [lia|].
  assert (cm_BlockSourceSize m = rows_size (take (S n) rows)) as ->.
  { assert (cm_BlockSourceSize m = i64_add (cm_BlockOffset m) (cm_BlockLength m)) as -> by done.
    rewrite (rows_size_snoc rows n r), Eo, El by done. unfold i64_add. apply i64_wrap_small.
    rewrite <- (rows_size_snoc rows n r) by done. pose proof (prefix_size_le rows (S n)).
    pose proof (rows_size_nonneg (take (S n) rows)). unfold min_int64. lia. }
  split; [done|]. by rewrite (offsets_snoc rows n r), Hoff, Eh, Eo, El.
Qed.

Lemma seed_all rows size marks : (rows_size rows <= max_int64)%Z →
  Forall (λ m, c_ok c_marker m ∧ marks_row rows m) marks → ∀ g n g',
  seeded rows g n → seed_markers size g (marker_row <$> marks) = Some g' → ∃ n', seeded rows g' n'.
Proof.
  intros Hmax. induction 1 as [|m marks [Hok Hm] _ IH]; intros g n g' Hg E.
  { cbn in E. injection E as <-. by exists n. }
  rewrite fmap_cons in E. cbn [seed_markers] in E. destruct (seed_marker size g (marker_row m)) as [g1|] eqn:E1; [|done].
  destruct (seed_one rows size g n m g1 Hmax Hok Hm Hg E1) as [n1 Hn1]. by apply (IH g1 n1 g').
Qed.

Lemma seed_index fs rows marks ix size seeded_ix : holds fs rows marks → Forall (marks_row rows) marks →
  (rows_size rows <= max_int64)%Z → seedFromCommitMarkers fs ix size = Some seeded_ix →
  ∃ n, indexed rows seeded_ix n.
Proof.
  intros Hh Hrow Hmax E. pose proof Hh as [_ _ _ Hm Hok]. unfold seedFromCommitMarkers in E.
  destruct (ix_legacyWrapped ix) eqn:El; [done|]. cbn [orb] in E. destruct (_ <=? 0)%Z; [done|].
  unfold content in Hm. destruct (fs !! markers_file) as [data|]; [|done]. cbn [default from_option id mbind option_bind] in *.
  subst data. rewrite split_lines_all in E by (by apply marks_unbroken). cbn [fst] in E.
  destruct (seed_markers _ _ _) as [g|] eqn:Eg; [|done]. cbn [mbind option_bind] in E.
  destruct (seed_all rows size marks Hmax) with (g := MkSeeding ∅ 0 0 0) (n := O) (g' := g) as (n & Hn & Hnext & Hoff).
  - apply Forall_forall. intros m Hin. rewrite Forall_forall in Hok, Hrow. split; [by apply Hok|by apply Hrow].
  - split; [lia|done].
  - done.
  - case_match; [done|]. injection E as <-. exists n. by split.
Qed.

(** ** Refreshing *)

Lemma refresh_rows fs rows marks ix n : holds fs rows marks → Forall (marks_row rows) marks →
  (rows_size rows <= max_int64)%Z → is_Some (fs !! blocks_file) → indexed rows ix n →
  ∃ ix', refresh fs blocks_file ix = (ix', None) ∧ indexed rows ix' (length rows).
Proof.
  intros Hh Hrow Hmax [data Hd] Hix. pose proof Hh as [_ Hb Hr _ _]. unfold content in Hb. rewrite Hd in Hb. cbn [default from_option id] in Hb. subst data.
  unfold refresh. rewrite Hd. fold (text_of_rows rows). fold (rows_size rows).
  destruct (Z.eqb_spec (rows_size rows) (ix_indexedSize ix)) as [E|E].
  { exists ix. split; [done|]. by apply (indexed_all rows ix n). }
  pose proof Hix as [Hl Hbound Hs Ho]. rewrite (proj2 (Z.ltb_ge _ _)) by (rewrite Hs; apply prefix_size_le).
  destruct (_ && _ && _); [|by apply (scan_index_rows rows ix n)].
  destruct (seedFromCommitMarkers fs ix _) as [sx|] eqn:Es; [|by apply (scan_index_rows rows ix n)].
  destruct (seed_index fs rows marks ix _ sx Hh Hrow Hmax Es) as [k Hk].
  destruct (Z.eqb_spec (rows_size rows) (ix_indexedSize sx)) as [E'|E'].
  - exists sx. split; [done|]. by apply (indexed_all rows sx k).
  - by apply (scan_index_rows rows sx k).
Qed.

(** ** Reading *)

Lemma offsets_other rows h : h ∉ Height <$> rows.*1 → ∀ o m, offsets_from o rows m !! h = m !! h.
Proof.
  induction rows as [|r rows IH]; intros Hh o m; [done|]. rewrite !fmap_cons, not_elem_of_cons in Hh. destruct Hh as [Hne Hh].
  cbn [offsets_from]. by rewrite IH, lookup_insert_ne.
Qed.

Lemma offsets_own pre r post : Height r.1 ∉ Height <$> post.*1 →
  offsets_from 0 (pre ++ r :: post) ∅ !! Height r.1 = Some (MkOffset (rows_size pre) (size_of_row r)).
Proof.
  intros Hp. rewrite offsets_from_app. cbn [offsets_from]. by rewrite offsets_other, lookup_insert_eq.
Qed.

Lemma read_at_row pre r post :
  ReadAt (text_of_rows (pre ++ r :: post)) (rows_size pre) (size_of_row r) = Some (row r.2 ++ [10]).
Proof.
  unfold ReadAt. rewrite (proj2 (Z.ltb_ge _ _)) by apply rows_size_nonneg. fold (rows_size (pre ++ r :: post)).
  rewrite rows_size_app, rows_size_cons. rewrite (proj2 (Z.ltb_ge _ _)) by (pose proof (rows_size_nonneg post); lia). cbn [orb].
  f_equal. change (r :: post) with ([r] ++ post). rewrite !text_of_rows_app. unfold rows_size, len. rewrite Nat2Z.id.
  rewrite drop_app_length, text_of_row. unfold size_of_row, len.
  replace (Z.to_nat _) with (length (row r.2 ++ [10])) by (rewrite length_app; cbn [length]; lia). apply take_app_length.
Qed.

(** The committed block of a height. *)
Definition at_height (h : N) (l : list Block) : list Block := filter (λ b, Height b = h) l.

Lemma at_height_none h l : h ∉ Height <$> l → at_height h l = [].
Proof.
  induction l as [|b l IH]; intros Hh; [done|]. rewrite fmap_cons, not_elem_of_cons in Hh. destruct Hh as [Hne Hh].
  unfold at_height. rewrite filter_cons, decide_False by done. by apply IH.
Qed.

Lemma filter_heights (P : Block → Prop) `{∀ b, Decision (P b)} (h : N) (l : list Block) : h ∉ Height <$> l → h ∉ Height <$> filter P l.
Proof. rewrite !list_elem_of_fmap. intros Hh (b & -> & [_ Hb]%list_elem_of_filter). apply Hh. by exists b. Qed.

Lemma read_height_rows rows marks ix h : Forall (λ r, stored_as r.1 r.2) rows → NoDup (Height <$> rows.*1) →
  indexed rows ix (length rows) →
  read_height (text_of_rows rows) ix false (hashes marks) h = inr (at_height h (committed rows marks)).
Proof.
  intros Hr Hnd [_ _ _ Ho]. rewrite firstn_all in Ho. unfold read_height. rewrite Ho.
  destruct (decide (h ∈ Height <$> rows.*1)) as [Hin|Hout].
  - rewrite <- list_fmap_compose in Hin. apply list_elem_of_fmap in Hin as (r & -> & Hin). cbn [compose].
    apply list_elem_of_split in Hin as (pre & post & ->).
    rewrite !fmap_app, !fmap_cons in Hnd. apply NoDup_app in Hnd as (_ & Hdis & Hpost). apply NoDup_cons in Hpost as [Hp _].
    assert (Height r.1 ∉ Height <$> pre.*1) as Hpre by (intros Hin; eapply Hdis; [exact Hin|left]).
    rewrite offsets_own by done. cbn [do_offset do_length]. rewrite read_at_row.
    apply Forall_app in Hr as [_ [Hs _]%Forall_cons]. rewrite (decode_line_stored r.1 r.2 Hs).
    rewrite (bool_decide_eq_true_2 (_ = _)) by done. cbn [negb]. f_equal. rewrite counts_committed.
    unfold committed. rewrite fmap_app, fmap_cons, filter_app, filter_cons. unfold at_height. rewrite filter_app.
    fold (at_height (Height r.1) (filter (λ b, BlockHash b ∈ hashes marks) pre.*1)).
    rewrite (at_height_none _ (filter _ pre.*1)) by (by apply filter_heights). cbn [app].
    destruct (decide (BlockHash r.1 ∈ hashes marks)) as [Hc|Hc].
    + rewrite bool_decide_eq_true_2, filter_cons, decide_True by done. f_equal. symmetry. by apply at_height_none, filter_heights.
    + rewrite bool_decide_eq_false_2 by done. symmetry. by apply at_height_none, filter_heights.
  - rewrite offsets_other, lookup_empty by done. f_equal. symmetry. by apply at_height_none, filter_heights.
Qed.

Lemma sorted_heights_split l h n : StronglySorted N.lt (Height <$> l) →
  filter (λ b, h <= Height b ∧ Height b < h + N.of_nat (S n)) l =
  at_height h l ++ filter (λ b, h + 1 <= Height b ∧ Height b < h + 1 + N.of_nat n) l.
Proof.
  unfold at_height. induction l as [|b l IH]; intros Hs; [done|].
  rewrite fmap_cons in Hs. apply StronglySorted_inv in Hs as [Hs Hb]. rewrite !filter_cons.
  specialize (IH Hs). rewrite IH. destruct (N.lt_trichotomy (Height b) h) as [Hlt|[Heq|Hgt]].
  - by rewrite !decide_False by lia.
  - rewrite (decide_True (P := h <= _ ∧ _)), (decide_True (P := Height b = h)), (decide_False (P := h + 1 <= _ ∧ _)) by lia. done.
  - rewrite (decide_False (P := Height b = h)) by lia.
    assert (at_height h l = []) as Hn.
    { apply at_height_none. intros Hin. rewrite Forall_forall in Hb. specialize (Hb _ Hin). lia. }
    unfold at_height in Hn. rewrite Hn. cbn [app]. repeat case_decide; done || lia.
Qed.

Lemma heights_nodup (l : list N) : StronglySorted N.lt l → NoDup l.
Proof.
  induction 1 as [|h l _ IH Hh]; constructor; [|done]. intros Hin. rewrite Forall_forall in Hh. specialize (Hh _ Hin). lia.
Qed.

Lemma read_heights_rows rows marks ix : Forall (λ r, stored_as r.1 r.2) rows → NoDup (Height <$> rows.*1) →
  StronglySorted N.lt (Height <$> committed rows marks) → indexed rows ix (length rows) → ∀ n h,
  read_heights (text_of_rows rows) ix false (hashes marks) h n =
    inr (filter (λ b, h <= Height b ∧ Height b < h + N.of_nat n) (committed rows marks)).
Proof.
  intros Hr Hnd Hs Hix. induction n as [|n IH]; intros h.
  { cbn [read_heights]. f_equal. symmetry. generalize (committed rows marks). intros l. induction l as [|b l IHl]; [done|].
    rewrite filter_cons, decide_False by lia. apply IHl. }
  cbn [read_heights]. rewrite read_height_rows by done. cbn [mbind sum_mbind]. rewrite IH. cbn [mbind sum_mbind]. f_equal.
  by rewrite sorted_heights_split.
Qed.

(** ** Commits and range reads *)

Definition stored_form (b : Block) : Block := match blockForDurableStorage b with inr sb => sb | inl _ => b end.
Definition rows_for (l : list Block) : list (Block * Block) := (λ b, (b, stored_form b)) <$> l.

Lemma rows_determined fs l rows marks : committed_all fs l rows marks → rows = rows_for l.
Proof.
  intros [[_ _ Hr _ _] <- _ _ _ _]. unfold rows_for. induction Hr as [|[b sb] rows Hs _ IH]; [done|].
  rewrite !fmap_cons, <- IH. cbn [fst]. unfold stored_form. pose proof (sa_form _ _ Hs) as E. cbn [fst snd] in E. by rewrite E.
Qed.

(** The index the process keeps describes a prefix of the log. *)
Definition index_ok (l : list Block) (ixs : indexes) : Prop :=
  ∀ ix, ixs !! blocks_file = Some ix → ∃ n, indexed (rows_for l) ix n.

Lemma index_ok_app l l' ixs : index_ok l ixs → index_ok (l ++ l') ixs.
Proof.
  intros Hi ix Hix. destruct (Hi ix Hix) as (n & [Hl Hb Hs Ho]). exists n. unfold rows_for in *. rewrite fmap_app.
  split; [done|rewrite length_app; lia|..]; by rewrite take_app_le.
Qed.

Lemma committed_size fs l rows marks : committed_all fs l rows marks → (len rows <= max_commits)%Z →
  (rows_size rows <= max_int64)%Z.
Proof.
  intros [Hh _ _ Hsize _ _] Hlen. unfold rows_size, text_of_rows. rewrite <- (ho_blocks _ _ _ Hh).
  unfold max_commits, maxCommittedBlockRecordBytes, max_int64 in *. nia.
Qed.

(** One range read: the index stays right, and the blocks are those of a scan. *)
Lemma range_read fs l rows marks ixs from to : committed_all fs l rows marks → (len rows <= max_commits)%Z →
  index_ok l ixs →
  index_ok l (ReadCommittedRange fs ixs from to).1 ∧
  (l ≠ [] → StronglySorted N.lt (Height <$> l) → from ≠ 0 → from <= to →
   (ReadCommittedRange fs ixs from to).2 = inr (filter (λ b, from <= Height b ∧ Height b <= to) l)).
Proof.
  intros Hc Hlen Hix. pose proof (committed_size _ _ _ _ Hc Hlen) as Hmax.
  pose proof (rows_determined _ _ _ _ Hc) as Hrows. pose proof (committed_all_blocks _ _ _ _ Hc) as Hall.
  destruct Hc as [Hh Hl _ _ Hex Hlink]. unfold ReadCommittedRange.
  destruct (_ || _) eqn:Erange.
  { split; [done|]. intros _ _ Hf Ht. apply orb_true_iff in Erange as [E%N.eqb_eq|E%N.ltb_lt]; [done|lia]. }
  unfold committedBlockRangePath. rewrite (ho_legacy _ _ _ Hh).
  rewrite (bool_decide_eq_false_2 (is_Some None)) by (by intros [? ?]).
  destruct (bool_decide_reflect (is_Some (fs !! blocks_file))) as [Hb|Hb]; [|split; [done|]; intros Hne; by destruct Hb, Hex].
  set (ix := if bool_decide _ then _ else _).
  assert (∃ n, indexed rows ix n) as [n Hn].
  { assert (indexed rows (MkIndex false 0 ∅) 0) as H0 by (split; [done|lia|done|done]). unfold ix.
    case_bool_decide as E; [|by exists O]. unfold blockRangeIndexForPath in *.
    destruct (ixs !! blocks_file) as [ix0|] eqn:Ei; [|by exists O]. rewrite Hrows. by apply Hix. }
  clearbody ix. destruct (refresh_rows fs rows marks ix n Hh Hlink Hmax Hb Hn) as (ix' & -> & Hix'). cbn [fst snd]. split.
  - intros ix1 E. rewrite lookup_insert_eq in E. injection E as <-. rewrite <- Hrows. by eexists.
  - intros Hne Hsorted Hf Ht. rewrite (holds_markers _ _ _ Hh). cbn [mbind sum_mbind].
    rewrite (ho_blocks _ _ _ Hh). fold (text_of_rows rows). rewrite <- Hl in Hsorted.
    rewrite (read_heights_rows rows marks ix' (ho_rows _ _ _ Hh)); [|by apply heights_nodup|by rewrite Hall, <- Hl|done].
    f_equal. rewrite Hall. apply list_filter_iff. intros b. rewrite N2Nat.id. lia.
Qed.

(** A process that commits blocks and serves range reads in any order: the commits
    so far and the indexes it keeps. *)
Inductive store_run (s : BlockStore) : list (Block * Result) → indexes → Prop :=
  | run_start : store_run s [] ∅
  | run_commit l ixs br : store_run s l ixs → store_run s (l ++ [br]) ixs
  | run_read l ixs from to : store_run s l ixs →
      store_run s l (ReadCommittedRange (commit_all s ∅ l) ixs from to).1.

Lemma store_run_index s l ixs : store_run s l ixs → store_ready s → Forall durable l → (len l <= max_commits)%Z →
  index_ok (set_commit <$> l.*1) ixs.
Proof.
  intros Hrun Hs. induction Hrun as [|l ixs br _ IH|l ixs from to _ IH]; intros Hl Hlen.
  - intros ix Hix. by rewrite lookup_empty in Hix.
  - apply Forall_app in Hl as [Hl _]. unfold len in Hlen. rewrite length_app in Hlen. simpl in Hlen.
    rewrite !fmap_app. apply index_ok_app, IH; [done|unfold len; lia].
  - destruct (commit_all_read s l Hs Hl Hlen) as (rows & marks & Hc & Hr).
    apply (range_read _ _ _ _ ixs from to Hc); [lia|by apply IH].
Qed.

(** C14: Reading a range through the index gives what a full scan gives: after any
    commits of durable blocks with strictly ascending heights, none interrupted or
    rolled back, with range reads of the same process in between, [ReadCommittedRange]
    returns the blocks [ReadCommitted] returns whose heights lie in the range, whether
    its index is stale, was built from the markers or by scanning the log. *)
Theorem range_read_equivalent s l ixs from to :
  store_run s l ixs → store_ready s → Forall durable l → l ≠ [] → (len l <= max_commits)%Z →
  StronglySorted N.lt (Height <$> l.*1) → from ≠ 0 → from <= to →
  ∃ blocks, ReadCommitted (commit_all s ∅ l) = inr blocks ∧
    (ReadCommittedRange (commit_all s ∅ l) ixs from to).2 =
      inr (filter (λ b, from <= Height b ∧ Height b <= to) blocks).
Proof.
  intros Hrun Hs Hl Hne Hlen Hsorted Hf Ht. pose proof (store_run_index s l ixs Hrun Hs Hl Hlen) as Hix.
  destruct (commit_all_read s l Hs Hl Hlen) as (rows & marks & Hc & Hr).
  assert (set_commit <$> l.*1 ≠ []) as Hne' by (by destruct l).
  exists (set_commit <$> l.*1). split.
  - rewrite (read_committed _ rows marks); [by rewrite (committed_all_blocks _ _ _ _ Hc)|apply Hc|by apply Hc].
  - apply (range_read _ _ _ _ ixs from to Hc); [lia|done|done| |done|done]. by rewrite <- list_fmap_compose.
Qed.
End Range.
