(* ===== verification/BlockStoreExamples.v ===== *)
(** * The block store on concrete blocks *)
From S2P Require Import Prelude GoStd GoJson JsonRoundtrip GoStruct GoText Tx Block BlockCodec StateRoot Serial SerialProps BlockStore BlockStoreProps BlockStoreTheorems BlockStoreRange.
Import Json.
Local Open Scope N_scope.

(** A stand-in for the compressor: each run of a byte as the byte and its length. *)
Fixpoint runs (p : list N) : list N :=
  match p with
  | [] => []
  | x :: p =>
      match runs p with
      | y :: n :: rest => if (x =? y) && (n <? 255) then y :: n + 1 :: rest else x :: 1 :: y :: n :: rest
      | rest => x :: 1 :: rest
      end
  end.
Fixpoint expanded (p : list N) : list N :=
  match p with x :: n :: rest => replicate (N.to_nat n) x ++ expanded rest | _ => [] end.

Lemma expanded_runs p : expanded (runs p) = p.
Proof.
  induction p as [|x p IH]; [done|]. cbn [runs]. destruct (runs p) as [|y [|n rest]]; cbn [expanded] in *; [by subst..|].
  destruct (N.eqb_spec x y) as [->|]; cbn [andb]; [|by rewrite <- IH].
  destruct (n <? 255); [|by rewrite <- IH]. cbn [expanded]. rewrite N.add_1_r, N2Nat.inj_succ. cbn [replicate app]. by rewrite IH.
Qed.

Lemma runs_bytes p : Forall (λ b, b < 256) p → Forall (λ b, b < 256) (runs p).
Proof.
  induction 1 as [|x p Hx _ IH]; [constructor|]. cbn [runs]. assert (1 < 256) as H1 by done.
  destruct (runs p) as [|y [|n rest]]; [do 2 (apply Forall_cons; split; [assumption|]); exact IH..|]. rewrite !Forall_cons in IH. destruct IH as (Hy & Hn & IH).
  destruct ((x =? y) && (n <? 255)) eqn:E; rewrite !Forall_cons; [|done].
  apply andb_true_iff in E as [_ E%N.ltb_lt]. split_and!; [done|lia|done].
Qed.

Definition runs_gzip : Gzip :=
  {| gzip := runs; gunzip := λ p, Some (expanded p); gzip_bytes := runs_bytes;
     gunzip_gzip := λ p _, f_equal Some (expanded_runs p) |}.
#[local] Existing Instance runs_gzip.

Definition sample_store : BlockStore := NewBlockStore "n0" "s0".

Definition logged_block (height : N) (hash : string) (items : list SignedTransaction) : Block :=
  MkBlock hash "s0" height "h0" "n0" 7 (Some (TxID <$> items)) items "" "empty" "" "" "" false false [] None None.
Definition logged_result (b : Block) : Result :=
  MkResult (BlockHash b) (Height b) "" "r1" "q1" [MkReceipt "t" (BlockHash b) (Height b) true "" 1 ["k"] "r1"] ∅ [] 1 0 "" "" 1
    None "" [] "" true.
Definition logged (b : Block) : Block * Result := (b, logged_result b).

Definition b1 : Block := logged_block 1 "h1" [sample_transfer "alice" "bob" 0 30].
Definition b2 : Block := logged_block 2 "h2" [sample_transfer "bob" "alice" 0 8; sample_transfer "carol" "bob" 0 5].
Definition b3 : Block := logged_block 3 "h3" [].

Lemma logged_durable b : b ∈ [b1; b2; b3] → durable (logged b).
Proof.
  intros Hb. repeat (apply elem_of_cons in Hb as [->|Hb]; [|]); [..|by apply elem_of_nil in Hb].
  all: split; [|split; apply name_utf8; vm_compute; reflexivity].
  all: eexists; split; [|reflexivity|vm_compute; reflexivity].
  all: split; [|discriminate|discriminate|exact I].
  all: apply block_tested; vm_compute; reflexivity.
Qed.

Definition sample_log : list (Block * Result) := [logged b1; logged b2; logged b3].

Lemma sample_ready : store_ready sample_store.
Proof. split; [reflexivity|]. split; apply name_utf8; vm_compute; reflexivity. Qed.

Lemma sample_log_durable : Forall durable sample_log.
Proof. repeat (apply Forall_cons; split; [apply logged_durable; set_solver|]). apply Forall_nil_2. Qed.

(** A block with evidence of 20 KB, which is compressed. *)
Definition long_text : string := string_of_bytes (replicate (N.to_nat 20000) 97).
Definition long_payload : list N := bytes_of_string (marshal (JStr long_text)).
Definition long_digest : string := Eval vm_compute in sha256_bytes long_payload.
Definition long_evidence : ProposalEvidenceEnvelope := set_payload (MkEvidence "alg" long_digest []) long_payload.
Definition b4 : Block := set_evidence (logged_block 4 "h4" []) (Some long_evidence).

Lemma long_payload_marshalled : marshalled long_payload.
Proof. exists (JStr long_text). split; [exact I|]. split; [|reflexivity]. apply name_utf8. vm_compute. reflexivity. Qed.

#[local] Opaque long_payload.
Lemma b4_storable : storable (set_commit b4).
Proof.
  split; [|discriminate|discriminate|].
  - change (c_ok c_block (set_evidence (set_commit (logged_block 4 "h4" [])) (Some long_evidence))).
    apply block_ok_evidence; [apply block_tested; vm_compute; reflexivity|].
    apply evidence_payload_ok; [|exact long_payload_marshalled]. apply evidence_tested. vm_compute. reflexivity.
  - change (evidence_ok long_evidence). split_and!.
    + vm_compute. discriminate.
    + right. vm_compute. reflexivity.
    + assert (match Unmarshal c_wrapper (string_of_bytes (pe_Payload long_evidence)) with Some _ => false | None => true end = true) as E
        by (vm_compute; reflexivity). by destruct (Unmarshal c_wrapper _).
Qed.

Lemma b4_durable : durable (logged b4).
Proof.
  split; [|split; apply name_utf8; vm_compute; reflexivity].
  destruct (stored_block _ b4_storable) as (sb & E & _). exists sb. split; [exact b4_storable|exact E|].
  assert (match blockForDurableStorage (set_commit b4) with inr sb => (len (row sb) <? maxCommittedBlockRecordBytes)%Z | inl _ => false end
    = true) as Hlen by (vm_compute; reflexivity). cbn [fst logged] in E. rewrite E in Hlen. by apply Z.ltb_lt.
Qed.

(** Three blocks, and one whose evidence is stored compressed. *)
Lemma durable_commits_read_back_witness :
  (match blockForDurableStorage (set_commit b4) with
   | inr sb => from_option (λ e, (len (pe_Payload e) <? 1000)%Z) false (ProposalEvidence sb)
   | inl _ => false
   end = true ∧ len (pe_Payload long_evidence) = 20002%Z) ∧
  ReadCommitted (commit_all sample_store ∅ (sample_log ++ [logged b4])) =
    inr [set_commit b1; set_commit b2; set_commit b3; set_commit b4].
Proof.
  split; [split; vm_compute; reflexivity|].
  refine (durable_commits_read_back sample_store (sample_log ++ [logged b4]) sample_ready _ _ _).
  - apply Forall_app. split; [exact sample_log_durable|]. apply Forall_singleton. exact b4_durable.
  - discriminate.
  - vm_compute. discriminate.
Defined.

Lemma interrupted_commit_atomic_witness :
  ReadCommitted (DurableCommitWithMetrics (SetFailpointForTest sample_store "after_block_append")
    (commit_all sample_store ∅ [logged b1; logged b2]) b3 (logged_result b3)).1.1 = inr [set_commit b1; set_commit b2].
Proof.
  refine (interrupted_commit_atomic sample_store [logged b1; logged b2] b3 (logged_result b3) "after_block_append"
    sample_ready _ _ _ _ _).
  - repeat (apply Forall_cons; split; [apply logged_durable; set_solver|]). apply Forall_nil_2.
  - left. discriminate.
  - apply (logged_durable b3). set_solver.
  - vm_compute. reflexivity.
  - apply (bool_decide_unpack _). vm_compute. exact I.
Defined.

Lemma rollback_undoes_commit_witness :
  let fs := commit_all sample_store ∅ [logged b1] in
  Rollback sample_store (DurableCommitWithMetrics sample_store fs b2 (logged_result b2)).1.1
    (MkCheckpoint (reverse (ac_appendSizes (Checkpoint fs))) (ac_replaceData (Checkpoint fs))
       (ac_replaceMissing (Checkpoint fs))) = (fs, None).
Proof.
  intros fs. apply (rollback_undoes_commit sample_store sample_store fs b2 (logged_result b2)).
  - reflexivity.
  - apply reverse_Permutation.
  - reflexivity.
  - reflexivity.
Defined.

Lemma range_read_equivalent_witness :
  let ixs := (ReadCommittedRange (commit_all sample_store ∅ [logged b1]) ∅ 1 1).1 in
  ∃ blocks, ReadCommitted (commit_all sample_store ∅ sample_log) = inr blocks ∧
    (ReadCommittedRange (commit_all sample_store ∅ sample_log) ixs 2 9).2 =
      inr (filter (λ b, 2 <= Height b ∧ Height b <= 9) blocks).
Proof.
  intros ixs. apply (range_read_equivalent sample_store sample_log ixs 2 9).
  - exact (run_commit _ _ _ (logged b3) (run_commit _ _ _ (logged b2)
      (run_read _ _ _ 1 1 (run_commit _ _ _ (logged b1) (run_start _))))).
  - exact sample_ready.
  - exact sample_log_durable.
  - discriminate.
  - vm_compute. discriminate.
  - repeat constructor.
  - discriminate.
  - discriminate.
Defined.

(** The first commit into an empty directory, interrupted after the receipts: there is
    no block log, and reading fails as it does before any commit. *)
Example first_commit_interrupted :
  let fs := (DurableCommitWithMetrics (SetFailpointForTest sample_store "after_receipt_append") ∅ b1 (logged_result b1)).1.1 in
  fs ≠ ∅ ∧ ReadCommitted fs = ReadCommitted ∅ ∧ (ReadCommitted fs = inr [] → False).
Proof. split; [by vm_compute|]. split; [vm_compute; reflexivity|]. intros E. by vm_compute in E. Qed.

(** ** Crashes and rollbacks the store does not survive *)

(** A crash while a row is written: the log ends in the middle of the line. *)
Definition tear (fs : dir) (sb : Block) (n : nat) : dir :=
  <[blocks_file := content fs blocks_file ++ take n (row sb)]> fs.

(** A torn row is never repaired: the readers of the markers and of the index
    skip an unfinished last line, [ReadCommitted] does not and fails, and the next
    commit is written behind the fragment, so that after it neither [ReadCommitted]
    nor a range read of the first block works. *)
Theorem torn_row_blocks_store :
  let fs := commit_all sample_store ∅ [logged b1] in
  let torn := tear fs b2 40 in
  let after := commit_all sample_store torn [logged b2] in
  ReadCommitted fs = inr [set_commit b1] ∧
  (ReadCommittedRange torn ∅ 1 1).2 = inr [set_commit b1] ∧
  ReadCommitted torn = inl SeRow ∧ ReadCommitted after = inl SeRow ∧
  ∃ offset, (ReadCommittedRange after ∅ 1 1).2 = inl (SeHeight offset).
Proof. split_and!; [vm_compute; reflexivity..|]. eexists. vm_compute. reflexivity. Qed.

(** A block of the same height with more transactions. *)
Definition b2' : Block :=
  logged_block 2 "g2" [sample_transfer "bob" "alice" 0 8; sample_transfer "carol" "bob" 0 5; sample_transfer "dave" "bob" 0 6].

(** The index of a process is not reset by a rollback: when a range read falls
    between a failed commit and its rollback, and the next block is longer, the
    index keeps the offset of the block that was rolled back, and range reads fail
    until the process restarts. *)
Theorem rollback_leaves_stale_index :
  let fs := commit_all sample_store ∅ [logged b1] in
  let failed := (DurableCommitWithMetrics (SetFailpointForTest sample_store "after_block_append") fs b2 (logged_result b2)).1.1 in
  let ixs := (ReadCommittedRange failed ∅ 1 1).1 in
  let fs' := (Rollback sample_store failed (Checkpoint fs)).1 in
  let next := commit_all sample_store fs' [logged b2'] in
  ReadCommitted next = inr [set_commit b1; set_commit b2'] ∧
  (ReadCommittedRange next ∅ 1 2).2 = inr [set_commit b1; set_commit b2'] ∧
  ∃ offset, (ReadCommittedRange next ixs 1 2).2 = inl (SeHeight offset).
Proof. split_and!; [vm_compute; reflexivity..|]. eexists. vm_compute. reflexivity. Qed.

(** A commit that is interrupted before its marker and made again leaves two rows
    with one hash: a scan returns the block twice, a range read once. *)
Theorem repeated_commit_duplicates :
  let fs := commit_all sample_store ∅ [logged b1] in
  let crashed := (DurableCommitWithMetrics (SetFailpointForTest sample_store "after_block_append") fs b2 (logged_result b2)).1.1 in
  let again := commit_all sample_store crashed [logged b2] in
  ReadCommitted again = inr [set_commit b1; set_commit b2; set_commit b2] ∧
  (ReadCommittedRange again ∅ 1 2).2 = inr [set_commit b1; set_commit b2].
Proof. split; vm_compute; reflexivity. Qed.

(** Evidence is stored as the proposer wrote it. *)
Definition marked_evidence : ProposalEvidenceEnvelope :=
  MkEvidence "alg" "" (bytes_of_string (Marshal c_wrapper (MkWrapper "other" "" 0 "" ""))).
Definition marked_block : Block := set_evidence (logged_block 2 "h2" []) (Some marked_evidence).

(** Small evidence is stored as it is, and every reader takes a field
    [_mbe_storage_codec] in it for the mark of compression: one committed block with
    such evidence makes the whole log unreadable. *)
Theorem evidence_mark_blocks_store :
  let fs := commit_all sample_store ∅ [logged b1; logged marked_block] in
  (DurableCommitWithMetrics sample_store (commit_all sample_store ∅ [logged b1]) marked_block (logged_result marked_block)).2 = None ∧
  ReadCommitted fs = inl (SeRestore "unsupported durable proposal payload codec") ∧
  (ReadCommittedRange fs ∅ 2 2).2 = inl SeBlock.
Proof. split_and!; vm_compute; reflexivity. Qed.
