(* ===== verification/MvLatest.v ===== *)
(** * The latest version of a transaction

    A transaction re-executes, so the memory may hold several of its versions for
    a key. Only the latest matters to readers: [latest] is the memory as readers
    see it, with the effect of every operation on it. *)
From S2P Require Import Prelude GoStd MvMemory.
Local Open Scope N_scope.

Definition latest (m : MVMemory) (key : string) (txn : N) : option VersionedValue :=
  last (filter (λ x, v_Txn (vv_Version x) = txn) (items_of m key)).

Lemma last_sorted l x :
  StronglySorted ilt l → last l = Some x ↔ x ∈ l ∧ ∀ y, y ∈ l → y = x ∨ ilt y x.
Proof.
  intros Hs. split.
  - intros Hl. split; [by apply last_Some_elem_of|]. apply last_Some in Hl as [l' ->]. intros y.
    rewrite elem_of_app, list_elem_of_singleton. intros [Hy| ->]; [right|by left].
    induction l' as [|z l' IH]; [by apply elem_of_nil in Hy|].
    apply StronglySorted_inv in Hs as [Hs Hz]. rewrite Forall_forall in Hz.
    apply elem_of_cons in Hy as [->|Hy]; [apply Hz; set_solver|auto].
  - intros [Hx Hm]. destruct (last l) as [z|] eqn:E.
    + apply last_Some in E as [l' ->]. f_equal.
      destruct (Hm z) as [|Hz]; [set_solver|done|]. exfalso.
      rewrite elem_of_app, list_elem_of_singleton in Hx. destruct Hx as [Hx| ->];
        [|by apply (vlt_irrefl (vv_Version z))].
      assert (ilt x z) as Hxz; [|apply (vlt_irrefl (vv_Version z)); by transitivity (vv_Version x)].
      clear Hm Hz. induction l' as [|w l' IH]; [by apply elem_of_nil in Hx|].
      apply StronglySorted_inv in Hs as [Hs Hw]. rewrite Forall_forall in Hw.
      apply elem_of_cons in Hx as [->|Hx]; [apply Hw; set_solver|auto].
    + apply last_None in E. subst. by apply elem_of_nil in Hx.
Qed.

Lemma latest_Some m key txn x :
  mv_ok m → latest m key txn = Some x ↔
  stored m key x ∧ v_Txn (vv_Version x) = txn ∧
  ∀ y, stored m key y → v_Txn (vv_Version y) = txn → y = x ∨ ilt y x.
Proof.
  intros H. unfold latest, stored.
  rewrite last_sorted by (apply StronglySorted_filter; by apply items_sorted).
  setoid_rewrite list_elem_of_filter. naive_solver.
Qed.

Lemma latest_None m key txn :
  latest m key txn = None ↔ ∀ y, stored m key y → v_Txn (vv_Version y) ≠ txn.
Proof.
  unfold latest, stored. rewrite last_None. split.
  - intros E y Hy Ht. apply (not_elem_of_nil y). rewrite <- E. by apply list_elem_of_filter.
  - intros H. destruct (filter _ _) as [|y l] eqn:E; [done|]. exfalso.
    assert (y ∈ filter (λ x, v_Txn (vv_Version x) = txn) (items_of m key)) as Hy by (rewrite E; left).
    apply list_elem_of_filter in Hy as [Ht Hy]. by eapply H.
Qed.

Lemma latest_ext m m' k k' txn :
  mv_ok m → mv_ok m' →
  (∀ y, v_Txn (vv_Version y) = txn → stored m k y ↔ stored m' k' y) → latest m k txn = latest m' k' txn.
Proof.
  intros H H' E. destruct (latest m' k' txn) as [x|] eqn:L.
  - apply latest_Some in L as (S & T & M); [|done]. apply latest_Some; [done|].
    split_and!; [by apply E|done|]. intros y Sy Ty. apply M; [by apply E|done].
  - rewrite latest_None in *. intros y Sy Ty. apply (L y); [by apply E|done].
Qed.

(** A version that is not older than those stored becomes the latest. *)
Lemma latest_upsert m key item k txn :
  mv_ok m →
  (∀ y, stored m key y → v_Txn (vv_Version y) = v_Txn (vv_Version item) →
     v_Incarnation (vv_Version y) <= v_Incarnation (vv_Version item)) →
  latest (upsertLocked m key item) k txn =
    if decide (k = key ∧ txn = v_Txn (vv_Version item)) then Some item else latest m k txn.
Proof.
  intros H Hle. case_decide as E.
  - destruct E as [-> ->]. apply latest_Some; [by apply mv_ok_upsert|]. split_and!; [|done|].
    + apply stored_upsert; [done|]. left. split; [done|by left].
    + intros y Sy Ty. apply stored_upsert in Sy as [[_ [->|[Sy Hne]]]|[? _]]; [by left| |done|done].
      right. apply vlt_spec. right. split; [done|]. specialize (Hle y Sy Ty).
      destruct (vv_Version y) as [a c], (vv_Version item) as [a' c']. simpl in *. subst.
      assert (c ≠ c') by congruence. lia.
  - apply latest_ext; [by apply mv_ok_upsert|done|]. intros y Ty. rewrite stored_upsert by done.
    destruct (decide (k = key)) as [->|]; [|naive_solver]. split; [|intros Sy; left].
    + intros [[_ [->|[? _]]]|[? _]]; [naive_solver|done|done].
    + split; [done|]. right. split; [done|]. intros Ev. apply E. split; [done|]. by rewrite <- Ev.
Qed.

Lemma latest_clear m key txn k j :
  mv_ok m →
  latest (ClearTxnVersions m key txn) k j =
    if decide (k = key ∧ j = txn) then None else latest m k j.
Proof.
  intros H. assert (∀ k y, stored (ClearTxnVersions m key txn) k y ↔
    stored m k y ∧ ¬ (k = key ∧ v_Txn (vv_Version y) = txn)) as Hst.
  { intros k' y. unfold stored. rewrite ClearTxnVersions_items. case_decide as E.
    - subst. rewrite list_elem_of_filter. naive_solver.
    - naive_solver. }
  case_decide as E.
  - destruct E as [-> ->]. apply latest_None. intros y [Sy Hn]%Hst Ty. by apply Hn.
  - apply latest_ext; [by apply mv_ok_clear|done|]. intros y Ty. rewrite Hst. naive_solver.
Qed.

(** ** Reads from the latest versions *)

Definition read_of (key : string) (x : VersionedValue) : ReadDescriptor :=
  MkRead key false (vv_Version x) (vv_Value x) (vv_Estimate x)
    (if vv_Estimate x then Some (vv_Version x) else None).
Definition base_read (key : string) (base : gmap string string) : ReadDescriptor :=
  MkRead key true (MkVersion 0 0) (default "" (base !! key)) false None.

(** A read comes from the closest lower transaction that has a version. *)
Definition reads_from (m : MVMemory) (key : string) (reader txn : N) (x : VersionedValue) : Prop :=
  txn < reader ∧ latest m key txn = Some x ∧ ∀ j, txn < j → j < reader → latest m key j = None.

Lemma Read_from m key reader base txn x :
  mv_ok m → reads_from m key reader txn x → Read m key reader base = read_of key x.
Proof.
  intros H (Ht & L & Hn). apply latest_Some in L as (S & T & M); [|done].
  apply Read_visible; [done|]. split_and!; [done|lia|]. intros y Sy Ty.
  destruct (N.lt_trichotomy (v_Txn (vv_Version y)) txn) as [Hlt|[Heq|Hgt]].
  - right. apply vlt_spec. lia.
  - by apply M.
  - exfalso. specialize (Hn _ Hgt Ty). rewrite latest_None in Hn. by eapply Hn.
Qed.

Lemma Read_none m key reader base :
  mv_ok m → (∀ j, j < reader → latest m key j = None) → Read m key reader base = base_read key base.
Proof.
  intros H Hn. apply Read_base; [done|]. intros y Sy.
  destruct (N.le_gt_cases reader (v_Txn (vv_Version y))) as [|Hlt]; [done|]. exfalso.
  specialize (Hn _ Hlt). rewrite latest_None in Hn. by eapply Hn.
Qed.

Lemma Read_source m key reader base :
  mv_ok m →
  (∃ txn x, reads_from m key reader txn x ∧ Read m key reader base = read_of key x) ∨
  ((∀ j, j < reader → latest m key j = None) ∧ Read m key reader base = base_read key base).
Proof.
  intros H. destruct (Read_cases m key reader base H) as [(x & (S & T & M) & E)|[Hn E]].
  - left. exists (v_Txn (vv_Version x)), x. split; [|done]. split_and!; [done| |].
    + apply latest_Some; [done|]. split_and!; [done..|]. intros y Sy Ty. apply M; [done|lia].
    + intros j Hj Hr. apply latest_None. intros y Sy Ty.
      destruct (M y Sy) as [->|L]; [lia|lia|]. apply vlt_spec in L. lia.
  - right. split; [|done]. intros j Hj. apply latest_None. intros y Sy Ty. specialize (Hn y Sy). lia.
Qed.

(** A read sees nothing of a transaction that is not below the reader, nor of
    one whose latest version is replaced behind a closer one. *)
Lemma Read_latest_ext m m' key reader base :
  mv_ok m → mv_ok m' → (∀ j, j < reader → latest m key j = latest m' key j) →
  Read m key reader base = Read m' key reader base.
Proof.
  intros H H' E. destruct (Read_source m' key reader base H') as [(txn & x & (T & L & Hn) & ->)|[Hn ->]].
  - apply (Read_from _ _ _ _ txn); [done|]. split_and!; [done|by rewrite E|].
    intros j Hj Hr. rewrite E by done. auto.
  - apply Read_none; [done|]. intros j Hj. rewrite E; auto.
Qed.

Lemma Read_behind_estimate m m' key reader base txn x :
  mv_ok m → mv_ok m' → latest m key txn = Some x → vv_Estimate x = true →
  (∀ j, j ≠ txn → latest m key j = latest m' key j) →
  rd_Estimate (Read m key reader base) = false →
  Read m' key reader base = Read m key reader base.
Proof.
  intros H H' L Hx E Hr. destruct (N.le_gt_cases reader txn) as [|Hlt].
  { symmetry. apply Read_latest_ext; [done..|]. intros j Hj. apply E. lia. }
  destruct (Read_source m key reader base H) as [(t & y & (T & Ly & Hn) & Er)|[Hn _]].
  2: { rewrite Hn in L; [done|lia]. }
  rewrite Er in *. destruct (N.lt_trichotomy t txn) as [Htt|[->|Htt]].
  - rewrite Hn in L; [done|lia|lia].
  - simplify_eq. cbn in Hr. congruence.
  - apply (Read_from _ _ _ _ t); [done|]. split_and!; [done|rewrite <- E by lia; done|].
    intros j Hj Hjr. rewrite <- E by lia. auto.
Qed.
