(* ===== verification/BlockStm.v ===== *)
(** * The Block-STM block executor
    ([executor/realism/execution/blockstm_executor.go])

    A coordinator hands execution and validation tasks of a block's transactions
    to workers; the workers read and write the shared multi-version memory, the
    coordinator alone keeps the books. The memory's operations are atomic (its
    lock), nothing else is: a worker is a small state that advances one memory
    operation at a time, the coordinator advances one loop turn or one memory
    operation at a time, and [step] lets a [choice] decide who moves. An
    execution is a list of choices; the theorems are about all of them.

    The channel of results is the set of workers that are done; the coordinator
    takes any of them. Go's map iterations over memory operations take a key of
    the caller's choice. Counters and progress reports are left out, and error
    texts are given without their arguments. The state is the one after the
    check of the context with which [ExecuteBlockWithCommitment] begins. *)
From S2P Require Import Prelude GoStd Tx Block StateRoot MvMemory Heap Scheduler Serial.
Local Open Scope N_scope.

Definition BlockSTMExecutorID : string := "block_stm_block_executor".
Definition BlockSTMExecutorVersion : string := "0.2.1".

Record BlockSTMExecutor := MkExecutor {
  bs_DefaultInitialBalance : Z;
  bs_WorkerCount : Z;
  bs_ExecutionMode : string;
  bs_OracleMode : string;
  bs_MaximumIncarnations : Z;
  bs_IncarnationLimitAction : string;
  bs_SchedulerMode : string;
  bs_DependencyWaitMode : string;
  bs_deltaOnly : bool;
}.

Definition NewBlockSTMExecutor (workerCount : Z) : BlockSTMExecutor :=
  MkExecutor 1000000 (if (workerCount <? 1)%Z then 1 else workerCount) "correctness" "full" 0 "fail"
    "legacy_scan_v1" "abort_new_incarnation_v1" false.

(** ** Keys *)

Definition qualifyKey (shardID key : string) : string :=
  if (key ≟ "") || str_contains key "::" then key else shardID +:+ "::" +:+ key.

(** The loop runs over a Go map: where two keys of the snapshot give the same
    logical key, which one stays is not determined; here it is the first. *)
Definition logical_key (shardID key : string) : string :=
  let prefix := shardID +:+ "::" in
  if has_prefix key prefix then trim_prefix key prefix else key.

Definition logicalSnapshot (shardID : string) (snapshot : gmap string string) : gmap string string :=
  list_to_map ((λ kv, (logical_key shardID kv.1, kv.2)) <$> map_to_list snapshot).

(** ** The overlay of a speculative execution

    The memory it reads is shared and is an argument of [stmOverlay_get]. *)
Record stmOverlay := MkStmOverlay {
  om_shardID : string;
  om_base : gmap string string;
  om_logicalBase : gmap string string;
  om_reader : N;
  om_writes : gmap string string;
  om_reads : list ReadObservation;
  om_captured : list ReadDescriptor;
  om_dependency : option Version;
}.

Definition newSTMOverlay (shardID : string) (base logicalBase : gmap string string) (reader : N)
    : stmOverlay := MkStmOverlay shardID base logicalBase reader ∅ [] [] None.

Definition read_source (read : ReadDescriptor) : string :=
  if rd_Estimate read then "stm_mvmemory_estimate"
  else if negb (rd_FromBase read)
  then "stm_mvmemory_tx_" +:+ format_uint (v_Txn (rd_Version read)) +:+ "_inc_" +:+
       format_uint (v_Incarnation (rd_Version read))
  else "stm_mvmemory_base".

Definition stmOverlay_get (memory : MVMemory) (key : string) (o : stmOverlay)
    : stmOverlay * string :=
  match om_writes o !! key with
  | Some value =>
      (MkStmOverlay (om_shardID o) (om_base o) (om_logicalBase o) (om_reader o) (om_writes o)
         (om_reads o ++ [observe key value "stm_local_write"]) (om_captured o) (om_dependency o),
       value)
  | None =>
      let read := Read memory key (om_reader o) (om_logicalBase o) in
      let dependency := match rd_DependencyOn read with
                        | Some d => if rd_Estimate read then Some d else om_dependency o
                        | None => om_dependency o
                        end in
      (MkStmOverlay (om_shardID o) (om_base o) (om_logicalBase o) (om_reader o) (om_writes o)
         (om_reads o ++ [observe key (rd_Value read) (read_source read)])
         (om_captured o ++ [read]) dependency,
       rd_Value read)
  end.

Definition stmOverlay_set (key value : string) (o : stmOverlay) : stmOverlay :=
  MkStmOverlay (om_shardID o) (om_base o) (om_logicalBase o) (om_reader o)
    (<[key := value]> (om_writes o)) (om_reads o) (om_captured o) (om_dependency o).

(** ** Tasks *)

Record blockSTMTaskInput := MkInput {
  ti_Task : SchedulerTask;
  ti_Captured : list ReadDescriptor;
  ti_PreviousWrites : gmap string string;
}.

Record blockSTMTaskResult := MkTaskResult {
  tr_Kind : SchedulerTaskKind;
  tr_Version : Version;
  tr_Generation : N;
  tr_Captured : list ReadDescriptor;
  tr_ReadSet : list ReadObservation;
  tr_WriteSet : gmap string string;
  tr_WroteNewLocation : bool;
  tr_Receipt : Receipt;
  tr_Validation : ValidationResult;
  tr_Dependency : option Version;
  tr_Err : error;
}.

Definition zero_receipt : Receipt := MkReceipt "" "" 0 false "" 0 [] "".
Definition zero_validation : ValidationResult := MkValidation false "" zero_read zero_read None.

Definition failed_task (task : SchedulerTask) (err : string) : blockSTMTaskResult :=
  MkTaskResult (tk_Kind task) (tk_Version task) (tk_Generation task) [] [] ∅ false zero_receipt
    zero_validation None (Some err).

Definition executed_task (task : SchedulerTask) (o : stmOverlay) (receipt : Receipt)
    (wroteNewLocation : bool) : blockSTMTaskResult :=
  MkTaskResult (tk_Kind task) (tk_Version task) (tk_Generation task) (om_captured o) (om_reads o)
    (om_writes o) wroteNewLocation receipt zero_validation (om_dependency o) None.

Definition validated_task (task : SchedulerTask) (validation : ValidationResult)
    : blockSTMTaskResult :=
  MkTaskResult (tk_Kind task) (tk_Version task) (tk_Generation task) [] [] ∅ false zero_receipt
    validation None None.

(** ** Workers

    Where [runBlockSTMTask] stands: at its start; between two operations of the
    transaction's program; publishing the writes (versions of dropped keys to
    clear, writes to put); comparing the reads left to compare; at its end, the
    result on its way to the coordinator. *)
Inductive worker :=
  | WStart (input : blockSTMTaskInput)
  | WRun (input : blockSTMTaskInput) (o : stmOverlay) (p : action Receipt)
  | WPublish (input : blockSTMTaskInput) (o : stmOverlay) (receipt : Receipt)
      (clear : gset string) (put : gmap string string)
  | WCheck (input : blockSTMTaskInput) (rest : list ReadDescriptor)
  | WDone (result : blockSTMTaskResult).

Definition wrote_new (input : blockSTMTaskInput) (writes : gmap string string) : bool :=
  negb (bool_decide (dom writes ⊆ dom (ti_PreviousWrites input))).

Section executor.
Context (e : BlockSTMExecutor) (b : Block) (base : gmap string string).
Context (baseCommitment : option commitmentNode).

Definition logicalBase : gmap string string := logicalSnapshot (ShardID b) base.
Definition txCount : nat := length (TxList b).
Definition workerCount : Z := if (bs_WorkerCount e <? 1)%Z then 1 else bs_WorkerCount e.

Definition start_task (cancelled : bool) (input : blockSTMTaskInput) : worker :=
  let task := ti_Task input in
  if cancelled then WDone (failed_task task "context canceled")
  else match TxList b !! N.to_nat (v_Txn (tk_Version task)) with
  | None => WDone (failed_task task "block-stm task index out of range")
  | Some item =>
      match tk_Kind task with
      | TaskExecute =>
          WRun input (newSTMOverlay (ShardID b) base logicalBase (v_Txn (tk_Version task)))
            (executeTxWithoutStateRoot (bs_DefaultInitialBalance e) b item)
      | TaskValidate => WCheck input (ti_Captured input)
      end
  end.

(** One read of the comparison ([MVMemory.Validate] locks per read). *)
Definition check_read (memory : MVMemory) (input : blockSTMTaskInput) (expected : ReadDescriptor)
    (rest : list ReadDescriptor) : worker :=
  let task := ti_Task input in
  let observed := Read memory (rd_Key expected) (v_Txn (tk_Version task)) logicalBase in
  if rd_Estimate observed
  then WDone (validated_task task
                (MkValidation false (rd_Key expected) expected observed (rd_DependencyOn observed)))
  else if negb (sameRead expected observed)
  then WDone (validated_task task (MkValidation false (rd_Key expected) expected observed None))
  else WCheck input rest.

(** One move of a worker; [key] is the map key it takes when it publishes. *)
Definition worker_step (cancelled : bool) (key : string) (memory : MVMemory) (w : worker)
    : option (MVMemory * worker) :=
  match w with
  | WStart input => Some (memory, start_task cancelled input)
  | WRun input o (GetKey k next) =>
      let '(o', v) := stmOverlay_get memory k o in Some (memory, WRun input o' (next v))
  | WRun input o (SetKey k v next) => Some (memory, WRun input (stmOverlay_set k v o) next)
  | WRun input o (Ret receipt) =>
      Some (memory,
        match om_dependency o with
        | Some _ => WDone (executed_task (ti_Task input) o receipt false)
        | None => WPublish input o receipt (dom (ti_PreviousWrites input) ∖ dom (om_writes o))
                    (om_writes o)
        end)
  | WPublish input o receipt clear put =>
      let task := ti_Task input in
      if bool_decide (clear = ∅) then
        if bool_decide (put = ∅)
        then Some (memory, WDone (executed_task task o receipt (wrote_new input (om_writes o))))
        else
        value ← put !! key;
        Some (Write memory key (tk_Version task) value,
              WPublish input o receipt clear (delete key put))
      else if bool_decide (key ∈ clear)
      then Some (ClearTxnVersions memory key (v_Txn (tk_Version task)),
                 WPublish input o receipt (clear ∖ {[key]}) put)
      else None
  | WCheck input [] =>
      Some (memory, WDone (validated_task (ti_Task input)
                             (MkValidation true "" zero_read zero_read None)))
  | WCheck input (expected :: rest) => Some (memory, check_read memory input expected rest)
  | WDone _ => None
  end.

(** ** The coordinator's books *)

(** The slices that hold a transaction's last execution and where it stands, one
    entry. *)
Record slot := MkSlot {
  sl_captured : list ReadDescriptor;
  sl_writeSet : gmap string string;
  sl_receipt : Receipt;
  sl_incarnation : N;
  sl_generation : N;
  sl_validated : bool;
  sl_executed : bool;
  sl_waiting : bool;
}.
#[local] Instance slot_eta : Eta slot := λ s,
  MkSlot (sl_captured s) (sl_writeSet s) (sl_receipt s) (sl_incarnation s)
    (sl_generation s) (sl_validated s) (sl_executed s) (sl_waiting s).

Definition zero_slot : slot := MkSlot [] ∅ zero_receipt 0 0 false false false.

Definition with_incarnation (v : N) (s : slot) : slot := ltac:(set_field sl_incarnation v s).
Definition with_generation (v : N) (s : slot) : slot := ltac:(set_field sl_generation v s).
Definition with_validated (v : bool) (s : slot) : slot := ltac:(set_field sl_validated v s).
Definition with_executed (v : bool) (s : slot) : slot := ltac:(set_field sl_executed v s).
Definition with_waiting (v : bool) (s : slot) : slot := ltac:(set_field sl_waiting v s).
Definition with_result (r : blockSTMTaskResult) (s : slot) : slot :=
  MkSlot (tr_Captured r) (tr_WriteSet r) (tr_Receipt r) (sl_incarnation s)
    (sl_generation s) (sl_validated s) true false.

(** Where the coordinator stands: at the top of its loop; filling the workers; in
    the [select]; marking the writes of an aborted execution; returned. *)
Inductive control :=
  | CTop
  | CFill
  | CSelect
  | CMark (result : blockSTMTaskResult) (keys : gset string)
  | CReturn (outcome : string + Result).

Record stm := MkStm {
  sm_memory : MVMemory;
  sm_slots : list slot;
  sm_readSets : list (list ReadObservation);
  sm_validationQueued : list bool;
  sm_readKeysByTxn : list (list string);
  sm_scheduler : Scheduler;
  sm_dependencies : DependencyRegistry;
  sm_validatedCount : Z;
  sm_readersByKey : gmap string (gset N);
  sm_active : list worker;
  sm_control : control;
  sm_cancelled : bool;
}.
#[local] Instance stm_eta : Eta stm := λ s,
  MkStm (sm_memory s) (sm_slots s) (sm_readSets s) (sm_validationQueued s) (sm_readKeysByTxn s)
    (sm_scheduler s) (sm_dependencies s) (sm_validatedCount s)
    (sm_readersByKey s) (sm_active s) (sm_control s) (sm_cancelled s).

Definition set_memory (v : MVMemory) (s : stm) : stm := ltac:(set_field sm_memory v s).
Definition set_slots (v : list slot) (s : stm) : stm := ltac:(set_field sm_slots v s).
Definition set_readSets (v : list (list ReadObservation)) (s : stm) : stm :=
  ltac:(set_field sm_readSets v s).
Definition set_validationQueued (v : list bool) (s : stm) : stm :=
  ltac:(set_field sm_validationQueued v s).
Definition set_readKeysByTxn (v : list (list string)) (s : stm) : stm :=
  ltac:(set_field sm_readKeysByTxn v s).
Definition set_scheduler (v : Scheduler) (s : stm) : stm := ltac:(set_field sm_scheduler v s).
Definition set_dependencies (v : DependencyRegistry) (s : stm) : stm :=
  ltac:(set_field sm_dependencies v s).
Definition set_validatedCount (v : Z) (s : stm) : stm := ltac:(set_field sm_validatedCount v s).
Definition set_readersByKey (v : gmap string (gset N)) (s : stm) : stm :=
  ltac:(set_field sm_readersByKey v s).
Definition set_active (v : list worker) (s : stm) : stm := ltac:(set_field sm_active v s).
Definition set_control (v : control) (s : stm) : stm := ltac:(set_field sm_control v s).
Definition set_cancelled (v : bool) (s : stm) : stm := ltac:(set_field sm_cancelled v s).

Definition slot_at (s : stm) (index : N) : slot := default zero_slot (sm_slots s !! N.to_nat index).
Definition in_range (s : stm) (index : N) : bool := index <? N.of_nat (length (sm_slots s)).
Definition update_slot (index : N) (f : slot → slot) (s : stm) : stm :=
  set_slots (alter f (N.to_nat index) (sm_slots s)) s.
Definition put_queued (index : N) (v : bool) (s : stm) : stm :=
  set_validationQueued (<[N.to_nat index := v]> (sm_validationQueued s)) s.
Definition put_readKeys (index : N) (v : list string) (s : stm) : stm :=
  set_readKeysByTxn (<[N.to_nat index := v]> (sm_readKeysByTxn s)) s.
Definition put_readSet (index : N) (v : list ReadObservation) (s : stm) : stm :=
  set_readSets (<[N.to_nat index := v]> (sm_readSets s)) s.
Definition queued_at (s : stm) (index : N) : bool :=
  default false (sm_validationQueued s !! N.to_nat index).
Definition version_at (s : stm) (index : N) : Version := MkVersion index (sl_incarnation (slot_at s index)).
Definition indexes (start : N) (s : stm) : list N :=
  N.of_nat <$> seq (N.to_nat start) (length (sm_slots s) - N.to_nat start).

(** ** Which transactions read a key *)

Definition drop_reader (index : N) (readers : gmap string (gset N)) (key : string)
    : gmap string (gset N) :=
  let left := default ∅ (readers !! key) ∖ {[index]} in
  if bool_decide (left = ∅) then delete key readers else <[key := left]> readers.

Definition clearReadIndex (index : N) (s : stm) : stm :=
  let keys := default [] (sm_readKeysByTxn s !! N.to_nat index) in
  put_readKeys index [] (set_readersByKey (foldl (drop_reader index) (sm_readersByKey s) keys) s).

Definition add_reader (index : N) (acc : gmap string (gset N) * list string) (read : ReadDescriptor)
    : gmap string (gset N) * list string :=
  let '(readers, seen) := acc in
  let key := rd_Key read in
  if (key ≟ "") || bool_decide (key ∈ seen) then acc
  else (<[key := {[index]} ∪ default ∅ (readers !! key)]> readers, seen ++ [key]).

Definition indexCapturedReads (index : N) (reads : list ReadDescriptor) (s : stm) : stm :=
  let s := clearReadIndex index s in
  let '(readers, keys) := foldl (add_reader index) (sm_readersByKey s, []) reads in
  put_readKeys index keys (set_readersByKey readers s).

(** ** Scheduling validations *)

Definition scheduleValidation (index : N) (s : stm) : stm * bool :=
  let t := slot_at s index in
  if negb (in_range s index) || sl_validated t || negb (sl_executed t) || sl_waiting t ||
     queued_at s index
  then (s, false)
  else
  let s := put_queued index true s in
  (set_scheduler
     (ScheduleValidationGeneration (version_at s index) (sl_generation t) (sm_scheduler s)) s, true).

Definition schedule_each (acc : stm * bool) (index : N) : stm * bool :=
  let '(s, scheduled) := acc in
  let '(s, one) := scheduleValidation index s in (s, scheduled || one).

Definition scheduleValidationRange (start : N) (s : stm) : stm * bool :=
  foldl schedule_each (s, false) (indexes start s).

Definition scheduleReadyValidations (s : stm) : stm * bool := scheduleValidationRange 0 s.

(** An executed transaction whose validation no longer counts: a result on its
    way is superseded, a new validation is scheduled. *)
Definition revalidate (index : N) (s : stm) : stm :=
  let t := slot_at s index in
  if negb (sl_executed t) || sl_waiting t then s
  else
  let s := if sl_validated t
           then set_validatedCount (sm_validatedCount s - 1) (update_slot index (with_validated false) s)
           else s in
  let s := update_slot index (with_generation (u64_add (sl_generation t) 1)) s in
  let s := put_queued index false s in
  (scheduleValidation index s).1.

Definition reader_targets (lowerIndex : N) (writes : gmap string string) (s : stm) : gset N :=
  filter (λ index, lowerIndex < index)
    (⋃ ((λ key, default ∅ (sm_readersByKey s !! key)) <$> elements (dom writes))).

Definition invalidateValidationReaders (lowerIndex : N) (writes : gmap string string) (s : stm) : stm :=
  foldl (λ s index, revalidate index s) s
    (merge_sort N.le (elements (reader_targets lowerIndex writes s))).

(** ** Handing out tasks *)

(** [cancelled_select]: the [select] took the cancelled context instead of an idle
    worker; the task is lost. *)
Definition dispatch (cancelled_select : bool) (s : stm) : stm * bool :=
  let '(scheduler, next) := Next (sm_scheduler s) in
  let s := set_scheduler scheduler s in
  match next with
  | None => (s, false)
  | Some task =>
      let t := slot_at s (v_Txn (tk_Version task)) in
      let input := match tk_Kind task with
                   | TaskValidate => MkInput task (sl_captured t) ∅
                   | TaskExecute => MkInput task [] (sl_writeSet t)
                   end in
      if cancelled_select then (s, false)
      else (set_active (sm_active s ++ [WStart input]) s, true)
  end.

Definition fail (text : string) (s : stm) : stm := set_control (CReturn (inl text)) s.

(** The turn of the loop in which no worker is busy. *)
Definition schedule_execution (acc : stm * bool) (index : N) : stm * bool :=
  let '(s, scheduled) := acc in
  let t := slot_at s index in
  if sl_validated t || sl_waiting t || sl_executed t then acc
  else (set_scheduler (ScheduleExecution (version_at s index) (sm_scheduler s)) s, true).

Definition stalled_on (s : stm) : bool :=
  existsb (λ t, negb (sl_validated t) && sl_waiting t) (sm_slots s).

Definition idle (cancelled_select : bool) (s : stm) : stm :=
  let '(s, scheduled) := scheduleReadyValidations s in
  let '(s, scheduled) := foldl schedule_execution (s, scheduled) (indexes 0 s) in
  if scheduled : bool then
    let '(s, dispatched) := dispatch cancelled_select s in
    if dispatched : bool then set_control CTop s
    else fail (if stalled_on s then "block-stm scheduler stalled on unresolved dependency"
               else "block-stm scheduler stalled without runnable work") s
  else fail (if stalled_on s then "block-stm scheduler stalled on unresolved dependency"
             else "block-stm scheduler stalled without runnable work") s.

Definition fill (cancelled_select cancelled_idle : bool) (s : stm) : stm :=
  let busy := Z.of_nat (length (sm_active s)) in
  if (busy <? workerCount)%Z then
    let '(s, dispatched) := dispatch cancelled_select s in
    if dispatched : bool then s
    else if (busy =? 0)%Z then idle cancelled_idle s else set_control CSelect s
  else set_control CSelect s.

(** ** Plans and results *)

Definition buildBlockSTMPlan (declared : AccessSet) : SerialPlan :=
  let serial := buildSerialPlan b declared in
  let plan := MkSerialPlan BlockSTMExecutorID BlockSTMExecutorVersion (xp_BlockHash serial)
    (xp_BlockHeight serial) (xp_OrderedTransactionIDs serial) (xp_OriginalTransactionIdxs serial)
    (xp_DeclaredAccessSetDigest serial) (xp_DeclaredReadKeyCount serial)
    (xp_DeclaredWriteKeyCount serial) workerCount in
  plan (sha256_hex (Json.marshal (json_serial_plan (plan "")))).

Definition serialFallbackResult : Result :=
  let serial := ExecuteBlock NewSerialExecutor b base in
  let plan := buildBlockSTMPlan (declaredAccessSet (TxList b)) in
  MkResult (re_BlockHash serial) (re_Height serial) (re_StateRootBefore serial)
    (re_StateRootAfter serial) (re_ReceiptRoot serial) (re_Receipts serial) (re_StateUpdates serial)
    (re_StateDelta serial) (re_SuccessfulTxs serial) (re_FailedTxs serial) BlockSTMExecutorID
    BlockSTMExecutorVersion workerCount (Some plan) (xp_PlanDigest plan) (re_TxDeltas serial)
    (re_StateRootVersion serial) true.

(** The writes of a transaction in key order, into the working state and into
    the commitment. *)
Definition put_writes (writes working : gmap string string) : gmap string string :=
  foldl (λ w key, <[qualifyKey (ShardID b) key := default "" (writes !! key)]> w) working
    (sorted_keys writes).
Definition commit_puts (writes : gmap string string) (c : commitmentNode) : commitmentNode :=
  foldl (λ c key, commitmentSet c (qualifyKey (ShardID b) key) (default "" (writes !! key))) c
    (sorted_keys writes).

Fixpoint ordered_loop (index : Z) (items : list SignedTransaction)
    (slots : list (slot * list ReadObservation)) (working : gmap string string) (c : commitmentNode)
    : string + (gmap string string * commitmentNode * list TxDelta) :=
  match items, slots with
  | item :: items, (t, readSet) :: slots =>
      if negb (sl_validated t)
      then inl ("block-stm missing validated incarnation for tx " +:+ TxID item)
      else
      let working := put_writes (sl_writeSet t) working in
      if rc_TxID (sl_receipt t) ≟ ""
      then inl ("block-stm missing materialized receipt for tx " +:+ TxID item)
      else
      let c := commit_puts (sl_writeSet t) c in
      let receipt := with_root (sl_receipt t) (CommitmentRoot (Some c)) in
      let delta := delta_of item index readSet (sl_writeSet t) receipt in
      '(wc, deltas) ← ordered_loop (index + 1) items slots working c;
      inr (wc, delta :: deltas)
  | _, _ => inr (working, c, [])
  end.

Fixpoint delta_only_loop (index : Z) (items : list SignedTransaction)
    (slots : list (slot * list ReadObservation)) : string + list TxDelta :=
  match items, slots with
  | item :: items, (t, readSet) :: slots =>
      if negb (sl_validated t)
      then inl ("block-stm missing validated incarnation for tx " +:+ TxID item)
      else if rc_TxID (sl_receipt t) ≟ ""
      then inl ("block-stm missing validated receipt for tx " +:+ TxID item)
      else
      deltas ← delta_only_loop (index + 1) items slots;
      inr (delta_of item index readSet (sl_writeSet t) (sl_receipt t) :: deltas)
  | _, _ => inr []
  end.

#[local] Instance Receipt_eq_dec : EqDecision Receipt.
Proof. solve_decision. Defined.
#[local] Instance StateUpdate_eq_dec : EqDecision StateUpdate.
Proof. solve_decision. Defined.

Definition sameExecutionOutput (left right : Result) : bool :=
  (re_StateRootBefore left ≟ re_StateRootBefore right) &&
  (re_StateRootAfter left ≟ re_StateRootAfter right) &&
  (re_ReceiptRoot left ≟ re_ReceiptRoot right) &&
  (re_SuccessfulTxs left ≟ re_SuccessfulTxs right) && (re_FailedTxs left ≟ re_FailedTxs right) &&
  bool_decide (re_Receipts left = re_Receipts right) &&
  bool_decide (re_StateDelta left = re_StateDelta right).

Definition shouldRunSerialOracle : bool :=
  ((bs_ExecutionMode e ≟ "") || (bs_ExecutionMode e ≟ "correctness")) &&
  ((bs_OracleMode e ≟ "") || (bs_OracleMode e ≟ "full")).

(** What follows the loop. *)
Definition finish_deltas (slots : list (slot * list ReadObservation)) : string + Result :=
  deltas ← delta_only_loop 0 (TxList b) slots;
  inr (MkResult (BlockHash b) (Height b) "" "" "" (td_Receipt <$> deltas) ∅ []
         (count_success deltas) (count_failed deltas) BlockSTMExecutorID BlockSTMExecutorVersion
         workerCount None "" deltas "" true).

Definition finish_block (slots : list (slot * list ReadObservation)) : string + Result :=
  let commitment := CloneOrBuild baseCommitment base in
  '(working, c, deltas) ← ordered_loop 0 (TxList b) slots base commitment;
  let plan := buildBlockSTMPlan (declaredAccessSet (TxList b)) in
  let result := MkResult (BlockHash b) (Height b) (CommitmentRoot (Some commitment))
    (CommitmentRoot (Some c)) (ReceiptRoot (td_Receipt <$> deltas)) (td_Receipt <$> deltas) working
    (stateDelta base working) (count_success deltas) (count_failed deltas) BlockSTMExecutorID
    BlockSTMExecutorVersion workerCount (Some plan) (xp_PlanDigest plan) deltas CommitmentVersion true in
  if shouldRunSerialOracle &&
     negb (sameExecutionOutput (ExecuteBlock NewSerialExecutor b base) result)
  then inl "block-stm ordered materialization diverged from serial oracle"
  else if re_StateRootAfter result ≠? Root working
  then inl "block-stm ordered materialization root mismatch"
  else inr result.

Definition finish (s : stm) : string + Result :=
  let slots := zip (sm_slots s) (sm_readSets s) in
  if bs_deltaOnly e then finish_deltas slots else finish_block slots.

(** ** Taking a result *)

(** [None]: within the limit, or there is none. *)
Definition incarnation_limit (index : N) (s : stm) : option (string + Result) :=
  if (0 <? bs_MaximumIncarnations e)%Z &&
     (bs_MaximumIncarnations e <=? Z.of_N (sl_incarnation (slot_at s index)))%Z
  then Some (if bs_IncarnationLimitAction e ≟ "serial_fallback" then inr serialFallbackResult
             else inl "block-stm maximum incarnations exceeded")
  else None.

(** The execution ran into an ESTIMATE. *)
Definition dependency_resolved (dependency : Version) (s : stm) : bool :=
  let t := slot_at s (v_Txn dependency) in
  in_range s (v_Txn dependency) && sl_executed t && (v_Incarnation dependency <? sl_incarnation t).

Definition wait_for (index : N) (waiter : Version) (dependency : Version)
    (readSet : list ReadObservation) (s : stm) : stm :=
  let s := update_slot index (with_waiting true) s in
  let s := update_slot index (with_executed false) s in
  let s := put_queued index false s in
  let s := clearReadIndex index s in
  let s := set_dependencies
    (RegisterTask (MkTask TaskExecute waiter 0) dependency (sm_dependencies s)) s in
  put_readSet index readSet s.

Definition process_dependency (r : blockSTMTaskResult) (dependency : Version) (s : stm) : stm :=
  let index := v_Txn (tr_Version r) in
  if dependency_resolved dependency s then
    let s := update_slot index (with_waiting false) s in
    set_control CTop (set_scheduler (ScheduleExecution (tr_Version r) (sm_scheduler s)) s)
  else if bs_DependencyWaitMode e ≟ "suspend_same_incarnation_v1" then
    let s := set_scheduler (Wait (tr_Version r) (sm_scheduler s)) s in
    set_control CTop (wait_for index (tr_Version r) dependency (tr_ReadSet r) s)
  else
  let '(scheduler, next) := AbortAndWait (tr_Version r) (sm_scheduler s) in
  let s := update_slot index (with_incarnation (v_Incarnation next)) (set_scheduler scheduler s) in
  match incarnation_limit index s with
  | Some outcome => set_control (CReturn outcome) s
  | None => set_control CTop (wait_for index next dependency (tr_ReadSet r) s)
  end.

(** The tasks that waited for an earlier incarnation of a transaction that has
    now executed. *)
Definition resume_waiter (s : stm) (waiter : SchedulerTask) : stm :=
  let index := v_Txn (tk_Version waiter) in
  let t := slot_at s index in
  if negb (in_range s index) || negb (sl_waiting t) ||
     (v_Incarnation (tk_Version waiter) ≠? sl_incarnation t)
  then s
  else
  let s := update_slot index (with_waiting false) s in
  let s := update_slot index (with_executed false) s in
  let s := put_queued index false s in
  set_scheduler (ResumeTask waiter (sm_scheduler s)) s.

Definition resolve_incarnation (txn : N) (s : stm) (incarnation : nat) : stm :=
  let '(dependencies, waiters) :=
    ResolveTasks (MkVersion txn (N.of_nat incarnation)) (sm_dependencies s) in
  foldl resume_waiter (set_dependencies dependencies s) waiters.

Definition process_executed (r : blockSTMTaskResult) (s : stm) : stm :=
  let index := v_Txn (tr_Version r) in
  let s := put_readSet index (tr_ReadSet r) (update_slot index (with_result r) s) in
  let s := indexCapturedReads index (tr_Captured r) s in
  let s := foldl (resolve_incarnation index) s
             (seq 0 (N.to_nat (v_Incarnation (tr_Version r)))) in
  let s := (scheduleValidation index s).1 in
  let s := if tr_WroteNewLocation r then invalidateValidationReaders index (tr_WriteSet r) s
           else s in
  set_control CTop s.

Definition process_validation (r : blockSTMTaskResult) (s : stm) : stm :=
  let index := v_Txn (tr_Version r) in
  let s := put_queued index false s in
  if vr_Valid (tr_Validation r) then
    let s := update_slot index (with_validated true) s in
    let s := set_validatedCount (sm_validatedCount s + 1) s in
    set_control CTop (set_scheduler (SchedulerCommit (tr_Version r) (sm_scheduler s)) s)
  else set_control (CMark r (dom (sl_writeSet (slot_at s index)))) s.

(** After the writes of the failed execution are marked. *)
Definition abort_execution (r : blockSTMTaskResult) (s : stm) : stm :=
  let index := v_Txn (tr_Version r) in
  let '(scheduler, next) := Abort (tr_Version r) (sm_scheduler s) in
  let s := set_control CTop (set_scheduler scheduler s) in
  let s := update_slot index (with_incarnation (v_Incarnation next)) s in
  let s := update_slot index (with_generation (u64_add (sl_generation (slot_at s index)) 1)) s in
  let s := update_slot index (with_executed false) s in
  let s := update_slot index (with_waiting false) s in
  let s := put_queued index false s in
  let s := clearReadIndex index s in
  let s := foldl (λ s higher, revalidate higher s) s (indexes (index + 1) s) in
  match incarnation_limit index s with
  | Some outcome => set_control (CReturn outcome) s
  | None => s
  end.

Definition stale (r : blockSTMTaskResult) (s : stm) : bool :=
  let index := v_Txn (tr_Version r) in
  let t := slot_at s index in
  negb (in_range s index) || (v_Incarnation (tr_Version r) ≠? sl_incarnation t) ||
  ((tr_Kind r ≟ TaskValidate) && (tr_Generation r ≠? sl_generation t)) || sl_validated t.

Definition process_result (r : blockSTMTaskResult) (s : stm) : stm :=
  match tr_Err r with
  | Some text => fail text s
  | None =>
      if stale r s then set_control CTop s
      else match tr_Kind r with
      | TaskExecute =>
          match tr_Dependency r with
          | Some dependency => process_dependency r dependency s
          | None => process_executed r s
          end
      | TaskValidate => process_validation r s
      end
  end.

(** ** The executor as a transition system *)

Inductive choice :=
  | ChCancel                          (* the context is cancelled *)
  | ChWorker (index : nat) (key : string)   (* a worker moves *)
  | ChTop                             (* the head of the loop *)
  | ChFill (cancelled_select cancelled_idle : bool)    (* one call of [dispatch] *)
  | ChResult (index : nat)            (* the [select] receives a result *)
  | ChDone                            (* the [select] sees the cancelled context *)
  | ChMark (key : string).            (* the next ESTIMATE, or the end of the marking *)

Definition step_worker (index : nat) (key : string) (s : stm) : option stm :=
  w ← sm_active s !! index;
  '(memory, w') ← worker_step (sm_cancelled s) key (sm_memory s) w;
  Some (set_memory memory (set_active (<[index := w']> (sm_active s)) s)).

Definition step_top (s : stm) : stm :=
  if (sm_validatedCount s <? Z.of_nat txCount)%Z then
    if sm_cancelled s then fail "context canceled" s
    else set_control CFill (scheduleReadyValidations s).1
  else set_control (CReturn (finish s)) s.

Definition step_result (index : nat) (s : stm) : option stm :=
  w ← sm_active s !! index;
  match w with
  | WDone r => Some (process_result r (set_active (delete index (sm_active s)) s))
  | _ => None
  end.

Definition step (c : choice) (s : stm) : option stm :=
  match c, sm_control s with
  | ChCancel, _ => Some (set_cancelled true s)
  | ChWorker index key, _ => step_worker index key s
  | ChTop, CTop => Some (step_top s)
  | ChFill g g', CFill => if (g || g') && negb (sm_cancelled s) then None else Some (fill g g' s)
  | ChResult index, CSelect => step_result index s
  | ChDone, CSelect => if sm_cancelled s then Some (fail "context canceled" s) else None
  | ChMark key, CMark r keys =>
      if bool_decide (keys = ∅) then Some (abort_execution r s)
      else if bool_decide (key ∈ keys)
      then Some (set_control (CMark r (keys ∖ {[key]}))
                   (set_memory (MarkEstimate (sm_memory s) key (tr_Version r)) s))
      else None
  | _, _ => None
  end.

Fixpoint run (choices : list choice) (s : stm) : option stm :=
  match choices with
  | [] => Some s
  | c :: rest => s' ← step c s; run rest s'
  end.

Definition initial_stm : stm :=
  let scheduler := newSchedulerWithOrder txCount (defaultTxnOrder txCount)
                     (bs_SchedulerMode e ≟ "priority_heap_v1") in
  MkStm NewMVMemory (replicate txCount zero_slot) (replicate txCount []) (replicate txCount false)
    (replicate txCount []) scheduler NewDependencyRegistry 0 ∅ [] CTop false.

End executor.
