(* ===== verification/BlockStmInv.v ===== *)
(** * The invariant of the Block-STM executor

    What holds whoever moves next: each transaction has at most one execution on
    its way; the memory holds the writes of what was executed and an ESTIMATE for
    what was aborted; a read that a validation has compared still agrees with the
    memory, or a lower transaction that has published a new key, or is being
    aborted, is about to send its reader back to validation. *)
From S2P Require Import Prelude GoStd Tx Block StateRoot MvMemory MvLatest Heap Scheduler Serial SerialProps Footprint BlockStm.
Local Open Scope N_scope.
#[local] Opaque Sha256.sum256 sha256_hex Json.marshal.

Section invariant.
Context (e : BlockSTMExecutor) (b : Block) (base : gmap string string).
Context (baseCommitment : option commitmentNode).

#[local] Abbreviation lb := (logicalBase b base).
#[local] Abbreviation total := (N.of_nat (txCount b)).
#[local] Abbreviation program item := (executeTxWithoutStateRoot (bs_DefaultInitialBalance e) b item).

(** ** An execution follows its reads *)

Definition agrees (σ : string → string) (captured : list ReadDescriptor) : Prop :=
  ∀ r, r ∈ captured → σ (rd_Key r) = rd_Value r.

(** On every state that answers the captured reads alike the transaction gives
    this receipt and these writes. *)
Definition result_of (item : SignedTransaction) (captured : list ReadDescriptor)
    (receipt : Receipt) (writes : gmap string string) : Prop :=
  ∀ σ, agrees σ captured →
    let q := interp (program item) (MkStore σ ∅) in q.2 = receipt ∧ so_writes q.1 = writes.

Definition running (item : SignedTransaction) (o : stmOverlay) (p : action Receipt) : Prop :=
  ∀ σ, agrees σ (om_captured o) →
    interp (program item) (MkStore σ ∅) = interp p (MkStore σ (om_writes o)).

(** The keys the block can touch. *)
Definition access_key (key : string) : Prop :=
  key ≠ "" ∧ ∃ item, item ∈ TxList b ∧ key ∈ touched item.

(** What is known of captured reads: of such keys, none of an ESTIMATE. *)
Definition captured_ok (captured : list ReadDescriptor) : Prop :=
  ∀ r, r ∈ captured → access_key (rd_Key r) ∧ rd_Estimate r = false.

Lemma Read_key m key reader bs : rd_Key (Read m key reader bs) = key.
Proof. unfold Read. by case_match. Qed.

Lemma Read_dependency m key reader bs :
  rd_Estimate (Read m key reader bs) = true → rd_DependencyOn (Read m key reader bs) ≠ None.
Proof. unfold Read. case_match; simpl; [|done]. by intros ->. Qed.

Lemma running_get item o k next m :
  running item o (GetKey k next) →
  let '(o', v) := stmOverlay_get m k o in running item o' (next v).
Proof.
  intros H. unfold stmOverlay_get. destruct (om_writes o !! k) as [value|] eqn:E.
  - intros σ Hσ. rewrite (H σ Hσ). simpl. unfold store_view. simpl. by rewrite E.
  - intros σ Hσ. cbn in Hσ. rewrite (H σ).
    + simpl. unfold store_view. simpl. rewrite E.
      rewrite <- (Hσ (Read m k (om_reader o) (om_logicalBase o))) by set_solver. by rewrite Read_key.
    + intros r Hr. apply Hσ. set_solver.
Qed.

Lemma running_set item o k v next :
  running item o (SetKey k v next) → running item (stmOverlay_set k v o) next.
Proof. intros H σ Hσ. by rewrite (H σ Hσ). Qed.

Lemma running_ret item o receipt :
  running item o (Ret receipt) → result_of item (om_captured o) receipt (om_writes o).
Proof. intros H σ Hσ. by rewrite (H σ Hσ). Qed.

(** ** Workers *)

Definition task_of (w : worker) : SchedulerTask :=
  match w with
  | WStart input | WRun input _ _ | WPublish input _ _ _ _ | WCheck input _ => ti_Task input
  | WDone r => MkTask (tr_Kind r) (tr_Version r) (tr_Generation r)
  end.
Definition txn_of (w : worker) : N := v_Txn (tk_Version (task_of w)).
Definition kind_of (w : worker) : SchedulerTaskKind := tk_Kind (task_of w).

(** The writes an execution has put, or is putting, into the memory, and whether
    there is a key among them its predecessor had not written. *)
Definition published (w : worker) : option (gmap string string * bool) :=
  match w with
  | WPublish input o _ _ _ => Some (om_writes o, wrote_new input (om_writes o))
  | WDone r =>
      match tr_Kind r, tr_Dependency r, tr_Err r with
      | TaskExecute, None, None => Some (tr_WriteSet r, tr_WroteNewLocation r)
      | _, _, _ => None
      end
  | _ => None
  end.

(** ** Books, memory and workers agree

    [G] stands for threats the coordinator is about to deal with. *)
Section state.
Context (G : N → string → Prop) (m : MVMemory) (sl : list slot) (ac : list worker) (ct : control).

Definition entry_at (i : N) : slot := default zero_slot (sl !! N.to_nat i).

Definition threat (i : N) (key : string) : Prop :=
  G i key ∨
  (∃ w ws, w ∈ ac ∧ published w = Some (ws, true) ∧ txn_of w < i ∧ is_Some (ws !! key)) ∨
  (∃ r ks, ct = CMark r ks ∧ v_Txn (tr_Version r) < i).

Definition current (i : N) (r : ReadDescriptor) : Prop :=
  rd_Estimate (Read m (rd_Key r) i lb) = false ∧ sameRead r (Read m (rd_Key r) i lb) = true.

Definition good (i : N) (r : ReadDescriptor) : Prop := current i r ∨ threat i (rd_Key r).

Definition estimated (key : string) (i : N) : Prop :=
  ∃ x, latest m key i = Some x ∧ vv_Estimate x = true.

(** The memory holds exactly [ws] for version [v]. *)
Definition holds (v : Version) (ws : gmap string string) : Prop :=
  ∀ key, latest m key (v_Txn v) = (λ value, MkVersioned v value false) <$> ws !! key.

(** The memory holds an ESTIMATE for every key of [ws], and nothing else. *)
Definition holds_estimates (i : N) (ws : gmap string string) : Prop :=
  ∀ key, match ws !! key with Some _ => estimated key i | None => latest m key i = None end.

(** What is still to be marked of an aborted execution. *)
Definition unmarked (i : N) (key : string) : bool :=
  match ct with
  | CMark r ks => (v_Txn (tr_Version r) ≠? i) || bool_decide (key ∈ ks)
  | _ => true
  end.

Definition holds_marked (v : Version) (ws : gmap string string) : Prop :=
  ∀ key, match ws !! key with
         | Some value => if unmarked (v_Txn v) key
                         then latest m key (v_Txn v) = Some (MkVersioned v value false)
                         else estimated key (v_Txn v)
         | None => latest m key (v_Txn v) = None
         end.

(** The memory between two writes of a publication. *)
Definition holds_partly (v : Version) (previous ws : gmap string string) (clear : gset string)
    (rest : gmap string string) : Prop :=
  ∀ key,
    if decide (key ∈ clear) then estimated key (v_Txn v)
    else match rest !! key with
    | Some _ => match previous !! key with
                | Some _ => estimated key (v_Txn v)
                | None => latest m key (v_Txn v) = None
                end
    | None => latest m key (v_Txn v) = (λ value, MkVersioned v value false) <$> ws !! key
    end.

Definition item_result (i : N) (captured : list ReadDescriptor) (receipt : Receipt)
    (writes : gmap string string) : Prop :=
  captured_ok captured ∧
  ∃ item, TxList b !! N.to_nat i = Some item ∧ result_of item captured receipt writes.

Definition execution_ok (w : worker) : Prop :=
  let t := entry_at (txn_of w) in
  match w with
  | WStart input => ti_PreviousWrites input = sl_writeSet t
  | WRun input o p =>
      ti_PreviousWrites input = sl_writeSet t ∧ om_reader o = txn_of w ∧ om_logicalBase o = lb ∧
      keys_ok access_key p ∧ (∀ r, r ∈ om_captured o → access_key (rd_Key r)) ∧
      (om_dependency o = None → ∀ r, r ∈ om_captured o → rd_Estimate r = false) ∧
      ∃ item, TxList b !! N.to_nat (txn_of w) = Some item ∧ running item o p
  | WPublish input o receipt clear rest =>
      ti_PreviousWrites input = sl_writeSet t ∧ om_dependency o = None ∧
      item_result (txn_of w) (om_captured o) receipt (om_writes o) ∧
      clear ⊆ dom (sl_writeSet t) ∖ dom (om_writes o) ∧ rest ⊆ om_writes o ∧
      holds_partly (tk_Version (task_of w)) (sl_writeSet t) (om_writes o) clear rest
  | WCheck _ _ => False
  | WDone r =>
      tr_Err r = None → tr_Dependency r = None →
      item_result (txn_of w) (tr_Captured r) (tr_Receipt r) (tr_WriteSet r) ∧
      holds (tr_Version r) (tr_WriteSet r)
  end.

Definition check_ok (w : worker) : Prop :=
  let t := entry_at (txn_of w) in
  match w with
  | WStart input => ti_Captured input = sl_captured t
  | WCheck input rest =>
      ∃ checked, sl_captured t = checked ++ rest ∧ ∀ r, r ∈ checked → good (txn_of w) r
  | WDone r =>
      tr_Err r = None → vr_Valid (tr_Validation r) = true →
      ∀ r, r ∈ sl_captured t → good (txn_of w) r
  | _ => False
  end.

Definition shaped (w : worker) : Prop :=
  match w with
  | WRun _ _ _ | WPublish _ _ _ _ _ => kind_of w = TaskExecute
  | WCheck _ _ => kind_of w = TaskValidate
  | _ => True
  end.

Definition worker_ok (w : worker) : Prop :=
  let t := entry_at (txn_of w) in
  let task := task_of w in
  txn_of w < total ∧ shaped w ∧
  match kind_of w with
  | TaskExecute =>
      v_Incarnation (tk_Version task) = sl_incarnation t ∧ sl_executed t = false ∧
      sl_waiting t = false ∧ execution_ok w
  | TaskValidate =>
      v_Incarnation (tk_Version task) <= sl_incarnation t ∧
      (v_Incarnation (tk_Version task) = sl_incarnation t →
         sl_executed t = true ∧ tk_Generation task <= sl_generation t ∧
         (tk_Generation task = sl_generation t → check_ok w))
  end.

Definition no_publication (i : N) : Prop :=
  ∀ w, w ∈ ac → kind_of w = TaskExecute → txn_of w = i → published w = None.

Definition slot_ok (rd : gmap string (gset N)) (i : N) : Prop :=
  let t := entry_at i in
  if sl_executed t then
    sl_waiting t = false ∧ item_result i (sl_captured t) (sl_receipt t) (sl_writeSet t) ∧
    (∀ r, r ∈ sl_captured t → i ∈ default ∅ (rd !! rd_Key r)) ∧
    holds_marked (MkVersion i (sl_incarnation t)) (sl_writeSet t) ∧
    (sl_validated t = true → ∀ r, r ∈ sl_captured t → good i r)
  else sl_validated t = false ∧ (no_publication i → holds_estimates i (sl_writeSet t)).

Definition control_ok : Prop :=
  match ct with
  | CMark r ks =>
      let t := entry_at (v_Txn (tr_Version r)) in
      v_Txn (tr_Version r) < total ∧ v_Incarnation (tr_Version r) = sl_incarnation t ∧
      sl_executed t = true ∧ sl_validated t = false ∧ ks ⊆ dom (sl_writeSet t)
  | _ => True
  end.

Definition no_execution (i : N) : Prop := ∀ w, w ∈ ac → kind_of w = TaskExecute → txn_of w ≠ i.

Definition task_ok (t : SchedulerTask) : Prop :=
  let i := v_Txn (tk_Version t) in
  let s := entry_at i in
  i < total ∧ v_Incarnation (tk_Version t) <= sl_incarnation s ∧
  (v_Incarnation (tk_Version t) = sl_incarnation s →
     match tk_Kind t with
     | TaskExecute => tk_Generation t = 0 ∧ sl_executed s = false ∧ sl_waiting s = false ∧ no_execution i
     | TaskValidate => sl_executed s = true ∧ tk_Generation t <= sl_generation s
     end).

End state.

Record Inv (G : N → string → Prop) (s : stm) : Prop := {
  i_memory : mv_ok (sm_memory s);
  i_length : length (sm_slots s) = txCount b;
  i_readSets : length (sm_readSets s) = txCount b;
  i_stored : ∀ key y, stored (sm_memory s) key y → v_Txn (vv_Version y) < total ∧
    v_Incarnation (vv_Version y) <= sl_incarnation (slot_at s (v_Txn (vv_Version y)));
  i_scheduler : sc_ok (sm_scheduler s);
  i_incarnations : ∀ i, i < total →
    incarnation_of (sm_scheduler s) i = sl_incarnation (slot_at s i);
  i_tasks : ∀ t, t ∈ tasks (sm_scheduler s) → task_ok (sm_slots s) (sm_active s) t;
  i_registry : ∀ d l t, dr_waiters (sm_dependencies s) !! d = Some l → t ∈ l →
    tk_Kind t = TaskExecute ∧ tk_Generation t = 0;
  i_slots : ∀ i, i < total →
    slot_ok G (sm_memory s) (sm_slots s) (sm_active s) (sm_control s) (sm_readersByKey s) i;
  i_workers : ∀ w, w ∈ sm_active s →
    worker_ok G (sm_memory s) (sm_slots s) (sm_active s) (sm_control s) w;
  i_unique : ∀ p q w w', sm_active s !! p = Some w → sm_active s !! q = Some w' →
    kind_of w = TaskExecute → kind_of w' = TaskExecute → txn_of w = txn_of w' → p = q;
  i_control : control_ok (sm_slots s) (sm_control s);
  i_count : sm_validatedCount s = Z.of_nat (length (filter (λ t, sl_validated t = true) (sm_slots s)));
}.

(** ** Frames *)

Lemma kind_txn w w' : task_of w' = task_of w → kind_of w' = kind_of w ∧ txn_of w' = txn_of w.
Proof. intros E. unfold kind_of, txn_of. by rewrite E. Qed.

Lemma elem_replace {A} (l : list A) p (w w' x : A) :
  l !! p = Some w → x ∈ <[p := w']> l → x = w' ∨ ∃ q, q ≠ p ∧ l !! q = Some x.
Proof.
  intros Hp [q Hq]%list_elem_of_lookup. apply list_lookup_insert_Some in Hq as [(-> & -> & _)|(Hne & Hq)];
    [by left|right; eauto].
Qed.

Lemma elem_kept {A} (l : list A) p (w w' x : A) :
  l !! p = Some w → x ∈ l → x = w ∨ x ∈ <[p := w']> l.
Proof.
  intros Hp [q Hq]%list_elem_of_lookup. destruct (decide (q = p)) as [->|]; [left; congruence|right].
  apply list_elem_of_lookup. exists q. by rewrite list_lookup_insert_ne.
Qed.

Lemma elem_placed {A} (l : list A) p (w w' : A) : l !! p = Some w → w' ∈ <[p := w']> l.
Proof.
  intros Hp. apply list_elem_of_lookup. exists p. apply list_lookup_insert_eq. by eapply lookup_lt_Some.
Qed.

Lemma execution_ok_ext m m' sl w :
  (∀ key, latest m' key (txn_of w) = latest m key (txn_of w)) →
  execution_ok m sl w → execution_ok m' sl w.
Proof.
  intros E. destruct w; simpl; try done.
  - intros (? & ? & ? & ? & ? & H). split_and!; [done..|]. intros key. specialize (H key).
    unfold estimated in *. change (v_Txn (tk_Version (ti_Task input))) with
      (txn_of (WPublish input o receipt clear put)) in *. by rewrite E.
  - intros H He Hd. destruct (H He Hd) as [? Hh]. split; [done|]. intros key.
    change (v_Txn (tr_Version result)) with (txn_of (WDone result)) in *. rewrite E. apply Hh.
Qed.

Lemma worker_ok_mono G G' m m' sl ac ac' ct ct' w :
  (kind_of w = TaskExecute → ∀ key, latest m' key (txn_of w) = latest m key (txn_of w)) →
  (kind_of w = TaskValidate → ∀ r, r ∈ sl_captured (entry_at sl (txn_of w)) →
     good G m ac ct (txn_of w) r → good G' m' ac' ct' (txn_of w) r) →
  worker_ok G m sl ac ct w → worker_ok G' m' sl ac' ct' w.
Proof.
  intros El Eg (Ht & Hsh & H). split_and!; [done..|]. destruct (kind_of w).
  - destruct H as (? & ? & ? & H). split_and!; [done..|]. by eapply execution_ok_ext; [apply El|].
  - destruct H as [? H]. split; [done|]. intros Ei. destruct (H Ei) as (? & ? & Hc).
    split_and!; [done..|]. intros Egen. specialize (Hc Egen). destruct w; simpl in *; try done.
    + destruct Hc as (checked & Ec & Hc). exists checked. split; [done|]. intros r Hr. apply Eg; [done| |auto].
      rewrite Ec. set_solver.
    + intros He Hv r Hr. apply Eg; auto.
Qed.

Lemma slot_ok_mono G G' m m' sl ac ac' ct ct' rd i :
  (∀ key, latest m' key i = latest m key i) →
  (∀ key, unmarked ct' i key = unmarked ct i key) →
  (∀ r, r ∈ sl_captured (entry_at sl i) → good G m ac ct i r → good G' m' ac' ct' i r) →
  (no_publication ac' i → no_publication ac i) →
  slot_ok G m sl ac ct rd i → slot_ok G' m' sl ac' ct' rd i.
Proof.
  intros El Eu Eg Ep. unfold slot_ok. case_match.
  - intros (? & ? & ? & Hh & Hv). split_and!; [done..| |].
    + intros key. specialize (Hh key). unfold estimated in *. simpl in *. by rewrite El, Eu.
    + intros V r Hr. apply Eg; [done|]. auto.
  - intros [? Hh]. split; [done|]. intros Hn key. specialize (Hh (Ep Hn) key).
    unfold estimated in *. by rewrite El.
Qed.

(** Replacing a worker, and the memory at its transaction. *)
Lemma inv_worker G s p w w' m' :
  Inv G s → sm_active s !! p = Some w → task_of w' = task_of w → mv_ok m' →
  (∀ key y, stored m' key y → v_Txn (vv_Version y) < total ∧
     v_Incarnation (vv_Version y) <= sl_incarnation (slot_at s (v_Txn (vv_Version y)))) →
  (∀ key j, j ≠ txn_of w ∨ kind_of w = TaskValidate → latest m' key j = latest (sm_memory s) key j) →
  (∀ x, published w = Some x → published w' = Some x) →
  (∀ i r, current (sm_memory s) i r →
     good G m' (<[p := w']> (sm_active s)) (sm_control s) i r) →
  worker_ok G m' (sm_slots s) (<[p := w']> (sm_active s)) (sm_control s) w' →
  (kind_of w = TaskExecute → published w' = None →
     holds_estimates m' (txn_of w) (sl_writeSet (slot_at s (txn_of w)))) →
  Inv G (set_memory m' (set_active (<[p := w']> (sm_active s)) s)).
Proof.
  intros I Hp Et Hm Hst El Epub Ecur Hw' Hest. destruct (kind_txn _ _ Et) as [Ek Ex].
  set (ac' := <[p := w']> (sm_active s)) in *.
  pose proof (i_workers _ _ I w) as (Hwt & _ & Hw); [by eapply list_elem_of_lookup_2|].
  assert (∀ i r, good G (sm_memory s) (sm_active s) (sm_control s) i r →
    good G m' ac' (sm_control s) i r) as Hgood.
  { intros i r [Hc|[HG|[(x & ws & Hx & Px & Tx & Kx)|HM]]]; [by apply Ecur|right..].
    - by left.
    - right. left. destruct (elem_kept _ p w w' x Hp Hx) as [->|Hx'].
      + exists w', ws. split_and!; [by eapply elem_placed|by apply Epub|by rewrite Ex|done].
      + by exists x, ws.
    - by right; right. }
  assert (∀ x q, q ≠ p → sm_active s !! q = Some x → kind_of x = TaskExecute →
    ∀ key, latest m' key (txn_of x) = latest (sm_memory s) key (txn_of x)) as Hother.
  { intros x q Hq Hx Kx key. apply El. destruct (kind_of w) eqn:Kw; [left|by right].
    intros Eq. apply Hq. by eapply (i_unique _ _ I). }
  split; cbn; try apply I; try done.
  - intros t Ht. destruct (i_tasks _ _ I t Ht) as (? & ? & H). split_and!; [done..|]. intros Ei.
    specialize (H Ei). destruct (tk_Kind t); [|done]. destruct H as (? & ? & ? & Hn). split_and!; [done..|].
    intros x Hx Kx. destruct (elem_replace _ _ _ _ _ Hp Hx) as [->|(q & _ & Hq)].
    + rewrite Ex. apply Hn; [by eapply list_elem_of_lookup_2|congruence].
    + apply Hn; [by eapply list_elem_of_lookup_2|done].
  - intros i Hi. pose proof (i_slots _ _ I i Hi) as Hs.
    destruct (decide (i = txn_of w ∧ kind_of w = TaskExecute)) as [[-> Kw]|Hne].
    + rewrite Kw in Hw. destruct Hw as (_ & Hx & _). unfold slot_ok in *. rewrite Hx in *.
      destruct Hs as [? _]. split; [done|]. intros Hn. apply Hest; [done|]. apply Hn; [|congruence|done].
      by eapply elem_placed.
    + eapply slot_ok_mono; [| |intros r _; apply Hgood| |exact Hs]; [|done|].
      * intros key. apply El. destruct (kind_of w); [left; naive_solver|by right].
      * intros Hn x Hx Kx Tx. destruct (elem_kept _ p w w' x Hp Hx) as [->|Hx']; [naive_solver|].
        by apply Hn.
  - intros x Hx. destruct (elem_replace _ _ _ _ _ Hp Hx) as [->|(q & Hq & Hxq)]; [done|].
    eapply worker_ok_mono; [by intros Kx; eapply Hother|intros _ r _; apply Hgood|].
    apply (i_workers _ _ I). by eapply list_elem_of_lookup_2.
  - intros q1 q2 x1 x2 H1 H2 K1 K2 T.
    assert (∀ q x, ac' !! q = Some x → ∃ y, sm_active s !! q = Some y ∧ kind_of y = kind_of x ∧
      txn_of y = txn_of x) as Hback.
    { intros q x [(-> & -> & _)|(_ & Hx)]%list_lookup_insert_Some; [by exists w|by exists x]. }
    destruct (Hback _ _ H1) as (y1 & Y1 & Ky1 & Ty1), (Hback _ _ H2) as (y2 & Y2 & Ky2 & Ty2).
    eapply (i_unique _ _ I); [exact Y1|exact Y2|congruence..].
Qed.

(** ** Workers keep the invariant *)

Lemma inv_worker_same G s p w w' :
  Inv G s → sm_active s !! p = Some w → task_of w' = task_of w →
  (∀ x, published w = Some x → published w' = Some x) →
  worker_ok G (sm_memory s) (sm_slots s) (<[p := w']> (sm_active s)) (sm_control s) w' →
  (kind_of w = TaskExecute → published w' = None →
     holds_estimates (sm_memory s) (txn_of w) (sl_writeSet (slot_at s (txn_of w)))) →
  Inv G (set_memory (sm_memory s) (set_active (<[p := w']> (sm_active s)) s)).
Proof.
  intros I Hp Et Epub Hw Hest. apply (inv_worker G s p w w'); try done; try apply I.
  intros i r Hc. by left.
Qed.

Lemma idle_estimates G s p w :
  Inv G s → sm_active s !! p = Some w → kind_of w = TaskExecute → published w = None →
  holds_estimates (sm_memory s) (txn_of w) (sl_writeSet (slot_at s (txn_of w))).
Proof.
  intros I Hp Kw Pw.
  pose proof (i_workers _ _ I w) as (Hwt & _ & Hw); [by eapply list_elem_of_lookup_2|].
  rewrite Kw in Hw. destruct Hw as (_ & Hx & _). pose proof (i_slots _ _ I _ Hwt) as Hs.
  unfold slot_ok in Hs. rewrite Hx in Hs. apply Hs. intros x [q Hq]%list_elem_of_lookup Kx Tx.
  assert (q = p) as -> by (by eapply (i_unique _ _ I)). congruence.
Qed.

Lemma good_mono G m ac ac' ct i r :
  (∀ w x, w ∈ ac → published w = Some x → ∃ w', w' ∈ ac' ∧ published w' = Some x ∧ txn_of w' = txn_of w) →
  good G m ac ct i r → good G m ac' ct i r.
Proof.
  intros H [Hc|[HG|[(w & ws & Hw & Pw & Tw & Kw)|HM]]]; [by left|right..].
  - by left.
  - right. left. destruct (H w _ Hw Pw) as (w' & Hw' & Pw' & Ew'). exists w', ws.
    split_and!; [done..|by rewrite Ew'|done].
  - by right; right.
Qed.

(** The next state of an execution that publishes nothing in this step. *)
Lemma execution_step G s p w w' :
  Inv G s → sm_active s !! p = Some w → kind_of w = TaskExecute → published w = None →
  task_of w' = task_of w → shaped w' →
  (execution_ok (sm_memory s) (sm_slots s) w → execution_ok (sm_memory s) (sm_slots s) w') →
  Inv G (set_memory (sm_memory s) (set_active (<[p := w']> (sm_active s)) s)).
Proof.
  intros I Hp Kw Pw Et Hsh Hex. destruct (kind_txn _ _ Et) as [Ek Ex].
  pose proof (i_workers _ _ I w) as (Hwt & _ & Hw); [by eapply list_elem_of_lookup_2|].
  rewrite Kw in Hw. destruct Hw as (H1 & H2 & H3 & H4).
  apply (inv_worker_same G s p w w'); try done; [by rewrite Pw| |].
  - split_and!; [by rewrite Ex|done|]. rewrite Ek, Kw, Et, Ex. split_and!; auto.
  - intros _ _. by eapply idle_estimates.
Qed.

(** The next state of a validation. *)
Lemma check_published w : shaped w → kind_of w = TaskValidate → published w = None.
Proof.
  destruct w; simpl; try done; [congruence|]. unfold kind_of. simpl. by intros _ ->.
Qed.

Lemma check_step G s p w w' :
  Inv G s → sm_active s !! p = Some w → kind_of w = TaskValidate →
  task_of w' = task_of w → shaped w' →
  (let ac' := <[p := w']> (sm_active s) in
   (∀ i r, good G (sm_memory s) (sm_active s) (sm_control s) i r →
      good G (sm_memory s) ac' (sm_control s) i r) →
   check_ok G (sm_memory s) (sm_slots s) (sm_active s) (sm_control s) w →
   check_ok G (sm_memory s) (sm_slots s) ac' (sm_control s) w') →
  Inv G (set_memory (sm_memory s) (set_active (<[p := w']> (sm_active s)) s)).
Proof.
  intros I Hp Kw Et Hsh Hck. destruct (kind_txn _ _ Et) as [Ek Ex].
  pose proof (i_workers _ _ I w) as (Hwt & Hs & Hw); [by eapply list_elem_of_lookup_2|].
  pose proof (check_published w Hs Kw) as Pw. rewrite Kw in Hw. destruct Hw as (H1 & H2).
  apply (inv_worker_same G s p w w'); try done; [by rewrite Pw| |congruence].
  split_and!; [by rewrite Ex|done|]. rewrite Ek, Kw, Et, Ex. split; [done|].
  intros Ei. destruct (H2 Ei) as (H3 & H4 & H5). split_and!; [done..|]. intros Eg.
  apply Hck; [|auto]. intros i r. apply good_mono. intros x y Hx Px.
  destruct (elem_kept _ p w w' x Hp Hx) as [->|Hx']; [congruence|eauto].
Qed.

(** A change at one key of one transaction, hidden by an ESTIMATE. *)
Lemma current_change m m' key txn i r :
  mv_ok m → mv_ok m' →
  (∀ k j, ¬ (k = key ∧ j = txn) → latest m' k j = latest m k j) →
  estimated m key txn ∨ rd_Key r ≠ key ∨ i <= txn →
  current m i r → current m' i r.
Proof.
  intros Hm Hm' E Hc [H1 H2]. unfold current.
  assert (Read m' (rd_Key r) i lb = Read m (rd_Key r) i lb) as ->; [|done].
  destruct (decide (rd_Key r = key)) as [Ek|Ek].
  - destruct Hc as [(x & Lx & Ex)|[?|Hi]]; [|done|].
    + eapply (Read_behind_estimate _ _ _ _ _ txn x); try done; [by rewrite Ek|].
      intros j Hj. symmetry. apply E. naive_solver.
    + symmetry. apply Read_latest_ext; [done..|]. intros j Hj. symmetry. apply E. intros [_ ->]. lia.
  - symmetry. apply Read_latest_ext; [done..|]. intros j Hj. symmetry. apply E. naive_solver.
Qed.

Lemma stored_bound G s w y key :
  Inv G s → w ∈ sm_active s → kind_of w = TaskExecute →
  stored (sm_memory s) key y → v_Txn (vv_Version y) = txn_of w →
  v_Incarnation (vv_Version y) <= v_Incarnation (tk_Version (task_of w)).
Proof.
  intros I Hw Kw Sy Ty. destruct (i_workers _ _ I w Hw) as (_ & _ & H). rewrite Kw in H.
  destruct H as (-> & _). destruct (i_stored _ _ I key y Sy) as [_ Hle]. by rewrite Ty in Hle.
Qed.

Lemma publish_write G s p input o receipt rest key value :
  Inv G s → sm_active s !! p = Some (WPublish input o receipt ∅ rest) → rest !! key = Some value →
  Inv G (set_memory (Write (sm_memory s) key (tk_Version (ti_Task input)) value)
    (set_active (<[p := WPublish input o receipt ∅ (delete key rest)]> (sm_active s)) s)).
Proof.
  intros I Hp Hk. set (w := WPublish input o receipt ∅ rest) in *.
  set (w' := WPublish input o receipt ∅ (delete key rest)).
  assert (w ∈ sm_active s) as Hin by (by eapply list_elem_of_lookup_2).
  destruct (i_workers _ _ I w Hin) as (Hwt & Kw & Hw). cbn in Kw. unfold shaped in Kw. rewrite Kw in Hw.
  destruct Hw as (H1 & H2 & H3 & (H4 & H5 & H6 & H7 & H8 & H9)).
  set (v := tk_Version (ti_Task input)) in *.
  pose proof (i_memory _ _ I) as Hm.
  assert (∀ k j, latest (Write (sm_memory s) key v value) k j =
    if decide (k = key ∧ j = v_Txn v) then Some (MkVersioned v value false)
    else latest (sm_memory s) k j) as Hl.
  { intros k j. apply (latest_upsert (sm_memory s) key (MkVersioned v value false)); [done|].
    intros y Sy Ty. by apply (stored_bound G s w y key). }
  assert (∀ k j, ¬ (k = key ∧ j = v_Txn v) →
    latest (Write (sm_memory s) key v value) k j = latest (sm_memory s) k j) as Hl'
    by (intros k j Hne; by rewrite Hl, decide_False).
  apply (inv_worker G s p w w'); try done.
  - by apply mv_ok_upsert.
  - intros k y Sy. apply stored_upsert in Sy as [[-> [->|[Sy _]]]|[_ Sy]]; [|by eapply (i_stored _ _ I)..|done].
    cbn. split; [done|]. change (v_Txn v) with (txn_of w). unfold slot_at. unfold entry_at in H1.
    change (v_Incarnation v) with (v_Incarnation (tk_Version (task_of w))). lia.
  - intros k j [Hj|Hj]; [|congruence]. apply Hl'. intros [_ ->]. by apply Hj.
  - intros i r Hc. destruct (decide (rd_Key r = key ∧ txn_of w < i)) as [[Ek Hi]|Hne].
    + specialize (H9 key). rewrite decide_False, Hk in H9 by set_solver.
      destruct (sl_writeSet (entry_at (sm_slots s) (txn_of w)) !! key) as [old|] eqn:Eo.
      * left. by eapply current_change; [exact Hm|by apply mv_ok_upsert|exact Hl'|left|].
      * right. right. left. exists w', (om_writes o). split_and!.
        -- by eapply elem_placed.
        -- cbn. do 2 f_equal. unfold wrote_new. rewrite H4, bool_decide_eq_false_2; [done|].
           intros Hsub. assert (key ∈ dom (om_writes o)) as Hd.
           { apply elem_of_dom. rewrite (lookup_weaken _ _ _ _ Hk H8). eauto. }
           apply Hsub in Hd. apply elem_of_dom in Hd. rewrite Eo in Hd. by destruct Hd.
        -- done.
        -- rewrite Ek. rewrite (lookup_weaken _ _ _ _ Hk H8). eauto.
    + left. eapply current_change; [exact Hm|by apply mv_ok_upsert|exact Hl'| |done].
      right. destruct (decide (rd_Key r = key)) as [Ek|]; [right|by left].
      change (v_Txn v) with (txn_of w). destruct (N.le_gt_cases i (txn_of w)); [done|naive_solver].
  - split_and!; [done..|]. change (kind_of w') with (kind_of w). rewrite Kw. split_and!; [done..|].
    assert (delete key rest ⊆ om_writes o) as Hsub
      by (etrans; [apply delete_subseteq|done]).
    split_and!; [done..|]. intros k. specialize (H9 k). change (task_of w') with (task_of w).
    fold v in H9 |- *. rewrite decide_False in H9 |- * by set_solver.
    destruct (decide (k = key)) as [->|Hne].
    + rewrite lookup_delete_eq, Hl, decide_True by done. rewrite (lookup_weaken _ _ _ _ Hk H8). done.
    + rewrite lookup_delete_ne by done. unfold estimated in *. rewrite Hl' by naive_solver. done.
Qed.

Lemma publish_clear G s p input o receipt clear rest key :
  Inv G s → sm_active s !! p = Some (WPublish input o receipt clear rest) → key ∈ clear →
  Inv G (set_memory (ClearTxnVersions (sm_memory s) key (v_Txn (tk_Version (ti_Task input))))
    (set_active (<[p := WPublish input o receipt (clear ∖ {[key]}) rest]> (sm_active s)) s)).
Proof.
  intros I Hp Hk. set (w := WPublish input o receipt clear rest) in *.
  set (w' := WPublish input o receipt (clear ∖ {[key]}) rest).
  assert (w ∈ sm_active s) as Hin by (by eapply list_elem_of_lookup_2).
  destruct (i_workers _ _ I w Hin) as (Hwt & Kw & Hw). cbn in Kw. unfold shaped in Kw. rewrite Kw in Hw.
  destruct Hw as (H1 & H2 & H3 & (H4 & H5 & H6 & H7 & H8 & H9)).
  set (v := tk_Version (ti_Task input)) in *. pose proof (i_memory _ _ I) as Hm.
  pose proof (λ k j, latest_clear (sm_memory s) key (v_Txn v) k j Hm) as Hl.
  assert (∀ k j, ¬ (k = key ∧ j = v_Txn v) →
    latest (ClearTxnVersions (sm_memory s) key (v_Txn v)) k j = latest (sm_memory s) k j) as Hl'
    by (intros k j Hne; by rewrite Hl, decide_False).
  apply (inv_worker G s p w w'); try done.
  - by apply mv_ok_clear.
  - intros k y Sy. apply (i_stored _ _ I k). unfold stored in *.
    rewrite ClearTxnVersions_items in Sy. case_decide; [|done]. subst.
    by apply list_elem_of_filter in Sy as [_ ?].
  - intros k j [Hj|Hj]; [|congruence]. apply Hl'. intros [_ ->]. by apply Hj.
  - intros i r Hc. left. eapply current_change; [exact Hm|by apply mv_ok_clear|exact Hl'| |done].
    left. specialize (H9 key). by rewrite decide_True in H9.
  - split_and!; [done..|]. change (kind_of w') with (kind_of w). rewrite Kw. split_and!; [done..|]. split_and!; [done..|set_solver|done|].
    intros k. specialize (H9 k). change (task_of w') with (task_of w). fold v in H9 |- *.
    destruct (decide (k = key)) as [->|Hne].
    + rewrite decide_False by set_solver. assert (rest !! key = None ∧ om_writes o !! key = None) as [E1 E2].
      { assert (om_writes o !! key = None) as E by (apply not_elem_of_dom; set_solver). split; [|done].
        destruct (rest !! key) as [x|] eqn:E'; [|done].
        by rewrite (lookup_weaken _ _ _ _ E' H8) in E. }
      rewrite E1, E2, Hl, decide_True by done. done.
    + unfold estimated in *. rewrite Hl' by naive_solver.
      destruct (decide (k ∈ clear)); [rewrite decide_True by set_solver|rewrite decide_False by set_solver];
        done.
Qed.

Lemma task_eta t : MkTask (tk_Kind t) (tk_Version t) (tk_Generation t) = t.
Proof. by destruct t. Qed.

Lemma inv_start G s p input c :
  Inv G s → sm_active s !! p = Some (WStart input) →
  Inv G (set_memory (sm_memory s) (set_active (<[p := start_task e b base c input]> (sm_active s)) s)).
Proof.
  intros I Hp. set (w := WStart input) in *. set (w' := start_task e b base c input).
  assert (task_of w' = task_of w) as Et.
  { unfold w', start_task. repeat (case_match; try done); cbn; by rewrite task_eta. }
  destruct (kind_of w) eqn:Kw.
  - apply (execution_step G s p w w'); try done.
    + unfold w', start_task. by repeat (case_match; try done; try (unfold w, kind_of in Kw; simpl in *; congruence)).
    + intros Hw. unfold w', start_task. destruct c; [done|].
      destruct (TxList b !! _) as [item|] eqn:Ei; [|done]. unfold w, kind_of in Kw. simpl in Kw. rewrite Kw.
      cbn. split_and!; try done.
      * apply keys_executeTx. intros k Hk Hne. split; [done|]. exists item. split; [|done].
        by eapply list_elem_of_lookup_2.
      * by intros r ?%elem_of_nil.
      * by intros _ r ?%elem_of_nil.
      * exists item. split; [exact Ei|]. by intros σ _.
  - apply (check_step G s p w w'); try done.
    + unfold w', start_task. by repeat (case_match; try done; try (unfold w, kind_of in Kw; simpl in *; congruence)).
    + cbv zeta. intros Hg Hw. unfold w', start_task. destruct c; [done|].
      destruct (TxList b !! _) as [item|] eqn:Ei; [|done]. unfold w, kind_of in Kw. simpl in Kw. rewrite Kw.
      cbn in Hw |- *. exists []. split; [exact (eq_sym Hw)|by intros r ?%elem_of_nil].
Qed.

Lemma inv_run_get G s p input o k next :
  Inv G s → sm_active s !! p = Some (WRun input o (GetKey k next)) →
  let '(o', v) := stmOverlay_get (sm_memory s) k o in
  Inv G (set_memory (sm_memory s) (set_active (<[p := WRun input o' (next v)]> (sm_active s)) s)).
Proof.
  intros I Hp. destruct (stmOverlay_get _ k o) as [o' v] eqn:E.
  destruct (i_workers _ _ I (WRun input o (GetKey k next))) as (_ & Kw & _);
    [by eapply list_elem_of_lookup_2|].
  apply (execution_step G s p (WRun input o (GetKey k next))); try done.
  intros (H1 & H2 & H3 & [Hk H4] & H5 & H6 & item & Hi & Hr).
  pose proof (running_get item o k next (sm_memory s) Hr) as Hr'. rewrite E in Hr'.
  unfold stmOverlay_get in E. destruct (om_writes o !! k) as [x|].
  - simplify_eq. cbn. split_and!; try done. eauto.
  - apply (f_equal fst) in E as Eo. cbn in Eo. subst o'. cbn. split_and!; try done; [| |eauto].
    + intros r [Hin|Hin%list_elem_of_singleton]%elem_of_app; [auto|]. subst r. by rewrite Read_key.
    + intros Hd r [Hin|Hin%list_elem_of_singleton]%elem_of_app.
      * apply H6; [|done]. repeat case_match; done.
      * subst r. destruct (rd_Estimate _) eqn:Ee; [|done]. exfalso.
        pose proof (Read_dependency _ _ _ _ Ee). by destruct (rd_DependencyOn _).
Qed.

Lemma inv_run_set G s p input o k v next :
  Inv G s → sm_active s !! p = Some (WRun input o (SetKey k v next)) →
  Inv G (set_memory (sm_memory s)
    (set_active (<[p := WRun input (stmOverlay_set k v o) next]> (sm_active s)) s)).
Proof.
  intros I Hp.
  destruct (i_workers _ _ I (WRun input o (SetKey k v next))) as (_ & Kw & _);
    [by eapply list_elem_of_lookup_2|].
  apply (execution_step G s p (WRun input o (SetKey k v next))); try done.
  intros (H1 & H2 & H3 & [Hk H4] & H5 & H6 & item & Hi & Hr). cbn. split_and!; try done.
  exists item. split; [done|]. by apply running_set.
Qed.

Lemma inv_run_ret G s p input o receipt :
  Inv G s → sm_active s !! p = Some (WRun input o (Ret receipt)) →
  let w' := match om_dependency o with
            | Some _ => WDone (executed_task (ti_Task input) o receipt false)
            | None => WPublish input o receipt (dom (ti_PreviousWrites input) ∖ dom (om_writes o))
                        (om_writes o)
            end in
  Inv G (set_memory (sm_memory s) (set_active (<[p := w']> (sm_active s)) s)).
Proof.
  intros I Hp w'. set (w := WRun input o (Ret receipt)) in *.
  destruct (i_workers _ _ I w) as (_ & Kw & _); [by eapply list_elem_of_lookup_2|].
  assert (kind_of w = TaskExecute) as Kw' by exact Kw.
  assert (task_of w' = task_of w) as Et
    by (unfold w'; destruct (om_dependency o); [cbn; by rewrite task_eta|done]).
  apply (execution_step G s p w w'); try done.
  { unfold w'. destruct (om_dependency o); [done|exact Kw]. }
  intros (H1 & H2 & H3 & H4 & H5 & H6 & item & Hi & Hr). unfold w'.
  destruct (om_dependency o) eqn:Ed; [cbn; congruence|]. cbn. split_and!; try done.
  - split; [intros r Hin; split; auto|]. exists item. split; [done|]. by apply running_ret.
  - by rewrite H1.
  - pose proof (idle_estimates G s p w I Hp Kw' eq_refl) as He. intros key. specialize (He key).
    unfold slot_at in He. fold (entry_at (sm_slots s) (txn_of w)) in He.
    change (v_Txn (tk_Version (ti_Task input))) with (txn_of w).
    case_decide as Ek.
    + apply elem_of_difference in Ek as [Ek _]. rewrite H1 in Ek. apply elem_of_dom in Ek as [x Ex].
      cbn in Ex. by rewrite Ex in He.
    + destruct (om_writes o !! key) as [x|] eqn:Ex; [done|]. rewrite H1 in Ek.
      assert (sl_writeSet (entry_at (sm_slots s) (txn_of w)) !! key = None) as En.
      { apply not_elem_of_dom. intros Hd. apply Ek, elem_of_difference. split; [exact Hd|].
        by apply not_elem_of_dom. }
      cbn in En. by rewrite En in He.
Qed.

Lemma inv_publish_done G s p input o receipt :
  Inv G s → sm_active s !! p = Some (WPublish input o receipt ∅ ∅) →
  let w' := WDone (executed_task (ti_Task input) o receipt (wrote_new input (om_writes o))) in
  Inv G (set_memory (sm_memory s) (set_active (<[p := w']> (sm_active s)) s)).
Proof.
  intros I Hp w'. set (w := WPublish input o receipt ∅ ∅) in *.
  destruct (i_workers _ _ I w) as (Hwt & Kw & Hw); [by eapply list_elem_of_lookup_2|].
  assert (kind_of w = TaskExecute) as Kw' by exact Kw. rewrite Kw' in Hw.
  destruct Hw as (H1 & H2 & H3 & (H4 & H5 & H6 & _ & _ & H9)).
  assert (task_of w' = task_of w) as Et by (cbn; by rewrite task_eta).
  assert (published w' = Some (om_writes o, wrote_new input (om_writes o))) as Ep.
  { unfold w', kind_of in *. cbn in *. by rewrite Kw', H5. }
  destruct (kind_txn _ _ Et) as [Ek Ex].
  apply (inv_worker_same G s p w w'); try done; [by rewrite Ep| |congruence].
  split_and!; [by rewrite Ex|done|]. rewrite Ek, Kw', Et, Ex. by split_and!.
Qed.

Lemma inv_check G s p input r rest :
  Inv G s → sm_active s !! p = Some (WCheck input (r :: rest)) →
  Inv G (set_memory (sm_memory s)
    (set_active (<[p := check_read b base (sm_memory s) input r rest]> (sm_active s)) s)).
Proof.
  intros I Hp. set (w := WCheck input (r :: rest)) in *.
  destruct (i_workers _ _ I w) as (_ & Kw & _); [by eapply list_elem_of_lookup_2|].
  set (w' := check_read _ _ _ _ _ _).
  apply (check_step G s p w w'); try done.
  - unfold w', check_read. repeat (case_match; try done); cbn; by rewrite task_eta.
  - unfold w', check_read. repeat (case_match; try done); exact Kw.
  - cbv zeta. unfold w', check_read. destruct (rd_Estimate _) eqn:Ee; [done|].
    destruct (sameRead r _) eqn:Es; [|done]. cbn [negb]. intros Hg (checked & Ec & Hc). exists (checked ++ [r]).
    split; [rewrite <- app_assoc; exact Ec|].
    intros x [Hx|Hx%list_elem_of_singleton]%elem_of_app; [by apply Hg, Hc|]. subst x. left. by split.
Qed.

Lemma inv_check_done G s p input :
  Inv G s → sm_active s !! p = Some (WCheck input []) →
  let w' := WDone (validated_task (ti_Task input) (MkValidation true "" zero_read zero_read None)) in
  Inv G (set_memory (sm_memory s) (set_active (<[p := w']> (sm_active s)) s)).
Proof.
  intros I Hp w'. set (w := WCheck input []) in *.
  destruct (i_workers _ _ I w) as (_ & Kw & _); [by eapply list_elem_of_lookup_2|].
  apply (check_step G s p w w'); try done; [cbn; by rewrite task_eta|].
  cbv zeta. intros Hg (checked & Ec & Hc) _ _ r Hr. apply Hg, Hc. rewrite app_nil_r in Ec.
  change (r ∈ sl_captured (entry_at (sm_slots s) (txn_of w))) in Hr. by rewrite Ec in Hr.
Qed.

Lemma inv_step_worker G s p key s' :
  Inv G s → step_worker e b base p key s = Some s' → Inv G s'.
Proof.
  intros I H. unfold step_worker in H. destruct (sm_active s !! p) as [w|] eqn:Hp; [|done]. cbn in H.
  destruct w as [input|input o [receipt|k next|k v next]|input o receipt clear rest|input [|r rest]|r];
    cbn in H.
  - simplify_eq. by apply inv_start.
  - simplify_eq. by apply inv_run_ret.
  - pose proof (inv_run_get G s p input o k next I Hp) as I'.
    destruct (stmOverlay_get _ k o) as [o' v]. cbn in H. by simplify_eq.
  - simplify_eq. by apply inv_run_set.
  - case_bool_decide as Ec; [subst; case_bool_decide as Er; [subst|]|].
    + cbn in H. simplify_eq. by apply inv_publish_done.
    + destruct (rest !! key) as [value|] eqn:Ek; [|done]. cbn in H. simplify_eq.
      by apply publish_write.
    + case_bool_decide; [|done]. cbn in H. simplify_eq. by apply publish_clear.
  - simplify_eq. by apply inv_check_done.
  - simplify_eq. by apply inv_check.
  - done.
Qed.

(** ** Changing the books of one transaction *)

Lemma entry_update i f sl j :
  entry_at (alter f (N.to_nat i) sl) j =
    if decide (j = i ∧ i < N.of_nat (length sl)) then f (entry_at sl i) else entry_at sl j.
Proof.
  unfold entry_at. destruct (decide (j = i)) as [->|Hne].
  - rewrite list_lookup_alter_eq. destruct (sl !! N.to_nat i) as [t|] eqn:E; cbn.
    + apply lookup_lt_Some in E. rewrite decide_True by (split; [done|lia]). done.
    + apply lookup_ge_None in E. rewrite decide_False by lia. done.
  - rewrite list_lookup_alter_ne by lia. rewrite decide_False by naive_solver. done.
Qed.

Definition validated_count (sl : list slot) : Z :=
  Z.of_nat (length (filter (λ t, sl_validated t = true) sl)).

Lemma count_update i f sl :
  i < N.of_nat (length sl) →
  (validated_count (alter f (N.to_nat i) sl) =
   validated_count sl + Z.b2z (sl_validated (f (entry_at sl i))) -
     Z.b2z (sl_validated (entry_at sl i)))%Z.
Proof.
  intros Hi. assert (N.to_nat i < length sl)%nat as Hi' by lia. unfold entry_at.
  revert Hi'. generalize (N.to_nat i) as n. clear Hi i. unfold validated_count.
  induction sl as [|t sl IH]; intros n Hn; [simpl in Hn; lia|].
  destruct n as [|n]; simpl in *; rewrite !filter_cons.
  - destruct (sl_validated (f t)), (sl_validated t); simpl; repeat case_decide; simpl; try done; lia.
  - specialize (IH n ltac:(lia)). change (list_alter f n sl) with (alter f n sl). destruct (decide (sl_validated t = true)); cbn [length]; lia.
Qed.

Lemma inv_update G G' s s' i :
  Inv G s → sm_memory s' = sm_memory s →
  length (sm_slots s') = txCount b → length (sm_readSets s') = txCount b →
  (∀ j, j ≠ i → entry_at (sm_slots s') j = entry_at (sm_slots s) j) →
  sl_incarnation (slot_at s i) <= sl_incarnation (slot_at s' i) →
  (∀ x, x ∈ sm_active s' → x ∈ sm_active s) →
  (∀ x, x ∈ sm_active s → txn_of x ≠ i → x ∈ sm_active s') →
  (∀ p q w w', sm_active s' !! p = Some w → sm_active s' !! q = Some w' →
     kind_of w = TaskExecute → kind_of w' = TaskExecute → txn_of w = txn_of w' → p = q) →
  (∀ x, x ∈ sm_active s' → txn_of x = i →
     worker_ok G' (sm_memory s) (sm_slots s') (sm_active s') (sm_control s') x) →
  (∀ j r, j ≠ i → good G (sm_memory s) (sm_active s) (sm_control s) j r →
     good G' (sm_memory s) (sm_active s') (sm_control s') j r) →
  (∀ j key, j ≠ i → unmarked (sm_control s') j key = unmarked (sm_control s) j key) →
  (∀ j key, j ≠ i → j ∈ default ∅ (sm_readersByKey s !! key) →
     j ∈ default ∅ (sm_readersByKey s' !! key)) →
  (i < total → slot_ok G' (sm_memory s) (sm_slots s') (sm_active s') (sm_control s')
     (sm_readersByKey s') i) →
  sc_ok (sm_scheduler s') →
  (∀ j, j < total → incarnation_of (sm_scheduler s') j = sl_incarnation (slot_at s' j)) →
  (∀ t, t ∈ tasks (sm_scheduler s') →
     (t ∈ tasks (sm_scheduler s) ∧ v_Txn (tk_Version t) ≠ i) ∨
     task_ok (sm_slots s') (sm_active s') t) →
  (∀ d l t, dr_waiters (sm_dependencies s') !! d = Some l → t ∈ l →
     tk_Kind t = TaskExecute ∧ tk_Generation t = 0) →
  control_ok (sm_slots s') (sm_control s') →
  sm_validatedCount s' = validated_count (sm_slots s') →
  Inv G' s'.
Proof.
  intros I Em Hlen Hrs Eo Hinc Hac1 Hac2 Huniq Hwi Hgood Hunm Hrd Hslot Hsc Hincs Htasks Hreg Hct Hcount.
  split; try done.
  - rewrite Em. apply I.
  - intros key y Sy. rewrite Em in Sy. destruct (i_stored _ _ I key y Sy) as [H1 H2]. split; [done|].
    destruct (decide (v_Txn (vv_Version y) = i)) as [E|E]; [rewrite E in *; lia|].
    unfold slot_at in *. fold (entry_at (sm_slots s') (v_Txn (vv_Version y))).
    rewrite Eo by done. done.
  - intros t Ht. destruct (Htasks t Ht) as [[Ht' Hne]|]; [|done].
    destruct (i_tasks _ _ I t Ht') as (H1 & H2 & H3). unfold task_ok. rewrite !Eo by done.
    split_and!; [done..|]. intros E. specialize (H3 E). destruct (tk_Kind t); [|done].
    destruct H3 as (? & ? & ? & Hn). split_and!; [done..|]. intros x Hx. apply Hn. auto.
  - intros j Hj. rewrite Em. destruct (decide (j = i)) as [->|Hne]; [auto|].
    pose proof (i_slots _ _ I j Hj) as H. unfold slot_ok in *. rewrite !Eo by done.
    destruct (sl_executed (entry_at (sm_slots s) j)).
    + destruct H as (H1 & H2 & H3 & H4 & H5). split_and!; [done..| | |].
      * intros r Hr. apply Hrd; auto.
      * intros key. specialize (H4 key). simpl in *. by rewrite Hunm.
      * intros V r Hr. apply Hgood; auto.
    + destruct H as [H1 H2]. split; [done|]. intros Hn. apply H2. intros x Hx Kx Tx.
      apply Hn; [|done|done]. apply Hac2; [done|congruence].
  - intros x Hx. rewrite Em. destruct (decide (txn_of x = i)) as [E|Hne]; [auto|].
    pose proof (i_workers _ _ I x (Hac1 x Hx)) as H.
    assert (worker_ok G (sm_memory s) (sm_slots s') (sm_active s) (sm_control s) x) as H'.
    { destruct H as (Ht & Hsh & H). split_and!; [done..|]. rewrite Eo by done.
      destruct x; simpl in *; rewrite ?Eo by done; done. }
    eapply worker_ok_mono; [done|intros _ r _; by apply Hgood|exact H'].
Qed.

End invariant.
