(* ===== verification/BlockStmSteps.v ===== *)
(** * The Block-STM coordinator keeps the invariant: scheduling

    The scheduler's operations as the coordinator uses them, sending executed
    transactions back to validation, handing out tasks. *)
From S2P Require Import Prelude GoStd Tx Block StateRoot MvMemory MvLatest Heap Scheduler Serial SerialProps Footprint BlockStm BlockStmInv.
Local Open Scope N_scope.
#[local] Opaque Sha256.sum256 sha256_hex Json.marshal.

(** ** The scheduler's operations *)

(** [s'] has the incarnations of [s] and at most the task [t] more. *)
Definition adds_task (t : SchedulerTask) (s s' : Scheduler) : Prop :=
  sc_ok s' ∧ sc_incarnation s' = sc_incarnation s ∧
  ∀ x, x ∈ tasks s' → x ∈ tasks s ∨ x = t.

Lemma adds_refl t s : sc_ok s → adds_task t s s.
Proof. intros H. split_and!; auto. Qed.

Lemma sc_ok_status txn st s : sc_ok s → sc_ok (set_status txn st s).
Proof. intros [H1 H2 H3]. by split. Qed.

Lemma adds_enqueue t txn st s : sc_ok s → adds_task t s (set_status txn st (enqueueLocked t s)).
Proof.
  intros H. destruct (enqueue_spec t s H) as (H1 & _ & V & T). split_and!.
  - by apply sc_ok_status.
  - by apply (f_equal (λ v, v.1.1.2)) in V.
  - intros x. rewrite tasks_set_status, T. tauto.
Qed.

Lemma adds_validation v g s :
  sc_ok s → adds_task (MkTask TaskValidate v g) s (ScheduleValidationGeneration v g s).
Proof.
  intros H. unfold ScheduleValidationGeneration. case_match; [by apply adds_refl|by apply adds_enqueue].
Qed.

Lemma adds_execution v s : sc_ok s → adds_task (MkTask TaskExecute v 0) s (ScheduleExecution v s).
Proof.
  intros H. unfold ScheduleExecution. case_match; [by apply adds_refl|by apply adds_enqueue].
Qed.

Lemma adds_resume t s : sc_ok s → adds_task t s (ResumeTask t s).
Proof.
  intros H. unfold ResumeTask. repeat (case_match; [by apply adds_refl|]). by apply adds_enqueue.
Qed.

Lemma commit_same v s :
  sc_ok s → sc_ok (SchedulerCommit v s) ∧ sc_incarnation (SchedulerCommit v s) = sc_incarnation s ∧
  tasks (SchedulerCommit v s) = tasks s.
Proof. intros H. unfold SchedulerCommit. case_match; [|done]. split_and!; [by apply sc_ok_status|done|done]. Qed.

Lemma wait_same v s :
  sc_ok s → sc_ok (Wait v s) ∧ sc_incarnation (Wait v s) = sc_incarnation s ∧ tasks (Wait v s) = tasks s.
Proof. intros H. unfold Wait. case_match; [|done]. split_and!; [by apply sc_ok_status|done|done]. Qed.

(** An abort of the current incarnation. *)
Lemma abort_spec v wait s :
  sc_ok s → v_Incarnation v = incarnation_of s (v_Txn v) → v_Incarnation v + 1 < 2 ^ 32 →
  let '(s', next) := abortLocked v wait s in
  next = MkVersion (v_Txn v) (v_Incarnation v + 1) ∧ sc_ok s' ∧
  (∀ i, incarnation_of s' i = if decide (i = v_Txn v) then v_Incarnation v + 1 else incarnation_of s i) ∧
  ∀ x, x ∈ tasks s' → x ∈ tasks s ∨ (wait = false ∧ x = MkTask TaskExecute next 0).
Proof.
  intros H Hv Hb. unfold abortLocked. rewrite <- Hv. rewrite bool_decide_eq_true_2 by done. cbn [negb].
  rewrite N.mod_small by done. set (next := MkVersion _ _).
  set (s1 := set_aborts _ _).
  assert (sc_ok s1) as H1 by (destruct H; by split).
  assert (∀ i, incarnation_of s1 i =
    if decide (i = v_Txn v) then v_Incarnation v + 1 else incarnation_of s i) as Hi.
  { intros i. unfold incarnation_of. cbn. rewrite lookup_insert. repeat case_decide; naive_solver. }
  destruct wait.
  - split_and!; [done|by apply sc_ok_status|done|]. intros x. rewrite tasks_set_status. by left.
  - destruct (enqueue_spec (MkTask TaskExecute next 0) (set_status (v_Txn v) StatusAborted s1)) as
      (O & _ & V & T); [by apply sc_ok_status|]. split_and!; [done|done| |].
    + intros i. rewrite <- Hi. unfold incarnation_of. apply (f_equal (λ v, v.1.1.2)) in V. cbn in V. by rewrite V.
    + intros x. rewrite T. intros [->|?]; [by right|by left].
Qed.

Section steps.
Context {e : BlockSTMExecutor} {b : Block} {base : gmap string string}.

#[local] Abbreviation lb := (logicalBase b base).
#[local] Abbreviation total := (N.of_nat (txCount b)).
#[local] Abbreviation Inv := (Inv e b base).

(** ** Changes that leave the books alone *)

Lemma inv_queued G s i v : Inv G s → Inv G (put_queued i v s).
Proof. intros I. destruct I. by split. Qed.

Lemma inv_readKeys G s i v : Inv G s → Inv G (put_readKeys i v s).
Proof. intros I. destruct I. by split. Qed.

Lemma inv_readSet G s i v : Inv G s → Inv G (put_readSet i v s).
Proof. intros I. destruct I. split; try done. cbn. by rewrite length_insert. Qed.

Lemma inv_cancelled G s v : Inv G s → Inv G (set_cancelled v s).
Proof. intros I. destruct I. by split. Qed.

Lemma inv_dependencies G s d :
  Inv G s →
  (∀ k l t, dr_waiters d !! k = Some l → t ∈ l → tk_Kind t = TaskExecute ∧ tk_Generation t = 0) →
  Inv G (set_dependencies d s).
Proof. intros I H. destruct I. by split. Qed.

Definition marking (c : control) : bool := match c with CMark _ _ => true | _ => false end.

Lemma good_control G m ac c c' i r :
  marking c = false → good b base G m ac c i r → good b base G m ac c' i r.
Proof.
  intros Hc [?|[?|[?|(r' & ks & -> & _)]]]; [by left|by right; left|by right; right; left|done].
Qed.

Lemma inv_control G s c :
  Inv G s → marking (sm_control s) = false → marking c = false → Inv G (set_control c s).
Proof.
  intros I Hm Hc. destruct I. split; try done; cbn.
  - intros i Hi. eapply slot_ok_mono; [..|exact (i_slots i Hi)];
      [done| |intros r _; by apply good_control|done].
    intros key. unfold unmarked. by destruct (sm_control s), c.
  - intros w Hw. eapply worker_ok_mono; [..|exact (i_workers w Hw)]; [done|].
    intros _ r _. by apply good_control.
  - by destruct c.
Qed.

(** Replacing the scheduler. *)
Lemma inv_scheduler G s sch :
  Inv G s → sc_ok sch → sc_incarnation sch = sc_incarnation (sm_scheduler s) →
  (∀ t, t ∈ tasks sch → t ∈ tasks (sm_scheduler s) ∨ task_ok b (sm_slots s) (sm_active s) t) →
  Inv G (set_scheduler sch s).
Proof.
  intros I Hok Hinc Ht. destruct I. split; try done; cbn.
  - intros i Hi. transitivity (incarnation_of (sm_scheduler s) i); [|by apply i_incarnations].
    unfold incarnation_of. by rewrite Hinc.
  - intros t Hin. destruct (Ht t Hin); auto.
Qed.

Lemma inv_adds G s t sch :
  Inv G s → adds_task t (sm_scheduler s) sch → task_ok b (sm_slots s) (sm_active s) t →
  Inv G (set_scheduler sch s).
Proof.
  intros I (H1 & H2 & H3) Ht. apply inv_scheduler; try done. intros x Hx.
  destruct (H3 x Hx) as [| ->]; auto.
Qed.

(** ** Scheduling validations *)

Lemma inv_scheduleValidation G s i : Inv G s → Inv G (scheduleValidation i s).1.
Proof.
  intros I. unfold scheduleValidation. case_match eqn:E; [done|]. cbn [fst].
  apply orb_false_iff in E as [E Eq]. apply orb_false_iff in E as [E Ew].
  apply orb_false_iff in E as [E Ex]. apply orb_false_iff in E as [Er Ev].
  apply negb_false_iff in Er, Ex. unfold in_range in Er. apply N.ltb_lt in Er.
  rewrite (i_length _ _ _ _ _ I) in Er.
  apply (inv_adds G (put_queued i true s) (MkTask TaskValidate (version_at s i) (sl_generation (slot_at s i)))).
  - by apply inv_queued.
  - apply adds_validation, (i_scheduler _ _ _ _ _ I).
  - unfold task_ok. cbn. split_and!; [done|done|]. intros _. split; [done|]. reflexivity.
Qed.

Lemma inv_schedule_each G l : ∀ s f, Inv G s → Inv G (foldl schedule_each (s, f) l).1.
Proof.
  induction l as [|i l IH]; intros s f I; [done|]. cbn [foldl schedule_each].
  pose proof (inv_scheduleValidation G s i I) as I'. destruct (scheduleValidation i s) as [s' o].
  by apply IH.
Qed.

Lemma inv_ready G s : Inv G s → Inv G (scheduleReadyValidations s).1.
Proof. apply inv_schedule_each. Qed.

(** ** Back to validation *)

Lemma in_slots G s i t :
  Inv G s → i < total → sm_slots s !! N.to_nat i = Some t → slot_at s i = t.
Proof. intros _ _ E. unfold slot_at. by rewrite E. Qed.

Lemma update_length i f s : length (sm_slots (update_slot i f s)) = length (sm_slots s).
Proof. cbn. by rewrite length_alter. Qed.

Lemma slot_update G s i f : Inv G s → i < total → entry_at (sm_slots (update_slot i f s)) i = f (slot_at s i).
Proof. intros I Hi. cbn. rewrite entry_update, decide_True; [done|]. by rewrite (i_length _ _ _ _ _ I). Qed.

Lemma slot_other i f sl j : j ≠ i → entry_at (alter f (N.to_nat i) sl) j = entry_at sl j.
Proof. intros Hne. rewrite entry_update, decide_False by naive_solver. done. Qed.

Lemma alter_twice {A} (f g : A → A) n (l : list A) : alter f n (alter g n l) = alter (f ∘ g) n l.
Proof.
  revert n. induction l as [|x l IH]; intros [|n]; [done..|].
  change (x :: alter f n (alter g n l) = x :: alter (f ∘ g) n l). by rewrite IH.
Qed.

Lemma alter_unvalidated (g : slot → slot) (n : nat) (l : list slot) :
  sl_validated (default zero_slot (l !! n)) = false →
  alter g n l = alter (g ∘ with_validated false) n l.
Proof.
  revert n. induction l as [|t l IH]; intros [|n] Hv; [done..| |].
  - destruct t. cbn in *. by subst.
  - change (t :: alter g n l = t :: alter (g ∘ with_validated false) n l). by rewrite IH.
Qed.

(** A transaction without a validation that still counts. *)
Definition quiet (s : stm) (i : N) : Prop :=
  sl_validated (slot_at s i) = false ∧
  ∀ w, w ∈ sm_active s → kind_of w = TaskValidate → txn_of w = i →
    v_Incarnation (tk_Version (task_of w)) = sl_incarnation (slot_at s i) →
    tk_Generation (task_of w) < sl_generation (slot_at s i).

Lemma quiet_unexecuted G s i :
  Inv G s → i < total → sl_executed (slot_at s i) = false → quiet s i.
Proof.
  intros I Hi Hx. split.
  - pose proof (i_slots _ _ _ _ _ I i Hi) as H. unfold slot_ok in H. unfold slot_at in Hx.
    fold (entry_at (sm_slots s) i) in Hx. rewrite Hx in H. apply H.
  - intros w Hw Kw Tw Ei. destruct (i_workers _ _ _ _ _ I w Hw) as (_ & _ & H). rewrite Kw, Tw in H.
    destruct H as [_ H]. destruct (H Ei) as [Hx' _]. unfold slot_at, entry_at in *. congruence.
Qed.

(** The books of [i] after a bump of its validation generation. *)
Lemma inv_bump G s i :
  Inv G s → i < total → sl_executed (slot_at s i) = true →
  sl_generation (slot_at s i) + 1 <= max_uint64 →
  let s' := update_slot i (with_generation (u64_add (sl_generation (slot_at s i)) 1))
    (if sl_validated (slot_at s i)
     then set_validatedCount (sm_validatedCount s - 1) (update_slot i (with_validated false) s) else s) in
  Inv G s' ∧ quiet s' i.
Proof.
  intros I Hi Hx Hg s'. unfold u64_add, two64 in s'.
  assert (max_uint64 + 1 = 2 ^ 64) as Hmax by done.
  set (f := with_generation (sl_generation (slot_at s i) + 1) ∘ with_validated false).
  assert (sm_slots s' = alter f (N.to_nat i) (sm_slots s)) as Esl.
  { unfold s', f. rewrite N.mod_small by lia. destruct (sl_validated (slot_at s i)) eqn:Ev; cbn.
    - by rewrite alter_twice.
    - by apply alter_unvalidated. }
  assert (sm_validatedCount s' = validated_count (alter f (N.to_nat i) (sm_slots s))) as Ec.
  { rewrite count_update by (by rewrite (i_length _ _ _ _ _ I)).
    pose proof (i_count _ _ _ _ _ I) as Hc. fold (validated_count (sm_slots s)) in Hc.
    rewrite <- Hc. unfold s'. change (entry_at (sm_slots s) i) with (slot_at s i).
    destruct (sl_validated (slot_at s i)); cbn; lia. }
  assert (entry_at (sm_slots s') i = f (slot_at s i)) as Ei.
  { rewrite Esl, entry_update, decide_True; [done|]. by rewrite (i_length _ _ _ _ _ I). }
  assert (sm_memory s' = sm_memory s ∧ sm_active s' = sm_active s ∧ sm_control s' = sm_control s ∧
    sm_readersByKey s' = sm_readersByKey s ∧ sm_scheduler s' = sm_scheduler s ∧
    sm_dependencies s' = sm_dependencies s ∧ sm_readSets s' = sm_readSets s)
    as (Em & Ea & Ect & Erd & Esc & Edp & Ers) by (unfold s'; by destruct (sl_validated _)).
  clearbody s'.
  assert (∀ j, j ≠ i → entry_at (sm_slots s') j = entry_at (sm_slots s) j) as Eo
    by (intros j Hj; rewrite Esl; by apply slot_other).
  split.
  - apply (inv_update e b base G G s s' i); rewrite ?Em, ?Ea, ?Ect, ?Erd, ?Esc, ?Edp, ?Ers; try done;
      try apply I.
    + rewrite Esl, length_alter. apply I.
    + change (slot_at s' i) with (entry_at (sm_slots s') i). by rewrite Ei.
    + intros w Hw Tw. destruct (i_workers _ _ _ _ _ I w Hw) as (H1 & H2 & H3). split_and!; [done..|].
      rewrite Tw, Ei in *. change (entry_at (sm_slots s) i) with (slot_at s i) in H3.
      destruct (kind_of w); [destruct H3 as (_ & H3 & _); congruence|]. destruct H3 as [H3 H4].
      split; [exact H3|]. intros Einc. destruct (H4 Einc) as (H5 & H6 & _). cbn. split_and!; [done|lia|].
      intros Eg. lia.
    + intros _. pose proof (i_slots _ _ _ _ _ I i Hi) as H. unfold slot_ok in *. rewrite Ei.
      change (entry_at (sm_slots s) i) with (slot_at s i) in H. rewrite Hx in H. unfold f. cbn. rewrite Hx.
      destruct H as (H1 & H2 & H3 & H4 & _). by split_and!.
    + intros j Hj. rewrite (i_incarnations _ _ _ _ _ I j Hj). destruct (decide (j = i)) as [->|Hne].
      * change (slot_at s' i) with (entry_at (sm_slots s') i). by rewrite Ei.
      * change (slot_at s' j) with (entry_at (sm_slots s') j). by rewrite Eo.
    + intros t Ht. destruct (decide (v_Txn (tk_Version t) = i)) as [Et|]; [right|by left].
      destruct (i_tasks _ _ _ _ _ I t Ht) as (H1 & H2 & H3). unfold task_ok. rewrite Et, Ei in *.
      split_and!; [done|done|]. intros Einc. specialize (H3 Einc).
      change (entry_at (sm_slots s) i) with (slot_at s i) in H3.
      destruct (tk_Kind t); [destruct H3 as (_ & ? & _); congruence|]. cbn. split; [apply H3|].
      destruct H3 as [_ H3]. lia.
    + pose proof (i_control _ _ _ _ _ I) as H. unfold control_ok in *. destruct (sm_control s); try done.
      destruct (decide (v_Txn (tr_Version result) = i)) as [Et|Hne]; [|by rewrite Eo].
      rewrite Et, Ei in *. cbn. destruct H as (? & ? & ? & ? & ?). by split_and!.
    + by rewrite Ec, Esl.
  - split; change (slot_at s' i) with (entry_at (sm_slots s') i); rewrite Ei; [done|]. intros w Hw Kw Tw Einc.
    rewrite Ea in Hw. destruct (i_workers _ _ _ _ _ I w Hw) as (_ & _ & H). rewrite Kw, Tw in H.
    destruct H as [_ H]. destruct (H Einc) as (_ & H' & _).
    change (entry_at (sm_slots s) i) with (slot_at s i) in H'. cbn. lia.
Qed.

(** What scheduling validations may change. *)
Record calm (s s' : stm) : Prop := {
  ca_memory : sm_memory s' = sm_memory s;
  ca_active : sm_active s' = sm_active s;
  ca_control : sm_control s' = sm_control s;
  ca_readers : sm_readersByKey s' = sm_readersByKey s;
  ca_captured : ∀ j, sl_captured (slot_at s' j) = sl_captured (slot_at s j);
  ca_incarnation : ∀ j, sl_incarnation (slot_at s' j) = sl_incarnation (slot_at s j);
  ca_executed : ∀ j, sl_executed (slot_at s' j) = sl_executed (slot_at s j);
  ca_validated : ∀ j, sl_validated (slot_at s' j) = true → sl_validated (slot_at s j) = true;
  ca_generation : ∀ j, sl_generation (slot_at s j) <= sl_generation (slot_at s' j);
}.

#[export] Instance calm_refl : Reflexive calm.
Proof. intros s. by split. Qed.

#[export] Instance calm_trans : Transitive calm.
Proof.
  intros s1 s2 s3 H H'. split; intros.
  1-4: etrans; apply H' || apply H.
  - etrans; [apply H'|apply H].
  - etrans; [apply H'|apply H].
  - etrans; [apply H'|apply H].
  - by apply H, H'.
  - etrans; [apply H|apply H'].
Qed.

Lemma quiet_calm s s' i : calm s s' → quiet s i → quiet s' i.
Proof.
  intros C [H1 H2]. split.
  - destruct (sl_validated (slot_at s' i)) eqn:E; [|done]. apply (ca_validated _ _ C) in E. congruence.
  - intros w Hw Kw Tw Ei. rewrite (ca_active _ _ C) in Hw. rewrite (ca_incarnation _ _ C) in Ei.
    eapply N.lt_le_trans; [by apply H2|apply C].
Qed.

Lemma scheduleValidation_slots i s : sm_slots (scheduleValidation i s).1 = sm_slots s.
Proof. unfold scheduleValidation. by case_match. Qed.

Lemma calm_slots s s' :
  sm_slots s' = sm_slots s → sm_memory s' = sm_memory s → sm_active s' = sm_active s →
  sm_control s' = sm_control s → sm_readersByKey s' = sm_readersByKey s → calm s s'.
Proof. intros E ? ? ? ?. split; try done; intros j; unfold slot_at; by rewrite E. Qed.

Lemma calm_scheduleValidation i s : calm s (scheduleValidation i s).1.
Proof. unfold scheduleValidation. case_match; [done|]. by apply calm_slots. Qed.

Lemma slot_beyond G s i : Inv G s → ¬ i < total → slot_at s i = zero_slot.
Proof.
  intros I Hi. unfold slot_at. rewrite lookup_ge_None_2; [done|].
  rewrite (i_length _ _ _ _ _ I). lia.
Qed.

Lemma inv_revalidate G s i :
  Inv G s → sl_generation (slot_at s i) + 1 <= max_uint64 →
  let s' := revalidate i s in
  Inv G s' ∧ quiet s' i ∧ calm s s' ∧
  ∀ j, sl_generation (slot_at s' j) <=
       sl_generation (slot_at s j) + (if decide (j = i) then 1 else 0).
Proof.
  intros I Hg s'. unfold s', revalidate. destruct (decide (i < total)) as [Hi|Hi].
  2: { rewrite (slot_beyond G s i I Hi). cbn. split_and!; [done| |done|intros j; lia].
       split; [by rewrite (slot_beyond G s i I Hi)|]. intros w Hw _ Tw.
       destruct (i_workers _ _ _ _ _ I w Hw) as [Ht _]. by rewrite Tw in Ht. }
  case_match eqn:E.
  { split_and!; [done| |done|intros j; lia]. apply orb_true_iff in E as [E|E].
    - apply negb_true_iff in E. by apply (quiet_unexecuted G).
    - apply (quiet_unexecuted G); [done..|]. pose proof (i_slots _ _ _ _ _ I i Hi) as H.
      unfold slot_ok in H. change (entry_at (sm_slots s) i) with (slot_at s i) in H.
      destruct (sl_executed (slot_at s i)); [|done]. destruct H as [H _]. congruence. }
  apply orb_false_iff in E as [E _]. apply negb_false_iff in E.
  destruct (inv_bump G s i I Hi E Hg) as [I1 Q1]. cbv zeta in I1, Q1.
  set (s1 := update_slot i _ _) in *.
  assert (∀ j, slot_at s1 j = if decide (j = i) then
    with_generation (sl_generation (slot_at s i) + 1) (with_validated false (slot_at s i))
    else slot_at s j) as Es1.
  { intros j. unfold s1, u64_add, two64. assert (max_uint64 + 1 = 2 ^ 64) as Hm by done.
    rewrite N.mod_small by lia. change (slot_at ?x j) with (entry_at (sm_slots x) j).
    destruct (sl_validated (slot_at s i)) eqn:Ev; cbn; rewrite ?alter_twice, entry_update,
      (i_length _ _ _ _ _ I); destruct (decide (j = i)) as [->|Hne]; rewrite ?decide_True by done;
      rewrite ?(decide_False (P := _ ∧ _)) by naive_solver; try done.
    change (entry_at (sm_slots s) i) with (slot_at s i). destruct (slot_at s i). cbn in *. by subst. }
  assert (calm s s1) as C1.
  { split; try (by unfold s1; destruct (sl_validated (slot_at s i))); intros j; rewrite Es1;
      destruct (decide (j = i)) as [->|]; cbn; try done. lia. }
  assert (calm s1 (scheduleValidation i (put_queued i false s1)).1) as C2.
  { etrans; [|apply calm_scheduleValidation]. by apply calm_slots. }
  split_and!.
  - by apply inv_scheduleValidation, inv_queued.
  - by eapply quiet_calm.
  - by etrans.
  - intros j. unfold slot_at. rewrite scheduleValidation_slots.
    change (default zero_slot (sm_slots (put_queued i false s1) !! N.to_nat j)) with (slot_at s1 j).
    rewrite Es1. destruct (decide (j = i)) as [->|]; cbn; unfold slot_at; lia.
Qed.

Lemma inv_revalidate_all G l : ∀ s,
  Inv G s → NoDup l →
  (∀ i, i ∈ l → sl_generation (slot_at s i) + 1 <= max_uint64) →
  let s' := foldl (λ s i, revalidate i s) s l in
  Inv G s' ∧ (∀ i, i ∈ l → quiet s' i) ∧ calm s s' ∧
  ∀ j, sl_generation (slot_at s' j) <=
       sl_generation (slot_at s j) + (if decide (j ∈ l) then 1 else 0).
Proof.
  induction l as [|i l IH]; intros s I Hn Hl; cbn [foldl].
  { split_and!; [done|by intros ? ?%elem_of_nil|done|]. intros j. lia. }
  apply NoDup_cons in Hn as [Hni Hn]. pose proof (Hl i ltac:(left)) as Hg.
  destruct (inv_revalidate G s i I Hg) as (I1 & Q1 & C1 & B1). cbv zeta in *.
  destruct (IH (revalidate i s) I1 Hn) as (I2 & Q2 & C2 & B2).
  { intros j Hj. pose proof (Hl j ltac:(by right)) as Hgj. specialize (B1 j).
    rewrite decide_False in B1 by (intros ->; done). lia. }
  split_and!; [done| |by etrans|].
  - intros j [->|Hj]%elem_of_cons; [by eapply quiet_calm|auto].
  - intros j. specialize (B1 j). specialize (B2 j).
    assert (j ∈ i :: l ↔ j = i ∨ j ∈ l) as Hj by apply elem_of_cons.
    destruct (decide (j ∈ l)) as [Hjl|Hjl], (decide (j = i)) as [Hji|Hji], (decide (j ∈ i :: l)) as [Hjc|Hjc];
      first [lia | by subst | exfalso; naive_solver].
Qed.

(** Threats that are dealt with. *)
Definition no_threat : N → string → Prop := λ _ _, False.

Lemma inv_discharge G s :
  Inv G s →
  (∀ i r, i < total → r ∈ sl_captured (slot_at s i) → G i (rd_Key r) → quiet s i) →
  Inv no_threat s.
Proof.
  intros I Hq.
  assert (∀ i r, i < total → r ∈ sl_captured (slot_at s i) → ¬ quiet s i →
    good b base G (sm_memory s) (sm_active s) (sm_control s) i r →
    good b base no_threat (sm_memory s) (sm_active s) (sm_control s) i r) as Hgood.
  { intros i r Hi Hr Hnq [?|[HG|?]]; [by left|destruct Hnq; by eapply Hq|by right; right]. }
  destruct I. split; try done.
  - intros i Hi. specialize (i_slots i Hi). unfold slot_ok in *. case_match; [|done].
    destruct i_slots as (H1 & H2 & H3 & H4 & H5). split_and!; [done..|].
    intros V r Hr. apply Hgood; [done..| |auto]. intros [V' _].
    unfold slot_at, entry_at in *. congruence.
  - intros w Hw. destruct (i_workers w Hw) as (H1 & H2 & H3). split_and!; [done..|].
    destruct (kind_of w) eqn:Kw; [done|]. destruct H3 as [H3 H4]. split; [done|]. intros Ei.
    destruct (H4 Ei) as (H5 & H6 & H7). split_and!; [done..|]. intros Eg. specialize (H7 Eg).
    assert (¬ quiet s (txn_of w)) as Hnq.
    { intros [_ Hn]. specialize (Hn w Hw Kw eq_refl Ei). unfold slot_at, entry_at in *. lia. }
    destruct w; cbn in *; try done.
    + destruct H7 as (checked & Ec & Hc). exists checked. split; [done|]. intros r Hr.
      apply Hgood; [done| |done|auto]. unfold slot_at. unfold entry_at in Ec. rewrite Ec. set_solver.
    + intros He Hv r Hr. apply Hgood; [done..|auto].
Qed.

(** ** Handing out tasks *)

Lemma good_more G m ac x ct i r : good b base G m ac ct i r → good b base G m (ac ++ [x]) ct i r.
Proof.
  intros [?|[?|[(w & ws & Hw & ?)|?]]]; [by left|by right; left| |by right; right; right].
  right. right. left. exists w, ws. split; [|done]. apply elem_of_app. by left.
Qed.

Lemma lookup_snoc {A} (l : list A) x n y :
  (l ++ [x]) !! n = Some y → l !! n = Some y ∨ (n = length l ∧ y = x).
Proof.
  intros [?|[Hn Hy]]%lookup_app_Some; [by left|right].
  apply list_lookup_singleton_Some in Hy as [? ->]. split; [lia|done].
Qed.

Lemma inv_launch G s sch task input :
  Inv G s → sc_ok sch → sc_incarnation sch = sc_incarnation (sm_scheduler s) →
  (∀ t, t ∈ tasks sch → t ∈ tasks (sm_scheduler s) ∧ t ≠ task) → task ∈ tasks (sm_scheduler s) →
  v_Incarnation (tk_Version task) = incarnation_of (sm_scheduler s) (v_Txn (tk_Version task)) →
  ti_Task input = task →
  (tk_Kind task = TaskExecute →
     ti_PreviousWrites input = sl_writeSet (slot_at s (v_Txn (tk_Version task)))) →
  (tk_Kind task = TaskValidate →
     ti_Captured input = sl_captured (slot_at s (v_Txn (tk_Version task)))) →
  Inv G (set_active (sm_active s ++ [WStart input]) (set_scheduler sch s)).
Proof.
  intros I Hok Hinc Hrest Hin Hlive Et He Hv. set (w := WStart input). set (i := v_Txn (tk_Version task)) in *.
  destruct (i_tasks _ _ _ _ _ I task Hin) as (Hi & _ & Htask). fold i in Hi, Htask.
  change (entry_at (sm_slots s) i) with (slot_at s i) in Htask.
  assert (v_Incarnation (tk_Version task) = sl_incarnation (slot_at s i)) as Ecur.
  { rewrite Hlive. by apply I. }
  specialize (Htask Ecur).
  assert (task_of w = task) as Ew by exact Et.
  assert (kind_of w = tk_Kind task ∧ txn_of w = i) as [Kw Tw] by (unfold kind_of, txn_of; by rewrite Ew).
  assert (worker_ok e b base G (sm_memory s) (sm_slots s) (sm_active s ++ [w]) (sm_control s) w) as Hw.
  { split_and!; [by rewrite Tw|done|]. rewrite Tw, Kw, Ew. change (entry_at (sm_slots s) i) with (slot_at s i).
    destruct (tk_Kind task) eqn:Kt.
    - destruct Htask as (_ & H1 & H2 & _). split_and!; [done..|]. unfold execution_ok, w.
      fold w. rewrite Tw. by apply He.
    - destruct Htask as [H1 H2]. split; [lia|]. intros _. split_and!; [done..|]. intros _.
      unfold check_ok, w. fold w. rewrite Tw. by apply Hv. }
  clearbody w. destruct I. split; cbn; try done.
  - intros j Hj. unfold incarnation_of. rewrite Hinc. by apply i_incarnations.
  - intros t Ht. destruct (Hrest t Ht) as [Ht' Hne]. destruct (i_tasks t Ht') as (H1 & H2 & H3).
    split_and!; [done..|]. intros Ei. specialize (H3 Ei). destruct (tk_Kind t) eqn:Kt; [|done].
    destruct H3 as (Hg & H4 & H5 & H6). split_and!; [done..|].
    intros x [Hx|Hx%list_elem_of_singleton]%elem_of_app Kx; [by apply H6|]. subst x. intros Tx.
    rewrite Kw in Kx. rewrite Kx in Htask. destruct Htask as (Hg' & _). apply Hne.
    destruct t as [kt [ti vi] gt], task as [kt' [ti' vi'] gt']. unfold i, slot_at, entry_at in *. cbn in *.
    subst. cbn in *. congruence.
  - intros j Hj. eapply slot_ok_mono; [..|exact (i_slots j Hj)];
      [done|done|intros r _; apply good_more|]. intros Hn x Hx. apply Hn, elem_of_app. by left.
  - intros x [Hx|Hx%list_elem_of_singleton]%elem_of_app; [|by subst].
    eapply worker_ok_mono; [..|exact (i_workers x Hx)]; [done|]. intros _ r _. apply good_more.
  - assert (∀ p x, sm_active s !! p = Some x → kind_of x = TaskExecute → kind_of w = TaskExecute →
      txn_of x = txn_of w → False) as Hno.
    { intros p x Hx Kx Kw' Tx. rewrite Kw in Kw'. rewrite Kw' in Htask. destruct Htask as (_ & _ & _ & Hn).
      apply (Hn x); [by eapply list_elem_of_lookup_2|done|congruence]. }
    intros p q x y [Hx|[-> ->]]%lookup_snoc [Hy|[-> ->]]%lookup_snoc Kx Ky T; [by eapply i_unique|..|done].
    + by destruct (Hno p x).
    + by destruct (Hno q y).
Qed.

Lemma taskLess_irrefl t : schedulerTaskLess t t = false.
Proof. destruct (schedulerTaskLess t t) eqn:E; [|done]. by rewrite (taskLess_asym _ _ E) in E. Qed.

Lemma inv_dispatch G s g : Inv G s → Inv G (dispatch g s).1.
Proof.
  intros I. unfold dispatch. pose proof (Next_spec (sm_scheduler s) (i_scheduler _ _ _ _ _ I)) as H.
  destruct (Next (sm_scheduler s)) as [sch [task|]]; cbn [fst].
  - destruct H as [Hok F].
    assert (∀ t, t ∈ tasks sch → t ∈ tasks (sm_scheduler s) ∧ t ≠ task) as Hrest.
    { intros t Ht. apply (nx_rest _ _ _ F) in Ht as [Ht Hl]. split; [done|]. intros ->.
      by rewrite taskLess_irrefl in Hl. }
    destruct g; cbn [fst].
    + apply inv_scheduler; [done|done|apply F|]. intros t Ht. left. by apply Hrest.
    + pose proof (nx_live _ _ _ F) as Hl. apply andb_true_iff in Hl as [Hl _].
      apply bool_decide_eq_true in Hl. change (slot_at (set_scheduler sch s)) with (slot_at s).
      apply (inv_launch G s sch task); try done; [apply F..| | |]; by destruct (tk_Kind task).
  - destruct H as (Hok & Ht & (_ & Hi & _) & _). apply inv_scheduler; [done..|]. rewrite Ht.
    by intros t ?%elem_of_nil.
Qed.

(** What scheduling leaves alone. *)
Record still (s s' : stm) : Prop := {
  st_memory : sm_memory s' = sm_memory s;
  st_slots : sm_slots s' = sm_slots s;
  st_active : sm_active s' = sm_active s;
  st_control : sm_control s' = sm_control s;
  st_readers : sm_readersByKey s' = sm_readersByKey s;
  st_cancelled : sm_cancelled s' = sm_cancelled s;
}.

#[export] Instance still_refl : Reflexive still.
Proof. intros s. by split. Qed.

#[export] Instance still_trans : Transitive still.
Proof. intros s1 s2 s3 [] []. split; congruence. Qed.

Lemma still_foldl {A} (f : stm * bool → A → stm * bool) l :
  (∀ acc x, still acc.1 (f acc x).1) → ∀ acc, still acc.1 (foldl f acc l).1.
Proof.
  intros H. induction l as [|x l IH]; intros acc; [done|]. cbn [foldl]. etrans; [apply H|apply IH].
Qed.

Lemma still_scheduleValidation i s : still s (scheduleValidation i s).1.
Proof. unfold scheduleValidation. case_match; [done|by split]. Qed.

Lemma still_each acc i : still acc.1 (schedule_each acc i).1.
Proof.
  destruct acc as [s f]. cbn. pose proof (still_scheduleValidation i s) as H.
  by destruct (scheduleValidation i s).
Qed.

Lemma still_ready s : still s (scheduleReadyValidations s).1.
Proof. exact (still_foldl schedule_each _ still_each (s, false)). Qed.

Lemma still_execution acc i : still acc.1 (schedule_execution acc i).1.
Proof. destruct acc as [s f]. cbn. case_match; [done|by split]. Qed.

Lemma in_indexes n s i : i ∈ indexes n s ↔ n <= i ∧ i < N.of_nat (length (sm_slots s)).
Proof.
  unfold indexes. rewrite list_elem_of_fmap. split.
  - intros (k & -> & Hk%elem_of_seq). lia.
  - intros H. exists (N.to_nat i). rewrite elem_of_seq. lia.
Qed.

Lemma NoDup_indexes n s : NoDup (indexes n s).
Proof. apply NoDup_fmap_2_strong; [intros; lia|apply NoDup_seq]. Qed.

(** With no worker about, every execution may be scheduled again. *)
Lemma inv_schedule_execution G acc i :
  Inv G acc.1 → sm_active acc.1 = [] → i < total → Inv G (schedule_execution acc i).1.
Proof.
  destruct acc as [s f]. cbn [fst]. intros I Ha Hi. cbn. case_match eqn:E; [done|]. cbn [fst].
  apply orb_false_iff in E as [E Ex]. apply orb_false_iff in E as [_ Ew].
  eapply inv_adds; [done|apply adds_execution, I|]. split_and!; [done|done|]. intros _.
  split_and!; [done..|]. rewrite Ha. by intros w ?%elem_of_nil.
Qed.

Lemma inv_schedule_executions G l : ∀ acc,
  Inv G acc.1 → sm_active acc.1 = [] → (∀ i, i ∈ l → i < total) →
  Inv G (foldl schedule_execution acc l).1.
Proof.
  induction l as [|i l IH]; intros acc I Ha Hl; [done|]. cbn [foldl]. apply IH.
  - apply inv_schedule_execution; [done..|]. apply Hl. left.
  - by rewrite (st_active _ _ (still_execution acc i)).
  - intros j Hj. apply Hl. by right.
Qed.

Lemma dispatch_frame g s :
  sm_control (dispatch g s).1 = sm_control s ∧
  ((dispatch g s).2 = false → sm_active (dispatch g s).1 = sm_active s).
Proof.
  unfold dispatch. destruct (Next (sm_scheduler s)) as [sch [task|]]; [|done]. by destruct g.
Qed.

Lemma inv_fail G s t : Inv G s → marking (sm_control s) = false → Inv G (fail t s).
Proof. intros I Hm. by apply inv_control. Qed.

Lemma inv_idle G s g :
  Inv G s → sm_active s = [] → marking (sm_control s) = false → Inv G (idle g s).
Proof.
  intros I Ha Hm. unfold idle. pose proof (inv_ready G s I) as I1. pose proof (still_ready s) as S1.
  destruct (scheduleReadyValidations s) as [s1 f1]. cbn [fst] in I1, S1.
  pose proof (inv_schedule_executions G (indexes 0 s1) (s1, f1) I1) as I2.
  pose proof (still_foldl schedule_execution (indexes 0 s1) still_execution (s1, f1)) as S2.
  destruct (foldl schedule_execution (s1, f1) (indexes 0 s1)) as [s2 f2]. cbn [fst] in I2, S2.
  assert (Inv G s2) as I2'.
  { apply I2; [by rewrite (st_active _ _ S1)|]. intros i [_ Hi]%in_indexes.
    by rewrite (i_length _ _ _ _ _ I1) in Hi. }
  assert (marking (sm_control s2) = false) as Hm2
    by (by rewrite (st_control _ _ S2), (st_control _ _ S1)).
  destruct f2; [|by apply inv_fail].
  pose proof (inv_dispatch G s2 g I2') as I3. destruct (dispatch_frame g s2) as [Ec _].
  destruct (dispatch g s2) as [s3 f3]. cbn [fst] in I3, Ec. rewrite <- Ec in Hm2.
  destruct f3; [by apply inv_control|by apply inv_fail].
Qed.

Lemma inv_fill G s g g' :
  Inv G s → marking (sm_control s) = false → Inv G (fill e g g' s).
Proof.
  intros I Hm. unfold fill. case_match; [|by apply inv_control].
  pose proof (inv_dispatch G s g I) as I1. destruct (dispatch_frame g s) as [Ec Ha].
  destruct (dispatch g s) as [s1 f1]. cbn [fst snd] in I1, Ec, Ha. destruct f1; [done|].
  rewrite <- Ec in Hm. specialize (Ha eq_refl). case_match eqn:E; [|by apply inv_control].
  apply inv_idle; [done| |done]. rewrite Ha. apply Z.eqb_eq in E. destruct (sm_active s); [done|].
  cbn in E. lia.
Qed.

End steps.
