(* ===== verification/BlockStmResults.v ===== *)
(** * The Block-STM coordinator keeps the invariant: results

    Taking the result of an execution or of a validation, marking the writes of
    an aborted execution, and every step of the executor. *)
From S2P Require Import Prelude GoStd Tx Block StateRoot MvMemory MvLatest Heap Scheduler Serial SerialProps Footprint BlockStm BlockStmInv BlockStmSteps.
Local Open Scope N_scope.
#[local] Opaque Sha256.sum256 sha256_hex Json.marshal.

Section results.
Context {e : BlockSTMExecutor} {b : Block} {base : gmap string string}.
Context {baseCommitment : option commitmentNode}.

#[local] Abbreviation lb := (logicalBase b base).
#[local] Abbreviation total := (N.of_nat (txCount b)).
#[local] Abbreviation Inv := (Inv e b base).

(** ** Taking a result *)

Lemma delete_lookup {A} (l : list A) p q y :
  delete p l !! q = Some y →
  l !! (if decide (q < p)%nat then q else S q) = Some y ∧ (if decide (q < p)%nat then q else S q) ≠ p.
Proof.
  case_decide; [rewrite list_lookup_delete_lt by done|rewrite list_lookup_delete_ge by lia];
    intros; split; [done|lia|done|lia].
Qed.

Lemma elem_of_delete {A} (l : list A) p x : x ∈ delete p l → ∃ q, q ≠ p ∧ l !! q = Some x.
Proof.
  intros [q Hq]%list_elem_of_lookup. apply delete_lookup in Hq as [Hq Hne]. eauto.
Qed.

Lemma elem_of_undeleted {A} (l : list A) p w x : l !! p = Some w → x ∈ l → x = w ∨ x ∈ delete p l.
Proof.
  intros Hp Hx. rewrite (delete_Permutation l p w Hp) in Hx. by apply elem_of_cons in Hx.
Qed.

Lemma delete_unique {A} (l : list A) p (P : A → A → Prop) :
  (∀ q q' w w', l !! q = Some w → l !! q' = Some w' → P w w' → q = q') →
  ∀ q q' w w', delete p l !! q = Some w → delete p l !! q' = Some w' → P w w' → q = q'.
Proof.
  intros H q q' w w' Hq Hq' HP. apply delete_lookup in Hq as [Hq Hn], Hq' as [Hq' Hn'].
  specialize (H _ _ _ _ Hq Hq' HP). repeat case_decide; lia.
Qed.

(** A worker that has published nothing may go. *)
Lemma good_remove G m ac p w ct i r :
  ac !! p = Some w → published w = None →
  good b base G m ac ct i r → good b base G m (delete p ac) ct i r.
Proof.
  intros Hp Pw [?|[?|[(x & ws & Hx & Px & H)|?]]]; [by left|by right; left| |by right; right; right].
  destruct (elem_of_undeleted _ _ _ _ Hp Hx) as [->|Hx']; [congruence|].
  right. right. left. by exists x, ws.
Qed.

Lemma in_delete {A} (l : list A) p x : x ∈ delete p l → x ∈ l.
Proof. intros (q & _ & Hq)%elem_of_delete. by eapply list_elem_of_lookup_2. Qed.

Lemma inv_remove G s p w :
  Inv G s → sm_active s !! p = Some w → published w = None →
  Inv G (set_active (delete p (sm_active s)) s).
Proof.
  intros I Hp Pw. destruct I. split; cbn; try done.
  - intros t Ht. destruct (i_tasks t Ht) as (H1 & H2 & H3). split_and!; [done..|]. intros Ei.
    specialize (H3 Ei). destruct (tk_Kind t); [|done]. destruct H3 as (? & ? & ? & Hn). split_and!; [done..|].
    intros x Hx. apply Hn. by eapply in_delete.
  - intros i Hi. eapply slot_ok_mono; [..|exact (i_slots i Hi)]; [done|done| |].
    + intros r _. by eapply good_remove.
    + intros Hn x Hx Kx Tx. destruct (elem_of_undeleted _ _ _ _ Hp Hx) as [->|]; [done|by apply Hn].
  - intros x Hx. eapply worker_ok_mono; [..|apply (i_workers x); by eapply in_delete]; [done|].
    intros _ r _. by eapply good_remove.
  - intros q q' x x' Hq Hq' K K' T.
    eapply (delete_unique (sm_active s) p
      (λ x x', kind_of x = TaskExecute ∧ kind_of x' = TaskExecute ∧ txn_of x = txn_of x'));
      [|exact Hq|exact Hq'|done]. intros ? ? ? ? ? ? (? & ? & ?). by eapply i_unique.
Qed.

Lemma removed_execution G s p w :
  Inv G s → sm_active s !! p = Some w → kind_of w = TaskExecute →
  no_execution (delete p (sm_active s)) (txn_of w).
Proof.
  intros I Hp Kw x (q & Hne & Hq)%elem_of_delete Kx Tx. apply Hne. by eapply (i_unique _ _ _ _ _ I).
Qed.

(** No task of the current incarnation is queued. *)
Definition no_task (s : stm) (i : N) : Prop :=
  ∀ t, t ∈ tasks (sm_scheduler s) → v_Txn (tk_Version t) = i →
    v_Incarnation (tk_Version t) < sl_incarnation (slot_at s i).

Lemma executing_no_task G s w :
  Inv G s → w ∈ sm_active s → kind_of w = TaskExecute → no_task s (txn_of w).
Proof.
  intros I Hw Kw t Ht Tt. destruct (i_tasks _ _ _ _ _ I t Ht) as (_ & H2 & H3). rewrite Tt in *.
  change (entry_at (sm_slots s) (txn_of w)) with (slot_at s (txn_of w)) in *.
  destruct (decide (v_Incarnation (tk_Version t) = sl_incarnation (slot_at s (txn_of w)))) as [E|]; [|lia].
  specialize (H3 E). destruct (i_workers _ _ _ _ _ I w Hw) as (_ & _ & H). rewrite Kw in H.
  destruct H as (_ & Hx & _). change (entry_at (sm_slots s) (txn_of w)) with (slot_at s (txn_of w)) in Hx.
  destruct (tk_Kind t).
  - destruct H3 as (_ & _ & _ & Hn). by destruct (Hn w Hw Kw).
  - destruct H3. congruence.
Qed.

Lemma waiting_still G s i :
  Inv G s → i < total → sl_waiting (slot_at s i) = true →
  sl_executed (slot_at s i) = false ∧ no_execution (sm_active s) i ∧ no_task s i.
Proof.
  intros I Hi Hw. assert (sl_executed (slot_at s i) = false) as Hx.
  { pose proof (i_slots _ _ _ _ _ I i Hi) as H. unfold slot_ok in H.
    change (entry_at (sm_slots s) i) with (slot_at s i) in H.
    destruct (sl_executed (slot_at s i)); [|done]. destruct H as [H _]. congruence. }
  split_and!; [done| |].
  - intros w Hin Kw Tw. destruct (i_workers _ _ _ _ _ I w Hin) as (_ & _ & H). rewrite Kw, Tw in H.
    destruct H as (_ & _ & H & _). change (entry_at (sm_slots s) i) with (slot_at s i) in H. congruence.
  - intros t Ht Tt. destruct (i_tasks _ _ _ _ _ I t Ht) as (_ & H2 & H3). rewrite Tt in *.
    change (entry_at (sm_slots s) i) with (slot_at s i) in *.
    destruct (decide (v_Incarnation (tk_Version t) = sl_incarnation (slot_at s i))) as [E|]; [|lia].
    specialize (H3 E). destruct (tk_Kind t); destruct_and? H3; congruence.
Qed.

(** ** A transaction that is not executed and has no execution on its way *)

Definition same_but (i : N) (s s' : stm) : Prop :=
  sm_memory s' = sm_memory s ∧ sm_active s' = sm_active s ∧ sm_control s' = sm_control s ∧
  length (sm_readSets s') = length (sm_readSets s) ∧ sm_validatedCount s' = sm_validatedCount s ∧
  ∀ j key, j ≠ i → j ∈ default ∅ (sm_readersByKey s !! key) →
    j ∈ default ∅ (sm_readersByKey s' !! key).

Lemma inv_books G s s' i f :
  Inv G s → i < total → sl_executed (slot_at s i) = false → no_execution (sm_active s) i →
  no_task s i → marking (sm_control s) = false → same_but i s s' →
  sm_slots s' = alter f (N.to_nat i) (sm_slots s) →
  sl_writeSet (f (slot_at s i)) = sl_writeSet (slot_at s i) →
  sl_executed (f (slot_at s i)) = false → sl_validated (f (slot_at s i)) = false →
  sl_incarnation (slot_at s i) <= sl_incarnation (f (slot_at s i)) →
  sc_ok (sm_scheduler s') →
  (∀ j, incarnation_of (sm_scheduler s') j =
     if decide (j = i) then sl_incarnation (f (slot_at s i)) else incarnation_of (sm_scheduler s) j) →
  (∀ t, t ∈ tasks (sm_scheduler s') → t ∈ tasks (sm_scheduler s)) →
  (∀ d l t, dr_waiters (sm_dependencies s') !! d = Some l → t ∈ l →
     tk_Kind t = TaskExecute ∧ tk_Generation t = 0) →
  Inv G s' ∧ no_execution (sm_active s') i ∧ slot_at s' i = f (slot_at s i).
Proof.
  intros I Hi Hx Hne Hnt Hm (Em & Ea & Ec & Hrs & Hcnt & Hrd) Esl Fw Fx Fv Fi Hok Hinc Ht Hreg.
  assert (entry_at (sm_slots s') i = f (slot_at s i)) as Ei.
  { rewrite Esl, entry_update, decide_True; [done|]. by rewrite (i_length _ _ _ _ _ I). }
  assert (∀ j, j ≠ i → entry_at (sm_slots s') j = entry_at (sm_slots s) j) as Eo
    by (intros j Hj; rewrite Esl; by apply slot_other).
  pose proof (i_slots _ _ _ _ _ I i Hi) as Hslot. unfold slot_ok in Hslot.
  change (entry_at (sm_slots s) i) with (slot_at s i) in Hslot. rewrite Hx in Hslot.
  destruct Hslot as [Hv Hest].
  split_and!; [|by rewrite Ea|exact Ei].
  apply (inv_update e b base G G s s' i); rewrite ?Em, ?Ea, ?Ec; try done; try apply I.
  - rewrite Esl, length_alter. apply I.
  - rewrite Hrs. apply I.
  - change (slot_at s' i) with (entry_at (sm_slots s') i). by rewrite Ei.
  - intros w Hw Tw. destruct (i_workers _ _ _ _ _ I w Hw) as (H1 & H2 & H3). split_and!; [done..|].
    destruct (kind_of w) eqn:Kw; [by destruct (Hne w)|]. rewrite Tw in *. rewrite Ei.
    change (entry_at (sm_slots s) i) with (slot_at s i) in H3. destruct H3 as [H3 H4]. split; [lia|].
    intros E. destruct H4 as [H4 _]; [lia|congruence].
  - intros _. unfold slot_ok. rewrite Ei, Fx, Fv, Fw. split; [done|]. intros Hn. by apply Hest.
  - intros j Hj. rewrite Hinc. case_decide as E.
    + subst j. change (slot_at s' i) with (entry_at (sm_slots s') i). by rewrite Ei.
    + change (slot_at s' j) with (entry_at (sm_slots s') j). rewrite Eo by done. by apply I.
  - intros t Hin. apply Ht in Hin. destruct (decide (v_Txn (tk_Version t) = i)) as [Et|]; [right|by left].
    pose proof (Hnt t Hin Et). unfold task_ok. rewrite Et, Ei. split_and!; [done|lia|lia].
  - by destruct (sm_control s).
  - rewrite Hcnt, Esl, count_update by (by rewrite (i_length _ _ _ _ _ I)).
    change (entry_at (sm_slots s) i) with (slot_at s i). rewrite Fv, Hv.
    pose proof (i_count _ _ _ _ _ I) as H. fold (validated_count (sm_slots s)) in H. cbn. lia.
Qed.

Lemma drop_reader_other i readers key j k :
  j ≠ i → j ∈ default ∅ (readers !! k) → j ∈ default ∅ (drop_reader i readers key !! k).
Proof.
  intros Hne Hj. unfold drop_reader. destruct (decide (k = key)) as [->|Hk].
  - assert (j ∈ default ∅ (readers !! key) ∖ {[i]}) as H by set_solver.
    case_bool_decide as E; [by rewrite E in H; apply elem_of_empty in H|]. by rewrite lookup_insert_eq.
  - case_bool_decide; [by rewrite lookup_delete_ne|by rewrite lookup_insert_ne].
Qed.

Lemma drop_readers_other i j k l : ∀ readers,
  j ≠ i → j ∈ default ∅ (readers !! k) →
  j ∈ default ∅ (foldl (drop_reader i) readers l !! k).
Proof.
  induction l as [|key l IH]; intros readers Hne Hj; [done|]. cbn [foldl]. apply IH; [done|].
  by apply drop_reader_other.
Qed.

Lemma registered waiter dependency reg :
  tk_Kind waiter = TaskExecute → tk_Generation waiter = 0 →
  (∀ d l t, dr_waiters reg !! d = Some l → t ∈ l → tk_Kind t = TaskExecute ∧ tk_Generation t = 0) →
  ∀ d l t, dr_waiters (RegisterTask waiter dependency reg) !! d = Some l → t ∈ l →
    tk_Kind t = TaskExecute ∧ tk_Generation t = 0.
Proof.
  intros Hk Hg H d l t. unfold RegisterTask. case_bool_decide; [apply H|]. cbn.
  intros [[-> <-]|[_ Hl]]%lookup_insert_Some Ht; [|by eapply H].
  apply elem_of_app in Ht as [Ht|Ht%list_elem_of_singleton]; [|by subst].
  destruct (dr_waiters reg !! d) as [l|] eqn:E; [by eapply H|by apply elem_of_nil in Ht].
Qed.

(** ** An execution that ran into an ESTIMATE *)

Lemma wait_for_frame i v d rs s :
  let s' := wait_for i v d rs s in
  same_but i s s' ∧
  sm_slots s' = alter (with_executed false ∘ with_waiting true) (N.to_nat i) (sm_slots s) ∧
  sm_scheduler s' = sm_scheduler s ∧
  sm_dependencies s' = RegisterTask (MkTask TaskExecute v 0) d (sm_dependencies s).
Proof.
  cbv zeta. split_and!; [|cbn; by rewrite alter_twice|done|done]. split_and!; try done.
  - cbn. by rewrite length_insert.
  - intros j key Hj. by apply drop_readers_other.
Qed.

Definition bounded (n : N) (s : stm) : Prop :=
  ∀ j, sl_incarnation (slot_at s j) <= n ∧ sl_generation (slot_at s j) <= n.

Lemma bounded_alter n s s' i f :
  sm_slots s' = alter f (N.to_nat i) (sm_slots s) → bounded n s →
  sl_incarnation (f (slot_at s i)) <= n → sl_generation (f (slot_at s i)) <= n → bounded n s'.
Proof.
  intros E B Hi Hg j. change (slot_at s' j) with (entry_at (sm_slots s') j).
  rewrite E, entry_update. case_decide; [done|apply B].
Qed.

Lemma bounded_mono n n' s : n <= n' → bounded n s → bounded n' s.
Proof. intros H B j. destruct (B j). lia. Qed.

Lemma dependency_resolved_ok G s i (r : blockSTMTaskResult) :
  Inv G s → i < total → sl_executed (slot_at s i) = false → no_execution (sm_active s) i → no_task s i →
  marking (sm_control s) = false → v_Txn (tr_Version r) = i →
  let s1 := update_slot i (with_waiting false) s in
  Inv G (set_scheduler (ScheduleExecution (tr_Version r) (sm_scheduler s1)) s1).
Proof.
  intros I Hi Hx Hne Hnt Hm Er s1.
  assert (sl_validated (slot_at s i) = false) as Hv.
  { pose proof (i_slots _ _ _ _ _ I i Hi) as H. unfold slot_ok in H.
    change (entry_at (sm_slots s) i) with (slot_at s i) in H. rewrite Hx in H. apply H. }
  destruct (inv_books G s s1 i (with_waiting false)) as (I1 & Hne1 & E1); try done; try apply I.
  { intros j. case_decide as E; [subst j; by apply I|done]. }
  change (sm_scheduler s1) with (sm_scheduler s).
  unfold ScheduleExecution. case_match eqn:E.
  - apply (inv_scheduler G s1 (sm_scheduler s)); [done|apply I|done|]. intros t Ht. by left.
  - eapply inv_adds; [done|apply (adds_enqueue (MkTask TaskExecute (tr_Version r) 0)), I|].
    apply negb_false_iff, bool_decide_eq_true in E. rewrite Er in E.
    unfold task_ok. cbn [tk_Version tk_Generation tk_Kind]. rewrite Er.
    change (entry_at (sm_slots s1) i) with (slot_at s1 i). rewrite E1. cbn. rewrite E, (i_incarnations _ _ _ _ _ I i Hi). split_and!; [done|done|]. intros _.
    by split_and!.
Qed.

(** The state between the arrival of an unfinished execution and its waiting. *)
Lemma inv_process_dependency n s r d :
  Inv no_threat s → bounded n s → n + 1 < 2 ^ 32 → v_Txn (tr_Version r) < total →
  sl_executed (slot_at s (v_Txn (tr_Version r))) = false →
  no_execution (sm_active s) (v_Txn (tr_Version r)) → no_task s (v_Txn (tr_Version r)) →
  sm_control s = CSelect →
  v_Incarnation (tr_Version r) = sl_incarnation (slot_at s (v_Txn (tr_Version r))) →
  let s' := process_dependency e b base r d s in Inv no_threat s' ∧ bounded (n + 1) s'.
Proof.
  intros I B Hn Hi Hx Hne Hnt Hct Hinc s'. unfold s', process_dependency. clear s'.
  set (i := v_Txn (tr_Version r)) in *. assert (marking (sm_control s) = false) as Hm by (by rewrite Hct).
  assert (sl_validated (slot_at s i) = false) as Hv.
  { pose proof (i_slots _ _ _ _ _ I i Hi) as H. unfold slot_ok in H.
    change (entry_at (sm_slots s) i) with (slot_at s i) in H. rewrite Hx in H. apply H. }
  case_match.
  { split.
    - apply inv_control; [by apply dependency_resolved_ok|by cbn|done].
    - apply (bounded_mono n); [lia|]. by apply (bounded_alter n s _ i (with_waiting false)); [|apply B..]. }
  case_match.
  { destruct (wait_same (tr_Version r) (sm_scheduler s)) as (O & E1 & E2); [apply I|].
    set (s1 := set_scheduler _ s). destruct (wait_for_frame i (tr_Version r) d (tr_ReadSet r) s1) as (F & Fs & Fc & Fd).
    set (s2 := wait_for i _ _ _ s1) in *. split.
    - apply inv_control; [|by rewrite (proj1 (proj2 (proj2 F)))|done].
      apply (inv_books no_threat s s2 i (with_executed false ∘ with_waiting true));
        try done.
      + intros j. rewrite Fc. unfold incarnation_of. cbn. rewrite E1. fold (incarnation_of (sm_scheduler s) j).
        destruct (decide (j = i)) as [Ej|]; [rewrite Ej; by apply I|done].
      + intros t. rewrite Fc. cbn. by rewrite E2.
      + rewrite Fd. apply registered; [done..|apply I].
    - apply (bounded_mono n); [lia|]. by apply (bounded_alter n s _ i _ Fs); [|apply B..]. }
  pose proof (abort_spec (tr_Version r) true (sm_scheduler s)) as Ha. unfold AbortAndWait.
  destruct (abortLocked (tr_Version r) true (sm_scheduler s)) as [sch next]. cbn in Ha.
  destruct Ha as (-> & O & Hincs & Hts); [apply I|by rewrite Hinc, (i_incarnations _ _ _ _ _ I)
    |rewrite Hinc; pose proof (proj1 (B i)); lia|].
  fold i in Hincs. cbn [v_Incarnation]. set (inc := v_Incarnation (tr_Version r) + 1) in *.
  set (s1 := update_slot i (with_incarnation inc) (set_scheduler sch s)).
  assert (inc <= n + 1) as Hinc1 by (unfold inc; rewrite Hinc; pose proof (proj1 (B i)); lia).
  assert (∀ t, t ∈ tasks sch → t ∈ tasks (sm_scheduler s)) as Hts'
    by (intros t Ht; destruct (Hts t Ht) as [|[? _]]; done).
  assert (bounded (n + 1) s) as B' by (apply (bounded_mono n); [lia|done]).
  assert (sl_incarnation (slot_at s i) <= inc) as Hle by lia.
  destruct (incarnation_limit e b base i s1) as [outcome|].
  - split.
    + apply inv_control; [|done|done].
      apply (inv_books no_threat s s1 i (with_incarnation inc)); try done; apply I.
    + by apply (bounded_alter _ s _ i (with_incarnation inc)); [| | |apply B'].
  - destruct (wait_for_frame i (MkVersion i inc) d (tr_ReadSet r) s1) as (F & Fs & Fc & Fd).
    set (s2 := wait_for i _ _ _ s1) in *.
    pose proof (eq_trans Fs (alter_twice _ _ _ (sm_slots s))) as Fs'. split.
    + apply inv_control; [|by rewrite (proj1 (proj2 (proj2 F)))|done].
      apply (inv_books no_threat s s2 i
        (with_executed false ∘ with_waiting true ∘ with_incarnation inc)); try done; try (by rewrite Fc).
      rewrite Fd. apply registered; [done..|apply I].
    + by apply (bounded_alter _ s _ i _ Fs'); [| |apply B'].
Qed.

(** ** An execution that finished *)

Lemma add_readers_keep i reads : ∀ acc j k,
  j ∈ default ∅ (acc.1 !! k) → j ∈ default ∅ ((foldl (add_reader i) acc reads).1 !! k).
Proof.
  induction reads as [|r reads IH]; intros [rd seen] j k Hj; [done|]. cbn [foldl]. apply IH.
  unfold add_reader. case_match; [done|]. cbn in *. destruct (decide (k = rd_Key r)) as [->|Hne].
  - rewrite lookup_insert_eq. cbn. set_solver.
  - by rewrite lookup_insert_ne.
Qed.

Lemma add_readers_all i reads : ∀ acc,
  (∀ k, k ∈ acc.2 → i ∈ default ∅ (acc.1 !! k)) →
  ∀ r, r ∈ reads → rd_Key r ≠ "" →
    i ∈ default ∅ ((foldl (add_reader i) acc reads).1 !! rd_Key r).
Proof.
  induction reads as [|r reads IH]; intros acc Hs x Hx Hne; [by apply elem_of_nil in Hx|].
  cbn [foldl].
  assert (i ∈ default ∅ ((add_reader i acc r).1 !! rd_Key r) ∨ rd_Key r = "") as Hr.
  { destruct acc as [rd seen]. unfold add_reader. cbn in Hs. case_match eqn:E.
    - apply orb_true_iff in E as [E|E]; apply bool_decide_eq_true in E; [by right|left; by apply Hs].
    - left. cbn. rewrite lookup_insert_eq. cbn. set_solver. }
  apply elem_of_cons in Hx as [->|Hx].
  - apply add_readers_keep. by destruct Hr.
  - apply IH; [|done..]. intros k Hk. destruct acc as [rd seen]. unfold add_reader in *. cbn in Hs.
    case_match; [by apply Hs|]. cbn in *. destruct (decide (k = rd_Key r)) as [->|Hkr].
    + rewrite lookup_insert_eq. cbn. set_solver.
    + rewrite lookup_insert_ne by done. apply Hs. set_solver.
Qed.

Lemma indexCapturedReads_frame i reads s :
  let s' := indexCapturedReads i reads s in
  same_but i s s' ∧ sm_slots s' = sm_slots s ∧ sm_scheduler s' = sm_scheduler s ∧
  sm_dependencies s' = sm_dependencies s ∧
  ∀ r, r ∈ reads → rd_Key r ≠ "" → i ∈ default ∅ (sm_readersByKey s' !! rd_Key r).
Proof.
  cbv zeta. unfold indexCapturedReads. set (s1 := clearReadIndex i s).
  pose proof (add_readers_keep i reads (sm_readersByKey s1, [])) as H1.
  pose proof (add_readers_all i reads (sm_readersByKey s1, [])) as H2.
  destruct (foldl (add_reader i) (sm_readersByKey s1, []) reads) as [rd keys]. cbn [fst snd] in H1, H2.
  split_and!; try done.
  - split_and!; try done. intros j k Hj Hin. apply H1. by apply drop_readers_other.
  - intros r Hr Hne. apply H2; [|done..]. by intros k ?%elem_of_nil.
Qed.

(** What a finished execution threatens. *)
Definition published_threat (r : blockSTMTaskResult) : N → string → Prop := λ j key,
  v_Txn (tr_Version r) < j ∧ tr_WroteNewLocation r = true ∧ is_Some (tr_WriteSet r !! key).

Definition record_execution (r : blockSTMTaskResult) (s : stm) : stm :=
  let index := v_Txn (tr_Version r) in
  indexCapturedReads index (tr_Captured r)
    (put_readSet index (tr_ReadSet r) (update_slot index (with_result r) s)).

Lemma inv_record s p r :
  Inv no_threat s → sm_active s !! p = Some (WDone r) → tr_Kind r = TaskExecute →
  tr_Err r = None → tr_Dependency r = None → marking (sm_control s) = false →
  let s0 := set_active (delete p (sm_active s)) s in
  Inv (published_threat r) (record_execution r s0).
Proof.
  intros I Hp Kr Her Hd Hm s0. set (i := v_Txn (tr_Version r)).
  set (w := WDone r). change (sm_active s !! p = Some w) in Hp.
  assert (kind_of w = TaskExecute ∧ txn_of w = i) as [Kw Tw] by done.
  assert (w ∈ sm_active s) as Hw by by eapply list_elem_of_lookup_2.
  pose proof (removed_execution _ _ _ _ I Hp Kw) as Hne. pose proof (executing_no_task _ _ _ I Hw Kw) as Hnt.
  rewrite Tw in Hne, Hnt.
  destruct (i_workers _ _ _ _ _ I w Hw) as (Hi & _ & H). rewrite Kw, Tw in H. rewrite Tw in Hi.
  destruct H as (Einc & Hx & Hwait & Hres). destruct (Hres Her Hd) as [Hitem Hholds]. clear Hres.
  change (entry_at (sm_slots s) i) with (slot_at s i) in *.
  unfold record_execution. fold i.
  set (s1 := put_readSet i (tr_ReadSet r) (update_slot i (with_result r) s0)).
  destruct (indexCapturedReads_frame i (tr_Captured r) s1) as
    ((Em & Ea & Ec & Hrs & Hcnt & Hrd) & Esl & Esc & Edp & Hread).
  set (s2 := indexCapturedReads i (tr_Captured r) s1) in *.
  change (sm_memory s1) with (sm_memory s) in Em.
  change (sm_active s1) with (delete p (sm_active s)) in Ea.
  change (sm_control s1) with (sm_control s) in Ec. change (sm_scheduler s1) with (sm_scheduler s) in Esc.
  change (sm_dependencies s1) with (sm_dependencies s) in Edp.
  change (sm_readersByKey s1) with (sm_readersByKey s) in Hrd.
  change (sm_validatedCount s1) with (sm_validatedCount s) in Hcnt.
  change (sm_slots s1) with (alter (with_result r) (N.to_nat i) (sm_slots s)) in Esl.
  assert (length (sm_readSets s2) = txCount b) as Hrs'.
  { rewrite Hrs. cbn. rewrite length_insert. apply I. }
  clearbody s2. clear Hrs s1.
  assert (sl_validated (slot_at s i) = false) as Hv.
  { pose proof (i_slots _ _ _ _ _ I i Hi) as H. unfold slot_ok in H.
    change (entry_at (sm_slots s) i) with (slot_at s i) in H. rewrite Hx in H. apply H. }
  assert (entry_at (sm_slots s2) i = with_result r (slot_at s i)) as Ei.
  { rewrite Esl, entry_update, decide_True; [done|]. by rewrite (i_length _ _ _ _ _ I). }
  assert (∀ j, j ≠ i → entry_at (sm_slots s2) j = entry_at (sm_slots s) j) as Eo
    by (intros j Hj; rewrite Esl; by apply slot_other).
  apply (inv_update e b base no_threat (published_threat r) s s2 i); rewrite ?Em, ?Ea, ?Ec, ?Esc, ?Edp;
    try done; try apply I.
  - rewrite Esl, length_alter. apply I.
  - change (slot_at s2 i) with (entry_at (sm_slots s2) i). by rewrite Ei.
  - intros x. apply in_delete.
  - intros x Hxa Tx. destruct (elem_of_undeleted _ _ _ _ Hp Hxa) as [->|]; [by rewrite Tw in Tx|done].
  - intros q q' x x' Hq Hq' K K' T.
    eapply (delete_unique (sm_active s) p
      (λ x x', kind_of x = TaskExecute ∧ kind_of x' = TaskExecute ∧ txn_of x = txn_of x'));
      [|exact Hq|exact Hq'|done]. intros ? ? ? ? ? ? (? & ? & ?). by eapply (i_unique _ _ _ _ _ I).
  - intros x Hxa Tx. destruct (i_workers _ _ _ _ _ I x (in_delete _ _ _ Hxa)) as (H1 & H2 & H3).
    split_and!; [done..|]. destruct (kind_of x) eqn:Kx; [by destruct (Hne x)|]. rewrite Tx in *. rewrite Ei.
    change (entry_at (sm_slots s) i) with (slot_at s i) in H3. destruct H3 as [H3 H4].
    split; [exact H3|]. intros E. destruct (H4 E) as [H5 _]. congruence.
  - intros j x Hj [Hc|[[]|[(y & ws & Hy & Py & Ty & Hk)|(r' & ks & E & _)]]]; [by left| |by rewrite E in Hm].
    destruct (elem_of_undeleted _ _ _ _ Hp Hy) as [->|Hy'].
    + right. left. unfold w in Py. cbn in Py. rewrite Kr, Hd, Her in Py. simplify_eq. by split_and!.
    + right. right. left. by exists y, ws.
  - intros _. unfold slot_ok. rewrite Ei. cbn. rewrite Hv. split_and!; try done.
    + intros x Hxr. apply Hread; [done|]. by apply Hitem.
    + intros key. specialize (Hholds key). cbn in Hholds |- *.
      assert (unmarked (sm_control s) i key = true) as -> by (by destruct (sm_control s)).
      fold i in Hholds. rewrite Hholds. destruct (tr_WriteSet r !! key); [|done].
      cbn in Einc |- *. rewrite <- Einc. unfold i. by destruct (tr_Version r).
  - intros j Hj. rewrite (i_incarnations _ _ _ _ _ I j Hj).
    change (slot_at s2 j) with (entry_at (sm_slots s2) j). destruct (decide (j = i)) as [->|]; [by rewrite Ei|].
    by rewrite Eo.
  - intros t Ht. destruct (decide (v_Txn (tk_Version t) = i)) as [Et|]; [right|by left].
    pose proof (Hnt t Ht Et). unfold task_ok. rewrite Et, Ei. cbn. split_and!; [done|lia|]. lia.
  - by destruct (sm_control s).
  - rewrite Hcnt, Esl, count_update by (by rewrite (i_length _ _ _ _ _ I)).
    change (entry_at (sm_slots s) i) with (slot_at s i). cbn. rewrite Hv.
    pose proof (i_count _ _ _ _ _ I) as H. fold (validated_count (sm_slots s)) in H. cbn. lia.
Qed.

(** What resuming waiters leaves alone. *)
Record resumed (s s' : stm) : Prop := {
  rs_control : sm_control s' = sm_control s;
  rs_readers : sm_readersByKey s' = sm_readersByKey s;
  rs_bounded : ∀ n, bounded n s → bounded n s';
}.

#[local] Instance resumed_refl : Reflexive resumed.
Proof. intros s. by split. Qed.

#[local] Instance resumed_trans : Transitive resumed.
Proof. intros s1 s2 s3 [H1 H2 H3] [H4 H5 H6]. split; [congruence|congruence|auto]. Qed.

Lemma inv_resume_waiter G s t :
  Inv G s → marking (sm_control s) = false → tk_Kind t = TaskExecute → tk_Generation t = 0 →
  let s' := resume_waiter s t in Inv G s' ∧ resumed s s'.
Proof.
  intros I Hm Kt Gt s'. unfold s', resume_waiter. clear s'. set (i := v_Txn (tk_Version t)) in *.
  case_match eqn:E; [by split|].
  apply orb_false_iff in E as [E Ei]. apply orb_false_iff in E as [Er Ew].
  apply negb_false_iff in Er, Ew, Ei. apply bool_decide_eq_true in Ei.
  unfold in_range in Er. apply N.ltb_lt in Er. rewrite (i_length _ _ _ _ _ I) in Er.
  destruct (waiting_still G s i I Er Ew) as (Hx & Hne & Hnt).
  assert (sl_validated (slot_at s i) = false) as Hv.
  { pose proof (i_slots _ _ _ _ _ I i Er) as H. unfold slot_ok in H.
    change (entry_at (sm_slots s) i) with (slot_at s i) in H. rewrite Hx in H. apply H. }
  set (f := with_executed false ∘ with_waiting false).
  set (s1 := put_queued i false _).
  assert (sm_slots s1 = alter f (N.to_nat i) (sm_slots s)) as Esl by apply alter_twice.
  destruct (inv_books G s s1 i f) as (I1 & Hne1 & E1); try done; try apply I.
  { intros j. destruct (decide (j = i)) as [Ej|]; [rewrite Ej; by apply I|done]. }
  split.
  - eapply inv_adds; [done|apply adds_resume, I1|].
    unfold task_ok. fold i. change (entry_at (sm_slots s1) i) with (slot_at s1 i). rewrite E1, Kt. cbn.
    rewrite Ei. by split_and!.
  - split; [done|done|]. intros n B.
    apply (bounded_alter n s _ i f); [exact Esl|done|apply B..].
Qed.

Lemma inv_resume_all G l : ∀ s,
  Inv G s → marking (sm_control s) = false →
  (∀ t, t ∈ l → tk_Kind t = TaskExecute ∧ tk_Generation t = 0) →
  let s' := foldl resume_waiter s l in Inv G s' ∧ resumed s s'.
Proof.
  induction l as [|t l IH]; intros s I Hm Hl; [done|]. cbn [foldl].
  destruct (Hl t) as [Kt Gt]; [left|].
  destruct (inv_resume_waiter G s t I Hm Kt Gt) as [I1 R1]. cbv zeta in I1, R1.
  destruct (IH (resume_waiter s t)) as [I2 R2]; [done|by rewrite (rs_control _ _ R1)| |].
  - intros x Hx. apply Hl. by right.
  - split; [done|by etrans].
Qed.

Lemma inv_resolve G i l : ∀ s,
  Inv G s → marking (sm_control s) = false →
  let s' := foldl (resolve_incarnation i) s l in Inv G s' ∧ resumed s s'.
Proof.
  induction l as [|k l IH]; intros s I Hm; [done|]. cbn [foldl].
  set (v := MkVersion i (N.of_nat k)).
  set (s1 := set_dependencies (ResolveTasks v (sm_dependencies s)).1 s).
  destruct (inv_resume_all G (ResolveTasks v (sm_dependencies s)).2 s1) as [I1 R1].
  - apply inv_dependencies; [done|]. cbn. intros d l' t [_ Hl']%lookup_delete_Some. by eapply (i_registry _ _ _ _ _ I).
  - done.
  - cbn. intros t Ht. destruct (dr_waiters (sm_dependencies s) !! v) as [l'|] eqn:E;
      [by eapply (i_registry _ _ _ _ _ I)|by apply elem_of_nil in Ht].
  - cbv zeta in I1, R1. assert (resumed s s1) as R0 by by split.
    destruct (IH _ I1) as [I2 R2]; [by rewrite (rs_control _ _ R1)|]. split; [exact I2|].
    etrans; [exact R0|]. etrans; [exact R1|exact R2].
Qed.

Lemma sorted_elements (X : gset N) i : i ∈ merge_sort N.le (elements X) ↔ i ∈ X.
Proof. by rewrite merge_sort_Permutation, elem_of_elements. Qed.

Lemma sorted_NoDup (X : gset N) : NoDup (merge_sort N.le (elements X)).
Proof. rewrite merge_sort_Permutation. apply NoDup_elements. Qed.

Lemma reader_target s lower ws i key :
  lower < i → is_Some (ws !! key) → i ∈ default ∅ (sm_readersByKey s !! key) →
  i ∈ reader_targets lower ws s.
Proof.
  intros Hl Hk Hi. unfold reader_targets. apply elem_of_filter. split; [done|].
  apply elem_of_union_list. eexists. split; [|exact Hi].
  apply list_elem_of_fmap. exists key. split; [done|]. apply elem_of_elements. by apply elem_of_dom.
Qed.

Lemma inv_invalidate n s r :
  Inv (published_threat r) s → bounded n s → n + 1 < 2 ^ 32 →
  let s' := if tr_WroteNewLocation r
            then invalidateValidationReaders (v_Txn (tr_Version r)) (tr_WriteSet r) s else s in
  Inv no_threat s' ∧ bounded (n + 1) s' ∧ calm s s'.
Proof.
  intros I B Hn. destruct (tr_WroteNewLocation r) eqn:Ew; cbv zeta.
  - unfold invalidateValidationReaders. set (i := v_Txn (tr_Version r)).
    set (l := merge_sort N.le _).
    destruct (inv_revalidate_all (published_threat r) l s I) as (I1 & Q & C & Bg).
    + apply sorted_NoDup.
    + intros j Hj. destruct (B j). unfold max_uint64. lia.
    + cbv zeta in *. set (s' := foldl _ s l) in *. clearbody s'. split_and!; [|split|done].
      * apply (inv_discharge (published_threat r)); [done|]. intros j x Hj Hx (Hl & _ & Hk).
        destruct (sl_executed (slot_at s' j)) eqn:Ex; [|by apply (quiet_unexecuted _ _ _ I1)].
        apply Q, sorted_elements. eapply reader_target; [done..|].
        rewrite <- (ca_readers _ _ C). pose proof (i_slots _ _ _ _ _ I1 j Hj) as H. unfold slot_ok in H.
        change (entry_at (sm_slots s') j) with (slot_at s' j) in H. rewrite Ex in H.
        destruct H as (_ & _ & H & _). by apply H.
      * rewrite (ca_incarnation _ _ C). destruct (B j). lia.
      * specialize (Bg j). destruct (B j). case_decide; lia.
  - split_and!; [|apply (bounded_mono n); [lia|done]|done].
    apply (inv_discharge (published_threat r)); [done|]. intros j x _ _ (_ & H & _). congruence.
Qed.

Lemma bounded_still n s s' : still s s' → bounded n s → bounded n s'.
Proof. intros S B j. unfold slot_at. rewrite (st_slots _ _ S). apply B. Qed.

Lemma inv_process_executed n s p r :
  Inv no_threat s → bounded n s → n + 1 < 2 ^ 32 → sm_active s !! p = Some (WDone r) →
  tr_Kind r = TaskExecute → tr_Err r = None → tr_Dependency r = None → sm_control s = CSelect →
  let s' := process_executed r (set_active (delete p (sm_active s)) s) in
  Inv no_threat s' ∧ bounded (n + 1) s'.
Proof.
  intros I B Hn Hp Kr Her Hd Hct s'. unfold s', process_executed. clear s'.
  set (i := v_Txn (tr_Version r)). set (s0 := set_active _ s).
  assert (marking (sm_control s) = false) as Hm by by rewrite Hct.
  pose proof (inv_record s p r I Hp Kr Her Hd Hm) as I1. cbv zeta in I1.
  unfold record_execution in I1. fold i s0 in I1.
  set (sr := put_readSet i (tr_ReadSet r) (update_slot i (with_result r) s0)) in *.
  destruct (indexCapturedReads_frame i (tr_Captured r) sr) as ((_ & _ & Ec & _) & Esl & _).
  set (s1 := indexCapturedReads i (tr_Captured r) sr) in *.
  assert (bounded n s1) as B1.
  { apply (bounded_alter n s _ i (with_result r)); [exact Esl|done|apply B..]. }
  assert (marking (sm_control s1) = false) as Hm1 by (rewrite Ec; exact Hm).
  clearbody s1. clear Ec Esl sr.
  destruct (inv_resolve _ i (seq 0 (N.to_nat (v_Incarnation (tr_Version r)))) s1 I1 Hm1) as [I2 R2].
  cbv zeta in I2, R2. set (s2 := foldl _ s1 _) in *. clearbody s2.
  pose proof (inv_scheduleValidation _ s2 i I2) as I3. pose proof (still_scheduleValidation i s2) as S3.
  set (s3 := (scheduleValidation i s2).1) in *. clearbody s3.
  destruct (inv_invalidate n s3 r I3) as (I4 & B4 & C4); [|done|].
  { eapply bounded_still; [done|]. by apply (rs_bounded _ _ R2). }
  cbv zeta in *. fold i in I4, B4, C4. set (s4 := if tr_WroteNewLocation r then _ else _) in *.
  clearbody s4. split; [|exact B4]. apply inv_control; [done| |done].
  by rewrite (ca_control _ _ C4), (st_control _ _ S3), (rs_control _ _ R2).
Qed.

(** ** A validation *)

Lemma inv_validated s i :
  Inv no_threat s → i < total → marking (sm_control s) = false →
  sl_executed (slot_at s i) = true → sl_validated (slot_at s i) = false →
  (∀ r, r ∈ sl_captured (slot_at s i) →
     good b base no_threat (sm_memory s) (sm_active s) (sm_control s) i r) →
  Inv no_threat
    (set_validatedCount (sm_validatedCount s + 1) (update_slot i (with_validated true) s)).
Proof.
  intros I Hi Hm Hx Hv Hgood. set (s' := set_validatedCount _ _).
  assert (sm_slots s' = alter (with_validated true) (N.to_nat i) (sm_slots s)) as Esl by done.
  assert (entry_at (sm_slots s') i = with_validated true (slot_at s i)) as Ei.
  { rewrite Esl, entry_update, decide_True; [done|]. by rewrite (i_length _ _ _ _ _ I). }
  assert (∀ j, j ≠ i → entry_at (sm_slots s') j = entry_at (sm_slots s) j) as Eo
    by (intros j Hj; rewrite Esl; by apply slot_other).
  assert (sm_validatedCount s' = sm_validatedCount s + 1)%Z as Hcnt by done.
  assert (sm_memory s' = sm_memory s ∧ sm_active s' = sm_active s ∧ sm_control s' = sm_control s ∧
    sm_readersByKey s' = sm_readersByKey s ∧ sm_scheduler s' = sm_scheduler s ∧
    sm_dependencies s' = sm_dependencies s ∧ sm_readSets s' = sm_readSets s)
    as (Em & Ea & Ect & Erd & Esc & Edp & Ers) by done.
  clearbody s'.
  apply (inv_update e b base no_threat no_threat s s' i); rewrite ?Em, ?Ea, ?Ect, ?Erd, ?Esc, ?Edp, ?Ers;
    try done; try apply I.
  - rewrite Esl, length_alter. apply I.
  - change (slot_at s' i) with (entry_at (sm_slots s') i). by rewrite Ei.
  - intros w Hw Tw. destruct (i_workers _ _ _ _ _ I w Hw) as (H1 & H2 & H3). split_and!; [done..|].
    rewrite Tw, Ei in *. change (entry_at (sm_slots s) i) with (slot_at s i) in H3.
    destruct (kind_of w); [destruct H3 as (_ & H3 & _); congruence|]. destruct H3 as [H3 H4].
    split; [exact H3|]. intros Einc. destruct (H4 Einc) as (H5 & H6 & H7). split_and!; [done..|].
    intros Eg. specialize (H7 Eg). unfold check_ok in *. rewrite Tw, Ei in *. by destruct w.
  - intros _. pose proof (i_slots _ _ _ _ _ I i Hi) as H. unfold slot_ok in *. rewrite Ei.
    change (entry_at (sm_slots s) i) with (slot_at s i) in H. rewrite Hx in H. cbn. rewrite Hx.
    destruct H as (H1 & H2 & H3 & H4 & _). split_and!; [done..|]. intros _. exact Hgood.
  - intros j Hj. rewrite (i_incarnations _ _ _ _ _ I j Hj).
    change (slot_at s' j) with (entry_at (sm_slots s') j). destruct (decide (j = i)) as [->|]; [by rewrite Ei|].
    by rewrite Eo.
  - intros t Ht. destruct (decide (v_Txn (tk_Version t) = i)) as [Et|]; [right|by left].
    destruct (i_tasks _ _ _ _ _ I t Ht) as (H1 & H2 & H3). unfold task_ok. rewrite Et, Ei in *.
    by split_and!.
  - by destruct (sm_control s).
  - rewrite Hcnt, Esl, count_update by (by rewrite (i_length _ _ _ _ _ I)).
    change (entry_at (sm_slots s) i) with (slot_at s i). rewrite Hv.
    pose proof (i_count _ _ _ _ _ I) as H. fold (validated_count (sm_slots s)) in H. cbn. lia.
Qed.

(** The start of the marking. *)
Lemma inv_start_mark s r :
  Inv no_threat s → marking (sm_control s) = false → v_Txn (tr_Version r) < total →
  v_Incarnation (tr_Version r) = sl_incarnation (slot_at s (v_Txn (tr_Version r))) →
  sl_executed (slot_at s (v_Txn (tr_Version r))) = true →
  sl_validated (slot_at s (v_Txn (tr_Version r))) = false →
  Inv no_threat (set_control (CMark r (dom (sl_writeSet (slot_at s (v_Txn (tr_Version r)))))) s).
Proof.
  intros I Hm Hi Einc Hx Hv. set (i := v_Txn (tr_Version r)) in *. set (ks := dom _).
  destruct I. split; try done; cbn.
  - intros j Hj. pose proof (i_slots j Hj) as H. unfold slot_ok in *. case_match; [|done].
    destruct H as (H1 & H2 & H3 & H4 & H5). split_and!; [done..| |].
    + intros key. specialize (H4 key). cbn [v_Txn] in *.
      assert (unmarked (sm_control s) j key = true) as E by (by destruct (sm_control s)).
      rewrite E in H4. destruct (sl_writeSet (entry_at (sm_slots s) j) !! key) as [v|] eqn:Ek; [|done].
      assert (unmarked (CMark r ks) j key = true) as ->; [|done]. unfold unmarked. fold i.
      destruct (decide (i = j)) as [->|Hne].
      * rewrite (bool_decide_eq_true_2 (key ∈ ks)) by (by apply elem_of_dom; eexists). apply orb_true_r.
      * by rewrite (bool_decide_eq_false_2 (i = j)).
    + intros V x Hxr. eapply good_control; [done|auto].
  - intros w Hw. eapply worker_ok_mono; [..|exact (i_workers w Hw)]; [done|].
    intros _ x _. by apply good_control.
Qed.

Lemma inv_process_validation n s r :
  Inv no_threat s → bounded n s → sm_control s = CSelect → v_Txn (tr_Version r) < total →
  v_Incarnation (tr_Version r) = sl_incarnation (slot_at s (v_Txn (tr_Version r))) →
  sl_executed (slot_at s (v_Txn (tr_Version r))) = true →
  sl_validated (slot_at s (v_Txn (tr_Version r))) = false →
  (vr_Valid (tr_Validation r) = true → ∀ x, x ∈ sl_captured (slot_at s (v_Txn (tr_Version r))) →
     good b base no_threat (sm_memory s) (sm_active s) (sm_control s) (v_Txn (tr_Version r)) x) →
  let s' := process_validation r s in Inv no_threat s' ∧ bounded (n + 1) s'.
Proof.
  intros I B Hct Hi Einc Hx Hv Hgood s'. unfold s', process_validation. clear s'.
  set (i := v_Txn (tr_Version r)) in *. set (s1 := put_queued i false s).
  assert (Inv no_threat s1) as I1 by by apply inv_queued.
  assert (marking (sm_control s) = false) as Hm by by rewrite Hct.
  destruct (vr_Valid (tr_Validation r)) eqn:Ev.
  - set (s2 := set_validatedCount _ _). assert (Inv no_threat s2) as I2
      by (apply (inv_validated s1 i); auto).
    destruct (commit_same (tr_Version r) (sm_scheduler s2)) as (O & E1 & E2); [apply I2|]. split.
    + apply inv_control; [|done|done]. apply inv_scheduler; [done..|]. rewrite E2. by left.
    + apply (bounded_mono n); [lia|]. by apply (bounded_alter n s _ i (with_validated true)); [|apply B..].
  - split; [|apply (bounded_mono n); [lia|exact B]].
    apply (inv_start_mark s1 r); try done.
Qed.

(** ** Marking the writes of an aborted execution *)

Lemma inv_mark s r ks key :
  Inv no_threat s → sm_control s = CMark r ks → key ∈ ks →
  Inv no_threat (set_control (CMark r (ks ∖ {[key]}))
    (set_memory (MarkEstimate (sm_memory s) key (tr_Version r)) s)).
Proof.
  intros I Hct Hk. pose proof (i_control _ _ _ _ _ I) as Hc. rewrite Hct in Hc. cbn in Hc.
  set (v := tr_Version r) in *. set (i := v_Txn v) in *.
  change (entry_at (sm_slots s) i) with (slot_at s i) in Hc. destruct Hc as (Hi & Einc & Hx & Hv & Hsub).
  set (m' := MarkEstimate _ _ _). pose proof (i_memory _ _ _ _ _ I) as Hm.
  assert (mv_ok m') as Hm' by by apply mv_ok_upsert.
  assert (∀ k j, latest m' k j = if decide (k = key ∧ j = i) then Some (MkVersioned v "" true)
    else latest (sm_memory s) k j) as Hl.
  { intros k j. apply (latest_upsert (sm_memory s) key (MkVersioned v "" true)); [done|].
    intros y Sy Ty. cbn in *. destruct (i_stored _ _ _ _ _ I key y Sy) as [_ Hle]. rewrite Ty in Hle.
    rewrite Einc. exact Hle. }
  assert (∀ k j, ¬ (k = key ∧ j = i) → latest m' k j = latest (sm_memory s) k j) as Hl'
    by (intros k j Hne; by rewrite Hl, decide_False).
  assert (∀ j x, good b base no_threat (sm_memory s) (sm_active s) (sm_control s) j x →
    good b base no_threat m' (sm_active s) (CMark r (ks ∖ {[key]})) j x) as Hgood.
  { intros j x Hg. destruct (N.lt_ge_cases i j) as [Hij|Hij]; [right; right; right; by repeat eexists|].
    destruct Hg as [Hc|[[]|[?|(r' & ks' & E & Hr)]]]; [|by right; right; left|].
    - left. eapply current_change; [exact Hm|exact Hm'|exact Hl'|by right; right|done].
    - rewrite Hct in E. simplify_eq. change (v_Txn (tr_Version r')) with i in Hr. lia. }
  assert (∀ w, w ∈ sm_active s → kind_of w = TaskExecute → txn_of w ≠ i) as Hne.
  { intros w Hw Kw Tw. destruct (i_workers _ _ _ _ _ I w Hw) as (_ & _ & H). rewrite Kw, Tw in H.
    destruct H as (_ & H & _). unfold slot_at, entry_at in *. congruence. }
  assert (∀ k y, stored m' k y → v_Txn (vv_Version y) < total ∧
    v_Incarnation (vv_Version y) <= sl_incarnation (slot_at s (v_Txn (vv_Version y)))) as Hst.
  { intros k y Sy. apply stored_upsert in Sy as [[-> [->|[Sy _]]]|[_ Sy]];
      [|by eapply (i_stored _ _ _ _ _ I)..|done]. cbn. fold i. split; [done|]. rewrite Einc. done. }
  clearbody m'. destruct I. split; cbn; try done.
  - intros j Hj. pose proof (i_slots j Hj) as H. unfold slot_ok in *. case_match eqn:Ej.
    + destruct H as (H1 & H2 & H3 & H4 & H5). split_and!; [done..| |].
      * intros k. specialize (H4 k). cbn [v_Txn] in *. rewrite Hct in H4. unfold estimated, unmarked in *.
        fold v i in H4 |- *.
        destruct (decide (k = key ∧ j = i)) as [[-> ->]|Hnk].
        -- rewrite bool_decide_eq_true_2 by done. rewrite bool_decide_eq_false_2 by set_solver. cbn.
           rewrite Hl, decide_True by done. destruct (proj1 (elem_of_dom _ _) (Hsub key Hk)) as [x Ex].
           unfold slot_at in Ex. unfold entry_at. rewrite Ex. by eexists.
        -- rewrite Hl' by done. rewrite (bool_decide_ext (k ∈ ks ∖ {[key]}) (k ∈ ks ∧ k ≠ key)) by set_solver.
           destruct (decide (i = j)) as [<-|Hij]; [|rewrite (bool_decide_eq_false_2 (i = j)) in * by done; exact H4].
           rewrite (bool_decide_ext (k ∈ ks ∧ k ≠ key) (k ∈ ks)) by naive_solver. exact H4.
      * intros V x Hxr. apply Hgood. auto.
    + destruct H as [H1 H2]. split; [done|]. intros Hn k. specialize (H2 Hn k). unfold estimated in *.
      assert (j ≠ i) by (intros ->; unfold slot_at, entry_at in *; congruence).
      rewrite Hl' by naive_solver. done.
  - intros w Hw. eapply worker_ok_mono; [..|exact (i_workers w Hw)].
    + intros Kw k. apply Hl'. intros [_ E]. by apply (Hne w Hw Kw).
    + intros _ x _. apply Hgood.
  - fold v i. change (entry_at (sm_slots s) i) with (slot_at s i). split_and!; try done. set_solver.
Qed.

(** What an abort threatens. *)
Definition abort_threat (i : N) : N → string → Prop := λ j _, i < j.

Definition retire (r : blockSTMTaskResult) (s : stm) : stm :=
  let index := v_Txn (tr_Version r) in
  let '(scheduler, next) := Abort (tr_Version r) (sm_scheduler s) in
  let s := set_control CTop (set_scheduler scheduler s) in
  let s := update_slot index (with_incarnation (v_Incarnation next)) s in
  let s := update_slot index (with_generation (u64_add (sl_generation (slot_at s index)) 1)) s in
  let s := update_slot index (with_executed false) s in
  let s := update_slot index (with_waiting false) s in
  let s := put_queued index false s in
  clearReadIndex index s.

Definition retired (inc gen : N) : slot → slot :=
  with_waiting false ∘ (with_executed false ∘ (with_generation gen ∘ with_incarnation inc)).

Lemma retire_frame n s r :
  Inv no_threat s → bounded n s → n + 1 < 2 ^ 32 → v_Txn (tr_Version r) < total →
  v_Incarnation (tr_Version r) = sl_incarnation (slot_at s (v_Txn (tr_Version r))) →
  let i := v_Txn (tr_Version r) in
  let inc := sl_incarnation (slot_at s i) + 1 in
  let s' := retire r s in
  sm_slots s' = alter (retired inc (sl_generation (slot_at s i) + 1)) (N.to_nat i) (sm_slots s) ∧
  sm_memory s' = sm_memory s ∧ sm_active s' = sm_active s ∧ sm_control s' = CTop ∧
  sm_readSets s' = sm_readSets s ∧ sm_validatedCount s' = sm_validatedCount s ∧
  (∀ j key, j ≠ i → j ∈ default ∅ (sm_readersByKey s !! key) →
     j ∈ default ∅ (sm_readersByKey s' !! key)) ∧
  sm_dependencies s' = sm_dependencies s ∧ sc_ok (sm_scheduler s') ∧
  (∀ j, incarnation_of (sm_scheduler s') j =
     if decide (j = i) then inc else incarnation_of (sm_scheduler s) j) ∧
  ∀ t, t ∈ tasks (sm_scheduler s') →
    t ∈ tasks (sm_scheduler s) ∨ t = MkTask TaskExecute (MkVersion i inc) 0.
Proof.
  intros I B Hn Hi Einc i inc s'. unfold s', retire. fold i. clear s'.
  pose proof (abort_spec (tr_Version r) false (sm_scheduler s)) as Ha. unfold Abort.
  destruct (abortLocked (tr_Version r) false (sm_scheduler s)) as [sch next]. cbn in Ha. fold i in Ha, Einc.
  destruct Ha as (-> & O & Hincs & Hts);
    [apply I|by rewrite Einc, (i_incarnations _ _ _ _ _ I)|rewrite Einc; pose proof (proj1 (B i)); lia|].
  rewrite Einc in Hincs, Hts |- *. fold inc in Hincs, Hts |- *. cbn [v_Incarnation].
  set (s1 := set_control CTop _). set (s2 := update_slot i (with_incarnation inc) s1).
  assert (slot_at s2 i = with_incarnation inc (slot_at s i)) as E2.
  { change (slot_at s2 i) with (entry_at (alter (with_incarnation inc) (N.to_nat i) (sm_slots s)) i).
    rewrite entry_update, decide_True; [done|]. by rewrite (i_length _ _ _ _ _ I). }
  rewrite E2. cbn [sl_generation with_incarnation].
  assert (u64_add (sl_generation (slot_at s i)) 1 = sl_generation (slot_at s i) + 1) as ->.
  { unfold u64_add, two64. rewrite N.mod_small; [done|]. pose proof (proj2 (B i)). lia. }
  split_and!; try done.
  - unfold retired. cbn. by rewrite !alter_twice.
  - intros j key Hj. by apply drop_readers_other.
  - intros t Ht. destruct (Hts t Ht) as [|[_ ->]]; [by left|by right].
Qed.

Lemma inv_retire n s r :
  Inv no_threat s → bounded n s → n + 1 < 2 ^ 32 → sm_control s = CMark r ∅ →
  Inv (abort_threat (v_Txn (tr_Version r))) (retire r s) ∧ bounded (n + 1) (retire r s) ∧
  ∀ j, v_Txn (tr_Version r) < j → slot_at (retire r s) j = slot_at s j.
Proof.
  intros I B Hn Hct. pose proof (i_control _ _ _ _ _ I) as Hc. rewrite Hct in Hc. cbn in Hc.
  set (i := v_Txn (tr_Version r)) in *.
  change (entry_at (sm_slots s) i) with (slot_at s i) in Hc. destruct Hc as (Hi & Einc & Hx & Hv & _).
  destruct (retire_frame n s r I B Hn Hi Einc) as
    (Esl & Em & Ea & Ec & Ers & Hcnt & Hrd & Edp & O & Hincs & Hts).
  fold i in Esl, Hrd, Hincs, Hts. set (s' := retire r s) in *. clearbody s'.
  set (inc := sl_incarnation (slot_at s i) + 1) in *. set (f := retired _ _) in *.
  assert (entry_at (sm_slots s') i = f (slot_at s i)) as Ei.
  { rewrite Esl, entry_update, decide_True; [done|]. by rewrite (i_length _ _ _ _ _ I). }
  assert (∀ j, j ≠ i → entry_at (sm_slots s') j = entry_at (sm_slots s) j) as Eo
    by (intros j Hj; rewrite Esl; by apply slot_other).
  assert (∀ w, w ∈ sm_active s → kind_of w = TaskExecute → txn_of w ≠ i) as Hne.
  { intros w Hw Kw Tw. destruct (i_workers _ _ _ _ _ I w Hw) as (_ & _ & H). rewrite Kw, Tw in H.
    destruct H as (_ & H & _). unfold slot_at, entry_at in *. congruence. }
  split_and!.
  - apply (inv_update e b base no_threat (abort_threat i) s s' i); rewrite ?Em, ?Ea, ?Ec, ?Ers, ?Edp;
      try done; try apply I.
    + rewrite Esl, length_alter. apply I.
    + change (slot_at s' i) with (entry_at (sm_slots s') i). rewrite Ei. cbn. lia.
    + intros w Hw Tw. destruct (i_workers _ _ _ _ _ I w Hw) as (H1 & H2 & H3). split_and!; [done..|].
      destruct (kind_of w) eqn:Kw; [by destruct (Hne w)|]. rewrite Tw, Ei in *.
      change (entry_at (sm_slots s) i) with (slot_at s i) in H3. destruct H3 as [H3 _]. cbn. lia.
    + intros j x Hj [Hc|[[]|[?|(r' & ks & E & Hr)]]]; [by left|by right; right; left|].
      rewrite Hct in E. simplify_eq. right. left. exact Hr.
    + intros j key Hj. rewrite Hct. unfold unmarked. fold i. by rewrite (bool_decide_eq_false_2 (i = j)).
    + intros _. pose proof (i_slots _ _ _ _ _ I i Hi) as H. unfold slot_ok in *. rewrite Ei.
      change (entry_at (sm_slots s) i) with (slot_at s i) in H. rewrite Hx, Hct in H. cbn.
      destruct H as (_ & _ & _ & H & _). split; [done|]. intros _ key. specialize (H key).
      cbn [v_Txn] in H. unfold unmarked in H. fold i in H. rewrite bool_decide_eq_true_2 in H by done.
      exact H.
    + intros j Hj. rewrite Hincs. change (slot_at s' j) with (entry_at (sm_slots s') j).
      destruct (decide (j = i)) as [->|]; [by rewrite Ei|]. rewrite Eo by done. by apply I.
    + intros t Ht. destruct (decide (v_Txn (tk_Version t) = i)) as [Et|Het].
      * right. unfold task_ok. rewrite Et, Ei. destruct (Hts t Ht) as [Ht'| ->].
        -- destruct (i_tasks _ _ _ _ _ I t Ht') as (_ & H & _). rewrite Et in H.
           change (entry_at (sm_slots s) i) with (slot_at s i) in H. cbn. split_and!; [done|lia|lia].
        -- cbn. by split_and!.
      * destruct (Hts t Ht) as [| ->]; [by left|done].
    + rewrite Hcnt, Esl, count_update by (by rewrite (i_length _ _ _ _ _ I)).
      change (entry_at (sm_slots s) i) with (slot_at s i). cbn. rewrite Hv.
      pose proof (i_count _ _ _ _ _ I) as H. fold (validated_count (sm_slots s)) in H. cbn. lia.
  - destruct (B i). apply (bounded_alter _ s _ i f Esl); [apply (bounded_mono n); [lia|done]|cbn; lia..].
  - intros j Hj. change (slot_at s' j) with (entry_at (sm_slots s') j). rewrite Eo by lia. done.
Qed.

Lemma inv_abort n s r :
  Inv no_threat s → bounded n s → n + 1 < 2 ^ 32 → sm_control s = CMark r ∅ →
  let s' := abort_execution e b base r s in Inv no_threat s' ∧ bounded (n + 1) s'.
Proof.
  intros I B Hn Hct s'. destruct (inv_retire n s r I B Hn Hct) as (I1 & B1 & Hj).
  set (i := v_Txn (tr_Version r)) in *.
  assert (sm_control (retire r s) = CTop) as Ec.
  { unfold retire. by destruct (Abort (tr_Version r) (sm_scheduler s)). }
  assert (s' = let s2 := foldl (λ s higher, revalidate higher s) (retire r s) (indexes (i + 1) (retire r s)) in
    match incarnation_limit e b base i s2 with
    | Some outcome => set_control (CReturn outcome) s2
    | None => s2
    end) as ->.
  { unfold s', abort_execution, retire. by destruct (Abort (tr_Version r) (sm_scheduler s)). }
  set (s1 := retire r s) in *. clearbody s1. cbv zeta.
  destruct (inv_revalidate_all (abort_threat i) (indexes (i + 1) s1) s1 I1) as (I2 & Q & C & Bg).
  { apply NoDup_indexes. }
  { intros j _. destruct (B1 j). unfold max_uint64. lia. }
  cbv zeta in *. set (s2 := foldl _ s1 _) in *. clearbody s2.
  assert (Inv no_threat s2) as I3.
  { apply (inv_discharge (abort_threat i)); [done|]. intros j x Hjt _ Hij. apply Q, in_indexes.
    unfold abort_threat in Hij. rewrite (i_length _ _ _ _ _ I1). lia. }
  assert (bounded (n + 1) s2) as B2.
  { intros j. rewrite (ca_incarnation _ _ C). split; [apply B1|].
    destruct (N.lt_ge_cases i j) as [Hij|Hij].
    - specialize (Bg j). rewrite (Hj j Hij) in Bg. destruct (B j). case_decide; lia.
    - specialize (Bg j). rewrite decide_False in Bg; [destruct (B1 j); lia|]. rewrite in_indexes. lia. }
  destruct (incarnation_limit e b base i s2); [|done]. split; [|done].
  apply inv_control; [done| |done]. by rewrite (ca_control _ _ C), Ec.
Qed.

(** ** One step *)

Lemma dispatch_slots g s : sm_slots (dispatch g s).1 = sm_slots s.
Proof. unfold dispatch. destruct (Next (sm_scheduler s)) as [sch [task|]]; [|done]. by destruct g. Qed.

Lemma fill_slots g g' s : sm_slots (fill e g g' s) = sm_slots s.
Proof.
  unfold fill. case_match; [|done]. pose proof (dispatch_slots g s) as E1.
  destruct (dispatch g s) as [s1 f1]. cbn [fst] in E1. destruct f1; [done|]. case_match; [|done].
  rewrite <- E1. unfold idle. pose proof (still_ready s1) as S1.
  destruct (scheduleReadyValidations s1) as [s2 f2]. cbn [fst] in S1.
  pose proof (still_foldl schedule_execution (indexes 0 s2) still_execution (s2, f2)) as S2.
  destruct (foldl schedule_execution (s2, f2) (indexes 0 s2)) as [s3 f3]. cbn [fst] in S2.
  rewrite <- (st_slots _ _ S1), <- (st_slots _ _ S2). destruct f3; [|done].
  pose proof (dispatch_slots g' s3) as E3. destruct (dispatch g' s3) as [s4 f4]. cbn [fst] in E3.
  rewrite <- E3. by destruct f4.
Qed.

Lemma not_stale G s r :
  Inv G s → WDone r ∈ sm_active s → tr_Kind r = TaskExecute → stale r s = false.
Proof.
  intros I Hw Kr. set (w := WDone r) in *. set (i := v_Txn (tr_Version r)).
  assert (kind_of w = TaskExecute ∧ txn_of w = i) as [Kw Tw] by done.
  destruct (i_workers _ _ _ _ _ I w Hw) as (Hi & _ & H). rewrite Kw, Tw in H. rewrite Tw in Hi.
  destruct H as (Einc & Hx & _). pose proof (i_slots _ _ _ _ _ I i Hi) as Hs. unfold slot_ok in Hs.
  rewrite Hx in Hs. destruct Hs as [Hv _]. unfold stale. fold i. unfold in_range.
  rewrite (i_length _ _ _ _ _ I). rewrite (proj2 (N.ltb_lt i total)) by done.
  cbn in Einc. change (slot_at s i) with (entry_at (sm_slots s) i). rewrite Hv, Kr, Einc.
  by rewrite bool_decide_eq_true_2.
Qed.

Lemma stale_false r s :
  stale r s = false →
  v_Txn (tr_Version r) < N.of_nat (length (sm_slots s)) ∧
  v_Incarnation (tr_Version r) = sl_incarnation (slot_at s (v_Txn (tr_Version r))) ∧
  (tr_Kind r = TaskValidate → tr_Generation r = sl_generation (slot_at s (v_Txn (tr_Version r)))) ∧
  sl_validated (slot_at s (v_Txn (tr_Version r))) = false.
Proof.
  unfold stale. intros E. apply orb_false_iff in E as [E Ev]. apply orb_false_iff in E as [E Eg].
  apply orb_false_iff in E as [Er Ei]. apply negb_false_iff in Er, Ei.
  apply bool_decide_eq_true in Ei. unfold in_range in Er. apply N.ltb_lt in Er. split_and!; try done.
  intros Kr. rewrite Kr in Eg. cbn in Eg. apply negb_false_iff, bool_decide_eq_true in Eg. done.
Qed.

Lemma inv_step_result n s p s' :
  Inv no_threat s → bounded n s → n + 1 < 2 ^ 32 → sm_control s = CSelect →
  step_result e b base p s = Some s' → Inv no_threat s' ∧ bounded (n + 1) s'.
Proof.
  intros I B Hn Hct H. unfold step_result in H. destruct (sm_active s !! p) as [w|] eqn:Hp; [|done].
  cbn in H. destruct w as [| | | |r]; try done. injection H as <-.
  assert (WDone r ∈ sm_active s) as Hw by by eapply list_elem_of_lookup_2.
  set (s0 := set_active (delete p (sm_active s)) s). set (i := v_Txn (tr_Version r)).
  assert (bounded (n + 1) s0) as B0 by (apply (bounded_mono n); [lia|exact B]).
  assert (marking (sm_control s0) = false) as Hm by (cbn; by rewrite Hct).
  assert (published (WDone r) = None → Inv no_threat s0) as I0 by by eapply inv_remove.
  unfold process_result. destruct (tr_Err r) as [text|] eqn:Her.
  { split; [|exact B0]. apply inv_fail; [|done]. apply I0. cbn. rewrite Her.
    by destruct (tr_Kind r), (tr_Dependency r). }
  destruct (tr_Kind r) eqn:Kr.
  - change (stale r s0) with (stale r s). rewrite (not_stale _ _ _ I Hw Kr).
    destruct (tr_Dependency r) as [d|] eqn:Hd; [|by apply (inv_process_executed n s p r)].
    destruct (i_workers _ _ _ _ _ I _ Hw) as (Hi & _ & H). change (kind_of (WDone r)) with (tr_Kind r) in H.
    rewrite Kr in H. destruct H as (Einc & Hx & _).
    apply (inv_process_dependency n s0 r d); try done.
    + apply I0. cbn. by rewrite Kr, Hd.
    + exact (removed_execution _ _ _ _ I Hp Kr).
    + exact (executing_no_task _ _ _ I Hw Kr).
  - assert (Inv no_threat s0) as I1 by (apply I0; cbn; by rewrite Kr).
    destruct (stale r s0) eqn:Est.
    { split; [by apply inv_control|exact B0]. }
    destruct (stale_false _ _ Est) as (Hi & Einc & Eg & Hv). fold i in Hi, Einc, Eg, Hv.
    rewrite (i_length _ _ _ _ _ I1) in Hi. specialize (Eg Kr).
    destruct (i_workers _ _ _ _ _ I _ Hw) as (_ & _ & H). change (kind_of (WDone r)) with (tr_Kind r) in H.
    rewrite Kr in H. destruct H as [_ H]. destruct (H Einc) as (Hx & _ & Hc). specialize (Hc Eg).
    apply (inv_process_validation n s0 r); try done. intros V x Hxr. eapply good_remove; [exact Hp| |].
    + cbn. by rewrite Kr.
    + by apply Hc.
Qed.

Lemma inv_step n s c s' :
  Inv no_threat s → bounded n s → n + 1 < 2 ^ 32 → step e b base baseCommitment c s = Some s' →
  Inv no_threat s' ∧ bounded (n + 1) s'.
Proof.
  intros I B Hn H.
  assert (bounded (n + 1) s) as B1 by (apply (bounded_mono n); [lia|done]).
  destruct c as [|p key| |g g'|p| |key]; cbn [step] in H.
  - injection H as <-. split; [by apply inv_cancelled|done].
  - split; [by eapply inv_step_worker|]. unfold step_worker in H.
    destruct (sm_active s !! p) as [w|]; [|done]. cbn in H.
    destruct (worker_step _ _ _ _ _ _ _) as [[m w']|]; [|done]. cbn in H. by injection H as <-.
  - destruct (sm_control s) eqn:Hct; try done. injection H as <-. unfold step_top.
    assert (marking (sm_control s) = false) as Hm by by rewrite Hct.
    case_match; [case_match|].
    + split; [by apply inv_fail|done].
    + split; [|exact (bounded_still _ _ _ (still_ready s) B1)].
      apply inv_control; [by apply inv_ready|by rewrite (st_control _ _ (still_ready s))|done].
    + split; [by apply inv_control|done].
  - destruct (sm_control s) eqn:Hct; try done. case_match; [done|]. injection H as <-.
    split; [apply inv_fill; [done|by rewrite Hct]|]. intros j. unfold slot_at. rewrite fill_slots. apply B1.
  - destruct (sm_control s) eqn:Hct; try done. by eapply inv_step_result.
  - destruct (sm_control s) eqn:Hct; try done. case_match; [|done]. injection H as <-.
    split; [apply inv_fail; [done|by rewrite Hct]|done].
  - destruct (sm_control s) as [| | |r ks|] eqn:Hct; try done. case_bool_decide as E.
    + injection H as <-. subst ks. by apply (inv_abort n).
    + case_bool_decide; [|done]. injection H as <-. split; [by apply inv_mark|done].
Qed.

End results.
