(* ===== verification/BlockStmSerial.v ===== *)
(** * What the Block-STM executor returns

    When every transaction is validated, the memory holds the state of the serial
    execution and the books hold its receipts; so the materialised result is the
    serial one. And why else the executor may return. *)
From S2P Require Import Prelude GoStd Tx Block StateRoot MvMemory MvLatest Heap Scheduler Serial SerialProps Footprint BlockStm BlockStmInv BlockStmSteps BlockStmResults.
Local Open Scope N_scope.
#[local] Opaque Sha256.sum256 sha256_hex Json.marshal.

(** ** Keys

    A snapshot holds qualified keys; [logicalSnapshot] drops the shard's prefix
    and [qualify] puts it back. The two fit when no key of the block carries the
    prefix itself and the snapshot has no key that the prefix makes ambiguous. *)

Lemma strip_prefix_Some p : ∀ s r, strip_prefix p s = Some r ↔ s = p +:+ r.
Proof.
  induction p as [|a p IH]; intros s r; simpl.
  - change ("" +:+ r) with r. split; congruence.
  - change (String a p +:+ r) with (String a (p +:+ r)). destruct s as [|c s]; [done|]. destruct (decide (a = c)) as [->|]; [|split; congruence].
    rewrite IH. split; congruence.
Qed.

Definition key_ok (shardID key : string) : bool := negb (has_prefix key (shardID +:+ "::")).

Definition base_key_ok (shardID key : string) : bool :=
  str_contains key "::" &&
  match strip_prefix (shardID +:+ "::") key with
  | Some rest => negb (str_contains rest "::")
  | None => true
  end.

Definition well_keyed (b : Block) (base : gmap string string) : bool :=
  forallb (λ item, forallb (key_ok (ShardID b)) (touched item)) (TxList b) &&
  forallb (base_key_ok (ShardID b)) (map_to_list base).*1.

Lemma append_cons_assoc s t u : (s +:+ t) +:+ u = s +:+ (t +:+ u).
Proof. induction s as [|c s IH]; [done|]. by apply (f_equal (String c)) in IH. Qed.

Lemma qualify_inj shardID k1 k2 :
  key_ok shardID k1 = true → key_ok shardID k2 = true →
  qualify shardID k1 = qualify shardID k2 → k1 = k2.
Proof.
  unfold key_ok, has_prefix. rewrite !negb_true_iff. intros H1 H2. unfold qualify.
  destruct (str_contains k1 "::"), (str_contains k2 "::"); intros E; [done|..].
  - rewrite <- append_cons_assoc in E. apply strip_prefix_Some in E. by rewrite E in H1.
  - rewrite <- append_cons_assoc in E. symmetry in E. apply strip_prefix_Some in E. by rewrite E in H2.
  - by do 2 apply (inj (String.append _)) in E.
Qed.

Lemma logical_key_spec shardID k k1 :
  base_key_ok shardID k1 = true → key_ok shardID k = true →
  logical_key shardID k1 = k ↔ k1 = qualify shardID k.
Proof.
  unfold base_key_ok, key_ok, logical_key, trim_prefix, has_prefix, qualify.
  intros [H1 H2]%andb_true_iff Hk. rewrite negb_true_iff in Hk.
  destruct (strip_prefix (shardID +:+ "::") k1) as [rest|] eqn:Er; cbn.
  - apply strip_prefix_Some in Er as ->. rewrite negb_true_iff in H2. split.
    + intros <-. by rewrite H2, append_cons_assoc.
    + destruct (str_contains k "::").
      * intros <-. by rewrite (proj2 (strip_prefix_Some _ _ rest) eq_refl) in Hk.
      * rewrite <- append_cons_assoc. apply (inj (String.append _)).
  - split.
    + intros ->. by rewrite H1.
    + destruct (str_contains k "::"); [done|]. rewrite <- append_cons_assoc. intros ->.
      by rewrite (proj2 (strip_prefix_Some _ _ k) eq_refl) in Er.
Qed.

Lemma logicalSnapshot_view b base key :
  forallb (base_key_ok (ShardID b)) (map_to_list base).*1 = true → key_ok (ShardID b) key = true →
  default "" (logicalSnapshot (ShardID b) base !! key) = shard_view (ShardID b) base key.
Proof.
  intros Hb Hk. unfold shard_view. f_equal.
  assert (∀ k v, base !! k = Some v → base_key_ok (ShardID b) k = true) as Hok.
  { intros k v Hv. apply (forallb_elem _ _ k Hb). apply list_elem_of_fmap.
    exists (k, v). split; [done|]. by apply elem_of_map_to_list. }
  unfold logicalSnapshot. set (l := _ <$> map_to_list base).
  assert (∀ v, (key, v) ∈ l ↔ base !! qualify (ShardID b) key = Some v) as Hl.
  { intros v. unfold l. rewrite list_elem_of_fmap. split.
    - intros ([k x] & E & Hin%elem_of_map_to_list). cbn in E. injection E as E ->.
      symmetry in E. apply logical_key_spec in E; [|by eapply Hok|done]. by rewrite <- E.
    - intros Hv. exists (qualify (ShardID b) key, v). split; [|by apply elem_of_map_to_list].
      cbn. f_equal. symmetry. apply logical_key_spec; [by eapply Hok|done..]. }
  destruct (base !! qualify (ShardID b) key) as [v|] eqn:E.
  - apply elem_of_list_to_map_1'; [|by apply Hl]. intros y Hy%Hl. congruence.
  - apply not_elem_of_list_to_map_1. intros ([k v] & E' & Hin)%list_elem_of_fmap. cbn in E'. subst k.
    apply Hl in Hin. congruence.
Qed.

(** A program writes the keys it touches. *)
Lemma keys_ok_writes {A} K (p : action A) : ∀ o : store,
  keys_ok K p → (∀ k, is_Some (so_writes o !! k) → K k) →
  ∀ k, is_Some (so_writes (interp p o).1 !! k) → K k.
Proof.
  induction p as [a|key next IH|key value next IH]; intros o Hp Ho k; simpl in *; [auto|..].
  - destruct Hp as [_ Hp]. by apply IH.
  - destruct Hp as [Hk Hp]. apply IH; [done|]. cbn. intros k'. rewrite lookup_insert.
    case_decide as E; [by subst|apply Ho].
Qed.

Lemma tx_run_keys initial b item st k :
  item ∈ TxList b → is_Some (so_writes (tx_run initial b item st).1 !! k) → access_key b k.
Proof.
  intros Hi. apply keys_ok_writes.
  - apply keys_executeTx. intros k' Hk Hne. split; [done|]. by exists item.
  - intros k' [v Hv]. cbn in Hv. by rewrite lookup_empty in Hv.
Qed.

(** A read is not changed by a transaction that has no version. *)
Lemma Read_unwritten m key i bs :
  mv_ok m → latest m key i = None → Read m key (i + 1) bs = Read m key i bs.
Proof.
  intros H Hn. destruct (Read_source m key i bs H) as [(t & x & (Ht & L & Hl) & ->)|[Hl ->]].
  - apply (Read_from _ _ _ _ t); [done|]. split_and!; [lia|done|]. intros j Hj Hji.
    destruct (decide (j = i)) as [->|]; [done|]. apply Hl; lia.
  - apply Read_none; [done|]. intros j Hj. destruct (decide (j = i)) as [->|]; [done|]. apply Hl. lia.
Qed.

Lemma Read_last m key i bs x :
  mv_ok m → latest m key i = Some x → Read m key (i + 1) bs = read_of key x.
Proof.
  intros H L. apply (Read_from _ _ _ _ i); [done|]. split_and!; [lia|done|]. intros j ? ?. lia.
Qed.

Section equivalence.
Context {e : BlockSTMExecutor} {b : Block} {base : gmap string string}.
Context {baseCommitment : option commitmentNode}.

#[local] Abbreviation lb := (logicalBase b base).
#[local] Abbreviation total := (N.of_nat (txCount b)).
#[local] Abbreviation Inv := (Inv e b base).
#[local] Abbreviation initial := (bs_DefaultInitialBalance e).

Lemma access_key_ok k : well_keyed b base = true → access_key b k → key_ok (ShardID b) k = true.
Proof.
  intros [Hw _]%andb_true_iff [_ (item & Hi & Hk)].
  exact (forallb_elem _ _ k (forallb_elem _ _ item Hw Hi) Hk).
Qed.

(** ** The start *)

Lemma inv_initial : total <= 2 ^ 32 → Inv no_threat (initial_stm e b) ∧ bounded 0 (initial_stm e b).
Proof.
  intros Hn. unfold initial_stm. set (sch := newSchedulerWithOrder _ _ _).
  destruct (new_scheduler_fresh (txCount b) (defaultTxnOrder (txCount b))
    (bs_SchedulerMode e ≟ "priority_heap_v1") Hn) as (seen & (O & Ht & Hlt & _ & Hinc) & _).
  fold sch in O, Ht, Hlt, Hinc. clearbody sch.
  assert (∀ j, entry_at (replicate (txCount b) zero_slot) j = zero_slot) as Ez.
  { intros j. unfold entry_at. destruct (replicate _ _ !! _) as [t|] eqn:E; [|done].
    by apply lookup_replicate in E as [-> _]. }
  assert (∀ key j, latest NewMVMemory key j = None) as Hl by done.
  split.
  - split; cbn.
    + apply mv_ok_New.
    + apply length_replicate.
    + apply length_replicate.
    + by intros key y Sy%not_elem_of_nil.
    + done.
    + intros i Hi. unfold incarnation_of, slot_at. cbn. rewrite Hinc, lookup_empty.
      change (default zero_slot _) with (entry_at (replicate (txCount b) zero_slot) i). by rewrite Ez.
    + intros t (txn & Hin & ->)%Ht. unfold task_ok. cbn. rewrite Ez. split_and!; [auto|done|].
      intros _. split_and!; [done..|]. by intros w ?%elem_of_nil.
    + intros d l t Hd. by rewrite lookup_empty in Hd.
    + intros i Hi. unfold slot_ok. rewrite Ez. split; [done|]. intros _ key. done.
    + by intros w ?%elem_of_nil.
    + intros p q w w' Hp. done.
    + done.
    + symmetry. apply Nat2Z.inj_iff with (m := 0%nat). apply length_zero_iff_nil.
      generalize (txCount b). induction n as [|n IH]; [done|].
      rewrite replicate_S, filter_cons. by rewrite decide_False.
  - intros j. change (slot_at _ j) with (entry_at (replicate (txCount b) zero_slot) j). by rewrite Ez.
Qed.

(** ** The end *)

Lemma filter_full {A} (P : A → Prop) `{∀ x, Decision (P x)} l :
  (length l <= length (filter P l))%nat → Forall P l.
Proof.
  induction l as [|x l IH]; intros Hl; [done|]. rewrite filter_cons in Hl.
  pose proof (length_filter P l). case_decide; cbn in Hl; [|lia]. constructor; [done|]. apply IH. lia.
Qed.

Lemma published_kind w ws f : shaped w → published w = Some (ws, f) → kind_of w = TaskExecute.
Proof.
  destruct w; cbn; try done. intros _. unfold kind_of. cbn. by destruct (tr_Kind result).
Qed.

(** The state in which the loop ends. *)
Record settled (s : stm) : Prop := {
  se_inv : Inv no_threat s;
  se_control : marking (sm_control s) = false;
  se_validated : ∀ i, i < total → sl_validated (slot_at s i) = true;
}.

Lemma counted_settled s :
  Inv no_threat s → marking (sm_control s) = false → (Z.of_nat (txCount b) <= sm_validatedCount s)%Z →
  settled s.
Proof.
  intros I Hm Hc. split; [done..|]. intros i Hi.
  rewrite (i_count _ _ _ _ _ I) in Hc. pose proof (i_length _ _ _ _ _ I) as Hl.
  assert (Forall (λ t, sl_validated t = true) (sm_slots s)) as Hf by (eapply filter_full; lia).
  unfold slot_at. destruct (sm_slots s !! N.to_nat i) as [t|] eqn:E; [|apply lookup_ge_None in E; lia].
  exact (Forall_lookup_1 (λ t, sl_validated t = true) _ _ _ Hf E).
Qed.

Lemma settled_slot s i :
  settled s → i < total →
  let t := slot_at s i in
  sl_validated t = true ∧ item_result e b i (sl_captured t) (sl_receipt t) (sl_writeSet t) ∧
  holds (sm_memory s) (MkVersion i (sl_incarnation t)) (sl_writeSet t) ∧
  ∀ r, r ∈ sl_captured t → rd_Value r = rd_Value (Read (sm_memory s) (rd_Key r) i lb).
Proof.
  intros [I Hm Hv] Hi t.
  assert (∀ j, j < total → sl_executed (slot_at s j) = true) as Hx.
  { intros j Hj. pose proof (i_slots _ _ _ _ _ I j Hj) as H. unfold slot_ok in H.
    change (entry_at (sm_slots s) j) with (slot_at s j) in H.
    destruct (sl_executed (slot_at s j)); [done|]. destruct H as [H _]. rewrite Hv in H; done. }
  pose proof (i_slots _ _ _ _ _ I i Hi) as H. unfold slot_ok in H.
  change (entry_at (sm_slots s) i) with t in H. pose proof (Hv i Hi) as Hvi. fold t in Hvi.
  unfold t in H at 1. rewrite (Hx i Hi) in H. destruct H as (_ & Hr & _ & Hh & Hg). split_and!; [done|done| |].
  - intros key. specialize (Hh key). cbn [v_Txn] in *.
    assert (unmarked (sm_control s) i key = true) as E by (by destruct (sm_control s)).
    rewrite E in Hh. destruct (sl_writeSet t !! key); exact Hh.
  - intros r Hin. destruct (Hg Hvi r Hin) as [[_ Hs]|[[]|[(w & ws & Hw & Pw & _)|(r' & ks & E & _)]]].
    + unfold sameRead in Hs. destruct (rd_Value r ≠? _) eqn:Ev; [by rewrite !orb_true_r in Hs|].
      apply negb_false_iff, bool_decide_eq_true in Ev. done.
    + exfalso. destruct (i_workers _ _ _ _ _ I w Hw) as (Hwt & Hsh & H).
      rewrite (published_kind w ws true Hsh Pw) in H. destruct H as (_ & H & _).
      change (entry_at (sm_slots s) (txn_of w)) with (slot_at s (txn_of w)) in H. rewrite Hx in H; done.
    + by rewrite E in Hm.
Qed.

(** Reading the memory is reading the state the earlier transactions left, and
    every execution is the serial one. *)
Lemma settled_serial s :
  settled s → well_keyed b base = true → ∀ n, (n <= txCount b)%nat →
  let st := final initial b (take n (TxList b)) base in
  (∀ key, access_key b key →
     rd_Value (Read (sm_memory s) key (N.of_nat n) lb) = shard_view (ShardID b) st key) ∧
  ∀ item, TxList b !! n = Some item →
    sl_receipt (slot_at s (N.of_nat n)) = (tx_run initial b item st).2 ∧
    sl_writeSet (slot_at s (N.of_nat n)) = so_writes (tx_run initial b item st).1.
Proof.
  intros Se W. pose proof (i_memory _ _ _ _ _ (se_inv _ Se)) as Hm.
  assert (∀ n, (n <= txCount b)%nat → ∀ st,
    (∀ key, access_key b key →
       rd_Value (Read (sm_memory s) key (N.of_nat n) lb) = shard_view (ShardID b) st key) →
    ∀ item, TxList b !! n = Some item →
      sl_receipt (slot_at s (N.of_nat n)) = (tx_run initial b item st).2 ∧
      sl_writeSet (slot_at s (N.of_nat n)) = so_writes (tx_run initial b item st).1) as Hrun.
  { intros n _ st Hst item Hi. assert (N.of_nat n < total) as Hn by (apply lookup_lt_Some in Hi; unfold txCount; lia).
    destruct (settled_slot s (N.of_nat n) Se Hn) as (_ & [Hc (item' & Hi' & Hres)] & _ & Hr).
    rewrite Nat2N.id, Hi in Hi'. injection Hi' as <-.
    destruct (Hres (shard_view (ShardID b) st)) as [E1 E2]; [|by split].
    intros r Hin. destruct (Hc r Hin) as [Hk _]. by rewrite (Hr r Hin), Hst. }
  induction n as [|n IH]; intros Hn st.
  - assert (∀ key, access_key b key →
      rd_Value (Read (sm_memory s) key (N.of_nat 0) lb) = shard_view (ShardID b) st key) as H0.
    { intros key Hk. rewrite Read_none; [|done|intros j Hj; lia]. cbn.
      apply (logicalSnapshot_view b base key); [|by apply access_key_ok].
      by apply andb_true_iff in W as [_ ?]. }
    split; [done|]. by apply Hrun.
  - destruct (IH ltac:(lia)) as [IHv IHr]. clear IH.
    destruct (lookup_lt_is_Some_2 (TxList b) n) as [item Hi]; [unfold txCount in Hn; lia|].
    destruct (IHr item Hi) as [_ Ew]. set (st0 := final initial b (take n (TxList b)) base) in *.
    assert (st = tx_state initial b item st0) as Est.
    { unfold st, st0, final. by rewrite (take_S_r _ _ _ Hi), foldl_app. }
    assert (∀ key, access_key b key →
      rd_Value (Read (sm_memory s) key (N.of_nat (S n)) lb) = shard_view (ShardID b) st key) as Hv.
    { intros key Hk. destruct (settled_slot s (N.of_nat n) Se ltac:(lia)) as (_ & _ & Hh & _).
      specialize (Hh key). rewrite Ew in Hh. cbn [v_Txn] in Hh. rewrite Est. unfold tx_state.
      rewrite shard_view_materialize.
      2: { intros k Hs. apply qualify_inj; (apply access_key_ok; [done|]); [|done].
           eapply tx_run_keys; [by eapply list_elem_of_lookup_2|exact Hs]. }
      rewrite Nat2N.inj_succ, <- N.add_1_r.
      destruct (so_writes (tx_run initial b item st0).1 !! key) as [v|]; cbn in Hh.
      - by rewrite (Read_last _ _ _ _ _ Hm Hh).
      - rewrite Read_unwritten by done. by apply IHv. }
    split; [done|]. by apply Hrun.
Qed.

(** ** Materialisation *)

(** A delta without what was observed: the executors name different sources. *)
Definition without_reads (d : TxDelta) : TxDelta :=
  MkDelta (td_TxID d) (td_OriginalIndex d) [] (td_WriteSet d) (td_Receipt d) (td_Success d)
    (td_Error d).

Lemma foldl_ext_in {A B} (f g : A → B → A) l : ∀ a,
  (∀ a x, x ∈ l → f a x = g a x) → foldl f a l = foldl g a l.
Proof.
  induction l as [|x l IH]; intros a H; [done|]. cbn. rewrite (H a x) by left. apply IH.
  intros. apply H. by right.
Qed.

Lemma qualifyKey_nonempty shardID key : key ≠ "" → qualifyKey shardID key = qualify shardID key.
Proof. intros H. unfold qualifyKey. by rewrite bool_decide_eq_false_2. Qed.

Lemma put_writes_eq writes st :
  (∀ k, is_Some (writes !! k) → k ≠ "") → put_writes b writes st = materialize (ShardID b) writes st.
Proof.
  intros H. apply foldl_ext_in. intros w k Hk%elem_of_sorted_keys. by rewrite qualifyKey_nonempty by auto.
Qed.

Lemma commit_puts_eq writes c :
  (∀ k, is_Some (writes !! k) → k ≠ "") → commit_puts b writes c = commit_writes (ShardID b) writes c.
Proof.
  intros H. apply foldl_ext_in. intros w k Hk%elem_of_sorted_keys. by rewrite qualifyKey_nonempty by auto.
Qed.

(** The books of a block whose transactions all ran as in serial execution. *)
Fixpoint serial_books (items : list SignedTransaction) (slots : list (slot * list ReadObservation))
    (st : gmap string string) : Prop :=
  match items, slots with
  | [], [] => True
  | item :: items, (t, _) :: slots =>
      TxID item ≠ "" ∧ item ∈ TxList b ∧ sl_validated t = true ∧
      sl_receipt t = (tx_run initial b item st).2 ∧
      sl_writeSet t = so_writes (tx_run initial b item st).1 ∧
      serial_books items slots (tx_state initial b item st)
  | _, _ => False
  end.

Lemma receipt_TxID item st : rc_TxID (tx_run initial b item st).2 = TxID item.
Proof. by destruct (tx_run_ok initial b item st) as [[err ->] _]. Qed.

Lemma receipt_success item st root :
  rc_Success (with_root (tx_run initial b item st).2 root) = rc_Success (tx_run initial b item st).2.
Proof. done. Qed.

Lemma ordered_loop_serial items : ∀ slots index st c,
  serial_books items slots st →
  ∃ ds, ordered_loop b index items slots st c =
    inr ((block_loop initial b index items (st, c)).1, ds) ∧
    without_reads <$> ds = without_reads <$> (block_loop initial b index items (st, c)).2 ∧
    td_Receipt <$> ds = td_Receipt <$> (block_loop initial b index items (st, c)).2.
Proof.
  induction items as [|item items IH]; intros [|[t rs] slots] index st c H; cbn [serial_books] in H; try done.
  { by exists []. }
  destruct H as (Hid & Hin & Hv & Hr & Hw & H).
  cbn [ordered_loop block_loop]. rewrite Hv, Hr, Hw, receipt_TxID.
  rewrite (bool_decide_eq_false_2 (TxID item = "")) by done. cbn [negb].
  assert (∀ k, is_Some (so_writes (tx_run initial b item st).1 !! k) → k ≠ "") as Hk
    by (intros k Hs; by apply (tx_run_keys initial b item st k Hin)).
  rewrite put_writes_eq, commit_puts_eq by done. fold (tx_state initial b item st).
  destruct (block_turn_eq initial b index item st c) as [reads ->]. cbv zeta iota.
  destruct (IH slots (index + 1)%Z (tx_state initial b item st)
    (commit_writes (ShardID b) (so_writes (tx_run initial b item st).1) c) H) as (ds & -> & E1 & E2).
  destruct (block_loop _ _ _ _ _) as [wc ds']. cbn in E1, E2 |- *. eexists. split; [done|].
  rewrite !fmap_cons, E1, E2. done.
Qed.

Lemma delta_only_loop_serial items : ∀ slots index st c,
  serial_books items slots st →
  ∃ ds, delta_only_loop index items slots = inr ds ∧
    without_reads <$> ds =
      without_reads ∘ without_root <$> (block_loop initial b index items (st, c)).2.
Proof.
  induction items as [|item items IH]; intros [|[t rs] slots] index st c H; cbn [serial_books] in H; try done.
  { by exists []. }
  destruct H as (Hid & Hin & Hv & Hr & Hw & H).
  cbn [delta_only_loop block_loop]. rewrite Hv, Hr, Hw, receipt_TxID.
  rewrite (bool_decide_eq_false_2 (TxID item = "")) by done. cbn [negb].
  destruct (block_turn_eq initial b index item st c) as [reads ->]. cbv zeta iota.
  destruct (IH slots (index + 1)%Z (tx_state initial b item st)
    (commit_writes (ShardID b) (so_writes (tx_run initial b item st).1) c) H) as (ds & -> & E1).
  destruct (block_loop _ _ _ _ _) as [wc ds']. cbn in E1 |- *. eexists. split; [done|].
  rewrite !fmap_cons, E1. cbn. f_equal. unfold without_reads, without_root, delta_of. cbn.
  by destruct (tx_run_ok initial b item st) as [[err ->] _].
Qed.

Lemma settled_books s :
  settled s → well_keyed b base = true → (∀ item, item ∈ TxList b → TxID item ≠ "") →
  serial_books (TxList b) (zip (sm_slots s) (sm_readSets s)) base.
Proof.
  intros Se W Hid. pose proof (i_length _ _ _ _ _ (se_inv _ Se)) as Hl.
  pose proof (i_readSets _ _ _ _ _ (se_inv _ Se)) as Hr.
  assert (∀ n items slots, (n + length items)%nat = txCount b → items = drop n (TxList b) →
    slots = drop n (zip (sm_slots s) (sm_readSets s)) →
    serial_books items slots (final initial b (take n (TxList b)) base)) as H;
    [|by apply (H 0%nat)].
  intros n items. revert n. induction items as [|item items IH]; intros n slots Hn Ei Es.
  - assert (slots = []) as ->; [|done]. rewrite Es. apply drop_ge. rewrite length_zip, Hl, Hr.
    cbn in Hn. lia.
  - cbn in Hn. assert (TxList b !! n = Some item) as Hi.
    { replace n with (n + 0)%nat by lia. rewrite <- lookup_drop, <- Ei. done. }
    destruct (lookup_lt_is_Some_2 (sm_slots s) n) as [t Ht]; [lia|].
    destruct (lookup_lt_is_Some_2 (sm_readSets s) n) as [rs Hrs]; [lia|].
    assert (zip (sm_slots s) (sm_readSets s) !! n = Some (t, rs)) as Hz
      by (apply lookup_zip_with_Some; eauto).
    assert (slot_at s (N.of_nat n) = t) as Et by (unfold slot_at; by rewrite Nat2N.id, Ht).
    rewrite Es, (drop_S _ _ _ Hz). cbn [serial_books].
    destruct (settled_serial s Se W n ltac:(lia)) as [_ Hrun]. destruct (Hrun item Hi) as [E1 E2].
    rewrite Et in E1, E2. assert (item ∈ TxList b) as Hin by by eapply list_elem_of_lookup_2.
    split_and!; [auto|done| |done|done|].
    + rewrite <- Et. apply (se_validated _ Se). lia.
    + replace (tx_state initial b item (final initial b (take n (TxList b)) base)) with
        (final initial b (take (S n) (TxList b)) base).
      * apply IH; [lia| |done]. rewrite (drop_S _ _ _ Hi) in Ei. by injection Ei.
      * unfold final. by rewrite (take_S_r _ _ _ Hi), foldl_app.
Qed.

(** The two results agree in everything but the executor's name, version, plan and
    worker count, and the sources of the observed reads. *)
Record same_output (r r' : Result) : Prop := {
  so_BlockHash : re_BlockHash r = re_BlockHash r';
  so_Height : re_Height r = re_Height r';
  so_StateRootBefore : re_StateRootBefore r = re_StateRootBefore r';
  so_StateRootAfter : re_StateRootAfter r = re_StateRootAfter r';
  so_ReceiptRoot : re_ReceiptRoot r = re_ReceiptRoot r';
  so_Receipts : re_Receipts r = re_Receipts r';
  so_StateUpdates : re_StateUpdates r = re_StateUpdates r';
  so_StateDelta : re_StateDelta r = re_StateDelta r';
  so_SuccessfulTxs : re_SuccessfulTxs r = re_SuccessfulTxs r';
  so_FailedTxs : re_FailedTxs r = re_FailedTxs r';
  so_TxDeltas : without_reads <$> re_TxDeltas r = without_reads <$> re_TxDeltas r';
}.

Lemma count_reads ds ds' :
  without_reads <$> ds = without_reads <$> ds' →
  count_success ds = count_success ds' ∧ count_failed ds = count_failed ds'.
Proof.
  unfold count_success, count_failed. revert ds'.
  induction ds as [|d ds IH]; intros [|d' ds'] H; try done. rewrite !fmap_cons in H.
  injection H as _ _ _ _ Hs _ H. destruct (IH ds' H) as [E1 E2]. rewrite !filter_cons, Hs.
  destruct (td_Success d'); cbn [decide]; repeat case_decide; cbn [length]; try done; lia.
Qed.

Lemma same_output_oracle r r' : same_output r r' → sameExecutionOutput r' r = true.
Proof.
  intros [E1 E2 E3 E4 E5 E6 E7 E8 E9 E10 _]. unfold sameExecutionOutput.
  rewrite E3, E4, E5, E6, E8, E9, E10. by rewrite !bool_decide_eq_true_2.
Qed.

Lemma finish_block_serial s :
  settled s → well_keyed b base = true → (∀ item, item ∈ TxList b → TxID item ≠ "") →
  baseCommitment = None ∨ baseCommitment = Some (NewCommitment base) →
  initial = NewSerialExecutor →
  ∃ r, finish_block e b base baseCommitment (zip (sm_slots s) (sm_readSets s)) = inr r ∧
    same_output r (ExecuteBlock initial b base).
Proof.
  intros Se W Hid Hc Hinit. unfold finish_block. rewrite <- Hinit.
  assert (CloneOrBuild baseCommitment base = NewCommitment base) as -> by (destruct Hc as [->| ->]; done).
  destruct (ordered_loop_serial (TxList b) _ 0 base (NewCommitment base) (settled_books s Se W Hid))
    as (ds & -> & E1 & E2). cbn [mbind sum_mbind].
  destruct (count_reads _ _ E1) as [C1 C2].
  destruct (block_loop_spec initial b (TxList b) 0 base _ (represents_New base)) as (_ & Hrep & _).
  set (serial := ExecuteBlock initial b base). destruct (block_loop _ _ _ _ _) as [[w c] ds'] eqn:El.
  cbn [fst snd] in *. set (result := MkResult _ _ _ _ _ _ _ _ _ _ _ _ _ _ _ _ _ _).
  assert (same_output result serial) as Hs.
  { unfold serial, ExecuteBlock, ExecuteBlockWithCommitment. cbn [CloneOrBuild]. rewrite El.
    split; cbn; congruence. }
  rewrite (same_output_oracle _ _ Hs), andb_false_r.
  assert (re_StateRootAfter result = Root w) as -> by by apply represents_root.
  rewrite bool_decide_eq_true_2 by done. by exists result.
Qed.

Lemma finish_deltas_serial s :
  settled s → well_keyed b base = true → (∀ item, item ∈ TxList b → TxID item ≠ "") →
  ∃ r, finish_deltas e b (zip (sm_slots s) (sm_readSets s)) = inr r ∧
    without_reads <$> re_TxDeltas r =
      without_reads ∘ without_root <$> re_TxDeltas (ExecuteBlock initial b base).
Proof.
  intros Se W Hid. unfold finish_deltas.
  destruct (delta_only_loop_serial (TxList b) _ 0 base (NewCommitment base) (settled_books s Se W Hid))
    as (ds & -> & E). cbn [mbind sum_mbind]. eexists. split; [done|]. cbn [re_TxDeltas]. rewrite E.
  unfold ExecuteBlock, ExecuteBlockWithCommitment. cbn [CloneOrBuild].
  by destruct (block_loop _ _ _ _ _) as [[w c] ds'].
Qed.

(** ** Outcomes *)

Definition stalled : list string :=
  ["block-stm scheduler stalled on unresolved dependency";
   "block-stm scheduler stalled without runnable work"].

(** Why the executor may return. *)
Inductive returns (s : stm) : string + Result → Prop :=
  | returns_cancelled : sm_cancelled s = true → returns s (inl "context canceled")
  | returns_stalled text : text ∈ stalled → returns s (inl text)
  | returns_limit outcome i s0 : incarnation_limit e b base i s0 = Some outcome → returns s outcome
  | returns_finished s0 : settled s0 → returns s (finish e b base baseCommitment s0).

(** A worker reports no error but a cancellation. *)
Definition errors_ok (s : stm) : Prop :=
  ∀ r text, WDone r ∈ sm_active s → tr_Err r = Some text →
    text = "context canceled" ∧ sm_cancelled s = true.

Definition outcome_ok (s : stm) : Prop := ∀ o, sm_control s = CReturn o → returns s o.

Lemma returns_frame s s' o :
  (sm_cancelled s = true → sm_cancelled s' = true) → returns s o → returns s' o.
Proof.
  intros E H. destruct H; [constructor; auto|by apply returns_stalled|by eapply returns_limit|].
  by apply returns_finished.
Qed.

Lemma worker_errors w c key m m' w' :
  txn_of w < total → worker_step e b base c key m w = Some (m', w') →
  ∀ r text, w' = WDone r → tr_Err r = Some text → text = "context canceled" ∧ c = true.
Proof.
  intros Ht H r text Er Htext.
  destruct w as [input|input o [receipt|k next|k v next]|input o receipt clear rest|input [|x rest]|r'];
    cbn in H; try done.
  - injection H as <- <-. unfold start_task in Er. destruct c; [|exfalso].
    + injection Er as <-. cbn in Htext. split; congruence.
    + destruct (TxList b !! _) as [item|] eqn:Ei.
      * by destruct (tk_Kind (ti_Task input)).
      * apply lookup_ge_None in Ei. unfold txn_of, txCount in Ht. cbn in Ht. lia.
  - injection H as <- <-. destruct (om_dependency o); [|done]. by injection Er as <-.
  - destruct (stmOverlay_get m k o). by injection H as <- <-.
  - by injection H as <- <-.
  - repeat (case_bool_decide; try done).
    + injection H as <- <-. by injection Er as <-.
    + destruct (rest !! key); [|done]. cbn in H. by injection H as <- <-.
    + by injection H as <- <-.
  - injection H as <- <-. by injection Er as <-.
  - injection H as <- <-. unfold check_read in Er. repeat case_match; try done; by injection Er as <-.
Qed.

Lemma errors_less s s' :
  (∀ r, WDone r ∈ sm_active s' → WDone r ∈ sm_active s) → sm_cancelled s' = sm_cancelled s →
  errors_ok s → errors_ok s'.
Proof. intros Ha Ec H r text Hr Ht. rewrite Ec. eapply H; [by apply Ha|done]. Qed.

Lemma dispatch_done g s r : WDone r ∈ sm_active (dispatch g s).1 → WDone r ∈ sm_active s.
Proof.
  unfold dispatch. destruct (Next (sm_scheduler s)) as [sch [task|]]; [|done]. destruct g; [done|].
  cbn. intros [?|H%list_elem_of_singleton]%elem_of_app; done.
Qed.

Lemma dispatch_cancelled g s : sm_cancelled (dispatch g s).1 = sm_cancelled s.
Proof. unfold dispatch. destruct (Next (sm_scheduler s)) as [sch [task|]]; [|done]. by destruct g. Qed.

(** What filling does to workers, control and context. *)
Record filled_to (s s' : stm) : Prop := {
  fl_done : ∀ r, WDone r ∈ sm_active s' → WDone r ∈ sm_active s;
  fl_cancelled : sm_cancelled s' = sm_cancelled s;
  fl_control : ∀ o, sm_control s' = CReturn o → sm_control s = CReturn o ∨ ∃ t, o = inl t ∧ t ∈ stalled;
}.

Lemma fill_filled g g' s : filled_to s (fill e g g' s).
Proof.
  unfold fill. case_match; [|by split; [| |intros o; cbn]].
  pose proof (dispatch_done g s) as D1. pose proof (dispatch_cancelled g s) as C1.
  destruct (dispatch_frame g s) as [F1 _]. destruct (dispatch g s) as [s1 f1]. cbn [fst] in *.
  destruct f1; [split; [auto|done|intros o; rewrite F1; by left]|].
  case_match; [|by split; [auto|done|intros o; cbn]].
  unfold idle. pose proof (still_ready s1) as S1.
  destruct (scheduleReadyValidations s1) as [s2 f2]. cbn [fst] in S1.
  pose proof (still_foldl schedule_execution (indexes 0 s2) still_execution (s2, f2)) as S2.
  destruct (foldl schedule_execution (s2, f2) (indexes 0 s2)) as [s3 f3]. cbn [fst] in S2.
  assert (∀ r, WDone r ∈ sm_active s3 → WDone r ∈ sm_active s) as D3.
  { intros r. rewrite (st_active _ _ S2), (st_active _ _ S1). apply D1. }
  assert (sm_cancelled s3 = sm_cancelled s) as C3
    by (rewrite (st_cancelled _ _ S2), (st_cancelled _ _ S1); exact C1).
  assert (∀ s' o, sm_control (fail (if stalled_on s' then
      "block-stm scheduler stalled on unresolved dependency"
    else "block-stm scheduler stalled without runnable work") s') = CReturn o →
    ∃ t, o = inl t ∧ t ∈ stalled) as Hf.
  { intros s' o E. cbn in E. injection E as <-. eexists. split; [done|].
    destruct (stalled_on s'); unfold stalled; set_solver. }
  destruct f3; [|split; [auto|done|right; by eapply Hf]].
  pose proof (dispatch_done g' s3) as D4. pose proof (dispatch_cancelled g' s3) as C4.
  destruct (dispatch g' s3) as [s4 f4]. cbn [fst] in *.
  destruct f4; split; try (intros r Hr; apply D3, D4, Hr); try (cbn; congruence).
  right. by eapply Hf.
Qed.

(** Operations on the books touch neither workers nor context nor control. *)
Definition keeps (s s' : stm) : Prop :=
  sm_active s' = sm_active s ∧ sm_cancelled s' = sm_cancelled s ∧ sm_control s' = sm_control s.

#[local] Instance keeps_refl : Reflexive keeps.
Proof. intros s. by split_and!. Qed.

#[local] Instance keeps_trans : Transitive keeps.
Proof. intros s1 s2 s3 (? & ? & ?) (? & ? & ?). split_and!; congruence. Qed.

Lemma keeps_foldl {A} (f : stm → A → stm) l :
  (∀ s x, keeps s (f s x)) → ∀ s, keeps s (foldl f s l).
Proof. intros H. induction l as [|x l IH]; intros s; [done|]. cbn. etrans; [apply H|apply IH]. Qed.

Lemma keeps_scheduleValidation i s : keeps s (scheduleValidation i s).1.
Proof. destruct (still_scheduleValidation i s). by split_and!. Qed.

Lemma keeps_revalidate i s : keeps s (revalidate i s).
Proof.
  unfold revalidate. case_match; [done|]. etrans; [|apply keeps_scheduleValidation].
  by destruct (sl_validated (slot_at s i)).
Qed.

Lemma keeps_resolve i s n : keeps s (resolve_incarnation i s n).
Proof.
  unfold resolve_incarnation. cbn. etrans; [|apply keeps_foldl]; [done|].
  intros s' t. unfold resume_waiter. by case_match.
Qed.

Lemma keeps_index i reads s : keeps s (indexCapturedReads i reads s).
Proof. unfold indexCapturedReads. by destruct (foldl _ _ _). Qed.

Lemma process_result_frame r s :
  sm_control s = CSelect → (∀ text, tr_Err r = Some text → text = "context canceled" ∧ sm_cancelled s = true) →
  let s' := process_result e b base r s in
  sm_active s' = sm_active s ∧ sm_cancelled s' = sm_cancelled s ∧ outcome_ok s'.
Proof.
  intros Hct Herr s'. unfold s', process_result. clear s'. destruct (tr_Err r) as [text|].
  { destruct (Herr text eq_refl) as [-> Hc]. split_and!; try done. intros o E. injection E as <-.
    by apply returns_cancelled. }
  assert (∀ x, sm_active x = sm_active s → sm_cancelled x = sm_cancelled s → sm_control x = CTop →
    sm_active x = sm_active s ∧ sm_cancelled x = sm_cancelled s ∧ outcome_ok x) as Htop.
  { intros x ? ? E. split_and!; try done. intros o E'. congruence. }
  case_match; [by apply Htop|]. destruct (tr_Kind r).
  - destruct (tr_Dependency r) as [d|].
    + unfold process_dependency. repeat (case_match; [by apply Htop|]).
      destruct (AbortAndWait _ _) as [sch next]. set (s1 := update_slot _ _ _).
      destruct (incarnation_limit e b base (v_Txn (tr_Version r)) s1) as [o|] eqn:El; [|by apply Htop].
      split_and!; try done. intros o' E. injection E as <-. by eapply returns_limit.
    + unfold process_executed. set (i := v_Txn (tr_Version r)).
      set (s1 := put_readSet _ _ _). set (s2 := indexCapturedReads _ _ _). set (s3 := foldl _ s2 _).
      set (s4 := (scheduleValidation i s3).1). set (s5 := if tr_WroteNewLocation r then _ else _).
      assert (keeps s s5) as (K1 & K2 & _); [|by apply Htop].
      transitivity s1; [done|]. transitivity s2; [apply keeps_index|].
      transitivity s3; [apply keeps_foldl, keeps_resolve|].
      transitivity s4; [apply keeps_scheduleValidation|]. unfold s5. case_match; [|done].
      apply keeps_foldl. intros. apply keeps_revalidate.
  - unfold process_validation. case_match; [by apply Htop|by split_and!].
Qed.

Lemma abort_frame r s :
  let s' := abort_execution e b base r s in
  sm_active s' = sm_active s ∧ sm_cancelled s' = sm_cancelled s ∧ outcome_ok s'.
Proof.
  cbv zeta. unfold abort_execution. destruct (Abort _ _) as [sch next].
  set (i := v_Txn (tr_Version r)). set (s1 := clearReadIndex _ _). set (s2 := foldl _ s1 _).
  assert (keeps s1 s2) as (K1 & K2 & K3).
  { apply keeps_foldl. intros. apply keeps_revalidate. }
  change (sm_active s1) with (sm_active s) in K1. change (sm_cancelled s1) with (sm_cancelled s) in K2.
  change (sm_control s1) with CTop in K3. clearbody s2.
  destruct (incarnation_limit e b base i s2) as [o|] eqn:El.
  - split_and!; try done. intros o' E. injection E as <-. by eapply returns_limit.
  - split_and!; try done. intros o E. congruence.
Qed.

Lemma outcome_step s c s' :
  Inv no_threat s → errors_ok s → outcome_ok s → step e b base baseCommitment c s = Some s' →
  errors_ok s' ∧ outcome_ok s' ∧ (sm_cancelled s' = true → sm_cancelled s = true ∨ c = ChCancel).
Proof.
  intros I He Ho H. destruct c as [|p key| |g g'|p| |key]; cbn [step] in H.
  - injection H as <-. split_and!; [| |by right].
    + intros r text Hr Ht. split; [|done]. by eapply He.
    + intros o E. by eapply returns_frame; [|apply Ho].
  - unfold step_worker in H. destruct (sm_active s !! p) as [w|] eqn:Hp; [|done]. cbn in H.
    destruct (worker_step e b base (sm_cancelled s) key (sm_memory s) w) as [[m w']|] eqn:Hw; [|done].
    cbn in H. injection H as <-. destruct (i_workers _ _ _ _ _ I w) as (Ht & _);
      [by eapply list_elem_of_lookup_2|]. split_and!; [| |by left].
    + intros r text Hr Htext. destruct (elem_replace _ _ _ _ _ Hp Hr) as [E|(q & _ & Hq)].
      * by eapply worker_errors.
      * eapply He; [by eapply list_elem_of_lookup_2|done].
    + intros o E. eapply returns_frame; [|by apply Ho]. done.
  - destruct (sm_control s) eqn:Hct; try done. injection H as <-. unfold step_top.
    case_match eqn:Ec; [case_match eqn:Ecc|].
    + split_and!; [done| |by left]. intros o E. injection E as <-. by constructor.
    + destruct (still_ready s) as [_ _ Ea _ _ Ek]. split_and!; [| by intros o E|].
      * eapply errors_less; [| |exact He]; [|exact Ek]. intros r Hr. rewrite <- Ea. exact Hr.
      * intros Hc. change (sm_cancelled (scheduleReadyValidations s).1 = true) in Hc. congruence.
    + split_and!; [done| |by left]. intros o E. injection E as <-. apply returns_finished.
      apply counted_settled; [done|by rewrite Hct|]. apply Z.ltb_ge in Ec. done.
  - destruct (sm_control s) eqn:Hct; try done. case_match; [done|]. injection H as <-.
    destruct (fill_filled g g' s) as [F1 F2 F3]. split_and!; [by eapply errors_less| |rewrite F2; by left].
    intros o E. destruct (F3 o E) as [E'|(t & -> & Ht)]; [congruence|by constructor].
  - destruct (sm_control s) eqn:Hct; try done. unfold step_result in H.
    destruct (sm_active s !! p) as [w|] eqn:Hp; [|done]. cbn in H. destruct w; try done. injection H as <-.
    destruct (process_result_frame result (set_active (delete p (sm_active s)) s)) as (F1 & F2 & F3);
      [done| |]. { intros text. apply He. by eapply list_elem_of_lookup_2. }
    split_and!; [|done|rewrite F2; by left]. eapply errors_less; [| |exact He]; [|done].
    rewrite F1. intros r. apply in_delete.
  - destruct (sm_control s) eqn:Hct; try done. case_match eqn:Ec; [|done]. injection H as <-.
    split_and!; [done| |by left]. intros o E. injection E as <-. by constructor.
  - destruct (sm_control s) as [| | |r ks|] eqn:Hct; try done. case_bool_decide as E.
    + injection H as <-. destruct (abort_frame r s) as (F1 & F2 & F3).
      split_and!; [|done|rewrite F2; by left]. eapply errors_less; [| |exact He]; [by rewrite F1|done].
    + case_bool_decide; [|done]. injection H as <-. split_and!; [done|by intros o|by left].
Qed.

End equivalence.
