(* ===== verification/BlockStmLive.v ===== *)
(** * The Block-STM coordinator never runs dry

    A transaction that waits for an ESTIMATE waits for a lower transaction that
    is still to be executed again; a validation that is marked as queued is in
    the queue or with a worker. So as long as a transaction is not validated,
    there is a task to hand out. *)
From S2P Require Import Prelude GoStd Tx Block StateRoot MvMemory MvLatest Heap Scheduler Serial SerialProps Footprint BlockStm BlockStmInv BlockStmSteps BlockStmResults BlockStmSerial.
Local Open Scope N_scope.
#[local] Opaque Sha256.sum256 sha256_hex Json.marshal.

(** ** The scheduler loses no task *)

Record grows (s s' : Scheduler) : Prop := {
  gr_ok : sc_ok s';
  gr_tasks : ∀ t, t ∈ tasks s → t ∈ tasks s';
  gr_status : ∀ i, sc_statuses s' !! i = Some StatusWaiting → sc_statuses s !! i = Some StatusWaiting;
  gr_incarnation : sc_incarnation s' = sc_incarnation s;
}.

Lemma grows_of s s' j : grows s s' → incarnation_of s' j = incarnation_of s j.
Proof. intros H. unfold incarnation_of. by rewrite (gr_incarnation _ _ H). Qed.

Lemma grows_refl s : sc_ok s → grows s s.
Proof. by split. Qed.

Lemma grows_enqueue t txn st s :
  sc_ok s → st ≠ StatusWaiting →
  let s' := set_status txn st (enqueueLocked t s) in
  grows s s' ∧ t ∈ tasks s' ∧ sc_statuses s' !! txn ≠ Some StatusWaiting.
Proof.
  intros H Hst s'. destruct (enqueue_spec t s H) as (O & _ & V & T). split_and!; [split|..].
  - by apply sc_ok_status.
  - intros x Hx. unfold s'. rewrite tasks_set_status, T. by right.
  - intros i. cbn. rewrite lookup_insert. apply (f_equal (λ v, v.1.1.1)) in V. cbn in V.
    case_decide; [|by rewrite V]. intros E. by injection E.
  - by apply (f_equal (λ v, v.1.1.2)) in V.
  - unfold s'. rewrite tasks_set_status, T. by left.
  - cbn. rewrite lookup_insert_eq. intros E. by injection E.
Qed.

Lemma grows_validation v g s :
  sc_ok s → v_Incarnation v = incarnation_of s (v_Txn v) →
  grows s (ScheduleValidationGeneration v g s) ∧
  MkTask TaskValidate v g ∈ tasks (ScheduleValidationGeneration v g s).
Proof.
  intros H E. unfold ScheduleValidationGeneration. rewrite E, bool_decide_eq_true_2 by done. cbn [negb].
  by destruct (grows_enqueue (MkTask TaskValidate v g) (v_Txn v) StatusValidating s H) as (? & ? & _).
Qed.

Lemma grows_execution v s :
  sc_ok s → v_Incarnation v = incarnation_of s (v_Txn v) →
  grows s (ScheduleExecution v s) ∧ MkTask TaskExecute v 0 ∈ tasks (ScheduleExecution v s) ∧
  sc_statuses (ScheduleExecution v s) !! v_Txn v ≠ Some StatusWaiting.
Proof.
  intros H E. unfold ScheduleExecution. rewrite E, bool_decide_eq_true_2 by done. cbn [negb].
  by apply grows_enqueue.
Qed.

Lemma grows_resume t s :
  sc_ok s → v_Incarnation (tk_Version t) = incarnation_of s (v_Txn (tk_Version t)) →
  grows s (ResumeTask t s) ∧ sc_statuses (ResumeTask t s) !! v_Txn (tk_Version t) ≠ Some StatusWaiting.
Proof.
  intros H E. unfold ResumeTask. rewrite E, bool_decide_eq_true_2 by done. cbn [negb].
  case_bool_decide as Es; [by split; [apply grows_refl|]|].
  destruct (grows_enqueue t (v_Txn (tk_Version t))
    (match tk_Kind t with TaskValidate => StatusValidating | TaskExecute => StatusPending end) s H)
    as (? & _ & ?); [by destruct (tk_Kind t)|done].
Qed.

Lemma grows_commit v s : sc_ok s → grows s (SchedulerCommit v s).
Proof.
  intros H. unfold SchedulerCommit. case_match; [|by apply grows_refl]. split; try done.
  - by apply sc_ok_status.
  - intros i. cbn. rewrite lookup_insert. destruct (decide (v_Txn v = i)); [discriminate|done].
Qed.

(** ** The invariant *)

Definition dependency_of (w : worker) : option Version :=
  match w with
  | WRun _ o _ => om_dependency o
  | WDone r => tr_Dependency r
  | _ => None
  end.

Section live.
Context {e : BlockSTMExecutor} {b : Block} {base : gmap string string}.
Context {baseCommitment : option commitmentNode}.

#[local] Abbreviation total := (N.of_nat (txCount b)).
#[local] Abbreviation Inv := (Inv e b base).

Definition present (s : stm) (t : SchedulerTask) : Prop :=
  t ∈ tasks (sm_scheduler s) ∨ ∃ w, w ∈ sm_active s ∧ task_of w = t.

Definition validation_of (s : stm) (i : N) : SchedulerTask :=
  MkTask TaskValidate (version_at s i) (sl_generation (slot_at s i)).

(** The version will be replaced: its transaction is past it, or being aborted. *)
Definition superseded (s : stm) (v : Version) : Prop :=
  v_Incarnation v < sl_incarnation (slot_at s (v_Txn v)) ∨
  ∃ r ks, sm_control s = CMark r ks ∧ tr_Version r = v.

(** What a waiting transaction waits for. *)
Definition pending (s : stm) (i : N) (d : Version) : Prop :=
  v_Txn d < i ∧ v_Incarnation d < sl_incarnation (slot_at s (v_Txn d)) ∧
  sl_executed (slot_at s (v_Txn d)) = false.

Definition waiters (s : stm) (d : Version) : list SchedulerTask :=
  default [] (dr_waiters (sm_dependencies s) !! d).

(** [X] holds of the tasks that are about to be resumed. *)
Record Live (X : SchedulerTask → Prop) (s : stm) : Prop := {
  l_status : ∀ i, i < total → sc_statuses (sm_scheduler s) !! i = Some StatusWaiting →
    sl_waiting (slot_at s i) = true;
  l_queued : ∀ i, i < total → queued_at s i = true →
    sl_executed (slot_at s i) = true ∧ sl_validated (slot_at s i) = false ∧ present s (validation_of s i);
  l_seen : ∀ d t, t ∈ default ∅ (dr_seen (sm_dependencies s) !! d) → t ∈ waiters s d;
  l_waiting : ∀ i, i < total → sl_waiting (slot_at s i) = true →
    X (MkTask TaskExecute (version_at s i) 0) ∨
    ∃ d, MkTask TaskExecute (version_at s i) 0 ∈ waiters s d ∧ pending s i d;
  l_estimates : ∀ key y, stored (sm_memory s) key y → vv_Estimate y = true →
    superseded s (vv_Version y);
  l_dependencies : ∀ w d, w ∈ sm_active s → dependency_of w = Some d →
    v_Txn d < txn_of w ∧ superseded s d;
  l_fill : sm_control s = CFill → (sm_validatedCount s < Z.of_nat (txCount b))%Z;
  l_running : ∀ o, sm_control s ≠ CReturn o;
}.

Definition nobody : SchedulerTask → Prop := λ _, False.

(** How the executor returns when it is not cancelled. *)
Inductive answers : string + Result → Prop :=
  | answers_limit outcome i s : incarnation_limit e b base i s = Some outcome → answers outcome
  | answers_finished s : settled (e := e) (b := b) (base := base) s →
      answers (finish e b base baseCommitment s).

Definition answered (s : stm) : Prop := ∃ o, sm_control s = CReturn o ∧ answers o.

(** What the operations on the scheduler rely on. *)
Definition synced (s : stm) : Prop :=
  sc_ok (sm_scheduler s) ∧ length (sm_slots s) = txCount b ∧
  ∀ i, i < total → incarnation_of (sm_scheduler s) i = sl_incarnation (slot_at s i).

Lemma inv_synced G s : Inv G s → synced s.
Proof. intros I. split_and!; apply I. Qed.

Lemma queued_put i v s j :
  queued_at (put_queued i v s) j = true → (j = i ∧ v = true) ∨ (j ≠ i ∧ queued_at s j = true).
Proof.
  unfold queued_at. cbn. destruct (decide (j = i)) as [->|Hne].
  - intros E. left. split; [done|]. destruct (<[N.to_nat i:=v]> (sm_validationQueued s) !! N.to_nat i) eqn:El;
      [|done]. cbn in E. subst. apply list_lookup_insert_Some in El as [(_ & <- & _)|[Hn _]]; [done|lia].
  - rewrite list_lookup_insert_ne by lia. auto.
Qed.

(** A field that an update of a slot does not touch. *)
Lemma field_update {A} (g : slot → A) f i s j :
  (∀ t, g (f t) = g t) → g (slot_at (update_slot i f s) j) = g (slot_at s j).
Proof.
  intros H. change (slot_at (update_slot i f s) j) with (entry_at (alter f (N.to_nat i) (sm_slots s)) j).
  rewrite entry_update. case_decide as E; [destruct E as [-> _]; apply H|done].
Qed.

Lemma slot_elsewhere i f s j : j ≠ i → slot_at (update_slot i f s) j = slot_at s j.
Proof. intros H. exact (slot_other i f (sm_slots s) j H). Qed.

(** Steps of the coordinator that move no execution. *)
Lemma live_transfer X s s' :
  Live X s → sm_memory s' = sm_memory s → sm_dependencies s' = sm_dependencies s →
  sm_active s' = sm_active s → sm_control s' = sm_control s →
  (sm_control s = CFill → (sm_validatedCount s' <= sm_validatedCount s)%Z) →
  grows (sm_scheduler s) (sm_scheduler s') →
  (∀ j, sl_incarnation (slot_at s' j) = sl_incarnation (slot_at s j) ∧
     sl_executed (slot_at s' j) = sl_executed (slot_at s j) ∧
     sl_waiting (slot_at s' j) = sl_waiting (slot_at s j)) →
  (∀ j, j < total → queued_at s' j = true →
     (queued_at s j = true ∧ slot_at s' j = slot_at s j) ∨
     (sl_executed (slot_at s' j) = true ∧ sl_validated (slot_at s' j) = false ∧
      present s' (validation_of s' j))) →
  Live X s'.
Proof.
  intros L Em Ed Ea Ec Hc Gr Hs Hq.
  assert (∀ v, superseded s v → superseded s' v) as Hsup.
  { intros v [H|H]; [left; by rewrite (proj1 (Hs _))|right; by rewrite Ec]. }
  destruct L. split.
  - intros j Hj Hst. rewrite (proj2 (proj2 (Hs j))). apply l_status0; [done|]. by apply (gr_status _ _ Gr).
  - intros j Hj Hqj. destruct (Hq j Hj Hqj) as [[Hqs Es]|]; [|done].
    destruct (l_queued0 j Hj Hqs) as (H1 & H2 & H3). rewrite Es. split_and!; [done..|].
    unfold validation_of, version_at. rewrite Es. fold (version_at s j). fold (validation_of s j).
    destruct H3 as [H3|H3]; [left; by apply (gr_tasks _ _ Gr)|right; by rewrite Ea].
  - unfold waiters. by rewrite Ed.
  - intros j Hj Hw. rewrite (proj2 (proj2 (Hs j))) in Hw. destruct (l_waiting0 j Hj Hw) as [HX|(d & H1 & H2 & H3 & H4)].
    { left. unfold version_at. by rewrite (proj1 (Hs j)). }
    right. exists d. unfold waiters, version_at, pending. rewrite Ed, (proj1 (Hs j)), (proj1 (Hs (v_Txn d))),
      (proj1 (proj2 (Hs (v_Txn d)))). by split_and!.
  - intros key y Hy He. apply Hsup. rewrite Em in Hy. by eapply l_estimates0.
  - intros w d Hw Hd. rewrite Ea in Hw. destruct (l_dependencies0 w d Hw Hd). by split; [|apply Hsup].
  - intros Hf. rewrite Ec in Hf. specialize (l_fill0 Hf). specialize (Hc Hf). lia.
  - by rewrite Ec.
Qed.

Lemma live_scheduleValidation X s i :
  synced s → Live X s → Live X (scheduleValidation i s).1 ∧ synced (scheduleValidation i s).1.
Proof.
  intros (O & Hl & Hinc) L. unfold scheduleValidation. case_match eqn:E; [done|]. cbn [fst].
  apply orb_false_iff in E as [E Eq]. apply orb_false_iff in E as [E Ew].
  apply orb_false_iff in E as [E Ex]. apply orb_false_iff in E as [Er Ev].
  apply negb_false_iff in Er, Ex. unfold in_range in Er. apply N.ltb_lt in Er. rewrite Hl in Er.
  set (s1 := put_queued i true s).
  destruct (grows_validation (version_at s1 i) (sl_generation (slot_at s i)) (sm_scheduler s1))
    as [Gr Hin]; [done|by symmetry; apply Hinc|].
  split.
  - apply (live_transfer X s); try done.
    intros j Hj [[-> _]|[Hne Hq]]%queued_put; [right; by split_and!; [| |left]|by left].
  - split_and!; [apply Gr|done|]. intros j Hj. etrans; [exact (grows_of _ _ j Gr)|by apply Hinc].
Qed.

Lemma live_revalidate X s i : synced s → Live X s → Live X (revalidate i s) ∧ synced (revalidate i s).
Proof.
  intros Sy L. unfold revalidate. case_match eqn:E; [done|]. apply orb_false_iff in E as [E Ew].
  apply negb_false_iff in E. set (s0 := if sl_validated (slot_at s i) then _ else s).
  set (s1 := put_queued i false _). clear E Ew.
  assert (∀ {A} (g : slot → A), (∀ t, g (with_validated false t) = g t) →
    (∀ t n, g (with_generation n t) = g t) → ∀ j, g (slot_at s1 j) = g (slot_at s j)) as Hg.
  { intros A g H1 H2 j. transitivity (g (slot_at s0 j)); [by apply (field_update g)|].
    unfold s0. destruct (sl_validated (slot_at s i)); [|done]. by apply (field_update g (with_validated false) i s). }
  assert (∀ j, j ≠ i → slot_at s1 j = slot_at s j) as Ho.
  { intros j Hne. transitivity (slot_at s0 j); [by apply slot_elsewhere|]. unfold s0.
    destruct (sl_validated (slot_at s i)); [by apply (slot_elsewhere i (with_validated false) s)|done]. }
  assert (sm_memory s1 = sm_memory s ∧ sm_active s1 = sm_active s ∧ sm_control s1 = sm_control s ∧
    sm_scheduler s1 = sm_scheduler s ∧ sm_dependencies s1 = sm_dependencies s ∧
    (sm_validatedCount s1 <= sm_validatedCount s)%Z ∧ length (sm_slots s1) = length (sm_slots s))
    as (Em & Ea & Ect & Esc & Edp & Hc & Hlen).
  { unfold s1, s0. destruct (sl_validated (slot_at s i)); split_and!; try done; cbn; rewrite ?length_alter; try done; lia. }
  assert (∀ j, queued_at s1 j = true → j ≠ i ∧ queued_at s j = true) as Hq.
  { intros j [[_ H]|[H1 H2]]%queued_put; [done|]. split; [done|].
    revert H2. unfold s0. by destruct (sl_validated (slot_at s i)). }
  clearbody s1. destruct Sy as (O & Hl & Hinc).
  apply live_scheduleValidation.
  - rewrite <- Esc in O, Hinc. split_and!; [done|congruence|]. intros j Hj. rewrite (Hg _ sl_incarnation) by done. auto.
  - apply (live_transfer X s); try done; [by rewrite Esc; apply grows_refl|..].
    + intros j. split_and!; by apply Hg.
    + intros j Hj [Hne Hqs]%Hq. left. split; [done|by apply Ho].
Qed.

Lemma live_revalidate_all X l : ∀ s, synced s → Live X s →
  Live X (foldl (λ s i, revalidate i s) s l) ∧ synced (foldl (λ s i, revalidate i s) s l).
Proof.
  induction l as [|i l IH]; intros s Sy L; [done|]. cbn [foldl].
  destruct (live_revalidate _ s i Sy L). by apply IH.
Qed.

Lemma live_ready X s : synced s → Live X s → Live X (scheduleReadyValidations s).1 ∧ synced (scheduleReadyValidations s).1.
Proof.
  unfold scheduleReadyValidations, scheduleValidationRange. generalize (indexes 0 s) as l, false as f.
  intros l. revert s. induction l as [|i l IH]; intros s f Sy L; [done|]. cbn [foldl schedule_each].
  destruct (live_scheduleValidation _ s i Sy L). destruct (scheduleValidation i s) as [s' o]. by apply IH.
Qed.

Lemma live_schedule_execution X acc i :
  synced acc.1 → Live X acc.1 → i < total →
  Live X (schedule_execution acc i).1 ∧ synced (schedule_execution acc i).1.
Proof.
  destruct acc as [s f]. cbn [fst]. intros (O & Hl & Hinc) L Hi. cbn. case_match; [done|]. cbn [fst].
  destruct (grows_execution (version_at s i) (sm_scheduler s)) as (Gr & _); [done|by symmetry; apply Hinc|].
  split.
  - apply (live_transfer X s); try done. intros j Hj Hq. by left.
  - split_and!; [apply Gr|done|]. intros j Hj. etrans; [exact (grows_of _ _ j Gr)|by apply Hinc].
Qed.

Lemma live_schedule_executions X l : ∀ acc,
  synced acc.1 → Live X acc.1 → (∀ i, i ∈ l → i < total) →
  Live X (foldl schedule_execution acc l).1 ∧ synced (foldl schedule_execution acc l).1.
Proof.
  induction l as [|i l IH]; intros acc Sy L Hl; [done|]. cbn [foldl].
  destruct (live_schedule_execution _ acc i Sy L) as [L1 Sy1]; [apply Hl; left|].
  apply IH; [done..|]. intros j Hj. apply Hl. by right.
Qed.

(** ** Handing out tasks *)

Lemma executed_not_waiting G s i :
  Inv G s → i < total → sl_executed (slot_at s i) = true → sl_waiting (slot_at s i) = false.
Proof.
  intros I Hi Hx. pose proof (i_slots _ _ _ _ _ I i Hi) as H. unfold slot_ok in H.
  change (entry_at (sm_slots s) i) with (slot_at s i) in H. rewrite Hx in H. apply H.
Qed.

Lemma current_live X G s i t :
  Inv G s → Live X s → i < total → sl_waiting (slot_at s i) = false → tk_Version t = version_at s i →
  live (sm_scheduler s) t = true.
Proof.
  intros I L Hi Hw Et. unfold live. rewrite Et. cbn.
  apply andb_true_iff. split; apply bool_decide_eq_true.
  - symmetry. apply (i_incarnations _ _ _ _ _ I i Hi).
  - intros Hs. apply (l_status _ _ L) in Hs; [congruence|done].
Qed.

Lemma live_dispatch X G s : Inv G s → Live X s → Live X (dispatch false s).1.
Proof.
  intros I L. unfold dispatch. pose proof (Next_spec (sm_scheduler s) (i_scheduler _ _ _ _ _ I)) as H.
  assert (∀ i, i < total → queued_at s i = true → live (sm_scheduler s) (validation_of s i) = true) as Hlive.
  { intros i Hi Hq. destruct (l_queued _ _ L i Hi Hq) as (Hx & _).
    eapply current_live; [done..| |done]. by eapply executed_not_waiting. }
  destruct (Next (sm_scheduler s)) as [sch [task|]]; cbn [fst].
  - destruct H as [_ F]. set (input := match tk_Kind task with TaskExecute => _ | TaskValidate => _ end).
    assert (ti_Task input = task) as Ei by (unfold input; by destruct (tk_Kind task)). clearbody input.
    set (s' := set_active _ _). change (slot_at (set_scheduler sch s)) with (slot_at s) in *.
    destruct L. split; try done.
    + intros i Hi Hs. apply l_status0; [done|]. cbn in Hs. rewrite (nx_statuses _ _ _ F) in Hs.
      apply lookup_insert_Some in Hs as [[_ Hs]|[_ Hs]]; [by destruct (tk_Kind task)|done].
    + intros i Hi Hq. destruct (l_queued0 i Hi Hq) as (H1 & H2 & H3). split_and!; [done..|].
      change (validation_of s' i) with (validation_of s i). specialize (Hlive i Hi Hq).
      destruct H3 as [H3|(w & Hw & Tw)].
      * destruct (nx_least _ _ _ F _ H3 Hlive) as [E|Hlt].
        -- right. exists (WStart input). split; [cbn; set_solver|]. cbn. congruence.
        -- left. cbn. apply (nx_rest _ _ _ F). done.
      * right. exists w. split; [|done]. cbn. apply elem_of_app. by left.
    + intros w d [Hw|Hw%list_elem_of_singleton]%elem_of_app Hd; [by apply l_dependencies0|by subst].
  - destruct H as (_ & _ & (Hs & _) & Hn). destruct L. split; try done.
    + intros i Hi Hst. apply l_status0; [done|]. cbn in Hst. by rewrite Hs in Hst.
    + intros i Hi Hq. destruct (l_queued0 i Hi Hq) as (H1 & H2 & H3). split_and!; [done..|].
      destruct H3 as [H3|H3]; [|by right]. specialize (Hlive i Hi Hq). rewrite (Hn _ H3) in Hlive. done.
Qed.

Lemma dispatch_empty s :
  sc_ok (sm_scheduler s) → (dispatch false s).2 = false →
  tasks (sm_scheduler (dispatch false s).1) = [] ∧
  ∀ t, t ∈ tasks (sm_scheduler s) → live (sm_scheduler s) t = false.
Proof.
  intros O. unfold dispatch. pose proof (Next_spec _ O) as H.
  destruct (Next (sm_scheduler s)) as [sch [task|]]; [done|]. by destruct H as (_ & ? & _ & ?).
Qed.

(** Scheduling what is ready finds it: [found t acc] once the task is queued. *)
Definition found (t : SchedulerTask) (acc : stm * bool) : Prop :=
  acc.2 = true ∧ t ∈ tasks (sm_scheduler acc.1).

Lemma synced_grows s sch : synced s → grows (sm_scheduler s) sch → synced (set_scheduler sch s).
Proof.
  intros (O & Hl & Hinc) Gr. split_and!; [apply Gr|done|]. intros j Hj.
  etrans; [exact (grows_of _ _ j Gr)|by apply Hinc].
Qed.

Lemma each_grows s j :
  synced s → grows (sm_scheduler s) (sm_scheduler (scheduleValidation j s).1) ∧
  synced (scheduleValidation j s).1.
Proof.
  intros Sy. unfold scheduleValidation. case_match eqn:E; [by split; [apply grows_refl, Sy|]|]. cbn [fst].
  repeat (apply orb_false_iff in E as [E _]). apply negb_false_iff in E. unfold in_range in E.
  apply N.ltb_lt in E. rewrite (proj1 (proj2 Sy)) in E.
  destruct (grows_validation (version_at (put_queued j true s) j) (sl_generation (slot_at s j))
    (sm_scheduler s)) as [Gr _]; [apply Sy|by symmetry; apply Sy|].
  split; [exact Gr|]. by apply (synced_grows (put_queued j true s)).
Qed.

Lemma each_finds i l : ∀ s f t,
  synced s →
  (i ∈ l ∧ in_range s i = true ∧ sl_executed (slot_at s i) = true ∧ sl_validated (slot_at s i) = false ∧
   sl_waiting (slot_at s i) = false ∧ queued_at s i = false ∧ t = validation_of s i) ∨ found t (s, f) →
  found t (foldl schedule_each (s, f) l).
Proof.
  induction l as [|j l IH]; intros s f t Sy H; cbn [foldl].
  { destruct H as [[H _]|H]; [by apply elem_of_nil in H|done]. }
  cbn [schedule_each]. destruct (each_grows s j Sy) as [Gr Sy'].
  pose proof (st_slots _ _ (still_scheduleValidation j s)) as Es.
  destruct (scheduleValidation j s) as [s' o] eqn:E. cbn [fst] in Gr, Sy', Es. apply IH; [done|].
  destruct H as [(Hin & Hr & Hx & Hv & Hw & Hq & Et)|[Hf Ht]].
  2: { right. cbn in Hf. subst f. split; [done|]. by apply (gr_tasks _ _ Gr). }
  destruct (decide (j = i)) as [->|Hne].
  - right. unfold scheduleValidation in E. rewrite Hr, Hx, Hv, Hw, Hq in E. cbn [negb orb] in E.
    injection E as <- <-. split; [apply orb_true_r|]. rewrite Et.
    apply grows_validation; [apply Sy|]. symmetry. apply Sy. unfold in_range in Hr. apply N.ltb_lt in Hr.
    by rewrite (proj1 (proj2 Sy)) in Hr.
  - left. assert (∀ k, slot_at s' k = slot_at s k) as Ek by (intros k; unfold slot_at; by rewrite Es).
    unfold in_range, validation_of, version_at. rewrite Es, !Ek. split_and!; try done.
    + apply elem_of_cons in Hin as [->|]; done.
    + destruct (queued_at s' i) eqn:Eq; [|done]. exfalso. apply (f_equal fst) in E. cbn [fst] in E. subst s'.
      unfold scheduleValidation in Eq. case_match; [cbn in Eq; congruence|].
      apply (queued_put j true s i) in Eq as [[-> _]|[_ Eq]]; [done|congruence].
Qed.

Lemma executions_find i l : ∀ s f t,
  synced s → (∀ j, j ∈ l → j < total) →
  (i ∈ l ∧ sl_executed (slot_at s i) = false ∧ sl_validated (slot_at s i) = false ∧
   sl_waiting (slot_at s i) = false ∧ t = MkTask TaskExecute (version_at s i) 0) ∨ found t (s, f) →
  found t (foldl schedule_execution (s, f) l).
Proof.
  induction l as [|j l IH]; intros s f t Sy Hl H; cbn [foldl].
  { destruct H as [[H _]|H]; [by apply elem_of_nil in H|done]. }
  assert (j < total) as Hj by (apply Hl; left).
  destruct (grows_execution (version_at s j) (sm_scheduler s)) as (Gr & Hin & _);
    [apply Sy|by symmetry; apply Sy|].
  cbn [schedule_execution]. case_match eqn:E; (apply IH; [|intros; apply Hl; by right|]);
    [done| |by apply synced_grows|].
  - destruct H as [(Hi & Hx & Hv & Hw & Et)|]; [left|by right]. split_and!; try done.
    apply elem_of_cons in Hi as [->|]; [|done]. by rewrite Hx, Hv, Hw in E.
  - destruct H as [(Hi & Hx & Hv & Hw & Et)|[_ Ht]]; [|right; by split; [|apply (gr_tasks _ _ Gr)]].
    apply elem_of_cons in Hi as [->|Hi]; [right|left; by split_and!]. split; [done|]. by rewrite Et.
Qed.

(** The lowest transaction that is not validated. *)
Lemma lowest_unvalidated G s :
  Inv G s → (sm_validatedCount s < Z.of_nat (txCount b))%Z →
  ∃ i, i < total ∧ sl_validated (slot_at s i) = false ∧
    ∀ j, j < i → sl_validated (slot_at s j) = true.
Proof.
  intros I Hc. destruct (list_find (λ t, sl_validated t = false) (sm_slots s)) as [[n t]|] eqn:E.
  - apply list_find_Some in E as (Hn & Ht & Hlow). exists (N.of_nat n).
    apply lookup_lt_Some in Hn as Hlt. rewrite (i_length _ _ _ _ _ I) in Hlt.
    split_and!; [lia|unfold slot_at; by rewrite Nat2N.id, Hn|].
    intros j Hj. unfold slot_at. destruct (sm_slots s !! N.to_nat j) as [y|] eqn:Ej.
    + specialize (Hlow _ y Ej ltac:(lia)). cbn. by destruct (sl_validated y).
    + apply lookup_ge_None in Ej. rewrite (i_length _ _ _ _ _ I) in Ej. lia.
  - exfalso. apply list_find_None in E. rewrite (i_count _ _ _ _ _ I) in Hc.
    rewrite <- (i_length _ _ _ _ _ I) in Hc. revert E Hc. clear. induction (sm_slots s) as [|t l IH]; [done|].
    intros [Ht Hl]%Forall_cons Hc. rewrite filter_cons, decide_True in Hc by (by destruct (sl_validated t)).
    cbn in Hc. apply IH; [done|lia].
Qed.

(** With nothing queued and nobody at work, there is something to schedule. *)
Lemma idle_finds s :
  Inv no_threat s → Live nobody s → tasks (sm_scheduler s) = [] → sm_active s = [] →
  (sm_validatedCount s < Z.of_nat (txCount b))%Z →
  ∃ i t, i < total ∧ sl_waiting (slot_at s i) = false ∧ tk_Version t = version_at s i ∧
    let '(s1, f1) := scheduleReadyValidations s in
    found t (foldl schedule_execution (s1, f1) (indexes 0 s1)).
Proof.
  intros I L Ht Ha Hc. destruct (lowest_unvalidated _ s I Hc) as (i & Hi & Hv & Hlow).
  pose proof (inv_synced _ _ I) as Sy. destruct (live_ready _ s Sy L) as [L1 Sy1].
  pose proof (still_ready s) as S1.
  assert (∀ s1, sm_slots s1 = sm_slots s → ∀ j, j ∈ indexes 0 s1 ↔ j < total) as Hix.
  { intros s1 E j. rewrite in_indexes, E, (i_length _ _ _ _ _ I). split; [intros [_ ?]; done|intros; split; [lia|done]]. }
  assert (sl_waiting (slot_at s i) = false) as Hw.
  { destruct (sl_waiting (slot_at s i)) eqn:Hw; [|done]. destruct (l_waiting _ _ L i Hi Hw) as [[]|(d & _ & Hd & _ & Hx)].
    specialize (Hlow _ Hd). pose proof (i_slots _ _ _ _ _ I (v_Txn d) ltac:(lia)) as H. unfold slot_ok in H.
    change (entry_at (sm_slots s) (v_Txn d)) with (slot_at s (v_Txn d)) in H. rewrite Hx in H.
    destruct H as [H _]. congruence. }
  exists i. destruct (sl_executed (slot_at s i)) eqn:Hx.
  - exists (validation_of s i). split_and!; [done..|].
    assert (queued_at s i = false) as Hq.
    { destruct (queued_at s i) eqn:Hq; [|done]. destruct (l_queued _ _ L i Hi Hq) as (_ & _ & [H|(w & H & _)]).
      - rewrite Ht in H. by apply elem_of_nil in H.
      - rewrite Ha in H. by apply elem_of_nil in H. }
    assert (found (validation_of s i) (scheduleReadyValidations s)) as Hf.
    { apply (each_finds i); [done|]. left. split_and!; try done; [by apply (Hix s)|].
      unfold in_range. rewrite (i_length _ _ _ _ _ I). by apply N.ltb_lt. }
    destruct (scheduleReadyValidations s) as [s1 f1]. cbn [fst] in *.
    apply (executions_find i); [done|intros j; by apply Hix, (st_slots _ _ S1)|by right].
  - exists (MkTask TaskExecute (version_at s i) 0). split_and!; [done..|].
    destruct (scheduleReadyValidations s) as [s1 f1]. cbn [fst] in *.
    assert (∀ k, slot_at s1 k = slot_at s k) as Ek by (intros k; unfold slot_at; by rewrite (st_slots _ _ S1)).
    apply (executions_find i); [done|intros j; by apply Hix, (st_slots _ _ S1)|]. left.
    unfold version_at. rewrite !Ek. split_and!; try done. by apply (Hix s1 (st_slots _ _ S1)).
Qed.

Lemma scheduled_count s :
  sm_validatedCount (scheduleReadyValidations s).1 = sm_validatedCount s.
Proof.
  unfold scheduleReadyValidations, scheduleValidationRange. generalize (indexes 0 s) as l, false as f.
  intros l. revert s. induction l as [|i l IH]; intros s f; [done|]. cbn [foldl schedule_each].
  assert (sm_validatedCount (scheduleValidation i s).1 = sm_validatedCount s) as E
    by (unfold scheduleValidation; by case_match).
  destruct (scheduleValidation i s) as [s' o]. cbn in E. by rewrite IH.
Qed.

Lemma live_control X s c :
  Live X s → marking (sm_control s) = false → c ≠ CFill → (∀ o, c ≠ CReturn o) → Live X (set_control c s).
Proof.
  intros [] Hm Hc Hr. assert (∀ v, superseded s v → superseded (set_control c s) v) as Hs.
  { intros v [H|(r & ks & H & _)]; [by left|by rewrite H in Hm]. }
  split; try done.
  - intros key y Hy He. apply Hs. by eapply l_estimates0.
  - intros w d Hw Hd. destruct (l_dependencies0 w d Hw Hd). by split; [|apply Hs].
Qed.

Lemma dispatch_count g s : sm_validatedCount (dispatch g s).1 = sm_validatedCount s.
Proof. unfold dispatch. destruct (Next (sm_scheduler s)) as [sch [task|]]; [|done]. by destruct g. Qed.

Lemma live_idle s :
  Inv no_threat s → Live nobody s → tasks (sm_scheduler s) = [] → sm_active s = [] → sm_control s = CFill →
  Live nobody (idle false s) ∧ sm_control (idle false s) = CTop.
Proof.
  intros I L Ht Ha Hct. pose proof (l_fill _ _ L Hct) as Hc.
  destruct (idle_finds s I L Ht Ha Hc) as (i & t & Hi & Hw & Et & Hf). unfold idle.
  pose proof (inv_synced _ _ I) as Sy. destruct (live_ready _ s Sy L) as [L1 Sy1].
  pose proof (inv_ready _ s I) as I1. pose proof (still_ready s) as S1.
  destruct (scheduleReadyValidations s) as [s1 f1]. cbn [fst] in *.
  assert (∀ j, j ∈ indexes 0 s1 → j < total) as Hix
    by (intros j [_ Hj]%in_indexes; by rewrite (i_length _ _ _ _ _ I1) in Hj).
  destruct (live_schedule_executions _ (indexes 0 s1) (s1, f1) Sy1 L1 Hix) as [L2 Sy2].
  pose proof (still_foldl schedule_execution (indexes 0 s1) still_execution (s1, f1)) as S2.
  pose proof (inv_schedule_executions _ (indexes 0 s1) (s1, f1) I1
    ltac:(cbn; by rewrite (st_active _ _ S1)) Hix) as I2.
  destruct (foldl schedule_execution (s1, f1) (indexes 0 s1)) as [s2 f2]. cbn [fst] in *.
  destruct Hf as [Hf Hin]. cbn in Hf, Hin. subst f2.
  assert (∀ k, slot_at s2 k = slot_at s k) as Ek
    by (intros k; unfold slot_at; by rewrite (st_slots _ _ S2), (st_slots _ _ S1)).
  assert (live (sm_scheduler s2) t = true) as Hl.
  { eapply current_live; [exact I2|exact L2|exact Hi|by rewrite Ek|]. unfold version_at in *. by rewrite Ek. }
  pose proof (live_dispatch _ _ s2 I2 L2) as L3.
  pose proof (dispatch_empty s2 (i_scheduler _ _ _ _ _ I2)) as Hd.
  destruct (dispatch_frame false s2) as [Ec _].
  destruct (dispatch false s2) as [s3 f3]. cbn [fst snd] in *. destruct f3.
  - split; [|done]. apply live_control; [done| |done..].
    by rewrite Ec, (st_control _ _ S2), (st_control _ _ S1), Hct.
  - destruct (Hd eq_refl) as [_ Hn]. rewrite (Hn t Hin) in Hl. done.
Qed.

Lemma live_fill s :
  Inv no_threat s → Live nobody s → sm_control s = CFill →
  Live nobody (fill e false false s) ∧ ∀ o, sm_control (fill e false false s) ≠ CReturn o.
Proof.
  intros I L Hct. assert (marking (sm_control s) = false) as Hm by by rewrite Hct.
  unfold fill. case_match; [|split; [by apply live_control|done]].
  pose proof (inv_dispatch _ s false I) as I1. pose proof (live_dispatch _ _ s I L) as L1.
  pose proof (dispatch_empty s (i_scheduler _ _ _ _ _ I)) as Hd.
  destruct (dispatch_frame false s) as [Ec Ha].
  destruct (dispatch false s) as [s1 f1]. cbn [fst snd] in *. destruct f1.
  { split; [done|]. intros o. by rewrite Ec, Hct. }
  specialize (Ha eq_refl). destruct (Hd eq_refl) as [Ht _]. rewrite Hct in Ec. case_match eqn:E.
  - destruct (live_idle s1 I1 L1) as [L2 Ec2]; [done| |done|].
    + rewrite Ha. apply Z.eqb_eq in E. destruct (sm_active s); [done|]. cbn in E. lia.
    + split; [done|]. intros o. by rewrite Ec2.
  - split; [|done]. apply live_control; [done|by rewrite Ec|done..].
Qed.

(** ** Workers *)

Lemma live_worker X s p w w' m' :
  Live X s → sm_active s !! p = Some w → task_of w' = task_of w →
  (∀ key y, stored m' key y → vv_Estimate y = true → stored (sm_memory s) key y) →
  (∀ d, dependency_of w' = Some d → v_Txn d < txn_of w ∧ superseded s d) →
  Live X (set_memory m' (set_active (<[p := w']> (sm_active s)) s)).
Proof.
  intros [] Hp Et Hm Hd. split; try done.
  - intros i Hi Hq. destruct (l_queued0 i Hi Hq) as (H1 & H2 & H3). split_and!; [done..|].
    destruct H3 as [H3|(x & Hx & Tx)]; [by left|right].
    destruct (elem_kept _ p w w' x Hp Hx) as [->|Hx']; [|by exists x].
    exists w'. split; [by eapply elem_placed|]. rewrite Et. exact Tx.
  - intros key y Hy He. apply (l_estimates0 key); [by apply Hm|done].
  - intros x d Hx Hxd. destruct (elem_replace _ _ _ _ _ Hp Hx) as [->|(q & _ & Hq)].
    + unfold txn_of. rewrite Et. by apply Hd.
    + apply l_dependencies0; [by eapply list_elem_of_lookup_2|done].
Qed.

Lemma stored_write m key v value k y :
  mv_ok m → stored (Write m key v value) k y → vv_Estimate y = true → stored m k y.
Proof.
  intros Hm Sy He. apply stored_upsert in Sy as [[-> [->|[Sy _]]]|[_ Sy]]; done.
Qed.

Lemma stored_clear m key txn k y : stored (ClearTxnVersions m key txn) k y → stored m k y.
Proof.
  unfold stored. rewrite ClearTxnVersions_items. case_decide; [|done]. subst.
  by intros [_ ?]%list_elem_of_filter.
Qed.

Lemma live_step_worker X G s p key s' :
  Inv G s → Live X s → step_worker e b base p key s = Some s' → Live X s'.
Proof.
  intros I L H. unfold step_worker in H. destruct (sm_active s !! p) as [w|] eqn:Hp; [|done]. cbn in H.
  assert (w ∈ sm_active s) as Hw by by eapply list_elem_of_lookup_2.
  destruct (i_workers _ _ _ _ _ I w Hw) as (_ & Hsh & Hok).
  pose proof (λ d, l_dependencies _ _ L w d Hw) as Hdep. pose proof (i_memory _ _ _ _ _ I) as Hm.
  destruct w as [input|input o [receipt|k next|k v next]|input o receipt clear rest|input [|r rest]|r];
    cbn in H.
  - injection H as <-. apply (live_worker X s p (WStart input)); try done; unfold start_task;
      repeat (case_match; try done); cbn; by rewrite task_eta.
  - injection H as <-. apply (live_worker X s p (WRun input o (Ret receipt))); try done.
    + destruct (om_dependency o); [cbn; by rewrite task_eta|done].
    + intros d. destruct (om_dependency o) as [d'|] eqn:Ed; [|done]. cbn. rewrite Ed. intros E.
      apply Hdep. cbn. congruence.
  - unfold shaped, kind_of in *. rewrite Hsh in Hok. cbn in Hok. destruct Hok as (_ & _ & _ & _ & Er & _).
    unfold stmOverlay_get in H. destruct (om_writes o !! k) as [x|].
    + cbn in H. injection H as <-. by apply (live_worker X s p (WRun input o (GetKey k next))).
    + cbn in H. injection H as <-. apply (live_worker X s p (WRun input o (GetKey k next))); try done.
      cbn. intros d. destruct (Read_source (sm_memory s) k (om_reader o) (om_logicalBase o) Hm)
        as [(txn & x & (Ht & Lx & _) & ->)|[_ ->]]; cbn; [|apply Hdep].
      destruct (vv_Estimate x) eqn:Ex; [|apply Hdep]. intros E. injection E as <-.
      apply latest_Some in Lx as (Sx & Tx & _); [|done]. split; [rewrite Tx, <- Er; exact Ht|].
      by apply (l_estimates _ _ L k).
  - injection H as <-. by apply (live_worker X s p (WRun input o (SetKey k v next))).
  - assert (om_dependency o = None) as Ed.
    { unfold shaped, kind_of in *. rewrite Hsh in Hok. by destruct Hok as (_ & _ & _ & _ & ? & _). }
    set (w := WPublish input o receipt clear rest) in *. repeat (case_bool_decide; try done).
    + cbn in H. injection H as <-. apply (live_worker X s p w); try done; [cbn; by rewrite task_eta|].
      cbn. by rewrite Ed.
    + destruct (rest !! key) as [value|]; [|done]. cbn in H. injection H as <-.
      apply (live_worker X s p w); try done. intros k y. by apply stored_write.
    + cbn in H. injection H as <-. apply (live_worker X s p w); try done. intros k y Hy _. by eapply stored_clear.
  - injection H as <-. apply (live_worker X s p (WCheck input [])); try done. cbn. by rewrite task_eta.
  - injection H as <-. apply (live_worker X s p (WCheck input (r :: rest))); try done;
      unfold check_read; repeat (case_match; try done); cbn; by rewrite task_eta.
  - done.
Qed.

(** A worker goes that no queued validation counts on. *)
Lemma live_remove X s s' p w :
  Live X s → sm_active s !! p = Some w → sm_active s' = delete p (sm_active s) →
  sm_slots s' = sm_slots s → sm_memory s' = sm_memory s → sm_scheduler s' = sm_scheduler s →
  sm_dependencies s' = sm_dependencies s → sm_control s' = sm_control s →
  sm_validatedCount s' = sm_validatedCount s →
  (∀ i, i < total → queued_at s' i = true → queued_at s i = true ∧ task_of w ≠ validation_of s i) →
  Live X s'.
Proof.
  intros [] Hp Ea Esl Em Esc Edp Ec Ev Hq.
  assert (∀ k, slot_at s' k = slot_at s k) as Ek by (intros k; unfold slot_at; by rewrite Esl).
  assert (∀ v, superseded s v → superseded s' v) as Hs by (intros v; unfold superseded; by rewrite Ek, Ec).
  split.
  - intros i Hi. rewrite Ek, Esc. by apply l_status0.
  - intros i Hi Hqi. destruct (Hq i Hi Hqi) as [Hqs Hne]. destruct (l_queued0 i Hi Hqs) as (H1 & H2 & H3).
    unfold validation_of, version_at. rewrite Ek. fold (version_at s i). fold (validation_of s i).
    split_and!; [done..|]. destruct H3 as [H3|(x & Hx & Tx)]; [left; by rewrite Esc|right].
    exists x. split; [|done]. rewrite Ea. destruct (elem_of_undeleted _ _ _ _ Hp Hx) as [->|]; done.
  - unfold waiters. by rewrite Edp.
  - intros i Hi. unfold version_at, waiters, pending. rewrite Edp, Ek. intros Hw.
    destruct (l_waiting0 i Hi Hw) as [?|(d & H1 & H2)]; [by left|right]. exists d. by rewrite Ek.
  - intros key y. rewrite Em. intros Hy He. apply Hs. by eapply l_estimates0.
  - intros x d. rewrite Ea. intros Hx Hd. destruct (l_dependencies0 x d); [by eapply in_delete|done|].
    by split; [|apply Hs].
  - rewrite Ec, Ev. done.
  - by rewrite Ec.
Qed.

(** ** The books of a transaction that is not executed *)

Lemma live_books X s s' i f :
  Live X s → i < total → length (sm_slots s) = txCount b → sl_executed (slot_at s i) = false →
  sm_slots s' = alter f (N.to_nat i) (sm_slots s) →
  sm_memory s' = sm_memory s → sm_active s' = sm_active s → sm_control s' = sm_control s →
  sm_validatedCount s' = sm_validatedCount s →
  sl_executed (f (slot_at s i)) = false →
  sl_incarnation (slot_at s i) <= sl_incarnation (f (slot_at s i)) →
  (∀ j, queued_at s' j = true → queued_at s j = true) →
  (∀ t, t ∈ tasks (sm_scheduler s) → t ∈ tasks (sm_scheduler s')) →
  (∀ j, sc_statuses (sm_scheduler s') !! j = Some StatusWaiting →
     if decide (j = i) then sl_waiting (f (slot_at s i)) = true
     else sc_statuses (sm_scheduler s) !! j = Some StatusWaiting) →
  (∀ d t, t ∈ waiters s d → t ∈ waiters s' d) →
  (∀ d t, t ∈ default ∅ (dr_seen (sm_dependencies s') !! d) → t ∈ waiters s' d) →
  (sl_waiting (f (slot_at s i)) = true →
     ∃ d, MkTask TaskExecute (MkVersion i (sl_incarnation (f (slot_at s i)))) 0 ∈ waiters s' d ∧
       v_Txn d < i ∧ v_Incarnation d < sl_incarnation (slot_at s (v_Txn d)) ∧
       sl_executed (slot_at s (v_Txn d)) = false) →
  Live X s'.
Proof.
  intros [] Hi Hlen Hx Esl Em Ea Ec Ev Fx Fi Hq Ht Hst Hw Hseen Hwait.
  assert (slot_at s' i = f (slot_at s i)) as Ei.
  { change (slot_at s' i) with (entry_at (sm_slots s') i). rewrite Esl, entry_update, decide_True; [done|].
    by rewrite Hlen. }
  assert (∀ j, j ≠ i → slot_at s' j = slot_at s j) as Eo.
  { intros j Hj. change (slot_at s' j) with (entry_at (sm_slots s') j). rewrite Esl. by apply slot_other. }
  assert (∀ j, sl_incarnation (slot_at s j) <= sl_incarnation (slot_at s' j)) as Hinc.
  { intros j. destruct (decide (j = i)) as [->|]; [by rewrite Ei|by rewrite Eo]. }
  assert (∀ j, sl_executed (slot_at s j) = false → sl_executed (slot_at s' j) = false) as Hex.
  { intros j. destruct (decide (j = i)) as [->|]; [by rewrite Ei|by rewrite Eo]. }
  assert (∀ v, superseded s v → superseded s' v) as Hs.
  { intros v [H|H]; [left; by eapply N.lt_le_trans; [|apply Hinc]|right; by rewrite Ec]. }
  split.
  - intros j Hj Hstj. specialize (Hst j Hstj). destruct (decide (j = i)) as [->|Hne]; [by rewrite Ei|].
    rewrite Eo by done. by apply l_status0.
  - intros j Hj Hqj. destruct (l_queued0 j Hj (Hq j Hqj)) as (H1 & H2 & H3).
    assert (j ≠ i) as Hne by (intros ->; congruence).
    unfold validation_of, version_at. rewrite Eo by done. fold (version_at s j). fold (validation_of s j).
    split_and!; [done..|]. destruct H3 as [H3|H3]; [left; by apply Ht|right; by rewrite Ea].
  - done.
  - intros j Hj Hwj. unfold version_at. destruct (decide (j = i)) as [->|Hne].
    + rewrite Ei in Hwj |- *. destruct (Hwait Hwj) as (d & H1 & H2 & H3 & H4). right. exists d. split; [done|].
      split_and!; [done|by eapply N.lt_le_trans; [|apply Hinc]|by apply Hex].
    + rewrite Eo in Hwj |- * by done. destruct (l_waiting0 j Hj Hwj) as [?|(d & H1 & H2 & H3 & H4)]; [by left|].
      right. exists d. split; [by apply Hw|]. split_and!; [done|by eapply N.lt_le_trans; [|apply Hinc]|by apply Hex].
  - intros key y. rewrite Em. intros Hy He. apply Hs. by eapply l_estimates0.
  - intros w d. rewrite Ea. intros Hwa Hd. destruct (l_dependencies0 w d Hwa Hd). by split; [|apply Hs].
  - rewrite Ec, Ev. done.
  - by rewrite Ec.
Qed.

Lemma register_keeps t dep reg d x :
  x ∈ default [] (dr_waiters reg !! d) → x ∈ default [] (dr_waiters (RegisterTask t dep reg) !! d).
Proof.
  intros H. unfold RegisterTask. case_bool_decide; [done|]. cbn. rewrite lookup_insert.
  case_decide; [|done]. subst. cbn. apply elem_of_app. by left.
Qed.

Lemma register_adds t dep reg :
  (∀ d x, x ∈ default ∅ (dr_seen reg !! d) → x ∈ default [] (dr_waiters reg !! d)) →
  t ∈ default [] (dr_waiters (RegisterTask t dep reg) !! dep) ∧
  ∀ d x, x ∈ default ∅ (dr_seen (RegisterTask t dep reg) !! d) →
    x ∈ default [] (dr_waiters (RegisterTask t dep reg) !! d).
Proof.
  intros H. unfold RegisterTask. case_bool_decide as E; cbn.
  - split; [by apply H|]. intros d x. rewrite lookup_insert. case_decide; [subst; apply H|apply H].
  - split; [rewrite lookup_insert_eq; cbn; set_solver|]. intros d x. rewrite !lookup_insert. case_decide as Ed.
    + subst. cbn. rewrite elem_of_union, elem_of_app, elem_of_singleton, list_elem_of_singleton.
      intros [->|Hx]; [by right|left; by apply H].
    + apply H.
Qed.

Lemma queued_clear i s j : queued_at (put_queued i false s) j = true → queued_at s j = true.
Proof. by intros [[_ ?]|[_ ?]]%queued_put. Qed.

(** The state in which a transaction starts to wait. *)
Lemma live_wait_for X s s1 i v d rs :
  Live X s → i < total → length (sm_slots s) = txCount b → sl_executed (slot_at s i) = false →
  v_Txn v = i → sl_incarnation (slot_at s i) <= v_Incarnation v →
  sm_slots s1 = alter (with_incarnation (v_Incarnation v)) (N.to_nat i) (sm_slots s) →
  sm_memory s1 = sm_memory s → sm_active s1 = sm_active s → sm_control s1 = sm_control s →
  sm_validatedCount s1 = sm_validatedCount s → sm_dependencies s1 = sm_dependencies s →
  sm_validationQueued s1 = sm_validationQueued s →
  (∀ t, t ∈ tasks (sm_scheduler s) → t ∈ tasks (sm_scheduler s1)) →
  (∀ j, j ≠ i → sc_statuses (sm_scheduler s1) !! j = Some StatusWaiting →
     sc_statuses (sm_scheduler s) !! j = Some StatusWaiting) →
  v_Txn d < i → v_Incarnation d < sl_incarnation (slot_at s (v_Txn d)) →
  sl_executed (slot_at s (v_Txn d)) = false → Live X (wait_for i v d rs s1).
Proof.
  intros L Hi Hlen Hx Ev1 Hinc Es1 Em1 Ea1 Ec1 En1 Ed1 Eq1 Ht Hst Hd1 Hd2 Hd3.
  destruct (wait_for_frame i v d rs s1) as ((Em & Ea & Ec & _ & Ev & _) & Esl & Esc & Edp).
  assert (∀ j, queued_at (wait_for i v d rs s1) j = true → queued_at s j = true) as Hq.
  { intros j H. apply (queued_clear i s1) in H. unfold queued_at in *. by rewrite Eq1 in H. }
  set (s2 := wait_for i _ _ _ s1) in *. clearbody s2.
  destruct (register_adds (MkTask TaskExecute v 0) d (sm_dependencies s)) as [Hadd Hseen]; [apply L|].
  rewrite Es1, alter_twice in Esl.
  eapply (live_books X s s2 i _ L Hi Hlen Hx Esl); unfold waiters;
    rewrite ?Em, ?Ea, ?Ec, ?Ev, ?Esc, ?Edp, ?Em1, ?Ea1, ?Ec1, ?En1, ?Ed1; try done.
  - intros j Hj. destruct (decide (j = i)); [done|by apply Hst].
  - intros d' t. apply register_keeps.
  - intros _. exists d. split_and!; try done. cbn. rewrite <- Ev1. by destruct v.
Qed.

Lemma alter_same {A} (f : A → A) n (l : list A) : (∀ x, l !! n = Some x → f x = x) → alter f n l = l.
Proof.
  revert n. induction l as [|x l IH]; intros [|n] H; [done..| |].
  - change (f x :: l = x :: l). by rewrite H.
  - change (x :: alter f n l = x :: l). rewrite IH; [done|]. intros y Hy. by apply H.
Qed.

Lemma live_process_dependency X s r d :
  Inv no_threat s → Live X s → v_Txn (tr_Version r) < total →
  sl_executed (slot_at s (v_Txn (tr_Version r))) = false →
  sm_control s = CSelect → sl_incarnation (slot_at s (v_Txn (tr_Version r))) + 1 < 2 ^ 32 →
  v_Incarnation (tr_Version r) = sl_incarnation (slot_at s (v_Txn (tr_Version r))) →
  v_Txn d < v_Txn (tr_Version r) → superseded s d →
  let s' := process_dependency e b base r d s in
  answered s' ∨ Live X s'.
Proof.
  intros I L Hi Hx Hct Hn Einc Hd Hsup s'. unfold s', process_dependency. clear s'.
  set (i := v_Txn (tr_Version r)) in *. pose proof (i_length _ _ _ _ _ I) as Hlen.
  assert (marking (sm_control s) = false) as Hm by by rewrite Hct.
  destruct Hsup as [Hdi|(r' & ks & E & _)]; [|congruence].
  destruct (dependency_resolved d s) eqn:Edr.
  { right. apply live_control; [|done..].
    destruct (grows_execution (tr_Version r) (sm_scheduler s)) as (Gr & _ & Hst);
      [apply I|fold i; by rewrite Einc, (i_incarnations _ _ _ _ _ I)|].
    eapply (live_books X s _ i (with_waiting false)); try done; [apply Gr| |apply L].
    intros j Hj. destruct (decide (j = i)) as [->|]; [done|by apply (gr_status _ _ Gr)]. }
  assert (sl_executed (slot_at s (v_Txn d)) = false) as Hdx.
  { unfold dependency_resolved, in_range in Edr. rewrite Hlen in Edr.
    rewrite (proj2 (N.ltb_lt (v_Txn d) total)) in Edr by lia.
    rewrite (proj2 (N.ltb_lt (v_Incarnation d) _)) in Edr by done. cbn [andb] in Edr. by rewrite andb_true_r in Edr. }
  case_match.
  { right. apply live_control; [|done..].
    destruct (wait_same (tr_Version r) (sm_scheduler s) (i_scheduler _ _ _ _ _ I)) as (_ & _ & Et).
    apply (live_wait_for X s); try done.
    - by rewrite Einc.
    - symmetry. apply alter_same. intros x E.
      change (sm_slots s !! N.to_nat i = Some x) in E. rewrite Einc. unfold slot_at. rewrite E. by destruct x.
    - intros t. cbn. by rewrite Et.
    - intros j Hj. cbn. unfold Wait. case_match; [|done]. cbn. fold i. by rewrite lookup_insert_ne. }
  pose proof (abort_spec (tr_Version r) true (sm_scheduler s)) as Ha. unfold AbortAndWait in *.
  assert (tasks (abortLocked (tr_Version r) true (sm_scheduler s)).1 = tasks (sm_scheduler s) ∧
    ∀ j, j ≠ i → sc_statuses (abortLocked (tr_Version r) true (sm_scheduler s)).1 !! j =
      sc_statuses (sm_scheduler s) !! j) as [Et Hst].
  { unfold abortLocked. fold i. rewrite Einc, (i_incarnations _ _ _ _ _ I i Hi), bool_decide_eq_true_2 by done.
    cbn [negb]. split; [done|]. intros j Hj. cbn. by rewrite lookup_insert_ne. }
  destruct (abortLocked (tr_Version r) true (sm_scheduler s)) as [sch next]. cbn [fst] in Et, Hst.
  cbn in Ha. fold i in Ha.
  destruct Ha as (-> & O & Hincs & Hts); [apply I|by rewrite Einc, (i_incarnations _ _ _ _ _ I)|lia|].
  destruct (incarnation_limit _ _ _ _ _) as [o|] eqn:Elim; [left; exists o; split; [done|by eapply answers_limit]|right].
  apply live_control; [|done..]. apply (live_wait_for X s); try done.
  - cbn. lia.
  - cbn. intros t. by rewrite Et.
  - intros j Hj. cbn. by rewrite Hst.
Qed.

(** ** An execution that finished *)

Lemma live_excuse (X Y : SchedulerTask → Prop) s :
  Live X s →
  (∀ i, i < total → sl_waiting (slot_at s i) = true → X (MkTask TaskExecute (version_at s i) 0) →
     Y (MkTask TaskExecute (version_at s i) 0)) →
  Live Y s.
Proof.
  intros [] H. split; try done. intros i Hi Hw. destruct (l_waiting0 i Hi Hw) as [HX|HX]; [left|by right].
  by apply H.
Qed.

Lemma live_resume_waiter (X : SchedulerTask → Prop) G s a l :
  Inv G s → Live (λ t, t ∈ a :: l ∨ X t) s → tk_Kind a = TaskExecute → tk_Generation a = 0 →
  Live (λ t, t ∈ l ∨ X t) (resume_waiter s a).
Proof.
  intros I L Ka Ga. unfold resume_waiter. set (i := v_Txn (tk_Version a)) in *.
  pose proof (i_length _ _ _ _ _ I) as Hlen.
  destruct (negb (in_range s i) || _ || _) eqn:E.
  - eapply live_excuse; [exact L|]. intros j Hj Hw [Ht|]; [|by right]. apply elem_of_cons in Ht as [Ht|]; [|by left].
    exfalso. subst a. cbn in i. change i with j in E. unfold in_range in E. rewrite Hlen, Hw in E.
    rewrite (proj2 (N.ltb_lt j total)) in E by done. cbn in E. by rewrite bool_decide_eq_true_2 in E.
  - apply orb_false_iff in E as [E Ei]. apply orb_false_iff in E as [Er Ew].
    apply negb_false_iff in Er, Ew, Ei. apply bool_decide_eq_true in Ei.
    unfold in_range in Er. apply N.ltb_lt in Er. rewrite Hlen in Er.
    destruct (waiting_still G s i I Er Ew) as (Hx & _ & _).
    destruct (grows_resume a (sm_scheduler s)) as [Gr Hst];
      [apply I|fold i; by rewrite Ei, (i_incarnations _ _ _ _ _ I)|]. fold i in Hst.
    set (f := with_executed false ∘ with_waiting false). set (s1 := set_scheduler _ _).
    assert (sm_slots s1 = alter f (N.to_nat i) (sm_slots s)) as Esl by apply alter_twice.
    assert (slot_at s1 i = f (slot_at s i)) as E1.
    { change (slot_at s1 i) with (entry_at (sm_slots s1) i). rewrite Esl, entry_update, decide_True; [done|].
      by rewrite Hlen. }
    assert (Live (λ t, t ∈ a :: l ∨ X t) s1) as L1.
    { eapply (live_books _ s s1 i f L Er Hlen Hx Esl); try done; [|apply Gr| |apply L].
      - intros j. exact (queued_clear i s j).
      - intros j Hj. destruct (decide (j = i)) as [->|]; [done|by apply (gr_status _ _ Gr)]. }
    eapply live_excuse; [exact L1|]. intros j Hj Hw [Ht|]; [|by right].
    apply elem_of_cons in Ht as [Ht|]; [|by left]. exfalso.
    assert (j = i) as -> by (unfold i; by rewrite <- Ht). by rewrite E1 in Hw.
Qed.

Lemma live_resume_all X G l : ∀ s,
  Inv G s → marking (sm_control s) = false → Live (λ t, t ∈ l ∨ X t) s →
  (∀ t, t ∈ l → tk_Kind t = TaskExecute ∧ tk_Generation t = 0) →
  Live X (foldl resume_waiter s l).
Proof.
  induction l as [|a l IH]; intros s I Hm L Hl.
  - eapply live_excuse; [exact L|]. intros i _ _ [H|]; [by apply elem_of_nil in H|done].
  - cbn [foldl]. destruct (Hl a) as [Ka Ga]; [left|].
    destruct (inv_resume_waiter G s a I Hm Ka Ga) as [I1 R1]. cbv zeta in I1, R1. apply IH; [done| | |].
    + by rewrite (rs_control _ _ R1).
    + by eapply live_resume_waiter.
    + intros x Hx. apply Hl. by right.
Qed.

Lemma resume_dependencies l : ∀ s, sm_dependencies (foldl resume_waiter s l) = sm_dependencies s.
Proof.
  induction l as [|a l IH]; intros s; [done|]. cbn [foldl]. rewrite IH. unfold resume_waiter. by case_match.
Qed.

(** The waiters of the incarnations of [i] that are still to be resolved. *)
Definition unresolved (s : stm) (i : N) (k n : nat) (t : SchedulerTask) : Prop :=
  ∃ m : nat, (k <= m < k + n)%nat ∧ t ∈ waiters s (MkVersion i (N.of_nat m)).

Lemma live_resolve G i n : ∀ k s,
  Inv G s → marking (sm_control s) = false → Live (unresolved s i k n) s →
  Live nobody (foldl (resolve_incarnation i) s (seq k n)).
Proof.
  induction n as [|n IH]; intros k s I Hm L.
  { eapply live_excuse; [exact L|]. intros j _ _ (m & ? & _). lia. }
  cbn [seq foldl]. set (v := MkVersion i (N.of_nat k)).
  set (s1 := set_dependencies (ResolveTasks v (sm_dependencies s)).1 s).
  destruct (inv_resolve G i [k] s I Hm) as [I2 R2]. cbn [foldl] in I2, R2.
  apply IH; [exact I2|by rewrite (rs_control _ _ R2)|]. clear IH.
  change (resolve_incarnation i s k) with (foldl resume_waiter s1 (waiters s v)) in *.
  assert (∀ d, d ≠ v → waiters s1 d = waiters s d) as Hother.
  { intros d Hd. unfold waiters. cbn. by rewrite lookup_delete_ne. }
  assert (∀ t, unresolved (foldl resume_waiter s1 (waiters s v)) i (S k) n t ↔ unresolved s1 i (S k) n t) as Eu.
  { intros t. unfold unresolved, waiters. by rewrite resume_dependencies. }
  eapply live_excuse; [|intros j _ _; apply Eu].
  apply (live_resume_all _ G); [|done| |].
  - apply inv_dependencies; [done|]. cbn. intros d l' t [_ Hl']%lookup_delete_Some. by eapply (i_registry _ _ _ _ _ I).
  - destruct L. split; try done.
    + intros d t. cbn. unfold waiters. cbn. destruct (decide (d = v)) as [->|Hne].
      * rewrite lookup_delete_eq. cbn. set_solver.
      * rewrite !lookup_delete_ne by done. apply l_seen0.
    + intros j Hj Hw. destruct (l_waiting0 j Hj Hw) as [(m & Hm' & Ht)|(d & Ht & Hp)].
      * left. destruct (decide (m = k)) as [->|Hne]; [by left|right]. exists m. split; [lia|].
        rewrite Hother; [done|]. intros Ev. injection Ev as Ev. lia.
      * destruct (decide (d = v)) as [->|Hne]; [by left; left|right]. exists d. by rewrite Hother.
  - intros t Ht. unfold waiters in Ht. destruct (dr_waiters (sm_dependencies s) !! v) as [l'|] eqn:E;
      [by eapply (i_registry _ _ _ _ _ I)|by apply elem_of_nil in Ht].
Qed.

Lemma live_record s r :
  length (sm_slots s) = txCount b → Live nobody s → v_Txn (tr_Version r) < total →
  sl_executed (slot_at s (v_Txn (tr_Version r))) = false →
  sl_waiting (slot_at s (v_Txn (tr_Version r))) = false →
  v_Incarnation (tr_Version r) = sl_incarnation (slot_at s (v_Txn (tr_Version r))) →
  let s' := record_execution r s in
  Live (unresolved s' (v_Txn (tr_Version r)) 0 (N.to_nat (v_Incarnation (tr_Version r)))) s'.
Proof.
  intros Hlen L Hi Hx Hw Einc s'. set (i := v_Txn (tr_Version r)) in *.
  set (s1 := put_readSet i (tr_ReadSet r) (update_slot i (with_result r) s)).
  destruct (indexCapturedReads_frame i (tr_Captured r) s1) as ((Em & Ea & Ec & _ & Ev & _) & Esl & Esc & Edp & _).
  assert (∀ j, queued_at s' j = queued_at s j) as Hq.
  { intros j. unfold s', record_execution, indexCapturedReads. fold i. by destruct (foldl _ _ _). }
  change (indexCapturedReads i (tr_Captured r) s1) with s' in *.
  change (sm_memory s1) with (sm_memory s) in Em. change (sm_active s1) with (sm_active s) in Ea.
  change (sm_control s1) with (sm_control s) in Ec. change (sm_validatedCount s1) with (sm_validatedCount s) in Ev.
  change (sm_scheduler s1) with (sm_scheduler s) in Esc. change (sm_dependencies s1) with (sm_dependencies s) in Edp.
  change (sm_slots s1) with (alter (with_result r) (N.to_nat i) (sm_slots s)) in Esl. clearbody s'. clear s1.
  assert (slot_at s' i = with_result r (slot_at s i)) as Ei.
  { change (slot_at s' i) with (entry_at (sm_slots s') i). rewrite Esl, entry_update, decide_True; [done|].
    by rewrite Hlen. }
  assert (∀ j, j ≠ i → slot_at s' j = slot_at s j) as Eo.
  { intros j Hj. change (slot_at s' j) with (entry_at (sm_slots s') j). rewrite Esl. by apply slot_other. }
  assert (∀ j, sl_incarnation (slot_at s' j) = sl_incarnation (slot_at s j)) as Hinc.
  { intros j. destruct (decide (j = i)) as [->|]; [by rewrite Ei|by rewrite Eo]. }
  assert (∀ v, superseded s v → superseded s' v) as Hs by (intros v; unfold superseded; by rewrite Hinc, Ec).
  destruct L. split.
  - intros j Hj. rewrite Esc. intros Hst. specialize (l_status0 j Hj Hst).
    destruct (decide (j = i)) as [->|]; [congruence|by rewrite Eo].
  - intros j Hj. rewrite Hq. intros Hqj. destruct (l_queued0 j Hj Hqj) as (H1 & H2 & H3).
    assert (j ≠ i) as Hne by (intros ->; congruence).
    unfold validation_of, version_at, present. rewrite Eo, Esc, Ea by done. done.
  - unfold waiters. by rewrite Edp.
  - intros j Hj Hwj. assert (j ≠ i) as Hne by (intros ->; by rewrite Ei in Hwj).
    rewrite Eo in Hwj by done. unfold version_at. rewrite Eo by done.
    destruct (l_waiting0 j Hj Hwj) as [[]|(d & Ht & H1 & H2 & H3)].
    destruct (decide (v_Txn d = i)) as [Ed|Ed].
    + left. exists (N.to_nat (v_Incarnation d)). rewrite Ed in H2. split; [lia|].
      unfold waiters. rewrite Edp. replace (MkVersion i (N.of_nat (N.to_nat (v_Incarnation d)))) with d; [done|].
      rewrite N2Nat.id, <- Ed. by destruct d.
    + right. exists d. unfold waiters, pending. rewrite Edp, Eo by done. by split_and!.
  - intros key y. rewrite Em. intros Hy He. apply Hs. by eapply l_estimates0.
  - intros w d. rewrite Ea. intros Hwa Hd. destruct (l_dependencies0 w d Hwa Hd). by split; [|apply Hs].
  - rewrite Ec, Ev. done.
  - by rewrite Ec.
Qed.

Lemma live_process_executed s p r n :
  Inv no_threat s → bounded n s → n + 1 < 2 ^ 32 → Live nobody s → sm_active s !! p = Some (WDone r) →
  tr_Kind r = TaskExecute → tr_Err r = None → tr_Dependency r = None → sm_control s = CSelect →
  Live nobody (process_executed r (set_active (delete p (sm_active s)) s)).
Proof.
  intros I B Hn L Hp Kr Her Hd Hct. unfold process_executed.
  set (i := v_Txn (tr_Version r)). set (s0 := set_active _ s).
  assert (marking (sm_control s) = false) as Hm by by rewrite Hct.
  destruct (i_workers _ _ _ _ _ I (WDone r)) as (Hi & _ & Hw); [by eapply list_elem_of_lookup_2|].
  change (kind_of (WDone r)) with (tr_Kind r) in Hw. rewrite Kr in Hw. destruct Hw as (Einc & Hx & Hwt & _).
  assert (Live nobody s0) as L0.
  { eapply (live_remove nobody s s0 p (WDone r)); try done. intros j Hj Hq. split; [done|]. cbn. rewrite Kr. done. }
  pose proof (live_record s0 r (i_length _ _ _ _ _ I) L0 Hi Hx Hwt Einc) as L1. cbv zeta in L1. fold i in L1.
  pose proof (inv_record s p r I Hp Kr Her Hd Hm) as I1. cbv zeta in I1. fold s0 in I1.
  assert (marking (sm_control (record_execution r s0)) = false) as Hm1.
  { unfold record_execution. rewrite (proj1 (proj2 (proj2 (proj1 (indexCapturedReads_frame _ _ _))))). exact Hm. }
  assert (bounded n (record_execution r s0)) as B1.
  { unfold record_execution. fold i. apply (bounded_alter n s _ i (with_result r)); [|done|apply B..].
    by rewrite (proj1 (proj2 (indexCapturedReads_frame _ _ _))). }
  change (indexCapturedReads i (tr_Captured r) (put_readSet i (tr_ReadSet r) (update_slot i (with_result r) s0)))
    with (record_execution r s0).
  set (s1 := record_execution r s0) in *. clearbody s1.
  pose proof (live_resolve _ i _ 0 s1 I1 Hm1 L1) as L2.
  destruct (inv_resolve _ i (seq 0 (N.to_nat (v_Incarnation (tr_Version r)))) s1 I1 Hm1) as [I2 R2].
  cbv zeta in I2, R2. set (s2 := foldl (resolve_incarnation i) s1 _) in *. clearbody s2.
  destruct (live_scheduleValidation _ s2 i (inv_synced _ _ I2) L2) as [L3 Sy3].
  pose proof (still_scheduleValidation i s2) as S3. pose proof (inv_scheduleValidation _ s2 i I2) as I3.
  set (s3 := (scheduleValidation i s2).1) in *. clearbody s3.
  destruct (inv_invalidate n s3 r I3) as (_ & _ & C4); [|done|].
  { eapply bounded_still; [done|]. by apply (rs_bounded _ _ R2). }
  cbv zeta in C4. fold i in C4.
  apply live_control; [|by rewrite (ca_control _ _ C4), (st_control _ _ S3), (rs_control _ _ R2)|done..].
  case_match; [|done]. by apply live_revalidate_all.
Qed.

(** ** A validation *)

Lemma live_process_validation s p r :
  Inv no_threat s → Live nobody s → sm_active s !! p = Some (WDone r) → tr_Kind r = TaskValidate →
  sm_control s = CSelect → Live nobody (process_validation r (set_active (delete p (sm_active s)) s)).
Proof.
  intros I L Hp Kr Hct. unfold process_validation. set (i := v_Txn (tr_Version r)).
  set (s1 := put_queued i false _).
  assert (marking (sm_control s) = false) as Hm by by rewrite Hct.
  assert (∀ j, queued_at s1 j = true → j ≠ i ∧ queued_at s j = true) as Hq1.
  { intros j H. apply (queued_put i false (set_active (delete p (sm_active s)) s)) in H as [[_ H]|H]; done. }
  assert (Live nobody s1) as L1.
  { eapply (live_remove nobody s s1 p (WDone r)); try done. intros j Hj Hq. destruct (Hq1 j Hq) as [Hne Hqs].
    split; [done|]. cbn. unfold validation_of. intros E. apply (f_equal (λ t, v_Txn (tk_Version t))) in E.
    cbn in E. by apply Hne. }
  case_match; [|by apply live_control].
  apply live_control; [|done..]. set (s2 := set_validatedCount _ _).
  apply (live_transfer nobody s1); try done; [cbn; by rewrite Hct|apply grows_commit, I|..].
  - intros j. split_and!; by apply (field_update _ (with_validated true) i s1).
  - intros j Hj Hq. destruct (Hq1 j Hq) as [Hne _]. left. split; [exact Hq|].
    exact (slot_elsewhere i (with_validated true) s1 j Hne).
Qed.

(** ** An abort *)

Lemma live_mark s r ks key :
  Inv no_threat s → Live nobody s → sm_control s = CMark r ks →
  Live nobody (set_control (CMark r (ks ∖ {[key]}))
    (set_memory (MarkEstimate (sm_memory s) key (tr_Version r)) s)).
Proof.
  intros I [] Hct. set (s' := set_control _ _).
  assert (∀ v, superseded s v → superseded s' v) as Hs.
  { intros v [H|(r' & ks' & E & Ev)]; [by left|right]. rewrite Hct in E. injection E as <- <-. by repeat eexists. }
  split; try done.
  - intros k y Sy He. apply stored_upsert in Sy as [[-> [->|[Sy _]]]|[_ Sy]];
      [right; by repeat eexists|apply Hs; by eapply l_estimates0..|apply I].
  - intros w d Hw Hd. destruct (l_dependencies0 w d Hw Hd). by split; [|apply Hs].
Qed.

Lemma live_retire n s r :
  Inv no_threat s → bounded n s → n + 1 < 2 ^ 32 → Live nobody s → sm_control s = CMark r ∅ →
  Live nobody (retire r s).
Proof.
  intros I B Hn L Hct. pose proof (i_control _ _ _ _ _ I) as Hc. rewrite Hct in Hc. cbn in Hc.
  set (i := v_Txn (tr_Version r)) in *.
  change (entry_at (sm_slots s) i) with (slot_at s i) in Hc. destruct Hc as (Hi & Einc & Hx & Hv & _).
  destruct (retire_frame n s r I B Hn Hi Einc) as (Esl & Em & Ea & Ec & _ & Ev & _ & Edp & _).
  fold i in Esl. assert (∀ j, queued_at (retire r s) j = true → j ≠ i ∧ queued_at s j = true) as Hq.
  { intros j H. unfold retire in H. destruct (Abort (tr_Version r) (sm_scheduler s)) as [sch next].
    apply (queued_put i false s) in H as [[_ H]|H]; done. }
  assert ((∀ t, t ∈ tasks (sm_scheduler s) → t ∈ tasks (sm_scheduler (retire r s))) ∧
    ∀ j, sc_statuses (sm_scheduler (retire r s)) !! j = Some StatusWaiting →
      j ≠ i ∧ sc_statuses (sm_scheduler s) !! j = Some StatusWaiting) as [Ht Hst].
  { unfold retire, Abort, abortLocked. fold i.
    rewrite (i_incarnations _ _ _ _ _ I i Hi), Einc, bool_decide_eq_true_2 by done. cbn [negb].
    set (next := MkVersion _ _). set (s1 := set_aborts _ _).
    assert (sc_ok (set_status i StatusAborted s1)) as O by (apply sc_ok_status; by destruct (i_scheduler _ _ _ _ _ I)).
    destruct (enqueue_spec (MkTask TaskExecute next 0) _ O) as (_ & _ & V & T). split.
    - intros t Hin. change (sm_scheduler _) with (enqueueLocked (MkTask TaskExecute next 0) (set_status i StatusAborted s1)).
      rewrite T. by right.
    - intros j. change (sm_scheduler _) with (enqueueLocked (MkTask TaskExecute next 0) (set_status i StatusAborted s1)) at 1.
      apply (f_equal (λ v, v.1.1.1)) in V. cbn in V. rewrite V. rewrite lookup_insert_Some. naive_solver. }
  set (s' := retire r s) in *. clearbody s'. set (f := retired _ _) in *.
  assert (slot_at s' i = f (slot_at s i)) as Ei.
  { change (slot_at s' i) with (entry_at (sm_slots s') i). rewrite Esl, entry_update, decide_True; [done|].
    by rewrite (i_length _ _ _ _ _ I). }
  assert (∀ j, j ≠ i → slot_at s' j = slot_at s j) as Eo.
  { intros j Hj. change (slot_at s' j) with (entry_at (sm_slots s') j). rewrite Esl. by apply slot_other. }
  assert (∀ v, superseded s v → superseded s' v) as Hs.
  { intros v [H|(r' & ks & E & <-)].
    - left. destruct (decide (v_Txn v = i)) as [Ev'|]; [|by rewrite Eo]. rewrite Ev' in *. rewrite Ei. cbn. lia.
    - left. rewrite Hct in E. injection E as <- <-. fold i. rewrite Ei, Einc. cbn. lia. }
  destruct L. split.
  - intros j Hj H. destruct (Hst j H) as [Hne H']. rewrite Eo by done. by apply l_status0.
  - intros j Hj H. destruct (Hq j H) as [Hne Hqs]. destruct (l_queued0 j Hj Hqs) as (H1 & H2 & H3).
    unfold validation_of, version_at, present. rewrite Eo, Ea by done. split_and!; [done..|].
    destruct H3 as [H3|H3]; [left; by apply Ht|by right].
  - unfold waiters. by rewrite Edp.
  - intros j Hj Hw. destruct (decide (j = i)) as [->|Hne]; [by rewrite Ei in Hw|].
    rewrite Eo in Hw by done. destruct (l_waiting0 j Hj Hw) as [[]|(d & H0 & H1 & H2 & H3)]. right. exists d.
    assert (v_Txn d ≠ i) by (intros E; rewrite E in H3; congruence).
    unfold waiters, version_at, pending. rewrite Edp, !Eo by done. done.
  - intros key y. rewrite Em. intros Hy He. apply Hs. by eapply l_estimates0.
  - intros w d. rewrite Ea. intros Hwa Hd. destruct (l_dependencies0 w d Hwa Hd). by split; [|apply Hs].
  - by rewrite Ec.
  - by rewrite Ec.
Qed.

(** ** Every step *)

(** Until the executor has returned or is cancelled. *)
Definition lively (s : stm) : Prop :=
  sm_cancelled s = false → answered s ∨ Live nobody s.

Lemma live_abort n s r :
  Inv no_threat s → bounded n s → n + 1 < 2 ^ 32 → Live nobody s → sm_control s = CMark r ∅ →
  answered (abort_execution e b base r s) ∨ Live nobody (abort_execution e b base r s).
Proof.
  intros I B Hn L Hct. pose proof (live_retire n s r I B Hn L Hct) as L1.
  destruct (inv_retire n s r I B Hn Hct) as (I1 & _). set (i := v_Txn (tr_Version r)) in *.
  assert (abort_execution e b base r s =
    let s2 := foldl (λ s higher, revalidate higher s) (retire r s) (indexes (i + 1) (retire r s)) in
    match incarnation_limit e b base i s2 with
    | Some outcome => set_control (CReturn outcome) s2
    | None => s2
    end) as ->.
  { unfold abort_execution, retire. by destruct (Abort (tr_Version r) (sm_scheduler s)). }
  destruct (live_revalidate_all _ (indexes (i + 1) (retire r s)) (retire r s) (inv_synced _ _ I1) L1) as [L2 _].
  cbv zeta. destruct (incarnation_limit _ _ _ _ _) as [o|] eqn:Elim; [|by right].
  left. exists o. split; [done|by eapply answers_limit].
Qed.

Lemma live_step_result n s p s' :
  Inv no_threat s → bounded n s → n + 1 < 2 ^ 32 → Live nobody s → sm_control s = CSelect →
  step_result e b base p s = Some s' → errors_ok s → sm_cancelled s = false → answered s' ∨ Live nobody s'.
Proof.
  intros I B Hn L Hct H He Hcs. unfold step_result in H. destruct (sm_active s !! p) as [w|] eqn:Hp; [|done].
  cbn in H. destruct w as [| | | |r]; try done. injection H as <-.
  assert (WDone r ∈ sm_active s) as Hw by by eapply list_elem_of_lookup_2.
  set (s0 := set_active (delete p (sm_active s)) s). set (i := v_Txn (tr_Version r)).
  assert (marking (sm_control s) = false) as Hm by by rewrite Hct.
  unfold process_result. destruct (tr_Err r) as [text|] eqn:Her.
  { destruct (He r text Hw Her). congruence. }
  destruct (tr_Kind r) eqn:Kr.
  - change (stale r s0) with (stale r s). rewrite (not_stale _ _ _ I Hw Kr).
    destruct (tr_Dependency r) as [d|] eqn:Hd; [|right; by eapply live_process_executed].
    destruct (i_workers _ _ _ _ _ I _ Hw) as (Hi & _ & H). change (kind_of (WDone r)) with (tr_Kind r) in H.
    rewrite Kr in H. destruct H as (Einc & Hx & _).
    destruct (l_dependencies _ _ L (WDone r) d Hw Hd) as [Hlt Hsup].
    apply (live_process_dependency nobody s0 r d); try done.
    + eapply inv_remove; [done..|]. cbn. by rewrite Kr, Hd.
    + eapply (live_remove nobody s s0 p (WDone r)); try done. intros j Hj Hq. split; [done|]. cbn. by rewrite Kr.
    + pose proof (proj1 (B i)) as Hb. change (slot_at s0) with (slot_at s). fold i. lia.
  - destruct (stale r s0) eqn:Est; [|right; by apply live_process_validation].
    right. apply live_control; [|done..].
    eapply (live_remove nobody s s0 p (WDone r)); try done. intros j Hj Hq. split; [done|]. cbn. intros E.
    unfold validation_of, version_at in E. injection E as _ Ev Eg.
    destruct (l_queued _ _ L j Hj Hq) as (_ & Hv & _).
    unfold stale in Est. change (slot_at s0) with (slot_at s) in Est.
    rewrite Ev in Est. cbn [v_Txn v_Incarnation] in Est. rewrite Hv, Eg in Est.
    rewrite !bool_decide_eq_true_2 in Est by done. unfold in_range in Est. cbn [sm_slots] in Est.
    change (sm_slots s0) with (sm_slots s) in Est. rewrite (i_length _ _ _ _ _ I) in Est.
    by rewrite (proj2 (N.ltb_lt j total)) in Est.
Qed.

Lemma live_fill_control s : Live nobody s → marking (sm_control s) = false →
  (sm_validatedCount s < Z.of_nat (txCount b))%Z → Live nobody (set_control CFill s).
Proof.
  intros [] Hm Hc. assert (∀ v, superseded s v → superseded (set_control CFill s) v) as Hs.
  { intros v [H|(r & ks & H & _)]; [by left|by rewrite H in Hm]. }
  split; try done.
  - intros key y Hy He. apply Hs. by eapply l_estimates0.
  - intros w d Hw Hd. destruct (l_dependencies0 w d Hw Hd). by split; [|apply Hs].
Qed.

Lemma live_step n s c s' :
  Inv no_threat s → bounded n s → n + 1 < 2 ^ 32 → errors_ok s → lively s →
  step e b base baseCommitment c s = Some s' → lively s'.
Proof.
  intros I B Hn He Hl H Hcan. destruct c as [|p key| |g g'|p| |key]; cbn [step] in H.
  - by injection H as <-.
  - assert (sm_cancelled s = false ∧ sm_control s' = sm_control s) as [Hcs Ec].
    { unfold step_worker in H. destruct (sm_active s !! p) as [w|]; [|done]. cbn in H.
      destruct (worker_step _ _ _ _ _ _ _) as [[m w']|]; [|done]. cbn in H. by injection H as <-. }
    destruct (Hl Hcs) as [(o & Ho & Ha)|L]; [left; exists o; split; [congruence|done]|right].
    by eapply live_step_worker.
  - destruct (sm_control s) eqn:Hct; try done. injection H as <-. unfold step_top in *.
    destruct (sm_validatedCount s <? _)%Z eqn:Ec.
    2: { left. eexists. split; [done|]. apply answers_finished. apply counted_settled; [done|by rewrite Hct|].
         by apply Z.ltb_ge in Ec. }
    destruct (sm_cancelled s) eqn:Hcs; [cbn in Hcan; congruence|].
    destruct (Hl Hcs) as [(o & Ho & _)|L]; [congruence|right].
    destruct (live_ready _ s (inv_synced _ _ I) L) as [L1 _].
    apply live_fill_control; [done|by rewrite (st_control _ _ (still_ready s)), Hct|].
    rewrite scheduled_count. by apply Z.ltb_lt.
  - destruct (sm_control s) eqn:Hct; try done. destruct ((g || g') && negb (sm_cancelled s)) eqn:Eg; [done|].
    injection H as <-. rewrite (fl_cancelled _ _ (fill_filled g g' s)) in Hcan.
    rewrite Hcan, andb_true_r in Eg. apply orb_false_iff in Eg as [-> ->].
    destruct (Hl Hcan) as [(o & Ho & _)|L]; [congruence|right]. by apply live_fill.
  - destruct (sm_control s) eqn:Hct; try done.
    assert (sm_cancelled s = false) as Hcs.
    { unfold step_result in H. destruct (sm_active s !! p) as [w|] eqn:Hp; [|done]. cbn in H.
      destruct w; try done. injection H as <-.
      destruct (process_result_frame (e := e) (b := b) (base := base) (baseCommitment := baseCommitment) result
        (set_active (delete p (sm_active s)) s)) as (_ & F2 & _); [done| |by rewrite F2 in Hcan].
      intros text. apply He. by eapply list_elem_of_lookup_2. }
    destruct (Hl Hcs) as [(o & Ho & _)|L]; [congruence|]. by eapply live_step_result.
  - destruct (sm_control s) eqn:Hct; try done. case_match eqn:Ec; [|done]. injection H as <-. cbn in Hcan. congruence.
  - destruct (sm_control s) as [| | |r ks|] eqn:Hct; try done. case_bool_decide as E.
    + injection H as <-. subst ks.
      destruct (abort_frame (e := e) (b := b) (base := base) (baseCommitment := baseCommitment) r s) as (_ & F2 & _).
      rewrite F2 in Hcan. destruct (Hl Hcan) as [(o & Ho & _)|L]; [congruence|]. by eapply live_abort.
    + case_bool_decide; [|done]. injection H as <-. destruct (Hl Hcan) as [(o & Ho & _)|L]; [congruence|right].
      by apply live_mark.
Qed.

Lemma live_initial : total <= 2 ^ 32 → Live nobody (initial_stm e b).
Proof.
  intros Hn. destruct (new_scheduler_fresh (txCount b) (defaultTxnOrder (txCount b))
    (bs_SchedulerMode e ≟ "priority_heap_v1") Hn) as (seen & (_ & _ & _ & Hs & _) & _).
  assert (∀ j, slot_at (initial_stm e b) j = zero_slot) as Ez.
  { intros j. unfold slot_at. cbn. destruct (replicate _ _ !! _) as [t|] eqn:E; [|done].
    by apply lookup_replicate in E as [-> _]. }
  split.
  - intros j Hj Hst. change (sm_scheduler _) with (newSchedulerWithOrder (txCount b)
      (defaultTxnOrder (txCount b)) (bs_SchedulerMode e ≟ "priority_heap_v1")) in Hst.
    rewrite Hs in Hst. by case_decide.
  - intros j Hj Hq. unfold queued_at in Hq. cbn in Hq.
    destruct (replicate _ false !! _) as [t|] eqn:E; [|done]. by apply lookup_replicate in E as [-> _].
  - intros d t. cbn. rewrite lookup_empty. cbn. set_solver.
  - intros j Hj. by rewrite Ez.
  - by intros key y Hy%not_elem_of_nil.
  - by intros w d ?%elem_of_nil.
  - done.
  - done.
Qed.
End live.
