(* ===== verification/BlockStmTheorems.v ===== *)
(** * Block-STM is equivalent to serial execution

    The theorems about the executor: whatever the interleaving of workers and
    coordinator, what it returns is the serial result; it never stalls. *)
From S2P Require Import Prelude GoStd Tx Block StateRoot MvMemory MvLatest Heap Scheduler Serial SerialProps Footprint BlockStm BlockStmInv BlockStmSteps BlockStmResults BlockStmSerial BlockStmLive.
Local Open Scope N_scope.
#[local] Opaque Sha256.sum256 sha256_hex Json.marshal.

Section runs.
Context {e : BlockSTMExecutor} {b : Block} {base : gmap string string}.
Context {baseCommitment : option commitmentNode}.

#[local] Abbreviation total := (N.of_nat (txCount b)).
#[local] Abbreviation Inv := (Inv e b base).
#[local] Abbreviation outcome_ok := (outcome_ok (e := e) (b := b) (base := base) (baseCommitment := baseCommitment)).
#[local] Abbreviation lively := (lively (e := e) (b := b) (base := base) (baseCommitment := baseCommitment)).

(** The coordinator waits only for workers that are there. *)
Definition select_ok (s : stm) : Prop := sm_control s = CSelect → sm_active s ≠ [].

Lemma select_fill g g' s : sm_control s = CFill → select_ok (fill e g g' s).
Proof.
  intros Hct Hs. assert (1 <= workerCount e)%Z as Hwc by (unfold workerCount; case_match; lia).
  unfold fill in *. case_match eqn:Eb.
  - destruct (dispatch_frame g s) as [Ec Ha]. destruct (dispatch g s) as [s1 f1]. cbn [fst snd] in *.
    destruct f1; [congruence|]. specialize (Ha eq_refl). case_match eqn:E0.
    + exfalso. unfold idle in Hs. destruct (scheduleReadyValidations s1) as [s2 f2].
      destruct (foldl schedule_execution (s2, f2) _) as [s3 f3]. destruct f3; [|done].
      destruct (dispatch g' s3) as [s4 f4]. by destruct f4.
    + cbn. rewrite Ha. intros E. by rewrite E in E0.
  - cbn. intros E. rewrite E in Eb. apply Z.ltb_ge in Eb. cbn in Eb. lia.
Qed.

Lemma process_leaves r s : sm_control (process_result e b base r s) ≠ CSelect.
Proof.
  unfold process_result. case_match; [done|]. case_match; [done|]. case_match.
  - case_match; [|done]. unfold process_dependency. repeat (case_match; [done|]).
    destruct (AbortAndWait _ _). by case_match.
  - unfold process_validation. by case_match.
Qed.

Lemma abort_leaves r s : sm_control (abort_execution e b base r s) ≠ CSelect.
Proof.
  unfold abort_execution. destruct (Abort _ _) as [sch next]. set (s1 := clearReadIndex _ _).
  set (s2 := foldl _ s1 _). assert (keeps s1 s2) as (_ & _ & K).
  { apply keeps_foldl. intros. apply keeps_revalidate. }
  clearbody s2. case_match; [done|]. by rewrite K.
Qed.

Lemma select_step s c s' : select_ok s → step e b base baseCommitment c s = Some s' → select_ok s'.
Proof.
  intros Hs H. destruct c as [|p key| |g g'|p| |key]; cbn [step] in H.
  - by injection H as <-.
  - unfold step_worker in H. destruct (sm_active s !! p) as [w|] eqn:Hp; [|done]. cbn in H.
    destruct (worker_step _ _ _ _ _ _ _) as [[m w']|]; [|done]. cbn in H. injection H as <-. intros E E'.
    cbn in E'. apply (f_equal length) in E'. rewrite length_insert in E'. apply lookup_lt_Some in Hp. cbn in E'. lia.
  - destruct (sm_control s) eqn:Hct; try done. injection H as <-. unfold step_top. by repeat case_match.
  - destruct (sm_control s) eqn:Hct; try done. case_match; [done|]. injection H as <-. by apply select_fill.
  - destruct (sm_control s) eqn:Hct; try done. unfold step_result in H.
    destruct (sm_active s !! p) as [w|]; [|done]. cbn in H. destruct w; try done. injection H as <-.
    intros E. by apply process_leaves in E.
  - destruct (sm_control s) eqn:Hct; try done. case_match; [|done]. by injection H as <-.
  - destruct (sm_control s) as [| | |r ks|] eqn:Hct; try done. case_bool_decide.
    + injection H as <-. intros E. by apply abort_leaves in E.
    + case_bool_decide; [|done]. by injection H as <-.
Qed.

(** A worker that is not done can move. *)
Lemma worker_moves c m w :
  (∀ r, w ≠ WDone r) → ∃ key m' w', worker_step e b base c key m w = Some (m', w').
Proof.
  intros Hw. destruct w as [input|input o [receipt|k next|k v next]|input o receipt clear rest|input [|x rest]|r];
    cbn; try (exists ""; by eauto); [exists "" | |by destruct (Hw r)].
  - destruct (stmOverlay_get m k o) as [o' v]. eauto.
  - destruct (decide (clear = ∅)) as [->|Hc].
    + destruct (decide (rest = ∅)) as [->|Hr]; [exists ""; by repeat eexists|].
      apply map_choose in Hr as (key & value & Hk). exists key. rewrite (bool_decide_eq_true_2 (∅ = ∅)) by done.
      rewrite bool_decide_eq_false_2, Hk; [by repeat eexists|]. intros ->. by rewrite lookup_empty in Hk.
    + apply set_choose_L in Hc as [key Hk]. exists key. rewrite bool_decide_eq_false_2 by set_solver.
      rewrite bool_decide_eq_true_2 by done. by repeat eexists.
Qed.

Lemma can_step s :
  select_ok s → (∀ o, sm_control s ≠ CReturn o) → ∃ c s', c ≠ ChCancel ∧ step e b base baseCommitment c s = Some s'.
Proof.
  intros Hs Ho. destruct (sm_control s) as [| | |r ks|o] eqn:Hct; [..|by destruct (Ho o)].
  - exists ChTop. cbn. rewrite Hct. by eexists.
  - exists (ChFill false false). cbn. rewrite Hct. by eexists.
  - destruct (sm_active s) as [|w l] eqn:Ha; [by destruct (Hs Hct)|].
    assert ((∃ r, w = WDone r) ∨ ∀ r, w ≠ WDone r) as [[r ->]|Hw] by (destruct w; eauto).
    + exists (ChResult 0). cbn. rewrite Hct. unfold step_result. rewrite Ha. by eexists.
    + destruct (worker_moves (sm_cancelled s) (sm_memory s) w) as (key & m' & w' & E); [done|].
      exists (ChWorker 0 key). cbn. unfold step_worker. rewrite Ha. cbn. rewrite E. by eexists.
  - destruct (decide (ks = ∅)) as [->|Hk].
    + exists (ChMark ""). cbn. rewrite Hct. rewrite bool_decide_eq_true_2 by done. by eexists.
    + apply set_choose_L in Hk as [key Hk]. exists (ChMark key). cbn. rewrite Hct.
      rewrite bool_decide_eq_false_2 by set_solver. rewrite bool_decide_eq_true_2 by done. by eexists.
Qed.

Lemma run_ok choices : ∀ n s s',
  Inv no_threat s → bounded n s → errors_ok s → outcome_ok s → lively s → select_ok s →
  n + N.of_nat (length choices) < 2 ^ 32 →
  run e b base baseCommitment choices s = Some s' →
  Inv no_threat s' ∧ outcome_ok s' ∧ lively s' ∧ select_ok s' ∧
  (sm_cancelled s' = true → sm_cancelled s = true ∨ ChCancel ∈ choices).
Proof.
  induction choices as [|c choices IH]; intros n s s' I B He Ho Hl Hs Hn H.
  { injection H as <-. split_and!; [done..|by left]. }
  cbn [run] in H. destruct (step e b base baseCommitment c s) as [s1|] eqn:Es; [|done]. cbn in H, Hn.
  destruct (inv_step n s c s1 I B ltac:(lia) Es) as [I1 B1].
  destruct (outcome_step s c s1 I He Ho Es) as (He1 & Ho1 & Hc1).
  pose proof (live_step n s c s1 I B ltac:(lia) He Hl Es) as Hl1. pose proof (select_step s c s1 Hs Es) as Hs1.
  destruct (IH (n + 1) s1 s' I1 B1 He1 Ho1 Hl1 Hs1 ltac:(lia) H) as (I2 & Ho2 & Hl2 & Hs2 & Hc2).
  split_and!; [done..|]. intros Hc. destruct (Hc2 Hc) as [Hsc|]; [|right; by right].
  destruct (Hc1 Hsc) as [| ->]; [by left|right; left].
Qed.

Lemma reached choices s :
  total <= 2 ^ 32 → N.of_nat (length choices) < 2 ^ 32 →
  run e b base baseCommitment choices (initial_stm e b) = Some s →
  outcome_ok s ∧ lively s ∧ select_ok s ∧ (sm_cancelled s = true → ChCancel ∈ choices).
Proof.
  intros Ht Hl H. destruct (inv_initial (e := e) (base := base) Ht) as [I B].
  destruct (run_ok choices 0 (initial_stm e b) s I B) as (_ & Ho & Hli & Hs & Hc); try done.
  - intros r text Hr. by apply elem_of_nil in Hr.
  - intros _. right. by apply live_initial.
  - split_and!; [done..|]. intros E. by destruct (Hc E).
Qed.


Lemma limit_outcome i s outcome :
  incarnation_limit e b base i s = Some outcome →
  (0 < bs_MaximumIncarnations e)%Z ∧
  (outcome = inr (serialFallbackResult e b base) ∨
   outcome = inl "block-stm maximum incarnations exceeded").
Proof.
  unfold incarnation_limit. case_match eqn:E; [|done]. apply andb_true_iff in E as [E _].
  apply Z.ltb_lt in E. intros H. injection H as <-. split; [done|]. case_match; [by left|by right].
Qed.


End runs.

Lemma serial_deltas initial b base :
  re_TxDeltas (ExecuteBlockDeltas initial b base) =
    without_root <$> re_TxDeltas (ExecuteBlock initial b base).
Proof.
  unfold ExecuteBlock, ExecuteBlockWithCommitment, ExecuteBlockDeltas. cbn [CloneOrBuild].
  destruct (delta_loop_spec initial b (TxList b) 0 base (NewCommitment base)) as [_ E].
  destruct (delta_loop _ _ _ _ _) as [w ds]. cbn in E. subst ds.
  by destruct (block_loop _ _ _ _ _) as [[w' c'] ds].
Qed.

(** Roots and reads are dropped in either order, and once is enough. *)
Lemma without_both (ds ds' : list TxDelta) :
  without_reads <$> ds = without_reads ∘ without_root <$> ds' →
  without_reads ∘ without_root <$> ds = without_reads ∘ without_root <$> ds'.
Proof.
  intros E. apply (f_equal (fmap without_root)) in E. rewrite <- !list_fmap_compose in E.
  exact E.
Qed.

Definition ids_ok (b : Block) : bool := forallb (λ item, TxID item ≠? "") (TxList b).

Lemma ids_ok_elim b item : ids_ok b = true → item ∈ TxList b → TxID item ≠ "".
Proof.
  intros H Hi. pose proof (forallb_elem _ _ item H Hi) as E. cbn in E.
  by apply negb_true_iff, bool_decide_eq_false in E.
Qed.


(** What every theorem below assumes of the block and of the base state: keys that
    the shard's prefix does not make ambiguous, transactions with an id, fewer
    than 2^32 transactions; and of the executor: the initial balance of the serial
    one, as its constructor sets it. *)
Definition block_ok (e : BlockSTMExecutor) (b : Block) (base : gmap string string) : bool :=
  well_keyed b base && ids_ok b && (N.of_nat (txCount b) <=? 2 ^ 32) &&
  (bs_DefaultInitialBalance e =? NewSerialExecutor)%Z.

Lemma block_ok_elim e b base :
  block_ok e b base = true →
  well_keyed b base = true ∧ ids_ok b = true ∧ N.of_nat (txCount b) <= 2 ^ 32 ∧
  bs_DefaultInitialBalance e = NewSerialExecutor.
Proof.
  unfold block_ok. rewrite !andb_true_iff, N.leb_le, Z.eqb_eq. tauto.
Qed.


(** the same of the delta mode: the deltas it returns, with write sets,
    receipts and errors, are those of the serial executor, without roots. *)
Theorem block_stm_deltas (e : BlockSTMExecutor) (b : Block) (base : gmap string string)
    (baseCommitment : option commitmentNode) (choices : list choice) (s : stm) (result : Result) :
  block_ok e b base = true → N.of_nat (length choices) < 2 ^ 32 → bs_deltaOnly e = true →
  run e b base baseCommitment choices (initial_stm e b) = Some s →
  sm_control s = CReturn (inr result) →
  without_reads ∘ without_root <$> re_TxDeltas result =
    without_reads <$> re_TxDeltas (ExecuteBlockDeltas NewSerialExecutor b base).
Proof.
  intros (W & Hid & Ht & Hinit)%block_ok_elim Hl Hd Hrun Ho. rewrite serial_deltas.
  destruct (reached choices s Ht Hl Hrun) as (Hout & _).
  rewrite <- list_fmap_compose. remember (inr result) as outcome eqn:Eo.
  destruct (Hout outcome Ho) as [Hcc|text Htext|outcome i s0 Hlim|s0 Se]; [done|done|..].
  - destruct (limit_outcome _ _ _ Hlim) as [_ [E|E]]; [|congruence]. rewrite E in Eo. by injection Eo as <-.
  - unfold finish in Eo. rewrite Hd in Eo.
    destruct (finish_deltas_serial s0 Se W (λ item, ids_ok_elim b item Hid)) as (r & Er & Hs).
    rewrite Er in Eo. injection Eo as ->. rewrite <- Hinit. by apply without_both.
Qed.

(** C23: the executor does not block. In every state that a run reaches and in which
    it has not returned, some worker or the coordinator can move: the coordinator
    never waits for a result when no worker is busy. *)
Theorem block_stm_progress (e : BlockSTMExecutor) (b : Block) (base : gmap string string)
    (baseCommitment : option commitmentNode) (choices : list choice) (s : stm) :
  block_ok e b base = true → N.of_nat (length choices) < 2 ^ 32 →
  run e b base baseCommitment choices (initial_stm e b) = Some s →
  (∀ outcome, sm_control s ≠ CReturn outcome) →
  ∃ c s', c ≠ ChCancel ∧ step e b base baseCommitment c s = Some s'.
Proof.
  intros (_ & _ & Ht & _)%block_ok_elim Hl Hrun Ho.
  destruct (reached choices s Ht Hl Hrun) as (_ & _ & Hs & _). by apply can_step.
Qed.

(** ** Samples *)

(** A transaction that adds one to a counter. *)
Definition sample_count (id key : string) : SignedTransaction :=
  MkTx id "" "a" "b" 0 1 [] [MkAccess key AccessCommutativeDelta "" 1] "" "" "" [] "" "" "" "" 0
    "" "" "" "" None.
Definition sample_counts : Block := sample_block [sample_count "t0" "c"; sample_count "t1" "c"].

Definition work (n : nat) (index : nat) : list choice := replicate n (ChWorker index "").

(** Two workers run both transactions at once; the second read the counter before
    the first wrote it, fails its validation, is marked and runs again. *)
Definition sample_run : list choice :=
  [ChTop; ChFill false false; ChFill false false; ChFill false false] ++
  concat (replicate 4 [ChWorker 0 ""; ChWorker 1 ""]) ++
  [ChWorker 0 "c"; ChWorker 1 "c"; ChWorker 0 ""; ChResult 0; ChTop; ChFill false false;
   ChFill false false; ChWorker 1 ""; ChWorker 0 ""; ChResult 0; ChTop; ChFill false false;
   ChFill false false; ChWorker 1 ""; ChWorker 0 ""; ChWorker 1 ""; ChResult 1; ChMark "c"; ChMark "";
   ChTop; ChFill false false; ChFill false false; ChWorker 0 ""; ChResult 0; ChTop; ChFill false false] ++
  work 4 0 ++
  [ChWorker 0 "c"; ChWorker 0 ""; ChResult 0; ChTop; ChFill false false; ChFill false false] ++
  work 3 0 ++ [ChResult 0; ChTop].

Definition returned (o : option stm) : bool :=
  match o with
  | Some s => match sm_control s with CReturn (inr _) => true | _ => false end
  | None => false
  end.


Definition delta_executor : BlockSTMExecutor :=
  MkExecutor 1000000 2 "performance" "off" 0 "fail" "priority_heap_v1" "suspend_same_incarnation_v1" true.

Lemma block_stm_deltas_witness :
  ∃ s result,
    run delta_executor sample_counts ∅ None sample_run (initial_stm delta_executor sample_counts) = Some s ∧
    sm_control s = CReturn (inr result) ∧
    without_reads ∘ without_root <$> re_TxDeltas result =
      without_reads <$> re_TxDeltas (ExecuteBlockDeltas NewSerialExecutor sample_counts ∅).
Proof.
  assert (returned (run delta_executor sample_counts ∅ None sample_run
    (initial_stm delta_executor sample_counts)) = true) as H by (vm_compute; reflexivity).
  destruct (run _ _ _ _ _ _) as [s|] eqn:Er; [|discriminate H]. unfold returned in H.
  destruct (sm_control s) as [| | | |[text|result]] eqn:Ec; try discriminate H.
  exists s, result. split; [reflexivity|]. split; [exact Ec|].
  refine (block_stm_deltas delta_executor sample_counts ∅ None sample_run s result _ _ eq_refl Er Ec);
    vm_compute; reflexivity.
Defined.

Lemma block_stm_progress_witness :
  ∃ c s', c ≠ ChCancel ∧
    step (NewBlockSTMExecutor 2) sample_counts ∅ None c
      (initial_stm (NewBlockSTMExecutor 2) sample_counts) = Some s'.
Proof.
  refine (block_stm_progress (NewBlockSTMExecutor 2) sample_counts ∅ None []
    (initial_stm (NewBlockSTMExecutor 2) sample_counts) _ _ eq_refl _);
    [vm_compute; reflexivity|vm_compute; reflexivity|]. intros outcome. discriminate.
Defined.

(** ** Keys with the shard's own prefix

    [qualify] leaves a key that contains [::] alone, so the serial executor reads
    [s0::c] from the state. [logicalSnapshot] has stripped the prefix from the
    state's keys, so Block-STM finds no such key and starts from the empty value:
    the counter that stood at 5 becomes 1 instead of 6. *)
Definition prefixed_block : Block := sample_block [sample_count "t0" "s0::c"].
Definition prefixed_state : gmap string string := {["s0::c" := "5"]}.
Definition performance_executor : BlockSTMExecutor :=
  MkExecutor 1000000 1 "performance" "off" 0 "fail" "legacy_scan_v1" "abort_new_incarnation_v1" false.
Definition prefixed_run : list choice :=
  [ChTop; ChFill false false; ChFill false false] ++ work 4 0 ++
  [ChWorker 0 "s0::c"; ChWorker 0 ""; ChResult 0; ChTop; ChFill false false; ChFill false false] ++
  work 3 0 ++ [ChResult 0; ChTop].

Definition value_after (o : option stm) : option string :=
  s ← o; match sm_control s with CReturn (inr r) => re_StateUpdates r !! "s0::c" | _ => None end.

(** a transaction that names a key of its own shard in qualified form: without
    the oracle the executor returns a result that is not the serial one. *)
Lemma own_prefix_diverges :
  value_after (run performance_executor prefixed_block prefixed_state None prefixed_run
    (initial_stm performance_executor prefixed_block)) = Some "1" ∧
  re_StateUpdates (ExecuteBlock NewSerialExecutor prefixed_block prefixed_state) !! "s0::c" = Some "6".
Proof. split; vm_compute; reflexivity. Qed.
