(* ===== verification/Reorder.v ===== *)
(** * Transactions executed side by side on one snapshot

    When no transaction reads what an earlier one of a sequence writes, executing
    all of them against one snapshot and applying their writes is executing the
    sequence serially; when their writes do not meet either, the order in which
    the writes are applied does not matter. The parallel executors are argued
    with this. *)
From S2P Require Import Prelude GoStd Tx Block StateRoot Serial SerialProps Footprint.
Local Open Scope N_scope.
#[local] Opaque Sha256.sum256 sha256_hex Json.marshal.

Lemma foldl_perm {A B} (f : B → A → B) (l1 l2 : list A) :
  l1 ≡ₚ l2 → NoDup l1 →
  (∀ x y s, x ∈ l1 → y ∈ l1 → x ≠ y → f (f s x) y = f (f s y) x) →
  ∀ s, foldl f s l1 = foldl f s l2.
Proof.
  induction 1 as [|x l1 l2 Hp IH|x y l|l1 l2 l3 H1 IH1 H2 IH2]; intros Hnd Hc s; simpl; [done|..].
  - apply NoDup_cons in Hnd as [_ Hnd]. apply IH; [done|]. intros ? ? ? ? ?. apply Hc; by right.
  - f_equal. apply Hc; [set_solver..|]. apply NoDup_cons in Hnd as [Hy _]. set_solver.
  - rewrite IH1 by done. apply IH2; [by rewrite <- H1|]. intros x y s' Hx Hy.
    apply Hc; by rewrite H1.
Qed.

Lemma StronglySorted_append {A} (R : A → A → Prop) l1 l2 :
  StronglySorted R l1 → StronglySorted R l2 → (∀ x y, x ∈ l1 → y ∈ l2 → R x y) →
  StronglySorted R (l1 ++ l2).
Proof.
  intros H1 H2 H. induction H1 as [|x l1 H1 IH Hx]; simpl; [done|]. constructor.
  - apply IH. intros y z Hy. apply H. by right.
  - apply Forall_app. split; [done|]. apply Forall_forall. intros y Hy. apply H; [left|done].
Qed.

Lemma StronglySorted_reverse {A} (R : A → A → Prop) l :
  StronglySorted R l → StronglySorted (flip R) (reverse l).
Proof.
  induction 1 as [|x l _ IH Hx]; [constructor|]. rewrite reverse_cons.
  apply StronglySorted_append; [done|repeat constructor|].
  intros y z Hy Hz%list_elem_of_singleton. rewrite elem_of_reverse in Hy. subst.
  rewrite Forall_forall in Hx. by apply Hx.
Qed.

Lemma StronglySorted_filter' {A} (R : A → A → Prop) (P : A → Prop) `{∀ x, Decision (P x)} l :
  StronglySorted R l → StronglySorted R (filter P l).
Proof.
  induction 1 as [|x l _ IH Hx]; [constructor|]. rewrite filter_cons. case_decide; [|done].
  constructor; [done|]. apply Forall_forall. intros y [_ Hy]%list_elem_of_filter.
  rewrite Forall_forall in Hx. by apply Hx.
Qed.

Lemma StronglySorted_weaken {A} (R R' : A → A → Prop) l :
  (∀ x y, x ∈ l → y ∈ l → R x y → R' x y) → StronglySorted R l → StronglySorted R' l.
Proof.
  intros H S. induction S as [|x l S IH Hx]; constructor.
  - apply IH. intros y z Hy Hz. apply H; by right.
  - apply Forall_forall. intros y Hy. apply H; [left|by right|]. rewrite Forall_forall in Hx. by apply Hx.
Qed.

(** ** Applying writes *)

Lemma shard_view_materialize_other shardID writes st key :
  (∀ k, is_Some (writes !! k) → qualify shardID k ≠ qualify shardID key) →
  shard_view shardID (materialize shardID writes st) key = shard_view shardID st key.
Proof.
  intros H. rewrite shard_view_materialize.
  - destruct (writes !! key) eqn:E; [|done]. exfalso. by eapply H; [by eexists|].
  - intros k Hk E. exfalso. by eapply H.
Qed.

Lemma materialize_comm shardID w1 w2 st :
  (∀ k1 k2, is_Some (w1 !! k1) → is_Some (w2 !! k2) → qualify shardID k1 ≠ qualify shardID k2) →
  materialize shardID w1 (materialize shardID w2 st) = materialize shardID w2 (materialize shardID w1 st).
Proof.
  intros H. unfold materialize.
  assert (∀ k1 k2, k1 ∈ sorted_keys w1 → k2 ∈ sorted_keys w2 → qualify shardID k1 ≠ qualify shardID k2) as Hk.
  { intros k1 k2 ?%elem_of_sorted_keys ?%elem_of_sorted_keys. by apply H. }
  clear H. revert Hk. generalize (sorted_keys w1) as l1, (sorted_keys w2) as l2. intros l1 l2 Hk.
  revert st. induction l1 as [|k l1 IH]; intros st; simpl; [done|].
  rewrite <- IH by (intros ? ? ?; apply Hk; by right). f_equal.
  clear IH. assert (∀ k2, k2 ∈ l2 → qualify shardID k ≠ qualify shardID k2) as H by (intros; by apply Hk; [left|]).
  clear Hk. revert st. induction l2 as [|k2 l2 IH]; intros st; simpl; [done|].
  rewrite IH by (intros ? ?; apply H; by right). f_equal. symmetry.
  apply insert_insert_ne, not_eq_sym, H. left.
Qed.

(** ** Side by side is one after the other *)

Section reorder.
Context (initial : Z) (b : Block).

(** A transaction with the index its delta carries. *)
Abbreviation job := (Z * SignedTransaction)%type.

Definition delta_on (st : gmap string string) (j : job) : TxDelta :=
  (ExecuteTransaction initial b j.2 st j.1).2.

(** [u] may come before [t]: [t] reads nothing [u] writes. *)
Definition may_precede (st : gmap string string) (u t : job) : Prop :=
  ∀ k ro, is_Some (td_WriteSet (delta_on st u) !! k) → ro ∈ td_ReadSet (delta_on st t) →
    qualify (ShardID b) k ≠ qualify (ShardID b) (ro_Key ro).

Definition apart (st : gmap string string) (u t : job) : Prop :=
  ∀ k1 k2, is_Some (td_WriteSet (delta_on st u) !! k1) → is_Some (td_WriteSet (delta_on st t) !! k2) →
    qualify (ShardID b) k1 ≠ qualify (ShardID b) k2.

Definition apply_job (st : gmap string string) (s : gmap string string) (j : job) : gmap string string :=
  materialize (ShardID b) (td_WriteSet (delta_on st j)) s.

Lemma tx_state_delta item st index :
  tx_state initial b item st = materialize (ShardID b) (td_WriteSet (delta_on st (index, item))) st.
Proof. unfold tx_state, delta_on. simpl. by rewrite (proj2 (ExecuteTransaction_run initial b item st index)). Qed.

Lemma side_by_side st order : ∀ st',
  StronglySorted (may_precede st) order →
  (∀ j ro, j ∈ order → ro ∈ td_ReadSet (delta_on st j) →
     shard_view (ShardID b) st' (ro_Key ro) = shard_view (ShardID b) st (ro_Key ro)) →
  final initial b order.*2 st' = foldl (apply_job st) st' order ∧
  ∀ k j, order !! k = Some j →
    delta_on (final initial b (take k order).*2 st') j = delta_on st j.
Proof.
  induction order as [|u order IH]; intros st' Hs Hr; [done|].
  apply StronglySorted_inv in Hs as [Hs Hu].
  assert (delta_on st' u = delta_on st u) as Eu.
  { unfold delta_on. f_equal. apply ExecuteTransaction_reads. intros ro Hro. apply (Hr u); [left|done]. }
  set (st1 := apply_job st st' u).
  assert (tx_state initial b u.2 st' = st1) as E1.
  { rewrite (tx_state_delta u.2 st' u.1). unfold st1, apply_job. rewrite <- Eu. by destruct u. }
  destruct (IH st1) as [Ef Ed]; [done| |].
  { intros j ro Hj Hro. rewrite <- (Hr j ro) by (by right || done). unfold st1, apply_job.
    apply shard_view_materialize_other. intros k Hk.
    rewrite Forall_forall in Hu. by apply (Hu j). }
  split.
  - change (final initial b (u :: order).*2 st') with (final initial b order.*2 (tx_state initial b u.2 st')).
    by rewrite E1, Ef.
  - intros [|k] j Hj; simplify_eq/=; [done|]. rewrite E1. by apply Ed.
Qed.

Lemma apply_perm st l1 l2 s :
  l1 ≡ₚ l2 → NoDup l1 → (∀ u t, u ∈ l1 → t ∈ l1 → u ≠ t → apart st u t) →
  foldl (apply_job st) s l1 = foldl (apply_job st) s l2.
Proof.
  intros Hp Hnd Ha. apply foldl_perm; [done|done|]. intros u t s' Hu Ht Hne.
  apply materialize_comm. intros k1 k2 H1 H2 E. by eapply (Ha u t).
Qed.
End reorder.
