(* ===== verification/Aria.v ===== *)
(** * The Aria block executor ([executor/realism/execution/aria_executor.go])

    A block is drained in epochs: every pending transaction is executed against
    the state at the start of the epoch, the read and write sets are entered in a
    table of reservations, the transactions that do not conflict with an earlier
    one are committed, the others are retried in the next epoch.

    The workers of an epoch are a [pool] and a schedule says how they interleave
    and when the context ends. Metrics and durations are left out. *)
From S2P Require Import Prelude GoStd GoText Tx Block StateRoot Serial WorkerPool.
Import Json.
Local Open Scope N_scope.

Definition AriaBlockExecutorID : string := "aria_block_executor".
Definition AriaBlockExecutorVersion : string := "0.2.0".

Record AriaExecutor := MkAria {
  ar_DefaultInitialBalance : Z;
  ar_WorkerCount : Z;
  ar_MaximumEpochs : Z;
  ar_Reordering : bool;
  ar_ReadOnlyOptimization : bool;
  ar_RetryNonceGaps : bool;
}.

Definition NewAriaExecutor (workerCount : Z) : AriaExecutor :=
  MkAria 1000000 (if (workerCount <? 1)%Z then 1 else workerCount) 0 true true true.

Record ariaAttempt := MkAttempt {
  aa_Index : nat;
  aa_Tx : SignedTransaction;
  aa_Delta : TxDelta;
  aa_Retryable : bool;
  aa_RetryReason : string;
}.

Record ariaConflict := MkConflict { co_WAW : bool; co_RAW : bool; co_WAR : bool }.

Record ariaReservationTable := MkReservations {
  rt_MinReader : gmap string nat;
  rt_MinWriter : gmap string nat;
}.

Record AriaEpochTrace := MkEpochTrace {
  et_Epoch : Z;
  et_CandidateIndexes : list nat;
  et_CommittedIndexes : list nat;
  et_DeferredIndexes : list nat;
  et_DeferredReasonByIndex : gmap nat string;
}.

Record ariaPlanEpoch := MkPlanEpoch {
  pe_Epoch : Z;
  pe_CandidateTransactionIDs : list string;
  pe_CommittedTransactionIDs : list string;
  pe_DeferredTransactionIDs : list string;
  pe_DeferredReasons : list string;
}.

(** The indexes of an epoch come from ranging over [b.TxList]. *)
Definition zero_tx : SignedTransaction :=
  MkTx "" "" "" "" 0 0 [] [] "" "" "" [] "" "" "" "" 0 "" "" "" "" None.
Definition tx_at (b : Block) (index : nat) : SignedTransaction :=
  default zero_tx (TxList b !! index).

(** ** Executing an epoch *)

(** [fmt.Sscanf(text, "nonce_mismatch_expected_%d_got_%d", &expected, &got)]. *)
Definition scan_nonce_mismatch (text : string) : option (N * N) :=
  s ← strip_prefix "nonce_mismatch_expected_" text;
  '(expected, s) ← scan_uint s;
  s ← strip_prefix "_got_" s;
  '(got, _) ← scan_uint s;
  Some (expected, got).

Definition ariaRetryableFailure (receipt : Receipt) (enabled : bool) : bool * string :=
  if negb enabled || rc_Success receipt then (false, "")
  else match scan_nonce_mismatch (rc_Error receipt) with
       | Some (expected, got) =>
           if expected <? got
           then (true, "aria_nonce_gap_expected_" +:+ format_uint expected +:+ "_got_" +:+ format_uint got)
           else (false, "")
       | None => (false, "")
       end.

(** What a worker does with one transaction. *)
Definition attempt_of (e : AriaExecutor) (b : Block) (snapshot : gmap string string) (index : nat)
    : ariaAttempt :=
  let item := tx_at b index in
  let '(overlay, receipt) := interp (executeTxWithoutStateRoot (ar_DefaultInitialBalance e) b item)
                               (newTxOverlay (ShardID b) snapshot) in
  let delta := delta_of item (Z.of_nat index) (to_reads overlay) (to_writes overlay) receipt in
  let '(retryable, reason) := ariaRetryableFailure receipt (ar_RetryNonceGaps e) in
  MkAttempt index item delta retryable reason.

(** The returned context, and the attempts unless it has ended; [None] when the
    schedule stops before the epoch's barrier. *)
Definition executeEpoch (e : AriaExecutor) (b : Block) (snapshot : gmap string string)
    (pending : list nat) (workerCount : Z) (schedule : list pool_choice) (cancelled : bool)
    : option (bool * option (list ariaAttempt)) :=
  match pending with
  | [] => Some (cancelled, Some [])
  | _ =>
      let workers := Z.to_nat (Z.max 1 (Z.min workerCount (Z.of_nat (length pending)))) in
      run_pool (λ position, attempt_of e b snapshot (default O (pending !! position)))
        (length pending) workers schedule cancelled
  end.

(** ** Reservations and conflicts *)

Definition uniqueAriaReadKeys (reads : list ReadObservation) : list string :=
  sortedSet (list_to_set (filter (λ key, key ≠ "") (ro_Key <$> reads))).

Definition sortedAriaWriteKeys (writes : gmap string string) : list string :=
  sort_strings (filter (λ key, key ≠ "") (map_to_list writes).*1).

Definition no_writes (a : ariaAttempt) : bool := size (td_WriteSet (aa_Delta a)) ≟ O.
Definition succeeded (a : ariaAttempt) : bool := rc_Success (td_Receipt (aa_Delta a)).
Definition skips_reservation (a : ariaAttempt) : bool :=
  aa_Retryable a || (negb (succeeded a) && no_writes a).

Definition reserve (tid : nat) (table : gmap string nat) (key : string) : gmap string nat :=
  let previous := default O (table !! key) in
  if (previous ≟ O) || (tid <? previous)%nat then <[key := tid]> table else table.

Fixpoint reserve_attempts (tid : nat) (attempts : list ariaAttempt) (table : ariaReservationTable)
    : ariaReservationTable :=
  match attempts with
  | [] => table
  | a :: rest =>
      reserve_attempts (S tid) rest
        (if skips_reservation a then table
         else MkReservations
                (foldl (reserve tid) (rt_MinReader table) (uniqueAriaReadKeys (td_ReadSet (aa_Delta a))))
                (foldl (reserve tid) (rt_MinWriter table) (sortedAriaWriteKeys (td_WriteSet (aa_Delta a)))))
  end.
Definition buildAriaReservations (attempts : list ariaAttempt) : ariaReservationTable :=
  reserve_attempts 1 attempts (MkReservations ∅ ∅).

(** [if x := table[key]; x != 0 && x < tid]. *)
Definition earlier (table : gmap string nat) (tid : nat) (key : string) : bool :=
  let x := default O (table !! key) in (x ≠? O) && (x <? tid)%nat.

Definition analyzeAriaConflict (a : ariaAttempt) (tid : nat) (table : ariaReservationTable)
    : ariaConflict :=
  let reads := uniqueAriaReadKeys (td_ReadSet (aa_Delta a)) in
  let writes := sortedAriaWriteKeys (td_WriteSet (aa_Delta a)) in
  MkConflict (existsb (earlier (rt_MinWriter table) tid) writes)
             (existsb (earlier (rt_MinWriter table) tid) reads)
             (existsb (earlier (rt_MinReader table) tid) writes).

Definition ariaConflictReason (conflict : ariaConflict) (reordering : bool) : string :=
  let parts := (if co_WAW conflict then ["waw"] else []) ++ (if co_RAW conflict then ["raw"] else []) ++
               (if co_WAR conflict then ["war"] else []) in
  let mode := if reordering then "rule2" else "rule1" in
  match parts with
  | [] => "aria_" +:+ mode +:+ "_deferred"
  | _ => "aria_" +:+ mode +:+ "_" +:+ join "_" parts
  end.

Definition canCommit (reordering : bool) (c : ariaConflict) : bool :=
  if reordering then negb (co_WAW c) && negb (co_WAR c && co_RAW c)
  else negb (co_WAW c) && negb (co_RAW c).

(** Why an attempt is deferred; [None] when it is committed. *)
Definition deferral (e : AriaExecutor) (table : ariaReservationTable) (tid : nat) (a : ariaAttempt)
    : option string :=
  if aa_Retryable a then Some (aa_RetryReason a)
  else if no_writes a && negb (succeeded a) then None
  else if ar_ReadOnlyOptimization e && no_writes a then None
  else
  let conflict := analyzeAriaConflict a tid table in
  if canCommit (ar_Reordering e) conflict then None
  else Some (ariaConflictReason conflict (ar_Reordering e)).

Record epoch_split := MkSplit {
  es_committed : list ariaAttempt;
  es_deferred : list (ariaAttempt * string);
}.

(** The commit phase of an epoch; [tid] is [position + 1]. *)
Fixpoint split_attempts (e : AriaExecutor) (table : ariaReservationTable) (tid : nat)
    (attempts : list ariaAttempt) : epoch_split :=
  match attempts with
  | [] => MkSplit [] []
  | a :: rest =>
      let 'MkSplit committed deferred := split_attempts e table (S tid) rest in
      match deferral e table tid a with
      | None => MkSplit (a :: committed) deferred
      | Some reason => MkSplit committed ((a, reason) :: deferred)
      end
  end.

(** ** Plans *)

Definition ariaPlanEpochFromTrace (b : Block) (trace : AriaEpochTrace) : ariaPlanEpoch :=
  MkPlanEpoch (et_Epoch trace)
    ((λ index, TxID (tx_at b index)) <$> et_CandidateIndexes trace)
    ((λ index, TxID (tx_at b index)) <$> et_CommittedIndexes trace)
    ((λ index, TxID (tx_at b index)) <$> et_DeferredIndexes trace)
    ((λ index, default "" (et_DeferredReasonByIndex trace !! index)) <$> et_DeferredIndexes trace).

(** The slices start nil. *)
Definition json_plan_epoch (p : ariaPlanEpoch) : json :=
  JObj (fld "epoch" (JInt (pe_Epoch p)) ++
        fld "candidate_transaction_ids" (arr_copy (JStr <$> pe_CandidateTransactionIDs p)) ++
        fld "committed_transaction_ids" (arr_copy (JStr <$> pe_CommittedTransactionIDs p)) ++
        fld "deferred_transaction_ids" (arr_copy (JStr <$> pe_DeferredTransactionIDs p)) ++
        fld "deferred_reasons" (arr_copy (JStr <$> pe_DeferredReasons p))).

Definition json_aria_plan (e : AriaExecutor) (p : SerialPlan) (epochs : list ariaPlanEpoch) : json :=
  JObj (fld "engine_id" (JStr (xp_EngineID p)) ++
        fld "engine_version" (JStr (xp_EngineVersion p)) ++
        fld "block_hash" (JStr (xp_BlockHash p)) ++
        fld "block_height" (JUint (xp_BlockHeight p)) ++
        fld "ordered_transaction_ids" (JArr (JStr <$> xp_OrderedTransactionIDs p)) ++
        fld "original_transaction_indexes" (JArr (JInt <$> xp_OriginalTransactionIdxs p)) ++
        fld "declared_access_set_digest" (JStr (xp_DeclaredAccessSetDigest p)) ++
        fld "declared_read_key_count" (JInt (xp_DeclaredReadKeyCount p)) ++
        fld "declared_write_key_count" (JInt (xp_DeclaredWriteKeyCount p)) ++
        fld "worker_count" (JInt (xp_WorkerCount p)) ++
        fld "reordering" (JBool (ar_Reordering e)) ++
        fld "read_only_optimization" (JBool (ar_ReadOnlyOptimization e)) ++
        fld "retry_nonce_gaps" (JBool (ar_RetryNonceGaps e)) ++
        fld "epochs" (JArr (json_plan_epoch <$> epochs))).

Definition buildAriaPlan (b : Block) (declared : AccessSet) (workerCount : Z) (e : AriaExecutor)
    (commitOrder : list nat) (epochs : list ariaPlanEpoch) : SerialPlan :=
  let plan := MkSerialPlan AriaBlockExecutorID AriaBlockExecutorVersion (BlockHash b) (Height b)
    ((λ index, TxID (tx_at b index)) <$> commitOrder) (Z.of_nat <$> commitOrder)
    (sha256_hex (marshal (json_access_set declared)))
    (Z.of_nat (length (as_ReadKeys declared))) (Z.of_nat (length (as_WriteKeys declared))) workerCount in
  plan (sha256_hex (marshal (json_aria_plan e (plan "") epochs))).

(** ** Draining a block *)

Inductive aria_error :=
  | AeContext                                             (* [ctx.Err()] *)
  | AeMaximumEpochs (completed pending limit : Z)
  | AeNoProgress (epoch : Z) (ids reasons : list string)
  | AeMissing (txID : string) (index : Z).

Definition aria_error_text (ctxErr : string) (err : aria_error) : string :=
  match err with
  | AeContext => ctxErr
  | AeMaximumEpochs completed pending limit =>
      "aria maximum epochs exceeded: completed=" +:+ format_int completed +:+ " pending=" +:+
      format_int pending +:+ " limit=" +:+ format_int limit
  | AeNoProgress epoch ids reasons =>
      "aria epoch " +:+ format_int epoch +:+ " made no progress: pending=" +:+ join "," ids +:+
      " reasons=" +:+ join "," reasons
  | AeMissing txID index =>
      "aria missing final result for transaction " +:+ txID +:+ " at index " +:+ format_int index
  end.

(** [aw_finalDeltas] is [finalDeltas] where [finalized] is set. *)
Record aria_work := MkWork {
  aw_working : gmap string string;
  aw_commitment : commitmentNode;
  aw_finalDeltas : list (option TxDelta);
  aw_commitOrder : list nat;
  aw_Trace : list AriaEpochTrace;
  aw_planEpochs : list ariaPlanEpoch;
}.

(** [delta.Success = delta.Receipt.Success] and so on. *)
Definition with_receipt (d : TxDelta) (receipt : Receipt) : TxDelta :=
  MkDelta (td_TxID d) (td_OriginalIndex d) (td_ReadSet d) (td_WriteSet d) receipt
    (rc_Success receipt) (rc_Error receipt).

Definition commit_attempt (b : Block) (w : aria_work) (a : ariaAttempt) : aria_work :=
  let d := aa_Delta a in
  let commitment := commit_writes (ShardID b) (td_WriteSet d) (aw_commitment w) in
  let delta := with_receipt d (with_root (td_Receipt d) (CommitmentRoot (Some commitment))) in
  MkWork (materialize (ShardID b) (td_WriteSet d) (aw_working w)) commitment
    (<[aa_Index a := Some delta]> (aw_finalDeltas w)) (aw_commitOrder w ++ [aa_Index a])
    (aw_Trace w) (aw_planEpochs w).

Definition epoch_trace (epoch : Z) (pending : list nat) (s : epoch_split) : AriaEpochTrace :=
  MkEpochTrace epoch pending (aa_Index <$> es_committed s) ((λ d, aa_Index d.1) <$> es_deferred s)
    (list_to_map ((λ d, (aa_Index d.1, d.2)) <$> reverse (es_deferred s))).

Definition close_epoch (b : Block) (epoch : Z) (pending : list nat) (s : epoch_split) (w : aria_work)
    : aria_work :=
  let w := foldl (commit_attempt b) w (es_committed s) in
  let trace := epoch_trace epoch pending s in
  MkWork (aw_working w) (aw_commitment w) (aw_finalDeltas w) (aw_commitOrder w)
    (aw_Trace w ++ [trace]) (aw_planEpochs w ++ [ariaPlanEpochFromTrace b trace]).

(** How the workers of each epoch interleave, and whether the context ends before
    the epoch's own check of it. *)
Abbreviation aria_schedule := (Z → bool * list pool_choice).

Inductive aria_outcome (A : Type) :=
  | ArRunning             (* the schedule ends before the function returns *)
  | ArFailed (err : aria_error)
  | ArReturned (a : A).
Arguments ArRunning {A}.
Arguments ArFailed {A}.
Arguments ArReturned {A}.

(** [for epoch := 1; len(pending) > 0; epoch++]. An epoch commits a transaction or
    fails, so the number of transactions bounds the turns. *)
Fixpoint epoch_loop (fuel : nat) (e : AriaExecutor) (b : Block) (workerCount maximumEpochs : Z)
    (schedule : aria_schedule) (epoch : Z) (cancelled : bool) (pending : list nat) (w : aria_work)
    : aria_outcome aria_work :=
  match pending with
  | [] => ArReturned w
  | _ =>
    match fuel with
    | O => ArRunning
    | S fuel =>
      if (maximumEpochs <? epoch)%Z
      then ArFailed (AeMaximumEpochs (Z.of_nat (length (TxList b)) - Z.of_nat (length pending))
             (Z.of_nat (length pending)) maximumEpochs)
      else
      let cancelled := cancelled || (schedule epoch).1 in
      if cancelled then ArFailed AeContext
      else
      match executeEpoch e b (aw_working w) pending workerCount (schedule epoch).2 cancelled with
      | None => ArRunning
      | Some (_, None) => ArFailed AeContext
      | Some (cancelled, Some attempts) =>
          let s := split_attempts e (buildAriaReservations attempts) 1 attempts in
          match es_committed s with
          | [] => ArFailed (AeNoProgress epoch ((λ d, TxID (aa_Tx d.1)) <$> es_deferred s)
                              (es_deferred s).*2)
          | _ => epoch_loop fuel e b workerCount maximumEpochs schedule (epoch + 1) cancelled
                   ((λ d, aa_Index d.1) <$> es_deferred s) (close_epoch b epoch pending s w)
          end
      end
    end
  end.

Definition maximum_epochs (e : AriaExecutor) (b : Block) : Z :=
  if (ar_MaximumEpochs e <=? 0)%Z then Z.max 1 (Z.of_nat (length (TxList b)) + 1)
  else ar_MaximumEpochs e.

Fixpoint first_missing (b : Block) (index : nat) (deltas : list (option TxDelta)) : option aria_error :=
  match deltas with
  | [] => None
  | None :: _ => Some (AeMissing (TxID (tx_at b index)) (Z.of_nat index))
  | Some _ :: rest => first_missing b (S index) rest
  end.

Definition aria_result (e : AriaExecutor) (b : Block) (base : gmap string string) (workerCount : Z)
    (beforeRoot : string) (w : aria_work) : Result :=
  let deltas := omap id (aw_finalDeltas w) in
  let plan := buildAriaPlan b (declaredAccessSet (TxList b)) workerCount e (aw_commitOrder w)
                (aw_planEpochs w) in
  MkResult (BlockHash b) (Height b) beforeRoot (CommitmentRoot (Some (aw_commitment w)))
    (ReceiptRoot (td_Receipt <$> deltas)) (td_Receipt <$> deltas) (aw_working w)
    (stateDelta base (aw_working w)) (count_success deltas) (count_failed deltas)
    AriaBlockExecutorID AriaBlockExecutorVersion workerCount (Some plan) (xp_PlanDigest plan) deltas
    CommitmentVersion false.

(** The result and the trace left in the executor. [cancelled] is the context at
    the call. *)
Definition AriaExecuteBlockWithCommitment (e : AriaExecutor) (b : Block) (base : gmap string string)
    (baseCommitment : option commitmentNode) (cancelled : bool) (schedule : aria_schedule)
    : aria_outcome (Result * list AriaEpochTrace) :=
  if cancelled then ArFailed AeContext
  else
  let workerCount := Z.max 1 (ar_WorkerCount e) in
  let commitment := CloneOrBuild baseCommitment base in
  let n := length (TxList b) in
  match epoch_loop n e b workerCount (maximum_epochs e b) schedule 1 cancelled (seq 0 n)
          (MkWork base commitment (replicate n None) [] [] []) with
  | ArRunning => ArRunning
  | ArFailed err => ArFailed err
  | ArReturned w =>
      match first_missing b 0 (aw_finalDeltas w) with
      | Some err => ArFailed err
      | None => ArReturned (aria_result e b base workerCount (CommitmentRoot (Some commitment)) w,
                            aw_Trace w)
      end
  end.

Definition AriaExecuteBlock (e : AriaExecutor) (b : Block) (base : gmap string string)
    (cancelled : bool) (schedule : aria_schedule) : aria_outcome (Result * list AriaEpochTrace) :=
  AriaExecuteBlockWithCommitment e b base None cancelled schedule.

(** ** One batch per consensus block *)

Record AriaCandidateSelection := MkSelection {
  cs_Selected : list SignedTransaction;
  cs_SelectedDeltas : list TxDelta;
  cs_Deferred : list SignedTransaction;
  cs_DeferredReasons : gmap string string;
  cs_Trace : AriaEpochTrace;
}.

Definition zero_selection : AriaCandidateSelection :=
  MkSelection [] [] [] ∅ (MkEpochTrace 0 [] [] [] ∅).

Definition select_one (a : ariaAttempt) (s : AriaCandidateSelection) : AriaCandidateSelection :=
  let t := cs_Trace s in
  MkSelection (cs_Selected s ++ [aa_Tx a]) (cs_SelectedDeltas s ++ [aa_Delta a]) (cs_Deferred s)
    (cs_DeferredReasons s)
    (MkEpochTrace (et_Epoch t) (et_CandidateIndexes t) (et_CommittedIndexes t ++ [aa_Index a])
       (et_DeferredIndexes t) (et_DeferredReasonByIndex t)).

Definition defer_one (a : ariaAttempt) (reason : string) (s : AriaCandidateSelection)
    : AriaCandidateSelection :=
  let t := cs_Trace s in
  MkSelection (cs_Selected s) (cs_SelectedDeltas s) (cs_Deferred s ++ [aa_Tx a])
    (<[TxID (aa_Tx a) := reason]> (cs_DeferredReasons s))
    (MkEpochTrace (et_Epoch t) (et_CandidateIndexes t) (et_CommittedIndexes t)
       (et_DeferredIndexes t ++ [aa_Index a]) (<[aa_Index a := reason]> (et_DeferredReasonByIndex t))).

Fixpoint select_attempts (e : AriaExecutor) (table : ariaReservationTable) (limit : Z) (tid : nat)
    (attempts : list ariaAttempt) (s : AriaCandidateSelection) : AriaCandidateSelection :=
  match attempts with
  | [] => s
  | a :: rest =>
      select_attempts e table limit (S tid) rest
        (if (limit <=? Z.of_nat (length (cs_Selected s)))%Z then defer_one a "aria_candidate_limit" s
         else match deferral e table tid a with
              | Some reason => defer_one a reason s
              | None => select_one a s
              end)
  end.

(** [block.Block{ShardID: shardID, Height: height, TxList: candidates}]. *)
Definition candidate_block (shardID : string) (height : N) (candidates : list SignedTransaction)
    : Block :=
  MkBlock "" shardID height "" "" 0 None candidates "" "" "" "" "" false false [] None None.

Definition SelectCandidateTransactions (e : AriaExecutor) (shardID : string) (height : N)
    (candidates : list SignedTransaction) (base : gmap string string) (limit : Z)
    (cancelled : bool) (schedule : list pool_choice) : aria_outcome AriaCandidateSelection :=
  if cancelled then ArFailed AeContext
  else
  match candidates with
  | [] => ArReturned zero_selection
  | _ =>
      let n := length candidates in
      let limit := if ((limit <=? 0) || (Z.of_nat n <? limit))%Z then Z.of_nat n else limit in
      match executeEpoch e (candidate_block shardID height candidates) base (seq 0 n)
              (Z.max 1 (ar_WorkerCount e)) schedule cancelled with
      | None => ArRunning
      | Some (_, None) => ArFailed AeContext
      | Some (_, Some attempts) =>
          ArReturned (select_attempts e (buildAriaReservations attempts) limit 1 attempts
            (MkSelection [] [] [] ∅ (MkEpochTrace 1 (seq 0 n) [] [] ∅)))
      end
  end.

(** ** Committing a selection *)

Definition materialize_error_sizes (b : Block) (s : AriaCandidateSelection) : string :=
  "aria selected materialization size mismatch: block=" +:+ format_int (Z.of_nat (length (TxList b))) +:+
  " selected=" +:+ format_int (Z.of_nat (length (cs_Selected s))) +:+
  " deltas=" +:+ format_int (Z.of_nat (length (cs_SelectedDeltas s))).

(** [sortedAriaWriteKeys] leaves out the empty key here. *)
Definition materialize_keys (shardID : string) (writes working : gmap string string)
    : gmap string string :=
  foldl (λ w key, <[qualify shardID key := default "" (writes !! key)]> w) working
    (sortedAriaWriteKeys writes).
Definition commit_keys (shardID : string) (writes : gmap string string) (c : commitmentNode)
    : commitmentNode :=
  foldl (λ c key, commitmentSet c (qualify shardID key) (default "" (writes !! key))) c
    (sortedAriaWriteKeys writes).

Definition selected_receipt (b : Block) (r : Receipt) (root : string) : Receipt :=
  MkReceipt (rc_TxID r) (BlockHash b) (Height b) (rc_Success r) (rc_Error r) (rc_ExecutionCost r)
    (rc_StateKeys r) root.

Definition selected_delta (b : Block) (index : nat) (d : TxDelta) (root : string) : TxDelta :=
  let receipt := selected_receipt b (td_Receipt d) root in
  MkDelta (td_TxID d) (Z.of_nat index) (td_ReadSet d) (td_WriteSet d) receipt (rc_Success receipt)
    (rc_Error receipt).

Fixpoint materialize_selected (b : Block) (index : nat)
    (rows : list (SignedTransaction * (SignedTransaction * TxDelta)))
    (wc : gmap string string * commitmentNode)
    : string + (gmap string string * commitmentNode * list TxDelta) :=
  match rows with
  | [] => inr (wc, [])
  | (item, (selected, d)) :: rest =>
      let at_ := format_int (Z.of_nat index) in
      if (TxID item ≟ "") || (TxID selected ≠? TxID item)
      then inl ("aria selected transaction mismatch at index " +:+ at_ +:+ ": block=" +:+ TxID item +:+
                " selection=" +:+ TxID selected)
      else if td_TxID d ≠? TxID item
      then inl ("aria selected delta mismatch at index " +:+ at_ +:+ ": block=" +:+ TxID item +:+
                " delta=" +:+ td_TxID d)
      else
      let working := materialize_keys (ShardID b) (td_WriteSet d) wc.1 in
      let commitment := commit_keys (ShardID b) (td_WriteSet d) wc.2 in
      let delta := selected_delta b index d (CommitmentRoot (Some commitment)) in
      match materialize_selected b (S index) rest (working, commitment) with
      | inl err => inl err
      | inr (wc, deltas) => inr (wc, delta :: deltas)
      end
  end.

Definition MaterializeCandidateSelectionWithCommitment (e : AriaExecutor) (b : Block)
    (base : gmap string string) (s : AriaCandidateSelection) (baseCommitment : option commitmentNode)
    : string + Result :=
  if ((length (TxList b) ≠? length (cs_Selected s)) ||
      (length (cs_Selected s) ≠? length (cs_SelectedDeltas s)))
  then inl (materialize_error_sizes b s)
  else
  let workerCount := Z.max 1 (ar_WorkerCount e) in
  let commitment := CloneOrBuild baseCommitment base in
  match materialize_selected b 0 (zip (TxList b) (zip (cs_Selected s) (cs_SelectedDeltas s)))
          (base, commitment) with
  | inl err => inl err
  | inr (working, commitment', deltas) =>
      let order := seq 0 (length (TxList b)) in
      let epoch := ariaPlanEpochFromTrace b (MkEpochTrace 1 order order [] ∅) in
      let plan := buildAriaPlan b (declaredAccessSet (TxList b)) workerCount e order [epoch] in
      inr (MkResult (BlockHash b) (Height b) (CommitmentRoot (Some commitment))
        (CommitmentRoot (Some commitment')) (ReceiptRoot (td_Receipt <$> deltas))
        (td_Receipt <$> deltas) working (stateDelta base working) (count_success deltas)
        (count_failed deltas) AriaBlockExecutorID AriaBlockExecutorVersion workerCount (Some plan)
        (xp_PlanDigest plan) deltas CommitmentVersion false)
  end.

Definition MaterializeCandidateSelection (e : AriaExecutor) (b : Block) (base : gmap string string)
    (s : AriaCandidateSelection) : string + Result :=
  MaterializeCandidateSelectionWithCommitment e b base s None.
