(* ===== verification/AriaProps.v ===== *)
(** * What the Aria executor guarantees

    The reservation table answers which earlier transaction of the epoch reads or
    writes a key; the transactions an epoch commits are equivalent to a serial
    order; the epochs end; the interleaving of the workers does not matter. *)
From S2P Require Import Prelude GoStd GoText Tx Block StateRoot Serial SerialProps Footprint Reorder WorkerPool Aria.
Local Open Scope N_scope.
#[local] Opaque Sha256.sum256 sha256_hex Json.marshal.

(** ** Reservations *)

Definition reads_of (a : ariaAttempt) : list string := uniqueAriaReadKeys (td_ReadSet (aa_Delta a)).
Definition writes_of (a : ariaAttempt) : list string := sortedAriaWriteKeys (td_WriteSet (aa_Delta a)).

Lemma elem_of_reads_of a k :
  k ∈ reads_of a ↔ k ≠ "" ∧ ∃ ro, ro ∈ td_ReadSet (aa_Delta a) ∧ ro_Key ro = k.
Proof.
  unfold reads_of, uniqueAriaReadKeys, sortedSet. rewrite sort_strings_perm, elem_of_elements,
    elem_of_list_to_set, list_elem_of_filter, list_elem_of_fmap. naive_solver.
Qed.

Lemma elem_of_writes_of a k :
  k ∈ writes_of a ↔ k ≠ "" ∧ is_Some (td_WriteSet (aa_Delta a) !! k).
Proof.
  unfold writes_of, sortedAriaWriteKeys. rewrite sort_strings_perm, list_elem_of_filter.
  pose proof (elem_of_sorted_keys (td_WriteSet (aa_Delta a)) k) as H. unfold sorted_keys in H.
  rewrite sort_strings_perm in H. by rewrite H.
Qed.

(** One column of the table. *)
Fixpoint reserve_with (f : ariaAttempt → list string) (tid : nat) (l : list ariaAttempt)
    (m : gmap string nat) : gmap string nat :=
  match l with
  | [] => m
  | a :: rest =>
      reserve_with f (S tid) rest (if skips_reservation a then m else foldl (reserve tid) m (f a))
  end.

Lemma reserve_attempts_columns l : ∀ tid t,
  reserve_attempts tid l t =
    MkReservations (reserve_with reads_of tid l (rt_MinReader t)) (reserve_with writes_of tid l (rt_MinWriter t)).
Proof.
  induction l as [|a l IH]; intros tid t; simpl; [by destruct t|]. rewrite IH. by destruct (skips_reservation a).
Qed.

Definition below (tid : nat) (m : gmap string nat) : Prop :=
  ∀ k x, m !! k = Some x → (0 < x <= tid)%nat.

Lemma reserve_lookup tid m key k :
  (0 < tid)%nat → below tid m →
  reserve tid m key !! k = (if decide (key = k) then Some (default tid (m !! k)) else m !! k) ∧
  below tid (reserve tid m key).
Proof.
  intros Ht Hm. unfold reserve. destruct (m !! key) as [x|] eqn:E; simpl.
  - destruct (Hm _ _ E) as [H1 H2]. rewrite bool_decide_eq_false_2 by lia. simpl.
    rewrite (proj2 (Nat.ltb_ge _ _)) by lia. split; [|done]. case_decide; [|done]. subst. by rewrite E.
  - rewrite lookup_insert. split; [case_decide; subst; by rewrite ?E|]. intros k' x.
    rewrite lookup_insert. case_decide; [|apply Hm]. intros ?; simplify_eq. lia.
Qed.

Lemma reserve_all_lookup tid keys k : ∀ m,
  (0 < tid)%nat → below tid m →
  foldl (reserve tid) m keys !! k = (if decide (k ∈ keys) then Some (default tid (m !! k)) else m !! k) ∧
  below tid (foldl (reserve tid) m keys).
Proof.
  induction keys as [|key keys IH]; intros m Ht Hm; simpl; [done|].
  destruct (reserve_lookup tid m key k Ht Hm) as [El Hb].
  destruct (IH _ Ht Hb) as [-> Hb']. split; [|done]. rewrite El.
  destruct (decide (k ∈ keys)) as [Hin|Hin].
  - rewrite (decide_True (P := k ∈ key :: keys)) by (by right). case_decide; [|done]. by destruct (m !! k).
  - case_decide as Ek; [subst; by rewrite decide_True by left|]. rewrite decide_False; [done|]. set_solver.
Qed.

(** The first attempt at or after [tid] that reserves [k]. *)
Fixpoint first_user (f : ariaAttempt → list string) (k : string) (tid : nat) (l : list ariaAttempt)
    : option nat :=
  match l with
  | [] => None
  | a :: rest =>
      if negb (skips_reservation a) && bool_decide (k ∈ f a) then Some tid
      else first_user f k (S tid) rest
  end.

Lemma reserve_with_lookup f l k : ∀ tid m,
  (0 < tid)%nat → below tid m →
  reserve_with f tid l m !! k = match m !! k with Some x => Some x | None => first_user f k tid l end.
Proof.
  induction l as [|a l IH]; intros tid m Ht Hm; simpl; [by destruct (m !! k)|].
  assert (∀ m', below tid m' → below (S tid) m') as Hle
    by (intros m' H k' x Hx; specialize (H k' x Hx); lia).
  destruct (skips_reservation a); simpl; [by rewrite IH by auto|].
  destruct (reserve_all_lookup tid (f a) k m Ht Hm) as [El Hb].
  rewrite IH by auto. rewrite El. case_decide as Ek.
  - rewrite bool_decide_eq_true_2 by done. by destruct (m !! k).
  - by rewrite bool_decide_eq_false_2 by done.
Qed.

Lemma first_user_spec f k l t : ∀ tid,
  (∃ x, first_user f k tid l = Some x ∧ (x < t)%nat) ↔
  ∃ i a, l !! i = Some a ∧ (tid + i < t)%nat ∧ skips_reservation a = false ∧ k ∈ f a.
Proof.
  induction l as [|a l IH]; intros tid; simpl.
  { split; [by intros (x & ? & _)|]. intros (i & a & H & _). by rewrite lookup_nil in H. }
  destruct (skips_reservation a) eqn:Es; simpl.
  - rewrite IH. split.
    + intros (i & a' & ? & ? & ?). exists (S i), a'. split_and!; [done|lia|naive_solver..].
    + intros ([|i] & a' & ? & ? & ? & ?); simplify_eq/=; [congruence|].
      exists i, a'. split_and!; [done|lia|done..].
  - case_bool_decide as Ek.
    + split.
      * intros (x & ? & ?). simplify_eq. exists O, a. split_and!; [done|lia|done..].
      * intros (i & a' & ? & ? & ?). exists tid. split; [done|lia].
    + rewrite IH. split.
      * intros (i & a' & ? & ? & ?). exists (S i), a'. split_and!; [done|lia|naive_solver..].
      * intros ([|i] & a' & ? & ? & ? & ?); simplify_eq/=; [congruence|].
      exists i, a'. split_and!; [done|lia|done..].
Qed.

(** [earlier] asks for an earlier attempt of the epoch with a reservation on the key. *)
Lemma earlier_spec f l p k :
  earlier (reserve_with f 1 l ∅) (S p) k = true ↔
  ∃ q a, l !! q = Some a ∧ (q < p)%nat ∧ skips_reservation a = false ∧ k ∈ f a.
Proof.
  assert (below 1 ∅) as Hb by (intros k' x; by rewrite lookup_empty).
  pose proof (reserve_with_lookup f l k 1 ∅ ltac:(lia) Hb) as El. rewrite lookup_empty in El.
  transitivity (∃ x, first_user f k 1 l = Some x ∧ (x < S p)%nat).
  - unfold earlier. rewrite El. destruct (first_user f k 1 l) as [x|] eqn:Ex; simpl.
    + assert (x ≠ O) as Hx.
      { destruct (proj1 (first_user_spec f k l (S x) 1) (ex_intro _ x (conj Ex (Nat.lt_succ_diag_r x)))) as (i & a & _ & H & _).
        intros ->. lia. }
      rewrite bool_decide_eq_false_2 by done. simpl. rewrite Nat.ltb_lt. naive_solver.
    + naive_solver.
  - rewrite first_user_spec. naive_solver lia.
Qed.

Lemma existsb_earlier f l p ks :
  existsb (earlier (reserve_with f 1 l ∅) (S p)) ks = true ↔
  ∃ k q a, k ∈ ks ∧ l !! q = Some a ∧ (q < p)%nat ∧ skips_reservation a = false ∧ k ∈ f a.
Proof.
  rewrite existsb_exists. split.
  - intros (k & Hk & (q & a & H)%earlier_spec). exists k, q, a. by rewrite list_elem_of_In.
  - intros (k & q & a & Hk & H). exists k. rewrite <- list_elem_of_In, earlier_spec. naive_solver.
Qed.

(** ** The commit phase *)

(** The attempts with their [tid]. *)
Definition numbered (tid : nat) (l : list ariaAttempt) : list (nat * ariaAttempt) :=
  zip (seq tid (length l)) l.

Lemma numbered_lookup l x : x ∈ numbered 1 l → ∃ p, x.1 = S p ∧ l !! p = Some x.2.
Proof.
  intros [p Hp]%list_elem_of_lookup_1. unfold numbered in Hp.
  apply lookup_zip_with_Some in Hp as (t & a & -> & Ht & Ha). apply lookup_seq in Ht as [-> _].
  by exists p.
Qed.

Lemma numbered_sorted l : ∀ tid, StronglySorted (λ x y, (x.1 < y.1)%nat) (numbered tid l).
Proof.
  induction l as [|a l IH]; intros tid; constructor; [apply IH|].
  apply Forall_forall. intros x [i Hi]%list_elem_of_lookup_1.
  apply lookup_zip_with_Some in Hi as (t & a' & -> & Ht & _). apply lookup_seq in Ht as [-> _]. simpl. lia.
Qed.

Section split.
Context (e : AriaExecutor) (t : ariaReservationTable).

Definition committed_at (tid : nat) (l : list ariaAttempt) : list (nat * ariaAttempt) :=
  filter (λ x, deferral e t x.1 x.2 = None) (numbered tid l).

Lemma split_committed l : ∀ tid, es_committed (split_attempts e t tid l) = (committed_at tid l).*2.
Proof.
  induction l as [|a l IH]; intros tid; [done|]. unfold committed_at in *. simpl.
  specialize (IH (S tid)). destruct (split_attempts e t (S tid) l) as [cs ds].
  change (numbered tid (a :: l)) with ((tid, a) :: numbered (S tid) l). rewrite filter_cons. simpl in *.
  destruct (deferral e t tid a); simpl; by rewrite IH.
Qed.

Lemma split_perm l : ∀ tid,
  es_committed (split_attempts e t tid l) ++ (es_deferred (split_attempts e t tid l)).*1 ≡ₚ l.
Proof.
  induction l as [|a l IH]; intros tid; [done|]. simpl. specialize (IH (S tid)).
  destruct (split_attempts e t (S tid) l) as [cs ds]. simpl in *.
  destruct (deferral e t tid a); simpl; [|by rewrite IH].
  by rewrite <- Permutation_middle, IH.
Qed.

Lemma split_deferred l : ∀ tid d, d ∈ es_deferred (split_attempts e t tid l) →
  ∃ p, l !! p = Some d.1 ∧ deferral e t (tid + p)%nat d.1 = Some d.2.
Proof.
  induction l as [|a l IH]; intros tid d; simpl; [by rewrite elem_of_nil|]. specialize (IH (S tid)).
  destruct (split_attempts e t (S tid) l) as [cs ds]. simpl in *. intros Hd.
  destruct (deferral e t tid a) as [r|] eqn:E; simpl in Hd.
  - apply elem_of_cons in Hd as [->|Hd]; [exists O; simpl; by rewrite Nat.add_0_r|].
    destruct (IH _ Hd) as (p & ? & ?). exists (S p). simpl. by rewrite Nat.add_succ_r.
  - destruct (IH _ Hd) as (p & ? & ?). exists (S p). simpl. by rewrite Nat.add_succ_r.
Qed.
End split.

Lemma committed_facts e l x :
  x ∈ committed_at e (buildAriaReservations l) 1 l →
  ∃ p, x.1 = S p ∧ l !! p = Some x.2 ∧ aa_Retryable x.2 = false ∧
  (no_writes x.2 = false →
   let c := analyzeAriaConflict x.2 x.1 (buildAriaReservations l) in
   skips_reservation x.2 = false ∧ co_WAW c = false ∧ (co_RAW c = true → co_WAR c = false)).
Proof.
  intros [Hd (p & Hp & Hl)%numbered_lookup]%list_elem_of_filter. exists p. split_and!; [done..| |].
  - unfold deferral in Hd. by destruct (aa_Retryable x.2).
  - intros Hw. unfold deferral in Hd. unfold skips_reservation. rewrite Hw in Hd |- *.
    destruct (aa_Retryable x.2); [done|]. rewrite !andb_false_r in Hd. simpl in Hd.
    rewrite andb_false_r. split; [done|]. set (c := analyzeAriaConflict _ _ _) in *.
    unfold canCommit in Hd. destruct (ar_Reordering e), (co_WAW c), (co_RAW c), (co_WAR c); naive_solver.
Qed.

(** What it takes for the key of a later attempt to be free of earlier ones. *)
Lemma no_conflict f l p ks :
  existsb (earlier (reserve_with f 1 l ∅) (S p)) ks = false →
  ∀ q a' k, l !! q = Some a' → (q < p)%nat → skips_reservation a' = false → k ∈ ks → k ∉ f a'.
Proof.
  intros H q a' k Hl Hq Hs Hk Hf. apply not_true_iff_false in H. apply H, existsb_earlier. eauto 10.
Qed.

Lemma filter_three {A} (f g : A → bool) l :
  filter (λ x, f x = true) l ++ filter (λ x, negb (f x) && g x = true) l ++
  filter (λ x, negb (f x) && negb (g x) = true) l ≡ₚ l.
Proof.
  induction l as [|x l IH]; [done|]. rewrite !filter_cons.
  destruct (f x); simpl; [by rewrite IH|].
  destruct (g x); simpl; [by rewrite <- Permutation_middle, IH|].
  by rewrite app_assoc, <- Permutation_middle, <- app_assoc, IH.
Qed.

(** ** An epoch is a serial order *)

Section epoch.
Context (e : AriaExecutor) (b : Block) (st : gmap string string).
Context (pending : list nat).
Context (Hua : unaliased b = true) (Hnd : NoDup pending).
Context (Hin : ∀ i, i ∈ pending → (i < length (TxList b))%nat).

#[local] Abbreviation initial := (ar_DefaultInitialBalance e).

Definition job_at (i : nat) : Z * SignedTransaction := (Z.of_nat i, tx_at b i).
Definition job_of (x : nat * ariaAttempt) : Z * SignedTransaction := job_at (aa_Index x.2).
Definition attempts : list ariaAttempt := attempt_of e b st <$> pending.

#[local] Abbreviation table := (buildAriaReservations attempts).
#[local] Abbreviation conflict x := (analyzeAriaConflict x.2 x.1 table).

Lemma attempt_fields i :
  aa_Index (attempt_of e b st i) = i ∧ aa_Tx (attempt_of e b st i) = tx_at b i ∧
  aa_Delta (attempt_of e b st i) = delta_on initial b st (job_at i).
Proof.
  unfold attempt_of, delta_on, ExecuteTransaction. simpl. destruct (interp _ _) as [o r].
  destruct (ariaRetryableFailure r _). done.
Qed.

Lemma attempts_lookup p a :
  attempts !! p = Some a → ∃ i, pending !! p = Some i ∧ a = attempt_of e b st i ∧ aa_Index a = i ∧
    aa_Delta a = delta_on initial b st (job_at i).
Proof.
  unfold attempts. intros Ha. apply list_lookup_fmap_Some in Ha as (i & -> & Hi).
  destruct (attempt_fields i) as (? & _ & ?). eauto.
Qed.

Definition committed : list (nat * ariaAttempt) := committed_at e table 1 attempts.

(** The serial order has the transactions that write nothing, those that read what
    an earlier one writes, from last to first, and the others. *)
Definition silent (x : nat * ariaAttempt) : bool := no_writes x.2.
Definition backward (x : nat * ariaAttempt) : bool := negb (no_writes x.2) && co_RAW (conflict x).
Definition forward (x : nat * ariaAttempt) : bool := negb (no_writes x.2) && negb (co_RAW (conflict x)).
(** The keys of an attempt's sets are keys of the block. *)
Lemma attempt_keys x :
  x ∈ committed →
  (∀ k, is_Some (td_WriteSet (delta_on initial b st (job_of x)) !! k) → k ∈ writes_of x.2 ∧ k ∈ block_keys b) ∧
  (∀ ro, ro ∈ td_ReadSet (delta_on initial b st (job_of x)) → ro_Key ro ∈ reads_of x.2 ∧ ro_Key ro ∈ block_keys b).
Proof.
  intros (p & _ & Hp & _)%committed_facts. destruct (attempts_lookup _ _ Hp) as (i & Hi & _ & Ei & Ed).
  unfold job_of. rewrite Ei.
  destruct (ExecuteTransaction_keys initial b (tx_at b i) st (Z.of_nat i)) as [Hr Hw].
  assert (tx_at b i ∈ TxList b) as Ht.
  { apply list_elem_of_lookup_2 with i. unfold tx_at.
    destruct (lookup_lt_is_Some_2 (TxList b) i) as [item ->]; [|done].
    apply Hin. by eapply list_elem_of_lookup_2. }
  split.
  - intros k Hk. destruct (Hw k Hk) as [H1 H2]. rewrite elem_of_writes_of, Ed.
    split; [done|]. by apply (block_keys_touched b (tx_at b i)).
  - intros ro Hro. destruct (Hr ro Hro) as [H1 H2]. rewrite elem_of_reads_of, Ed.
    split; [eauto|]. by apply (block_keys_touched b (tx_at b i)).
Qed.

Lemma silent_writes x k :
  x ∈ committed → no_writes x.2 = true → ¬ is_Some (td_WriteSet (delta_on initial b st (job_of x)) !! k).
Proof.
  intros (p & _ & Hp & _)%committed_facts Hn. destruct (attempts_lookup _ _ Hp) as (i & _ & _ & Ei & Ed).
  unfold no_writes in Hn. apply bool_decide_eq_true, map_size_empty_iff in Hn.
  unfold job_of. rewrite Ei, <- Ed, Hn, lookup_empty. by intros [].
Qed.

Lemma keys_apart_precede x y :
  x ∈ committed → y ∈ committed → (∀ k, k ∈ writes_of x.2 → k ∉ reads_of y.2) →
  may_precede initial b st (job_of x) (job_of y).
Proof.
  intros Hx Hy H k ro Hk Hro E. destruct (proj1 (attempt_keys x Hx) k Hk) as [H1 H2].
  destruct (proj2 (attempt_keys y Hy) ro Hro) as [H3 H4].
  apply (unaliased_inj b) in E; [|done..]. subst. by apply (H (ro_Key ro)).
Qed.

Lemma raw_precede x y :
  x ∈ committed → y ∈ committed → (x.1 < y.1)%nat → co_RAW (conflict y) = false →
  may_precede initial b st (job_of x) (job_of y).
Proof.
  intros Hx Hy Hlt Hr. destruct (no_writes x.2) eqn:En.
  { intros k ro Hk. by destruct (silent_writes x k Hx En). }
  pose proof Hx as (p & Hp & Hlp & _ & Hf)%committed_facts. destruct (Hf En) as [Hs _].
  pose proof Hy as (q & Hq & Hlq & _)%committed_facts.
  apply keys_apart_precede; [done..|]. intros k Hk Hk'. rewrite Hp, Hq in Hlt. rewrite Hq in Hr.
  unfold analyzeAriaConflict, buildAriaReservations in Hr. rewrite reserve_attempts_columns in Hr. simpl in Hr.
  by eapply (no_conflict _ _ _ _ Hr p x.2 k); [|lia|..].
Qed.

Lemma war_precede x y :
  x ∈ committed → y ∈ committed → (y.1 < x.1)%nat → no_writes y.2 = false → co_WAR (conflict x) = false →
  may_precede initial b st (job_of x) (job_of y).
Proof.
  intros Hx Hy Hlt En Hr.
  pose proof Hx as (p & Hp & Hlp & _)%committed_facts.
  pose proof Hy as (q & Hq & Hlq & _ & Hf)%committed_facts. destruct (Hf En) as [Hs _].
  apply keys_apart_precede; [done..|]. intros k Hk Hk'. rewrite Hp, Hq in Hlt. rewrite Hp in Hr.
  unfold analyzeAriaConflict, buildAriaReservations in Hr. rewrite reserve_attempts_columns in Hr. simpl in Hr.
  by eapply (no_conflict _ _ _ _ Hr q y.2 k); [|lia|..].
Qed.

Lemma committed_sorted : StronglySorted (λ x y, (x.1 < y.1)%nat) committed.
Proof. apply StronglySorted_filter', numbered_sorted. Qed.

Lemma backward_war x : x ∈ committed → backward x = true → no_writes x.2 = false ∧ co_WAR (conflict x) = false.
Proof.
  intros (p & _ & _ & _ & Hf)%committed_facts [Hn%negb_true_iff Hr]%andb_true_iff.
  split; [done|]. by apply Hf.
Qed.

Lemma waw_apart x y :
  x ∈ committed → y ∈ committed → (x.1 < y.1)%nat →
  ∀ k, k ∈ writes_of x.2 → k ∈ writes_of y.2 → no_writes x.2 = false → no_writes y.2 = false → False.
Proof.
  intros Hx Hy Hlt k Hkx Hky Enx Eny.
  pose proof Hx as (p & Hp & Hlp & _ & Hf)%committed_facts. destruct (Hf Enx) as [Hs _].
  pose proof Hy as (q & Hq & Hlq & _ & Hg)%committed_facts. destruct (Hg Eny) as (_ & Hw & _).
  rewrite Hp, Hq in Hlt. rewrite Hq in Hw.
  unfold analyzeAriaConflict, buildAriaReservations in Hw. rewrite reserve_attempts_columns in Hw. simpl in Hw.
  by eapply (no_conflict _ _ _ _ Hw p x.2 k); [|lia|..].
Qed.

Lemma committed_apart x y :
  x ∈ committed → y ∈ committed → x.1 ≠ y.1 → apart initial b st (job_of x) (job_of y).
Proof.
  intros Hx Hy Hne k1 k2 H1 H2 E.
  destruct (no_writes x.2) eqn:Enx; [by destruct (silent_writes x k1 Hx Enx)|].
  destruct (no_writes y.2) eqn:Eny; [by destruct (silent_writes y k2 Hy Eny)|].
  destruct (proj1 (attempt_keys x Hx) k1 H1), (proj1 (attempt_keys y Hy) k2 H2).
  apply (unaliased_inj b) in E; [|done..]. subst.
  destruct (decide (x.1 < y.1)%nat); [by eapply (waw_apart x y)|].
  eapply (waw_apart y x); [done|done|lia|done..].
Qed.

Lemma committed_tag x y : x ∈ committed → y ∈ committed → aa_Index x.2 = aa_Index y.2 → x.1 = y.1.
Proof.
  intros (p & Hp & Hlp & _)%committed_facts (q & Hq & Hlq & _)%committed_facts E.
  destruct (attempts_lookup _ _ Hlp) as (i & Hi & _ & Ei & _).
  destruct (attempts_lookup _ _ Hlq) as (j & Hj & _ & Ej & _).
  rewrite Hp, Hq. f_equal. apply (NoDup_lookup pending p q i); [done..|]. congruence.
Qed.

(** ** Any part of what an epoch commits *)

Section chosen.
Context (chosen : list (nat * ariaAttempt)) (Hch : chosen ⊆ committed).
Context (Hcs : StronglySorted (λ x y, (x.1 < y.1)%nat) chosen).

Definition serial_order : list (nat * ariaAttempt) :=
  filter (λ x, silent x = true) chosen ++ reverse (filter (λ x, backward x = true) chosen) ++
  filter (λ x, forward x = true) chosen.

Lemma serial_order_perm : serial_order ≡ₚ chosen.
Proof.
  unfold serial_order. rewrite reverse_Permutation. apply (filter_three silent (λ x, co_RAW (conflict x))).
Qed.

(** The serial order: nobody reads what an earlier one writes. *)
Lemma serial_order_sorted : StronglySorted (may_precede initial b st) (job_of <$> serial_order).
Proof.
  assert (StronglySorted (λ x y, may_precede initial b st (job_of x) (job_of y)) serial_order) as H.
  2: { induction H as [|x l _ IH Hx]; simpl; constructor; [done|]. by apply Forall_fmap. }
  pose proof Hcs as Hs. unfold serial_order. apply StronglySorted_append.
  - eapply StronglySorted_weaken; [|by apply StronglySorted_filter'].
    intros x y [Hx Hxc%Hch]%list_elem_of_filter _ _ k ro Hk. by destruct (silent_writes x k Hxc Hx).
  - apply StronglySorted_append.
    + eapply StronglySorted_weaken; [|apply StronglySorted_reverse; by apply StronglySorted_filter'].
      intros x y Hx Hy Hlt. rewrite elem_of_reverse, list_elem_of_filter in Hx, Hy.
      destruct Hx as [Hx Hxc%Hch], Hy as [Hy Hyc%Hch]. apply war_precede; [done..| |].
      * by apply backward_war.
      * by apply backward_war.
    + eapply StronglySorted_weaken; [|by apply StronglySorted_filter'].
      intros x y [_ Hx%Hch]%list_elem_of_filter [Hf Hy%Hch]%list_elem_of_filter Hlt.
      apply raw_precede; [done..|]. by apply andb_true_iff in Hf as [_ Hf%negb_true_iff].
    + intros x y Hx [Hf Hy%Hch]%list_elem_of_filter. rewrite elem_of_reverse, list_elem_of_filter in Hx.
      destruct Hx as [Hx Hxc%Hch]. apply andb_true_iff in Hf as [Hn%negb_true_iff Hf%negb_true_iff].
      destruct (decide (x.1 < y.1)%nat); [by apply raw_precede|].
      apply war_precede; [done..| |done|by apply backward_war].
      assert (x.1 ≠ y.1); [|lia]. intros E.
      pose proof Hxc as (p & Hp & Hlp & _)%committed_facts. pose proof Hy as (q & Hq & Hlq & _)%committed_facts.
      apply andb_true_iff in Hx as [_ Hx]. destruct x as [tx ax], y as [ty ay]. simpl in *.
      subst. assert (p = q) as -> by lia. rewrite Hlp in Hlq. simplify_eq. congruence.
  - intros x y [Hx Hxc%Hch]%list_elem_of_filter _ k ro Hk. by destruct (silent_writes x k Hxc Hx).
Qed.

Lemma jobs_NoDup : NoDup (job_of <$> chosen).
Proof.
  pose proof Hcs as Hs.
  assert (∀ l, l ⊆ committed → StronglySorted (λ x y, (x.1 < y.1)%nat) l → NoDup (job_of <$> l)) as H.
  2: { by apply H; [exact Hch|]. }
  intros l Hl S. induction S as [|x l S IH Hx]; [constructor|]. simpl. apply NoDup_cons. split.
  - intros (y & E & Hy)%list_elem_of_fmap. rewrite Forall_forall in Hx. specialize (Hx y Hy). simpl in Hx.
    assert (x.1 = y.1); [|lia]. apply committed_tag; [apply Hl; left|apply Hl; by right|].
    unfold job_of, job_at in E. apply (f_equal fst) in E. simpl in E. lia.
  - apply IH. intros y Hy. apply Hl. by right.
Qed.

(** What is chosen of an epoch's committed transactions is a serial execution of
    them, in [order], from the state at the start of the epoch. *)
Lemma chosen_serial :
  ∃ order, order ≡ₚ (aa_Index <$> chosen.*2) ∧
    foldl (λ w a, materialize (ShardID b) (td_WriteSet (aa_Delta a)) w) st chosen.*2 =
      final initial b (tx_at b <$> order) st ∧
    ∀ k i, order !! k = Some i →
      delta_on initial b (final initial b (tx_at b <$> take k order) st) (job_at i) =
      delta_on initial b st (job_at i).
Proof.
  set (index := λ x : nat * ariaAttempt, aa_Index x.2). exists (index <$> serial_order).
  assert (∀ l, (job_of <$> l).*2 = tx_at b <$> (index <$> l)) as Ej
    by (intros l; by rewrite <- !list_fmap_compose).
  destruct (side_by_side initial b st (job_of <$> serial_order) st serial_order_sorted) as [Ef Ed]; [done|].
  rewrite Ej in Ef. split_and!.
  - rewrite serial_order_perm, <- list_fmap_compose. done.
  - rewrite Ef. rewrite <- (apply_perm initial b st (job_of <$> chosen)).
    + assert (∀ l w, l ⊆ committed →
        foldl (λ w a, materialize (ShardID b) (td_WriteSet (aa_Delta a)) w) w l.*2 =
        foldl (apply_job initial b st) w (job_of <$> l)) as H; [|by apply H].
      induction l as [|x l IH]; intros w Hl; simpl; [done|].
      rewrite IH by (intros y Hy; apply Hl; by right). f_equal. unfold apply_job. do 2 f_equal.
      assert (x ∈ committed) as (p & _ & Hp & _)%committed_facts by (apply Hl; left).
      destruct (attempts_lookup _ _ Hp) as (i & _ & _ & Ei & ->). unfold job_of. by rewrite Ei.
    + by rewrite serial_order_perm.
    + apply jobs_NoDup.
    + intros u t (x & -> & Hx%Hch)%list_elem_of_fmap (y & -> & Hy%Hch)%list_elem_of_fmap Hne.
      apply committed_apart; [done..|]. intros E. apply Hne.
      pose proof Hx as (p & Hp & Hlp & _)%committed_facts. pose proof Hy as (q & Hq & Hlq & _)%committed_facts.
      assert (p = q) as -> by lia. rewrite Hlp in Hlq. unfold job_of. congruence.
  - intros k i Hk. apply list_lookup_fmap_Some in Hk as (x & -> & Hx).
    rewrite <- fmap_take, <- Ej, fmap_take. apply (Ed k (job_of x)). by rewrite list_lookup_fmap, Hx.
Qed.
End chosen.

Lemma epoch_serial :
  let s := split_attempts e table 1 attempts in
  ∃ order, order ≡ₚ (aa_Index <$> es_committed s) ∧
    foldl (λ w a, materialize (ShardID b) (td_WriteSet (aa_Delta a)) w) st (es_committed s) =
      final initial b (tx_at b <$> order) st ∧
    ∀ k i, order !! k = Some i →
      delta_on initial b (final initial b (tx_at b <$> take k order) st) (job_at i) =
      delta_on initial b st (job_at i).
Proof.
  intros s. unfold s. rewrite split_committed. fold committed.
  apply chosen_serial; [done|apply committed_sorted].
Qed.
End epoch.

(** ** The epochs, without their workers *)

Section drain.
Context (e : AriaExecutor) (b : Block) (maximumEpochs : Z).
#[local] Abbreviation initial := (ar_DefaultInitialBalance e).
#[local] Abbreviation count := (length (TxList b)).

Definition epoch_attempts (w : aria_work) (pending : list nat) : epoch_split :=
  let l := attempts e b (aw_working w) pending in
  split_attempts e (buildAriaReservations l) 1 l.

Fixpoint epoch_drain (fuel : nat) (epoch : Z) (pending : list nat) (w : aria_work)
    : aria_outcome aria_work :=
  match pending with
  | [] => ArReturned w
  | _ =>
    match fuel with
    | O => ArRunning
    | S fuel =>
      if (maximumEpochs <? epoch)%Z
      then ArFailed (AeMaximumEpochs (Z.of_nat count - Z.of_nat (length pending))
             (Z.of_nat (length pending)) maximumEpochs)
      else
      let s := epoch_attempts w pending in
      match es_committed s with
      | [] => ArFailed (AeNoProgress epoch ((λ d, TxID (aa_Tx d.1)) <$> es_deferred s) (es_deferred s).*2)
      | _ => epoch_drain fuel (epoch + 1) ((λ d, aa_Index d.1) <$> es_deferred s)
               (close_epoch b epoch pending s w)
      end
    end
  end.

(** The committed transactions and the deferred ones are those of the epoch. *)
Lemma epoch_perm w pending :
  (aa_Index <$> es_committed (epoch_attempts w pending)) ++
  ((λ d, aa_Index d.1) <$> es_deferred (epoch_attempts w pending)) ≡ₚ pending.
Proof.
  unfold epoch_attempts. set (l := attempts _ _ _ _). set (t := buildAriaReservations l).
  pose proof (split_perm e t l 1) as H. apply (fmap_Permutation aa_Index) in H.
  rewrite fmap_app, <- list_fmap_compose in H. unfold compose in H. rewrite H. unfold l, attempts.
  rewrite <- list_fmap_compose. rewrite (list_fmap_ext _ id); [by rewrite list_fmap_id|].
  intros p i _. simpl. by destruct (attempt_fields e b (aw_working w) i).
Qed.

Lemma committed_delta w pending a :
  a ∈ es_committed (epoch_attempts w pending) →
  aa_Delta a = delta_on initial b (aw_working w) (job_at b (aa_Index a)).
Proof.
  intros Ha. assert (a ∈ attempts e b (aw_working w) pending) as Hin.
  { rewrite <- (split_perm e (buildAriaReservations (attempts e b (aw_working w) pending)) _ 1).
    apply elem_of_app. by left. }
  apply list_elem_of_lookup_1 in Hin as [p Hp].
  destruct (attempts_lookup e b _ _ _ _ Hp) as (i & _ & _ & Ei & Ed). by rewrite Ei.
Qed.

Lemma delta_receipt st j root :
  without_root (with_receipt (delta_on initial b st j)
    (with_root (td_Receipt (delta_on initial b st j)) root)) = delta_on initial b st j.
Proof.
  unfold delta_on. pose proof (proj1 (ExecuteTransaction_run initial b j.2 st j.1)) as Hr.
  destruct (tx_run_ok initial b j.2 st) as [[err Ht] _]. rewrite Ht in Hr.
  unfold ExecuteTransaction in *. destruct (interp _ _) as [o r]. simpl in *. by subst.
Qed.

Lemma commit_fold l : ∀ w,
  let w' := foldl (commit_attempt b) w l in
  aw_working w' = foldl (λ s a, materialize (ShardID b) (td_WriteSet (aa_Delta a)) s) (aw_working w) l ∧
  (represents (aw_commitment w) (aw_working w) → represents (aw_commitment w') (aw_working w')) ∧
  length (aw_finalDeltas w') = length (aw_finalDeltas w) ∧
  (∀ i, i ∉ aa_Index <$> l → aw_finalDeltas w' !! i = aw_finalDeltas w !! i) ∧
  (NoDup (aa_Index <$> l) → ∀ a, a ∈ l → (aa_Index a < length (aw_finalDeltas w))%nat →
     ∃ root, aw_finalDeltas w' !! aa_Index a =
       Some (Some (with_receipt (aa_Delta a) (with_root (td_Receipt (aa_Delta a)) root)))).
Proof.
  induction l as [|a l IH]; intros w; simpl.
  { split_and!; [done..|]. intros _ a. by rewrite elem_of_nil. }
  specialize (IH (commit_attempt b w a)). destruct IH as (E1 & E2 & E3 & E4 & E5). simpl in *.
  rewrite length_insert in E3, E5. split_and!; [done| |done| |].
  - intros R. apply E2. by apply commit_writes_represents.
  - intros i Hi. rewrite E4 by set_solver. apply list_lookup_insert_ne. set_solver.
  - intros Hnd x Hx Hl. apply NoDup_cons in Hnd as [Ha Hnd]. apply elem_of_cons in Hx as [->|Hx].
    + rewrite E4 by done. eexists. by apply list_lookup_insert_eq.
    + by apply E5.
Qed.

Context (Hua : unaliased b = true).

Definition deltas_of (st : gmap string string) (order : list nat) (ds : list (option TxDelta)) : Prop :=
  ∀ k i, order !! k = Some i → ∃ d, ds !! i = Some (Some d) ∧
    without_root d = delta_on initial b (final initial b (tx_at b <$> take k order) st) (job_at b i).

Lemma close_epoch_serial epoch pending w :
  NoDup pending → (∀ i, i ∈ pending → (i < count)%nat) → length (aw_finalDeltas w) = count →
  let s := epoch_attempts w pending in
  let w' := close_epoch b epoch pending s w in
  ∃ order, order ≡ₚ aa_Index <$> es_committed s ∧
    aw_working w' = final initial b (tx_at b <$> order) (aw_working w) ∧
    length (aw_finalDeltas w') = count ∧
    (represents (aw_commitment w) (aw_working w) → represents (aw_commitment w') (aw_working w')) ∧
    (∀ i, i ∉ order → aw_finalDeltas w' !! i = aw_finalDeltas w !! i) ∧
    deltas_of (aw_working w) order (aw_finalDeltas w').
Proof.
  intros Hnd Hin Hlen s w'.
  destruct (epoch_serial e b (aw_working w) pending Hua Hnd Hin) as (order & Hp & Ef & Ed).
  fold (epoch_attempts w pending) in Hp, Ef. fold s in Hp, Ef. exists order.
  destruct (commit_fold (es_committed s) w) as (E1 & E2 & E3 & E4 & E5).
  assert (NoDup (aa_Index <$> es_committed s)) as Hnd'.
  { rewrite <- (epoch_perm w pending) in Hnd. by apply NoDup_app in Hnd as [? _]. }
  split_and!; [done| | |done| |].
  - simpl. by rewrite E1, Ef.
  - simpl. by rewrite E3.
  - intros i Hi. simpl. apply E4. by rewrite <- Hp.
  - intros k i Hk. rewrite (Ed k i Hk).
    assert (i ∈ aa_Index <$> es_committed s) as Hi by (rewrite <- Hp; by eapply list_elem_of_lookup_2).
    apply list_elem_of_fmap in Hi as (a & -> & Ha).
    destruct (E5 Hnd' a Ha) as [root Hr].
    { rewrite Hlen. apply Hin. rewrite <- (epoch_perm w pending). apply elem_of_app. left.
      by apply list_elem_of_fmap_2. }
    eexists. split; [exact Hr|]. rewrite (committed_delta w pending a Ha). apply delta_receipt.
Qed.

Lemma deltas_of_app st o1 o2 ds1 ds2 :
  deltas_of st o1 ds1 → (∀ i, i ∈ o1 → ds2 !! i = ds1 !! i) →
  deltas_of (final initial b (tx_at b <$> o1) st) o2 ds2 → deltas_of st (o1 ++ o2) ds2.
Proof.
  intros H1 He H2 k i Hk. apply lookup_app_Some in Hk as [Hk|[Hl Hk]].
  - destruct (H1 k i Hk) as (d & Hd & E). exists d. rewrite He by (by eapply list_elem_of_lookup_2).
    split; [done|]. rewrite E, take_app_le; [done|]. apply lookup_lt_Some in Hk. lia.
  - destruct (H2 _ i Hk) as (d & Hd & E). exists d. split; [done|]. rewrite E.
    rewrite take_app_ge by done. unfold final. by rewrite fmap_app, foldl_app.
Qed.

Lemma drain_serial fuel : ∀ epoch pending w w',
  NoDup pending → (∀ i, i ∈ pending → (i < count)%nat) → length (aw_finalDeltas w) = count →
  represents (aw_commitment w) (aw_working w) →
  epoch_drain fuel epoch pending w = ArReturned w' →
  ∃ order, order ≡ₚ pending ∧ represents (aw_commitment w') (aw_working w') ∧
    aw_working w' = final initial b (tx_at b <$> order) (aw_working w) ∧
    length (aw_finalDeltas w') = count ∧
    (∀ i, i ∉ pending → aw_finalDeltas w' !! i = aw_finalDeltas w !! i) ∧
    deltas_of (aw_working w) order (aw_finalDeltas w').
Proof.
  induction fuel as [|fuel IH]; intros epoch pending w w' Hnd Hin Hlen R E.
  { destruct pending; simplify_eq/=. by exists []. }
  destruct pending as [|i0 pending'] eqn:Ep; [simplify_eq/=; by exists []|].
  rewrite <- Ep in *. assert (epoch_drain (S fuel) epoch pending w = ArReturned w') as E' by done.
  clear E. rewrite Ep in E'. cbn [epoch_drain] in E'. rewrite <- Ep in E'.
  destruct (maximumEpochs <? epoch)%Z; [done|].
  destruct (close_epoch_serial epoch pending w Hnd Hin Hlen) as (o1 & Hp1 & Ew & El & Er & Eo & Ed).
  pose proof (epoch_perm w pending) as Hperm. set (s := epoch_attempts w pending) in *.
  set (w1 := close_epoch b epoch pending s w) in *. clearbody w1.
  destruct (es_committed s) as [|a cs] eqn:Ec; [done|]. rewrite <- Ec in *. clear Ec.
  set (rest := (λ d, aa_Index d.1) <$> es_deferred s) in *.
  rewrite <- Hp1 in Hperm.
  assert (NoDup (o1 ++ rest)) as Hnd2 by (by rewrite Hperm).
  apply NoDup_app in Hnd2 as (_ & Hdis & Hnd2).
  destruct (IH (epoch + 1)%Z rest w1 w' Hnd2) as (o2 & Hp2 & R' & Ew2 & El2 & Eo2 & Ed2); [|done|by apply Er|done|].
  { intros i Hi. apply Hin. rewrite <- Hperm. apply elem_of_app. by right. }
  exists (o1 ++ o2). split_and!; [|done| |done| |].
  - by rewrite Hp2.
  - rewrite Ew2, Ew. unfold final. by rewrite fmap_app, foldl_app.
  - intros i Hi. rewrite <- Hperm in Hi. apply not_elem_of_app in Hi as [H1 H2].
    by rewrite Eo2, Eo.
  - apply (deltas_of_app _ _ _ (aw_finalDeltas w1)); [done| |by rewrite <- Ew].
    intros i Hi. apply Eo2. by apply Hdis.
Qed.
End drain.
