(* ===== verification/AriaTheorems.v ===== *)
(** * The theorems about the Aria executor

    Serializability of the result, independence of the workers' interleaving, the
    end of the epochs, and what happens to a key written in two forms. *)
From S2P Require Import Prelude GoStd GoText Tx Block StateRoot Serial SerialProps Ledger Footprint Reorder WorkerPool Aria AriaProps.
Local Open Scope N_scope.
#[local] Opaque Sha256.sum256 sha256_hex Json.marshal.

(** ** The workers of an epoch *)

Lemma fmap_lookup_seq {B} (f : nat → B) (l : list nat) :
  (λ p, f (default O (l !! p))) <$> seq 0 (length l) = f <$> l.
Proof.
  apply list_eq. intros i. rewrite !list_lookup_fmap.
  destruct (decide (i < length l)%nat) as [H|H].
  - rewrite lookup_seq_lt by done. simpl. by destruct (lookup_lt_is_Some_2 l i H) as [x ->].
  - rewrite lookup_seq_ge, lookup_ge_None_2 by lia. done.
Qed.

Lemma executeEpoch_attempts e b st pending workers cs cancelled cancelled' l :
  executeEpoch e b st pending workers cs cancelled = Some (cancelled', Some l) →
  l = attempts e b st pending.
Proof.
  unfold executeEpoch, attempts. destruct pending as [|i pending]; [by intros; simplify_eq|].
  set (pe := i :: pending). intros [_ ->]%run_pool_results. apply (fmap_lookup_seq (attempt_of e b st)).
Qed.

(** Whatever the interleaving, a call that returns returns what the epochs give
    without workers, or the end of the context. *)
Lemma loop_outcome e b workers maximumEpochs schedule fuel : ∀ epoch cancelled pending w,
  let r := epoch_loop fuel e b workers maximumEpochs schedule epoch cancelled pending w in
  r = ArRunning ∨ r = ArFailed AeContext ∨ r = epoch_drain e b maximumEpochs fuel epoch pending w.
Proof.
  induction fuel as [|fuel IH]; intros epoch cancelled pending w; [by destruct pending; auto|].
  destruct pending as [|i pending]; [by auto|]. cbn [epoch_loop epoch_drain].
  set (pe := i :: pending). destruct (maximumEpochs <? epoch)%Z; [by auto|].
  destruct (cancelled || (schedule epoch).1); [by auto|].
  destruct (executeEpoch _ _ _ _ _ _ _) as [[c' [l|]]|] eqn:E; [|by auto..].
  apply executeEpoch_attempts in E as ->. cbv zeta. unfold epoch_attempts.
  set (s := split_attempts _ _ _ _). destruct (es_committed s); [by auto|]. apply IH.
Qed.

(** A schedule in which the context stays alive. *)
Definition quiet (schedule : aria_schedule) : Prop :=
  ∀ epoch, (schedule epoch).1 = false ∧ Forall (.≠ PlCancel) (schedule epoch).2.

Lemma executeEpoch_quiet e b st pending workers cs cancelled' r :
  Forall (.≠ PlCancel) cs →
  executeEpoch e b st pending workers cs false = Some (cancelled', r) → cancelled' = false ∧ r ≠ None.
Proof.
  intros Hq. unfold executeEpoch. destruct pending as [|i pending]; [by intros; simplify_eq|].
  apply run_pool_quiet, Hq.
Qed.

Lemma loop_quiet e b workers maximumEpochs schedule fuel : quiet schedule → ∀ epoch pending w,
  epoch_loop fuel e b workers maximumEpochs schedule epoch false pending w ≠ ArFailed AeContext.
Proof.
  intros Hq. induction fuel as [|fuel IH]; intros epoch pending w; [by destruct pending|].
  destruct pending as [|i pending]; [done|]. cbn [epoch_loop]. destruct (Hq epoch) as [-> Hc].
  destruct (maximumEpochs <? epoch)%Z; [done|]. cbn [orb].
  destruct (executeEpoch _ _ _ _ _ _ _) as [[c' r]|] eqn:E; [|done].
  destruct (executeEpoch_quiet _ _ _ _ _ _ _ _ Hc E) as [-> Hr]. destruct r; [|done].
  case_match; [done|]. apply IH.
Qed.

(** ** Progress *)

(** The first attempt that does not wait for a nonce is committed. *)
Lemma epoch_progress e l :
  (∃ a, a ∈ l ∧ aa_Retryable a = false) →
  es_committed (split_attempts e (buildAriaReservations l) 1 l) ≠ [].
Proof.
  intros (a0 & H0 & Hr0).
  assert (∃ p a, l !! p = Some a ∧ aa_Retryable a = false ∧
    ∀ q a', (q < p)%nat → l !! q = Some a' → aa_Retryable a' = true) as (p & a & Hp & Hr & Hq).
  { clear e. induction l as [|x l IH]; [by apply elem_of_nil in H0|].
    destruct (aa_Retryable x) eqn:Ex.
    - apply elem_of_cons in H0 as [->|H0]; [congruence|]. destruct (IH H0) as (p & a & ? & ? & Hq).
      exists (S p), a. split_and!; [done..|]. intros [|q] a' Hlt Ha; simplify_eq/=; [done|].
      apply (Hq q); [lia|done].
    - exists O, x. split_and!; [done..|]. lia. }
  assert (∀ f ks, existsb (earlier (reserve_with f 1 l ∅) (S p)) ks = false) as Hn.
  { intros f ks. apply not_true_iff_false. intros (k & q & a' & _ & Hl & Hlt & Hs & _)%existsb_earlier.
    specialize (Hq q a' Hlt Hl). unfold skips_reservation in Hs. by rewrite Hq in Hs. }
  assert (deferral e (buildAriaReservations l) (S p) a = None) as Hd.
  { unfold deferral. rewrite Hr. case_match; [done|]. case_match; [done|].
    unfold analyzeAriaConflict, buildAriaReservations. rewrite reserve_attempts_columns. simpl.
    rewrite !Hn. by destruct (ar_Reordering e). }
  rewrite split_committed. intros E.
  assert ((S p, a) ∈ committed_at e (buildAriaReservations l) 1 l) as Hin.
  { apply list_elem_of_filter. split; [done|]. apply list_elem_of_lookup_2 with p.
    apply lookup_zip_with_Some. exists (S p), a. split_and!; [done| |done].
    apply lookup_seq. split; [lia|]. by apply lookup_lt_Some in Hp. }
  destruct (committed_at e (buildAriaReservations l) 1 l); [by apply elem_of_nil in Hin|discriminate E].
Qed.

(** All of [pending] wait for a nonce that [st] does not have. *)
Definition all_wait (e : AriaExecutor) (b : Block) (st : gmap string string) (pending : list nat) : Prop :=
  pending ≠ [] ∧ ∀ i, i ∈ pending → aa_Retryable (attempt_of e b st i) = true.

(** The work done and the transactions pending when the epochs end: all of them are
    committed, or an epoch commits none. *)
Fixpoint epoch_stop (e : AriaExecutor) (b : Block) (fuel : nat) (epoch : Z) (pending : list nat) (w : aria_work)
    : aria_work * list nat :=
  match pending, fuel with
  | [], _ | _, O => (w, pending)
  | _, S fuel =>
      let s := epoch_attempts e b w pending in
      match es_committed s with
      | [] => (w, pending)
      | _ => epoch_stop e b fuel (epoch + 1) ((λ d, aa_Index d.1) <$> es_deferred s) (close_epoch b epoch pending s w)
      end
  end.

(** The state the work is done on is that of a serial execution of the transactions
    no longer pending. *)
Lemma stop_serial e b fuel : unaliased b = true → ∀ epoch pending w,
  NoDup pending → (∀ i, i ∈ pending → (i < length (TxList b))%nat) → length (aw_finalDeltas w) = length (TxList b) →
  let stop := epoch_stop e b fuel epoch pending w in
  ∃ order, order ++ stop.2 ≡ₚ pending ∧
    aw_working stop.1 = final (ar_DefaultInitialBalance e) b (tx_at b <$> order) (aw_working w).
Proof.
  intros Hua. induction fuel as [|fuel IH]; intros epoch pending w Hnd Hin Hlen; cbv zeta; [by exists []; destruct pending|].
  destruct (decide (pending = [])) as [->|Hne]; [by exists []|].
  assert (epoch_stop e b (S fuel) epoch pending w = let s := epoch_attempts e b w pending in
    match es_committed s with
    | [] => (w, pending)
    | _ => epoch_stop e b fuel (epoch + 1) ((λ d, aa_Index d.1) <$> es_deferred s) (close_epoch b epoch pending s w)
    end) as -> by (by destruct pending). clear Hne. cbv zeta.
  destruct (close_epoch_serial e b Hua epoch pending w Hnd Hin Hlen) as (o1 & Hp1 & Ew & El & _).
  pose proof (epoch_perm e b w pending) as Hperm. set (s := epoch_attempts e b w pending) in *.
  destruct (es_committed s) as [|a cs] eqn:Ec; [by exists []|]. rewrite <- Ec in *. clear Ec.
  set (rest := (λ d, aa_Index d.1) <$> es_deferred s) in *. rewrite <- Hp1 in Hperm.
  assert (NoDup (o1 ++ rest)) as Hnd2 by (by rewrite Hperm). apply NoDup_app in Hnd2 as (_ & _ & Hnd2).
  destruct (IH (epoch + 1)%Z rest (close_epoch b epoch pending s w) Hnd2) as (o2 & Hp2 & Ew2); [|exact El|].
  { intros i Hi. apply Hin. rewrite <- Hperm. apply elem_of_app. by right. }
  exists (o1 ++ o2). split; [by rewrite <- app_assoc, Hp2|].
  rewrite Ew2, Ew. unfold final. by rewrite fmap_app, foldl_app.
Qed.

Lemma drain_ends e b maximumEpochs fuel : ∀ epoch pending w,
  (length pending <= fuel)%nat → (epoch + Z.of_nat (length pending) <= maximumEpochs + 1)%Z →
  (∃ w', epoch_drain e b maximumEpochs fuel epoch pending w = ArReturned w') ∨
  (∃ n rest reasons, epoch_drain e b maximumEpochs fuel epoch pending w =
     ArFailed (AeNoProgress n ((λ i, TxID (tx_at b i)) <$> rest) reasons) ∧
     let stop := epoch_stop e b fuel epoch pending w in
     all_wait e b (aw_working stop.1) rest ∧ rest ≡ₚ stop.2 ∧ rest ⊆ pending).
Proof.
  induction fuel as [|fuel IH]; intros epoch pending w Hl Hm.
  { destruct pending; [|simpl in Hl; lia]. left. by exists w. }
  destruct pending as [|i pending]; [left; by exists w|]. cbn [epoch_drain epoch_stop].
  set (pe := i :: pending) in *. assert (length pe ≠ O) as Hpe by done. clearbody pe. cbv zeta.
  rewrite (proj2 (Z.ltb_ge _ _)) by lia.
  pose proof (epoch_perm e b w pe) as Hperm. pose proof (Permutation_length Hperm) as Hlen.
  rewrite length_app, !length_fmap in Hlen.
  destruct (es_committed (epoch_attempts e b w pe)) as [|a cs] eqn:Ec.
  - right. exists epoch. set (ds := es_deferred (epoch_attempts e b w pe)) in *.
    exists ((λ d, aa_Index d.1) <$> ds), ds.*2. simpl in Hperm.
    assert (∀ i, i ∈ pe → aa_Retryable (attempt_of e b (aw_working w) i) = true) as Hw.
    { intros j Hj. destruct (aa_Retryable _) eqn:Er; [done|]. exfalso.
      eapply (epoch_progress e (attempts e b (aw_working w) pe)); [|exact Ec].
      exists (attempt_of e b (aw_working w) j). split; [|done]. by apply list_elem_of_fmap_2. }
    split_and!.
    + do 2 f_equal. rewrite <- list_fmap_compose. apply list_fmap_ext. intros p d Hd. unfold compose.
      destruct (split_deferred _ _ _ _ d (list_elem_of_lookup_2 _ _ _ Hd)) as (q & Hq & _).
      destruct (attempts_lookup _ _ _ _ _ _ Hq) as (j & _ & -> & _).
      by destruct (attempt_fields e b (aw_working w) j) as (-> & -> & _).
    + split; [|intros j Hj; apply Hw; by rewrite <- Hperm].
      intros E. rewrite E in Hperm. by apply Permutation_length in Hperm.
    + exact Hperm.
    + by rewrite Hperm.
  - assert (length ((λ d, aa_Index d.1) <$> es_deferred (epoch_attempts e b w pe)) < length pe)%nat as Hlt.
    { rewrite length_fmap. simpl in Hlen. lia. }
    destruct (IH (epoch + 1)%Z ((λ d, aa_Index d.1) <$> es_deferred (epoch_attempts e b w pe))
      (close_epoch b epoch pe (epoch_attempts e b w pe) w)) as [H|H]; [lia|lia|by left|].
    right. destruct H as (n & rest & rs & H1 & H2 & H3 & H4). exists n, rest, rs.
    split_and!; [done..|]. etrans; [exact H4|]. intros j Hj. rewrite <- Hperm. apply elem_of_app. by right.
Qed.

(** ** What a waiting transaction waits for *)

Lemma parse_digits_range s : ∀ acc, acc <= max_uint64 → (parse_digits acc s).1 <= max_uint64.
Proof.
  induction s as [|c s IH]; intros acc H; simpl; [done|].
  destruct (digit_of c) as [d|]; [|done]. destruct (max_uint64 <? acc * 10 + d) eqn:E; [done|].
  apply N.ltb_ge in E. by apply IH.
Qed.

Lemma atou64_range s : atou64 s <= max_uint64.
Proof. unfold atou64, parse_uint. destruct s; [done|]. by apply parse_digits_range. Qed.

Lemma scan_nonce_mismatch_format expected got :
  expected <= max_uint64 → got <= max_uint64 →
  scan_nonce_mismatch (nonce_mismatch expected got) = Some (expected, got).
Proof.
  intros He Hg. unfold scan_nonce_mismatch, nonce_mismatch. rewrite strip_prefix_app.
  unfold mbind, option_bind. rewrite (scan_uint_format expected ("_got_" +:+ format_uint got)) by done.
  rewrite strip_prefix_app.
  rewrite <- (append_empty (format_uint got)). by rewrite scan_uint_format.
Qed.

(** The errors of a transfer. *)
Lemma transfer_error initial item (o : store) :
  let err := (interp (transfer initial item) o).2 in
  err ∈ [""; "invalid_value"; "insufficient_balance"] ∨
  err = nonce_mismatch (nonce_of (store_view o) (Sender item)) (Nonce item).
Proof.
  intros err. unfold err, transfer. rewrite !interp_bind.
  assert (∀ a, nonce_of (store_view (interp (ensureAccount (Receiver item) 0)
    (interp (ensureAccount (Sender item) initial) o).1).1) a = nonce_of (store_view o) a) as E
    by (intros a; by rewrite !nonce_ensure).
  set (o2 := (interp (ensureAccount (Receiver item) 0) _).1) in *. clearbody o2. rewrite <- E.
  unfold transfer_checked, getNonce. rewrite !interp_bind. simpl. fold (nk (Sender item)).
  unfold nonce_of. case_bool_decide as En; simpl; [|by right]. left.
  case_match; simpl; [set_solver|]. case_match; simpl; [set_solver|].
  rewrite interp_bind. simpl. set_solver.
Qed.

(** An attempt that is retried is a transfer whose sender's nonce has not been
    reached in the epoch's state. *)
Lemma retryable_waits e b st i :
  Nonce (tx_at b i) <= max_uint64 → aa_Retryable (attempt_of e b st i) = true →
  nonce_of (shard_view (ShardID b) st) (Sender (tx_at b i)) < Nonce (tx_at b i).
Proof.
  intros Hn Hr. unfold attempt_of in Hr.
  pose proof (tx_overlay_run (ar_DefaultInitialBalance e) b (tx_at b i) st) as [Er _].
  destruct (interp _ (newTxOverlay _ _)) as [o r]. simpl in Er.
  assert (aa_Retryable (let '(retryable, reason) := ariaRetryableFailure r (ar_RetryNonceGaps e) in
    MkAttempt i (tx_at b i) (delta_of (tx_at b i) (Z.of_nat i) (to_reads o) (to_writes o) r) retryable reason) =
    (ariaRetryableFailure r (ar_RetryNonceGaps e)).1) as Ea by (by destruct (ariaRetryableFailure _ _)).
  rewrite Ea in Hr. clear Ea. subst r. unfold tx_run, executeTxWithoutStateRoot in Hr.
  rewrite interp_bind, semantic_reads_store in Hr. cbn [fst snd] in Hr. unfold ariaRetryableFailure in Hr.
  destruct (isPureCommutativeDelta _); [rewrite interp_bind in Hr; simpl in Hr; by rewrite orb_true_r in Hr|].
  destruct (isCrossShardTargetCommit _ _); [rewrite interp_bind in Hr; simpl in Hr; by rewrite orb_true_r in Hr|].
  destruct (isDirectAccessTransaction _); [rewrite interp_bind in Hr; simpl in Hr; by rewrite orb_true_r in Hr|].
  rewrite interp_bind in Hr.
  destruct (transfer_error (ar_DefaultInitialBalance e) (tx_at b i) (MkStore (shard_view (ShardID b) st) ∅)) as [H|H].
  - destruct (ar_RetryNonceGaps e); [|done]. cbn [negb orb] in Hr. exfalso. revert H Hr.
    rewrite !elem_of_cons, elem_of_nil. intros [->|[->|[->|[]]]]; vm_compute; done.
  - rewrite H in Hr. destruct (_ || _) in Hr; [done|].
    cbn [rc_Error receipt_of interp mret action_ret snd] in Hr.
    rewrite scan_nonce_mismatch_format in Hr; [|apply atou64_range|done].
    destruct (_ <? _) eqn:Hlt in Hr; [|done]. apply N.ltb_lt in Hlt. exact Hlt.
Qed.

(** ** Every transaction gets its result *)

Definition filled_at (ds : list (option TxDelta)) (i : nat) : Prop := ∃ d, ds !! i = Some (Some d).

Lemma drain_fills e b maximumEpochs fuel : ∀ epoch pending w w',
  NoDup pending → length (aw_finalDeltas w) = length (TxList b) →
  epoch_drain e b maximumEpochs fuel epoch pending w = ArReturned w' →
  length (aw_finalDeltas w') = length (TxList b) ∧
  ∀ i, (i < length (TxList b))%nat → i ∈ pending ∨ filled_at (aw_finalDeltas w) i →
    filled_at (aw_finalDeltas w') i.
Proof.
  induction fuel as [|fuel IH]; intros epoch pending w w' Hnd Hlen E.
  { destruct pending; simplify_eq/=. split; [done|]. intros i _ [H%elem_of_nil|H]; done. }
  destruct pending as [|i0 pending].
  { simplify_eq/=. split; [done|]. intros i _ [H%elem_of_nil|H]; done. }
  cbn [epoch_drain] in E. set (pe := i0 :: pending) in *. clearbody pe. clear i0 pending.
  destruct (maximumEpochs <? epoch)%Z; [done|].
  pose proof (epoch_perm e b w pe) as Hperm. set (s := epoch_attempts e b w pe) in *. clearbody s.
  destruct (commit_fold b (es_committed s) w) as (_ & _ & E3 & E4 & E5).
  assert (NoDup ((aa_Index <$> es_committed s) ++ ((λ d, aa_Index d.1) <$> es_deferred s))) as Hnd2
    by (by rewrite Hperm).
  apply NoDup_app in Hnd2 as (H1 & _ & H2).
  destruct (es_committed s) as [|a cs] eqn:Ec; [done|]. rewrite <- Ec in *. clear Ec a cs.
  apply IH in E as [El Ef]; [|done|simpl; by rewrite E3]. split; [done|].
  intros i Hi Hc. apply Ef; [done|].
  destruct (decide (i ∈ aa_Index <$> es_committed s)) as [Hin|Hin].
  - right. apply list_elem_of_fmap in Hin as (a & -> & Ha).
    destruct (E5 H1 a Ha) as [root Hr]; [by rewrite Hlen|]. eexists. exact Hr.
  - destruct Hc as [Hc|[d Hd]].
    + left. rewrite <- Hperm in Hc. by apply elem_of_app in Hc as [?|?].
    + right. exists d. simpl. by rewrite E4.
Qed.

Lemma all_filled ds : ∀ b i,
  (∀ k, (k < length ds)%nat → filled_at ds k) → first_missing b i ds = None.
Proof.
  induction ds as [|[d|] ds IH]; intros b i H; simpl; [done| |].
  - apply IH. intros k Hk. apply (H (S k)). simpl. lia.
  - destruct (H O) as [d Hd]; [simpl; lia|done].
Qed.

Lemma first_missing_kind ds : ∀ b i err, first_missing b i ds = Some err → ∃ txID j, err = AeMissing txID j.
Proof. induction ds as [|[d|] ds IH]; intros b i err H; simplify_eq/=; eauto. Qed.

Lemma filled_lookup ds : ∀ b j i d,
  first_missing b j ds = None → ds !! i = Some (Some d) → omap (M := list) id ds !! i = Some d.
Proof.
  induction ds as [|[d'|] ds IH]; intros b j [|i] d Hm Hd; simplify_eq/=; [done|].
  by apply (IH b (S j)).
Qed.

Lemma filled_length ds : ∀ b j, first_missing b j ds = None → length (omap (M := list) id ds) = length ds.
Proof.
  induction ds as [|[d'|] ds IH]; intros b j Hm; simplify_eq/=; [done|]. f_equal. by apply (IH b (S j)).
Qed.

(** ** The whole call *)

(** The call without workers. *)
Definition aria_reference (e : AriaExecutor) (b : Block) (base : gmap string string)
    (c : option commitmentNode) : aria_outcome (Result * list AriaEpochTrace) :=
  let n := length (TxList b) in
  let commitment := CloneOrBuild c base in
  match epoch_drain e b (maximum_epochs e b) n 1 (seq 0 n) (MkWork base commitment (replicate n None) [] [] []) with
  | ArRunning => ArRunning
  | ArFailed err => ArFailed err
  | ArReturned w =>
      match first_missing b 0 (aw_finalDeltas w) with
      | Some err => ArFailed err
      | None => ArReturned (aria_result e b base (Z.max 1 (ar_WorkerCount e))
                  (CommitmentRoot (Some commitment)) w, aw_Trace w)
      end
  end.

Lemma call_outcome e b base c cancelled schedule :
  let r := AriaExecuteBlockWithCommitment e b base c cancelled schedule in
  r = ArRunning ∨ r = ArFailed AeContext ∨ r = aria_reference e b base c.
Proof.
  intros r. unfold r, AriaExecuteBlockWithCommitment, aria_reference. destruct cancelled; [by auto|].
  set (n := length (TxList b)).
  destruct (loop_outcome e b (Z.max 1 (ar_WorkerCount e)) (maximum_epochs e b) schedule n 1 false (seq 0 n)
    (MkWork base (CloneOrBuild c base) (replicate n None) [] [] [])) as [->|[->| ->]]; by auto.
Qed.

(** The block with other transactions. *)
Definition with_txs (b : Block) (items : list SignedTransaction) : Block :=
  MkBlock (BlockHash b) (ShardID b) (Height b) (PreviousHash b) (ProposerID b) (BlockTimestamp b)
    (Some (TxID <$> items)) items (TxRootField b) (StateRootBefore b) (StateRootAfter b)
    (ReceiptRootField b) (ProposerDigest b) (StateCommit b) (CrossShardProtocol b)
    (SystemStateDeltas b) (ExecutionPlan b) (ProposalEvidence b).

(** [r] is the result of executing the transactions of [b] serially in the order
    [order]: the state, its root and its delta are the serial executor's, and each
    transaction has the write set the serial executor gives it and its receipt, up to
    the root after the transaction. *)
Definition serial_in_order (initial : Z) (b : Block) (base : gmap string string) (order : list nat)
    (r : Result) : Prop :=
  let s := ExecuteBlock initial (with_txs b (tx_at b <$> order)) base in
  re_StateRootBefore r = re_StateRootBefore s ∧
  re_StateUpdates r = re_StateUpdates s ∧
  re_StateRootAfter r = re_StateRootAfter s ∧
  re_StateDelta r = re_StateDelta s ∧
  ∀ k i, order !! k = Some i → ∃ da ds, re_TxDeltas r !! i = Some da ∧ re_TxDeltas s !! k = Some ds ∧
    td_WriteSet da = td_WriteSet ds ∧
    re_Receipts r !! i = Some (td_Receipt da) ∧ re_Receipts s !! k = Some (td_Receipt ds) ∧
    with_root (td_Receipt da) "" = with_root (td_Receipt ds) "".

Lemma tx_at_lookup b (order : list nat) k i : order !! k = Some i → (tx_at b <$> order) !! k = Some (tx_at b i).
Proof. intros H. by rewrite list_lookup_fmap, H. Qed.

(** A result assembled from a state, write sets and receipts that are those of the order. *)
Lemma serial_in_order_intro initial b base order r (c c' : commitmentNode) :
  represents c base → re_StateRootBefore r = CommitmentRoot (Some c) →
  re_StateUpdates r = final initial b (tx_at b <$> order) base →
  represents c' (re_StateUpdates r) → re_StateRootAfter r = CommitmentRoot (Some c') →
  re_StateDelta r = stateDelta base (re_StateUpdates r) → re_Receipts r = td_Receipt <$> re_TxDeltas r →
  (∀ k i, order !! k = Some i → ∃ da, re_TxDeltas r !! i = Some da ∧
     let run := tx_run initial b (tx_at b i) (final initial b (tx_at b <$> take k order) base) in
     with_root (td_Receipt da) "" = run.2 ∧ td_WriteSet da = so_writes run.1) →
  serial_in_order initial b base order r.
Proof.
  intros Rc Eb Ew Rc' Ea Ed Ercs Hr. unfold serial_in_order, ExecuteBlock, ExecuteBlockWithCommitment.
  set (items := tx_at b <$> order) in *. set (sb := with_txs b items).
  assert (∀ l st, final initial sb l st = final initial b l st) as Ef by done.
  destruct (block_loop_spec initial sb items 0 base _ (represents_New base)) as (Hw & Hc & _).
  pose proof (block_loop_receipt initial sb items 0 base (NewCommitment base)) as Hd.
  change (TxList sb) with items. simpl CloneOrBuild.
  destruct (block_loop _ _ _ _ _) as [[w c''] ds]. simpl in *. subst w. rewrite Ef in *. split_and!.
  - by rewrite Eb, !(represents_root _ base) by (done || apply represents_New).
  - done.
  - rewrite Ea, (represents_root _ _ Rc'), Ew. symmetry. by apply represents_root.
  - by rewrite Ed, Ew.
  - intros k i Hk. destruct (Hr k i Hk) as (da & Hda & Era & Ewa).
    destruct (Hd k (tx_at b i)) as (d & Hl & Hrd & Hwd); [by apply tx_at_lookup|].
    rewrite Ef in Hrd, Hwd. unfold items in Hrd, Hwd. rewrite <- fmap_take in Hrd, Hwd.
    exists da, d. rewrite Ercs, !list_lookup_fmap, Hda, Hl. split_and!; [done|done|by rewrite Ewa, Hwd|done|done|].
    by rewrite Hrd, Era.
Qed.

(** C3: the Aria executor is serializable. Whatever the number of workers, their
    interleaving and the settings of the executor, when it returns a result for a
    block no two of whose keys name the same cell (and the commitment it is given, if
    any, is that of the base state), there is an order of the block's transactions
    whose serial execution gives the result's state, roots and state delta and,
    transaction by transaction, its write sets and its receipts, these up to the field
    [StateRootAfterTx]. *)
Theorem aria_serializable (e : AriaExecutor) (b : Block) (base : gmap string string)
    (c : option commitmentNode) (cancelled : bool) (schedule : aria_schedule)
    (r : Result) (trace : list AriaEpochTrace) :
  unaliased b = true → c = None ∨ c = Some (NewCommitment base) →
  AriaExecuteBlockWithCommitment e b base c cancelled schedule = ArReturned (r, trace) →
  ∃ order, order ≡ₚ seq 0 (length (TxList b)) ∧
    serial_in_order (ar_DefaultInitialBalance e) b base order r.
Proof.
  intros Hua Hc E. destruct (call_outcome e b base c cancelled schedule) as [H|[H|H]]; [congruence..|].
  rewrite E in H. clear E. symmetry in H. unfold aria_reference in H.
  assert (CloneOrBuild c base = NewCommitment base) as Ec by (destruct Hc as [->| ->]; done).
  rewrite Ec in H. set (n := length (TxList b)) in *.
  destruct (epoch_drain _ _ _ _ _ _ _) as [| |w] eqn:Ed; [done..|].
  destruct (first_missing _ _ _) eqn:Em; [done|]. injection H as <- <-.
  pose proof (represents_New base) as Rn.
  destruct (drain_serial e b (maximum_epochs e b) Hua n 1 (seq 0 n)
    (MkWork base (NewCommitment base) (replicate n None) [] [] []) w (NoDup_seq 0 n)
    (λ i Hi, proj2 (proj1 (elem_of_seq _ _ _) Hi)) (length_replicate _ _) Rn Ed)
    as (order & Hp & R & Ew & _ & _ & Hd).
  exists order. split; [done|].
  apply (serial_in_order_intro _ _ _ _ _ (NewCommitment base) (aw_commitment w)); [done..|].
  intros k i Hk. destruct (Hd k i Hk) as (d & Hl & Hwr). exists d. simpl.
  rewrite (filled_lookup _ _ _ _ _ Em Hl). split; [done|].
  destruct (ExecuteTransaction_run (ar_DefaultInitialBalance e) b (tx_at b i)
    (final (ar_DefaultInitialBalance e) b (tx_at b <$> take k order) base) (Z.of_nat i)) as [Hr Hw]. split.
  - apply (f_equal td_Receipt) in Hwr. simpl in Hwr. rewrite Hwr. unfold delta_on. simpl.
    rewrite <- Hr. unfold ExecuteTransaction. by destruct (interp _ _).
  - apply (f_equal td_WriteSet) in Hwr. rewrite <- Hw. exact Hwr.
Qed.

(** ** The call ends *)

Lemma executeEpoch_completes e b st pending workers :
  ∃ cs, (length cs <= 3 * length pending + 1)%nat ∧ Forall (.≠ PlCancel) cs ∧
    executeEpoch e b st pending workers cs false = Some (false, Some (attempts e b st pending)).
Proof.
  destruct pending as [|i pending]; [exists []; simpl; split_and!; [lia|constructor|done]|].
  unfold executeEpoch. set (pe := i :: pending).
  set (job := λ position, attempt_of e b st (default O (pe !! position))).
  destruct (run_pool_completes job (length pe) (Z.to_nat (Z.max 1 (Z.min workers (Z.of_nat (length pe))))))
    as (cs & Hl & Hq & E); [lia|].
  exists cs. split_and!; [done..|]. rewrite E. do 3 f_equal. apply (fmap_lookup_seq (attempt_of e b st)).
Qed.

Lemma epoch_loop_ext e b workers maximumEpochs s1 s2 fuel : ∀ epoch cancelled pending w,
  (∀ ep, (epoch <= ep)%Z → s1 ep = s2 ep) →
  epoch_loop fuel e b workers maximumEpochs s1 epoch cancelled pending w =
  epoch_loop fuel e b workers maximumEpochs s2 epoch cancelled pending w.
Proof.
  induction fuel as [|fuel IH]; intros epoch cancelled pending w H; [by destruct pending|].
  destruct pending as [|i pending]; [done|]. cbn [epoch_loop]. rewrite (H epoch) by lia.
  case_match; [done|]. case_match; [done|]. destruct (executeEpoch _ _ _ _ _ _ _) as [[c [l|]]|]; [|done..].
  cbv zeta. case_match; [done|]. apply IH. intros ep Hep. apply H. lia.
Qed.

Lemma loop_completes e b workers maximumEpochs (size : nat) fuel : ∀ epoch pending w,
  (length pending <= size)%nat →
  ∃ schedule, quiet schedule ∧ (∀ ep, (length (schedule ep).2 <= 3 * size + 1)%nat) ∧
    epoch_loop fuel e b workers maximumEpochs schedule epoch false pending w =
    epoch_drain e b maximumEpochs fuel epoch pending w.
Proof.
  assert (quiet (λ _, (false, []))) as Hq0 by (intros ep; simpl; by split; [|constructor]).
  induction fuel as [|fuel IH]; intros epoch pending w Hs.
  { exists (λ _, (false, [])). split_and!; [done|simpl; lia|]. by destruct pending. }
  destruct (executeEpoch_completes e b (aw_working w) pending workers) as (cs & Hl & Hq & E).
  set (s := epoch_attempts e b w pending). set (rest := (λ d, aa_Index d.1) <$> es_deferred s).
  destruct (IH (epoch + 1)%Z rest (close_epoch b epoch pending s w)) as (sched & Hqs & Hls & Es).
  { pose proof (Permutation_length (epoch_perm e b w pending)) as H. rewrite length_app in H.
    fold s in H. fold rest in H. lia. }
  exists (λ ep, if decide (ep = epoch) then (false, cs) else sched ep). split_and!.
  - intros ep. by case_decide.
  - intros ep. case_decide; [simpl; lia|apply Hls].
  - destruct pending as [|i pending]; [done|]. cbn [epoch_loop epoch_drain].
    rewrite decide_True by done. cbn [fst snd orb]. case_match; [done|]. rewrite E. cbv zeta.
    fold (epoch_attempts e b w (i :: pending)). fold s.
    destruct (es_committed s); [done|]. fold rest. rewrite <- Es.
    apply epoch_loop_ext. intros ep Hep. by rewrite decide_False by lia.
Qed.

(** The state in which the epochs of a block end, and the transactions still pending. *)
Definition aria_stop (e : AriaExecutor) (b : Block) (base : gmap string string) (c : option commitmentNode)
    : gmap string string * list nat :=
  let n := length (TxList b) in
  let stop := epoch_stop e b n 1 (seq 0 n) (MkWork base (CloneOrBuild c base) (replicate n None) [] [] []) in
  (aw_working stop.1, stop.2).

Lemma reference_ends e b base c :
  (ar_MaximumEpochs e <= 0)%Z →
  (∃ r, aria_reference e b base c = ArReturned r) ∨
  (∃ n rest reasons, aria_reference e b base c =
     ArFailed (AeNoProgress n ((λ i, TxID (tx_at b i)) <$> rest) reasons) ∧
     all_wait e b (aria_stop e b base c).1 rest ∧ rest ≡ₚ (aria_stop e b base c).2 ∧
     ∀ i, i ∈ rest → (i < length (TxList b))%nat).
Proof.
  intros Hm. unfold aria_reference. set (n := length (TxList b)).
  set (w0 := MkWork base (CloneOrBuild c base) (replicate n None) [] [] []).
  destruct (drain_ends e b (maximum_epochs e b) n 1 (seq 0 n) w0) as [[w E]|H].
  - by rewrite length_seq.
  - unfold maximum_epochs. rewrite (proj2 (Z.leb_le _ _)) by done. rewrite length_seq. lia.
  - left. rewrite E. destruct (drain_fills e b _ _ _ _ w0 _ (NoDup_seq 0 n) (length_replicate n None) E) as [Hl Hf].
    rewrite all_filled; [by eexists|]. intros k Hk. rewrite Hl in Hk. apply Hf; [done|]. left.
    apply elem_of_seq. lia.
  - right. destruct H as (ep & rest & reasons & E & Hw & Hp & Hsub). rewrite E.
    exists ep, rest, reasons. split_and!; [done..|]. intros i Hi.
    specialize (Hsub i Hi). apply elem_of_seq in Hsub. lia.
Qed.

Lemma aria_stop_serial e b base c : unaliased b = true →
  ∃ order, order ++ (aria_stop e b base c).2 ≡ₚ seq 0 (length (TxList b)) ∧
    (aria_stop e b base c).1 = final (ar_DefaultInitialBalance e) b (tx_at b <$> order) base.
Proof.
  intros Hua. set (n := length (TxList b)).
  apply (stop_serial e b n Hua 1 (seq 0 n) (MkWork base (CloneOrBuild c base) (replicate n None) [] [] []));
    [apply NoDup_seq| |apply length_replicate]. intros i Hi. apply elem_of_seq in Hi. unfold n in Hi. lia.
Qed.

(** C9: the epochs of Aria end, and the workers do not decide how. With no epoch
    limit configured there is one outcome [r] for a block and a base state: every
    schedule that does not end the context gives [r] unless it stops early, and
    some schedule of at most [3 n + 1] moves in each epoch gives it, for any number
    of workers. [r] is a result, or the error that an epoch made no progress; in that
    case the transactions named in it are those still pending when the epochs stop,
    and each carries a nonce above the one its sender has in the state in which they
    stop, which, for a block no two of whose keys name the same cell, is the state of
    a serial execution of the transactions that are not named. The bound on the
    epochs is never met and no transaction lacks its result. *)
Theorem aria_terminates (e : AriaExecutor) (b : Block) (base : gmap string string)
    (c : option commitmentNode) :
  (ar_MaximumEpochs e <= 0)%Z → Forall (λ item, Nonce item <= max_uint64) (TxList b) →
  ∃ r,
    (∀ schedule, quiet schedule →
       AriaExecuteBlockWithCommitment e b base c false schedule = ArRunning ∨
       AriaExecuteBlockWithCommitment e b base c false schedule = r) ∧
    (∃ schedule, quiet schedule ∧
       (∀ epoch, (length (schedule epoch).2 <= 3 * length (TxList b) + 1)%nat) ∧
       AriaExecuteBlockWithCommitment e b base c false schedule = r) ∧
    ((∃ result, r = ArReturned result) ∨
     (∃ n rest reasons,
        r = ArFailed (AeNoProgress n ((λ i, TxID (tx_at b i)) <$> rest) reasons) ∧ rest ≠ [] ∧
        rest ≡ₚ (aria_stop e b base c).2 ∧
        (∀ i, i ∈ rest →
           nonce_of (shard_view (ShardID b) (aria_stop e b base c).1) (Sender (tx_at b i)) < Nonce (tx_at b i)) ∧
        (unaliased b = true → ∃ order, order ++ rest ≡ₚ seq 0 (length (TxList b)) ∧
           (aria_stop e b base c).1 = final (ar_DefaultInitialBalance e) b (tx_at b <$> order) base))).
Proof.
  intros Hm Hn. exists (aria_reference e b base c). split_and!.
  - intros schedule Hq. destruct (call_outcome e b base c false schedule) as [H|[H|H]]; [by left| |by right].
    exfalso. unfold AriaExecuteBlockWithCommitment in H. cbv zeta in H.
    destruct (epoch_loop _ _ _ _ _ _ _ _ _ _) as [|err|w] eqn:E; [done| |].
    + injection H as ->. by eapply loop_quiet.
    + destruct (first_missing b 0 (aw_finalDeltas w)) as [err|] eqn:Em; [|done]. injection H as ->.
      by destruct (first_missing_kind _ _ _ _ Em) as (txID & j & ?).
  - set (n := length (TxList b)).
    destruct (loop_completes e b (Z.max 1 (ar_WorkerCount e)) (maximum_epochs e b) n n 1 (seq 0 n)
      (MkWork base (CloneOrBuild c base) (replicate n None) [] [] [])) as (schedule & Hq & Hl & E);
      [by rewrite length_seq|].
    exists schedule. split_and!; [done..|]. unfold AriaExecuteBlockWithCommitment, aria_reference. cbv zeta.
    fold n. by rewrite E.
  - destruct (reference_ends e b base c Hm) as [H|(n & rest & reasons & E & [Hne Hw] & Hp & Hlt)]; [by left|].
    right. exists n, rest, reasons. split_and!; [done..| |].
    + intros i Hi. apply (retryable_waits e); [|by apply Hw]. rewrite Forall_forall in Hn. apply Hn.
      apply list_elem_of_lookup_2 with i. unfold tx_at.
      by destruct (lookup_lt_is_Some_2 (TxList b) i (Hlt i Hi)) as [item ->].
    + intros Hua. destruct (aria_stop_serial e b base c Hua) as (order & Ho & Es). exists order.
      split; [by rewrite Hp|exact Es].
Qed.
