(* ===== verification/AriaSelection.v ===== *)
(** * One Aria batch per block

    The proposer selects transactions from the candidates with one Aria epoch and
    the validators commit the deltas of that epoch: the block is serializable too.
    Samples for the theorems about Aria, and a block whose keys alias. *)
From S2P Require Import Prelude GoStd GoText Tx Block StateRoot Serial SerialProps Ledger Footprint Reorder WorkerPool Aria AriaProps AriaTheorems.
Local Open Scope N_scope.
#[local] Opaque Sha256.sum256 sha256_hex Json.marshal.

(** ** Blocks that differ in hash and height only *)

Lemma executeTx_blocks `{Overlay Ov} initial b1 b2 item (o : Ov) :
  ShardID b1 = ShardID b2 →
  ∃ o' err, interp (executeTxWithoutStateRoot initial b1 item) o = (o', receipt_of b1 item err) ∧
            interp (executeTxWithoutStateRoot initial b2 item) o = (o', receipt_of b2 item err).
Proof.
  intros E. unfold executeTxWithoutStateRoot. rewrite !interp_bind, E.
  set (o1 := (interp (applyDeclaredSemanticReads (AccessList item)) o).1). clearbody o1.
  destruct (isPureCommutativeDelta _); [rewrite !interp_bind; simpl; eauto|].
  destruct (isCrossShardTargetCommit _ _); [rewrite !interp_bind; simpl; eauto|].
  destruct (isDirectAccessTransaction _); rewrite !interp_bind; simpl; eauto.
Qed.

Lemma tx_run_blocks initial b1 b2 item st :
  ShardID b1 = ShardID b2 →
  ∃ err, (tx_run initial b1 item st).2 = receipt_of b1 item err ∧
         (tx_run initial b2 item st).2 = receipt_of b2 item err ∧
         so_writes (tx_run initial b1 item st).1 = so_writes (tx_run initial b2 item st).1.
Proof.
  intros E. unfold tx_run. rewrite E.
  destruct (executeTx_blocks initial b1 b2 item (MkStore (shard_view (ShardID b2) st) ∅) E)
    as (o' & err & -> & ->). by exists err.
Qed.

Lemma final_blocks initial b1 b2 items : ∀ st,
  ShardID b1 = ShardID b2 → final initial b1 items st = final initial b2 items st.
Proof.
  induction items as [|item items IH]; intros st E; [done|]. simpl.
  assert (tx_state initial b1 item st = tx_state initial b2 item st) as ->; [|by apply IH].
  unfold tx_state. destruct (tx_run_blocks initial b1 b2 item st E) as (_ & _ & _ & ->). by rewrite E.
Qed.

(** ** The selection *)

Lemma sublist_sorted {A} (R : A → A → Prop) (l1 l2 : list A) :
  l1 `sublist_of` l2 → StronglySorted R l2 → StronglySorted R l1.
Proof.
  induction 1 as [|x l1 l2 Hs IH|x l1 l2 Hs IH]; intros S; [done|..]; apply StronglySorted_inv in S as [S Hx].
  - constructor; [by apply IH|]. rewrite Forall_forall in Hx |- *. intros y Hy. apply Hx.
    by eapply elem_of_submseteq, sublist_submseteq.
  - by apply IH.
Qed.

Lemma select_spec e t limit l : ∀ tid s,
  ∃ chosen, chosen `sublist_of` committed_at e t tid l ∧
    cs_Selected (select_attempts e t limit tid l s) = cs_Selected s ++ (aa_Tx <$> chosen.*2) ∧
    cs_SelectedDeltas (select_attempts e t limit tid l s) = cs_SelectedDeltas s ++ (aa_Delta <$> chosen.*2).
Proof.
  induction l as [|a l IH]; intros tid s; simpl.
  { exists []. split_and!; [constructor|by rewrite app_nil_r..]. }
  assert (committed_at e t tid (a :: l) =
    if decide (deferral e t tid a = None) then (tid, a) :: committed_at e t (S tid) l
    else committed_at e t (S tid) l) as -> by (unfold committed_at; exact (filter_cons _ (tid, a) (numbered (S tid) l))).
  set (s1 := defer_one a "aria_candidate_limit" s).
  destruct (limit <=? _)%Z; [|destruct (deferral e t tid a) as [reason|] eqn:Ed].
  - destruct (IH (S tid) s1) as (ch & Hc & E1 & E2). exists ch. split_and!; [|done..].
    case_decide; [by constructor|done].
  - destruct (IH (S tid) (defer_one a reason s)) as (ch & Hc & E1 & E2). exists ch. split_and!; [|done..].
    by rewrite decide_False.
  - destruct (IH (S tid) (select_one a s)) as (ch & Hc & E1 & E2). exists ((tid, a) :: ch).
    rewrite decide_True by done. split_and!; [by constructor|..].
    + rewrite E1. simpl. by rewrite <- app_assoc.
    + rewrite E2. simpl. by rewrite <- app_assoc.
Qed.

(** ** Materializing it *)

Lemma write_keys_all (writes : gmap string string) :
  writes !! "" = None → sortedAriaWriteKeys writes = sorted_keys writes.
Proof.
  intros H. unfold sortedAriaWriteKeys, sorted_keys. rewrite filter_all; [done|].
  intros k Hk ->. apply list_elem_of_fmap in Hk as ([k v] & E & Hv%elem_of_map_to_list).
  simpl in E. congruence.
Qed.

Definition rows_ok (rows : list (SignedTransaction * (SignedTransaction * TxDelta))) : Prop :=
  Forall (λ row, TxID row.1 ≠ "" ∧ row.2.1 = row.1 ∧ td_TxID row.2.2 = TxID row.1 ∧
                 td_WriteSet row.2.2 !! "" = None) rows.

Lemma materialize_selected_spec b rows : ∀ index working commitment,
  rows_ok rows → represents commitment working →
  ∃ commitment' deltas,
    let working' := foldl (λ w d, materialize (ShardID b) (td_WriteSet d) w) working (rows.*2).*2 in
    materialize_selected b index rows (working, commitment) = inr (working', commitment', deltas) ∧
    represents commitment' working' ∧ length deltas = length rows ∧
    ∀ j row, rows !! j = Some row → ∃ root, deltas !! j = Some (selected_delta b (index + j) row.2.2 root).
Proof.
  induction rows as [|[item [selected d]] rows IH]; intros index working commitment Hr R.
  { exists commitment, []. split_and!; [done..|]. intros j row H. by rewrite lookup_nil in H. }
  apply Forall_cons in Hr as [(H1 & H2 & H3 & H4) Hr]. simpl in H1, H2, H3, H4. subst selected.
  set (working1 := materialize (ShardID b) (td_WriteSet d) working).
  set (commitment1 := commit_writes (ShardID b) (td_WriteSet d) commitment).
  destruct (IH (S index) working1 commitment1 Hr) as (c' & ds & E & R' & Hl & Hd).
  { by apply commit_writes_represents. }
  simpl in E, R'. exists c', (selected_delta b index d (CommitmentRoot (Some commitment1)) :: ds).
  cbn [materialize_selected]. rewrite (bool_decide_eq_false_2 (TxID item = "")) by done.
  rewrite (bool_decide_eq_true_2 (TxID item = TxID item)) by done.
  rewrite (bool_decide_eq_true_2 (td_TxID d = TxID item)) by done. cbn [negb orb fst snd].
  unfold materialize_keys, commit_keys. rewrite write_keys_all by done.
  fold (materialize (ShardID b) (td_WriteSet d) working). fold working1.
  fold (commit_writes (ShardID b) (td_WriteSet d) commitment). fold commitment1. rewrite E.
  split_and!; [done|done|simpl; by rewrite Hl|]. intros [|j] row Hj; simplify_eq/=.
  - rewrite Nat.add_0_r. eauto.
  - destruct (Hd j row Hj) as [root ->]. exists root. by rewrite Nat.add_succ_r.
Qed.

Section selection.
Context (e : AriaExecutor) (shardID : string) (height : N) (candidates : list SignedTransaction).
Context (base : gmap string string) (limit : Z).
#[local] Abbreviation cand := (candidate_block shardID height candidates).
#[local] Abbreviation initial := (ar_DefaultInitialBalance e).

(** The selected attempts [l], and a serial order of them. *)
Record selected_as (l : list ariaAttempt) (order : list nat) (s : AriaCandidateSelection) : Prop := {
  sa_txs : cs_Selected s = aa_Tx <$> l;
  sa_deltas : cs_SelectedDeltas s = aa_Delta <$> l;
  sa_attempt a : a ∈ l → aa_Tx a = tx_at cand (aa_Index a) ∧
    aa_Delta a = delta_on initial cand base (job_at cand (aa_Index a)) ∧
    (aa_Index a < length candidates)%nat;
  sa_order : order ≡ₚ aa_Index <$> l;
  sa_state : foldl (λ w a, materialize shardID (td_WriteSet (aa_Delta a)) w) base l =
             final initial cand (tx_at cand <$> order) base;
  sa_same k i : order !! k = Some i →
    delta_on initial cand (final initial cand (tx_at cand <$> take k order) base) (job_at cand i) =
    delta_on initial cand base (job_at cand i);
}.

Lemma selection_serial cancelled schedule s :
  unaliased cand = true →
  SelectCandidateTransactions e shardID height candidates base limit cancelled schedule = ArReturned s →
  ∃ l order, selected_as l order s.
Proof.
  intros Hua E. unfold SelectCandidateTransactions in E. destruct cancelled; [done|].
  destruct candidates as [|x xs] eqn:Ec.
  { simplify_eq. exists [], []. split; [done..| |done|done|by intros k i H; rewrite lookup_nil in H].
    intros a. by rewrite elem_of_nil. }
  rewrite <- Ec in *. clear x xs Ec. cbv zeta in E.
  destruct (executeEpoch _ _ _ _ _ _ _) as [[c [l|]]|] eqn:Ex; [|done..].
  apply executeEpoch_attempts in Ex as ->. set (n := length candidates) in *.
  set (l := attempts e cand base (seq 0 n)) in *. injection E as <-.
  match goal with |- ∃ _ _, selected_as _ _ (select_attempts _ ?t ?lim 1 l ?s0) =>
    destruct (select_spec e t lim l 1 s0) as (chosen & Hsub & E1 & E2) end.
  assert (∀ i, i ∈ seq 0 n → (i < length (TxList cand))%nat) as Hin by (intros i [_ Hi]%elem_of_seq; done).
  destruct (chosen_serial e cand base (seq 0 n) Hua (NoDup_seq 0 n) Hin chosen) as (order & Hp & Ef & Ed).
  - intros y Hy. by eapply elem_of_submseteq, sublist_submseteq.
  - eapply sublist_sorted; [exact Hsub|]. apply committed_sorted.
  - exists chosen.*2, order. split; [done|done| |done|done|done].
    intros a (y & -> & Hy)%list_elem_of_fmap.
    assert (y ∈ committed_at e (buildAriaReservations l) 1 l) as Hy'
      by (by eapply elem_of_submseteq, sublist_submseteq).
    apply committed_facts in Hy' as (p & _ & Hlp & _).
    destruct (attempts_lookup _ _ _ _ _ _ Hlp) as (i & Hi & Ea & Ei & Edl). rewrite Ei, Edl, Ea.
    destruct (attempt_fields e cand base i) as (_ & -> & _).
    split_and!; [done..|]. apply Hin. by eapply list_elem_of_lookup_2.
Qed.

Lemma selected_rows l order s :
  selected_as l order s → Forall (λ item, TxID item ≠ "") candidates →
  let rows := zip (aa_Tx <$> l) (zip (aa_Tx <$> l) (aa_Delta <$> l)) in
  rows = (λ a, (aa_Tx a, (aa_Tx a, aa_Delta a))) <$> l ∧ rows_ok rows ∧
  foldl (λ w d, materialize shardID (td_WriteSet d) w) base (rows.*2).*2 =
    final initial cand (tx_at cand <$> order) base.
Proof.
  intros H Hid rows. assert (rows = (λ a, (aa_Tx a, (aa_Tx a, aa_Delta a))) <$> l) as Er.
  { unfold rows. clear. induction l as [|a l IH]; [done|]. simpl. by f_equal. }
  rewrite Er. split_and!; [done| |].
  - apply Forall_fmap, Forall_forall. intros a Ha. unfold compose. simpl.
    destruct (sa_attempt _ _ _ H a Ha) as (-> & -> & Hlt). split_and!; [|done| |].
    + rewrite Forall_forall in Hid. apply Hid. apply list_elem_of_lookup_2 with (aa_Index a).
      unfold tx_at. simpl. by destruct (lookup_lt_is_Some_2 candidates (aa_Index a) Hlt) as [item ->].
    + unfold delta_on, ExecuteTransaction. by destruct (interp _ _).
    + apply eq_None_not_Some. intros Hk.
      by apply (proj2 (ExecuteTransaction_keys initial cand _ base _)) in Hk as [_ ?].
  - rewrite <- (sa_state _ _ _ H). rewrite <- !list_fmap_compose. clear.
    generalize base as w. induction l as [|a l IH]; intros w; [done|]. simpl. apply IH.
Qed.

Lemma selected_receipt_serial b i st root :
  ShardID b = shardID → delta_on initial cand st (job_at cand i) = delta_on initial cand base (job_at cand i) →
  with_root (selected_receipt b (td_Receipt (delta_on initial cand base (job_at cand i))) root) "" =
  (tx_run initial b (tx_at cand i) st).2 ∧
  td_WriteSet (delta_on initial cand base (job_at cand i)) = so_writes (tx_run initial b (tx_at cand i) st).1.
Proof.
  intros Hs E. rewrite <- E.
  destruct (tx_run_blocks initial b cand (tx_at cand i) st Hs) as (err & -> & H2 & ->).
  split; [|exact (proj2 (ExecuteTransaction_run initial cand (tx_at cand i) st (Z.of_nat i)))].
  assert (td_Receipt (delta_on initial cand st (job_at cand i)) = receipt_of cand (tx_at cand i) err) as ->; [|done].
  rewrite <- H2. unfold delta_on. simpl.
  rewrite <- (proj1 (ExecuteTransaction_run initial cand (tx_at cand i) st (Z.of_nat i))).
  unfold ExecuteTransaction. by destruct (interp _ _).
Qed.

(** A list of indexes of the selected attempts, as positions in the block. *)
Lemma positions (l : list ariaAttempt) (order : list nat) :
  order ≡ₚ aa_Index <$> l →
  ∃ order', order' ≡ₚ seq 0 (length l) ∧
    order = (λ j, default O (aa_Index <$> l !! j)) <$> order'.
Proof.
  intros Ho. assert (order ≡ₚ ((λ j, default O (aa_Index <$> l !! j)) <$> seq 0 (length l))) as Hp.
  { rewrite Ho. apply reflexive_eq, list_eq. intros j. rewrite !list_lookup_fmap.
    destruct (decide (j < length l)%nat) as [Hj|Hj].
    - rewrite lookup_seq_lt by done. simpl. by destruct (lookup_lt_is_Some_2 l j Hj) as [a ->].
    - rewrite lookup_seq_ge, lookup_ge_None_2 by lia. done. }
  apply Permutation_map_inv in Hp as (order' & Eo & Hp'). by exists order'.
Qed.

Lemma position_tx b l order s order' :
  selected_as l order s → TxList b = cs_Selected s → order' ≡ₚ seq 0 (length l) →
  (∀ j, j ∈ order' → ∃ a, l !! j = Some a ∧ a ∈ l ∧ tx_at b j = tx_at cand (aa_Index a)) ∧
  ∀ q, q ⊆ order' → tx_at b <$> q = tx_at cand <$> ((λ j, default O (aa_Index <$> l !! j)) <$> q).
Proof.
  intros H Htx Hp.
  assert (∀ j, j ∈ order' → ∃ a, l !! j = Some a ∧ a ∈ l ∧ tx_at b j = tx_at cand (aa_Index a)) as Hj.
  { intros j Hj. rewrite Hp in Hj. apply elem_of_seq in Hj as [_ Hj].
    destruct (lookup_lt_is_Some_2 l j Hj) as [a Hla]. exists a.
    assert (a ∈ l) as Ha by (by eapply list_elem_of_lookup_2). split_and!; [done..|].
    unfold tx_at at 1. rewrite Htx, (sa_txs _ _ _ H), list_lookup_fmap, Hla. by apply (sa_attempt _ _ _ H). }
  split; [done|]. intros q Hq. rewrite <- list_fmap_compose. apply list_fmap_ext. intros k j Hk. unfold compose.
  destruct (Hj j) as (a & Hla & Hal & ->); [apply Hq; by eapply list_elem_of_lookup_2|]. by rewrite Hla.
Qed.

(** C20: a block built from an Aria selection is serializable. For a block of the
    transactions the proposer selected from the candidates, whatever the workers
    did and however many may be selected, the validators' materialization of the
    selection succeeds, and its state, roots, delta and, transaction by transaction,
    its write sets and its receipts (these up to [StateRootAfterTx]) are those of a
    serial execution of the block's transactions in some order. The candidates have
    ids, no two of their keys name the same cell, and the commitment given, if any,
    is that of the base state. *)
Theorem aria_selection_serializable (cancelled : bool) (schedule : list pool_choice)
    (s : AriaCandidateSelection) (b : Block) (c : option commitmentNode) :
  unaliased cand = true → Forall (λ item, TxID item ≠ "") candidates →
  SelectCandidateTransactions e shardID height candidates base limit cancelled schedule = ArReturned s →
  ShardID b = shardID → TxList b = cs_Selected s → c = None ∨ c = Some (NewCommitment base) →
  ∃ r order, MaterializeCandidateSelectionWithCommitment e b base s c = inr r ∧
    order ≡ₚ seq 0 (length (TxList b)) ∧ serial_in_order initial b base order r.
Proof.
  intros Hua Hid E Hsh Htx Hc. destruct (selection_serial _ _ _ Hua E) as (l & order & H).
  destruct (selected_rows l order s H Hid) as (Er & Hok & Ew).
  destruct (positions l order (sa_order _ _ _ H)) as (order' & Hp & Eo).
  destruct (position_tx b l order s order' H Htx Hp) as [Hj Hq].
  unfold MaterializeCandidateSelectionWithCommitment.
  rewrite Htx, (sa_txs _ _ _ H), (sa_deltas _ _ _ H), !length_fmap.
  rewrite !bool_decide_eq_true_2 by done. cbn [negb orb].
  assert (CloneOrBuild c base = NewCommitment base) as -> by (destruct Hc as [->| ->]; done).
  set (rows := zip (aa_Tx <$> l) _) in *.
  destruct (materialize_selected_spec b rows 0 base (NewCommitment base) Hok (represents_New base))
    as (c' & ds & Em & R & Hl & Hd).
  cbv zeta in Em, R. rewrite Hsh, Ew in Em, R. rewrite Em. eexists _, order'. split_and!; [done..|].
  apply (serial_in_order_intro _ _ _ _ _ (NewCommitment base) c'); [apply represents_New|done| |exact R|done|done|done|].
  { simpl. rewrite Hq by done. by rewrite (final_blocks initial b cand _ base Hsh), Eo. }
  intros k j Hk. destruct (Hj j) as (a & Hla & Hal & ->); [by eapply list_elem_of_lookup_2|].
  destruct (Hd j (aa_Tx a, (aa_Tx a, aa_Delta a))) as [root Hroot]; [by rewrite Er, list_lookup_fmap, Hla|].
  eexists. simpl. rewrite Hroot. split; [done|]. cbv zeta. cbn [selected_delta td_Receipt td_WriteSet snd].
  rewrite Hq, fmap_take, <- Eo, (final_blocks initial b cand _ base Hsh).
  - destruct (sa_attempt _ _ _ H a Hal) as (_ & -> & _). apply selected_receipt_serial; [done|].
    apply (sa_same _ _ _ H). by rewrite Eo, list_lookup_fmap, Hk; simpl; rewrite Hla.
  - intros y Hy. eapply elem_of_submseteq; [exact Hy|]. by apply sublist_submseteq, sublist_take.
Qed.
End selection.

(** ** Samples *)

Definition sample_batch : list SignedTransaction :=
  [sample_transfer "alice" "bob" 0 30; sample_transfer "alice" "bob" 1 20;
   sample_transfer "carol" "dave" 0 5].

(** The second transfer waits for the second epoch. *)
Definition sample_schedule : aria_schedule :=
  λ epoch, (false, one_worker (if (epoch =? 1)%Z then 3 else 1)).

Definition returned {A} (o : aria_outcome A) : bool :=
  match o with ArReturned _ => true | _ => false end.

Lemma aria_serializable_witness :
  let b := sample_block sample_batch in
  ∃ r trace, AriaExecuteBlock (NewAriaExecutor 2) b sample_state false sample_schedule = ArReturned (r, trace) ∧
    ∃ order, order ≡ₚ seq 0 3 ∧ serial_in_order 1000000 b sample_state order r.
Proof.
  intros b. assert (returned (AriaExecuteBlock (NewAriaExecutor 2) b sample_state false sample_schedule) = true)
    as Hr by (vm_compute; reflexivity).
  destruct (AriaExecuteBlock _ _ _ _ _) as [| |[r trace]] eqn:E; [discriminate Hr..|].
  exists r, trace. split; [reflexivity|].
  apply (aria_serializable (NewAriaExecutor 2) b sample_state None false sample_schedule r trace);
    [vm_compute; reflexivity|left; reflexivity|exact E].
Defined.

Lemma aria_terminates_witness :
  let b := sample_block sample_batch in
  ∃ r, (∃ result, r = ArReturned result) ∧ ∀ schedule, quiet schedule →
    AriaExecuteBlock (NewAriaExecutor 2) b sample_state false schedule = ArRunning ∨
    AriaExecuteBlock (NewAriaExecutor 2) b sample_state false schedule = r.
Proof.
  intros b. destruct (aria_terminates (NewAriaExecutor 2) b sample_state None) as (r & Hall & _ & _).
  - vm_compute. discriminate.
  - repeat constructor; vm_compute; discriminate.
  - exists r. split; [|exact Hall].
    assert (quiet sample_schedule) as Hq.
    { intros epoch. split; [reflexivity|]. unfold sample_schedule. destruct (epoch =? 1)%Z; repeat constructor; discriminate. }
    assert (returned (AriaExecuteBlockWithCommitment (NewAriaExecutor 2) b sample_state None false
      sample_schedule) = true) as Hr by (vm_compute; reflexivity).
    destruct (Hall sample_schedule Hq) as [E|E];
      pose proof (eq_trans (eq_sym Hr) (f_equal returned E)) as Er; [discriminate Er|].
    destruct r as [| |result]; [discriminate Er..|]. by exists result.
Defined.

(** The other outcome: the second epoch commits nothing, since carol's transfer waits
    for a nonce she does not reach; the state in which the epochs stop has the other
    transfer. *)
Example aria_no_progress :
  let b := sample_block [sample_transfer "alice" "bob" 0 30; sample_transfer "carol" "dave" 5 5] in
  let e := NewAriaExecutor 2 in
  (∃ reasons, AriaExecuteBlock e b sample_state false (λ epoch, (false, one_worker (if (epoch =? 1)%Z then 2 else 1))) =
     ArFailed (AeNoProgress 2 [TxID (sample_transfer "carol" "dave" 5 5)] reasons)) ∧
  (aria_stop e b sample_state None).2 = [1%nat] ∧
  nonce_of (shard_view "s0" (aria_stop e b sample_state None).1) "alice" = 1 ∧
  nonce_of (shard_view "s0" (aria_stop e b sample_state None).1) "carol" = 0.
Proof. split_and!; [eexists; vm_compute; reflexivity|vm_compute; reflexivity..]. Qed.

Lemma aria_selection_serializable_witness :
  ∃ s, SelectCandidateTransactions (NewAriaExecutor 2) "s0" 1 sample_batch sample_state 0 false (one_worker 3) =
       ArReturned s ∧ length (cs_Selected s) = 2%nat ∧
    ∃ r order, MaterializeCandidateSelection (NewAriaExecutor 2) (sample_block (cs_Selected s)) sample_state s = inr r ∧
      order ≡ₚ seq 0 (length (cs_Selected s)) ∧
      serial_in_order 1000000 (sample_block (cs_Selected s)) sample_state order r.
Proof.
  set (o := SelectCandidateTransactions (NewAriaExecutor 2) "s0" 1 sample_batch sample_state 0 false (one_worker 3)).
  assert (match o with ArReturned s => length (cs_Selected s) ≟ 2%nat | _ => false end = true)
    as Hr by (vm_compute; reflexivity).
  destruct o as [| |s] eqn:E; [discriminate..|]. exists s. split; [reflexivity|].
  split; [by apply bool_decide_eq_true in Hr|].
  apply (aria_selection_serializable (NewAriaExecutor 2) "s0" 1 sample_batch sample_state 0 false (one_worker 3)
    s (sample_block (cs_Selected s)) None);
    [vm_compute; reflexivity|repeat constructor; discriminate|exact E|reflexivity|reflexivity|left; reflexivity].
Defined.

(** ** Two names for one cell *)

Definition sample_increment (id key : string) : SignedTransaction :=
  MkTx id "" "alice" "alice" 0 1 [] [MkAccess key AccessCommutativeDelta "" 1]
    "" "" "" [] "" "" "" "" 0 "" "" "" "" None.

Definition aliased_block : Block :=
  sample_block [sample_increment "tx-1" "counter"; sample_increment "tx-2" "s0::counter"].

Definition counter_after (r : Result) : option string := re_StateUpdates r !! "s0::counter".

(** Aria's reservations compare keys as written. Two transactions that
    increment the same counter, one of them naming it with the shard's prefix, do
    not conflict in the table, both commit in the first epoch on the same
    snapshot, and one increment is lost: the counter at 5 becomes 6, while serial
    execution gives 7 in either order. *)
Theorem aria_alias_lost_update :
  let base : gmap string string := {["s0::counter" := "5"]} in
  let serial items := counter_after (ExecuteBlock 1000000 (sample_block items) base) in
  (∃ r trace, AriaExecuteBlock (NewAriaExecutor 2) aliased_block base false
       (λ _, (false, one_worker 2)) = ArReturned (r, trace) ∧ counter_after r = Some "6") ∧
  serial (TxList aliased_block) = Some "7" ∧ serial (reverse (TxList aliased_block)) = Some "7".
Proof.
  intros base serial. split; [|split; vm_compute; reflexivity].
  assert (match AriaExecuteBlock (NewAriaExecutor 2) aliased_block base false (λ _, (false, one_worker 2)) with
          | ArReturned (r, _) => counter_after r ≟ Some "6" | _ => false end = true) as H
    by (vm_compute; reflexivity).
  destruct (AriaExecuteBlock _ _ _ _ _) as [| |[r trace]]; [discriminate..|]. exists r, trace.
  split; [done|]. by apply bool_decide_eq_true in H.
Qed.
