(* ===== verification/Groundhog.v ===== *)
(** * The Groundhog block executor ([executor/realism/execution/groundhog_executor.go])

    The transactions of a block have no order: each is interpreted against the
    state at the start of the block and becomes a list of typed modifications
    (additions to non-negative integers, equal byte values, insertions into bounded
    sets of hashes), which are reserved in a table of objects; a modification that
    breaks an object's constraint is a conflict. The state after the block is what
    the table materializes.

    [interpretTransaction] runs on a worker pool. A reservation locks all keys of
    its transaction for as long as it runs, so concurrent reservations take effect
    one after the other, in an order the scheduler chooses: it is an argument.
    Go's random map order, where the code does not sort, is the class [MapOrder].
    Metrics, traces and durations are left out. *)
From S2P Require Import Prelude GoStd GoJson Tx Block StateRoot Serial WorkerPool.
Import Json.
Local Open Scope N_scope.

Definition GroundhogBlockExecutorID : string := "groundhog_block_executor".
Definition GroundhogBlockExecutorVersion : string := "0.2.0".
Definition GroundhogOrderedSetInitialLimit : Z := 64.
Definition GroundhogOrderedSetMaximumLimit : Z := 65535.

(** The order in which [range] visits a map's keys. *)
Class MapOrder := {
  range_keys : ∀ {V : Type}, gmap string V → list string;
  range_keys_perm : ∀ {V : Type} (m : gmap string V), range_keys m ≡ₚ (map_to_list m).*1;
}.

Record GroundhogExecutor := MkGroundhog {
  gh_DefaultInitialBalance : Z;
  gh_WorkerCount : Z;
  gh_OrderedSetLimit : Z;
}.

Definition NewGroundhogExecutor (workerCount : Z) : GroundhogExecutor :=
  MkGroundhog 1000000 (if (workerCount <? 1)%Z then 1 else workerCount) GroundhogOrderedSetInitialLimit.

Inductive groundhogModificationKind :=
  | groundhogIntegerAdd | groundhogBytesSet | groundhogOrderedSetInsert | groundhogOrderedSetClear
  | groundhogOrderedSetGrow.
#[global] Instance groundhogModificationKind_eq : EqDecision groundhogModificationKind.
Proof. solve_decision. Defined.

Definition kind_name (k : groundhogModificationKind) : string :=
  match k with
  | groundhogIntegerAdd => "nonnegative_int64_set_add"
  | groundhogBytesSet => "bytes_set"
  | groundhogOrderedSetInsert => "ordered_set_insert"
  | groundhogOrderedSetClear => "ordered_set_clear"
  | groundhogOrderedSetGrow => "ordered_set_increase_limit"
  end.

Record groundhogModification := MkMod {
  gm_Key : string;
  gm_Kind : groundhogModificationKind;
  gm_BaseInt : Z;
  gm_Delta : Z;
  gm_Bytes : string;
  gm_Tag : N;
  gm_Hash : string;
  gm_Threshold : N;
  gm_Increase : Z;
}.

Definition mod_int (key : string) (base delta : Z) : groundhogModification :=
  MkMod key groundhogIntegerAdd base delta "" 0 "" 0 0.
Definition mod_bytes (key bytes : string) : groundhogModification :=
  MkMod key groundhogBytesSet 0 0 bytes 0 "" 0 0.
Definition mod_insert (key : string) (tag : N) (hash : string) : groundhogModification :=
  MkMod key groundhogOrderedSetInsert 0 0 "" tag hash 0 0.
Definition mod_clear (key : string) (threshold : N) : groundhogModification :=
  MkMod key groundhogOrderedSetClear 0 0 "" 0 "" threshold 0.
Definition mod_grow (key : string) (increase : Z) : groundhogModification :=
  MkMod key groundhogOrderedSetGrow 0 0 "" 0 "" 0 increase.

Record groundhogAttempt := MkGhAttempt {
  ga_Index : Z;
  ga_Tx : SignedTransaction;
  ga_Reads : list ReadObservation;
  ga_Modifications : list groundhogModification;
  ga_TerminalError : string;
}.

Record groundhogOrderedEntry := MkEntry { oe_Tag : N; oe_Hash : string }.

Record groundhogOrderedSet := MkSet {
  os_Limit : Z;
  os_Cleared : N;
  os_Entries : list groundhogOrderedEntry;
}.

Record groundhogObject := MkObject {
  ob_Kind : groundhogModificationKind;
  ob_BaseInt : Z;
  ob_PositiveDelta : Z;
  ob_NegativeDelta : Z;
  ob_Bytes : string;
  ob_Set : groundhogOrderedSet;
  ob_SetByHash : gmap string N;
}.

Record groundhogReservationTable := MkTable {
  gt_ShardID : string;
  gt_Base : gmap string string;
  gt_OrderedSetLimit : Z;
  gt_Objects : gmap string groundhogObject;
}.

Definition newGroundhogReservationTable (shardID : string) (base : gmap string string)
    (orderedSetLimit : Z) : groundhogReservationTable :=
  MkTable shardID base
    (if (orderedSetLimit <? 1)%Z then GroundhogOrderedSetInitialLimit else orderedSetLimit) ∅.

(** ** Integers *)

(** The sum and whether it overflowed. *)
Definition groundhogAddInt64 (left right : Z) : Z * bool :=
  let result := i64_add left right in
  if (((0 <? right) && (result <? left)) || ((right <? 0) && (left <? result)))%Z then (0%Z, true)
  else (result, false).

Definition groundhogWouldUnderflowNonnegative (base negativeDelta : Z) : bool :=
  if ((base <? 0) || (0 <? negativeDelta))%Z then true
  else let '(value, overflow) := groundhogAddInt64 base negativeDelta in overflow || (value <? 0)%Z.

Definition groundhogFinalIntValue (base negativeDelta positiveDelta : Z) : Z * bool :=
  if groundhogWouldUnderflowNonnegative base negativeDelta || (positiveDelta <? 0)%Z then (0%Z, true)
  else
  let '(value, overflow) := groundhogAddInt64 base negativeDelta in
  if overflow then (0%Z, true) else groundhogAddInt64 value positiveDelta.

Definition groundhogParseInt (value : string) (fallback : Z) : Z :=
  if trim_space value ≟ "" then fallback
  else match parse_int value with (parsed, NumOk) => parsed | _ => fallback end.

Definition groundhogQualifiedKey (shardID key : string) : string :=
  if str_contains key "::" then key else shardID +:+ "::" +:+ key.

(** ** Normalizing the modifications of a transaction *)

Record integerAccumulation := MkAccumulation { ia_BaseInt : Z; ia_Positive : Z; ia_Negative : Z }.

Record normalizing := MkNormalizing {
  nz_ints : gmap string integerAccumulation;
  nz_bytes : gmap string groundhogModification;
  nz_others : list groundhogModification;
}.

(** An accumulation that is not in the map is the one [Seen] is false for. *)
Definition normalize_one (n : normalizing) (m : groundhogModification) : string + normalizing :=
  let key := gm_Key m in
  match gm_Kind m with
  | groundhogIntegerAdd =>
      let acc := default (MkAccumulation (gm_BaseInt m) 0 0) (nz_ints n !! key) in
      if ia_BaseInt acc ≠? gm_BaseInt m
      then inl ("groundhog_transaction_base_value_mismatch:" +:+ key)
      else if (gm_Delta m <? 0)%Z
      then let '(next, overflow) := groundhogAddInt64 (ia_Negative acc) (gm_Delta m) in
           if overflow : bool then inl ("groundhog_transaction_integer_overflow:" +:+ key)
           else inr (MkNormalizing
                  (<[key := MkAccumulation (ia_BaseInt acc) (ia_Positive acc) next]> (nz_ints n))
                  (nz_bytes n) (nz_others n))
      else let '(next, overflow) := groundhogAddInt64 (ia_Positive acc) (gm_Delta m) in
           if overflow : bool then inl ("groundhog_transaction_integer_overflow:" +:+ key)
           else inr (MkNormalizing
                  (<[key := MkAccumulation (ia_BaseInt acc) next (ia_Negative acc)]> (nz_ints n))
                  (nz_bytes n) (nz_others n))
  | groundhogBytesSet =>
      match nz_bytes n !! key with
      | Some existing =>
          if gm_Bytes existing ≠? gm_Bytes m
          then inl ("groundhog_transaction_bytes_conflict:" +:+ key)
          else inr (MkNormalizing (nz_ints n) (<[key := m]> (nz_bytes n)) (nz_others n))
      | None => inr (MkNormalizing (nz_ints n) (<[key := m]> (nz_bytes n)) (nz_others n))
      end
  | _ => inr (MkNormalizing (nz_ints n) (nz_bytes n) (nz_others n ++ [m]))
  end.

Fixpoint normalize_all (n : normalizing) (ms : list groundhogModification) : string + normalizing :=
  match ms with
  | [] => inr n
  | m :: rest => match normalize_one n m with inl e => inl e | inr n => normalize_all n rest end
  end.

(** The modifications an accumulated integer gives. *)
Definition int_mods (key : string) (a : integerAccumulation) : string + list groundhogModification :=
  if (ia_BaseInt a <? 0)%Z || groundhogWouldUnderflowNonnegative (ia_BaseInt a) (ia_Negative a)
  then inl ("groundhog_transaction_nonnegative_constraint:" +:+ key)
  else if (groundhogFinalIntValue (ia_BaseInt a) (ia_Negative a) (ia_Positive a)).2
  then inl ("groundhog_transaction_integer_overflow:" +:+ key)
  else inr ((if ia_Negative a ≠? 0%Z then [mod_int key (ia_BaseInt a) (ia_Negative a)] else []) ++
            (if ia_Positive a ≠? 0%Z then [mod_int key (ia_BaseInt a) (ia_Positive a)] else []) ++
            (if (ia_Negative a ≟ 0%Z) && (ia_Positive a ≟ 0%Z)
             then [mod_int key (ia_BaseInt a) 0] else [])).

(** [for key, accumulation := range ints], in the order of [keys]. *)
Fixpoint emit_ints (ints : gmap string integerAccumulation) (keys : list string)
    : string + list groundhogModification :=
  match keys with
  | [] => inr []
  | key :: rest =>
      match int_mods key (default (MkAccumulation 0 0 0) (ints !! key)) with
      | inl e => inl e
      | inr ms => match emit_ints ints rest with inl e => inl e | inr ms' => inr (ms ++ ms') end
      end
  end.

(** The comparison of [sort.SliceStable]. *)
Definition mod_before (a b : groundhogModification) : bool :=
  if gm_Key a ≠? gm_Key b then String.ltb (gm_Key a) (gm_Key b)
  else if gm_Kind a ≠? gm_Kind b then String.ltb (kind_name (gm_Kind a)) (kind_name (gm_Kind b))
  else if (gm_Kind a ≟ groundhogIntegerAdd) && negb (Bool.eqb (gm_Delta a <? 0)%Z (gm_Delta b <? 0)%Z)
  then (gm_Delta a <? 0)%Z
  else if gm_Tag a ≠? gm_Tag b then gm_Tag a <? gm_Tag b
  else String.ltb (gm_Hash a) (gm_Hash b).

(** A stable sort: the last element is placed after all that it does not precede. *)
Fixpoint insert_stable (x : groundhogModification) (l : list groundhogModification)
    : list groundhogModification :=
  match l with
  | [] => [x]
  | y :: l' => if mod_before y x then y :: insert_stable x l' else x :: y :: l'
  end.
Fixpoint sort_stable (l : list groundhogModification) : list groundhogModification :=
  match l with [] => [] | x :: l' => insert_stable x (sort_stable l') end.

Definition normalizeGroundhogModifications `{MapOrder} (input : list groundhogModification)
    : string + list groundhogModification :=
  match normalize_all (MkNormalizing ∅ ∅ []) input with
  | inl e => inl e
  | inr n =>
      match emit_ints (nz_ints n) (range_keys (nz_ints n)) with
      | inl e => inl e
      | inr ints =>
          let bytes := omap (λ key, nz_bytes n !! key) (range_keys (nz_bytes n)) in
          inr (sort_stable (ints ++ bytes ++ nz_others n))
      end
  end.

(** ** Interpreting a transaction *)

(** The closure [read]: the value, and the reads with an observation for a key not
    read before. *)
Definition base_value (b : Block) (base : gmap string string) (key : string) : string :=
  if key ≟ "" then "" else default "" (base !! groundhogQualifiedKey (ShardID b) key).
Definition note_read (b : Block) (base : gmap string string) (key : string) (reads : list ReadObservation)
    : list ReadObservation :=
  if (key ≟ "") || existsb (λ r, ro_Key r ≟ key) reads then reads
  else reads ++ [observe key (base_value b base key) "groundhog_block_start_snapshot"].

Definition access_target (item : SignedTransaction) (a : AccessItem) : string :=
  sha256_hex (marshal (JObj
    (fld "logical_tx_id" (JStr (SemanticID item)) ++ fld "key" (JStr (ai_Key a)) ++
     fld "payload" (JStr (Payload item)) ++ fld "semantics" (JStr (ai_UpdateSemantics a))))).

(** The [switch access.Mode]: a terminal error, or the modifications to append. *)
Definition access_mods (item : SignedTransaction) (a : AccessItem) (value : string)
    : string + list groundhogModification :=
  if ai_Mode a ≟ AccessCommutativeDelta then
    let baseValue := groundhogParseInt value 0 in
    if ((baseValue <? 0)%Z || ((ai_Delta a <? 0)%Z && groundhogWouldUnderflowNonnegative baseValue (ai_Delta a)))
    then inl "groundhog_individual_nonnegative_constraint"
    else inr [mod_int (ai_Key a) baseValue (ai_Delta a)]
  else if (ai_Mode a ≟ AccessWrite) || (ai_Mode a ≟ AccessReadWrite) then
    if ai_UpdateSemantics a ≟ "ordered_set_insert" then
      if Nonce item ≟ max_uint64 then inl "groundhog_nonce_overflow"
      else inr [mod_insert (ai_Key a) (u64_add (Nonce item) 1) (SemanticID item)]
    else if ai_UpdateSemantics a ≟ "ordered_set_clear" then
      inr [mod_clear (ai_Key a) (if (0 <? ai_Delta a)%Z then Z.to_N (ai_Delta a) else 0)]
    else if ai_UpdateSemantics a ≟ "ordered_set_increase_limit" then
      if (ai_Delta a <? 0)%Z then inl "groundhog_invalid_ordered_set_limit_increase"
      else inr [mod_grow (ai_Key a) (ai_Delta a)]
    else inr [mod_bytes (ai_Key a) (access_target item a)]
  else inr [].

Fixpoint interpret_accesses (b : Block) (base : gmap string string) (item : SignedTransaction)
    (accesses : list AccessItem) (reads : list ReadObservation) (mods : list groundhogModification)
    : list ReadObservation * (string + list groundhogModification) :=
  match accesses with
  | [] => (reads, inr mods)
  | a :: rest =>
      if ai_Key a ≟ "" then interpret_accesses b base item rest reads mods
      else
      let reads := note_read b base (ai_Key a) reads in
      if (ai_Mode a ≟ AccessRead) || has_prefix (ai_Key a) "balance:" || has_prefix (ai_Key a) "nonce:"
      then interpret_accesses b base item rest reads mods
      else
      match access_mods item a (base_value b base (ai_Key a)) with
      | inl e => (reads, inl e)
      | inr ms => interpret_accesses b base item rest reads (mods ++ ms)
      end
  end.

(** The transfer part: the reads, and a terminal error or the modifications. A
    transaction of another kind has none. *)
Definition interpret_transfer (e : GroundhogExecutor) (b : Block) (base : gmap string string)
    (item : SignedTransaction) : list ReadObservation * (string + list groundhogModification) :=
  if isPureCommutativeDelta (AccessList item) || isDirectAccessTransaction item then ([], inr [])
  else if (Value item <=? 0)%Z then ([], inl "invalid_value")
  else
  let senderKey := "balance:" +:+ Sender item in
  let receiverKey := "balance:" +:+ Receiver item in
  let reads := note_read b base receiverKey (note_read b base senderKey []) in
  let senderBalance := groundhogParseInt (base_value b base senderKey) (gh_DefaultInitialBalance e) in
  let receiverBalance := groundhogParseInt (base_value b base receiverKey) 0 in
  if (senderBalance <? Value item)%Z then (reads, inl "insufficient_balance")
  else if Nonce item ≟ max_uint64 then (reads, inl "groundhog_nonce_overflow")
  else
  let replayKey := "groundhog:replay:" +:+ Sender item in
  (note_read b base replayKey reads,
   inr [mod_int senderKey senderBalance (- Value item); mod_int receiverKey receiverBalance (Value item);
        mod_insert replayKey (u64_add (Nonce item) 1) (TxID item)]).

Definition failed_attempt (index : Z) (item : SignedTransaction) (reads : list ReadObservation)
    (err : string) : groundhogAttempt := MkGhAttempt index item reads [] err.

(** [sort.Slice] of the reads by key; the keys are different. *)
Definition sort_reads (reads : list ReadObservation) : list ReadObservation :=
  merge_sort (λ r1 r2, String.le (ro_Key r1) (ro_Key r2)) reads.

Definition interpretTransaction `{MapOrder} (e : GroundhogExecutor) (b : Block)
    (base : gmap string string) (index : Z) (item : SignedTransaction) : groundhogAttempt :=
  if isCrossShardTargetCommit item (ShardID b) || has_prefix (Payload item) "v5_cross:"
  then failed_attempt index item [] "groundhog_cross_shard_unsupported"
  else
  let '(reads, transfer) := interpret_transfer e b base item in
  match transfer with
  | inl err => failed_attempt index item reads err
  | inr mods =>
      let '(reads, result) := interpret_accesses b base item (AccessList item) reads mods in
      match result with
      | inl err => failed_attempt index item reads err
      | inr mods =>
          match normalizeGroundhogModifications mods with
          | inl err => failed_attempt index item reads err
          | inr mods => MkGhAttempt index item (sort_reads reads) mods ""
          end
      end
  end.

Definition workerCountFor (e : GroundhogExecutor) (size : nat) : Z :=
  let workers := Z.max 1 (gh_WorkerCount e) in
  if (size ≠? O) && (Z.of_nat size <? workers)%Z then Z.of_nat size else workers.

(** [executeAttempts]: the attempts unless the context has ended, and the context. *)
Definition executeAttempts `{MapOrder} (e : GroundhogExecutor) (b : Block) (base : gmap string string)
    (items : list SignedTransaction) (workerCount : Z) (schedule : list pool_choice) (cancelled : bool)
    : option (bool * option (list groundhogAttempt)) :=
  match items with
  | [] => Some (cancelled, Some [])
  | item0 :: _ =>
      run_pool (λ index, interpretTransaction e b base (Z.of_nat index) (default item0 (items !! index)))
        (length items) (Z.to_nat workerCount) schedule cancelled
  end.

(** ** Objects *)

Definition decode_entry (v : jvalue) : groundhogOrderedEntry :=
  match v with
  | VObj fields =>
      foldl (λ e f, if same_field "tag" f.1 then MkEntry (decode_uint f.2.1 (oe_Tag e)) (oe_Hash e)
                    else if same_field "hash" f.1 then MkEntry (oe_Tag e) (decode_string f.2.1 (oe_Hash e))
                    else e) (MkEntry 0 "") fields
  | _ => MkEntry 0 ""
  end.

Definition decode_set_field (s : groundhogOrderedSet) (f : string * (jvalue * bytes)) : groundhogOrderedSet :=
  if same_field "limit" f.1 then MkSet (decode_int f.2.1 (os_Limit s)) (os_Cleared s) (os_Entries s)
  else if same_field "cleared_through" f.1
  then MkSet (os_Limit s) (decode_uint f.2.1 (os_Cleared s)) (os_Entries s)
  else if same_field "entries" f.1
  then MkSet (os_Limit s) (os_Cleared s)
         (match f.2.1 with VArr l => decode_entry <$> l | VNull => [] | _ => os_Entries s end)
  else s.

(** [_ = json.Unmarshal([]byte(value), &out)]: a text that is no JSON value, or not
    an object, leaves [out] as it is. *)
Definition unmarshal_set (value : string) (out : groundhogOrderedSet) : groundhogOrderedSet :=
  match parse_json value with
  | Some (VObj fields) => foldl decode_set_field out fields
  | _ => out
  end.

Definition decodeGroundhogOrderedSet (value : string) (defaultLimit : Z) : groundhogOrderedSet :=
  let defaultLimit := if (defaultLimit <? 1)%Z then GroundhogOrderedSetInitialLimit else defaultLimit in
  let defaultLimit := Z.min defaultLimit GroundhogOrderedSetMaximumLimit in
  let out := MkSet defaultLimit 0 [] in
  let out := if trim_space value ≟ "" then out else unmarshal_set value out in
  let limit := if (os_Limit out <? 1)%Z then defaultLimit else os_Limit out in
  MkSet (Z.min limit GroundhogOrderedSetMaximumLimit) (os_Cleared out) (os_Entries out).

Definition is_set_kind (k : groundhogModificationKind) : bool :=
  match k with
  | groundhogOrderedSetInsert | groundhogOrderedSetClear | groundhogOrderedSetGrow => true
  | _ => false
  end.

Definition newObject (t : groundhogReservationTable) (m : groundhogModification) : groundhogObject :=
  if is_set_kind (gm_Kind m) then
    let s := decodeGroundhogOrderedSet
               (default "" (gt_Base t !! groundhogQualifiedKey (gt_ShardID t) (gm_Key m)))
               (gt_OrderedSetLimit t) in
    MkObject groundhogOrderedSetInsert 0 0 0 "" s
      (foldl (λ h entry, if os_Cleared s <? oe_Tag entry then <[oe_Hash entry := oe_Tag entry]> h else h)
         ∅ (os_Entries s))
  else MkObject (gm_Kind m) (if gm_Kind m ≟ groundhogIntegerAdd then gm_BaseInt m else 0) 0 0 ""
         (MkSet 0 0 []) ∅.

Definition groundhogKindsCompatible (existing incoming : groundhogModificationKind) : bool :=
  (existing ≟ incoming) ||
  ((existing ≟ groundhogOrderedSetInsert) &&
   ((incoming ≟ groundhogOrderedSetClear) || (incoming ≟ groundhogOrderedSetGrow))).

Definition conflict (key reason : string) : string :=
  "groundhog_constraint_conflict:" +:+ key +:+ ":" +:+ reason.

Definition set_ints (o : groundhogObject) (positive negative : Z) : groundhogObject :=
  MkObject (ob_Kind o) (ob_BaseInt o) positive negative (ob_Bytes o) (ob_Set o) (ob_SetByHash o).
Definition set_set (o : groundhogObject) (s : groundhogOrderedSet) (h : gmap string N) : groundhogObject :=
  MkObject (ob_Kind o) (ob_BaseInt o) (ob_PositiveDelta o) (ob_NegativeDelta o) (ob_Bytes o) s h.

(** The [switch modification.Kind] of [applyModification]. *)
Definition apply_int (o : groundhogObject) (m : groundhogModification) : string + groundhogObject :=
  let key := gm_Key m in
  if ob_BaseInt o ≠? gm_BaseInt m then inl (conflict key "base_value_mismatch")
  else if (ob_BaseInt o <? 0)%Z then inl (conflict key "negative_base_value")
  else if (gm_Delta m <? 0)%Z then
    let '(next, overflow) := groundhogAddInt64 (ob_NegativeDelta o) (gm_Delta m) in
    if overflow : bool then inl (conflict key "integer_overflow")
    else if groundhogWouldUnderflowNonnegative (ob_BaseInt o) next
    then inl (conflict key "nonnegative_constraint")
    else if (groundhogFinalIntValue (ob_BaseInt o) next (ob_PositiveDelta o)).2
    then inl (conflict key "integer_overflow")
    else inr (set_ints o (ob_PositiveDelta o) next)
  else
    let '(next, overflow) := groundhogAddInt64 (ob_PositiveDelta o) (gm_Delta m) in
    if overflow : bool then inl (conflict key "integer_overflow")
    else if (groundhogFinalIntValue (ob_BaseInt o) (ob_NegativeDelta o) next).2
    then inl (conflict key "integer_overflow")
    else inr (set_ints o next (ob_NegativeDelta o)).

Definition apply_to_object (o : groundhogObject) (m : groundhogModification) : string + groundhogObject :=
  let key := gm_Key m in
  let s := ob_Set o in
  match gm_Kind m with
  | groundhogIntegerAdd => apply_int o m
  | groundhogBytesSet =>
      if (ob_Bytes o ≠? "") && (ob_Bytes o ≠? gm_Bytes m)
      then inl (conflict key "different_bytes_values")
      else inr (MkObject (ob_Kind o) (ob_BaseInt o) (ob_PositiveDelta o) (ob_NegativeDelta o) (gm_Bytes m)
                  s (ob_SetByHash o))
  | groundhogOrderedSetGrow =>
      if (gm_Increase m <? 0)%Z then inl (conflict key "negative_limit_increase")
      else if (GroundhogOrderedSetMaximumLimit - os_Limit s <? gm_Increase m)%Z
      then inl (conflict key "ordered_set_limit_overflow")
      else inr (set_set o (MkSet (os_Limit s + gm_Increase m) (os_Cleared s) (os_Entries s)) (ob_SetByHash o))
  | groundhogOrderedSetClear =>
      inr (set_set o (MkSet (os_Limit s) (N.max (os_Cleared s) (gm_Threshold m)) (os_Entries s))
             (ob_SetByHash o))
  | groundhogOrderedSetInsert =>
      if defined (ob_SetByHash o !! gm_Hash m) then inl (conflict key "duplicate_hash")
      else if (os_Limit s <=? Z.of_nat (size (ob_SetByHash o)))%Z
      then inl (conflict key "ordered_set_capacity")
      else inr (set_set o s (<[gm_Hash m := gm_Tag m]> (ob_SetByHash o)))
  end.

Definition set_objects (t : groundhogReservationTable) (objects : gmap string groundhogObject)
    : groundhogReservationTable :=
  MkTable (gt_ShardID t) (gt_Base t) (gt_OrderedSetLimit t) objects.

(** The table after the call and the error: a new object is in the table even when
    the modification is refused. *)
Definition applyModification (t : groundhogReservationTable) (m : groundhogModification)
    : groundhogReservationTable * error :=
  let o := match gt_Objects t !! gm_Key m with Some o => o | None => newObject t m end in
  let t := set_objects t (<[gm_Key m := o]> (gt_Objects t)) in
  if negb (groundhogKindsCompatible (ob_Kind o) (gm_Kind m))
  then (t, Some (conflict (gm_Key m) "mixed_object_types"))
  else match apply_to_object o m with
       | inl err => (t, Some err)
       | inr o => (set_objects t (<[gm_Key m := o]> (gt_Objects t)), None)
       end.

(** The backups of [reserveTransaction]: what each key touched so far was before. *)
Definition backup (t : groundhogReservationTable) (backups : gmap string (option groundhogObject))
    (key : string) : gmap string (option groundhogObject) :=
  match backups !! key with
  | Some _ => backups
  | None => <[key := gt_Objects t !! key]> backups
  end.

Definition roll_back (t : groundhogReservationTable) (backups : gmap string (option groundhogObject))
    : groundhogReservationTable :=
  set_objects t (map_fold (λ key old objects,
    match old with Some o => <[key := o]> objects | None => delete key objects end)
    (gt_Objects t) backups).

Fixpoint reserve_mods (t : groundhogReservationTable) (backups : gmap string (option groundhogObject))
    (ms : list groundhogModification) : groundhogReservationTable * error :=
  match ms with
  | [] => (t, None)
  | m :: rest =>
      let backups := backup t backups (gm_Key m) in
      match applyModification t m with
      | (t, Some err) => (roll_back t backups, Some err)
      | (t, None) => reserve_mods t backups rest
      end
  end.

Definition reserveTransaction (t : groundhogReservationTable) (ms : list groundhogModification)
    : groundhogReservationTable * error :=
  reserve_mods t ∅ ms.

(** ** Reserving a block *)

Inductive groundhog_error :=
  | GeContext                                   (* [ctx.Err()] *)
  | GeConflict (txID key reason : string)       (* [GroundhogBlockConflictError] *)
  | GeRejected                                  (* a serially valid block was refused *)
  | GeMaterialize (text : string).

Definition groundhog_error_text (ctxErr : string) (err : groundhog_error) : string :=
  match err with
  | GeContext => ctxErr
  | GeConflict txID key reason =>
      "groundhog fixed block conflict tx=" +:+ txID +:+ " key=" +:+ key +:+ " reason=" +:+ reason
  | GeRejected => "groundhog concurrent reservation rejected a serially valid fixed block"
  | GeMaterialize text => text
  end.

(** The text before and after the last colon. *)
Fixpoint split_last_colon (s : string) : option (string * string) :=
  match s with
  | EmptyString => None
  | String c s' =>
      match split_last_colon s' with
      | Some (l, r) => Some (String c l, r)
      | None => if decide (c = ":"%char) then Some (EmptyString, s') else None
      end
  end.

Definition groundhogConflictParts (message : string) : string * string :=
  match strip_prefix "groundhog_constraint_conflict:" message with
  | None => ("", message)
  | Some remainder =>
      match split_last_colon remainder with
      | Some (key, reason) => if (key ≟ "") || (reason ≟ "") then ("", remainder) else (key, reason)
      | None => ("", remainder)
      end
  end.

(** The reservations in the order they take effect: the table and the errors by
    index. *)
Fixpoint reserve_in_order (t : groundhogReservationTable) (attempts : list groundhogAttempt)
    (order : list nat) : groundhogReservationTable * gmap nat string :=
  match order with
  | [] => (t, ∅)
  | index :: rest =>
      match attempts !! index with
      | None => reserve_in_order t attempts rest
      | Some a =>
          if ga_TerminalError a ≠? "" then reserve_in_order t attempts rest
          else
          match reserveTransaction t (ga_Modifications a) with
          | (t, None) => reserve_in_order t attempts rest
          | (t, Some err) =>
              let '(t, errors) := reserve_in_order t attempts rest in (t, <[index := err]> errors)
          end
      end
  end.

(** The first conflict of the block's order, on a table of its own. *)
Fixpoint canonical_conflict (t : groundhogReservationTable) (attempts : list groundhogAttempt)
    : groundhog_error :=
  match attempts with
  | [] => GeRejected
  | a :: rest =>
      if ga_TerminalError a ≠? "" then canonical_conflict t rest
      else
      match reserveTransaction t (ga_Modifications a) with
      | (t, None) => canonical_conflict t rest
      | (_, Some err) => let '(key, reason) := groundhogConflictParts err in
                         GeConflict (TxID (ga_Tx a)) key reason
      end
  end.

(** How the goroutines of a call interleave: the worker pool's moves, the order in
    which the reservations take effect, and whether the context has ended when the
    reservations are done. *)
Record groundhog_schedule := MkGhSchedule {
  sc_pool : list pool_choice;
  sc_order : list nat;
  sc_ended : bool;
}.

Definition reserveGroundhogAttemptsConcurrent (t : groundhogReservationTable)
    (attempts : list groundhogAttempt) (schedule : groundhog_schedule)
    : groundhogReservationTable * option groundhog_error :=
  let '(t', errors) := reserve_in_order t attempts (sc_order schedule) in
  if sc_ended schedule then (t', Some GeContext)
  else if decide (errors = ∅) then (t', None)
  else (t', Some (canonical_conflict
         (newGroundhogReservationTable (gt_ShardID t) (gt_Base t) (gt_OrderedSetLimit t)) attempts)).

(** ** The state after the block *)

Definition entry_le (a b : groundhogOrderedEntry) : Prop :=
  oe_Tag a < oe_Tag b ∨ (oe_Tag a = oe_Tag b ∧ String.le (oe_Hash a) (oe_Hash b)).
#[global] Instance entry_le_dec : RelDecision entry_le.
Proof. intros a b. unfold entry_le. apply _. Defined.

Definition json_set (s : groundhogOrderedSet) : json :=
  JObj (fld "limit" (JInt (os_Limit s)) ++ opt_uint "cleared_through" (os_Cleared s) ++
        fld "entries" (JArr ((λ e, JObj (fld "tag" (JUint (oe_Tag e)) ++ fld "hash" (JStr (oe_Hash e))))
                               <$> os_Entries s))).

Definition live_entries (s : groundhogOrderedSet) (h : gmap string N) : list groundhogOrderedEntry :=
  merge_sort entry_le
    ((λ kv, MkEntry kv.2 kv.1) <$> filter (λ kv, os_Cleared s < kv.2) (map_to_list h)).

Definition object_value (key : string) (o : groundhogObject) : string + string :=
  match ob_Kind o with
  | groundhogIntegerAdd =>
      let '(value, overflow) := groundhogFinalIntValue (ob_BaseInt o) (ob_NegativeDelta o) (ob_PositiveDelta o) in
      if overflow : bool then inl ("groundhog materialization integer constraint key=" +:+ key)
      else inr (format_int value)
  | groundhogBytesSet => inr (ob_Bytes o)
  | groundhogOrderedSetInsert =>
      let s := ob_Set o in
      inr (marshal (json_set (MkSet (os_Limit s) (os_Cleared s) (live_entries s (ob_SetByHash o)))))
  | k => inl ("groundhog materialization unknown object kind " +:+ kind_name k)
  end.

Fixpoint materialize_objects (t : groundhogReservationTable) (keys : list string)
    (working : gmap string string) : string + gmap string string :=
  match keys with
  | [] => inr working
  | key :: rest =>
      match gt_Objects t !! key with
      | None => materialize_objects t rest working
      | Some o =>
          match object_value key o with
          | inl err => inl err
          | inr value => materialize_objects t rest (<[groundhogQualifiedKey (gt_ShardID t) key := value]> working)
          end
      end
  end.
Definition materializeTable (t : groundhogReservationTable) : string + gmap string string :=
  materialize_objects t (sorted_keys (gt_Objects t)) (gt_Base t).

(** ** Executing a block *)

Definition json_groundhog_plan (p : SerialPlan) (modifiedKeys : list string) : json :=
  JObj (fld "engine_id" (JStr (xp_EngineID p)) ++
        fld "engine_version" (JStr (xp_EngineVersion p)) ++
        fld "block_hash" (JStr (xp_BlockHash p)) ++
        fld "block_height" (JUint (xp_BlockHeight p)) ++
        fld "ordered_transaction_ids" (JArr (JStr <$> xp_OrderedTransactionIDs p)) ++
        fld "original_transaction_indexes" (JArr (JInt <$> xp_OriginalTransactionIdxs p)) ++
        fld "declared_access_set_digest" (JStr (xp_DeclaredAccessSetDigest p)) ++
        fld "declared_read_key_count" (JInt (xp_DeclaredReadKeyCount p)) ++
        fld "declared_write_key_count" (JInt (xp_DeclaredWriteKeyCount p)) ++
        fld "worker_count" (JInt (xp_WorkerCount p)) ++
        fld "plan_digest" (JStr (xp_PlanDigest p)) ++
        fld "snapshot_semantics" (JStr "block_start_snapshot") ++
        fld "typed_modification_semantics" (JStr "groundhog_typed_commutative_v1") ++
        fld "modified_keys" (JArr (JStr <$> modifiedKeys)) ++
        fld "fallback_mode" (JStr "disabled")).

Definition buildGroundhogPlan (b : Block) (declared : AccessSet) (workerCount : Z)
    (t : groundhogReservationTable) : SerialPlan :=
  let plan := MkSerialPlan GroundhogBlockExecutorID GroundhogBlockExecutorVersion (BlockHash b)
    (Height b) (TxID <$> TxList b) (Z.of_nat <$> seq 0 (length (TxList b)))
    (sha256_hex (marshal (json_access_set declared)))
    (Z.of_nat (length (as_ReadKeys declared))) (Z.of_nat (length (as_WriteKeys declared))) workerCount in
  plan (sha256_hex (marshal (json_groundhog_plan (plan "") (sorted_keys (gt_Objects t))))).

Definition groundhog_delta (b : Block) (working : gmap string string) (afterRoot : string)
    (a : groundhogAttempt) : TxDelta :=
  let success := ga_TerminalError a ≟ "" in
  let receipt := MkReceipt (TxID (ga_Tx a)) (BlockHash b) (Height b) success (ga_TerminalError a) 1
                   (StateKeys (ga_Tx a)) afterRoot in
  let writes := if success
    then foldl (λ w m, <[gm_Key m := default "" (working !! groundhogQualifiedKey (ShardID b) (gm_Key m))]> w)
           ∅ (ga_Modifications a)
    else ∅ in
  MkDelta (TxID (ga_Tx a)) (ga_Index a) (ga_Reads a) writes receipt success (ga_TerminalError a).

Inductive groundhog_outcome (A : Type) :=
  | GhRunning             (* the schedule ends before the function returns *)
  | GhFailed (err : groundhog_error)
  | GhReturned (a : A).
Arguments GhRunning {A}.
Arguments GhFailed {A}.
Arguments GhReturned {A}.

Definition groundhog_result (b : Block) (base : gmap string string) (workerCount : Z)
    (commitment : commitmentNode) (attempts : list groundhogAttempt) (t : groundhogReservationTable)
    (working : gmap string string) : Result :=
  let commitment' := foldl (λ c u, commitmentSet c (su_Key u) (su_Value u)) commitment
                       (stateDelta base working) in
  let afterRoot := CommitmentRoot (Some commitment') in
  let deltas := groundhog_delta b working afterRoot <$> attempts in
  let plan := buildGroundhogPlan b (declaredAccessSet (TxList b)) workerCount t in
  MkResult (BlockHash b) (Height b) (CommitmentRoot (Some commitment)) afterRoot
    (ReceiptRoot (td_Receipt <$> deltas)) (td_Receipt <$> deltas) working (stateDelta base working)
    (count_success deltas) (count_failed deltas) GroundhogBlockExecutorID GroundhogBlockExecutorVersion
    workerCount (Some plan) (xp_PlanDigest plan) deltas CommitmentVersion false.

Definition GroundhogExecuteBlockWithCommitment `{MapOrder} (e : GroundhogExecutor) (b : Block)
    (base : gmap string string) (baseCommitment : option commitmentNode) (cancelled : bool)
    (schedule : groundhog_schedule) : groundhog_outcome Result :=
  if cancelled then GhFailed GeContext
  else
  let workerCount := workerCountFor e (length (TxList b)) in
  match executeAttempts e b base (TxList b) workerCount (sc_pool schedule) cancelled with
  | None => GhRunning
  | Some (_, None) => GhFailed GeContext
  | Some (_, Some attempts) =>
      let t := newGroundhogReservationTable (ShardID b) base (gh_OrderedSetLimit e) in
      match reserveGroundhogAttemptsConcurrent t attempts schedule with
      | (_, Some err) => GhFailed err
      | (t, None) =>
          match materializeTable t with
          | inl err => GhFailed (GeMaterialize err)
          | inr working =>
              GhReturned (groundhog_result b base workerCount (CloneOrBuild baseCommitment base) attempts t working)
          end
      end
  end.

Definition GroundhogExecuteBlock `{MapOrder} (e : GroundhogExecutor) (b : Block)
    (base : gmap string string) (cancelled : bool) (schedule : groundhog_schedule)
    : groundhog_outcome Result :=
  GroundhogExecuteBlockWithCommitment e b base None cancelled schedule.

(** ** Proposing a block *)

Record GroundhogCandidateSelection := MkGhSelection {
  gs_Selected : list SignedTransaction;
  gs_Deferred : list SignedTransaction;
  gs_DeferredReasons : gmap string string;
}.

Definition defer (item : SignedTransaction) (reason : string) (s : GroundhogCandidateSelection)
    : GroundhogCandidateSelection :=
  MkGhSelection (gs_Selected s) (gs_Deferred s ++ [item]) (<[TxID item := reason]> (gs_DeferredReasons s)).

(** What [reserveGroundhogProposalAttemptsConcurrent] reports for one candidate:
    only a conflict defers it. *)
Definition propose_one (errors : gmap nat string) (s : GroundhogCandidateSelection)
    (ia : nat * groundhogAttempt) : GroundhogCandidateSelection :=
  let a := ia.2 in
  if ga_TerminalError a ≠? ""
  then MkGhSelection (gs_Selected s ++ [ga_Tx a]) (gs_Deferred s) (gs_DeferredReasons s)
  else match errors !! ia.1 with
       | Some err => defer (ga_Tx a) err s
       | None => MkGhSelection (gs_Selected s ++ [ga_Tx a]) (gs_Deferred s) (gs_DeferredReasons s)
       end.

Definition proposal_block (shardID : string) (height : N) : Block :=
  MkBlock "" shardID height "" "" 0 None [] "" "" "" "" "" false false [] None None.

(** The streaming loop over chunks of candidates. A chunk has a candidate at
    least, so the number of candidates bounds the turns. *)
Fixpoint propose_loop `{MapOrder} (fuel : nat) (e : GroundhogExecutor) (b : Block)
    (base : gmap string string) (workerCount limit : Z) (schedules : list groundhog_schedule)
    (candidates : list SignedTransaction) (t : groundhogReservationTable)
    (s : GroundhogCandidateSelection) : groundhog_outcome (groundhogReservationTable * GroundhogCandidateSelection) :=
  match candidates with
  | [] => GhReturned (t, s)
  | _ =>
    if (limit <=? Z.of_nat (length (gs_Selected s)))%Z
    then GhReturned (t, foldl (λ s item, defer item "groundhog_candidate_limit" s) s candidates)
    else
    match fuel, schedules with
    | S fuel, schedule :: schedules =>
        let remaining := (limit - Z.of_nat (length (gs_Selected s)))%Z in
        let chunkSize := Z.to_nat (Z.min (Z.min workerCount remaining) (Z.of_nat (length candidates))) in
        let chunk := take chunkSize candidates in
        match executeAttempts e b base chunk (workerCountFor e (length chunk)) (sc_pool schedule) false with
        | None => GhRunning
        | Some (_, None) => GhFailed GeContext
        | Some (_, Some attempts) =>
            let '(t, errors) := reserve_in_order t attempts (sc_order schedule) in
            if sc_ended schedule then GhFailed GeContext
            else propose_loop fuel e b base workerCount limit schedules (drop chunkSize candidates) t
                   (foldl (propose_one errors) s (imap pair attempts))
        end
    | _, _ => GhRunning
    end
  end.

Definition GroundhogSelectCandidateTransactions `{MapOrder} (e : GroundhogExecutor) (shardID : string)
    (height : N) (candidates : list SignedTransaction) (base : gmap string string) (limit : Z)
    (cancelled : bool) (schedules : list groundhog_schedule)
    : groundhog_outcome GroundhogCandidateSelection :=
  if cancelled then GhFailed GeContext
  else
  let n := length candidates in
  let limit := if ((limit <=? 0) || (Z.of_nat n <? limit))%Z then Z.of_nat n else limit in
  match propose_loop n e (proposal_block shardID height) base (workerCountFor e n) limit schedules candidates
          (newGroundhogReservationTable shardID base (gh_OrderedSetLimit e)) (MkGhSelection [] [] ∅) with
  | GhRunning => GhRunning
  | GhFailed err => GhFailed err
  | GhReturned (_, s) => GhReturned s
  end.
