(* ===== verification/GroundhogProps.v ===== *)
(** * What the Groundhog executor guarantees

    A reservation that fails leaves the table as it was. What a block's
    modifications make of an object does not depend on the order in which they are
    reserved; which blocks are accepted does not either, as long as no bound can be
    crossed in between. *)
From S2P Require Import Prelude GoStd GoJson Tx Block StateRoot Serial SerialProps WorkerPool Groundhog.
Local Open Scope N_scope.
#[local] Opaque Sha256.sum256 sha256_hex Json.marshal.

#[global] Instance groundhogModification_eq : EqDecision groundhogModification.
Proof. solve_decision. Defined.

(** ** Integers *)

Definition in_i64 (z : Z) : Prop := (min_int64 <= z <= max_int64)%Z.

Lemma i64_wrap_congr a b : (a mod 2 ^ 64 = b mod 2 ^ 64)%Z → i64_wrap a = i64_wrap b.
Proof.
  intros H. unfold i64_wrap. f_equal. rewrite (Zplus_mod a), (Zplus_mod b). by rewrite H.
Qed.

Lemma i64_wrap_mod a : (i64_wrap a mod 2 ^ 64 = a mod 2 ^ 64)%Z.
Proof.
  unfold i64_wrap. rewrite Zminus_mod, Zmod_mod, <- Zminus_mod. f_equal. lia.
Qed.

Lemma i64_add_swap a x y : i64_add (i64_add a x) y = i64_add (i64_add a y) x.
Proof.
  unfold i64_add. apply i64_wrap_congr.
  rewrite (Zplus_mod (i64_wrap (a + x))), (Zplus_mod (i64_wrap (a + y))), !i64_wrap_mod.
  rewrite <- !Zplus_mod. f_equal. lia.
Qed.

Lemma i64_wrap_cases z : (- 2 ^ 64 <= z < 2 ^ 64)%Z →
  (in_i64 z ∧ i64_wrap z = z) ∨ (max_int64 < z ∧ i64_wrap z = z - 2 ^ 64)%Z ∨
  (z < min_int64 ∧ i64_wrap z = z + 2 ^ 64)%Z.
Proof.
  intros Hz. destruct (decide (in_i64 z)) as [H|H]; [left; split; [done|by apply i64_wrap_small]|].
  unfold in_i64 in H. destruct (decide (max_int64 < z)%Z) as [H1|H1].
  - right. left. split; [done|]. apply i64_wrap_high. lia.
  - right. right. assert (z < min_int64)%Z by lia. split; [done|].
    assert (i64_wrap z = i64_wrap (z + 2 ^ 64)) as ->.
    { apply i64_wrap_congr. rewrite <- (Z_mod_plus_full z 1). f_equal. }
    apply i64_wrap_small. unfold min_int64, max_int64 in *. lia.
Qed.

(** The sum of two [int64] values, or that it does not fit. *)
Lemma add_int64_spec a b : in_i64 a → in_i64 b →
  groundhogAddInt64 a b = if decide (in_i64 (a + b)%Z) then ((a + b)%Z, false) else (0%Z, true).
Proof.
  intros Ha Hb. unfold groundhogAddInt64, i64_add.
  assert (- 2 ^ 64 <= a + b < 2 ^ 64)%Z as Hr by (unfold in_i64, min_int64, max_int64 in *; lia).
  destruct (i64_wrap_cases _ Hr) as [[H ->]|[[H ->]|[H ->]]].
  - rewrite decide_True by done. destruct (Z.ltb_spec 0 b), (Z.ltb_spec (a + b) a), (Z.ltb_spec b 0),
      (Z.ltb_spec a (a + b)); simpl; try done; lia.
  - rewrite decide_False by (unfold in_i64; lia). unfold in_i64, min_int64, max_int64 in *.
    rewrite (proj2 (Z.ltb_lt 0 b)), (proj2 (Z.ltb_lt (a + b - 2 ^ 64) a)) by lia. done.
  - rewrite decide_False by (unfold in_i64; lia). unfold in_i64, min_int64, max_int64 in *.
    rewrite (proj2 (Z.ltb_lt b 0)), (proj2 (Z.ltb_lt a (a + b + 2 ^ 64))) by lia.
    by rewrite orb_true_r.
Qed.

Lemma add_int64_value a b r : in_i64 a → in_i64 b → groundhogAddInt64 a b = (r, false) →
  r = (a + b)%Z ∧ in_i64 r.
Proof. intros Ha Hb. rewrite add_int64_spec by done. case_decide; naive_solver. Qed.

Lemma underflow_spec base neg : in_i64 base → in_i64 neg →
  groundhogWouldUnderflowNonnegative base neg = false ↔ (0 <= base ∧ neg <= 0 ∧ 0 <= base + neg)%Z.
Proof.
  intros Hb Hn. unfold groundhogWouldUnderflowNonnegative.
  destruct (Z.ltb_spec base 0); simpl; [split; [done|lia]|].
  destruct (Z.ltb_spec 0 neg); simpl; [split; [done|lia]|].
  rewrite add_int64_spec by done. case_decide as H1.
  - simpl. rewrite Z.ltb_ge. lia.
  - simpl. split; [done|]. intros. exfalso. apply H1. unfold in_i64, min_int64, max_int64 in *. lia.
Qed.

Lemma final_spec base neg pos : in_i64 base → in_i64 neg → in_i64 pos →
  (groundhogFinalIntValue base neg pos).2 = false ↔
  (0 <= base ∧ neg <= 0 ∧ 0 <= base + neg ∧ 0 <= pos ∧ base + neg + pos <= max_int64)%Z.
Proof.
  intros Hb Hn Hp. unfold groundhogFinalIntValue.
  destruct (groundhogWouldUnderflowNonnegative base neg) eqn:Eu; simpl.
  { split; [done|]. intros H. rewrite (proj2 (underflow_spec _ _ Hb Hn)) in Eu by lia. done. }
  apply (underflow_spec _ _ Hb Hn) in Eu. destruct (Z.ltb_spec pos 0); simpl; [split; [done|lia]|].
  rewrite add_int64_spec by done. rewrite decide_True by (unfold in_i64, min_int64, max_int64 in *; lia).
  rewrite add_int64_spec by (done || unfold in_i64, min_int64, max_int64 in *; lia).
  case_decide as H1; simpl; unfold in_i64, min_int64, max_int64 in *; [naive_solver lia|].
  split; [done|]. intros. exfalso. apply H1. lia.
Qed.

Lemma final_value base neg pos : in_i64 base → in_i64 neg → in_i64 pos →
  (groundhogFinalIntValue base neg pos).2 = false →
  (groundhogFinalIntValue base neg pos).1 = (base + neg + pos)%Z.
Proof.
  intros Hb Hn Hp H. pose proof (proj1 (final_spec _ _ _ Hb Hn Hp) H) as Hs.
  unfold groundhogFinalIntValue in *. rewrite (proj2 (underflow_spec _ _ Hb Hn)) in * by lia.
  rewrite (proj2 (Z.ltb_ge _ _)) in * by lia. simpl in *. rewrite add_int64_spec in * by done.
  rewrite decide_True in * by (unfold in_i64, min_int64, max_int64 in *; lia). 
  rewrite add_int64_spec in * by (done || unfold in_i64, min_int64, max_int64 in *; lia). by case_decide.
Qed.

(** ** Modifications without the bookkeeping *)

Section table.
Context (t : groundhogReservationTable).

(** What a modification makes of the object at its key; [None] when it is refused. *)
Definition apply_object (o : option groundhogObject) (m : groundhogModification) : option groundhogObject :=
  let o := match o with Some o => o | None => newObject t m end in
  if negb (groundhogKindsCompatible (ob_Kind o) (gm_Kind m)) then None
  else match apply_to_object o m with inl _ => None | inr o => Some o end.

Fixpoint key_run (o : option groundhogObject) (ms : list groundhogModification)
    : option (option groundhogObject) :=
  match ms with
  | [] => Some o
  | m :: rest => match apply_object o m with None => None | Some o => key_run (Some o) rest end
  end.

Fixpoint apply_mods (objects : gmap string groundhogObject) (ms : list groundhogModification)
    : option (gmap string groundhogObject) :=
  match ms with
  | [] => Some objects
  | m :: rest =>
      match apply_object (objects !! gm_Key m) m with
      | None => None
      | Some o => apply_mods (<[gm_Key m := o]> objects) rest
      end
  end.

Definition at_key (k : string) (ms : list groundhogModification) : list groundhogModification :=
  filter (λ m, gm_Key m = k) ms.

(** The keys are independent. *)
Lemma apply_mods_keys ms : ∀ objects objects',
  apply_mods objects ms = Some objects' ↔
  ∀ k, key_run (objects !! k) (at_key k ms) = Some (objects' !! k).
Proof.
  induction ms as [|m ms IH]; intros objects objects'; simpl.
  - split; [by intros ? k; simplify_eq|]. intros H. f_equal. apply map_eq. intros k.
    specialize (H k). unfold at_key in H. simpl in H. congruence.
  - destruct (apply_object (objects !! gm_Key m) m) as [o|] eqn:E.
    + rewrite IH. apply forall_proper. intros k. unfold at_key. rewrite filter_cons.
      destruct (decide (gm_Key m = k)) as [<-|Hne].
      * rewrite lookup_insert_eq. simpl. by rewrite E.
      * by rewrite lookup_insert_ne.
    + split; [done|]. intros H. specialize (H (gm_Key m)). unfold at_key in H.
      rewrite filter_cons, decide_True in H by done. simpl in H. by rewrite E in H.
Qed.

Lemma apply_mods_app ms1 ms2 objects :
  apply_mods objects (ms1 ++ ms2) = apply_mods objects ms1 ≫= λ o, apply_mods o ms2.
Proof.
  revert objects. induction ms1 as [|m ms1 IH]; intros objects; simpl; [done|].
  destruct (apply_object _ m); [apply IH|done].
Qed.
End table.

Lemma applyModification_spec t m :
  match apply_object t (gt_Objects t !! gm_Key m) m with
  | Some o => applyModification t m = (set_objects t (<[gm_Key m := o]> (gt_Objects t)), None)
  | None => ∃ o err, applyModification t m = (set_objects t (<[gm_Key m := o]> (gt_Objects t)), Some err)
  end.
Proof.
  unfold apply_object, applyModification. set (o := match gt_Objects t !! gm_Key m with Some o => o | None => _ end).
  destruct (negb _); [eauto|]. destruct (apply_to_object o m) as [err|o']; [eauto|].
  unfold set_objects. simpl. by rewrite insert_insert_eq.
Qed.

Lemma reserve_mods_ok ms : ∀ t backups,
  match apply_mods t (gt_Objects t) ms with
  | Some objects => reserve_mods t backups ms = (set_objects t objects, None)
  | None => ∃ err, (reserve_mods t backups ms).2 = Some err
  end.
Proof.
  induction ms as [|m ms IH]; intros t backups; simpl; [by destruct t|].
  pose proof (applyModification_spec t m) as H. destruct (apply_object t _ m) as [o|].
  - rewrite H. specialize (IH (set_objects t (<[gm_Key m := o]> (gt_Objects t))) (backup t backups (gm_Key m))).
    simpl in IH. exact IH.
  - destruct H as (o & err & ->). eauto.
Qed.

(** ** A refused transaction leaves no trace *)

Lemma roll_back_lookup t backups k :
  gt_Objects (roll_back t backups) !! k = match backups !! k with Some old => old | None => gt_Objects t !! k end.
Proof.
  unfold roll_back. simpl. revert k.
  apply (map_fold_weak_ind (λ objects bk, ∀ k, objects !! k =
    match bk !! k with Some old => old | None => gt_Objects t !! k end)).
  - intros k. by rewrite lookup_empty.
  - intros key old bk objects Hbk IH k. rewrite (lookup_insert bk). destruct old as [o|].
    + rewrite lookup_insert. by case_decide.
    + rewrite lookup_delete. by case_decide.
Qed.

Lemma reserve_mods_atomic t0 ms : ∀ t backups,
  set_objects t (gt_Objects t0) = t0 →
  (∀ k, match backups !! k with
        | Some old => old = gt_Objects t0 !! k
        | None => gt_Objects t !! k = gt_Objects t0 !! k
        end) →
  (reserve_mods t backups ms).2 ≠ None → (reserve_mods t backups ms).1 = t0.
Proof.
  induction ms as [|m ms IH]; intros t backups Ht Hb; simpl; [done|].
  set (bk := backup t backups (gm_Key m)).
  assert (∀ o k, match bk !! k with
                 | Some old => old = gt_Objects t0 !! k
                 | None => gt_Objects (set_objects t (<[gm_Key m := o]> (gt_Objects t))) !! k = gt_Objects t0 !! k
                 end) as Hbk.
  { intros o k. unfold bk, backup. specialize (Hb k). destruct (backups !! gm_Key m) eqn:E.
    - destruct (decide (gm_Key m = k)) as [<-|Hne]; [by rewrite E in Hb |- *|].
      destruct (backups !! k); [done|]. simpl. by rewrite lookup_insert_ne.
    - rewrite lookup_insert. case_decide as Hk; [subst; by rewrite E in Hb|].
      destruct (backups !! k); [done|]. simpl. by rewrite lookup_insert_ne. }
  pose proof (applyModification_spec t m) as H. destruct (apply_object t _ m) as [o|].
  - rewrite H. apply IH; [exact Ht|exact (Hbk o)].
  - destruct H as (o & err & ->). intros _. simpl. rewrite <- Ht. unfold roll_back at 1, set_objects at 1. simpl.
    unfold set_objects. f_equal. apply map_eq. intros k.
    etrans; [exact (roll_back_lookup (set_objects t (<[gm_Key m := o]> (gt_Objects t))) bk k)|].
    specialize (Hbk o k). by destruct (bk !! k).
Qed.

Lemma reserveTransaction_atomic t ms :
  (reserveTransaction t ms).2 ≠ None → (reserveTransaction t ms).1 = t.
Proof.
  apply reserve_mods_atomic; [by destruct t|]. intros k. by rewrite lookup_empty.
Qed.

(** ** Blocks in some order *)

(** The modifications of the attempts, as they are reserved in [order]. *)
Definition attempt_mods (a : groundhogAttempt) : list groundhogModification :=
  if ga_TerminalError a ≠? "" then [] else ga_Modifications a.
Definition mods_at (attempts : list groundhogAttempt) (index : nat) : list groundhogModification :=
  match attempts !! index with Some a => attempt_mods a | None => [] end.
Definition flat_mods (attempts : list groundhogAttempt) (order : list nat) : list groundhogModification :=
  mjoin (mods_at attempts <$> order).

Lemma reserve_in_order_ok attempts order : ∀ t,
  match apply_mods t (gt_Objects t) (flat_mods attempts order) with
  | Some objects => reserve_in_order t attempts order = (set_objects t objects, ∅)
  | None => (reserve_in_order t attempts order).2 ≠ ∅
  end.
Proof.
  induction order as [|i order IH]; intros t; simpl; [by destruct t|].
  change (flat_mods attempts (i :: order)) with (mods_at attempts i ++ flat_mods attempts order).
  unfold mods_at at 1. destruct (attempts !! i) as [a|]; [|apply IH].
  unfold attempt_mods. destruct (ga_TerminalError a ≠? ""); [apply IH|]. rewrite apply_mods_app.
  unfold reserveTransaction. pose proof (reserve_mods_ok (ga_Modifications a) t ∅) as H.
  destruct (apply_mods t _ (ga_Modifications a)) as [objects|]; simpl.
  - rewrite H. exact (IH (set_objects t objects)).
  - destruct H as [err H]. destruct (reserve_mods _ _ _) as [t' e']. simpl in H. subst e'.
    destruct (reserve_in_order _ _ _) as [t'' errors]. simpl. apply insert_non_empty.
Qed.

(** ** The effect of a modification, without its checks *)

Definition effect (o : groundhogObject) (m : groundhogModification) : groundhogObject :=
  let s := ob_Set o in
  match gm_Kind m with
  | groundhogIntegerAdd =>
      if (gm_Delta m <? 0)%Z then set_ints o (ob_PositiveDelta o) (i64_add (ob_NegativeDelta o) (gm_Delta m))
      else set_ints o (i64_add (ob_PositiveDelta o) (gm_Delta m)) (ob_NegativeDelta o)
  | groundhogBytesSet =>
      MkObject (ob_Kind o) (ob_BaseInt o) (ob_PositiveDelta o) (ob_NegativeDelta o) (gm_Bytes m) s (ob_SetByHash o)
  | groundhogOrderedSetGrow =>
      set_set o (MkSet (os_Limit s + gm_Increase m) (os_Cleared s) (os_Entries s)) (ob_SetByHash o)
  | groundhogOrderedSetClear =>
      set_set o (MkSet (os_Limit s) (N.max (os_Cleared s) (gm_Threshold m)) (os_Entries s)) (ob_SetByHash o)
  | groundhogOrderedSetInsert => set_set o s (<[gm_Hash m := gm_Tag m]> (ob_SetByHash o))
  end.

Lemma add_int64_result a b r : groundhogAddInt64 a b = (r, false) → r = i64_add a b.
Proof. unfold groundhogAddInt64. case_match; naive_solver. Qed.

Lemma apply_effect o m o' : apply_to_object o m = inr o' → o' = effect o m.
Proof.
  unfold apply_to_object, apply_int, effect. intros H.
  destruct (gm_Kind m); repeat case_match; simplify_eq; try done;
    match goal with E : groundhogAddInt64 _ _ = (_, false) |- _ => apply add_int64_result in E; by subst end.
Qed.

(** Two modifications of one object that a block can hold together. *)
Definition together (m1 m2 : groundhogModification) : Prop :=
  (gm_Kind m1 = groundhogBytesSet → gm_Kind m2 = groundhogBytesSet → gm_Bytes m1 = gm_Bytes m2) ∧
  (gm_Kind m1 = groundhogOrderedSetInsert → gm_Kind m2 = groundhogOrderedSetInsert → gm_Hash m1 ≠ gm_Hash m2).

Lemma effect_comm o m1 m2 : together m1 m2 → effect (effect o m1) m2 = effect (effect o m2) m1.
Proof.
  intros [Hb Hi]. unfold effect, set_ints, set_set.
  destruct (gm_Kind m1), (gm_Kind m2); simpl; try done;
    repeat case_match; simpl; try done; try (by rewrite i64_add_swap).
  - by rewrite Hb.
  - by rewrite insert_insert_ne by (apply not_eq_sym, Hi; done).
  - do 2 f_equal. lia.
  - do 2 f_equal. lia.
Qed.

Lemma effects_perm o ms1 ms2 :
  ms1 ≡ₚ ms2 → (∀ m1 m2, m1 ∈ ms1 → m2 ∈ ms1 → m1 ≠ m2 → together m1 m2) →
  foldl effect o ms1 = foldl effect o ms2.
Proof.
  intros Hp. revert o. induction Hp as [|x l1 l2 Hp IH|x y l|l1 l2 l3 H1 IH1 H2 IH2]; intros o H; simpl; [done|..].
  - apply IH. intros m1 m2 ? ?. apply H; by right.
  - f_equal. destruct (decide (y = x)) as [->|Hne]; [done|]. apply effect_comm, H; [set_solver..|done].
  - rewrite IH1 by done. apply IH2. intros m1 m2 Hm1 Hm2. apply H; by rewrite H1.
Qed.

(** ** One key, in two orders *)

Definition mod_ok (m : groundhogModification) : Prop :=
  gm_Kind m = groundhogBytesSet → gm_Bytes m ≠ "".

Section key.
Context (t : groundhogReservationTable).

Lemma apply_object_some o m o' :
  apply_object t (Some o) m = Some o' →
  groundhogKindsCompatible (ob_Kind o) (gm_Kind m) = true ∧ apply_to_object o m = inr o' ∧ o' = effect o m.
Proof.
  unfold apply_object. destruct (groundhogKindsCompatible _ _); simpl; [|done].
  destruct (apply_to_object o m) as [|o1] eqn:E; [done|]. intros H. simplify_eq.
  pose proof (apply_effect _ _ _ E). by subst.
Qed.

Lemma apply_object_none m : apply_object t None m = apply_object t (Some (newObject t m)) m.
Proof. done. Qed.

Lemma key_run_effects ms : ∀ o r, key_run t (Some o) ms = Some r → r = Some (foldl effect o ms).
Proof.
  induction ms as [|m ms IH]; intros o r H; simplify_eq/=; [done|].
  destruct (apply_object t (Some o) m) as [o'|] eqn:E; [|done].
  apply apply_object_some in E as (_ & _ & ->). by apply IH.
Qed.

(** What the effects keep, and what they remember. *)
Lemma effect_kind o m : ob_Kind (effect o m) = ob_Kind o ∧ ob_BaseInt (effect o m) = ob_BaseInt o.
Proof. unfold effect. destruct (gm_Kind m); simpl; repeat case_match; done. Qed.

(** The modifications of a key that succeed are of the object's kind and base. *)
Lemma key_run_kinds ms : ∀ o r, key_run t (Some o) ms = Some r →
  ∀ m, m ∈ ms → groundhogKindsCompatible (ob_Kind o) (gm_Kind m) = true ∧
    (gm_Kind m = groundhogIntegerAdd → gm_BaseInt m = ob_BaseInt o).
Proof.
  induction ms as [|m ms IH]; intros o r H x Hx; [by apply elem_of_nil in Hx|]. simpl in H.
  destruct (apply_object t (Some o) m) as [o'|] eqn:E; [|done].
  apply apply_object_some in E as (Hk & Ha & ->). destruct (effect_kind o m) as [E1 E2].
  apply elem_of_cons in Hx as [->|Hx].
  - split; [done|]. intros Hi. unfold apply_to_object, apply_int in Ha. rewrite Hi in Ha.
    destruct (decide (ob_BaseInt o = gm_BaseInt m)) as [<-|Hne]; [done|].
    by rewrite bool_decide_eq_false_2 in Ha by done.
  - rewrite <- E1, <- E2. by eapply IH.
Qed.

Lemma newObject_same m m' :
  gm_Key m = gm_Key m' → groundhogKindsCompatible (ob_Kind (newObject t m)) (gm_Kind m') = true →
  (gm_Kind m' = groundhogIntegerAdd → gm_BaseInt m' = ob_BaseInt (newObject t m)) →
  newObject t m' = newObject t m.
Proof.
  intros Hk Hc Hb. unfold newObject in *. rewrite Hk in *.
  destruct (gm_Kind m), (gm_Kind m'); simpl in *; try done. by rewrite Hb.
Qed.

Lemma key_run_start m ms r :
  key_run t None (m :: ms) = Some r → Forall (λ x, gm_Key x = gm_Key m) ms →
  key_run t (Some (newObject t m)) (m :: ms) = Some r ∧
  ∀ m', m' ∈ m :: ms → newObject t m' = newObject t m.
Proof.
  intros H Hk. assert (key_run t (Some (newObject t m)) (m :: ms) = Some r) as H' by done. split; [done|].
  intros m' Hm'. destruct (key_run_kinds _ _ _ H' m' Hm') as [Hc Hb]. apply newObject_same; [|done..].
  apply elem_of_cons in Hm' as [->|Hm']; [done|]. rewrite Forall_forall in Hk. symmetry. by apply Hk.
Qed.

Lemma effect_remembers o m ms :
  (gm_Kind m = groundhogBytesSet → gm_Bytes m ≠ "" → Forall mod_ok ms →
     is_Some (key_run t (Some (effect o m)) ms) →
     ∀ m', m' ∈ ms → gm_Kind m' = groundhogBytesSet → gm_Bytes m' = gm_Bytes m).
Proof.
  intros Hk Hb. assert (ob_Bytes (effect o m) = gm_Bytes m) as Eb by (unfold effect; by rewrite Hk).
  generalize (effect o m) Eb. clear o Eb. induction ms as [|x ms IH]; intros o Eb Hok [r Hr] m' Hm' Hk'.
  { by apply elem_of_nil in Hm'. }
  simpl in Hr. destruct (apply_object t (Some o) x) as [o'|] eqn:E; [|done].
  apply apply_object_some in E as (_ & Ha & ->). apply Forall_cons in Hok as [Hx Hok].
  assert (gm_Kind x = groundhogBytesSet → gm_Bytes x = gm_Bytes m) as Hxb.
  { intros Hkx. unfold apply_to_object in Ha. rewrite Hkx, Eb in Ha.
    rewrite (bool_decide_eq_false_2 (gm_Bytes m = "")) in Ha by done. simpl in Ha.
    destruct (decide (gm_Bytes m = gm_Bytes x)); [done|]. by rewrite bool_decide_eq_false_2 in Ha by done. }
  apply elem_of_cons in Hm' as [->|Hm']; [by apply Hxb|]. apply (IH (effect o x)); [|done|by eexists|done|done].
  unfold effect. destruct (gm_Kind x); simpl; try done; [by case_match|by apply Hxb].
Qed.

Lemma hash_remembered ms : ∀ o h, is_Some (ob_SetByHash o !! h) → is_Some (key_run t (Some o) ms) →
  ∀ m', m' ∈ ms → gm_Kind m' = groundhogOrderedSetInsert → gm_Hash m' ≠ h.
Proof.
  induction ms as [|x ms IH]; intros o h Hh [r Hr] m' Hm' Hk'; [by apply elem_of_nil in Hm'|].
  simpl in Hr. destruct (apply_object t (Some o) x) as [o'|] eqn:E; [|done].
  apply apply_object_some in E as (_ & Ha & ->). apply elem_of_cons in Hm' as [->|Hm'].
  - intros <-. unfold apply_to_object in Ha. rewrite Hk' in Ha. by destruct Hh as [tag Hh]; rewrite Hh in Ha.
  - apply (IH (effect o x)); [|by eexists|done|done].
    unfold effect. destruct (gm_Kind x); simpl; try done; [by case_match|].
    rewrite lookup_insert. case_decide; [by eexists|done].
Qed.

Lemma key_run_together ms : ∀ o, Forall mod_ok ms → is_Some (key_run t (Some o) ms) →
  ∀ m1 m2, m1 ∈ ms → m2 ∈ ms → m1 ≠ m2 → together m1 m2.
Proof.
  assert (∀ m1 m2, together m1 m2 → together m2 m1) as Hsym.
  { intros m1 m2 [H1 H2]. split; [naive_solver|]. intros ? ? ?. by apply H2. }
  induction ms as [|m ms IH]; intros o Hok [r Hr] m1 m2 H1 H2 Hne; [by apply elem_of_nil in H1|].
  simpl in Hr. destruct (apply_object t (Some o) m) as [o'|] eqn:E; [|done].
  apply apply_object_some in E as (_ & _ & ->). apply Forall_cons in Hok as [Hm Hok].
  assert (∀ m', m' ∈ ms → together m m') as Hhead.
  { intros m' Hm'. split.
    - intros Hk Hk'. symmetry. by eapply effect_remembers; eauto.
    - intros Hk Hk'. apply not_eq_sym. eapply (hash_remembered ms (effect o m)); eauto.
      unfold effect. rewrite Hk. simpl. rewrite lookup_insert_eq. by eexists. }
  apply elem_of_cons in H1 as [->|H1], H2 as [->|H2]; [done|by apply Hhead|by apply Hsym, Hhead|].
  by apply (IH (effect o m)); [done|by eexists|..].
Qed.

(** The object a key ends with does not depend on the order. *)
Lemma key_run_perm k ms1 ms2 r1 r2 :
  ms1 ≡ₚ ms2 → Forall mod_ok ms1 → Forall (λ m, gm_Key m = k) ms1 →
  key_run t None ms1 = Some r1 → key_run t None ms2 = Some r2 → r1 = r2.
Proof.
  intros Hp Hok Hk H1 H2.
  destruct ms1 as [|m1 ms1]; [apply Permutation_nil_l in Hp; subst; simpl in *; congruence|].
  destruct ms2 as [|m2 ms2]; [symmetry in Hp; by apply Permutation_nil_cons in Hp|].
  assert (Forall (λ m, gm_Key m = k) (m2 :: ms2)) as Hk2 by (by rewrite <- Hp).
  apply Forall_cons in Hk as [Hk1 Hk1'], Hk2 as [Hk2 Hk2'].
  destruct (key_run_start _ _ _ H1) as [R1 S1].
  { eapply Forall_impl; [exact Hk1'|]. simpl. congruence. }
  destruct (key_run_start _ _ _ H2) as [R2 _].
  { eapply Forall_impl; [exact Hk2'|]. simpl. congruence. }
  rewrite (S1 m2) in R2 by (rewrite Hp; left).
  rewrite (key_run_effects _ _ _ R1), (key_run_effects _ _ _ R2). f_equal.
  apply effects_perm; [done|]. apply (key_run_together _ (newObject t m1)); [done|by eexists].
Qed.
End key.
