(* ===== verification/GroundhogOrder.v ===== *)
(** * The Groundhog executor in two orders

    Two runs of a block may reserve its transactions in different orders and visit
    Go maps in different orders. The attempts of the two runs agree up to the text
    of their errors, and so do the tables they fill. *)
From S2P Require Import Prelude GoStd GoJson Tx Block StateRoot Serial SerialProps WorkerPool Groundhog GroundhogProps.
Local Open Scope N_scope.
#[local] Opaque Sha256.sum256 sha256_hex Json.marshal.

(** ** Tables *)

Lemma at_key_perm k ms1 ms2 : ms1 ≡ₚ ms2 → at_key k ms1 ≡ₚ at_key k ms2.
Proof. intros Hp. unfold at_key. by rewrite Hp. Qed.

Lemma apply_mods_perm t ms1 ms2 o1 o2 :
  ms1 ≡ₚ ms2 → Forall mod_ok ms1 →
  apply_mods t ∅ ms1 = Some o1 → apply_mods t ∅ ms2 = Some o2 → o1 = o2.
Proof.
  intros Hp Hok H1 H2. apply map_eq. intros k.
  pose proof (proj1 (apply_mods_keys _ _ _ _) H1 k) as K1.
  pose proof (proj1 (apply_mods_keys _ _ _ _) H2 k) as K2. rewrite lookup_empty in K1, K2.
  eapply (key_run_perm t k); [by apply (at_key_perm k)|..|exact K1|exact K2].
  - apply Forall_forall. intros m Hm. apply list_elem_of_filter in Hm as [_ Hm]. rewrite Forall_forall in Hok. auto.
  - apply Forall_forall. intros m Hm. by apply list_elem_of_filter in Hm as [? _].
Qed.

(** ** Normalizing *)

Lemma insert_stable_perm x l : insert_stable x l ≡ₚ x :: l.
Proof.
  induction l as [|y l IH]; simpl; [done|]. destruct (mod_before y x); [|done].
  rewrite IH. apply Permutation_swap.
Qed.

Lemma sort_stable_perm l : sort_stable l ≡ₚ l.
Proof. induction l as [|x l IH]; simpl; [done|]. by rewrite insert_stable_perm, IH. Qed.

(** Two results that agree up to the error's text and the order. *)
Definition same_result (r1 r2 : string + list groundhogModification) : Prop :=
  match r1, r2 with
  | inl _, inl _ => True
  | inr l1, inr l2 => l1 ≡ₚ l2
  | _, _ => False
  end.

Lemma emit_ints_perm ints keys1 keys2 :
  keys1 ≡ₚ keys2 → same_result (emit_ints ints keys1) (emit_ints ints keys2).
Proof.
  intros Hp. induction Hp as [|k l1 l2 Hp IH|x y l|l1 l2 l3 H1 IH1 H2 IH2]; simpl; [done|..].
  - destruct (int_mods k _); [done|]. unfold same_result in *. repeat case_match; simplify_eq; try done.
    by rewrite IH.
  - destruct (int_mods x _), (int_mods y _), (emit_ints ints l); try done. simpl.
    rewrite !(assoc (++)). apply Permutation_app_tail, Permutation_app_comm.
  - unfold same_result in *. repeat case_match; simplify_eq; try done. by etrans.
Qed.

Lemma normalize_order (O1 O2 : MapOrder) input :
  same_result (@normalizeGroundhogModifications O1 input) (@normalizeGroundhogModifications O2 input).
Proof.
  unfold normalizeGroundhogModifications. destruct (normalize_all _ input) as [err|n]; [done|].
  assert (∀ V (m : gmap string V), @range_keys O1 V m ≡ₚ @range_keys O2 V m) as Hr.
  { intros V m. by rewrite !range_keys_perm. }
  pose proof (emit_ints_perm (nz_ints n) _ _ (Hr _ (nz_ints n))) as He. unfold same_result in *.
  destruct (emit_ints _ _), (emit_ints _ _); try done.
  rewrite !sort_stable_perm. apply Permutation_app; [done|]. apply Permutation_app_tail.
  by rewrite (Hr _ (nz_bytes n)).
Qed.

Lemma range_keys_defined `{MapOrder} {V} (m : gmap string V) : Forall (λ k, is_Some (m !! k)) (range_keys m).
Proof.
  rewrite range_keys_perm. apply Forall_fmap, Forall_forall. intros [k v] Hk.
  apply elem_of_map_to_list in Hk. by eexists.
Qed.

(** Byte values stay non-empty, the bases of integers keep a property, and the
    accumulated additions are [int64] values. *)
Section output.
Context (B : string → Z → Prop).

(** Balances are integers. *)
Definition balance_ok (m : groundhogModification) : Prop :=
  has_prefix (gm_Key m) "balance:" = true → gm_Kind m = groundhogIntegerAdd.

Definition mod_in (m : groundhogModification) : Prop :=
  (mod_ok m ∧ balance_ok m) ∧ (gm_Kind m = groundhogIntegerAdd → B (gm_Key m) (gm_BaseInt m)).
Definition mod_out (m : groundhogModification) : Prop :=
  (mod_ok m ∧ balance_ok m) ∧ (gm_Kind m = groundhogIntegerAdd → B (gm_Key m) (gm_BaseInt m) ∧ in_i64 (gm_Delta m)).

Definition accumulation_ok (key : string) (a : integerAccumulation) : Prop :=
  B key (ia_BaseInt a) ∧ in_i64 (ia_Positive a) ∧ in_i64 (ia_Negative a).

Definition normalizing_ok (n : normalizing) : Prop :=
  map_Forall accumulation_ok (nz_ints n) ∧
  map_Forall (λ _ m, (mod_ok m ∧ balance_ok m) ∧ gm_Kind m ≠ groundhogIntegerAdd) (nz_bytes n) ∧
  Forall (λ m, (mod_ok m ∧ balance_ok m) ∧ gm_Kind m ≠ groundhogIntegerAdd) (nz_others n).

Lemma add_int64_in a b r overflow : groundhogAddInt64 a b = (r, overflow) → in_i64 r.
Proof using Type.
  unfold groundhogAddInt64, i64_add. intros H. case_match; simplify_eq; [unfold in_i64, min_int64, max_int64; lia|].
  unfold in_i64, i64_wrap, min_int64, max_int64. pose proof (Z.mod_pos_bound (a + b + 2 ^ 63) (2 ^ 64)). lia.
Qed.

Lemma zero_in : in_i64 0.
Proof using Type. unfold in_i64, min_int64, max_int64. lia. Qed.

Lemma normalize_one_ok n m n' : normalizing_ok n → mod_in m → normalize_one n m = inr n' → normalizing_ok n'.
Proof using Type.
  intros (Hi & Hb & Ho) [Hm Hmb] H. unfold normalize_one in H.
  assert (gm_Kind m = groundhogIntegerAdd →
    accumulation_ok (gm_Key m) (default (MkAccumulation (gm_BaseInt m) 0 0) (nz_ints n !! gm_Key m))) as Hd.
  { intros Hk. destruct (nz_ints n !! gm_Key m) as [a|] eqn:E; simpl; [by eapply Hi|].
    split_and!; [by apply Hmb|apply zero_in..]. }
  destruct (gm_Kind m) eqn:Hk; [destruct (Hd eq_refl) as (? & ? & ?)|..];
    repeat case_match; simplify_eq; try done; split_and!; simpl; try done;
    try (apply Forall_app; split; [done|]; constructor; [|constructor]; rewrite Hk; by split);
    apply map_Forall_insert_2; try done; try (by rewrite Hk);
    split_and!; simpl; try done; by eapply add_int64_in.
Qed.

Lemma normalize_all_ok ms : ∀ n n', normalizing_ok n → Forall mod_in ms → normalize_all n ms = inr n' → normalizing_ok n'.
Proof using Type.
  induction ms as [|m ms IH]; intros n n' Hn Hms H; simpl in H; [by simplify_eq|].
  destruct (normalize_one n m) as [|n1] eqn:E; [done|]. apply Forall_cons in Hms as [Hm Hms].
  eapply IH; [|done..]. by eapply normalize_one_ok.
Qed.

Lemma int_mods_ok key a ms : accumulation_ok key a → int_mods key a = inr ms → Forall mod_out ms.
Proof using Type.
  unfold int_mods. intros (Hb & Hp & Hn) H. repeat (case_match; [done|]). simplify_eq.
  rewrite !Forall_app. repeat split; case_match; repeat constructor; try done; simpl;
    try apply Hn; try apply Hp; apply zero_in.
Qed.

Lemma emit_ints_ok ints keys : map_Forall accumulation_ok ints → Forall (λ k, is_Some (ints !! k)) keys →
  ∀ ms, emit_ints ints keys = inr ms → Forall mod_out ms.
Proof using Type.
  intros Hi. induction 1 as [|k keys [a Ek] _ IH]; intros ms H; simpl in H; [by simplify_eq|].
  destruct (int_mods k _) as [|ms1] eqn:E1; [done|]. destruct (emit_ints ints keys) as [|ms2]; [done|].
  simplify_eq. apply Forall_app. split; [|by apply IH]. eapply int_mods_ok; [|exact E1].
  rewrite Ek. by eapply Hi.
Qed.

Lemma normalize_ok `{MapOrder} input ms :
  Forall mod_in input → normalizeGroundhogModifications input = inr ms → Forall mod_out ms.
Proof using Type.
  intros Hi Hn. unfold normalizeGroundhogModifications in Hn.
  destruct (normalize_all _ input) as [|n] eqn:En; [done|].
  apply normalize_all_ok in En as (Hint & Hb & Ho); [|by split_and!; try apply map_Forall_empty|done].
  destruct (emit_ints _ _) as [|ints] eqn:Ei; [done|]. simplify_eq. rewrite sort_stable_perm, !Forall_app.
  assert (∀ m, (mod_ok m ∧ balance_ok m) ∧ gm_Kind m ≠ groundhogIntegerAdd → mod_out m) as Hout.
  { intros m [? ?]. split; [done|]. by intros. }
  split_and!; [by eapply emit_ints_ok; [..|exact Ei]; [|apply range_keys_defined]| |by eapply Forall_impl]. apply Forall_forall. intros m Hm.
  apply list_elem_of_omap in Hm as (k & _ & Hk). apply Hout. by eapply Hb.
Qed.

(** ** Attempts *)

Context (b : Block) (base : gmap string string).
Hypothesis B_parse : ∀ key, B key (groundhogParseInt (base_value b base key) 0).

Lemma access_mods_in item a ms :
  has_prefix (ai_Key a) "balance:" = false → access_mods item a (base_value b base (ai_Key a)) = inr ms → Forall mod_in ms.
Proof using B_parse.
  unfold access_mods. intros Hb H. repeat case_match; simplify_eq; repeat constructor; intros Hk; simpl in *;
    first [done | congruence | apply sha256_hex_nonempty | apply B_parse].
Qed.

Lemma interpret_accesses_in item accesses : ∀ reads mods reads' ms,
  Forall mod_in mods → interpret_accesses b base item accesses reads mods = (reads', inr ms) → Forall mod_in ms.
Proof using B_parse.
  induction accesses as [|a rest IH]; intros reads mods reads' ms Hm H; simpl in H; [by simplify_eq|].
  destruct (ai_Key a ≟ ""); [by eapply IH|]. destruct (_ || _) eqn:Ep; [by eapply IH|].
  destruct (access_mods item a _) as [|ms1] eqn:E; [done|]. eapply IH; [|exact H].
  apply Forall_app. split; [done|]. apply orb_false_iff in Ep as [Ep _]. apply orb_false_iff in Ep as [_ Ep].
  by eapply access_mods_in.
Qed.

Context (e : GroundhogExecutor).
Hypothesis B_initial : ∀ key, B key (groundhogParseInt (base_value b base key) (gh_DefaultInitialBalance e)).

Lemma interpret_transfer_in item reads ms :
  interpret_transfer e b base item = (reads, inr ms) → Forall mod_in ms.
Proof using B_parse B_initial.
  unfold interpret_transfer. intros H. repeat case_match; simplify_eq; repeat constructor; intros Hk; simpl in *;
    first [done | apply B_initial | apply B_parse].
Qed.

Lemma interpret_out `{MapOrder} index item :
  Forall mod_out (ga_Modifications (interpretTransaction e b base index item)).
Proof using B_parse B_initial.
  unfold interpretTransaction. destruct (_ || _); [constructor|].
  destruct (interpret_transfer e b base item) as [reads [|ms]] eqn:E1; [constructor|].
  destruct (interpret_accesses _ _ _ _ _ _) as [reads' [|ms']] eqn:E2; [constructor|].
  destruct (normalizeGroundhogModifications ms') as [|ms2] eqn:E3; [constructor|]. simpl.
  eapply normalize_ok; [|exact E3]. eapply interpret_accesses_in; [|exact E2].
  by eapply interpret_transfer_in.
Qed.
End output.

Lemma interpret_bytes `{MapOrder} e b base index item :
  Forall mod_ok (ga_Modifications (interpretTransaction e b base index item)).
Proof. eapply Forall_impl; [by apply (interpret_out (λ _ _, True))|]. by intros m [[? _] _]. Qed.

Lemma parse_int_in value fallback : in_i64 fallback → in_i64 (groundhogParseInt value fallback).
Proof.
  intros Hf. unfold groundhogParseInt. destruct (_ ≟ ""); [done|].
  destruct (parse_int value) as [n err] eqn:E. destruct err; try done. unfold parse_int in E.
  destruct (match value with String "-" _ => _ | _ => _ end) as [neg body].
  destruct (parse_uint body) as [un err]. change (2 ^ 63)%N with 9223372036854775808%N in E. unfold in_i64, min_int64, max_int64.
  destruct err; [|done|]; destruct neg; simpl in E;
    repeat match goal with E : (if ?c then _ else _) = _ |- _ => destruct c eqn:? end; simplify_eq;
    repeat match goal with
    | H : (_ <? _) = false |- _ => apply N.ltb_ge in H
    | H : (_ <=? _) = false |- _ => apply N.leb_gt in H
    end; lia.
Qed.

Definition int64_base (key : string) (z : Z) : Prop := in_i64 z.

Lemma interpret_ints `{MapOrder} e b base index item : in_i64 (gh_DefaultInitialBalance e) →
  Forall (mod_out int64_base) (ga_Modifications (interpretTransaction e b base index item)).
Proof. intros He. apply interpret_out; intros key; unfold int64_base; auto using parse_int_in, zero_in. Qed.

(** Attempts that agree up to the text of the error. *)
Definition attempts_alike (a1 a2 : groundhogAttempt) : Prop :=
  ga_Index a1 = ga_Index a2 ∧ ga_Tx a1 = ga_Tx a2 ∧ ga_Reads a1 = ga_Reads a2 ∧
  ga_Modifications a1 ≡ₚ ga_Modifications a2 ∧
  (ga_TerminalError a1 = "" ↔ ga_TerminalError a2 = "").

Lemma normalize_all_error ms : ∀ n err, normalize_all n ms = inl err → err ≠ "".
Proof.
  induction ms as [|m ms IH]; intros n err H; simpl in H; [done|].
  destruct (normalize_one n m) as [e|] eqn:E; [|by eapply IH]. simplify_eq.
  unfold normalize_one in E. repeat case_match; by simplify_eq.
Qed.

Lemma emit_ints_error ints keys : ∀ err, emit_ints ints keys = inl err → err ≠ "".
Proof.
  induction keys as [|k keys IH]; intros err H; simpl in H; [done|].
  destruct (int_mods k _) as [e|] eqn:E.
  - simplify_eq. unfold int_mods in E. repeat case_match; by simplify_eq.
  - destruct (emit_ints ints keys) eqn:E2; [|done]. simplify_eq. by eapply IH.
Qed.

Lemma normalize_error `{MapOrder} ms err : normalizeGroundhogModifications ms = inl err → err ≠ "".
Proof.
  unfold normalizeGroundhogModifications. destruct (normalize_all _ ms) as [e|n] eqn:E.
  - intros H'. simplify_eq. by eapply normalize_all_error.
  - destruct (emit_ints _ _) eqn:E2; [|done]. intros H'. simplify_eq. by eapply emit_ints_error.
Qed.

Lemma interpret_alike (O1 O2 : MapOrder) e b base index item :
  attempts_alike (@interpretTransaction O1 e b base index item) (@interpretTransaction O2 e b base index item).
Proof.
  unfold interpretTransaction. destruct (_ || _); [done|].
  destruct (interpret_transfer e b base item) as [reads [|ms]]; [done|].
  destruct (interpret_accesses _ _ _ _ _ _) as [reads' [|ms']]; [done|].
  pose proof (normalize_order O1 O2 ms') as Hn. unfold same_result in Hn.
  destruct (@normalizeGroundhogModifications O1 ms') as [err1|ms1] eqn:E1,
    (@normalizeGroundhogModifications O2 ms') as [err2|ms2] eqn:E2; try done.
  apply normalize_error in E1, E2. split_and!; try done.
Qed.
