(* ===== verification/GroundhogAccept.v ===== *)
(** * Which blocks the Groundhog executor accepts

    What the modifications of one key must satisfy to be reserved one after the
    other, as conditions that do not mention the order. *)
From S2P Require Import Prelude GoStd GoJson Tx Block StateRoot Serial SerialProps WorkerPool Groundhog GroundhogProps GroundhogOrder.
Local Open Scope N_scope.
#[local] Opaque Sha256.sum256 sha256_hex Json.marshal.

(** ** Integers *)

Definition sum_neg (ms : list groundhogModification) : Z :=
  foldr (λ m s, Z.min 0 (gm_Delta m) + s)%Z 0%Z ms.
Definition sum_pos (ms : list groundhogModification) : Z :=
  foldr (λ m s, Z.max 0 (gm_Delta m) + s)%Z 0%Z ms.

Lemma sum_neg_nonpos ms : (sum_neg ms <= 0)%Z.
Proof. induction ms; simpl; lia. Qed.
Lemma sum_pos_nonneg ms : (0 <= sum_pos ms)%Z.
Proof. induction ms; simpl; lia. Qed.
Lemma sum_neg_perm ms1 ms2 : ms1 ≡ₚ ms2 → sum_neg ms1 = sum_neg ms2.
Proof. induction 1; simpl; lia. Qed.
Lemma sum_pos_perm ms1 ms2 : ms1 ≡ₚ ms2 → sum_pos ms1 = sum_pos ms2.
Proof. induction 1; simpl; lia. Qed.

(** An object whose sums are [int64] values and leave a non-negative balance. *)
Definition int_object_ok (o : groundhogObject) : Prop :=
  ob_Kind o = groundhogIntegerAdd ∧ (0 <= ob_BaseInt o)%Z ∧ in_i64 (ob_BaseInt o) ∧
  in_i64 (ob_PositiveDelta o) ∧ in_i64 (ob_NegativeDelta o) ∧
  (groundhogFinalIntValue (ob_BaseInt o) (ob_NegativeDelta o) (ob_PositiveDelta o)).2 = false.

Definition int_mod (base : Z) (m : groundhogModification) : Prop :=
  gm_Kind m = groundhogIntegerAdd ∧ gm_BaseInt m = base ∧ in_i64 (gm_Delta m).

Lemma int_object_bounds o : int_object_ok o →
  (0 <= ob_BaseInt o ∧ ob_NegativeDelta o <= 0 ∧ 0 <= ob_BaseInt o + ob_NegativeDelta o ∧
   0 <= ob_PositiveDelta o ∧ ob_BaseInt o + ob_NegativeDelta o + ob_PositiveDelta o <= max_int64)%Z.
Proof. intros (_ & _ & Hb & Hp & Hn & Hf). by apply final_spec in Hf. Qed.

(** What a successful addition does to the object. *)
Lemma apply_int_some o m o' :
  int_object_ok o → int_mod (ob_BaseInt o) m → apply_to_object o m = inr o' →
  int_object_ok o' ∧ ob_BaseInt o' = ob_BaseInt o ∧
  ob_NegativeDelta o' = (ob_NegativeDelta o + Z.min 0 (gm_Delta m))%Z ∧
  ob_PositiveDelta o' = (ob_PositiveDelta o + Z.max 0 (gm_Delta m))%Z.
Proof.
  intros (Hk & Hb0 & Hb & Hp & Hn & Hf) (Hmk & Hmb & Hd) H. unfold apply_to_object, apply_int in H.
  rewrite Hmk in H. destruct (bool_decide (ob_BaseInt o = gm_BaseInt m)); simpl in H; [|done].
  destruct (Z.ltb_spec (ob_BaseInt o) 0); [done|]. destruct (Z.ltb_spec (gm_Delta m) 0).
  - destruct (groundhogAddInt64 _ _) as [next [|]] eqn:E; [done|]. apply add_int64_value in E as [-> E]; [|done..].
    destruct (groundhogWouldUnderflowNonnegative _ _); [done|].
    destruct ((groundhogFinalIntValue _ (_ + _)%Z _).2) eqn:F; [done|]. simplify_eq. unfold int_object_ok. simpl.
    split_and!; try done; try (unfold in_i64 in *; lia).
  - destruct (groundhogAddInt64 _ _) as [next [|]] eqn:E; [done|]. apply add_int64_value in E as [-> E]; [|done..].
    destruct ((groundhogFinalIntValue _ _ (_ + _)%Z).2) eqn:F; [done|]. simplify_eq. unfold int_object_ok. simpl.
    split_and!; try done; try (unfold in_i64 in *; lia).
Qed.

(** An addition the object has room for is not refused. *)
Lemma apply_int_room o m :
  int_object_ok o → int_mod (ob_BaseInt o) m →
  (0 <= ob_BaseInt o + (ob_NegativeDelta o + Z.min 0 (gm_Delta m)))%Z →
  (ob_BaseInt o + (ob_PositiveDelta o + Z.max 0 (gm_Delta m)) <= max_int64)%Z →
  ∃ o', apply_to_object o m = inr o'.
Proof.
  intros Ho (Hmk & Hmb & Hd) H1 H2. pose proof (int_object_bounds _ Ho) as B.
  destruct Ho as (Hk & Hb0 & Hb & Hp & Hn & Hf). unfold apply_to_object, apply_int.
  rewrite Hmk, bool_decide_eq_true_2 by done. simpl. rewrite (proj2 (Z.ltb_ge _ _)) by lia.
  unfold in_i64, min_int64, max_int64 in *. destruct (Z.ltb_spec (gm_Delta m) 0).
  - assert (in_i64 (ob_NegativeDelta o + gm_Delta m)) as Hi by (unfold in_i64, min_int64, max_int64; lia).
    rewrite add_int64_spec, decide_True by done. rewrite (proj2 (underflow_spec _ _ Hb Hi)) by lia.
    rewrite (proj2 (final_spec _ _ _ Hb Hi Hp)); [by eexists|]. unfold max_int64. lia.
  - assert (in_i64 (ob_PositiveDelta o + gm_Delta m)) as Hi by (unfold in_i64, min_int64, max_int64; lia).
    rewrite add_int64_spec, decide_True by done.
    rewrite (proj2 (final_spec _ _ _ Hb Hn Hi)); [by eexists|]. unfold max_int64. lia.
Qed.

Section key.
Context (t : groundhogReservationTable).

Lemma apply_object_int o m : int_object_ok o → int_mod (ob_BaseInt o) m →
  apply_object t (Some o) m = match apply_to_object o m with inl _ => None | inr o' => Some o' end.
Proof. intros (Hk & _) (Hmk & _). unfold apply_object. rewrite Hk, Hmk. done. Qed.

(** Integers that are accepted: the sums, and that withdrawals are covered by the
    value at the start of the block. *)
Lemma key_run_int ms : ∀ o r, int_object_ok o → Forall (int_mod (ob_BaseInt o)) ms →
  key_run t (Some o) ms = Some r →
  ∃ o', r = Some o' ∧ int_object_ok o' ∧ ob_BaseInt o' = ob_BaseInt o ∧
    ob_NegativeDelta o' = (ob_NegativeDelta o + sum_neg ms)%Z ∧
    ob_PositiveDelta o' = (ob_PositiveDelta o + sum_pos ms)%Z.
Proof.
  induction ms as [|m ms IH]; intros o r Ho Hms H; simpl in *.
  { simplify_eq. exists o. rewrite !Z.add_0_r. done. }
  apply Forall_cons in Hms as [Hm Hms]. rewrite apply_object_int in H by done.
  destruct (apply_to_object o m) as [|o1] eqn:E; [done|].
  destruct (apply_int_some _ _ _ Ho Hm E) as (Ho1 & Eb & En & Ep). rewrite <- Eb in Hms.
  destruct (IH _ _ Ho1 Hms H) as (o' & -> & Ho' & Eb' & En' & Ep').
  exists o'. split_and!; [done..|congruence|lia|lia].
Qed.

Lemma key_run_int_room ms : ∀ o, int_object_ok o → Forall (int_mod (ob_BaseInt o)) ms →
  (0 <= ob_BaseInt o + (ob_NegativeDelta o + sum_neg ms))%Z →
  (ob_BaseInt o + (ob_PositiveDelta o + sum_pos ms) <= max_int64)%Z →
  is_Some (key_run t (Some o) ms).
Proof.
  induction ms as [|m ms IH]; intros o Ho Hms H1 H2; simpl in *; [by eexists|].
  apply Forall_cons in Hms as [Hm Hms]. rewrite apply_object_int by done.
  pose proof (sum_neg_nonpos ms). pose proof (sum_pos_nonneg ms).
  destruct (apply_int_room o m Ho Hm) as [o1 E]; [lia..|]. rewrite E.
  destruct (apply_int_some _ _ _ Ho Hm E) as (Ho1 & Eb & En & Ep). rewrite <- Eb in Hms.
  apply IH; [done|done|lia|lia].
Qed.

(** ** Equal bytes *)

Lemma key_run_bytes_same v ms : v ≠ "" → ∀ o, ob_Kind o = groundhogBytesSet → ob_Bytes o = "" ∨ ob_Bytes o = v →
  Forall (λ m, gm_Kind m = groundhogBytesSet ∧ gm_Bytes m = v) ms → is_Some (key_run t (Some o) ms).
Proof.
  intros Hv. induction ms as [|m ms IH]; intros o Hk Hb Hms; simpl; [by eexists|].
  apply Forall_cons in Hms as [[Hmk Hmb] Hms]. unfold apply_object, apply_to_object. rewrite Hk, Hmk. simpl.
  assert ((ob_Bytes o ≠? "") && (ob_Bytes o ≠? gm_Bytes m) = false) as ->.
  { rewrite Hmb. destruct Hb as [-> | ->]; simpl; [done|]. rewrite (bool_decide_eq_true_2 (v = v)) by done.
    by rewrite andb_false_r. }
  apply IH; simpl; auto.
Qed.

(** ** Sets whose limit does not grow *)

Definition inserted_hashes (ms : list groundhogModification) : list string :=
  gm_Hash <$> filter (λ m, gm_Kind m = groundhogOrderedSetInsert) ms.

Definition fixed_set_mod (m : groundhogModification) : Prop :=
  gm_Kind m = groundhogOrderedSetInsert ∨ gm_Kind m = groundhogOrderedSetClear.

Lemma inserted_hashes_perm ms1 ms2 : ms1 ≡ₚ ms2 → inserted_hashes ms1 ≡ₚ inserted_hashes ms2.
Proof. intros Hp. unfold inserted_hashes. by rewrite Hp. Qed.

Lemma key_run_set ms : ∀ o, ob_Kind o = groundhogOrderedSetInsert → Forall fixed_set_mod ms →
  is_Some (key_run t (Some o) ms) ↔
  NoDup (inserted_hashes ms) ∧ (∀ h, h ∈ inserted_hashes ms → ob_SetByHash o !! h = None) ∧
  (inserted_hashes ms = [] ∨ Z.of_nat (size (ob_SetByHash o) + length (inserted_hashes ms)) <= os_Limit (ob_Set o))%Z.
Proof.
  induction ms as [|m ms IH]; intros o Hk Hms.
  { split; [|by eexists]. intros _. split_and!; [constructor| |by left]. intros h Hh. by apply elem_of_nil in Hh. }
  apply Forall_cons in Hms as [Hm Hms]. simpl. unfold apply_object, inserted_hashes. rewrite filter_cons.
  destruct Hm as [Hm|Hm].
  - rewrite decide_True, fmap_cons by done. fold (inserted_hashes ms). rewrite Hk, Hm. cbn -[key_run].
    unfold apply_to_object. rewrite Hm. destruct (ob_SetByHash o !! gm_Hash m) as [tag|] eqn:Eh.
    { simpl. split; [by intros [? ?]|]. intros (_ & Hn & _). rewrite Hn in Eh by left. done. }
    cbn -[key_run]. destruct (Z.leb_spec (os_Limit (ob_Set o)) (Z.of_nat (size (ob_SetByHash o)))) as [Hl|Hl].
    { split; [by intros [? ?]|]. intros (_ & _ & [?|?]); [done|]. lia. }
    change (negb (groundhogKindsCompatible groundhogOrderedSetInsert groundhogOrderedSetInsert)) with false.
    cbv iota. rewrite IH by done. cbn [set_set ob_SetByHash ob_Set]. rewrite map_size_insert_None by done.
    rewrite NoDup_cons. split.
    + intros (Hd & Hf & Hs). split_and!.
      * intros Hin. specialize (Hf _ Hin). by rewrite lookup_insert_eq in Hf.
      * done.
      * intros h [->|Hh]%elem_of_cons; [done|]. specialize (Hf h Hh). rewrite lookup_insert in Hf. by case_decide.
      * right. destruct Hs as [-> |Hs]; simpl; lia.
    + intros ((Hh & Hd) & Hf & [?|Hs]); [done|]. split_and!; [done| |right; simpl in Hs; lia].
      intros h Hin. rewrite lookup_insert_ne by (intros <-; done). apply Hf. by right.
  - rewrite decide_False by (by rewrite Hm). fold (inserted_hashes ms). rewrite Hk, Hm. cbn -[key_run].
    unfold apply_to_object. rewrite Hm.
    change (negb (groundhogKindsCompatible groundhogOrderedSetInsert groundhogOrderedSetClear)) with false.
    cbv iota. rewrite IH by done. done.
Qed.

(** ** One key in another order *)

(** No bound can be crossed in between: limits are fixed and the deposits alone do
    not overflow. *)
Definition roomy_key (ms : list groundhogModification) : Prop :=
  ∀ m, m ∈ ms → gm_Kind m ≠ groundhogOrderedSetGrow ∧
    (gm_Kind m = groundhogIntegerAdd → (gm_BaseInt m + sum_pos ms <= max_int64)%Z).

Lemma key_run_int_perm o ms1 ms2 :
  ms1 ≡ₚ ms2 → int_object_ok o → ob_NegativeDelta o = 0%Z → ob_PositiveDelta o = 0%Z →
  Forall (int_mod (ob_BaseInt o)) ms1 → (ob_BaseInt o + sum_pos ms1 <= max_int64)%Z →
  is_Some (key_run t (Some o) ms1) → is_Some (key_run t (Some o) ms2).
Proof.
  intros Hp Ho En Ep Hms Hr [r H1]. destruct (key_run_int _ _ _ Ho Hms H1) as (o' & -> & Ho' & Eb & En' & Ep').
  pose proof (int_object_bounds _ Ho') as B. apply key_run_int_room; [done|by rewrite <- Hp|..].
  - rewrite <- (sum_neg_perm _ _ Hp). lia.
  - rewrite <- (sum_pos_perm _ _ Hp). lia.
Qed.

Lemma key_run_bytes_perm o ms1 ms2 :
  ms1 ≡ₚ ms2 → ob_Kind o = groundhogBytesSet → ob_Bytes o = "" → Forall mod_ok ms1 →
  is_Some (key_run t (Some o) ms1) → is_Some (key_run t (Some o) ms2).
Proof.
  intros Hp Hk Hb Hok [r H1]. destruct ms2 as [|m ms2]; [by eexists|].
  assert (m ∈ ms1) as Hm by (rewrite Hp; left).
  assert (∀ x, x ∈ ms1 → gm_Kind x = groundhogBytesSet) as Hkinds.
  { intros x Hx. destruct (key_run_kinds _ _ _ _ H1 x Hx) as [Hc _]. rewrite Hk in Hc. by destruct (gm_Kind x). }
  apply (key_run_bytes_same (gm_Bytes m)); auto.
  - rewrite Forall_forall in Hok. by apply Hok, Hkinds.
  - apply Forall_forall. intros x Hx. rewrite <- Hp in Hx. split; [by apply Hkinds|].
    destruct (decide (x = m)) as [->|Hne]; [done|].
    destruct (key_run_together t _ o Hok (ex_intro _ _ H1) x m) as [Ht _]; auto.
Qed.

Lemma key_run_set_perm o ms1 ms2 :
  ms1 ≡ₚ ms2 → ob_Kind o = groundhogOrderedSetInsert → Forall fixed_set_mod ms1 →
  is_Some (key_run t (Some o) ms1) → is_Some (key_run t (Some o) ms2).
Proof.
  intros Hp Hk Hf. rewrite !key_run_set by (done || by rewrite <- Hp).
  pose proof (inserted_hashes_perm _ _ Hp) as Hh. intros (Hd & Hn & Hs). split_and!.
  - by rewrite <- Hh.
  - intros h Hi. apply Hn. by rewrite Hh.
  - rewrite <- (Permutation_length Hh). destruct Hs as [Hs|Hs]; [left|by right].
    rewrite Hs in Hh. by apply Permutation_nil_l in Hh.
Qed.

Lemma new_int_object m r ms : gm_Kind m = groundhogIntegerAdd → in_i64 (gm_BaseInt m) →
  key_run t None (m :: ms) = Some r → int_object_ok (newObject t m).
Proof.
  intros Hk Hb H. simpl in H. unfold apply_object, apply_to_object, apply_int, newObject in *. rewrite Hk in *. simpl in *.
  rewrite bool_decide_eq_true_2 in H by done. simpl in H. destruct (Z.ltb_spec (gm_BaseInt m) 0); [done|].
  unfold int_object_ok. simpl. split_and!; try done; try (unfold in_i64, min_int64, max_int64; lia).
  apply final_spec; try done; try (unfold in_i64, min_int64, max_int64; lia). unfold in_i64 in Hb. lia.
Qed.

Lemma key_run_accept k ms1 ms2 :
  ms1 ≡ₚ ms2 → Forall (mod_out int64_base) ms1 → Forall (λ m, gm_Key m = k) ms1 → roomy_key ms1 →
  is_Some (key_run t None ms1) → is_Some (key_run t None ms2).
Proof.
  intros Hp Hout Hk Hr [r H1].
  assert (Forall mod_ok ms1) as Hok by (eapply Forall_impl; [exact Hout|]; by intros ? [[? _] _]).
  destruct ms1 as [|m1 ms1]; [apply Permutation_nil_l in Hp; subst; by eexists|].
  destruct ms2 as [|m2 ms2]; [by eexists|].
  pose proof (Forall_cons_1 _ _ _ Hk) as [Hk1 Hk1'].
  destruct (key_run_start _ _ _ _ H1) as [R1 S1]; [eapply Forall_impl; [exact Hk1'|]; simpl; congruence|].
  assert (key_run t None (m2 :: ms2) = key_run t (Some (newObject t m1)) (m2 :: ms2)) as ->.
  { rewrite <- (S1 m2) by (rewrite Hp; left). done. }
  pose proof (key_run_kinds _ _ _ _ R1) as Hc. pose proof (Forall_cons_1 _ _ _ Hout) as [[_ Hi1] _].
  rewrite Forall_forall in Hout.
  destruct (gm_Kind m1) eqn:E1.
  - assert (ob_Kind (newObject t m1) = groundhogIntegerAdd) as Ek by (unfold newObject; by rewrite E1).
    assert (ob_BaseInt (newObject t m1) = gm_BaseInt m1) as Eb by (unfold newObject; by rewrite E1).
    apply (key_run_int_perm _ (m1 :: ms1)); try done; try (unfold newObject; by rewrite E1).
    + eapply new_int_object; [done|by apply Hi1|exact H1].
    + apply Forall_forall. intros m Hm. destruct (Hc m Hm) as [Hcm Hbm]. rewrite Ek in Hcm.
      destruct (gm_Kind m) eqn:Em; try done. split_and!; [done|by apply Hbm|]. by apply Hout.
    + rewrite Eb. apply Hr; [left|done].
  - apply (key_run_bytes_perm _ (m1 :: ms1)); try done; try (unfold newObject; by rewrite E1).
  - apply (key_run_set_perm _ (m1 :: ms1)); try done; try (unfold newObject; by rewrite E1).
    apply Forall_forall. intros m Hm. destruct (Hc m Hm) as [Hcm _], (Hr m Hm) as [Hg _].
    unfold newObject in Hcm. rewrite E1 in Hcm. unfold fixed_set_mod. destruct (gm_Kind m); simpl in Hcm; tauto || done.
  - apply (key_run_set_perm _ (m1 :: ms1)); try done; try (unfold newObject; by rewrite E1).
    apply Forall_forall. intros m Hm. destruct (Hc m Hm) as [Hcm _], (Hr m Hm) as [Hg _].
    unfold newObject in Hcm. rewrite E1 in Hcm. unfold fixed_set_mod. destruct (gm_Kind m); simpl in Hcm; tauto || done.
  - destruct (Hr m1) as [Hg _]; [left|done].
Qed.
End key.

(** ** Tables in another order *)

Definition roomy (ms : list groundhogModification) : bool :=
  forallb (λ m, (gm_Kind m ≠? groundhogOrderedSetGrow) &&
    ((gm_Kind m ≠? groundhogIntegerAdd) ||
     (gm_BaseInt m + sum_pos (at_key (gm_Key m) ms) <=? max_int64)%Z)) ms.

Lemma roomy_at ms k : roomy ms = true → roomy_key (at_key k ms).
Proof.
  unfold roomy. rewrite forallb_forall. intros H m Hm. apply list_elem_of_filter in Hm as [<- Hm].
  apply list_elem_of_In in Hm. specialize (H m Hm). apply andb_true_iff in H as [H1 H2].
  apply negb_true_iff, bool_decide_eq_false in H1. split; [done|]. intros Hk.
  rewrite Hk in H2. simpl in H2. by apply Z.leb_le.
Qed.

Lemma roomy_perm ms1 ms2 : ms1 ≡ₚ ms2 → roomy ms1 = roomy ms2.
Proof.
  intros Hp. apply eq_true_iff_eq. unfold roomy. rewrite !forallb_forall.
  assert (∀ k, sum_pos (at_key k ms1) = sum_pos (at_key k ms2)) as Hs.
  { intros k. by apply sum_pos_perm, at_key_perm. }
  split; intros H m Hm; apply list_elem_of_In in Hm; [rewrite <- Hs, <- Hp in *|rewrite Hs, Hp in *];
    by apply H, list_elem_of_In.
Qed.

Lemma apply_mods_accept t ms1 ms2 :
  ms1 ≡ₚ ms2 → Forall (mod_out int64_base) ms1 → roomy ms1 = true →
  is_Some (apply_mods t ∅ ms1) → is_Some (apply_mods t ∅ ms2).
Proof.
  intros Hp Hout Hr [o1 H1].
  assert (∀ k, is_Some (key_run t None (at_key k ms2))) as Hk.
  { intros k. apply (key_run_accept t k (at_key k ms1)); [by apply at_key_perm| | |by apply roomy_at|].
    - apply Forall_forall. intros m [_ Hm]%list_elem_of_filter. rewrite Forall_forall in Hout. auto.
    - apply Forall_forall. by intros m [? _]%list_elem_of_filter.
    - pose proof (proj1 (apply_mods_keys _ _ _ _) H1 k) as K. rewrite lookup_empty in K. by eexists. }
  clear -Hk. assert (∀ k, is_Some (key_run t ((∅ : gmap string groundhogObject) !! k) (at_key k ms2))) as H'.
  { intros k. by rewrite lookup_empty. }
  clear Hk. revert H'. generalize (∅ : gmap string groundhogObject). induction ms2 as [|m ms IH]; intros ob H'.
  { by eexists. }
  simpl. pose proof (H' (gm_Key m)) as [r Hm]. unfold at_key in Hm. rewrite filter_cons, decide_True in Hm by done.
  simpl in Hm. destruct (apply_object t _ m) as [o|] eqn:E; [|done]. apply IH. intros k.
  specialize (H' k). unfold at_key in H'. rewrite filter_cons in H'. rewrite lookup_insert.
  destruct (decide (gm_Key m = k)) as [<-|Hne]; [|done]. simpl in H'. by rewrite E in H'.
Qed.
