(* ===== verification/GroundhogTheorems.v ===== *)
(** * The Groundhog executor: one result whatever the schedule *)
From S2P Require Import Prelude GoStd GoJson Tx Block StateRoot Serial SerialProps WorkerPool Groundhog GroundhogProps GroundhogOrder GroundhogAccept.
Local Open Scope N_scope.
#[local] Opaque Sha256.sum256 sha256_hex Json.marshal.

(** ** The attempts of a block *)

Definition attempts_of `{MapOrder} (e : GroundhogExecutor) (b : Block) (base : gmap string string)
    (items : list SignedTransaction) : list groundhogAttempt :=
  imap (λ i item, interpretTransaction e b base (Z.of_nat i) item) items.

Lemma executeAttempts_results `{MapOrder} e b base items workers cs cancelled cancelled' attempts :
  executeAttempts e b base items workers cs cancelled = Some (cancelled', Some attempts) →
  attempts = attempts_of e b base items.
Proof.
  unfold executeAttempts, attempts_of. destruct items as [|item0 items]; [intros Hr; by simplify_eq|].
  set (l := item0 :: items). intros Hr. apply run_pool_results in Hr as [_ ->].
  apply list_eq. intros i. rewrite list_lookup_fmap, list_lookup_imap.
  destruct (decide (i < length l)%nat) as [Hi|Hi].
  - rewrite lookup_seq_lt by done. simpl. destruct (lookup_lt_is_Some_2 l i Hi) as [x Hx].
    by rewrite Hx.
  - rewrite lookup_seq_ge by lia. by rewrite lookup_ge_None_2 by lia.
Qed.

Lemma attempts_of_alike (O1 O2 : MapOrder) e b base items :
  Forall2 attempts_alike (@attempts_of O1 e b base items) (@attempts_of O2 e b base items).
Proof.
  unfold attempts_of. apply Forall2_lookup. intros i. rewrite !list_lookup_imap.
  destruct (items !! i) as [item|]; simpl; constructor. apply interpret_alike.
Qed.

(** ** The modifications of two runs *)

Lemma mods_at_alike as1 as2 i : Forall2 attempts_alike as1 as2 → mods_at as1 i ≡ₚ mods_at as2 i.
Proof.
  intros H. unfold mods_at.
  destruct (as1 !! i) as [a1|] eqn:E1.
  - destruct (Forall2_lookup_l _ _ _ _ _ H E1) as (a2 & -> & (_ & _ & _ & Hm & He)).
    unfold attempt_mods. rewrite (bool_decide_ext _ _ He). by destruct (bool_decide _).
  - apply lookup_ge_None in E1. rewrite (Forall2_length _ _ _ H) in E1. by rewrite lookup_ge_None_2.
Qed.

Lemma flat_mods_perm as1 as2 order1 order2 :
  Forall2 attempts_alike as1 as2 → order1 ≡ₚ order2 → flat_mods as1 order1 ≡ₚ flat_mods as2 order2.
Proof.
  intros Ha Hp. unfold flat_mods. rewrite Hp. clear Hp order1. induction order2 as [|i order IH]; [done|].
  rewrite !fmap_cons. simpl. apply Permutation_app; [by apply mods_at_alike|exact IH].
Qed.

Lemma flat_mods_bytes `{MapOrder} e b base items order :
  Forall mod_ok (flat_mods (attempts_of e b base items) order).
Proof.
  unfold flat_mods. apply Forall_join, Forall_fmap, Forall_forall. intros i _. simpl. unfold mods_at, attempts_of.
  rewrite list_lookup_imap. destruct (items !! i) as [item|]; simpl; [|constructor].
  unfold attempt_mods. case_match; [constructor|]. apply interpret_bytes.
Qed.

Lemma flat_mods_all attempts order : order ≡ₚ seq 0 (length attempts) →
  flat_mods attempts order ≡ₚ mjoin (attempt_mods <$> attempts).
Proof.
  intros Hp. unfold flat_mods. rewrite Hp.
  assert (mods_at attempts <$> seq 0 (length attempts) = attempt_mods <$> attempts) as ->; [|done].
  apply list_eq. intros i. rewrite !list_lookup_fmap. destruct (decide (i < length attempts)%nat) as [Hi|Hi].
  - rewrite lookup_seq_lt by done. simpl. unfold mods_at. simpl.
    destruct (lookup_lt_is_Some_2 _ _ Hi) as [a Ha]. by rewrite Ha.
  - rewrite lookup_seq_ge, (lookup_ge_None_2 attempts) by lia. done.
Qed.

(** ** Blocks *)

(** A returned block: its attempts, the objects of its table and the state. *)
Lemma returned_block `{MapOrder} e b base c cancelled schedule r :
  GroundhogExecuteBlockWithCommitment e b base c cancelled schedule = GhReturned r →
  let attempts := attempts_of e b base (TxList b) in
  let t := newGroundhogReservationTable (ShardID b) base (gh_OrderedSetLimit e) in
  ∃ objects working,
    apply_mods t ∅ (flat_mods attempts (sc_order schedule)) = Some objects ∧
    materializeTable (set_objects t objects) = inr working ∧
    r = groundhog_result b base (workerCountFor e (length (TxList b))) (CloneOrBuild c base) attempts
          (set_objects t objects) working.
Proof.
  unfold GroundhogExecuteBlockWithCommitment. destruct cancelled; [done|].
  destruct (executeAttempts _ _ _ _ _ _ _) as [[c' [attempts|]]|] eqn:Ea; [|done..].
  apply executeAttempts_results in Ea as ->. unfold reserveGroundhogAttemptsConcurrent.
  set (t := newGroundhogReservationTable _ _ _). set (attempts := attempts_of _ _ _ _).
  pose proof (reserve_in_order_ok attempts (sc_order schedule) t) as Hr.
  change (gt_Objects t) with (∅ : gmap string groundhogObject) in Hr.
  destruct (apply_mods t ∅ _) as [objects|].
  - rewrite Hr. destruct (sc_ended schedule); [done|]. rewrite decide_True by done.
    destruct (materializeTable _) as [err|working] eqn:Em; [done|]. intros Hx. simplify_eq. eauto.
  - destruct (reserve_in_order _ _ _) as [t' errors]. simpl in Hr. destruct (sc_ended schedule); [done|].
    by rewrite decide_False by done.
Qed.

Lemma writes_lookup (f : string → string) ms : ∀ (w : gmap string string) k,
  foldl (λ w m, <[gm_Key m := f (gm_Key m)]> w) w ms !! k =
  if decide (k ∈ gm_Key <$> ms) then Some (f k) else w !! k.
Proof.
  induction ms as [|m ms IH]; intros w k; [done|]. cbn [foldl]. rewrite IH, lookup_insert.
  rewrite fmap_cons. repeat case_decide; set_solver.
Qed.

Definition forget_error (d : TxDelta) : TxDelta :=
  let r := td_Receipt d in
  MkDelta (td_TxID d) (td_OriginalIndex d) (td_ReadSet d) (td_WriteSet d)
    (MkReceipt (rc_TxID r) (rc_BlockHash r) (rc_Height r) (rc_Success r) "" (rc_ExecutionCost r)
       (rc_StateKeys r) (rc_StateRootAfterTx r)) (td_Success d) "".

Lemma delta_alike b working root a1 a2 : attempts_alike a1 a2 →
  forget_error (groundhog_delta b working root a1) = forget_error (groundhog_delta b working root a2) ∧
  (td_Error (groundhog_delta b working root a1) = td_Error (groundhog_delta b working root a2) →
   groundhog_delta b working root a1 = groundhog_delta b working root a2).
Proof.
  intros (Hi & Ht & Hr & Hm & He). unfold forget_error, groundhog_delta. simpl.
  rewrite Hi, Ht, Hr, (bool_decide_ext _ _ He). 
  set (w1 := foldl _ _ (ga_Modifications a1)). set (w2 := foldl _ _ (ga_Modifications a2)).
  assert (w1 = w2) as ->; [|split; [done|by intros ->]]. apply map_eq. intros k. unfold w1, w2.
  rewrite !(writes_lookup (λ k, default "" (working !! groundhogQualifiedKey (ShardID b) k))).
  assert (k ∈ gm_Key <$> ga_Modifications a1 ↔ k ∈ gm_Key <$> ga_Modifications a2) as Hk by (by rewrite Hm).
  repeat case_decide; tauto.
Qed.

Lemma deltas_alike b working root as1 as2 : Forall2 attempts_alike as1 as2 →
  let d1 := groundhog_delta b working root <$> as1 in
  let d2 := groundhog_delta b working root <$> as2 in
  forget_error <$> d1 = forget_error <$> d2 ∧ (td_Error <$> d1 = td_Error <$> d2 → d1 = d2).
Proof.
  induction 1 as [|a1 a2 as1 as2 Ha _ [IH1 IH2]]; [done|]. simpl in *.
  destruct (delta_alike b working root _ _ Ha) as [D1 D2]. split; [by f_equal|].
  intros E. injection E as E1 E2. f_equal; [by apply D2|by apply IH2].
Qed.

Lemma flat_mods_ints `{MapOrder} e b base items order : in_i64 (gh_DefaultInitialBalance e) →
  Forall (mod_out int64_base) (flat_mods (attempts_of e b base items) order).
Proof.
  intros He. unfold flat_mods. apply Forall_join, Forall_fmap, Forall_forall. intros i _. simpl.
  unfold mods_at, attempts_of. rewrite list_lookup_imap. destruct (items !! i) as [item|]; simpl; [|constructor].
  unfold attempt_mods. case_match; [constructor|]. by apply interpret_ints.
Qed.

(** C5: Two replicas that execute the same fixed block from the same state return
    the same state, state root, plan and per-transaction write sets, whatever the
    schedules of their workers, the orders in which their reservations take effect
    and the orders in which they visit Go maps; if they report the same error
    texts, they return the same result, receipts included. *)
Theorem groundhog_deterministic (O1 O2 : MapOrder) e b base c1 c2 s1 s2 r1 r2 :
  sc_order s1 ≡ₚ sc_order s2 →
  @GroundhogExecuteBlockWithCommitment O1 e b base c1 false s1 = GhReturned r1 →
  @GroundhogExecuteBlockWithCommitment O2 e b base c2 false s2 = GhReturned r2 →
  CloneOrBuild c1 base = CloneOrBuild c2 base →
  re_StateUpdates r1 = re_StateUpdates r2 ∧ re_StateRootAfter r1 = re_StateRootAfter r2 ∧
  re_PlanDigest r1 = re_PlanDigest r2 ∧
  forget_error <$> re_TxDeltas r1 = forget_error <$> re_TxDeltas r2 ∧
  (td_Error <$> re_TxDeltas r1 = td_Error <$> re_TxDeltas r2 → r1 = r2).
Proof.
  intros Hp H1 H2 Hc. apply returned_block in H1 as (ob1 & w1 & A1 & M1 & ->).
  apply returned_block in H2 as (ob2 & w2 & A2 & M2 & ->).
  pose proof (attempts_of_alike O1 O2 e b base (TxList b)) as Ha.
  assert (ob1 = ob2) as ->.
  { eapply apply_mods_perm; [by eapply flat_mods_perm|apply flat_mods_bytes|exact A1|exact A2]. }
  rewrite M2 in M1. injection M1 as <-. rewrite Hc. clear A1 A2 M2.
  generalize dependent (@attempts_of O1 e b base (TxList b)).
  generalize (@attempts_of O2 e b base (TxList b)). intros as2 as1 Ha. unfold groundhog_result.
  set (root := CommitmentRoot (Some (foldl _ _ _))). destruct (deltas_alike b w2 root _ _ Ha) as [D1 D2].
  cbn [re_StateUpdates re_StateRootAfter re_PlanDigest re_TxDeltas]. split_and!; try done.
  intros E. by rewrite (D2 E).
Qed.

(** A block that one order of reservations accepts is accepted in every order,
    with the same state and root, as long as no transaction of it raises the limit
    of a set and the deposits to a key alone, on top of its value at the start of
    the block, fit an [int64]. *)
Theorem groundhog_order_irrelevant (O1 O2 : MapOrder) e b base c s1 s2 r1 attempts :
  in_i64 (gh_DefaultInitialBalance e) →
  roomy (flat_mods (@attempts_of O1 e b base (TxList b)) (sc_order s1)) = true →
  @GroundhogExecuteBlockWithCommitment O1 e b base c false s1 = GhReturned r1 →
  sc_order s1 ≡ₚ sc_order s2 → sc_ended s2 = false →
  @executeAttempts O2 e b base (TxList b) (workerCountFor e (length (TxList b))) (sc_pool s2) false =
    Some (false, Some attempts) →
  ∃ r2, @GroundhogExecuteBlockWithCommitment O2 e b base c false s2 = GhReturned r2 ∧
    re_StateUpdates r2 = re_StateUpdates r1 ∧ re_StateRootAfter r2 = re_StateRootAfter r1.
Proof.
  intros He Hr H1 Hp Hend Ha. apply returned_block in H1 as (ob1 & w1 & A1 & M1 & ->).
  pose proof (executeAttempts_results _ _ _ _ _ _ _ _ _ Ha) as ->.
  pose proof (flat_mods_perm _ _ _ _ (attempts_of_alike O1 O2 e b base (TxList b)) Hp) as Hm.
  set (t := newGroundhogReservationTable _ _ _) in *.
  destruct (apply_mods_accept t _ _ Hm) as [ob2 A2]; [by apply flat_mods_ints|done|by eexists|].
  assert (ob1 = ob2) as -> by (eapply apply_mods_perm; [exact Hm|apply flat_mods_bytes|exact A1|exact A2]).
  unfold GroundhogExecuteBlockWithCommitment. rewrite Ha. fold t. unfold reserveGroundhogAttemptsConcurrent.
  pose proof (reserve_in_order_ok (@attempts_of O2 e b base (TxList b)) (sc_order s2) t) as Hro.
  change (gt_Objects t) with (∅ : gmap string groundhogObject) in Hro. rewrite A2 in Hro.
  rewrite Hro, Hend, decide_True, M1 by done. eexists. split; [done|]. done.
Qed.
