(* ===== verification/GroundhogLedger.v ===== *)
(** * Balances under the Groundhog executor

    The additions a transaction makes to an integer survive normalizing, and the
    additions of a block add up in the state after it. *)
From S2P Require Import Prelude GoStd GoText GoJson Tx Block StateRoot Serial SerialProps WorkerPool Groundhog GroundhogProps GroundhogOrder GroundhogAccept GroundhogTheorems.
Local Open Scope N_scope.
#[local] Opaque Sha256.sum256 sha256_hex Json.marshal.

Definition ints_at (key : string) (ms : list groundhogModification) : list groundhogModification :=
  filter (λ m, gm_Kind m = groundhogIntegerAdd ∧ gm_Key m = key) ms.

Definition sums (ms : list groundhogModification) : Z * Z := (sum_pos ms, sum_neg ms).

Lemma sum_pos_app ms1 ms2 : sum_pos (ms1 ++ ms2) = (sum_pos ms1 + sum_pos ms2)%Z.
Proof. induction ms1; simpl; lia. Qed.
Lemma sum_neg_app ms1 ms2 : sum_neg (ms1 ++ ms2) = (sum_neg ms1 + sum_neg ms2)%Z.
Proof. induction ms1; simpl; lia. Qed.

Lemma ints_at_app key ms1 ms2 : ints_at key (ms1 ++ ms2) = ints_at key ms1 ++ ints_at key ms2.
Proof. apply filter_app. Qed.

Lemma ints_at_none key ms : Forall (λ m, gm_Kind m = groundhogIntegerAdd → gm_Key m ≠ key) ms → ints_at key ms = [].
Proof.
  unfold ints_at. induction 1 as [|m ms Hm _ IH]; [done|]. rewrite filter_cons, decide_False; [done|]. naive_solver.
Qed.

(** ** Normalizing keeps the sums *)

Definition acc_pos (n : normalizing) (key : string) : Z :=
  match nz_ints n !! key with Some a => ia_Positive a | None => 0 end.
Definition acc_neg (n : normalizing) (key : string) : Z :=
  match nz_ints n !! key with Some a => ia_Negative a | None => 0 end.

Definition delta_in (m : groundhogModification) : Prop := gm_Kind m = groundhogIntegerAdd → in_i64 (gm_Delta m).

Lemma normalize_one_sums n m n' key :
  normalizing_ok int64_base n → delta_in m → normalize_one n m = inr n' →
  acc_pos n' key = (acc_pos n key + sum_pos (ints_at key [m]))%Z ∧
  acc_neg n' key = (acc_neg n key + sum_neg (ints_at key [m]))%Z.
Proof.
  intros (Hi & _) Hd H. unfold normalize_one in H. unfold ints_at, acc_pos, acc_neg. rewrite filter_cons, filter_nil.
  destruct (gm_Kind m) eqn:Hk.
  2-5: rewrite decide_False by naive_solver; repeat case_match; simplify_eq; simpl in *; simplify_eq; lia.
  specialize (Hd Hk). set (a := default _ _) in H.
  assert (acc_pos n (gm_Key m) = ia_Positive a ∧ acc_neg n (gm_Key m) = ia_Negative a ∧
          in_i64 (ia_Positive a) ∧ in_i64 (ia_Negative a)) as (Ep & En & Hp & Hn).
  { unfold acc_pos, acc_neg, a. destruct (nz_ints n !! gm_Key m) as [x|] eqn:E; simpl.
    - destruct (Hi _ _ E) as (_ & ? & ?). done.
    - auto using zero_in. }
  unfold acc_pos, acc_neg in *. destruct (bool_decide (ia_BaseInt a = gm_BaseInt m)); simpl in H; [|done].
  destruct (Z.ltb_spec (gm_Delta m) 0); destruct (groundhogAddInt64 _ _) as [next [|]] eqn:E; try done;
    apply add_int64_value in E as [-> _]; try done; simplify_eq; simpl; rewrite lookup_insert;
    (destruct (decide (gm_Key m = key)) as [<-|Hne];
      [rewrite decide_True by done; simpl; lia|rewrite decide_False by naive_solver; simpl; lia]).
Qed.

Lemma normalize_all_sums ms key : ∀ n n', normalizing_ok int64_base n → Forall (mod_in int64_base) ms → Forall delta_in ms →
  normalize_all n ms = inr n' →
  acc_pos n' key = (acc_pos n key + sum_pos (ints_at key ms))%Z ∧
  acc_neg n' key = (acc_neg n key + sum_neg (ints_at key ms))%Z.
Proof.
  induction ms as [|m ms IH]; intros n n' Hn Hms Hds H; simpl in H.
  { simplify_eq. unfold ints_at. rewrite filter_nil. simpl. lia. }
  destruct (normalize_one n m) as [|n1] eqn:E; [done|].
  apply Forall_cons in Hms as [Hm Hms], Hds as [Hd Hds].
  destruct (normalize_one_sums n m n1 key Hn Hd E) as [E1 E2].
  destruct (IH n1 n' (normalize_one_ok _ n m n1 Hn Hm E) Hms Hds H) as [E3 E4].
  change (m :: ms) with ([m] ++ ms). rewrite ints_at_app, sum_pos_app, sum_neg_app. lia.
Qed.

Lemma int_mods_sums key a ms : accumulation_ok int64_base key a → int_mods key a = inr ms →
  sum_pos ms = ia_Positive a ∧ sum_neg ms = ia_Negative a ∧
  Forall (λ m, gm_Kind m = groundhogIntegerAdd ∧ gm_Key m = key) ms.
Proof.
  intros (Hb & Hp & Hn) H. unfold int_mods in H. destruct (_ || _) eqn:E1; [done|].
  destruct ((groundhogFinalIntValue _ _ _).2) eqn:E2; [done|]. apply final_spec in E2; [|done..]. simplify_eq.
  rewrite !sum_pos_app, !sum_neg_app, !Forall_app.
  destruct (decide (ia_Negative a = 0%Z)) as [Hz|Hz], (decide (ia_Positive a = 0%Z)) as [Hz'|Hz'];
    repeat first [rewrite (bool_decide_eq_true_2 (ia_Negative a = 0%Z)) by done
                 |rewrite (bool_decide_eq_false_2 (ia_Negative a = 0%Z)) by done
                 |rewrite (bool_decide_eq_true_2 (ia_Positive a = 0%Z)) by done
                 |rewrite (bool_decide_eq_false_2 (ia_Positive a = 0%Z)) by done];
    simpl; split_and!; try lia; by repeat constructor.
Qed.

Lemma ints_at_own key ms :
  Forall (λ m, gm_Kind m = groundhogIntegerAdd ∧ gm_Key m = key) ms → ints_at key ms = ms.
Proof.
  unfold ints_at. induction 1 as [|m ms Hm _ IH]; [done|]. by rewrite filter_cons, decide_True, IH by done.
Qed.

Lemma emit_ints_sums ints keys key :
  map_Forall (accumulation_ok int64_base) ints → NoDup keys → ∀ ms, emit_ints ints keys = inr ms →
  let a := default (MkAccumulation 0 0 0) (ints !! key) in
  sum_pos (ints_at key ms) = (if decide (key ∈ keys) then ia_Positive a else 0%Z) ∧
  sum_neg (ints_at key ms) = (if decide (key ∈ keys) then ia_Negative a else 0%Z).
Proof.
  intros Hi. induction 1 as [|k keys Hk Hnd IH]; intros ms H; simpl in H; [by simplify_eq|].
  destruct (int_mods k _) as [|ms1] eqn:E1; [done|]. destruct (emit_ints ints keys) as [|ms2]; [done|].
  simplify_eq. destruct (IH ms2 eq_refl) as [IH1 IH2]. apply int_mods_sums in E1 as (P1 & N1 & F1).
  2:{ destruct (ints !! k) eqn:Ek; simpl; [by eapply Hi|]. split_and!; apply zero_in. }
  rewrite ints_at_app, sum_pos_app, sum_neg_app, IH1, IH2. destruct (decide (key = k)) as [->|Hne].
  - rewrite ints_at_own by done. rewrite !(decide_False (P := k ∈ keys)) by done.
    intros a. rewrite !decide_True by left. unfold a. lia.
  - rewrite (ints_at_none key ms1) by (eapply Forall_impl; [exact F1|]; naive_solver).
    simpl. split; repeat case_decide; set_solver.
Qed.

Lemma normalize_sums `{MapOrder} input out key :
  Forall (mod_in int64_base) input → Forall delta_in input → normalizeGroundhogModifications input = inr out →
  sums (ints_at key out) = sums (ints_at key input).
Proof.
  intros Hi Hd Hn. unfold normalizeGroundhogModifications in Hn.
  destruct (normalize_all _ input) as [|n] eqn:En; [done|].
  assert (normalizing_ok int64_base (MkNormalizing ∅ ∅ [])) as Hz by (by split_and!; try apply map_Forall_empty).
  destruct (normalize_all_sums input key _ _ Hz Hi Hd En) as [A1 A2].
  apply (normalize_all_ok int64_base _ _ _ Hz Hi) in En as (Hint & Hb & Ho).
  destruct (emit_ints _ _) as [|ints] eqn:Ei; [done|]. simplify_eq.
  apply (emit_ints_sums _ _ key Hint) in Ei as [P N].
  2:{ rewrite range_keys_perm. apply NoDup_fst_map_to_list. }
  unfold sums. set (rest := omap _ _ ++ nz_others n).
  assert (ints_at key rest = []) as Hrest.
  { apply ints_at_none. unfold rest. apply Forall_app. split.
    - apply Forall_forall. intros m Hm. apply list_elem_of_omap in Hm as (k & _ & Hk).
      destruct (Hb _ _ Hk) as [_ ?]. done.
    - eapply Forall_impl; [exact Ho|]. by intros ? [_ ?]. }
  assert (ints_at key (sort_stable (ints ++ rest)) ≡ₚ ints_at key ints) as Hp.
  { unfold ints_at. rewrite sort_stable_perm. fold (ints_at key (ints ++ rest)).
    by rewrite ints_at_app, Hrest, app_nil_r. }
  rewrite (sum_pos_perm _ _ Hp), (sum_neg_perm _ _ Hp), P, N.
  unfold acc_pos, acc_neg in A1, A2. cbn [nz_ints] in A1, A2. rewrite lookup_empty in A1, A2. simpl in A1, A2.
  assert (key ∈ range_keys (nz_ints n) ↔ is_Some (nz_ints n !! key)) as Hk.
  { rewrite range_keys_perm, list_elem_of_fmap. split.
    - intros ([k a] & -> & Hin). apply elem_of_map_to_list in Hin. by eexists.
    - intros [a Ha]. exists (key, a). by rewrite elem_of_map_to_list. }
  destruct (nz_ints n !! key) as [a|]; simpl.
  - rewrite !decide_True by (apply Hk; by eexists). f_equal; lia.
  - rewrite !decide_False by (intros Hin; by destruct (proj1 Hk Hin)). f_equal; lia.
Qed.

(** ** What a transfer adds to an account *)

(** Values of the Go type [int64]. *)
Definition tx_typed (item : SignedTransaction) : Prop :=
  in_i64 (Value item) ∧ Forall (λ a, in_i64 (ai_Delta a)) (AccessList item).

Definition is_transfer (item : SignedTransaction) : bool :=
  negb (isPureCommutativeDelta (AccessList item) || isDirectAccessTransaction item).
Definition received (x : string) (item : SignedTransaction) : Z :=
  if is_transfer item && (Receiver item ≟ x) then Value item else 0.
Definition sent (x : string) (item : SignedTransaction) : Z :=
  if is_transfer item && (Sender item ≟ x) then Value item else 0.

Definition balance_key (x : string) : string := "balance:" +:+ x.

Lemma balance_key_inj x y : balance_key x = balance_key y → x = y.
Proof. unfold balance_key. intros H. by injection H. Qed.

Lemma transfer_sums e b base item reads ms x :
  tx_typed item → interpret_transfer e b base item = (reads, inr ms) →
  sums (ints_at (balance_key x) ms) = (received x item, (- sent x item)%Z) ∧ Forall delta_in ms.
Proof.
  intros [Hv _] H. unfold interpret_transfer in H. unfold received, sent, is_transfer, sums.
  destruct (_ || _); simpl; [simplify_eq; by split|].
  destruct (Z.leb_spec (Value item) 0); [done|]. destruct (_ <? _)%Z; [done|].
  destruct (_ ≟ max_uint64); [done|]. simplify_eq. split.
  - unfold ints_at. rewrite !filter_cons, filter_nil. cbn [gm_Kind gm_Key mod_int mod_insert].
    rewrite (decide_False (P := groundhogOrderedSetInsert = groundhogIntegerAdd ∧ _)) by naive_solver.
    fold (balance_key (Sender item)). fold (balance_key (Receiver item)).
    assert (∀ y, groundhogIntegerAdd = groundhogIntegerAdd ∧ balance_key y = balance_key x ↔ y = x) as Hy.
    { intros y. split; [intros [_ Hy]; by apply balance_key_inj|by intros ->]. }
    rewrite !(decide_ext _ _ _ _ (Hy _)).
    repeat case_bool_decide; repeat case_decide; simplify_eq/=; try done; f_equal; lia.
  - rewrite !Forall_cons. split_and!; [..|constructor]; unfold delta_in; simpl; try done;
      unfold in_i64, min_int64, max_int64 in *; lia.
Qed.

Lemma access_mods_key item a v ms : in_i64 (ai_Delta a) → access_mods item a v = inr ms →
  Forall (λ m, gm_Key m = ai_Key a) ms ∧ Forall delta_in ms.
Proof.
  unfold access_mods. intros Hd H. repeat case_match; simplify_eq;
    first [by split; constructor | rewrite !Forall_singleton; split; [done|]; intros Hk; first [exact Hd|done]].
Qed.

Lemma has_prefix_app p s : has_prefix (p +:+ s) p = true.
Proof. unfold has_prefix. by rewrite strip_prefix_app. Qed.

Lemma accesses_sums b base item x accesses : ∀ reads mods reads' ms,
  Forall (λ a, in_i64 (ai_Delta a)) accesses → Forall delta_in mods →
  interpret_accesses b base item accesses reads mods = (reads', inr ms) →
  ints_at (balance_key x) ms = ints_at (balance_key x) mods ∧ Forall delta_in ms.
Proof.
  induction accesses as [|a rest IH]; intros reads mods reads' ms Ha Hm H; simpl in H; [by simplify_eq|].
  apply Forall_cons in Ha as [Ha Hrest]. destruct (ai_Key a ≟ ""); [by eapply IH|].
  destruct (_ || _) eqn:Ep; [by eapply IH|].
  destruct (access_mods item a _) as [|ms1] eqn:E; [done|]. apply access_mods_key in E as [E1 E2]; [|done].
  apply IH in H as [-> Hd]; [|done|by apply Forall_app]. split; [|done].
  rewrite ints_at_app, (ints_at_none _ ms1), app_nil_r; [done|]. eapply Forall_impl; [exact E1|].
  intros m -> _ Hk. unfold balance_key in Hk. rewrite Hk, has_prefix_app, orb_true_r in Ep. done.
Qed.

(** How a successful attempt comes about. *)
Lemma interpret_success `{MapOrder} e b base index item :
  ga_TerminalError (interpretTransaction e b base index item) = "" →
  ∃ reads ms reads' ms', interpret_transfer e b base item = (reads, inr ms) ∧
    interpret_accesses b base item (AccessList item) reads ms = (reads', inr ms') ∧
    normalizeGroundhogModifications ms' = inr (ga_Modifications (interpretTransaction e b base index item)).
Proof.
  intros Hs. unfold interpretTransaction in *. destruct (_ || _); [done|].
  destruct (interpret_transfer e b base item) as [reads [err|ms]] eqn:E1.
  { exfalso. simpl in Hs. subst err. unfold interpret_transfer in E1. by repeat case_match; simplify_eq. }
  destruct (interpret_accesses _ _ _ _ _ _) as [reads' [err|ms']] eqn:E2.
  { exfalso. simpl in Hs. subst err. revert E2. clear. generalize reads ms reads'.
    induction (AccessList item) as [|a rest IH]; intros; simpl in *; [done|].
    destruct (ai_Key a ≟ ""); [by eapply IH|]. destruct (_ || _); [by eapply IH|].
    destruct (access_mods item a _) as [err|] eqn:E; [|by eapply IH]. simplify_eq. unfold access_mods in E.
    by repeat case_match; simplify_eq. }
  destruct (normalizeGroundhogModifications ms') as [err|ms2] eqn:E3.
  { exfalso. simpl in Hs. subst err. by apply normalize_error in E3. }
  exists reads, ms, reads', ms'. done.
Qed.

Lemma interpret_sums `{MapOrder} e b base index item x :
  in_i64 (gh_DefaultInitialBalance e) → tx_typed item →
  let a := interpretTransaction e b base index item in
  ga_TerminalError a = "" →
  sums (ints_at (balance_key x) (ga_Modifications a)) = (received x item, (- sent x item)%Z).
Proof.
  intros He Ht a Hs. destruct (interpret_success e b base index item Hs) as (reads & ms & reads' & ms' & E1 & E2 & E3).
  pose proof (interpret_transfer_in int64_base b base (λ v, parse_int_in _ 0 zero_in) e
    (λ v, parse_int_in _ _ He) _ _ _ E1) as I1.
  pose proof (interpret_accesses_in int64_base b base (λ v, parse_int_in _ 0 zero_in) _ _ _ _ _ _ I1 E2) as I2.
  destruct (transfer_sums _ _ _ _ _ _ x Ht E1) as [S1 D1].
  destruct (accesses_sums _ _ _ x _ _ _ _ _ (proj2 Ht) D1 E2) as [S2 D2].
  unfold a. rewrite (normalize_sums _ _ _ I2 D2 E3). by rewrite S2.
Qed.

(** ** Blocks *)

Definition total (f : SignedTransaction → Z) (l : list SignedTransaction) : Z := foldr (λ x s, f x + s)%Z 0%Z l.

(** The transactions whose receipts report success. *)
Definition settled (items : list SignedTransaction) (deltas : list TxDelta) : list SignedTransaction :=
  omap (λ x, if td_Success x.2 then Some x.1 else None) (zip items deltas).

Lemma block_sums `{MapOrder} e b base x items (f : groundhogAttempt → TxDelta) :
  in_i64 (gh_DefaultInitialBalance e) → Forall tx_typed items →
  (∀ a, td_Success (f a) = (ga_TerminalError a ≟ "")) → ∀ start,
  let attempts := imap (λ i item, interpretTransaction e b base (Z.of_nat (start + i)) item) items in
  sums (ints_at (balance_key x) (mjoin (attempt_mods <$> attempts))) =
  (total (received x) (settled items (f <$> attempts)), (- total (sent x) (settled items (f <$> attempts)))%Z).
Proof.
  intros He Ht Hf. induction Ht as [|item items Hi _ IH]; intros start attempts; [done|].
  unfold attempts. clear attempts. rewrite imap_cons.
  specialize (IH (S start)). cbn zeta in IH.
  assert (imap ((λ i item, interpretTransaction e b base (Z.of_nat (start + i)) item) ∘ S) items =
          imap (λ i item, interpretTransaction e b base (Z.of_nat (S start + i)) item) items) as ->.
  { apply imap_ext. intros i y _. simpl. by rewrite Nat.add_succ_r. }
  rewrite Nat.add_0_r. set (a := interpretTransaction e b base (Z.of_nat start) item).
  set (rest := imap _ items) in *.
  change (mjoin (attempt_mods <$> (a :: rest))) with (attempt_mods a ++ mjoin (attempt_mods <$> rest)).
  change (settled (item :: items) (f <$> (a :: rest))) with
    (match (if td_Success (f a) then Some item else None) with
     | Some y => y :: settled items (f <$> rest) | None => settled items (f <$> rest) end).
  unfold sums in *. rewrite ints_at_app, sum_pos_app, sum_neg_app.
  injection IH as IH1 IH2. rewrite IH1, IH2, Hf. unfold attempt_mods. destruct (decide (ga_TerminalError a = "")) as [Hs|Hs].
  - rewrite bool_decide_eq_true_2 by done. simpl. 
    pose proof (interpret_sums e b base (Z.of_nat start) item x He Hi Hs) as Hx. fold a in Hx.
    unfold sums in Hx. injection Hx as Hx1 Hx2. rewrite Hx1, Hx2. f_equal; lia.
  - rewrite bool_decide_eq_false_2 by done. simpl. done.
Qed.

Lemma flat_sums `{MapOrder} e b base x items order working root :
  in_i64 (gh_DefaultInitialBalance e) → Forall tx_typed items → order ≡ₚ seq 0 (length items) →
  let attempts := attempts_of e b base items in
  let deltas := groundhog_delta b working root <$> attempts in
  sums (ints_at (balance_key x) (flat_mods attempts order)) =
  (total (received x) (settled items deltas), (- total (sent x) (settled items deltas))%Z).
Proof.
  intros He Ht Hord attempts deltas. unfold deltas.
  etrans; [|exact (block_sums e b base x items (groundhog_delta b working root) He Ht (λ a, eq_refl) 0)].
  assert (length attempts = length items) as Hlen by apply length_imap. rewrite <- Hlen in Hord.
  pose proof (flat_mods_all attempts _ Hord) as Hp.
  assert (ints_at (balance_key x) (flat_mods attempts order) ≡ₚ
          ints_at (balance_key x) (mjoin (attempt_mods <$> attempts))) as Hp' by (unfold ints_at; by rewrite Hp).
  unfold sums. by rewrite (sum_pos_perm _ _ Hp'), (sum_neg_perm _ _ Hp').
Qed.

(** ** The state after the block *)

Lemma materialize_lookup t key keys : ∀ working w',
  materialize_objects t keys working = inr w' →
  (∀ k', k' ∈ keys → is_Some (gt_Objects t !! k') →
     groundhogQualifiedKey (gt_ShardID t) k' = groundhogQualifiedKey (gt_ShardID t) key → k' = key) →
  match gt_Objects t !! key with
  | Some o => if decide (key ∈ keys)
              then ∃ v, object_value key o = inr v ∧ w' !! groundhogQualifiedKey (gt_ShardID t) key = Some v
              else w' !! groundhogQualifiedKey (gt_ShardID t) key = working !! groundhogQualifiedKey (gt_ShardID t) key
  | None => w' !! groundhogQualifiedKey (gt_ShardID t) key = working !! groundhogQualifiedKey (gt_ShardID t) key
  end.
Proof.
  set (q := groundhogQualifiedKey (gt_ShardID t)).
  assert (∀ keys working w', materialize_objects t keys working = inr w' →
    (∀ k', k' ∈ keys → is_Some (gt_Objects t !! k') → q k' = q key → k' = key) →
    (key ∉ keys ∨ gt_Objects t !! key = None) → w' !! q key = working !! q key) as Hout.
  { clear keys. intros keys. induction keys as [|k rest IH]; intros working w' H Hq Hno; simpl in H; [by simplify_eq|].
    assert (∀ working, materialize_objects t rest working = inr w' → w' !! q key = working !! q key) as IH'.
    { intros w0 H0. apply (IH w0 w' H0); [intros k' Hk'; apply Hq; by right|].
      destruct Hno as [Hn|Hn]; [left|by right]. intros Hin. apply Hn. by right. }
    destruct (gt_Objects t !! k) as [o|] eqn:Ek; [|by apply IH'].
    destruct (object_value k o) as [|v]; [done|]. apply IH' in H as ->. apply lookup_insert_ne. intros Heq.
    assert (k = key) as -> by (apply Hq; [left|by eexists|done]).
    destruct Hno as [Hn|Hn]; [apply Hn; left|by rewrite Hn in Ek]. }
  induction keys as [|k rest IH]; intros working w' H Hq.
  { destruct (gt_Objects t !! key); [rewrite decide_False by set_solver|]; by simplify_eq/=. }
  destruct (gt_Objects t !! key) as [o|] eqn:Eo; [|by eapply (Hout (k :: rest)); eauto].
  destruct (decide (key ∈ k :: rest)) as [Hk|Hk]; [|by eapply (Hout (k :: rest)); eauto]. simpl in H.
  assert (∀ k', k' ∈ rest → is_Some (gt_Objects t !! k') → q k' = q key → k' = key) as Hq'.
  { intros k' Hk'. apply Hq. by right. }
  destruct (decide (key ∈ rest)) as [Hr|Hr].
  - destruct (gt_Objects t !! k) as [ok|]; [destruct (object_value k ok); [done|]|]; by eapply IH.
  - apply elem_of_cons in Hk as [<-|Hk]; [|done]. rewrite Eo in H. destruct (object_value key o) as [|v] eqn:Ev; [done|].
    exists v. split; [done|]. apply Hout in H as ->; [apply lookup_insert_eq|done|by left].
Qed.

Lemma ints_at_key key ms : ints_at key (at_key key ms) = ints_at key ms.
Proof.
  unfold ints_at, at_key. induction ms as [|m ms IH]; [done|]. rewrite (filter_cons _ m ms).
  destruct (decide (gm_Key m = key)); rewrite !filter_cons.
  - by rewrite IH.
  - rewrite decide_False by tauto. done.
Qed.

(** An accepted integer: its object holds the sums. *)
Lemma accepted_int t key ms objects base :
  apply_mods t ∅ ms = Some objects → Forall (mod_out int64_base) ms →
  (∀ m, m ∈ ms → gm_Key m = key → gm_Kind m = groundhogIntegerAdd) →
  (∀ m, m ∈ ms → gm_Key m = key → gm_BaseInt m = base) →
  match objects !! key with
  | None => sums (ints_at key ms) = (0, 0)%Z
  | Some o => object_value key o = inr (format_int (base + sum_neg (ints_at key ms) + sum_pos (ints_at key ms))) ∧
      (0 <= base + sum_neg (ints_at key ms))%Z ∧
      in_i64 (base + sum_neg (ints_at key ms) + sum_pos (ints_at key ms))
  end.
Proof.
  intros Ha Hout Hk Hb. pose proof (proj1 (apply_mods_keys _ _ _ _) Ha key) as K. rewrite lookup_empty in K.
  rewrite <- (ints_at_key key ms).
  assert (∀ m, m ∈ at_key key ms → gm_Kind m = groundhogIntegerAdd ∧ gm_Key m = key ∧ gm_BaseInt m = base ∧
    in_i64 (gm_BaseInt m) ∧ in_i64 (gm_Delta m)) as Hall.
  { intros m [Hmk Hm]%list_elem_of_filter. rewrite Forall_forall in Hout. destruct (Hout m Hm) as [_ Hi].
    specialize (Hi (Hk m Hm Hmk)). naive_solver. }
  destruct (at_key key ms) as [|m rest]; [simpl in K; injection K as <-; done|].
  rewrite (ints_at_own key (m :: rest)) by (apply Forall_forall; naive_solver).
  destruct (Hall m) as (Em & Ekm & Ebm & Ibm & _); [left|].
  pose proof (new_int_object t _ _ _ Em Ibm K) as Hnew.
  change (key_run t (Some (newObject t m)) (m :: rest) = Some (objects !! key)) in K.
  assert (ob_BaseInt (newObject t m) = base ∧ ob_NegativeDelta (newObject t m) = 0%Z ∧
    ob_PositiveDelta (newObject t m) = 0%Z) as (E1 & E2 & E3) by (unfold newObject; rewrite Em; done).
  apply key_run_int in K as (o & -> & Ho & Eb & En & Ep); [|done|].
  2:{ apply Forall_forall. intros x Hx. destruct (Hall x Hx) as (? & ? & ? & ? & ?). rewrite E1. done. }
  rewrite E1 in Eb. rewrite E2 in En. rewrite E3 in Ep. pose proof (int_object_bounds _ Ho) as Bo.
  destruct Ho as (Ko & _ & I1 & I2 & I3 & F). pose proof (final_value _ _ _ I1 I3 I2 F) as Fv.
  unfold object_value. rewrite Ko. destruct (groundhogFinalIntValue _ _ _) as [v ov]. simpl in *. subst ov v.
  rewrite Eb in *. rewrite !Z.add_0_l in *. rewrite En, Ep in *. split_and!; [done|lia|].
  unfold in_i64, min_int64, max_int64 in *. lia.
Qed.

(** The value an account starts the block with. *)
Definition opening (b : Block) (base : gmap string string) (x : string) (n : Z) : Prop :=
  let v := base_value b base (balance_key x) in trim_space v ≠ "" ∧ parse_int v = (n, NumOk).

Lemma opening_parse b base x n fallback : opening b base x n →
  groundhogParseInt (base_value b base (balance_key x)) fallback = n.
Proof.
  intros [Hv Hp]. unfold groundhogParseInt. rewrite bool_decide_eq_false_2 by done. by rewrite Hp.
Qed.

Definition account_base (x : string) (n : Z) (key : string) (z : Z) : Prop :=
  in_i64 z ∧ (key = balance_key x → z = n).

Lemma flat_mods_account `{MapOrder} e b base x n items order :
  in_i64 (gh_DefaultInitialBalance e) → opening b base x n →
  Forall (mod_out (account_base x n)) (flat_mods (attempts_of e b base items) order).
Proof.
  intros He Ho. unfold flat_mods. apply Forall_join, Forall_fmap, Forall_forall. intros i _. simpl.
  unfold mods_at, attempts_of. rewrite list_lookup_imap. destruct (items !! i) as [item|]; simpl; [|constructor].
  unfold attempt_mods. case_match; [constructor|].
  apply interpret_out; intros key; (split; [by auto using parse_int_in, zero_in|intros ->; by apply opening_parse]).
Qed.

Lemma written_keys `{MapOrder} b working root attempts order k m :
  m ∈ flat_mods attempts order → gm_Key m = k →
  ∃ d, d ∈ groundhog_delta b working root <$> attempts ∧ is_Some (td_WriteSet d !! k).
Proof.
  intros Hm Hk. apply list_elem_of_join in Hm as (ms & Hm & Hms). apply list_elem_of_fmap in Hms as (i & -> & _).
  unfold mods_at in Hm. destruct (attempts !! i) as [a|] eqn:Ea; [|by apply elem_of_nil in Hm].
  exists (groundhog_delta b working root a). split; [apply list_elem_of_fmap; eauto using list_elem_of_lookup_2|].
  unfold attempt_mods in Hm. simpl. destruct (bool_decide (ga_TerminalError a = "")); simpl in Hm; [|by apply elem_of_nil in Hm].
  rewrite (writes_lookup (λ k, default "" (working !! groundhogQualifiedKey (ShardID b) k))).
  rewrite decide_True; [by eexists|]. apply list_elem_of_fmap. eauto.
Qed.

Lemma objects_written t ms objects k : apply_mods t ∅ ms = Some objects → is_Some (objects !! k) →
  ∃ m, m ∈ ms ∧ gm_Key m = k.
Proof.
  intros Ha [o Ho]. pose proof (proj1 (apply_mods_keys _ _ _ _) Ha k) as K. rewrite lookup_empty, Ho in K.
  destruct (at_key k ms) as [|m l] eqn:E; [done|]. exists m.
  assert (m ∈ at_key k ms) as Hm by (rewrite E; left). by apply list_elem_of_filter in Hm as [? ?].
Qed.

(** C11: The balances after a block are exact: an account that starts with [n]
    ends with [n] plus what the successful transfers of the block pay to it less
    what they take from it, as an [int64] without wrap-around, and what they take
    is covered by [n] alone, so no transfer spends what another one of the block
    pays in. The base state stores a balance for the account that parses to [n],
    which is not negative, and no write set of the result names the account's entry
    by another key ([groundhog_qualified_balance_minted]). *)
Theorem groundhog_balances_exact (O : MapOrder) e b base c s r x n :
  in_i64 (gh_DefaultInitialBalance e) → Forall tx_typed (TxList b) →
  sc_order s ≡ₚ seq 0 (length (TxList b)) →
  GroundhogExecuteBlockWithCommitment e b base c false s = GhReturned r →
  opening b base x n → (0 <= n)%Z →
  (∀ d k, d ∈ re_TxDeltas r → is_Some (td_WriteSet d !! k) →
     groundhogQualifiedKey (ShardID b) k = groundhogQualifiedKey (ShardID b) (balance_key x) → k = balance_key x) →
  let paid_in := total (received x) (settled (TxList b) (re_TxDeltas r)) in
  let taken := total (sent x) (settled (TxList b) (re_TxDeltas r)) in
  (taken <= n)%Z ∧
  parse_int (default "" (re_StateUpdates r !! groundhogQualifiedKey (ShardID b) (balance_key x))) =
    ((n - taken + paid_in)%Z, NumOk).
Proof.
  intros He Ht Hord H Ho Hn Halias paid_in taken.
  apply returned_block in H as (objects & working & A & M & Er).
  set (attempts := attempts_of e b base (TxList b)) in *. set (t := newGroundhogReservationTable _ _ _) in *.
  set (ms := flat_mods attempts (sc_order s)) in *.
  assert (∃ root, re_TxDeltas r = groundhog_delta b working root <$> attempts) as [root Ed] by (subst r; by eexists).
  assert (re_StateUpdates r = working) as -> by (by subst r).
  pose proof (flat_mods_account e b base x n (TxList b) (sc_order s) He Ho) as Hacc. fold attempts ms in Hacc.
  rewrite Forall_forall in Hacc.
  assert (sums (ints_at (balance_key x) ms) = (paid_in, (- taken)%Z)) as Hs.
  { unfold paid_in, taken. rewrite Ed. by apply flat_sums. }
  injection Hs as Hpos Hneg.
  opose proof* (accepted_int t (balance_key x) ms objects n A) as Hint.
  { by apply flat_mods_ints. }
  { intros m Hm Hk. destruct (Hacc m Hm) as [[_ Hb] _]. apply Hb. rewrite Hk. apply has_prefix_app. }
  { intros m Hm Hk. destruct (Hacc m Hm) as [[_ Hb] Hi]. destruct Hi as [[_ Hi] _]; [|by apply Hi].
    apply Hb. rewrite Hk. apply has_prefix_app. }
  opose proof* (materialize_lookup (set_objects t objects) (balance_key x) _ _ _ M) as Hl.
  { intros k' _ Hk' Hq. destruct (objects_written _ _ _ _ A Hk') as (m & Hm & Hmk).
    destruct (written_keys b working root attempts (sc_order s) k' m Hm Hmk) as (d & Hd & Hw).
    apply (Halias d); [by rewrite Ed|done|done]. }
  cbn [gt_Objects set_objects] in Hl. destruct (objects !! balance_key x) as [o|] eqn:Eo.
  - destruct Hint as (Hv & Hc & Hin). rewrite decide_True in Hl.
    2:{ apply elem_of_sorted_keys. by eexists. }
    destruct Hl as (v & Hv' & Hl). rewrite Hv in Hv'. injection Hv' as <-.
    change (gt_ShardID _) with (ShardID b) in Hl. rewrite Hl. simpl. rewrite Hneg, Hpos in *. split; [lia|].
    rewrite parse_int_format by done. by f_equal; lia.
  - injection Hint as Hz1 Hz2. rewrite Hz1 in Hpos. rewrite Hz2 in Hneg. split; [lia|].
    change (gt_ShardID _) with (ShardID b) in Hl. rewrite Hl. destruct Ho as [_ Hp]. unfold base_value in Hp.
    simpl in Hp. simpl. rewrite Hp. f_equal. lia.
Qed.
