(* ===== verification/GroundhogReplay.v ===== *)
(** * Replay protection under the Groundhog executor

    Every transfer inserts its id into the set of its sender. The set survives the
    JSON text it is stored as, so a transfer executes at most once in a chain of
    blocks. *)
From S2P Require Import Prelude GoStd GoText GoJson JsonRoundtrip Tx Block StateRoot Serial SerialProps WorkerPool Groundhog GroundhogProps GroundhogOrder GroundhogAccept GroundhogTheorems GroundhogLedger.
Import Json.
Local Open Scope N_scope.
#[local] Opaque Sha256.sum256 sha256_hex.

(** ** Stored sets *)

Lemma str_rev_snoc s c : ∀ acc, str_rev_app (s +:+ String c EmptyString) acc = String c (str_rev_app s acc).
Proof. induction s as [|a s IH]; intros acc; simpl; [done|]. by rewrite IH. Qed.

Lemma str_rev_nonempty s : ∀ acc, acc ≠ "" → str_rev_app s acc ≠ "".
Proof. induction s as [|a s IH]; intros acc Hacc; simpl; [done|]. by apply IH. Qed.

(** A text in braces has no white space at its ends. *)
Lemma braces_not_blank s : trim_space (String "{" (s +:+ "}")) ≠ "".
Proof.
  unfold trim_space. set (l := drop_any spaces_fwd _ _).
  assert (l = String "{" (s +:+ "}")) as -> by reflexivity.
  unfold str_rev at 2. simpl str_rev_app. rewrite str_rev_snoc.
  set (t := str_rev_app s _).
  assert (∀ fuel, drop_any spaces_bwd fuel (String "}" t) = String "}" t) as -> by (by intros [|fuel]).
  unfold str_rev. cbn [str_rev_app]. by apply str_rev_nonempty.
Qed.

Record set_ok (s : groundhogOrderedSet) : Prop := {
  so_limit : (1 <= os_Limit s <= GroundhogOrderedSetMaximumLimit)%Z;
  so_cleared : os_Cleared s <= max_uint64;
  so_entries : Forall (λ e, oe_Tag e <= max_uint64 ∧ utf8_string (oe_Hash e)) (os_Entries s);
}.

Lemma json_set_ok s : set_ok s → json_ok (json_set s).
Proof.
  intros [_ _ He]. unfold json_set, fld, opt_uint.
  assert (∀ l, Forall (λ e, oe_Tag e <= max_uint64 ∧ utf8_string (oe_Hash e)) l →
    json_ok (JArr ((λ e, JObj ([("tag", JUint (oe_Tag e))] ++ [("hash", JStr (oe_Hash e))])) <$> l))) as Hl.
  { induction 1 as [|e l [_ Hh] _ IH]; [done|]. simpl in *. split_and!; try done; by apply name_utf8. }
  specialize (Hl _ He). destruct (os_Cleared s =? 0); cbn [app json_ok fold_right]; split_and!; try done; by apply name_utf8.
Qed.

Lemma json_set_text s : ∃ t, marshal (json_set s) = String "{" (t +:+ "}").
Proof. by eexists. Qed.

Lemma decode_entry_read e : oe_Tag e <= max_uint64 →
  decode_entry (value_of (JObj (fld "tag" (JUint (oe_Tag e)) ++ fld "hash" (JStr (oe_Hash e))))) = e.
Proof.
  intros Ht. unfold decode_entry. simpl.
  change (same_field "tag" "tag") with true. change (same_field "tag" "hash") with false.
  change (same_field "hash" "hash") with true. cbv iota. rewrite parse_uint_format by done. by destruct e.
Qed.

(** A set is read back from the text it is stored as. *)
Lemma decode_stored_set s limit : set_ok s → decodeGroundhogOrderedSet (marshal (json_set s)) limit = s.
Proof.
  intros Hs. pose proof (parse_json_marshal _ (json_set_ok s Hs)) as Hp. destruct Hs as [Hl Hc He].
  unfold decodeGroundhogOrderedSet. set (d := Z.min (if (limit <? 1)%Z then _ else _) _).
  assert ((trim_space (marshal (json_set s)) ≟ "") = false) as ->.
  { apply bool_decide_eq_false. destruct (json_set_text s) as [t ->]. apply braces_not_blank. }
  unfold unmarshal_set. rewrite Hp. clear Hp.
  assert (∀ out entries, os_Entries out = [] →
    foldl decode_set_field out (map (λ '(k, v), (k, (value_of v, bytes_of_string (marshal v))))
      (fld "entries" (JArr ((λ e, JObj (fld "tag" (JUint (oe_Tag e)) ++ fld "hash" (JStr (oe_Hash e)))) <$> entries)))) =
    MkSet (os_Limit out) (os_Cleared out) (decode_entry <$> (value_of <$> ((λ e, JObj (fld "tag" (JUint (oe_Tag e)) ++ fld "hash" (JStr (oe_Hash e)))) <$> entries)))) as Hent.
  { intros out entries Ho. unfold fld. cbn [map foldl value_of]. unfold decode_set_field. cbn [fst snd].
    change (same_field "limit" "entries") with false. change (same_field "cleared_through" "entries") with false.
    change (same_field "entries" "entries") with true. done. }
  assert (decode_entry <$> (value_of <$> ((λ e, JObj (fld "tag" (JUint (oe_Tag e)) ++ fld "hash" (JStr (oe_Hash e)))) <$> os_Entries s)) = os_Entries s) as Hrb.
  { clear -He. induction He as [|e l [Ht _] _ IH]; [done|]. rewrite !fmap_cons. f_equal; [by apply decode_entry_read|exact IH]. }
  unfold json_set. cbn [value_of]. rewrite !map_app, !foldl_app.
  assert (foldl decode_set_field (MkSet d 0 []) (map (λ '(k, v), (k, (value_of v, bytes_of_string (marshal v)))) (fld "limit" (JInt (os_Limit s)))) =
    MkSet (os_Limit s) 0 []) as ->.
  { unfold fld. cbn [map foldl value_of]. unfold decode_set_field. cbn [fst snd].
    change (same_field "limit" "limit") with true. cbv iota. unfold decode_int.
    rewrite parse_int_format; [done|]. unfold GroundhogOrderedSetMaximumLimit, min_int64, max_int64 in *. lia. }
  assert (foldl decode_set_field (MkSet (os_Limit s) 0 []) (map (λ '(k, v), (k, (value_of v, bytes_of_string (marshal v)))) (opt_uint "cleared_through" (os_Cleared s))) =
    MkSet (os_Limit s) (os_Cleared s) []) as ->.
  { unfold opt_uint. destruct (N.eqb_spec (os_Cleared s) 0) as [->|Hne]; [done|]. cbn [map foldl value_of].
    unfold decode_set_field. cbn [fst snd]. change (same_field "limit" "cleared_through") with false.
    change (same_field "cleared_through" "cleared_through") with true. cbv iota. unfold decode_uint.
    by rewrite parse_uint_format. }
  rewrite Hent by done. rewrite Hrb. cbn [os_Limit os_Cleared os_Entries].
  rewrite (proj2 (Z.ltb_ge _ _)) by lia. rewrite Z.min_l by lia. by destruct s.
Qed.

(** ** Modifications of the replay set *)

Definition set_only (key : string) (m : groundhogModification) : Prop :=
  gm_Key m = key → is_set_kind (gm_Kind m) = true.

Record replay_normalizing (key : string) (n : normalizing) (others : list groundhogModification) : Prop := {
  rn_ints : nz_ints n !! key = None;
  rn_bytes : map_Forall (λ k m, gm_Key m = k ∧ k ≠ key) (nz_bytes n);
  rn_others : at_key key (nz_others n) = others;
}.

Lemma normalize_all_at key ms : ∀ n n' others,
  replay_normalizing key n others → Forall (set_only key) ms → normalize_all n ms = inr n' →
  replay_normalizing key n' (others ++ at_key key ms).
Proof.
  induction ms as [|m ms IH]; intros n n' others Hn Hms H; simpl in H.
  { simplify_eq. unfold at_key. by rewrite filter_nil, app_nil_r. }
  destruct (normalize_one n m) as [|n1] eqn:E; [done|]. apply Forall_cons in Hms as [Hm Hms].
  change (m :: ms) with ([m] ++ ms). unfold at_key. rewrite filter_app, (assoc (++)).
  apply (IH n1); [|done|done]. destruct Hn as [Hi Hb Ho]. unfold normalize_one in E.
  destruct (decide (gm_Key m = key)) as [Hk|Hk].
  - specialize (Hm Hk). rewrite filter_cons, decide_True, filter_nil by done.
    destruct (gm_Kind m); try done; simplify_eq; split; simpl; try done; unfold at_key;
      by rewrite filter_app, filter_cons, decide_True, filter_nil.
  - rewrite filter_cons, decide_False, filter_nil, app_nil_r by done.
    destruct (gm_Kind m); repeat case_match; simplify_eq; split; simpl; try done;
      try (by rewrite lookup_insert_ne); try (by apply map_Forall_insert_2);
      unfold at_key; by rewrite filter_app, filter_cons, decide_False, filter_nil, app_nil_r by done.
Qed.

Lemma int_mods_key k a ms : int_mods k a = inr ms → Forall (λ m, gm_Key m = k) ms.
Proof.
  unfold int_mods. intros H. repeat (case_match; [done|]). simplify_eq.
  rewrite !Forall_app. repeat split; case_match; by repeat constructor.
Qed.

Lemma at_key_other key ms : Forall (λ m, gm_Key m ≠ key) ms → at_key key ms = [].
Proof. unfold at_key. induction 1 as [|m ms Hm _ IH]; [done|]. by rewrite filter_cons, decide_False. Qed.

Lemma at_key_app key ms1 ms2 : at_key key (ms1 ++ ms2) = at_key key ms1 ++ at_key key ms2.
Proof. apply filter_app. Qed.

Lemma emit_ints_at ints keys key : ∀ ms, key ∉ keys → emit_ints ints keys = inr ms → at_key key ms = [].
Proof.
  induction keys as [|k keys IH]; intros ms Hk H; simpl in H; [by simplify_eq|].
  destruct (int_mods k _) as [|ms1] eqn:E1; [done|]. destruct (emit_ints ints keys) as [|ms2]; [done|]. simplify_eq.
  apply not_elem_of_cons in Hk as [Hne Hk]. rewrite at_key_app, (IH ms2), app_nil_r by done. apply at_key_other.
  eapply Forall_impl; [by eapply int_mods_key|]. by intros m ->.
Qed.

Lemma normalize_at `{MapOrder} key input out :
  Forall (set_only key) input → normalizeGroundhogModifications input = inr out →
  at_key key out ≡ₚ at_key key input.
Proof.
  intros Hi Hn. unfold normalizeGroundhogModifications in Hn.
  destruct (normalize_all _ input) as [|n] eqn:En; [done|].
  apply (normalize_all_at key _ _ _ []) in En as [Hints Hb Ho]; [|split; [done|apply map_Forall_empty|done]|done].
  destruct (emit_ints _ _) as [|ints] eqn:Ei; [done|]. simplify_eq.
  rewrite (at_key_perm _ _ _ (sort_stable_perm _)), !at_key_app, Ho.
  rewrite (emit_ints_at _ _ _ _) by (done || (intros Hk; pose proof (range_keys_defined (nz_ints n)) as Hd;
    rewrite Forall_forall in Hd; destruct (Hd _ Hk); congruence)).
  cbn [app]. rewrite (at_key_other key (omap _ _)); [done|]. apply Forall_forall. intros m Hm.
  apply list_elem_of_omap in Hm as (k & _ & Hk). destruct (Hb _ _ Hk). congruence.
Qed.

(** ** What a transaction inserts *)

Definition replay_key (x : string) : string := "groundhog:replay:" +:+ x.

Definition sent_by (x : string) (items : list SignedTransaction) : list SignedTransaction :=
  filter (λ item, is_transfer item = true ∧ Sender item = x) items.

Definition insert_of (x : string) (item : SignedTransaction) : groundhogModification :=
  mod_insert (replay_key x) (u64_add (Nonce item) 1) (TxID item).

(** An access list that does not name the set. *)
Definition keeps_off (key : string) (item : SignedTransaction) : Prop :=
  Forall (λ a, ai_Key a ≠ key) (AccessList item).

Lemma replay_key_inj x y : replay_key x = replay_key y → x = y.
Proof. unfold replay_key. intros H. by injection H. Qed.

Lemma transfer_at e b base item reads ms x :
  interpret_transfer e b base item = (reads, inr ms) →
  Forall (set_only (replay_key x)) ms ∧ at_key (replay_key x) ms = insert_of x <$> sent_by x [item] ∧
  Forall (λ y, Nonce y ≠ max_uint64) (sent_by x [item]).
Proof.
  intros H. unfold interpret_transfer in H. unfold sent_by. rewrite filter_cons, filter_nil. unfold is_transfer.
  destruct (_ || _); [simplify_eq; rewrite decide_False by naive_solver; by split|].
  destruct (Value item <=? 0)%Z; [done|]. destruct (_ <? _)%Z; [done|]. destruct (bool_decide_reflect (Nonce item = max_uint64)); [done|]. simplify_eq.
  split; [|split].
  - rewrite !Forall_cons. split_and!; [done|done|done|constructor].
  - unfold at_key. rewrite !filter_cons, filter_nil. cbn [gm_Key mod_int mod_insert].
    rewrite !(decide_False (P := "balance:" +:+ _ = replay_key x)) by done. fold (replay_key (Sender item)).
    destruct (decide (Sender item = x)) as [<-|Hne].
    + rewrite !decide_True by done. done.
    + rewrite !decide_False; [done|naive_solver|]. intros E. by apply replay_key_inj in E.
  - case_decide; by repeat constructor.
Qed.

Lemma access_mods_keys item a v ms : access_mods item a v = inr ms → Forall (λ m, gm_Key m = ai_Key a) ms.
Proof. unfold access_mods. intros H. repeat case_match; simplify_eq; by repeat constructor. Qed.

Lemma accesses_at b base item key accesses : ∀ reads mods reads' ms,
  Forall (λ a, ai_Key a ≠ key) accesses → Forall (set_only key) mods →
  interpret_accesses b base item accesses reads mods = (reads', inr ms) →
  at_key key ms = at_key key mods ∧ Forall (set_only key) ms.
Proof.
  induction accesses as [|a rest IH]; intros reads mods reads' ms Ha Hm H; simpl in H; [by simplify_eq|].
  apply Forall_cons in Ha as [Ha Hrest]. destruct (ai_Key a ≟ ""); [by eapply IH|]. destruct (_ || _); [by eapply IH|].
  destruct (access_mods item a _) as [|ms1] eqn:E; [done|]. apply access_mods_keys in E.
  apply IH in H as [-> Hs]; [|done|].
  - split; [|done]. rewrite at_key_app, (at_key_other key ms1), app_nil_r; [done|].
    eapply Forall_impl; [exact E|]. by intros m ->.
  - apply Forall_app. split; [done|]. eapply Forall_impl; [exact E|]. intros m Hk Hk'. congruence.
Qed.

Lemma interpret_at `{MapOrder} e b base index item x :
  keeps_off (replay_key x) item →
  let a := interpretTransaction e b base index item in
  ga_TerminalError a = "" →
  at_key (replay_key x) (ga_Modifications a) = insert_of x <$> sent_by x [item] ∧
  Forall (λ y, Nonce y ≠ max_uint64) (sent_by x [item]).
Proof.
  intros Hk a Hs. destruct (interpret_success e b base index item Hs) as (reads & ms & reads' & ms' & E1 & E2 & E3).
  destruct (transfer_at _ _ _ _ _ _ x E1) as (S1 & A1 & Hn). split; [|exact Hn]. clear Hn.
  destruct (accesses_at _ _ _ (replay_key x) _ _ _ _ _ Hk S1 E2) as [A2 S2].
  pose proof (normalize_at (replay_key x) _ _ S2 E3) as Hp. rewrite A2, A1 in Hp. unfold a.
  revert Hp. unfold sent_by. rewrite filter_cons, filter_nil. case_decide; simpl; intros Hp.
  - by apply Permutation_singleton_r in Hp.
  - by apply Permutation_nil_r in Hp.
Qed.

Lemma block_at `{MapOrder} e b base x items (f : groundhogAttempt → TxDelta) :
  Forall (keeps_off (replay_key x)) items →
  (∀ a, td_Success (f a) = (ga_TerminalError a ≟ "")) → ∀ start,
  let attempts := imap (λ i item, interpretTransaction e b base (Z.of_nat (start + i)) item) items in
  let done := sent_by x (settled items (f <$> attempts)) in
  at_key (replay_key x) (mjoin (attempt_mods <$> attempts)) = insert_of x <$> done ∧
  Forall (λ y, Nonce y ≠ max_uint64) done.
Proof.
  intros Hk Hf. induction Hk as [|item items Hi _ IH]; intros start; [by split|]. cbn zeta.
  rewrite imap_cons. specialize (IH (S start)). cbn zeta in IH.
  assert (imap ((λ i item, interpretTransaction e b base (Z.of_nat (start + i)) item) ∘ S) items =
          imap (λ i item, interpretTransaction e b base (Z.of_nat (S start + i)) item) items) as ->.
  { apply imap_ext. intros i y _. simpl. by rewrite Nat.add_succ_r. }
  rewrite Nat.add_0_r. set (a := interpretTransaction e b base (Z.of_nat start) item).
  set (rest := imap _ items) in *. destruct IH as [IH1 IH2].
  change (mjoin (attempt_mods <$> (a :: rest))) with (attempt_mods a ++ mjoin (attempt_mods <$> rest)).
  change (settled (item :: items) (f <$> (a :: rest))) with
    (match (if td_Success (f a) then Some item else None) with
     | Some y => [y] ++ settled items (f <$> rest) | None => settled items (f <$> rest) end).
  rewrite at_key_app, IH1, Hf. unfold attempt_mods. destruct (decide (ga_TerminalError a = "")) as [Hs|Hs].
  - rewrite bool_decide_eq_true_2 by done. cbn [negb]. cbv iota.
    destruct (interpret_at e b base (Z.of_nat start) item x Hi Hs) as [A N]. fold a in A. rewrite A.
    unfold sent_by in *. rewrite filter_app, fmap_app, Forall_app. done.
  - rewrite bool_decide_eq_false_2 by done. by split.
Qed.

(** ** The set of hashes an entry stands for *)

Definition hashes_of (s : groundhogOrderedSet) : gmap string N :=
  foldl (λ h entry, if os_Cleared s <? oe_Tag entry then <[oe_Hash entry := oe_Tag entry]> h else h) ∅ (os_Entries s).

Definition hash_ok (id : string) (tag : N) : Prop := 0 < tag <= max_uint64 ∧ utf8_string id.

(** The entry [key] of the state holds the hashes [h], none of them cleared. *)
Definition stored (st : gmap string string) (key : string) (h : gmap string N) : Prop :=
  map_Forall hash_ok h ∧ ∀ limit, let s := decodeGroundhogOrderedSet (default "" (st !! key)) limit in
    (1 <= os_Limit s <= GroundhogOrderedSetMaximumLimit)%Z ∧ os_Cleared s = 0 ∧ hashes_of s = h.

Lemma stored_none st key : st !! key = None → stored st key ∅.
Proof.
  intros Hn. split; [apply map_Forall_empty|]. intros limit. rewrite Hn. unfold decodeGroundhogOrderedSet. simpl.
  set (d := Z.min (if (limit <? 1)%Z then _ else _) _). split; [|done]. simpl.
  assert (1 <= d <= GroundhogOrderedSetMaximumLimit)%Z as Hd.
  { unfold d, GroundhogOrderedSetInitialLimit, GroundhogOrderedSetMaximumLimit.
    destruct (Z.ltb_spec limit 1); lia. }
  rewrite (proj2 (Z.ltb_ge _ _)) by lia. lia.
Qed.

Lemma insert_entries l : ∀ h : gmap string N, NoDup l.*1 → (∀ k, k ∈ l.*1 → h !! k = None) →
  Forall (λ kv, 0 < kv.2) l →
  foldl (λ h entry, if 0 <? oe_Tag entry then <[oe_Hash entry := oe_Tag entry]> h else h) h
    ((λ kv, MkEntry kv.2 kv.1) <$> l) = list_to_map l ∪ h.
Proof.
  induction l as [|[k v] l IH]; intros h Hnd Hf Hp; [symmetry; apply map_empty_union|].
  apply NoDup_cons in Hnd as [Hk Hnd]. apply Forall_cons in Hp as [Hv Hp]. simpl in *.
  rewrite (proj2 (N.ltb_lt _ _) Hv). rewrite IH; [|done| |done].
  - rewrite <- insert_union_l. apply map_eq. intros j. rewrite lookup_insert, lookup_union.
    destruct (decide (k = j)) as [<-|Hne].
    + rewrite (not_elem_of_list_to_map_1 l k) by done. by rewrite lookup_insert_eq.
    + by rewrite lookup_insert_ne, lookup_union by done.
  - intros j Hj. rewrite lookup_insert_ne by (by intros ->). apply Hf. by right.
Qed.

Lemma live_entries_read limit (h : gmap string N) : map_Forall hash_ok h →
  hashes_of (MkSet limit 0 (live_entries (MkSet limit 0 []) h)) = h.
Proof.
  intros Hh. unfold hashes_of, live_entries. cbn [os_Cleared os_Entries].
  assert (filter (λ kv, 0 < kv.2) (map_to_list h) = map_to_list h) as ->.
  { apply filter_all. intros [k v] Hk%elem_of_map_to_list. by apply Hh in Hk as [[? _] _]. }
  set (sorted := merge_sort entry_le _).
  assert (sorted ≡ₚ (λ kv, MkEntry kv.2 kv.1) <$> map_to_list h) as Hs by apply merge_sort_Permutation.
  apply Permutation_map_inv in Hs as (l & -> & Hp).
  rewrite (insert_entries l ∅).
  - rewrite map_union_empty, <- (list_to_map_proper (map_to_list h)); [apply list_to_map_to_list|apply NoDup_fst_map_to_list|done].
  - rewrite <- Hp. apply NoDup_fst_map_to_list.
  - intros k _. apply lookup_empty.
  - rewrite <- Hp. apply Forall_forall. intros [k v] Hk%elem_of_map_to_list. by apply Hh in Hk as [[? _] _].
Qed.

Lemma live_entries_ok limit (h : gmap string N) : map_Forall hash_ok h →
  Forall (λ e, oe_Tag e <= max_uint64 ∧ utf8_string (oe_Hash e)) (live_entries (MkSet limit 0 []) h).
Proof.
  intros Hh. unfold live_entries. rewrite merge_sort_Permutation, Forall_fmap, Forall_forall.
  intros [k v] [_ Hk%elem_of_map_to_list]%list_elem_of_filter. by apply Hh in Hk as [[_ ?] ?].
Qed.

(** What materializing a set writes. *)
Lemma stored_text st key limit entries h :
  (1 <= limit <= GroundhogOrderedSetMaximumLimit)%Z → map_Forall hash_ok h →
  st !! key = Some (marshal (json_set (MkSet limit 0 (live_entries (MkSet limit 0 entries) h)))) → stored st key h.
Proof.
  intros Hl Hh Hk. split; [done|]. intros limit'. rewrite Hk. cbn [default from_option id]. cbv zeta.
  change (live_entries (MkSet limit 0 entries) h) with (live_entries (MkSet limit 0 []) h).
  rewrite decode_stored_set by (split; [done|done|by apply live_entries_ok]).
  split; [done|]. split; [done|]. by apply live_entries_read.
Qed.

(** ** One block *)

Definition insert_all (h : gmap string N) (l : list SignedTransaction) : gmap string N :=
  foldl (λ h item, <[TxID item := u64_add (Nonce item) 1]> h) h l.

Lemma insert_all_lookup l id : ∀ h, insert_all h l !! id = None ↔ h !! id = None ∧ id ∉ TxID <$> l.
Proof.
  induction l as [|item l IH]; intros h; simpl; [set_solver|]. unfold insert_all in *. simpl. rewrite IH, lookup_insert_None.
  rewrite not_elem_of_cons. naive_solver.
Qed.

Lemma insert_all_ok l : ∀ h, map_Forall hash_ok h →
  Forall (λ item, hash_ok (TxID item) (u64_add (Nonce item) 1)) l → map_Forall hash_ok (insert_all h l).
Proof.
  induction l as [|item l IH]; intros h Hh Hl; [done|]. apply Forall_cons in Hl as [Hi Hl].
  apply IH; [|done]. by apply map_Forall_insert_2.
Qed.

(** A run of insertions: no hash was there before, and all of them are afterwards. *)
Lemma run_inserts t x l : ∀ o r, ob_Kind o = groundhogOrderedSetInsert →
  key_run t (Some o) (insert_of x <$> l) = Some r →
  ∃ o', r = Some o' ∧ ob_Kind o' = groundhogOrderedSetInsert ∧ ob_Set o' = ob_Set o ∧
    ob_SetByHash o' = insert_all (ob_SetByHash o) l ∧
    NoDup (TxID <$> l) ∧ Forall (λ id, ob_SetByHash o !! id = None) (TxID <$> l).
Proof.
  induction l as [|item l IH]; intros o r Hk H; simpl in H.
  { simplify_eq. exists o. split_and!; try done; constructor. }
  unfold apply_object in H. cbn [gm_Kind mod_insert insert_of] in H. rewrite Hk in H.
  change (negb (groundhogKindsCompatible groundhogOrderedSetInsert groundhogOrderedSetInsert)) with false in H.
  cbv iota in H. unfold apply_to_object in H. cbn [gm_Kind mod_insert insert_of gm_Hash gm_Tag gm_Key] in H.
  destruct (ob_SetByHash o !! TxID item) as [|] eqn:Eh; [done|]. cbn [defined] in H. destruct (_ <=? _)%Z; [done|].
  apply IH in H as (o' & -> & Hk' & Es & Eh' & Hnd & Hf); [|done]. exists o'. cbn [set_set ob_SetByHash ob_Set] in *.
  assert (TxID item ∉ TxID <$> l) as Hni.
  { intros Hin. rewrite Forall_forall in Hf. specialize (Hf _ Hin). by rewrite lookup_insert_eq in Hf. }
  split_and!; try done; [by constructor|]. constructor; [done|]. eapply Forall_impl; [exact Hf|].
  by intros id [? _]%lookup_insert_None.
Qed.

(** A transaction id is UTF-8 and a nonce is a [uint64]. *)
Definition id_typed (item : SignedTransaction) : Prop := utf8_string (TxID item) ∧ Nonce item <= max_uint64.

(** The block leaves the replay set of [x] to the transfers: no access list names it
    and no write set names its entry by another key. *)
Definition untouched (x : string) (b : Block) (r : Result) : Prop :=
  Forall (keeps_off (replay_key x)) (TxList b) ∧
  ∀ d k, d ∈ re_TxDeltas r → is_Some (td_WriteSet d !! k) →
    groundhogQualifiedKey (ShardID b) k = groundhogQualifiedKey (ShardID b) (replay_key x) → k = replay_key x.

(** The transfers of [x] the block executes. *)
Definition executed_of (x : string) (b : Block) (r : Result) : list SignedTransaction :=
  sent_by x (settled (TxList b) (re_TxDeltas r)).

Lemma settled_in items deltas item : item ∈ settled items deltas → item ∈ items.
Proof.
  unfold settled. intros ([i d] & Hz & Hs)%list_elem_of_omap. simpl in Hs. destruct (td_Success d); [|done].
  injection Hs as <-. by apply elem_of_zip_l in Hz.
Qed.

Lemma executed_hashes x b r l : Forall id_typed (TxList b) → l ≡ₚ executed_of x b r →
  Forall (λ y, Nonce y ≠ max_uint64) (executed_of x b r) →
  Forall (λ item, hash_ok (TxID item) (u64_add (Nonce item) 1)) l.
Proof.
  intros Ht Hl Hn. rewrite Hl. rewrite Forall_forall in Ht, Hn |- *. intros item Hi. specialize (Hn _ Hi).
  apply list_elem_of_filter in Hi as [_ Hi]. apply settled_in in Hi. destruct (Ht _ Hi) as [Hu Hm].
  split; [|done]. unfold u64_add, two64, max_uint64 in *. rewrite N.mod_small; lia.
Qed.

(** The object of the set after a block that inserts into it. *)
Lemma inserted_object t x l (objects : gmap string groundhogObject) h :
  l ≠ [] → stored (gt_Base t) (groundhogQualifiedKey (gt_ShardID t) (replay_key x)) h →
  key_run t None (insert_of x <$> l) = Some (objects !! replay_key x) →
  NoDup (TxID <$> l) ∧ Forall (λ id, h !! id = None) (TxID <$> l) ∧
  ∃ limit entries o, objects !! replay_key x = Some o ∧ (1 <= limit <= GroundhogOrderedSetMaximumLimit)%Z ∧
    object_value (replay_key x) o =
      inr (marshal (json_set (MkSet limit 0 (live_entries (MkSet limit 0 entries) (insert_all h l))))).
Proof.
  intros Hl Hst K. destruct l as [|y l]; [done|].
  set (o0 := newObject t (insert_of x y)).
  change (key_run t (Some o0) (insert_of x <$> y :: l) = Some (objects !! replay_key x)) in K.
  assert (ob_Kind o0 = groundhogOrderedSetInsert ∧ ob_SetByHash o0 = h ∧ os_Cleared (ob_Set o0) = 0 ∧
    (1 <= os_Limit (ob_Set o0) <= GroundhogOrderedSetMaximumLimit)%Z) as (Hk & Hh & Hc & Hlim).
  { unfold o0, newObject. cbn [gm_Kind gm_Key insert_of mod_insert is_set_kind ob_Kind ob_SetByHash ob_Set].
    destruct (proj2 Hst (gt_OrderedSetLimit t)) as (? & ? & ?). done. }
  clearbody o0. apply run_inserts in K as (o' & -> & Hk' & Es & Eh & Hnd & Hf); [|done].
  rewrite Hh in Hf, Eh. split_and!; [done|done|]. exists (os_Limit (ob_Set o0)), (os_Entries (ob_Set o0)), o'.
  split; [done|]. split; [done|]. unfold object_value. rewrite Hk', Es, Eh. rewrite <- Hc. by destruct (ob_Set o0).
Qed.

Lemma replay_step (O : MapOrder) e b base c s r x h :
  Forall id_typed (TxList b) → untouched x b r → sc_order s ≡ₚ seq 0 (length (TxList b)) →
  GroundhogExecuteBlockWithCommitment e b base c false s = GhReturned r →
  stored base (groundhogQualifiedKey (ShardID b) (replay_key x)) h →
  ∃ l, l ≡ₚ executed_of x b r ∧ NoDup (TxID <$> l) ∧ Forall (λ id, h !! id = None) (TxID <$> l) ∧
    stored (re_StateUpdates r) (groundhogQualifiedKey (ShardID b) (replay_key x)) (insert_all h l).
Proof.
  intros Ht [Hoff Halias] Hord H Hst.
  apply returned_block in H as (objects & working & A & M & Er).
  set (attempts := attempts_of e b base (TxList b)) in *. set (t := newGroundhogReservationTable _ _ _) in *.
  set (ms := flat_mods attempts (sc_order s)) in *.
  assert (∃ root, re_TxDeltas r = groundhog_delta b working root <$> attempts) as [root Ed] by (subst r; by eexists).
  assert (re_StateUpdates r = working) as -> by (by subst r). clear Er.
  destruct (block_at e b base x (TxList b) (groundhog_delta b working root) Hoff (λ a, eq_refl) 0) as [Hat Hn].
  change (imap _ (TxList b)) with attempts in Hat, Hn. rewrite <- Ed in Hat, Hn.
  fold (executed_of x b r) in Hat, Hn.
  assert (at_key (replay_key x) ms ≡ₚ insert_of x <$> executed_of x b r) as Hp.
  { rewrite <- Hat. apply at_key_perm, flat_mods_all. unfold attempts, attempts_of. by rewrite length_imap. }
  apply Permutation_map_inv in Hp as (l & Hl & Hperm). exists l. split; [by symmetry|].
  pose proof (proj1 (apply_mods_keys _ _ _ _) A (replay_key x)) as K. rewrite lookup_empty, Hl in K.
  opose proof* (materialize_lookup (set_objects t objects) (replay_key x) _ _ _ M) as Hw.
  { intros k' _ Hk' Hq. destruct (objects_written _ _ _ _ A Hk') as (m & Hm & Hmk).
    destruct (written_keys b working root attempts (sc_order s) k' m Hm Hmk) as (d & Hd & Hw).
    apply (Halias d); [by rewrite Ed|done|done]. }
  cbn [gt_Objects set_objects] in Hw. change (gt_ShardID _) with (ShardID b) in Hw.
  change (gt_Base _) with base in Hw. destruct (decide (l = [])) as [->|Hne].
  - simpl in K. injection K as K. rewrite <- K in Hw. split_and!; [constructor|constructor|].
    unfold stored in *. by rewrite Hw.
  - apply (inserted_object t x l objects h Hne Hst) in K as (Hnd & Hf & limit & entries & o & Eo & Hlim & Hv).
    split_and!; [done|done|]. rewrite Eo in Hw. rewrite decide_True in Hw by (apply elem_of_sorted_keys; by eexists).
    destruct Hw as (v & Hv' & Hw). rewrite Hv in Hv'. injection Hv' as <-. eapply stored_text; [done| |exact Hw].
    apply insert_all_ok; [apply Hst|]. eapply executed_hashes; [exact Ht|by symmetry|done].
Qed.

(** ** Chains of blocks *)

(** Each block is executed over the state the block before it leaves; the executor,
    the schedule and the order of the maps may differ from block to block. *)
Inductive groundhog_chain (shard : string) : gmap string string → list (Block * Result) → Prop :=
  | chain_nil st : groundhog_chain shard st []
  | chain_cons (O : MapOrder) e b c s st r rest :
      ShardID b = shard → sc_order s ≡ₚ seq 0 (length (TxList b)) →
      GroundhogExecuteBlockWithCommitment e b st c false s = GhReturned r →
      groundhog_chain shard (re_StateUpdates r) rest → groundhog_chain shard st ((b, r) :: rest).

Definition chain_executed (x : string) (chain : list (Block * Result)) : list SignedTransaction :=
  mjoin ((λ br, executed_of x br.1 br.2) <$> chain).

Lemma chain_fresh shard x st chain : groundhog_chain shard st chain → ∀ h,
  stored st (groundhogQualifiedKey shard (replay_key x)) h →
  Forall (λ br, Forall id_typed (TxList br.1) ∧ untouched x br.1 br.2) chain →
  NoDup (TxID <$> chain_executed x chain) ∧ Forall (λ id, h !! id = None) (TxID <$> chain_executed x chain).
Proof.
  induction 1 as [st|O e b c s st r rest Hsh Hord H Hc IH]; intros h Hst Hall; [split; constructor|].
  apply Forall_cons in Hall as [[Ht Hu] Hall]. subst shard.
  destruct (replay_step O e b st c s r x h Ht Hu Hord H Hst) as (l & Hl & Hnd & Hf & Hst').
  destruct (IH _ Hst' Hall) as [IHd IHf].
  change (chain_executed x ((b, r) :: rest)) with (executed_of x b r ++ chain_executed x rest).
  rewrite fmap_app, <- Hl. split.
  - apply NoDup_app. split_and!; [done| |done]. intros id Hi Hi'. rewrite Forall_forall in IHf.
    specialize (IHf _ Hi'). by apply insert_all_lookup in IHf as [_ ?].
  - apply Forall_app. split; [done|]. eapply Forall_impl; [exact IHf|]. by intros id [? _]%insert_all_lookup.
Qed.

(** C12: A transfer executes at most once in a chain of blocks: when the chain starts
    without a replay set for [x] and no transaction names that set itself, the ids
    of all transfers of [x] that the blocks execute are different, although each
    block reads the set back from the JSON text the block before it stored. *)
Theorem groundhog_no_replay shard x st chain :
  groundhog_chain shard st chain → st !! groundhogQualifiedKey shard (replay_key x) = None →
  Forall (λ br, Forall id_typed (TxList br.1) ∧ untouched x br.1 br.2) chain →
  NoDup (TxID <$> chain_executed x chain).
Proof. intros Hc Hn Hall. eapply chain_fresh; [done|by apply stored_none|done]. Qed.
