(* ===== verification/GroundhogProposal.v ===== *)
(** * What a Groundhog proposer selects, every validator accepts *)
From S2P Require Import Prelude GoStd GoJson Tx Block StateRoot Serial SerialProps WorkerPool Groundhog GroundhogProps GroundhogOrder GroundhogAccept GroundhogTheorems.
Local Open Scope N_scope.
#[local] Opaque Sha256.sum256 sha256_hex Json.marshal.

(** ** Accepted tables materialize *)

Lemma set_kind_kept t ms : ∀ o r, key_run t (Some o) ms = Some r → ∃ o', r = Some o' ∧ ob_Kind o' = ob_Kind o.
Proof.
  induction ms as [|m ms IH]; intros o r H; simplify_eq/=; [by eexists|].
  destruct (apply_object t (Some o) m) as [o1|] eqn:E; [|done]. apply apply_object_some in E as (_ & _ & ->).
  destruct (IH _ _ H) as (o' & -> & Hk). exists o'. split; [done|]. by rewrite Hk, (proj1 (effect_kind o m)).
Qed.

Lemma accepted_value t key ms objects o :
  apply_mods t ∅ ms = Some objects → Forall (mod_out int64_base) ms → objects !! key = Some o →
  ∃ v, object_value key o = inr v.
Proof.
  intros Ha Hout Ho. pose proof (proj1 (apply_mods_keys _ _ _ _) Ha key) as K. rewrite lookup_empty, Ho in K.
  assert (∀ m, m ∈ at_key key ms → mod_out int64_base m) as Hall.
  { intros m [_ Hm]%list_elem_of_filter. rewrite Forall_forall in Hout. auto. }
  destruct (at_key key ms) as [|m rest]; [done|].
  destruct (decide (gm_Kind m = groundhogIntegerAdd)) as [Em|Em].
  - destruct (Hall m) as [_ Hm]; [left|]. destruct (Hm Em) as [Hb _].
    pose proof (new_int_object t _ _ _ Em Hb K) as Hnew.
    change (key_run t (Some (newObject t m)) (m :: rest) = Some (Some o)) in K.
    pose proof (key_run_kinds _ _ _ _ K) as Hk.
    assert (ob_Kind (newObject t m) = groundhogIntegerAdd) as Ek by (unfold newObject; by rewrite Em).
    apply key_run_int in K as (o' & [= <-] & (Ko & _ & _ & _ & _ & F) & _); [|done|].
    + unfold object_value. rewrite Ko. destruct (groundhogFinalIntValue _ _ _) as [v ov]. simpl in F. subst ov. by eexists.
    + apply Forall_forall. intros x Hx. destruct (Hk x Hx) as [Hc Hbx]. rewrite Ek in Hc.
      assert (gm_Kind x = groundhogIntegerAdd) as Ex by (by destruct (gm_Kind x)).
      destruct (Hall x Hx) as [_ Hi]. split_and!; [done|by apply Hbx|by apply Hi].
  - change (key_run t (Some (newObject t m)) (m :: rest) = Some (Some o)) in K.
    apply set_kind_kept in K as (o' & [= <-] & Ek). unfold object_value.
    assert (ob_Kind (newObject t m) = groundhogBytesSet ∨ ob_Kind (newObject t m) = groundhogOrderedSetInsert) as Hn.
    { unfold newObject. destruct (gm_Kind m); simpl; auto; done. }
    rewrite Ek. destruct Hn as [-> | ->]; by eexists.
Qed.

Lemma materialize_succeeds t keys : ∀ working,
  (∀ key o, gt_Objects t !! key = Some o → ∃ v, object_value key o = inr v) →
  ∃ w, materialize_objects t keys working = inr w.
Proof.
  induction keys as [|k keys IH]; intros working H; simpl; [by eexists|].
  destruct (gt_Objects t !! k) as [o|] eqn:E; [|by apply IH]. destruct (H _ _ E) as [v ->]. by apply IH.
Qed.

(** A block whose modifications some order accepts is executed. *)
Lemma accepted_block_returns `{MapOrder} e b base c s objects cancelled' attempts :
  in_i64 (gh_DefaultInitialBalance e) →
  apply_mods (newGroundhogReservationTable (ShardID b) base (gh_OrderedSetLimit e)) ∅
    (flat_mods (attempts_of e b base (TxList b)) (sc_order s)) = Some objects →
  sc_ended s = false →
  executeAttempts e b base (TxList b) (workerCountFor e (length (TxList b))) (sc_pool s) false =
    Some (cancelled', Some attempts) →
  ∃ r, GroundhogExecuteBlockWithCommitment e b base c false s = GhReturned r.
Proof.
  intros He A Hend Ha. pose proof (executeAttempts_results _ _ _ _ _ _ _ _ _ Ha) as ->.
  unfold GroundhogExecuteBlockWithCommitment. rewrite Ha. set (t := newGroundhogReservationTable _ _ _) in *.
  unfold reserveGroundhogAttemptsConcurrent.
  pose proof (reserve_in_order_ok (attempts_of e b base (TxList b)) (sc_order s) t) as Hro.
  change (gt_Objects t) with (∅ : gmap string groundhogObject) in Hro. rewrite A in Hro.
  rewrite Hro, Hend, decide_True by done.
  destruct (materialize_succeeds (set_objects t objects) (sorted_keys objects) base) as [w Hw].
  { intros key o Ho. eapply accepted_value; [exact A|by apply flat_mods_ints|exact Ho]. }
  unfold materializeTable. cbn [gt_Objects set_objects]. change (gt_Base _) with base. rewrite Hw. by eexists.
Qed.

(** ** Interpreting depends on the shard only *)

Lemma interpret_accesses_shard b1 b2 base item accesses : ShardID b1 = ShardID b2 → ∀ reads mods,
  interpret_accesses b1 base item accesses reads mods = interpret_accesses b2 base item accesses reads mods.
Proof.
  intros Hs. induction accesses as [|a rest IH]; intros reads mods; simpl; [done|].
  assert (∀ key, base_value b1 base key = base_value b2 base key) as Hb by (intros; unfold base_value; by rewrite Hs).
  unfold note_read. rewrite Hb. destruct (ai_Key a ≟ ""); [by rewrite IH|].
  destruct (_ || _); [by rewrite IH|]. destruct (access_mods item a _); [done|by rewrite IH].
Qed.

Lemma interpret_shard `{MapOrder} e b1 b2 base index1 index2 item : ShardID b1 = ShardID b2 →
  attempt_mods (interpretTransaction e b1 base index1 item) = attempt_mods (interpretTransaction e b2 base index2 item) ∧
  (ga_TerminalError (interpretTransaction e b1 base index1 item) =
   ga_TerminalError (interpretTransaction e b2 base index2 item)).
Proof.
  intros Hs. assert (interpret_transfer e b1 base item = interpret_transfer e b2 base item) as Ht.
  { unfold interpret_transfer, note_read, base_value. by rewrite Hs. }
  unfold interpretTransaction. rewrite Ht, Hs. destruct (_ || _); [done|].
  destruct (interpret_transfer e b2 base item) as [reads [|ms]]; [done|].
  rewrite (interpret_accesses_shard b1 b2) by done. destruct (interpret_accesses _ _ _ _ _ _) as [reads' [|ms']]; [done|].
  by destruct (normalizeGroundhogModifications ms').
Qed.

(** The modifications a transaction brings to a block of the shard. *)
Definition tx_mods `{MapOrder} (e : GroundhogExecutor) (b : Block) (base : gmap string string)
    (item : SignedTransaction) : list groundhogModification :=
  attempt_mods (interpretTransaction e b base 0 item).

Lemma attempts_mods `{MapOrder} e b1 b2 base items : ShardID b1 = ShardID b2 →
  attempt_mods <$> attempts_of e b1 base items = tx_mods e b2 base <$> items.
Proof.
  intros Hs. unfold attempts_of. apply list_eq. intros i. rewrite !list_lookup_fmap, list_lookup_imap.
  destruct (items !! i) as [item|]; simpl; [|done]. f_equal. by apply interpret_shard.
Qed.

(** ** Reserving candidates *)

Lemma reserve_in_order_accepted attempts order : ∀ t t' errors,
  NoDup order → reserve_in_order t attempts order = (t', errors) →
  (∀ i, is_Some (errors !! i) → i ∈ order) ∧
  apply_mods t (gt_Objects t) (flat_mods attempts (filter (λ i, errors !! i = None) order)) = Some (gt_Objects t') ∧
  set_objects t (gt_Objects t') = t'.
Proof.
  induction order as [|i order IH]; intros t t' errors Hnd H.
  { simplify_eq/=. split_and!; [|done|by destruct t']. intros i Hi. rewrite lookup_empty in Hi. by destruct Hi. }
  apply NoDup_cons in Hnd as [Hi Hnd]. simpl in H.
  assert (∀ t1, reserve_in_order t1 attempts order = (t', errors) →
    apply_mods t (gt_Objects t) (mods_at attempts i) = Some (gt_Objects t1) → set_objects t (gt_Objects t1) = t1 →
    (∀ j, is_Some (errors !! j) → j ∈ i :: order) ∧
    apply_mods t (gt_Objects t) (flat_mods attempts (filter (λ i, errors !! i = None) (i :: order))) =
      Some (gt_Objects t') ∧ set_objects t (gt_Objects t') = t') as Hgo.
  { intros t1 H1 Ha Et. destruct (IH _ _ _ Hnd H1) as (Hin & Hm & Et'). split_and!.
    - intros j Hj. right. auto.
    - rewrite filter_cons, decide_True.
      2:{ destruct (errors !! i) eqn:E; [|done]. destruct Hi. apply Hin. by eexists. }
      change (flat_mods attempts (i :: ?l)) with (mods_at attempts i ++ flat_mods attempts l).
      rewrite apply_mods_app, Ha. simpl. rewrite <- Et in Hm at 1. exact Hm.
    - rewrite <- Et in Et' at 1. exact Et'. }
  unfold mods_at in Hgo. destruct (attempts !! i) as [a|]; [|by apply (Hgo t H); [|destruct t]].
  unfold attempt_mods in Hgo. destruct (ga_TerminalError a ≠? ""); [by apply (Hgo t H); [|destruct t]|].
  pose proof (reserve_mods_ok (ga_Modifications a) t ∅) as Hr. fold (reserveTransaction t (ga_Modifications a)) in Hr.
  pose proof (reserveTransaction_atomic t (ga_Modifications a)) as Hat.
  destruct (apply_mods t _ (ga_Modifications a)) as [objects|].
  - rewrite Hr in H. by apply (Hgo _ H).
  - destruct Hr as [err Hr]. destruct (reserveTransaction t _) as [t1 err1]. simpl in *. subst err1.
    rewrite Hat in H by done. destruct (reserve_in_order t attempts order) as [t2 errors2] eqn:E. simplify_eq.
    destruct (IH _ _ _ Hnd E) as (Hin & Hm & Et'). split_and!; [|..|done].
    + intros j Hj. rewrite lookup_insert in Hj. case_decide; [subst; left|right; auto].
    + rewrite filter_cons, decide_False by (by rewrite lookup_insert_eq).
      rewrite (filter_ext_in _ (λ i, errors2 !! i = None)); [exact Hm|].
      intros j Hj. by rewrite lookup_insert_ne by (intros <-; done).
Qed.

Definition picked (errors : gmap nat string) (ia : nat * groundhogAttempt) : option SignedTransaction :=
  if (ga_TerminalError ia.2 ≠? "") || (errors !! ia.1 ≟ None) then Some (ga_Tx ia.2) else None.

Lemma propose_selected errors l : ∀ s,
  gs_Selected (foldl (propose_one errors) s l) = gs_Selected s ++ omap (picked errors) l.
Proof.
  induction l as [|[i a] l IH]; intros s; simpl; [by rewrite app_nil_r|]. rewrite IH. unfold picked at 2, propose_one. simpl.
  destruct (ga_TerminalError a ≠? ""); simpl; [by rewrite <- app_assoc|].
  destruct (errors !! i); simpl; [done|by rewrite <- app_assoc].
Qed.

Lemma defer_selected reason l : ∀ s, gs_Selected (foldl (λ s item, defer item reason s) s l) = gs_Selected s.
Proof. induction l as [|x l IH]; intros s; simpl; [done|]. by rewrite IH. Qed.

Lemma flat_mods_filter attempts (P : nat → Prop) `{∀ i, Decision (P i)} l :
  flat_mods attempts (filter P l) = mjoin ((λ i, if decide (P i) then mods_at attempts i else []) <$> l).
Proof.
  unfold flat_mods. induction l as [|i l IH]; [done|]. rewrite filter_cons, fmap_cons. cbn [mjoin list_join].
  destruct (decide (P i)); [|exact IH]. rewrite fmap_cons. cbn [mjoin list_join]. f_equal. exact IH.
Qed.

Lemma interpret_tx `{MapOrder} e b base index item : ga_Tx (interpretTransaction e b base index item) = item.
Proof. unfold interpretTransaction. repeat case_match; done. Qed.

Section proposal.
Context {O : MapOrder} (e : GroundhogExecutor) (b : Block) (base : gmap string string).

Lemma picked_mods attempts errors l :
  Forall (λ ia, attempts !! ia.1 = Some ia.2 ∧ attempt_mods ia.2 = tx_mods e b base (ga_Tx ia.2)) l →
  mjoin (tx_mods e b base <$> omap (picked errors) l) =
  mjoin ((λ i, if decide (errors !! i = None) then mods_at attempts i else []) <$> l.*1).
Proof.
  induction 1 as [|[i a] l [Ha Hm] _ IH]; [done|]. simpl in *. unfold mods_at at 1. rewrite Ha.
  unfold picked at 1. cbn [fst snd].
  destruct (decide (ga_TerminalError a = "")) as [Et|Et], (decide (errors !! i = None)) as [Hd|Hd];
    rewrite ?(bool_decide_eq_true_2 _ Et), ?(bool_decide_eq_false_2 _ Et),
      ?(bool_decide_eq_true_2 _ Hd), ?(bool_decide_eq_false_2 _ Hd); simpl.
  - rewrite <- Hm. f_equal. exact IH.
  - exact IH.
  - rewrite <- Hm. f_equal. exact IH.
  - rewrite <- Hm. unfold attempt_mods. rewrite (bool_decide_eq_false_2 _ Et). exact IH.
Qed.

Lemma mods_at_beyond attempts errors n k : (length attempts <= n)%nat →
  mjoin ((λ i, if decide ((errors : gmap nat string) !! i = None) then mods_at attempts i else []) <$> seq n k) = [].
Proof.
  revert n. induction k as [|k IH]; intros n Hn; [done|]. simpl. rewrite IH by lia. unfold mods_at.
  rewrite lookup_ge_None_2 by lia. by case_decide.
Qed.

Lemma chunk_mods chunk errors order w :
  order ≡ₚ seq 0 w → (length chunk <= w)%nat →
  let attempts := attempts_of e b base chunk in
  flat_mods attempts (filter (λ i, errors !! i = None) order) ≡ₚ
  mjoin (tx_mods e b base <$> omap (picked errors) (imap pair attempts)).
Proof.
  intros Hp Hw attempts. assert (length attempts = length chunk) as Hlen by apply length_imap.
  rewrite (picked_mods attempts).
  - rewrite flat_mods_filter, Hp. rewrite <- Hlen in Hw.
    replace w with (length attempts + (w - length attempts))%nat by lia.
    rewrite seq_app, fmap_app, join_app, (mods_at_beyond attempts _ (0 + length attempts)), app_nil_r by lia.
    assert ((imap pair attempts).*1 = seq 0 (length attempts)) as ->; [|done].
    apply list_eq. intros i. rewrite list_lookup_fmap, list_lookup_imap.
    destruct (decide (i < length attempts)%nat) as [Hi|Hi].
    + rewrite lookup_seq_lt by done. destruct (lookup_lt_is_Some_2 _ _ Hi) as [a ->]. done.
    + rewrite lookup_seq_ge, lookup_ge_None_2 by lia. done.
  - apply Forall_forall. intros [i a] Hin. apply elem_of_lookup_imap in Hin as (j & y & Hj & Hy).
    injection Hj as -> ->. simpl. split; [done|]. unfold attempts, attempts_of in Hy.
    rewrite list_lookup_imap in Hy. destruct (chunk !! j) as [item|]; [|done]. injection Hy as <-.
    rewrite interpret_tx. by apply interpret_shard.
Qed.

(** The table holds what the selected candidates ask for, in some order. *)
Definition reserved (t0 t : groundhogReservationTable) (selected : list SignedTransaction) : Prop :=
  set_objects t0 (gt_Objects t) = t ∧
  ∃ ms, ms ≡ₚ mjoin (tx_mods e b base <$> selected) ∧ apply_mods t0 ∅ ms = Some (gt_Objects t).

Lemma reserved_chunk t0 t t' s chunk errors order w :
  reserved t0 t (gs_Selected s) → order ≡ₚ seq 0 w → (length chunk <= w)%nat →
  reserve_in_order t (attempts_of e b base chunk) order = (t', errors) →
  reserved t0 t' (gs_Selected (foldl (propose_one errors) s (imap pair (attempts_of e b base chunk)))).
Proof.
  intros (Et & ms & Hp & Ha) Ho Hw H.
  apply reserve_in_order_accepted in H as (_ & Hm & Et'); [|rewrite Ho; apply NoDup_seq].
  split; [by rewrite <- Et'; rewrite <- Et|].
  eexists (ms ++ _). split; [|rewrite apply_mods_app, Ha; simpl; rewrite <- Et in Hm at 1; exact Hm].
  rewrite propose_selected, fmap_app, join_app, Hp, (chunk_mods chunk errors order w) by done. done.
Qed.

Lemma propose_loop_reserved t0 w limit schedules : ∀ fuel candidates t s t' s',
  (∀ schedule, schedule ∈ schedules → sc_order schedule ≡ₚ seq 0 (Z.to_nat w)) →
  reserved t0 t (gs_Selected s) →
  propose_loop fuel e b base w limit schedules candidates t s = GhReturned (t', s') →
  reserved t0 t' (gs_Selected s').
Proof.
  induction schedules as [|schedule schedules IH]; intros fuel candidates t s t' s' Hs Hr H;
    destruct fuel as [|fuel], candidates as [|x candidates]; cbn [propose_loop] in H; simplify_eq; try done;
    destruct (limit <=? _)%Z; simplify_eq; try done; try (by rewrite defer_selected).
  set (n := Z.to_nat (Z.min _ _)) in H. set (chunk := take n (x :: candidates)) in H.
  destruct (executeAttempts _ _ _ _ _ _ _) as [[c' [attempts|]]|] eqn:Ea; [|done..].
  apply executeAttempts_results in Ea as ->. destruct (reserve_in_order _ _ _) as [t1 errors] eqn:E.
  destruct (sc_ended schedule); [done|]. eapply IH; [|..|exact H]; [intros sch Hsch; apply Hs; by right|].
  eapply (reserved_chunk t0 t t1 s chunk errors); [done|apply Hs; left| |exact E].
  unfold chunk, n. rewrite length_take. lia.
Qed.
End proposal.

(** C6: What a Groundhog proposer selects, validators accept: a block of exactly the
    selected candidates, on the same state and without limit increases or deposits
    that overflow on their own, is executed without a conflict by every validator,
    whatever order its reservations take effect in. *)
Theorem groundhog_proposal_accepted (O1 O2 : MapOrder) e shardID height candidates base limit schedules sel
    b c s attempts :
  in_i64 (gh_DefaultInitialBalance e) →
  (∀ schedule, schedule ∈ schedules →
     sc_order schedule ≡ₚ seq 0 (Z.to_nat (workerCountFor e (length candidates)))) →
  @GroundhogSelectCandidateTransactions O1 e shardID height candidates base limit false schedules = GhReturned sel →
  ShardID b = shardID → TxList b = gs_Selected sel →
  roomy (mjoin (@tx_mods O1 e b base <$> gs_Selected sel)) = true →
  sc_order s ≡ₚ seq 0 (length (TxList b)) → sc_ended s = false →
  @executeAttempts O2 e b base (TxList b) (workerCountFor e (length (TxList b))) (sc_pool s) false =
    Some (false, Some attempts) →
  ∃ r, @GroundhogExecuteBlockWithCommitment O2 e b base c false s = GhReturned r.
Proof.
  intros He Hsch H Hb Htx Hroom Hord Hend Ha. unfold GroundhogSelectCandidateTransactions in H.
  set (n := length candidates) in *. set (t0 := newGroundhogReservationTable _ _ _) in H.
  destruct (propose_loop _ _ _ _ _ _ _ _ _ _) as [| |[t sel']] eqn:El; try done. injection H as ->.
  apply (propose_loop_reserved e (proposal_block shardID height) base t0) in El as (_ & ms & Hp & A); [|done|].
  2:{ split; [done|]. by exists []. }
  assert (flat_mods (@attempts_of O2 e b base (TxList b)) (sc_order s) ≡ₚ ms) as Hms.
  { rewrite (flat_mods_perm _ _ _ _ (attempts_of_alike O2 O1 e b base (TxList b)) (reflexivity _)).
    rewrite flat_mods_all by (unfold attempts_of; by rewrite length_imap).
    rewrite (attempts_mods e b (proposal_block shardID height)) by done. by rewrite Hp, Htx. }
  destruct (apply_mods_accept (newGroundhogReservationTable (ShardID b) base (gh_OrderedSetLimit e)) ms
    (flat_mods (@attempts_of O2 e b base (TxList b)) (sc_order s))) as [objects A'].
  - done.
  - rewrite <- Hms. by apply flat_mods_ints.
  - rewrite <- Hroom. apply roomy_perm. rewrite Hp, <- (attempts_mods e b (proposal_block shardID height)) by done.
    by rewrite (attempts_mods e b b).
  - subst shardID. by eexists.
  - by eapply accepted_block_returns.
Qed.
