(* ===== verification/GroundhogExamples.v ===== *)
(** * The Groundhog executor on concrete blocks *)
From S2P Require Import Prelude GoStd GoText GoJson JsonRoundtrip Tx Block StateRoot Serial SerialProps WorkerPool Groundhog GroundhogProps GroundhogOrder GroundhogAccept GroundhogTheorems GroundhogLedger GroundhogReplay GroundhogProposal.
Local Open Scope N_scope.

(** Two orders in which [range] may visit a map. *)
Definition forward_order : MapOrder :=
  {| range_keys := λ V m, (map_to_list m).*1; range_keys_perm := λ V m, reflexivity _ |}.
Definition backward_order : MapOrder :=
  {| range_keys := λ V m, reverse (map_to_list m).*1; range_keys_perm := λ V m, reverse_Permutation _ |}.

Definition gh_schedule (order : list nat) : groundhog_schedule := MkGhSchedule (one_worker (length order)) order false.

Definition gh_state : gmap string string :=
  {["s0::balance:alice" := "100"; "s0::balance:bob" := "7"; "s0::balance:carol" := "50"]}.
Definition gh_block : Block :=
  sample_block [sample_transfer "alice" "bob" 0 30; sample_transfer "carol" "bob" 0 5;
                sample_transfer "alice" "carol" 1 70; sample_transfer "bob" "alice" 0 8].

Definition gh_returned {A} (o : groundhog_outcome A) : bool := match o with GhReturned _ => true | _ => false end.

Lemma returned_result {A} (o : groundhog_outcome A) : gh_returned o = true → ∃ a, o = GhReturned a.
Proof. destruct o; [done..|]. by eexists. Defined.

Lemma groundhog_deterministic_witness :
  let e := NewGroundhogExecutor 4 in
  ∃ r1 r2,
    @GroundhogExecuteBlockWithCommitment forward_order e gh_block gh_state None false (gh_schedule [0; 1; 2; 3]%nat)
      = GhReturned r1 ∧
    @GroundhogExecuteBlockWithCommitment backward_order e gh_block gh_state None false (gh_schedule [3; 1; 0; 2]%nat)
      = GhReturned r2 ∧ re_StateUpdates r1 = re_StateUpdates r2.
Proof.
  intros e.
  destruct (returned_result (@GroundhogExecuteBlockWithCommitment forward_order e gh_block gh_state None false
    (gh_schedule [0; 1; 2; 3]%nat))) as [r1 H1]; [vm_compute; reflexivity|].
  destruct (returned_result (@GroundhogExecuteBlockWithCommitment backward_order e gh_block gh_state None false
    (gh_schedule [3; 1; 0; 2]%nat))) as [r2 H2]; [vm_compute; reflexivity|].
  exists r1, r2. split; [exact H1|]. split; [exact H2|].
  refine (proj1 (groundhog_deterministic forward_order backward_order e gh_block gh_state None None _ _ r1 r2
    _ H1 H2 eq_refl)).
  apply (bool_decide_unpack _). vm_compute. exact I.
Defined.

Lemma groundhog_order_irrelevant_witness :
  let e := NewGroundhogExecutor 4 in
  ∃ r, @GroundhogExecuteBlockWithCommitment backward_order e gh_block gh_state None false
         (gh_schedule [3; 2; 1; 0]%nat) = GhReturned r.
Proof.
  intros e.
  destruct (returned_result (@GroundhogExecuteBlockWithCommitment forward_order e gh_block gh_state None false
    (gh_schedule [0; 1; 2; 3]%nat))) as [r1 H1]; [vm_compute; reflexivity|].
  destruct (groundhog_order_irrelevant forward_order backward_order e gh_block gh_state None
    (gh_schedule [0; 1; 2; 3]%nat) (gh_schedule [3; 2; 1; 0]%nat) r1
    (@attempts_of backward_order e gh_block gh_state (TxList gh_block))) as (r2 & H2 & _).
  - unfold in_i64. vm_compute. split; discriminate.
  - vm_compute. reflexivity.
  - exact H1.
  - apply (bool_decide_unpack _). vm_compute. exact I.
  - reflexivity.
  - vm_compute. reflexivity.
  - exists r2. exact H2.
Defined.

(** No key of a write set is another name of the entry of [key]. *)
Definition names_apart (shard key : string) (deltas : list TxDelta) : bool :=
  forallb (λ d, forallb (λ k,
    negb (groundhogQualifiedKey shard k ≟ groundhogQualifiedKey shard key) || (k ≟ key))
    (map_to_list (td_WriteSet d)).*1) deltas.

Lemma names_apart_ok shard key deltas : names_apart shard key deltas = true →
  ∀ d k, d ∈ deltas → is_Some (td_WriteSet d !! k) →
    groundhogQualifiedKey shard k = groundhogQualifiedKey shard key → k = key.
Proof.
  unfold names_apart. intros Hk d k Hd [v Hv] Hq.
  rewrite forallb_forall in Hk. specialize (Hk d (proj1 (list_elem_of_In _ _) Hd)).
  rewrite forallb_forall in Hk. specialize (Hk k). rewrite <- list_elem_of_In, list_elem_of_fmap in Hk.
  specialize (Hk (ex_intro _ (k, v) (conj eq_refl (proj2 (elem_of_map_to_list _ _ _) Hv)))).
  rewrite (bool_decide_eq_true_2 _ Hq) in Hk. by apply bool_decide_eq_true in Hk.
Qed.

Lemma groundhog_balances_exact_witness :
  let e := NewGroundhogExecutor 4 in
  ∃ r, @GroundhogExecuteBlockWithCommitment backward_order e gh_block gh_state None false
         (gh_schedule [3; 1; 2; 0]%nat) = GhReturned r ∧
    (total (sent "alice") (settled (TxList gh_block) (re_TxDeltas r)) <= 100)%Z.
Proof.
  intros e. set (o := @GroundhogExecuteBlockWithCommitment backward_order e gh_block gh_state None false
    (gh_schedule [3; 1; 2; 0]%nat)).
  assert (match o with
          | GhReturned r => names_apart "s0" (balance_key "alice") (re_TxDeltas r)
          | _ => false end = true) as Hk by (vm_compute; reflexivity).
  destruct o as [| |r] eqn:E; [discriminate Hk..|]. exists r. split; [reflexivity|].
  refine (proj1 (groundhog_balances_exact backward_order e gh_block gh_state None (gh_schedule [3; 1; 2; 0]%nat)
    r "alice" 100 _ _ _ E _ _ _)).
  - unfold in_i64. vm_compute. split; discriminate.
  - repeat constructor; vm_compute; discriminate.
  - apply (bool_decide_unpack _). vm_compute. exact I.
  - split; [vm_compute; discriminate|vm_compute; reflexivity].
  - discriminate.
  - exact (names_apart_ok "s0" (balance_key "alice") (re_TxDeltas r) Hk).
Defined.

Lemma groundhog_proposal_accepted_witness :
  let e := NewGroundhogExecutor 2 in
  ∃ sel, @GroundhogSelectCandidateTransactions forward_order e "s0" 1 (TxList gh_block) gh_state 0 false
           [gh_schedule [1; 0]%nat; gh_schedule [0; 1]%nat] = GhReturned sel ∧
    ∃ r, @GroundhogExecuteBlockWithCommitment backward_order e (sample_block (gs_Selected sel)) gh_state None false
           (gh_schedule [3; 1; 2; 0]%nat) = GhReturned r.
Proof.
  intros e. set (sel := MkGhSelection (TxList gh_block) [] ∅). exists sel.
  assert (@GroundhogSelectCandidateTransactions forward_order e "s0" 1 (TxList gh_block) gh_state 0 false
    [gh_schedule [1; 0]%nat; gh_schedule [0; 1]%nat] = GhReturned sel) as E by (vm_compute; reflexivity).
  split; [exact E|].
  apply (groundhog_proposal_accepted forward_order backward_order e "s0" 1 (TxList gh_block) gh_state 0
    [gh_schedule [1; 0]%nat; gh_schedule [0; 1]%nat] sel (sample_block (gs_Selected sel)) None
    (gh_schedule [3; 1; 2; 0]%nat) (@attempts_of backward_order e gh_block gh_state (TxList gh_block)));
    [| |exact E|reflexivity|reflexivity| | |reflexivity|].
  - unfold in_i64. vm_compute. split; discriminate.
  - intros s Hs. repeat (apply elem_of_cons in Hs as [->|Hs]; [apply (bool_decide_unpack _); vm_compute; exact I|]).
    destruct (proj1 (elem_of_nil _) Hs).
  - vm_compute. reflexivity.
  - apply (bool_decide_unpack _). vm_compute. exact I.
  - vm_compute. reflexivity.
Defined.

(** ** Chains *)

Definition chain_block1 : Block :=
  sample_block [sample_transfer "alice" "bob" 0 30; sample_transfer "carol" "bob" 0 5].
Definition chain_block2 : Block :=
  sample_block [sample_transfer "alice" "bob" 1 20; sample_transfer "alice" "carol" 2 10].

Lemma untouched_ok x b r :
  forallb (λ item, forallb (λ a, ai_Key a ≠? replay_key x) (AccessList item)) (TxList b) = true →
  names_apart (ShardID b) (replay_key x) (re_TxDeltas r) = true → untouched x b r.
Proof.
  intros H1 H2. split; [|by apply names_apart_ok]. apply Forall_forall. intros item Hi. apply Forall_forall. intros a Ha.
  rewrite forallb_forall in H1. specialize (H1 item (proj1 (list_elem_of_In _ _) Hi)).
  rewrite forallb_forall in H1. specialize (H1 a (proj1 (list_elem_of_In _ _) Ha)).
  by apply negb_true_iff, bool_decide_eq_false in H1.
Qed.

Lemma ids_typed_ok items :
  forallb (λ item, forallb (λ b, b <? 128) (bytes_of_string (TxID item)) && (Nonce item <=? max_uint64)) items = true →
  Forall id_typed items.
Proof.
  intros H. apply Forall_forall. intros item Hi. rewrite forallb_forall in H.
  specialize (H item (proj1 (list_elem_of_In _ _) Hi)). apply andb_true_iff in H as [H1 H2].
  split; [by apply name_utf8|by apply N.leb_le].
Qed.

Lemma groundhog_no_replay_witness :
  ∃ r1 r2, groundhog_chain "s0" gh_state [(chain_block1, r1); (chain_block2, r2)] ∧
    length (chain_executed "alice" [(chain_block1, r1); (chain_block2, r2)]) = 3%nat ∧
    NoDup (TxID <$> chain_executed "alice" [(chain_block1, r1); (chain_block2, r2)]).
Proof.
  set (e := NewGroundhogExecutor 2).
  set (o1 := @GroundhogExecuteBlockWithCommitment forward_order e chain_block1 gh_state None false
    (gh_schedule [0; 1]%nat)).
  set (run2 := λ st, @GroundhogExecuteBlockWithCommitment backward_order e chain_block2 st None false
    (gh_schedule [1; 0]%nat)).
  assert (match o1 with
          | GhReturned r1 =>
              match run2 (re_StateUpdates r1) with
              | GhReturned r2 =>
                  names_apart "s0" (replay_key "alice") (re_TxDeltas r1) &&
                  (names_apart "s0" (replay_key "alice") (re_TxDeltas r2) &&
                  (length (chain_executed "alice" [(chain_block1, r1); (chain_block2, r2)]) ≟ 3%nat))
              | _ => false end
          | _ => false end = true) as H by (vm_compute; reflexivity).
  destruct o1 as [| |r1] eqn:E1; [discriminate H..|].
  destruct (run2 (re_StateUpdates r1)) as [| |r2] eqn:E2; [discriminate H..|].
  apply andb_true_iff in H as [H1 H]. apply andb_true_iff in H as [H2 H3]. apply bool_decide_eq_true in H3.
  assert (groundhog_chain "s0" gh_state [(chain_block1, r1); (chain_block2, r2)]) as Hc.
  { refine (chain_cons _ forward_order e _ _ _ _ _ _ eq_refl _ E1
      (chain_cons _ backward_order e _ _ _ _ _ _ eq_refl _ E2 (chain_nil _ _)));
      apply (bool_decide_unpack _); vm_compute; exact I. }
  exists r1, r2. split; [exact Hc|]. split; [exact H3|].
  refine (groundhog_no_replay "s0" "alice" gh_state _ Hc eq_refl _).
  apply Forall_cons; split; [|apply Forall_cons; split; [|constructor]];
    (split; [apply ids_typed_ok; vm_compute; reflexivity|apply untouched_ok; [vm_compute; reflexivity|assumption]]).
Defined.

Definition direct_tx (id sender : string) (accesses : list AccessItem) : SignedTransaction :=
  MkTx id "" sender sender 0 1 [] accesses "" "direct_access" "declared" [] "" "" "" "" 0 "" "" "" "" None.

(** A transaction of mallory that clears the replay set of alice. *)
Definition clearing_tx : SignedTransaction :=
  direct_tx "tx-clear" "mallory" [MkAccess (replay_key "alice") AccessWrite "ordered_set_clear" 9].

Definition replayed : SignedTransaction := sample_transfer "alice" "bob" 0 30.

(** Anyone can switch the replay protection of an account off: after a block
    with alice's transfer, a block that contains the same transfer again is refused,
    but with one transaction of mallory in between, which clears the replay set of
    alice up to tag 9, the transfer is executed a second and a third time. *)
Theorem groundhog_clear_allows_replay :
  let e := NewGroundhogExecutor 1 in
  let run items st := @GroundhogExecuteBlock forward_order e (sample_block items) st false (gh_schedule [0%nat]) in
  let next items st := match run items st with GhReturned r => re_StateUpdates r | _ => st end in
  let st1 := next [replayed] gh_state in
  let st2 := next [clearing_tx] st1 in
  let st3 := next [replayed] st2 in
  let st4 := next [replayed] st3 in
  run [replayed] st1 = GhFailed (GeConflict "tx-alice0" "groundhog:replay:alice" "duplicate_hash") ∧
  ((λ st, st !! "s0::balance:alice") <$> [gh_state; st1; st2; st3; st4]) =
    [Some "100"; Some "70"; Some "70"; Some "40"; Some "10"].
Proof. split; vm_compute; reflexivity. Qed.

(** ** Where the order shows *)

Definition quote : string := String (ascii_of_N 34) EmptyString.
Definition quoted (s : string) : string := quote +:+ s +:+ quote.

(** A set with room for one hash, which it holds. *)
Definition full_set : string :=
  "{" +:+ quoted "limit" +:+ ":1," +:+ quoted "entries" +:+ ":[{" +:+ quoted "tag" +:+ ":5," +:+
  quoted "hash" +:+ ":" +:+ quoted "h" +:+ "}]}".
Definition grow_block : Block :=
  sample_block [direct_tx "tx-1" "alice" [MkAccess "set" AccessWrite "ordered_set_increase_limit" 1];
                direct_tx "tx-2" "bob" [MkAccess "set" AccessWrite "ordered_set_insert" 0]].

(** Which order the goroutines reserve in decides whether a fixed block is
    accepted: with a full set, a transaction that raises its limit and one that
    inserts into it are accepted in the block's order, and refused as a whole when
    the insertion is reserved first, with the error for blocks that are serially
    valid. *)
Theorem groundhog_order_rejects :
  let e := NewGroundhogExecutor 2 in
  let base : gmap string string := {["s0::set" := full_set]} in
  let run order := @GroundhogExecuteBlock forward_order e grow_block base false (gh_schedule order) in
  gh_returned (run [0; 1]%nat) = true ∧ run [1; 0]%nat = GhFailed GeRejected.
Proof. split; vm_compute; reflexivity. Qed.

Definition overdrawing_tx : SignedTransaction :=
  direct_tx "tx-1" "alice" [MkAccess "a" AccessCommutativeDelta "" (-3); MkAccess "b" AccessCommutativeDelta "" (-3);
                            MkAccess "a" AccessCommutativeDelta "" (-3); MkAccess "b" AccessCommutativeDelta "" (-3)].

(** The error text of a transaction that overdraws two keys depends on the order
    in which Go visits a map, so two replicas that execute the same block put
    different receipts, and different receipt roots, into their results. *)
Theorem groundhog_map_order_receipts :
  let e := NewGroundhogExecutor 1 in
  let base : gmap string string := {["s0::a" := "5"; "s0::b" := "5"]} in
  let run O := @GroundhogExecuteBlock O e (sample_block [overdrawing_tx]) base false (gh_schedule [0%nat]) in
  ∃ r1 r2, run forward_order = GhReturned r1 ∧ run backward_order = GhReturned r2 ∧
    re_StateUpdates r1 = re_StateUpdates r2 ∧ re_ReceiptRoot r1 ≠ re_ReceiptRoot r2.
Proof.
  intros e base run.
  assert (match run forward_order, run backward_order with
          | GhReturned r1, GhReturned r2 =>
              (re_StateUpdates r1 ≟ re_StateUpdates r2) && (re_ReceiptRoot r1 ≠? re_ReceiptRoot r2)
          | _, _ => false end = true) as H by (vm_compute; reflexivity).
  destruct (run forward_order) as [| |r1], (run backward_order) as [| |r2]; try discriminate H.
  apply andb_true_iff in H as [H1 H2]. apply bool_decide_eq_true in H1. apply negb_true_iff, bool_decide_eq_false in H2.
  by exists r1, r2.
Qed.

(** The guard that keeps access lists away from balances compares keys as
    written: a single transaction that adds to [s0::balance:mallory] is executed
    and raises the balance of mallory from 1 to 1001, while the same addition to
    [balance:mallory] is ignored. *)
Theorem groundhog_qualified_balance_minted :
  let e := NewGroundhogExecutor 1 in
  let base : gmap string string := {["s0::balance:mallory" := "1"]} in
  let after key :=
    match @GroundhogExecuteBlock forward_order e
            (sample_block [direct_tx "tx-1" "mallory" [MkAccess key AccessCommutativeDelta "" 1000]])
            base false (gh_schedule [0%nat]) with
    | GhReturned r => re_StateUpdates r !! "s0::balance:mallory"
    | _ => None
    end in
  after "s0::balance:mallory" = Some "1001" ∧ after "balance:mallory" = Some "1".
Proof. split; vm_compute; reflexivity. Qed.
