(* ===== verification/BatchSI.v ===== *)
(** * Planning a Batch-SI block ([executor/realism/execution/batch_si_executor.go])

    The ordering node turns candidate transactions into batches: WRBP puts each
    writer in the first batch where none of its keys has a writer yet, OFAS orders
    a batch so that readers come before the writer of what they read and defers the
    transactions that stand in the way. This file has the partitions, the orders and
    the plan they make up; [BatchSIWire] has its encoding and its verification,
    [BatchSIExec] its execution.

    A [range] over a map visits the keys in a fixed order here; the results do not
    depend on it ([BatchSIOrder]). Wall-clock durations are arguments. *)
From S2P Require Import Prelude GoStd Tx Block Heap Serial.
Local Open Scope Z_scope.

Definition BatchSIBlockExecutorID : string := "batch_si_block_executor".
Definition BatchSIBlockExecutorVersion : string := "1.0.0".
Definition BatchSIPlanAlgorithmID : string := "batch_si_execution_plan_v1".
Definition BatchSIPlanVersion : string := "1.2.0".
Definition BatchSIConsensusWireVersion : string := "batch_si_consensus_wire_v1".
Definition BatchSIPartitionWRBP : string := "wrbp".
Definition BatchSIPartitionSequential : string := "sequential".
Definition BatchSIOrderingOFAS : string := "ofas".
Definition BatchSIOrderingDependencyGraph : string := "dependency_graph".
Definition BatchSIPriorityPaper : string := "paper".
Definition BatchSIPriorityTxID : string := "txid".
Definition BatchSIExecutionSnapshotParallel : string := "snapshot_parallel".
Definition BatchSIExecutionSnapshotSerial : string := "snapshot_serial".

Inductive batch_si_error :=
  | BsConfigWorkers | BsConfigPartition (mode : string) | BsConfigOrdering (mode : string)
  | BsConfigPriority (mode : string) | BsConfigExecution (mode : string)
  | BsEmptyTxID | BsDuplicateTxID (id : string) | BsMissingOrdinal (id : string) | BsDuplicateOrdinal (ordinal : Z)
  | BsUnsupported (algorithm version : string) | BsDigestBeforeMarshal | BsEvidenceNotDerivable
  | BsDecode | BsWireVersion (version : string) | BsDigest
  | BsOrdinalCount | BsWireEmptyID | BsWireDuplicateID (id : string)
  | BsConfigMismatch | BsCandidatesMissing | BsCandidateOrdinals | BsAcceptedIDs | BsDeferredIDs
  | BsDeferredInvalid (id : string) | BsCandidateIDs | BsCandidateUnknown (id : string)
  | BsCandidateOrdinal (id : string) | BsOutsideCandidates | BsFixedDigest | BsAcceptedCount
  | BsAcceptedOrder (index : Z) | BsDeferredCount | BsDeferredOrder (index : Z)
  | BsHeight | BsEvidenceCount | BsBatchNumber | BsProjection | BsEvidence (index : Z) | BsProjectionShort
  | BsNoPlan | BsEnvelope | BsContext | BsUnknownTransaction (id : string) | BsUndeclaredWrite (id : string)
  | BsAllDeferred.

(** ** Configuration *)

Record BatchSIConfig := MkBatchSIConfig {
  bc_WorkerCount : Z;
  bc_PartitionMode : string;
  bc_OrderingMode : string;
  bc_PriorityMode : string;
  bc_ExecutionMode : string;
}.

Definition DefaultBatchSIConfig : BatchSIConfig :=
  MkBatchSIConfig 4 BatchSIPartitionWRBP BatchSIOrderingOFAS BatchSIPriorityPaper BatchSIExecutionSnapshotParallel.

Definition or_default (s fallback : string) : string := if s ≟ "" then fallback else s.

Definition Normalized (c : BatchSIConfig) : BatchSIConfig :=
  let d := DefaultBatchSIConfig in
  MkBatchSIConfig (if bc_WorkerCount c =? 0 then bc_WorkerCount d else bc_WorkerCount c)
    (or_default (bc_PartitionMode c) (bc_PartitionMode d)) (or_default (bc_OrderingMode c) (bc_OrderingMode d))
    (or_default (bc_PriorityMode c) (bc_PriorityMode d)) (or_default (bc_ExecutionMode c) (bc_ExecutionMode d)).

Definition ConfigValidate (c : BatchSIConfig) : option batch_si_error :=
  let c := Normalized c in
  if (bc_WorkerCount c <? 1) || (32 <? bc_WorkerCount c) then Some BsConfigWorkers
  else if negb ((bc_PartitionMode c ≟ BatchSIPartitionWRBP) || (bc_PartitionMode c ≟ BatchSIPartitionSequential))
  then Some (BsConfigPartition (bc_PartitionMode c))
  else if negb ((bc_OrderingMode c ≟ BatchSIOrderingOFAS) || (bc_OrderingMode c ≟ BatchSIOrderingDependencyGraph))
  then Some (BsConfigOrdering (bc_OrderingMode c))
  else if negb ((bc_PriorityMode c ≟ BatchSIPriorityPaper) || (bc_PriorityMode c ≟ BatchSIPriorityTxID))
  then Some (BsConfigPriority (bc_PriorityMode c))
  else if negb ((bc_ExecutionMode c ≟ BatchSIExecutionSnapshotParallel) ||
                (bc_ExecutionMode c ≟ BatchSIExecutionSnapshotSerial))
  then Some (BsConfigExecution (bc_ExecutionMode c))
  else None.

(** ** Sorting *)

(** [sort.SliceStable(l, less)]. Where the code calls [sort.Slice] no two elements
    compare equal. *)
Fixpoint insert_sorted {A} (less : A → A → bool) (x : A) (l : list A) : list A :=
  match l with
  | [] => [x]
  | y :: rest => if less y x then y :: insert_sorted less x rest else x :: l
  end.
Definition sort_slice {A} (less : A → A → bool) (l : list A) : list A :=
  foldr (insert_sorted less) [] l.

Fixpoint slice_is_sorted {A} (less : A → A → bool) (l : list A) : bool :=
  match l with
  | x :: (y :: _) as rest => negb (less y x) && slice_is_sorted less rest
  | _ => true
  end.

Definition str_less (a b : string) : bool := bool_decide (String.le a b) && (a ≠? b).

(** ** Descriptors *)

Record batchSITxDescriptor := MkDescriptor {
  ds_Item : SignedTransaction;
  ds_TxID : string;
  ds_ReadKeys : list string;
  ds_WriteKeys : list string;
  ds_IDRank : Z;
}.

Record batchSIPartition := MkPartition { pt_Number : Z; pt_Txs : list batchSITxDescriptor }.

(** [ordinals[id]], 0 where there is none. *)
Definition zget {K} `{Countable K} (m : gmap K Z) (k : K) : Z := default 0 (m !! k).

Definition batchSICrossShardTargetFromPayload (payload : string) : string :=
  if negb (has_prefix payload "v5_cross:") then ""
  else
  let target := trim_prefix payload "v5_cross:" in
  trim_space (default target (before_byte ":" target)).

Definition batchSIIsCrossShardTargetCommit (item : SignedTransaction) (shardID : string) : bool :=
  (batchSICrossShardTargetFromPayload (Payload item) ≟ shardID) && (shardID ≠? "").

Definition batchSISortedKeys (values : gset string) : list string := sort_strings (elements values).

Definition declare_access (acc : gset string * gset string) (a : AccessItem) : gset string * gset string :=
  let '(reads, writes) := acc in
  let k := {[ai_Key a]} in
  if ai_Key a ≟ "" then (reads, writes)
  else if ai_Mode a ≟ AccessRead then (reads ∪ k, writes)
  else if ai_Mode a ≟ AccessWrite then (reads, writes ∪ k)
  else if (ai_Mode a ≟ AccessReadWrite) || (ai_Mode a ≟ AccessCommutativeDelta) then (reads ∪ k, writes ∪ k)
  else (reads, writes).

Definition declared_sets (item : SignedTransaction) (shardID : string) : gset string * gset string :=
  let '(reads, writes) :=
    match AccessList item with
    | [] =>
        let ks := list_to_set (filter (λ k, k ≠ "") (StateKeys item)) ∪ account_keys item in (ks, ks)
    | accesses =>
        let '(reads, writes) := foldl declare_access (∅, ∅) accesses in
        if AccessListSource item ≟ "legacy_state_keys"
        then (reads ∪ account_keys item, writes ∪ account_keys item) else (reads, writes)
    end in
  (reads, if batchSIIsCrossShardTargetCommit item shardID
          then writes ∪ {["relay_commit:" +:+ TxID item]} else writes).

Definition batchSIDeclaredAccess (item : SignedTransaction) (shardID : string) : list string * list string :=
  let '(reads, writes) := declared_sets item shardID in
  (batchSISortedKeys reads, batchSISortedKeys writes).

Definition descriptor_of (shardID : string) (item : SignedTransaction) (ordinal : Z) : batchSITxDescriptor :=
  let '(reads, writes) := batchSIDeclaredAccess item shardID in
  MkDescriptor item (TxID item) reads writes ordinal.

(** [ordinals] is [None] for a nil map. *)
Fixpoint descriptors_loop (shardID : string) (ordinals : option (gmap string Z)) (index : Z)
    (items : list SignedTransaction) (seen : gset string) (seenOrdinals : gset Z)
    : batch_si_error + list batchSITxDescriptor :=
  match items with
  | [] => inr []
  | item :: rest =>
      if blank (TxID item) then inl BsEmptyTxID
      else if bool_decide (TxID item ∈ seen) then inl (BsDuplicateTxID (TxID item))
      else
      let given := match ordinals with Some m => zget m (TxID item) | None => 0 end in
      if (given <? 1) && defined ordinals then inl (BsMissingOrdinal (TxID item))
      else
      let ordinal := if given <? 1 then index + 1 else given in
      if bool_decide (ordinal ∈ seenOrdinals) then inl (BsDuplicateOrdinal ordinal)
      else
      out ← descriptors_loop shardID ordinals (index + 1) rest ({[TxID item]} ∪ seen) ({[ordinal]} ∪ seenOrdinals);
      inr (descriptor_of shardID item ordinal :: out)
  end.

Definition batchSIDescriptorLess (left right : batchSITxDescriptor) : bool :=
  if ds_IDRank left ≠? ds_IDRank right then ds_IDRank left <? ds_IDRank right
  else str_less (ds_TxID left) (ds_TxID right).

Definition batchSIDescriptors (items : list SignedTransaction) (ordinals : option (gmap string Z)) (shardID : string)
    : batch_si_error + list batchSITxDescriptor * gmap string Z :=
  out ← descriptors_loop shardID ordinals 0 items ∅ ∅;
  inr (sort_slice batchSIDescriptorLess out, list_to_map ((λ d, (ds_TxID d, ds_IDRank d)) <$> out)).

Definition batchSIOrderedDescriptors (items : list batchSITxDescriptor) : list batchSITxDescriptor :=
  if slice_is_sorted batchSIDescriptorLess items then items else sort_slice batchSIDescriptorLess items.

(** The address-write reference table: the writers of each key by ordinal. *)
Definition batchSIBuildAWRT (items : list batchSITxDescriptor) : gmap string (list Z) * Z :=
  let add (acc : gmap string (list Z) * Z) (rk : Z * string) :=
    let '(awrt, references) := acc in
    (<[rk.2 := default [] (awrt !! rk.2) ++ [rk.1]]> awrt, references + 1) in
  let '(awrt, references) := foldl add (∅, 0) (d ← items; (λ key, (ds_IDRank d, key)) <$> ds_WriteKeys d) in
  (sort_slice Z.ltb <$> awrt, references).

(** ** Partitions *)

(** [value := current[key]; if value < 1 { value = 1 }]. *)
Definition at_least_one (current : gmap string Z) (key : string) : Z := Z.max 1 (zget current key).

Definition opportunity (opportunities : gmap string (gset Z)) (key : string) : gset Z :=
  default ∅ (opportunities !! key).

Definition batchSIWRBPCandidateAvailable (opp : gset Z) (currentBatch maximumBatch candidate : Z) : bool :=
  if bool_decide (candidate ∈ opp) then true
  else
  let currentBatch := Z.max 1 currentBatch in
  if currentBatch =? maximumBatch then candidate =? maximumBatch
  else (currentBatch <=? candidate) && (candidate <? maximumBatch).

(** The closure [consider]. *)
Definition consider (keys : list string) (current : gmap string Z) (opportunities : gmap string (gset Z))
    (maximumBatch : Z) (best candidate : Z) : Z :=
  if (candidate <? 1) || ((0 <? best) && (best <=? candidate)) then best
  else if forallb (λ key, batchSIWRBPCandidateAvailable (opportunity opportunities key)
                            (at_least_one current key) maximumBatch candidate) keys
  then candidate else best.

Definition batchSIWRBPMinIntersection (keys : list string) (current : gmap string Z)
    (opportunities : gmap string (gset Z)) (maximumBatch : Z) : Z :=
  match keys with
  | [] => 1
  | first :: _ =>
      let firstCurrent := at_least_one current first in
      let consider := consider keys current opportunities maximumBatch in
      let best := foldl consider 0 (elements (opportunity opportunities first)) in
      if firstCurrent =? maximumBatch then consider best maximumBatch
      else foldl consider best (seqZ firstCurrent (maximumBatch - firstCurrent))
  end.

(** [currentBatch], [opportunities], [batches] and [reuseCount]. *)
Record wrbp_state := MkWrbp {
  wb_current : gmap string Z;
  wb_opportunities : gmap string (gset Z);
  wb_batches : gmap Z (list batchSITxDescriptor);
  wb_reuse : Z;
}.

Definition append_batch (n : Z) (d : batchSITxDescriptor) (batches : gmap Z (list batchSITxDescriptor))
    : gmap Z (list batchSITxDescriptor) := <[n := default [] (batches !! n) ++ [d]]> batches.

Definition maximum_batch (current : gmap string Z) (keys : list string) : Z :=
  foldl (λ m key, Z.max m (at_least_one current key)) 1 keys.

(** The loop over a writer's keys once its batch is known. *)
Definition claim_key (assigned : Z) (s : wrbp_state) (key : string) : wrbp_state :=
  let value := at_least_one (wb_current s) key in
  if assigned <? value
  then MkWrbp (wb_current s) (<[key := opportunity (wb_opportunities s) key ∖ {[assigned]}]> (wb_opportunities s))
         (wb_batches s) (wb_reuse s + 1)
  else MkWrbp (<[key := assigned + 1]> (wb_current s))
         (<[key := opportunity (wb_opportunities s) key ∪ list_to_set (seqZ value (assigned - value))]>
            (wb_opportunities s)) (wb_batches s) (wb_reuse s).

Definition place_writer (assigned : Z) (s : wrbp_state) (d : batchSITxDescriptor) : wrbp_state :=
  let s := foldl (claim_key assigned) s (ds_WriteKeys d) in
  MkWrbp (wb_current s) (wb_opportunities s) (append_batch assigned d (wb_batches s)) (wb_reuse s).

Definition wrbp_assign (s : wrbp_state) (d : batchSITxDescriptor) : Z :=
  let maxBatch := maximum_batch (wb_current s) (ds_WriteKeys d) in
  let assigned := batchSIWRBPMinIntersection (ds_WriteKeys d) (wb_current s) (wb_opportunities s) maxBatch in
  if assigned <? 1 then maxBatch else assigned.

Definition wrbp_place (s : wrbp_state) (d : batchSITxDescriptor) : wrbp_state :=
  match ds_WriteKeys d with
  | [] => MkWrbp (wb_current s) (wb_opportunities s) (append_batch 1 d (wb_batches s)) (wb_reuse s)
  | _ => place_writer (wrbp_assign s d) s d
  end.

Definition batchSICompactPartitions (batches : gmap Z (list batchSITxDescriptor)) : list batchSIPartition :=
  (λ number, MkPartition number (default [] (batches !! number))) <$>
  sort_slice Z.ltb (map_to_list (map_keep (λ _ items, negb (length items ≟ O)) batches)).*1.

Definition batchSIWRBPPartition (items : list batchSITxDescriptor) : list batchSIPartition * Z :=
  let s := foldl wrbp_place (MkWrbp ∅ ∅ ∅ 0) (batchSIOrderedDescriptors items) in
  (batchSICompactPartitions (wb_batches s), wb_reuse s).

Definition sequential_place (s : gmap string Z * gmap Z (list batchSITxDescriptor)) (d : batchSITxDescriptor)
    : gmap string Z * gmap Z (list batchSITxDescriptor) :=
  let '(nextBatch, batches) := s in
  match ds_WriteKeys d with
  | [] => (nextBatch, append_batch 1 d batches)
  | keys =>
      let assigned := maximum_batch nextBatch keys in
      (foldl (λ m key, <[key := assigned + 1]> m) nextBatch keys, append_batch assigned d batches)
  end.

Definition batchSISequentialPartition (items : list batchSITxDescriptor) : list batchSIPartition :=
  batchSICompactPartitions (foldl sequential_place (∅, ∅) (batchSIOrderedDescriptors items)).2.

(** ** Topological order *)

Definition zero_descriptor : batchSITxDescriptor :=
  MkDescriptor (MkTx "" "" "" "" 0 0 [] [] "" "" "" [] "" "" "" "" 0 "" "" "" "" None) "" [] [] 0.

Definition sget (m : gmap string string) (k : string) : string := default "" (m !! k).
Definition edges_of (edges : gmap string (gset string)) (id : string) : gset string := default ∅ (edges !! id).
Definition batchSIStringSet (values : list string) : gset string := list_to_set values.

(** Kahn's algorithm: a queue of ready ids, the number of parents each id waits
    for, and the children of an id in the order they are visited. The number of ids
    is fuel enough. *)
Section kahn.
Context {Q : Type} (pop : Q → option (string * Q)) (push : string → Q → Q) (children : string → list string).

Definition release (acc : Q * gmap string Z) (child : string) : Q * gmap string Z :=
  let '(q, indegree) := acc in
  let degree := zget indegree child - 1 in
  (if degree =? 0 then push child q else q, <[child := degree]> indegree).

Fixpoint kahn_loop (fuel : nat) (q : Q) (indegree : gmap string Z) : list string :=
  match fuel with
  | O => []
  | S fuel =>
      match pop q with
      | None => []
      | Some (id, q) =>
          let '(q, indegree) := foldl release (q, indegree) (children id) in
          id :: kahn_loop fuel q indegree
      end
  end.
End kahn.

Definition bump (m : gmap string Z) (k : string) : gmap string Z := <[k := zget m k + 1]> m.

(** ** OFAS *)

(** The tables of Algorithm 2; a missing count is 0. *)
Record ofas_tables := MkTables {
  ot_transactionReadCount : gmap string Z;
  ot_writerReadCount : gmap string Z;
  ot_maximumReaderOrder : gmap string Z;
  ot_dependencyEdges : gmap string (gset string);
}.

Definition writers (items : list batchSITxDescriptor) : gmap string string :=
  foldl (λ m d, foldl (λ m key, <[key := ds_TxID d]> m) m (ds_WriteKeys d)) ∅ items.

Definition raise (m : gmap string Z) (k : string) (z : Z) : gmap string Z :=
  if zget m k <? z then <[k := z]> m else m.

Definition table_read (writerByKey : gmap string string) (reader : batchSITxDescriptor) (t : ofas_tables)
    (key : string) : ofas_tables :=
  if bool_decide (key ∈ batchSIStringSet (ds_WriteKeys reader)) then t
  else
  let counts := bump (ot_transactionReadCount t) (ds_TxID reader) in
  let writerID := sget writerByKey key in
  if (writerID ≟ "") || (writerID ≟ ds_TxID reader)
  then MkTables counts (ot_writerReadCount t) (ot_maximumReaderOrder t) (ot_dependencyEdges t)
  else MkTables counts (bump (ot_writerReadCount t) writerID)
         (raise (ot_maximumReaderOrder t) writerID (ds_IDRank reader))
         (<[ds_TxID reader := {[writerID]} ∪ edges_of (ot_dependencyEdges t) (ds_TxID reader)]>
            (ot_dependencyEdges t)).

Definition ofas_tables_of (items : list batchSITxDescriptor) : ofas_tables :=
  foldl (λ t reader, foldl (table_read (writers items) reader) t (ds_ReadKeys reader)) (MkTables ∅ ∅ ∅ ∅) items.

Definition edge_count (edges : gmap string (gset string)) : Z :=
  foldl (λ n pc, n + Z.of_nat (size pc.2)) 0 (map_to_list edges).

Definition higherPriority (priorityMode : string) (t : ofas_tables) (left right : batchSITxDescriptor) : bool :=
  let wr d := zget (ot_writerReadCount t) (ds_TxID d) in
  let tr d := zget (ot_transactionReadCount t) (ds_TxID d) in
  if priorityMode ≟ BatchSIPriorityTxID then str_less (ds_TxID left) (ds_TxID right)
  else if wr left ≠? wr right then wr left <? wr right
  else if tr left ≠? tr right then tr right <? tr left
  else if ds_IDRank left ≠? ds_IDRank right then ds_IDRank left <? ds_IDRank right
  else str_less (ds_TxID left) (ds_TxID right).

(** The pass over the transactions by priority. *)
Record ofas_pass := MkPass {
  op_sortOrder : gmap string Z;
  op_maximumReaderOrder : gmap string Z;
  op_isSorted : gset string;
  op_isAborted : gset string;
  op_aborted : list batchSITxDescriptor;
}.

(** A key [item] reads and does not write, with the other transaction that writes
    it. *)
Definition foreign_writers (writerByKey : gmap string string) (item : batchSITxDescriptor) : list string :=
  filter (λ writerID, writerID ≠ "" ∧ writerID ≠ ds_TxID item)
    (sget writerByKey <$> filter (λ key, key ∉ batchSIStringSet (ds_WriteKeys item)) (ds_ReadKeys item)).

Definition pass_item (writerByKey : gmap string string) (p : ofas_pass) (item : batchSITxDescriptor) : ofas_pass :=
  let id := ds_TxID item in
  let sortOrder := raise (op_sortOrder p) id (zget (op_maximumReaderOrder p) id) in
  let foreign := foreign_writers writerByKey item in
  if existsb (λ w, negb (bool_decide (w ∈ op_isAborted p)) && bool_decide (w ∈ op_isSorted p) &&
                   (zget (op_maximumReaderOrder p) w <? zget sortOrder id)) foreign
  then MkPass sortOrder (op_maximumReaderOrder p) (op_isSorted p) ({[id]} ∪ op_isAborted p) (op_aborted p ++ [item])
  else MkPass sortOrder (foldl (λ m w, raise m w (zget sortOrder id)) (op_maximumReaderOrder p) foreign)
         ({[id]} ∪ op_isSorted p) (op_isAborted p) (op_aborted p).

Definition ofas_pass_of (items priority : list batchSITxDescriptor) (t : ofas_tables) : ofas_pass :=
  foldl (pass_item (writers items))
    (MkPass (foldl (λ m d, <[ds_TxID d := ds_IDRank d]> m) ∅ items) (ot_maximumReaderOrder t) ∅ ∅ []) priority.

Definition priority_index (priority : list batchSITxDescriptor) : gmap string Z :=
  foldl (λ m id, <[id.2 := id.1]> m) ∅ (zip (seqZ 0 (Z.of_nat (length priority))) (ds_TxID <$> priority)).

Definition ready_less (sortOrder priorityIndex : gmap string Z) (left right : string) : bool :=
  if zget sortOrder left ≠? zget sortOrder right then zget sortOrder left <? zget sortOrder right
  else if zget priorityIndex left ≠? zget priorityIndex right
  then zget priorityIndex left <? zget priorityIndex right
  else str_less left right.

(** [indegree] over the edges between active ids. *)
Definition active_indegree (active : gset string) (edges : gmap string (gset string)) : gmap string Z :=
  foldl (λ m pc, if bool_decide (pc.1 ∈ active)
                 then foldl (λ m child, if bool_decide (child ∈ active) then bump m child else m) m (elements pc.2)
                 else m) (gset_to_gmap 0 active) (map_to_list edges).

Definition ready_ids (indegree : gmap string Z) : list string :=
  (filter (λ kd, kd.2 = 0) (map_to_list indegree)).*1.

Definition active_children (active : gset string) (edges : gmap string (gset string)) (id : string) : list string :=
  sort_strings (filter (λ child, child ∈ active) (elements (edges_of edges id))).

(** [byID[id]]. *)
Definition by_id (items : list batchSITxDescriptor) : gmap string batchSITxDescriptor :=
  foldl (λ m d, <[ds_TxID d := d]> m) ∅ items.
Definition dget (m : gmap string batchSITxDescriptor) (id : string) : batchSITxDescriptor :=
  default zero_descriptor (m !! id).

(** The cycle participant of the lowest priority. *)
Definition lowest (higher : batchSITxDescriptor → batchSITxDescriptor → bool)
    (byID : gmap string batchSITxDescriptor) (first : string) (rest : list string) : string :=
  foldl (λ victim candidate, if higher (dget byID victim) (dget byID candidate) then candidate else victim) first rest.

(** The queue discipline is an argument: [batchSIOFASOrder] has a heap. *)
Section rounds.
Context {Q : Type} (empty : Q) (pop : Q → option (string * Q)) (push : string → Q → Q).
Context (edges : gmap string (gset string)) (byID : gmap string batchSITxDescriptor)
        (higher : batchSITxDescriptor → batchSITxDescriptor → bool).

Definition topological_ids (active : gset string) : list string :=
  let indegree := active_indegree active edges in
  kahn_loop pop push (active_children active edges) (size active)
    (foldl (λ q id, push id q) empty (ready_ids indegree)) indegree.

(** Every turn but the last removes an id. *)
Fixpoint ofas_rounds (fuel : nat) (active : gset string) (aborted : list batchSITxDescriptor)
    : list batchSITxDescriptor * list batchSITxDescriptor :=
  match fuel with
  | O => ([], aborted)
  | S fuel =>
      let orderedIDs := topological_ids active in
      if length orderedIDs ≟ size active then (dget byID <$> orderedIDs, aborted)
      else match filter (λ id, id ∉ orderedIDs) (elements active) with
           | [] => ([], aborted)
           | first :: rest =>
               let victimID := lowest higher byID first rest in
               ofas_rounds fuel (active ∖ {[victimID]}) (aborted ++ [dget byID victimID])
           end
  end.
End rounds.

Definition ofas_active (items : list batchSITxDescriptor) (p : ofas_pass) : gset string :=
  list_to_set (filter (λ id, id ∉ op_isAborted p) (ds_TxID <$> items)).

(** [queue less] is the empty queue with its [pop] and [push]. *)
Definition ofas_order {Q} (queue : (string → string → bool) → Q * (Q → option (string * Q)) * (string → Q → Q))
    (items : list batchSITxDescriptor) (priorityMode : string)
    : list batchSITxDescriptor * list batchSITxDescriptor * Z :=
  let t := ofas_tables_of items in
  let higher := higherPriority priorityMode t in
  let priority := sort_slice higher items in
  let p := ofas_pass_of items priority t in
  let '(empty, pop, push) := queue (ready_less (op_sortOrder p) (priority_index priority)) in
  let '(ordered, aborted) := ofas_rounds empty pop push (ot_dependencyEdges t) (by_id items) higher
    (S (length items)) (ofas_active items p) (op_aborted p) in
  (ordered, sort_slice batchSIDescriptorLess aborted, edge_count (ot_dependencyEdges t)).

(** [batchSIReadyHeap]: [container/heap] over [less]. *)
Definition batchSIReadyHeap (less : string → string → bool)
    : list string * (list string → option (string * list string)) * (string → list string → list string) :=
  ([], heap_pop less, heap_push less).

Definition batchSIOFASOrder (items : list batchSITxDescriptor) (priorityMode : string)
    : list batchSITxDescriptor * list batchSITxDescriptor * Z := ofas_order batchSIReadyHeap items priorityMode.

(** ** The dependency-graph ablation *)

Definition graph_edge (writer : gmap string string) (item : batchSITxDescriptor)
    (acc : gmap string (gset string) * gmap string Z) (key : string) : gmap string (gset string) * gmap string Z :=
  let '(edges, indegree) := acc in
  let writerID := sget writer key in
  if bool_decide (key ∈ batchSIStringSet (ds_WriteKeys item)) || (writerID ≟ "") || (writerID ≟ ds_TxID item)
     || bool_decide (writerID ∈ edges_of edges (ds_TxID item))
  then (edges, indegree)
  else (<[ds_TxID item := {[writerID]} ∪ edges_of edges (ds_TxID item)]> edges, bump indegree writerID).

Definition graph_of (items : list batchSITxDescriptor) : gmap string (gset string) * gmap string Z :=
  foldl (λ acc item, foldl (graph_edge (writers items) item) acc (ds_ReadKeys item))
    (∅, foldl (λ m d, <[ds_TxID d := 0]> m) ∅ items) items.

(** The ready slice is sorted; the next id is its head. *)
Definition slice_pop (ready : list string) : option (string * list string) :=
  match ready with [] => None | id :: rest => Some (id, rest) end.
Definition slice_push (id : string) (ready : list string) : list string := sort_strings (ready ++ [id]).

Definition batchSITopologicalOrder (items : list batchSITxDescriptor)
    : list batchSITxDescriptor * list batchSITxDescriptor * Z :=
  let '(edges, indegree) := graph_of items in
  let byID := by_id items in
  let ordered := dget byID <$>
    kahn_loop slice_pop slice_push (λ id, sort_strings (elements (edges_of edges id))) (length items)
      (sort_strings (ready_ids indegree)) indegree in
  (ordered,
   if length ordered ≟ length items then []
   else filter (λ d, ds_TxID d ∉ ds_TxID <$> ordered) items,
   edge_count edges).

Fixpoint dependency_rounds (fuel : nat) (active aborted : list batchSITxDescriptor) (totalEdges : Z)
    : list batchSITxDescriptor * list batchSITxDescriptor * Z :=
  match fuel with
  | O => ([], aborted, totalEdges)
  | S fuel =>
      let '(ordered, cyclic, edges) := batchSITopologicalOrder active in
      match sort_slice (λ a b, str_less (ds_TxID b) (ds_TxID a)) cyclic with
      | [] => (ordered, aborted, totalEdges + edges)
      | victim :: _ =>
          dependency_rounds fuel (filter (λ d, ds_TxID d ≠ ds_TxID victim) active) (aborted ++ [victim])
            (totalEdges + edges)
      end
  end.

Definition batchSIDependencyGraphOrder (items : list batchSITxDescriptor)
    : list batchSITxDescriptor * list batchSITxDescriptor * Z :=
  dependency_rounds (S (length items)) items [] 0.
