(* ===== verification/BatchSIWire.v ===== *)
(** * Batch-SI plans: building, encoding, verifying

    The plan of a block ([BuildBatchSIPlan]), its digest and its compact encoding
    ([MarshalBatchSIPlan], [ParseBatchSIPlan]), the recomputation by which a
    validator checks it ([VerifyBatchSIPlan]), the projection an executor checks
    ([ValidateBatchSIPlanProjection]), and the scheduler that proposes such blocks
    ([executor/v5/batch_si_plugins.go]). A slice that may be nil is an [option]. *)
From S2P Require Import Prelude GoStd GoJson JsonRoundtrip GoStruct Tx Block BlockCodec Heap Serial BatchSI.
Import Json.
Local Open Scope Z_scope.

Record BatchSIBatch := MkBatch { ba_BatchNumber : Z; ba_OrderedTransactionIDs : option (list string) }.

Record BatchSIPlanMetrics := MkPlanMetrics {
  pm_TransactionCount : Z;
  pm_CandidateTransactionCount : Z;
  pm_AcceptedTransactionCount : Z;
  pm_FirstPassOFASAbortedTransactionCount : Z;
  pm_ReadOnlyTransactionCount : Z;
  pm_AWRTAddressCount : Z;
  pm_AWRTWriteReferenceCount : Z;
  pm_BatchCount : Z;
  pm_MaximumBatchWidth : Z;
  pm_WriteOpportunityReuseCount : Z;
  pm_DependencyEdgeCount : Z;
  pm_OFASAbortedTransactionCount : Z;
  pm_PlanningIterationCount : Z;
  pm_TableConstructionMS : Z;
  pm_SortingMS : Z;
}.

Record BatchSIOrderEvidence := MkOrderEvidence {
  oe_TxID : string;
  oe_TransactionOrdinal : Z;
  oe_BatchNumber : Z;
  oe_SerializationPosition : Z;
}.

Record BatchSIPlan := MkBatchSIPlan {
  bp_AlgorithmID : string;
  bp_Version : string;
  bp_BlockHeight : N;
  bp_PartitionMode : string;
  bp_OrderingMode : string;
  bp_PriorityMode : string;
  bp_CandidateTransactionIDs : option (list string);
  bp_DeferredTransactions : list SignedTransaction;
  bp_TransactionOrdinals : option (gmap string Z);
  bp_OrderEvidence : option (list BatchSIOrderEvidence);
  bp_Batches : option (list BatchSIBatch);
  bp_Metrics : BatchSIPlanMetrics;
  bp_PlanDigest : string;
}.

Record batchSIConsensusWire := MkBatchSIWire {
  bw_AlgorithmID : string;
  bw_Version : string;
  bw_WireVersion : string;
  bw_BlockHeight : N;
  bw_PartitionMode : string;
  bw_OrderingMode : string;
  bw_PriorityMode : string;
  bw_CandidateTransactionIDs : option (list string);
  bw_DeferredTransactions : list SignedTransaction;
  bw_TransactionOrdinals : option (gmap string Z);
  bw_Batches : option (list BatchSIBatch);
  bw_Metrics : BatchSIPlanMetrics;
  bw_PlanDigest : string;
}.

(** ** Their JSON *)

(** [map[string]T]: the keys are printed in order; [null] is nil. [omitempty] leaves
    out an empty map, which is then read back as nil: the law is about the others. *)
Definition map_fields {T} (c : codec T) (m : gmap string T) : list (string * json) :=
  (λ k, (k, c_enc c (default (c_zero c) (m !! k)))) <$> sorted_keys m.

Definition load_entry {T} (c : codec T) (acc : option (gmap string T)) (e : string * (jvalue * list N))
    : option (gmap string T) :=
  m ← acc; t ← c_dec c e.2.1 e.2.2 (c_zero c); Some (<[e.1 := t]> m).

Definition c_map {T} (c : codec T) : codec (option (gmap string T)) :=
  MkCodec None (λ o, match o with None => JNull | Some m => JObj (map_fields c m) end)
    (λ k o, match o with
            | Some m => if size m ≟ O then [] else fld k (JObj (map_fields c m))
            | None => []
            end)
    (λ v _ old, match v with
                | VObj es => Some <$> foldl (load_entry c) (Some (default ∅ old)) es
                | VNull => Some None
                | _ => None
                end)
    (λ o, match o with
          | Some m => m ≠ ∅ ∧ ∀ k t, m !! k = Some t → utf8_string k ∧ c_ok c t
          | None => True
          end)
    (λ o, match o with
          | Some m => negb (size m ≟ O) && forallb (λ kt, c_test c_string kt.1 && c_test c kt.2) (map_to_list m)
          | None => true
          end).

#[global] Instance batch_eta : Eta BatchSIBatch := λ r, MkBatch (ba_BatchNumber r) (ba_OrderedTransactionIDs r).

Definition c_batch : codec BatchSIBatch := c_struct (MkBatch 0 None)
  ["batch_number" ::= c_int at ba_BatchNumber;
   "ordered_transaction_ids" ::= (c_nilable c_string) at ba_OrderedTransactionIDs].

#[global] Instance plan_metrics_eta : Eta BatchSIPlanMetrics := λ r,
  MkPlanMetrics (pm_TransactionCount r) (pm_CandidateTransactionCount r) (pm_AcceptedTransactionCount r)
    (pm_FirstPassOFASAbortedTransactionCount r) (pm_ReadOnlyTransactionCount r) (pm_AWRTAddressCount r)
    (pm_AWRTWriteReferenceCount r) (pm_BatchCount r) (pm_MaximumBatchWidth r) (pm_WriteOpportunityReuseCount r)
    (pm_DependencyEdgeCount r) (pm_OFASAbortedTransactionCount r) (pm_PlanningIterationCount r)
    (pm_TableConstructionMS r) (pm_SortingMS r).

Definition c_plan_metrics : codec BatchSIPlanMetrics := c_struct (MkPlanMetrics 0 0 0 0 0 0 0 0 0 0 0 0 0 0 0)
  ["transaction_count" ::= c_int at pm_TransactionCount;
   "candidate_transaction_count" ::= c_int at pm_CandidateTransactionCount;
   "accepted_transaction_count" ::= c_int at pm_AcceptedTransactionCount;
   "first_pass_ofas_aborted_transaction_count" ::= c_int at pm_FirstPassOFASAbortedTransactionCount;
   "read_only_transaction_count" ::= c_int at pm_ReadOnlyTransactionCount;
   "awrt_address_count" ::= c_int at pm_AWRTAddressCount;
   "awrt_write_reference_count" ::= c_int at pm_AWRTWriteReferenceCount;
   "batch_count" ::= c_int at pm_BatchCount;
   "maximum_batch_width" ::= c_int at pm_MaximumBatchWidth;
   "write_opportunity_reuse_count" ::= c_int at pm_WriteOpportunityReuseCount;
   "dependency_edge_count" ::= c_int at pm_DependencyEdgeCount;
   "ofas_aborted_transaction_count" ::= c_int at pm_OFASAbortedTransactionCount;
   "planning_iteration_count" ::= c_int at pm_PlanningIterationCount;
   "table_construction_ms" ?:= c_int at pm_TableConstructionMS;
   "sorting_ms" ?:= c_int at pm_SortingMS].

#[global] Instance order_evidence_eta : Eta BatchSIOrderEvidence := λ r,
  MkOrderEvidence (oe_TxID r) (oe_TransactionOrdinal r) (oe_BatchNumber r) (oe_SerializationPosition r).

Definition c_order_evidence : codec BatchSIOrderEvidence := c_struct (MkOrderEvidence "" 0 0 0)
  ["tx_id" ::= c_string at oe_TxID; "transaction_ordinal" ::= c_int at oe_TransactionOrdinal;
   "batch_number" ::= c_int at oe_BatchNumber; "serialization_position" ::= c_int at oe_SerializationPosition].

#[global] Instance batch_si_plan_eta : Eta BatchSIPlan := λ r,
  MkBatchSIPlan (bp_AlgorithmID r) (bp_Version r) (bp_BlockHeight r) (bp_PartitionMode r) (bp_OrderingMode r)
    (bp_PriorityMode r) (bp_CandidateTransactionIDs r) (bp_DeferredTransactions r) (bp_TransactionOrdinals r)
    (bp_OrderEvidence r) (bp_Batches r) (bp_Metrics r) (bp_PlanDigest r).

Definition zero_metrics : BatchSIPlanMetrics := MkPlanMetrics 0 0 0 0 0 0 0 0 0 0 0 0 0 0 0.

Definition c_batch_si_plan : codec BatchSIPlan :=
  c_struct (MkBatchSIPlan "" "" 0 "" "" "" None [] None None None zero_metrics "")
  ["algorithm_id" ::= c_string at bp_AlgorithmID; "version" ::= c_string at bp_Version;
   "block_height" ::= c_uint at bp_BlockHeight; "partition_mode" ::= c_string at bp_PartitionMode;
   "ordering_mode" ::= c_string at bp_OrderingMode; "priority_mode" ::= c_string at bp_PriorityMode;
   "candidate_transaction_ids" ::= (c_nilable c_string) at bp_CandidateTransactionIDs;
   "deferred_transactions" ?:= (c_slice c_transaction) at bp_DeferredTransactions;
   "transaction_ordinals" ::= (c_map c_int) at bp_TransactionOrdinals;
   "order_evidence" ::= (c_nilable c_order_evidence) at bp_OrderEvidence;
   "batches" ::= (c_nilable c_batch) at bp_Batches;
   "metrics" ::= c_plan_metrics at bp_Metrics;
   "plan_digest" ::= c_string at bp_PlanDigest].

#[global] Instance batch_si_wire_eta : Eta batchSIConsensusWire := λ r,
  MkBatchSIWire (bw_AlgorithmID r) (bw_Version r) (bw_WireVersion r) (bw_BlockHeight r) (bw_PartitionMode r)
    (bw_OrderingMode r) (bw_PriorityMode r) (bw_CandidateTransactionIDs r) (bw_DeferredTransactions r)
    (bw_TransactionOrdinals r) (bw_Batches r) (bw_Metrics r) (bw_PlanDigest r).

Definition c_batch_si_wire : codec batchSIConsensusWire :=
  c_struct (MkBatchSIWire "" "" "" 0 "" "" "" None [] None None zero_metrics "")
  ["algorithm_id" ::= c_string at bw_AlgorithmID; "version" ::= c_string at bw_Version;
   "wire_version" ::= c_string at bw_WireVersion;
   "block_height" ::= c_uint at bw_BlockHeight; "partition_mode" ::= c_string at bw_PartitionMode;
   "ordering_mode" ::= c_string at bw_OrderingMode; "priority_mode" ::= c_string at bw_PriorityMode;
   "candidate_transaction_ids" ::= (c_nilable c_string) at bw_CandidateTransactionIDs;
   "deferred_transactions" ?:= (c_slice c_transaction) at bw_DeferredTransactions;
   "transaction_ordinals" ?:= (c_map c_int) at bw_TransactionOrdinals;
   "batches" ::= (c_nilable c_batch) at bw_Batches;
   "metrics" ::= c_plan_metrics at bw_Metrics;
   "plan_digest" ::= c_string at bw_PlanDigest].

(** ** Building a plan *)

Definition items_of {A} (l : option (list A)) : list A := default [] l.
(** [append([]T(nil), l...)]. *)
Definition copied_slice {A} (l : list A) : option (list A) := match l with [] => None | _ => Some l end.

Definition numbered_ids (batches : list BatchSIBatch) : list (Z * string) :=
  b ← batches; (λ id, (ba_BatchNumber b, id)) <$> items_of (ba_OrderedTransactionIDs b).

Definition batchSIOrderEvidence (ordinals : option (gmap string Z)) (batches : list BatchSIBatch)
    : list BatchSIOrderEvidence :=
  imap (λ i nid, MkOrderEvidence nid.2 (zget (default ∅ ordinals) nid.2) nid.1 (Z.of_nat i + 1)) (numbered_ids batches).

Definition set_digest (p : BatchSIPlan) (digest : string) : BatchSIPlan := ltac:(set_field bp_PlanDigest digest p).
Definition set_metrics (p : BatchSIPlan) (m : BatchSIPlanMetrics) : BatchSIPlan := ltac:(set_field bp_Metrics m p).
Definition set_order_evidence (p : BatchSIPlan) (l : option (list BatchSIOrderEvidence)) : BatchSIPlan :=
  ltac:(set_field bp_OrderEvidence l p).

Definition without_times (m : BatchSIPlanMetrics) : BatchSIPlanMetrics :=
  let m := ltac:(set_field pm_TableConstructionMS 0 m) in ltac:(set_field pm_SortingMS 0 m).

Definition batchSIPlanDigest (plan : BatchSIPlan) : string :=
  sha256_hex (Marshal c_batch_si_plan (set_metrics (set_digest plan "") (without_times (bp_Metrics plan)))).

Record BatchSIPlanningResult := MkPlanning {
  pr_Plan : BatchSIPlan;
  pr_Ordered : list SignedTransaction;
  pr_Deferred : list SignedTransaction;
}.

(** One batch ordered: what is kept, what is rejected, the edges seen. *)
Definition order_partition (config : BatchSIConfig) (p : batchSIPartition)
    : batchSIPartition * list batchSITxDescriptor * Z :=
  let '(ordered, rejected, edges) :=
    if bc_OrderingMode config ≟ BatchSIOrderingDependencyGraph then batchSIDependencyGraphOrder (pt_Txs p)
    else batchSIOFASOrder (pt_Txs p) (bc_PriorityMode config) in
  (MkPartition (pt_Number p) ordered, rejected, edges).

Definition partition_items (config : BatchSIConfig) (descriptors : list batchSITxDescriptor)
    : list batchSIPartition * Z :=
  if bc_PartitionMode config ≟ BatchSIPartitionSequential then (batchSISequentialPartition descriptors, 0)
  else batchSIWRBPPartition descriptors.

Definition deferred_less (ordinals : gmap string Z) (a b : SignedTransaction) : bool :=
  if zget ordinals (TxID a) ≠? zget ordinals (TxID b) then zget ordinals (TxID a) <? zget ordinals (TxID b)
  else str_less (TxID a) (TxID b).

Definition count {A} (l : list A) : Z := Z.of_nat (length l).

(** [ms] are the two measured durations. *)
Definition BuildBatchSIPlanWithOrdinals (b : Block) (config : BatchSIConfig) (ordinals : option (gmap string Z))
    (ms : Z * Z) : batch_si_error + BatchSIPlanningResult :=
  let config := Normalized config in
  match ConfigValidate config with
  | Some err => inl err
  | None =>
  '(descriptors, normalizedOrdinals) ← batchSIDescriptors (TxList b) ordinals (ShardID b);
  let '(awrt, awrtReferences) := batchSIBuildAWRT descriptors in
  let '(partitions, opportunityReuse) := partition_items config descriptors in
  let sorted := order_partition config <$> partitions in
  let deferredByID : gmap string batchSITxDescriptor :=
    foldl (λ m d, <[ds_TxID d := d]> m) ∅ (r ← sorted; r.1.2) in
  let finalPartitions := filter (λ p, pt_Txs p ≠ []) ((λ r, r.1.1) <$> sorted) in
  let deferredCount := Z.of_nat (size deferredByID) in
  let metrics := MkPlanMetrics (count descriptors) (count descriptors) (count descriptors - deferredCount)
    deferredCount (count (filter (λ d, ds_WriteKeys d = []) descriptors)) (Z.of_nat (size awrt)) awrtReferences
    (count finalPartitions) (foldl (λ m p, Z.max m (count (pt_Txs p))) 0 finalPartitions) opportunityReuse
    (foldl (λ n r, n + r.2) 0 sorted) deferredCount 1 ms.1 ms.2 in
  let batches := copied_slice ((λ p, MkBatch (pt_Number p) (copied_slice (ds_TxID <$> pt_Txs p))) <$> finalPartitions) in
  let deferred := sort_slice (deferred_less normalizedOrdinals) (ds_Item <$> (map_to_list deferredByID).*2) in
  let byID : gmap string batchSITxDescriptor := by_id descriptors in
  let plan := MkBatchSIPlan BatchSIPlanAlgorithmID BatchSIPlanVersion (Height b) (bc_PartitionMode config)
    (bc_OrderingMode config) (bc_PriorityMode config) (Some (TxID <$> TxList b)) deferred (Some normalizedOrdinals)
    (Some (batchSIOrderEvidence (Some normalizedOrdinals) (items_of batches))) batches metrics "" in
  inr (MkPlanning (set_digest plan (batchSIPlanDigest plan))
         ((λ nid, ds_Item (dget byID nid.2)) <$> numbered_ids (items_of batches)) deferred)
  end.

Definition block_ordinals (items : list SignedTransaction) : gmap string Z :=
  foldl (λ m ix, if blank (TxID ix.2) then m else <[TxID ix.2 := ix.1 + 1]> m) ∅
    (zip (seqZ 0 (count items)) items).

Definition BuildBatchSIPlan (b : Block) (config : BatchSIConfig) (ms : Z * Z)
    : batch_si_error + BatchSIPlanningResult :=
  BuildBatchSIPlanWithOrdinals b config (Some (block_ordinals (TxList b))) ms.

(** ** The wire *)

Definition batchSIOrdinalsAreCanonical (candidateIDs : list string) (ordinals : gmap string Z) : bool :=
  (length candidateIDs ≟ size ordinals) &&
  forallb (λ ix, (ix.2 ≠? "") && (zget ordinals ix.2 =? ix.1 + 1)) (zip (seqZ 0 (count candidateIDs)) candidateIDs).

Definition unsupported (algorithm version : string) : bool :=
  (algorithm ≠? BatchSIPlanAlgorithmID) || (version ≠? BatchSIPlanVersion).

Definition wire_of (plan : BatchSIPlan) : batchSIConsensusWire :=
  MkBatchSIWire (bp_AlgorithmID plan) (bp_Version plan) BatchSIConsensusWireVersion (bp_BlockHeight plan)
    (bp_PartitionMode plan) (bp_OrderingMode plan) (bp_PriorityMode plan)
    (copied_slice (items_of (bp_CandidateTransactionIDs plan))) (bp_DeferredTransactions plan)
    (if batchSIOrdinalsAreCanonical (items_of (bp_CandidateTransactionIDs plan)) (default ∅ (bp_TransactionOrdinals plan))
     then None else Some (default ∅ (bp_TransactionOrdinals plan)))
    (copied_slice (items_of (bp_Batches plan))) (bp_Metrics plan) (bp_PlanDigest plan).

Definition digest_wrong (plan : BatchSIPlan) : bool :=
  (bp_PlanDigest plan ≟ "") || (bp_PlanDigest plan ≠? batchSIPlanDigest plan).

Definition MarshalBatchSIPlan (plan : BatchSIPlan) : batch_si_error + list N :=
  if unsupported (bp_AlgorithmID plan) (bp_Version plan)
  then inl (BsUnsupported (bp_AlgorithmID plan) (bp_Version plan))
  else if digest_wrong plan then inl BsDigestBeforeMarshal
  else
  let normalized := set_order_evidence plan
    (Some (batchSIOrderEvidence (bp_TransactionOrdinals plan) (items_of (bp_Batches plan)))) in
  if batchSIPlanDigest normalized ≠? bp_PlanDigest plan then inl BsEvidenceNotDerivable
  else inr (bytes_of_string (Marshal c_batch_si_wire (wire_of plan))).

Fixpoint wire_ordinals_loop (index : Z) (ids : list string) (ordinals : gmap string Z)
    : batch_si_error + gmap string Z :=
  match ids with
  | [] => inr ordinals
  | txID :: rest =>
      if blank txID then inl BsWireEmptyID
      else if bool_decide (is_Some (ordinals !! txID)) then inl (BsWireDuplicateID txID)
      else wire_ordinals_loop (index + 1) rest (<[txID := index + 1]> ordinals)
  end.

Definition batchSIWireOrdinals (candidateIDs : list string) (explicit : option (gmap string Z))
    : batch_si_error + gmap string Z :=
  let explicit := default ∅ explicit in
  if (0 <? Z.of_nat (size explicit)) then
    if size explicit ≠? length candidateIDs then inl BsOrdinalCount else inr explicit
  else wire_ordinals_loop 0 candidateIDs ∅.

Definition checked_plan (plan : BatchSIPlan) : batch_si_error + BatchSIPlan :=
  if digest_wrong plan then inl BsDigest else inr plan.

Definition parseLegacyRichBatchSIPlan (raw : list N) : batch_si_error + BatchSIPlan :=
  match Unmarshal c_batch_si_plan (string_of_bytes raw) with
  | None => inl BsDecode
  | Some plan =>
      if unsupported (bp_AlgorithmID plan) (bp_Version plan)
      then inl (BsUnsupported (bp_AlgorithmID plan) (bp_Version plan))
      else checked_plan plan
  end.

Definition ParseBatchSIPlan (raw : list N) : batch_si_error + BatchSIPlan :=
  match Unmarshal c_batch_si_wire (string_of_bytes raw) with
  | None => inl BsDecode
  | Some wire =>
      if bw_WireVersion wire ≟ "" then parseLegacyRichBatchSIPlan raw
      else if bw_WireVersion wire ≠? BatchSIConsensusWireVersion then inl (BsWireVersion (bw_WireVersion wire))
      else if unsupported (bw_AlgorithmID wire) (bw_Version wire)
      then inl (BsUnsupported (bw_AlgorithmID wire) (bw_Version wire))
      else
      ordinals ← batchSIWireOrdinals (items_of (bw_CandidateTransactionIDs wire)) (bw_TransactionOrdinals wire);
      let batches := copied_slice (items_of (bw_Batches wire)) in
      checked_plan (MkBatchSIPlan (bw_AlgorithmID wire) (bw_Version wire) (bw_BlockHeight wire) (bw_PartitionMode wire)
        (bw_OrderingMode wire) (bw_PriorityMode wire) (copied_slice (items_of (bw_CandidateTransactionIDs wire)))
        (bw_DeferredTransactions wire) (Some ordinals) (Some (batchSIOrderEvidence (Some ordinals) (items_of batches)))
        batches (bw_Metrics wire) (bw_PlanDigest wire))
  end.

(** ** Verification *)

Definition config_mismatch (plan : BatchSIPlan) (config : BatchSIConfig) : bool :=
  (bp_PartitionMode plan ≠? bc_PartitionMode config) || (bp_OrderingMode plan ≠? bc_OrderingMode config) ||
  (bp_PriorityMode plan ≠? bc_PriorityMode config).

Fixpoint accepted_loop (items : list SignedTransaction) (accepted : gset string) (byID : gmap string SignedTransaction)
    : batch_si_error + gset string * gmap string SignedTransaction :=
  match items with
  | [] => inr (accepted, byID)
  | item :: rest =>
      if (TxID item ≟ "") || bool_decide (TxID item ∈ accepted) then inl BsAcceptedIDs
      else accepted_loop rest ({[TxID item]} ∪ accepted) (<[TxID item := item]> byID)
  end.

Fixpoint deferred_loop (verify : SignedTransaction → error) (accepted : gset string) (items : list SignedTransaction)
    (deferred : gset string) (byID : gmap string SignedTransaction) : batch_si_error + gmap string SignedTransaction :=
  match items with
  | [] => inr byID
  | item :: rest =>
      if (TxID item ≟ "") || bool_decide (TxID item ∈ deferred) || bool_decide (TxID item ∈ accepted)
      then inl BsDeferredIDs
      else if ((Signature item ≠? "") || (PublicKey item ≠? "")) && defined (verify item)
      then inl (BsDeferredInvalid (TxID item))
      else deferred_loop verify accepted rest ({[TxID item]} ∪ deferred) (<[TxID item := item]> byID)
  end.

Fixpoint candidate_loop (byID : gmap string SignedTransaction) (ordinals : gmap string Z) (ids : list string)
    (seen : gset string) (seenOrdinals : gset Z) : batch_si_error + list SignedTransaction :=
  match ids with
  | [] => inr []
  | txID :: rest =>
      if (txID ≟ "") || bool_decide (txID ∈ seen) then inl BsCandidateIDs
      else match byID !! txID with
      | None => inl (BsCandidateUnknown txID)
      | Some item =>
          let ordinal := zget ordinals txID in
          if (ordinal <? 1) || bool_decide (ordinal ∈ seenOrdinals) then inl (BsCandidateOrdinal txID)
          else
          out ← candidate_loop byID ordinals rest ({[txID]} ∪ seen) ({[ordinal]} ∪ seenOrdinals);
          inr (item :: out)
      end
  end.

(** The first index at which the ids differ. *)
Fixpoint first_mismatch (index : Z) (l1 l2 : list SignedTransaction) : option Z :=
  match l1, l2 with
  | a :: l1, b :: l2 => if TxID a ≟ TxID b then first_mismatch (index + 1) l1 l2 else Some index
  | _, _ => None
  end.

Definition candidate_block (b : Block) (items : list SignedTransaction) (ids : list string) : Block :=
  MkBlock (BlockHash b) (ShardID b) (Height b) (PreviousHash b) (ProposerID b) (BlockTimestamp b) (Some ids) items
    (TxRootField b) (StateRootBefore b) (StateRootAfter b) (ReceiptRootField b) (ProposerDigest b) (StateCommit b)
    (CrossShardProtocol b) (SystemStateDeltas b) None (ProposalEvidence b).

Definition VerifyBatchSIPlan (verify : SignedTransaction → error) (b : Block) (plan : BatchSIPlan)
    (config : BatchSIConfig) (ms : Z * Z) : option batch_si_error :=
  let config := Normalized config in
  let candidates := items_of (bp_CandidateTransactionIDs plan) in
  let ordinals := default ∅ (bp_TransactionOrdinals plan) in
  let result : batch_si_error + () :=
    if config_mismatch plan config then inl BsConfigMismatch
    else if (length candidates ≟ O) && negb (length (TxList b) ≟ O) then inl BsCandidatesMissing
    else if size ordinals ≠? length candidates then inl BsCandidateOrdinals
    else
    '(accepted, byID) ← accepted_loop (TxList b) ∅ ∅;
    byID ← deferred_loop verify accepted (bp_DeferredTransactions plan) ∅ byID;
    items ← candidate_loop byID ordinals candidates ∅ ∅;
    if size byID ≠? length candidates then inl BsOutsideCandidates
    else
    recomputed ← BuildBatchSIPlanWithOrdinals (candidate_block b items candidates) config (bp_TransactionOrdinals plan) ms;
    if bp_PlanDigest (pr_Plan recomputed) ≠? bp_PlanDigest plan then inl BsFixedDigest
    else if length (pr_Ordered recomputed) ≠? length (TxList b) then inl BsAcceptedCount
    else match first_mismatch 0 (TxList b) (pr_Ordered recomputed) with
    | Some index => inl (BsAcceptedOrder index)
    | None =>
    if length (pr_Deferred recomputed) ≠? length (bp_DeferredTransactions plan) then inl BsDeferredCount
    else match first_mismatch 0 (pr_Deferred recomputed) (bp_DeferredTransactions plan) with
    | Some index => inl (BsDeferredOrder index)
    | None => inr ()
    end end in
  match result with inl err => Some err | inr _ => None end.

(** One id of a batch against the block and the evidence at [position]. *)
Fixpoint projection_loop (b : Block) (plan : BatchSIPlan) (position : nat) (ids : list (Z * string)) (seen : gset string)
    : batch_si_error + nat :=
  match ids with
  | [] => inr position
  | (number, txID) :: rest =>
      match TxList b !! position, items_of (bp_OrderEvidence plan) !! position with
      | Some item, Some evidence =>
          if (txID ≟ "") || bool_decide (txID ∈ seen) then inl BsProjection
          else if TxID item ≠? txID then inl (BsAcceptedOrder (Z.of_nat position))
          else if (oe_TxID evidence ≠? txID) || (oe_BatchNumber evidence ≠? number) ||
                  (oe_SerializationPosition evidence ≠? Z.of_nat position + 1) ||
                  (oe_TransactionOrdinal evidence ≠? zget (default ∅ (bp_TransactionOrdinals plan)) txID)
          then inl (BsEvidence (Z.of_nat position))
          else projection_loop b plan (S position) rest ({[txID]} ∪ seen)
      | _, _ => inl BsProjection
      end
  end.

(** The batch numbers are looked at batch by batch, before the ids of the batch. *)
Fixpoint projection_batches (b : Block) (plan : BatchSIPlan) (position : nat) (batches : list BatchSIBatch)
    (seen : gset string) : batch_si_error + nat :=
  match batches with
  | [] => inr position
  | batch :: rest =>
      if ba_BatchNumber batch <? 1 then inl BsBatchNumber
      else
      let ids := items_of (ba_OrderedTransactionIDs batch) in
      position ← projection_loop b plan position ((λ id, (ba_BatchNumber batch, id)) <$> ids) seen;
      projection_batches b plan position rest (list_to_set ids ∪ seen)
  end.

Definition ValidateBatchSIPlanProjection (b : Block) (plan : BatchSIPlan) (config : BatchSIConfig)
    : option batch_si_error :=
  let config := Normalized config in
  if unsupported (bp_AlgorithmID plan) (bp_Version plan)
  then Some (BsUnsupported (bp_AlgorithmID plan) (bp_Version plan))
  else if negb (bp_BlockHeight plan =? Height b)%N then Some BsHeight
  else if config_mismatch plan config then Some BsConfigMismatch
  else if digest_wrong plan then Some BsDigest
  else if pm_AcceptedTransactionCount (bp_Metrics plan) ≠? count (TxList b) then Some BsAcceptedCount
  else if length (items_of (bp_OrderEvidence plan)) ≠? length (TxList b) then Some BsEvidenceCount
  else match projection_batches b plan 0 (items_of (bp_Batches plan)) ∅ with
  | inl err => Some err
  | inr position => if position ≠? length (TxList b) then Some BsProjectionShort else None
  end.

(** ** The scheduler plugin *)

Definition batchSITextDigest (value : list N) : string := sha256_hex (string_of_bytes value).

Definition with_plan (b : Block) (items : list SignedTransaction) (plan : ExecutionPlanEnvelope) : Block :=
  MkBlock (BlockHash b) (ShardID b) (Height b) (PreviousHash b) (ProposerID b) (BlockTimestamp b)
    (Some (TxID <$> items)) items (TxRootField b) (StateRootBefore b) (StateRootAfter b) (ReceiptRootField b)
    (ProposerDigest b) (StateCommit b) (CrossShardProtocol b) (SystemStateDeltas b) (Some plan) (ProposalEvidence b).

(** The proposed block and the transactions released to the mempool. *)
Definition PlanBlock (config : BatchSIConfig) (b : Block) (ms : Z * Z)
    : batch_si_error + Block * list SignedTransaction :=
  planned ← BuildBatchSIPlan b config ms;
  if (length (pr_Ordered planned) ≟ O) && negb (length (TxList b) ≟ O) then inl BsAllDeferred
  else
  raw ← MarshalBatchSIPlan (pr_Plan planned);
  inr (with_plan b (pr_Ordered planned)
         (MkPlanEnvelope BatchSIPlanAlgorithmID (batchSITextDigest raw) (bp_PlanDigest (pr_Plan planned)) raw),
       pr_Deferred planned).

Definition VerifyBlockPlan (verify : SignedTransaction → error) (config : BatchSIConfig) (b : Block) (ms : Z * Z)
    : option batch_si_error :=
  match ExecutionPlan b with
  | None => Some BsNoPlan
  | Some envelope =>
      if ep_AlgorithmID envelope ≠? BatchSIPlanAlgorithmID then Some BsNoPlan
      else match ParseBatchSIPlan (ep_Payload envelope) with
      | inl err => Some err
      | inr plan =>
          if ep_PlanDigest envelope ≠? bp_PlanDigest plan then Some BsEnvelope
          else VerifyBatchSIPlan verify b plan config ms
      end
  end.
