(* ===== verification/BatchSIExec.v ===== *)
(** * Executing a Batch-SI block ([executor/realism/execution/batch_si_executor.go])

    The batches of a plan run one after the other; the transactions of a batch read
    the state the batch starts with, on a pool of workers that is kept for the whole
    block, and their writes are applied in the order of the plan. Metrics and
    durations are left out. *)
From S2P Require Import Prelude GoStd Tx Block StateRoot Heap Serial BatchSI BatchSIWire.
Import Json.
Local Open Scope Z_scope.

(** ** What a transaction does *)

Definition batchSIIsPureCommutativeDelta (accesses : list AccessItem) : bool :=
  forallb (λ a, (ai_Mode a ≟ AccessRead) || (ai_Mode a ≟ AccessCommutativeDelta)) accesses &&
  existsb (λ a, ai_Mode a ≟ AccessCommutativeDelta) accesses.

Definition batchSIIsDirectAccessTransaction (item : SignedTransaction) : bool :=
  (AccessListSchema item ≠? "") && (AccessListSchema item ≠? "dcl_sale_access_template_v1") &&
  (AccessListSource item ≠? "legacy_state_keys").

Definition batchSIDirectAccessValue (item : SignedTransaction) (access : AccessItem) (previous : string) : string :=
  sha256_hex (marshal (JObj
    (fld "logical_tx_id" (JStr (SemanticID item)) ++ fld "key" (JStr (ai_Key access)) ++
     fld "semantics" (JStr (ai_UpdateSemantics access)) ++ opt_str "previous" previous))).

Fixpoint batchSIApplyDeclaredSemanticReads (accesses : list AccessItem) : action () :=
  match accesses with
  | [] => mret ()
  | a :: rest =>
      _ ← (if (ai_Mode a ≟ AccessRead) && (ai_Key a ≠? "") && (ai_UpdateSemantics a ≟ "category_metadata")
           then _ ← get (ai_Key a); mret () else mret ());
      batchSIApplyDeclaredSemanticReads rest
  end.

Fixpoint si_applyCommutativeDeltas (accesses : list AccessItem) : action () :=
  match accesses with
  | [] => mret ()
  | a :: rest =>
      if (ai_Mode a ≠? AccessCommutativeDelta) || (ai_Key a ≟ "") then si_applyCommutativeDeltas rest
      else
      text ← get (ai_Key a);
      _ ← set (ai_Key a) (format_int (i64_add (atoi64 text) (ai_Delta a)));
      si_applyCommutativeDeltas rest
  end.

Definition si_direct_access (item : SignedTransaction) (a : AccessItem) : action () :=
  if ai_Key a ≟ "" then mret ()
  else if ai_Mode a ≟ AccessRead then _ ← get (ai_Key a); mret ()
  else if ai_Mode a ≟ AccessCommutativeDelta then si_applyCommutativeDeltas [a]
  else if ai_Mode a ≟ AccessReadWrite
  then previous ← get (ai_Key a); set (ai_Key a) (batchSIDirectAccessValue item a previous)
  else if ai_Mode a ≟ AccessWrite then set (ai_Key a) (batchSIDirectAccessValue item a "")
  else mret ().

Fixpoint si_apply_direct (item : SignedTransaction) (accesses : list AccessItem) : action () :=
  match accesses with
  | [] => mret ()
  | a :: rest => _ ← si_direct_access item a; si_apply_direct item rest
  end.
Definition batchSIApplyDirectAccessTransaction (item : SignedTransaction) : action () :=
  si_apply_direct item (AccessList item).

(** ** The accounts of a transfer *)

Record batchSIAccountAccess := MkAccountAccess {
  acc_balancePresent : bool;
  acc_balanceWritable : bool;
  acc_noncePresent : bool;
  acc_nonceWritable : bool;
}.

Definition no_access : batchSIAccountAccess := MkAccountAccess false false false false.

(** The account a key is about, and whether it is its balance. *)
Definition account_of_key (key : string) : option (string * bool) :=
  let key := trim_space key in
  if has_prefix key "balance:" then Some (trim_space (trim_prefix key "balance:"), true)
  else if has_prefix key "nonce:" then Some (trim_space (trim_prefix key "nonce:"), false)
  else None.

Definition writable (a : AccessItem) : bool :=
  (ai_Mode a ≟ AccessWrite) || (ai_Mode a ≟ AccessReadWrite) || (ai_Mode a ≟ AccessCommutativeDelta).

Definition note_access (accounts : gmap string batchSIAccountAccess) (a : AccessItem)
    : gmap string batchSIAccountAccess :=
  match account_of_key (ai_Key a) with
  | None => accounts
  | Some (account, isBalance) =>
      if account ≟ "" then accounts
      else
      let entry := default no_access (accounts !! account) in
      <[account :=
          if isBalance : bool
          then MkAccountAccess true (acc_balanceWritable entry || writable a) (acc_noncePresent entry)
                 (acc_nonceWritable entry)
          else MkAccountAccess (acc_balancePresent entry) (acc_balanceWritable entry) true
                 (acc_nonceWritable entry || writable a)]> accounts
  end.

Definition declared_accounts (item : SignedTransaction) : gmap string batchSIAccountAccess :=
  foldl note_access ∅ (AccessList item).

(** The least account that passes a test. *)
Definition first_account (accounts : gmap string batchSIAccountAccess)
    (test : string → batchSIAccountAccess → bool) : option string :=
  head (sort_strings (map_to_list (map_keep test accounts)).*1).

Definition batchSITransferAccounts (item : SignedTransaction) : string * string :=
  let accounts := declared_accounts item in
  let sender := trim_space (Sender item) in
  let receiver := trim_space (Receiver item) in
  let can_send (_ : string) e := acc_balanceWritable e && acc_nonceWritable e in
  let can_receive (_ : string) e := acc_balanceWritable e && acc_noncePresent e in
  let receiverDeclared := match accounts !! receiver with Some e => can_receive receiver e | None => false end in
  let senderDeclared := match accounts !! sender with Some e => can_send sender e | None => false end in
  let sender :=
    if senderDeclared then sender
    else match first_account accounts (λ a e, can_send a e && (negb receiverDeclared || (a ≠? receiver))) with
         | Some account => account
         | None => default sender (first_account accounts can_send)
         end in
  (sender,
   if receiverDeclared then receiver
   else default receiver (first_account accounts (λ a e, (a ≠? sender) && can_receive a e))).

(** ** Transfers *)

Definition si_setBalance (account : string) (value : Z) : action () := set ("balance:" +:+ account) (format_int value).
Definition si_setNonce (account : string) (value : N) : action () := set ("nonce:" +:+ account) (format_uint value).
Definition si_balance (account : string) : action Z :=
  value ← get ("balance:" +:+ account); mret (atoi64 value).
Definition si_nonce (account : string) : action N :=
  value ← get ("nonce:" +:+ account); mret (atou64 value).

Definition ensureDeclaredAccount (account : string) (balance : Z) (declaredWrites : gset string) : action () :=
  _ ← (if bool_decide (("balance:" +:+ account) ∈ declaredWrites)
       then v ← get ("balance:" +:+ account); if v ≟ "" then si_setBalance account balance else mret ()
       else mret ());
  if bool_decide (("nonce:" +:+ account) ∈ declaredWrites)
  then v ← get ("nonce:" +:+ account); if v ≟ "" then si_setNonce account 0 else mret ()
  else mret ().

(** The [switch] of a transfer; [""] is a success. The balance is read once for the
    test and once for the debit. *)
Definition si_transfer (item : SignedTransaction) (sender receiver : string) : action string :=
  expected ← si_nonce sender;
  if negb (Nonce item =? expected)%N then mret (nonce_mismatch expected (Nonce item))
  else if Value item <=? 0 then mret "invalid_value"
  else
  available ← si_balance sender;
  if available <? Value item then mret "insufficient_balance"
  else
  senderBalance ← si_balance sender;
  _ ← si_setBalance sender (i64_sub senderBalance (Value item));
  received ← si_balance receiver;
  _ ← si_setBalance receiver (i64_add received (Value item));
  _ ← si_setNonce sender (u64_add (Nonce item) 1);
  _ ← si_applyCommutativeDeltas (AccessList item);
  mret "".

Definition si_program (initial : Z) (b : Block) (item : SignedTransaction) : action Receipt :=
  _ ← batchSIApplyDeclaredSemanticReads (AccessList item);
  if batchSIIsPureCommutativeDelta (AccessList item)
  then _ ← si_applyCommutativeDeltas (AccessList item); mret (receipt_of b item "")
  else if batchSIIsCrossShardTargetCommit item (ShardID b)
  then _ ← set ("relay_commit:" +:+ TxID item) "1"; mret (receipt_of b item "")
  else if batchSIIsDirectAccessTransaction item
  then _ ← batchSIApplyDirectAccessTransaction item; mret (receipt_of b item "")
  else
  let '(sender, receiver) := batchSITransferAccounts item in
  let declaredWrites := batchSIStringSet (batchSIDeclaredAccess item (ShardID b)).2 in
  _ ← ensureDeclaredAccount sender initial declaredWrites;
  _ ← ensureDeclaredAccount receiver 0 declaredWrites;
  err ← si_transfer item sender receiver;
  mret (receipt_of b item err).

(** ** The overlay *)

Definition batchSIQualifiedKey (shardID key : string) : string :=
  if str_contains key "::" then key else shardID +:+ "::" +:+ key.

Record batchSIOverlay := MkSiOverlay {
  si_shardID : string;
  si_base : gmap string string;
  si_reads : list ReadObservation;
  si_writes : gmap string string;
}.

Definition newBatchSIOverlay (shardID : string) (base : gmap string string) : batchSIOverlay :=
  MkSiOverlay shardID base [] ∅.

Definition batchSIOverlay_get (key : string) (o : batchSIOverlay) : batchSIOverlay * string :=
  let '(value, source) :=
    match si_writes o !! key with
    | Some v => (v, "batch_si_private_write")
    | None => (default "" (si_base o !! batchSIQualifiedKey (si_shardID o) key), "batch_si_batch_snapshot")
    end in
  (MkSiOverlay (si_shardID o) (si_base o) (si_reads o ++ [observe key value source]) (si_writes o), value).

Definition batchSIOverlay_set (key value : string) (o : batchSIOverlay) : batchSIOverlay :=
  MkSiOverlay (si_shardID o) (si_base o) (si_reads o) (<[key := value]> (si_writes o)).

#[global] Instance batchSIOverlay_Overlay : Overlay batchSIOverlay :=
  {| ov_get := batchSIOverlay_get; ov_set := batchSIOverlay_set; ov_writes := si_writes |}.

Definition si_executeTransaction (initial : Z) (b : Block) (item : SignedTransaction)
    (snapshot : gmap string string) (originalIndex : Z) : Receipt * TxDelta :=
  let '(o, receipt) := interp (si_program initial b item) (newBatchSIOverlay (ShardID b) snapshot) in
  (receipt, delta_of item originalIndex (si_reads o) (si_writes o) receipt).

(** ** The worker pool

    The channel holds [capacity] tasks. The sender looks at the context before each
    task, then sends or sees the context end; a worker takes a task, looks at the
    context, runs the job and stores its result. The sender waits for the tasks it
    has sent before it returns, so a batch starts with idle workers and an empty
    channel. *)

Inductive si_sender := SiCheck | SiSelect | SiAborted.
Inductive si_worker := SiIdle | SiReceived (position : nat) | SiWorking (position : nat).

Record si_pool (A : Type) := MkSiPool {
  sp_next : nat;                        (* the task the sender is at *)
  sp_sender : si_sender;
  sp_jobs : list nat;                   (* the channel's buffer *)
  sp_workers : list si_worker;
  sp_results : list (option A);
  sp_firstErr : bool;
  sp_cancelled : bool;
}.
Arguments MkSiPool {A}.
Arguments sp_next {A}.
Arguments sp_sender {A}.
Arguments sp_jobs {A}.
Arguments sp_workers {A}.
Arguments sp_results {A}.
Arguments sp_firstErr {A}.
Arguments sp_cancelled {A}.

Inductive si_choice :=
  | SiCheckCtx           (* the sender's [ctx.Err()] *)
  | SiSend               (* [pool.jobs <- task] *)
  | SiDone               (* [<-ctx.Done()] *)
  | SiTake (w : nat)     (* [for task := range pool.jobs] *)
  | SiLook (w : nat)     (* the worker's [pool.ctx.Err()] *)
  | SiFinish (w : nat)   (* the result is stored *)
  | SiCancel.            (* the caller's context ends *)

Definition si_step {A} (job : nat → A) (c : si_choice) (p : si_pool A) : option (si_pool A) :=
  let 'MkSiPool next sender jobs workers results firstErr cancelled := p in
  match c with
  | SiCheckCtx =>
      match sender with
      | SiCheck => if (next <? length results)%nat
                   then Some (MkSiPool next (if cancelled : bool then SiAborted else SiSelect) jobs workers results
                                firstErr cancelled)
                   else None
      | _ => None
      end
  | SiSend =>
      match sender with
      | SiSelect => if (length jobs <? length workers)%nat
                    then Some (MkSiPool (S next) SiCheck (jobs ++ [next]) workers results firstErr cancelled)
                    else None
      | _ => None
      end
  | SiDone =>
      match sender with
      | SiSelect => if cancelled : bool then Some (MkSiPool next SiAborted jobs workers results firstErr cancelled) else None
      | _ => None
      end
  | SiTake w =>
      match workers !! w, jobs with
      | Some SiIdle, i :: jobs => Some (MkSiPool next sender jobs (<[w := SiReceived i]> workers) results firstErr cancelled)
      | _, _ => None
      end
  | SiLook w =>
      match workers !! w with
      | Some (SiReceived i) =>
          Some (if cancelled : bool
                then MkSiPool next sender jobs (<[w := SiIdle]> workers) results true cancelled
                else MkSiPool next sender jobs (<[w := SiWorking i]> workers) results firstErr cancelled)
      | _ => None
      end
  | SiFinish w =>
      match workers !! w with
      | Some (SiWorking i) =>
          Some (MkSiPool next sender jobs (<[w := SiIdle]> workers) (<[i := Some (job i)]> results) firstErr cancelled)
      | _ => None
      end
  | SiCancel => Some (MkSiPool next sender jobs workers results firstErr true)
  end.

Fixpoint si_run {A} (job : nat → A) (cs : list si_choice) (p : si_pool A) : option (si_pool A) :=
  match cs with
  | [] => Some p
  | c :: cs => p' ← si_step job c p; si_run job cs p'
  end.

Definition si_idle (w : si_worker) : bool := match w with SiIdle => true | _ => false end.

(** [done.Wait()] returns: no task is in the channel or with a worker. *)
Definition si_settled {A} (p : si_pool A) : bool := (length (sp_jobs p) ≟ O) && forallb si_idle (sp_workers p).

(** The context [executeBatchWithPool] leaves, and the results unless it has ended;
    [None] while the call runs. *)
Definition si_outcome {A} (p : si_pool A) : option (bool * option (list A)) :=
  match sp_sender p with
  | SiAborted => if si_settled p then Some (sp_cancelled p, None) else None
  | SiCheck =>
      if (length (sp_results p) <=? sp_next p)%nat && si_settled p
      then Some (sp_cancelled p, if sp_firstErr p then None else Some (omap (M := list) id (sp_results p)))
      else None
  | SiSelect => None
  end.

Definition executeBatchWithPool {A} (job : nat → A) (size workerCount : nat) (cs : list si_choice) (cancelled : bool)
    : option (bool * option (list A)) :=
  if size ≟ O then Some (cancelled, Some [])
  else match si_run job cs (MkSiPool 0 SiCheck [] (replicate workerCount SiIdle) (replicate size None) false cancelled) with
       | None => None
       | Some p => si_outcome p
       end.

(** ** A block *)

Record BatchSIExecutor := MkBatchSIExecutor { se_Config : BatchSIConfig; se_DefaultInitialBalance : Z }.

Definition NewBatchSIExecutor (config : BatchSIConfig) : BatchSIExecutor := MkBatchSIExecutor (Normalized config) 1000000.

Definition batchSIValidateDeclaredWrites (item : SignedTransaction) (writes : gmap string string) (shardID : string)
    : option batch_si_error :=
  let declared := batchSIStringSet (batchSIDeclaredAccess item shardID).2 in
  if forallb (λ kv, bool_decide (kv.1 ∈ declared)) (map_to_list writes) then None else Some (BsUndeclaredWrite (TxID item)).

Definition batchSISortedWriteKeys (values : gmap string string) : list string :=
  sort_strings (map_to_list values).*1.

Definition si_materialize (shardID : string) (writes working : gmap string string) : gmap string string :=
  foldl (λ w key, <[batchSIQualifiedKey shardID key := default "" (writes !! key)]> w) working
    (batchSISortedWriteKeys writes).
Definition si_commit (shardID : string) (writes : gmap string string) (c : commitmentNode) : commitmentNode :=
  foldl (λ c key, commitmentSet c (batchSIQualifiedKey shardID key) (default "" (writes !! key))) c
    (batchSISortedWriteKeys writes).

Record si_work := MkSiWork {
  sw_working : gmap string string;
  sw_commitment : commitmentNode;
  sw_deltas : list TxDelta;
}.

Definition si_with_receipt (d : TxDelta) (receipt : Receipt) : TxDelta :=
  MkDelta (td_TxID d) (td_OriginalIndex d) (td_ReadSet d) (td_WriteSet d) receipt (td_Success d) (td_Error d).

(** The loop over the results of a batch. *)
Fixpoint apply_results (shardID : string) (results : list (SignedTransaction * TxDelta)) (w : si_work)
    : batch_si_error + si_work :=
  match results with
  | [] => inr w
  | (item, d) :: rest =>
      match batchSIValidateDeclaredWrites item (td_WriteSet d) shardID with
      | Some err => inl err
      | None =>
          let commitment := si_commit shardID (td_WriteSet d) (sw_commitment w) in
          let receipt := with_root (td_Receipt d) (CommitmentRoot (Some commitment)) in
          apply_results shardID rest
            (MkSiWork (si_materialize shardID (td_WriteSet d) (sw_working w)) commitment
               (sw_deltas w ++ [si_with_receipt d receipt]))
      end
  end.

Definition tx_index (b : Block) : gmap string (SignedTransaction * Z) :=
  foldl (λ m ix, <[TxID ix.2 := (ix.2, ix.1)]> m) ∅ (zip (seqZ 0 (count (TxList b))) (TxList b)).

Fixpoint batch_items (index : gmap string (SignedTransaction * Z)) (ids : list string)
    : batch_si_error + list (SignedTransaction * Z) :=
  match ids with
  | [] => inr []
  | id :: rest =>
      match index !! id with
      | None => inl (BsUnknownTransaction id)
      | Some item => items ← batch_items index rest; inr (item :: items)
      end
  end.

Inductive si_result (A : Type) :=
  | SiRunning                         (* the schedule ends before the call returns *)
  | SiFailed (err : batch_si_error)
  | SiReturned (a : A).
Arguments SiRunning {A}.
Arguments SiFailed {A}.
Arguments SiReturned {A}.

(** How the workers of each batch interleave, and whether the context ends before
    the batch's own check of it. *)
Abbreviation si_schedule := (nat → bool * list si_choice).

Definition si_job (e : BatchSIExecutor) (b : Block) (snapshot : gmap string string)
    (items : list (SignedTransaction * Z)) (i : nat) : SignedTransaction * TxDelta :=
  let ix := default (ds_Item zero_descriptor, 0) (items !! i) in
  (ix.1, (si_executeTransaction (se_DefaultInitialBalance e) b ix.1 snapshot ix.2).2).

Fixpoint batch_loop (e : BatchSIExecutor) (b : Block) (workerCount : nat) (schedule : si_schedule) (turn : nat)
    (batches : list BatchSIBatch) (cancelled : bool) (w : si_work) : si_result si_work :=
  match batches with
  | [] => SiReturned w
  | batch :: rest =>
      let cancelled := cancelled || (schedule turn).1 in
      if cancelled then SiFailed BsContext
      else match batch_items (tx_index b) (items_of (ba_OrderedTransactionIDs batch)) with
      | inl err => SiFailed err
      | inr items =>
          match executeBatchWithPool (si_job e b (sw_working w) items) (length items) workerCount
                  (schedule turn).2 cancelled with
          | None => SiRunning
          | Some (_, None) => SiFailed BsContext
          | Some (cancelled, Some results) =>
              match apply_results (ShardID b) results w with
              | inl err => SiFailed err
              | inr w => batch_loop e b workerCount schedule (S turn) rest cancelled w
              end
          end
      end
  end.

Definition batchSIStateDelta (before after : gmap string string) : list StateUpdate :=
  (λ key, MkUpdate key (default "" (after !! key))) <$>
  sort_strings (map_to_list (map_keep (λ key value, default "" (before !! key) ≠? value) after)).*1.

Definition batchSIDeclaredAccessSet (items : list SignedTransaction) (shardID : string) : AccessSet :=
  MkAccessSet (batchSISortedKeys (⋃ ((λ t, batchSIStringSet (batchSIDeclaredAccess t shardID).1) <$> items)))
              (batchSISortedKeys (⋃ ((λ t, batchSIStringSet (batchSIDeclaredAccess t shardID).2) <$> items))).

Definition si_plan (e : BatchSIExecutor) (b : Block) (plan : BatchSIPlan) : SerialPlan :=
  let declared := batchSIDeclaredAccessSet (TxList b) (ShardID b) in
  let flattened := (numbered_ids (items_of (bp_Batches plan))).*2 in
  MkSerialPlan BatchSIBlockExecutorID BatchSIBlockExecutorVersion (BlockHash b) (Height b) flattened
    ((λ id, default 0 (snd <$> tx_index b !! id)) <$> flattened)
    (sha256_hex (marshal (json_access_set declared)))
    (count (as_ReadKeys declared)) (count (as_WriteKeys declared)) (bc_WorkerCount (se_Config e)) (bp_PlanDigest plan).

Definition si_block_result (e : BatchSIExecutor) (b : Block) (base : gmap string string) (plan : BatchSIPlan)
    (beforeRoot : string) (w : si_work) : Result :=
  let receipts := td_Receipt <$> sw_deltas w in
  MkResult (BlockHash b) (Height b) beforeRoot (CommitmentRoot (Some (sw_commitment w))) (ReceiptRoot receipts) receipts
    (sw_working w) (batchSIStateDelta base (sw_working w))
    (count (filter (λ r, rc_Success r = true) receipts)) (count (filter (λ r, rc_Success r = false) receipts))
    BatchSIBlockExecutorID BatchSIBlockExecutorVersion (bc_WorkerCount (se_Config e)) (Some (si_plan e b plan))
    (bp_PlanDigest plan) (sw_deltas w) CommitmentVersion false.

Definition si_worker_count (e : BatchSIExecutor) : nat :=
  if bc_ExecutionMode (se_Config e) ≟ BatchSIExecutionSnapshotSerial then 1%nat
  else Z.to_nat (Z.max 1 (bc_WorkerCount (se_Config e))).

Definition executeConsensusPlanWithCommitment (e : BatchSIExecutor) (b : Block) (base : gmap string string)
    (baseCommitment : option commitmentNode) (plan : BatchSIPlan) (cancelled : bool) (schedule : si_schedule)
    : si_result Result :=
  let commitment := CloneOrBuild baseCommitment base in
  match batch_loop e b (si_worker_count e) schedule 0 (items_of (bp_Batches plan)) cancelled (MkSiWork base commitment []) with
  | SiRunning => SiRunning
  | SiFailed err => SiFailed err
  | SiReturned w => SiReturned (si_block_result e b base plan (CommitmentRoot (Some commitment)) w)
  end.

Definition ExecuteConsensusPlanWithCommitment (verify : SignedTransaction → error) (ms : Z * Z) (e : BatchSIExecutor)
    (b : Block) (base : gmap string string) (baseCommitment : option commitmentNode) (plan : BatchSIPlan)
    (preverified cancelled : bool) (schedule : si_schedule) : si_result Result :=
  let e := MkBatchSIExecutor (Normalized (se_Config e)) (se_DefaultInitialBalance e) in
  match ConfigValidate (se_Config e) with
  | Some err => SiFailed err
  | None =>
  match ExecutionPlan b with
  | None => SiFailed BsNoPlan
  | Some envelope =>
      if ep_AlgorithmID envelope ≠? BatchSIPlanAlgorithmID then SiFailed BsNoPlan
      else if (ep_PayloadDigest envelope ≠? batchSITextDigest (ep_Payload envelope)) ||
              (ep_PlanDigest envelope ≠? bp_PlanDigest plan) then SiFailed BsEnvelope
      else
      match (if preverified then ValidateBatchSIPlanProjection b plan (se_Config e)
             else VerifyBatchSIPlan verify b plan (se_Config e) ms) with
      | Some err => SiFailed err
      | None => executeConsensusPlanWithCommitment e b base baseCommitment plan cancelled schedule
      end
  end
  end.

Definition SiExecuteBlockWithCommitment (verify : SignedTransaction → error) (ms : Z * Z) (e : BatchSIExecutor)
    (b : Block) (base : gmap string string) (baseCommitment : option commitmentNode) (cancelled : bool)
    (schedule : si_schedule) : si_result Result :=
  match ExecutionPlan b with
  | None => SiFailed BsNoPlan
  | Some envelope =>
      if ep_AlgorithmID envelope ≠? BatchSIPlanAlgorithmID then SiFailed BsNoPlan
      else match ParseBatchSIPlan (ep_Payload envelope) with
      | inl err => SiFailed err
      | inr plan => ExecuteConsensusPlanWithCommitment verify ms e b base baseCommitment plan false cancelled schedule
      end
  end.

Definition SiExecuteBlock (verify : SignedTransaction → error) (ms : Z * Z) (e : BatchSIExecutor) (b : Block)
    (base : gmap string string) (cancelled : bool) (schedule : si_schedule) : si_result Result :=
  SiExecuteBlockWithCommitment verify ms e b base None cancelled schedule.
