(* ===== verification/BatchSIParts.v ===== *)
(** * What the Batch-SI partitions guarantee

    Every transaction is in exactly one batch, and no two transactions of a batch
    declare a write to the same key; the batch that WRBP picks in place is the one
    the reference picks from explicit sets. *)
From S2P Require Import Prelude GoStd Tx Block Heap Serial BatchSI.
Local Open Scope Z_scope.

(** ** Sorting *)

Section sorting.
Context {A : Type} (less : A → A → bool).

Lemma sorted_insert_perm x l : insert_sorted less x l ≡ₚ x :: l.
Proof. induction l as [|y l IH]; simpl; [done|]. destruct (less y x); [|done]. rewrite IH. apply Permutation_swap. Qed.

Lemma sort_slice_perm l : sort_slice less l ≡ₚ l.
Proof. induction l as [|x l IH]; [done|]. unfold sort_slice. cbn [foldr]. fold (sort_slice less l). by rewrite sorted_insert_perm, IH. Qed.

(** Strict total orders: the sorted slice does not depend on the order it is given in. *)
Context (less_trans : ∀ a b c, less a b = true → less b c = true → less a c = true).
Context (less_irrefl : ∀ a, less a a = false).

Definition below (a b : A) : Prop := less a b = true.

Lemma insert_sorted_sorted x l :
  StronglySorted below l → (∀ y, y ∈ l → less x y = true ∨ less y x = true) →
  StronglySorted below (insert_sorted less x l).
Proof using less_trans.
  induction 1 as [|y l Hs IH Hy]; intros Ht; simpl; [repeat constructor|].
  destruct (less y x) eqn:E.
  - constructor; [apply IH; intros z Hz; apply Ht; by right|].
    rewrite sorted_insert_perm. by constructor.
  - constructor; [by constructor|]. assert (less x y = true) as Hxy.
    { destruct (Ht y) as [?|?]; [left|done|congruence]. }
    constructor; [done|]. eapply Forall_impl; [exact Hy|]. intros z Hz. by eapply less_trans.
Qed.

Lemma sort_slice_sorted l :
  NoDup l → (∀ x y, x ∈ l → y ∈ l → x ≠ y → less x y = true ∨ less y x = true) →
  StronglySorted below (sort_slice less l).
Proof using less_trans.
  induction 1 as [|x l Hx _ IH]; intros Ht; [constructor|]. unfold sort_slice. cbn [foldr]. fold (sort_slice less l).
  apply insert_sorted_sorted; [apply IH; intros ? ? ? ?; apply Ht; by right|].
  intros y. rewrite sort_slice_perm. intros Hy. apply Ht; [left|by right|]. by intros ->.
Qed.

Lemma sorted_unique l1 : ∀ l2, StronglySorted below l1 → StronglySorted below l2 → l1 ≡ₚ l2 → l1 = l2.
Proof using less_trans less_irrefl.
  induction l1 as [|x l1 IH]; intros l2 H1 H2 Hp; [by apply Permutation_nil_l in Hp|].
  destruct l2 as [|y l2]; [by apply Permutation_nil_r in Hp|].
  apply StronglySorted_inv in H1 as [H1 Hx], H2 as [H2 Hy]. rewrite Forall_forall in Hx, Hy.
  assert (x = y) as ->.
  { assert (x ∈ y :: l2) as [->|Hx']%elem_of_cons by (rewrite <- Hp; left); [done|].
    assert (y ∈ x :: l1) as [->|Hy']%elem_of_cons by (rewrite Hp; left); [done|].
    pose proof (Hx _ Hy'). pose proof (Hy _ Hx'). exfalso. unfold below in *.
    pose proof (less_trans x y x) as Ht. rewrite less_irrefl in Ht. naive_solver. }
  f_equal. apply IH; [done..|]. by apply Permutation_cons_inv in Hp.
Qed.

Lemma sort_slice_unique l1 l2 :
  NoDup l1 → (∀ x y, x ∈ l1 → y ∈ l1 → x ≠ y → less x y = true ∨ less y x = true) → l1 ≡ₚ l2 →
  sort_slice less l1 = sort_slice less l2.
Proof using less_trans less_irrefl.
  intros Hnd Ht Hp. apply sorted_unique.
  - by apply sort_slice_sorted.
  - apply sort_slice_sorted; [by rewrite <- Hp|]. intros x y. rewrite <- Hp. apply Ht.
  - by rewrite !sort_slice_perm.
Qed.
End sorting.

Lemma str_less_spec a b : str_less a b = true ↔ String.le a b ∧ a ≠ b.
Proof. unfold str_less. by rewrite andb_true_iff, negb_true_iff, bool_decide_eq_true, bool_decide_eq_false. Qed.

Lemma str_less_trans a b c : str_less a b = true → str_less b c = true → str_less a c = true.
Proof.
  rewrite !str_less_spec. intros [H1 N1] [H2 N2]. split; [by etransitivity|]. intros ->. apply N1. by apply (anti_symm String.le).
Qed.

Lemma str_less_irrefl a : str_less a a = false.
Proof. destruct (str_less a a) eqn:E; [|done]. by apply str_less_spec in E as [_ []]. Qed.

Lemma str_less_total a b : a ≠ b → str_less a b = true ∨ str_less b a = true.
Proof. intros Hne. rewrite !str_less_spec. destruct (total String.le a b); [left|right]; split; congruence. Qed.

(** ** Compaction *)

Definition contents (batches : gmap Z (list batchSITxDescriptor)) : list batchSITxDescriptor :=
  kv ← map_to_list batches; kv.2.

Lemma contents_append n d batches : contents (append_batch n d batches) ≡ₚ d :: contents batches.
Proof.
  unfold contents, append_batch. destruct (batches !! n) as [l|] eqn:E; cbn [default].
  - rewrite <- (insert_delete_id batches n l) at 1 by done. rewrite insert_insert_eq.
    rewrite map_to_list_insert by apply lookup_delete_eq. rewrite <- (map_to_list_delete batches n l) by done.
    rewrite !bind_cons. cbn [snd from_option]. rewrite <- app_assoc. symmetry. apply Permutation_middle.
  - rewrite map_to_list_insert by done. by rewrite bind_cons.
Qed.

Lemma contents_keep batches :
  (kv ← map_to_list (map_keep (λ _ items, negb (length items ≟ O)) batches); kv.2) ≡ₚ contents batches.
Proof.
  unfold contents, map_keep. induction batches as [|n l m Hn IH] using map_ind; [done|].
  rewrite map_filter_insert. case_decide as H.
  - rewrite !map_to_list_insert; [by rewrite !bind_cons, IH|done|]. apply map_lookup_filter_None. by left.
  - rewrite (delete_id m n) by done. rewrite IH, (map_to_list_insert m) by done.
    rewrite bind_cons. destruct l; [done|]. by destruct H.
Qed.

Lemma compact_contents batches : (p ← batchSICompactPartitions batches; pt_Txs p) ≡ₚ contents batches.
Proof.
  rewrite <- contents_keep. unfold batchSICompactPartitions. set (kept := map_keep _ batches).
  rewrite list_fmap_bind, sort_slice_perm, list_fmap_bind. apply Permutation_refl', Forall_bind_ext, Forall_forall.
  intros [n l] Hin%elem_of_map_to_list. apply lookup_map_keep_Some in Hin as [Hin _]. cbn. by rewrite Hin.
Qed.

Lemma elem_of_compact batches p :
  p ∈ batchSICompactPartitions batches → batches !! pt_Number p = Some (pt_Txs p) ∧ pt_Txs p ≠ [].
Proof.
  unfold batchSICompactPartitions. intros (n & -> & Hn)%list_elem_of_fmap. rewrite sort_slice_perm in Hn.
  apply list_elem_of_fmap in Hn as ([n' l] & -> & Hl%elem_of_map_to_list). apply lookup_map_keep_Some in Hl as [Hl Hne].
  cbn in *. rewrite Hl. split; [done|]. by destruct l.
Qed.

(** ** One writer per key and batch *)

Definition batch_keys (l : list batchSITxDescriptor) : list string := d ← l; ds_WriteKeys d.
Definition batch_at (batches : gmap Z (list batchSITxDescriptor)) (n : Z) : list batchSITxDescriptor :=
  default [] (batches !! n).

Lemma batch_at_append n d batches m :
  batch_at (append_batch n d batches) m = if decide (m = n) then batch_at batches n ++ [d] else batch_at batches m.
Proof.
  unfold batch_at, append_batch. rewrite lookup_insert. case_decide; subst; [by rewrite decide_True|].
  by rewrite decide_False.
Qed.

Lemma batch_keys_snoc l d : batch_keys (l ++ [d]) = batch_keys l ++ ds_WriteKeys d.
Proof. unfold batch_keys. by rewrite bind_app, bind_cons, app_nil_r. Qed.

(** The batches a key has a writer in are below its current batch and are no
    opportunities of it. *)
Record wrbp_ok (s : wrbp_state) : Prop := {
  wo_apart n : NoDup (batch_keys (batch_at (wb_batches s) n));
  wo_used n k : k ∈ batch_keys (batch_at (wb_batches s) n) →
    n < at_least_one (wb_current s) k ∧ n ∉ opportunity (wb_opportunities s) k;
  wo_opp n k : n ∈ opportunity (wb_opportunities s) k → 1 <= n < at_least_one (wb_current s) k;
}.

(** Batch [a] has no writer of [k] yet, resp. will have one. *)
Definition open_at (a : Z) (s : wrbp_state) (k : string) : Prop :=
  at_least_one (wb_current s) k <= a ∨ a ∈ opportunity (wb_opportunities s) k.
Definition taken_at (a : Z) (s : wrbp_state) (k : string) : Prop :=
  a < at_least_one (wb_current s) k ∧ a ∉ opportunity (wb_opportunities s) k.

Lemma at_least_one_insert current k v k' :
  at_least_one (<[k := v]> current) k' = if decide (k = k') then Z.max 1 v else at_least_one current k'.
Proof. unfold at_least_one, zget. rewrite lookup_insert. by case_decide. Qed.

Lemma opportunity_insert opps k v k' :
  opportunity (<[k := v]> opps) k' = if decide (k = k') then v else opportunity opps k'.
Proof. unfold opportunity. rewrite lookup_insert. by case_decide. Qed.

Lemma claim_key_ok a s key :
  wrbp_ok s → 1 <= a → open_at a s key →
  let s' := claim_key a s key in
  wrbp_ok s' ∧ taken_at a s' key ∧
  ∀ k, k ≠ key → (open_at a s' k ↔ open_at a s k) ∧ (taken_at a s' k ↔ taken_at a s k).
Proof.
  intros [Hap Hus Hop] Ha Ho. unfold claim_key. remember (at_least_one (wb_current s) key) as v eqn:Ev.
  destruct (Z.ltb_spec a v) as [Hlt|Hge]; cbn [wb_batches wb_current wb_opportunities].
  - split_and!.
    + split; cbn [wb_batches wb_current wb_opportunities]; [done|..]; intros n k; rewrite opportunity_insert.
      * intros Hk. destruct (Hus n k Hk). case_decide; subst; set_solver.
      * case_decide; subst; [|apply Hop]. intros [Hn _]%elem_of_difference. by apply Hop.
    + split; cbn; [by rewrite <- Ev|]. rewrite opportunity_insert, decide_True by done. set_solver.
    + intros k Hk. unfold open_at, taken_at. cbn. by rewrite opportunity_insert, decide_False.
  - assert (1 <= v) by (rewrite Ev; unfold at_least_one; lia).
    assert (∀ n, n ∈@{gset Z} list_to_set (seqZ v (a - v)) ↔ v <= n < a) as Hseq.
    { intros n. rewrite elem_of_list_to_set, elem_of_seqZ. lia. }
    split_and!.
    + split; cbn [wb_batches wb_current wb_opportunities]; [done|..]; intros n k; rewrite opportunity_insert, at_least_one_insert.
      * intros Hk. destruct (Hus n k Hk). case_decide as Ek; [|done]. rewrite <- Ek in *. rewrite <- Ev in *. split; [lia|].
        rewrite elem_of_union, Hseq. intros [?|?]; [done|lia].
      * case_decide as Ek; [|apply Hop]. rewrite elem_of_union, Hseq. intros [Hn%Hop|?]; lia.
    + split; cbn; rewrite ?at_least_one_insert, ?opportunity_insert, decide_True by done; [lia|].
      rewrite elem_of_union, Hseq. intros [Hn%Hop|?]; lia.
    + intros k Hk. unfold open_at, taken_at. cbn. by rewrite opportunity_insert, at_least_one_insert, !decide_False.
Qed.

Lemma claim_keys_ok a keys : ∀ s, wrbp_ok s → 1 <= a → NoDup keys → (∀ k, k ∈ keys → open_at a s k) →
  let s' := foldl (claim_key a) s keys in
  wrbp_ok s' ∧ (∀ k, k ∈ keys → taken_at a s' k) ∧ (∀ k, k ∉ keys → taken_at a s k → taken_at a s' k) ∧
  wb_batches s' = wb_batches s.
Proof.
  induction keys as [|key keys IH]; intros s Hs Ha Hnd Ho; cbn [foldl]; [set_solver|].
  apply NoDup_cons in Hnd as [Hnin Hnd]. destruct (claim_key_ok a s key Hs Ha) as (Hs' & Ht & Hk); [apply Ho; left|].
  assert (wb_batches (claim_key a s key) = wb_batches s) as Eb by (unfold claim_key; by destruct (_ <? _)).
  destruct (IH (claim_key a s key)) as (H1 & H2 & H3 & H4); [done..| |].
  { intros k Hin. apply Hk; [by intros ->|]. apply Ho. by right. }
  split_and!; [done| | |congruence].
  - intros k [->|Hin]%elem_of_cons; [by apply H3|by apply H2].
  - intros k [Hne Hin]%not_elem_of_cons Htk. apply H3; [done|]. by apply Hk.
Qed.

Lemma place_writer_ok a s d : wrbp_ok s → 1 <= a → NoDup (ds_WriteKeys d) → (∀ k, k ∈ ds_WriteKeys d → open_at a s k) →
  wrbp_ok (place_writer a s d).
Proof.
  intros Hs Ha Hnd Ho. unfold place_writer. destruct (claim_keys_ok a (ds_WriteKeys d) s Hs Ha Hnd Ho) as (Hs' & Ht & _ & Eb).
  set (s' := foldl (claim_key a) s (ds_WriteKeys d)) in *.
  assert (∀ k, k ∈ ds_WriteKeys d → k ∉ batch_keys (batch_at (wb_batches s') a)) as Hfree.
  { intros k Hk Hin. rewrite Eb in Hin. destruct (wo_used _ Hs a k Hin). destruct (Ho k Hk); [lia|done]. }
  split; cbn [wb_batches wb_current wb_opportunities].
  - intros n. rewrite batch_at_append. case_decide; subst; [|apply Hs']. rewrite batch_keys_snoc. apply NoDup_app.
    split_and!; [apply Hs'|set_solver|done].
  - intros n k. rewrite batch_at_append. case_decide; subst; [|apply Hs'].
    rewrite batch_keys_snoc. intros [Hk|Hk]%elem_of_app; [by apply Hs'|by apply Ht].
  - apply Hs'.
Qed.

(** *** The batch WRBP picks *)

Lemma maximum_batch_le current keys : ∀ m, m <= foldl (λ m key, Z.max m (at_least_one current key)) m keys ∧
  ∀ k, k ∈ keys → at_least_one current k <= foldl (λ m key, Z.max m (at_least_one current key)) m keys.
Proof.
  induction keys as [|key keys IH]; intros m; cbn [foldl]; [split; [done|by intros k ?%elem_of_nil]|].
  destruct (IH (Z.max m (at_least_one current key))) as [H1 H2]. split; [lia|].
  intros k [->|Hk]%elem_of_cons; [lia|by apply H2].
Qed.

(** A batch where every key of the transaction can have its writer. *)
Definition available (keys : list string) (current : gmap string Z) (opps : gmap string (gset Z)) (maximum n : Z) : Prop :=
  1 <= n ∧ ∀ k, k ∈ keys →
    batchSIWRBPCandidateAvailable (opportunity opps k) (at_least_one current k) maximum n = true.

Lemma available_open keys current opps maximum n k :
  available keys current opps maximum n → k ∈ keys → at_least_one current k <= maximum →
  at_least_one current k <= n ∨ n ∈ opportunity opps k.
Proof.
  intros [_ Ha] Hk Hm. specialize (Ha k Hk). unfold batchSIWRBPCandidateAvailable in Ha.
  case_bool_decide; [by right|left]. assert (Z.max 1 (at_least_one current k) = at_least_one current k) as E
    by (unfold at_least_one; lia). rewrite E in Ha.
  destruct (Z.eqb_spec (at_least_one current k) maximum); [apply Z.eqb_eq in Ha; lia|].
  apply andb_true_iff in Ha as [?%Z.leb_le _]. done.
Qed.

(** What the candidates looked at leave in [best]: 0, or the least available one. *)
Definition least_of (P : Z → Prop) (l : list Z) (best : Z) : Prop :=
  (best = 0 ∧ ∀ n, n ∈ l → ¬ P n) ∨ (P best ∧ best ∈ l ∧ ∀ n, n ∈ l → P n → best <= n).

Lemma consider_cases keys current opps maximum best n : best = 0 ∨ 1 <= best →
  let P := available keys current opps maximum in
  (consider keys current opps maximum best n = best ∧ (¬ P n ∨ 1 <= best <= n)) ∨
  (consider keys current opps maximum best n = n ∧ P n ∧ (best = 0 ∨ n < best)).
Proof.
  intros Hb P. unfold consider. destruct (Z.ltb_spec n 1); cbn [orb]; [left; split; [done|left; intros [? _]; lia]|].
  destruct (Z.ltb_spec 0 best), (Z.leb_spec best n); cbn [andb]; try (left; split; [done|right; lia]).
  all: destruct (forallb _ keys) eqn:E;
    [right; split; [done|]; split; [|lia]; split; [lia|]; intros k Hk; by apply (forallb_elem _ _ _ E)|].
  all: left; split; [done|left]; intros [_ Ha]; apply not_true_iff_false in E; apply E, List.forallb_forall;
    intros k Hk%list_elem_of_In; by apply Ha.
Qed.

Lemma least_of_pos keys current opps maximum seen best :
  least_of (available keys current opps maximum) seen best → best = 0 ∨ 1 <= best.
Proof. intros [[-> _]|([? _] & _)]; [by left|by right]. Qed.

Lemma consider_least keys current opps maximum seen best n :
  least_of (available keys current opps maximum) seen best →
  least_of (available keys current opps maximum) (seen ++ [n]) (consider keys current opps maximum best n).
Proof.
  intros Hl. pose proof (least_of_pos _ _ _ _ _ _ Hl) as Hb. set (P := available keys current opps maximum) in *.
  destruct (consider_cases keys current opps maximum best n Hb) as [[-> Hn]|(-> & Hn & Hlt)]; fold P in Hn.
  - destruct Hl as [[-> Hl]|(H1 & H2 & H3)]; [left|right]; split_and!; try done; try set_solver.
  - right. split_and!; [done|set_solver|]. intros m [Hm| ->%list_elem_of_singleton]%elem_of_app Ha; [|lia].
    destruct Hl as [[-> Hl]|(H1 & H2 & H3)]; [by destruct (Hl m)|]. specialize (H3 m Hm Ha). destruct H1 as [H1 _]. lia.
Qed.

Lemma consider_all keys current opps maximum l : ∀ seen best,
  least_of (available keys current opps maximum) seen best →
  least_of (available keys current opps maximum) (seen ++ l) (foldl (consider keys current opps maximum) best l).
Proof.
  induction l as [|n l IH]; intros seen best Hl; cbn [foldl]; [by rewrite app_nil_r|].
  rewrite cons_middle, app_assoc. by apply IH, consider_least.
Qed.

Lemma least_of_unique P l1 l2 b1 b2 : (∀ n, P n → 1 <= n) → (∀ n, P n → n ∈ l1 ↔ n ∈ l2) →
  least_of P l1 b1 → least_of P l2 b2 → b1 = b2.
Proof.
  intros Hpos Hiff [[-> H1]|(H1 & H2 & H3)] [[-> H4]|(H4 & H5 & H6)]; [done|..].
  - destruct (H1 b2); [by apply Hiff|done].
  - destruct (H4 b1); [by apply Hiff|done].
  - assert (b1 <= b2) by (apply H3; [by apply Hiff|done]). assert (b2 <= b1) by (apply H6; [by apply Hiff|done]). lia.
Qed.

(** The batch that is picked is the least available one, 0 when there is none. *)
Lemma min_intersection_least key keys current opps maximum :
  let ks := key :: keys in
  (∀ k, k ∈ ks → at_least_one current k <= maximum) →
  least_of (available ks current opps maximum)
    (elements (opportunity opps key) ++ if at_least_one current key =? maximum then [maximum]
       else seqZ (at_least_one current key) (maximum - at_least_one current key))
    (batchSIWRBPMinIntersection ks current opps maximum).
Proof.
  intros ks Hm. cbn [batchSIWRBPMinIntersection ks]. fold ks.
  assert (least_of (available ks current opps maximum) [] 0) as H0 by (left; split; [done|by intros n ?%elem_of_nil]).
  pose proof (consider_all ks current opps maximum (elements (opportunity opps key)) [] 0 H0) as H1. cbn [app] in H1.
  destruct (Z.eqb_spec (at_least_one current key) maximum).
  - by apply consider_least.
  - by apply consider_all.
Qed.

(** Whatever is available for every key is among the candidates of the first. *)
Lemma candidates_cover key keys current opps maximum n :
  available (key :: keys) current opps maximum n →
  n ∈ elements (opportunity opps key) ++ if at_least_one current key =? maximum then [maximum]
       else seqZ (at_least_one current key) (maximum - at_least_one current key).
Proof.
  intros [_ Ha]. specialize (Ha key ltac:(left)). unfold batchSIWRBPCandidateAvailable in Ha.
  rewrite elem_of_app, elem_of_elements. case_bool_decide; [by left|right].
  replace (Z.max 1 (at_least_one current key)) with (at_least_one current key) in Ha by (unfold at_least_one; lia).
  destruct (at_least_one current key =? maximum); [apply Z.eqb_eq in Ha as ->; left|].
  apply andb_true_iff in Ha as [?%Z.leb_le ?%Z.ltb_lt]. apply elem_of_seqZ. lia.
Qed.

(** [available := batchSICloneIntSet(opportunities[key])] with the current batches
    added, for each key. *)
Definition reference_set (current : gmap string Z) (opps : gmap string (gset Z)) (maximum : Z) (key : string) : gset Z :=
  let value := at_least_one current key in
  opportunity opps key ∪
  (if value =? maximum then {[maximum]} else list_to_set (seqZ value (maximum - value))).

Definition batchSIMinIntersection (sets : list (gset Z)) : Z :=
  match sets with
  | [] => 1
  | first :: rest =>
      default 0 (find (λ value, forallb (λ set, bool_decide (value ∈ set)) rest) (sort_slice Z.ltb (elements first)))
  end.

Lemma reference_available current opps maximum keys n :
  1 <= n → (∀ k, k ∈ keys → n ∈ reference_set current opps maximum k) ↔ available keys current opps maximum n.
Proof.
  intros Hn. unfold available. enough (∀ k, n ∈ reference_set current opps maximum k ↔
    batchSIWRBPCandidateAvailable (opportunity opps k) (at_least_one current k) maximum n = true) as H.
  { split; [intros Hk; split; [done|]; intros k Hin; by apply H, Hk|]. intros [_ Hk] k Hin. by apply H, Hk. }
  intros k. unfold reference_set, batchSIWRBPCandidateAvailable. rewrite elem_of_union.
  replace (Z.max 1 (at_least_one current k)) with (at_least_one current k) by (unfold at_least_one; lia).
  case_bool_decide; [tauto|]. destruct (at_least_one current k =? maximum).
  - rewrite elem_of_singleton, Z.eqb_eq. tauto.
  - rewrite elem_of_list_to_set, elem_of_seqZ, andb_true_iff, Z.leb_le, Z.ltb_lt. intuition lia.
Qed.

Lemma find_least (f : Z → bool) l : StronglySorted (below Z.ltb) l →
  match find f l with
  | Some n => f n = true ∧ n ∈ l ∧ ∀ m, m ∈ l → f m = true → n <= m
  | None => ∀ m, m ∈ l → f m = false
  end.
Proof.
  induction 1 as [|x l Hs IH Hx]; cbn [find]; [by intros m ?%elem_of_nil|].
  destruct (f x) eqn:E.
  - split_and!; [done|left|]. intros m [->|Hm]%elem_of_cons _; [done|]. rewrite Forall_forall in Hx.
    specialize (Hx m Hm). unfold below in Hx. lia.
  - destruct (find f l) as [n|].
    + destruct IH as (H1 & H2 & H3). split_and!; [done|by right|]. intros m [->|Hm]%elem_of_cons Hf; [congruence|by apply H3].
    + intros m [->|Hm]%elem_of_cons; [done|by apply IH].
Qed.

Lemma sort_ints l : NoDup l → StronglySorted (below Z.ltb) (sort_slice Z.ltb l).
Proof. intros. apply sort_slice_sorted; [intros; lia|done|intros; lia]. Qed.

Lemma reference_least key keys current opps maximum :
  (∀ k n, k ∈ key :: keys → n ∈ opportunity opps k → 1 <= n) →
  least_of (available (key :: keys) current opps maximum) (elements (reference_set current opps maximum key))
    (batchSIMinIntersection (reference_set current opps maximum <$> key :: keys)).
Proof.
  intros Hpos. cbn [fmap list_fmap batchSIMinIntersection].
  pose proof (find_least (λ value, forallb (λ set, bool_decide (value ∈ set)) (reference_set current opps maximum <$> keys))
    _ (sort_ints (elements (reference_set current opps maximum key)) (NoDup_elements _))) as Hf.
  assert (∀ n, n ∈ reference_set current opps maximum key →
    forallb (λ set, bool_decide (n ∈ set)) (reference_set current opps maximum <$> keys) = true ↔
    available (key :: keys) current opps maximum n) as Hiff.
  { intros n Hn. assert (1 <= n) as H1.
    { unfold reference_set in Hn. apply elem_of_union in Hn as [Hn|Hn]; [eapply Hpos; [left|done]|].
      assert (1 <= at_least_one current key) by (unfold at_least_one; lia).
      destruct (Z.eqb_spec (at_least_one current key) maximum); [apply elem_of_singleton in Hn; lia|].
      apply elem_of_list_to_set, elem_of_seqZ in Hn. lia. }
    rewrite <- reference_available by done. rewrite List.forallb_forall. split.
    - intros H k [->|Hk]%elem_of_cons; [done|]. specialize (H (reference_set current opps maximum k)).
      apply bool_decide_eq_true in H; [done|]. apply list_elem_of_In. by apply list_elem_of_fmap_2.
    - intros H set (k & -> & Hk)%list_elem_of_In%list_elem_of_fmap. apply bool_decide_eq_true, H. by right. }
  destruct (find _ _) as [n|]; cbn [default from_option].
  - destruct Hf as (H1 & H2 & H3). rewrite sort_slice_perm, elem_of_elements in H2. right.
    split_and!; [by apply Hiff|by apply elem_of_elements|]. intros m Hm%elem_of_elements Ha.
    apply H3; [by rewrite sort_slice_perm, elem_of_elements|by apply Hiff].
  - left. split; [done|]. intros m Hm Ha. rewrite elem_of_elements in Hm.
    apply Hiff in Ha; [|done]. rewrite Hf in Ha; [done|]. by rewrite sort_slice_perm, elem_of_elements.
Qed.

Lemma sort_slice_sorted_id {A} (less : A → A → bool) l : slice_is_sorted less l = true → sort_slice less l = l.
Proof.
  induction l as [|x l IH]; [done|]. intros H. unfold sort_slice. cbn [foldr]. fold (sort_slice less l).
  destruct l as [|y l]; [done|]. cbn [slice_is_sorted] in H. apply andb_true_iff in H as [Hxy%negb_true_iff Hl].
  rewrite IH by done. cbn [insert_sorted]. by rewrite Hxy.
Qed.

Lemma ordered_descriptors items : batchSIOrderedDescriptors items = sort_slice batchSIDescriptorLess items.
Proof. unfold batchSIOrderedDescriptors. destruct (slice_is_sorted _ _) eqn:E; [|done]. by rewrite sort_slice_sorted_id. Qed.

Lemma maximum_batch_bounds current keys :
  1 <= maximum_batch current keys ∧ ∀ k, k ∈ keys → at_least_one current k <= maximum_batch current keys.
Proof. apply maximum_batch_le. Qed.

Lemma min_intersection_available s d :
  ds_WriteKeys d ≠ [] → let a := wrbp_assign s d in
  1 <= a ∧ ∀ k, k ∈ ds_WriteKeys d → open_at a s k.
Proof.
  intros Hne. unfold wrbp_assign. destruct (maximum_batch_bounds (wb_current s) (ds_WriteKeys d)) as [H1 Hm].
  destruct (ds_WriteKeys d) as [|key keys]; [done|]. set (maximum := maximum_batch _ _) in *.
  pose proof (min_intersection_least key keys (wb_current s) (wb_opportunities s) maximum Hm) as Hl.
  cbv zeta. destruct (Z.ltb_spec (batchSIWRBPMinIntersection (key :: keys) (wb_current s) (wb_opportunities s) maximum) 1)
    as [Hlt|Hge].
  - split; [done|]. intros k Hk. left. by apply Hm.
  - split; [done|]. intros k Hk. destruct Hl as [[E _]|(Ha & _)]; [lia|].
    apply (available_open _ _ _ _ _ _ Ha Hk). by apply Hm.
Qed.

Lemma wrbp_place_ok s d : wrbp_ok s → NoDup (ds_WriteKeys d) → wrbp_ok (wrbp_place s d).
Proof.
  intros Hs Hnd. unfold wrbp_place. destruct (ds_WriteKeys d) eqn:E.
  - split; cbn [wb_batches wb_current wb_opportunities]; [..|apply Hs]; intros n; rewrite batch_at_append;
      case_decide; subst; try apply Hs; rewrite batch_keys_snoc, E, app_nil_r; apply Hs.
  - rewrite <- E in *. destruct (min_intersection_available s d) as [Ha Ho]; [congruence|]. by apply place_writer_ok.
Qed.

Lemma wrbp_empty_ok : wrbp_ok (MkWrbp ∅ ∅ ∅ 0).
Proof.
  split; cbn [wb_batches wb_current wb_opportunities].
  - intros n. unfold batch_at. rewrite lookup_empty. constructor.
  - intros n k. unfold batch_at. rewrite lookup_empty. by intros ?%elem_of_nil.
  - intros n k. unfold opportunity. rewrite lookup_empty. by intros ?%elem_of_empty.
Qed.

Lemma foldl_ind {A B} (P : B → Prop) (f : B → A → B) l : (∀ b a, a ∈ l → P b → P (f b a)) → ∀ b, P b → P (foldl f b l).
Proof.
  induction l as [|x l IH]; intros Hf b Hb; cbn [foldl]; [done|]. apply IH; [intros ? ? ?; apply Hf; by right|].
  apply Hf; [left|done].
Qed.

Lemma wrbp_fold_ok l : Forall (λ d, NoDup (ds_WriteKeys d)) l → wrbp_ok (foldl wrbp_place (MkWrbp ∅ ∅ ∅ 0) l).
Proof.
  rewrite Forall_forall. intros Hl. apply foldl_ind; [|apply wrbp_empty_ok]. intros s d Hd Hs. apply wrbp_place_ok; auto.
Qed.

(** The loops put every transaction in one batch. *)
Lemma wrbp_contents l : ∀ s, contents (wb_batches (foldl wrbp_place s l)) ≡ₚ l ++ contents (wb_batches s).
Proof.
  induction l as [|d l IH]; intros s; cbn [foldl]; [done|]. rewrite IH. cbn [app].
  assert (contents (wb_batches (wrbp_place s d)) ≡ₚ d :: contents (wb_batches s)) as ->.
  { unfold wrbp_place. destruct (ds_WriteKeys d) eqn:E; [apply contents_append|].
    unfold place_writer. cbn [wb_batches]. rewrite contents_append. apply Permutation_skip.
    generalize (wrbp_assign s d) as a. intros a. generalize (ds_WriteKeys d) as ks. clear E. intros ks. revert s.
    induction ks as [|k ks IHk]; intros s; cbn [foldl]; [done|]. rewrite IHk. unfold claim_key. by destruct (_ <? _). }
  symmetry. apply Permutation_middle.
Qed.

Lemma sequential_contents l : ∀ s, contents (foldl sequential_place s l).2 ≡ₚ l ++ contents s.2.
Proof.
  induction l as [|d l IH]; intros [m bs]; cbn [foldl]; [done|]. rewrite IH. cbn [app snd].
  assert (contents (sequential_place (m, bs) d).2 ≡ₚ d :: contents bs) as ->.
  { unfold sequential_place. destruct (ds_WriteKeys d); apply contents_append. }
  symmetry. apply Permutation_middle.
Qed.

(** The sequential partition: the batches a key has a writer in are below its next. *)
Record sequential_ok (s : gmap string Z * gmap Z (list batchSITxDescriptor)) : Prop := {
  so_apart n : NoDup (batch_keys (batch_at s.2 n));
  so_used n k : k ∈ batch_keys (batch_at s.2 n) → n < at_least_one s.1 k;
}.

Lemma advance_keys a keys : ∀ (m : gmap string Z) k, 1 <= a →
  at_least_one (foldl (λ m key, <[key := a + 1]> m) m keys) k = if decide (k ∈ keys) then a + 1 else at_least_one m k.
Proof.
  induction keys as [|key keys IH]; intros m k Ha; cbn [foldl]; [by rewrite decide_False by apply not_elem_of_nil|].
  rewrite IH, at_least_one_insert by done. destruct (decide (k ∈ keys)) as [Hin|Hin].
  - by rewrite decide_True by (by right).
  - destruct (decide (key = k)) as [->|Hne]; [rewrite decide_True by left; lia|].
    rewrite decide_False; [done|]. intros [->|?]%elem_of_cons; done.
Qed.

Lemma sequential_place_ok s d : sequential_ok s → NoDup (ds_WriteKeys d) → sequential_ok (sequential_place s d).
Proof.
  intros [Hap Hus] Hnd. destruct s as [m bs]. cbn [fst snd] in *. unfold sequential_place.
  destruct (ds_WriteKeys d) eqn:E.
  - split; cbn [fst snd]; intros n; rewrite batch_at_append; case_decide; subst; auto; rewrite batch_keys_snoc, E, app_nil_r; auto.
  - rewrite <- E in *. clear E. destruct (maximum_batch_bounds m (ds_WriteKeys d)) as [H1 Hm].
    set (a := maximum_batch m (ds_WriteKeys d)) in *. split; cbn [fst snd]; intros n.
    + rewrite batch_at_append. case_decide; subst; [|apply Hap]. rewrite batch_keys_snoc. apply NoDup_app.
      split_and!; [apply Hap| |done]. intros k Hk Hin. specialize (Hus a k Hk). specialize (Hm k Hin). lia.
    + intros k. rewrite batch_at_append, advance_keys by done. intros Hk.
      destruct (decide (k ∈ ds_WriteKeys d)) as [Hin|Hin], (decide (n = a)) as [En|En].
      * lia.
      * specialize (Hus n k Hk). specialize (Hm k Hin). lia.
      * rewrite batch_keys_snoc in Hk. apply elem_of_app in Hk as [Hk|Hk]; [|done]. rewrite En. by apply Hus.
      * by apply Hus.
Qed.

Lemma sequential_fold_ok l : Forall (λ d, NoDup (ds_WriteKeys d)) l → sequential_ok (foldl sequential_place (∅, ∅) l).
Proof.
  rewrite Forall_forall. intros Hl. apply foldl_ind; [intros s d Hd Hs; apply sequential_place_ok; auto|].
  split; intros n; cbn [fst snd]; unfold batch_at; rewrite lookup_empty; [constructor|by intros k ?%elem_of_nil].
Qed.

(** Both partitions: the batches hold the transactions, each once, with at most one
    writer per key. *)
Definition partitions_of (items : list batchSITxDescriptor) (ps : list batchSIPartition) : Prop :=
  (p ← ps; pt_Txs p) ≡ₚ items ∧ ∀ p, p ∈ ps → NoDup (batch_keys (pt_Txs p)) ∧ pt_Txs p ≠ [].

Lemma compact_partitions items batches : contents batches ≡ₚ items →
  (∀ n, NoDup (batch_keys (batch_at batches n))) → partitions_of items (batchSICompactPartitions batches).
Proof.
  intros Hc Hn. split; [by rewrite compact_contents|]. intros p [Hp Hne]%elem_of_compact. split; [|done].
  specialize (Hn (pt_Number p)). unfold batch_at in Hn. by rewrite Hp in Hn.
Qed.

Lemma wrbp_partitions items : Forall (λ d, NoDup (ds_WriteKeys d)) items → partitions_of items (batchSIWRBPPartition items).1.
Proof.
  intros Hnd. unfold batchSIWRBPPartition. cbn [fst]. rewrite ordered_descriptors. apply compact_partitions.
  - rewrite wrbp_contents. unfold contents. cbn. by rewrite app_nil_r, sort_slice_perm.
  - apply wrbp_fold_ok. by rewrite sort_slice_perm.
Qed.

Lemma sequential_partitions items :
  Forall (λ d, NoDup (ds_WriteKeys d)) items → partitions_of items (batchSISequentialPartition items).
Proof.
  intros Hnd. unfold batchSISequentialPartition. rewrite ordered_descriptors. apply compact_partitions.
  - rewrite sequential_contents. unfold contents. cbn. by rewrite app_nil_r, sort_slice_perm.
  - apply sequential_fold_ok. by rewrite sort_slice_perm.
Qed.

(** ** The reference *)

Definition reference_assign (s : wrbp_state) (d : batchSITxDescriptor) : Z :=
  let maxBatch := maximum_batch (wb_current s) (ds_WriteKeys d) in
  let assigned := batchSIMinIntersection
    (reference_set (wb_current s) (wb_opportunities s) maxBatch <$> ds_WriteKeys d) in
  if assigned <? 1 then maxBatch else assigned.

Definition reference_place (s : wrbp_state) (d : batchSITxDescriptor) : wrbp_state :=
  match ds_WriteKeys d with
  | [] => MkWrbp (wb_current s) (wb_opportunities s) (append_batch 1 d (wb_batches s)) (wb_reuse s)
  | _ => place_writer (reference_assign s d) s d
  end.

(** Algorithm 1 with a set per key, cloned and sorted for each transaction. *)
Definition reference_partition (items : list batchSITxDescriptor) : list batchSIPartition * Z :=
  let s := foldl reference_place (MkWrbp ∅ ∅ ∅ 0) (sort_slice batchSIDescriptorLess items) in
  (batchSICompactPartitions (wb_batches s), wb_reuse s).

Lemma assign_reference s d : wrbp_ok s → ds_WriteKeys d ≠ [] → reference_assign s d = wrbp_assign s d.
Proof.
  intros Hs Hne. unfold reference_assign, wrbp_assign. destruct (maximum_batch_bounds (wb_current s) (ds_WriteKeys d)) as [_ Hm].
  destruct (ds_WriteKeys d) as [|key keys]; [done|]. set (maximum := maximum_batch _ _) in *. cbv zeta.
  enough (batchSIMinIntersection (reference_set (wb_current s) (wb_opportunities s) maximum <$> key :: keys) =
          batchSIWRBPMinIntersection (key :: keys) (wb_current s) (wb_opportunities s) maximum) as -> by done.
  refine (least_of_unique (available (key :: keys) (wb_current s) (wb_opportunities s) maximum) _ _ _ _ _ _
    (reference_least key keys _ _ _ _) (min_intersection_least key keys _ _ _ Hm)).
  - by intros n [? _].
  - intros n Ha. split; [intros _; by apply (candidates_cover key keys)|]. intros _. apply elem_of_elements.
    apply (proj2 (reference_available _ _ _ (key :: keys) n (proj1 Ha)) Ha). left.
  - intros k n _ Hn. by apply (wo_opp _ Hs) in Hn as [? _].
Qed.

(** C18: WRBP as the program computes it, with the opportunity sets queried in place,
    gives the batches, their contents and the reuse count of the algorithm that
    clones a set of available batches per key and takes the least common element. *)
Theorem wrbp_equivalent (items : list batchSITxDescriptor) :
  Forall (λ d, NoDup (ds_WriteKeys d)) items → batchSIWRBPPartition items = reference_partition items.
Proof.
  intros Hnd. unfold batchSIWRBPPartition, reference_partition. rewrite ordered_descriptors.
  enough (∀ l s, Forall (λ d, NoDup (ds_WriteKeys d)) l → wrbp_ok s → foldl wrbp_place s l = foldl reference_place s l) as ->.
  { done. } { by rewrite sort_slice_perm. } { apply wrbp_empty_ok. }
  clear. induction l as [|d l IH]; intros s Hl Hs; cbn [foldl]; [done|]. apply Forall_cons in Hl as [Hd Hl].
  assert (reference_place s d = wrbp_place s d) as ->.
  { unfold reference_place, wrbp_place. destruct (ds_WriteKeys d) eqn:E; [done|]. rewrite assign_reference; [done..|]. congruence. }
  apply IH; [done|]. by apply wrbp_place_ok.
Qed.
