(* ===== verification/Kahn.v ===== *)
(** * Kahn's algorithm

    What [BatchSI.kahn_loop] computes for any queue: each id once, and every id after
    all of its parents. For queues that give out a least element first the result
    does not depend on the queue. *)
From S2P Require Import Prelude GoStd Tx Block Heap Serial BatchSI.
Local Open Scope Z_scope.

(** The contract of a queue: [elems] are the elements of a [good] queue. *)
Record queue_laws {Q} (pop : Q → option (string * Q)) (push : string → Q → Q) (good : Q → Prop)
    (elems : Q → list string) : Prop := {
  ql_pop_none q : good q → pop q = None → elems q = [];
  ql_pop_some q x q' : good q → pop q = Some (x, q') → good q' ∧ elems q ≡ₚ x :: elems q';
  ql_push q x : good q → good (push x q) ∧ elems (push x q) ≡ₚ x :: elems q;
}.
Arguments ql_pop_none {Q pop push good elems}.
Arguments ql_pop_some {Q pop push good elems}.
Arguments ql_push {Q pop push good elems}.

Definition pops_least {Q} (less : string → string → bool) (pop : Q → option (string * Q)) (good : Q → Prop)
    (elems : Q → list string) : Prop :=
  ∀ q x q', good q → pop q = Some (x, q') → ∀ y, y ∈ elems q → less y x = false.

Lemma zget_insert (m : gmap string Z) k v k' : zget (<[k := v]> m) k' = if decide (k = k') then v else zget m k'.
Proof. unfold zget. rewrite lookup_insert. by case_decide. Qed.

Section kahn.
Context {Q : Type} (pop : Q → option (string * Q)) (push : string → Q → Q) (children : string → list string).
Context (good : Q → Prop) (elems : Q → list string) (laws : queue_laws pop push good elems).

Lemma release_all cs : ∀ q m, good q → NoDup cs →
  let '(q', m') := foldl (release push) (q, m) cs in
  good q' ∧ elems q' ≡ₚ filter (λ c, zget m c = 1) cs ++ elems q ∧
  ∀ c, zget m' c = if decide (c ∈ cs) then zget m c - 1 else zget m c.
Proof using laws.
  induction cs as [|c cs IH]; intros q m Hq Hnd; cbn [foldl].
  { split_and!; [done|done|]. intros c. by rewrite decide_False by apply not_elem_of_nil. }
  apply NoDup_cons in Hnd as [Hc Hnd]. cbn [release].
  set (q1 := if zget m c - 1 =? 0 then push c q else q).
  assert (good q1 ∧ elems q1 ≡ₚ (if decide (zget m c = 1) then [c] else []) ++ elems q) as [Hq1 He1].
  { unfold q1. destruct (Z.eqb_spec (zget m c - 1) 0); [rewrite decide_True by lia|by rewrite decide_False by lia].
    destruct (ql_push laws q c Hq). by split. }
  specialize (IH q1 (<[c := zget m c - 1]> m) Hq1 Hnd). destruct (foldl (release push) _ cs) as [q' m'].
  destruct IH as (Hg & He & Hm). split_and!; [done|..].
  - rewrite He, He1, filter_cons.
    rewrite (filter_ext_in (λ c0, zget (<[c := zget m c - 1]> m) c0 = 1) (λ c0, zget m c0 = 1)).
    + case_decide; cbn [app]; [|done]. symmetry. apply Permutation_middle.
    + intros c' Hc'. rewrite zget_insert, decide_False; [done|]. by intros ->.
  - intros c'. rewrite Hm, zget_insert. destruct (decide (c = c')) as [->|Hne].
    + rewrite decide_False by done. by rewrite decide_True by left.
    + destruct (decide (c' ∈ cs)); [rewrite decide_True by (by right)|rewrite decide_False]; [done|done|].
      intros [->|?]%elem_of_cons; done.
Qed.

Section graph.
Context (nodes : gset string).
Context (children_nodup : ∀ p, p ∈ nodes → NoDup (children p)).
Context (children_nodes : ∀ p c, p ∈ nodes → c ∈ children p → c ∈ nodes).

(** The parents of [c] that have not been given out. *)
Definition waiting (c : string) (out : list string) : gset string :=
  filter (λ p, c ∈ children p) (nodes ∖ list_to_set out).

Record kahn_ok (out : list string) (q : Q) (m : gmap string Z) : Prop := {
  ko_good : good q;
  ko_nodup : NoDup (out ++ elems q);
  ko_nodes x : x ∈ out ++ elems q → x ∈ nodes;
  ko_degree c : c ∈ nodes → zget m c = Z.of_nat (size (waiting c out));
  ko_ready c : c ∈ nodes → c ∈ out ++ elems q ↔ waiting c out = ∅;
}.

Lemma waiting_snoc c out x : x ∈ nodes → x ∉ out →
  size (waiting c (out ++ [x])) = (if decide (c ∈ children x) then size (waiting c out) - 1 else size (waiting c out))%nat ∧
  (c ∈ children x → waiting c out ≠ ∅) ∧ (c ∉ children x → waiting c (out ++ [x]) = waiting c out).
Proof.
  intros Hx Hout. assert (waiting c (out ++ [x]) = waiting c out ∖ {[x]}) as E.
  { unfold waiting. apply set_eq. intros p. rewrite elem_of_difference, !elem_of_filter, !elem_of_difference. set_solver. }
  rewrite E. split_and!.
  - case_decide as Hc.
    + rewrite size_difference, size_singleton; [done|]. intros p ->%elem_of_singleton. apply elem_of_filter. set_solver.
    + f_equal. apply set_eq. intros p. rewrite elem_of_difference. unfold waiting. rewrite elem_of_filter. set_solver.
  - intros Hc He. assert (x ∈ waiting c out) by (apply elem_of_filter; set_solver). set_solver.
  - intros Hc. apply set_eq. intros p. rewrite elem_of_difference. unfold waiting. rewrite elem_of_filter. set_solver.
Qed.

Lemma kahn_step out q m x q' :
  kahn_ok out q m → pop q = Some (x, q') →
  x ∈ nodes ∧ (x ∉ out) ∧ waiting x out = ∅ ∧
  kahn_ok (out ++ [x]) (foldl (release push) (q', m) (children x)).1 (foldl (release push) (q', m) (children x)).2.
Proof using children_nodes children_nodup laws.
  intros [Hg Hnd Hn Hd Hr] Hp. destruct (ql_pop_some laws q x q' Hg Hp) as [Hg' He].
  assert (x ∈ nodes) as Hx by (apply Hn; rewrite He; set_solver).
  assert (NoDup (x :: out ++ elems q')) as Hnd' by (rewrite He in Hnd; by rewrite Permutation_middle).
  apply NoDup_cons in Hnd' as [Hx' Hnd'].
  assert (x ∉ out) as Hxo by set_solver.
  assert (waiting x out = ∅) as Hw by (apply Hr; [done|]; rewrite He; set_solver).
  split_and!; [done..|].
  pose proof (release_all (children x) q' m Hg' (children_nodup x Hx)) as Hrel.
  destruct (foldl (release push) (q', m) (children x)) as [q2 m2]. destruct Hrel as (Hg2 & He2 & Hm2). cbn [fst snd].
  assert (∀ c, c ∈ children x → c ∈ nodes ∧ waiting c out ≠ ∅) as Hch.
  { intros c Hc. split; [by eapply children_nodes|]. by apply (waiting_snoc c out x Hx Hxo). }
  split.
  - done.
  - rewrite <- app_assoc. cbn [app]. rewrite He2. rewrite (Permutation_app_comm _ (elems q')), app_comm_cons, (app_assoc out).
    apply NoDup_app. split_and!.
    + rewrite <- Permutation_middle. by constructor.
    + intros c Hc [_ Hcx]%list_elem_of_filter. destruct (Hch c Hcx) as [Hcn Hcw]. apply Hcw, (Hr c Hcn).
      rewrite He. set_solver.
    + apply NoDup_filter. by apply children_nodup.
  - intros c. rewrite He2. intros Hc. assert (c ∈ out ++ x :: elems q' ∨ c ∈ children x) as [Hc'|Hc'].
    { rewrite !elem_of_app, list_elem_of_filter in Hc. set_solver. }
    + apply Hn. by rewrite He.
    + by apply Hch.
  - intros c Hc. rewrite Hm2, (Hd c Hc). destruct (waiting_snoc c out x Hx Hxo) as (-> & Hne & _).
    case_decide as Hcx; [|done]. specialize (Hne Hcx). assert (size (waiting c out) ≠ 0%nat); [|lia].
    intros H0. apply Hne. apply size_empty_inv in H0. by apply leibniz_equiv.
  - intros c Hc. destruct (waiting_snoc c out x Hx Hxo) as (Hsz & Hne & Hsame).
    rewrite <- app_assoc, He2. cbn [app]. rewrite !elem_of_app, elem_of_cons, elem_of_app, list_elem_of_filter.
    destruct (decide (c ∈ children x)) as [Hcx|Hcx].
    + specialize (Hne Hcx). assert (c ∉ out ++ elems q) as Hnin by (by rewrite (Hr c Hc)).
      rewrite He in Hnin. rewrite (Hd c Hc). split.
      * intros Hin. assert (Z.of_nat (size (waiting c out)) = 1) by set_solver.
        apply leibniz_equiv, size_empty_inv. lia.
      * intros Hz. right. right. left. split; [|done]. assert (size (waiting c out) ≠ 0%nat).
        { intros H0. apply Hne. apply leibniz_equiv. by apply size_empty_inv. }
        rewrite Hz, size_empty in Hsz. lia.
    + rewrite (Hsame Hcx), <- (Hr c Hc), He. set_solver.
Qed.

Lemma kahn_spec fuel : ∀ out q m, kahn_ok out q m →
  let l := kahn_loop pop push children fuel q m in
  NoDup (out ++ l) ∧ (∀ x, x ∈ l → x ∈ nodes) ∧ (∀ l1 y l2, l = l1 ++ y :: l2 → waiting y (out ++ l1) = ∅).
Proof using children_nodes children_nodup laws.
  induction fuel as [|fuel IH]; intros out q m Hok; cbn [kahn_loop].
  { split_and!; [|by intros x ?%elem_of_nil|by intros [] ? ? ?]. rewrite app_nil_r. by pose proof (ko_nodup _ _ _ Hok) as [? _]%NoDup_app. }
  destruct (pop q) as [[x q']|] eqn:Hp.
  2:{ split_and!; [|by intros x ?%elem_of_nil|by intros [] ? ? ?]. rewrite app_nil_r. by pose proof (ko_nodup _ _ _ Hok) as [? _]%NoDup_app. }
  destruct (kahn_step out q m x q' Hok Hp) as (Hx & Hxo & Hw & Hok').
  destruct (foldl (release push) (q', m) (children x)) as [q2 m2]. cbn [fst snd] in Hok'.
  destruct (IH _ _ _ Hok') as (H1 & H2 & H3). split_and!.
  - by rewrite <- app_assoc in H1.
  - intros y [->|Hy]%elem_of_cons; auto.
  - intros [|z l1] y l2 E; cbn [app] in E; injection E as <- E.
    + by rewrite app_nil_r.
    + rewrite cons_middle, app_assoc. by eapply H3.
Qed.

(** The number of ids is fuel enough. *)
Lemma kahn_fuel fuel : ∀ out q m k, kahn_ok out q m → (size nodes <= length out + fuel)%nat →
  kahn_loop pop push children (fuel + k) q m = kahn_loop pop push children fuel q m.
Proof using children_nodes children_nodup laws.
  induction fuel as [|fuel IH]; intros out q m k Hok Hf; cbn [Nat.add kahn_loop].
  - destruct k as [|k]; [done|]. cbn [kahn_loop]. destruct (pop q) as [[x q']|] eqn:Hp; [|done]. exfalso.
    destruct (kahn_step out q m x q' Hok Hp) as (Hx & Hxo & _ & _).
    assert (size (list_to_set (out ++ [x]) : gset string) <= size nodes)%nat as Hs.
    { apply subseteq_size. intros y. rewrite elem_of_list_to_set. intros [Hy| ->%list_elem_of_singleton]%elem_of_app; [|done].
      apply (ko_nodes _ _ _ Hok). set_solver. }
    rewrite size_list_to_set, length_app in Hs; [cbn in Hs; lia|]. apply NoDup_app. split_and!; [|set_solver|apply NoDup_singleton].
    by pose proof (ko_nodup _ _ _ Hok) as [? _]%NoDup_app.
  - destruct (pop q) as [[x q']|] eqn:Hp; [|done]. destruct (kahn_step out q m x q' Hok Hp) as (_ & _ & _ & Hok').
    destruct (foldl (release push) (q', m) (children x)) as [q2 m2]. cbn [fst snd] in Hok'. f_equal.
    apply (IH _ _ _ _ Hok'). rewrite length_app. cbn. lia.
Qed.

Lemma push_all l : ∀ q, good q → good (foldl (λ q id, push id q) q l) ∧ elems (foldl (λ q id, push id q) q l) ≡ₚ l ++ elems q.
Proof using laws.
  induction l as [|x l IH]; intros q Hq; cbn [foldl]; [done|]. destruct (ql_push laws q x Hq) as [Hq' He].
  destruct (IH _ Hq') as [Hg Hp]. split; [done|]. rewrite Hp, He. symmetry. apply Permutation_middle.
Qed.

(** The degrees the loop starts with. *)
Lemma kahn_start q m : good q → elems q ≡ₚ ready_ids m → dom m = nodes →
  (∀ c, c ∈ nodes → zget m c = Z.of_nat (size (waiting c []))) → kahn_ok [] q m.
Proof.
  intros Hq He Hdom Hd.
  assert (∀ c, c ∈ ready_ids m ↔ c ∈ nodes ∧ zget m c = 0) as Hr.
  { intros c. unfold ready_ids. rewrite list_elem_of_fmap. rewrite <- Hdom, elem_of_dom. unfold zget. split.
    - intros ([k d] & -> & [Hz Hk%elem_of_map_to_list]%list_elem_of_filter). cbn in *. rewrite Hk. split; [by eexists|done].
    - intros [[d Hk] Hz]. rewrite Hk in Hz. exists (c, d). split; [done|]. apply list_elem_of_filter.
      split; [done|]. by apply elem_of_map_to_list. }
  split; cbn [app].
  - done.
  - rewrite He. unfold ready_ids. eapply sublist_NoDup; [apply (NoDup_fst_map_to_list m)|].
    apply fmap_sublist, sublist_filter.
  - intros x. rewrite He, Hr. by intros [? _].
  - done.
  - intros c Hc. rewrite He, Hr, (Hd c Hc). split.
    + intros [_ Hz]. apply leibniz_equiv, size_empty_inv. lia.
    + intros ->. by rewrite size_empty.
Qed.
End graph.
End kahn.

(** ** Queues that give out the least element are all alike *)

Section same.
Context {Q1 Q2 : Type} (pop1 : Q1 → option (string * Q1)) (pop2 : Q2 → option (string * Q2)).
Context (push1 : string → Q1 → Q1) (push2 : string → Q2 → Q2).
Context (good1 : Q1 → Prop) (good2 : Q2 → Prop) (elems1 : Q1 → list string) (elems2 : Q2 → list string).
Context (laws1 : queue_laws pop1 push1 good1 elems1) (laws2 : queue_laws pop2 push2 good2 elems2).
Context (less : string → string → bool) (total : ∀ a b, a ≠ b → less a b = true ∨ less b a = true).
Context (least1 : pops_least less pop1 good1 elems1) (least2 : pops_least less pop2 good2 elems2).

Definition alike (q1 : Q1) (q2 : Q2) : Prop := good1 q1 ∧ good2 q2 ∧ elems1 q1 ≡ₚ elems2 q2.

Lemma alike_push q1 q2 x : alike q1 q2 → alike (push1 x q1) (push2 x q2).
Proof using laws1 laws2.
  intros (H1 & H2 & He). destruct (ql_push laws1 q1 x H1) as [G1 E1], (ql_push laws2 q2 x H2) as [G2 E2].
  split_and!; [done..|]. by rewrite E1, E2, He.
Qed.

Lemma alike_pop q1 q2 : alike q1 q2 →
  match pop1 q1, pop2 q2 with
  | Some (x, q1'), Some (y, q2') => x = y ∧ alike q1' q2'
  | None, None => True
  | _, _ => False
  end.
Proof using laws1 laws2 total least1 least2.
  intros (H1 & H2 & He). destruct (pop1 q1) as [[x q1']|] eqn:P1, (pop2 q2) as [[y q2']|] eqn:P2; [|..|done].
  - destruct (ql_pop_some laws1 _ _ _ H1 P1) as [G1 E1], (ql_pop_some laws2 _ _ _ H2 P2) as [G2 E2].
    assert (x = y) as ->.
    { destruct (decide (x = y)) as [|Hne]; [done|]. exfalso.
      assert (less y x = false) by (apply (least1 _ _ _ H1 P1); rewrite He, E2; left).
      assert (less x y = false) by (apply (least2 _ _ _ H2 P2); rewrite <- He, E1; left).
      destruct (total x y Hne); congruence. }
    split; [done|]. split_and!; [done..|]. apply (Permutation_cons_inv (a := y)). by rewrite <- E1, <- E2.
  - pose proof (ql_pop_none laws2 _ H2 P2) as E2. destruct (ql_pop_some laws1 _ _ _ H1 P1) as [_ E1].
    rewrite He, E2 in E1. by apply Permutation_nil_cons in E1.
  - pose proof (ql_pop_none laws1 _ H1 P1) as E1. destruct (ql_pop_some laws2 _ _ _ H2 P2) as [_ E2].
    rewrite <- He, E1 in E2. by apply Permutation_nil_cons in E2.
Qed.

Lemma alike_release children q1 q2 m : alike q1 q2 →
  alike (foldl (release push1) (q1, m) children).1 (foldl (release push2) (q2, m) children).1 ∧
  (foldl (release push1) (q1, m) children).2 = (foldl (release push2) (q2, m) children).2.
Proof using laws1 laws2.
  revert q1 q2 m. induction children as [|c cs IH]; intros q1 q2 m Ha; cbn [foldl]; [done|].
  cbn [release]. apply IH. destruct (_ =? 0); [by apply alike_push|done].
Qed.

Lemma kahn_same children fuel : ∀ q1 q2 m, alike q1 q2 →
  kahn_loop pop1 push1 children fuel q1 m = kahn_loop pop2 push2 children fuel q2 m.
Proof using laws1 laws2 total least1 least2.
  induction fuel as [|fuel IH]; intros q1 q2 m Ha; cbn [kahn_loop]; [done|].
  pose proof (alike_pop q1 q2 Ha) as Hp. destruct (pop1 q1) as [[x q1']|], (pop2 q2) as [[y q2']|]; [|done..].
  destruct Hp as [-> Ha']. destruct (alike_release (children y) q1' q2' m Ha') as [H1 H2].
  destruct (foldl (release push1) _ _) as [r1 m1], (foldl (release push2) _ _) as [r2 m2]. cbn [fst snd] in *. subst.
  f_equal. by apply IH.
Qed.
End same.
