(* ===== verification/BatchSIOrder.v ===== *)
(** * What the Batch-SI orders guarantee

    OFAS and its dependency-graph ablation keep or defer every transaction of a
    batch, and in what they keep no transaction touches a key that an earlier one
    writes. The heap of the ready transactions gives the order of the algorithm that
    sorts the ready transactions again for each step. *)
From S2P Require Import Prelude GoStd Tx Block Heap Serial BatchSI BatchSIParts Kahn.
Local Open Scope Z_scope.

(** ** Writers and edges *)

Lemma writers_cons_fold keys id : ∀ m k,
  foldl (λ m key, <[key := id]> m) m keys !! k = if decide (k ∈ keys) then Some id else (m : gmap string string) !! k.
Proof.
  induction keys as [|key keys IH]; intros m k; cbn [foldl]; [by rewrite decide_False by apply not_elem_of_nil|].
  rewrite IH, lookup_insert. destruct (decide (k ∈ keys)); [by rewrite decide_True by (by right)|].
  case_decide; subst; [by rewrite decide_True by left|]. rewrite decide_False; [done|]. by intros [->|?]%elem_of_cons.
Qed.

Definition writers_from (m : gmap string string) (items : list batchSITxDescriptor) : gmap string string :=
  foldl (λ m d, foldl (λ m key, <[key := ds_TxID d]> m) m (ds_WriteKeys d)) m items.

Lemma writers_from_sound items : ∀ m k id, writers_from m items !! k = Some id →
  m !! k = Some id ∨ ∃ d, d ∈ items ∧ ds_TxID d = id ∧ k ∈ ds_WriteKeys d.
Proof.
  induction items as [|d items IH]; intros m k id; unfold writers_from; cbn [foldl]; [by left|].
  intros [H|(d' & ? & ? & ?)]%IH; [|right; exists d'; set_solver].
  rewrite writers_cons_fold in H. case_decide; [|by left]. simplify_eq. right. exists d. set_solver.
Qed.

Lemma writers_from_untouched items : ∀ m k, k ∉ batch_keys items → writers_from m items !! k = m !! k.
Proof.
  induction items as [|d items IH]; intros m k Hk; unfold writers_from; cbn [foldl]; [done|].
  unfold batch_keys in Hk. rewrite bind_cons in Hk. rewrite (IH _ k), writers_cons_fold, decide_False; [done|set_solver..].
Qed.

Lemma writers_from_complete items : ∀ m d k, NoDup (batch_keys items) → d ∈ items → k ∈ ds_WriteKeys d →
  writers_from m items !! k = Some (ds_TxID d).
Proof.
  induction items as [|d' items IH]; intros m d k Hnd Hd Hk; [by apply elem_of_nil in Hd|].
  unfold batch_keys in Hnd. rewrite bind_cons in Hnd. apply NoDup_app in Hnd as (Hnd1 & Hx & Hnd).
  unfold writers_from. cbn [foldl]. apply elem_of_cons in Hd as [->|Hd].
  - rewrite (writers_from_untouched items _ k) by (by apply Hx). by rewrite writers_cons_fold, decide_True.
  - by apply (IH _ d k).
Qed.

Lemma writer_of items d k : NoDup (batch_keys items) → d ∈ items → k ∈ ds_WriteKeys d → sget (writers items) k = ds_TxID d.
Proof. intros. unfold sget. change (writers items) with (writers_from ∅ items).
  by rewrite (writers_from_complete items ∅ d k). Qed.

Lemma writer_item items k : sget (writers items) k ≠ "" →
  ∃ d, d ∈ items ∧ ds_TxID d = sget (writers items) k ∧ k ∈ ds_WriteKeys d.
Proof.
  unfold sget. destruct (writers items !! k) as [id|] eqn:E; [|done]. intros _. cbn.
  apply (writers_from_sound items ∅) in E as [E|E]; [by rewrite lookup_empty in E|done].
Qed.

Lemma elem_of_foreign wk item w : w ∈ foreign_writers wk item ↔
  (w ≠ "" ∧ w ≠ ds_TxID item) ∧ ∃ key, key ∈ ds_ReadKeys item ∧ (key ∉ ds_WriteKeys item) ∧ sget wk key = w.
Proof.
  unfold foreign_writers, batchSIStringSet. rewrite list_elem_of_filter, list_elem_of_fmap. apply and_iff_compat_l. split.
  - intros (key & -> & [Hk Hr]%list_elem_of_filter). exists key. rewrite elem_of_list_to_set in Hk. done.
  - intros (key & Hr & Hk & <-). exists key. split; [done|]. apply list_elem_of_filter. by rewrite elem_of_list_to_set.
Qed.

Lemma edges_of_insert edges p s q : edges_of (<[p := s]> edges) q = if decide (p = q) then s else edges_of edges q.
Proof. unfold edges_of. rewrite lookup_insert. by case_decide. Qed.

(** The writers [reader] has to precede, as far as [keys] go. *)
Definition precedes_by (wk : gmap string string) (reader : batchSITxDescriptor) (keys : list string) (w : string) : Prop :=
  (w ≠ "" ∧ w ≠ ds_TxID reader) ∧ ∃ key, key ∈ keys ∧ (key ∉ ds_WriteKeys reader) ∧ sget wk key = w.

Lemma table_edges wk reader keys : ∀ t p w,
  w ∈ edges_of (ot_dependencyEdges (foldl (table_read wk reader) t keys)) p ↔
  w ∈ edges_of (ot_dependencyEdges t) p ∨ (p = ds_TxID reader ∧ precedes_by wk reader keys w).
Proof.
  induction keys as [|key keys IH]; intros t p w; cbn [foldl].
  { split; [by left|]. intros [?|(_ & _ & key & ?%elem_of_nil & _)]; done. }
  rewrite IH. unfold table_read, batchSIStringSet. unfold precedes_by.
  repeat case_bool_decide; cbn [orb ot_dependencyEdges]; rewrite ?edges_of_insert; try case_decide; set_solver.
Qed.

(** An edge leads from a reader to another transaction that writes what it reads. *)
Definition depends (items : list batchSITxDescriptor) (p w : string) : Prop :=
  ∃ r, r ∈ items ∧ ds_TxID r = p ∧ precedes_by (writers items) r (ds_ReadKeys r) w.

Lemma ofas_edges items p w :
  w ∈ edges_of (ot_dependencyEdges (ofas_tables_of items)) p ↔ depends items p w.
Proof.
  unfold ofas_tables_of, depends. generalize (writers items). intros wk.
  assert (∀ l t, w ∈ edges_of (ot_dependencyEdges (foldl (λ t reader, foldl (table_read wk reader) t (ds_ReadKeys reader)) t l)) p
    ↔ w ∈ edges_of (ot_dependencyEdges t) p ∨ ∃ r, r ∈ l ∧ ds_TxID r = p ∧ precedes_by wk r (ds_ReadKeys r) w) as H.
  { induction l as [|r l IH]; intros t; cbn [foldl]; [set_solver|]. rewrite IH, table_edges. set_solver. }
  rewrite H. unfold edges_of at 1. cbn [ot_dependencyEdges]. rewrite lookup_empty. cbn. set_solver.
Qed.

(** *** Degrees *)

Definition parents (ids : gset string) (edges : gmap string (gset string)) (c : string) : gset string :=
  filter (λ p, c ∈ edges_of edges p) ids.

Lemma zget_bump m k c : zget (bump m k) c = if decide (k = c) then zget m c + 1 else zget m c.
Proof. unfold bump. rewrite zget_insert. case_decide; by subst. Qed.

Lemma bump_active (active : gset string) l : ∀ m c, NoDup l →
  zget (foldl (λ m child, if bool_decide (child ∈ active) then bump m child else m) m l) c =
  zget m c + if decide (c ∈ l ∧ c ∈ active) then 1 else 0.
Proof.
  induction l as [|x l IH]; intros m c Hnd; cbn [foldl]; [rewrite decide_False by set_solver; lia|].
  apply NoDup_cons in Hnd as [Hx Hnd]. rewrite IH by done. case_bool_decide; [rewrite zget_bump|]; repeat case_decide; set_solver by lia.
Qed.

Lemma dom_bump m k (ids : gset string) : k ∈ ids → dom m = ids → dom (bump m k) = ids.
Proof. intros Hk <-. unfold bump. rewrite dom_insert_L. set_solver. Qed.

Lemma active_degree_list (active : gset string) c l : ∀ m, c ∈ active →
  zget (foldl (λ m pc, if bool_decide (pc.1 ∈ active)
                 then foldl (λ m child, if bool_decide (child ∈ active) then bump m child else m) m (elements pc.2)
                 else m) m l) c =
  zget m c + Z.of_nat (length (filter (λ pc : string * gset string, pc.1 ∈ active ∧ c ∈ pc.2) l)).
Proof.
  induction l as [|[p s] l IH]; intros m Hc; cbn [foldl]; [cbn; lia|]. rewrite IH by done. rewrite filter_cons. cbn [fst snd].
  case_bool_decide as Hp; [rewrite bump_active by apply NoDup_elements|].
  - destruct (decide (c ∈ s)) as [Hs|Hs].
    + rewrite !decide_True by (rewrite ?elem_of_elements; done). cbn [length]. lia.
    + rewrite !decide_False by (rewrite ?elem_of_elements; tauto). lia.
  - rewrite decide_False by tauto. lia.
Qed.

Lemma active_degree active edges c : c ∈ active →
  zget (active_indegree active edges) c = Z.of_nat (size (parents active edges c)).
Proof.
  intros Hc. unfold active_indegree. rewrite active_degree_list by done.
  assert (zget (gset_to_gmap 0 active) c = 0) as -> by (unfold zget; by rewrite lookup_gset_to_gmap, option_guard_True).
  rewrite Z.add_0_l. f_equal. set (l := filter _ (map_to_list edges)).
  assert (NoDup l.*1) as Hnd.
  { eapply sublist_NoDup; [apply (NoDup_fst_map_to_list edges)|]. apply fmap_sublist, sublist_filter. }
  rewrite <- (length_fmap fst l), <- (size_list_to_set (C := gset string) l.*1 Hnd). f_equal. apply set_eq. intros p.
  rewrite elem_of_list_to_set, list_elem_of_fmap. unfold parents. rewrite elem_of_filter. unfold edges_of. split.
  - intros ([p' s] & -> & [[? ?] Hin%elem_of_map_to_list]%list_elem_of_filter). cbn in *. by rewrite Hin.
  - intros [Hs Hp]. destruct (edges !! p) as [s|] eqn:E; [|by apply elem_of_empty in Hs]. exists (p, s). split; [done|].
    apply list_elem_of_filter. split; [done|]. by apply elem_of_map_to_list.
Qed.

Lemma dom_active_indegree active edges : dom (active_indegree active edges) = active.
Proof.
  unfold active_indegree. apply (foldl_ind (λ m, dom m = active)); [|apply dom_gset_to_gmap].
  intros m pc _ Hm. case_bool_decide; [|done]. apply (foldl_ind (λ m, dom m = active)); [|done].
  intros m' child _ Hm'. case_bool_decide; [by apply dom_bump|done].
Qed.

(** ** The ids OFAS gets from one turn *)

Definition topological (edges : gmap string (gset string)) (ids : list string) : Prop :=
  ∀ l1 y l2 p, ids = l1 ++ y :: l2 → p ∈ ids → y ∈ edges_of edges p → p ∈ l1.

Lemma elem_of_active_children active edges p c : c ∈ active_children active edges p ↔ c ∈ active ∧ c ∈ edges_of edges p.
Proof. unfold active_children. by rewrite sort_strings_perm, list_elem_of_filter, elem_of_elements. Qed.

Lemma lowest_in higher byID rest : ∀ first, lowest higher byID first rest ∈ first :: rest.
Proof.
  induction rest as [|x rest IH]; intros first; [left|]. unfold lowest. cbn [foldl].
  fold (lowest higher byID (if higher (dget byID first) (dget byID x) then x else first) rest).
  specialize (IH (if higher (dget byID first) (dget byID x) then x else first)).
  apply elem_of_cons in IH as [->|?]; [destruct (higher _ _)|]; set_solver.
Qed.

Section turn.
Context {Q : Type} (empty : Q) (pop : Q → option (string * Q)) (push : string → Q → Q).
Context (good : Q → Prop) (elems : Q → list string) (laws : queue_laws pop push good elems).
Context (empty_good : good empty) (empty_elems : elems empty = []).

Lemma turn_ok active edges :
  kahn_ok (active_children active edges) good elems active []
    (foldl (λ q id, push id q) empty (ready_ids (active_indegree active edges))) (active_indegree active edges).
Proof using laws empty_good empty_elems.
  destruct (push_all pop push good elems laws (ready_ids (active_indegree active edges)) empty empty_good) as [Hg He].
  rewrite empty_elems, app_nil_r in He. apply kahn_start; [done|done|apply dom_active_indegree|].
  intros c Hc. rewrite active_degree by done. f_equal. f_equal. unfold waiting, parents. apply set_eq. intros p.
  rewrite !elem_of_filter, elem_of_active_children. set_solver.
Qed.

Lemma active_children_graph active edges :
  (∀ p, p ∈ active → NoDup (active_children active edges p)) ∧
  (∀ p c, p ∈ active → c ∈ active_children active edges p → c ∈ active).
Proof.
  split; [|by intros p c _ [? _]%elem_of_active_children]. intros p _. unfold active_children.
  rewrite sort_strings_perm. apply NoDup_filter, NoDup_elements.
Qed.

Lemma turn_spec edges active :
  let l := topological_ids empty pop push edges active in
  NoDup l ∧ (∀ x, x ∈ l → x ∈ active) ∧ ∀ l1 y l2 p, l = l1 ++ y :: l2 → p ∈ active → y ∈ edges_of edges p → p ∈ l1.
Proof using laws empty_good empty_elems.
  destruct (active_children_graph active edges) as [Hnd Hin].
  destruct (kahn_spec pop push (active_children active edges) good elems laws active Hnd Hin (size active) [] _ _
    (turn_ok active edges)) as (H1 & H2 & H3). split_and!; [done|done|].
  intros l1 y l2 p E Hp Hy. assert (y ∈ active) as Ha.
  { apply H2. unfold topological_ids in E. rewrite E. set_solver. }
  specialize (H3 l1 y l2 E). cbn [app] in H3. apply dec_stable. intros Hl1.
  assert (p ∈ waiting (active_children active edges) active y l1) as Hw.
  { apply elem_of_filter. rewrite elem_of_active_children. set_solver. }
  rewrite H3 in Hw. set_solver.
Qed.

(** More fuel would not change the turn. *)
Lemma turn_fuel edges active k :
  kahn_loop pop push (active_children active edges) (size active + k)
    (foldl (λ q id, push id q) empty (ready_ids (active_indegree active edges))) (active_indegree active edges) =
  topological_ids empty pop push edges active.
Proof using laws empty_good empty_elems.
  destruct (active_children_graph active edges) as [Hnd Hin].
  by apply (kahn_fuel pop push (active_children active edges) good elems laws active Hnd Hin _ [] _ _ _ (turn_ok active edges)).
Qed.

(** What the turns keep is in topological order, what they do not keep is aborted;
    the fuel is enough. *)
Lemma rounds_spec edges byID higher fuel : ∀ active aborted, (size active < fuel)%nat →
  ∃ ids removed, ofas_rounds empty pop push edges byID higher fuel active aborted =
    (dget byID <$> ids, aborted ++ (dget byID <$> removed)) ∧
    ids ++ removed ≡ₚ elements active ∧ topological edges ids.
Proof using laws empty_good empty_elems.
  induction fuel as [|fuel IH]; intros active aborted Hf; [lia|]. cbn [ofas_rounds].
  destruct (turn_spec edges active) as (Hnd & Hin & Ht). set (l := topological_ids empty pop push edges active) in *.
  case_bool_decide as Hlen.
  - exists l, []. assert (l ≡ₚ elements active) as Hp.
    { apply submseteq_length_Permutation; [|change (length (elements active)) with (size active); lia].
      apply NoDup_submseteq; [done|]. intros x Hx. by apply elem_of_elements, Hin. }
    split_and!; [by rewrite app_nil_r|by rewrite app_nil_r|]. intros l1 y l2 p E Hpl. apply (Ht l1 y l2 p E). by apply Hin.
  - destruct (filter (λ id, id ∉ l) (elements active)) as [|first rest] eqn:E.
    { exfalso. apply Hlen. assert (elements active ⊆+ l) as Hs.
      { apply NoDup_submseteq; [apply NoDup_elements|]. intros x Hx. apply dec_stable. intros Hxl.
        assert (x ∈ filter (λ id, id ∉ l) (elements active)) by (by apply list_elem_of_filter). rewrite E in H. set_solver. }
      apply submseteq_length in Hs. change (length (elements active)) with (size active) in Hs.
      assert (l ⊆+ elements active) as Hs2%submseteq_length.
      { apply NoDup_submseteq; [done|]. intros x Hx. by apply elem_of_elements, Hin. }
      change (length (elements active)) with (size active) in Hs2. lia. }
    set (victim := lowest higher byID first rest).
    assert (victim ∈ active) as Hv.
    { pose proof (lowest_in higher byID rest first) as H. fold victim in H. rewrite <- E in H.
      apply list_elem_of_filter in H as [_ H]. by apply elem_of_elements. }
    assert (elements active ≡ₚ victim :: elements (active ∖ {[victim]})) as Hp.
    { rewrite <- elements_union_singleton by set_solver. f_equiv. intros x. destruct (decide (x = victim)); set_solver. }
    destruct (IH (active ∖ {[victim]}) (aborted ++ [dget byID victim])) as (ids & removed & -> & Hperm & Htop).
    { rewrite size_difference, size_singleton by set_solver. apply Permutation_length in Hp. cbn in Hp.
      change (length (elements active)) with (size active) in Hp. lia. }
    exists ids, (victim :: removed). split_and!; [by rewrite fmap_cons, <- app_assoc| |done].
    by rewrite Hp, <- Hperm, Permutation_middle.
Qed.
End turn.

(** ** Orders of a batch *)

(** [d2] touches no key that [d1] writes. *)
Definition untouched (d1 d2 : batchSITxDescriptor) : Prop :=
  ∀ k, k ∈ ds_WriteKeys d1 → (k ∉ ds_ReadKeys d2) ∧ k ∉ ds_WriteKeys d2.

Definition ordering_of (items ordered aborted : list batchSITxDescriptor) : Prop :=
  ordered ++ aborted ≡ₚ items ∧ StronglySorted untouched ordered.

(** A batch: distinct ids, at most one writer per key. *)
Record batch_ok (items : list batchSITxDescriptor) : Prop := {
  bo_ids : NoDup (ds_TxID <$> items);
  bo_named : ∀ d, d ∈ items → ds_TxID d ≠ "";
  bo_keys : NoDup (batch_keys items);
}.

Lemma by_id_lookup items : ∀ (m : gmap string batchSITxDescriptor) d, NoDup (ds_TxID <$> items) → d ∈ items →
  foldl (λ m d, <[ds_TxID d := d]> m) m items !! ds_TxID d = Some d.
Proof.
  assert (∀ l m k, k ∉ ds_TxID <$> l → foldl (λ m d, <[ds_TxID d := d]> m) m l !! k = (m : gmap string batchSITxDescriptor) !! k) as Hout.
  { induction l as [|x l IHl]; intros m k Hk; cbn [foldl]; [done|]. rewrite fmap_cons, not_elem_of_cons in Hk.
    rewrite IHl by tauto. apply lookup_insert_ne. naive_solver. }
  induction items as [|x l IH]; intros m d Hnd Hd; [by apply elem_of_nil in Hd|]. rewrite fmap_cons in Hnd.
  apply NoDup_cons in Hnd as [Hx Hnd]. cbn [foldl]. apply elem_of_cons in Hd as [->|Hd]; [|by apply IH].
  rewrite Hout by done. apply lookup_insert_eq.
Qed.

Lemma dget_by_id items d : NoDup (ds_TxID <$> items) → d ∈ items → dget (by_id items) (ds_TxID d) = d.
Proof. intros. unfold dget, by_id. by rewrite by_id_lookup. Qed.

Lemma dget_ids items l : NoDup (ds_TxID <$> items) → l ⊆ items → dget (by_id items) <$> (ds_TxID <$> l) = l.
Proof.
  intros Hnd. induction l as [|d l IH]; intros Hl; [done|]. rewrite !fmap_cons, IH by set_solver.
  rewrite dget_by_id; [done..|set_solver].
Qed.

Lemma ids_inj items d1 d2 : NoDup (ds_TxID <$> items) → d1 ∈ items → d2 ∈ items → ds_TxID d1 = ds_TxID d2 → d1 = d2.
Proof. intros Hnd H1 H2 E. rewrite <- (dget_by_id items d1 Hnd H1), E. by apply dget_by_id. Qed.

Lemma keys_inj items d1 d2 k : NoDup (batch_keys items) → d1 ∈ items → d2 ∈ items →
  k ∈ ds_WriteKeys d1 → k ∈ ds_WriteKeys d2 → ds_TxID d1 = ds_TxID d2.
Proof. intros Hnd H1 H2 Hk1 Hk2. by rewrite <- (writer_of items d1 k), <- (writer_of items d2 k). Qed.

(** The ids of some items in topological order. *)
Lemma topological_untouched items edges ids :
  batch_ok items → NoDup ids → ids ⊆ ds_TxID <$> items → (∀ p w, depends items p w → w ∈ edges_of edges p) →
  topological edges ids → StronglySorted untouched (dget (by_id items) <$> ids).
Proof.
  intros [Hids Hnamed Hkeys] Hnd Hsub Hedges Htop.
  assert (∀ l1 l2, ids = l1 ++ l2 → StronglySorted untouched (dget (by_id items) <$> l2)) as H; [|by apply (H [])].
  intros l1 l2. revert l1. induction l2 as [|y l2 IH]; intros l1 E; [constructor|]. rewrite fmap_cons. constructor.
  - apply (IH (l1 ++ [y])). by rewrite <- app_assoc.
  - apply Forall_forall. intros d2 (z & -> & Hz)%list_elem_of_fmap.
    assert (y ∈ ids ∧ z ∈ ids) as [Hy Hz'] by (rewrite E; set_solver).
    assert (∃ d, d ∈ items ∧ ds_TxID d = y) as (dy & Hdy & Ey) by (apply Hsub, list_elem_of_fmap in Hy; naive_solver).
    assert (∃ d, d ∈ items ∧ ds_TxID d = z) as (dz & Hdz & Ez) by (apply Hsub, list_elem_of_fmap in Hz'; naive_solver).
    rewrite <- Ey, <- Ez, !dget_by_id by done. intros k Hk.
    assert (y ≠ z ∧ z ∉ l1) as [Hyz Hzl].
    { rewrite E in Hnd. apply NoDup_app in Hnd as (_ & Hdis & Hnd). apply NoDup_cons in Hnd as [Hy2 _].
      split; [by intros ->|]. intros Hl. apply (Hdis z Hl). by right. }
    assert (k ∉ ds_WriteKeys dz) as HkW.
    { intros Hkz. apply Hyz. rewrite <- Ey, <- Ez. by eapply keys_inj. }
    split; [|done]. intros Hkz. apply Hzl, (Htop l1 y l2 z E Hz'), Hedges. exists dz. split_and!; [done..|].
    split; [split; [rewrite <- Ey; auto|congruence]|]. exists k. split_and!; [done..|]. by rewrite (writer_of items dy).
Qed.

(** ** OFAS *)

Lemma pass_aborted wk l : ∀ p, ∃ sub, sub `sublist_of` l ∧
  op_aborted (foldl (pass_item wk) p l) = op_aborted p ++ sub ∧
  op_isAborted (foldl (pass_item wk) p l) = op_isAborted p ∪ list_to_set (ds_TxID <$> sub).
Proof.
  induction l as [|d l IH]; intros p; cbn [foldl].
  { exists []. split_and!; [constructor|by rewrite app_nil_r|set_solver]. }
  destruct (IH (pass_item wk p d)) as (sub & Hs & -> & ->). unfold pass_item. cbv zeta. destruct (existsb _ _).
  - exists (d :: sub). split_and!; [by constructor|cbn [op_aborted]; by rewrite <- app_assoc|cbn [op_isAborted]; set_solver].
  - exists sub. split_and!; [by constructor|done|done].
Qed.

Lemma ofas_active_perm items priority t : NoDup (ds_TxID <$> items) → priority ≡ₚ items →
  let p := ofas_pass_of items priority t in
  (dget (by_id items) <$> elements (ofas_active items p)) ++ op_aborted p ≡ₚ items ∧
  (size (ofas_active items p) <= length items)%nat.
Proof.
  intros Hnd Hpr p. destruct (pass_aborted (writers items) priority (MkPass (foldl (λ m d, <[ds_TxID d := ds_IDRank d]> m) ∅ items)
    (ot_maximumReaderOrder t) ∅ ∅ [])) as (sub & Hsub & Hab & His). fold (ofas_pass_of items priority t) in Hab, His. fold p in Hab, His.
  cbn [op_aborted op_isAborted app] in Hab, His.
  assert (NoDup items) as Hndi by (by eapply NoDup_fmap_1).
  assert (sub ⊆ items) as Hsi by (intros d Hd; rewrite <- Hpr; by eapply sublist_subseteq).
  assert (NoDup sub) as Hnds by (eapply sublist_NoDup; [|done]; by rewrite Hpr).
  set (kept := filter (λ d, ds_TxID d ∉ op_isAborted p) items).
  assert (elements (ofas_active items p) ≡ₚ ds_TxID <$> kept) as Hel.
  { unfold ofas_active. rewrite elements_list_to_set by (by apply NoDup_filter). unfold kept. generalize (op_isAborted p). clear. intros ab.
    induction items as [|d items IH]; [done|]. rewrite fmap_cons, !filter_cons. case_decide; [rewrite fmap_cons|]; by rewrite IH. }
  split.
  - rewrite Hel, dget_ids, Hab; [|done|intros d; unfold kept; rewrite list_elem_of_filter; tauto].
    apply NoDup_Permutation; [|done|].
    + apply NoDup_app. split_and!; [by apply NoDup_filter| |done]. intros d [Hd _]%list_elem_of_filter Hds. apply Hd. rewrite His. set_solver.
    + intros d. unfold kept. rewrite elem_of_app, list_elem_of_filter. split; [intros [[_ ?]|?]; auto|]. intros Hd.
      destruct (decide (ds_TxID d ∈ op_isAborted p)) as [Hin|Hin]; [right|by left].
      rewrite His in Hin. apply elem_of_union in Hin as [?%elem_of_empty|Hin]; [done|].
      apply elem_of_list_to_set, list_elem_of_fmap in Hin as (d' & E & Hd'). by rewrite (ids_inj items d d') by auto.
  - change (size (ofas_active items p)) with (length (elements (ofas_active items p))). rewrite Hel, length_fmap. apply length_filter.
Qed.

(** A queue discipline that keeps its elements. *)
Definition queue_ok {Q} (queue : (string → string → bool) → Q * (Q → option (string * Q)) * (string → Q → Q)) : Prop :=
  ∀ so pi, ∃ good elems, queue_laws (queue (ready_less so pi)).1.2 (queue (ready_less so pi)).2 good elems ∧
    good (queue (ready_less so pi)).1.1 ∧ elems (queue (ready_less so pi)).1.1 = [].

Lemma ofas_ordering {Q} (queue : (string → string → bool) → Q * (Q → option (string * Q)) * (string → Q → Q)) items mode :
  queue_ok queue → batch_ok items →
  let '(ordered, aborted, _) := ofas_order queue items mode in ordering_of items ordered aborted.
Proof.
  intros Hq Hb. unfold ofas_order. set (t := ofas_tables_of items). set (higher := higherPriority mode t).
  set (priority := sort_slice higher items). set (p := ofas_pass_of items priority t).
  destruct (Hq (op_sortOrder p) (priority_index priority)) as (good & elems & laws & Hg & He).
  destruct (queue (ready_less (op_sortOrder p) (priority_index priority))) as [[empty pop] push]. cbn [fst snd] in *.
  destruct (ofas_active_perm items priority t (bo_ids _ Hb) (sort_slice_perm higher items)) as [Hperm Hsize]. fold p in Hperm, Hsize.
  destruct (rounds_spec empty pop push good elems laws Hg He (ot_dependencyEdges t) (by_id items) higher (S (length items))
    (ofas_active items p) (op_aborted p)) as (ids & removed & -> & Hids & Htop); [lia|].
  split.
  - rewrite sort_slice_perm, (Permutation_app_comm (op_aborted p)), app_assoc, <- fmap_app, Hids. exact Hperm.
  - apply (topological_untouched items (ot_dependencyEdges t)); [done|..|done].
    + assert (NoDup (ids ++ removed)) as [? _]%NoDup_app; [|done]. rewrite Hids. apply NoDup_elements.
    + intros x Hx. assert (x ∈ elements (ofas_active items p)) as Hx' by (rewrite <- Hids; set_solver).
      unfold ofas_active in Hx'. rewrite elem_of_elements, elem_of_list_to_set in Hx'. by apply list_elem_of_filter in Hx' as [_ ?].
    + intros q w. by apply ofas_edges.
Qed.

(** ** The ready queue *)

Section ready.
Context (so pi : gmap string Z).
Abbreviation less := (ready_less so pi).

Lemma ready_less_spec a b : less a b = true ↔
  zget so a < zget so b ∨ (zget so a = zget so b ∧ (zget pi a < zget pi b ∨ (zget pi a = zget pi b ∧ str_less a b = true))).
Proof.
  unfold ready_less. repeat case_bool_decide; cbn [negb]; rewrite ?Z.ltb_lt; intuition lia.
Qed.

Lemma ready_less_total a b : a ≠ b → less a b = true ∨ less b a = true.
Proof.
  intros Hne. rewrite !ready_less_spec. pose proof (str_less_total a b Hne).
  destruct (Z.lt_trichotomy (zget so a) (zget so b)) as [?|[?|?]]; [tauto| |tauto].
  destruct (Z.lt_trichotomy (zget pi a) (zget pi b)) as [?|[?|?]]; intuition congruence.
Qed.

Lemma ready_less_asym a b : less a b = true → less b a = false.
Proof.
  rewrite <- not_true_iff_false, !ready_less_spec. intros H1 H2. assert (str_less a b = true ∧ str_less b a = true) as [H3 H4] by intuition lia.
  pose proof (str_less_trans _ _ _ H3 H4) as H5. by rewrite str_less_irrefl in H5.
Qed.

Lemma ready_le_trans a b c : less b a = false → less c b = false → less c a = false.
Proof.
  intros H1 H2. destruct (less c a) eqn:H3; [|done]. exfalso.
  destruct (decide (a = b)) as [->|Hab]; [congruence|]. destruct (decide (b = c)) as [->|Hbc]; [congruence|].
  destruct (ready_less_total a b Hab) as [H4|H4]; [|congruence]. destruct (ready_less_total b c Hbc) as [H5|H5]; [|congruence].
  rewrite ready_less_spec in H3, H4, H5. pose proof (str_less_trans a b c). pose proof (str_less_trans a c a) as Hi.
  rewrite str_less_irrefl in Hi. assert (str_less c a = true ∧ str_less a b = true ∧ str_less b c = true); [|intuition congruence].
  intuition lia.
Qed.

Definition heap_good (l : list string) : Prop := heap less (length l) l.

Lemma heap_laws : queue_laws (heap_pop less) (heap_push less) heap_good id.
Proof.
  split.
  - intros [|x l] _ H; [done|]. discriminate.
  - intros q x q' Hg Hp. destruct (heap_pop_spec less ready_le_trans ready_less_asym q x q' Hg Hp) as (H1 & H2 & _). by split.
  - intros q x Hg. destruct (heap_push_spec less ready_le_trans ready_less_asym x q Hg) as [H1 H2]. by split.
Qed.

Lemma heap_least : pops_least less (heap_pop less) heap_good id.
Proof.
  intros q x q' Hg Hp y Hy. destruct (heap_pop_spec less ready_le_trans ready_less_asym q x q' Hg Hp) as (_ & _ & H). by apply H.
Qed.

(** [sort.Slice(ready, readyLess); id := ready[0]; ready = ready[1:]]. *)
Definition sorting_pop (ready : list string) : option (string * list string) := slice_pop (sort_slice less ready).
Definition sorting_push (id : string) (ready : list string) : list string := ready ++ [id].

Lemma sorting_laws : queue_laws sorting_pop sorting_push (λ _, True) id.
Proof.
  split; unfold sorting_pop.
  - intros q _ H. destruct (sort_slice less q) eqn:E; [|done]. symmetry. apply Permutation_nil_l. by rewrite <- E, sort_slice_perm.
  - intros q x q' _ H. destruct (sort_slice less q) eqn:E; [done|]. cbn in H. simplify_eq. split; [done|].
    by rewrite <- (sort_slice_perm less q), E.
  - intros q x _. split; [done|]. unfold sorting_push, id. by rewrite Permutation_app_comm.
Qed.

Lemma insert_sorted_head x l : (∀ y l', l = y :: l' → ∀ z, z ∈ l → less z y = false) →
  ∀ y l', insert_sorted less x l = y :: l' → ∀ z, z ∈ x :: l → less z y = false.
Proof.
  intros Hl y l' E z Hz. assert (∀ a, less a a = false) as Hirr.
  { intros a. destruct (less a a) eqn:Ea; [|done]. by rewrite (ready_less_asym a a Ea) in Ea. }
  destruct l as [|w l]; cbn [insert_sorted] in E.
  { simplify_eq. apply list_elem_of_singleton in Hz as ->. apply Hirr. }
  destruct (less w x) eqn:Ew; simplify_eq.
  - apply elem_of_cons in Hz as [->|Hz]; [by apply ready_less_asym|]. by apply (Hl y l).
  - apply elem_of_cons in Hz as [->|Hz]; [apply Hirr|]. eapply ready_le_trans; [exact Ew|]. by apply (Hl w l).
Qed.

Lemma sort_slice_head l : ∀ y l', sort_slice less l = y :: l' → ∀ z, z ∈ l → less z y = false.
Proof.
  induction l as [|x l IH]; intros y l' E z Hz; [done|]. unfold sort_slice in E. cbn [foldr] in E. fold (sort_slice less l) in E.
  eapply insert_sorted_head; [|exact E|]; [|by rewrite (sort_slice_perm less l)].
  intros y' l'' E' z' Hz'. rewrite sort_slice_perm in Hz'. by eapply IH.
Qed.

Lemma sorting_least : pops_least less sorting_pop (λ _, True) id.
Proof.
  intros q x q' _ H y Hy. unfold sorting_pop in H. destruct (sort_slice less q) eqn:E; [done|]. cbn in H. simplify_eq.
  by eapply sort_slice_head.
Qed.

Lemma kahn_any_order children fuel l1 l2 m : l1 ≡ₚ l2 →
  kahn_loop (heap_pop less) (heap_push less) children fuel (foldl (λ q id, heap_push less id q) [] l1) m =
  kahn_loop sorting_pop sorting_push children fuel (foldl (λ q id, sorting_push id q) [] l2) m.
Proof.
  intros Hl. apply (kahn_same _ _ _ _ heap_good (λ _, True) id id heap_laws sorting_laws less ready_less_total heap_least sorting_least).
  assert (heap_good []) as H0 by (intros k Hk; cbn in Hk; lia).
  destruct (push_all _ _ _ _ heap_laws l1 [] H0) as [H1 E1]. destruct (push_all _ _ _ _ sorting_laws l2 [] I) as [H2 E2].
  split_and!; [done..|]. rewrite E1, E2, !app_nil_r. done.
Qed.
End ready.

Definition batchSIReadySlice (less : string → string → bool)
    : list string * (list string → option (string * list string)) * (string → list string → list string) :=
  ([], λ ready, slice_pop (sort_slice less ready), λ id ready, ready ++ [id]).

(** OFAS with a slice of ready transactions that is sorted again at every step. *)
Definition reference_ofas (items : list batchSITxDescriptor) (priorityMode : string)
    : list batchSITxDescriptor * list batchSITxDescriptor * Z := ofas_order batchSIReadySlice items priorityMode.

(** C19: OFAS as the program computes it, with a heap of the ready transactions,
    keeps, orders and aborts the transactions of every batch as the algorithm that
    sorts the ready transactions again for each one it takes. *)
Theorem ofas_equivalent (items : list batchSITxDescriptor) (priorityMode : string) :
  batchSIOFASOrder items priorityMode = reference_ofas items priorityMode.
Proof.
  unfold batchSIOFASOrder, reference_ofas, ofas_order, batchSIReadyHeap, batchSIReadySlice.
  set (t := ofas_tables_of items). set (higher := higherPriority priorityMode t). set (priority := sort_slice higher items).
  set (p := ofas_pass_of items priority t). set (so := op_sortOrder p). set (pi := priority_index priority).
  enough (∀ fuel active aborted, ofas_rounds [] (heap_pop (ready_less so pi)) (heap_push (ready_less so pi))
      (ot_dependencyEdges t) (by_id items) higher fuel active aborted =
    ofas_rounds [] (sorting_pop so pi) sorting_push (ot_dependencyEdges t) (by_id items) higher fuel active aborted) as H.
  { unfold sorting_pop, sorting_push in H. by rewrite H. }
  induction fuel as [|fuel IH]; intros active aborted; cbn [ofas_rounds]; [done|].
  assert (topological_ids [] (heap_pop (ready_less so pi)) (heap_push (ready_less so pi)) (ot_dependencyEdges t) active =
    topological_ids [] (sorting_pop so pi) sorting_push (ot_dependencyEdges t) active) as ->.
  { unfold topological_ids. by apply kahn_any_order. }
  case_bool_decide; [done|]. destruct (filter _ _); [done|]. apply IH.
Qed.

Lemma ready_heap_ok : queue_ok batchSIReadyHeap.
Proof. intros so pi. exists (heap_good so pi), id. split_and!; [apply heap_laws|intros k Hk; cbn in Hk; lia|done]. Qed.

(** ** The dependency graph *)

Definition graph_ok (ids : gset string) (g : gmap string (gset string) * gmap string Z) : Prop :=
  dom g.2 = ids ∧ ∀ c, c ∈ ids → zget g.2 c = Z.of_nat (size (parents ids g.1 c)).

Lemma graph_edge_ok wk item key ids g : graph_ok ids g → ds_TxID item ∈ ids → (sget wk key ≠ "" → sget wk key ∈ ids) →
  let g' := graph_edge wk item g key in
  graph_ok ids g' ∧
  ∀ p w, w ∈ edges_of g'.1 p ↔ w ∈ edges_of g.1 p ∨ (p = ds_TxID item ∧ precedes_by wk item [key] w).
Proof.
  intros [Hdom Hdeg] Hid Hw. destruct g as [edges m]. cbn [fst snd] in *. unfold graph_edge. cbv zeta.
  set (w0 := sget wk key) in *. destruct (_ || _ || _ || _) eqn:E.
  - split; [by split|]. intros p w. cbn [fst]. split; [by left|]. intros [?|(-> & [Hw1 Hw2] & k & ->%list_elem_of_singleton & Hk & <-)]; [done|].
    fold w0 in Hw1, Hw2 |- *. unfold batchSIStringSet in E. rewrite !orb_true_iff, !bool_decide_eq_true, elem_of_list_to_set in E. naive_solver.
  - unfold batchSIStringSet in E. rewrite !orb_false_iff, !bool_decide_eq_false, elem_of_list_to_set in E. destruct E as [[[Hk Hne] Hself] Hnew].
    split.
    + split; cbn [fst snd]; [by apply dom_bump; [apply Hw|]|]. intros c Hc. rewrite zget_bump, Hdeg by done.
      assert (parents ids (<[ds_TxID item := {[w0]} ∪ edges_of edges (ds_TxID item)]> edges) c =
        if decide (w0 = c) then {[ds_TxID item]} ∪ parents ids edges c else parents ids edges c) as ->.
      { apply set_eq. intros p. unfold parents. rewrite elem_of_filter, edges_of_insert.
        repeat case_decide; subst; rewrite ?elem_of_union, ?elem_of_filter; set_solver. }
      case_decide as Ec; [|done]. rewrite size_union, size_singleton; [lia|].
      unfold parents. intros p ->%elem_of_singleton [Hp _]%elem_of_filter. by rewrite Ec in Hnew.
    + intros p w. cbn [fst]. rewrite edges_of_insert. unfold precedes_by. fold w0. case_decide; subst; set_solver.
Qed.

Lemma graph_reads_ok wk item ids keys : ∀ g, graph_ok ids g → ds_TxID item ∈ ids →
  (∀ key, key ∈ keys → sget wk key ≠ "" → sget wk key ∈ ids) →
  let g' := foldl (graph_edge wk item) g keys in
  graph_ok ids g' ∧
  ∀ p w, w ∈ edges_of g'.1 p ↔ w ∈ edges_of g.1 p ∨ (p = ds_TxID item ∧ precedes_by wk item keys w).
Proof.
  induction keys as [|key keys IH]; intros g Hg Hid Hw; cbn [foldl].
  { split; [done|]. unfold precedes_by. set_solver. }
  destruct (graph_edge_ok wk item key ids g Hg Hid) as [Hg1 He1]; [apply Hw; left|].
  destruct (IH _ Hg1 Hid) as [Hg2 He2]; [intros; apply Hw; [by right|done]|].
  split; [done|]. intros p w. rewrite He2, He1. unfold precedes_by. set_solver.
Qed.

Definition item_ids (items : list batchSITxDescriptor) : gset string := list_to_set (ds_TxID <$> items).

Lemma writer_known items key : sget (writers items) key ≠ "" → sget (writers items) key ∈ item_ids items.
Proof. intros (d & Hd & <- & _)%writer_item. apply elem_of_list_to_set. by apply list_elem_of_fmap_2. Qed.

Lemma graph_of_ok items :
  graph_ok (item_ids items) (graph_of items) ∧ ∀ p w, w ∈ edges_of (graph_of items).1 p ↔ depends items p w.
Proof.
  unfold graph_of, depends. set (zero := foldl (λ m d, <[ds_TxID d := 0]> m) ∅ items).
  assert (dom zero = item_ids items ∧ ∀ c, zget zero c = 0) as [Hdom Hzero].
  { unfold zero, item_ids. assert (∀ l (m : gmap string Z), (∀ c, zget m c = 0) →
      dom (foldl (λ m d, <[ds_TxID d := 0]> m) m l) = list_to_set (ds_TxID <$> l) ∪ dom m ∧
      ∀ c, zget (foldl (λ m d, <[ds_TxID d := 0]> m) m l) c = 0) as H.
    { induction l as [|d l IH]; intros m Hm; cbn [foldl]; [set_solver|].
      destruct (IH (<[ds_TxID d := 0]> m)) as [-> H2]; [intros c; rewrite zget_insert; by case_decide|].
      split; [rewrite dom_insert_L; set_solver|done]. }
    destruct (H items ∅) as [-> H2]; [done|]. split; [set_solver|done]. }
  set (wk := writers items). set (f := λ acc item, foldl (graph_edge wk item) acc (ds_ReadKeys item)).
  assert (∀ l g, l ⊆ items → graph_ok (item_ids items) g →
    graph_ok (item_ids items) (foldl f g l) ∧
    ∀ p w, w ∈ edges_of (foldl f g l).1 p ↔ w ∈ edges_of g.1 p ∨ ∃ r, r ∈ l ∧ ds_TxID r = p ∧ precedes_by wk r (ds_ReadKeys r) w) as H.
  { induction l as [|r l IH]; intros g Hl Hg; cbn [foldl]; [split; [done|]; set_solver|].
    destruct (graph_reads_ok wk r (item_ids items) (ds_ReadKeys r) g Hg) as [Hg1 He1].
    - apply elem_of_list_to_set, list_elem_of_fmap_2, Hl. left.
    - intros key _. apply writer_known.
    - fold (f g r) in Hg1, He1. destruct (IH (f g r)) as [Hg2 He2]; [set_solver|done|]. split; [done|].
      intros p w. rewrite He2, He1. set_solver. }
  destruct (H items (∅, zero)) as [H1 H2]; [done| |split; [done|]].
  - split; [done|]. intros c Hc. rewrite Hzero. unfold parents. cbn [fst]. replace (filter _ _) with (∅ : gset string); [done|].
    apply set_eq. intros p. rewrite elem_of_filter. unfold edges_of. rewrite lookup_empty. cbn. set_solver.
  - intros p w. rewrite H2. unfold edges_of at 1. cbn [fst]. rewrite lookup_empty. cbn. set_solver.
Qed.

Lemma slice_laws : queue_laws slice_pop slice_push (λ _, True) id.
Proof.
  split.
  - by intros [|].
  - intros [|y q] x q' _ H; [done|]. cbn in H. by simplify_eq.
  - intros q x _. split; [done|]. unfold slice_push, id. rewrite sort_strings_perm. by rewrite Permutation_app_comm.
Qed.

Lemma items_named (items : list batchSITxDescriptor) (ids : list string) : ids ⊆ ds_TxID <$> items → ∃ l, ids = ds_TxID <$> l ∧ l ⊆ items.
Proof.
  induction ids as [|x ids IH]; intros Hsub; [exists []; split; [done|]; set_solver|].
  destruct IH as (l & -> & Hl); [set_solver|].
  destruct (list_elem_of_fmap_1 ds_TxID items x) as (d & -> & Hd); [apply Hsub; left|]. exists (d :: l). set_solver.
Qed.

Lemma topological_order_spec items : batch_ok items →
  let '(ordered, cyclic, _) := batchSITopologicalOrder items in
  ordered ⊆ items ∧ cyclic ⊆ items ∧ StronglySorted untouched ordered ∧ (cyclic = [] → ordered ≡ₚ items).
Proof.
  intros Hb. destruct (graph_of_ok items) as [[Hdom Hdeg] Hedges]. unfold batchSITopologicalOrder.
  destruct (graph_of items) as [edges m]. cbn [fst snd] in *.
  set (ids := kahn_loop slice_pop slice_push (λ id, sort_strings (elements (edges_of edges id))) (length items)
      (sort_strings (ready_ids m)) m).
  assert (∀ p c, c ∈ sort_strings (elements (edges_of edges p)) ↔ c ∈ edges_of edges p) as Hch.
  { intros p c. by rewrite sort_strings_perm, elem_of_elements. }
  assert (∀ p c, c ∈ edges_of edges p → c ∈ item_ids items) as Hknown.
  { intros p c (r & Hr & _ & [Hc _] & key & _ & _ & <-)%Hedges. by apply writer_known. }
  destruct (kahn_spec slice_pop slice_push (λ id, sort_strings (elements (edges_of edges id))) (λ _, True) id slice_laws
    (item_ids items)) with (fuel := length items) (out := @nil string) (q := sort_strings (ready_ids m)) (m := m) as (Hnd & Hin & Htop).
  { intros p _. rewrite sort_strings_perm. apply NoDup_elements. }
  { intros p c _ Hc%Hch. by eapply Hknown. }
  { apply kahn_start; [done|apply sort_strings_perm|done|]. intros c Hc. rewrite Hdeg by done. f_equal. f_equal.
    unfold parents, waiting. apply set_eq. intros p. rewrite !elem_of_filter, Hch. set_solver. }
  fold ids in Hnd, Hin, Htop. cbn [app] in Hnd, Htop.
  assert (ids ⊆ ds_TxID <$> items) as Hsub by (intros x Hx; by apply Hin, elem_of_list_to_set in Hx).
  destruct (items_named items ids Hsub) as (l & El & Hl).
  assert (dget (by_id items) <$> ids = l) as Ed by (rewrite El; by apply dget_ids; [apply Hb|]).
  split_and!.
  - by rewrite Ed.
  - case_bool_decide; [set_solver|]. intros d. rewrite list_elem_of_filter. tauto.
  - apply (topological_untouched items edges); [done..|by intros p w; apply Hedges|].
    intros l1 y l2 p E Hp Hy. specialize (Htop l1 y l2 E). apply dec_stable. intros Hl1.
    assert (p ∈ waiting (λ id, sort_strings (elements (edges_of edges id))) (item_ids items) y l1) as Hw.
    { apply elem_of_filter. rewrite Hch. split; [done|]. apply elem_of_difference. rewrite elem_of_list_to_set. split; [by apply Hin|done]. }
    rewrite Htop in Hw. set_solver.
  - rewrite Ed. assert (NoDup l) as Hndl by (rewrite El in Hnd; by eapply NoDup_fmap_1). intros Hc.
    apply submseteq_length_Permutation; [by apply NoDup_submseteq|]. case_bool_decide as Hlen; [by rewrite Hlen|].
    apply submseteq_length, NoDup_submseteq; [eapply NoDup_fmap_1, Hb|]. intros d Hd.
    destruct (decide (ds_TxID d ∈ ds_TxID <$> l)) as [(d' & E & Hd')%list_elem_of_fmap|Hn].
    + rewrite (ids_inj items d d'); [done|apply Hb|done|by apply Hl|done].
    + assert (d ∈ filter (λ d, ds_TxID d ∉ ds_TxID <$> l) items) as Hf by (by apply list_elem_of_filter).
      rewrite Hc in Hf. by apply elem_of_nil in Hf.
Qed.

Lemma remove_perm items d : NoDup (ds_TxID <$> items) → d ∈ items →
  items ≡ₚ d :: filter (λ x, ds_TxID x ≠ ds_TxID d) items.
Proof.
  intros Hnd Hd. apply NoDup_Permutation; [by eapply NoDup_fmap_1| |].
  - constructor; [rewrite list_elem_of_filter; tauto|]. apply NoDup_filter. by eapply NoDup_fmap_1.
  - intros x. rewrite elem_of_cons, list_elem_of_filter. split; [|intros [->|[_ ?]]; done]. intros Hx.
    destruct (decide (ds_TxID x = ds_TxID d)) as [E|E]; [left|by right]. by eapply ids_inj.
Qed.

Lemma batch_ok_sub items d : batch_ok items → d ∈ items → batch_ok (filter (λ x, ds_TxID x ≠ ds_TxID d) items).
Proof.
  intros [H1 H2 H3] Hd. pose proof (remove_perm items d H1 Hd) as Hp. split.
  - rewrite Hp, fmap_cons in H1. by apply NoDup_cons in H1 as [_ ?].
  - intros x [_ Hx]%list_elem_of_filter. by apply H2.
  - unfold batch_keys in *. rewrite Hp, bind_cons in H3. by apply NoDup_app in H3 as (_ & _ & ?).
Qed.

Lemma dependency_rounds_spec fuel : ∀ active aborted totalEdges, batch_ok active → (length active < fuel)%nat →
  let '(ordered, aborted', _) := dependency_rounds fuel active aborted totalEdges in
  ∃ removed, aborted' = aborted ++ removed ∧ ordering_of active ordered removed.
Proof.
  induction fuel as [|fuel IH]; intros active aborted totalEdges Hb Hf; [lia|]. cbn [dependency_rounds].
  pose proof (topological_order_spec active Hb) as Ht.
  destruct (batchSITopologicalOrder active) as [[ordered cyclic] edges]. destruct Ht as (Hsub & Hcyc & Hs & Hperm).
  destruct (sort_slice _ cyclic) as [|victim rest] eqn:E.
  - exists []. rewrite app_nil_r. split; [done|]. split; [|done]. rewrite app_nil_r. apply Hperm.
    apply Permutation_nil_r. by rewrite <- E, sort_slice_perm.
  - assert (victim ∈ active) as Hv by (apply Hcyc; erewrite <- sort_slice_perm, E; left).
    pose proof (remove_perm active victim (bo_ids _ Hb) Hv) as Hp.
    specialize (IH (filter (λ d, ds_TxID d ≠ ds_TxID victim) active) (aborted ++ [victim]) (totalEdges + edges)
      (batch_ok_sub active victim Hb Hv)).
    destruct (dependency_rounds fuel _ _ _) as [[ordered' aborted'] n]. destruct IH as (removed & -> & Hr & Hs').
    { apply Permutation_length in Hp. cbn in Hp. lia. }
    exists (victim :: removed). split; [by rewrite <- app_assoc|]. split; [|done].
    rewrite <- Permutation_middle, Hr. by rewrite Hp at 2.
Qed.

Lemma dependency_ordering items : batch_ok items →
  let '(ordered, aborted, _) := batchSIDependencyGraphOrder items in ordering_of items ordered aborted.
Proof.
  intros Hb. unfold batchSIDependencyGraphOrder. pose proof (dependency_rounds_spec (S (length items)) items [] 0 Hb) as H.
  destruct (dependency_rounds _ _ _ _) as [[o a] n]. destruct H as (removed & -> & Ho); [lia|]. done.
Qed.

(** ** The order in which maps are visited *)

Lemma higher_spec mode t a b : higherPriority mode t a b = true ↔
  let wr d := zget (ot_writerReadCount t) (ds_TxID d) in
  let tr d := zget (ot_transactionReadCount t) (ds_TxID d) in
  if mode ≟ BatchSIPriorityTxID then str_less (ds_TxID a) (ds_TxID b) = true
  else wr a < wr b ∨ (wr a = wr b ∧ (tr b < tr a ∨ (tr a = tr b ∧
         (ds_IDRank a < ds_IDRank b ∨ (ds_IDRank a = ds_IDRank b ∧ str_less (ds_TxID a) (ds_TxID b) = true))))).
Proof. unfold higherPriority. repeat case_bool_decide; cbn [negb]; rewrite ?Z.ltb_lt; intuition lia. Qed.

Lemma higher_total mode t a b : ds_TxID a ≠ ds_TxID b →
  higherPriority mode t a b = true ∨ higherPriority mode t b a = true.
Proof.
  intros Hne. rewrite !higher_spec. cbv zeta. pose proof (str_less_total _ _ Hne). case_bool_decide; [done|].
  destruct (Z.lt_trichotomy (zget (ot_writerReadCount t) (ds_TxID a)) (zget (ot_writerReadCount t) (ds_TxID b))) as [?|[?|?]]; [tauto| |tauto].
  destruct (Z.lt_trichotomy (zget (ot_transactionReadCount t) (ds_TxID a)) (zget (ot_transactionReadCount t) (ds_TxID b))) as [?|[?|?]];
    [intuition congruence| |intuition congruence].
  destruct (Z.lt_trichotomy (ds_IDRank a) (ds_IDRank b)) as [?|[?|?]]; intuition congruence.
Qed.

Lemma higher_trans mode t a b c :
  higherPriority mode t a b = true → higherPriority mode t b c = true → higherPriority mode t a c = true.
Proof.
  rewrite !higher_spec. cbv zeta. pose proof (str_less_trans (ds_TxID a) (ds_TxID b) (ds_TxID c)).
  case_bool_decide; [tauto|]. intuition lia.
Qed.

Lemma higher_irrefl mode t a : higherPriority mode t a a = false.
Proof.
  destruct (higherPriority mode t a a) eqn:E; [|done]. apply higher_spec in E. cbv zeta in E.
  rewrite str_less_irrefl in E. case_bool_decide; [done|]. intuition (lia || done).
Qed.

(** Nobody in the list has a lower priority than the one that is picked. *)
Lemma lowest_spec mode t byID rest : ∀ first, (∀ id, ds_TxID (dget byID id) = id ∨ id ∉ first :: rest) →
  ∀ id, id ∈ first :: rest →
    let v := lowest (higherPriority mode t) byID first rest in
    id = v ∨ higherPriority mode t (dget byID id) (dget byID v) = true.
Proof.
  induction rest as [|x rest IH]; intros first Hid id Hin; [left; by apply list_elem_of_singleton in Hin|].
  unfold lowest. cbn [foldl]. set (y := if higherPriority mode t (dget byID first) (dget byID x) then x else first).
  fold (lowest (higherPriority mode t) byID y rest).
  assert (y = first ∨ y = x) as Hy by (unfold y; destruct (higherPriority _ _ _ _); auto).
  assert (∀ z, z = first ∨ z = x → z = y ∨ higherPriority mode t (dget byID z) (dget byID y) = true) as Hz.
  { intros z Hz. unfold y. destruct (higherPriority mode t (dget byID first) (dget byID x)) eqn:E; [naive_solver|].
    destruct Hz as [->| ->]; [by left|]. destruct (decide (x = first)) as [->|Hne]; [by left|right].
    destruct (higher_total mode t (dget byID first) (dget byID x)) as [?|?]; [|congruence|done].
    destruct (Hid first) as [->|Hn]; [|by destruct Hn; left]. destruct (Hid x) as [->|Hn]; [congruence|]. destruct Hn. set_solver. }
  assert (∀ id, ds_TxID (dget byID id) = id ∨ id ∉ y :: rest) as Hid'.
  { intros i. destruct (Hid i) as [?|Hn]; [by left|right]. set_solver. }
  assert (id ∈ y :: rest ∨ (id = first ∨ id = x)) as [H|H] by set_solver; [by apply IH|].
  destruct (Hz id H) as [->|Hh]; [apply IH; [done|left]|].
  destruct (IH y Hid' y) as [E|E]; [left| |]; cbv zeta in E |- *; [rewrite <- E; by right|right]. by eapply higher_trans.
Qed.

(** Planning does not depend on the order in which Go visits a map: the batch
    WRBP picks is the same for every order of a key's opportunities, a turn of OFAS
    gives the same order of ids whatever the order in which the ready ones enter the
    heap, and the transaction it removes from a cycle is the same for every order of
    the cycle's participants. *)
Theorem planning_order_free :
  (∀ first keys current opps l, let ks := first :: keys in let maximum := maximum_batch current ks in
     l ≡ₚ elements (opportunity opps first) →
     let best := foldl (consider ks current opps maximum) 0 l in
     (if at_least_one current first =? maximum then consider ks current opps maximum best maximum
      else foldl (consider ks current opps maximum) best
             (seqZ (at_least_one current first) (maximum - at_least_one current first))) =
     batchSIWRBPMinIntersection ks current opps maximum) ∧
  (∀ so pi edges active l, l ≡ₚ ready_ids (active_indegree active edges) →
     kahn_loop (heap_pop (ready_less so pi)) (heap_push (ready_less so pi)) (active_children active edges) (size active)
       (foldl (λ q id, heap_push (ready_less so pi) id q) [] l) (active_indegree active edges) =
     topological_ids [] (heap_pop (ready_less so pi)) (heap_push (ready_less so pi)) edges active) ∧
  (∀ mode t items first rest first' rest',
     NoDup (ds_TxID <$> items) → first :: rest ≡ₚ first' :: rest' → first :: rest ⊆ ds_TxID <$> items →
     lowest (higherPriority mode t) (by_id items) first rest = lowest (higherPriority mode t) (by_id items) first' rest').
Proof.
  split_and!.
  - intros first keys current opps l ks maximum Hl best. set (P := available ks current opps maximum).
    assert (least_of P [] 0) as H0 by (left; split; [done|by intros n ?%elem_of_nil]).
    pose proof (consider_all ks current opps maximum l [] 0 H0) as H1. cbn [app] in H1. fold best in H1.
    pose proof (min_intersection_least first keys current opps maximum (proj2 (maximum_batch_bounds current ks))) as H2.
    refine (least_of_unique P (l ++ if at_least_one current first =? maximum then [maximum] else
      seqZ (at_least_one current first) (maximum - at_least_one current first)) _ _ _ _ _ _ H2);
      [by intros n [? _]|intros n _; rewrite !elem_of_app; by rewrite Hl|].
    destruct (_ =? _); [by apply consider_least|by apply consider_all].
  - intros so pi edges active l Hl. unfold topological_ids. by rewrite !(kahn_any_order so pi _ _ _ (ready_ids (active_indegree active edges))).
  - intros mode t items first rest first' rest' Hnd Hp Hsub.
    assert (∀ id, ds_TxID (dget (by_id items) id) = id ∨ id ∉ first :: rest) as Hid.
    { intros id. destruct (decide (id ∈ first :: rest)) as [Hin|?]; [left|by right].
      apply Hsub, list_elem_of_fmap in Hin as (d & -> & Hd). by rewrite dget_by_id. }
    set (v := lowest _ _ first rest). set (v' := lowest _ _ first' rest').
    destruct (lowest_spec mode t (by_id items) rest first Hid v') as [E|E]; [rewrite Hp; apply lowest_in|done|].
    destruct (lowest_spec mode t (by_id items) rest' first') with (id := v) as [E'|E']; [by setoid_rewrite <- Hp|rewrite <- Hp; apply lowest_in|done|].
    fold v v' in E, E'. pose proof (higher_trans _ _ _ _ _ E E') as H. by rewrite higher_irrefl in H.
Qed.
