(* ===== verification/BatchSIBuild.v ===== *)
(** * What a built Batch-SI plan is

    The transactions a plan keeps and the ones it defers are the candidates; a batch
    of the plan is in an order in which nobody reads or writes a key that an earlier
    transaction of the batch declares as written. *)
From S2P Require Import Prelude GoStd Tx Block Heap Serial Reorder BatchSI BatchSIWire BatchSIParts Kahn BatchSIOrder.
Local Open Scope Z_scope.

(** ** Descriptors *)

Record described (shardID : string) (d : batchSITxDescriptor) : Prop := {
  de_id : ds_TxID d = TxID (ds_Item d);
  de_reads : ds_ReadKeys d = (batchSIDeclaredAccess (ds_Item d) shardID).1;
  de_writes : ds_WriteKeys d = (batchSIDeclaredAccess (ds_Item d) shardID).2;
}.

Lemma descriptor_described shardID item n : described shardID (descriptor_of shardID item n) ∧ ds_Item (descriptor_of shardID item n) = item.
Proof. unfold descriptor_of. destruct (batchSIDeclaredAccess item shardID) as [r w] eqn:E. split; [|done]. split; cbn; by rewrite ?E. Qed.

Lemma declared_access_sets item shardID :
  batchSIDeclaredAccess item shardID =
  (batchSISortedKeys (declared_sets item shardID).1, batchSISortedKeys (declared_sets item shardID).2).
Proof. unfold batchSIDeclaredAccess. by destruct (declared_sets item shardID). Qed.

Lemma elem_of_sortedKeys k (s : gset string) : k ∈ batchSISortedKeys s ↔ k ∈ s.
Proof. unfold batchSISortedKeys. by rewrite sort_strings_perm, elem_of_elements. Qed.

Lemma described_nodup shardID d : described shardID d → NoDup (ds_WriteKeys d).
Proof.
  intros [_ _ ->]. rewrite declared_access_sets. cbn [snd]. unfold batchSISortedKeys. rewrite sort_strings_perm. apply NoDup_elements.
Qed.

Record descriptors_of (shardID : string) (items : list SignedTransaction) (ds : list batchSITxDescriptor) : Prop := {
  do_items : ds_Item <$> ds = items;
  do_described : ∀ d, d ∈ ds → described shardID d;
  do_ids : NoDup (ds_TxID <$> ds);
  do_named : ∀ d, d ∈ ds → ds_TxID d ≠ "";
}.

Lemma blank_empty : blank "" = true.
Proof. done. Qed.

Lemma descriptors_loop_spec shardID ordinals items : ∀ index seen seenOrdinals ds,
  descriptors_loop shardID ordinals index items seen seenOrdinals = inr ds →
  descriptors_of shardID items ds ∧ ∀ d, d ∈ ds → ds_TxID d ∉ seen.
Proof.
  induction items as [|item items IH]; intros index seen so ds H; cbn [descriptors_loop] in H.
  { simplify_eq. split; [split; [done|..]|]; try (by intros d ?%elem_of_nil). constructor. }
  destruct (blank (TxID item)) eqn:Eb; [done|]. case_bool_decide as Hseen; [done|]. cbv zeta in H.
  destruct (_ && _); [done|]. case_bool_decide; [done|]. destruct (descriptors_loop _ _ _ _ _ _) as [?|out] eqn:E; [done|].
  cbn in H. simplify_eq. apply IH in E as [[H1 H2 H3 H4] H5].
  match goal with |- context [descriptor_of _ _ ?z] => generalize z end. intros n.
  destruct (descriptor_described shardID item n) as [Hd Hi]. assert (ds_TxID (descriptor_of shardID item n) = TxID item) as Eid.
  { by rewrite (de_id _ _ Hd), Hi. }
  split; [split|].
  - by rewrite fmap_cons, Hi, H1.
  - intros d [->|Hin]%elem_of_cons; auto.
  - rewrite fmap_cons. constructor; [|done]. intros (d & E & Hin)%list_elem_of_fmap. apply (H5 d Hin). rewrite <- E, Eid.
    apply elem_of_union_l, elem_of_singleton. done.
  - intros d [->|Hin]%elem_of_cons; [|auto]. rewrite Eid. intros E. by rewrite E, blank_empty in Eb.
  - intros d [->|Hin]%elem_of_cons; [by rewrite Eid|]. intros Hs. apply (H5 d Hin). by apply elem_of_union_r.
Qed.

Lemma descriptors_spec items ordinals shardID ds normalized :
  batchSIDescriptors items ordinals shardID = inr (ds, normalized) →
  ∃ ds', ds ≡ₚ ds' ∧ descriptors_of shardID items ds' ∧ normalized = list_to_map ((λ d, (ds_TxID d, ds_IDRank d)) <$> ds').
Proof.
  unfold batchSIDescriptors. destruct (descriptors_loop _ _ _ _ _ _) as [?|out] eqn:E; [done|]. cbn. intros [= <- <-].
  exists out. split_and!; [apply sort_slice_perm|by apply descriptors_loop_spec in E as [? _]|done].
Qed.

(** ** One batch *)

Lemma order_partition_spec config p : batch_ok (pt_Txs p) →
  let r := order_partition config p in ordering_of (pt_Txs p) (pt_Txs r.1.1) r.1.2 ∧ pt_Number r.1.1 = pt_Number p.
Proof.
  intros Hb. unfold order_partition. case_bool_decide.
  - pose proof (dependency_ordering _ Hb) as H0. by destruct (batchSIDependencyGraphOrder _) as [[o a] n].
  - pose proof (ofas_ordering _ _ (bc_PriorityMode config) ready_heap_ok Hb) as H0.
    unfold batchSIOFASOrder. by destruct (ofas_order _ _ _) as [[o a] n].
Qed.

Lemma partition_items_spec config items : Forall (λ d, NoDup (ds_WriteKeys d)) items →
  partitions_of items (partition_items config items).1.
Proof. intros H. unfold partition_items. case_bool_decide; [by apply sequential_partitions|by apply wrbp_partitions]. Qed.

Lemma batch_ok_of ids items ps p : descriptors_of ids items (p ← ps; pt_Txs p) → p ∈ ps → NoDup (batch_keys (pt_Txs p)) →
  batch_ok (pt_Txs p).
Proof.
  intros [_ _ H3 H4] Hp Hk. split; [|intros d Hd; apply H4; apply list_elem_of_bind; by exists p|done].
  apply elem_of_Permutation in Hp as [ps' Hps]. rewrite Hps, bind_cons, fmap_app in H3. by apply NoDup_app in H3 as [? _].
Qed.

Lemma ordered_perm config ps : (∀ p, p ∈ ps → batch_ok (pt_Txs p)) →
  (r ← order_partition config <$> ps; pt_Txs r.1.1) ++ (r ← order_partition config <$> ps; r.1.2) ≡ₚ (p ← ps; pt_Txs p).
Proof.
  induction ps as [|p ps IH]; intros Hok; [done|]. rewrite !fmap_cons, !bind_cons.
  destruct (order_partition_spec config p (Hok p ltac:(left))) as [[Hp _] _].
  rewrite <- IH by (intros; apply Hok; by right). rewrite <- Hp. solve_Permutation.
Qed.

Lemma bind_filter_nonempty ps : (p ← filter (λ p, pt_Txs p ≠ []) ps; pt_Txs p) = (p ← ps; pt_Txs p).
Proof.
  induction ps as [|p ps IH]; [done|]. rewrite filter_cons, bind_cons. case_decide as H; [by rewrite bind_cons, IH|].
  rewrite IH. destruct (pt_Txs p) eqn:E; done.
Qed.

Lemma by_id_values l : NoDup (ds_TxID <$> l) → (map_to_list (by_id l)).*2 ≡ₚ l.
Proof.
  unfold by_id. induction l as [|d l IH] using rev_ind; intros Hnd; [done|]. rewrite foldl_app. cbn [foldl].
  rewrite fmap_app in Hnd. apply NoDup_app in Hnd as (Hnd & Hd & _). rewrite map_to_list_insert.
  - rewrite fmap_cons, IH by done. cbn [snd]. by rewrite Permutation_app_comm.
  - destruct (foldl _ _ l !! ds_TxID d) as [x|] eqn:E; [exfalso|done].
    assert (∀ k x, foldl (λ m d, <[ds_TxID d := d]> m) (∅ : gmap string batchSITxDescriptor) l !! k = Some x →
      k ∈ ds_TxID <$> l) as H.
    { clear. induction l as [|y l IH] using rev_ind; intros k x; [cbn [foldl]; by rewrite lookup_empty|].
      rewrite foldl_app, fmap_app. cbn [foldl]. rewrite lookup_insert. case_decide; [set_solver|]. intros ?%IH. set_solver. }
    apply H in E. apply (Hd _ E). left.
Qed.

(** ** The plan *)

Lemma items_of_copied {A} (l : list A) : items_of (copied_slice l) = l.
Proof. by destruct l. Qed.

Definition batch_of (p : batchSIPartition) : BatchSIBatch := MkBatch (pt_Number p) (copied_slice (ds_TxID <$> pt_Txs p)).

Lemma numbered_batches ps : (numbered_ids (batch_of <$> ps)).*2 = ds_TxID <$> (p ← ps; pt_Txs p).
Proof.
  unfold numbered_ids. induction ps as [|p ps IH]; [done|]. rewrite fmap_cons, !bind_cons, !fmap_app, IH. f_equal.
  cbn [batch_of ba_OrderedTransactionIDs ba_BatchNumber]. rewrite items_of_copied, <- list_fmap_compose.
  apply list_fmap_id.
Qed.

(** [finals] are the batches of the plan, [out] the deferred transactions. *)
Record plan_of (b : Block) (r : BatchSIPlanningResult) (finals : list batchSIPartition) (out : list batchSITxDescriptor)
    : Prop := {
  po_all : ∃ ds, (p ← finals; pt_Txs p) ++ out ≡ₚ ds ∧ descriptors_of (ShardID b) (TxList b) ds;
  po_sorted : ∀ p, p ∈ finals → StronglySorted untouched (pt_Txs p) ∧ pt_Txs p ≠ [];
  po_batches : bp_Batches (pr_Plan r) = copied_slice (batch_of <$> finals);
  po_ordered : pr_Ordered r = ds_Item <$> (p ← finals; pt_Txs p);
  po_deferred : pr_Deferred r ≡ₚ ds_Item <$> out;
  po_same : bp_DeferredTransactions (pr_Plan r) = pr_Deferred r;
}.

Lemma build_partitions config b ds ds' : ds ≡ₚ ds' → descriptors_of (ShardID b) (TxList b) ds' →
  let sorted := order_partition config <$> (partition_items config ds).1 in
  (r ← sorted; pt_Txs r.1.1) ++ (r ← sorted; r.1.2) ≡ₚ ds' ∧
  ∀ p, p ∈ (λ r, r.1.1) <$> sorted → StronglySorted untouched (pt_Txs p).
Proof.
  intros Hp Hd. destruct (partition_items_spec config ds) as [Hall Hkeys].
  { apply Forall_forall. intros d Hin. eapply described_nodup, (do_described _ _ _ Hd). by rewrite <- Hp. }
  assert (descriptors_of (ShardID b) (ds_Item <$> (p ← (partition_items config ds).1; pt_Txs p))
    (p ← (partition_items config ds).1; pt_Txs p)) as Hd'.
  { destruct Hd as [H1 H2 H3 H4]. split; [done|intros d; rewrite Hall, Hp; auto|by rewrite Hall, Hp|intros d; rewrite Hall, Hp; auto]. }
  assert (∀ p, p ∈ (partition_items config ds).1 → batch_ok (pt_Txs p)) as Hok.
  { intros p Hin. eapply batch_ok_of; [exact Hd'|done|by apply Hkeys]. }
  split; [by rewrite ordered_perm, Hall|]. intros p Hin. rewrite <- list_fmap_compose in Hin.
  apply list_elem_of_fmap in Hin as (q & -> & Hq). destruct (order_partition_spec config q (Hok q Hq)) as [[_ ?] _]. done.
Qed.

Lemma build_spec b config ordinals ms r :
  BuildBatchSIPlanWithOrdinals b config ordinals ms = inr r → ∃ finals out, plan_of b r finals out.
Proof.
  unfold BuildBatchSIPlanWithOrdinals. destruct (ConfigValidate _); [done|]. generalize (Normalized config). clear config.
  intros config. destruct (batchSIDescriptors _ _ _) as [?|[ds normalized]] eqn:Ed; [done|]. cbn [mbind sum_mbind].
  apply descriptors_spec in Ed as (ds' & Hp & Hd & _). pose proof (build_partitions config b ds ds' Hp Hd) as Hb.
  destruct (batchSIBuildAWRT ds) as [awrt refs]. destruct (partition_items config ds) as [ps reuse]. cbn [fst] in Hb. cbv zeta.
  set (sorted := order_partition config <$> ps) in *. destruct Hb as [Hperm Hsorted].
  set (out := r ← sorted; r.1.2) in *. set (finals := filter (λ p, pt_Txs p ≠ []) ((λ r, r.1.1) <$> sorted)).
  change (foldl (λ m d, <[ds_TxID d := d]> m) ∅ out) with (by_id out).
  assert ((p ← finals; pt_Txs p) = (r ← sorted; pt_Txs r.1.1)) as Ef.
  { unfold finals. rewrite bind_filter_nonempty. clear. induction sorted as [|x l IH]; [done|]. by rewrite fmap_cons, !bind_cons, IH. }
  rewrite <- Ef in Hperm. pose proof (do_ids _ _ _ Hd) as Hids. intros [= <-]. exists finals, out. split; cbn [pr_Plan pr_Ordered pr_Deferred].
  - by exists ds'.
  - intros p [Hne Hin]%list_elem_of_filter. auto.
  - done.
  - change (λ p, MkBatch (pt_Number p) (copied_slice (ds_TxID <$> pt_Txs p))) with batch_of. rewrite items_of_copied.
    change (λ nid : Z * string, ds_Item (dget (by_id ds) nid.2)) with ((λ id, ds_Item (dget (by_id ds) id)) ∘ @snd Z string).
    rewrite list_fmap_compose, numbered_batches.
    rewrite <- (dget_ids ds (p ← finals; pt_Txs p)) at 2.
    + by rewrite <- !list_fmap_compose.
    + by rewrite Hp.
    + intros x Hx. rewrite Hp, <- Hperm. set_solver.
  - rewrite sort_slice_perm, by_id_values; [done|]. rewrite <- Hperm, fmap_app in Hids. by apply NoDup_app in Hids as (_ & _ & ?).
  - done.
Qed.

(** ** In terms of transactions *)

(** [t2] declares no access to a key [t1] declares as written. *)
Definition passes_by (shardID : string) (t1 t2 : SignedTransaction) : Prop :=
  ∀ k, k ∈ (batchSIDeclaredAccess t1 shardID).2 →
    (k ∉ (batchSIDeclaredAccess t2 shardID).1) ∧ k ∉ (batchSIDeclaredAccess t2 shardID).2.

Definition plan_txs (p : batchSIPartition) : list SignedTransaction := ds_Item <$> pt_Txs p.

Lemma plan_described b r finals out p d : plan_of b r finals out → p ∈ finals → d ∈ pt_Txs p → described (ShardID b) d.
Proof.
  intros [(ds & Hp & Hd) _ _ _ _] Hin Hx. apply (do_described _ _ _ Hd). rewrite <- Hp. apply elem_of_app. left.
  apply list_elem_of_bind. by exists p.
Qed.

Lemma plan_ids b r finals out : plan_of b r finals out →
  Forall2 (λ batch p, items_of (ba_OrderedTransactionIDs batch) = TxID <$> plan_txs p) (items_of (bp_Batches (pr_Plan r))) finals.
Proof.
  intros Hpl. rewrite (po_batches _ _ _ _ Hpl), items_of_copied. apply Forall2_fmap_l.
  assert (∀ p, p ∈ finals → items_of (ba_OrderedTransactionIDs (batch_of p)) = TxID <$> plan_txs p) as H.
  { intros p Hp. unfold batch_of, plan_txs. cbn [ba_OrderedTransactionIDs]. rewrite items_of_copied, <- list_fmap_compose.
    apply list_fmap_ext. intros i d Hd%list_elem_of_lookup_2. cbn. apply (de_id (ShardID b)). by eapply plan_described. }
  clear Hpl. induction finals as [|p ps IH]; constructor; [apply H; left|]. apply IH. intros q Hq. apply H. by right.
Qed.

Lemma StronglySorted_map {A B} (R : A → A → Prop) (S : B → B → Prop) (f : A → B) l :
  (∀ x y, x ∈ l → y ∈ l → R x y → S (f x) (f y)) → StronglySorted R l → StronglySorted S (f <$> l).
Proof.
  intros H Hs. induction Hs as [|x l Hs IH Hx]; [constructor|]. rewrite fmap_cons. constructor.
  - apply IH. intros y z Hy Hz. apply H; by right.
  - apply Forall_fmap, Forall_forall. intros y Hy. apply H; [left|by right|]. rewrite Forall_forall in Hx. by apply Hx.
Qed.

Lemma plan_passes_by b r finals out p : plan_of b r finals out → p ∈ finals → StronglySorted (passes_by (ShardID b)) (plan_txs p).
Proof.
  intros Hpl Hp. destruct (po_sorted _ _ _ _ Hpl p Hp) as [Hs _]. eapply StronglySorted_map; [|exact Hs].
  intros x y Hx Hy Hu k. pose proof (plan_described _ _ _ _ _ _ Hpl Hp Hx) as [_ _ Ex].
  pose proof (plan_described _ _ _ _ _ _ Hpl Hp Hy) as [_ Er Ew]. rewrite <- Ex, <- Er, <- Ew. apply Hu.
Qed.

Lemma plan_txs_all b r finals out : plan_of b r finals out → (p ← finals; plan_txs p) = pr_Ordered r.
Proof.
  intros Hpl. rewrite (po_ordered _ _ _ _ Hpl). clear. unfold plan_txs. induction finals as [|p ps IH]; [done|].
  by rewrite !bind_cons, fmap_app, IH.
Qed.

Lemma list_bind_fmap_join {A B} (f : A → list B) l : l ≫= f = mjoin (f <$> l).
Proof. induction l as [|x l IH]; [done|]. rewrite bind_cons, IH. done. Qed.

(** C8: A plan keeps or defers every candidate exactly once; its batches list the
    kept transactions in the order of the block, and within a batch no transaction
    declares an access to a key that an earlier one of the batch declares as written,
    for both ways to partition and both ways to order. *)
Theorem planning_sound (b : Block) (config : BatchSIConfig) (ordinals : option (gmap string Z)) (ms : Z * Z)
    (r : BatchSIPlanningResult) :
  BuildBatchSIPlanWithOrdinals b config ordinals ms = inr r →
  pr_Ordered r ++ pr_Deferred r ≡ₚ TxList b ∧
  ∃ batches, mjoin batches = pr_Ordered r ∧
    Forall2 (λ batch txs, items_of (ba_OrderedTransactionIDs batch) = TxID <$> txs) (items_of (bp_Batches (pr_Plan r))) batches ∧
    Forall (StronglySorted (passes_by (ShardID b))) batches.
Proof.
  intros (finals & out & Hpl)%build_spec. split.
  - destruct (po_all _ _ _ _ Hpl) as (ds & Hp & Hd). rewrite (po_ordered _ _ _ _ Hpl), (po_deferred _ _ _ _ Hpl).
    rewrite <- fmap_app, Hp. by rewrite (do_items _ _ _ Hd).
  - exists (plan_txs <$> finals). split_and!.
    + rewrite <- (plan_txs_all _ _ _ _ Hpl). symmetry. apply list_bind_fmap_join.
    + apply Forall2_fmap_r. by eapply plan_ids.
    + apply Forall_fmap, Forall_forall. intros p Hp. by eapply plan_passes_by.
Qed.
