(* ===== verification/BatchSIPool.v ===== *)
(** * The worker pool of a Batch-SI block

    However the sender and the workers interleave, a batch that comes back without
    an error has the results of its jobs in the order of the batch; as long as the
    batch is not finished somebody can take a step, and the number of steps is
    bounded. *)
From S2P Require Import Prelude GoStd Tx Block StateRoot Heap Serial BatchSI BatchSIWire BatchSIExec.

Definition busy_with (w : si_worker) : option nat :=
  match w with SiIdle => None | SiReceived i | SiWorking i => Some i end.

Lemma elem_of_insert_worker (ws : list si_worker) w old new x :
  ws !! w = Some old → x ∈ ws → x = old ∨ x ∈ <[w := new]> ws.
Proof.
  intros Hw (j & Hj)%list_elem_of_lookup_1. destruct (decide (j = w)) as [->|Hne]; [left; congruence|right].
  apply (list_elem_of_lookup_2 _ j). by rewrite list_lookup_insert_ne.
Qed.

Lemma insert_worker_in (ws : list si_worker) w old new : ws !! w = Some old → new ∈ <[w := new]> ws.
Proof. intros Hw%lookup_lt_Some. apply (list_elem_of_lookup_2 _ w). by apply list_lookup_insert_eq. Qed.

Lemma insert_worker_inv (ws : list si_worker) w new x : x ∈ <[w := new]> ws → x = new ∨ x ∈ ws.
Proof.
  intros (j & Hj)%list_elem_of_lookup_1. apply list_lookup_insert_Some in Hj as [(_ & -> & _)|[_ Hj]]; [by left|right].
  by eapply list_elem_of_lookup_2.
Qed.

Section pool.
Context {A : Type} (job : nat → A) (size : nat).

Definition pending (p : si_pool A) (i : nat) : Prop :=
  i ∈ sp_jobs p ∨ ∃ w, w ∈ sp_workers p ∧ busy_with w = Some i.

(** Every task sent is in the channel, with a worker, or done; a worker that has
    dropped one has left an error. *)
Record pool_ok (p : si_pool A) : Prop := {
  pl_length : length (sp_results p) = size;
  pl_results i r : sp_results p !! i = Some (Some r) → r = job i;
  pl_next : (sp_next p ≤ size)%nat;
  pl_select : sp_sender p = SiSelect → (sp_next p < size)%nat;
  pl_bound i : pending p i → (i < size)%nat;
  pl_where i : sp_firstErr p = false → (i < sp_next p)%nat → pending p i ∨ sp_results p !! i = Some (Some (job i));
}.

(** A step that only moves a worker. *)
Lemma pending_move next sender jobs workers w old new results e c i (p := MkSiPool next sender jobs workers results e c) results' e' :
  workers !! w = Some old →
  (pending p i → pending (MkSiPool next sender jobs (<[w := new]> workers) results' e' c) i ∨ busy_with old = Some i) ∧
  (pending (MkSiPool next sender jobs (<[w := new]> workers) results' e' c) i → pending p i ∨ busy_with new = Some i).
Proof.
  intros Hw. unfold pending, p. cbn. split.
  - intros [Hj|(x & Hx & Hb)]; [by do 2 left|]. destruct (elem_of_insert_worker _ _ _ new _ Hw Hx) as [->|Hin]; [by right|].
    left. right. by exists x.
  - intros [Hj|(x & Hx & Hb)]; [by do 2 left|]. apply insert_worker_inv in Hx as [->|Hx]; [by right|]. left. right. by exists x.
Qed.

Lemma si_step_ok c p p' : pool_ok p → si_step job c p = Some p' → pool_ok p'.
Proof.
  intros [Hl Hr Hn Hs Hb Hw]. destruct p as [next sender jobs workers results firstErr cancelled]. cbn in Hl, Hr, Hn, Hs, Hw.
  destruct c as [| | |w|w|w|]; cbn [si_step].
  - destruct sender; try done. destruct (_ <? _)%nat eqn:E; [|done]. apply Nat.ltb_lt in E. intros [= <-].
    split; cbn; try done. intros _. lia.
  - destruct sender; try done. destruct (_ <? _)%nat; [|done]. intros [= <-]. specialize (Hs eq_refl). split; cbn; try done.
    + intros i [Hj|Hx]; [|by apply Hb; right]. cbn in Hj. apply elem_of_app in Hj as [Hj|Hj%list_elem_of_singleton]; [by apply Hb; left|lia].
    + intros i Hf Hi. destruct (decide (i = next)) as [->|Hne]; [by left; left; apply elem_of_app; right; left|].
      destruct (Hw i Hf) as [[Hj|Hx]|Hd]; [lia|left; left; apply elem_of_app; by left|by left; right|by right].
  - destruct sender; try done. destruct cancelled; [|done]. intros [= <-]. by split.
  - destruct (workers !! w) as [[| |]|] eqn:Ew; try done. destruct jobs as [|i jobs]; [done|]. intros [= <-]. split; cbn; try done.
    + intros j [Hj|(x & Hx & Hbx)]; [apply Hb; left; by right|]. cbn in Hx. apply insert_worker_inv in Hx as [->|Hx].
      * cbn in Hbx. simplify_eq. apply Hb. left. left.
      * apply Hb. right. by exists x.
    + intros j Hf Hj. destruct (Hw j Hf Hj) as [[Hin|(x & Hx & Hbx)]|Hd]; [| |by right].
      * cbn in Hin. apply elem_of_cons in Hin as [->|Hin]; [|by left; left]. left. right. exists (SiReceived i).
        split; [by eapply insert_worker_in|done].
      * destruct (elem_of_insert_worker _ _ _ (SiReceived i) _ Ew Hx) as [->|Hin]; [done|]. left. right. by exists x.
  - destruct (workers !! w) as [[|i|]|] eqn:Ew; try done. destruct cancelled; intros [= <-].
    + split; cbn; try done. intros j Hj. eapply pending_move in Hj as [Hj|Hj]; [by apply Hb|done|done].
    + split; cbn; try done.
      * intros j Hj. eapply pending_move in Hj as [Hj|Hj]; [by apply Hb|cbn in Hj; simplify_eq|exact Ew].
        apply Hb. right. exists (SiReceived j). split; [by eapply list_elem_of_lookup_2|done].
      * intros j Hf Hj. destruct (Hw j Hf Hj) as [Hp|Hd]; [|by right].
        eapply (pending_move _ _ _ _ w _ (SiWorking i)) in Hp as [Hp|Hp]; [left; exact Hp| |exact Ew].
        cbn in Hp. simplify_eq. left. right. exists (SiWorking j). split; [by eapply insert_worker_in|done].
  - destruct (workers !! w) as [[| |i]|] eqn:Ew; try done. intros [= <-]. split; cbn; try done.
    + by rewrite length_insert.
    + intros j r Hj. apply list_lookup_insert_Some in Hj as [(-> & E & _)|[_ Hj]]; [by simplify_eq|by apply Hr].
    + intros j Hj. eapply pending_move in Hj as [Hj|Hj]; [by apply Hb|done|done].
    + intros j Hf Hj. destruct (decide (j = i)) as [->|Hne].
      { right. rewrite list_lookup_insert_eq; [done|]. lia. }
      rewrite list_lookup_insert_ne by done. destruct (Hw j Hf Hj) as [Hp|Hd]; [|by right].
      eapply (pending_move _ _ _ _ w _ SiIdle) in Hp as [Hp|Hp]; [left; exact Hp| |exact Ew]. cbn in Hp. congruence.
  - intros [= <-]. by split.
Qed.

Lemma si_run_ok cs : ∀ p p', pool_ok p → si_run job cs p = Some p' → pool_ok p'.
Proof.
  induction cs as [|c cs IH]; intros p p' Hp H; cbn in H; [by simplify_eq|].
  destruct (si_step job c p) as [p1|] eqn:E; [|done]. cbn in H. eapply IH; [|done]. by eapply si_step_ok.
Qed.

Definition start_pool (workerCount : nat) (cancelled : bool) : si_pool A :=
  MkSiPool 0 SiCheck [] (replicate workerCount SiIdle) (replicate size None) false cancelled.

Lemma idle_start n w i : w ∈ replicate n SiIdle → busy_with w ≠ Some i.
Proof. by intros [-> _]%elem_of_replicate. Qed.

Lemma start_ok n c : pool_ok (start_pool n c).
Proof.
  split; cbn; [by rewrite length_replicate| |lia|done| |lia].
  - intros i r [E _]%lookup_replicate. done.
  - intros i [Hj%elem_of_nil|(w & Hw & Hb)]; [done|]. by destruct (idle_start _ _ _ Hw Hb).
Qed.

Lemma settled_pending p i : si_settled p = true → ~ pending p i.
Proof.
  unfold si_settled. intros [Hj%bool_decide_eq_true Hw]%andb_true_iff [H|(w & H & Hb)].
  - apply nil_length_inv in Hj. rewrite Hj in H. by apply elem_of_nil in H.
  - pose proof (forallb_elem _ _ _ Hw H) as Hi. by destruct w.
Qed.

Lemma outcome_results p c rs : pool_ok p → si_outcome p = Some (c, Some rs) → rs = job <$> seq 0 size.
Proof.
  intros [Hl Hr Hn _ _ Hw]. unfold si_outcome. destruct (sp_sender p); [|done|by destruct (si_settled p)].
  destruct (_ && _) eqn:E; [|done]. apply andb_true_iff in E as [E%Nat.leb_le Es].
  destruct (sp_firstErr p) eqn:Ef; [done|]. intros [= _ <-].
  assert (sp_results p = (λ i, Some (job i)) <$> seq 0 size) as ->.
  { apply list_eq. intros i. rewrite list_lookup_fmap. destruct (decide (i < size)%nat) as [Hi|Hi].
    - rewrite lookup_seq_lt by done. destruct (Hw i eq_refl) as [Hp|Hd]; [lia| |done]. by destruct (settled_pending p i Es).
    - rewrite lookup_ge_None_2 by lia. rewrite (lookup_ge_None_2 (seq 0 size)); [done|]. rewrite length_seq. lia. }
  generalize (seq 0 size). clear. intros l. induction l as [|i l IH]; [done|]. rewrite !fmap_cons. cbn. by rewrite IH.
Qed.

(** ** Progress *)

Definition worker_steps (w : si_worker) : nat := match w with SiIdle => 0 | SiReceived _ => 2 | SiWorking _ => 1 end.
Definition workers_steps (ws : list si_worker) : nat := sum_list_with worker_steps ws.

(** How many steps, the end of the context left aside, a batch can still take. *)
Definition steps_left (p : si_pool A) : nat :=
  let unsent := (5 * (length (sp_results p) - sp_next p))%nat in
  (match sp_sender p with SiCheck => unsent | SiSelect => unsent - 1 | SiAborted => 0 end +
   3 * length (sp_jobs p) + workers_steps (sp_workers p))%nat.

Lemma workers_steps_insert (ws : list si_worker) w old new : ws !! w = Some old →
  (workers_steps (<[w := new]> ws) + worker_steps old = workers_steps ws + worker_steps new)%nat.
Proof.
  unfold workers_steps. revert w. induction ws as [|x ws IH]; intros [|w] Hw; cbn in *; simplify_eq; [lia|].
  specialize (IH w Hw). unfold insert in IH |- *. lia.
Qed.

Ltac fields := cbn [sp_results sp_next sp_sender sp_jobs sp_workers].

Lemma si_step_decreases c p p' : pool_ok p → c ≠ SiCancel → si_step job c p = Some p' → (steps_left p' < steps_left p)%nat.
Proof.
  intros [Hl _ Hn Hs _ _] Hc. destruct p as [next sender jobs workers results firstErr cancelled]. cbn in Hl, Hn, Hs.
  unfold steps_left. destruct c as [| | |w|w|w|]; cbn [si_step]; [..|done].
  - destruct sender; try done. destruct (_ <? _)%nat eqn:E; [|done]. apply Nat.ltb_lt in E. intros [= <-]. fields. destruct cancelled; lia.
  - destruct sender; try done. destruct (_ <? _)%nat; [|done]. intros [= <-]. specialize (Hs eq_refl). fields. rewrite length_app; cbn [length]; lia.
  - destruct sender; try done. destruct cancelled; [|done]. intros [= <-]. specialize (Hs eq_refl). fields. lia.
  - destruct (workers !! w) as [[| |]|] eqn:Ew; try done. destruct jobs as [|i jobs]; [done|]. intros [= <-]. fields. cbn [length].
    pose proof (workers_steps_insert _ _ _ (SiReceived i) Ew) as E. cbn in E. lia.
  - destruct (workers !! w) as [[|i|]|] eqn:Ew; try done. intros [= <-].
    pose proof (workers_steps_insert _ _ _ SiIdle Ew) as E1. pose proof (workers_steps_insert _ _ _ (SiWorking i) Ew) as E2.
    cbn in E1, E2. destruct cancelled; fields; lia.
  - destruct (workers !! w) as [[| |i]|] eqn:Ew; try done. intros [= <-]. fields. rewrite length_insert.
    pose proof (workers_steps_insert _ _ _ SiIdle Ew) as E. cbn in E. lia.
Qed.

(** A busy worker can go on. *)
Lemma busy_step p w x : sp_workers p !! w = Some x → si_idle x = false →
  ∃ c p', c ≠ SiCancel ∧ si_step job c p = Some p'.
Proof.
  destruct p as [next sender jobs workers results firstErr cancelled]. cbn [sp_workers]. intros Hw Hx. destruct x as [|i|i]; [done|..].
  - exists (SiLook w). cbn [si_step]. rewrite Hw. by eexists.
  - exists (SiFinish w). cbn [si_step]. rewrite Hw. by eexists.
Qed.

(** When the channel holds a task, a worker can go on. *)
Lemma channel_step p i jobs : sp_jobs p = i :: jobs → sp_workers p ≠ [] →
  ∃ c p', c ≠ SiCancel ∧ si_step job c p = Some p'.
Proof.
  intros Hj Hne. destruct (sp_workers p) as [|x ws] eqn:Ew; [done|]. destruct (si_idle x) eqn:Ei.
  - exists (SiTake 0). destruct p. cbn in *. subst. cbn. destruct x; try done. by eexists.
  - eapply (busy_step p 0); [by rewrite Ew|done].
Qed.

Lemma unsettled_step p : si_settled p = false → sp_workers p ≠ [] → ∃ c p', c ≠ SiCancel ∧ si_step job c p = Some p'.
Proof.
  intros Hs Hne. unfold si_settled in Hs. apply andb_false_iff in Hs as [Hs|Hs].
  - destruct (sp_jobs p) as [|i jobs] eqn:Ej; [done|]. by eapply channel_step.
  - assert (∃ w x, sp_workers p !! w = Some x ∧ si_idle x = false) as (w & x & Hw & Hx).
    { clear Hne. induction (sp_workers p) as [|x ws IH]; [done|]. cbn in Hs. apply andb_false_iff in Hs as [Hs|Hs]; [by exists 0%nat, x|].
      destruct (IH Hs) as (w & y & Hw & Hy). by exists (S w), y. }
    by eapply busy_step.
Qed.

Lemma si_progress p : pool_ok p → sp_workers p ≠ [] → si_outcome p = None → ∃ c p', c ≠ SiCancel ∧ si_step job c p = Some p'.
Proof.
  intros Hp Hne Ho. unfold si_outcome in Ho. destruct (sp_sender p) eqn:Es.
  - destruct (_ <=? _)%nat eqn:E; cbn in Ho.
    + apply unsettled_step; [|done]. by destruct (si_settled p).
    + exists SiCheckCtx. destruct p. cbn in Es, E. cbn [si_step]. rewrite Es. apply Nat.leb_gt, Nat.ltb_lt in E. rewrite E. by eexists.
  - destruct (length (sp_jobs p) <? length (sp_workers p))%nat eqn:E.
    + exists SiSend. destruct p as [next sender jobs workers results e c]. cbn [si_step]. cbn [sp_jobs sp_workers sp_sender] in Es, E. rewrite Es, E. by eexists.
    + apply Nat.ltb_ge in E. destruct (sp_jobs p) as [|i jobs] eqn:Ej; [destruct (sp_workers p); cbn in E; [done|lia]|]. by eapply channel_step.
  - apply unsettled_step; [|done]. by destruct (si_settled p).
Qed.

Lemma step_workers c p p' : si_step job c p = Some p' → sp_workers p ≠ [] → sp_workers p' ≠ [].
Proof.
  intros H Hne. assert (length (sp_workers p') = length (sp_workers p)) as E.
  { destruct p. cbn in H |- *. repeat case_match; simplify_eq; cbn; by rewrite ?length_insert. }
  intros E'. rewrite E' in E. symmetry in E. by apply nil_length_inv in E.
Qed.

(** From every state the batch can be brought to its end. *)
Lemma si_completes : ∀ n p, (steps_left p < n)%nat → pool_ok p → sp_workers p ≠ [] →
  ∃ cs p' r, SiCancel ∉ cs ∧ (length cs <= steps_left p)%nat ∧ si_run job cs p = Some p' ∧ si_outcome p' = Some r.
Proof.
  induction n as [|n IH]; intros p Hn Hp Hne; [lia|]. destruct (si_outcome p) as [r|] eqn:Eo.
  { exists [], p, r. split_and!; [apply not_elem_of_nil|cbn; lia|done|done]. }
  destruct (si_progress p Hp Hne Eo) as (c & p1 & Hc & Hs). pose proof (si_step_decreases _ _ _ Hp Hc Hs) as Hd.
  destruct (IH p1) as (cs & p' & r & H1 & H2 & H3 & H4); [lia|by eapply si_step_ok|by eapply step_workers|].
  exists (c :: cs), p', r. split_and!; [by apply not_elem_of_cons|cbn; lia|cbn; by rewrite Hs|done].
Qed.

(** Without an end of the context there is no error. *)
Definition calm (p : si_pool A) : Prop := sp_cancelled p = false ∧ sp_firstErr p = false ∧ sp_sender p ≠ SiAborted.

Lemma calm_run cs : ∀ p p', SiCancel ∉ cs → calm p → si_run job cs p = Some p' → calm p'.
Proof.
  induction cs as [|c cs IH]; intros p p' Hc Hp H; cbn in H; [by simplify_eq|].
  apply not_elem_of_cons in Hc as [Hc Hcs]. destruct (si_step job c p) as [p1|] eqn:E; [|done]. cbn in H.
  apply (IH p1); [done| |done]. clear -Hc Hp E. destruct p as [next sender jobs workers results firstErr cancelled]. destruct Hp as (H1 & H2 & H3). cbn in H1, H2, H3. subst.
  unfold calm. cbn in E. repeat case_match; simplify_eq; done.
Qed.

Lemma calm_outcome p r : calm p → si_outcome p = Some r → r.1 = false ∧ is_Some r.2.
Proof.
  intros (H1 & H2 & H3) H. unfold si_outcome in H. destruct (sp_sender p); [|done|done]. case_match; [|done].
  rewrite H2 in H. simplify_eq. cbn. by split; [|eexists].
Qed.
End pool.

(** ** A batch *)

Lemma batch_pool_results {A} (job : nat → A) size n cs c c' rs :
  executeBatchWithPool job size n cs c = Some (c', Some rs) → rs = job <$> seq 0 size.
Proof.
  unfold executeBatchWithPool. case_bool_decide as Hz; [intros [= _ <-]; by subst|].
  change (MkSiPool 0 SiCheck [] (replicate n SiIdle) (replicate size None) false c) with (start_pool (A := A) size n c).
  destruct (si_run _ _ _) as [p|] eqn:E; [|done]. apply outcome_results. eapply si_run_ok; [apply start_ok|done].
Qed.

Lemma batch_pool_returns {A} (job : nat → A) size n : (0 < n)%nat →
  ∃ cs, executeBatchWithPool job size n cs false = Some (false, Some (job <$> seq 0 size)).
Proof.
  intros Hn. destruct (decide (size = 0%nat)) as [->|Hz].
  { exists []. done. }
  assert (sp_workers (start_pool (A := A) size n false) ≠ []) as Hw by (destruct n; [lia|done]).
  destruct (si_completes job size _ (start_pool size n false) (Nat.lt_succ_diag_r _) (start_ok job size n false) Hw)
    as (cs & p & r & H1 & _ & H2 & H3).
  destruct (calm_outcome p r) as [E [rs Er]]; [|done|].
  { eapply calm_run; [exact H1| |exact H2]. by split. }
  exists cs. destruct r as [c rs']. cbn in E, Er. subst.
  assert (executeBatchWithPool job size n cs false = Some (false, Some rs)) as E.
  { unfold executeBatchWithPool. rewrite bool_decide_eq_false_2 by done. unfold start_pool in H2. by rewrite H2. }
  by rewrite E, (batch_pool_results _ _ _ _ _ _ _ E).
Qed.
