(* ===== verification/BatchSISerial.v ===== *)
(** * Batches of a plan against one transaction at a time

    The transactions of a batch run side by side on the state the batch starts with.
    When they are in an order in which nobody declares an access to what an earlier
    one declares as written, and they read what they declare, the batch does what
    its transactions do one after the other. *)
From S2P Require Import Prelude GoStd Tx Block StateRoot Heap Serial SerialProps Footprint Reorder BatchSI BatchSIWire BatchSIExec BatchSIParts Kahn BatchSIOrder BatchSIBuild BatchSIPool.
Local Open Scope Z_scope.
#[local] Opaque Sha256.sum256 sha256_hex Json.marshal.

(** ** What an execution depends on *)

Definition si_value (o : batchSIOverlay) (key : string) : string :=
  match si_writes o !! key with Some v => v | None => shard_view (si_shardID o) (si_base o) key end.
Definition si_source (o : batchSIOverlay) (key : string) : string :=
  match si_writes o !! key with Some _ => "batch_si_private_write" | None => "batch_si_batch_snapshot" end.

Lemma si_get_eq key o : batchSIOverlay_get key o =
  (MkSiOverlay (si_shardID o) (si_base o) (si_reads o ++ [observe key (si_value o key) (si_source o key)]) (si_writes o), si_value o key).
Proof. unfold batchSIOverlay_get, si_value, si_source. by destruct (si_writes o !! key). Qed.

Definition same_overlay (K : string → Prop) (o1 o2 : batchSIOverlay) : Prop :=
  si_reads o1 = si_reads o2 ∧ si_writes o1 = si_writes o2 ∧
  ∀ k, K k → shard_view (si_shardID o1) (si_base o1) k = shard_view (si_shardID o2) (si_base o2) k.

Lemma si_interp_same {A} K (p : action A) : ∀ o1 o2, keys_ok K p → same_overlay K o1 o2 →
  let r1 := interp p o1 in let r2 := interp p o2 in
  si_reads r1.1 = si_reads r2.1 ∧ si_writes r1.1 = si_writes r2.1 ∧ r1.2 = r2.2.
Proof.
  induction p as [a|key next IH|key value next IH]; intros o1 o2 Hp (E2 & E3 & Hk); cbn [interp keys_ok] in *; [done|..].
  - destruct Hp as [Hkey Hp]. change (ov_get key o1) with (batchSIOverlay_get key o1). change (ov_get key o2) with (batchSIOverlay_get key o2).
    rewrite !si_get_eq. assert (si_value o1 key = si_value o2 key) as Ev.
    { unfold si_value. rewrite E3. case_match; [done|]. by apply Hk. }
    assert (si_source o1 key = si_source o2 key) as Es by (unfold si_source; by rewrite E3).
    rewrite Ev. apply IH; [done|]. split_and!; cbn; [by rewrite E2, Es|done|done].
  - destruct Hp as [Hkey Hp]. apply (IH (batchSIOverlay_set key value o1) (batchSIOverlay_set key value o2)); [done|].
    split_and!; cbn; [done|by rewrite E3|done].
Qed.

(** ** What a transaction declares *)

Definition si_declared (b : Block) (item : SignedTransaction) (k : string) : Prop :=
  k ∈ (batchSIDeclaredAccess item (ShardID b)).1 ∨ k ∈ (batchSIDeclaredAccess item (ShardID b)).2.

Lemma si_declared_sets b item k :
  si_declared b item k ↔ k ∈ (declared_sets item (ShardID b)).1 ∨ k ∈ (declared_sets item (ShardID b)).2.
Proof. unfold si_declared. rewrite declared_access_sets. cbn. by rewrite !elem_of_sortedKeys. Qed.

Definition access_mode (a : AccessItem) : bool := (ai_Mode a ≟ AccessRead) || writable a.

Lemma declare_access_mono a acc k :
  (k ∈ acc.1 → k ∈ (declare_access acc a).1) ∧ (k ∈ acc.2 → k ∈ (declare_access acc a).2).
Proof. destruct acc as [r w]. cbn. repeat case_bool_decide; cbn; rewrite ?elem_of_union; tauto. Qed.

Lemma declare_fold_mono l : ∀ acc k,
  (k ∈ acc.1 → k ∈ (foldl declare_access acc l).1) ∧ (k ∈ acc.2 → k ∈ (foldl declare_access acc l).2).
Proof.
  induction l as [|a l IH]; intros acc k; [done|]. cbn [foldl]. destruct (IH (declare_access acc a) k), (declare_access_mono a acc k). tauto.
Qed.

Lemma declare_fold_in l : ∀ acc a, a ∈ l → ai_Key a ≠ "" → access_mode a = true →
  ai_Key a ∈ (foldl declare_access acc l).1 ∨ ai_Key a ∈ (foldl declare_access acc l).2.
Proof.
  induction l as [|x l IH]; intros acc a Hin Hne Hm; [by apply elem_of_nil in Hin|]. cbn [foldl].
  apply elem_of_cons in Hin as [->|Hin]; [|by apply IH]. destruct (declare_fold_mono l (declare_access acc x) (ai_Key x)) as [H1 H2].
  enough (ai_Key x ∈ (declare_access acc x).1 ∨ ai_Key x ∈ (declare_access acc x).2) as [?|?] by tauto.
  clear -Hne Hm. destruct acc as [r w]. cbn. unfold access_mode, writable in Hm. rewrite (bool_decide_eq_false_2 _ Hne).
  repeat case_bool_decide; cbn in *; try done; rewrite ?elem_of_union, ?elem_of_singleton; auto.
Qed.

Lemma access_declared b item a : a ∈ AccessList item → ai_Key a ≠ "" → access_mode a = true → si_declared b item (ai_Key a).
Proof.
  intros Hin Hne Hm. rewrite si_declared_sets. unfold declared_sets. destruct (AccessList item) as [|x l] eqn:El; [by apply elem_of_nil in Hin|].
  rewrite <- El in Hin |- *. pose proof (declare_fold_in (AccessList item) (∅, ∅) a Hin Hne Hm) as H. clear El x l.
  destruct (foldl declare_access (∅, ∅) (AccessList item)) as [r w]. cbn in H.
  case_bool_decide; cbn; (destruct (batchSIIsCrossShardTargetCommit _ _); rewrite ?elem_of_union; tauto).
Qed.

(** ** The keys of the programs *)

Section si_keys.
Context (K : string → Prop).

Lemma si_keys_semantic l : (∀ a, a ∈ l → ai_Key a ≠ "" → access_mode a = true → K (ai_Key a)) →
  keys_ok K (batchSIApplyDeclaredSemanticReads l).
Proof.
  induction l as [|a l IH]; intros H; cbn [batchSIApplyDeclaredSemanticReads]; [done|].
  apply keys_ok_bind; [|intros _; apply IH; intros x Hx; apply H; by right].
  destruct (_ && _ && _) eqn:E; [|done]. apply andb_true_iff in E as [[Em Ek%negb_true_iff%bool_decide_eq_false]%andb_true_iff _].
  cbn. split; [|done]. apply H; [left|done|]. unfold access_mode. by rewrite Em.
Qed.

Lemma si_keys_deltas l : (∀ a, a ∈ l → ai_Key a ≠ "" → access_mode a = true → K (ai_Key a)) →
  keys_ok K (si_applyCommutativeDeltas l).
Proof.
  induction l as [|a l IH]; intros H; cbn [si_applyCommutativeDeltas]; [done|].
  assert (keys_ok K (si_applyCommutativeDeltas l)) as Hl by (apply IH; intros x Hx; apply H; by right).
  destruct (_ || _) eqn:E; [done|]. apply orb_false_iff in E as [Em%negb_false_iff Ek%bool_decide_eq_false].
  assert (K (ai_Key a)) by (apply H; [left|done|]; unfold access_mode, writable; by rewrite Em, !orb_true_r). cbn. auto.
Qed.

Lemma si_keys_direct item l : (∀ a, a ∈ l → ai_Key a ≠ "" → access_mode a = true → K (ai_Key a)) →
  keys_ok K (si_apply_direct item l).
Proof.
  induction l as [|a l IH]; intros H; cbn [si_apply_direct]; [done|].
  apply keys_ok_bind; [|intros _; apply IH; intros x Hx; apply H; by right].
  unfold si_direct_access. case_bool_decide as Ek; [done|]. assert (access_mode a = true → K (ai_Key a)) as Ha by (apply H; [left|done]).
  assert (keys_ok K (si_applyCommutativeDeltas [a])) as Hd.
  { apply si_keys_deltas. intros x Hx%list_elem_of_singleton. by subst. }
  unfold access_mode, writable in Ha. repeat case_bool_decide; cbn in Ha; try done; cbn; auto.
Qed.

Lemma si_keys_ensure account balance writes : (∀ k, k ∈ writes → K k) → keys_ok K (ensureDeclaredAccount account balance writes).
Proof.
  intros H. unfold ensureDeclaredAccount. apply keys_ok_bind; [|intros _]; (case_bool_decide as E; [|done]);
    apply H in E; cbn; (split; [done|]); intros v; by case_bool_decide.
Qed.

Lemma si_keys_transfer item sender receiver : K ("nonce:" +:+ sender) → K ("balance:" +:+ sender) → K ("balance:" +:+ receiver) →
  (∀ a, a ∈ AccessList item → ai_Key a ≠ "" → access_mode a = true → K (ai_Key a)) → keys_ok K (si_transfer item sender receiver).
Proof.
  intros Hn Hs Hr Ha. unfold si_transfer. cbn. split; [done|]. intros v. destruct (negb _); [done|]. destruct (_ <=? _); [done|].
  cbn. split; [done|]. intros v1. destruct (_ <? _); [done|]. cbn. split; [done|]. intros v2. split_and!; [done..|]. intros v3.
  split_and!; [done..|]. apply keys_ok_bind; [by apply si_keys_deltas|done].
Qed.
End si_keys.

(** A transfer declares the accounts it moves money between. *)
Definition is_si_transfer (b : Block) (item : SignedTransaction) : bool :=
  negb (batchSIIsPureCommutativeDelta (AccessList item)) && negb (batchSIIsCrossShardTargetCommit item (ShardID b)) &&
  negb (batchSIIsDirectAccessTransaction item).

Definition declares_accounts (b : Block) (item : SignedTransaction) : bool :=
  let '(reads, writes) := batchSIDeclaredAccess item (ShardID b) in
  let '(sender, receiver) := batchSITransferAccounts item in
  negb (is_si_transfer b item) ||
  forallb (λ k, bool_decide (k ∈ reads ++ writes)) ["nonce:" +:+ sender; "balance:" +:+ sender; "balance:" +:+ receiver].

Lemma si_program_keys initial b item : declares_accounts b item = true → keys_ok (si_declared b item) (si_program initial b item).
Proof.
  intros Hd. unfold si_program. assert (∀ a, a ∈ AccessList item → ai_Key a ≠ "" → access_mode a = true → si_declared b item (ai_Key a)) as Ha
    by (by intros; apply access_declared).
  apply keys_ok_bind; [by apply si_keys_semantic|intros _]. unfold declares_accounts, is_si_transfer in Hd.
  destruct (batchSIIsPureCommutativeDelta _); [apply keys_ok_bind; [by apply si_keys_deltas|done]|].
  destruct (batchSIIsCrossShardTargetCommit _ _) eqn:Ec.
  { cbn. split; [|done]. apply si_declared_sets. right. unfold declared_sets. rewrite Ec.
    match goal with |- context [let '(_, _) := ?m in _] => destruct m as [r w] end. cbn. set_solver. }
  destruct (batchSIIsDirectAccessTransaction _); [apply keys_ok_bind; [by apply si_keys_direct|done]|].
  destruct (batchSITransferAccounts item) as [sender receiver]. unfold si_declared in *.
  destruct (batchSIDeclaredAccess item (ShardID b)) as [reads writes]. cbn [fst snd negb andb orb forallb] in *.
  rewrite !andb_true_iff, !bool_decide_eq_true, !elem_of_app in Hd. destruct Hd as (Hn & Hs & Hr & _).
  assert (∀ k, k ∈ batchSIStringSet writes → k ∈ reads ∨ k ∈ writes) as Hw.
  { intros k Hk. right. unfold batchSIStringSet in Hk. by apply elem_of_list_to_set in Hk. }
  apply keys_ok_bind; [by apply si_keys_ensure|intros _]. apply keys_ok_bind; [by apply si_keys_ensure|intros _].
  apply keys_ok_bind; [by apply si_keys_transfer|done].
Qed.

(** ** One after the other *)

Section serial.
Context (initial : Z) (b : Block).

Abbreviation si_item := (SignedTransaction * Z)%type.

Definition si_delta (st : gmap string string) (ix : si_item) : TxDelta :=
  (si_executeTransaction initial b ix.1 st ix.2).2.

(** Each transaction runs on the state the one before it leaves. *)
Fixpoint si_serial (items : list si_item) (w : si_work) : batch_si_error + si_work :=
  match items with
  | [] => inr w
  | ix :: rest => w' ← apply_results (ShardID b) [(ix.1, si_delta (sw_working w) ix)] w; si_serial rest w'
  end.

Lemma si_serial_app l1 l2 : ∀ w, si_serial (l1 ++ l2) w = w' ← si_serial l1 w; si_serial l2 w'.
Proof.
  induction l1 as [|ix l1 IH]; intros w; cbn [app si_serial]; [done|].
  destruct (apply_results _ _ _) as [err|w1]; [done|]. cbn [mbind sum_mbind]. apply IH.
Qed.

Lemma apply_results_cons x rest w :
  apply_results (ShardID b) (x :: rest) w = w' ← apply_results (ShardID b) [x] w; apply_results (ShardID b) rest w'.
Proof. destruct x as [item d]. cbn [apply_results]. by destruct (batchSIValidateDeclaredWrites _ _ _). Qed.

Definition same_view (K : string → Prop) (st1 st2 : gmap string string) : Prop :=
  ∀ k, K k → shard_view (ShardID b) st1 k = shard_view (ShardID b) st2 k.

Lemma si_delta_same st1 st2 ix : declares_accounts b ix.1 = true → same_view (si_declared b ix.1) st1 st2 →
  si_delta st1 ix = si_delta st2 ix.
Proof.
  intros Hd Hs. unfold si_delta, si_executeTransaction.
  destruct (si_interp_same (si_declared b ix.1) (si_program initial b ix.1) (newBatchSIOverlay (ShardID b) st1)
    (newBatchSIOverlay (ShardID b) st2) (si_program_keys initial b ix.1 Hd)) as (E1 & E2 & E3); [by split_and!|].
  destruct (interp _ (newBatchSIOverlay _ st1)) as [o1 r1], (interp _ (newBatchSIOverlay _ st2)) as [o2 r2]. cbn in *. by subst; rewrite E1, E2.
Qed.

(** What is applied are the writes, and they are declared. *)
Lemma apply_one_inv ix d w w' : apply_results (ShardID b) [(ix, d)] w = inr w' →
  sw_working w' = materialize (ShardID b) (td_WriteSet d) (sw_working w) ∧
  ∀ k, is_Some (td_WriteSet d !! k) → k ∈ (batchSIDeclaredAccess ix (ShardID b)).2.
Proof.
  cbn [apply_results]. unfold batchSIValidateDeclaredWrites. destruct (forallb _ _) eqn:E; [|done]. intros [= <-]. split; [done|].
  intros k [v Hv]. assert ((k, v) ∈ map_to_list (td_WriteSet d)) as Hin by by apply elem_of_map_to_list.
  pose proof (forallb_elem _ _ _ E Hin) as Hk. cbn in Hk. apply bool_decide_eq_true in Hk. unfold batchSIStringSet in Hk.
  by apply elem_of_list_to_set in Hk.
Qed.

(** The keys the transactions of a block declare name different cells. *)
Definition si_keys (item : SignedTransaction) : list string :=
  (batchSIDeclaredAccess item (ShardID b)).1 ++ (batchSIDeclaredAccess item (ShardID b)).2.

Definition si_block_keys : list string := elements (list_to_set (mjoin (si_keys <$> TxList b)) : gset string).

Definition si_unaliased : bool :=
  forallb (λ k1, forallb (λ k2,
    (batchSIQualifiedKey (ShardID b) k1 ≠? batchSIQualifiedKey (ShardID b) k2) || (k1 ≟ k2)) si_block_keys) si_block_keys.

Lemma elem_of_block_keys item k : item ∈ TxList b → si_declared b item k → k ∈ si_block_keys.
Proof.
  intros Hi Hk. unfold si_block_keys. apply elem_of_elements, elem_of_list_to_set, list_elem_of_join. exists (si_keys item).
  split; [by apply elem_of_app|by apply list_elem_of_fmap_2].
Qed.

Lemma si_unaliased_inj k1 k2 : si_unaliased = true → k1 ∈ si_block_keys → k2 ∈ si_block_keys →
  qualify (ShardID b) k1 = qualify (ShardID b) k2 → k1 = k2.
Proof.
  intros Ha H1 H2 E. pose proof (forallb_elem _ _ _ (forallb_elem _ _ _ Ha H1) H2) as H. cbn beta in H.
  change (batchSIQualifiedKey (ShardID b)) with (qualify (ShardID b)) in H. rewrite E in H. apply orb_true_iff in H as [H|H].
  - by apply negb_true_iff, bool_decide_eq_false in H.
  - by apply bool_decide_eq_true in H.
Qed.

(** A transaction does not see the writes of one it passes by. *)
Lemma passes_by_view t1 t2 d w w' : si_unaliased = true → t1 ∈ TxList b → t2 ∈ TxList b → passes_by (ShardID b) t1 t2 →
  apply_results (ShardID b) [(t1, d)] w = inr w' → same_view (si_declared b t2) (sw_working w') (sw_working w).
Proof.
  intros Hu H1 H2 Hp [-> Hw]%apply_one_inv k Hk. apply shard_view_materialize_other. intros k1 Hk1%Hw E.
  apply (si_unaliased_inj k1 k Hu) in E as ->; [|apply (elem_of_block_keys t1); [done|by right]|by apply (elem_of_block_keys t2)].
  destruct (Hp k Hk1) as [Hn1 Hn2]. by destruct Hk.
Qed.

Lemma batch_is_serial st items : ∀ w, si_unaliased = true →
  (∀ ix, ix ∈ items → ix.1 ∈ TxList b ∧ declares_accounts b ix.1 = true ∧ same_view (si_declared b ix.1) (sw_working w) st) →
  StronglySorted (passes_by (ShardID b)) items.*1 →
  apply_results (ShardID b) ((λ ix, (ix.1, si_delta st ix)) <$> items) w = si_serial items w.
Proof.
  induction items as [|ix items IH]; intros w Hu Hi Hs; [done|]. rewrite fmap_cons.
  change ((ix :: items).*1) with (ix.1 :: items.*1) in Hs. apply StronglySorted_inv in Hs as [Hs Hx].
  rewrite apply_results_cons. cbn [si_serial]. destruct (Hi ix) as (Hin & Hd & Hv); [left|].
  rewrite (si_delta_same (sw_working w) st ix Hd Hv). destruct (apply_results _ [_] w) as [err|w'] eqn:E; [done|]. cbn [mbind sum_mbind].
  apply IH; [done| |done]. intros jx Hj. destruct (Hi jx) as (Hin' & Hd' & Hv'); [by right|]. split; [done|]. split; [done|].
  intros k Hk. rewrite <- Hv' by done. eapply passes_by_view; [done|exact Hin|exact Hin'| |exact E|done].
  rewrite Forall_forall in Hx. apply Hx. by apply list_elem_of_fmap_2.
Qed.
End serial.

(** ** The loop over the batches *)

Lemma tx_index_fold (l : list (Z * SignedTransaction)) : ∀ (m : gmap string (SignedTransaction * Z)) x,
  NoDup ((λ ix, TxID ix.2) <$> l) → x ∈ l →
  foldl (λ m ix, <[TxID ix.2 := (ix.2, ix.1)]> m) m l !! TxID x.2 = Some (x.2, x.1).
Proof.
  induction l as [|y l IH] using rev_ind; intros m x Hnd Hx; [by apply elem_of_nil in Hx|]. rewrite foldl_app. cbn [foldl].
  rewrite fmap_app in Hnd. apply NoDup_app in Hnd as (Hnd & Hy & _). apply elem_of_app in Hx as [Hx|Hx%list_elem_of_singleton].
  - rewrite lookup_insert_ne; [by apply IH|]. intros E. apply (Hy (TxID x.2)); [by apply (list_elem_of_fmap_2 (λ ix, TxID ix.2))|].
    rewrite <- E. left.
  - subst. by rewrite lookup_insert_eq.
Qed.

Lemma zip_ids l : ∀ k, (λ ix : Z * SignedTransaction, TxID ix.2) <$> zip (seqZ k (count l)) l = TxID <$> l.
Proof.
  unfold count. induction l as [|t l IH]; intros k; [done|]. rewrite length_cons, Nat2Z.inj_succ, seqZ_cons by lia. cbn [zip zip_with].
  rewrite !fmap_cons. f_equal. rewrite <- (IH (Z.succ k)). do 3 f_equal. lia.
Qed.

Definition numbered (l : list SignedTransaction) : list (SignedTransaction * Z) := imap (λ i t, (t, Z.of_nat i)) l.

Lemma tx_index_lookup b i t : NoDup (TxID <$> TxList b) → TxList b !! i = Some t → tx_index b !! TxID t = Some (t, Z.of_nat i).
Proof.
  intros Hnd Hi. unfold tx_index. apply (tx_index_fold _ ∅ (Z.of_nat i, t)); [by rewrite zip_ids|].
  apply (list_elem_of_lookup_2 _ i). rewrite lookup_zip_with_Some. exists (Z.of_nat i), t. split_and!; [done| |done].
  apply lookup_seqZ. apply lookup_lt_Some in Hi. unfold count. lia.
Qed.

Definition at_index (b : Block) (t : SignedTransaction) : SignedTransaction * Z := default (t, 0) (tx_index b !! TxID t).

Lemma at_index_numbered b : NoDup (TxID <$> TxList b) → at_index b <$> TxList b = numbered (TxList b).
Proof.
  intros Hnd. apply list_eq. intros i. unfold numbered. rewrite list_lookup_fmap, list_lookup_imap.
  destruct (TxList b !! i) as [t|] eqn:E; [|done]. cbn. unfold at_index. by rewrite (tx_index_lookup b i t).
Qed.

Lemma at_index_item b t : NoDup (TxID <$> TxList b) → t ∈ TxList b → (at_index b t).1 = t ∧ tx_index b !! TxID t = Some (at_index b t).
Proof. intros Hnd (i & Hi)%list_elem_of_lookup_1. unfold at_index. by rewrite (tx_index_lookup b i t). Qed.

Lemma batch_items_at b txs : NoDup (TxID <$> TxList b) → txs ⊆ TxList b → batch_items (tx_index b) (TxID <$> txs) = inr (at_index b <$> txs).
Proof.
  intros Hnd. induction txs as [|t txs IH]; intros Hs; [done|]. rewrite !fmap_cons. cbn [batch_items].
  destruct (at_index_item b t Hnd) as [_ ->]; [apply Hs; left|]. rewrite IH; [done|]. set_solver.
Qed.

Lemma si_jobs e b st items :
  si_job e b st items <$> seq 0 (length items) = (λ ix, (ix.1, si_delta (se_DefaultInitialBalance e) b st ix)) <$> items.
Proof.
  apply list_eq. intros i. rewrite !list_lookup_fmap. destruct (items !! i) as [ix|] eqn:E.
  - rewrite lookup_seq_lt by (by eapply lookup_lt_Some). cbn. unfold si_job. by rewrite E.
  - apply lookup_ge_None in E. rewrite (lookup_ge_None_2 (seq _ _)); [done|]. by rewrite length_seq.
Qed.

(** The batches hold the transactions [groups], in this order. *)
Definition groups_of (b : Block) (batches : list BatchSIBatch) (groups : list (list SignedTransaction)) : Prop :=
  Forall2 (λ batch txs, items_of (ba_OrderedTransactionIDs batch) = TxID <$> txs) batches groups ∧
  Forall (StronglySorted (passes_by (ShardID b))) groups ∧ mjoin groups ⊆ TxList b.

(** The block has distinct ids, and its transactions declare what they read under
    unaliased names. *)
Record si_block_ok (b : Block) : Prop := {
  sk_ids : NoDup (TxID <$> TxList b);
  sk_declared : ∀ t, t ∈ TxList b → declares_accounts b t = true;
  sk_unaliased : si_unaliased b = true;
}.

Lemma group_is_serial e b txs w : si_block_ok b → txs ⊆ TxList b → StronglySorted (passes_by (ShardID b)) txs →
  apply_results (ShardID b) (si_job e b (sw_working w) (at_index b <$> txs) <$> seq 0 (length (at_index b <$> txs))) w =
  si_serial (se_DefaultInitialBalance e) b (at_index b <$> txs) w.
Proof.
  intros [Hnd Hd Hu] Hs Hp. rewrite si_jobs. assert (∀ t, t ∈ txs → (at_index b t).1 = t) as Hat.
  { intros t Ht. apply at_index_item; [done|by apply Hs]. }
  apply batch_is_serial; [done| |].
  - intros ix (t & -> & Ht)%list_elem_of_fmap. rewrite (Hat t Ht). split_and!; [by apply Hs|by apply Hd, Hs|by intros k].
  - rewrite <- list_fmap_compose. erewrite list_fmap_ext; [rewrite list_fmap_id; exact Hp|].
    intros i t Ht%list_elem_of_lookup_2. by apply Hat.
Qed.

Lemma loop_is_serial e b n schedule batches : ∀ groups turn cancelled w, si_block_ok b → groups_of b batches groups →
  match batch_loop e b n schedule turn batches cancelled w with
  | SiReturned w' => si_serial (se_DefaultInitialBalance e) b (at_index b <$> mjoin groups) w = inr w'
  | SiFailed err => err = BsContext ∨ si_serial (se_DefaultInitialBalance e) b (at_index b <$> mjoin groups) w = inl err
  | SiRunning => True
  end.
Proof.
  induction batches as [|batch batches IH]; intros groups turn cancelled w Hb (Hg & Hs & Hin); inversion Hg as [|? txs ? groups' Hids Hg']; subst.
  { done. }
  change (mjoin (txs :: groups')) with (txs ++ mjoin groups') in *. apply Forall_cons in Hs as [Hst Hs].
  cbn [batch_loop]. destruct (_ || _); [by left|]. rewrite Hids, batch_items_at by (apply Hb || set_solver).
  destruct (executeBatchWithPool _ _ _ _ _) as [[c [rs|]]|] eqn:Ep; [|by left|done].
  apply batch_pool_results in Ep as ->. rewrite group_is_serial by (done || set_solver).
  rewrite fmap_app, si_serial_app. destruct (si_serial _ _ (at_index b <$> txs) w) as [err|w1]; [by right|]. cbn [mbind sum_mbind].
  apply IH; [done|]. split_and!; [done|done|set_solver].
Qed.

Lemma loop_schedule_ext e b n s1 s2 batches : ∀ turn cancelled w, (∀ k, (turn <= k)%nat → s1 k = s2 k) →
  batch_loop e b n s1 turn batches cancelled w = batch_loop e b n s2 turn batches cancelled w.
Proof.
  induction batches as [|batch batches IH]; intros turn cancelled w H; [done|]. cbn [batch_loop]. rewrite (H turn) by lia.
  destruct (_ || _); [done|]. destruct (batch_items _ _); [done|]. destruct (executeBatchWithPool _ _ _ _ _) as [[c [rs|]]|]; [|done..].
  destruct (apply_results _ _ _); [done|]. apply IH. intros k Hk. apply H. lia.
Qed.

Lemma apply_results_error shardID rs : ∀ w err, apply_results shardID rs w = inl err → ∃ id, err = BsUndeclaredWrite id.
Proof.
  induction rs as [|[item d] rs IH]; intros w err H; cbn [apply_results] in H; [done|].
  unfold batchSIValidateDeclaredWrites in H. destruct (forallb _ _); [by eapply IH|]. simplify_eq. eauto.
Qed.

Lemma loop_errors e b n schedule batches : ∀ groups turn cancelled w, NoDup (TxID <$> TxList b) → groups_of b batches groups →
  match batch_loop e b n schedule turn batches cancelled w with
  | SiFailed err => err = BsContext ∨ ∃ id, err = BsUndeclaredWrite id
  | _ => True
  end.
Proof.
  induction batches as [|batch batches IH]; intros groups turn cancelled w Hnd (Hg & Hs & Hin);
    inversion Hg as [|? txs ? groups' Hids Hg']; subst; [done|].
  change (mjoin (txs :: groups')) with (txs ++ mjoin groups') in *. apply Forall_cons in Hs as [_ Hs].
  cbn [batch_loop]. destruct (_ || _); [by left|]. rewrite Hids, batch_items_at by (done || set_solver).
  destruct (executeBatchWithPool _ _ _ _ _) as [[c [rs|]]|]; [|by left|done].
  destruct (apply_results _ _ _) as [err|w1] eqn:Ea; [right; by eapply apply_results_error|].
  apply (IH groups'); [done|]. split_and!; [done|done|set_solver].
Qed.

(** The call is over, and not because the context is. *)
Definition finished {A} (r : si_result A) : Prop := r ≠ SiRunning ∧ r ≠ SiFailed BsContext.

(** With nobody ending the context there is a schedule under which the loop comes to
    its end. *)
Lemma loop_returns e b n batches : (0 < n)%nat → NoDup (TxID <$> TxList b) → ∀ groups turn w, groups_of b batches groups →
  ∃ schedule, finished (batch_loop e b n schedule turn batches false w).
Proof.
  intros Hn Hnd. induction batches as [|batch batches IH]; intros groups turn w (Hg & Hs & Hin);
    inversion Hg as [|? txs ? groups' Hids Hg']; subst; [by exists (λ _, (false, []))|].
  change (mjoin (txs :: groups')) with (txs ++ mjoin groups') in *. apply Forall_cons in Hs as [_ Hs].
  destruct (batch_pool_returns (si_job e b (sw_working w) (at_index b <$> txs)) (length (at_index b <$> txs)) n Hn) as [cs Hcs].
  set (rs := si_job e b (sw_working w) (at_index b <$> txs) <$> seq 0 (length (at_index b <$> txs))) in *.
  assert (∀ s, s turn = (false, cs) → batch_loop e b n s turn (batch :: batches) false w =
    match apply_results (ShardID b) rs w with
    | inl err => SiFailed err | inr w => batch_loop e b n s (S turn) batches false w end) as Hstep.
  { intros s Es. cbn [batch_loop]. rewrite Es. cbn [fst snd orb]. rewrite Hids, batch_items_at by (done || set_solver). by rewrite Hcs. }
  destruct (apply_results (ShardID b) rs w) as [err|w1] eqn:Ea.
  { exists (λ _, (false, cs)). rewrite Hstep by done. split; [done|]. intros [= ->].
    by destruct (apply_results_error _ _ _ _ Ea). }
  destruct (IH groups' (S turn) w1) as [s Hf]; [split_and!; [done|done|set_solver]|].
  exists (λ k, if (k =? turn)%nat then (false, cs) else s k). rewrite Hstep by (by rewrite Nat.eqb_refl).
  rewrite (loop_schedule_ext e b n _ s); [done|]. intros k Hk. by rewrite (proj2 (Nat.eqb_neq k turn)) by lia.
Qed.
