(* ===== verification/BatchSIBinding.v ===== *)
(** * What the digest of a Batch-SI plan binds

    Two plans whose texts are UTF-8 and whose digests agree have the same batches,
    unless SHA-256 collides on the two texts that are hashed. *)
From S2P Require Import Prelude GoStd GoJson JsonRoundtrip GoStruct Tx Block BlockCodec StateRoot Heap Serial BatchSI BatchSIWire.
Import Json.
Local Open Scope Z_scope.
#[local] Opaque Sha256.sum256 sha256_hex.

Lemma sha256_hex_binds s1 s2 :
  coll_free [bytes_of_string s1] [bytes_of_string s2] → sha256_hex s1 = sha256_hex s2 → s1 = s2.
Proof.
  Transparent sha256_hex. intros C E. unfold sha256_hex in E. Opaque sha256_hex.
  apply hex_encode_inj in E; [|apply sum256_range..]. apply (inj bytes_of_string). apply C; [by left|by left|exact E].
Qed.

Lemma json_ok_obj l : json_ok (JObj l) ↔ Forall (λ kv, utf8_string kv.1 ∧ json_ok kv.2) l.
Proof.
  cbn [json_ok]. induction l as [|[k v] l IH]; [by split|]. cbn [fold_right]. rewrite Forall_cons, IH. done.
Qed.
Lemma json_ok_arr l : json_ok (JArr l) ↔ Forall json_ok l.
Proof. cbn [json_ok]. induction l as [|v l IH]; [by split|]. cbn [fold_right]. by rewrite Forall_cons, IH. Qed.

Lemma marshal_values j1 j2 : json_ok j1 → json_ok j2 → marshal j1 = marshal j2 → value_of j1 = value_of j2.
Proof. intros H1 H2 E. apply parse_json_marshal in H1, H2. rewrite E in H1. congruence. Qed.

Lemma plan_json p : c_enc c_batch_si_plan p = JObj (
  [("algorithm_id", JStr (bp_AlgorithmID p)); ("version", JStr (bp_Version p)); ("block_height", JUint (bp_BlockHeight p));
   ("partition_mode", JStr (bp_PartitionMode p)); ("ordering_mode", JStr (bp_OrderingMode p));
   ("priority_mode", JStr (bp_PriorityMode p));
   ("candidate_transaction_ids", c_enc (c_nilable c_string) (bp_CandidateTransactionIDs p))] ++
  opt_arr "deferred_transactions" (c_enc c_transaction <$> bp_DeferredTransactions p) ++
  [("transaction_ordinals", c_enc (c_map c_int) (bp_TransactionOrdinals p));
   ("order_evidence", c_enc (c_nilable c_order_evidence) (bp_OrderEvidence p));
   ("batches", c_enc (c_nilable c_batch) (bp_Batches p)); ("metrics", c_enc c_plan_metrics (bp_Metrics p));
   ("plan_digest", JStr (bp_PlanDigest p))]).
Proof. reflexivity. Qed.

Definition member (k : string) (v : jvalue) : option jvalue :=
  match v with VObj ms => (λ m, m.2.1) <$> find (λ m, String.eqb m.1 k) ms | _ => None end.

Lemma plan_batches_member p : member "batches" (value_of (c_enc c_batch_si_plan p)) = Some (value_of (c_enc (c_nilable c_batch) (bp_Batches p))).
Proof. rewrite plan_json. cbn [value_of]. rewrite map_app. by destruct (bp_DeferredTransactions p). Qed.

Lemma string_values_inj l1 : ∀ l2, map value_of (map JStr l1) = map value_of (map JStr l2) → l1 = l2.
Proof. induction l1 as [|x l1 IH]; intros [|y l2] E; cbn in E; simplify_eq; [done|]. f_equal. by apply IH. Qed.

Lemma id_values_inj (o1 o2 : option (list string)) :
  value_of (c_enc (c_nilable c_string) o1) = value_of (c_enc (c_nilable c_string) o2) → o1 = o2.
Proof. destruct o1 as [l1|], o2 as [l2|]; cbn; intros E; simplify_eq; [|done]. f_equal. by apply string_values_inj. Qed.

Lemma batch_value_inj b1 b2 : value_of (c_enc c_batch b1) = value_of (c_enc c_batch b2) → b1 = b2.
Proof.
  destruct b1 as [n1 o1], b2 as [n2 o2]. intros E.
  assert (member "batch_number" (value_of (c_enc c_batch (MkBatch n1 o1))) = member "batch_number" (value_of (c_enc c_batch (MkBatch n2 o2)))) as E1 by by rewrite E.
  assert (member "ordered_transaction_ids" (value_of (c_enc c_batch (MkBatch n1 o1))) =
          member "ordered_transaction_ids" (value_of (c_enc c_batch (MkBatch n2 o2)))) as E2 by by rewrite E.
  change (Some (VNum (pretty n1)) = Some (VNum (pretty n2))) in E1.
  change (Some (value_of (c_enc (c_nilable c_string) o1)) = Some (value_of (c_enc (c_nilable c_string) o2))) in E2.
  injection E1 as E1. injection E2 as E2. apply (inj pretty) in E1. apply id_values_inj in E2. by subst.
Qed.

Lemma batches_value_inj o1 o2 : value_of (c_enc (c_nilable c_batch) o1) = value_of (c_enc (c_nilable c_batch) o2) → o1 = o2.
Proof.
  destruct o1 as [l1|], o2 as [l2|]; try done. intros E. change (VArr (map value_of (map (c_enc c_batch) l1)) = VArr (map value_of (map (c_enc c_batch) l2))) in E.
  injection E as E. f_equal. revert l2 E. induction l1 as [|x l1 IH]; intros [|y l2] E; try done. cbn [map] in E.
  pose proof (f_equal (hd VNull) E) as E1. pose proof (f_equal (@tail _) E) as E2. f_equal; [by apply batch_value_inj|by apply IH].
Qed.

(** ** The digest *)

Definition digested (p : BatchSIPlan) : BatchSIPlan := set_metrics (set_digest p "") (without_times (bp_Metrics p)).

(** The strings a plan is printed with are UTF-8. *)
Definition plan_utf8 (p : BatchSIPlan) : Prop := json_ok (c_enc c_batch_si_plan p).

Lemma metrics_json m : json_ok (c_enc c_plan_metrics m).
Proof.
  change (json_ok (JObj ([("transaction_count", JInt (pm_TransactionCount m)); ("candidate_transaction_count", JInt (pm_CandidateTransactionCount m));
    ("accepted_transaction_count", JInt (pm_AcceptedTransactionCount m));
    ("first_pass_ofas_aborted_transaction_count", JInt (pm_FirstPassOFASAbortedTransactionCount m));
    ("read_only_transaction_count", JInt (pm_ReadOnlyTransactionCount m)); ("awrt_address_count", JInt (pm_AWRTAddressCount m));
    ("awrt_write_reference_count", JInt (pm_AWRTWriteReferenceCount m)); ("batch_count", JInt (pm_BatchCount m));
    ("maximum_batch_width", JInt (pm_MaximumBatchWidth m)); ("write_opportunity_reuse_count", JInt (pm_WriteOpportunityReuseCount m));
    ("dependency_edge_count", JInt (pm_DependencyEdgeCount m)); ("ofas_aborted_transaction_count", JInt (pm_OFASAbortedTransactionCount m));
    ("planning_iteration_count", JInt (pm_PlanningIterationCount m))] ++ opt_int "table_construction_ms" (pm_TableConstructionMS m) ++
    opt_int "sorting_ms" (pm_SortingMS m) ++ []))).
  apply json_ok_obj. unfold opt_int.
  repeat (destruct (_ =? _)); repeat constructor; cbn [fst snd json_ok]; try done; by apply name_utf8.
Qed.

Lemma nilable_json {T} (c : codec T) o : json_ok (c_enc (c_nilable c) o) ↔ Forall (λ t, json_ok (c_enc c t)) (items_of o).
Proof. destruct o as [l|]; [|by split]. change (c_enc (c_nilable c) (Some l)) with (JArr (c_enc c <$> l)). by rewrite json_ok_arr, Forall_fmap. Qed.

Lemma map_json {T} (c : codec T) (m : gmap string T) : (∀ t, json_ok (c_enc c t)) →
  json_ok (c_enc (c_map c) (Some m)) ↔ ∀ k, is_Some (m !! k) → utf8_string k.
Proof.
  intros Hc. change (c_enc (c_map c) (Some m)) with (JObj (map_fields c m)). rewrite json_ok_obj. unfold map_fields.
  rewrite Forall_fmap, Forall_forall. split.
  - intros H k Hk. apply (H k). by apply elem_of_sorted_keys.
  - intros H k Hk%elem_of_sorted_keys. split; [by apply H|apply Hc].
Qed.

Lemma evidence_json e : json_ok (c_enc c_order_evidence e) ↔ utf8_string (oe_TxID e).
Proof.
  change (c_enc c_order_evidence e) with (JObj [("tx_id", JStr (oe_TxID e)); ("transaction_ordinal", JInt (oe_TransactionOrdinal e));
    ("batch_number", JInt (oe_BatchNumber e)); ("serialization_position", JInt (oe_SerializationPosition e))]).
  rewrite json_ok_obj, !Forall_cons. cbn [fst snd json_ok]. split; [tauto|]. intros H. split_and!; try done; by apply name_utf8.
Qed.

Lemma batch_json p : json_ok (c_enc c_batch p) ↔ Forall utf8_string (items_of (ba_OrderedTransactionIDs p)).
Proof.
  change (c_enc c_batch p) with (JObj [("batch_number", JInt (ba_BatchNumber p));
    ("ordered_transaction_ids", c_enc (c_nilable c_string) (ba_OrderedTransactionIDs p))]).
  rewrite json_ok_obj, !Forall_cons. cbn [fst snd]. rewrite nilable_json. cbn [c_enc c_string json_ok]. split; [tauto|].
  intros H. split_and!; try done; by apply name_utf8.
Qed.

(** The strings of a plan. *)
Record plan_texts (p : BatchSIPlan) : Prop := {
  px_names : Forall utf8_string [bp_AlgorithmID p; bp_Version p; bp_PartitionMode p; bp_OrderingMode p; bp_PriorityMode p; bp_PlanDigest p];
  px_candidates : Forall utf8_string (items_of (bp_CandidateTransactionIDs p));
  px_deferred : Forall (λ t, json_ok (c_enc c_transaction t)) (bp_DeferredTransactions p);
  px_ordinals : ∀ k, is_Some (default ∅ (bp_TransactionOrdinals p) !! k) → utf8_string k;
  px_evidence : Forall (λ e, utf8_string (oe_TxID e)) (items_of (bp_OrderEvidence p));
  px_batches : Forall (λ b, Forall utf8_string (items_of (ba_OrderedTransactionIDs b))) (items_of (bp_Batches p));
}.

Lemma opt_arr_json k l : Forall (λ kv, utf8_string kv.1 ∧ json_ok kv.2) (opt_arr k l) ↔ l = [] ∨ (utf8_string k ∧ Forall json_ok l).
Proof.
  destruct l as [|v l]; [split; [by left|constructor]|]. unfold opt_arr. rewrite Forall_cons. cbn [fst snd]. rewrite json_ok_arr.
  split; [tauto|]. intros [?|?]; [done|]. by split.
Qed.

Lemma ordinals_json o : json_ok (c_enc (c_map c_int) o) ↔ ∀ k, is_Some (default ∅ o !! k) → utf8_string k.
Proof.
  destruct o as [m|]; [by apply map_json|]. split; [|done]. intros _ k. cbn. rewrite lookup_empty. by intros [? ?].
Qed.

Lemma plan_utf8_texts p : plan_utf8 p ↔ plan_texts p.
Proof.
  unfold plan_utf8. rewrite plan_json, json_ok_obj, !Forall_app, !Forall_cons, opt_arr_json, Forall_fmap. cbn [fst snd].
  rewrite !nilable_json, ordinals_json. cbn [json_ok c_enc c_string]. split.
  - intros (H1 & H2 & H3). destruct H1 as ([_ ?] & [_ ?] & _ & [_ ?] & [_ ?] & [_ ?] & [_ ?] & _).
    destruct H3 as ([_ ?] & [_ He] & [_ Hb] & _ & [_ ?] & _). split; [by repeat constructor|done| |done| |].
    + destruct H2 as [H2|[_ ?]]; [|done]. apply fmap_nil_inv in H2. by rewrite H2.
    + eapply Forall_impl; [exact He|]. intros e Hx. exact (proj1 (evidence_json e) Hx).
    + eapply Forall_impl; [exact Hb|]. intros e Hx. exact (proj1 (batch_json e) Hx).
  - intros [Hn Hc Hd Ho He Hb]. rewrite !Forall_cons in Hn. destruct Hn as (?&?&?&?&?&?&_).
    assert (∀ k, forallb (λ b, (b <? 128)%N) (bytes_of_string k) = true → utf8_string k) as Hk by apply name_utf8.
    split_and!; try done; try (by apply Hk).
    + right. split; [by apply Hk|done].
    + eapply Forall_impl; [exact He|]. intros e Hx. exact (proj2 (evidence_json e) Hx).
    + eapply Forall_impl; [exact Hb|]. intros e Hx. exact (proj2 (batch_json e) Hx).
    + apply metrics_json.
Qed.

Lemma digested_texts p : plan_texts p → plan_texts (digested p).
Proof.
  destruct p. intros [Hn Hc Hd Ho He Hb]. split; cbn in *; try done. rewrite !Forall_cons in Hn |- *.
  destruct Hn as (?&?&?&?&?&?&_). split_and!; try done. by apply name_utf8.
Qed.

(** The bytes that [batchSIPlanDigest] hashes. *)
Definition digest_input (p : BatchSIPlan) : list N := bytes_of_string (Marshal c_batch_si_plan (digested p)).

(** Equal digests, equal batches. *)
Lemma digest_binds p1 p2 : plan_texts (digested p1) → plan_texts (digested p2) → coll_free [digest_input p1] [digest_input p2] →
  batchSIPlanDigest p1 = batchSIPlanDigest p2 → bp_Batches p1 = bp_Batches p2.
Proof.
  intros H1%plan_utf8_texts H2%plan_utf8_texts C E. unfold batchSIPlanDigest in E. apply (sha256_hex_binds _ _ C) in E.
  change (marshal (c_enc c_batch_si_plan (digested p1)) = marshal (c_enc c_batch_si_plan (digested p2))) in E.
  apply marshal_values in E; [|done..]. apply (f_equal (member "batches")) in E. rewrite !plan_batches_member in E.
  injection E as E. apply batches_value_inj in E. by destruct p1, p2.
Qed.
