(* ===== verification/BatchSITheorems.v ===== *)
(** * What Batch-SI guarantees

    What a verified plan is, and that a block with a verified plan is executed as
    if one transaction at a time. *)
From S2P Require Import Prelude GoStd GoJson JsonRoundtrip GoStruct Tx Block BlockCodec StateRoot Heap Serial BatchSI BatchSIWire BatchSIParts Kahn BatchSIOrder BatchSIBuild BatchSIPool BatchSIExec BatchSISerial BatchSIBinding.
Import Json.
Local Open Scope Z_scope.

(** ** What a verified Batch-SI plan is

    A plan that [VerifyBatchSIPlan] accepts lists the transactions of the block in
    the order of the block, in batches of transactions that pass each other by, or
    SHA-256 collides. *)

#[local] Opaque Sha256.sum256 sha256_hex.

(** *** The transactions by id *)

(** [byID] holds the transactions of [l] and nothing else. *)
Definition indexes (l : list SignedTransaction) (byID : gmap string SignedTransaction) : Prop :=
  NoDup (TxID <$> l) ∧ ∀ id t, byID !! id = Some t ↔ t ∈ l ∧ TxID t = id.

Lemma indexes_snoc l byID t : indexes l byID → TxID t ∉ TxID <$> l → indexes (l ++ [t]) (<[TxID t := t]> byID).
Proof.
  intros [Hnd Hi] Ht. split.
  - rewrite fmap_app. apply NoDup_app. split_and!; [done| |apply NoDup_singleton]. intros x Hx ->%list_elem_of_singleton. done.
  - intros id u. rewrite lookup_insert, elem_of_app, list_elem_of_singleton. case_decide as E.
    + subst id. split; [intros [= <-]; auto|]. intros [[Hu|Hu] E]; [|by subst]. destruct Ht. rewrite <- E. by apply list_elem_of_fmap_2.
    + rewrite Hi. split; [naive_solver|]. intros [[Hu|Hu] E']; [done|]. by subst.
Qed.

Lemma accepted_loop_spec items : ∀ done accepted byID accepted' byID',
  accepted_loop items accepted byID = inr (accepted', byID') → indexes done byID → accepted = list_to_set (TxID <$> done) →
  indexes (done ++ items) byID' ∧ accepted' = list_to_set (TxID <$> (done ++ items)).
Proof.
  induction items as [|t items IH]; intros d acc byID acc' byID' H Hi Ha; cbn [accepted_loop] in H.
  { simplify_eq. by rewrite app_nil_r. }
  destruct (_ || _) eqn:E; [done|]. apply orb_false_iff in E as [_ E%bool_decide_eq_false].
  assert (TxID t ∉ TxID <$> d) as Ht by (subst acc; by rewrite elem_of_list_to_set in E).
  apply (IH (d ++ [t])) in H.
  - by rewrite <- app_assoc in H.
  - by apply indexes_snoc.
  - subst acc. rewrite fmap_app, list_to_set_app_L. cbn. set_solver.
Qed.

Lemma deferred_loop_spec verify accepted items : ∀ done deferred byID byID',
  deferred_loop verify accepted items deferred byID = inr byID' → indexes done byID →
  accepted ∪ deferred = list_to_set (TxID <$> done) → indexes (done ++ items) byID'.
Proof.
  induction items as [|t items IH]; intros d def byID byID' H Hi Ha; cbn [deferred_loop] in H.
  { simplify_eq. by rewrite app_nil_r. }
  destruct (_ || _ || _) eqn:E; [done|]. apply orb_false_iff in E as [E E2%bool_decide_eq_false].
  apply orb_false_iff in E as [_ E1%bool_decide_eq_false]. destruct (_ && _); [done|].
  assert (TxID t ∉ TxID <$> d) as Ht.
  { intros Hin%(elem_of_list_to_set (C := gset string)). rewrite <- Ha in Hin. set_solver. }
  apply (IH (d ++ [t])) in H.
  - by rewrite <- app_assoc in H.
  - by apply indexes_snoc.
  - rewrite fmap_app, list_to_set_app_L, <- Ha. cbn. set_solver.
Qed.

Lemma candidate_loop_spec byID ordinals ids : ∀ seen so items,
  candidate_loop byID ordinals ids seen so = inr items → Forall2 (λ id t, byID !! id = Some t) ids items.
Proof.
  induction ids as [|id ids IH]; intros seen so items H; cbn [candidate_loop] in H; [simplify_eq; constructor|].
  destruct (_ || _); [done|]. destruct (byID !! id) as [t|] eqn:E; [|done]. cbv zeta in H. destruct (_ || _); [done|].
  destruct (candidate_loop _ _ _ _ _) as [?|out] eqn:Eo; [done|]. cbn in H. simplify_eq. constructor; [done|]. by eapply IH.
Qed.

Lemma first_mismatch_none l1 : ∀ l2 i, length l1 = length l2 → first_mismatch i l1 l2 = None → TxID <$> l1 = TxID <$> l2.
Proof.
  induction l1 as [|a l1 IH]; intros [|b l2] i Hl H; try done. cbn [first_mismatch] in H. case_bool_decide as E; [|done].
  rewrite !fmap_cons, E. f_equal. apply (IH l2 (i + 1)); [by injection Hl|done].
Qed.

(** Equal ids, equal transactions. *)
Lemma indexed_ids l byID l1 l2 : indexes l byID → l1 ⊆ l → l2 ⊆ l → TxID <$> l1 = TxID <$> l2 → l1 = l2.
Proof.
  intros [_ Hi]. revert l2. induction l1 as [|a l1 IH]; intros [|b l2] H1 H2 E; try done. rewrite !fmap_cons in E.
  injection E as E1 E2. f_equal; [|apply IH; [set_solver|set_solver|done]].
  assert (byID !! TxID a = Some a) as Ea by (apply Hi; split; [apply H1; left|done]).
  assert (byID !! TxID b = Some b) as Eb by (apply Hi; split; [apply H2; left|done]). congruence.
Qed.

(** *** The texts of a built plan *)

Lemma set_digest_digest p d : batchSIPlanDigest (set_digest p d) = batchSIPlanDigest p.
Proof. by destruct p. Qed.
Lemma set_digest_digested p d : digested (set_digest p d) = digested p.
Proof. by destruct p. Qed.

Lemma evidence_ids ordinals batches e : e ∈ batchSIOrderEvidence ordinals batches → oe_TxID e ∈ (numbered_ids batches).*2.
Proof.
  unfold batchSIOrderEvidence. intros (i & Hi)%list_elem_of_lookup_1. rewrite list_lookup_imap in Hi.
  destruct (numbered_ids batches !! i) as [nid|] eqn:E; [|done]. cbn in Hi. simplify_eq. cbn.
  apply list_elem_of_fmap_2. by eapply list_elem_of_lookup_2.
Qed.

Lemma numbered_in batches batch id : batch ∈ batches → id ∈ items_of (ba_OrderedTransactionIDs batch) → id ∈ (numbered_ids batches).*2.
Proof.
  intros Hb Hid. apply list_elem_of_fmap. exists (ba_BatchNumber batch, id). split; [done|]. unfold numbered_ids.
  apply list_elem_of_bind. exists batch. split; [|done]. by apply list_elem_of_fmap_2.
Qed.

Lemma build_fields b config ordinals ms r : BuildBatchSIPlanWithOrdinals b config ordinals ms = inr r →
  let p := pr_Plan r in
  bp_AlgorithmID p = BatchSIPlanAlgorithmID ∧ bp_Version p = BatchSIPlanVersion ∧
  bp_PartitionMode p = bc_PartitionMode (Normalized config) ∧ bp_OrderingMode p = bc_OrderingMode (Normalized config) ∧
  bp_PriorityMode p = bc_PriorityMode (Normalized config) ∧ bp_CandidateTransactionIDs p = Some (TxID <$> TxList b) ∧
  (∃ o, bp_TransactionOrdinals p = Some o ∧ (∀ k, is_Some (o !! k) → k ∈ TxID <$> TxList b) ∧
        bp_OrderEvidence p = Some (batchSIOrderEvidence (Some o) (items_of (bp_Batches p)))) ∧
  bp_PlanDigest p = batchSIPlanDigest p.
Proof.
  unfold BuildBatchSIPlanWithOrdinals. destruct (ConfigValidate _); [done|]. generalize (Normalized config). clear config.
  intros config. destruct (batchSIDescriptors _ _ _) as [?|[ds normalized]] eqn:Ed; [done|]. cbn [mbind sum_mbind].
  apply descriptors_spec in Ed as (ds' & _ & Hd & ->). destruct (batchSIBuildAWRT ds) as [awrt refs].
  destruct (partition_items config ds) as [ps reuse]. cbv zeta. intros [= <-]. cbn [pr_Plan]. rewrite set_digest_digest.
  split_and!; [reflexivity..| |reflexivity]. eexists. split_and!; [reflexivity| |reflexivity].
  intros k [n Hn]. apply elem_of_list_to_map_2 in Hn. apply list_elem_of_fmap in Hn as (d & E & Hin). simplify_eq.
  rewrite (de_id _ _ (do_described _ _ _ Hd d Hin)), <- (do_items _ _ _ Hd). apply list_elem_of_fmap_2. by apply list_elem_of_fmap_2.
Qed.

Lemma build_texts b config ordinals ms r : BuildBatchSIPlanWithOrdinals b config ordinals ms = inr r →
  Forall utf8_string [bc_PartitionMode (Normalized config); bc_OrderingMode (Normalized config); bc_PriorityMode (Normalized config)] →
  Forall utf8_string (TxID <$> TxList b) → Forall (λ t, json_ok (c_enc c_transaction t)) (TxList b) →
  plan_texts (digested (pr_Plan r)).
Proof.
  intros Hr Hc Hids Htx. pose proof (build_fields _ _ _ _ _ Hr) as (F1 & F2 & F3 & F4 & F5 & F6 & (o & F7 & Ho & F8) & _).
  destruct (build_spec _ _ _ _ _ Hr) as (finals & out & Hpl). destruct (po_all _ _ _ _ Hpl) as (ds & Hp & Hd).
  rewrite !Forall_cons in Hc. destruct Hc as (?&?&?&_). rewrite Forall_forall in Hids. rewrite Forall_forall in Htx.
  assert (∀ batch id, batch ∈ items_of (bp_Batches (pr_Plan r)) → id ∈ items_of (ba_OrderedTransactionIDs batch) → utf8_string id) as Hb.
  { intros batch id Hbatch Hid. apply Hids. pose proof (numbered_in _ _ _ Hbatch Hid) as Hn.
    rewrite (po_batches _ _ _ _ Hpl), items_of_copied, numbered_batches in Hn. apply list_elem_of_fmap in Hn as (d & -> & Hin).
    assert (d ∈ ds) as Hds by (rewrite <- Hp; apply elem_of_app; by left).
    rewrite (de_id _ _ (do_described _ _ _ Hd d Hds)), <- (do_items _ _ _ Hd). apply list_elem_of_fmap_2. by apply list_elem_of_fmap_2. }
  assert (∀ t, t ∈ bp_DeferredTransactions (pr_Plan r) → t ∈ TxList b) as Hdef.
  { intros t. rewrite (po_same _ _ _ _ Hpl), (po_deferred _ _ _ _ Hpl), <- (do_items _ _ _ Hd), <- Hp, fmap_app. set_solver. }
  destruct (pr_Plan r) as [alg ver h pm om prm cands def ords ev batches mt dg].
  cbn [bp_AlgorithmID bp_Version bp_PartitionMode bp_OrderingMode bp_PriorityMode bp_CandidateTransactionIDs bp_DeferredTransactions
    bp_TransactionOrdinals bp_OrderEvidence bp_Batches bp_PlanDigest] in *. subst.
  unfold digested, set_metrics, set_digest. split; cbn [bp_AlgorithmID bp_Version bp_PartitionMode bp_OrderingMode bp_PriorityMode
    bp_CandidateTransactionIDs bp_DeferredTransactions bp_TransactionOrdinals bp_OrderEvidence bp_Batches bp_PlanDigest].
  - rewrite !Forall_cons. split_and!; try done; [by apply name_utf8..|constructor].
  - by apply Forall_forall.
  - apply Forall_forall. auto.
  - auto.
  - apply Forall_forall. intros e He%evidence_ids. apply list_elem_of_fmap in He as ([n id] & -> & Hin). unfold numbered_ids in Hin.
    apply list_elem_of_bind in Hin as (batch & Hin & Hbatch). apply list_elem_of_fmap in Hin as (id' & E & Hid). simplify_eq. eauto.
  - apply Forall_forall. intros batch Hbatch. apply Forall_forall. eauto.
Qed.

(** *** Verification *)

Lemma or_default_idem s f : or_default (or_default s f) f = or_default s f.
Proof. unfold or_default. destruct (decide (s = "")) as [->|H]; [change ("" ≟ "") with true; by destruct (f ≟ "")|]. by rewrite !(bool_decide_eq_false_2 (s = "")). Qed.

Lemma normalized_idem c : Normalized (Normalized c) = Normalized c.
Proof.
  destruct c as [n p o q x]. unfold Normalized. cbn [bc_WorkerCount bc_PartitionMode bc_OrderingMode bc_PriorityMode bc_ExecutionMode].
  rewrite !or_default_idem. f_equal. destruct (Z.eqb_spec n 0) as [?|Hn]; [done|]. by rewrite (proj2 (Z.eqb_neq n 0)).
Qed.

(** The plan that [VerifyBatchSIPlan] computes anew from the candidates it is given. *)
Definition recomputed_plan (verify : SignedTransaction → error) (b : Block) (plan : BatchSIPlan) (config : BatchSIConfig) (ms : Z * Z)
    : batch_si_error + BatchSIPlanningResult :=
  let candidates := items_of (bp_CandidateTransactionIDs plan) in
  '(accepted, byID) ← accepted_loop (TxList b) ∅ ∅;
  byID ← deferred_loop verify accepted (bp_DeferredTransactions plan) ∅ byID;
  items ← candidate_loop byID (default ∅ (bp_TransactionOrdinals plan)) candidates ∅ ∅;
  BuildBatchSIPlanWithOrdinals (candidate_block b items candidates) (Normalized config) (bp_TransactionOrdinals plan) ms.

(** SHA-256 does not collide on the two texts whose digests are compared: that of the
    plan and that of the plan computed anew. *)
Definition plan_coll_free (verify : SignedTransaction → error) (b : Block) (plan : BatchSIPlan) (config : BatchSIConfig) (ms : Z * Z)
    : Prop :=
  match recomputed_plan verify b plan config ms with
  | inr r => coll_free [digest_input (pr_Plan r)] [digest_input plan]
  | inl _ => True
  end.

(** What an accepted plan has been compared with. *)
Record recomputed (b : Block) (plan : BatchSIPlan) (config : BatchSIConfig) (items : list SignedTransaction) (r : BatchSIPlanningResult)
    : Prop := {
  rc_modes : config_mismatch plan (Normalized config) = false;
  rc_items : ∀ t, t ∈ items → t ∈ TxList b ++ bp_DeferredTransactions plan;
  rc_index : ∃ byID, indexes (TxList b ++ bp_DeferredTransactions plan) byID;
  rc_ids : TxID <$> items = items_of (bp_CandidateTransactionIDs plan);
  rc_built : ∃ ms, BuildBatchSIPlanWithOrdinals (candidate_block b items (items_of (bp_CandidateTransactionIDs plan))) (Normalized config)
               (bp_TransactionOrdinals plan) ms = inr r;
  rc_digest : bp_PlanDigest (pr_Plan r) = bp_PlanDigest plan;
  rc_order : TxID <$> TxList b = TxID <$> pr_Ordered r;
}.

Lemma verify_recomputed verify b plan config ms :
  VerifyBatchSIPlan verify b plan config ms = None →
  ∃ items r, recomputed_plan verify b plan config ms = inr r ∧ recomputed b plan config items r.
Proof.
  unfold recomputed_plan.
  unfold VerifyBatchSIPlan. set (cands := items_of (bp_CandidateTransactionIDs plan)). cbv zeta.
  destruct (config_mismatch _ _) eqn:Em; [done|]. destruct (_ && _); [done|]. destruct (size _ ≠? length cands); [done|].
  destruct (accepted_loop _ _ _) as [?|[accepted byID]] eqn:Ea; [done|]. cbn [mbind sum_mbind].
  destruct (deferred_loop _ _ _ _ _) as [?|byID'] eqn:Ed; [done|]. cbn [mbind sum_mbind].
  destruct (candidate_loop _ _ _ _ _) as [?|items] eqn:Ec; [done|]. cbn [mbind sum_mbind]. destruct (size byID' ≠? _); [done|].
  destruct (BuildBatchSIPlanWithOrdinals _ _ _ _) as [?|r] eqn:Eb; [done|]. cbn [mbind sum_mbind].
  destruct (bp_PlanDigest (pr_Plan r) ≠? _) eqn:Edg; [done|]. destruct (length (pr_Ordered r) ≠? _) eqn:El; [done|].
  destruct (first_mismatch 0 (TxList b) _) eqn:Ef; [done|]. intros _. exists items, r. split; [reflexivity|].
  apply negb_false_iff, bool_decide_eq_true in Edg, El.
  destruct (accepted_loop_spec (TxList b) [] ∅ ∅ accepted byID Ea) as [Hi Hacc].
  { split; [constructor|]. intros id t. rewrite lookup_empty. split; [done|]. by intros [?%elem_of_nil _]. } { done. }
  apply (deferred_loop_spec verify accepted (bp_DeferredTransactions plan) (TxList b) ∅ byID byID') in Ed; [|done|set_solver].
  apply candidate_loop_spec in Ec. destruct Ed as [Hnd Hin].
  split; [done| | | |by exists ms|done|by eapply first_mismatch_none].
  - intros t (i & Ht)%list_elem_of_lookup_1. destruct (Forall2_lookup_r _ _ _ _ _ Ec Ht) as (id & _ & Hid). by apply Hin in Hid as [? _].
  - by exists byID'.
  - fold cands. clearbody cands. clear -Ec Hin. induction Ec as [|id t ids ts Hid _ IH]; [done|]. rewrite fmap_cons, IH. f_equal. by apply Hin in Hid as [_ ?].
Qed.

Lemma recomputed_ordered b plan config items r : recomputed b plan config items r → pr_Ordered r = TxList b.
Proof.
  intros [_ Hit [byID Hi] _ [ms Hb] _ Ho]. destruct (build_spec _ _ _ _ _ Hb) as (finals & out & Hpl).
  symmetry. eapply (indexed_ids _ byID); [exact Hi|set_solver| |done]. intros t Ht. apply Hit.
  destruct (po_all _ _ _ _ Hpl) as (ds & Hp & Hd). change items with (TxList (candidate_block b items (items_of (bp_CandidateTransactionIDs plan)))).
  rewrite <- (do_items _ _ _ Hd), <- Hp, fmap_app, <- (po_ordered _ _ _ _ Hpl). apply elem_of_app. by left.
Qed.

Lemma recomputed_batches b plan config items r : recomputed b plan config items r → bp_PlanDigest plan = batchSIPlanDigest plan →
  plan_texts plan → Forall (λ t, json_ok (c_enc c_transaction t)) (TxList b) →
  coll_free [digest_input (pr_Plan r)] [digest_input plan] → bp_Batches (pr_Plan r) = bp_Batches plan.
Proof.
  intros [Hm Hit _ Hids [ms Hb] Hdg _] Hd Hp Htx C. apply digest_binds; [| |exact C|].
  - eapply build_texts; [exact Hb| | |].
    + rewrite normalized_idem. unfold config_mismatch in Hm. rewrite !orb_false_iff, !negb_false_iff, !bool_decide_eq_true in Hm.
      destruct Hm as [[E1 E2] E3]. rewrite <- E1, <- E2, <- E3. pose proof (px_names _ Hp) as Hn.
      rewrite !Forall_cons in Hn. rewrite !Forall_cons. destruct Hn as (?&?&?&?&?&?&_). split_and!; [done..|constructor].
    + cbn [TxList candidate_block]. rewrite Hids. apply (px_candidates _ Hp).
    + cbn [TxList candidate_block]. apply Forall_forall. intros t Ht%Hit. rewrite Forall_forall in Htx. pose proof (px_deferred _ Hp) as Hdef.
      rewrite Forall_forall in Hdef. apply elem_of_app in Ht as [?|?]; auto.
  - by apply digested_texts.
  - destruct (build_fields _ _ _ _ _ Hb) as (_&_&_&_&_&_&_& E). by rewrite <- E, Hdg.
Qed.

Lemma verified_groups verify b plan config ms :
  VerifyBatchSIPlan verify b plan config ms = None → bp_PlanDigest plan = batchSIPlanDigest plan →
  plan_texts plan → Forall (λ t, json_ok (c_enc c_transaction t)) (TxList b) → plan_coll_free verify b plan config ms →
  NoDup (TxID <$> TxList b) ∧ ∃ groups, groups_of b (items_of (bp_Batches plan)) groups ∧ mjoin groups = TxList b.
Proof.
  intros (items & r & Er & Hr)%verify_recomputed Hd Hp Htx C. unfold plan_coll_free in C. rewrite Er in C. split.
  { destruct (rc_index _ _ _ _ _ Hr) as (byID & Hnd & _). rewrite fmap_app in Hnd. by apply NoDup_app in Hnd as [? _]. }
  pose proof (recomputed_batches _ _ _ _ _ Hr Hd Hp Htx C) as Eb.
  pose proof (recomputed_ordered _ _ _ _ _ Hr) as Eo. destruct (rc_built _ _ _ _ _ Hr) as [ms' Hb].
  destruct (build_spec _ _ _ _ _ Hb) as (finals & out & Hpl). exists (plan_txs <$> finals).
  assert (mjoin (plan_txs <$> finals) = TxList b) as Ej.
  { rewrite <- Eo, <- (plan_txs_all _ _ _ _ Hpl). symmetry. apply list_bind_fmap_join. }
  split; [|done]. split_and!.
  - rewrite <- Eb. apply Forall2_fmap_r. by eapply plan_ids.
  - apply Forall_fmap, Forall_forall. intros p Hin. exact (plan_passes_by _ _ _ _ _ Hpl Hin).
  - by rewrite Ej.
Qed.

(** ** Batch-SI blocks are serializable

    A block whose plan was verified leaves the state, the receipts and the roots of
    its transactions executed one at a time in the order of the block, however the
    workers interleave; and it can always be brought to its end. *)

#[local] Opaque Sha256.sum256 sha256_hex.

(** The texts of a block's transactions are UTF-8, as those read from JSON are. *)
Definition block_utf8 (b : Block) : Prop := Forall (λ t, json_ok (c_enc c_transaction t)) (TxList b).

Definition block_declares (b : Block) : Prop := Forall (λ t, declares_accounts b t = true) (TxList b).

Definition si_start (base : gmap string string) (baseCommitment : option commitmentNode) : si_work :=
  MkSiWork base (CloneOrBuild baseCommitment base) [].

Definition si_normalized (e : BatchSIExecutor) : BatchSIExecutor :=
  MkBatchSIExecutor (Normalized (se_Config e)) (se_DefaultInitialBalance e).

Lemma digest_right plan : digest_wrong plan = false → bp_PlanDigest plan = batchSIPlanDigest plan.
Proof. unfold digest_wrong. intros [_ E%negb_false_iff%bool_decide_eq_true]%orb_false_iff. done. Qed.

Lemma verify_normalized verify b plan config ms :
  VerifyBatchSIPlan verify b plan (Normalized config) ms = VerifyBatchSIPlan verify b plan config ms.
Proof. unfold VerifyBatchSIPlan. by rewrite normalized_idem. Qed.

(** What the calls have checked when the batches start. *)
Lemma execute_admitted verify ms e b base bc plan preverified cancelled schedule r :
  ExecuteConsensusPlanWithCommitment verify ms e b base bc plan preverified cancelled schedule = SiReturned r →
  (preverified = true → VerifyBatchSIPlan verify b plan (se_Config e) ms = None) →
  VerifyBatchSIPlan verify b plan (se_Config e) ms = None ∧
  executeConsensusPlanWithCommitment (si_normalized e) b base bc plan cancelled schedule = SiReturned r.
Proof.
  unfold ExecuteConsensusPlanWithCommitment. fold (si_normalized e). cbv zeta. destruct (ConfigValidate _); [done|].
  destruct (ExecutionPlan b) as [env|]; [|done]. destruct (_ ≠? _); [done|]. destruct (_ || _); [done|]. intros H Hpre.
  destruct preverified.
  - destruct (ValidateBatchSIPlanProjection _ _ _); [done|]. split; [by apply Hpre|done].
  - change (se_Config (si_normalized e)) with (Normalized (se_Config e)) in H. rewrite verify_normalized in H.
    by destruct (VerifyBatchSIPlan _ _ _ _ _).
Qed.

Lemma verified_loop verify ms e b plan : VerifyBatchSIPlan verify b plan (se_Config e) ms = None →
  digest_wrong plan = false → plan_utf8 plan → block_utf8 b → plan_coll_free verify b plan (se_Config e) ms →
  NoDup (TxID <$> TxList b) ∧ ∃ groups, groups_of b (items_of (bp_Batches plan)) groups ∧ mjoin groups = TxList b.
Proof. intros Hv Hd%digest_right Hp%plan_utf8_texts Hb C. by eapply verified_groups. Qed.

(** C4: A Batch-SI block that is executed with a verified plan is serializable: the
    final state, the write sets, the receipts and all state roots are those of its
    transactions executed one at a time in the order of the block, each on the state
    the one before it leaves, for every number of workers and every interleaving of
    them. The plan was verified, in the call or before it; its digest is that of its
    text; SHA-256 does not collide on the text of the plan and that of the plan that
    the verification computed; all texts are UTF-8; the transactions declare the
    accounts they transfer between; no two declared keys name the same cell. *)
Theorem batch_si_serializable (verify : SignedTransaction → error) (ms : Z * Z) (e : BatchSIExecutor) (b : Block)
    (base : gmap string string) (baseCommitment : option commitmentNode) (plan : BatchSIPlan)
    (preverified cancelled : bool) (schedule : si_schedule) (r : Result) :
  ExecuteConsensusPlanWithCommitment verify ms e b base baseCommitment plan preverified cancelled schedule = SiReturned r →
  (preverified = true → VerifyBatchSIPlan verify b plan (se_Config e) ms = None) →
  digest_wrong plan = false → plan_utf8 plan → block_utf8 b → plan_coll_free verify b plan (se_Config e) ms →
  block_declares b → si_unaliased b = true →
  ∃ w, si_serial (se_DefaultInitialBalance e) b (numbered (TxList b)) (si_start base baseCommitment) = inr w ∧
    r = si_block_result (si_normalized e) b base plan (CommitmentRoot (Some (CloneOrBuild baseCommitment base))) w.
Proof.
  intros Hr Hpre Hd Hp Hb C Hdec Hu. destruct (execute_admitted _ _ _ _ _ _ _ _ _ _ _ Hr Hpre) as [Hv Hx]. clear Hr Hpre.
  destruct (verified_loop verify ms e b plan Hv Hd Hp Hb C) as (Hnd & groups & Hg & Ej).
  assert (si_block_ok b) as Hok by (split; [done|by apply Forall_forall|done]).
  pose proof (loop_is_serial (si_normalized e) b (si_worker_count (si_normalized e)) schedule _ groups 0 cancelled
    (si_start base baseCommitment) Hok Hg) as H.
  unfold executeConsensusPlanWithCommitment in Hx. cbv zeta in Hx. unfold si_start in H.
  destruct (batch_loop _ _ _ _ _ _ _ _) as [|?|w]; [done|done|]. injection Hx as <-. exists w. split; [|done].
  by rewrite Ej, at_index_numbered in H.
Qed.

Lemma worker_count_pos e : (0 < si_worker_count e)%nat.
Proof. unfold si_worker_count. case_bool_decide; lia. Qed.

(** C10: A Batch-SI block with a verified plan comes to its end: as long as nobody ends
    the context, some interleaving of the sender and the workers lets every batch
    finish, and the call returns a result or reports a write that was not declared.
    The plan's digest is that of its text, the texts are UTF-8, and SHA-256 does not
    collide on the text of the plan and that of the plan the verification computed. *)
Theorem batch_si_returns (verify : SignedTransaction → error) (ms : Z * Z) (e : BatchSIExecutor) (b : Block)
    (base : gmap string string) (baseCommitment : option commitmentNode) (plan : BatchSIPlan) :
  VerifyBatchSIPlan verify b plan (se_Config e) ms = None →
  digest_wrong plan = false → plan_utf8 plan → block_utf8 b → plan_coll_free verify b plan (se_Config e) ms →
  ∃ schedule, match executeConsensusPlanWithCommitment e b base baseCommitment plan false schedule with
    | SiReturned _ => True
    | SiFailed err => ∃ id, err = BsUndeclaredWrite id
    | SiRunning => False
    end.
Proof.
  intros Hv Hd Hp Hb C. destruct (verified_loop verify ms e b plan Hv Hd Hp Hb C) as (Hnd & groups & Hg & Ej).
  destruct (loop_returns e b (si_worker_count e) _ (worker_count_pos e) Hnd groups 0 (si_start base baseCommitment) Hg) as [schedule Hf].
  exists schedule. unfold executeConsensusPlanWithCommitment. cbv zeta. unfold si_start in Hf.
  pose proof (loop_errors e b (si_worker_count e) schedule _ groups 0 false (MkSiWork base (CloneOrBuild baseCommitment base) []) Hnd Hg) as He.
  destruct (batch_loop _ _ _ _ _ _ _ _) as [|err|w]; [by destruct Hf| |done]. destruct He as [->|?]; [by destruct Hf|done].
Qed.
