(* ===== verification/BatchSICodec.v ===== *)
(** * Batch-SI plans on the wire

    The laws of the plan's types, and the round trip of a plan through
    [MarshalBatchSIPlan] and [ParseBatchSIPlan]. *)
From S2P Require Import Prelude GoStd GoJson JsonRoundtrip GoStruct Tx Block BlockCodec StateRoot Heap Serial BatchSI BatchSIWire BatchSIParts Kahn BatchSIOrder BatchSIBuild.
Import Json.
Local Open Scope Z_scope.
#[local] Opaque Sha256.sum256 sha256_hex.

(** ** Laws *)

Section map_codec.
Context {T} (c : codec T) (Hc : lawful c).

Lemma load_entries (m : gmap string T) ks : (∀ k, k ∈ ks → ∃ t, m !! k = Some t ∧ c_ok c t) → ∀ m0,
  foldl (load_entry c) (Some m0)
    (map (λ '(k, v), (k, (value_of v, bytes_of_string (marshal v)))) ((λ k, (k, c_enc c (default (c_zero c) (m !! k)))) <$> ks)) =
  Some (foldl (λ acc k, <[k := default (c_zero c) (m !! k)]> acc) m0 ks).
Proof using Hc.
  induction ks as [|k ks IH]; intros Hk m0; [done|]. rewrite fmap_cons. cbn [map foldl]. unfold load_entry at 2.
  cbn [fst snd mbind option_bind]. destruct (Hk k) as (t & Et & Hok); [left|]. rewrite Et. cbn [default from_option id].
  destruct (Hc t Hok) as [_ ->]. cbn [mbind option_bind]. apply IH. intros x Hx. apply Hk. by right.
Qed.

Lemma load_all (m : gmap string T) : foldl (λ acc k, <[k := default (c_zero c) (m !! k)]> acc) ∅ (sorted_keys m) = m.
Proof.
  assert (∀ ks (m0 : gmap string T) k, (∀ x, x ∈ ks → is_Some (m !! x)) →
    foldl (λ acc k, <[k := default (c_zero c) (m !! k)]> acc) m0 ks !! k = if decide (k ∈ ks) then m !! k else m0 !! k) as H.
  { induction ks as [|x ks IH]; intros m0 k Hs; cbn [foldl]; [by rewrite decide_False by apply not_elem_of_nil|].
    rewrite IH by (intros; apply Hs; by right). destruct (decide (k ∈ ks)) as [Hin|Hin]; [by rewrite decide_True by (by right)|].
    rewrite lookup_insert. case_decide as E.
    - subst. rewrite decide_True by left. destruct (Hs k ltac:(left)) as [t ->]. done.
    - rewrite decide_False; [done|]. by intros [->|?]%elem_of_cons. }
  apply map_eq. intros k. rewrite H by (intros x; apply elem_of_sorted_keys). case_decide as E; [done|].
  rewrite elem_of_sorted_keys in E. rewrite lookup_empty. destruct (m !! k); [|done]. destruct E. by eexists.
Qed.

Lemma map_lawful : lawful (c_map c).
Proof using Hc.
  intros [m|] Hok; [|done]. destruct Hok as [_ Hok].
  assert (∀ k, k ∈ sorted_keys m → ∃ t, m !! k = Some t ∧ c_ok c t) as Hk.
  { intros k [t Ht]%elem_of_sorted_keys. exists t. split; [done|]. by eapply Hok. }
  split.
  - change (json_ok (JObj (map_fields c m))). cbn [json_ok]. unfold map_fields. clear -Hc Hok Hk.
    induction (sorted_keys m) as [|k ks IH]; [done|]. rewrite fmap_cons. cbn [fold_right].
    destruct (Hk k) as (t & Et & Ht); [left|]. split; [|apply IH; intros; apply Hk; by right].
    rewrite Et. split; [by eapply Hok|]. apply (Hc t Ht).
  - change (c_dec (c_map c) (VObj (map (λ '(k, v), (k, (value_of v, bytes_of_string (marshal v)))) (map_fields c m)))
      (bytes_of_string (marshal (c_enc (c_map c) (Some m)))) None = Some (Some m)).
    cbn [c_map c_dec default from_option]. unfold map_fields. rewrite load_entries by done. by rewrite load_all.
Qed.

Lemma map_omit : omit_lawful (c_map c).
Proof using Hc.
  intros k [m|] Hok; [right|by left]. split; [|by apply map_lawful]. destruct Hok as [Hne _]. cbn [c_map c_opt].
  rewrite bool_decide_eq_false_2; [done|]. by rewrite map_size_empty_iff.
Qed.

Lemma map_tested : tested c → tested (c_map c).
Proof.
  intros Ht [m|] H; [|done]. cbn [c_map c_test] in H. apply andb_true_iff in H as [Hne%negb_true_iff%bool_decide_eq_false H]. split.
  - intros ->. by rewrite map_size_empty in Hne.
  - intros k t Hk%elem_of_map_to_list. apply (forallb_elem _ _ _ H) in Hk. apply andb_true_iff in Hk as [? ?].
    split; [by apply string_tested|by apply Ht].
Qed.
End map_codec.

Lemma map_textless {T} (c : codec T) : textless (c_map c).
Proof. by intros [] raw old. Qed.
#[export] Hint Resolve map_lawful map_omit map_tested map_textless : codec.

Lemma batch_lawful : lawful c_batch.
Proof. solve_struct. Qed.
Lemma batch_tested : tested c_batch.
Proof. solve_tested. Qed.
Lemma plan_metrics_lawful : lawful c_plan_metrics.
Proof. solve_struct. Qed.
Lemma plan_metrics_tested : tested c_plan_metrics.
Proof. solve_tested. Qed.
Lemma order_evidence_lawful : lawful c_order_evidence.
Proof. solve_struct. Qed.
Lemma order_evidence_tested : tested c_order_evidence.
Proof. solve_tested. Qed.
#[export] Hint Resolve batch_lawful batch_tested plan_metrics_lawful plan_metrics_tested order_evidence_lawful order_evidence_tested : codec.

Lemma batch_si_plan_lawful : lawful c_batch_si_plan.
Proof. solve_struct. Qed.
Lemma batch_si_plan_tested : tested c_batch_si_plan.
Proof. solve_tested. Qed.
Lemma batch_si_wire_lawful : lawful c_batch_si_wire.
Proof. solve_struct. Qed.

(** ** Well-formed plans *)

Record plan_wf (p : BatchSIPlan) (ids : list string) (o : gmap string Z) : Prop := {
  pw_supported : unsupported (bp_AlgorithmID p) (bp_Version p) = false;
  pw_candidates : bp_CandidateTransactionIDs p = Some ids;
  pw_nonempty : ids ≠ [];
  pw_nodup : NoDup ids;
  pw_named : Forall (λ id, blank id = false) ids;
  pw_ordinals : bp_TransactionOrdinals p = Some o;
  pw_size : size o = length ids;
  pw_evidence : bp_OrderEvidence p = Some (batchSIOrderEvidence (Some o) (items_of (bp_Batches p)));
  pw_batches : bp_Batches p = copied_slice (items_of (bp_Batches p));
  pw_digest : digest_wrong p = false;
}.

Lemma wire_ordinals_loop_spec ids : ∀ index m, NoDup ids → Forall (λ id, blank id = false) ids → (∀ id, id ∈ ids → m !! id = None) →
  ∃ m', wire_ordinals_loop index ids m = inr m' ∧ (∀ i id, ids !! i = Some id → m' !! id = Some (index + Z.of_nat i + 1)) ∧
    ∀ id, id ∉ ids → m' !! id = m !! id.
Proof.
  induction ids as [|id ids IH]; intros index m Hnd Hb Hm; [by exists m|]. cbn [wire_ordinals_loop].
  apply NoDup_cons in Hnd as [Hid Hnd]. apply Forall_cons in Hb as [-> Hb]. rewrite (Hm id) by left.
  rewrite bool_decide_eq_false_2 by (by intros [? ?]).
  destruct (IH (index + 1) (<[id := index + 1]> m) Hnd Hb) as (m' & E & H1 & H2).
  { intros x Hx. rewrite lookup_insert_ne by (by intros ->). apply Hm. by right. }
  exists m'. split_and!; [done| |].
  - intros [|i] x Hx; cbn in Hx; [|rewrite (H1 i x Hx); f_equal; lia]. simplify_eq. rewrite H2 by done.
    rewrite lookup_insert_eq. f_equal. lia.
  - intros x [Hne Hx]%not_elem_of_cons. by rewrite H2, lookup_insert_ne by congruence.
Qed.

Lemma size_nodup_covers (o : gmap string Z) ids : NoDup ids → size o = length ids → (∀ id, id ∈ ids → is_Some (o !! id)) →
  ∀ k, is_Some (o !! k) → k ∈ ids.
Proof.
  intros Hnd Hs Hin k Hk. assert ((list_to_set ids : gset string) = dom o) as E.
  { apply set_subseteq_size_eq; [intros x Hx; apply elem_of_dom; set_solver|]. rewrite size_list_to_set by done.
    rewrite size_dom. lia. }
  apply (elem_of_list_to_set (C := gset string)). rewrite E. by apply elem_of_dom.
Qed.

Lemma canonical_lookup ids (o : gmap string Z) : batchSIOrdinalsAreCanonical ids o = true →
  ∀ i id, ids !! i = Some id → o !! id = Some (Z.of_nat i + 1).
Proof.
  unfold batchSIOrdinalsAreCanonical. intros [_ H]%andb_true_iff i id Hi.
  assert ((Z.of_nat i, id) ∈ zip (seqZ 0 (count ids)) ids) as Hin.
  { apply (list_elem_of_lookup_2 _ i). apply lookup_zip_with_Some. exists (Z.of_nat i), id. split_and!; [done| |done].
    apply lookup_seqZ. apply lookup_lt_Some in Hi. unfold count. lia. }
  pose proof (forallb_elem _ _ _ H Hin) as Hx. cbn [fst snd] in Hx. apply andb_true_iff in Hx as [_ Hx%Z.eqb_eq].
  unfold zget in Hx. destruct (o !! id) as [z|]; cbn in Hx; [by subst|lia].
Qed.

(** The ordinals come back. *)
Lemma wire_ordinals_back ids (o : gmap string Z) : ids ≠ [] → NoDup ids → Forall (λ id, blank id = false) ids → size o = length ids →
  batchSIWireOrdinals ids (if batchSIOrdinalsAreCanonical ids o then None else Some o) = inr o.
Proof.
  intros Hne Hnd Hb Hs. unfold batchSIWireOrdinals. destruct (batchSIOrdinalsAreCanonical ids o) eqn:Ec; cbn [default from_option id].
  - rewrite map_size_empty. cbn [Z.of_nat Z.ltb]. change (0 <? 0) with false. cbn iota.
    destruct (wire_ordinals_loop_spec ids 0 ∅ Hnd Hb) as (m' & -> & H1 & H2); [intros; apply lookup_empty|]. f_equal.
    pose proof (canonical_lookup ids o Ec) as Hl. apply map_eq. intros k. destruct (decide (k ∈ ids)) as [Hk|Hk].
    + apply list_elem_of_lookup_1 in Hk as [i Hi]. by rewrite (H1 i k Hi), (Hl i k Hi).
    + rewrite H2, lookup_empty by done. destruct (o !! k) eqn:E; [|done]. destruct Hk.
      apply (size_nodup_covers o ids Hnd Hs); [|by eexists]. intros x [i Hi]%list_elem_of_lookup_1. rewrite (Hl i x Hi). by eexists.
  - assert (0 < Z.of_nat (size o)) as Hp by (rewrite Hs; destruct ids; [done|cbn; lia]). rewrite (proj2 (Z.ltb_lt _ _) Hp).
    rewrite Hs. by rewrite bool_decide_eq_true_2.
Qed.

Lemma wire_ok p ids o : plan_wf p ids o → c_ok c_batch_si_plan p → c_ok c_batch_si_wire (wire_of p).
Proof.
  intros Hw Hok. cbn [c_batch_si_plan c_ok c_struct] in Hok. cbn [c_batch_si_wire c_ok c_struct].
  rewrite !Forall_cons in Hok. rewrite !Forall_cons. cbn [f_codec f_get f_type] in *.
  destruct Hok as (H1&H2&H3&H4&H5&H6&H7&H8&H9&H10&H11&H12&H13&_).
  unfold wire_of. cbn [bw_AlgorithmID bw_Version bw_WireVersion bw_BlockHeight bw_PartitionMode bw_OrderingMode bw_PriorityMode
    bw_CandidateTransactionIDs bw_DeferredTransactions bw_TransactionOrdinals bw_Batches bw_Metrics bw_PlanDigest].
  split_and!; try done.
  - by apply name_utf8.
  - rewrite (pw_candidates _ _ _ Hw) in H7 |- *. cbn [items_of default from_option]. by destruct ids.
  - rewrite (pw_ordinals _ _ _ Hw) in H9 |- *. by destruct (batchSIOrdinalsAreCanonical _ _).
  - by rewrite <- (pw_batches _ _ _ Hw).
Qed.

Lemma wf_roundtrip p ids o : plan_wf p ids o → c_ok c_batch_si_plan p →
  ∃ raw, MarshalBatchSIPlan p = inr raw ∧ ParseBatchSIPlan raw = inr p.
Proof.
  intros Hw Hok. pose proof (wire_ok p ids o Hw Hok) as Hwire. exists (bytes_of_string (Marshal c_batch_si_wire (wire_of p))). split.
  - unfold MarshalBatchSIPlan. rewrite (pw_supported _ _ _ Hw), (pw_digest _ _ _ Hw).
    assert (set_order_evidence p (Some (batchSIOrderEvidence (bp_TransactionOrdinals p) (items_of (bp_Batches p)))) = p) as ->.
    { rewrite (pw_ordinals _ _ _ Hw), <- (pw_evidence _ _ _ Hw). by destruct p. }
    pose proof (pw_digest _ _ _ Hw) as Hd. unfold digest_wrong in Hd. apply orb_false_iff in Hd as [_ Hd%negb_false_iff%bool_decide_eq_true].
    rewrite <- Hd. by rewrite bool_decide_eq_true_2.
  - unfold ParseBatchSIPlan. rewrite string_of_bytes_of, (unmarshal_marshal _ _ batch_si_wire_lawful Hwire). unfold wire_of.
    cbn [bw_AlgorithmID bw_Version bw_WireVersion bw_BlockHeight bw_PartitionMode bw_OrderingMode bw_PriorityMode
      bw_CandidateTransactionIDs bw_DeferredTransactions bw_TransactionOrdinals bw_Batches bw_Metrics bw_PlanDigest].
    change (BatchSIConsensusWireVersion ≟ "") with false. cbn iota. change (BatchSIConsensusWireVersion ≠? BatchSIConsensusWireVersion) with false.
    cbn iota. rewrite (pw_supported _ _ _ Hw), (pw_candidates _ _ _ Hw), (pw_ordinals _ _ _ Hw). cbn [default from_option id].
    rewrite !items_of_copied. cbn [items_of default from_option id].
    rewrite wire_ordinals_back by apply Hw. cbn [mbind sum_mbind]. unfold checked_plan.
    match goal with |- context [digest_wrong ?q] => assert (q = p) as -> end; [|by rewrite (pw_digest _ _ _ Hw)].
    rewrite <- (pw_batches _ _ _ Hw), <- (pw_evidence _ _ _ Hw), <- (pw_ordinals _ _ _ Hw).
    pose proof (pw_candidates _ _ _ Hw) as Ec. pose proof (pw_nonempty _ _ _ Hw) as Hne.
    assert (copied_slice ids = bp_CandidateTransactionIDs p) as -> by (rewrite Ec; by destruct ids). by destruct p.
Qed.
