(* ===== verification/BatchSIProposal.v ===== *)
(** * An honest Batch-SI proposal

    The plan of a non-empty block survives the wire, and the block a scheduler
    proposes passes the verification of every node with the same configuration. *)
From S2P Require Import Prelude GoStd GoJson JsonRoundtrip GoStruct Tx Block BlockCodec StateRoot Heap Serial SerialProps BatchSI BatchSIWire BatchSIParts Kahn BatchSIOrder BatchSIBuild BatchSIPool BatchSIExec BatchSISerial BatchSIBinding BatchSITheorems BatchSICodec.
Import Json.
Local Open Scope Z_scope.
#[local] Opaque Sha256.sum256 sha256_hex.

(** ** The ordinals of a plan *)

Lemma descriptors_loop_ranks shardID ordinals items : ∀ index seen so ds, 0 <= index →
  descriptors_loop shardID ordinals index items seen so = inr ds →
  Forall (λ t, blank (TxID t) = false) items ∧ (∀ d, d ∈ ds → 1 <= ds_IDRank d) ∧
  ∀ m index', (∀ d, d ∈ ds → zget m (ds_TxID d) = ds_IDRank d) →
    descriptors_loop shardID (Some m) index' items seen so = inr ds.
Proof.
  induction items as [|item items IH]; intros index seen so ds Hi H; cbn [descriptors_loop] in H.
  { simplify_eq. split_and!; [constructor|by intros d ?%elem_of_nil|done]. }
  destruct (blank (TxID item)) eqn:Eb; [done|]. destruct (bool_decide (TxID item ∈ seen)) eqn:Es; [done|]. cbv zeta in H.
  set (given := match ordinals with Some m => zget m (TxID item) | None => 0 end) in *. destruct (_ && _); [done|].
  set (ordinal := if given <? 1 then index + 1 else given) in *. assert (1 <= ordinal) as Ho.
  { unfold ordinal. destruct (Z.ltb_spec given 1); lia. }
  destruct (bool_decide (ordinal ∈ so)) eqn:Eo; [done|]. destruct (descriptors_loop _ _ _ _ _ _) as [?|out] eqn:E; [done|].
  cbn in H. simplify_eq. apply IH in E as (H1 & H2 & H3); [|lia]. destruct (descriptor_described shardID item ordinal) as [Hd Hit].
  assert (ds_TxID (descriptor_of shardID item ordinal) = TxID item ∧ ds_IDRank (descriptor_of shardID item ordinal) = ordinal) as [E1 E2].
  { unfold descriptor_of. by destruct (batchSIDeclaredAccess item shardID). }
  split_and!; [by constructor|intros d [->|?]%elem_of_cons; [by rewrite E2|auto]|].
  intros m index' Hm. cbn [descriptors_loop]. rewrite Eb, Es. cbv zeta.
  assert (zget m (TxID item) = ordinal) as -> by (rewrite <- E1; rewrite Hm by left; exact E2).
  assert ((ordinal <? 1) = false) as -> by (apply Z.ltb_ge; lia). cbn [andb]. rewrite Eo.
  rewrite (H3 m (index' + 1)); [done|]. intros d Hin. apply Hm. by right.
Qed.

Lemma normalized_lookup (ds : list batchSITxDescriptor) d : NoDup (ds_TxID <$> ds) → d ∈ ds →
  zget (list_to_map ((λ d, (ds_TxID d, ds_IDRank d)) <$> ds)) (ds_TxID d) = ds_IDRank d.
Proof.
  intros Hnd Hd. unfold zget. erewrite elem_of_list_to_map_1; [done| |].
  - by rewrite <- list_fmap_compose.
  - apply list_elem_of_fmap. by exists d.
Qed.

Lemma normalized_size (ds : list batchSITxDescriptor) : NoDup (ds_TxID <$> ds) →
  size (list_to_map ((λ d, (ds_TxID d, ds_IDRank d)) <$> ds) : gmap string Z) = length ds.
Proof.
  intros Hnd. rewrite <- size_dom, dom_list_to_map_L, size_list_to_set by (by rewrite <- list_fmap_compose).
  by rewrite !length_fmap.
Qed.

(** The ordinals of a plan give its descriptors back. *)
Lemma descriptors_again items ordinals shardID ds o : batchSIDescriptors items ordinals shardID = inr (ds, o) →
  batchSIDescriptors items (Some o) shardID = inr (ds, o) ∧ size o = length items ∧ NoDup (TxID <$> items) ∧
  Forall (λ t, blank (TxID t) = false) items.
Proof.
  unfold batchSIDescriptors. destruct (descriptors_loop shardID ordinals 0 items ∅ ∅) as [?|out] eqn:E; [done|]. cbn [mbind sum_mbind].
  intros [= <- <-]. destruct (descriptors_loop_ranks _ _ _ _ _ _ _ (Z.le_refl 0) E) as (H1 & _ & H3).
  destruct (descriptors_loop_spec _ _ _ _ _ _ _ E) as [Hd _]. pose proof (do_ids _ _ _ Hd) as Hnd.
  rewrite (H3 _ 0) by (intros d Hin; by apply normalized_lookup). split_and!; [done| | |done].
  - by rewrite normalized_size, <- (do_items _ _ _ Hd), length_fmap.
  - assert (TxID <$> items = ds_TxID <$> out) as ->; [|done]. rewrite <- (do_items _ _ _ Hd), <- list_fmap_compose.
    apply list_fmap_ext. intros i d Hi%list_elem_of_lookup_2. cbn. symmetry. by apply (de_id shardID), (do_described _ _ _ Hd).
Qed.

Lemma set_digest_ordinals p d : bp_TransactionOrdinals (set_digest p d) = bp_TransactionOrdinals p.
Proof. by destruct p. Qed.
Lemma set_digest_value p d : bp_PlanDigest (set_digest p d) = d.
Proof. by destruct p. Qed.

(** Planning again with the plan's own ordinals. *)
Lemma build_again b config ordinals ms r b' ms' : BuildBatchSIPlanWithOrdinals b config ordinals ms = inr r →
  TxList b' = TxList b → ShardID b' = ShardID b → Height b' = Height b →
  ∃ r', BuildBatchSIPlanWithOrdinals b' (Normalized config) (bp_TransactionOrdinals (pr_Plan r)) ms' = inr r' ∧
    pr_Ordered r' = pr_Ordered r ∧ pr_Deferred r' = pr_Deferred r ∧ bp_PlanDigest (pr_Plan r') = bp_PlanDigest (pr_Plan r).
Proof.
  unfold BuildBatchSIPlanWithOrdinals. rewrite normalized_idem. destruct (ConfigValidate _); [done|]. generalize (Normalized config). clear config.
  intros config H Et Es Eh. rewrite Et, Es, Eh. destruct (batchSIDescriptors _ _ _) as [?|[ds o]] eqn:Ed; [done|]. cbn [mbind sum_mbind] in H.
  destruct (batchSIBuildAWRT ds) as [awrt refs] eqn:Ea. destruct (partition_items config ds) as [ps reuse] eqn:Ep. cbv zeta in H.
  injection H as <-. cbn [pr_Plan pr_Ordered pr_Deferred]. rewrite set_digest_ordinals. cbn [bp_TransactionOrdinals].
  apply descriptors_again in Ed as (Ed & _). rewrite Ed. cbn [mbind sum_mbind]. rewrite Ea, Ep. cbv zeta.
  eexists. split; [reflexivity|]. cbn [pr_Ordered pr_Deferred pr_Plan]. split_and!; [done|done|].
  rewrite !set_digest_value. reflexivity.
Qed.

(** ** The plan *)

Lemma build_ids b config ordinals ms r : BuildBatchSIPlanWithOrdinals b config ordinals ms = inr r →
  ∃ o, bp_TransactionOrdinals (pr_Plan r) = Some o ∧ size o = length (TxList b) ∧ NoDup (TxID <$> TxList b) ∧
    Forall (λ t, blank (TxID t) = false) (TxList b) ∧
    bp_OrderEvidence (pr_Plan r) = Some (batchSIOrderEvidence (Some o) (items_of (bp_Batches (pr_Plan r)))).
Proof.
  unfold BuildBatchSIPlanWithOrdinals. destruct (ConfigValidate _); [done|]. destruct (batchSIDescriptors _ _ _) as [?|[ds o]] eqn:Ed; [done|].
  cbn [mbind sum_mbind]. apply descriptors_again in Ed as (_ & H1 & H2 & H3). destruct (batchSIBuildAWRT ds) as [awrt refs].
  destruct (partition_items _ ds) as [ps reuse]. cbv zeta. intros [= <-]. by exists o.
Qed.

Lemma build_wf b config ordinals ms r : BuildBatchSIPlanWithOrdinals b config ordinals ms = inr r → TxList b ≠ [] →
  ∃ o, plan_wf (pr_Plan r) (TxID <$> TxList b) o.
Proof.
  intros Hr Hne. destruct (build_ids _ _ _ _ _ Hr) as (o & E1 & E2 & E3 & E4 & E5). exists o.
  pose proof (build_fields _ _ _ _ _ Hr) as (F1 & F2 & _ & _ & _ & F6 & _ & F8).
  destruct (build_spec _ _ _ _ _ Hr) as (finals & out & Hpl). split.
  - by rewrite F1, F2.
  - done.
  - by destruct (TxList b).
  - done.
  - by apply Forall_fmap.
  - done.
  - by rewrite length_fmap.
  - done.
  - by rewrite (po_batches _ _ _ _ Hpl), items_of_copied.
  - unfold digest_wrong. apply orb_false_iff. split.
    + apply bool_decide_eq_false. rewrite F8. apply sha256_hex_nonempty.
    + by apply negb_false_iff, bool_decide_eq_true.
Qed.

(** C17: The plan of a non-empty block survives the compact wire: what
    [MarshalBatchSIPlan] prints is what [ParseBatchSIPlan] reads, ordinals, order
    evidence and digest included, for every way to number the candidates. *)
Theorem batch_si_plan_roundtrip (b : Block) (config : BatchSIConfig) (ordinals : option (gmap string Z)) (ms : Z * Z)
    (r : BatchSIPlanningResult) :
  BuildBatchSIPlanWithOrdinals b config ordinals ms = inr r → TxList b ≠ [] → c_ok c_batch_si_plan (pr_Plan r) →
  ∃ raw, MarshalBatchSIPlan (pr_Plan r) = inr raw ∧ ParseBatchSIPlan raw = inr (pr_Plan r).
Proof. intros Hr Hne Hok. destruct (build_wf _ _ _ _ _ Hr Hne) as [o Hw]. by eapply wf_roundtrip. Qed.

(** ** Verification of an honest proposal *)

Lemma accepted_loop_ok items : ∀ accepted byID, NoDup (TxID <$> items) → (∀ t, t ∈ items → TxID t ≠ "" ∧ TxID t ∉ accepted) →
  ∃ r, accepted_loop items accepted byID = inr r.
Proof.
  induction items as [|t items IH]; intros accepted byID Hnd H; [by eexists|]. cbn [accepted_loop]. rewrite fmap_cons in Hnd.
  apply NoDup_cons in Hnd as [Ht Hnd]. destruct (H t) as [H1 H2]; [left|]. rewrite !bool_decide_eq_false_2 by done. cbn [orb].
  apply IH; [done|]. intros u Hu. destruct (H u) as [H3 H4]; [by right|]. split; [done|]. intros [E%elem_of_singleton|?]%elem_of_union; [|done].
  apply Ht. rewrite <- E. by apply list_elem_of_fmap_2.
Qed.

Lemma deferred_loop_ok verify accepted items : ∀ deferred byID, NoDup (TxID <$> items) →
  (∀ t, t ∈ items → TxID t ≠ "" ∧ (TxID t ∉ accepted) ∧ (TxID t ∉ deferred) ∧ verify t = None) →
  ∃ byID', deferred_loop verify accepted items deferred byID = inr byID'.
Proof.
  induction items as [|t items IH]; intros deferred byID Hnd H; [by eexists|]. cbn [deferred_loop]. rewrite fmap_cons in Hnd.
  apply NoDup_cons in Hnd as [Ht Hnd]. destruct (H t) as (H1 & H2 & H3 & H4); [left|].
  rewrite (bool_decide_eq_false_2 (TxID t = "")), (bool_decide_eq_false_2 (_ ∈ deferred)), (bool_decide_eq_false_2 (_ ∈ accepted)) by done.
  cbn [orb]. rewrite H4, andb_false_r. apply IH; [done|]. intros u Hu. destruct (H u) as (U1 & U2 & U3 & U4); [by right|].
  split_and!; [done|done| |done]. intros [E%elem_of_singleton|?]%elem_of_union; [|done]. apply Ht. rewrite <- E. by apply list_elem_of_fmap_2.
Qed.

Lemma candidate_loop_ok byID ordinals items : ∀ seen so, NoDup (TxID <$> items) → NoDup ((λ t, zget ordinals (TxID t)) <$> items) →
  (∀ t, t ∈ items → TxID t ≠ "" ∧ (TxID t ∉ seen) ∧ byID !! TxID t = Some t ∧ 1 <= zget ordinals (TxID t) ∧ zget ordinals (TxID t) ∉ so) →
  candidate_loop byID ordinals (TxID <$> items) seen so = inr items.
Proof.
  induction items as [|t items IH]; intros seen so Hnd Hno H; [done|]. rewrite fmap_cons in Hnd. rewrite fmap_cons in Hno. rewrite fmap_cons. cbn [candidate_loop].
  apply NoDup_cons in Hnd as [Ht Hnd], Hno as [Ho Hno]. destruct (H t) as (H1 & H2 & H3 & H4 & H5); [left|].
  rewrite (bool_decide_eq_false_2 (TxID t = "")), (bool_decide_eq_false_2 (_ ∈ seen)) by done. cbn [orb]. rewrite H3. cbv zeta.
  rewrite (proj2 (Z.ltb_ge _ _) H4), (bool_decide_eq_false_2 (_ ∈ so)) by done. cbn [orb]. rewrite IH; [done..|].
  intros u Hu. destruct (H u) as (U1 & U2 & U3 & U4 & U5); [by right|]. split_and!; [done| |done|done|].
  - intros [E%elem_of_singleton|?]%elem_of_union; [|done]. apply Ht. rewrite <- E. by apply list_elem_of_fmap_2.
  - intros [E%elem_of_singleton|?]%elem_of_union; [|done]. apply Ho. rewrite <- E. by apply (list_elem_of_fmap_2 (λ t, zget ordinals (TxID t))).
Qed.

Lemma first_mismatch_same l : ∀ i, first_mismatch i l l = None.
Proof. induction l as [|t l IH]; intros i; [done|]. cbn [first_mismatch]. by rewrite bool_decide_eq_true_2. Qed.

Lemma ranks_nodup shardID ordinals items : ∀ index seen so ds, descriptors_loop shardID ordinals index items seen so = inr ds →
  NoDup (ds_IDRank <$> ds) ∧ ∀ d, d ∈ ds → ds_IDRank d ∉ so.
Proof.
  induction items as [|item items IH]; intros index seen so ds H; cbn [descriptors_loop] in H.
  { simplify_eq. split; [constructor|by intros d ?%elem_of_nil]. }
  destruct (blank _); [done|]. destruct (bool_decide _); [done|]. cbv zeta in H. destruct (_ && _); [done|].
  match type of H with context [bool_decide (?z ∈ so)] => set (ordinal := z) in * end.
  destruct (bool_decide (ordinal ∈ so)) eqn:Eo; [done|]. apply bool_decide_eq_false in Eo.
  destruct (descriptors_loop _ _ _ _ _ _) as [?|out] eqn:E; [done|]. cbn in H. simplify_eq. apply IH in E as [H1 H2].
  assert (ds_IDRank (descriptor_of shardID item ordinal) = ordinal) as Er.
  { unfold descriptor_of. by destruct (batchSIDeclaredAccess item shardID). }
  split.
  - rewrite fmap_cons. constructor; [|done]. rewrite Er. intros (d & E & Hin)%list_elem_of_fmap. apply (H2 d Hin).
    apply elem_of_union_l. by apply elem_of_singleton.
  - intros d [->|Hin]%elem_of_cons; [by rewrite Er|]. intros Hs. apply (H2 d Hin). by apply elem_of_union_r.
Qed.

Lemma build_ordinals b config ordinals ms r o : BuildBatchSIPlanWithOrdinals b config ordinals ms = inr r →
  bp_TransactionOrdinals (pr_Plan r) = Some o →
  NoDup ((λ t, zget o (TxID t)) <$> TxList b) ∧ ∀ t, t ∈ TxList b → 1 <= zget o (TxID t).
Proof.
  unfold BuildBatchSIPlanWithOrdinals. destruct (ConfigValidate _); [done|]. unfold batchSIDescriptors.
  destruct (descriptors_loop _ _ _ _ _ _) as [?|ds] eqn:E; [done|]. cbn [mbind sum_mbind].
  destruct (batchSIBuildAWRT _) as [awrt refs]. destruct (partition_items _ _) as [ps reuse]. cbv zeta. intros [= <-].
  cbn [pr_Plan]. rewrite set_digest_ordinals. cbn [bp_TransactionOrdinals]. intros [= <-].
  destruct (descriptors_loop_ranks _ _ _ _ _ _ _ (Z.le_refl 0) E) as (_ & H2 & _). destruct (ranks_nodup _ _ _ _ _ _ _ E) as [Hnd _].
  destruct (descriptors_loop_spec _ _ _ _ _ _ _ E) as [Hd _]. rewrite <- (do_items _ _ _ Hd).
  assert (∀ d, d ∈ ds → zget (list_to_map ((λ d, (ds_TxID d, ds_IDRank d)) <$> ds)) (TxID (ds_Item d)) = ds_IDRank d) as Hz.
  { intros d Hin. rewrite <- (de_id _ _ (do_described _ _ _ Hd d Hin)). apply normalized_lookup; [apply Hd|done]. }
  split.
  - rewrite <- list_fmap_compose. erewrite list_fmap_ext; [exact Hnd|]. intros i d Hi%list_elem_of_lookup_2. by apply Hz.
  - intros t (d & -> & Hin)%list_elem_of_fmap. rewrite Hz by done. auto.
Qed.

(** The transactions of a plan by id. *)
Lemma plan_index b config ordinals ms r : BuildBatchSIPlanWithOrdinals b config ordinals ms = inr r →
  pr_Ordered r ++ pr_Deferred r ≡ₚ TxList b ∧ bp_DeferredTransactions (pr_Plan r) = pr_Deferred r ∧
  NoDup (TxID <$> (pr_Ordered r ++ pr_Deferred r)) ∧ ∀ t, t ∈ TxList b → TxID t ≠ "".
Proof.
  intros Hr. destruct (build_ids _ _ _ _ _ Hr) as (o & _ & _ & Hnd & Hb & _). destruct (build_spec _ _ _ _ _ Hr) as (finals & out & Hpl).
  assert (pr_Ordered r ++ pr_Deferred r ≡ₚ TxList b) as Hp.
  { destruct (po_all _ _ _ _ Hpl) as (ds & Hp & Hd). rewrite (po_ordered _ _ _ _ Hpl), (po_deferred _ _ _ _ Hpl), <- fmap_app, Hp.
    by rewrite (do_items _ _ _ Hd). }
  split_and!; [done|apply Hpl|by rewrite Hp|]. intros t Ht E. rewrite Forall_forall in Hb. specialize (Hb t Ht). by rewrite E, blank_empty in Hb.
Qed.

Lemma indexed_size l byID : indexes l byID → size byID = length l.
Proof.
  intros [Hnd Hi]. rewrite <- size_dom. assert (dom byID = list_to_set (TxID <$> l)) as ->.
  { apply set_eq. intros id. rewrite elem_of_dom, elem_of_list_to_set, list_elem_of_fmap. split.
    - intros [t Ht]. apply Hi in Ht as [? <-]. by exists t.
    - intros (t & -> & Ht). exists t. by apply Hi. }
  by rewrite size_list_to_set, length_fmap.
Qed.

(** [b'] is the proposed block, its transactions those the plan keeps. *)
Lemma honest_verified verify config b ordinals ms ms' r b' : BuildBatchSIPlanWithOrdinals b config ordinals ms = inr r →
  TxList b' = pr_Ordered r → ShardID b' = ShardID b → Height b' = Height b →
  (∀ t, t ∈ pr_Deferred r → verify t = None) → VerifyBatchSIPlan verify b' (pr_Plan r) config ms' = None.
Proof.
  intros Hr Et Es Eh Hv. destruct (plan_index _ _ _ _ _ Hr) as (Hp & Edef & Hnd & Hne).
  destruct (build_ids _ _ _ _ _ Hr) as (o & Eo & Hsz & _ & _). destruct (build_ordinals _ _ _ _ _ _ Hr Eo) as [Hon Hor].
  pose proof (build_fields _ _ _ _ _ Hr) as (_ & _ & F3 & F4 & F5 & F6 & _).
  unfold VerifyBatchSIPlan. rewrite F6, Eo, Edef, Et. cbn [items_of default from_option]. unfold id. cbv zeta.
  assert (config_mismatch (pr_Plan r) (Normalized config) = false) as ->.
  { unfold config_mismatch. by rewrite F3, F4, F5, !bool_decide_eq_true_2. }
  pose proof (Permutation_length Hp) as Hlen. rewrite length_app in Hlen.
  destruct ((_ ≟ O) && _) eqn:E0.
  { exfalso. apply andb_true_iff in E0 as [E1%bool_decide_eq_true E2%negb_true_iff%bool_decide_eq_false]. rewrite length_fmap in E1. lia. }
  rewrite Hsz, length_fmap, (bool_decide_eq_true_2 (length (TxList b) = _)) by done. cbn [negb].
  pose proof Hnd as Hnd'. rewrite fmap_app in Hnd'. apply NoDup_app in Hnd' as (Hn1 & Hn12 & Hn2).
  assert (∀ t, t ∈ pr_Ordered r ++ pr_Deferred r → TxID t ≠ "") as Hne' by (intros t; rewrite Hp; apply Hne).
  destruct (accepted_loop_ok (pr_Ordered r) ∅ ∅ Hn1) as [[accepted byID] Ea]; [intros t Ht; split; [apply Hne', elem_of_app; by left|set_solver]|].
  rewrite Ea. cbn [mbind sum_mbind]. destruct (accepted_loop_spec (pr_Ordered r) [] ∅ ∅ accepted byID Ea) as [Hi Hacc].
  { split; [constructor|]. intros id t. rewrite lookup_empty. split; [done|]. by intros [?%elem_of_nil _]. } { done. }
  destruct (deferred_loop_ok verify accepted (pr_Deferred r) ∅ byID Hn2) as [byID' Ed].
  { intros t Ht. split_and!; [apply Hne', elem_of_app; by right| |set_solver|by apply Hv]. rewrite Hacc, elem_of_list_to_set. intros Hin.
    eapply Hn12; [exact Hin|]. by apply list_elem_of_fmap_2. }
  rewrite Ed. cbn [mbind sum_mbind]. apply (deferred_loop_spec verify accepted (pr_Deferred r) (pr_Ordered r) ∅ byID byID') in Ed; [|done|set_solver].
  rewrite candidate_loop_ok; [|by rewrite <- Hp|done|].
  2:{ intros t Ht. split_and!; [by apply Hne|set_solver| |by apply Hor|set_solver]. apply Ed. by rewrite Hp. }
  cbn [mbind sum_mbind]. rewrite (indexed_size _ _ Ed), (Permutation_length Hp), (bool_decide_eq_true_2 (length (TxList b) = _)) by done. cbn [negb].
  destruct (build_again b config ordinals ms r (candidate_block b' (TxList b) (TxID <$> TxList b)) ms' Hr) as (r' & Hr' & E1 & E2 & E3); [done..|].
  rewrite Eo in Hr'. rewrite Hr'. cbn [mbind sum_mbind]. rewrite E1, E2, E3.
  rewrite !bool_decide_eq_true_2 by done. cbn [negb]. by rewrite !first_mismatch_same.
Qed.

(** C7: A block a scheduler proposes is accepted: whatever it was given to order, the
    block [PlanBlock] makes of a non-empty list of candidates passes
    [VerifyBlockPlan] of every node with the same configuration, whatever the
    durations measured there, when the deferred transactions are validly signed and
    the plan's values fit their JSON types. *)
Theorem batch_si_proposal_accepted (verify : SignedTransaction → error) (config : BatchSIConfig) (b b' : Block)
    (deferred : list SignedTransaction) (ms ms' : Z * Z) :
  PlanBlock config b ms = inr (b', deferred) → TxList b ≠ [] →
  (∀ r, BuildBatchSIPlan b config ms = inr r → c_ok c_batch_si_plan (pr_Plan r)) →
  (∀ t, t ∈ deferred → verify t = None) →
  VerifyBlockPlan verify config b' ms' = None.
Proof.
  unfold PlanBlock. destruct (BuildBatchSIPlan b config ms) as [?|r] eqn:Er; [done|]. cbn [mbind sum_mbind].
  destruct (_ && _); [done|]. intros H Hne Hok Hv. specialize (Hok r eq_refl). unfold BuildBatchSIPlan in Er.
  destruct (build_wf _ _ _ _ _ Er Hne) as [o Hw]. destruct (wf_roundtrip _ _ _ Hw Hok) as (raw & Em & Ep).
  rewrite Em in H. cbn [mbind sum_mbind] in H. injection H as <- <-. unfold VerifyBlockPlan. cbn [ExecutionPlan with_plan ep_AlgorithmID ep_Payload ep_PlanDigest].
  rewrite (bool_decide_eq_true_2 (BatchSIPlanAlgorithmID = _)) by done. cbn [negb]. rewrite Ep, (bool_decide_eq_true_2 (bp_PlanDigest _ = _)) by done.
  cbn [negb]. by eapply honest_verified.
Qed.
