(* ===== verification/BatchSIExamples.v ===== *)
(** * Batch-SI on concrete blocks *)
From S2P Require Import Prelude GoStd GoJson JsonRoundtrip GoStruct Tx Block BlockCodec StateRoot Heap Serial SerialProps BatchSI BatchSIWire BatchSIParts Kahn BatchSIOrder BatchSIBuild BatchSIPool BatchSIExec BatchSISerial BatchSIBinding BatchSITheorems BatchSICodec BatchSIProposal.
Local Open Scope Z_scope.

Definition si_tx (id sender receiver : string) (value : Z) (accesses : list AccessItem) : SignedTransaction :=
  MkTx id "" sender receiver 0 value [] accesses "" "" "" [] "" "" "" "" 0 "" "" "" "" None.

(** [t1] and [t2] share a batch, [t3] writes accounts of both; [t4] and [t5] read
    what the other writes, and one of them is deferred. *)
Definition si_candidates : Block :=
  sample_block [si_tx "t1" "alice" "bob" 30 []; si_tx "t2" "carol" "dave" 5 []; si_tx "t3" "alice" "carol" 10 [];
    si_tx "t4" "x" "y" 1 [MkAccess "p" AccessRead "category_metadata" 0; MkAccess "q" AccessCommutativeDelta "" 1];
    si_tx "t5" "x" "y" 1 [MkAccess "q" AccessRead "category_metadata" 0; MkAccess "p" AccessCommutativeDelta "" 1]].

Definition si_config : BatchSIConfig := DefaultBatchSIConfig.
Definition no_plan : BatchSIPlan := MkBatchSIPlan "" "" 0 "" "" "" None [] None None None zero_metrics "".
Definition planned_or {A} (fallback : A) (r : batch_si_error + A) : A := match r with inr a => a | inl _ => fallback end.

Definition si_planned : BatchSIPlanningResult := planned_or (MkPlanning no_plan [] []) (BuildBatchSIPlan si_candidates si_config (3, 4)).
Definition si_proposal : Block * list SignedTransaction := planned_or (si_candidates, []) (PlanBlock si_config si_candidates (3, 4)).

(** The proposal, with two batches. *)
Example si_proposal_shape :
  TxID <$> TxList si_proposal.1 = ["t1"; "t2"; "t4"; "t3"] ∧ TxID <$> si_proposal.2 = ["t5"].
Proof. vm_compute. split; reflexivity. Qed.

Definition is_planned {A} (r : batch_si_error + A) : bool := match r with inr _ => true | inl _ => false end.

Lemma planned_eq {A} (fallback : A) r : is_planned r = true → r = inr (planned_or fallback r).
Proof. by destruct r. Qed.

Lemma si_planned_eq : BuildBatchSIPlanWithOrdinals si_candidates si_config (Some (block_ordinals (TxList si_candidates))) (3, 4) = inr si_planned.
Proof. apply planned_eq. vm_compute. reflexivity. Qed.

Lemma si_proposal_eq : PlanBlock si_config si_candidates (3, 4) = inr (si_proposal.1, si_proposal.2).
Proof. rewrite <- surjective_pairing. apply planned_eq. vm_compute. reflexivity. Qed.

Lemma si_planned_ok : c_ok c_batch_si_plan (pr_Plan si_planned).
Proof. apply batch_si_plan_tested. vm_compute. reflexivity. Qed.

Lemma wrbp_equivalent_witness :
  let items := [MkDescriptor (si_tx "t1" "a" "b" 1 []) "t1" [] ["k"; "l"] 1; MkDescriptor (si_tx "t2" "a" "b" 1 []) "t2" [] ["k"] 2;
                MkDescriptor (si_tx "t3" "a" "b" 1 []) "t3" ["k"] ["m"] 3] in
  batchSIWRBPPartition items = reference_partition items ∧ length (batchSIWRBPPartition items).1 = 2%nat.
Proof.
  intros items. split; [|vm_compute; reflexivity].
  apply (wrbp_equivalent items). repeat constructor; apply (bool_decide_unpack _); vm_compute; exact I.
Defined.

Lemma planning_sound_witness :
  pr_Ordered si_planned ++ pr_Deferred si_planned ≡ₚ TxList si_candidates.
Proof. exact (proj1 (planning_sound si_candidates si_config _ (3, 4) si_planned si_planned_eq)). Defined.

Lemma batch_si_plan_roundtrip_witness :
  ∃ raw, MarshalBatchSIPlan (pr_Plan si_planned) = inr raw ∧ ParseBatchSIPlan raw = inr (pr_Plan si_planned).
Proof.
  refine (batch_si_plan_roundtrip si_candidates si_config _ (3, 4) si_planned si_planned_eq _ si_planned_ok). discriminate.
Defined.

Lemma batch_si_proposal_accepted_witness : VerifyBlockPlan (λ _, None) si_config si_proposal.1 (7, 8) = None.
Proof.
  refine (batch_si_proposal_accepted (λ _, None) si_config si_candidates si_proposal.1 si_proposal.2 (3, 4) (7, 8) si_proposal_eq _ _ _).
  - discriminate.
  - intros r Hr. assert (r = si_planned) as -> by (pose proof si_planned_eq as E; unfold BuildBatchSIPlan in Hr; congruence). exact si_planned_ok.
  - reflexivity.
Defined.

(** ** Execution *)

Definition si_state : gmap string string := {["s0::balance:alice" := "100"; "s0::balance:carol" := "50"; "s0::q" := "6"]}.
Definition si_executor : BatchSIExecutor := NewBatchSIExecutor si_config.
Definition one_task (w : nat) : list si_choice := [SiCheckCtx; SiSend; SiTake w; SiLook w; SiFinish w].

(** In the first batch the workers finish in another order than they start. *)
Definition si_interleaving : si_schedule := λ turn, (false,
  match turn with
  | O => [SiCheckCtx; SiSend; SiTake 2; SiCheckCtx; SiSend; SiTake 0; SiLook 0; SiFinish 0; SiCheckCtx; SiSend; SiLook 2; SiFinish 2;
          SiTake 1; SiLook 1; SiFinish 1]
  | _ => one_task 1
  end).

Definition si_finished {A} (r : si_result A) : bool := match r with SiReturned _ => true | _ => false end.

Lemma si_finished_eq {A} (r : si_result A) : si_finished r = true → ∃ a, r = SiReturned a.
Proof. destruct r; [done|done|]. by eexists. Qed.

Lemma si_proposal_utf8 : block_utf8 si_proposal.1.
Proof.
  apply Forall_forall. intros t Ht. apply transaction_lawful, transaction_tested.
  refine (forallb_elem (c_test c_transaction) _ _ _ Ht). vm_compute. reflexivity.
Qed.

Lemma si_plan_utf8 : plan_utf8 (pr_Plan si_planned).
Proof. apply batch_si_plan_lawful, si_planned_ok. Qed.

Lemma si_proposal_declares : block_declares si_proposal.1.
Proof.
  apply Forall_forall. intros t Ht. refine (forallb_elem (declares_accounts si_proposal.1) _ _ _ Ht). vm_compute. reflexivity.
Qed.

(** The plan computed anew has the text of the plan. *)
Lemma si_plan_coll_free : plan_coll_free (λ _, None) si_proposal.1 (pr_Plan si_planned) (se_Config si_executor) (0, 0).
Proof.
  unfold plan_coll_free. assert (match recomputed_plan (λ _, None) si_proposal.1 (pr_Plan si_planned) (se_Config si_executor) (0, 0) with
    | inr r => bool_decide (digest_input (pr_Plan r) = digest_input (pr_Plan si_planned)) | inl _ => false end = true) as E
    by (vm_compute; reflexivity).
  destruct (recomputed_plan _ _ _ _ _) as [?|r]; [exact I|]. apply bool_decide_eq_true in E. rewrite E. apply coll_free_same.
Qed.

Lemma batch_si_serializable_witness :
  ∃ r, ExecuteConsensusPlanWithCommitment (λ _, None) (0, 0) si_executor si_proposal.1 si_state None (pr_Plan si_planned) false false
         si_interleaving = SiReturned r ∧
    ∃ w, si_serial (se_DefaultInitialBalance si_executor) si_proposal.1 (numbered (TxList si_proposal.1)) (si_start si_state None) = inr w ∧
      r = si_block_result (si_normalized si_executor) si_proposal.1 si_state (pr_Plan si_planned)
            (CommitmentRoot (Some (CloneOrBuild None si_state))) w.
Proof.
  destruct (si_finished_eq (ExecuteConsensusPlanWithCommitment (λ _, None) (0, 0) si_executor si_proposal.1 si_state None
    (pr_Plan si_planned) false false si_interleaving)) as [r Hr]; [vm_compute; reflexivity|].
  exists r. split; [exact Hr|].
  refine (batch_si_serializable (λ _, None) (0, 0) si_executor si_proposal.1 si_state None (pr_Plan si_planned) false false
    si_interleaving r Hr _ _ si_plan_utf8 si_proposal_utf8 si_plan_coll_free si_proposal_declares _).
  - discriminate.
  - vm_compute. reflexivity.
  - vm_compute. reflexivity.
Defined.

Lemma batch_si_returns_witness :
  ∃ schedule, match executeConsensusPlanWithCommitment si_executor si_proposal.1 si_state None (pr_Plan si_planned) false schedule with
    | SiReturned _ => True
    | SiFailed err => ∃ id, err = BsUndeclaredWrite id
    | SiRunning => False
    end.
Proof.
  refine (batch_si_returns (λ _, None) (0, 0) si_executor si_proposal.1 si_state None (pr_Plan si_planned) _ _ si_plan_utf8 si_proposal_utf8 si_plan_coll_free).
  - vm_compute. reflexivity.
  - vm_compute. reflexivity.
Defined.

(** ** What the code does not do *)

(** The plan of an empty block is printed and cannot be read: it was digested with
    [candidate_transaction_ids] an empty list, and comes back with [null]. *)
Theorem batch_si_empty_plan_unreadable :
  ∃ r raw, BuildBatchSIPlan (sample_block []) si_config (0, 0) = inr r ∧ MarshalBatchSIPlan (pr_Plan r) = inr raw ∧
    ParseBatchSIPlan raw = inl BsDigest.
Proof.
  set (build := BuildBatchSIPlan (sample_block []) si_config (0, 0)). set (r := planned_or (MkPlanning no_plan [] []) build).
  set (raw := planned_or [] (MarshalBatchSIPlan (pr_Plan r))). exists r, raw.
  split; [apply planned_eq; vm_compute; reflexivity|]. split; [apply planned_eq; vm_compute; reflexivity|]. vm_compute. reflexivity.
Qed.

(** [c] and [s0::c] are one cell of shard [s0] and two keys of the planner: both
    increments run in one batch on the same snapshot, and one of them is lost. *)
Definition si_aliases : Block :=
  sample_block [si_tx "t1" "x" "y" 1 [MkAccess "c" AccessCommutativeDelta "" 1];
                si_tx "t2" "x" "y" 1 [MkAccess "s0::c" AccessCommutativeDelta "" 1]].

Definition si_run_block (b : Block) (schedule : si_schedule) : option (gmap string string) :=
  match PlanBlock si_config b (0, 0) with
  | inl _ => None
  | inr (b, _) => match SiExecuteBlock (λ _, None) (0, 0) si_executor b ∅ false schedule with
                  | SiReturned r => Some (re_StateUpdates r)
                  | _ => None
                  end
  end.

Theorem batch_si_alias_loses_update :
  (updates ← si_run_block si_aliases (λ _, (false, one_task 0 ++ one_task 1)); updates !! "s0::c") = Some "1" ∧
  (match si_serial 1000000 si_aliases (numbered (TxList si_aliases)) (si_start ∅ None) with
   | inr w => sw_working w !! "s0::c" | inl _ => None end) = Some "2".
Proof. vm_compute. split; reflexivity. Qed.

(** [t2] has an access list without its sender's nonce, which it reads all the same:
    in a batch with [t1] it sees the nonce from before [t1]. *)
Definition si_hidden_read : Block :=
  sample_block [si_tx "t1" "alice" "bob" 5 [];
    MkTx "t2" "" "alice" "bob" 1 0 [] [MkAccess "meta" AccessRead "" 0] "" "" "" [] "" "" "" "" 0 "" "" "" "" None].

Theorem batch_si_undeclared_read_unserializable :
  (match PlanBlock si_config si_hidden_read (0, 0) with
   | inr (b, _) => match SiExecuteBlock (λ _, None) (0, 0) si_executor b ∅ false (λ _, (false, one_task 0 ++ one_task 1)) with
                   | SiReturned r => rc_Error <$> re_Receipts r
                   | _ => []
                   end
   | inl _ => []
   end) = [""; nonce_mismatch 0 1] ∧
  (match si_serial 1000000 si_hidden_read (numbered (TxList si_hidden_read)) (si_start ∅ None) with
   | inr w => (λ d, rc_Error (td_Receipt d)) <$> sw_deltas w | inl _ => [] end) = [""; "invalid_value"].
Proof. vm_compute. split; reflexivity. Qed.
