(* ===== verification/TxSign.v ===== *)
(** * Signed transactions

    [crypto/ed25519] as an interface, signing, verifying and generating
    transactions over it, and the canonical bytes that are signed. *)
From S2P Require Import Prelude GoStd GoJson JsonRoundtrip GoText GoStruct Tx Block BlockCodec.
Import Json.
Local Open Scope N_scope.

(** ** [crypto/ed25519]

    The signature scheme is not part of the repository: a type class of its
    operations, and what its documentation promises of them. Keys, messages and
    signatures are lists of bytes. *)

Definition PublicKeySize : nat := 32.
Definition PrivateKeySize : nat := 64.
Definition SignatureSize : nat := 64.

Abbreviation are_bytes := (Forall (λ b, b < 256)).

Class Ed25519 := {
  public_of : list N → list N;                          (** [PrivateKey.Public] *)
  ed_sign : list N → list N → list N;                   (** private key, message *)
  ed_verify : list N → list N → list N → bool;          (** public key, message, signature *)
  new_key_from_seed : list N → list N;                  (** [NewKeyFromSeed], of 32 bytes *)
  seed_of : list N → list N;                            (** [PrivateKey.Seed] *)
}.

(** What the package documents: sizes, and that a signature verifies. *)
Class Ed25519Laws `{!Ed25519} : Prop := {
  public_size key : length key = PrivateKeySize → length (public_of key) = PublicKeySize ∧ are_bytes (public_of key);
  sign_size key message : length key = PrivateKeySize →
    length (ed_sign key message) = SignatureSize ∧ are_bytes (ed_sign key message);
  seed_size seed : length seed = 32%nat → length (new_key_from_seed seed) = PrivateKeySize;
  sign_verify key message : length key = PrivateKeySize → ed_verify (public_of key) message (ed_sign key message) = true;
}.

(** [base64.StdEncoding.EncodeToString] and [DecodeString]. *)
Definition encode64 (raw : list N) : string := string_of_bytes (b64_encode raw).
Definition decode64 (text : string) : option (list N) := b64_decode (bytes_of_string text).

Lemma encode64_bytes raw : are_bytes raw → bytes_of_string (encode64 raw) = b64_encode raw.
Proof. intros Hr. apply bytes_of_bytes. eapply Forall_impl; [by apply b64_no_breaks|]. simpl. lia. Qed.

Lemma decode64_encode64 raw : are_bytes raw → decode64 (encode64 raw) = Some raw.
Proof. intros Hr. unfold decode64. by rewrite encode64_bytes, b64_decode_encode. Qed.

Lemma encode64_nonempty raw : raw ≠ [] → encode64 raw ≠ "".
Proof. destruct raw as [|a [|b [|c raw]]]; done. Qed.

Lemma encode64_utf8 raw : are_bytes raw → utf8_string (encode64 raw).
Proof.
  intros Hr. apply name_utf8. rewrite encode64_bytes by done. apply forallb_forall. intros b Hb.
  pose proof (b64_no_breaks raw Hr) as Hn. rewrite List.Forall_forall in Hn. specialize (Hn b Hb). apply N.ltb_lt. lia.
Qed.

(** ** Signing and generating transactions ([executor/realism/tx/{signature,address,id,generator}.go])

    A transaction carries the public key of its signer; its sender is an address
    that the key hashes to. *)

Definition ErrInvalidSignature : string := "invalid_signature".
Definition ErrSenderPublicKeyMismatch : string := "sender_public_key_mismatch".
Definition ErrMalformedTx : string := "malformed_tx".

(** *** Addresses *)

Definition AddressFromPublicKey (publicKey : list N) : string :=
  "0x" +:+ String.substring 0 40 (hex_encode (Sha256.sum256 publicKey)).

Definition AddressFromPublicKeyText (publicKeyText : string) : string + string :=
  match decode64 (trim_space publicKeyText) with
  | Some publicKey => if length publicKey ≟ PublicKeySize then inr (AddressFromPublicKey publicKey)
                      else inl ErrInvalidSignature
  | None => inl ErrInvalidSignature
  end.

(** [strings.EqualFold] against text of ASCII letters and digits: the folding of
    field names, which also takes U+017F to [S] and U+212A to [K]. *)
Definition equal_fold (s ascii_text : string) : bool := same_field s ascii_text.

Definition IsBoundSender (sender publicKeyText : string) : bool :=
  match AddressFromPublicKeyText publicKeyText with
  | inr address => equal_fold (trim_space sender) address
  | inl _ => false
  end.

(** *** Signatures *)

Definition with_TxID (v : string) (t : SignedTransaction) : SignedTransaction := ltac:(set_field TxID v t).
Definition with_Sender (v : string) (t : SignedTransaction) : SignedTransaction := ltac:(set_field Sender v t).
Definition with_PublicKey (v : string) (t : SignedTransaction) : SignedTransaction := ltac:(set_field PublicKey v t).
Definition with_Signature (v : string) (t : SignedTransaction) : SignedTransaction := ltac:(set_field Signature v t).

Definition AssignID (t : SignedTransaction) : SignedTransaction := with_TxID (ComputeID t) t.

Section Signing.
Context `{!Ed25519}.

Definition DeterministicKeyPair (seed : string) : list N * list N :=
  let privateKey := new_key_from_seed (Sha256.sum256 (bytes_of_string seed)) in
  (public_of privateKey, privateKey).

Definition Sign (t : SignedTransaction) (privateKey : list N) : string + SignedTransaction :=
  if length privateKey ≠? PrivateKeySize then inl (ErrInvalidSignature +:+ ": bad private key size")
  else
    let publicKey := public_of privateKey in
    let t := with_PublicKey (encode64 publicKey) t in
    let t := if Sender t ≟ "" then with_Sender (AddressFromPublicKey publicKey) t else t in
    let t := AssignID t in
    let message := bytes_of_string (CanonicalBytes t) in
    inr (with_Signature (encode64 (ed_sign privateKey message)) t).

Definition Verify (t : SignedTransaction) : error :=
  match ValidateBasic t with
  | Some e => Some e
  | None =>
      reject negb (IsBoundSender (Sender t) (PublicKey t)) as ErrSenderPublicKeyMismatch ;;
      match decode64 (PublicKey t) with
      | None => Some ErrInvalidSignature
      | Some publicKey =>
          reject length publicKey ≠? PublicKeySize as ErrInvalidSignature ;;
          match decode64 (Signature t) with
          | None => Some ErrInvalidSignature
          | Some signature =>
              reject length signature ≠? SignatureSize as ErrInvalidSignature ;;
              let message := bytes_of_string (CanonicalBytes t) in
              reject negb (ed_verify publicKey message signature) as ErrInvalidSignature ;;
              None
          end
      end
  end.

(** *** The generator *)

Record GenerateOptions := MkGenerate {
  go_Count : Z; go_Sender : string; go_Receiver : string; go_StartNonce : N; go_Value : Z;
  go_StateKeys : list string; go_AccessList : list AccessItem; go_Seed : string; go_SourceKind : string;
  go_StartTimeMS : Z }.

Definition DefaultStateKeys (sender receiver : string) : list string :=
  ["acct:" +:+ trim_space sender; "acct:" +:+ trim_space receiver].

Definition DefaultTransferAccessList (sender receiver : string) : list AccessItem :=
  let sender := trim_space sender in
  let receiver := trim_space receiver in
  [MkAccess ("balance:" +:+ sender) AccessReadWrite "set" 0;
   MkAccess ("nonce:" +:+ sender) AccessReadWrite "set" 0;
   MkAccess ("balance:" +:+ receiver) AccessReadWrite "set" 0;
   MkAccess ("nonce:" +:+ receiver) AccessRead "validate" 0].

(** [strings.HasPrefix(strings.ToLower(s), "0x")]: no other rune has the lower
    case [0] or [x]. *)
Definition hex_prefixed (s : string) : bool := has_prefix s "0x" || has_prefix s "0X".

Definition encodeKey (raw : list N) : string := encode64 raw.

Definition zero_address : string := "0x0000000000000000000000000000000000000000".

Definition generated_item (opts : GenerateOptions) (sender receiver sourceKind : string) (i : nat) : SignedTransaction :=
  let nonce := u64_add (go_StartNonce opts) (N.of_nat i) in
  let stateKeys := if length (go_StateKeys opts) ≟ O then DefaultStateKeys sender receiver else go_StateKeys opts in
  let accessList := if length (go_AccessList opts) ≟ O then DefaultTransferAccessList sender receiver
                    else go_AccessList opts in
  MkTx "" "" sender receiver nonce (go_Value opts) stateKeys accessList "" "" "" [] "" "" ""
    ("mbe-client:" +:+ sender +:+ ":" +:+ receiver +:+ ":" +:+ format_uint nonce)
    (i64_add (go_StartTimeMS opts) (Z.of_nat i)) "" "" sourceKind "" None.

(** The loop over [i]; the first error ends it. *)
Fixpoint generate_loop (opts : GenerateOptions) (sender receiver sourceKind : string) (privateKey : list N)
    (todo i : nat) : string + list SignedTransaction :=
  match todo with
  | O => inr []
  | S todo' =>
      match Sign (generated_item opts sender receiver sourceKind i) privateKey with
      | inl e => inl e
      | inr item =>
          match generate_loop opts sender receiver sourceKind privateKey todo' (S i) with
          | inl e => inl e
          | inr txs => inr (item :: txs)
          end
      end
  end.

Definition Generate (opts : GenerateOptions) : string + (list SignedTransaction * string * string) :=
  if (go_Count opts <? 0)%Z then inl (ErrMalformedTx +:+ ": negative count")
  else
    let sourceKind := if go_SourceKind opts ≟ "" then "mbe_client_generate" else go_SourceKind opts in
    let '(publicKey, privateKey) := DeterministicKeyPair (go_Seed opts +:+ ":" +:+ go_Sender opts) in
    let sender := if (go_Sender opts ≟ "") || negb (hex_prefixed (trim_space (go_Sender opts)))
                  then AddressFromPublicKey publicKey else go_Sender opts in
    let receiver := if go_Receiver opts ≟ "" then zero_address else go_Receiver opts in
    match generate_loop opts sender receiver sourceKind privateKey (Z.to_nat (go_Count opts)) O with
    | inl e => inl e
    | inr txs => inr (txs, encodeKey publicKey, encodeKey (seed_of privateKey))
    end.

End Signing.

(** ** What the generator produces is accepted

    Transactions that [Generate] signs with its own address pass [Verify]; a
    transaction that passes is bound to the key that signed its canonical bytes,
    and those bytes determine it. *)

#[local] Opaque Sha256.sum256 sha256_hex.

(** *** Texts without white space *)

Lemma solid_of_bytes s : Forall (λ b, 32 < b < 128) (bytes_of_string s) → all_solid s = true.
Proof.
  induction s as [|c s IH]; [done|]. rewrite bytes_cons, Forall_cons. intros [Hc Hs]. cbn [all_solid].
  rewrite IH by done. unfold solid. rewrite !(proj2 (N.ltb_lt _ _)) by lia. done.
Qed.

Lemma encode64_solid raw : are_bytes raw → all_solid (encode64 raw) = true.
Proof.
  intros Hr. apply solid_of_bytes. rewrite encode64_bytes by done. eapply Forall_impl; [by apply b64_no_breaks|].
  simpl. lia.
Qed.

Lemma hex_digit_solid n : n < 16 → solid (hex_digit n) = true.
Proof.
  intros Hn. assert (∀ k : nat, (k < 16)%nat → solid (hex_digit (N.of_nat k)) = true) as H.
  { intros k Hk. do 16 (destruct k as [|k]; [done|]). lia. }
  specialize (H (N.to_nat n)). rewrite N2Nat.id in H. apply H. lia.
Qed.

Lemma hex_solid l : are_bytes l → all_solid (hex_encode l) = true.
Proof.
  induction 1 as [|b l Hb _ IH]; [done|]. cbn [hex_encode all_solid]. rewrite IH, !hex_digit_solid; [done| |].
  - apply N.mod_lt. done.
  - apply N.Div0.div_lt_upper_bound. lia.
Qed.

Lemma substring_solid n s : all_solid s = true → all_solid (String.substring 0 n s) = true.
Proof.
  revert n. induction s as [|c s IH]; intros [|n]; try done. cbn [String.substring all_solid].
  intros [Hc Hs]%andb_true_iff. by rewrite Hc, IH.
Qed.

Lemma address_solid key : all_solid (AddressFromPublicKey key) = true.
Proof.
  unfold AddressFromPublicKey. rewrite all_solid_app. apply andb_true_iff. split; [done|].
  apply substring_solid, hex_solid, sum256_range.
Qed.

Lemma prefix_not_blank c p x : solid c = true → blank (String c p +:+ x) = false.
Proof. exact (solid_not_blank c (p +:+ x)). Qed.

Lemma address_not_blank key : blank (AddressFromPublicKey key) = false.
Proof. unfold AddressFromPublicKey. by apply solid_not_blank. Qed.

(** *** Signing then verifying *)

Lemma ValidateBasic_ok t :
  blank (Sender t) = false → blank (Receiver t) = false → (0 < Value t)%Z → StateKeys t ≠ [] →
  existsb blank (StateKeys t) = false →
  existsb (λ a, blank (ai_Key a) || negb (access_known (ai_Mode a))) (AccessList t) = false →
  SchedulingAccessList t = [] → ExecutionRouting t = None →
  blank (PublicKey t) = false → blank (Signature t) = false → TxID t = ComputeID t → ValidateBasic t = None.
Proof.
  intros Hs Hr Hv Hk Hkb Ha Hsch Hro Hp Hsig Hid. unfold ValidateBasic. rewrite Hs, Hr, Hkb, Ha, Hsch, Hp, Hsig. cbn [existsb].
  rewrite (proj2 (Z.leb_gt _ _)) by lia.
  rewrite bool_decide_eq_false_2 by (by destruct (StateKeys t)). unfold ValidateExecutionRouting. rewrite Hro. cbn [orb].
  by rewrite (bool_decide_eq_true_2 _ Hid).
Qed.

Section Accepted.
Context `{!Ed25519, !Ed25519Laws}.

(** What [ValidateBasic] asks of the fields that signing leaves alone. *)
Record fields_valid (t : SignedTransaction) : Prop := {
  fv_receiver : blank (Receiver t) = false;
  fv_value : (0 < Value t)%Z;
  fv_keys : StateKeys t ≠ [];
  fv_blank : existsb blank (StateKeys t) = false;
  fv_access : existsb (λ a, blank (ai_Key a) || negb (access_known (ai_Mode a))) (AccessList t) = false;
  fv_scheduling : SchedulingAccessList t = [];
  fv_routing : ExecutionRouting t = None;
}.

Lemma bound_address key : length key = PrivateKeySize →
  IsBoundSender (AddressFromPublicKey (public_of key)) (encode64 (public_of key)) = true.
Proof.
  intros Hk. destruct (public_size key Hk) as [Hl Hb]. unfold IsBoundSender, AddressFromPublicKeyText.
  rewrite !trim_solid by (apply address_solid || by apply encode64_solid). rewrite decode64_encode64 by done.
  rewrite bool_decide_eq_true_2 by done. unfold equal_fold, same_field. by apply bool_decide_eq_true_2.
Qed.

Lemma encoded_not_blank raw : are_bytes raw → raw ≠ [] → blank (encode64 raw) = false.
Proof.
  intros Hb Hne. unfold blank. rewrite trim_solid by by apply encode64_solid.
  apply bool_decide_eq_false_2. by apply encode64_nonempty.
Qed.

Lemma sized_nonempty (raw : list N) n : length raw = S n → raw ≠ [].
Proof. by destruct raw. Qed.

Lemma Sign_verifies t key : length key = PrivateKeySize → Sender t = AddressFromPublicKey (public_of key) → fields_valid t →
  ∃ t', Sign t key = inr t' ∧ Verify t' = None ∧ Nonce t' = Nonce t ∧ Sender t' = Sender t.
Proof.
  intros Hk Hs Hf. destruct (public_size key Hk) as [Hpl Hpb]. unfold Sign. rewrite (bool_decide_eq_true_2 _ Hk). cbn [negb].
  assert ((Sender (with_PublicKey (encode64 (public_of key)) t) ≟ "") = false) as ->.
  { cbn [with_PublicKey Sender]. rewrite Hs. by apply bool_decide_eq_false_2. }
  set (t1 := AssignID _). set (message := bytes_of_string (CanonicalBytes t1)).
  destruct (sign_size key message Hk) as [Hsl Hsb]. eexists. split; [done|]. split; [|done].
  set (t2 := with_Signature _ t1). unfold Verify.
  assert (ValidateBasic t2 = None) as ->.
  { destruct Hf. apply ValidateBasic_ok; try done.
    - change (Sender t2) with (Sender t). rewrite Hs. apply address_not_blank.
    - change (PublicKey t2) with (encode64 (public_of key)). apply encoded_not_blank; [done|]. by eapply sized_nonempty.
    - change (Signature t2) with (encode64 (ed_sign key message)). apply encoded_not_blank; [done|]. by eapply sized_nonempty. }
  change (PublicKey t2) with (encode64 (public_of key)). change (Sender t2) with (Sender t). rewrite Hs, bound_address by done.
  cbn [negb]. rewrite decode64_encode64 by done. rewrite bool_decide_eq_true_2 by done. cbn [negb].
  change (Signature t2) with (encode64 (ed_sign key message)). rewrite decode64_encode64 by done.
  rewrite bool_decide_eq_true_2 by done. cbn [negb]. cbv zeta.
  change (bytes_of_string (CanonicalBytes t2)) with message. by rewrite sign_verify.
Qed.

Lemma deterministic_key_size seed : length (DeterministicKeyPair seed).2 = PrivateKeySize.
Proof. apply seed_size, length_sum256. Qed.

Lemma generate_loop_verifies opts sender receiver kind key todo : ∀ i,
  length key = PrivateKeySize → sender = AddressFromPublicKey (public_of key) →
  (∀ i, fields_valid (generated_item opts sender receiver kind i)) →
  ∃ txs, generate_loop opts sender receiver kind key todo i = inr txs ∧ length txs = todo ∧
    Forall (λ t, Verify t = None ∧ Sender t = sender) txs ∧
    ∀ j t, txs !! j = Some t → Nonce t = u64_add (go_StartNonce opts) (N.of_nat (i + j)).
Proof.
  induction todo as [|todo IH]; intros i Hk Hs Hf.
  - exists []. split_and!; [done|done|constructor|]. intros j t Hj. done.
  - cbn [generate_loop].
    destruct (Sign_verifies (generated_item opts sender receiver kind i) key) as (t & -> & Hv & Hn & Hse); [done|by rewrite <- Hs|done|].
    destruct (IH (S i) Hk Hs Hf) as (txs & -> & Hlen & Hall & Hnon). exists (t :: txs). split_and!; [done|simpl; lia| |].
    + by constructor.
    + intros [|j] t' Hj; simpl in Hj.
      * injection Hj as <-. rewrite Hn, Nat.add_0_r. done.
      * rewrite (Hnon _ _ Hj). by rewrite Nat.add_succ_r.
Qed.
Lemma generated_fields_valid opts sender receiver kind i :
  (0 < go_Value opts)%Z → blank receiver = false → existsb blank (go_StateKeys opts) = false →
  existsb (λ a, blank (ai_Key a) || negb (access_known (ai_Mode a))) (go_AccessList opts) = false →
  fields_valid (generated_item opts sender receiver kind i).
Proof.
  intros Hv Hr Hk Ha. constructor; cbn [generated_item Receiver Value StateKeys AccessList SchedulingAccessList ExecutionRouting];
    try done.
  - case_bool_decide as E; [done|]. by destruct (go_StateKeys opts).
  - case_bool_decide; [|done]. unfold DefaultStateKeys. cbn [existsb]. by rewrite !prefix_not_blank.
  - case_bool_decide; [|done]. unfold DefaultTransferAccessList. cbn [existsb ai_Key ai_Mode]. by rewrite !prefix_not_blank.
Qed.

(** C37: every transaction [Generate] returns passes [Verify]: for a count that is not
    negative, a positive value, a sender that does not start with 0x, a receiver that
    is empty or not blank, state keys that are not blank and accesses with keys that
    are not blank and known modes, the call succeeds, returns as many transactions as
    it was asked for, each sent from the address of the generated key and accepted,
    with the nonces counting up from the first. *)
Theorem generated_transactions_verify (opts : GenerateOptions) :
  (0 <= go_Count opts)%Z → (0 < go_Value opts)%Z → hex_prefixed (trim_space (go_Sender opts)) = false →
  go_Receiver opts = "" ∨ blank (go_Receiver opts) = false → existsb blank (go_StateKeys opts) = false →
  existsb (λ a, blank (ai_Key a) || negb (access_known (ai_Mode a))) (go_AccessList opts) = false →
  ∃ txs publicKeyText privateKeyText, Generate opts = inr (txs, publicKeyText, privateKeyText) ∧
    Z.of_nat (length txs) = go_Count opts ∧
    Forall (λ t, Verify t = None ∧ IsBoundSender (Sender t) publicKeyText = true) txs ∧
    ∀ i t, txs !! i = Some t → Nonce t = u64_add (go_StartNonce opts) (N.of_nat i).
Proof.
  intros Hc Hv Hs Hr Hk Ha. unfold Generate. rewrite (proj2 (Z.ltb_ge _ _)) by lia.
  destruct (DeterministicKeyPair _) as [pub key] eqn:E. pose proof (deterministic_key_size (go_Seed opts +:+ ":" +:+ go_Sender opts)) as Hlen.
  rewrite E in Hlen. cbn [snd] in Hlen. assert (pub = public_of key) as -> by by injection E as <- <-.
  rewrite Hs, orb_true_r. cbv zeta.
  set (receiver := if go_Receiver opts ≟ "" then zero_address else go_Receiver opts). assert (blank receiver = false) as Hrb.
  { subst receiver. case_bool_decide; [reflexivity|]. by destruct Hr. }
  set (kind := if go_SourceKind opts ≟ "" then "mbe_client_generate" else go_SourceKind opts).
  destruct (generate_loop_verifies opts _ receiver kind key (Z.to_nat (go_Count opts)) 0 Hlen eq_refl) as (txs & -> & Hlt & Hall & Hn).
  { intros i. by apply generated_fields_valid. }
  eexists _, _, _. split; [done|]. split; [rewrite Hlt; lia|]. split; [|done].
  eapply Forall_impl; [exact Hall|]. intros t [Ht Hst]. split; [done|]. rewrite Hst. by apply bound_address.
Qed.

End Accepted.

(** ** The canonical bytes of a transaction determine it ([SignedTransaction.core] of [executor/realism/tx/model.go])

    The fields a signature and an identifier cover, with their struct tags; what is
    left out are the identifier and the signature themselves. *)

#[local] Opaque Sha256.sum256 sha256_hex.

Record coreFields := MkCoreFields {
  co_LogicalTxID : string; co_Sender : string; co_Receiver : string; co_Nonce : N; co_Value : Z;
  co_StateKeys : list string; co_AccessList : list AccessItem; co_AccessListDigest : string;
  co_AccessListSchema : string; co_AccessListSource : string; co_SchedulingAccessList : list AccessItem;
  co_SchedulingAccessDigest : string; co_SchedulingAccessSchema : string; co_SchedulingAccessSource : string;
  co_Payload : string; co_Timestamp : Z; co_PublicKey : string; co_SourceKind : string; co_TraceSourceID : string;
  co_ExecutionRouting : option ExecutionRoutingMetadata }.

Definition core (t : SignedTransaction) : coreFields :=
  MkCoreFields (LogicalTxID t) (Sender t) (Receiver t) (Nonce t) (Value t) (StateKeys t) (AccessList t)
    (AccessListDigest t) (AccessListSchema t) (AccessListSource t) (SchedulingAccessList t) (SchedulingAccessDigest t)
    (SchedulingAccessSchema t) (SchedulingAccessSource t) (Payload t) (Timestamp t) (PublicKey t) (SourceKind t)
    (TraceSourceID t) (ExecutionRouting t).

#[global] Instance core_fields_eta : Eta coreFields := λ r,
  MkCoreFields (co_LogicalTxID r) (co_Sender r) (co_Receiver r) (co_Nonce r) (co_Value r) (co_StateKeys r)
    (co_AccessList r) (co_AccessListDigest r) (co_AccessListSchema r) (co_AccessListSource r) (co_SchedulingAccessList r)
    (co_SchedulingAccessDigest r) (co_SchedulingAccessSchema r) (co_SchedulingAccessSource r) (co_Payload r)
    (co_Timestamp r) (co_PublicKey r) (co_SourceKind r) (co_TraceSourceID r) (co_ExecutionRouting r).

Definition c_core_fields : codec coreFields := c_struct (MkCoreFields "" "" "" 0 0 [] [] "" "" "" [] "" "" "" "" 0 "" "" "" None)
  ["logical_tx_id" ?:= c_string at co_LogicalTxID; "sender" ::= c_string at co_Sender;
   "receiver" ::= c_string at co_Receiver; "nonce" ::= c_uint at co_Nonce; "value" ::= c_int at co_Value;
   "state_keys" ::= (c_slice c_string) at co_StateKeys; "access_list" ?:= (c_slice c_access) at co_AccessList;
   "access_list_digest" ?:= c_string at co_AccessListDigest; "access_list_schema" ?:= c_string at co_AccessListSchema;
   "access_list_source" ?:= c_string at co_AccessListSource;
   "scheduling_access_list" ?:= (c_slice c_access) at co_SchedulingAccessList;
   "scheduling_access_digest" ?:= c_string at co_SchedulingAccessDigest;
   "scheduling_access_schema" ?:= c_string at co_SchedulingAccessSchema;
   "scheduling_access_source" ?:= c_string at co_SchedulingAccessSource; "payload" ::= c_string at co_Payload;
   "timestamp" ::= c_int at co_Timestamp; "public_key" ::= c_string at co_PublicKey;
   "source_kind" ?:= c_string at co_SourceKind; "trace_source_id" ?:= c_string at co_TraceSourceID;
   "execution_routing" ?:= (c_pointer c_routing) at co_ExecutionRouting].

Lemma core_fields_lawful : lawful c_core_fields.
Proof. solve_struct. Qed.

(** The table prints the canonical bytes. *)
Lemma access_table a : c_enc c_access a = json_access a.
Proof. unfold json_access. cbn [c_enc c_access c_struct]. f_equal. cbn. by rewrite !app_nil_r. Qed.

Lemma core_fields_table t : c_enc c_core_fields (core t) = json_core t.
Proof.
  unfold json_core.
  assert (∀ l : list AccessItem, json_access <$> l = c_enc c_access <$> l) as Ha.
  { intros l. apply list_fmap_ext. intros i a _. symmetry. apply access_table. }
  rewrite !Ha. clear Ha.
  assert (json_routing <$> ExecutionRouting t = c_enc c_routing <$> ExecutionRouting t) as ->.
  { destruct (ExecutionRouting t) as [r|]; [|done]. cbn [fmap option_fmap option_map]. by rewrite routing_table. }
  cbn [c_enc c_core_fields c_struct]. f_equal. cbn -[c_routing]. by rewrite !app_nil_r.
Qed.

(** The fields of a transaction whose texts are UTF-8. *)
Lemma core_fields_ok t : c_ok c_transaction t → c_ok c_core_fields (core t).
Proof.
  intros H. cbn [c_ok c_transaction c_struct] in H. repeat (apply Forall_cons in H as [? H]). clear H.
  cbn [c_ok c_core_fields c_struct]. repeat (apply List.Forall_cons; [assumption|]). apply List.Forall_nil.
Qed.

Lemma canonical_bytes_inj t1 t2 : c_ok c_transaction t1 → c_ok c_transaction t2 →
  CanonicalBytes t1 = CanonicalBytes t2 → core t1 = core t2.
Proof.
  intros H1 H2 E. unfold CanonicalBytes in E. rewrite <- !core_fields_table in E.
  apply (f_equal (Unmarshal c_core_fields)) in E. fold (Marshal c_core_fields (core t1)) (Marshal c_core_fields (core t2)) in E.
  rewrite !unmarshal_marshal in E by (apply core_fields_lawful || by apply core_fields_ok). congruence.
Qed.
