(* ===== verification/PbftAuth.v ===== *)
(** * Authenticated PBFT messages

    The JSON of the messages, signing and verifying them, and what a signature
    binds. *)
From S2P Require Import Prelude GoStd GoJson JsonRoundtrip GoStruct Tx Block BlockCodec PbftTypes GoText TxSign.
Import Json.
Local Open Scope N_scope.

(** ** The JSON of the PBFT messages ([executor/realism/consensus/pbft/message.go])

    The struct tags of the messages that replicas sign, as field tables. An empty
    list of votes is Go's nil slice; the protocol puts a quorum into each. *)

(** *** Blocks are printed tidily *)

Lemma access_neat : neat c_access.
Proof. solve_neat. Qed.
Lemma version_neat : neat c_version.
Proof. solve_neat. Qed.
#[export] Hint Resolve access_neat version_neat : codec.
Lemma routing_neat : neat c_routing.
Proof. solve_neat. Qed.
#[export] Hint Resolve routing_neat : codec.
Lemma transaction_neat : neat c_transaction.
Proof. solve_neat. Qed.
Lemma delta_neat : neat c_delta.
Proof. solve_neat. Qed.
Lemma plan_neat : neat c_plan.
Proof. solve_neat. Qed.
Lemma evidence_neat : neat c_evidence.
Proof. solve_neat. Qed.
#[export] Hint Resolve transaction_neat delta_neat plan_neat evidence_neat : codec.
Lemma block_neat : neat c_block.
Proof. solve_neat. Qed.
#[export] Hint Resolve block_neat : codec.

(** *** Votes *)

#[global] Instance prepare_eta : Eta Prepare := λ r,
  MkPrepare (p_View r) (p_Sequence r) (p_Height r) (p_NodeID r) (p_BlockHash r) (p_Signature r).

Definition c_prepare : codec Prepare := c_struct (MkPrepare 0 0 0 "" "" "")
  ["view" ::= c_uint at p_View; "sequence" ::= c_uint at p_Sequence; "height" ::= c_uint at p_Height;
   "node_id" ::= c_string at p_NodeID; "block_hash" ::= c_string at p_BlockHash;
   "signature" ?:= c_string at p_Signature].

Lemma prepare_lawful : lawful c_prepare.
Proof. solve_struct. Qed.
Lemma prepare_tested : tested c_prepare.
Proof. solve_tested. Qed.
Lemma prepare_neat : neat c_prepare.
Proof. solve_neat. Qed.
#[export] Hint Resolve prepare_lawful prepare_tested prepare_neat : codec.

#[global] Instance commit_eta : Eta Commit := λ r,
  MkCommit (c_View r) (c_Sequence r) (c_Height r) (c_NodeID r) (c_BlockHash r) (c_Signature r).

Definition c_commit : codec Commit := c_struct (MkCommit 0 0 0 "" "" "")
  ["view" ::= c_uint at c_View; "sequence" ::= c_uint at c_Sequence; "height" ::= c_uint at c_Height;
   "node_id" ::= c_string at c_NodeID; "block_hash" ::= c_string at c_BlockHash;
   "signature" ?:= c_string at c_Signature].

Lemma commit_lawful : lawful c_commit.
Proof. solve_struct. Qed.
Lemma commit_tested : tested c_commit.
Proof. solve_tested. Qed.
Lemma commit_neat : neat c_commit.
Proof. solve_neat. Qed.
#[export] Hint Resolve commit_lawful commit_tested commit_neat : codec.

#[global] Instance checkpoint_eta : Eta Checkpoint := λ r,
  MkCheckpoint (cp_Height r) (cp_NodeID r) (cp_BlockHash r) (cp_StateRoot r) (cp_Signature r).

Definition c_checkpoint : codec Checkpoint := c_struct (MkCheckpoint 0 "" "" "" "")
  ["height" ::= c_uint at cp_Height; "node_id" ::= c_string at cp_NodeID; "block_hash" ::= c_string at cp_BlockHash;
   "state_root" ::= c_string at cp_StateRoot; "signature" ?:= c_string at cp_Signature].

Lemma checkpoint_lawful : lawful c_checkpoint.
Proof. solve_struct. Qed.
Lemma checkpoint_tested : tested c_checkpoint.
Proof. solve_tested. Qed.
Lemma checkpoint_neat : neat c_checkpoint.
Proof. solve_neat. Qed.
#[export] Hint Resolve checkpoint_lawful checkpoint_tested checkpoint_neat : codec.

(** *** Certificates *)

#[global] Instance prepared_eta : Eta PreparedCertificate := λ r,
  MkPreparedCert (pc_View r) (pc_Sequence r) (pc_Height r) (pc_BlockHash r) (pc_Prepares r).

Definition c_prepared : codec PreparedCertificate := c_struct (MkPreparedCert 0 0 0 "" [])
  ["view" ::= c_uint at pc_View; "sequence" ::= c_uint at pc_Sequence; "height" ::= c_uint at pc_Height;
   "block_hash" ::= c_string at pc_BlockHash; "prepares" ::= (c_slice c_prepare) at pc_Prepares].

Lemma prepared_lawful : lawful c_prepared.
Proof. solve_struct. Qed.
Lemma prepared_tested : tested c_prepared.
Proof. solve_tested. Qed.
Lemma prepared_neat : neat c_prepared.
Proof. solve_neat. Qed.
#[export] Hint Resolve prepared_lawful prepared_tested prepared_neat : codec.

#[global] Instance stable_eta : Eta CheckpointCertificate := λ r,
  MkCheckpointCert (cpc_Height r) (cpc_BlockHash r) (cpc_StateRoot r) (cpc_Checkpoints r).

Definition c_stable : codec CheckpointCertificate := c_struct (MkCheckpointCert 0 "" "" [])
  ["height" ::= c_uint at cpc_Height; "block_hash" ::= c_string at cpc_BlockHash;
   "state_root" ::= c_string at cpc_StateRoot; "checkpoints" ::= (c_slice c_checkpoint) at cpc_Checkpoints].

Lemma stable_lawful : lawful c_stable.
Proof. solve_struct. Qed.
Lemma stable_tested : tested c_stable.
Proof. solve_tested. Qed.
Lemma stable_neat : neat c_stable.
Proof. solve_neat. Qed.
#[export] Hint Resolve stable_lawful stable_tested stable_neat : codec.

(** *** View changes *)

#[global] Instance view_change_eta : Eta ViewChange := λ r,
  MkViewChange (vc_View r) (vc_NewView r) (vc_NodeID r) (vc_Height r) (vc_LeaderID r) (vc_StableCheckpoint r)
    (vc_Prepared r) (vc_PreparedBlock r) (vc_Signature r).

Definition c_view_change : codec ViewChange := c_struct (MkViewChange 0 0 "" 0 "" None None None "")
  ["view" ::= c_uint at vc_View; "new_view" ::= c_uint at vc_NewView; "node_id" ::= c_string at vc_NodeID;
   "height" ::= c_uint at vc_Height; "leader_id" ::= c_string at vc_LeaderID;
   "stable_checkpoint" ?:= (c_pointer c_stable) at vc_StableCheckpoint;
   "prepared" ?:= (c_pointer c_prepared) at vc_Prepared; "prepared_block" ?:= (c_pointer c_block) at vc_PreparedBlock;
   "signature" ?:= c_string at vc_Signature].

Lemma view_change_lawful : lawful c_view_change.
Proof. solve_struct. Qed.
Lemma view_change_tested : tested c_view_change.
Proof. solve_tested. Qed.
Lemma view_change_neat : neat c_view_change.
Proof. solve_neat. Qed.
#[export] Hint Resolve view_change_lawful view_change_tested view_change_neat : codec.

#[global] Instance new_view_eta : Eta NewView := λ r,
  MkNewView (nv_View r) (nv_LeaderID r) (nv_Height r) (nv_ViewChanges r) (nv_SelectedPrepared r) (nv_SelectedBlock r)
    (nv_Signature r).

Definition c_new_view : codec NewView := c_struct (MkNewView 0 "" 0 [] None None "")
  ["view" ::= c_uint at nv_View; "leader_id" ::= c_string at nv_LeaderID; "height" ::= c_uint at nv_Height;
   "view_changes" ::= (c_slice c_view_change) at nv_ViewChanges;
   "selected_prepared" ?:= (c_pointer c_prepared) at nv_SelectedPrepared;
   "selected_block" ?:= (c_pointer c_block) at nv_SelectedBlock; "signature" ?:= c_string at nv_Signature].

Lemma new_view_lawful : lawful c_new_view.
Proof. solve_struct. Qed.
Lemma new_view_tested : tested c_new_view.
Proof. solve_tested. Qed.
Lemma new_view_neat : neat c_new_view.
Proof. solve_neat. Qed.
#[export] Hint Resolve new_view_lawful new_view_tested new_view_neat : codec.

(** ** Authentication of PBFT messages ([executor/realism/consensus/pbft/auth.go])

    A replica signs the JSON of an envelope around the JSON of the message, the
    signature left out. A function whose Go original returns a value and an error
    returns a sum; the text of a wrapped error is left out. *)

Definition AuthenticationDomain : string := "mbe-pbft-ed25519-v1".

(** *** Keys as text *)

Definition EncodePublicKey (key : list N) : string := encode64 key.
Definition EncodePrivateKey (key : list N) : string := encode64 key.

Definition DecodePublicKey (encoded : string) : string + list N :=
  match decode64 encoded with
  | Some decoded => if length decoded ≟ PublicKeySize then inr decoded else inl "invalid pbft public key"
  | None => inl "invalid pbft public key"
  end.
Definition DecodePrivateKey (encoded : string) : string + list N :=
  match decode64 encoded with
  | Some decoded => if length decoded ≟ PrivateKeySize then inr decoded else inl "invalid pbft private key"
  | None => inl "invalid pbft private key"
  end.

(** *** [json.Marshal] of [any] *)

(** A type as [json.Marshal] meets it: how it is printed, and whether the raw
    messages inside are JSON, without which there is an error. *)
Class Marshaler (T : Type) := { m_codec : codec T; m_valid : T → bool }.

Definition json_Marshal `{Marshaler T} (t : T) : option (list N) :=
  if m_valid t then Some (bytes_of_string (Marshal m_codec t)) else None.

Definition raw_valid (p : list N) : bool :=
  match p with [] => true | _ => bool_decide (is_Some (parse_json (string_of_bytes p))) end.

Definition block_valid (b : Block) : bool :=
  from_option (raw_valid ∘ ep_Payload) true (ExecutionPlan b) &&
  from_option (raw_valid ∘ pe_Payload) true (ProposalEvidence b).

Record prePrepareAuthenticationPayload := MkPrePrepareCore {
  ap_View : N; ap_Sequence : N; ap_Height : N; ap_LeaderID : string; ap_BlockHash : string }.

#[global] Instance core_eta : Eta prePrepareAuthenticationPayload := λ r,
  MkPrePrepareCore (ap_View r) (ap_Sequence r) (ap_Height r) (ap_LeaderID r) (ap_BlockHash r).

Definition c_core : codec prePrepareAuthenticationPayload := c_struct (MkPrePrepareCore 0 0 0 "" "")
  ["view" ::= c_uint at ap_View; "sequence" ::= c_uint at ap_Sequence; "height" ::= c_uint at ap_Height;
   "leader_id" ::= c_string at ap_LeaderID; "block_hash" ::= c_string at ap_BlockHash].

Definition prePrepareAuthenticationCore (msg : PrePrepare) : prePrepareAuthenticationPayload :=
  MkPrePrepareCore (pp_View msg) (pp_Sequence msg) (pp_Height msg) (pp_LeaderID msg) (pp_BlockHash msg).

Record envelope := MkEnvelope { en_Domain : string; en_Kind : string; en_Payload : list N }.

#[global] Instance envelope_eta : Eta envelope := λ r, MkEnvelope (en_Domain r) (en_Kind r) (en_Payload r).

Definition c_envelope : codec envelope := c_struct (MkEnvelope "" "" [])
  ["domain" ::= c_string at en_Domain; "kind" ::= c_string at en_Kind; "payload" ::= c_raw at en_Payload].

Definition view_change_valid (m : ViewChange) : bool := from_option block_valid true (vc_PreparedBlock m).
Definition new_view_valid (m : NewView) : bool :=
  forallb view_change_valid (nv_ViewChanges m) && from_option block_valid true (nv_SelectedBlock m).

#[global] Instance marshal_core : Marshaler prePrepareAuthenticationPayload := {| m_codec := c_core; m_valid _ := true |}.
#[global] Instance marshal_prepare : Marshaler Prepare := {| m_codec := c_prepare; m_valid _ := true |}.
#[global] Instance marshal_commit : Marshaler Commit := {| m_codec := c_commit; m_valid _ := true |}.
#[global] Instance marshal_checkpoint : Marshaler Checkpoint := {| m_codec := c_checkpoint; m_valid _ := true |}.
#[global] Instance marshal_view_change : Marshaler ViewChange := {| m_codec := c_view_change; m_valid := view_change_valid |}.
#[global] Instance marshal_new_view : Marshaler NewView := {| m_codec := c_new_view; m_valid := new_view_valid |}.
#[global] Instance marshal_envelope : Marshaler envelope :=
  {| m_codec := c_envelope; m_valid e := raw_valid (en_Payload e) |}.

(** *** Signing and verifying *)

Definition authenticatedPayloadBytes `{Marshaler T} (kind : string) (payload : T) : string + list N :=
  match json_Marshal payload with
  | None => inl ("marshal pbft " +:+ kind +:+ " payload")
  | Some payloadRaw =>
      match json_Marshal (MkEnvelope AuthenticationDomain kind payloadRaw) with
      | None => inl ("marshal pbft " +:+ kind +:+ " authenticated envelope")
      | Some message => inr message
      end
  end.

Section Sign.
Context `{!Ed25519}.

Definition signAuthenticatedPayload `{Marshaler T} (kind : string) (payload : T) (privateKey : list N) : string + string :=
  if length privateKey ≠? PrivateKeySize then inl "invalid pbft private key size"
  else match authenticatedPayloadBytes kind payload with
       | inl e => inl e
       | inr message => inr (encode64 (ed_sign privateKey message))
       end.

Definition verifyAuthenticatedPayload `{Marshaler T} (kind : string) (payload : T) (encodedSignature : string)
    (publicKey : list N) : error :=
  reject length publicKey ≠? PublicKeySize as "invalid pbft public key size" ;;
  reject encodedSignature ≟ "" as ("missing pbft " +:+ kind +:+ " signature") ;;
  match decode64 encodedSignature with
  | None => Some ("invalid pbft " +:+ kind +:+ " signature encoding")
  | Some signature =>
      reject length signature ≠? SignatureSize as ("invalid pbft " +:+ kind +:+ " signature encoding") ;;
      match authenticatedPayloadBytes kind payload with
      | inl e => Some e
      | inr message =>
          reject negb (ed_verify publicKey message signature) as ("invalid pbft " +:+ kind +:+ " signature") ;;
          None
      end
  end.

(** The messages with another signature. *)
Definition with_pp_Signature (sig : string) (m : PrePrepare) : PrePrepare :=
  MkPrePrepare (pp_View m) (pp_Sequence m) (pp_Height m) (pp_LeaderID m) (pp_BlockHash m) (pp_Block m) sig.
Definition with_p_Signature (sig : string) (m : Prepare) : Prepare := ltac:(set_field p_Signature sig m).
Definition with_c_Signature (sig : string) (m : Commit) : Commit := ltac:(set_field c_Signature sig m).
Definition with_cp_Signature (sig : string) (m : Checkpoint) : Checkpoint := ltac:(set_field cp_Signature sig m).
Definition with_vc_Signature (sig : string) (m : ViewChange) : ViewChange := ltac:(set_field vc_Signature sig m).
Definition with_nv_Signature (sig : string) (m : NewView) : NewView := ltac:(set_field nv_Signature sig m).

(** The argument is a pointer, [None] when nil. *)
Definition SignPrePrepare (msg : option PrePrepare) (privateKey : list N) : string + PrePrepare :=
  match msg with
  | None => inl "pbft pre-prepare is nil"
  | Some msg =>
      match signAuthenticatedPayload "pre_prepare" (prePrepareAuthenticationCore msg) privateKey with
      | inl e => inl e
      | inr signature => inr (with_pp_Signature signature msg)
      end
  end.
Definition VerifyPrePrepare (msg : PrePrepare) (publicKey : list N) : error :=
  verifyAuthenticatedPayload "pre_prepare" (prePrepareAuthenticationCore msg) (pp_Signature msg) publicKey.

Definition SignPrepare (msg : option Prepare) (privateKey : list N) : string + Prepare :=
  match msg with
  | None => inl "pbft prepare is nil"
  | Some msg =>
      let clone := with_p_Signature "" msg in
      match signAuthenticatedPayload "prepare" clone privateKey with
      | inl e => inl e
      | inr signature => inr (with_p_Signature signature msg)
      end
  end.
Definition VerifyPrepare (msg : Prepare) (publicKey : list N) : error :=
  let clone := with_p_Signature "" msg in
  verifyAuthenticatedPayload "prepare" clone (p_Signature msg) publicKey.

Definition SignCommit (msg : option Commit) (privateKey : list N) : string + Commit :=
  match msg with
  | None => inl "pbft commit is nil"
  | Some msg =>
      let clone := with_c_Signature "" msg in
      match signAuthenticatedPayload "commit" clone privateKey with
      | inl e => inl e
      | inr signature => inr (with_c_Signature signature msg)
      end
  end.
Definition VerifyCommit (msg : Commit) (publicKey : list N) : error :=
  let clone := with_c_Signature "" msg in
  verifyAuthenticatedPayload "commit" clone (c_Signature msg) publicKey.

Definition SignCheckpoint (msg : option Checkpoint) (privateKey : list N) : string + Checkpoint :=
  match msg with
  | None => inl "pbft checkpoint is nil"
  | Some msg =>
      let clone := with_cp_Signature "" msg in
      match signAuthenticatedPayload "checkpoint" clone privateKey with
      | inl e => inl e
      | inr signature => inr (with_cp_Signature signature msg)
      end
  end.
Definition VerifyCheckpoint (msg : Checkpoint) (publicKey : list N) : error :=
  let clone := with_cp_Signature "" msg in
  verifyAuthenticatedPayload "checkpoint" clone (cp_Signature msg) publicKey.

Definition SignViewChange (msg : option ViewChange) (privateKey : list N) : string + ViewChange :=
  match msg with
  | None => inl "pbft view-change is nil"
  | Some msg =>
      let clone := with_vc_Signature "" msg in
      match signAuthenticatedPayload "view_change" clone privateKey with
      | inl e => inl e
      | inr signature => inr (with_vc_Signature signature msg)
      end
  end.
Definition VerifyViewChange (msg : ViewChange) (publicKey : list N) : error :=
  let clone := with_vc_Signature "" msg in
  verifyAuthenticatedPayload "view_change" clone (vc_Signature msg) publicKey.

Definition SignNewView (msg : option NewView) (privateKey : list N) : string + NewView :=
  match msg with
  | None => inl "pbft new-view is nil"
  | Some msg =>
      let clone := with_nv_Signature "" msg in
      match signAuthenticatedPayload "new_view" clone privateKey with
      | inl e => inl e
      | inr signature => inr (with_nv_Signature signature msg)
      end
  end.
Definition VerifyNewView (msg : NewView) (publicKey : list N) : error :=
  let clone := with_nv_Signature "" msg in
  verifyAuthenticatedPayload "new_view" clone (nv_Signature msg) publicKey.

End Sign.

(** ** What a signed PBFT message binds

    The six kinds of signed content as one type; the bytes that are signed
    determine the kind and the whole content, and signing then verifying succeeds. *)

Lemma core_lawful : lawful c_core.
Proof. solve_struct. Qed.
Lemma core_tested : tested c_core.
Proof. solve_tested. Qed.
Lemma core_neat : neat c_core.
Proof. solve_neat. Qed.
#[export] Hint Resolve core_lawful core_tested core_neat : codec.

(** *** Messages whose texts are UTF-8 are marshalled without error *)

Lemma raw_ok_valid p : c_ok c_raw p → raw_valid p = true.
Proof.
  intros [-> |(j & _ & Hj & ->)]; [done|]. unfold raw_valid. destruct (bytes_of_string (marshal j)) eqn:E; [done|].
  rewrite <- E, string_of_bytes_of, parse_json_marshal by done. by apply bool_decide_eq_true_2.
Qed.

Lemma struct_field {A} zero (fs : list (field A)) a i f :
  c_ok (c_struct zero fs) a → fs !! i = Some f → c_ok (f_codec f) (f_get f a).
Proof. intros Ha Hi. exact (Forall_lookup_1 _ _ i f Ha Hi). Qed.

Lemma block_ok_valid b : c_ok c_block b → block_valid b = true.
Proof.
  intros Hb. pose proof (struct_field _ _ _ 16 _ Hb eq_refl) as Hp. pose proof (struct_field _ _ _ 17 _ Hb eq_refl) as He.
  change (c_ok (c_pointer c_plan) (ExecutionPlan b)) in Hp. change (c_ok (c_pointer c_evidence) (ProposalEvidence b)) in He.
  unfold block_valid. apply andb_true_iff. split.
  - destruct (ExecutionPlan b) as [p|]; [|done]. change (c_ok c_plan p) in Hp.
    exact (raw_ok_valid _ (struct_field _ _ p 3 _ Hp eq_refl)).
  - destruct (ProposalEvidence b) as [p|]; [|done]. change (c_ok c_evidence p) in He.
    exact (raw_ok_valid _ (struct_field _ _ p 2 _ He eq_refl)).
Qed.

Lemma view_change_ok_valid m : c_ok c_view_change m → view_change_valid m = true.
Proof.
  intros Hm. pose proof (struct_field _ _ _ 7 _ Hm eq_refl) as Hb.
  change (c_ok (c_pointer c_block) (vc_PreparedBlock m)) in Hb. unfold view_change_valid.
  destruct (vc_PreparedBlock m) as [b|]; [|done]. by apply block_ok_valid.
Qed.

Lemma new_view_ok_valid m : c_ok c_new_view m → new_view_valid m = true.
Proof.
  intros Hm. pose proof (struct_field _ _ _ 3 _ Hm eq_refl) as Hv. pose proof (struct_field _ _ _ 5 _ Hm eq_refl) as Hb.
  change (Forall (c_ok c_view_change) (nv_ViewChanges m)) in Hv. change (c_ok (c_pointer c_block) (nv_SelectedBlock m)) in Hb.
  unfold new_view_valid. apply andb_true_iff. split.
  - apply forallb_forall. intros v Hin. apply view_change_ok_valid. rewrite List.Forall_forall in Hv. by apply Hv.
  - destruct (nv_SelectedBlock m) as [b|]; [|done]. by apply block_ok_valid.
Qed.

(** What a type that is signed owes: its JSON is read back, its text is compact,
    and its values with UTF-8 texts are marshalled. *)
Class Printable T `{!Marshaler T} : Prop := {
  pr_lawful : lawful (m_codec (T := T));
  pr_neat : neat (m_codec (T := T));
  pr_valid (t : T) : c_ok m_codec t → m_valid t = true;
}.
#[global] Instance printable_core : Printable prePrepareAuthenticationPayload.
Proof. split; [exact core_lawful|exact core_neat|done]. Qed.
#[global] Instance printable_prepare : Printable Prepare.
Proof. split; [exact prepare_lawful|exact prepare_neat|done]. Qed.
#[global] Instance printable_commit : Printable Commit.
Proof. split; [exact commit_lawful|exact commit_neat|done]. Qed.
#[global] Instance printable_checkpoint : Printable Checkpoint.
Proof. split; [exact checkpoint_lawful|exact checkpoint_neat|done]. Qed.
#[global] Instance printable_view_change : Printable ViewChange.
Proof. split; [exact view_change_lawful|exact view_change_neat|exact view_change_ok_valid]. Qed.
#[global] Instance printable_new_view : Printable NewView.
Proof. split; [exact new_view_lawful|exact new_view_neat|exact new_view_ok_valid]. Qed.

(** *** The bytes that are signed *)

Definition envelope_json (kind text : string) : json :=
  JObj [("domain", JStr AuthenticationDomain); ("kind", JStr kind); ("payload", JRaw text)].

Lemma signed_payload_bytes `{Printable T} kind (t : T) : c_ok m_codec t →
  authenticatedPayloadBytes kind t = inr (bytes_of_string (marshal (envelope_json kind (Marshal m_codec t)))).
Proof.
  intros Hok. destruct (marshal_printed m_codec t pr_lawful pr_neat Hok) as [Hr Hj].
  pose proof (pr_lawful t Hok) as [Hjson _].
  assert (raw_valid (bytes_of_string (Marshal m_codec t)) = true) as Hv.
  { destruct (marshal_starts _ Hjson) as (b & l & E & _). unfold raw_valid. fold (Marshal m_codec t) in E. rewrite E, <- E.
    rewrite string_of_bytes_of. apply bool_decide_eq_true_2. eexists. by apply parse_json_marshal. }
  unfold authenticatedPayloadBytes, json_Marshal at 1. rewrite pr_valid by done. unfold json_Marshal.
  change (m_valid (MkEnvelope AuthenticationDomain kind ?p)) with (raw_valid p). rewrite Hv.
  cbn [m_codec marshal_envelope]. unfold Marshal at 1. do 3 f_equal.
  change (c_enc c_envelope ?e) with
    (JObj [("domain", JStr (en_Domain e)); ("kind", JStr (en_Kind e)); ("payload", c_enc c_raw (en_Payload e))]).
  cbn [en_Payload en_Domain en_Kind]. by rewrite Hr.
Qed.

Lemma envelope_ok `{Printable T} kind (t : T) : utf8_string kind → c_ok m_codec t →
  json_ok (envelope_json kind (Marshal m_codec t)).
Proof.
  intros Hk Hok. destruct (marshal_printed m_codec t pr_lawful pr_neat Hok) as [_ Hj].
  cbn [json_ok envelope_json fold_right]. split_and!; try (by apply name_utf8); try done; by apply Hj.
Qed.

Lemma envelope_inj kind1 kind2 text1 text2 : json_ok (envelope_json kind1 text1) → json_ok (envelope_json kind2 text2) →
  marshal (envelope_json kind1 text1) = marshal (envelope_json kind2 text2) → kind1 = kind2 ∧ text1 = text2.
Proof.
  intros H1 H2 E. apply (f_equal parse_json) in E. rewrite !parse_json_marshal in E by done.
  unfold envelope_json in E. cbn [value_of map marshal] in E.
  pose proof (f_equal (λ v, match v with Some (VObj [_; (_, (VStr k, _)); _]) => k | _ => "" end) E) as Ek.
  apply (f_equal (λ v, match v with Some (VObj [_; _; (_, (_, text))]) => text | _ => [] end)) in E. cbv beta iota in E, Ek.
  split; [done|]. by apply (inj bytes_of_string) in E.
Qed.

Lemma marshal_inj {T} (c : codec T) t1 t2 : lawful c → c_ok c t1 → c_ok c t2 → Marshal c t1 = Marshal c t2 → t1 = t2.
Proof. intros Hl H1 H2 E. apply (f_equal (Unmarshal c)) in E. rewrite !unmarshal_marshal in E by done. congruence. Qed.

(** *** The kinds of signed content *)

Inductive signable :=
  | SgPrePrepare (core : prePrepareAuthenticationPayload)
  | SgPrepare (msg : Prepare)
  | SgCommit (msg : Commit)
  | SgCheckpoint (msg : Checkpoint)
  | SgViewChange (msg : ViewChange)
  | SgNewView (msg : NewView).

Definition signed_bytes (m : signable) : string + list N :=
  match m with
  | SgPrePrepare core => authenticatedPayloadBytes "pre_prepare" core
  | SgPrepare msg => authenticatedPayloadBytes "prepare" msg
  | SgCommit msg => authenticatedPayloadBytes "commit" msg
  | SgCheckpoint msg => authenticatedPayloadBytes "checkpoint" msg
  | SgViewChange msg => authenticatedPayloadBytes "view_change" msg
  | SgNewView msg => authenticatedPayloadBytes "new_view" msg
  end.

(** The texts are UTF-8 and the numbers fit, as in every message that
    [json.Unmarshal] has filled in. *)
Definition signable_ok (m : signable) : Prop :=
  match m with
  | SgPrePrepare core => c_ok c_core core
  | SgPrepare msg => c_ok c_prepare msg
  | SgCommit msg => c_ok c_commit msg
  | SgCheckpoint msg => c_ok c_checkpoint msg
  | SgViewChange msg => c_ok c_view_change msg
  | SgNewView msg => c_ok c_new_view msg
  end.

Definition kind_of (m : signable) : string :=
  match m with
  | SgPrePrepare _ => "pre_prepare" | SgPrepare _ => "prepare" | SgCommit _ => "commit" | SgCheckpoint _ => "checkpoint"
  | SgViewChange _ => "view_change" | SgNewView _ => "new_view"
  end.
Definition text_of_content (m : signable) : string :=
  match m with
  | SgPrePrepare core => Marshal c_core core | SgPrepare msg => Marshal c_prepare msg
  | SgCommit msg => Marshal c_commit msg | SgCheckpoint msg => Marshal c_checkpoint msg
  | SgViewChange msg => Marshal c_view_change msg | SgNewView msg => Marshal c_new_view msg
  end.

Lemma signed_bytes_text m : signable_ok m →
  signed_bytes m = inr (bytes_of_string (marshal (envelope_json (kind_of m) (text_of_content m)))).
Proof. intros Hm. destruct m as [t|t|t|t|t|t]; exact (signed_payload_bytes _ t Hm). Qed.

Lemma content_ok m : signable_ok m → json_ok (envelope_json (kind_of m) (text_of_content m)).
Proof. intros Hm. destruct m as [t|t|t|t|t|t]; (refine (envelope_ok _ t _ Hm); by apply name_utf8). Qed.

Lemma content_inj a b : signable_ok a → signable_ok b → kind_of a = kind_of b → text_of_content a = text_of_content b → a = b.
Proof.
  intros Ha Hb Hk E. destruct a, b; try discriminate Hk; clear Hk; cbn [text_of_content signable_ok] in *; f_equal.
  - exact (marshal_inj _ _ _ core_lawful Ha Hb E).
  - exact (marshal_inj _ _ _ prepare_lawful Ha Hb E).
  - exact (marshal_inj _ _ _ commit_lawful Ha Hb E).
  - exact (marshal_inj _ _ _ checkpoint_lawful Ha Hb E).
  - exact (marshal_inj _ _ _ view_change_lawful Ha Hb E).
  - exact (marshal_inj _ _ _ new_view_lawful Ha Hb E).
Qed.

Lemma signed_bytes_inj a b m : signable_ok a → signable_ok b → signed_bytes a = inr m → signed_bytes b = inr m → a = b.
Proof.
  intros Ha Hb Ea Eb. rewrite signed_bytes_text in Ea by done. rewrite signed_bytes_text in Eb by done.
  rewrite <- Eb in Ea. apply (inj inr), (inj bytes_of_string) in Ea.
  destruct (envelope_inj _ _ _ _ (content_ok a Ha) (content_ok b Hb) Ea) as [? ?]. by apply content_inj.
Qed.

Lemma signed_bytes_total m : signable_ok m → ∃ bytes, signed_bytes m = inr bytes.
Proof. intros Hm. eexists. by apply signed_bytes_text. Qed.

(** *** Signatures *)

Section Signatures.
Context {ed : Ed25519}.

Lemma verify_payload_sound `{Marshaler T} kind (t : T) sig key : verifyAuthenticatedPayload kind t sig key = None →
  ∃ message signature, authenticatedPayloadBytes kind t = inr message ∧ ed_verify key message signature = true.
Proof.
  unfold verifyAuthenticatedPayload. intros Hv. repeat case_match; try done. eexists _, _. split; [done|].
  by apply negb_false_iff.
Qed.

Lemma sign_verify_payload `{Marshaler T} `{!Ed25519Laws} kind (t : T) key message :
  length key = PrivateKeySize → authenticatedPayloadBytes kind t = inr message →
  ∃ sig, signAuthenticatedPayload kind t key = inr sig ∧ verifyAuthenticatedPayload kind t sig (public_of key) = None.
Proof.
  intros Hk Hm. destruct (public_size key Hk) as [Hp _]. destruct (sign_size key message Hk) as [Hs Hb].
  exists (encode64 (ed_sign key message)). unfold signAuthenticatedPayload, verifyAuthenticatedPayload. rewrite Hm.
  rewrite (bool_decide_eq_true_2 _ Hk), (bool_decide_eq_true_2 _ Hp). split; [done|]. cbn [negb].
  rewrite bool_decide_eq_false_2 by (apply encode64_nonempty; by destruct (ed_sign key message)).
  rewrite decode64_encode64 by done. rewrite (bool_decide_eq_true_2 _ Hs). cbn [negb]. by rewrite sign_verify.
Qed.

End Signatures.

(** What a message is signed as. *)
Definition commit_content (msg : Commit) : signable := SgCommit (with_c_Signature "" msg).
Definition prepare_content (msg : Prepare) : signable := SgPrepare (with_p_Signature "" msg).
Definition checkpoint_content (msg : Checkpoint) : signable := SgCheckpoint (with_cp_Signature "" msg).
Definition pre_prepare_content (msg : PrePrepare) : signable := SgPrePrepare (prePrepareAuthenticationCore msg).
Definition view_change_content (msg : ViewChange) : signable := SgViewChange (with_vc_Signature "" msg).
Definition new_view_content (msg : NewView) : signable := SgNewView (with_nv_Signature "" msg).

Lemma commit_content_ok msg : c_ok c_commit msg → signable_ok (commit_content msg).
Proof.
  intros H. cbn [c_ok c_commit c_struct] in H. repeat (apply Forall_cons in H as [? H]).
  cbn [signable_ok commit_content c_ok c_commit c_struct]. repeat (apply List.Forall_cons; [first [assumption|by apply name_utf8]|]).
  apply List.Forall_nil.
Qed.
