(* ===== verification/PbftIdentity.v ===== *)
(** * Identities of the validators

    Node identities and message authentication in the runtime, the keys of a
    validated plan, and the way from generated identities to accepted messages. *)
From S2P Require Import Prelude GoStd GoJson JsonRoundtrip GoStruct GoText TxSign Tx Block BlockCodec PbftTypes PbftAuth.
Local Open Scope N_scope.

(** ** Node identities and message authentication in the runtime ([executor/v5/pbft_safety.go])

    The public keys of the validators are part of the run plan; each process gets
    its private key through its environment. The runtime keeps the plan and its
    node; [rt_env] is what [os.Getenv] returns for the key. The texts of errors
    leave out the values they quote. *)

Definition PBFTIdentitySchemeEd25519V1 : string := "ed25519-node-identity-v1".

(** The fields of the plan that identities depend on. *)
Record NodePlan := MkNodePlan { np_NodeID : string; np_ShardID : string; np_Validators : list string }.
Record Plan := MkPlan {
  pl_PlanID : string;
  pl_PBFTIdentityScheme : string;
  pl_PBFTPublicKeys : gmap string string;
  pl_NodeConfigs : list NodePlan;
}.
Record NodeRuntime := MkRuntime { rt_plan : Plan; rt_node : NodePlan; rt_env : string }.

(** *** Generating keys *)

Fixpoint identity_ids (seen : gset string) (nodes : list NodePlan) : string + list string :=
  match nodes with
  | [] => inr []
  | node :: nodes' =>
      let id := trim_space (np_NodeID node) in
      if id ≟ "" then inl "pbft identity generation found empty node id"
      else if bool_decide (id ∈ seen) then inl "pbft identity generation found duplicate node id"
      else match identity_ids ({[id]} ∪ seen) nodes' with
           | inl e => inl e
           | inr ids => inr (id :: ids)
           end
  end.

(** The keys for the sorted ids; [generate i] is what the [i]-th call of
    [ed25519.GenerateKey] returns, [None] when the source of randomness fails. *)
Fixpoint identity_keys (generate : nat → option (list N * list N)) (i : nat) (ids : list string)
    (publicKeys privateKeys : gmap string string) : string + (gmap string string * gmap string string) :=
  match ids with
  | [] => inr (publicKeys, privateKeys)
  | id :: ids' =>
      match generate i with
      | None => inl "generate pbft identity"
      | Some (publicKey, privateKey) =>
          identity_keys generate (S i) ids' (<[id := EncodePublicKey publicKey]> publicKeys)
            (<[id := EncodePrivateKey privateKey]> privateKeys)
      end
  end.

Definition GeneratePBFTIdentityMaterial (generate : nat → option (list N * list N)) (nodes : list NodePlan)
    : string + (gmap string string * gmap string string) :=
  match identity_ids ∅ nodes with
  | inl e => inl e
  | inr ids => identity_keys generate 0 (sort_strings ids) ∅ ∅
  end.

(** *** Checking a plan *)

(** The first loop: the nodes by id and the owners of the keys. *)
Fixpoint check_identities (keys : gmap string string) (nodeByID : gmap string NodePlan) (ownerByKey : gmap string string)
    (nodes : list NodePlan) : string + gmap string NodePlan :=
  match nodes with
  | [] => inr nodeByID
  | node :: nodes' =>
      let nodeID := trim_space (np_NodeID node) in
      if nodeID ≟ "" then inl "pbft plan contains empty node id"
      else if nodeID ≠? np_NodeID node then inl "pbft node id contains surrounding whitespace"
      else if bool_decide (is_Some (nodeByID !! nodeID)) then inl "pbft plan contains duplicate node id"
      else
        let nodeByID := <[nodeID := node]> nodeByID in
        let encoded := trim_space (default "" (keys !! nodeID)) in
        if encoded ≟ "" then inl "pbft public key missing for node"
        else match DecodePublicKey encoded with
             | inl e => inl "pbft public key for node"
             | inr publicKey =>
                 let canonicalKey := EncodePublicKey publicKey in
                 let owner := default "" (ownerByKey !! canonicalKey) in
                 if (owner ≠? "") && (owner ≠? nodeID) then inl "pbft public key reused"
                 else check_identities keys nodeByID (<[canonicalKey := nodeID]> ownerByKey) nodes'
             end
  end.

(** The validators of one node. *)
Fixpoint check_validators (plan : Plan) (nodeByID : gmap string NodePlan) (node : NodePlan) (seen : gset string)
    (validators : list string) : string + gset string :=
  match validators with
  | [] => inr seen
  | validatorRaw :: validators' =>
      let validator := trim_space validatorRaw in
      if validator ≟ "" then inl "pbft validator set contains empty node id"
      else if validator ≠? validatorRaw then inl "pbft validator id contains surrounding whitespace"
      else if bool_decide (validator ∈ seen) then inl "pbft validator set contains duplicate node"
      else match nodeByID !! validator with
           | None => inl "pbft validator is not present in node configs"
           | Some validatorNode =>
               if trim_space (np_ShardID validatorNode) ≠? trim_space (np_ShardID node)
               then inl "pbft validator belongs to another shard"
               else if trim_space (default "" (pl_PBFTPublicKeys plan !! validator)) ≟ ""
               then inl "pbft validator has no registered public key"
               else check_validators plan nodeByID node ({[validator]} ∪ seen) validators'
           end
  end.

Fixpoint check_membership (plan : Plan) (nodeByID : gmap string NodePlan) (nodes : list NodePlan) : error :=
  match nodes with
  | [] => None
  | node :: nodes' =>
      match check_validators plan nodeByID node ∅ (np_Validators node) with
      | inl e => Some e
      | inr seenValidator =>
          reject negb (bool_decide (trim_space (np_NodeID node) ∈ seenValidator))
            as "pbft node is not a member of its own validator set" ;;
          check_membership plan nodeByID nodes'
      end
  end.

Definition ValidatePBFTIdentityPlan (plan : Plan) : error :=
  reject pl_PBFTIdentityScheme plan ≠? PBFTIdentitySchemeEd25519V1 as "unsupported pbft identity scheme" ;;
  reject size (pl_PBFTPublicKeys plan) ≟ O as "pbft public key registry is empty" ;;
  match check_identities (pl_PBFTPublicKeys plan) ∅ ∅ (pl_NodeConfigs plan) with
  | inl e => Some e
  | inr nodeByID =>
      reject existsb (λ kv, negb (bool_decide (is_Some (nodeByID !! trim_space kv.1)))) (map_to_list (pl_PBFTPublicKeys plan))
        as "pbft public key registry contains unknown node" ;;
      check_membership plan nodeByID (pl_NodeConfigs plan)
  end.

(** *** Keys of the runtime *)

Definition pbftAuthenticationRequired (r : NodeRuntime) : bool :=
  (trim_space (pl_PBFTIdentityScheme (rt_plan r)) ≠? "") || (0 <? size (pl_PBFTPublicKeys (rt_plan r)))%nat ||
  (trim_space (pl_PlanID (rt_plan r)) ≠? "").

Definition pbftTestIdentityFallbackAllowed (r : NodeRuntime) : bool :=
  (trim_space (pl_PlanID (rt_plan r)) ≟ "") && (trim_space (pl_PBFTIdentityScheme (rt_plan r)) ≟ "") &&
  (size (pl_PBFTPublicKeys (rt_plan r)) ≟ O).

Section Runtime.
Context `{!Ed25519}.

Definition deterministicPBFTTestPrivateKey (nodeID : string) : list N :=
  new_key_from_seed (Sha256.sum256 (bytes_of_string ("mbe-pbft-test-only-v1|" +:+ nodeID))).

Definition pbftPublicKey (r : NodeRuntime) (nodeID : string) : string + list N :=
  let nodeID := trim_space nodeID in
  if nodeID ≟ "" then inl "pbft public key lookup has empty node id"
  else
    let encoded := trim_space (default "" (pl_PBFTPublicKeys (rt_plan r) !! nodeID)) in
    if encoded ≠? "" then
      match DecodePublicKey encoded with
      | inl e => inl "pbft public key for node"
      | inr key => inr key
      end
    else if pbftTestIdentityFallbackAllowed r then inr (public_of (deterministicPBFTTestPrivateKey nodeID))
    else inl "pbft public key missing for node".

Definition pbftSigningPrivateKey (r : NodeRuntime) : string + list N :=
  let encoded := trim_space (rt_env r) in
  if encoded ≟ "" then
    if pbftTestIdentityFallbackAllowed r then inr (deterministicPBFTTestPrivateKey (np_NodeID (rt_node r)))
    else inl "pbft private key is not available for node"
  else
    match DecodePrivateKey encoded with
    | inl e => inl "pbft private key for node"
    | inr privateKey =>
        match pbftPublicKey r (np_NodeID (rt_node r)) with
        | inl e => inl e
        | inr publicKey =>
            if public_of privateKey ≠? publicKey
            then inl "pbft private key does not match registered public key for node"
            else inr privateKey
        end
    end.

(** *** Signing *)

(** The six methods [signPBFT...] differ in the function that signs. *)
Definition sign_with {M} (sign : option M → list N → string + M) (r : NodeRuntime) (msg : M) : string + M :=
  if negb (pbftAuthenticationRequired r) then inr msg
  else match pbftSigningPrivateKey r with
       | inl e => inl e
       | inr privateKey => sign (Some msg) privateKey
       end.

Definition signPBFTPrePrepare : NodeRuntime → PrePrepare → string + PrePrepare := sign_with SignPrePrepare.
Definition signPBFTPrepare : NodeRuntime → Prepare → string + Prepare := sign_with SignPrepare.
Definition signPBFTCommit : NodeRuntime → Commit → string + Commit := sign_with SignCommit.
Definition signPBFTCheckpoint : NodeRuntime → Checkpoint → string + Checkpoint := sign_with SignCheckpoint.
Definition signPBFTViewChange : NodeRuntime → ViewChange → string + ViewChange := sign_with SignViewChange.
Definition signPBFTNewView : NodeRuntime → NewView → string + NewView := sign_with SignNewView.

(** *** Verifying *)

(** The key of the node, then the check: shared by the six methods. *)
Definition verify_from (r : NodeRuntime) (nodeID : string) (check : list N → error) : error :=
  match pbftPublicKey r nodeID with
  | inl e => Some e
  | inr publicKey => check publicKey
  end.

Definition verifyPBFTPrePrepareAuthentication (r : NodeRuntime) (msg : PrePrepare) : error :=
  if (pp_Signature msg ≟ "") && negb (pbftAuthenticationRequired r) then None
  else verify_from r (pp_LeaderID msg) (VerifyPrePrepare msg).
Definition verifyPBFTPrepareAuthentication (r : NodeRuntime) (msg : Prepare) : error :=
  if (p_Signature msg ≟ "") && negb (pbftAuthenticationRequired r) then None
  else verify_from r (p_NodeID msg) (VerifyPrepare msg).
Definition verifyPBFTCommitAuthentication (r : NodeRuntime) (msg : Commit) : error :=
  if (c_Signature msg ≟ "") && negb (pbftAuthenticationRequired r) then None
  else verify_from r (c_NodeID msg) (VerifyCommit msg).
Definition verifyPBFTCheckpointAuthentication (r : NodeRuntime) (msg : Checkpoint) : error :=
  if (cp_Signature msg ≟ "") && negb (pbftAuthenticationRequired r) then None
  else verify_from r (cp_NodeID msg) (VerifyCheckpoint msg).

(** The first error of a list of checks. *)
Fixpoint first_error {A} (check : A → error) (l : list A) : error :=
  match l with
  | [] => None
  | x :: l' => match check x with Some e => Some e | None => first_error check l' end
  end.

Definition verifyPreparedCertificateAuthentication (r : NodeRuntime) (cert : option PreparedCertificate) : error :=
  match cert with
  | None => None
  | Some cert => first_error (verifyPBFTPrepareAuthentication r) (pc_Prepares cert)
  end.
Definition verifyCommitCertificateAuthentication (r : NodeRuntime) (cert : CommitCertificate) : error :=
  first_error (verifyPBFTCommitAuthentication r) (cc_Commits cert).
Definition verifyCheckpointCertificateAuthentication (r : NodeRuntime) (cert : option CheckpointCertificate) : error :=
  match cert with
  | None => None
  | Some cert => first_error (verifyPBFTCheckpointAuthentication r) (cpc_Checkpoints cert)
  end.

(** *** Block bodies *)

(** The loop over the transactions, beside the announced ids. *)
Fixpoint check_bodies (strict : bool) (seen : gset string) (ids : list string) (items : list SignedTransaction) : error :=
  match items, ids with
  | item :: items', id :: ids' =>
      reject trim_space (TxID item) ≟ "" as "consensus block transaction has empty tx id" ;;
      reject id ≠? TxID item as "consensus block transaction id/body mismatch" ;;
      reject bool_decide (TxID item ∈ seen) as "consensus block contains duplicate transaction id" ;;
      if strict then
        match Verify item with
        | Some e => Some ("consensus block transaction failed signature/body verification: " +:+ e)
        | None => check_bodies strict ({[TxID item]} ∪ seen) ids' items'
        end
      else check_bodies strict ({[TxID item]} ∪ seen) ids' items'
  | _, _ => None
  end.

Definition validateConsensusBlockStructuralV1 (r : NodeRuntime) (b : Block) : error :=
  reject BlockHash b ≟ "" as "consensus block has empty block hash" ;;
  reject Hash b ≠? BlockHash b as "consensus block hash mismatch" ;;
  reject length (default [] (TxIDs b)) ≠? length (TxList b) as "consensus block transaction body count mismatch" ;;
  reject TxRoot (TxIDs b) ≠? TxRootField b as "consensus block transaction root mismatch" ;;
  check_bodies (pbftAuthenticationRequired r) ∅ (default [] (TxIDs b)) (TxList b).

(** [frontier] is the check of the MetaTrack plugins that follows. *)
Definition validateConsensusBlockBody (frontier : NodeRuntime → Block → error) (r : NodeRuntime) (b : Block) : error :=
  match validateConsensusBlockStructuralV1 r b with
  | Some e => Some e
  | None => frontier r b
  end.

Definition verifyPBFTViewChangeAuthentication (frontier : NodeRuntime → Block → error) (r : NodeRuntime)
    (msg : ViewChange) : error :=
  match (if (vc_Signature msg ≠? "") || pbftAuthenticationRequired r
         then verify_from r (vc_NodeID msg) (VerifyViewChange msg) else None) with
  | Some e => Some e
  | None =>
  match verifyPreparedCertificateAuthentication r (vc_Prepared msg) with
  | Some e => Some e
  | None =>
  match verifyCheckpointCertificateAuthentication r (vc_StableCheckpoint msg) with
  | Some e => Some e
  | None =>
  match vc_PreparedBlock msg with
  | None => None
  | Some b => match validateConsensusBlockBody frontier r b with
              | Some e => Some ("view-change prepared block: " +:+ e)
              | None => None
              end
  end end end end.

Definition verifyPBFTNewViewAuthentication (frontier : NodeRuntime → Block → error) (r : NodeRuntime)
    (msg : NewView) : error :=
  match (if (nv_Signature msg ≠? "") || pbftAuthenticationRequired r
         then verify_from r (nv_LeaderID msg) (VerifyNewView msg) else None) with
  | Some e => Some e
  | None =>
  match first_error (verifyPBFTViewChangeAuthentication frontier r) (nv_ViewChanges msg) with
  | Some e => Some e
  | None =>
  match verifyPreparedCertificateAuthentication r (nv_SelectedPrepared msg) with
  | Some e => Some ("new-view selected prepared certificate: " +:+ e)
  | None =>
  match nv_SelectedBlock msg with
  | None => None
  | Some b => match validateConsensusBlockBody frontier r b with
              | Some e => Some ("new-view selected block: " +:+ e)
              | None => None
              end
  end end end end.

End Runtime.

(** ** Keys of the validators

    A plan that passes validation gives its nodes different keys, and switches
    authentication on; a vote that passes the runtime's check was verified under
    the registered key of the node it names. *)

#[local] Opaque Sha256.sum256 sha256_hex.

Section Keys.
Context {ed : Ed25519}.

Lemma valid_plan_required r : ValidatePBFTIdentityPlan (rt_plan r) = None → pbftAuthenticationRequired r = true.
Proof.
  unfold ValidatePBFTIdentityPlan, pbftAuthenticationRequired. intros H.
  destruct (decide (pl_PBFTIdentityScheme (rt_plan r) = PBFTIdentitySchemeEd25519V1)) as [-> |Hne].
  - done.
  - by rewrite bool_decide_eq_false_2 in H.
Qed.

(** The key that [check_identities] finds for a node. *)
Definition key_in (keys : gmap string string) (nodeID : string) : string + list N :=
  DecodePublicKey (trim_space (default "" (keys !! nodeID))).

(** The owners recorded for the nodes met so far. *)
Definition owners_ok (keys : gmap string string) (byID : gmap string NodePlan) (owner : gmap string string) : Prop :=
  ∀ n key, is_Some (byID !! n) → key_in keys n = inr key → n ≠ "" ∧ owner !! EncodePublicKey key = Some n.

Lemma check_identities_keys keys nodes : ∀ byID owner byID',
  check_identities keys byID owner nodes = inr byID' → owners_ok keys byID owner →
  ∃ owner', owners_ok keys byID' owner' ∧
    ∀ n, is_Some (byID' !! n) ↔ is_Some (byID !! n) ∨ n ∈ np_NodeID <$> nodes.
Proof.
  induction nodes as [|node nodes IH]; intros byID owner byID' H Hok; cbn [check_identities] in H.
  { injection H as <-. exists owner. split; [done|]. intros n. set_solver. }
  destruct (trim_space (np_NodeID node) ≟ "") eqn:E1; [done|]. apply bool_decide_eq_false in E1.
  destruct (bool_decide (trim_space (np_NodeID node) = np_NodeID node)) eqn:E2; [|done]. cbn [negb] in H.
  apply bool_decide_eq_true in E2. rewrite E2 in *. set (n0 := np_NodeID node) in *.
  destruct (bool_decide (is_Some (byID !! n0))) eqn:E3; [done|]. apply bool_decide_eq_false in E3.
  destruct (trim_space (default "" (keys !! n0)) ≟ ""); [done|].
  destruct (DecodePublicKey (trim_space (default "" (keys !! n0)))) as [e|key] eqn:Ek; [done|].
  cbv zeta in H. destruct (_ && _) eqn:E4; [done|].
  apply IH in H as (owner' & Ho' & Hdom).
  - exists owner'. split; [done|]. intros n. rewrite Hdom. rewrite fmap_cons, elem_of_cons.
    destruct (decide (n = n0)) as [->|Hne]; [rewrite lookup_insert_eq; split; eauto|]. rewrite lookup_insert_ne by done. tauto.
  - intros n key' Hn Hk'. destruct (decide (n = n0)) as [->|Hne].
    + unfold key_in in Hk'. rewrite Ek in Hk'. injection Hk' as <-. by rewrite lookup_insert_eq.
    + rewrite lookup_insert_ne in Hn by done. destruct (Hok n key' Hn Hk') as [Hn0 Ho]. split; [done|].
      rewrite lookup_insert_ne; [done|]. intros E. rewrite <- E in Ho. rewrite Ho in E4. cbn [default from_option id] in E4.
      apply andb_false_iff in E4 as [E4|E4]; apply negb_false_iff, bool_decide_eq_true in E4; done.
Qed.

Lemma valid_plan_keys plan n1 n2 key : ValidatePBFTIdentityPlan plan = None →
  n1 ∈ np_NodeID <$> pl_NodeConfigs plan → n2 ∈ np_NodeID <$> pl_NodeConfigs plan →
  key_in (pl_PBFTPublicKeys plan) n1 = inr key → key_in (pl_PBFTPublicKeys plan) n2 = inr key → n1 = n2.
Proof.
  unfold ValidatePBFTIdentityPlan. intros H H1 H2 K1 K2. destruct (negb _); [done|]. destruct (_ ≟ O); [done|].
  destruct (check_identities _ ∅ ∅ _) as [e|byID] eqn:E; [done|].
  apply check_identities_keys in E as (owner & Ho & Hdom).
  2:{ intros n k [? Hn]. by rewrite lookup_empty in Hn. }
  destruct (Ho n1 key) as [_ O1]; [apply Hdom; by right|done|].
  destruct (Ho n2 key) as [_ O2]; [apply Hdom; by right|done|]. congruence.
Qed.

(** Every node of a valid plan is known by its exact id and has a key. *)
Lemma check_identities_known keys nodes : ∀ byID owner byID', check_identities keys byID owner nodes = inr byID' →
  Forall (λ node, trim_space (np_NodeID node) = np_NodeID node ∧ np_NodeID node ≠ "" ∧
    trim_space (default "" (keys !! np_NodeID node)) ≠ "" ∧ ∃ key, key_in keys (np_NodeID node) = inr key) nodes.
Proof.
  induction nodes as [|node nodes IH]; intros byID owner byID' H; cbn [check_identities] in H; [constructor|].
  destruct (trim_space (np_NodeID node) ≟ "") eqn:E1; [done|]. apply bool_decide_eq_false in E1.
  destruct (bool_decide (trim_space (np_NodeID node) = np_NodeID node)) eqn:E2; [|done]. cbn [negb] in H.
  apply bool_decide_eq_true in E2. rewrite E2 in H, E1. destruct (bool_decide _); [done|].
  destruct (_ ≟ "") eqn:E3; [done|]. apply bool_decide_eq_false in E3.
  destruct (DecodePublicKey _) as [e|key] eqn:Ek; [done|]. cbv zeta in H. destruct (_ && _); [done|].
  constructor; [|by eapply IH]. split_and!; [done|done|done|]. by exists key.
Qed.

Lemma valid_plan_known plan n : ValidatePBFTIdentityPlan plan = None → n ∈ np_NodeID <$> pl_NodeConfigs plan →
  ∀ r, rt_plan r = plan → ∃ key, key_in (pl_PBFTPublicKeys plan) n = inr key ∧ pbftPublicKey r n = inr key.
Proof.
  unfold ValidatePBFTIdentityPlan. intros H Hn r <-. destruct (negb _); [done|]. destruct (_ ≟ O); [done|].
  destruct (check_identities _ ∅ ∅ _) as [e|byID] eqn:E; [done|]. apply check_identities_known in E.
  apply list_elem_of_fmap in Hn as (node & -> & Hin). rewrite Forall_forall in E.
  destruct (E node Hin) as (Ht & Hne & Henc & key & Hk). exists key. split; [done|].
  unfold pbftPublicKey. rewrite Ht, bool_decide_eq_false_2 by done. rewrite (bool_decide_eq_false_2 _ Henc). cbn [negb].
  unfold key_in in Hk. by rewrite Hk.
Qed.

(** *** Votes that pass *)

Lemma first_error_None {A} (check : A → error) l : first_error check l = None ↔ Forall (λ x, check x = None) l.
Proof.
  induction l as [|x l IH]; [by split|]. cbn [first_error]. rewrite Forall_cons, <- IH. destruct (check x); [by split; [|intros []]|].
  split; [done|]. by intros [_ ?].
Qed.

Lemma verify_commit_sound r msg : pbftAuthenticationRequired r = true → verifyPBFTCommitAuthentication r msg = None →
  ∃ key message signature, pbftPublicKey r (c_NodeID msg) = inr key ∧ signed_bytes (commit_content msg) = inr message ∧
    ed_verify key message signature = true.
Proof.
  intros Hr. unfold verifyPBFTCommitAuthentication, verify_from. rewrite Hr, andb_false_r.
  destruct (pbftPublicKey r (c_NodeID msg)) as [e|key]; [done|]. intros H.
  apply verify_payload_sound in H as (m & sg & Hm & Hv). by exists key, m, sg.
Qed.

End Keys.

(** ** From generated identities to accepted messages

    The supervisor generates a key pair per node, puts the public keys into the
    plan and hands each process its private key; what a node then signs passes the
    check of every node that runs from the same plan. *)

#[local] Opaque Sha256.sum256 sha256_hex.

(** *** The generated registry *)

Lemma identity_keys_other generate ids id : ∀ i pub priv pub' priv', id ∉ ids →
  identity_keys generate i ids pub priv = inr (pub', priv') → pub' !! id = pub !! id ∧ priv' !! id = priv !! id.
Proof.
  induction ids as [|x ids IH]; intros i pub priv pub' priv' Hid H; cbn [identity_keys] in H; [by injection H as <- <-|].
  apply not_elem_of_cons in Hid as [Hne Hid]. destruct (generate i) as [[p k]|]; [|done].
  destruct (IH _ _ _ _ _ Hid H) as [-> ->]. by rewrite !lookup_insert_ne by done.
Qed.

Lemma identity_keys_own generate ids id : ∀ i pub priv pub' priv', id ∈ ids →
  identity_keys generate i ids pub priv = inr (pub', priv') →
  ∃ j p k, generate j = Some (p, k) ∧ pub' !! id = Some (EncodePublicKey p) ∧ priv' !! id = Some (EncodePrivateKey k).
Proof.
  induction ids as [|x ids IH]; intros i pub priv pub' priv' Hid H; cbn [identity_keys] in H; [by apply not_elem_of_nil in Hid|].
  destruct (generate i) as [[p k]|] eqn:Eg; [|done]. destruct (decide (id ∈ ids)) as [Hin|Hnin]; [by eapply IH|].
  apply elem_of_cons in Hid as [->|?]; [|done]. destruct (identity_keys_other _ _ _ _ _ _ _ _ Hnin H) as [-> ->].
  exists i, p, k. by rewrite !lookup_insert_eq.
Qed.

Lemma identity_ids_elem nodes : ∀ seen ids, identity_ids seen nodes = inr ids → ids = (λ n, trim_space (np_NodeID n)) <$> nodes.
Proof.
  induction nodes as [|node nodes IH]; intros seen ids H; cbn [identity_ids] in H; [by injection H as <-|].
  destruct (_ ≟ ""); [done|]. destruct (bool_decide _); [done|]. destruct (identity_ids _ nodes) as [e|ids'] eqn:E; [done|].
  injection H as <-. by rewrite (IH _ _ E).
Qed.

(** *** The messages of the protocol *)

Inductive message :=
  | MsgPrePrepare (msg : PrePrepare) | MsgPrepare (msg : Prepare) | MsgCommit (msg : Commit)
  | MsgCheckpoint (msg : Checkpoint) | MsgViewChange (msg : ViewChange) | MsgNewView (msg : NewView).

Definition sender_of (m : message) : string :=
  match m with
  | MsgPrePrepare msg => pp_LeaderID msg | MsgPrepare msg => p_NodeID msg | MsgCommit msg => c_NodeID msg
  | MsgCheckpoint msg => cp_NodeID msg | MsgViewChange msg => vc_NodeID msg | MsgNewView msg => nv_LeaderID msg
  end.
Definition content_of (m : message) : signable :=
  match m with
  | MsgPrePrepare msg => pre_prepare_content msg | MsgPrepare msg => prepare_content msg
  | MsgCommit msg => commit_content msg | MsgCheckpoint msg => checkpoint_content msg
  | MsgViewChange msg => view_change_content msg | MsgNewView msg => new_view_content msg
  end.

Section Keys.
Context {ed : Ed25519} {laws : Ed25519Laws}.

Definition sign_message (r : NodeRuntime) (m : message) : string + message :=
  match m with
  | MsgPrePrepare msg => sum_map id MsgPrePrepare (signPBFTPrePrepare r msg)
  | MsgPrepare msg => sum_map id MsgPrepare (signPBFTPrepare r msg)
  | MsgCommit msg => sum_map id MsgCommit (signPBFTCommit r msg)
  | MsgCheckpoint msg => sum_map id MsgCheckpoint (signPBFTCheckpoint r msg)
  | MsgViewChange msg => sum_map id MsgViewChange (signPBFTViewChange r msg)
  | MsgNewView msg => sum_map id MsgNewView (signPBFTNewView r msg)
  end.

(** The check of the message's own signature, with which the check of a view
    change or a new view begins. *)
Definition check_signature (r : NodeRuntime) (m : message) : error :=
  match m with
  | MsgPrePrepare msg => verifyPBFTPrePrepareAuthentication r msg
  | MsgPrepare msg => verifyPBFTPrepareAuthentication r msg
  | MsgCommit msg => verifyPBFTCommitAuthentication r msg
  | MsgCheckpoint msg => verifyPBFTCheckpointAuthentication r msg
  | MsgViewChange msg => verify_from r (vc_NodeID msg) (VerifyViewChange msg)
  | MsgNewView msg => verify_from r (nv_LeaderID msg) (VerifyNewView msg)
  end.

(** What [ed25519.GenerateKey] documents. *)
Definition key_source (generate : nat → option (list N * list N)) : Prop :=
  ∀ i p k, generate i = Some (p, k) → p = public_of k ∧ length k = PrivateKeySize ∧ are_bytes k.

Lemma generated_key generate nodes pubs privs r rv :
  key_source generate → GeneratePBFTIdentityMaterial generate nodes = inr (pubs, privs) →
  pl_PBFTPublicKeys (rt_plan r) = pubs → rt_plan rv = rt_plan r →
  np_NodeID (rt_node r) ∈ np_NodeID <$> nodes → trim_space (np_NodeID (rt_node r)) = np_NodeID (rt_node r) →
  np_NodeID (rt_node r) ≠ "" → rt_env r = default "" (privs !! np_NodeID (rt_node r)) →
  ∃ key, length key = PrivateKeySize ∧ pbftSigningPrivateKey r = inr key ∧
    pbftPublicKey rv (np_NodeID (rt_node r)) = inr (public_of key) ∧
    pbftAuthenticationRequired r = true ∧ pbftAuthenticationRequired rv = true.
Proof.
  intros Hsrc Hgen Epub Eplan Hin Htrim Hne Henv. set (n := np_NodeID (rt_node r)) in *.
  unfold GeneratePBFTIdentityMaterial in Hgen. destruct (identity_ids ∅ nodes) as [e|ids] eqn:Ei; [done|].
  apply identity_ids_elem in Ei. assert (n ∈ sort_strings ids) as Hn.
  { rewrite sort_strings_perm, Ei. apply list_elem_of_fmap in Hin as (node & En & Hnode).
    apply list_elem_of_fmap. exists node. by rewrite <- En. }
  destruct (identity_keys_own _ _ _ _ _ _ _ _ Hn Hgen) as (j & p & k & Hg & Lp & Lk).
  destruct (Hsrc _ _ _ Hg) as (-> & Hlen & Hb). destruct (public_size k Hlen) as [Hpl Hpb]. exists k.
  assert (∀ r', rt_plan r' = rt_plan r → pbftPublicKey r' n = inr (public_of k)) as Hpk.
  { intros r' Er.
    unfold pbftPublicKey. rewrite Htrim, bool_decide_eq_false_2 by done. rewrite Er, Epub, Lp. cbn [default from_option id].
    unfold EncodePublicKey. rewrite trim_solid by by apply encode64_solid.
    rewrite bool_decide_eq_false_2 by (apply encode64_nonempty; by destruct (public_of k)). cbn [negb].
    unfold DecodePublicKey. rewrite decode64_encode64 by done. by rewrite (bool_decide_eq_true_2 _ Hpl). }
  assert (∀ r', rt_plan r' = rt_plan r → pbftAuthenticationRequired r' = true) as Hreq.
  { intros r' Er. unfold pbftAuthenticationRequired. rewrite Er, Epub.
    rewrite (proj2 (Nat.ltb_lt 0 (size pubs))); [by rewrite orb_true_r|].
    assert (size pubs ≠ O) as Hs; [|lia]. intros Hs%map_size_empty_inv. by rewrite Hs, lookup_empty in Lp. }
  split_and!; [done| |by apply Hpk|by apply Hreq|by apply Hreq].
  unfold pbftSigningPrivateKey. rewrite Henv, Lk. cbn [default from_option id]. unfold EncodePrivateKey.
  rewrite trim_solid by by apply encode64_solid.
  rewrite bool_decide_eq_false_2 by (apply encode64_nonempty; by destruct k).
  unfold DecodePrivateKey. rewrite decode64_encode64 by done. rewrite (bool_decide_eq_true_2 _ Hlen), Hpk by done.
  by rewrite bool_decide_eq_true_2.
Qed.

(** One kind of message: its signer keeps the content, its check reads the sender. *)
Lemma sign_with_verifies {M} `{Marshaler T} kind (content : M → T) (set_sig : string → M → M) (get_sig node_of : M → string)
    (sign : option M → list N → string + M) (verify : M → list N → error) r rv m key bytes :
  (∀ m key, sign (Some m) key = match signAuthenticatedPayload kind (content m) key with
                                | inl e => inl e | inr sig => inr (set_sig sig m) end) →
  (∀ m, verify m = verifyAuthenticatedPayload kind (content m) (get_sig m)) →
  (∀ sig m, content (set_sig sig m) = content m) → (∀ sig m, get_sig (set_sig sig m) = sig) →
  (∀ sig m, node_of (set_sig sig m) = node_of m) →
  length key = PrivateKeySize → authenticatedPayloadBytes kind (content m) = inr bytes →
  pbftAuthenticationRequired r = true → pbftSigningPrivateKey r = inr key → pbftPublicKey rv (node_of m) = inr (public_of key) →
  ∃ m', sign_with sign r m = inr m' ∧ content m' = content m ∧ node_of m' = node_of m ∧
    verify_from rv (node_of m') (verify m') = None.
Proof.
  intros Hsign Hverify Hc Hg Hn Hlen Hb Hr Hkey Hpub. destruct (sign_verify_payload kind (content m) key bytes Hlen Hb) as (sig & Hs & Hv).
  exists (set_sig sig m). unfold sign_with, verify_from. rewrite Hr, Hkey, Hsign, Hs. cbn [negb].
  rewrite Hn, Hpub, Hverify, Hc, Hg. done.
Qed.

#[local] Opaque authenticatedPayloadBytes signAuthenticatedPayload verifyAuthenticatedPayload.

(** A message of one kind, from what its signer guarantees. *)
Ltac sign_kind verifies msg :=
  let m' := fresh "m'" in let Hs := fresh in let Hc := fresh in let Hn := fresh in let Hv := fresh in
  destruct verifies as (m' & Hs & Hc & Hn & Hv); try done; exists (msg m'); cbn [sign_message content_of sender_of check_signature];
  unfold signPBFTPrePrepare, signPBFTPrepare, signPBFTCommit, signPBFTCheckpoint, signPBFTViewChange, signPBFTNewView;
  rewrite Hs; unfold pre_prepare_content, prepare_content, commit_content, checkpoint_content, view_change_content, new_view_content,
    verifyPBFTPrePrepareAuthentication, verifyPBFTPrepareAuthentication, verifyPBFTCommitAuthentication,
    verifyPBFTCheckpointAuthentication;
  rewrite Hc, ?andb_false_r; split_and!; try done;
  match goal with H : pbftAuthenticationRequired ?rv = true |- context [pbftAuthenticationRequired ?rv] => by rewrite H, andb_false_r end.

(** Signing keeps everything but the signature, and the signature verifies. *)
Lemma sign_message_verifies r rv m key : signable_ok (content_of m) → length key = PrivateKeySize →
  pbftAuthenticationRequired r = true → pbftAuthenticationRequired rv = true → pbftSigningPrivateKey r = inr key →
  pbftPublicKey rv (sender_of m) = inr (public_of key) →
  ∃ m', sign_message r m = inr m' ∧ content_of m' = content_of m ∧ sender_of m' = sender_of m ∧ check_signature rv m' = None.
Proof.
  intros Hok Hlen Hr Hrv Hkey Hpub. destruct (signed_bytes_total _ Hok) as [bytes Hb]. clear Hok.
  destruct m as [m|m|m|m|m|m]; cbn [content_of signed_bytes sender_of] in Hb, Hpub.
  - sign_kind (sign_with_verifies "pre_prepare" prePrepareAuthenticationCore with_pp_Signature pp_Signature pp_LeaderID SignPrePrepare VerifyPrePrepare r rv m key bytes) MsgPrePrepare.
  - sign_kind (sign_with_verifies "prepare" (with_p_Signature "") with_p_Signature p_Signature p_NodeID SignPrepare VerifyPrepare r rv m key bytes) MsgPrepare.
  - sign_kind (sign_with_verifies "commit" (with_c_Signature "") with_c_Signature c_Signature c_NodeID SignCommit VerifyCommit r rv m key bytes) MsgCommit.
  - sign_kind (sign_with_verifies "checkpoint" (with_cp_Signature "") with_cp_Signature cp_Signature cp_NodeID SignCheckpoint VerifyCheckpoint r rv m key bytes) MsgCheckpoint.
  - sign_kind (sign_with_verifies "view_change" (with_vc_Signature "") with_vc_Signature vc_Signature vc_NodeID SignViewChange VerifyViewChange r rv m key bytes) MsgViewChange.
  - sign_kind (sign_with_verifies "new_view" (with_nv_Signature "") with_nv_Signature nv_Signature nv_LeaderID SignNewView VerifyNewView r rv m key bytes) MsgNewView.
Qed.

(** C30: the supervisor's identities work. A node whose private key and whose entry
    in the plan come from one run of the identity generator signs every kind of
    protocol message without an error; the signed message has the same content,
    and its signature passes the check of every node that runs from the same plan. *)
Theorem generated_identities_authenticate generate nodes pubs privs (r rv : NodeRuntime) (m : message) :
  key_source generate → GeneratePBFTIdentityMaterial generate nodes = inr (pubs, privs) →
  pl_PBFTPublicKeys (rt_plan r) = pubs → rt_plan rv = rt_plan r →
  np_NodeID (rt_node r) ∈ np_NodeID <$> nodes → trim_space (np_NodeID (rt_node r)) = np_NodeID (rt_node r) →
  np_NodeID (rt_node r) ≠ "" → rt_env r = default "" (privs !! np_NodeID (rt_node r)) →
  sender_of m = np_NodeID (rt_node r) → signable_ok (content_of m) →
  ∃ m', sign_message r m = inr m' ∧ content_of m' = content_of m ∧ sender_of m' = sender_of m ∧ check_signature rv m' = None.
Proof.
  intros Hsrc Hgen Epub Eplan Hin Htrim Hne Henv Hsend Hok.
  destruct (generated_key generate nodes pubs privs r rv) as (key & Hlen & Hkey & Hpub & Hr & Hrv); try done.
  rewrite <- Hsend in Hpub. by eapply sign_message_verifies.
Qed.

End Keys.
