(* ===== verification/PbftAgreement.v ===== *)
(** * Agreement with authenticated messages

    Where a replica's COMMIT votes come from, and why the commit certificates of
    replicas that check signatures agree. *)
From S2P Require Import Prelude GoStd Tx Block PbftTypes PbftState PbftCert PbftInv PbftSteps PbftView PbftReach GoJson JsonRoundtrip GoStruct GoText TxSign BlockCodec PbftAuth PbftIdentity PbftLive PbftCheckpoint PbftTheorems.
Local Open Scope N_scope.

(** ** Where a replica's COMMIT votes come from

    Every COMMIT a reachable replica holds, in a vote map, in the buffer of early
    votes or in a certificate, is one that an operation brought in. *)

#[local] Opaque Hash slotKey pad20.

Section Source.
Context (P : Commit → Prop).

Definition votes_from (m : gmap string (gmap string Commit)) : Prop :=
  ∀ k votes n v, m !! k = Some votes → votes !! n = Some v → P v.

Definition certs_from (m : gmap N CommitCertificate) : Prop :=
  ∀ h cert, m !! h = Some cert → Forall P (cc_Commits cert).

Record sourced (s : State) : Prop := {
  so_votes : votes_from (st_CommitVotes s);
  so_early : votes_from (st_EarlyCommitVotes s);
  so_certs : certs_from (st_CommitCertificates s);
}.

Definition commit_fields (s : State) := (st_CommitVotes s, st_EarlyCommitVotes s, st_CommitCertificates s).

Lemma sourced_same s s' : commit_fields s' = commit_fields s → sourced s → sourced s'.
Proof.
  intros E []. apply pair_equal_spec in E as [E E3]. apply pair_equal_spec in E as [E1 E2].
  constructor; by rewrite ?E1, ?E2, ?E3.
Qed.

Lemma votes_from_empty : votes_from ∅.
Proof. intros k votes n v H. by rewrite lookup_empty in H. Qed.
Lemma votes_from_sub m m' : m' ⊆ m → votes_from m → votes_from m'.
Proof. intros Hs H k votes n v Hk. apply H with k. by eapply lookup_weaken. Qed.
Lemma votes_from_insert m k votes : votes_from m → (∀ n v, votes !! n = Some v → P v) → votes_from (<[k := votes]> m).
Proof. intros H Hv k' votes' n v [[-> ->]|[_ Hk]]%lookup_insert_Some; [apply Hv|]. by eapply H. Qed.
Lemma votes_from_inner m k n v : votes_from m → inner m k !! n = Some v → P v.
Proof.
  intros H Hn. unfold inner in Hn. destruct (m !! k) as [votes|] eqn:E; [by eapply H|].
  cbn in Hn. by rewrite lookup_empty in Hn.
Qed.
Lemma votes_from_add m k n v : votes_from m → P v → ∀ n' v', <[n := v]> (inner m k) !! n' = Some v' → P v'.
Proof. intros H Hv n' v' [[_ <-]|[_ Hn]]%lookup_insert_Some; [done|]. by eapply votes_from_inner. Qed.

Lemma sorted_votes_from (votes : gmap string Commit) : (∀ n v, votes !! n = Some v → P v) → Forall P (sorted_votes votes).
Proof. intros H. apply Forall_forall. intros v (n & _ & Hn)%list_elem_of_omap. by eapply H. Qed.

Lemma certs_from_insert m h cert : certs_from m → Forall P (cc_Commits cert) → certs_from (<[h := cert]> m).
Proof. intros H Hc h' c' [[-> ->]|[_ Hk]]%lookup_insert_Some; [done|]. by eapply H. Qed.

(** *** The operations *)

Lemma sourced_NewState node shard leader validators now : sourced (NewState node shard leader validators now).
Proof. constructor; [apply votes_from_empty..|]. intros h c H. destruct (lookup_empty_Some _ _ H). Qed.

Lemma sourced_replay slot h s : sourced s → sourced (replayEarlyVotesLocked slot h s).
Proof.
  intros Hs. unfold replayEarlyVotesLocked.
  assert (sourced (replay_prepares slot h s)) as [Hv He Hc].
  { eapply sourced_same; [|exact Hs]. unfold replay_prepares. repeat case_match; by rewrite ?(frames commit_fields). }
  unfold replay_commits. destruct (st_EarlyCommitVotes _ !! slot) as [votes|] eqn:E; [|by constructor].
  case_if; [by constructor|]. constructor; cbn; [|eapply votes_from_sub; [apply delete_subseteq|done]|done].
  apply votes_from_insert; [done|]. intros n v [Hn|[_ Hn]]%lookup_union_Some_raw.
  - apply lookup_map_keep_Some in Hn as [Hn _]. exact (He _ _ _ _ E Hn).
  - exact (votes_from_inner _ _ _ _ Hv Hn).
Qed.

Lemma sourced_AcceptCommit now msg s : P msg → sourced s → sourced (AcceptCommit now msg s).1.
Proof.
  intros Hm Hs. destruct Hs as [Hv He Hc] eqn:Es. unfold AcceptCommit. do 4 (case_if; [done|]). case_if.
  { assert (sourced (set_EarlyCommitVotes (<[slotKey (c_View msg) (c_Sequence msg) := <[c_NodeID msg := msg]>
      (inner (st_EarlyCommitVotes s) (slotKey (c_View msg) (c_Sequence msg)))]> (st_EarlyCommitVotes s)) s)) as Hb.
    { constructor; cbn; [done| |done]. apply votes_from_insert; [done|]. by apply votes_from_add. }
    unfold bufferEarlyCommitLocked. repeat case_match; simplify_eq/=; done. }
  case_if; [done|]. case_if; [by eapply sourced_same|]. cbv zeta.
  set (votes := <[c_NodeID msg := msg]> _).
  assert (∀ n v, votes !! n = Some v → P v) as Hvotes by (by apply votes_from_add).
  case_if; cbn [fst].
  - constructor; cbn; [by apply votes_from_insert|done|]. apply certs_from_insert; [done|]. cbn. by apply sorted_votes_from.
  - constructor; cbn; [by apply votes_from_insert|done|done].
Qed.

Lemma sourced_AcceptCommitCertificate now cert b s : Forall P (cc_Commits cert) → sourced s →
  sourced (AcceptCommitCertificate now cert b s).1.
Proof.
  intros Hcert Hs. unfold AcceptCommitCertificate. repeat (case_match; try done).
  all: destruct Hs; constructor; cbn; try done; by apply certs_from_insert.
Qed.

Lemma sourced_unlock h s : sourced s → sourced (unlock_upto h s).
Proof. intros []. constructor; cbn; [|done|done]. eapply votes_from_sub; [apply map_keep_sub|done]. Qed.

Lemma sourced_prune h s : sourced s → sourced (pruneStableLocked h s).
Proof.
  intros Hs. unfold pruneStableLocked. cbv zeta. apply (sourced_unlock h) in Hs. revert Hs.
  generalize (unlock_upto h s) as s0. intros s0 []. constructor; cbn; [done| |done].
  eapply votes_from_sub; [apply map_keep_sub|]. eapply votes_from_sub; [apply map_keep_sub|done].
Qed.

Lemma sourced_AcceptCheckpoint now msg s : sourced s → sourced (AcceptCheckpoint now msg s).1.
Proof.
  intros Hs. unfold AcceptCheckpoint. do 3 (case_if; [done|]). cbv zeta.
  set (s1 := set_CheckpointVotes _ s). assert (sourced s1) as H1 by (eapply sourced_same; [apply (frames commit_fields)|done]).
  clearbody s1. do 2 (case_if; [done|]). cbn [fst].
  eapply sourced_same; [apply (frames commit_fields)|]. case_if; [|done]. apply sourced_prune.
  eapply sourced_same; [|exact H1]. by rewrite !(frames commit_fields).
Qed.

Lemma sourced_enter_view now msg s : sourced s → sourced (enter_view now msg s).
Proof. intros []. constructor; cbn; [apply votes_from_empty..|done]. Qed.

Lemma sourced_AcceptNewView now msg s s' r : AcceptNewView now msg s = Some (s', r) → sourced s → sourced s'.
Proof.
  intros H Hs. destruct r as [[b has] [e|]]; [by apply AcceptNewView_rejected in H as ->|].
  assert (∀ v, sourced (set_AcceptedNewViews v s)) as H0 by (intros v; eapply sourced_same; [apply (frames commit_fields)|done]).
  apply AcceptNewView_ok in H as [_ [[_ ->]|[_ [(_ & -> & _)|(cert & b' & _ & _ & -> & _)]]]]; [done|by apply sourced_enter_view|].
  eapply sourced_same; [|apply sourced_enter_view, H0]. unfold adopt. by rewrite !(frames commit_fields).
Qed.

(** The COMMIT votes an operation brings. *)
Definition op_commits (o : op) : list Commit :=
  match o with OpCommit _ msg => [msg] | OpCertificate _ cert _ => cc_Commits cert | _ => [] end.

Lemma core_commit_fields s s' : PbftInv.core s' = PbftInv.core s → commit_fields s' = commit_fields s.
Proof. unfold PbftInv.core, commit_fields. congruence. Qed.

Lemma sourced_step o s s' : Forall P (op_commits o) → step o s = Some s' → sourced s → sourced s'.
Proof.
  intros Ho H Hs. destruct o; cbn [step op_commits] in *;
    try (apply fmap_Some in H as ([s1 r] & H & ->); cbn [fst]); try (injection H as <-).
  - eapply sourced_same; [|exact Hs]. unfold ConfigureCheckpoint. repeat case_if; by rewrite !(frames commit_fields).
  - revert H. unfold OnPrePrepare. destruct (validatePrePrepareLocked s msg) as [[e|]|]; [by intros [= <- _]| |done].
    cbn [mbind option_bind]. cbv zeta. intros H%some_pair_fst. rewrite <- H. clear H.
    eapply sourced_same; [apply (frames commit_fields)|].
    match goal with |- context [replayEarlyVotesLocked ?sl ?h ?t] => assert (sourced (replayEarlyVotesLocked sl h t)) as Hr end.
    { apply sourced_replay. eapply sourced_same; [|exact Hs]. by rewrite !(frames commit_fields). }
    case_if; [|done]. eapply sourced_same; [apply (frames commit_fields)|done].
  - eapply sourced_same; [|exact Hs]. unfold AcceptPrepare, bufferEarlyPrepareLocked, store_prepared_cert.
    repeat case_match; simplify_eq/=; by rewrite ?(frames commit_fields).
  - apply Forall_cons in Ho as [Ho _]. by apply sourced_AcceptCommit.
  - by apply sourced_AcceptCommitCertificate.
  - eapply sourced_same; [|exact Hs]. unfold ShouldBroadcastCommit. case_if; by rewrite ?(frames commit_fields).
  - eapply sourced_same; [|exact Hs]. by eapply core_commit_fields, core_BuildViewChange.
  - eapply sourced_same; [|exact Hs]. by eapply core_commit_fields, core_acceptViewChange.
  - eapply sourced_same; [|exact Hs]. apply core_commit_fields, core_MarkViewChangeBroadcast.
  - by eapply sourced_AcceptNewView.
  - apply OnNewView_cases in H as [[r H]|[_ [->|[_ ->]]]]; [by eapply sourced_AcceptNewView|done|].
    eapply sourced_same; [|exact Hs]. by rewrite !(frames commit_fields).
  - unfold MarkDurableCommit. case_if; [done|]. cbv zeta.
    match goal with |- context [unlock_upto ?h ?t] => assert (sourced (unlock_upto h t)) as Hu end.
    { apply sourced_unlock. eapply sourced_same; [|exact Hs]. by rewrite !(frames commit_fields). }
    eapply sourced_same; [|exact Hu]. by rewrite !(frames commit_fields).
  - by apply sourced_AcceptCheckpoint.
  - eapply sourced_same; [apply (frames commit_fields)|done].
Qed.

Lemma sourced_reach ok s0 s : (∀ o, ok o → Forall P (op_commits o)) → reach ok s0 s → sourced s0 → sourced s.
Proof. intros Hok R Hs. induction R as [|s1 o s2 R IH Ho Hstep]; [done|]. eapply sourced_step; [by apply Hok|done|by apply IH]. Qed.

End Source.

(** ** Agreement among replicas that authenticate their messages

    The replicas of a validated plan take in COMMIT votes and commit certificates
    only after the runtime's signature check. From the unforgeability of the
    signatures of correct validators, and from what they sign, two commit
    certificates of one view and height name one block. *)

#[local] Opaque Sha256.sum256 sha256_hex.

Section Network.
Context {ed : Ed25519}.

(** The operation comes from a handler that has checked its COMMIT votes; the
    votes were filled in by [json.Unmarshal]. *)
Definition commits_checked (r : NodeRuntime) (o : op) : Prop :=
  Forall (λ v, c_ok c_commit v ∧ verifyPBFTCommitAuthentication r v = None) (op_commits o).

(** [sent node content]: the node signed the content. What verifies under the key
    of a correct validator was signed by it. *)
Definition unforgeable (r : NodeRuntime) (validators : list string) (faulty : gset string)
    (sent : string → signable → Prop) : Prop :=
  ∀ node key message signature, node ∈ validators → node ∉ faulty → pbftPublicKey r node = inr key →
    ed_verify key message signature = true →
    ∃ content, sent node content ∧ signable_ok content ∧ signed_bytes content = inr message.

(** A correct node signs COMMIT votes in its own name, for one block per view and
    sequence. *)
Definition one_commit_per_slot (faulty : gset string) (sent : string → signable → Prop) : Prop :=
  ∀ node v w, node ∉ faulty → sent node (SgCommit v) → sent node (SgCommit w) →
    c_View v = c_View w → c_Sequence v = c_Sequence w → c_BlockHash v = c_BlockHash w.

Lemma checked_commit_sent r validators faulty sent v :
  pbftAuthenticationRequired r = true → unforgeable r validators faulty sent →
  c_NodeID v ∈ validators → c_NodeID v ∉ faulty → c_ok c_commit v → verifyPBFTCommitAuthentication r v = None →
  sent (c_NodeID v) (commit_content v).
Proof.
  intros Hr Hu Hin Hf Hok Hv. destruct (verify_commit_sound r v Hr Hv) as (key & m & sg & Hk & Hm & Hs).
  destruct (Hu _ _ _ _ Hin Hf Hk Hs) as (content & Hsent & Hcok & Hcm).
  by rewrite (signed_bytes_inj (commit_content v) content m (commit_content_ok v Hok) Hcok Hm Hcm).
Qed.

Lemma public_key_of_plan r1 r2 node : rt_plan r1 = rt_plan r2 → pbftPublicKey r1 node = pbftPublicKey r2 node.
Proof. intros E. unfold pbftPublicKey, pbftTestIdentityFallbackAllowed. by rewrite E. Qed.

Lemma checked_of_plan r1 r2 v : rt_plan r1 = rt_plan r2 →
  verifyPBFTCommitAuthentication r1 v = verifyPBFTCommitAuthentication r2 v.
Proof.
  intros E. unfold verifyPBFTCommitAuthentication, verify_from, pbftAuthenticationRequired.
  by rewrite (public_key_of_plan r1 r2 _ E), E.
Qed.

Lemma reach_mono (ok ok' : op → Prop) s0 s : (∀ o, ok o → ok' o) → reach ok s0 s → reach ok' s0 s.
Proof. intros H R. induction R; [constructor|]. eapply reach_step; eauto. Qed.

(** The votes in the certificates of a replica that checks them. *)
Lemma certificate_votes_checked univ r node shard leader validators now s height cert :
  (∀ b1 b2, univ b1 → univ b2 → Hash b1 = Hash b2 → Height b1 = Height b2) → validators ≠ [] →
  reach (λ o, op_ok univ o ∧ commits_checked r o) (NewState node shard leader validators now) s →
  st_CommitCertificates s !! height = Some cert → ∀ v, v ∈ cc_Commits cert →
  c_NodeID v ∈ validators ∧ c_ok c_commit v ∧ verifyPBFTCommitAuthentication r v = None.
Proof.
  intros Hu Hne R Hc v Hv.
  pose proof (reach_mono _ (op_ok univ) _ _ (λ o H, proj1 H) R) as R'.
  split.
  - destruct (wf_certs _ _ (wf_reach univ Hu _ _ (wf_NewState univ _ _ _ _ _) R') _ _ Hc) as [_ V].
    pose proof (cf_valid _ _ _ _ (commit_cert_facts _ _ V) v Hv) as [Hin _].
    destruct (forward_reach _ _ _ R') as [E _]. apply pair_equal_spec in E as [_ E].
    rewrite E, NewState_validators in Hin by done. by rewrite sort_strings_perm in Hin.
  - pose proof (sourced_reach (λ v, c_ok c_commit v ∧ verifyPBFTCommitAuthentication r v = None) _ _ _ (λ o H, proj2 H) R
      (sourced_NewState _ _ _ _ _ _)) as Hs.
    pose proof (so_certs _ _ Hs _ _ Hc) as Hall. rewrite Forall_forall in Hall. by apply Hall.
Qed.

(** C1: agreement with authenticated messages. Two replicas of a shard run from a
    validated identity plan and take in COMMIT votes and commit certificates only
    after the runtime has checked their signatures. If they hold commit
    certificates for the same height and view, however they got them, these name
    the same block, as long as at most [FaultTolerance n] of the [n] validators
    are faulty, the signatures of the others cannot be forged, and each of the
    others signs COMMIT votes for one block per view and sequence. *)
Theorem authenticated_commits_agree (univ : Block → Prop) r1 r2 plan shard leader validators now1 now2
    (s1 s2 : State) (height : N) (c1 c2 : CommitCertificate) (faulty : gset string) (sent : string → signable → Prop) :
  (∀ b1 b2, univ b1 → univ b2 → Hash b1 = Hash b2 → Height b1 = Height b2) →
  validators ≠ [] → sane_count (Z.of_nat (length validators)) →
  ValidatePBFTIdentityPlan plan = None → rt_plan r1 = plan → rt_plan r2 = plan →
  reach (λ o, op_ok univ o ∧ commits_checked r1 o) (NewState (np_NodeID (rt_node r1)) shard leader validators now1) s1 →
  reach (λ o, op_ok univ o ∧ commits_checked r2 o) (NewState (np_NodeID (rt_node r2)) shard leader validators now2) s2 →
  st_CommitCertificates s1 !! height = Some c1 → st_CommitCertificates s2 !! height = Some c2 →
  cc_View c1 = cc_View c2 →
  (Z.of_nat (size faulty) <= FaultTolerance (Z.of_nat (length validators)))%Z →
  unforgeable r1 validators faulty sent → one_commit_per_slot faulty sent →
  cc_BlockHash c1 = cc_BlockHash c2.
Proof.
  intros Hu Hne Hsane Hplan E1 E2 R1 R2 H1 H2 Hview Hf Hunf Honest.
  assert (pbftAuthenticationRequired r1 = true) as Hreq by (apply valid_plan_required; by rewrite E1).
  pose proof (certificate_votes_checked univ r1 _ _ _ _ _ _ _ _ Hu Hne R1 H1) as V1.
  pose proof (certificate_votes_checked univ r2 _ _ _ _ _ _ _ _ Hu Hne R2 H2) as V2.
  eapply (reachable_commits_agree univ _ _ shard leader validators now1 now2 s1 s2 height c1 c2 faulty
    (λ v, c_NodeID v ∈ validators ∧ c_ok c_commit v ∧ verifyPBFTCommitAuthentication r1 v = None)); try eassumption.
  - exact (reach_mono _ _ _ _ (λ o H, proj1 H) R1).
  - exact (reach_mono _ _ _ _ (λ o H, proj1 H) R2).
  - intros v [Hv|Hv]%elem_of_app; [by apply V1|]. destruct (V2 v Hv) as (? & ? & Hc). split_and!; [done|done|].
    by rewrite (checked_of_plan r1 r2) by congruence.
  - intros v w (Iv & Ov & Cv) (Iw & Ow & Cw) En Hnf Ev Es.
    pose proof (checked_commit_sent _ _ _ _ v Hreq Hunf Iv Hnf Ov Cv) as Sv.
    assert (c_NodeID w ∉ faulty) as Hnf' by by rewrite <- En.
    pose proof (checked_commit_sent _ _ _ _ w Hreq Hunf Iw Hnf' Ow Cw) as Sw. rewrite <- En in Sw.
    exact (Honest _ _ _ Hnf Sv Sw Ev Es).
Qed.

End Network.
