(* ===== verification/ConsensusBlock.v ===== *)
(** * What a replica votes on determines the transactions

    PBFT votes on the hash of a block, which covers the list of transaction ids but
    not the transactions. The structural check of [executor/v5/pbft_safety.go] closes the
    gap: blocks that pass it and have one hash carry the same transactions. *)
From S2P Require Import Prelude GoStd GoJson JsonRoundtrip GoStruct GoText TxSign Tx Block BlockCodec StateRoot Heap Serial BatchSI BatchSIWire BatchSIBinding PbftTypes PbftAuth PbftIdentity.
Import Json.
Local Open Scope N_scope.
#[local] Opaque Sha256.sum256 sha256_hex.

(** ** The header of a block whose texts are UTF-8 *)

Lemma strings_json_ok l : Forall utf8_string l → Forall json_ok (JStr <$> l).
Proof. intros H. apply Forall_fmap. exact H. Qed.

Lemma fld_ok k j : forallb (λ b, b <? 128) (bytes_of_string k) = true → json_ok j →
  Forall (λ kv, utf8_string kv.1 ∧ json_ok kv.2) (fld k j).
Proof. intros Hk Hj. constructor; [|constructor]. split; [by apply name_utf8|done]. Qed.

Lemma deltas_json_ok l : Forall (c_ok c_delta) l → Forall json_ok (json_delta <$> l).
Proof.
  intros H. apply Forall_fmap. eapply Forall_impl; [exact H|]. intros d Hd. change (json_ok (json_delta d)).
  rewrite <- delta_table. by apply delta_lawful.
Qed.

Lemma block_json_ok b : c_ok c_block b → json_ok (json_block b).
Proof.
  intros Hb.
  pose proof (struct_field _ _ _ 1 _ Hb eq_refl) as Hshard. pose proof (struct_field _ _ _ 3 _ Hb eq_refl) as Hprev.
  pose proof (struct_field _ _ _ 4 _ Hb eq_refl) as Hprop. pose proof (struct_field _ _ _ 6 _ Hb eq_refl) as Hids.
  pose proof (struct_field _ _ _ 8 _ Hb eq_refl) as Hroot. pose proof (struct_field _ _ _ 9 _ Hb eq_refl) as Hbefore.
  pose proof (struct_field _ _ _ 10 _ Hb eq_refl) as Hafter. pose proof (struct_field _ _ _ 11 _ Hb eq_refl) as Hrec.
  pose proof (struct_field _ _ _ 15 _ Hb eq_refl) as Hd. pose proof (struct_field _ _ _ 16 _ Hb eq_refl) as Hp.
  pose proof (struct_field _ _ _ 17 _ Hb eq_refl) as He.
  change (c_ok (c_nilable c_string) (TxIDs b)) in Hids. change (Forall (c_ok c_delta) (SystemStateDeltas b)) in Hd.
  change (c_ok (c_pointer c_plan) (ExecutionPlan b)) in Hp. change (c_ok (c_pointer c_evidence) (ProposalEvidence b)) in He.
  unfold json_block. apply json_ok_obj. rewrite !Forall_app.
  split_and!; try (apply fld_ok; [done|assumption]); try (by apply fld_ok).
  - apply fld_ok; [done|]. destruct (TxIDs b) as [l|]; [|done].
    change (json_ok (JArr (JStr <$> l))). apply json_ok_arr, strings_json_ok, Hids.
  - apply opt_arr_json. right. split; [by apply name_utf8|by apply deltas_json_ok].
  - destruct (ExecutionPlan b) as [p|]; [|constructor]. change (c_ok c_plan p) in Hp. apply fld_ok; [done|].
    unfold json_plan. apply json_ok_obj. rewrite !Forall_app.
    split_and!; (apply fld_ok; [done|]).
    + exact (struct_field _ _ p 0 _ Hp eq_refl).
    + exact (struct_field _ _ p 1 _ Hp eq_refl).
    + exact (struct_field _ _ p 2 _ Hp eq_refl).
  - destruct (ProposalEvidence b) as [p|]; [|constructor]. change (c_ok c_evidence p) in He. apply fld_ok; [done|].
    unfold json_evidence. apply json_ok_obj. rewrite !Forall_app.
    split_and!; (apply fld_ok; [done|]).
    + exact (struct_field _ _ p 0 _ He eq_refl).
    + exact (struct_field _ _ p 1 _ He eq_refl).
Qed.

Lemma block_ids_member b : member "tx_ids" (value_of (json_block b)) = Some (value_of (c_enc (c_nilable c_string) (TxIDs b))).
Proof. reflexivity. Qed.

(** The bytes that [Hash] hashes; those that give the ids of the transactions. *)
Definition header_input (b : Block) : list N := bytes_of_string (marshal (json_block b)).
Definition id_inputs (l : list SignedTransaction) : list (list N) := (λ t, bytes_of_string (CanonicalBytes t)) <$> l.
Definition block_inputs (b : Block) : list (list N) := header_input b :: id_inputs (TxList b).

(** One hash, one list of ids. *)
Lemma hash_binds_ids b1 b2 : c_ok c_block b1 → c_ok c_block b2 → coll_free [header_input b1] [header_input b2] →
  Hash b1 = Hash b2 → TxIDs b1 = TxIDs b2.
Proof.
  intros H1 H2 C E. unfold Hash in E. apply (sha256_hex_binds _ _ C) in E.
  apply marshal_values in E; [|by apply block_json_ok..]. apply (f_equal (member "tx_ids")) in E.
  rewrite !block_ids_member in E. apply (inj Some) in E. by apply id_values_inj.
Qed.

(** ** The bodies *)

Section Bodies.
Context {ed : Ed25519}.

Lemma verified_id t : Verify t = None → TxID t = sha256_hex (CanonicalBytes t).
Proof.
  unfold Verify. destruct (ValidateBasic t) as [e|] eqn:E; [done|]. intros _. unfold ValidateBasic in E.
  repeat (case_match; try done).
  match goal with H : negb (bool_decide (TxID t = _)) = false |- _ => by apply negb_false_iff, bool_decide_eq_true in H end.
Qed.

Lemma check_bodies_ids ids items : ∀ seen, check_bodies true seen ids items = None → length ids = length items →
  ids = TxID <$> items ∧ Forall (λ t, Verify t = None) items ∧ NoDup ids ∧ ∀ id, id ∈ ids → id ∉ seen.
Proof.
  revert ids. induction items as [|t items IH]; intros [|id ids] seen H Hlen; try done.
  { split_and!; [done|constructor|constructor|]. intros id Hid. by apply not_elem_of_nil in Hid. }
  cbn [check_bodies] in H. destruct (_ ≟ ""); [done|]. destruct (bool_decide (id = TxID t)) eqn:E; [|done]. cbn [negb] in H.
  apply bool_decide_eq_true in E as ->. destruct (bool_decide (TxID t ∈ seen)) eqn:E; [done|]. apply bool_decide_eq_false in E.
  destruct (Verify t) eqn:Ev; [done|]. apply IH in H as (-> & Hall & Hnd & Hns); [|by injection Hlen].
  split_and!; [done|by constructor| |].
  - apply NoDup_cons. split; [|done]. intros Hin. specialize (Hns _ Hin). set_solver.
  - intros id' [->|Hin]%elem_of_cons; [done|]. specialize (Hns _ Hin). set_solver.
Qed.

Lemma structural_facts r b : pbftAuthenticationRequired r = true → validateConsensusBlockStructuralV1 r b = None →
  Hash b = BlockHash b ∧ default [] (TxIDs b) = TxID <$> TxList b ∧ NoDup (TxID <$> TxList b) ∧
  Forall (λ t, Verify t = None) (TxList b).
Proof.
  intros Hr. unfold validateConsensusBlockStructuralV1. rewrite Hr. intros H. destruct (_ ≟ ""); [done|].
  destruct (bool_decide (Hash b = BlockHash b)) eqn:Eh; [|done]. cbn [negb] in H. apply bool_decide_eq_true in Eh.
  destruct (bool_decide (length _ = length _)) eqn:El; [|done]. cbn [negb] in H. apply bool_decide_eq_true in El.
  destruct (negb _); [done|]. destruct (check_bodies_ids _ _ _ H El) as (Ei & Hall & Hnd & _).
  split_and!; [done|done|by rewrite <- Ei|done].
Qed.

(** Lists of verified transactions with the same ids. *)
Lemma bodies_bound l1 : ∀ l2, Forall (c_ok c_transaction) l1 → Forall (c_ok c_transaction) l2 →
  Forall (λ t, Verify t = None) l1 → Forall (λ t, Verify t = None) l2 → coll_free (id_inputs l1) (id_inputs l2) →
  TxID <$> l1 = TxID <$> l2 → core <$> l1 = core <$> l2.
Proof.
  induction l1 as [|t1 l1 IH]; intros [|t2 l2] O1 O2 V1 V2 C E; try done.
  apply coll_free_cons in C as [Ct C].
  apply Forall_cons in O1 as [Ot1 O1], O2 as [Ot2 O2], V1 as [Vt1 V1], V2 as [Vt2 V2].
  rewrite !fmap_cons in E. injection E as Et E. rewrite !fmap_cons, (IH l2 O1 O2 V1 V2 C E).
  rewrite (verified_id t1 Vt1), (verified_id t2 Vt2) in Et.
  apply (sha256_hex_binds _ _ Ct) in Et. f_equal. by apply canonical_bytes_inj.
Qed.

Lemma block_transactions_ok b : c_ok c_block b → Forall (c_ok c_transaction) (TxList b).
Proof. intros Hb. exact (struct_field _ _ _ 7 _ Hb eq_refl). Qed.

(** C29: two blocks with one hash that pass the structural check under an
    authenticating plan carry the same transactions in the same order, in every
    field that executors read (all but the signature). The texts of the blocks are
    UTF-8, and no string hashed for the one block, its header or the canonical bytes
    of a transaction, has the SHA-256 digest of a different one hashed for the other. *)
Theorem consensus_hash_binds_transactions (r1 r2 : NodeRuntime) (b1 b2 : Block) :
  pbftAuthenticationRequired r1 = true → pbftAuthenticationRequired r2 = true →
  c_ok c_block b1 → c_ok c_block b2 → coll_free (block_inputs b1) (block_inputs b2) →
  validateConsensusBlockStructuralV1 r1 b1 = None → validateConsensusBlockStructuralV1 r2 b2 = None →
  BlockHash b1 = BlockHash b2 →
  TxID <$> TxList b1 = TxID <$> TxList b2 ∧ core <$> TxList b1 = core <$> TxList b2.
Proof.
  intros Hr1 Hr2 O1 O2 C V1 V2 E. destruct (structural_facts _ _ Hr1 V1) as (H1 & I1 & _ & A1).
  destruct (structural_facts _ _ Hr2 V2) as (H2 & I2 & _ & A2).
  apply coll_free_cons in C as [Ch C].
  assert (TxIDs b1 = TxIDs b2) as Ei by (apply hash_binds_ids; [exact O1|exact O2|exact Ch|congruence]).
  rewrite <- Ei, I1 in I2. split; [exact I2|].
  exact (bodies_bound _ _ (block_transactions_ok _ O1) (block_transactions_ok _ O2) A1 A2 C I2).
Qed.

End Bodies.
