(* ===== verification/CrossShard.v ===== *)
(** * Cross-shard steps and state proofs
    ([executor/realism/xshard], [executor/realism/state/proof.go])

    A transfer between two shards as the sequence of its stages over the two state
    databases, and the proofs of single values. Times are arguments. The CSV files
    that report a run are given by their rows; failing writes are left out. *)
From S2P Require Import Prelude GoStd GoJson JsonRoundtrip GoStruct Tx Block BlockCodec StateRoot Serial StateDB Durability Heap BatchSI BatchSIWire BatchSIBinding.
Import Json.
Local Open Scope N_scope.

(** ** State proofs *)

Record Proof_ := MkProof { pf_Key : string; pf_Value : string; pf_Root : string; pf_LeafHash : string; pf_ProofType : string }.

Definition leaf_hash (key value : string) : string := sha256_hex (key +:+ "=" +:+ value).

Definition GenerateProof (key : string) (d : DB) : DB * Proof_ :=
  let value := Get d key in
  let '(d, root) := DBRoot d in
  (d, MkProof key value root (leaf_hash key value) "deterministic_hash_tree_mvp").

Definition VerifyProof (key value : string) (proof : Proof_) (root : string) : bool :=
  (pf_Key proof ≟ key) && (pf_Value proof ≟ value) && (pf_Root proof ≟ root) && (pf_LeafHash proof ≟ leaf_hash key value).

(** ** Events and certificates *)

Inductive Stage_ :=
  | Detected | SourceLock | RelayCertificate | TargetVerify | TargetCommit | SourceFinalize | Timeout | Refund | Abort_.

#[global] Instance Stage__eq_dec : EqDecision Stage_.
Proof. solve_decision. Defined.

Definition stage_text (s : Stage_) : string :=
  match s with
  | Detected => "Detected" | SourceLock => "SourceLock" | RelayCertificate => "RelayCertificate"
  | TargetVerify => "TargetVerify" | TargetCommit => "TargetCommit" | SourceFinalize => "SourceFinalize"
  | Timeout => "Timeout" | Refund => "Refund" | Abort_ => "Abort"
  end.

Record Event := MkEvent {
  ev_Timestamp : Z; ev_TxID : string; ev_SourceShard : string; ev_TargetShard : string; ev_Stage : Stage_;
  ev_Success : bool; ev_EventHash : string; ev_Error : string }.

Definition bool_text (b : bool) : string := if b then "true" else "false".

Definition event (now : Z) (txID sourceShard targetShard : string) (stage : Stage_) (success : bool) (errText : string) : Event :=
  MkEvent now txID sourceShard targetShard stage success
    (sha256_hex (txID +:+ ":" +:+ sourceShard +:+ ":" +:+ targetShard +:+ ":" +:+ stage_text stage +:+ ":" +:+
       bool_text success +:+ ":" +:+ errText)) errText.

Record Certificate := MkCertificate {
  ce_TxID : string; ce_SourceShard : string; ce_TargetShard : string; ce_SourceBlockHash : string;
  ce_LockEventHash : string; ce_StateRoot : string; ce_CertificateDigest : string; ce_DeterministicMVP : bool }.

#[global] Instance certificate_eta : Eta Certificate := λ r,
  MkCertificate (ce_TxID r) (ce_SourceShard r) (ce_TargetShard r) (ce_SourceBlockHash r) (ce_LockEventHash r) (ce_StateRoot r)
    (ce_CertificateDigest r) (ce_DeterministicMVP r).

Definition c_certificate : codec Certificate := c_struct (MkCertificate "" "" "" "" "" "" "" false)
  ["tx_id" ::= c_string at ce_TxID; "source_shard" ::= c_string at ce_SourceShard;
   "target_shard" ::= c_string at ce_TargetShard; "source_block_hash" ::= c_string at ce_SourceBlockHash;
   "lock_event_hash" ::= c_string at ce_LockEventHash; "state_root" ::= c_string at ce_StateRoot;
   "certificate_digest" ::= c_string at ce_CertificateDigest;
   "deterministic_certificate_mvp" ::= c_bool at ce_DeterministicMVP].

Lemma certificate_lawful : lawful c_certificate.
Proof. solve_struct. Qed.
Lemma certificate_tested : tested c_certificate.
Proof. solve_tested. Qed.

Definition undigested (txID sourceShard targetShard sourceBlockHash lockEventHash stateRoot : string) : Certificate :=
  MkCertificate txID sourceShard targetShard sourceBlockHash lockEventHash stateRoot "" true.

Definition NewCertificate (txID sourceShard targetShard sourceBlockHash lockEventHash stateRoot : string) : Certificate :=
  let cert := undigested txID sourceShard targetShard sourceBlockHash lockEventHash stateRoot in
  ltac:(set_field ce_CertificateDigest (sha256_hex (Marshal c_certificate cert)) cert).

(** ** The state machine *)

Record Result_ := MkResult {
  rs_RuntimeStage : string; rs_RuntimeTruth : string; rs_RealCrossShardStateMachine : bool;
  rs_DeterministicCertificateMVP : bool; rs_ByzantineSecureRelay : bool; rs_ProductionAtomicCommit : bool;
  rs_Events : list Event; rs_Certificates : list Certificate; rs_RefundEvents : Z; rs_CrossShardTxCount : Z }.

(** [key[:8]] of the keys that start with [shard:]. *)
Definition shard_of_key (key : string) : option string :=
  if (8 <=? String.length key)%nat && (String.substring 0 6 key ≟ "shard:") then Some (String.substring 0 8 key) else None.

Definition IsCrossShard (item : SignedTransaction) : bool :=
  (1 <? size (list_to_set (omap shard_of_key (StateKeys item)) : gset string))%nat.

Definition baseResult : Result_ :=
  MkResult "v4_2_state_cross_shard_recovery_frontend" "v4_real_state_cross_shard_recovery" true true false false [] [] 0 0.

(** [clock i] is the time of the [i]-th event. *)
Definition RunSuccess (clock : nat → Z) (item : SignedTransaction) (sourceShard targetShard sourceBlockHash : string)
    (sourceDB targetDB : DB) : DB * DB * Result_ :=
  let ev i stage := event (clock i) (TxID item) sourceShard targetShard stage true "" in
  let lock := ev 1%nat SourceLock in
  let '(sourceDB, root) := DBRoot sourceDB in
  let cert := NewCertificate (TxID item) sourceShard targetShard sourceBlockHash (ev_EventHash lock) root in
  let targetDB := Set_ ("xshard_credit:" +:+ Receiver item +:+ ":" +:+ TxID item) (format_int (Value item)) targetDB in
  let sourceDB := Set_ ("xshard_finalized:" +:+ TxID item) "true" sourceDB in
  (sourceDB, targetDB,
   MkResult (rs_RuntimeStage baseResult) (rs_RuntimeTruth baseResult) true true false false
     [ev 0%nat Detected; lock; ev 2%nat RelayCertificate; ev 3%nat TargetVerify; ev 4%nat TargetCommit; ev 5%nat SourceFinalize]
     [cert] 0 1).

Definition RunRefund (clock : nat → Z) (item : SignedTransaction) (sourceShard targetShard : string) (sourceDB : DB) : DB * Result_ :=
  let ev i stage text := event (clock i) (TxID item) sourceShard targetShard stage true text in
  let sourceDB := Set_ ("xshard_refund:" +:+ TxID item) (format_int (Value item)) sourceDB in
  (sourceDB,
   MkResult (rs_RuntimeStage baseResult) (rs_RuntimeTruth baseResult) true true false false
     [ev 0%nat Detected ""; ev 1%nat Timeout "target_timeout"; ev 2%nat Refund ""; ev 3%nat Abort_ ""] [] 1 1).

(** The files [writeLogs] leaves in the directory, with their rows. *)
Definition event_row (e : Event) : list string :=
  [format_int (ev_Timestamp e); ev_TxID e; ev_SourceShard e; ev_TargetShard e; stage_text (ev_Stage e); bool_text (ev_Success e);
   ev_EventHash e; ev_Error e].
Definition event_header : list string :=
  ["timestamp"; "tx_id"; "source_shard"; "target_shard"; "stage"; "success"; "event_hash"; "error"].
Definition refund_stage (s : Stage_) : bool := match s with Refund | Abort_ | Timeout => true | _ => false end.

Definition writeLogs (outDir : string) (result : Result_) : list (string * list (list string)) :=
  if outDir ≟ "" then []
  else
    let rows := event_row <$> rs_Events result in
    [("xshard_state_log.csv", event_header :: rows);
     ("xshard_event_log.csv", event_header :: rows);
     ("relay_certificate_log.csv",
       ["tx_id"; "source_shard"; "target_shard"; "source_block_hash"; "lock_event_hash"; "state_root"; "certificate_digest";
        "deterministic_certificate_mvp"] ::
       ((λ c, [ce_TxID c; ce_SourceShard c; ce_TargetShard c; ce_SourceBlockHash c; ce_LockEventHash c; ce_StateRoot c;
               ce_CertificateDigest c; "true"]) <$> rs_Certificates result));
     ("refund_log.csv", event_header :: (event_row <$> filter (λ e, refund_stage (ev_Stage e) = true) (rs_Events result)))].

(** ** Facts *)
#[local] Opaque Sha256.sum256 sha256_hex.

Lemma generated_proof_verifies key d :
  VerifyProof key (Get d key) (GenerateProof key d).2 (DBRoot d).2 = true.
Proof. unfold GenerateProof, VerifyProof. cbn. by rewrite !bool_decide_eq_true_2. Qed.

(** Nothing links a proof to the root: there is one for every value. *)
Lemma proof_for_every_value key value root : ∃ proof, VerifyProof key value proof root = true.
Proof.
  exists (MkProof key value root (leaf_hash key value) ""). unfold VerifyProof. cbn. by rewrite !bool_decide_eq_true_2.
Qed.

(** Shards whose names agree in two characters are one shard to [IsCrossShard]. *)
Definition two_shards : SignedTransaction :=
  MkTx "" "" "a" "b" 0 1 ["shard:100:a"; "shard:101:b"] [] "" "" "" [] "" "" "" "" 0 "" "" "" "" None.
Lemma cross_shard_prefix_conflates : IsCrossShard two_shards = false.
Proof. vm_compute. reflexivity. Qed.

(** The digest of a certificate determines the transfer it certifies. *)
Lemma certificate_binds t1 s1 d1 b1 l1 r1 t2 s2 d2 b2 l2 r2 :
  c_ok c_certificate (undigested t1 s1 d1 b1 l1 r1) → c_ok c_certificate (undigested t2 s2 d2 b2 l2 r2) →
  coll_free [bytes_of_string (Marshal c_certificate (undigested t1 s1 d1 b1 l1 r1))]
    [bytes_of_string (Marshal c_certificate (undigested t2 s2 d2 b2 l2 r2))] →
  ce_CertificateDigest (NewCertificate t1 s1 d1 b1 l1 r1) = ce_CertificateDigest (NewCertificate t2 s2 d2 b2 l2 r2) →
  NewCertificate t1 s1 d1 b1 l1 r1 = NewCertificate t2 s2 d2 b2 l2 r2.
Proof.
  intros H1 H2 C E. change (sha256_hex (Marshal c_certificate (undigested t1 s1 d1 b1 l1 r1)) =
    sha256_hex (Marshal c_certificate (undigested t2 s2 d2 b2 l2 r2))) in E.
  apply (sha256_hex_binds _ _ C) in E. apply (f_equal (Unmarshal c_certificate)) in E.
  rewrite !unmarshal_marshal in E by (done || apply certificate_lawful). unfold undigested in E. injection E as -> -> -> -> -> ->. done.
Qed.

(** What a completed transfer leaves in the two databases: a credit of the value
    on the target, a mark on the source, and nothing else. *)
Lemma run_success_values clock item src dst hash s t s' t' r :
  RunSuccess clock item src dst hash s t = (s', t', r) →
  db_values t' = <[db_key t ("xshard_credit:" +:+ Receiver item +:+ ":" +:+ TxID item) := format_int (Value item)]> (db_values t) ∧
  db_values s' = <[db_key s ("xshard_finalized:" +:+ TxID item) := "true"]> (db_values s) ∧
  (db_ok s → db_ok s') ∧ (db_ok t → db_ok t') ∧ ce_StateRoot <$> rs_Certificates r = [(DBRoot s).2].
Proof.
  unfold RunSuccess. change (DBRoot s) with (ensure_commitment s, CommitmentRoot (db_commitment (ensure_commitment s))).
  cbv beta iota zeta. intros [= <- <- <-].
  assert (db_values (ensure_commitment s) = db_values s ∧ db_key (ensure_commitment s) = db_key s) as [Ev Ek]
    by (unfold ensure_commitment; by destruct (db_commitment s)).
  split_and!; [done| | | |done].
  - cbn [Set_ put set_commitment set_values db_values]. by rewrite Ev, Ek.
  - intros Hs. by apply db_ok_put, db_ok_ensure.
  - intros Ht. apply db_ok_put, Ht.
Qed.
