(* ===== verification/AuthExamples.v ===== *)
(** * The authentication theorems on concrete inputs

    Two schemes stand in for Ed25519. In the first a signature is a digest of the
    public key and the message, which meets the documented laws; in the second
    only the votes of one round verify, which nobody can forge. *)
From S2P Require Import Prelude GoStd GoJson JsonRoundtrip GoStruct GoText TxSign Tx Block BlockCodec StateRoot Heap Serial BatchSI BatchSIWire BatchSIBinding PbftTypes PbftAuth PbftIdentity PbftState PbftCert PbftInv PbftSteps PbftView PbftReach PbftLive PbftCheckpoint PbftTheorems PbftAgreement ConsensusBlock.
Local Open Scope N_scope.

(** ** Digests as signatures *)

Module Digests.

Definition public (key : list N) : list N := Sha256.sum256 (take 32 key).
Definition signature (pub message : list N) : list N := Sha256.sum256 (pub ++ message) ++ Sha256.sum256 message.

#[global] Instance scheme : Ed25519 := {|
  public_of := public;
  ed_sign key message := signature (public key) message;
  ed_verify pub message sig := bool_decide (sig = signature pub message);
  new_key_from_seed seed := seed ++ Sha256.sum256 seed;
  seed_of key := take 32 key;
|}.

#[global] Instance scheme_laws : Ed25519Laws.
Proof.
  split.
  - intros key _. split; [apply length_sum256|apply sum256_range].
  - intros key message _. split; [exact (eq_trans (length_app _ _) (f_equal2 Nat.add (length_sum256 _) (length_sum256 _)))|].
    apply Forall_app. split; apply sum256_range.
  - intros seed Hs. exact (eq_trans (length_app _ _) (f_equal2 Nat.add Hs (length_sum256 _))).
  - intros key message _. by apply bool_decide_eq_true_2.
Qed.

Definition options : GenerateOptions := MkGenerate 2 "alice" "bob" 5 1 [] [] "seed" "" 100.
Definition generated : list SignedTransaction := Eval vm_compute in
  match Generate options with inr (txs, _, _) => txs | inl _ => [] end.

(** The ids of four nodes and their keys. *)
Definition ids : list string := ["n0"; "n1"; "n2"; "n3"].
Definition nodes : list NodePlan := (λ id, MkNodePlan id "shard0" ids) <$> ids.
Definition seed_bytes (i : nat) : list N := N.of_nat i :: replicate 31 7.
Definition generate (i : nat) : option (list N * list N) :=
  if (i <? 4)%nat then let key := new_key_from_seed (seed_bytes i) in Some (public key, key) else None.
Definition material : gmap string string * gmap string string := Eval vm_compute in
  match GeneratePBFTIdentityMaterial generate nodes with inr m => m | inl _ => (∅, ∅) end.
Definition plan : Plan := MkPlan "run1" PBFTIdentitySchemeEd25519V1 material.1 nodes.
Definition runtime (id : string) : NodeRuntime :=
  MkRuntime plan (MkNodePlan id "shard0" ids) (default "" (material.2 !! id)).

Lemma generate_source : key_source generate.
Proof.
  intros i p k H. unfold generate in H. destruct (i <? 4)%nat eqn:Ei; [|done]. cbv zeta in H. apply Nat.ltb_lt in Ei.
  apply (inj Some), pair_equal_spec in H as [<- <-]. split; [done|]. split.
  - exact (seed_size (seed_bytes i) eq_refl).
  - change (are_bytes (seed_bytes i ++ Sha256.sum256 (seed_bytes i))). apply Forall_app. split; [|apply sum256_range]. constructor; [lia|]. apply Forall_replicate. lia.
Qed.

(** Two blocks over the generated transactions that differ outside their hash. *)
Definition block (committed : bool) : Block := Eval vm_compute in
  let b := AssignHash (MkBlock "" "shard0" 1 "genesis" "n0" 7 (Some (TxID <$> generated)) generated "" "empty"
             "pending_not_executed" "pending_not_executed" "" false false [] None None) in
  MkBlock (BlockHash b) (ShardID b) (Height b) (PreviousHash b) (ProposerID b) (BlockTimestamp b) (TxIDs b) (TxList b)
    (TxRootField b) (StateRootBefore b) (StateRootAfter b) (ReceiptRootField b) (ProposerDigest b) committed false [] None None.

End Digests.

Lemma generated_transactions_verify_witness :
  ∃ txs pub priv, Generate Digests.options = inr (txs, pub, priv) ∧ Z.of_nat (length txs) = 2%Z.
Proof.
  destruct (generated_transactions_verify Digests.options) as (txs & pub & priv & H & Hl & _);
    [vm_compute; by intros|done|vm_compute; reflexivity|right; vm_compute; reflexivity|done|done|].
  exact (ex_intro _ txs (ex_intro _ pub (ex_intro _ priv (conj H Hl)))).
Defined.

Lemma generated_identities_authenticate_witness :
  ∃ m', sign_message (Digests.runtime "n1") (MsgCommit (Demo.commit "n1")) = inr m' ∧
    check_signature (Digests.runtime "n2") m' = None.
Proof.
  destruct (generated_identities_authenticate Digests.generate Digests.nodes Digests.material.1 Digests.material.2
    (Digests.runtime "n1") (Digests.runtime "n2") (MsgCommit (Demo.commit "n1"))) as (m' & Hs & _ & _ & Hc).
  - apply Digests.generate_source.
  - vm_compute. reflexivity.
  - reflexivity.
  - reflexivity.
  - set_solver.
  - vm_compute. reflexivity.
  - done.
  - reflexivity.
  - reflexivity.
  - apply commit_tested. vm_compute. reflexivity.
  - exact (ex_intro _ m' (conj Hs Hc)).
Defined.

Lemma consensus_hash_binds_transactions_witness :
  TxSign.core <$> TxList (Digests.block false) = TxSign.core <$> TxList (Digests.block true).
Proof.
  refine (proj2 (consensus_hash_binds_transactions (Digests.runtime "n1") (Digests.runtime "n2") (Digests.block false) (Digests.block true)
    _ _ _ _ _ _ _ _)).
  - vm_compute. reflexivity.
  - vm_compute. reflexivity.
  - apply block_tested. vm_compute. reflexivity.
  - apply block_tested. vm_compute. reflexivity.
  - apply coll_free_tested. vm_compute. reflexivity.
  - vm_compute. reflexivity.
  - vm_compute. reflexivity.
  - reflexivity.
Defined.

(** ** Only the votes of a round verify *)

Module Round.

Definition mark : string := Eval vm_compute in encode64 (replicate 64 1).
Definition commit (id : string) : Commit := MkCommit 0 1 1 id Demo.hash1 mark.
Definition vote_bytes (id : string) : list N :=
  match signed_bytes (commit_content (commit id)) with inr m => m | inl _ => [] end.

(** The keys of the plan. *)
Definition keys : list (string * list N) := Eval vm_compute in
  imap (λ i id, (id, Digests.public (@new_key_from_seed Digests.scheme (Digests.seed_bytes i)))) Digests.ids.
Definition key (id : string) : list N := default [] (snd <$> find (λ kv, String.eqb kv.1 id) keys).

Definition scheme : Ed25519 := {|
  public_of := Digests.public;
  ed_sign _ _ := [];
  ed_verify pub message _ := existsb (λ kv, bool_decide (kv.2 = pub) && bool_decide (message = vote_bytes kv.1)) keys;
  new_key_from_seed seed := seed;
  seed_of key := key;
|}.

Definition round : list op :=
  [OpPrepare 1 (Demo.prepare "n2"); OpPrePrepare 2 Demo.preprepare; OpPrepare 3 (Demo.prepare "n0");
   OpPrepare 4 (Demo.prepare "n1"); OpCommit 5 (commit "n0"); OpCommit 6 (commit "n1"); OpCommit 7 (commit "n3")].
Definition committed (id : string) : State := default (Demo.replica id) (run round (Demo.replica id)).

Definition sent (node : string) (content : signable) : Prop := content = commit_content (commit node).

Lemma round_reach id : id ∈ ["n1"; "n2"] →
  reach (λ o, op_ok Demo.univ o ∧ @commits_checked scheme (Digests.runtime id) o) (Demo.replica id) (committed id).
Proof.
  intros Hid. assert (defined (run round (Demo.replica id)) = true) as Hdef.
  { repeat (apply elem_of_cons in Hid as [->|Hid]; [vm_compute; reflexivity|]). by apply not_elem_of_nil in Hid. }
  apply (run_reach _ round); [|exact (defined_default _ _ Hdef)]. clear Hdef.
  assert (∀ v, v ∈ ["n0"; "n1"; "n3"] → c_ok c_commit (commit v) ∧
    @verifyPBFTCommitAuthentication scheme (Digests.runtime id) (commit v) = None) as Hv.
  { intros v Hv. split.
    - apply commit_tested. repeat (apply elem_of_cons in Hv as [->|Hv]; [vm_compute; reflexivity|]). by apply not_elem_of_nil in Hv.
    - repeat (apply elem_of_cons in Hid as [->|Hid]; [repeat (apply elem_of_cons in Hv as [->|Hv]; [vm_compute; reflexivity|]);
        by apply not_elem_of_nil in Hv|]). by apply not_elem_of_nil in Hid. }
  unfold round. repeat (apply List.Forall_cons; [split; [exact I || reflexivity|]|]); [apply List.Forall_nil..| | | |apply List.Forall_nil];
    (apply List.Forall_cons; [apply Hv; set_solver|apply List.Forall_nil]).
Qed.

Lemma keys_registered : forallb (λ node, bool_decide (@pbftPublicKey scheme (Digests.runtime "n1") node = inr (key node)))
  Demo.validators = true.
Proof. vm_compute. reflexivity. Qed.

Lemma keys_differ : forallb (λ kv, forallb (λ node, implb (bool_decide (kv.2 = key node)) (bool_decide (kv.1 = node)))
  Demo.validators) keys = true.
Proof. vm_compute. reflexivity. Qed.

Lemma votes_ok : forallb (λ node, c_test c_commit (commit node)) Demo.validators = true.
Proof. vm_compute. reflexivity. Qed.

Lemma votes_unforgeable : @unforgeable scheme (Digests.runtime "n1") Demo.validators ∅ sent.
Proof.
  intros node k message sig Hin _ Hk Hv.
  pose proof (forallb_elem _ _ _ keys_registered Hin) as Hr. apply bool_decide_eq_true in Hr. rewrite Hk in Hr. injection Hr as ->.
  change (existsb (λ kv, bool_decide (kv.2 = key node) && bool_decide (message = vote_bytes kv.1)) keys = true) in Hv.
  apply existsb_exists in Hv as (kv & Hkv & [H1 H2]%andb_true_iff). apply bool_decide_eq_true in H2 as ->.
  pose proof (forallb_elem _ _ kv keys_differ (proj2 (list_elem_of_In _ _) Hkv)) as Hd.
  pose proof (forallb_elem _ _ _ Hd Hin) as Hd'. cbv beta in Hd'. rewrite H1 in Hd'. apply bool_decide_eq_true in Hd' as ->.
  exists (commit_content (commit node)). split; [done|].
  assert (signable_ok (commit_content (commit node))) as Hok.
  { apply commit_content_ok, commit_tested. exact (forallb_elem _ _ _ votes_ok Hin). }
  split; [done|]. destruct (signed_bytes_total _ Hok) as [m Hm]. unfold vote_bytes. by rewrite Hm.
Qed.

End Round.

Lemma authenticated_commits_agree_witness :
  ∃ c1 c2, st_CommitCertificates (Round.committed "n1") !! 1 = Some c1 ∧
           st_CommitCertificates (Round.committed "n2") !! 1 = Some c2 ∧ cc_BlockHash c1 = cc_BlockHash c2.
Proof.
  eexists _, _. split; [vm_compute; reflexivity|]. split; [vm_compute; reflexivity|].
  apply (@authenticated_commits_agree Round.scheme Demo.univ (Digests.runtime "n1") (Digests.runtime "n2") Digests.plan
    "shard0" "n0" Demo.validators 0 0 (Round.committed "n1") (Round.committed "n2") 1 _ _ ∅ Round.sent).
  - apply Demo.univ_hash.
  - done.
  - vm_compute. done.
  - vm_compute. reflexivity.
  - reflexivity.
  - reflexivity.
  - apply Round.round_reach. set_solver.
  - apply Round.round_reach. set_solver.
  - vm_compute. reflexivity.
  - vm_compute. reflexivity.
  - reflexivity.
  - vm_compute. discriminate.
  - apply Round.votes_unforgeable.
  - intros node v w _ Hv Hw _ _. unfold Round.sent in Hv, Hw. rewrite <- Hw in Hv. by injection Hv as ->.
Defined.
